(* ===== verification/_CoqProject ===== *)
-Q . S2P
Prelude.v
Bits.v
SysReg.v
State.v
Decode.v
DecodeWf.v
Memory.v
Vreg.v
Exec.v
Alu.v
ExecWf.v
ExecFrame.v
BTree.v
Region.v
UserMemory.v
AddressSpace.v
Mappings.v
UserAccess.v
CodeWatch.v
SysMem.v
Except.v
SysAccess.v
SysStep.v
SysMemWf.v
SysSafe.v
El0.v
MmuRegs.v
Walk.v
Tlb.v
Mmu.v
WalkSpec.v
MmuWf.v
MmuCache.v
TlbCoherent.v
WalkRef.v
MmuBus.v
MmuBusWf.v
SnapWire.v
SnapCodec.v
SnapFile.v
SnapLz.v
SnapLzh.v
SnapHuff.v
SnapCanon.v
SnapMatch.v
SnapLzhProof.v
SnapBlocks.v
SnapBlocksProof.v
SnapOverlay.v
SnapOverlayProof.v
PlatBus.v
Gic.v
GicWf.v
GicProof.v
GicLife.v
GicSnap.v
PlatTimer.v
Pl011.v
Pl031.v
Pl061.v
VirtQueue.v
VirtMmio.v
VirtBlk.v
VirtChain.v
VirtMmioProof.v
VirtBlkProof.v
VirtHostDisk.v
VirtCow.v
VirtRequest.v
PlatVirt.v
PlatVirtProof.v
NetWire.v
NetTcp.v
NetTcpProof.v
NetTcpStream.v
NetTcpSend.v
NetRuns.v
