(* ===== verification/Prelude.v ===== *)
(** * Vetro: a verification library

    Vetro (crates under src/crates) runs an arm64 guest in a browser or on a
    host: a CPU interpreter (vetro-cpu), an MMU (vetro-mmu), the platform
    devices (vetro-platform), snapshots (vetro-snapshot), a network stack
    (vetro-net), a JIT (vetro-jit) and the machine that composes them
    (vetro-machine). This library models the CPU of Vetro, in user mode over
    the address space of a Linux process and in system mode over an abstract
    bus, the MMU that implements that bus over physical memory, the platform
    (interrupt controller, timers, simple devices, the virtio transport with
    its block device and disks, and the board that wires them), the files of
    snapshots with their compression, and the wire formats and the TCP of the
    virtual gateway, and proves the theorems that make them correct. Integers are [Z] with the wrap-around of their width written
    out; code that threads state and errors is written in the monad [prog] of
    this file.

    ** Files

    - Prelude: machine integers, little-endian bytes, the result and state
      monads, record update, the framing lemmas on programs, hints.
    - Bits (bits.rs), SysReg (sysreg.rs), State (state.rs, sys/state.rs,
      sys/id.rs): bit fields, system register names, the state of the CPU and
      its invariant [cpu_wf].
    - Decode, DecodeWf (decode.rs, simd/ldst.rs): instructions, the
      decoder, and what the decoder promises to the interpreter ([insn_wf]).
    - Memory, Vreg, Exec (mem.rs, simd/vreg.rs, exec.rs, simd/ldst.rs): the
      [Memory] interface as a class with its laws, vector lanes, and one
      definition per arm of [execute] with [step] over it.
    - Alu: each arithmetic instruction against a mathematical reference.
    - ExecWf, ExecFrame: a step keeps the invariants, never reaches an
      [unreachable!] of the code modelled, never writes the system state, and leaves the CPU
      unchanged when it raises, but for two kinds of instruction.
    - BTree, Region, UserMemory (mem.rs): the ordered map of regions, lazily
      allocated pages and shared buffers, and every operation of the address
      space. AddressSpace, Mappings, UserAccess: each operation against the
      abstract view of the address space (a partial function from addresses to
      permissions, backing and byte). CodeWatch: the pages under watch that
      the JIT relies on, and a concrete process.
    - SysMem (sys/mod.rs, sys/mem.rs), Except (sys/except.rs),
      SysAccess (sys/regs.rs), SysStep (sys/step.rs): system mode over the
      interfaces [SysBus] and [CpuEnv]. SysMemWf, SysSafe: translated accesses
      and the whole of [step_system] are safe over any bus and platform that
      keep the laws. El0: code at EL0 reaches EL1 only through the vectors and
      the platform only through the timer registers opened to it; a concrete
      board.
    - MmuRegs (regs.rs, fault.rs), Walk (walk.rs), Tlb (tlb.rs), Mmu (mmu.rs),
      MmuBus (bus.rs, adapter.rs) of vetro-mmu: translation registers and
      syndromes, the table walk over the interface [PhysMemory], the TLB, the
      cache of recent translations, and the instances of [SysBus] and
      [Memory]. WalkSpec, MmuWf: ranges and invariants. WalkRef: the
      walk against a reference by levels. MmuCache: the recent cache is
      transparent. TlbCoherent: with coherent entries the TLB is transparent,
      and the architectural invalidations restore coherence; the log of
      invalidations is exact. MmuBusWf: the MMU keeps the laws of [SysBus], so
      [step_system] is safe over it, and both encoders of a syndrome agree; a
      concrete board with page tables.
    - SnapWire, SnapFile (lib.rs), SnapLz (lz.rs), SnapLzh (lzh.rs) of
      vetro-snapshot: the writer and reader of a snapshot, its file with header
      and checksum, the block compressor, and the frame compressor (LZ77 with
      Huffman codes). SnapBlocks (blocks.rs): the block store. SnapOverlay
      (overlay.rs): the file of a copy-on-write disk. SnapCodec: what it
      means for a writer and a reader to be a codec, and the combinators that
      are. SnapLz also holds the round trip of the block compressor. SnapHuff:
      the code lengths satisfy Kraft's equality within 12 bits. SnapCanon: the
      decoding table decodes the canonical codes, and the bit writer and reader
      as fields. SnapMatch: the matches found are matches. SnapLzhProof: the
      round trip of frames. SnapBlocksProof: the round trip of large data over
      the interfaces [Source] and [Target]. SnapOverlayProof: an overlay and
      its file, updates, loads and interruptions.
    - PlatBus (map.rs, bus.rs), Gic (gic.rs), PlatTimer (timer.rs), Pl011,
      Pl031, Pl061 of vetro-platform: the address map and the device bus over
      the interface [MmioDevice], the GICv3, the generic timer and the simple
      devices, each with its snapshot; the files of the small devices hold
      their theorems too. GicWf: the invariant of the GIC, the interrupt
      selected, and that every operation keeps the invariant. GicProof:
      sequences of operations, priorities, software-generated interrupts and
      the registers against their specification. GicLife: acknowledgement and
      end of interrupt, and a handler that serves everything pending. GicSnap:
      save and restore, and a concrete controller.
    - VirtQueue (virtio/queue.rs), VirtMmio (virtio/mmio.rs, virtio/mod.rs),
      VirtBlk (virtio/blk.rs): guest memory as the interface [GuestRam], split
      queues, the transport over the interface [VirtioDevice], the block device
      over the interface [BlockBackend] with the disk in memory and the
      copy-on-write disk. VirtChain: the chains that [walk] accepts against
      those of the virtio specification, and what the operations of a queue
      keep and publish. VirtMmioProof: the laws of a device and the invariant
      of the transport. VirtBlkProof: the block device keeps them, its loop
      ends, and a panic. VirtHostDisk (vetro-wasm disk.rs): the disk whose
      blocks the host delivers. VirtCow: the copy-on-write disk refines a plain
      disk. VirtRequest: a write request from the driver to the disk, and
      concrete drivers, memory and disks.
    - PlatVirt (virt.rs): the board, its slots and interrupt lines.
      PlatVirtProof: it can be built, its invariant, its wiring, and a concrete
      board.
    - NetWire (wire.rs of vetro-net): Ethernet, ARP, IPv4, ICMP, UDP and TCP
      with their checksums; parsers that never index out of range, and round
      trips. NetTcp (tcp.rs, upstream.rs, events.rs, lib.rs): a TCP connection
      of the guest over the interface [Upstream]. NetTcpProof: the comparison of
      sequence numbers, no panics, the states of RFC 9293. NetTcpStream: the
      guest's bytes reach the upstream in order and once. NetTcpSend: the
      upstream's bytes are sent to the guest at their place. NetRuns: concrete
      connections, and an acknowledgement after 2^32 - 1 bytes.

    ** Parameters

    The AdvSIMD data-processing, floating-point and crypto classes
    (simd/int.rs, simd/fp.rs, simd/fpinsn.rs, simd/crypto.rs) are parameters:
    [SimdTypes], [SimdDecode] and [SimdExec], with the hypotheses
    [simd_decoders_ok] (their decoders yield only instructions of their own
    class) and [SimdExecLaws]: the executors are partial (no result stands for an
    [unreachable!]), and the laws say that on the instructions their decoders yield they
    return, keep the CPU well-formed and change only the registers and flags
    they are for. Every theorem over them names these hypotheses. Bus and platform of system mode are the classes
    [SysBus] and [CpuEnv] with their laws. Memory, devices and disks behind the
    virtio devices are the classes [GuestRam], [VirtioDevice] and
    [BlockBackend]; the sources' implementations are their instances. The remote
    side of a TCP connection is the class [Upstream], whose reads keep the
    length of their buffer ([UpstreamLaws]: it is a slice); how a ring buffer
    splits in two slices is the parameter [first_slice].

    ** Panics

    A panic is an error value: [Panic], [Panicked] or no result. Assertions,
    [unreachable!], [unwrap]s, divisions and the indices that depend on input
    give one where the code has them. The registers are looked up by number
    without a check at each access, since [decode_wf] bounds every number; the
    group priority of the GIC is that of a binary point of at most 7, which only
    a malformed snapshot exceeds; sums and differences that may leave their
    width (addresses of a queue, counters, times) wrap around, as they do
    without overflow checks. For a service turn of the transport no result
    stands for a panic or for a loop that ran out of fuel.

    ** Fuel

    Loops over pages and bytes take fuel equal to the number of bytes they
    have left, each turn handles at least one; [access_faults_have_details]
    shows that more fuel changes nothing. [replicate_loop] takes the width.
    The table walk is a recursion on the levels left. The loops of the
    compressors move forward by at least one byte a turn, so the length of
    their input is enough fuel; the round trips show that they complete. The
    loop over the entries of a block store covers a block a turn. The loop of
    the block device over its queue takes two turns more than the queue has
    entries: [blk_service_ends] shows it is enough unless the device's own
    writes change the index of the available ring, which a driver can arrange;
    the model then says [OutOfFuel] where the code goes on. The loop of a
    transfer takes a turn per chunk. The loops of a TCP connection take as many
    turns as there are bytes in their buffer or room for in it, and
    [connection_never_panics] shows that they end. The counters of the TLB
    and of its cache (generations, epochs, invalidations: u64, incremented
    once per operation) are unbounded integers.

    ** Not modelled

    The AdvSIMD data-processing classes and the JIT (its output is
    WebAssembly, whose semantics is not part of the sources), the save and
    restore of the CPU and the MMU, deferred saves, the device tree, the other
    virtio devices, the gateway above its TCP connections (dispatch, DHCP, DNS,
    forwarding), the graphics stream, the machine that
    schedules the cores, the introspection tools and the front ends but for
    the disk of the browser's. *)

From Stdlib Require Import ZArith Lia Bool.
From stdpp Require Import base gmap list numbers strings.

Local Open Scope Z_scope.

(** ** Machine integers

    A value of a Rust unsigned type is a [Z] in range; the casts [as u8] ...
    [as u128] are the functions below, and so are the wrapping operations
    ([wrapping_add x y] is [u64 (x + y)], [!x] is [u64 (Z.lnot x)], [x << n]
    is [u64 (Z.shiftl x n)]).  A value of a signed type is a [Z] with its
    sign; [i64] is the cast from the unsigned type. *)

Definition u8 (x : Z) : Z := x mod 2 ^ 8.
Definition u16 (x : Z) : Z := x mod 2 ^ 16.
Definition u32 (x : Z) : Z := x mod 2 ^ 32.
Definition u64 (x : Z) : Z := x mod 2 ^ 64.
Definition u128 (x : Z) : Z := x mod 2 ^ 128.

(** [as i<w>] of a value of [w] bits. *)
Definition signed (w x : Z) : Z :=
  let y := x mod 2 ^ w in if y <? 2 ^ (w - 1) then y else y - 2 ^ w.
Definition i64 (x : Z) : Z := signed 64 x.

Definition is_u (w x : Z) : Prop := 0 <= x < 2 ^ w.
Abbreviation is_u64 := (is_u 64).
Abbreviation is_u32 := (is_u 32).

(** [u64::leading_zeros] and friends on a [w]-bit value. *)
Definition leading_zeros (w x : Z) : Z := if x =? 0 then w else w - 1 - Z.log2 x.

#[global] Arguments u8 : simpl never.
#[global] Arguments u16 : simpl never.
#[global] Arguments u32 : simpl never.
#[global] Arguments u64 : simpl never.
#[global] Arguments u128 : simpl never.
#[global] Arguments signed : simpl never.
#[global] Arguments i64 : simpl never.
#[global] Arguments is_u : simpl never.

(** [b as u64]. *)
Definition b2z (b : bool) : Z := Z.b2z b.

(** [x & m != 0]. *)
Definition test_mask (x m : Z) : bool := negb (Z.land x m =? 0).

(** [u32::swap_bytes], [u64::swap_bytes]: the [n] bytes in reverse. *)
Fixpoint swap_bytes (n : nat) (x : Z) : Z :=
  match n with
  | O => 0
  | S n' => Z.lor (Z.shiftl (x mod 2 ^ 8) (8 * Z.of_nat n')) (swap_bytes n' (Z.shiftr x 8))
  end.

(** [u32::reverse_bits], [u64::reverse_bits]. *)
Fixpoint reverse_bits (n : nat) (x : Z) : Z :=
  match n with
  | O => 0
  | S n' => Z.lor (Z.shiftl (x mod 2) (Z.of_nat n')) (reverse_bits n' (Z.shiftr x 1))
  end.

(** ** Little-endian byte strings: [to_le_bytes()[..n]] and [from_le_bytes]. *)

Fixpoint to_le (n : nat) (v : Z) : list Z :=
  match n with
  | O => []
  | S n' => v mod 2 ^ 8 :: to_le n' (Z.shiftr v 8)
  end.

Fixpoint from_le (l : list Z) : Z :=
  match l with
  | [] => 0
  | b :: l' => b + 2 ^ 8 * from_le l'
  end.

Definition bytes_ok (l : list Z) : Prop := Forall (is_u 8) l.

(** ** Results *)

Inductive result (A E : Type) : Type :=
| Ok (a : A)
| Err (e : E).
Arguments Ok {A E} a.
Arguments Err {A E} e.

Definition map_err {A E F} (f : E -> F) (r : result A E) : result A F :=
  match r with Ok a => Ok a | Err e => Err (f e) end.

Definition map_ok {A B E} (f : A -> B) (r : result A E) : result B E :=
  match r with Ok a => Ok (f a) | Err e => Err e end.

Lemma ok_inj {A E} (a b : A) : @Ok A E a = Ok b -> a = b.
Proof. congruence. Qed.

Definition is_ok {A E} (r : result A E) : bool :=
  match r with Ok _ => true | Err _ => false end.

(** ** Stateful code that can fail

    [&mut self] methods returning [Result<A, E>]: the state after the call is
    there on both outcomes, so what a failing call already changed stays
    changed, as in the source. *)

Definition prog (S E A : Type) : Type := S -> result A E * S.

#[global] Instance prog_ret {S E} : MRet (prog S E) := fun A a s => (Ok a, s).
#[global] Instance prog_bind {S E} : MBind (prog S E) := fun A B k m s =>
  match m s with
  | (Ok a, s') => k a s'
  | (Err e, s') => (Err e, s')
  end.

Definition throw {S E A} (e : E) : prog S E A := fun s => (Err e, s).
Definition gets {S E A} (f : S -> A) : prog S E A := fun s => (Ok (f s), s).
Definition modify {S E} (f : S -> S) : prog S E unit := fun s => (Ok tt, f s).

(** A [for] loop over [l] that carries [acc] and stops at the first error. *)
Fixpoint foldM {S E A B} (f : A -> B -> prog S E A) (acc : A) (l : list B) : prog S E A :=
  match l with
  | [] => mret acc
  | x :: l' => a ← f acc x; foldM f a l'
  end.

(** ** Record update: [r <| field := v |>]

    [Eta R] rebuilds a record from its projections; the setter of a field is
    that term with the field replaced. *)

Class Eta (R : Type) : Type := eta : R -> R.
Class Setter {R E : Type} (proj : R -> E) : Type := update : (E -> E) -> R -> R.
Arguments update {R E} proj {_} f r.

Ltac derive_setter R proj :=
  let e := constr:(_ : Eta R) in
  let e := eval hnf in e in
  exact (fun set_f set_r => ltac:(
    let t := eval cbv beta in (e set_r) in
    match t with
    | context K [proj set_r] => let t' := context K [set_f (proj set_r)] in exact t'
    end)).

#[global] Hint Extern 1 (@Setter ?R ?E ?proj) => derive_setter R proj : typeclass_instances.

Declare Scope vetro_scope.
Delimit Scope vetro_scope with vetro.
Notation "r <| proj := v |>" := (update proj (fun _ => v) r)
  (at level 1, left associativity, proj at level 9, v at level 99,
   format "r  <| proj  :=  v |>") : vetro_scope.
Notation "r <| proj ::= f |>" := (update proj f r)
  (at level 1, left associativity, proj at level 9, f at level 99,
   format "r  <| proj  ::=  f |>") : vetro_scope.

(** ** Ranges of machine integers *)

Create HintDb vetro.

Lemma is_u_mod w x : 0 <= w -> is_u w (x mod 2 ^ w).
Proof. intros. unfold is_u. apply Z.mod_pos_bound. lia. Qed.

Lemma is_u_u8 x : is_u 8 (u8 x). Proof. by apply is_u_mod. Qed.
Lemma is_u_u16 x : is_u 16 (u16 x). Proof. by apply is_u_mod. Qed.
Lemma is_u_u32 x : is_u 32 (u32 x). Proof. by apply is_u_mod. Qed.
Lemma is_u_u64 x : is_u 64 (u64 x). Proof. by apply is_u_mod. Qed.
Lemma is_u_u128 x : is_u 128 (u128 x). Proof. by apply is_u_mod. Qed.

Lemma mod_is_u w x : is_u w x -> x mod 2 ^ w = x.
Proof. apply Z.mod_small. Qed.

Lemma u64_id x : is_u 64 x -> u64 x = x. Proof. apply mod_is_u. Qed.
Lemma u32_id x : is_u 32 x -> u32 x = x. Proof. apply mod_is_u. Qed.

Lemma is_u_weaken w w' x : is_u w x -> w <= w' -> is_u w' x.
Proof.
  unfold is_u. intros [Hl Hu] Hw. split; [done|].
  eapply Z.lt_le_trans; [exact Hu|]. apply Z.pow_le_mono_r; lia.
Qed.

Lemma testbit_high w x i : is_u w x -> w <= i -> Z.testbit x i = false.
Proof.
  intros Hx Hi. destruct (Z.ltb_spec i 0); [by apply Z.testbit_neg_r|].
  rewrite <- (mod_is_u w x Hx). destruct (Z.ltb_spec w 0).
  - unfold is_u in Hx. rewrite Z.pow_neg_r in Hx by lia. lia.
  - by apply Z.mod_pow2_bits_high; lia.
Qed.

Lemma is_u_bits w x :
  0 <= w -> 0 <= x -> (forall i, w <= i -> Z.testbit x i = false) -> is_u w x.
Proof.
  intros Hw Hx Hb. split; [done|].
  destruct (Z.eq_dec x 0) as [->|]; [lia|].
  apply Z.log2_lt_pow2; [lia|].
  destruct (Z.lt_ge_cases (Z.log2 x) w) as [|Hge]; [done|].
  pose proof (Z.bit_log2 x ltac:(lia)) as Hl.
  by rewrite (Hb _ Hge) in Hl.
Qed.

Lemma is_u_land w x y : 0 <= w -> is_u w x -> 0 <= y -> is_u w (Z.land x y).
Proof.
  intros Hw Hx Hy. apply is_u_bits; [done|apply Z.land_nonneg; left; apply Hx|].
  intros i Hi. by rewrite Z.land_spec, (testbit_high w x i).
Qed.

Lemma is_u_land_r w x y : 0 <= w -> 0 <= x -> is_u w y -> is_u w (Z.land x y).
Proof. intros. rewrite Z.land_comm. by apply is_u_land. Qed.

Lemma is_u_lor w x y : 0 <= w -> is_u w x -> is_u w y -> is_u w (Z.lor x y).
Proof.
  intros Hw Hx Hy. apply is_u_bits; [done|apply Z.lor_nonneg; split; [apply Hx|apply Hy]|].
  intros i Hi. by rewrite Z.lor_spec, (testbit_high w x i), (testbit_high w y i).
Qed.

Lemma is_u_lxor w x y : 0 <= w -> is_u w x -> is_u w y -> is_u w (Z.lxor x y).
Proof.
  intros Hw Hx Hy.
  apply is_u_bits; [done|apply Z.lxor_nonneg; split; intros; [apply Hy|apply Hx]|].
  intros i Hi. by rewrite Z.lxor_spec, (testbit_high w x i), (testbit_high w y i).
Qed.

Lemma is_u_shiftr w x n : 0 <= w -> 0 <= n -> is_u w x -> is_u w (Z.shiftr x n).
Proof.
  intros Hw Hn [Hl Hu]. split; [by apply Z.shiftr_nonneg|].
  rewrite Z.shiftr_div_pow2 by done. apply Z.div_lt_upper_bound; [lia|].
  assert (0 < 2 ^ n) by lia. nia.
Qed.

Lemma is_u_shiftr_exact w x n : 0 <= n <= w -> is_u w x -> is_u (w - n) (Z.shiftr x n).
Proof.
  intros Hn [Hl Hu]. split; [by apply Z.shiftr_nonneg|].
  rewrite Z.shiftr_div_pow2 by lia. apply Z.div_lt_upper_bound; [lia|].
  rewrite <- Z.pow_add_r by lia. by replace (n + (w - n)) with w by lia.
Qed.

Lemma is_u_shiftl w x n : 0 <= w -> 0 <= n -> is_u w x -> is_u (w + n) (Z.shiftl x n).
Proof.
  intros Hw Hn [Hl Hu]. rewrite Z.shiftl_mul_pow2 by done.
  split; [nia|]. rewrite Z.pow_add_r by lia. nia.
Qed.

Lemma is_u_b2z w b : 1 <= w -> is_u w (b2z b).
Proof.
  intros. apply (is_u_weaken 1); [|done]. by destruct b; unfold is_u, b2z; simpl; lia.
Qed.

#[export] Hint Resolve is_u_mod is_u_u8 is_u_u16 is_u_u32 is_u_u64 is_u_u128
  is_u_land is_u_land_r is_u_lor is_u_lxor is_u_shiftr is_u_b2z : vetro.

(** A literal, or a bound [lia] can see, is in range. *)
Ltac solve_is_u :=
  unfold is_u in *; change (2 ^ 64) with 18446744073709551616 in *;
  change (2 ^ 32) with 4294967296 in *; change (2 ^ 16) with 65536 in *;
  change (2 ^ 8) with 256 in *; lia.

(** Bit-level equality of integers: compare every bit, simplify the bit
    functions, and split on the comparisons of indices. *)
Create Rewrite HintDb zbits.
#[global] Hint Rewrite Z.land_spec Z.lor_spec Z.lxor_spec Z.ldiff_spec
  Z.testbit_0_l Z.testbit_mod_pow2 Z.shiftr_spec Z.shiftl_spec Z.lnot_spec
  Z.testbit_ones_nonneg using lia : zbits.

Ltac zbits_split :=
  repeat match goal with
  | |- context [Z.ltb ?a ?b] => destruct (Z.ltb_spec a b)
  | |- context [Z.leb ?a ?b] => destruct (Z.leb_spec a b)
  | |- context [Z.eqb ?a ?b] => destruct (Z.eqb_spec a b)
  | |- context [Z.testbit ?x ?i] => rewrite (Z.testbit_neg_r x i) by lia
  end.

Ltac zbitwise :=
  apply Z.bits_inj'; intros ?i ?Hi; autorewrite with zbits; zbits_split;
  rewrite ?andb_false_r, ?andb_true_r, ?orb_false_r, ?orb_true_r, ?andb_false_l,
    ?andb_true_l, ?orb_false_l, ?orb_true_l; try (exfalso; lia); try reflexivity.

(** A power of two as a mask: [x & (2^n - 1)] and [x & 2^n != 0]. *)
Lemma land_ones_mod x n : 0 <= n -> Z.land x (2 ^ n - 1) = x mod 2 ^ n.
Proof.
  intros. replace (2 ^ n - 1) with (Z.ones n) by (rewrite Z.ones_equiv; lia).
  by apply Z.land_ones.
Qed.

Lemma test_mask_bit x n : 0 <= n -> test_mask x (2 ^ n) = Z.testbit x n.
Proof.
  intros Hn. unfold test_mask. rewrite Z.land_comm.
  assert (Z.land (2 ^ n) x = if Z.testbit x n then 2 ^ n else 0) as ->.
  { apply Z.bits_inj'. intros i Hi. rewrite Z.land_spec, Z.pow2_bits_eqb by done.
    destruct (Z.eqb_spec n i) as [->|Hne].
    - destruct (Z.testbit x i); simpl; [|by rewrite Z.testbit_0_l].
      by rewrite Z.pow2_bits_true.
    - simpl. destruct (Z.testbit x n); [|by rewrite Z.testbit_0_l].
      symmetry. by apply Z.pow2_bits_false. }
  destruct (Z.testbit x n); [|done]. destruct (Z.eqb_spec (2 ^ n) 0); [lia|done].
Qed.

(** Disjoint bit ranges add up. *)
Lemma lor_shiftl_add x y k : 0 <= k -> is_u k y -> Z.lor (Z.shiftl x k) y = x * 2 ^ k + y.
Proof.
  intros Hk Hy. rewrite <- Z.shiftl_mul_pow2 by done.
  assert (Z.land (Z.shiftl x k) y = 0) as Hd.
  { zbitwise. destruct (Z.lt_ge_cases i k).
    - by rewrite Z.testbit_neg_r by lia.
    - by rewrite (testbit_high k y), andb_false_r. }
  by rewrite Z.add_nocarry_lxor, Z.lxor_lor.
Qed.

Lemma pow_mod_mod x m n : 0 <= n <= m -> (x mod 2 ^ m) mod 2 ^ n = x mod 2 ^ n.
Proof. intros. zbitwise. Qed.

(** ** Exhaustive checks over a small range *)

Definition forall_below (n : Z) (f : Z -> bool) : bool := forallb f (seqZ 0 n).

Lemma forall_below_spec n f :
  forall_below n f = true -> forall x, 0 <= x < n -> f x = true.
Proof.
  unfold forall_below. rewrite forallb_forall. intros H x Hx.
  apply H, list_elem_of_In, elem_of_seqZ. lia.
Qed.

(** ** Reversed bits *)

Lemma testbit_reverse_bits n x i :
  0 <= i < Z.of_nat n -> Z.testbit (reverse_bits n x) i = Z.testbit x (Z.of_nat n - 1 - i).
Proof.
  revert x. induction n as [|n IH]; intros x Hi; [lia|]. cbn [reverse_bits].
  rewrite Z.lor_spec, Z.shiftl_spec by lia. change (x mod 2) with (x mod 2 ^ 1).
  destruct (Z.eq_dec i (Z.of_nat n)) as [->|Hne].
  - rewrite Z.sub_diag, Z.testbit_mod_pow2 by lia. simpl (0 <? 1). cbn [andb].
    replace (Z.of_nat (S n) - 1 - Z.of_nat n) with 0 by lia.
    assert (Z.testbit (reverse_bits n (Z.shiftr x 1)) (Z.of_nat n) = false) as ->; [|apply orb_false_r].
    clear. generalize (Z.shiftr x 1). intros y.
    assert (forall k y, (k <= n)%nat -> Z.testbit (reverse_bits k y) (Z.of_nat n) = false) as H;
      [|by apply H].
    induction k as [|k IHk]; intros z Hk; cbn [reverse_bits]; [apply Z.testbit_0_l|].
    rewrite Z.lor_spec, Z.shiftl_spec, IHk by lia. rewrite orb_false_r.
    change (z mod 2) with (z mod 2 ^ 1). apply Z.mod_pow2_bits_high. lia.
  - rewrite IH, Z.shiftr_spec by lia. rewrite (Z.testbit_neg_r _ (i - _)) by lia. cbn [orb].
    f_equal; lia.
Qed.

Lemma reverse_bits_bound n x : is_u (Z.of_nat n) (reverse_bits n x).
Proof.
  revert x. induction n as [|n IH]; intros x; cbn [reverse_bits]; [by unfold is_u|].
  apply is_u_lor; [lia| |].
  - replace (Z.of_nat (S n)) with (1 + Z.of_nat n) by lia. apply is_u_shiftl; [lia..|].
    change 2 with (2 ^ 1). by apply is_u_mod.
  - eapply is_u_weaken; [apply IH|lia].
Qed.

(** ** Little-endian bytes *)

Lemma length_to_le n v : length (to_le n v) = n.
Proof. revert v. induction n; intros v; simpl; [done|]. by rewrite IHn. Qed.

Lemma bytes_ok_to_le n v : bytes_ok (to_le n v).
Proof.
  revert v. induction n as [|n IH]; intros v; constructor; [|apply IH].
  by apply is_u_mod.
Qed.

Lemma from_to_le n v : from_le (to_le n v) = v mod 2 ^ (8 * Z.of_nat n).
Proof.
  revert v. induction n as [|n IH]; intros v.
  { simpl. by rewrite Z.mod_1_r. }
  cbn [to_le from_le]. rewrite IH, Z.shiftr_div_pow2 by lia.
  replace (8 * Z.of_nat (S n)) with (8 + 8 * Z.of_nat n) by lia.
  rewrite Z.pow_add_r, Z.rem_mul_r by lia. done.
Qed.

Lemma from_le_bound l : bytes_ok l -> is_u (8 * Z.of_nat (length l)) (from_le l).
Proof.
  induction 1 as [|b l Hb Hl IH]; [by unfold is_u; simpl|].
  unfold is_u in *. cbn [from_le length]. rewrite Nat2Z.inj_succ.
  replace (8 * Z.succ (Z.of_nat (length l))) with (8 + 8 * Z.of_nat (length l)) by lia.
  rewrite Z.pow_add_r by lia. nia.
Qed.

Lemma to_from_le l : bytes_ok l -> to_le (length l) (from_le l) = l.
Proof.
  induction 1 as [|b l Hb Hl IH]; [done|]. cbn [length to_le from_le].
  unfold is_u in Hb. rewrite (Z.add_comm b), Z.mul_comm.
  rewrite Z.shiftr_div_pow2, Z.div_add_l, (Z.div_small b) by lia.
  rewrite Z.add_comm, Z.mod_add, Z.mod_small by lia.
  by rewrite Z.add_0_r, IH.
Qed.

(** ** Reasoning about [prog]

    [frames R m]: every run of [m] moves the state along [R], whether it
    succeeds or fails.  [clean R m]: a failing run does.  [total m]: no run
    fails.  [triple P m Q F]: from a state in [P] a successful run ends in [Q]
    and a failing one in [F]. *)

Section progs.
Context {S E : Type}.

Definition frames {A} (R : relation S) (m : prog S E A) : Prop :=
  forall s, R s (m s).2.
Definition clean {A} (R : relation S) (m : prog S E A) : Prop :=
  forall s e s', m s = (Err e, s') -> R s s'.
Definition total {A} (m : prog S E A) : Prop :=
  forall s, exists a s', m s = (Ok a, s').
Definition triple {A} (P : S -> Prop) (m : prog S E A)
    (Q : A -> S -> Prop) (F : E -> S -> Prop) : Prop :=
  forall s, P s ->
    match m s with (Ok a, s') => Q a s' | (Err e, s') => F e s' end.

Lemma bind_ok {A B} (m : prog S E A) (k : A -> prog S E B) s a s' :
  m s = (Ok a, s') -> mbind k m s = k a s'.
Proof. intros Hm. unfold mbind, prog_bind. by rewrite Hm. Qed.

Lemma bind_err {A B} (m : prog S E A) (k : A -> prog S E B) s e s' :
  m s = (Err e, s') -> mbind k m s = (Err e, s').
Proof. intros Hm. unfold mbind, prog_bind. by rewrite Hm. Qed.

Lemma bind_err_inv {A B} (m : prog S E A) (k : A -> prog S E B) s e s' :
  mbind k m s = (Err e, s') ->
  m s = (Err e, s') \/ exists a s1, m s = (Ok a, s1) /\ k a s1 = (Err e, s').
Proof.
  unfold mbind, prog_bind. intros H.
  destruct (m s) as [[a|e'] s1]; [right; by eexists _, _|left; congruence].
Qed.
Lemma bind_ok_inv {A B} (m : prog S E A) (k : A -> prog S E B) s b s' :
  mbind k m s = (Ok b, s') ->
  exists a s1, m s = (Ok a, s1) /\ k a s1 = (Ok b, s').
Proof.
  unfold mbind, prog_bind. intros H.
  destruct (m s) as [[a|e'] s1]; [by eexists _, _|congruence].
Qed.

Lemma frames_ret {A} R `{!Reflexive R} (a : A) : frames R (mret a).
Proof. intros s. simpl. reflexivity. Qed.
Lemma frames_throw {A} R `{!Reflexive R} e : frames (A:=A) R (throw e).
Proof. intros s. simpl. reflexivity. Qed.
Lemma frames_gets {A} R `{!Reflexive R} (f : S -> A) : frames R (gets f).
Proof. intros s. simpl. reflexivity. Qed.
Lemma frames_modify R f : (forall s, R s (f s)) -> frames R (modify f).
Proof. intros Hf s. simpl. apply Hf. Qed.
Lemma frames_bind {A B} R `{!Transitive R} (m : prog S E A) (k : A -> prog S E B) :
  frames R m -> (forall a, frames R (k a)) -> frames R (mbind k m).
Proof.
  intros Hm Hk s. specialize (Hm s). unfold mbind, prog_bind.
  destruct (m s) as [[a|e] s']; simpl in *; [|done].
  transitivity s'; [done|apply Hk].
Qed.

Lemma frames_clean {A} R (m : prog S E A) : frames R m -> clean R m.
Proof. intros Hm s e s' H. specialize (Hm s). by rewrite H in Hm. Qed.
Lemma total_clean {A} R (m : prog S E A) : total m -> clean R m.
Proof. intros Hm s e s' H. destruct (Hm s) as (a & s'' & H'). congruence. Qed.
Lemma total_ret {A} (a : A) : total (mret a).
Proof. intros s. by exists a, s. Qed.
Lemma total_gets {A} (f : S -> A) : total (gets f).
Proof. intros s. by exists (f s), s. Qed.
Lemma total_modify f : total (modify f).
Proof. intros s. by exists tt, (f s). Qed.
Lemma total_bind {A B} (m : prog S E A) (k : A -> prog S E B) :
  total m -> (forall a, total (k a)) -> total (mbind k m).
Proof.
  intros Hm Hk s. destruct (Hm s) as (a & s' & H).
  rewrite (bind_ok _ _ _ _ _ H). apply Hk.
Qed.
(** A failure is clean when what runs before it keeps to [R]... *)
Lemma clean_bind_frames {A B} R `{!Transitive R} (m : prog S E A) (k : A -> prog S E B) :
  frames R m -> (forall a, clean R (k a)) -> clean R (mbind k m).
Proof.
  intros Hm Hk s e s' H. unfold mbind, prog_bind in H. specialize (Hm s).
  destruct (m s) as [[a|e'] s''] eqn:Em; simpl in *; [|congruence].
  transitivity s''; [done|]. by eapply Hk.
Qed.
(** ... or when nothing after the failing part can fail. *)
Lemma clean_bind_total {A B} R (m : prog S E A) (k : A -> prog S E B) :
  clean R m -> (forall a, total (k a)) -> clean R (mbind k m).
Proof.
  intros Hm Hk s e s' H. unfold mbind, prog_bind in H.
  destruct (m s) as [[a|e'] s''] eqn:Em.
  - destruct (Hk a s'') as (b & s3 & Hb). congruence.
  - injection H as -> ->. by eapply Hm.
Qed.

Lemma triple_ret {A} P (a : A) (Q : A -> S -> Prop) F :
  (forall s, P s -> Q a s) -> triple P (mret a) Q F.
Proof. intros H s Hs. simpl. by apply H. Qed.
Lemma triple_throw {A} P e (Q : A -> S -> Prop) (F : E -> S -> Prop) :
  (forall s, P s -> F e s) -> triple P (throw e) Q F.
Proof. intros H s Hs. simpl. by apply H. Qed.
Lemma triple_gets {A} P (f : S -> A) (Q : A -> S -> Prop) F :
  (forall s, P s -> Q (f s) s) -> triple P (gets f) Q F.
Proof. intros H s Hs. simpl. by apply H. Qed.
Lemma triple_modify P f (Q : unit -> S -> Prop) F :
  (forall s, P s -> Q tt (f s)) -> triple P (modify f) Q F.
Proof. intros H s Hs. simpl. by apply H. Qed.
Lemma triple_bind {A B} P (m : prog S E A) (k : A -> prog S E B) Q' Q F :
  triple P m Q' F -> (forall a, triple (Q' a) (k a) Q F) -> triple P (mbind k m) Q F.
Proof.
  intros Hm Hk s Hs. specialize (Hm s Hs). unfold mbind, prog_bind.
  destruct (m s) as [[a|e] s']; [|done]. by apply Hk.
Qed.
Lemma triple_weaken {A} (P P' : S -> Prop) (m : prog S E A) (Q Q' : A -> S -> Prop)
    (F F' : E -> S -> Prop) :
  triple P m Q F -> (forall s, P' s -> P s) -> (forall a s, Q a s -> Q' a s) ->
  (forall e s, F e s -> F' e s) -> triple P' m Q' F'.
Proof.
  intros Hm HP HQ HF s Hs. specialize (Hm s (HP s Hs)).
  destruct (m s) as [[a|e] s']; auto.
Qed.
End progs.

(** [errs P m]: every failing run ends with an error and a state in [P]. *)
Definition errs {S E A} (P : E -> S -> Prop) (m : prog S E A) : Prop :=
  forall s e s', m s = (Err e, s') -> P e s'.

Lemma errs_total {S E A} (P : E -> S -> Prop) (m : prog S E A) : total m -> errs P m.
Proof. intros Hm s e s' He. destruct (Hm s) as (a & s'' & H'). congruence. Qed.

Lemma errs_bind {S E A B} (P : E -> S -> Prop) (m : prog S E A) (k : A -> prog S E B) :
  errs P m -> (forall a, errs P (k a)) -> errs P (mbind k m).
Proof.
  intros Hm Hk s e s' H. unfold mbind, prog_bind in H.
  destruct (m s) as [[a|e'] s''] eqn:Em; [by eapply Hk|]. injection H as -> ->. by eapply Hm.
Qed.

Lemma errs_throw {S E A} (P : E -> S -> Prop) e : (forall s, P e s) -> errs (S:=S) (A:=A) P (throw e).
Proof. intros He s e' s' [= <- <-]. done. Qed.

Lemma errs_foldM {S E A B} (P : E -> S -> Prop) (f : A -> B -> prog S E A) acc l :
  (forall a b, errs P (f a b)) -> errs P (foldM f acc l).
Proof.
  intros Hf. revert acc. induction l as [|b l IH]; intros acc; cbn [foldM].
  - apply errs_total, total_ret.
  - apply errs_bind; [apply Hf|]. intros a. apply IH.
Qed.

Create HintDb prog.
#[export] Hint Resolve frames_ret frames_throw frames_gets frames_bind
  frames_clean total_clean total_ret total_gets total_modify total_bind : prog.
