(* ===== verification/Bits.v ===== *)
(** * Bit functions of the decoder and of execution (crates/vetro-cpu/src/bits.rs)

    [field], [bit], [sext], [ones], [ror], [bits_replicate] and
    [decode_bit_masks], each with the bit-level or arithmetic meaning the
    decoder and the interpreter rely on. *)

From Stdlib Require Import ZArith Lia Bool.
From stdpp Require Import base list numbers.
From S2P Require Import Prelude.
Local Open Scope Z_scope.

Definition field (w hi lo : Z) : Z :=
  Z.land (Z.shiftr w lo) (Z.shiftr 0xFFFFFFFF (31 - (hi - lo))).

Definition bit (w n : Z) : bool := negb (Z.land (Z.shiftr w n) 1 =? 0).

Definition sext (v width : Z) : Z :=
  let s := 64 - width in Z.shiftr (i64 (u64 (Z.shiftl v s))) s.

Definition ones (n : Z) : Z :=
  if 64 <=? n then 0xFFFFFFFFFFFFFFFF else u64 (Z.shiftl 1 n) - 1.

Definition ror (v amount width : Z) : Z :=
  let v := Z.land v (ones width) in
  let a := amount mod width in
  if a =? 0 then v
  else Z.land (Z.lor (Z.shiftr v a) (u64 (Z.shiftl v (width - a)))) (ones width).

(** The loop [while i < width { r |= v << i; i += esize }]; [fuel] bounds the
    iterations, [width] of them are enough because [esize >= 1]. *)
Fixpoint replicate_loop (fuel : nat) (v esize width i r : Z) : Z :=
  match fuel with
  | O => r
  | S fuel' =>
      if i <? width then
        replicate_loop fuel' v esize width (i + esize) (Z.lor r (u64 (Z.shiftl v i)))
      else r
  end.

Definition bits_replicate (v esize width : Z) : Z :=
  Z.land (replicate_loop (Z.to_nat width) v esize width 0 0) (ones width).

Definition decode_bit_masks (n imms immr : Z) (immediate : bool) (datasize : Z)
    : option (Z * Z) :=
  let combined := Z.lor (Z.shiftl n 6) (Z.land (Z.lnot imms) 0x3f) in
  if combined =? 0 then None else
  let len := 31 - leading_zeros 32 combined in
  if (len <? 1) || (datasize <? Z.shiftl 1 len) then None else
  let levels := Z.shiftl 1 len - 1 in
  if immediate && (Z.land imms levels =? levels) then None else
  let s := Z.land imms levels in
  let r := Z.land immr levels in
  let d := Z.land (u32 (s - r)) levels in
  let esize := Z.shiftl 1 len in
  let welem := ones (s + 1) in
  let telem := ones (d + 1) in
  let wmask := bits_replicate (ror welem r esize) esize datasize in
  let tmask := bits_replicate telem esize datasize in
  Some (wmask, tmask).

#[global] Arguments field : simpl never.
#[global] Arguments bit : simpl never.
#[global] Arguments sext : simpl never.
#[global] Arguments ones : simpl never.
#[global] Arguments ror : simpl never.
#[global] Arguments decode_bit_masks : simpl never.

(** The unit tests of bits.rs. *)
Example fields_test :
  (field 0xD2800540 4 0, field 0xD2800540 20 5, field 0xFFFFFFFF 31 0,
   sext 0x1FF 9, sext 0x0FF 9) = (0, 42, 0xFFFFFFFF, -1, 255).
Proof. reflexivity. Qed.

Example bit_masks_test :
  (fst <$> decode_bit_masks 1 7 0 true 64, fst <$> decode_bit_masks 0 0x3c 0 true 32,
   decode_bit_masks 1 0x3f 0 true 64,
   fst <$> decode_bit_masks 1 0x3f 0 false 64)
  = (Some 0xff, Some 0x55555555, None, Some 0xFFFFFFFFFFFFFFFF).
Proof. vm_compute. reflexivity. Qed.

(** ** Fields *)

Lemma field_mask hi lo :
  0 <= lo <= hi -> hi < 32 -> Z.shiftr 0xFFFFFFFF (31 - (hi - lo)) = Z.ones (hi - lo + 1).
Proof.
  intros. change 0xFFFFFFFF with (Z.ones 32). rewrite Z.shiftr_div_pow2 by lia.
  rewrite Z.ones_div_pow2 by lia. f_equal; lia.
Qed.

Lemma field_spec w hi lo :
  0 <= lo <= hi -> hi < 32 -> field w hi lo = (w / 2 ^ lo) mod 2 ^ (hi - lo + 1).
Proof.
  intros. unfold field. rewrite field_mask, Z.land_ones, Z.shiftr_div_pow2 by lia. reflexivity.
Qed.

Lemma field_bound w hi lo :
  0 <= lo <= hi -> hi < 32 -> is_u (hi - lo + 1) (field w hi lo).
Proof. intros. rewrite field_spec by lia. apply is_u_mod. lia. Qed.

Lemma testbit_field w hi lo i :
  0 <= lo <= hi -> hi < 32 -> 0 <= i ->
  Z.testbit (field w hi lo) i = (i <? hi - lo + 1) && Z.testbit w (i + lo).
Proof.
  intros. unfold field. rewrite field_mask by lia.
  autorewrite with zbits. by rewrite andb_comm.
Qed.

Lemma bit_testbit w n : 0 <= n -> bit w n = Z.testbit w n.
Proof.
  intros. unfold bit. change 1 with (2 ^ 0) at 1.
  change (test_mask (Z.shiftr w n) (2 ^ 0) = Z.testbit w n).
  rewrite test_mask_bit, Z.shiftr_spec by lia. by rewrite Z.add_0_l.
Qed.

Lemma field_bit w n : 0 <= n < 32 -> field w n n = b2z (bit w n).
Proof.
  intros. rewrite bit_testbit by lia. unfold b2z.
  zbitwise; rewrite testbit_field by lia; zbits_split; simpl; try lia.
  - assert (i = 0) as -> by lia. rewrite Z.b2z_bit0. f_equal; lia.
  - destruct (Z.testbit w n); simpl; [|by rewrite Z.testbit_0_l].
    change 1 with (2 ^ 0). by rewrite Z.pow2_bits_false by lia.
Qed.

(** ** Masks, sign extension and rotation *)

Lemma ones_spec n : 0 <= n <= 64 -> ones n = Z.ones n.
Proof.
  intros. unfold ones. destruct (Z.leb_spec 64 n).
  - assert (n = 64) as -> by lia. reflexivity.
  - unfold u64. rewrite Z.shiftl_1_l, Z.ones_equiv, Z.mod_small; [lia|].
    split; [lia|]. apply Z.pow_lt_mono_r; lia.
Qed.

Lemma ones_bound n : 0 <= n <= 64 -> is_u n (ones n).
Proof. intros. rewrite ones_spec, Z.ones_equiv by done. unfold is_u. lia. Qed.

Lemma land_ones_field v n : 0 <= n <= 64 -> Z.land v (ones n) = v mod 2 ^ n.
Proof. intros. rewrite ones_spec by done. apply Z.land_ones. lia. Qed.

Lemma pow64_split w : 0 <= w <= 64 -> 2 ^ 64 = 2 ^ w * 2 ^ (64 - w).
Proof. intros. rewrite <- Z.pow_add_r by lia. f_equal; lia. Qed.

Lemma sext_spec v w : 1 <= w <= 64 -> sext v w = signed w v.
Proof.
  intros Hw. unfold sext, i64, signed, u64.
  rewrite Z.mod_mod by lia. rewrite Z.shiftl_mul_pow2 by lia.
  rewrite (pow64_split w) by lia. rewrite Z.mul_mod_distr_r by lia.
  set (y := v mod 2 ^ w). set (h := 2 ^ (64 - w)).
  assert (0 < h) by (unfold h; lia).
  assert (2 ^ (64 - 1) = 2 ^ (w - 1) * h) as ->.
  { unfold h. rewrite <- Z.pow_add_r by lia. f_equal; lia. }
  assert ((y * h <? 2 ^ (w - 1) * h) = (y <? 2 ^ (w - 1))) as ->.
  { destruct (Z.ltb_spec y (2 ^ (w - 1))), (Z.ltb_spec (y * h) (2 ^ (w - 1) * h)); nia. }
  rewrite Z.shiftr_div_pow2 by lia. fold h.
  destruct (y <? 2 ^ (w - 1)); [by rewrite Z.div_mul by lia|].
  rewrite <- Z.mul_sub_distr_r. by rewrite Z.div_mul by lia.
Qed.

Lemma signed_bound w x : 1 <= w -> - 2 ^ (w - 1) <= signed w x < 2 ^ (w - 1).
Proof.
  intros. unfold signed.
  assert (2 ^ w = 2 * 2 ^ (w - 1)) as Hp.
  { rewrite <- Z.pow_succ_r by lia. f_equal; lia. }
  pose proof (Z.mod_pos_bound x (2 ^ w) ltac:(lia)).
  destruct (Z.ltb_spec (x mod 2 ^ w) (2 ^ (w - 1))); lia.
Qed.

Lemma signed_mod w x : 0 <= w -> (signed w x) mod 2 ^ w = x mod 2 ^ w.
Proof.
  intros. unfold signed. destruct (_ <? _); [by rewrite Z.mod_mod by lia|].
  rewrite <- (Z.mod_add _ 1) by lia.
  replace (x mod 2 ^ w - 2 ^ w + 1 * 2 ^ w) with (x mod 2 ^ w) by lia.
  by rewrite Z.mod_mod by lia.
Qed.

Lemma signed_small w x : 1 <= w -> - 2 ^ (w - 1) <= x < 2 ^ (w - 1) -> signed w x = x.
Proof.
  intros Hw Hx. unfold signed.
  assert (2 ^ w = 2 * 2 ^ (w - 1)) as Hp.
  { rewrite <- Z.pow_succ_r by lia. f_equal; lia. }
  destruct (Z.lt_ge_cases x 0).
  - rewrite <- (Z.mod_add x 1), Z.mod_small by lia.
    destruct (Z.ltb_spec (x + 1 * 2 ^ w) (2 ^ (w - 1))); lia.
  - rewrite Z.mod_small by lia. destruct (Z.ltb_spec x (2 ^ (w - 1))); lia.
Qed.

Lemma ror_bound v a w : 1 <= w <= 64 -> is_u w (ror v a w).
Proof.
  intros. unfold ror.
  destruct (_ =? 0); rewrite land_ones_field by lia; apply is_u_mod; lia.
Qed.

(** Rotation to the right by [a]: bit [i] of the result is bit [i + a] of the
    element, counted modulo its width. *)
Lemma testbit_ror v a w i :
  1 <= w <= 64 -> 0 <= a -> 0 <= i < w ->
  Z.testbit (ror v a w) i = Z.testbit v ((i + a) mod w).
Proof.
  intros Hw Ha Hi. unfold ror. rewrite land_ones_field by lia.
  pose proof (Z.mod_pos_bound a w ltac:(lia)) as Hm.
  rewrite <- (Z.add_mod_idemp_r i a) by lia.
  destruct (Z.eqb_spec (a mod w) 0) as [->|Hne].
  - rewrite Z.add_0_r, (Z.mod_small i) by lia.
    rewrite Z.testbit_mod_pow2 by lia. zbits_split; [done|lia].
  - rewrite land_ones_field by lia.
    set (b := a mod w) in *. unfold u64. autorewrite with zbits.
    destruct (Z.lt_ge_cases (i + b) w).
    + rewrite (Z.mod_small (i + b)) by lia. zbits_split; try lia.
      by rewrite orb_false_r.
    + rewrite <- (Z.mod_add (i + b) (-1)), Z.mod_small by lia. zbits_split; try lia.
      simpl. f_equal; lia.
Qed.

(** ** Replication *)

Lemma replicate_loop_bits fuel v e w i r j :
  1 <= e -> is_u e v -> w <= 64 -> 0 <= i -> i mod e = 0 ->
  w - i <= Z.of_nat fuel -> 0 <= j < w ->
  Z.testbit (replicate_loop fuel v e w i r) j
  = Z.testbit r j || (i <=? j) && Z.testbit v (j mod e).
Proof.
  intros He Hv Hw. revert i r.
  induction fuel as [|fuel IH]; intros i r Hi Him Hf Hj; cbn [replicate_loop].
  { destruct (Z.leb_spec i j); [lia|]. by rewrite andb_false_l, orb_false_r. }
  destruct (Z.ltb_spec i w); cycle 1.
  { destruct (Z.leb_spec i j); [lia|]. by rewrite andb_false_l, orb_false_r. }
  rewrite IH; [|lia| |lia|lia]; cycle 1.
  { rewrite <- Him. by rewrite <- (Z.mod_add i 1 e), Z.mul_1_l by lia. }
  unfold u64. autorewrite with zbits. rewrite <- orb_assoc. f_equal.
  destruct (Z.ltb_spec j 64); [|lia]. cbn [andb].
  destruct (Z.leb_spec i j), (Z.leb_spec (i + e) j); try lia; cbn [andb orb].
  - by rewrite (testbit_high e v (j - i) Hv) by lia.
  - rewrite orb_false_r. f_equal.
    replace j with ((j - i) + (i / e) * e) at 2 by (pose proof (Z.div_mod i e); lia).
    by rewrite Z.mod_add, Z.mod_small by lia.
  - by rewrite Z.testbit_neg_r by lia.
Qed.

Lemma testbit_replicate v e w j :
  1 <= e -> is_u e v -> 0 <= w <= 64 -> 0 <= j < w ->
  Z.testbit (bits_replicate v e w) j = Z.testbit v (j mod e).
Proof.
  intros. unfold bits_replicate. rewrite land_ones_field, Z.testbit_mod_pow2 by lia.
  rewrite replicate_loop_bits; try lia; try done. rewrite Z.testbit_0_l.
  zbits_split; [done|lia..].
Qed.

Lemma replicate_bound v e w : 0 <= w <= 64 -> is_u w (bits_replicate v e w).
Proof. intros. unfold bits_replicate. rewrite land_ones_field by lia. apply is_u_mod. lia. Qed.

(** ** [decode_bit_masks]: what the architecture's [DecodeBitMasks] computes *)

(** The element size is [2 ^ bitmask_len]. *)
Definition bitmask_len (n imms : Z) : Z := Z.log2 (64 * n + (63 - imms)).

Definition bitmask_reserved (n imms : Z) (immediate : bool) (datasize : Z) : bool :=
  let len := bitmask_len n imms in
  (64 * n + (63 - imms) =? 0) || (len <? 1) || (datasize <? 2 ^ len)
  || immediate && (imms mod 2 ^ len =? 2 ^ len - 1).

Lemma bitmask_combined n imms :
  0 <= n <= 1 -> 0 <= imms < 64 ->
  Z.lor (Z.shiftl n 6) (Z.land (Z.lnot imms) 0x3f) = 64 * n + (63 - imms).
Proof.
  intros Hn Hi.
  assert (Z.land (Z.lnot imms) 0x3f = 63 - imms) as ->.
  { change 0x3f with (Z.ones 6). rewrite Z.land_ones by lia.
    replace (Z.lnot imms) with (63 - imms + (-1) * 2 ^ 6)
      by (pose proof (Z.add_lnot_diag imms); lia).
    rewrite Z.mod_add, Z.mod_small by lia. done. }
  assert (is_u 6 (63 - imms)) by (unfold is_u; lia).
  rewrite lor_shiftl_add by (done || lia). lia.
Qed.

Lemma decode_bit_masks_eq n imms immr immediate datasize :
  0 <= n <= 1 -> 0 <= imms < 64 ->
  decode_bit_masks n imms immr immediate datasize =
  if bitmask_reserved n imms immediate datasize then None else
  let e := 2 ^ bitmask_len n imms in
  let s := imms mod e in
  let r := immr mod e in
  Some (bits_replicate (ror (ones (s + 1)) r e) e datasize,
        bits_replicate (ones ((s - r) mod e + 1)) e datasize).
Proof.
  intros Hn Hi. unfold decode_bit_masks, bitmask_reserved, bitmask_len.
  rewrite bitmask_combined by done. unfold leading_zeros.
  set (c := 64 * n + (63 - imms)).
  destruct (Z.eqb_spec c 0) as [|Hc]; [done|].
  replace (31 - (32 - 1 - Z.log2 c)) with (Z.log2 c) by lia. cbn [orb].
  set (len := Z.log2 c). assert (0 <= len) by apply Z.log2_nonneg.
  rewrite !Z.shiftl_1_l.
  destruct (_ || _); [done|]. cbn [orb].
  rewrite !land_ones_mod by lia.
  destruct (immediate && _); [done|].
  assert (len <= 6).
  { unfold len. change 6 with (Z.log2 127). apply Z.log2_le_mono. unfold c. lia. }
  unfold u32. rewrite (pow_mod_mod _ 32 len) by lia. done.
Qed.

(** The masks of a valid encoding, bit by bit: with element size [e], rotation
    [r] and run length [s + 1], bit [i] of [wmask] is set when [i + r] falls in
    the run modulo [e], bit [i] of [tmask] when [i] is within the first
    [(s - r) mod e + 1] bits of its element. *)
Lemma decode_bit_masks_bits n imms immr immediate datasize wmask tmask :
  0 <= n <= 1 -> 0 <= imms < 64 -> 0 <= datasize <= 64 ->
  decode_bit_masks n imms immr immediate datasize = Some (wmask, tmask) ->
  let e := 2 ^ bitmask_len n imms in
  let s := imms mod e in
  let r := immr mod e in
  is_u datasize wmask /\ is_u datasize tmask /\
  forall i, 0 <= i < datasize ->
    Z.testbit wmask i = ((i + r) mod e <=? s) /\
    Z.testbit tmask i = (i mod e <=? (s - r) mod e).
Proof.
  intros Hn Hi Hd. rewrite decode_bit_masks_eq by done. unfold bitmask_reserved.
  set (len := bitmask_len n imms). destruct (_ || _) eqn:Er; [done|].
  apply orb_false_iff in Er as [Er _]. apply orb_false_iff in Er as [Er H2].
  apply orb_false_iff in Er as [_ H1].
  apply Z.ltb_ge in H1, H2. cbv zeta. intros [= <- <-].
  set (e := 2 ^ len) in *.
  assert (2 <= e). { unfold e. change 2 with (2 ^ 1) at 1. apply Z.pow_le_mono_r; lia. }
  pose proof (Z.mod_pos_bound imms e ltac:(lia)).
  pose proof (Z.mod_pos_bound immr e ltac:(lia)).
  pose proof (Z.mod_pos_bound (imms mod e - immr mod e) e ltac:(lia)).
  split; [by apply replicate_bound|]. split; [by apply replicate_bound|].
  intros i Hi'. pose proof (Z.mod_pos_bound i e ltac:(lia)).
  assert (forall k, 1 <= k <= e -> is_u e (ones k)) as Hones.
  { intros k Hk. apply (is_u_weaken k); [apply ones_bound|]; lia. }
  rewrite !testbit_replicate; try lia; [|apply Hones; lia|apply ror_bound; lia].
  rewrite testbit_ror by lia. rewrite Z.add_mod_idemp_l by lia.
  pose proof (Z.mod_pos_bound (i + immr mod e) e ltac:(lia)).
  rewrite !ones_spec, !Z.testbit_ones_nonneg by lia.
  split; apply eq_true_iff_eq; lia.
Qed.
