(* ===== verification/SysReg.v ===== *)
(** * System registers (crates/vetro-cpu/src/sysreg.rs)

    The registers Vetro models, the directions each allows, the classes the
    interpreter distinguishes and the map from the MRS/MSR encoding
    [(op0, op1, CRn, CRm, op2)] to a register. *)

From Stdlib Require Import ZArith Lia Bool.
From stdpp Require Import base list numbers.
From S2P Require Import Prelude.
Local Open Scope Z_scope.

(** Registers the CPU does not keep itself: the platform implements them. *)
Inductive EnvReg :=
| CntfrqEl0 | CntpctEl0 | CntvctEl0 | CntpTvalEl0 | CntpCtlEl0 | CntpCvalEl0
| CntvTvalEl0 | CntvCtlEl0 | CntvCvalEl0
| IccPmrEl1 | IccIar0El1 | IccEoir0El1 | IccHppir0El1 | IccBpr0El1 | IccAp0r0El1
| IccAp1r0El1 | IccDirEl1 | IccRprEl1 | IccSgi1rEl1 | IccAsgi1rEl1 | IccSgi0rEl1
| IccIar1El1 | IccEoir1El1 | IccHppir1El1 | IccBpr1El1 | IccCtlrEl1 | IccSreEl1
| IccIgrpen0El1 | IccIgrpen1El1.

Inductive SysReg :=
(* accessible at EL0 since M1 *)
| Nzcv | TpidrEl0 | TpidrroEl0 | Fpcr | Fpsr | DczidEl0 | CtrEl0
(* PSTATE and special registers *)
| Daif | CurrentEl | SpSel | SpEl0 | ElrEl1 | SpsrEl1
(* system control and MMU *)
| SctlrEl1 | ActlrEl1 | CpacrEl1 | TcrEl1 | Ttbr0El1 | Ttbr1El1 | MairEl1 | AmairEl1
| ContextidrEl1
(* exceptions *)
| VbarEl1 | EsrEl1 | FarEl1 | Afsr0El1 | Afsr1El1 | ParEl1 | IsrEl1 | RvbarEl1
| TpidrEl1 | CntkctlEl1
(* identification *)
| MidrEl1 | MpidrEl1 | RevidrEl1 | AidrEl1 | ClidrEl1 | CcsidrEl1 | CsselrEl1
| Id (index : Z)
(* debug *)
| MdscrEl1 | MdccintEl1 | OslarEl1 | OslsrEl1 | OsdlrEl1 | MdrarEl1
| DbgbvrEl1 (n : Z) | DbgbcrEl1 (n : Z) | DbgwvrEl1 (n : Z) | DbgwcrEl1 (n : Z)
| DbgRazWiEl1 | MdccsrEl0 | DbgdtrEl0 | DbgclaimsetEl1 | DbgclaimclrEl1 | PmuserenrEl0
(* Cortex-A53 implementation defined *)
| ImpDefEl1 | CbarEl1
(* handled by the environment *)
| Env (e : EnvReg).

(** Directions allowed by a register. *)
Inductive Rw := ReadWrite | ReadOnly | WriteOnly.

#[export] Instance EnvReg_eq_dec : EqDecision EnvReg.
Proof. solve_decision. Defined.
#[export] Instance SysReg_eq_dec : EqDecision SysReg.
Proof. solve_decision. Defined.
#[export] Instance Rw_eq_dec : EqDecision Rw.
Proof. solve_decision. Defined.

(** [EnvReg::is_timer]. *)
Definition is_timer (e : EnvReg) : bool :=
  match e with
  | CntfrqEl0 | CntpctEl0 | CntvctEl0 | CntpTvalEl0 | CntpCtlEl0 | CntpCvalEl0
  | CntvTvalEl0 | CntvCtlEl0 | CntvCvalEl0 => true
  | _ => false
  end.

(** [EnvReg::rw]. *)
Definition env_rw (e : EnvReg) : Rw :=
  match e with
  | CntpctEl0 | CntvctEl0 | IccIar0El1 | IccIar1El1 | IccHppir0El1 | IccHppir1El1
  | IccRprEl1 => ReadOnly
  | IccEoir0El1 | IccEoir1El1 | IccDirEl1 | IccSgi1rEl1 | IccAsgi1rEl1 | IccSgi0rEl1 =>
      WriteOnly
  | _ => ReadWrite
  end.

(** [SysReg::is_el0_legacy]: the registers executed in user mode. *)
Definition is_el0_legacy (r : SysReg) : bool :=
  match r with
  | Nzcv | TpidrEl0 | TpidrroEl0 | Fpcr | Fpsr | DczidEl0 | CtrEl0 => true
  | _ => false
  end.

(** [SysReg::is_el0_dcc]: the EL0 debug channel. *)
Definition is_el0_dcc (r : SysReg) : bool :=
  match r with MdccsrEl0 | DbgdtrEl0 => true | _ => false end.

(** [SysReg::rw]. *)
Definition sysreg_rw (r : SysReg) : Rw :=
  match r with
  | DczidEl0 | CtrEl0 | CurrentEl | IsrEl1 | RvbarEl1 | MidrEl1 | MpidrEl1 | RevidrEl1
  | AidrEl1 | ClidrEl1 | CcsidrEl1 | Id _ | OslsrEl1 | MdrarEl1 | CbarEl1 | MdccsrEl0 =>
      ReadOnly
  | OslarEl1 => WriteOnly
  | Env e => env_rw e
  | _ => ReadWrite
  end.

(** [SysReg::is_unmodelled_a53]: the PMU. *)
Definition is_unmodelled_a53 (op0 op1 crn crm op2 : Z) : bool :=
  (op0 =? 3) &&
  ((op1 =? 3) && (crn =? 9) && (12 <=? crm) && (crm <=? 14)
   || (op1 =? 0) && (crn =? 9) && (crm =? 14)
   || (op1 =? 3) && (crn =? 14) && (8 <=? crm) && (crm <=? 15)).

(** [SysReg::lookup]: register from the MRS/MSR encoding, if Vetro models it. *)
Definition sysreg_lookup (op0 op1 crn crm op2 : Z) : option SysReg :=
  match op0, op1, crn, crm, op2 with
  (* debug *)
  | 2, 0, 0, (0 | 3 | 6), 2 => Some DbgRazWiEl1
  | 2, 3, 0, 1, 0 => Some MdccsrEl0
  | 2, 3, 0, (4 | 5), 0 => Some DbgdtrEl0
  | 2, 0, 7, 8, 6 => Some DbgclaimsetEl1
  | 2, 0, 7, 9, 6 => Some DbgclaimclrEl1
  | 2, 0, 0, 2, 0 => Some MdccintEl1
  | 2, 0, 0, 2, 2 => Some MdscrEl1
  | 2, 0, 0, n, 4 => if n <? 6 then Some (DbgbvrEl1 n) else None
  | 2, 0, 0, n, 5 => if n <? 6 then Some (DbgbcrEl1 n) else None
  | 2, 0, 0, n, 6 => if n <? 4 then Some (DbgwvrEl1 n) else None
  | 2, 0, 0, n, 7 => if n <? 4 then Some (DbgwcrEl1 n) else None
  | 2, 0, 1, 0, 0 => Some MdrarEl1
  | 2, 0, 1, 0, 4 => Some OslarEl1
  | 2, 0, 1, 1, 4 => Some OslsrEl1
  | 2, 0, 1, 3, 4 => Some OsdlrEl1
  (* identification *)
  | 3, 0, 0, 0, 0 => Some MidrEl1
  | 3, 0, 0, 0, 5 => Some MpidrEl1
  | 3, 0, 0, 0, 6 => Some RevidrEl1
  | 3, 0, 0, (1 | 2 | 3 | 4 | 5 | 6 | 7) as crm, op2 => Some (Id (crm * 8 + op2))
  | 3, 1, 0, 0, 0 => Some CcsidrEl1
  | 3, 1, 0, 0, 1 => Some ClidrEl1
  | 3, 1, 0, 0, 7 => Some AidrEl1
  | 3, 2, 0, 0, 0 => Some CsselrEl1
  | 3, 3, 0, 0, 1 => Some CtrEl0
  | 3, 3, 0, 0, 7 => Some DczidEl0
  (* control and MMU *)
  | 3, 0, 1, 0, 0 => Some SctlrEl1
  | 3, 0, 1, 0, 1 => Some ActlrEl1
  | 3, 0, 1, 0, 2 => Some CpacrEl1
  | 3, 0, 2, 0, 0 => Some Ttbr0El1
  | 3, 0, 2, 0, 1 => Some Ttbr1El1
  | 3, 0, 2, 0, 2 => Some TcrEl1
  | 3, 0, 10, 2, 0 => Some MairEl1
  | 3, 0, 10, 3, 0 => Some AmairEl1
  | 3, 0, 13, 0, 1 => Some ContextidrEl1
  | 3, 0, 13, 0, 4 => Some TpidrEl1
  | 3, 0, 14, 1, 0 => Some CntkctlEl1
  (* PSTATE and special registers *)
  | 3, 0, 4, 0, 0 => Some SpsrEl1
  | 3, 0, 4, 0, 1 => Some ElrEl1
  | 3, 0, 4, 1, 0 => Some SpEl0
  | 3, 0, 4, 2, 0 => Some SpSel
  | 3, 0, 4, 2, 2 => Some CurrentEl
  | 3, 3, 4, 2, 0 => Some Nzcv
  | 3, 3, 4, 2, 1 => Some Daif
  | 3, 3, 4, 4, 0 => Some Fpcr
  | 3, 3, 4, 4, 1 => Some Fpsr
  (* exceptions *)
  | 3, 0, 5, 1, 0 => Some Afsr0El1
  | 3, 0, 5, 1, 1 => Some Afsr1El1
  | 3, 0, 5, 2, 0 => Some EsrEl1
  | 3, 0, 6, 0, 0 => Some FarEl1
  | 3, 0, 7, 4, 0 => Some ParEl1
  | 3, 0, 12, 0, 0 => Some VbarEl1
  | 3, 0, 12, 0, 1 => Some RvbarEl1
  | 3, 0, 12, 1, 0 => Some IsrEl1
  | 3, 3, 9, 14, 0 => Some PmuserenrEl0
  (* Cortex-A53 implementation defined *)
  | 3, 1, 11, 0, (2 | 3) => Some ImpDefEl1
  | 3, 1, 15, 0, 0 => Some ImpDefEl1
  | 3, 1, 15, 2, (0 | 1 | 2 | 3) => Some ImpDefEl1
  | 3, 1, 15, 3, 0 => Some CbarEl1
  | 3, 3, 13, 0, 2 => Some TpidrEl0
  | 3, 3, 13, 0, 3 => Some TpidrroEl0
  (* generic timer *)
  | 3, 3, 14, 0, 0 => Some (Env CntfrqEl0)
  | 3, 3, 14, 0, 1 => Some (Env CntpctEl0)
  | 3, 3, 14, 0, 2 => Some (Env CntvctEl0)
  | 3, 3, 14, 2, 0 => Some (Env CntpTvalEl0)
  | 3, 3, 14, 2, 1 => Some (Env CntpCtlEl0)
  | 3, 3, 14, 2, 2 => Some (Env CntpCvalEl0)
  | 3, 3, 14, 3, 0 => Some (Env CntvTvalEl0)
  | 3, 3, 14, 3, 1 => Some (Env CntvCtlEl0)
  | 3, 3, 14, 3, 2 => Some (Env CntvCvalEl0)
  (* GICv3 CPU interface *)
  | 3, 0, 4, 6, 0 => Some (Env IccPmrEl1)
  | 3, 0, 12, 8, 0 => Some (Env IccIar0El1)
  | 3, 0, 12, 8, 1 => Some (Env IccEoir0El1)
  | 3, 0, 12, 8, 2 => Some (Env IccHppir0El1)
  | 3, 0, 12, 8, 3 => Some (Env IccBpr0El1)
  | 3, 0, 12, 8, 4 => Some (Env IccAp0r0El1)
  | 3, 0, 12, 9, 0 => Some (Env IccAp1r0El1)
  | 3, 0, 12, 11, 1 => Some (Env IccDirEl1)
  | 3, 0, 12, 11, 3 => Some (Env IccRprEl1)
  | 3, 0, 12, 11, 5 => Some (Env IccSgi1rEl1)
  | 3, 0, 12, 11, 6 => Some (Env IccAsgi1rEl1)
  | 3, 0, 12, 11, 7 => Some (Env IccSgi0rEl1)
  | 3, 0, 12, 12, 0 => Some (Env IccIar1El1)
  | 3, 0, 12, 12, 1 => Some (Env IccEoir1El1)
  | 3, 0, 12, 12, 2 => Some (Env IccHppir1El1)
  | 3, 0, 12, 12, 3 => Some (Env IccBpr1El1)
  | 3, 0, 12, 12, 4 => Some (Env IccCtlrEl1)
  | 3, 0, 12, 12, 5 => Some (Env IccSreEl1)
  | 3, 0, 12, 12, 6 => Some (Env IccIgrpen0El1)
  | 3, 0, 12, 12, 7 => Some (Env IccIgrpen1El1)
  | _, _, _, _, _ => None
  end.

(** ** What a register returned by the lookup satisfies

    The indices carried by the debug and ID registers are inside the arrays
    they select, so the accesses [s.dbgbvr[n]] and friends never panic. *)
Definition reg_ok (r : SysReg) : bool :=
  match r with
  | DbgbvrEl1 n | DbgbcrEl1 n => (0 <=? n) && (n <? 6)
  | DbgwvrEl1 n | DbgwcrEl1 n => (0 <=? n) && (n <? 4)
  | Id i => (8 <=? i) && (i <? 64)
  | _ => true
  end.

Lemma sysreg_lookup_ok op0 op1 crn crm op2 r :
  0 <= op0 < 4 -> 0 <= op1 < 8 -> 0 <= crn < 16 -> 0 <= crm < 16 -> 0 <= op2 < 8 ->
  sysreg_lookup op0 op1 crn crm op2 = Some r -> reg_ok r = true.
Proof.
  intros H0 H1 Hn Hm H2 Hr.
  assert (forall_below 4 (fun op0 => forall_below 8 (fun op1 => forall_below 16 (fun crn =>
    forall_below 16 (fun crm => forall_below 8 (fun op2 =>
      match sysreg_lookup op0 op1 crn crm op2 with Some r => reg_ok r | None => true end)))))
    = true) as Hall by (vm_compute; reflexivity).
  pose proof (forall_below_spec _ _ Hall op0 H0) as Ha; cbv beta in Ha.
  pose proof (forall_below_spec _ _ Ha op1 H1) as Hb; cbv beta in Hb.
  pose proof (forall_below_spec _ _ Hb crn Hn) as Hc; cbv beta in Hc.
  pose proof (forall_below_spec _ _ Hc crm Hm) as Hd; cbv beta in Hd.
  pose proof (forall_below_spec _ _ Hd op2 H2) as He; cbv beta in He.
  by rewrite Hr in He.
Qed.
