(* ===== verification/State.v ===== *)
(** * CPU state (crates/vetro-cpu/src/state.rs, sys/state.rs, sys/id.rs)

    The architectural registers [Cpu], the system-mode state [SysState]
    (PSTATE beyond NZCV, banked stack pointers, EL1 registers), the register
    accessors, the condition codes, and the invariant [cpu_wf]: array lengths
    and register widths. *)

From Stdlib Require Import ZArith Lia Bool.
From stdpp Require Import base list numbers.
From S2P Require Import Prelude Bits.
Local Open Scope Z_scope.
Local Open Scope vetro_scope.

(** ** Configuration and constants of system mode *)

Inductive Mode := User | System.
Inductive PsciConduit := ConduitHvc | ConduitSmc | ConduitNone.

#[export] Instance Mode_eq_dec : EqDecision Mode.
Proof. solve_decision. Defined.
#[export] Instance PsciConduit_eq_dec : EqDecision PsciConduit.
Proof. solve_decision. Defined.

Record SysConfig := MkSysConfig {
  psci : PsciConduit;
  mpidr : Z;
  gicv3 : bool;
  cbar : Z;
}.

Definition default_config : SysConfig := MkSysConfig ConduitHvc 0x80000000 true 0x08000000.

(** SCTLR_EL1 bits read by the CPU. *)
Module sctlr.
Definition M := 2 ^ 0.
Definition A := 2 ^ 1.
Definition SA := 2 ^ 3.
Definition SA0 := 2 ^ 4.
Definition UMA := 2 ^ 9.
Definition DZE := 2 ^ 14.
Definition UCT := 2 ^ 15.
Definition NTWI := 2 ^ 16.
Definition NTWE := 2 ^ 18.
Definition E0E := 2 ^ 24.
Definition EE := 2 ^ 25.
Definition UCI := 2 ^ 26.
(** [1 << 37 | 0b11 << 38 | 0b11 << 40 | 1 << 42 | 1 << 43]. *)
Definition MTE_BITS := Z.lor (Z.lor (Z.lor (Z.lor (Z.shiftl 1 37) (Z.shiftl 3 38))
  (Z.shiftl 3 40)) (Z.shiftl 1 42)) (Z.shiftl 1 43).
End sctlr.

Definition FPEN_SHIFT := 20.

(** CNTKCTL_EL1 bits that govern timer access from EL0. *)
Module cntkctl.
Definition EL0PCTEN := 2 ^ 0.
Definition EL0VCTEN := 2 ^ 1.
Definition EL0VTEN := 2 ^ 8.
Definition EL0PTEN := 2 ^ 9.
End cntkctl.

(** SPSR_EL1 fields. *)
Module spsr.
Definition NZCV := 0xf0000000.
Definition IL := 2 ^ 20.
Definition DAIF := 0x3c0.
Definition M := 0x1f.
End spsr.

(** DAIF bits. *)
Module daif.
Definition D := 2 ^ 9.
Definition A := 2 ^ 8.
Definition I := 2 ^ 7.
Definition F := 2 ^ 6.
Definition ALL := Z.lor (Z.lor (Z.lor D A) I) F.
End daif.

(** Identification and reset values of the Cortex-A53. *)
Module id.
Definition MIDR_EL1 := 0x410fd034.
Definition REVIDR_EL1 := 0x100.
Definition CTR_EL0 := 0x84448004.
Definition DCZID_BS := 4.
Definition CLIDR_EL1 := 0x0a200023.
Definition CCSIDR_EL1 : list Z := [0x700fe01a; 0x203fe002; 0x707fe07a].
Definition SCTLR_EL1_RESET := 0x00c50838.

Definition id_reg (index : Z) (gicv3 : bool) : Z :=
  let gic := b2z gicv3 in
  match index with
  | 8 => 0x00000131
  | 9 => Z.lor 0x00010001 (Z.shiftl gic 28)
  | 10 => 0x03000006
  | 12 => 0x10101105
  | 13 => 0x40000000
  | 14 => 0x01260000
  | 15 => 0x02102211
  | 16 => 0x02101110
  | 17 => 0x13112111
  | 18 => 0x21232042
  | 19 => 0x01112131
  | 20 => 0x00011142
  | 21 => 0x00011121
  | 24 => 0x10110222
  | 25 => 0x12111111
  | 26 => 0x00000043
  | 32 => Z.lor 0x00000011 (Z.shiftl gic 24)
  | 40 => 0x10305106
  | 48 => 0x00011120
  | 56 => 0x00001122
  | _ => 0
  end.
End id.

(** ** State *)

Record SysState := MkSysState {
  sys_mode : Mode;
  sys_cfg : SysConfig;
  sys_el : Z;
  sys_spsel : bool;
  sys_daif : Z;
  sys_il : bool;
  sys_sp_el : list Z;
  sys_elr_el1 : Z;
  sys_spsr_el1 : Z;
  sys_vbar_el1 : Z;
  sys_esr_el1 : Z;
  sys_far_el1 : Z;
  sys_sctlr_el1 : Z;
  sys_tcr_el1 : Z;
  sys_ttbr0_el1 : Z;
  sys_ttbr1_el1 : Z;
  sys_mair_el1 : Z;
  sys_contextidr_el1 : Z;
  sys_cpacr_el1 : Z;
  sys_tpidr_el1 : Z;
  sys_par_el1 : Z;
  sys_cntkctl_el1 : Z;
  sys_csselr_el1 : Z;
  sys_mdscr_el1 : Z;
  sys_oslk : bool;
  sys_osdlr_el1 : Z;
  sys_dbgbvr : list Z;
  sys_dbgbcr : list Z;
  sys_dbgwvr : list Z;
  sys_dbgwcr : list Z;
  sys_dbgclaim : Z;
  sys_pmuserenr_el0 : Z;
  sys_serror_pending : option Z;
}.

#[export] Instance eta_SysState : Eta SysState := fun s =>
  MkSysState (sys_mode s) (sys_cfg s) (sys_el s) (sys_spsel s) (sys_daif s) (sys_il s)
    (sys_sp_el s) (sys_elr_el1 s) (sys_spsr_el1 s) (sys_vbar_el1 s) (sys_esr_el1 s)
    (sys_far_el1 s) (sys_sctlr_el1 s) (sys_tcr_el1 s) (sys_ttbr0_el1 s) (sys_ttbr1_el1 s)
    (sys_mair_el1 s) (sys_contextidr_el1 s) (sys_cpacr_el1 s) (sys_tpidr_el1 s)
    (sys_par_el1 s) (sys_cntkctl_el1 s) (sys_csselr_el1 s) (sys_mdscr_el1 s) (sys_oslk s)
    (sys_osdlr_el1 s) (sys_dbgbvr s) (sys_dbgbcr s) (sys_dbgwvr s) (sys_dbgwcr s)
    (sys_dbgclaim s) (sys_pmuserenr_el0 s) (sys_serror_pending s).

Definition default_sys : SysState :=
  MkSysState User default_config 0 false 0 false (replicate 2 0) 0 0 0 0 0 0 0 0 0 0 0 0 0 0
    0 0 0 false 0 (replicate 6 0) (replicate 6 0) (replicate 4 0) (replicate 4 0) 0 0 None.

(** Local exclusive monitor. *)
Record Monitor := MkMonitor { mon_addr : Z; mon_bytes : Z; mon_value : Z }.

Record Cpu := MkCpu {
  cpu_x : list Z;
  cpu_sp : Z;
  cpu_pc : Z;
  cpu_nzcv : Z;
  cpu_tpidr_el0 : Z;
  cpu_tpidrro_el0 : Z;
  cpu_monitor : option Monitor;
  cpu_v : list Z;
  cpu_fpcr : Z;
  cpu_fpsr : Z;
  cpu_sys : SysState;
}.

#[export] Instance eta_Cpu : Eta Cpu := fun c =>
  MkCpu (cpu_x c) (cpu_sp c) (cpu_pc c) (cpu_nzcv c) (cpu_tpidr_el0 c) (cpu_tpidrro_el0 c)
    (cpu_monitor c) (cpu_v c) (cpu_fpcr c) (cpu_fpsr c) (cpu_sys c).

(** [Cpu::new]. *)
Definition cpu_new : Cpu :=
  MkCpu (replicate 31 0) 0 0 0 0 0 None (replicate 32 0) 0 0 default_sys.

Definition FPCR_MASK := 0x07C00000.
Definition FPSR_MASK := 0x0800009F.
Definition flag_N := Z.shiftl 1 31.
Definition flag_Z := Z.shiftl 1 30.
Definition flag_C := Z.shiftl 1 29.
Definition flag_V := Z.shiftl 1 28.

(** ** Registers *)

(** General register; 31 is XZR. *)
Definition xr (c : Cpu) (r : Z) : Z :=
  if r =? 31 then 0 else cpu_x c !!! Z.to_nat r.

(** General register; 31 is SP. *)
Definition xsp (c : Cpu) (r : Z) : Z :=
  if r =? 31 then cpu_sp c else cpu_x c !!! Z.to_nat r.

(** Writes a register; 31 (XZR) discards the value. *)
Definition set_x (r v : Z) (c : Cpu) : Cpu :=
  if negb (r =? 31) then c <| cpu_x ::= fun x => <[Z.to_nat r := v]> x |> else c.

(** Writes a register; 31 is SP. *)
Definition set_xsp (r v : Z) (c : Cpu) : Cpu :=
  if r =? 31 then c <| cpu_sp := v |>
  else c <| cpu_x ::= fun x => <[Z.to_nat r := v]> x |>.

Definition set_flags (n z cf v : bool) (c : Cpu) : Cpu :=
  c <| cpu_nzcv := Z.lor (Z.lor (Z.lor (Z.shiftl (b2z n) 31) (Z.shiftl (b2z z) 30))
                     (Z.shiftl (b2z cf) 29)) (Z.shiftl (b2z v) 28) |>.

(** [ConditionHolds(cond)]. *)
Definition condition_holds (c : Cpu) (cond : Z) : bool :=
  let f := cpu_nzcv c in
  let n := test_mask f flag_N in
  let z := test_mask f flag_Z in
  let cf := test_mask f flag_C in
  let v := test_mask f flag_V in
  let r := match Z.shiftr cond 1 with
           | 0 => z
           | 1 => cf
           | 2 => n
           | 3 => v
           | 4 => cf && negb z
           | 5 => Bool.eqb n v
           | 6 => Bool.eqb n v && negb z
           | _ => true
           end in
  if (Z.land cond 1 =? 1) && negb (cond =? 15) then negb r else r.

(** ** System mode *)

(** Registers that govern stage 1 translation, copied on every access. *)
Record TranslationRegs := MkTranslationRegs {
  tr_sctlr : Z; tr_tcr : Z; tr_ttbr0 : Z; tr_ttbr1 : Z; tr_mair : Z }.

Definition reset_system (cfg : SysConfig) (c : Cpu) : Cpu :=
  c <| cpu_sys := default_sys <| sys_mode := System |> <| sys_cfg := cfg |>
                    <| sys_el := 1 |> <| sys_spsel := true |> <| sys_daif := daif.ALL |>
                    <| sys_sctlr_el1 := id.SCTLR_EL1_RESET |> <| sys_oslk := true |> |>
    <| cpu_monitor := None |>.

(** Index of the stack pointer in use (0 = SP_EL0, 1 = SP_EL1). *)
Definition sp_index (el : Z) (spsel : bool) : Z :=
  if (el =? 0) || negb spsel then 0 else 1.

(** Value of SP_ELn whichever one is in use. *)
Definition sp_el (c : Cpu) (n : Z) : Z :=
  if sp_index (sys_el (cpu_sys c)) (sys_spsel (cpu_sys c)) =? n then cpu_sp c
  else sys_sp_el (cpu_sys c) !!! Z.to_nat n.

Definition set_sp_el (n v : Z) (c : Cpu) : Cpu :=
  if sp_index (sys_el (cpu_sys c)) (sys_spsel (cpu_sys c)) =? n then c <| cpu_sp := v |>
  else c <| cpu_sys ::= fun s => s <| sys_sp_el ::= fun l => <[Z.to_nat n := v]> l |> |>.

(** Changes PSTATE.EL and PSTATE.SP, swapping the stack pointer in use. *)
Definition set_el_sp (el : Z) (spsel : bool) (c : Cpu) : Cpu :=
  let old := sp_index (sys_el (cpu_sys c)) (sys_spsel (cpu_sys c)) in
  let new := sp_index el spsel in
  let c :=
    if negb (old =? new) then
      let c := c <| cpu_sys ::= fun s =>
                      s <| sys_sp_el ::= fun l => <[Z.to_nat old := cpu_sp c]> l |> |> in
      c <| cpu_sp := sys_sp_el (cpu_sys c) !!! Z.to_nat new |>
    else c in
  c <| cpu_sys ::= fun s => s <| sys_el := el |> <| sys_spsel := spsel |> |>.

(** PSTATE in SPSR_EL1 format. *)
Definition pstate_spsr (c : Cpu) : Z :=
  let s := cpu_sys c in
  let m := Z.lor (Z.shiftl (sys_el s) 2) (b2z (sys_spsel s)) in
  Z.lor (Z.lor (Z.lor (Z.land (cpu_nzcv c) 0xf0000000) (Z.shiftl (b2z (sys_il s)) 20))
    (sys_daif s)) m.

Definition translation_regs (c : Cpu) : TranslationRegs :=
  let s := cpu_sys c in
  MkTranslationRegs (sys_sctlr_el1 s) (sys_tcr_el1 s) (sys_ttbr0_el1 s) (sys_ttbr1_el1 s)
    (sys_mair_el1 s).

(** FP/SIMD instructions are trapped at the current level. *)
Definition fp_trapped (c : Cpu) : bool :=
  match Z.land (Z.shiftr (sys_cpacr_el1 (cpu_sys c)) FPEN_SHIFT) 3 with
  | 3 => false
  | 1 => sys_el (cpu_sys c) =? 0
  | _ => true
  end.

(** [AArch64.BranchAddr]: Top Byte Ignore. *)
Definition branch_addr (c : Cpu) (target : Z) : Z :=
  let tbi := if negb (Z.land (Z.shiftr target 55) 1 =? 0) then Z.shiftl 1 38
             else Z.shiftl 1 37 in
  if test_mask (sys_tcr_el1 (cpu_sys c)) tbi then u64 (sext target 56) else target.

(** ** Well-formed states *)

Definition nzcv_ok (z : Z) : Prop := Z.land z 0xf0000000 = z /\ 0 <= z.

Definition monitor_ok (m : Monitor) : Prop :=
  is_u64 (mon_addr m) /\ 0 <= mon_bytes m <= 16 /\ is_u (8 * mon_bytes m) (mon_value m).

Record sys_wf (s : SysState) : Prop := {
  wf_el : sys_el s = 0 \/ sys_el s = 1;
  wf_daif : Z.land (sys_daif s) daif.ALL = sys_daif s /\ 0 <= sys_daif s;
  wf_sp_el : length (sys_sp_el s) = 2%nat /\ Forall is_u64 (sys_sp_el s);
  wf_elr : is_u64 (sys_elr_el1 s);
  wf_spsr : is_u64 (sys_spsr_el1 s);
  wf_vbar : is_u64 (sys_vbar_el1 s);
  wf_esr : is_u64 (sys_esr_el1 s);
  wf_far : is_u64 (sys_far_el1 s);
  wf_regs : Forall is_u64 [sys_sctlr_el1 s; sys_tcr_el1 s; sys_ttbr0_el1 s; sys_ttbr1_el1 s;
    sys_mair_el1 s; sys_contextidr_el1 s; sys_cpacr_el1 s; sys_tpidr_el1 s; sys_par_el1 s;
    sys_cntkctl_el1 s; sys_csselr_el1 s; sys_mdscr_el1 s; sys_osdlr_el1 s;
    sys_pmuserenr_el0 s];
  wf_cfg : is_u64 (mpidr (sys_cfg s)) /\ is_u64 (cbar (sys_cfg s));
  wf_dbgbvr : length (sys_dbgbvr s) = 6%nat /\ Forall is_u64 (sys_dbgbvr s);
  wf_dbgbcr : length (sys_dbgbcr s) = 6%nat /\ Forall is_u64 (sys_dbgbcr s);
  wf_dbgwvr : length (sys_dbgwvr s) = 4%nat /\ Forall is_u64 (sys_dbgwvr s);
  wf_dbgwcr : length (sys_dbgwcr s) = 4%nat /\ Forall is_u64 (sys_dbgwcr s);
  wf_dbgclaim : is_u 8 (sys_dbgclaim s);
  wf_serror : forall iss, sys_serror_pending s = Some iss -> is_u32 iss;
}.

Record cpu_wf (c : Cpu) : Prop := {
  wf_x : length (cpu_x c) = 31%nat /\ Forall is_u64 (cpu_x c);
  wf_sp : is_u64 (cpu_sp c);
  wf_pc : is_u64 (cpu_pc c);
  wf_nzcv : nzcv_ok (cpu_nzcv c);
  wf_tpidr : is_u64 (cpu_tpidr_el0 c);
  wf_tpidrro : is_u64 (cpu_tpidrro_el0 c);
  wf_monitor : forall m, cpu_monitor c = Some m -> monitor_ok m;
  wf_v : length (cpu_v c) = 32%nat /\ Forall (is_u 128) (cpu_v c);
  wf_fpcr : Z.land (cpu_fpcr c) FPCR_MASK = cpu_fpcr c;
  wf_fpsr : Z.land (cpu_fpsr c) FPSR_MASK = cpu_fpsr c;
  wf_sys : sys_wf (cpu_sys c);
}.

Definition reg_num (r : Z) : Prop := 0 <= r <= 31.

Lemma zeros_u64 n : Forall is_u64 (replicate n 0).
Proof. apply Forall_replicate. unfold is_u. lia. Qed.

Lemma default_sys_wf : sys_wf default_sys.
Proof.
  constructor; try (unfold is_u; simpl; lia);
    try (split; [reflexivity|apply zeros_u64]); try done.
  exact (zeros_u64 14).
Qed.

Lemma cpu_new_wf : cpu_wf cpu_new.
Proof.
  constructor; try (unfold is_u; simpl; lia);
    try (split; [reflexivity|apply zeros_u64]); try done.
  - split; [reflexivity|]. apply Forall_replicate. unfold is_u. lia.
  - apply default_sys_wf.
Qed.

Lemma nzcv_ok_bits z : nzcv_ok z -> is_u32 z /\ forall i, 0 <= i < 28 -> Z.testbit z i = false.
Proof.
  intros [Hz H0]. split.
  - rewrite <- Hz. apply is_u_land_r; [lia|done|unfold is_u; lia].
  - intros i Hi. rewrite <- Hz. change 0xf0000000 with (Z.shiftl 15 28).
    autorewrite with zbits. rewrite (Z.testbit_neg_r 15) by lia. by rewrite andb_false_r.
Qed.

(** The flag word, bit by bit. *)
Definition nzcv_word (n z c v : bool) : Z :=
  b2z n * 2 ^ 31 + b2z z * 2 ^ 30 + b2z c * 2 ^ 29 + b2z v * 2 ^ 28.

Lemma set_flags_word n z cf v c :
  set_flags n z cf v c = c <| cpu_nzcv := nzcv_word n z cf v |>.
Proof. by destruct n, z, cf, v. Qed.

Lemma nzcv_word_ok n z c v : nzcv_ok (nzcv_word n z c v).
Proof. split; by destruct n, z, c, v. Qed.

Lemma xr_bound c r : cpu_wf c -> reg_num r -> is_u64 (xr c r).
Proof.
  intros Hwf Hr. unfold xr. destruct (Z.eqb_spec r 31); [unfold is_u; lia|].
  destruct (wf_x _ Hwf) as [Hlen Hall]. unfold reg_num in Hr.
  eapply Forall_lookup_total_1; [done|]. rewrite Hlen. lia.
Qed.

Lemma xsp_bound c r : cpu_wf c -> reg_num r -> is_u64 (xsp c r).
Proof.
  intros Hwf Hr. unfold xsp. destruct (Z.eqb_spec r 31); [apply (wf_sp _ Hwf)|].
  destruct (wf_x _ Hwf) as [Hlen Hall]. unfold reg_num in Hr.
  eapply Forall_lookup_total_1; [done|]. rewrite Hlen. lia.
Qed.

Lemma set_x_wf c r v : cpu_wf c -> is_u64 v -> cpu_wf (set_x r v c).
Proof.
  intros [Hx] Hv. unfold set_x. destruct (r =? 31); [by constructor|].
  constructor; simpl; try done. destruct Hx as [Hlen Hall].
  rewrite length_insert. split; [done|]. by apply Forall_insert.
Qed.

Lemma set_xsp_wf c r v : cpu_wf c -> is_u64 v -> cpu_wf (set_xsp r v c).
Proof.
  intros [Hx] Hv. unfold set_xsp. destruct (r =? 31); [by constructor|].
  constructor; simpl; try done. destruct Hx as [Hlen Hall].
  rewrite length_insert. split; [done|]. by apply Forall_insert.
Qed.

Lemma set_nzcv_wf c z : cpu_wf c -> nzcv_ok z -> cpu_wf (c <| cpu_nzcv := z |>).
Proof. intros [] Hz. by constructor. Qed.

Lemma set_flags_wf c n z cf v : cpu_wf c -> cpu_wf (set_flags n z cf v c).
Proof.
  intros. rewrite set_flags_word. apply set_nzcv_wf; [done|]. apply nzcv_word_ok.
Qed.

Lemma set_pc_wf c v : cpu_wf c -> is_u64 v -> cpu_wf (c <| cpu_pc := v |>).
Proof. intros [] Hv. by constructor. Qed.

Lemma set_monitor_wf c m :
  cpu_wf c -> (forall m', m = Some m' -> monitor_ok m') -> cpu_wf (c <| cpu_monitor := m |>).
Proof. intros [] Hm. by constructor. Qed.

Lemma set_sys_wf c s : cpu_wf c -> sys_wf s -> cpu_wf (c <| cpu_sys := s |>).
Proof. intros [] Hs. by constructor. Qed.

#[export] Hint Resolve xr_bound xsp_bound set_x_wf set_xsp_wf set_flags_wf set_pc_wf
  nzcv_word_ok cpu_new_wf : vetro.
