(* ===== verification/Decode.v ===== *)
(** * Decoded instructions (the types of crates/vetro-cpu/src/decode.rs and
    simd/ldst.rs)

    The enums the decoder produces and the interpreter consumes.  The integer,
    floating-point and cryptographic data-processing instructions of AdvSIMD
    (simd/int.rs, simd/fpinsn.rs, simd/crypto.rs) are not modelled: their
    instruction types, decoders and executors are the parameters [SimdTypes],
    [SimdDecode] (file Decode) and [SimdExec] (file Exec). *)

From Stdlib Require Import ZArith Lia Bool.
From stdpp Require Import base list numbers strings.
From S2P Require Import Prelude Bits SysReg.
Local Open Scope Z_scope.

Inductive LogicOp := And | Orr | Eor | Ands.
Inductive MovOp := Movn | Movz | Movk.
Inductive BfOp := Sbfm | Bfm | Ubfm.
Inductive Shift := Lsl | Lsr | Asr | Ror.
Inductive CselOp := Csel | Csinc | Csinv | Csneg.
Inductive Dp1Op := Rbit | Rev16 | Rev32 | Rev64 | Clz | Cls.
Inductive Dp2Op := Udiv | Sdiv | Lslv | Lsrv | Asrv | Rorv | Crc32 (bytes : Z) (c : bool).
Inductive Dp3Op := Madd | Msub | Smaddl | Smsubl | Umaddl | Umsubl | Smulh | Umulh.
Inductive BrOp := Br | Blr | Ret.
Inductive CcmpOperand := CcmpReg (rm : Z) | CcmpImm (i : Z).

(** PSTATE field written by MSR (immediate). *)
Inductive PstateField := FieldSpSel | FieldDaifSet | FieldDaifClr.

(** Address translation (AT) of the EL1&0 regime. *)
Inductive AtOp := S1e1r | S1e1w | S1e0r | S1e0w.

(** TLBI instructions of the EL1&0 regime (sys/mod.rs). *)
Inductive TlbiOp :=
| Vmalle1 | Vae1 | Aside1 | Vaae1 | Vale1 | Vaale1
| Vmalle1is | Vae1is | Aside1is | Vaae1is | Vale1is | Vaale1is.

(** System instructions (SYS) accessible only at EL1. *)
Inductive SysOp := Tlbi (op : TlbiOp) | At (op : AtOp) | IcIall | DcIvac | DcSetWay.

Inductive MemOp := Store | Load (signed dst64 : bool) | Prefetch.
Inductive Index := Offset | Pre | Post.
Inductive AddrMode := AddrImm (offset : Z) (index : Index) | AddrReg (rm extend shift : Z).

(** Post-access increment for structures: implicit immediate or Xm. *)
Inductive PostInc := PostNone | PostImm (n : Z) | PostReg (rm : Z).

Inductive VecMemInsn :=
| VReg (scale : Z) (load : bool) (addr : AddrMode) (rt rn : Z)
| VLiteral (scale offset rt : Z)
| VPair (scale : Z) (load : bool) (index : Index) (offset rt rt2 rn : Z)
| VMulti (load q : bool) (rpt selem esize rt rn : Z) (post : PostInc)
| VSingle (load q : bool) (selem scale index : Z) (repl : bool) (rt rn : Z) (post : PostInc).

(** The instructions of the AdvSIMD/FP data-processing unit: those its decoders
    can yield. *)
Class SimdTypes : Type := { IntInsn : Type; FpInsn : Type; CryptoInsn : Type }.

Inductive SimdInsn {ST : SimdTypes} :=
| SimdMem (m : VecMemInsn)
| SimdInt (i : IntInsn)
| SimdFp (f : FpInsn)
| SimdCrypto (c : CryptoInsn).

Inductive Insn {ST : SimdTypes} :=
| AddSubImm (sf sub setflags : bool) (imm rn rd : Z)
| LogicalImm (sf : bool) (op : LogicOp) (imm rn rd : Z)
| MoveWide (sf : bool) (op : MovOp) (shift imm16 rd : Z)
| Adr (page : bool) (imm rd : Z)
| Bitfield (sf : bool) (op : BfOp) (r s wmask tmask rn rd : Z)
| Extract (sf : bool) (lsb rm rn rd : Z)
| LogicalReg (sf : bool) (op : LogicOp) (invert : bool) (shift : Shift) (amount rm rn rd : Z)
| AddSubReg (sf sub setflags : bool) (shift : Shift) (amount rm rn rd : Z)
| AddSubExt (sf sub setflags : bool) (extend amount rm rn rd : Z)
| AddSubCarry (sf sub setflags : bool) (rm rn rd : Z)
| CondCmp (sf sub : bool) (operand : CcmpOperand) (cond nzcv rn : Z)
| CondSel (sf : bool) (op : CselOp) (cond rm rn rd : Z)
| Dp1 (sf : bool) (op : Dp1Op) (rn rd : Z)
| Dp2 (sf : bool) (op : Dp2Op) (rm rn rd : Z)
| Dp3 (sf : bool) (op : Dp3Op) (ra rm rn rd : Z)
| B (link : bool) (offset : Z)
| BCond (cond offset : Z)
| Cbz (sf nonzero : bool) (rt offset : Z)
| Tbz (nonzero : bool) (b rt offset : Z)
| BranchReg (op : BrOp) (rn : Z)
| Svc (imm : Z)
| Hvc (imm : Z)
| Smc (imm : Z)
| Brk (imm : Z)
| Eret
| Wfi
| Wfe
| Yield
| MsrImm (field : PstateField) (imm : Z)
| Sys (op : SysOp) (rt : Z)
| Nop
| Barrier
| Clrex
| DcZva (rt : Z)
| CacheMaint
| Mrs (reg : SysReg) (rt : Z)
| Msr (reg : SysReg) (rt : Z)
| LdSt (size : Z) (op : MemOp) (addr : AddrMode) (rt rn : Z) (unpriv : bool)
| LdLiteral (size : Z) (op : MemOp) (offset rt : Z)
| LdStPair (size : Z) (load signed : bool) (index : Index) (offset rt rt2 rn : Z)
| Exclusive (size : Z) (load pair : bool) (rs rt rt2 rn : Z)
| LoadAcquire (size rt rn : Z)
| StoreRelease (size rt rn : Z)
| Simd (s : SimdInsn)
| Undefined
| Unimplemented (what : string).

#[export] Instance LogicOp_eq_dec : EqDecision LogicOp.
Proof. solve_decision. Defined.
#[export] Instance BfOp_eq_dec : EqDecision BfOp.
Proof. solve_decision. Defined.
#[export] Instance BrOp_eq_dec : EqDecision BrOp.
Proof. solve_decision. Defined.
#[export] Instance MemOp_eq_dec : EqDecision MemOp.
Proof. solve_decision. Defined.
#[export] Instance Index_eq_dec : EqDecision Index.
Proof. solve_decision. Defined.
#[export] Instance TlbiOp_eq_dec : EqDecision TlbiOp.
Proof. solve_decision. Defined.

(** [TlbiOp::from_sys]: a TLBI from the SYS fields (op0 = 1 implied). *)
Definition from_sys (op1 crn crm op2 : Z) : option TlbiOp :=
  if negb (op1 =? 0) || negb (crn =? 8) then None else
  match crm, op2 with
  | 3, 0 => Some Vmalle1is
  | 3, 1 => Some Vae1is
  | 3, 2 => Some Aside1is
  | 3, 3 => Some Vaae1is
  | 3, 5 => Some Vale1is
  | 3, 7 => Some Vaale1is
  | 7, 0 => Some Vmalle1
  | 7, 1 => Some Vae1
  | 7, 2 => Some Aside1
  | 7, 3 => Some Vaae1
  | 7, 5 => Some Vale1
  | 7, 7 => Some Vaale1
  | _, _ => None
  end.

(** [TlbiOp::is_broadcast]: Inner Shareable variant. *)
Definition is_broadcast (op : TlbiOp) : bool :=
  match op with
  | Vmalle1is | Vae1is | Aside1is | Vaae1is | Vale1is | Vaale1is => true
  | _ => false
  end.

(** * The AArch64 decoder (crates/vetro-cpu/src/decode.rs, simd/mod.rs,
    simd/ldst.rs)

    [decode] with its helpers, one definition per function of the source.
    Binary patterns of the source are written in decimal.  The theorem of
    interest is [decode_wf]: every instruction the decoder produces has
    register numbers, sizes and shift amounts in the ranges the interpreter
    needs, so its array accesses and shifts are in range. *)

(** Decoders of the AdvSIMD/FP data-processing classes ([fpinsn::decode] and
    [int::decode]). *)
Class SimdDecode {ST : SimdTypes} : Type := {
  fpinsn_decode : Z -> Insn;
  int_decode : Z -> Insn;
}.

Section decode.
Context {ST : SimdTypes} {SD : SimdDecode}.

(** Field of 5 bits: a register number. *)
Definition r (w lo : Z) : Z := field w (lo + 4) lo.

(** [[LogicOp::And, LogicOp::Orr, LogicOp::Eor, LogicOp::Ands][i]]. *)
Definition logic_op (i : Z) : LogicOp :=
  match i with 0 => And | 1 => Orr | 2 => Eor | _ => Ands end.

(** [[Shift::Lsl, Shift::Lsr, Shift::Asr, Shift::Ror][i]]. *)
Definition shift_op (i : Z) : Shift :=
  match i with 0 => Lsl | 1 => Lsr | 2 => Asr | _ => Ror end.

Definition dp_imm (w : Z) : Insn :=
  let sf := bit w 31 in
  let rd := r w 0 in
  let rn := r w 5 in
  match field w 25 23 with
  | 0 | 1 =>
      let imm := sext (Z.lor (Z.shiftl (field w 23 5) 2) (field w 30 29)) 21 in
      let page := bit w 31 in
      Adr page (if page then Z.shiftl imm 12 else imm) rd
  | 2 =>
      let imm12 := field w 21 10 in
      AddSubImm sf (bit w 30) (bit w 29) (if bit w 22 then Z.shiftl imm12 12 else imm12) rn rd
  | 4 =>
      let n := field w 22 22 in
      if negb sf && (n =? 1) then Undefined else
      let datasize := if sf then 64 else 32 in
      match decode_bit_masks n (field w 15 10) (field w 21 16) true datasize with
      | None => Undefined
      | Some (imm, _) => LogicalImm sf (logic_op (field w 30 29)) imm rn rd
      end
  | 5 =>
      let hw := field w 22 21 in
      match (match field w 30 29 with
             | 0 => Some Movn | 2 => Some Movz | 3 => Some Movk | _ => None end) with
      | None => Undefined
      | Some op =>
          if negb sf && (2 <=? hw) then Undefined
          else MoveWide sf op (hw * 16) (field w 20 5) rd
      end
  | 6 =>
      match (match field w 30 29 with
             | 0 => Some Sbfm | 1 => Some Bfm | 2 => Some Ubfm | _ => None end) with
      | None => Undefined
      | Some op =>
          let n := field w 22 22 in
          let immr := field w 21 16 in
          let imms := field w 15 10 in
          if sf && negb (n =? 1)
             || negb sf && (negb (n =? 0) || (32 <=? immr) || (32 <=? imms)) then Undefined else
          let datasize := if sf then 64 else 32 in
          match decode_bit_masks n imms immr false datasize with
          | None => Undefined
          | Some (wmask, tmask) => Bitfield sf op immr imms wmask tmask rn rd
          end
      end
  | 7 =>
      let imms := field w 15 10 in
      if negb (field w 30 29 =? 0) || bit w 21 || negb (Bool.eqb (bit w 22) sf)
         || negb sf && (32 <=? imms) then Undefined
      else Extract sf imms (r w 16) rn rd
  | _ => Undefined
  end.

Definition branch_reg (w : Z) : Insn :=
  if w =? 0xD69F03E0 then Eret else
  if negb (field w 20 16 =? 31) || negb (field w 15 10 =? 0) || negb (field w 4 0 =? 0)
  then Undefined else
  match field w 24 21 with
  | 0 => BranchReg Br (r w 5)
  | 1 => BranchReg Blr (r w 5)
  | 2 => BranchReg Ret (r w 5)
  | _ => Undefined
  end.

Definition exception (w : Z) : Insn :=
  let imm := field w 20 5 in
  match field w 23 21, field w 4 2, field w 1 0 with
  | 0, 0, 1 => Svc imm
  | 0, 0, 2 => Hvc imm
  | 0, 0, 3 => Smc imm
  | 1, 0, 0 => Brk imm
  | _, _, _ => Undefined
  end.

(** The SYS row of [system] (op0 = 0b01). *)
Definition system_sys (op1 crn crm op2 rt : Z) : Insn :=
  match op1, crn, crm, op2 with
  | 3, 7, 4, 1 => DcZva rt
  | 3, 7, (5 | 10 | 11 | 14), 1 => CacheMaint
  | 0, 7, (1 | 5), 0 => Sys IcIall rt
  | 0, 7, 6, 1 => Sys DcIvac rt
  | 0, 7, (6 | 10 | 14), 2 => Sys DcSetWay rt
  | 0, 7, 8, 0 => Sys (At S1e1r) rt
  | 0, 7, 8, 1 => Sys (At S1e1w) rt
  | 0, 7, 8, 2 => Sys (At S1e0r) rt
  | 0, 7, 8, 3 => Sys (At S1e0w) rt
  | _, _, _, _ =>
      match from_sys op1 crn crm op2 with
      | Some t => Sys (Tlbi t) rt
      | None => Undefined
      end
  end.

(** The MRS/MSR row of [system] (op0 = 0b1x). *)
Definition system_msr (l : bool) (op0 op1 crn crm op2 rt : Z) : Insn :=
  match sysreg_lookup op0 op1 crn crm op2 with
  | None =>
      if is_unmodelled_a53 op0 op1 crn crm op2
      then Unimplemented "MRS/MSR system register" else Undefined
  | Some reg =>
      if l then Mrs reg rt
      else if bool_decide (reg = DczidEl0) || bool_decide (reg = CtrEl0) then Undefined
      else Msr reg rt
  end.

Definition system (w : Z) : Insn :=
  let l := bit w 21 in
  let op0 := field w 20 19 in
  let op1 := field w 18 16 in
  let crn := field w 15 12 in
  let crm := field w 11 8 in
  let op2 := field w 7 5 in
  let rt := r w 0 in
  match op0 with
  | 0 =>
      if l || negb (rt =? 31) then Undefined else
      match crn, op1 with
      | 2, 3 =>
          match crm, op2 with
          | 0, 1 => Yield
          | 0, 2 => Wfe
          | 0, 3 => Wfi
          | _, _ => Nop
          end
      | 3, 3 =>
          match op2 with
          | 2 => Clrex
          | 4 | 5 | 6 => Barrier
          | _ => Undefined
          end
      | 4, 0 => if op2 =? 5 then MsrImm FieldSpSel crm else Undefined
      | 4, 3 =>
          if op2 =? 6 then MsrImm FieldDaifSet crm
          else if op2 =? 7 then MsrImm FieldDaifClr crm
          else Undefined
      | _, _ => Undefined
      end
  | 1 => if l then Undefined else system_sys op1 crn crm op2 rt
  | _ => system_msr l op0 op1 crn crm op2 rt
  end.

Definition branch_sys (w : Z) : Insn :=
  let op0 := field w 31 29 in
  match Z.land op0 3 with
  | 0 => B (bit w 31) (Z.shiftl (sext (field w 25 0) 26) 2)
  | 1 =>
      let rt := r w 0 in
      let nonzero := bit w 24 in
      if negb (bit w 25) then
        Cbz (bit w 31) nonzero rt (Z.shiftl (sext (field w 23 5) 19) 2)
      else
        let b := Z.lor (Z.shiftl (field w 31 31) 5) (field w 23 19) in
        Tbz nonzero b rt (Z.shiftl (sext (field w 18 5) 14) 2)
  | _ =>
      match op0 with
      | 2 =>
          if bit w 25 || bit w 24 || bit w 4 then Undefined
          else BCond (field w 3 0) (Z.shiftl (sext (field w 23 5) 19) 2)
      | 6 =>
          if bit w 25 then branch_reg w
          else if negb (bit w 24) then exception w
          else if field w 23 22 =? 0 then system w
          else Undefined
      | _ => Undefined
      end
  end.

(** Integer load/store operation from [size] and [opc]. *)
Definition mem_op (size opc : Z) (prfm_ok : bool) : option MemOp :=
  match opc, size with
  | 0, _ => Some Store
  | 1, _ => Some (Load false (size =? 3))
  | 2, 3 => if prfm_ok then Some Prefetch else None
  | 2, _ => Some (Load true true)
  | 3, (0 | 1) => Some (Load true false)
  | _, _ => None
  end.

Definition exclusive (w : Z) : Insn :=
  let size := field w 31 30 in
  let load := bit w 22 in
  let o0 := bit w 15 in
  let rs := r w 16 in
  let rt2 := r w 10 in
  let rn := r w 5 in
  let rt := r w 0 in
  match bit w 23, bit w 21 with
  | false, false => Exclusive size load false rs rt rt2 rn
  | false, true => if size <? 2 then Undefined else Exclusive size load true rs rt rt2 rn
  | true, false =>
      if negb o0 then Undefined
      else if load then LoadAcquire size rt rn else StoreRelease size rt rn
  | true, true => Undefined
  end.

(** ** Load/store of SIMD/FP registers (simd/ldst.rs) *)

Definition vok (i : VecMemInsn) : Insn := Simd (SimdMem i).

(** The increment of a structure access: none, the size, or a register. *)
Definition structures_post (postidx : bool) (rm bytes : Z) : PostInc :=
  if negb postidx then PostNone else if rm =? 31 then PostImm bytes else PostReg rm.

Definition structures (w rt rn : Z) : Insn :=
  if bit w 31 then Undefined else
  let q := bit w 30 in
  let load := bit w 22 in
  let postidx := bit w 23 in
  let rm := field w 20 16 in
  if negb (bit w 24) then
    if bit w 21 || negb postidx && negb (rm =? 0) then Undefined else
    match (match field w 15 12 with
           | 0 => Some (1, 4) | 2 => Some (4, 1) | 4 => Some (1, 3) | 6 => Some (3, 1)
           | 7 => Some (1, 1) | 8 => Some (1, 2) | 10 => Some (2, 1) | _ => None end) with
    | None => Undefined
    | Some (rpt, selem) =>
        let size := field w 11 10 in
        if (size =? 3) && negb q && (1 <? selem) then Undefined else
        let bytes := (if q then 16 else 8) * rpt * selem in
        vok (VMulti load q rpt selem (Z.shiftl 8 size) rt rn (structures_post postidx rm bytes))
    end
  else
    if negb postidx && negb (rm =? 0) then Undefined else
    let rbit := field w 21 21 in
    let opcode := field w 15 13 in
    let s := field w 12 12 in
    let size := field w 11 10 in
    let selem := Z.lor (Z.shiftl (Z.land opcode 1) 1) rbit + 1 in
    let qb := b2z q in
    match (match Z.shiftr opcode 1 with
           | 0 => Some (0, Z.lor (Z.lor (Z.shiftl qb 3) (Z.shiftl s 2)) size, false)
           | 1 =>
               if negb (Z.land size 1 =? 0) then None
               else Some (1, Z.lor (Z.lor (Z.shiftl qb 2) (Z.shiftl s 1)) (Z.shiftr size 1),
                          false)
           | 2 =>
               match size, s with
               | 0, _ => Some (2, Z.lor (Z.shiftl qb 1) s, false)
               | 1, 0 => Some (3, qb, false)
               | _, _ => None
               end
           | _ => if negb load || negb (s =? 0) then None else Some (size, 0, true)
           end) with
    | None => Undefined
    | Some (scale, index, repl) =>
        let bytes := Z.shiftl selem scale in
        vok (VSingle load q selem scale index repl rt rn (structures_post postidx rm bytes))
    end.

Definition simd_decode_ldst (w : Z) : Insn :=
  let rt := field w 4 0 in
  let rn := field w 9 5 in
  if (field w 29 24 =? 12) || (field w 29 24 =? 13) then structures w rt rn else
  match field w 29 27 with
  | 3 =>
      if bit w 24 then Undefined else
      match (match field w 31 30 with
             | 0 => Some 2 | 1 => Some 3 | 2 => Some 4 | _ => None end) with
      | None => Undefined
      | Some scale => vok (VLiteral scale (Z.shiftl (sext (field w 23 5) 19) 2) rt)
      end
  | 5 =>
      match (match field w 31 30 with
             | 0 => Some 2 | 1 => Some 3 | 2 => Some 4 | _ => None end) with
      | None => Undefined
      | Some scale =>
          let index := match field w 24 23 with 0 | 2 => Offset | 1 => Post | _ => Pre end in
          let offset := Z.shiftl (sext (field w 21 15) 7) scale in
          vok (VPair scale (bit w 22) index offset rt (field w 14 10) rn)
      end
  | 7 =>
      let scale := Z.lor (Z.shiftl (field w 23 23) 2) (field w 31 30) in
      if 4 <? scale then Undefined else
      let load := bit w 22 in
      if bit w 24 then
        vok (VReg scale load (AddrImm (Z.shiftl (field w 21 10) scale) Offset) rt rn)
      else if bit w 21 then
        let extend := field w 15 13 in
        if negb (field w 11 10 =? 2) || (Z.land extend 2 =? 0) then Undefined else
        let shift := if bit w 12 then scale else 0 in
        vok (VReg scale load (AddrReg (field w 20 16) extend shift) rt rn)
      else
        match (match field w 11 10 with
               | 0 => Some Offset | 1 => Some Post | 3 => Some Pre | _ => None end) with
        | None => Undefined
        | Some index => vok (VReg scale load (AddrImm (sext (field w 20 12) 9) index) rt rn)
        end
  | _ => Undefined
  end.

(** The "Data Processing -- Scalar FP and Advanced SIMD" class. *)
Definition simd_decode_dp (w : Z) : Insn :=
  let bit := fun n => negb (Z.land (Z.shiftr w n) 1 =? 0) in
  if bit 28 && negb (bit 30) then fpinsn_decode w else int_decode w.

Definition ldst (w : Z) : Insn :=
  if bit w 26 then simd_decode_ldst w else
  let rt := r w 0 in
  let rn := r w 5 in
  match field w 29 27 with
  | 1 => if negb (field w 25 24 =? 0) then Undefined else exclusive w
  | 3 =>
      if bit w 24 then Undefined else
      let offset := Z.shiftl (sext (field w 23 5) 19) 2 in
      let '(size, op) :=
        match field w 31 30 with
        | 0 => (2, Load false false)
        | 1 => (3, Load false true)
        | 2 => (2, Load true true)
        | _ => (3, Prefetch)
        end in
      LdLiteral size op offset rt
  | 5 =>
      let load := bit w 22 in
      let index := match field w 24 23 with 0 | 2 => Offset | 1 => Post | _ => Pre end in
      let noalloc := field w 24 23 =? 0 in
      match (match field w 31 30 with
             | 0 => Some (2, false)
             | 2 => Some (3, false)
             | 1 => if load && negb noalloc then Some (2, true) else None
             | _ => None
             end) with
      | None => Undefined
      | Some (size, signed) =>
          let offset := Z.shiftl (sext (field w 21 15) 7) size in
          LdStPair size load signed index offset rt (r w 10) rn
      end
  | _ =>
      let size := field w 31 30 in
      let opc := field w 23 22 in
      if bit w 24 then
        match mem_op size opc true with
        | None => Undefined
        | Some op => LdSt size op (AddrImm (Z.shiftl (field w 21 10) size) Offset) rt rn false
        end
      else if bit w 21 then
        if negb (field w 11 10 =? 2) then Undefined else
        let extend := field w 15 13 in
        if Z.land extend 2 =? 0 then Undefined else
        match mem_op size opc true with
        | None => Undefined
        | Some op =>
            let shift := if bit w 12 then size else 0 in
            LdSt size op (AddrReg (r w 16) extend shift) rt rn false
        end
      else
        let offset := sext (field w 20 12) 9 in
        let '(index, prfm_ok) :=
          match field w 11 10 with
          | 0 => (Offset, true)
          | 1 => (Post, false)
          | 2 => (Offset, false)
          | _ => (Pre, false)
          end in
        match mem_op size opc prfm_ok with
        | None => Undefined
        | Some op =>
            let unpriv := field w 11 10 =? 2 in
            LdSt size op (AddrImm offset index) rt rn unpriv
        end
  end.

(** The data-processing (1 source) row of [dp_reg]. *)
Definition dp1_op (opcode : Z) (sf : bool) : option Dp1Op :=
  match opcode, sf with
  | 0, _ => Some Rbit
  | 1, _ => Some Rev16
  | 2, _ => Some Rev32
  | 3, true => Some Rev64
  | 4, _ => Some Clz
  | 5, _ => Some Cls
  | _, _ => None
  end.

(** The data-processing (2 source) row of [dp_reg]. *)
Definition dp2_op (opcode : Z) (sf : bool) : option Dp2Op :=
  match opcode with
  | 2 => Some Udiv
  | 3 => Some Sdiv
  | 8 => Some Lslv
  | 9 => Some Lsrv
  | 10 => Some Asrv
  | 11 => Some Rorv
  | 16 | 17 | 18 | 19 | 20 | 21 | 22 | 23 =>
      let sz := Z.land opcode 3 in
      if negb (Bool.eqb (sz =? 3) sf) then None
      else Some (Crc32 (Z.shiftl 1 sz) (negb (Z.land opcode 4 =? 0)))
  | _ => None
  end.

(** The data-processing (3 source) row of [dp_reg]. *)
Definition dp3_op (op31 : Z) (o0 : bool) : option Dp3Op :=
  match op31, o0 with
  | 0, false => Some Madd
  | 0, true => Some Msub
  | 1, false => Some Smaddl
  | 1, true => Some Smsubl
  | 2, false => Some Smulh
  | 5, false => Some Umaddl
  | 5, true => Some Umsubl
  | 6, false => Some Umulh
  | _, _ => None
  end.

Definition dp_reg (w : Z) : Insn :=
  let sf := bit w 31 in
  let rm := r w 16 in
  let rn := r w 5 in
  let rd := r w 0 in
  let op2 := field w 24 21 in
  if negb (bit w 28) then
    let imm6 := field w 15 10 in
    let shift_ty := field w 23 22 in
    if negb (bit w 24) then
      if negb sf && (32 <=? imm6) then Undefined
      else LogicalReg sf (logic_op (field w 30 29)) (bit w 21) (shift_op shift_ty) imm6 rm rn rd
    else
    let sub := bit w 30 in
    let setflags := bit w 29 in
    if negb (bit w 21) then
      if (shift_ty =? 3) || negb sf && (32 <=? imm6) then Undefined
      else AddSubReg sf sub setflags (shift_op shift_ty) imm6 rm rn rd
    else
    let imm3 := field w 12 10 in
    if negb (shift_ty =? 0) || (4 <? imm3) then Undefined
    else AddSubExt sf sub setflags (field w 15 13) imm3 rm rn rd
  else
  match op2 with
  | 0 =>
      if negb (field w 15 10 =? 0) then Undefined
      else AddSubCarry sf (bit w 30) (bit w 29) rm rn rd
  | 2 =>
      if negb (bit w 29) || bit w 10 || bit w 4 then Undefined else
      let operand := if bit w 11 then CcmpImm rm else CcmpReg rm in
      CondCmp sf (bit w 30) operand (field w 15 12) (field w 3 0) rn
  | 4 =>
      if bit w 29 || bit w 11 then Undefined else
      let op := match bit w 30, bit w 10 with
                | false, false => Csel
                | false, true => Csinc
                | true, false => Csinv
                | true, true => Csneg
                end in
      CondSel sf op (field w 15 12) rm rn rd
  | 6 =>
      if bit w 29 then Undefined else
      let opcode := field w 15 10 in
      if bit w 30 then
        if negb (field w 20 16 =? 0) then Undefined else
        match dp1_op opcode sf with
        | None => Undefined
        | Some op => Dp1 sf op rn rd
        end
      else
        match dp2_op opcode sf with
        | None => Undefined
        | Some op => Dp2 sf op rm rn rd
        end
  | 8 | 9 | 10 | 11 | 12 | 13 | 14 | 15 =>
      if negb (field w 30 29 =? 0) then Undefined else
      match dp3_op (field w 23 21) (bit w 15) with
      | None => Undefined
      | Some op =>
          if negb sf && negb (match op with Madd | Msub => true | _ => false end) then Undefined
          else Dp3 sf op (r w 10) rm rn rd
      end
  | _ => Undefined
  end.

Definition decode (w : Z) : Insn :=
  match field w 28 25 with
  | 8 | 9 => dp_imm w
  | 10 | 11 => branch_sys w
  | 4 | 6 | 12 | 14 => ldst w
  | 5 | 13 => dp_reg w
  | 7 | 15 => simd_decode_dp w
  | _ => Undefined
  end.
End decode.

(** ** Well-formed instructions *)

Definition reg5 (n : Z) : Prop := 0 <= n < 32.
Definition datasize (sf : bool) : Z := if sf then 64 else 32.
Definition aligned4 (offset : Z) : Prop := offset mod 4 = 0.

Definition addr_wf (size : Z) (a : AddrMode) : Prop :=
  match a with
  | AddrImm offset _ => - 2 ^ 16 <= offset < 2 ^ 16
  | AddrReg rm extend shift =>
      reg5 rm /\ (extend = 2 \/ extend = 3 \/ extend = 6 \/ extend = 7) /\
      (shift = 0 \/ shift = size)
  end.

Definition post_wf (p : PostInc) : Prop :=
  match p with PostNone => True | PostImm n => 0 < n <= 64 | PostReg rm => 0 <= rm < 31 end.

Definition vecmem_wf (i : VecMemInsn) : Prop :=
  match i with
  | VReg scale _ addr rt rn => 0 <= scale <= 4 /\ addr_wf scale addr /\ reg5 rt /\ reg5 rn
  | VLiteral scale offset rt =>
      2 <= scale <= 4 /\ aligned4 offset /\ - 2 ^ 20 <= offset < 2 ^ 20 /\ reg5 rt
  | VPair scale _ _ offset rt rt2 rn =>
      2 <= scale <= 4 /\ - 2 ^ 10 <= offset < 2 ^ 10 /\ reg5 rt /\ reg5 rt2 /\ reg5 rn
  | VMulti _ _ rpt selem esize rt rn post =>
      1 <= rpt <= 4 /\ 1 <= selem <= 4 /\ (esize = 8 \/ esize = 16 \/ esize = 32 \/ esize = 64) /\
      reg5 rt /\ reg5 rn /\ post_wf post
  | VSingle _ _ selem scale index _ rt rn post =>
      1 <= selem <= 4 /\ 0 <= scale <= 3 /\ 0 <= index /\ (index + 1) * 2 ^ scale <= 16 /\
      reg5 rt /\ reg5 rn /\ post_wf post
  end.

Definition insn_wf {ST : SimdTypes} (i : Insn) : Prop :=
  match i with
  | AddSubImm _ _ _ imm rn rd => is_u 24 imm /\ reg5 rn /\ reg5 rd
  | LogicalImm sf _ imm rn rd => is_u (datasize sf) imm /\ reg5 rn /\ reg5 rd
  | MoveWide sf _ shift imm16 rd =>
      0 <= shift <= datasize sf - 16 /\ is_u 16 imm16 /\ reg5 rd
  | Adr _ imm rd => - 2 ^ 32 <= imm < 2 ^ 32 /\ reg5 rd
  | Bitfield sf _ r s wmask tmask rn rd =>
      0 <= r < datasize sf /\ 0 <= s < datasize sf /\ is_u (datasize sf) wmask /\
      is_u (datasize sf) tmask /\ reg5 rn /\ reg5 rd
  | Extract sf lsb rm rn rd => 0 <= lsb < datasize sf /\ reg5 rm /\ reg5 rn /\ reg5 rd
  | LogicalReg sf _ _ _ amount rm rn rd =>
      0 <= amount < datasize sf /\ reg5 rm /\ reg5 rn /\ reg5 rd
  | AddSubReg sf _ _ shift amount rm rn rd =>
      shift <> Ror /\ 0 <= amount < datasize sf /\ reg5 rm /\ reg5 rn /\ reg5 rd
  | AddSubExt _ _ _ extend amount rm rn rd =>
      0 <= extend < 8 /\ 0 <= amount <= 4 /\ reg5 rm /\ reg5 rn /\ reg5 rd
  | AddSubCarry _ _ _ rm rn rd => reg5 rm /\ reg5 rn /\ reg5 rd
  | CondCmp _ _ operand cond nzcv rn =>
      match operand with CcmpReg rm => reg5 rm | CcmpImm i => 0 <= i < 32 end /\
      0 <= cond < 16 /\ 0 <= nzcv < 16 /\ reg5 rn
  | CondSel _ _ cond rm rn rd => 0 <= cond < 16 /\ reg5 rm /\ reg5 rn /\ reg5 rd
  | Dp1 sf op rn rd => (op = Rev64 -> sf = true) /\ reg5 rn /\ reg5 rd
  | Dp2 sf op rm rn rd =>
      match op with
      | Crc32 bytes _ => (bytes = 1 \/ bytes = 2 \/ bytes = 4 \/ bytes = 8) /\
                         (bytes = 8 <-> sf = true)
      | _ => True
      end /\ reg5 rm /\ reg5 rn /\ reg5 rd
  | Dp3 sf op ra rm rn rd =>
      (sf = true \/ op = Madd \/ op = Msub) /\ reg5 ra /\ reg5 rm /\ reg5 rn /\ reg5 rd
  | B _ offset => aligned4 offset /\ - 2 ^ 27 <= offset < 2 ^ 27
  | BCond cond offset => 0 <= cond < 16 /\ aligned4 offset /\ - 2 ^ 20 <= offset < 2 ^ 20
  | Cbz _ _ rt offset => reg5 rt /\ aligned4 offset /\ - 2 ^ 20 <= offset < 2 ^ 20
  | Tbz _ b rt offset => 0 <= b < 64 /\ reg5 rt /\ aligned4 offset /\ - 2 ^ 15 <= offset < 2 ^ 15
  | BranchReg _ rn => reg5 rn
  | Svc imm | Hvc imm | Smc imm | Brk imm => is_u 16 imm
  | MsrImm _ imm => 0 <= imm < 16
  | Sys _ rt | DcZva rt => reg5 rt
  | Mrs reg rt => reg_ok reg = true /\ reg5 rt
  | Msr reg rt => reg_ok reg = true /\ reg <> DczidEl0 /\ reg <> CtrEl0 /\ reg5 rt
  | LdSt size op addr rt rn unpriv =>
      0 <= size <= 3 /\ addr_wf size addr /\ reg5 rt /\ reg5 rn /\
      (op = Prefetch -> unpriv = false)
  | LdLiteral size op offset rt =>
      2 <= size <= 3 /\ aligned4 offset /\ - 2 ^ 20 <= offset < 2 ^ 20 /\ reg5 rt /\ op <> Store
  | LdStPair size load signed _ offset rt rt2 rn =>
      2 <= size <= 3 /\ - 2 ^ 9 <= offset < 2 ^ 9 /\ reg5 rt /\ reg5 rt2 /\ reg5 rn /\
      (signed = true -> load = true /\ size = 2)
  | Exclusive size _ paired rs rt rt2 rn =>
      0 <= size <= 3 /\ (paired = true -> 2 <= size) /\ reg5 rs /\ reg5 rt /\ reg5 rt2 /\ reg5 rn
  | LoadAcquire size rt rn | StoreRelease size rt rn => 0 <= size <= 3 /\ reg5 rt /\ reg5 rn
  | Simd (SimdMem m) => vecmem_wf m
  | Eret | Wfi | Wfe | Yield | Nop | Barrier | Clrex | CacheMaint
  | Simd _ | Undefined | Unimplemented _ => True
  end.

(** What the decoders of simd/int.rs and simd/fpinsn.rs may return. *)
Definition simd_dp_result {ST : SimdTypes} (i : Insn) : bool :=
  match i with
  | Simd (SimdMem _) => false
  | Simd _ | Undefined | Unimplemented _ => true
  | _ => false
  end.
