(* ===== verification/DecodeWf.v ===== *)
(** * Decoded instructions are well formed (theorem about [decode])

    Every word decodes to an instruction satisfying [insn_wf]: register
    numbers below 32, sizes, shift amounts and element indices in the ranges
    the interpreter relies on.  One lemma per decoder function, composed as
    [decode] composes the functions. *)

From Stdlib Require Import ZArith Lia Bool.
From stdpp Require Import base list numbers strings.
From S2P Require Import Prelude Bits SysReg Decode.
Local Open Scope Z_scope.

Section decode_wf.
Context {ST : SimdTypes} {SD : SimdDecode}.

(** Case analysis on the decoder's matches and tests. *)
Ltac decode_cases :=
  repeat match goal with
  | |- insn_wf (match ?x with _ => _ end) => destruct x eqn:?
  | |- insn_wf (if ?x then _ else _) => destruct x eqn:?
  end;
  lazymatch goal with |- insn_wf Undefined => exact I | _ => idtac end.

(** Bounds of the fields and booleans in the context and the goal. *)
Lemma field_lt w hi lo b :
  0 <= lo <= hi -> hi < 32 -> 2 ^ (hi - lo + 1) = b -> 0 <= field w hi lo < b.
Proof. intros. subst b. by apply field_bound. Qed.

Lemma reg5_r w lo : 0 <= lo -> lo + 4 < 32 -> reg5 (r w lo).
Proof. intros. apply field_lt; try lia. by replace (lo + 4 - lo + 1) with 5 by lia. Qed.

Ltac fields :=
  repeat match goal with
  | |- context [field ?w ?hi ?lo] =>
      lazymatch goal with
      | _ : 0 <= field w hi lo < _ |- _ => fail
      | _ => let b := eval vm_compute in (2 ^ (hi - lo + 1)) in
             pose proof (field_lt w hi lo b ltac:(lia) ltac:(lia) eq_refl)
      end
  end.
Ltac bools :=
  repeat match goal with
  | H : _ || _ = false |- _ => apply orb_false_iff in H as [??]
  | H : negb _ = false |- _ => apply negb_false_iff in H
  | H : negb _ = true |- _ => apply negb_true_iff in H
  | H : ?x = true |- context [?x] => rewrite H
  | H : ?x = false |- context [?x] => rewrite H
  end.
Ltac split_conj :=
  repeat match goal with
  | |- _ <= _ /\ _ < _ => fail 1
  | |- _ <= _ /\ _ <= _ => fail 1
  | |- _ /\ _ => split
  end.
Ltac ranges :=
  cbn [insn_wf vok vecmem_wf]; try subst; bools; split_conj; fields;
  try (by apply reg5_r); try (by apply field_lt); try lia; try done.

Lemma sext_lt v w b :
  1 <= w <= 64 -> 2 ^ (w - 1) = b -> - b <= sext v w < b.
Proof. intros. subst b. rewrite sext_spec by done. apply signed_bound. lia. Qed.

Lemma aligned4_shl2 v w : aligned4 (Z.shiftl (sext v w) 2).
Proof. unfold aligned4. rewrite Z.shiftl_mul_pow2 by lia. by rewrite Z.mod_mul. Qed.

Lemma shl_sext_lt v w k b :
  1 <= w <= 64 -> 0 <= k -> 2 ^ (w - 1 + k) = b -> - b <= Z.shiftl (sext v w) k < b.
Proof.
  intros Hw Hk <-. rewrite Z.shiftl_mul_pow2, Z.pow_add_r by lia.
  pose proof (sext_lt v w _ Hw eq_refl). nia.
Qed.

Lemma sf_amount sf w hi lo :
  negb sf && (32 <=? field w hi lo) = false -> 0 <= lo <= hi -> hi < 32 ->
  2 ^ (hi - lo + 1) = 64 -> 0 <= field w hi lo < datasize sf.
Proof.
  intros H1 H2 H3 H4. pose proof (field_lt w hi lo 64 H2 H3 H4).
  destruct sf; cbn [negb andb orb datasize] in *; [lia|]. apply Z.leb_gt in H1. lia.
Qed.

Lemma shift_op_ror i : shift_op i = Ror -> (i =? 3) = false -> 0 <= i < 4 -> False.
Proof.
  intros H1 H2 H3. apply Z.eqb_neq in H2.
  assert (i = 0 \/ i = 1 \/ i = 2) as [->|[->| ->]] by lia; done.
Qed.

Lemma dp2_op_wf opcode sf op :
  0 <= opcode < 64 -> dp2_op opcode sf = Some op ->
  match op with
  | Crc32 bytes _ => (bytes = 1 \/ bytes = 2 \/ bytes = 4 \/ bytes = 8) /\
                     (bytes = 8 <-> sf = true)
  | _ => True
  end.
Proof.
  intros Hr Hop.
  assert (forall_below 64 (fun o => forallb (fun sf =>
    match dp2_op o sf with
    | Some (Crc32 b _) => ((b =? 1) || (b =? 2) || (b =? 4) || (b =? 8)) && Bool.eqb (b =? 8) sf
    | _ => true end) [true; false]) = true) as Hall by (vm_compute; reflexivity).
  pose proof (forall_below_spec _ _ Hall opcode Hr) as Hc. cbv beta in Hc.
  rewrite forallb_forall in Hc. specialize (Hc sf ltac:(destruct sf; simpl; auto)).
  rewrite Hop in Hc. destruct op; try done.
  apply andb_true_iff in Hc as [Hb He]. apply eqb_prop in He. subst sf.
  split; [lia|]. by rewrite Z.eqb_eq.
Qed.

Lemma dp1_op_wf opcode sf op : dp1_op opcode sf = Some op -> op = Rev64 -> sf = true.
Proof.
  intros H1 ->. destruct sf; [done|]. unfold dp1_op in H1. by repeat case_match.
Qed.

Lemma dp3_sf_wf sf op :
  negb sf && negb (match op with Madd | Msub => true | _ => false end) = false ->
  sf = true \/ op = Madd \/ op = Msub.
Proof. destruct sf, op; auto; done. Qed.

Lemma ccmp_wf w :
  match (if bit w 11 then CcmpImm (r w 16) else CcmpReg (r w 16)) with
  | CcmpReg rm => reg5 rm
  | CcmpImm i => 0 <= i < 32
  end.
Proof. destruct (bit w 11); by apply reg5_r. Qed.

Lemma dp_reg_wf w : insn_wf (dp_reg w).
Proof.
  unfold dp_reg. decode_cases.
  all: ranges.
  all: first [by apply sf_amount | by eapply dp3_sf_wf | by eapply dp1_op_wf
    | eapply dp2_op_wf; [|eassumption]; by apply field_lt | apply ccmp_wf
    | intros ?; eapply shift_op_ror; (eassumption || lia) ].
Qed.

Lemma bit_masks_wf (sf : bool) n imms immr immediate wmask tmask :
  0 <= n < 2 -> 0 <= imms < 64 ->
  decode_bit_masks n imms immr immediate (if sf then 64 else 32) = Some (wmask, tmask) ->
  is_u (datasize sf) wmask /\ is_u (datasize sf) tmask.
Proof.
  intros Hn Hi H1. apply decode_bit_masks_bits in H1; [|destruct sf; lia..].
  split; apply H1.
Qed.

Lemma adr_wf (page : bool) v :
  - 2 ^ 32 <= (if page then Z.shiftl (sext v 21) 12 else sext v 21) < 2 ^ 32.
Proof.
  destruct page; [by apply shl_sext_lt|].
  pose proof (sext_lt v 21 _ ltac:(lia) eq_refl). lia.
Qed.

Lemma imm12_wf (sh : bool) w :
  is_u 24 (if sh then Z.shiftl (field w 21 10) 12 else field w 21 10).
Proof.
  pose proof (field_bound w 21 10 ltac:(lia) ltac:(lia)).
  destruct sh; [by apply (is_u_shiftl 12)|]. by eapply is_u_weaken.
Qed.

Lemma hw_wf sf w :
  negb sf && (2 <=? field w 22 21) = false -> 0 <= field w 22 21 * 16 <= datasize sf - 16.
Proof.
  intros H1. pose proof (field_lt w 22 21 4 ltac:(lia) ltac:(lia) eq_refl).
  destruct sf; cbn [negb andb orb datasize] in *; [lia|]. apply Z.leb_gt in H1. lia.
Qed.

Lemma bfm_amount sf w :
  negb sf && (negb (field w 22 22 =? 0) || (32 <=? field w 21 16) || (32 <=? field w 15 10))
    = false ->
  0 <= field w 21 16 < datasize sf /\ 0 <= field w 15 10 < datasize sf.
Proof.
  intros H1. pose proof (field_lt w 21 16 64 ltac:(lia) ltac:(lia) eq_refl).
  pose proof (field_lt w 15 10 64 ltac:(lia) ltac:(lia) eq_refl).
  destruct sf; cbn [negb andb orb datasize] in *; [lia|].
  apply orb_false_iff in H1 as [H1 H3]. apply orb_false_iff in H1 as [_ H2].
  apply Z.leb_gt in H2, H3. lia.
Qed.

Lemma dp_imm_wf w : insn_wf (dp_imm w).
Proof.
  unfold dp_imm. decode_cases.
  all: ranges.
  all: lazymatch goal with
    | |- - 2 ^ 32 <= _ < _ => apply adr_wf
    | |- is_u 24 _ => apply imm12_wf
    | |- is_u 16 _ => by apply field_bound
    | |- 0 <= _ * 16 <= _ => by apply hw_wf
    | H : decode_bit_masks _ _ _ _ _ = _ |- is_u (datasize _) _ =>
        apply bit_masks_wf in H as [??]; [done|by apply field_lt..]
    | |- 0 <= field _ _ _ < datasize _ => 
        first [by apply sf_amount | match goal with
          H : _ && (_ || _) = false |- _ => apply (bfm_amount _ _ H) end]
    end.
Qed.

Lemma branch_reg_wf w : insn_wf (branch_reg w).
Proof. unfold branch_reg. decode_cases. all: ranges. Qed.

Lemma exception_wf w : insn_wf (exception w).
Proof. unfold exception. decode_cases. all: cbn [insn_wf]; by apply field_bound. Qed.

Lemma system_sys_wf op1 crn crm op2 rt : reg5 rt -> insn_wf (system_sys op1 crn crm op2 rt).
Proof. intros. unfold system_sys. decode_cases. all: done. Qed.

Lemma system_msr_wf w :
  insn_wf (system_msr (bit w 21) (field w 20 19) (field w 18 16) (field w 15 12)
    (field w 11 8) (field w 7 5) (r w 0)).
Proof.
  unfold system_msr. destruct (sysreg_lookup _ _ _ _ _) as [reg|] eqn:E; cycle 1.
  { by destruct (is_unmodelled_a53 _ _ _ _ _). }
  apply sysreg_lookup_ok in E; [|by apply field_lt..].
  destruct (bit w 21); [by split; [|apply reg5_r]|].
  destruct (bool_decide _ || bool_decide _) eqn:Eb; [done|].
  apply orb_false_iff in Eb as [?%bool_decide_eq_false ?%bool_decide_eq_false].
  repeat split; try done; by apply (reg5_r w 0).
Qed.

Lemma system_wf w : insn_wf (system w).
Proof.
  unfold system. destruct (field w 20 19) as [|[p|p|]|p] eqn:E;
    rewrite <- ?E;
    lazymatch goal with |- insn_wf (system_msr _ _ _ _ _ _ _) => apply system_msr_wf | _ => idtac end.
  - decode_cases. all: cbn [insn_wf]; try exact I; by apply field_lt.
  - destruct (bit w 21); [done|]. by apply system_sys_wf, reg5_r.
Qed.

Lemma tbz_bit a b : 0 <= a < 2 -> 0 <= b < 32 -> 0 <= Z.lor (Z.shiftl a 5) b < 64.
Proof. intros. rewrite lor_shiftl_add; unfold is_u; lia. Qed.

Lemma branch_sys_wf w : insn_wf (branch_sys w).
Proof.
  unfold branch_sys. decode_cases.
  all: lazymatch goal with
    | |- insn_wf (branch_reg _) => apply branch_reg_wf
    | |- insn_wf (exception _) => apply exception_wf
    | |- insn_wf (system _) => apply system_wf
    | _ => ranges
    end.
  all: lazymatch goal with
    | |- aligned4 _ => apply aligned4_shl2
    | |- - _ <= Z.shiftl _ _ < _ => by apply shl_sext_lt
    | _ => idtac
    end.
  all: pose proof (field_lt w 31 31 2 ltac:(lia) ltac:(lia) eq_refl);
    pose proof (field_lt w 23 19 32 ltac:(lia) ltac:(lia) eq_refl);
    by apply tbz_bit.
Qed.

Lemma exclusive_wf w : insn_wf (exclusive w).
Proof.
  unfold exclusive. decode_cases. all: ranges.
Qed.

(** *** Structure loads and stores *)

Lemma structures_post_wf postidx w bytes :
  0 < bytes <= 64 -> post_wf (structures_post postidx (field w 20 16) bytes).
Proof.
  intros. pose proof (field_lt w 20 16 32 ltac:(lia) ltac:(lia) eq_refl).
  unfold structures_post. destruct postidx; cbn [negb]; [|done].
  destruct (field w 20 16 =? 31) eqn:E; [done|]. apply Z.eqb_neq in E.
  cbn [post_wf]. lia.
Qed.

(** The (rpt, selem) pairs of LD1-LD4 (multiple structures) and the
    (scale, index, repl) triples of the single-structure forms: finite tables. *)
Lemma multi_layout opcode rpt selem :
  match opcode with
  | 0 => Some (1, 4) | 2 => Some (4, 1) | 4 => Some (1, 3) | 6 => Some (3, 1)
  | 7 => Some (1, 1) | 8 => Some (1, 2) | 10 => Some (2, 1) | _ => None
  end = Some (rpt, selem) ->
  1 <= rpt <= 4 /\ 1 <= selem <= 4 /\ rpt * selem <= 4.
Proof. intros H. repeat case_match; simplify_eq; lia. Qed.

Lemma esize_wf size :
  0 <= size < 4 ->
  Z.shiftl 8 size = 8 \/ Z.shiftl 8 size = 16 \/ Z.shiftl 8 size = 32 \/ Z.shiftl 8 size = 64.
Proof.
  intros. assert (size = 0 \/ size = 1 \/ size = 2 \/ size = 3) as [->|[->|[->| ->]]] by lia;
    vm_compute; tauto.
Qed.

Lemma single_layout (opcode s size scale index : Z) (load q repl : bool) :
  0 <= opcode < 8 -> 0 <= s < 2 -> 0 <= size < 4 ->
  match Z.shiftr opcode 1 with
  | 0 => Some (0, Z.lor (Z.lor (Z.shiftl (b2z q) 3) (Z.shiftl s 2)) size, false)
  | 1 =>
      if negb (Z.land size 1 =? 0) then None
      else Some (1, Z.lor (Z.lor (Z.shiftl (b2z q) 2) (Z.shiftl s 1)) (Z.shiftr size 1), false)
  | 2 =>
      match size, s with
      | 0, _ => Some (2, Z.lor (Z.shiftl (b2z q) 1) s, false)
      | 1, 0 => Some (3, b2z q, false)
      | _, _ => None
      end
  | _ => if negb load || negb (s =? 0) then None else Some (size, 0, true)
  end = Some (scale, index, repl) ->
  0 <= scale <= 3 /\ 0 <= index /\ (index + 1) * 2 ^ scale <= 16.
Proof.
  intros Ho Hs Hz H.
  assert (s = 0 \/ s = 1) as Hs' by lia.
  assert (size = 0 \/ size = 1 \/ size = 2 \/ size = 3) as Hz' by lia.
  assert (opcode = 0 \/ opcode = 1 \/ opcode = 2 \/ opcode = 3 \/ opcode = 4 \/ opcode = 5 \/
          opcode = 6 \/ opcode = 7) as Ho' by lia.
  clear Ho Hs Hz.
  destruct Hs' as [->| ->], Hz' as [->|[->|[->| ->]]],
    Ho' as [->|[->|[->|[->|[->|[->|[->| ->]]]]]]], q, load; vm_compute in H; simplify_eq;
    vm_compute; intuition congruence.
Qed.

Lemma selem_wf opcode rbit :
  0 <= rbit < 2 -> 1 <= Z.lor (Z.shiftl (Z.land opcode 1) 1) rbit + 1 <= 4.
Proof.
  intros. pose proof (Z.land_ones opcode 1 ltac:(lia)) as E. change (Z.ones 1) with 1 in E.
  rewrite E. pose proof (Z.mod_pos_bound opcode (2 ^ 1) ltac:(lia)).
  rewrite lor_shiftl_add; unfold is_u; lia.
Qed.

Lemma single_bytes selem scale :
  1 <= selem <= 4 -> 0 <= scale <= 3 -> 0 < Z.shiftl selem scale <= 64.
Proof.
  intros. assert (scale = 0 \/ scale = 1 \/ scale = 2 \/ scale = 3) as [->|[->|[->| ->]]] by lia;
    rewrite Z.shiftl_mul_pow2; lia.
Qed.

Lemma structures_wf w rt rn : reg5 rt -> reg5 rn -> insn_wf (structures w rt rn).
Proof.
  intros Hrt Hrn. unfold structures. destruct (bit w 31); [done|].
  destruct (negb (bit w 24)).
  - destruct (_ || _ && _); [done|].
    lazymatch goal with |- insn_wf (match ?x with Some _ => _ | None => _ end) =>
      destruct x as [[rpt selem]|] eqn:E; [|done] end.
    apply multi_layout in E as (?&?&?).
    destruct (_ && _ && _); [done|]. cbn [insn_wf vok vecmem_wf].
    split; [lia|]. split; [lia|]. split; [by apply esize_wf, field_lt|].
    split; [exact Hrt|]. split; [exact Hrn|].
    apply structures_post_wf. destruct (bit w 30); nia.
  - destruct (_ && _); [done|].
    lazymatch goal with |- insn_wf (match ?x with Some _ => _ | None => _ end) =>
      destruct x as [[[scale index] repl]|] eqn:E; [|done] end.
    apply single_layout in E as (?&?&?); [|by apply field_lt..].
    pose proof (selem_wf (field w 15 13) (field w 21 21)
      ltac:(by apply field_lt)) as Hselem.
    cbn [insn_wf vok vecmem_wf].
    split; [exact Hselem|]. do 3 (split; [lia|]). split; [exact Hrt|]. split; [exact Hrn|].
    by apply structures_post_wf, single_bytes.
Qed.

(** *** Loads and stores *)

Lemma extend_wf w :
  (Z.land (field w 15 13) 2 =? 0) = false ->
  field w 15 13 = 2 \/ field w 15 13 = 3 \/ field w 15 13 = 6 \/ field w 15 13 = 7.
Proof.
  pose proof (field_lt w 15 13 8 ltac:(lia) ltac:(lia) eq_refl) as Hf.
  generalize dependent (field w 15 13). intros e He Hb.
  assert (forall_below 8 (fun e => (Z.land e 2 =? 0) || (e =? 2) || (e =? 3) || (e =? 6) || (e =? 7))
    = true) as Hall by (vm_compute; reflexivity).
  pose proof (forall_below_spec _ _ Hall e He) as Hc. cbv beta in Hc. rewrite Hb in Hc. lia.
Qed.

Lemma addr_imm_wf w scale index :
  0 <= scale <= 4 -> addr_wf scale (AddrImm (Z.shiftl (field w 21 10) scale) index).
Proof.
  intros. pose proof (field_lt w 21 10 (2 ^ 12) ltac:(lia) ltac:(lia) eq_refl).
  cbn [addr_wf]. rewrite Z.shiftl_mul_pow2 by lia.
  assert (0 < 2 ^ scale <= 2 ^ 4) by (split; [lia|apply Z.pow_le_mono_r; lia]). nia.
Qed.

Lemma addr_imm9_wf w scale index : addr_wf scale (AddrImm (sext (field w 20 12) 9) index).
Proof.
  cbn [addr_wf]. pose proof (sext_lt (field w 20 12) 9 256 ltac:(lia) eq_refl). lia.
Qed.

Lemma addr_reg_wf w scale (s : bool) :
  (Z.land (field w 15 13) 2 =? 0) = false ->
  addr_wf scale (AddrReg (field w 20 16) (field w 15 13) (if s then scale else 0)).
Proof.
  intros. cbn [addr_wf]. split; [by apply field_lt|].
  split; [by apply extend_wf|]. destruct s; auto.
Qed.

Lemma mem_op_prefetch size opc ok : mem_op size opc ok = Some Prefetch -> ok = true.
Proof. unfold mem_op. intros. by repeat case_match. Qed.

Lemma field_31_30 w : 0 <= field w 31 30 <= 3.
Proof. pose proof (field_lt w 31 30 4 ltac:(lia) ltac:(lia) eq_refl). lia. Qed.

(** A match that yields a size, as an option. *)
Lemma vsize_wf w scale :
  match field w 31 30 with 0 => Some 2 | 1 => Some 3 | 2 => Some 4 | _ => None end = Some scale ->
  2 <= scale <= 4.
Proof. intros. repeat case_match; simplify_eq; lia. Qed.

Lemma pair_off_wf w scale b :
  2 <= scale <= 4 -> 2 ^ (6 + scale) <= b -> - b <= Z.shiftl (sext (field w 21 15) 7) scale < b.
Proof.
  intros. pose proof (shl_sext_lt (field w 21 15) 7 scale _ ltac:(lia) ltac:(lia) eq_refl).
  replace (7 - 1) with 6 in * by lia. lia.
Qed.

(** The side conditions of a decoded load or store, by the shape of the goal. *)
Ltac ldst_goal :=
  lazymatch goal with
  | |- reg5 (r _ _) => by apply reg5_r
  | |- reg5 (field _ _ _) => by apply field_lt
  | |- aligned4 _ => apply aligned4_shl2
  | |- addr_wf _ (AddrImm (Z.shiftl _ _) _) => apply addr_imm_wf
  | |- addr_wf _ (AddrImm _ _) => apply addr_imm9_wf
  | |- addr_wf _ (AddrReg _ _ _) => by apply addr_reg_wf
  | |- - _ <= Z.shiftl (sext (field _ 23 5) _) _ < _ => by apply shl_sext_lt
  | |- _ => idtac
  end.

Lemma vscale_wf w :
  (4 <? Z.lor (Z.shiftl (field w 23 23) 2) (field w 31 30)) = false ->
  0 <= Z.lor (Z.shiftl (field w 23 23) 2) (field w 31 30) <= 4.
Proof.
  intros H%Z.ltb_ge. split; [|done].
  pose proof (field_lt w 23 23 2 ltac:(lia) ltac:(lia) eq_refl).
  pose proof (field_31_30 w). apply Z.lor_nonneg. split; [apply Z.shiftl_nonneg|]; lia.
Qed.

Lemma simd_ldst_wf w : insn_wf (simd_decode_ldst w).
Proof.
  unfold simd_decode_ldst.
  destruct ((field w 29 24 =? 12) || _); [by apply structures_wf; apply field_lt|].
  decode_cases.
  all: cbn [insn_wf vok vecmem_wf].
  all: repeat match goal with H : _ || _ = false |- _ => apply orb_false_iff in H as [??] end.
  all: split_conj; ldst_goal.
  all: lazymatch goal with
    | |- 0 <= Z.lor _ _ <= 4 => by apply vscale_wf
    | H : _ = Some ?z |- 2 <= ?z <= 4 => by apply vsize_wf in H
    | H : _ = Some ?z |- - _ <= Z.shiftl _ ?z < _ =>
        apply vsize_wf in H; apply pair_off_wf; [done|];
        apply Z.pow_le_mono_r; lia
    end.
Qed.

Lemma literal_wf opc size op :
  match opc with
  | 0 => (2, Load false false) | 1 => (3, Load false true)
  | 2 => (2, Load true true) | _ => (3, Prefetch)
  end = (size, op) -> 2 <= size <= 3 /\ op <> Store.
Proof. intros H. repeat case_match; simplify_eq; (split; [lia|done]). Qed.

Lemma pair_layout w (load noalloc : bool) size (signed : bool) :
  match field w 31 30 with
  | 0 => Some (2, false)
  | 2 => Some (3, false)
  | 1 => if load && negb noalloc then Some (2, true) else None
  | _ => None
  end = Some (size, signed) ->
  2 <= size <= 3 /\ (signed = true -> load = true /\ size = 2).
Proof.
  intros H. repeat case_match; simplify_eq; (split; [lia|]); try done.
  destruct load; done.
Qed.

Lemma unpriv_wf form (index : Index) ok size opc m :
  match form with
  | 0 => (Offset, true) | 1 => (Post, false) | 2 => (Offset, false) | _ => (Pre, false)
  end = (index, ok) ->
  mem_op size opc ok = Some m -> m = Prefetch -> (form =? 2) = false.
Proof.
  intros H1 H2 ->. apply mem_op_prefetch in H2 as ->. apply Z.eqb_neq. by intros ->.
Qed.

Lemma ldst_wf w : insn_wf (ldst w).
Proof.
  unfold ldst. destruct (bit w 26); [apply simd_ldst_wf|].
  decode_cases.
  all: lazymatch goal with
    | |- insn_wf (exclusive _) => apply exclusive_wf
    | _ => cbn [insn_wf]
    end.
  all: try subst; split_conj; ldst_goal.
  all: lazymatch goal with
    | |- 0 <= field ?v 31 30 <= _ => pose proof (field_31_30 v); lia
    | |- _ = Prefetch -> false = false => done
    | |- _ = Prefetch -> _ => eapply unpriv_wf; eassumption
    | H : _ = (?z, ?m) |- 2 <= ?z <= 3 => by apply literal_wf in H as [??]
    | H : _ = (?z, ?m) |- ?m <> Store => by apply literal_wf in H as [??]
    | H : _ = Some (?z, ?b) |- 2 <= ?z <= 3 => by apply pair_layout in H as [??]
    | H : _ = Some (?z, ?b) |- ?b = true -> _ => by apply pair_layout in H as [??]
    | H : _ = Some (?z, ?b) |- - _ <= Z.shiftl _ ?z < _ =>
        apply pair_layout in H as [??]; apply pair_off_wf; [lia|apply Z.pow_le_mono_r; lia]
    end.
Qed.

(** The data-processing decoders of simd/int.rs and simd/fpinsn.rs produce
    SIMD data-processing instructions, never another class. *)
Definition simd_decoders_ok : Prop :=
  forall w, simd_dp_result (fpinsn_decode w) = true /\ simd_dp_result (int_decode w) = true.

Lemma simd_dp_result_wf i : simd_dp_result i = true -> insn_wf i.
Proof. destruct i; try done. by destruct s. Qed.

Lemma decode_insn_wf w : simd_decoders_ok -> insn_wf (decode w).
Proof.
  intros Hsimd. unfold decode. destruct (Hsimd w) as [Hfp Hint].
  decode_cases.
  all: lazymatch goal with
    | |- insn_wf (dp_imm _) => apply dp_imm_wf
    | |- insn_wf (branch_sys _) => apply branch_sys_wf
    | |- insn_wf (ldst _) => apply ldst_wf
    | |- insn_wf (dp_reg _) => apply dp_reg_wf
    | |- insn_wf (simd_decode_dp _) => idtac
    end.
  all: unfold simd_decode_dp; apply simd_dp_result_wf; by destruct (_ && _).
Qed.

(** C34: whatever 32-bit word is fetched, [decode] yields an instruction whose
    register numbers, access sizes, shift amounts, masks, branch offsets and
    vector element indices are in the ranges the interpreter indexes and
    shifts by (the whole table of [insn_wf]), provided the decoders of the
    AdvSIMD data-processing classes (simd/int.rs and simd/fpinsn.rs, parameters
    here) yield instructions of those classes ([simd_decoders_ok]); the
    operands inside these are not constrained. *)
Theorem decode_wf : simd_decoders_ok -> forall w, insn_wf (decode w).
Proof. intros Hsimd w. by apply decode_insn_wf. Qed.
End decode_wf.

(** Decoders for a build without the AdvSIMD data-processing classes: they
    satisfy [simd_decoders_ok]. *)
Definition no_simd_types : SimdTypes := {| IntInsn := unit; FpInsn := unit; CryptoInsn := unit |}.
Definition no_simd_decode : @SimdDecode no_simd_types :=
  {| fpinsn_decode _ := Unimplemented "fp"; int_decode _ := Unimplemented "simd" |}.

(** LDP X29, X30, [SP], #16 decodes to a well-formed instruction. *)
Lemma decode_wf_witness :
  let i := @decode no_simd_types no_simd_decode 0xA8C17BFD in
  i = LdStPair 3 true false Post 16 29 30 31 /\ @insn_wf no_simd_types i.
Proof.
  split; [vm_compute; reflexivity|].
  apply (@decode_wf no_simd_types no_simd_decode). intros w. split; reflexivity.
Defined.
