(* ===== verification/Memory.v ===== *)
(** * The memory interface of the CPU (crates/vetro-cpu/src/mem.rs, trait
    [Memory])

    What the interpreter asks of a memory, as a class of operations; the
    provided methods of the trait are definitions over [read] and [write].
    [MemoryLaws] states what a memory promises the interpreter: an invariant
    every operation keeps, and the length and range of what is read.
    UserAccess discharges the laws for [UserMemory]; the theorems about the
    interpreter use them for any memory. *)

From Stdlib Require Import ZArith Lia Bool.
From stdpp Require Import base list numbers.
From S2P Require Import Prelude.
Local Open Scope Z_scope.

Inductive Access := Read | Write | Fetch.

#[export] Instance Access_eq_dec : EqDecision Access.
Proof. solve_decision. Defined.

Record MemFault := MkMemFault { fault_addr : Z; fault_access : Access }.

(** Memory as seen by the CPU (virtual addresses, little-endian). A read
    takes the length of the buffer and returns its content. *)
Class Memory (M : Type) : Type := {
  mem_read : Z -> nat -> prog M MemFault (list Z);
  mem_write : Z -> list Z -> prog M MemFault unit;
  mem_fetch : Z -> prog M MemFault Z;
  mem_read_unpriv : Z -> nat -> prog M MemFault (list Z);
  mem_write_unpriv : Z -> list Z -> prog M MemFault unit;
  mem_zero_block : Z -> prog M MemFault unit;
  mem_cmpxchg : Z -> list Z -> list Z -> prog M MemFault bool;
}.

(** The provided methods of the trait. *)
Section defaults.
Context {M : Type} (read : Z -> nat -> prog M MemFault (list Z))
  (write : Z -> list Z -> prog M MemFault unit).

Definition default_read_unpriv (addr : Z) (n : nat) : prog M MemFault (list Z) := read addr n.

Definition default_write_unpriv (addr : Z) (data : list Z) : prog M MemFault unit :=
  write addr data.

Definition default_zero_block (addr : Z) : prog M MemFault unit :=
  write addr (replicate 64 0).

Definition default_cmpxchg (addr : Z) (old new : list Z) : prog M MemFault bool :=
  cur ← read addr (length old);
  if bool_decide (cur = old) then write addr new;; mret true else mret false.
End defaults.

(** ** What a memory promises

    [mem_ok] is the representation invariant of the memory; every operation
    keeps it, and a read yields as many bytes as it was asked for. *)
Class MemoryLaws (M : Type) `{Memory M} : Type := {
  mem_ok : M -> Prop;
  read_keeps : forall a n m, is_u64 a -> mem_ok m -> mem_ok (mem_read a n m).2;
  write_keeps : forall a d m, is_u64 a -> mem_ok m -> bytes_ok d -> mem_ok (mem_write a d m).2;
  fetch_keeps : forall a m, is_u64 a -> mem_ok m -> mem_ok (mem_fetch a m).2;
  read_unpriv_keeps : forall a n m, is_u64 a -> mem_ok m -> mem_ok (mem_read_unpriv a n m).2;
  write_unpriv_keeps : forall a d m, is_u64 a -> mem_ok m -> bytes_ok d -> mem_ok (mem_write_unpriv a d m).2;
  zero_block_keeps : forall a m, is_u64 a -> mem_ok m -> mem_ok (mem_zero_block a m).2;
  cmpxchg_keeps : forall a old new m,
    is_u64 a -> mem_ok m -> bytes_ok old -> bytes_ok new -> mem_ok (mem_cmpxchg a old new m).2;
  read_bytes : forall a n m l m',
    is_u64 a -> mem_ok m -> mem_read a n m = (Ok l, m') -> length l = n /\ bytes_ok l;
  read_unpriv_bytes : forall a n m l m',
    is_u64 a -> mem_ok m -> mem_read_unpriv a n m = (Ok l, m') -> length l = n /\ bytes_ok l;
  fetch_word : forall a m w m', is_u64 a -> mem_ok m -> mem_fetch a m = (Ok w, m') -> is_u32 w;
}.
