(* ===== verification/Vreg.v ===== *)
(** * Elements of vector registers (crates/vetro-cpu/src/simd/vreg.rs) *)

From Stdlib Require Import ZArith Lia Bool.
From stdpp Require Import base list numbers.
From S2P Require Import Prelude Bits.
Local Open Scope Z_scope.

Definition U64_MAX : Z := 0xffffffffffffffff.

(** Element [idx] of [esize] bits of a 128-bit value. *)
Definition elem (v idx esize : Z) : Z :=
  let sh := idx * esize in
  let m := if esize =? 64 then U64_MAX else Z.shiftl 1 esize - 1 in
  Z.land (u64 (Z.shiftr v sh)) m.

Definition set_elem (v idx esize x : Z) : Z :=
  let sh := idx * esize in
  let m := u128 (Z.shiftl (if esize =? 64 then U64_MAX else Z.shiftl 1 esize - 1) sh) in
  Z.lor (Z.land v (u128 (Z.lnot m))) (Z.land (u128 (Z.shiftl x sh)) m).

(** The low [datasize] bits (64 or 128). *)
Definition clip (v datasize : Z) : Z :=
  if datasize =? 128 then v else Z.land v U64_MAX.

(** Sign extension of an [esize]-bit element. *)
Definition sx (x esize : Z) : Z :=
  let s := 64 - esize in Z.shiftr (i64 (u64 (Z.shiftl x s))) s.

Definition emask (esize : Z) : Z :=
  if esize =? 64 then U64_MAX else Z.shiftl 1 esize - 1.

#[global] Arguments elem : simpl never.
#[global] Arguments set_elem : simpl never.
#[global] Arguments clip : simpl never.
#[global] Arguments sx : simpl never.
#[global] Arguments emask : simpl never.

Definition esize_ok (esize : Z) : Prop := esize = 8 \/ esize = 16 \/ esize = 32 \/ esize = 64.

Lemma emask_ones esize : esize_ok esize -> emask esize = Z.ones esize.
Proof. by intros [->|[->|[->| ->]]]. Qed.

Lemma elem_spec v idx esize :
  esize_ok esize -> 0 <= idx -> elem v idx esize = (v / 2 ^ (idx * esize)) mod 2 ^ esize.
Proof.
  intros He Hi. unfold elem. fold (emask esize). rewrite emask_ones by done.
  assert (8 <= esize <= 64) by (unfold esize_ok in He; lia).
  rewrite Z.land_ones, Z.shiftr_div_pow2 by nia. unfold u64. apply pow_mod_mod. lia.
Qed.

Lemma testbit_set_elem v idx esize x i :
  esize_ok esize -> is_u 128 v -> 0 <= idx -> (idx + 1) * esize <= 128 -> 0 <= i ->
  Z.testbit (set_elem v idx esize x) i =
    if (idx * esize <=? i) && (i <? (idx + 1) * esize)
    then Z.testbit x (i - idx * esize) else Z.testbit v i.
Proof.
  intros He Hv Hidx Hhi Hi. unfold set_elem. fold (emask esize). rewrite emask_ones by done.
  assert (8 <= esize <= 64) by (unfold esize_ok in He; lia).
  assert (0 <= idx * esize) by nia.
  unfold u128. autorewrite with zbits.
  destruct (Z.lt_ge_cases i 128) as [Hlt|Hge]; cycle 1.
  { rewrite (testbit_high 128 v i) by (done || lia). zbits_split; simpl; try done; lia. }
  destruct (Z.leb_spec (idx * esize) i).
  - rewrite Z.testbit_ones_nonneg by lia.
    zbits_split; simpl; try lia; by rewrite ?andb_true_r, ?andb_false_r, ?orb_false_r.
  - rewrite (Z.testbit_neg_r (Z.ones esize)) by lia.
    zbits_split; simpl; try lia; by rewrite ?andb_true_r, ?andb_false_r, ?orb_false_r.
Qed.

Lemma set_elem_bound v idx esize x :
  esize_ok esize -> is_u 128 v -> 0 <= idx -> (idx + 1) * esize <= 128 ->
  is_u 128 (set_elem v idx esize x).
Proof.
  intros He Hv Hidx Hhi. unfold set_elem. apply is_u_lor; [lia| |].
  - apply is_u_land; [lia|done|]. apply is_u_u128.
  - apply is_u_land; [lia|apply is_u_u128|]. apply is_u_u128.
Qed.

Lemma clip_bound v datasize : is_u 128 v -> is_u 128 (clip v datasize).
Proof.
  intros. unfold clip. destruct (datasize =? 128); [done|].
  apply is_u_land; [lia|done|unfold U64_MAX; lia].
Qed.

(** Writing element [idx] of a vector and reading element [j] back gives
    the value truncated to the element when [j] is the element written, and
    the old element otherwise: lanes do not interfere. *)
Theorem elem_set_elem v idx j esize x :
  esize_ok esize -> is_u 128 v ->
  0 <= idx -> (idx + 1) * esize <= 128 -> 0 <= j -> (j + 1) * esize <= 128 ->
  elem (set_elem v idx esize x) j esize =
    if j =? idx then x mod 2 ^ esize else elem v j esize.
Proof.
  intros He Hv Hi Hhi Hj Hhj. assert (8 <= esize <= 64) by (unfold esize_ok in He; lia).
  rewrite elem_spec by done. rewrite <- Z.shiftr_div_pow2 by nia.
  apply Z.bits_inj'. intros k Hk. autorewrite with zbits.
  destruct (Z.ltb_spec k esize) as [Hke|Hke]; simpl.
  - rewrite testbit_set_elem by (done || nia).
    destruct (Z.eqb_spec j idx) as [->|Hne].
    + replace (_ && _) with true by (symmetry; apply andb_true_iff; lia).
      rewrite Z.testbit_mod_pow2 by lia. replace (k <? esize) with true by lia.
      simpl. f_equal. lia.
    + replace (_ && _) with false by (symmetry; apply andb_false_iff; nia).
      rewrite elem_spec by done. rewrite <- Z.shiftr_div_pow2 by nia.
      autorewrite with zbits. by replace (k <? esize) with true by lia.
  - destruct (j =? idx); [|rewrite elem_spec by done]; rewrite Z.mod_pow2_bits_high; done || lia.
Qed.

(** Writing halfword 2 and reading halfwords 2 and 3. *)
Lemma elem_set_elem_witness :
  elem (set_elem 0x11112222333344445555666677778888 2 16 0x1abcd) 2 16 = 0xabcd /\
  elem (set_elem 0x11112222333344445555666677778888 2 16 0x1abcd) 3 16 = 0x5555.
Proof.
  split; rewrite (elem_set_elem _ 2 _ 16 0x1abcd); try (unfold esize_ok, is_u; lia);
    vm_compute; reflexivity.
Defined.
