(* ===== verification/Exec.v ===== *)
(** * The reference interpreter (crates/vetro-cpu/src/exec.rs and the
    load/stores of simd/ldst.rs)

    One definition per helper and per arm of [Cpu::execute]; [execute] and
    [step] compose them over the state [Cpu * M], where [M] is the memory
    (any instance of [Memory]).  A run ends with a value or with an
    exception; [Panic] is Rust's [unreachable!]. *)

From Stdlib Require Import ZArith Lia Bool.
From stdpp Require Import base list numbers strings.
From S2P Require Import Prelude Bits SysReg State Decode Memory Vreg.
Local Open Scope Z_scope.
Local Open Scope vetro_scope.

Inductive Exception :=
| ExcSvc (imm : Z)
| ExcBreakpoint (imm : Z)
| ExcUndefined (raw : Z)
| ExcUnimplemented (raw : Z) (what : string)
| ExcDataAbort (addr : Z) (write : bool)
| ExcInstructionAbort (addr : Z)
| ExcAlignment (addr : Z)
| ExcPcAlignment (addr : Z)
| ExcSpAlignment.

(** How a run stops short: an exception of the guest, or a panic. *)
Inductive Stop := Raise (e : Exception) | Panic (what : string).

(** [impl From<MemFault> for Exception]. *)
Definition from_mem_fault (f : MemFault) : Exception :=
  match fault_access f with
  | Fetch => ExcInstructionAbort (fault_addr f)
  | a => ExcDataAbort (fault_addr f) (bool_decide (a = Write))
  end.

(** ** Arithmetic helpers *)

Definition trunc (v : Z) (sf : bool) : Z := if sf then v else u32 v.

(** [AddWithCarry(x, y, carry)]: truncated result and NZCV flags. *)
Definition add_with_carry (x y : Z) (carry sf : bool) : Z * (bool * bool * bool * bool) :=
  if sf then
    let r1 := u64 (x + y) in
    let c1 := 2 ^ 64 <=? x + y in
    let r := u64 (r1 + b2z carry) in
    let c2 := 2 ^ 64 <=? r1 + b2z carry in
    let v := negb (Z.shiftr (Z.land (Z.lxor x r) (Z.lxor y r)) 63 =? 0) in
    (r, (negb (Z.shiftr r 63 =? 0), r =? 0, c1 || c2, v))
  else
    let x := u32 x in
    let y := u32 y in
    let wide := x + y + b2z carry in
    let r := u32 wide in
    let v := negb (Z.shiftr (Z.land (Z.lxor x r) (Z.lxor y r)) 31 =? 0) in
    (r, (negb (Z.shiftr r 31 =? 0), r =? 0, negb (Z.shiftr wide 32 =? 0), v)).

Definition shift_reg (v : Z) (shift : Shift) (amount : Z) (sf : bool) : Z :=
  let n := datasize sf in
  let v := trunc v sf in
  let r := match shift with
           | Lsl => if amount <? 64 then u64 (Z.shiftl v amount) else 0
           | Lsr => if amount <? 64 then Z.shiftr v amount else 0
           | Asr => u64 (Z.shiftr (sext v n) (Z.min amount 63))
           | Ror => ror v amount n
           end in
  trunc r sf.

(** [ExtendReg(reg, type, shift)] on 64 bits, truncated by the caller. *)
Definition extend_reg (v extend shift : Z) : Z :=
  let e := match extend with
           | 0 => u8 v
           | 1 => u16 v
           | 2 => u32 v
           | 3 | 7 => v
           | 4 => u64 (signed 8 (u8 v))
           | 5 => u64 (signed 16 (u16 v))
           | _ => u64 (signed 32 (u32 v))
           end in
  u64 (Z.shiftl e shift).

(** One bit of the CRC: the body of the inner loop. *)
Definition crc32_bit (poly crc : Z) : Z :=
  if negb (Z.land crc 1 =? 0) then Z.lxor (Z.shiftr crc 1) poly else Z.shiftr crc 1.

Definition crc32_byte (poly crc byte : Z) : Z :=
  Nat.iter 8 (crc32_bit poly) (Z.lxor crc byte).

Definition crc32 (acc data bytes : Z) (c : bool) : Z :=
  let poly := if c then 0x82F63B78 else 0xEDB88320 in
  fold_left (fun crc i => crc32_byte poly crc (u8 (Z.shiftr data (8 * i)))) (seqZ 0 bytes) acc.

(** Loaded value of [1 << size] bytes, extended as [op] asks. *)
Definition extend_load (raw size : Z) (op : MemOp) : Z :=
  let bits := Z.shiftl 8 size in
  match op with
  | Load true dst64 => let s := u64 (sext raw bits) in if dst64 then s else u32 s
  | _ => raw
  end.

(** ** Data processing *)

Definition set_logic_flags (r : Z) (sf : bool) (c : Cpu) : Cpu :=
  let neg := negb (Z.land (Z.shiftr r (datasize sf - 1)) 1 =? 0) in
  set_flags neg (r =? 0) false false c.

Definition set_nzcv (f : bool * bool * bool * bool) (c : Cpu) : Cpu :=
  let '(n, z, cf, v) := f in set_flags n z cf v c.

(** [Cpu::add_sub]: the result, and the state with the flags set. *)
Definition add_sub (x y : Z) (sub setflags sf : bool) (c : Cpu) : Z * Cpu :=
  let '(y, carry) := if sub then (u64 (Z.lnot y), true) else (y, false) in
  let '(r, f) := add_with_carry x y carry sf in
  (r, if setflags then set_nzcv f c else c).

Definition exec_add_sub_imm (sf sub setflags : bool) (imm rn rd : Z) (c : Cpu) : Cpu :=
  let x := xsp c rn in
  let '(y, carry) := if sub then (u64 (Z.lnot imm), true) else (imm, false) in
  let '(r, f) := add_with_carry x y carry sf in
  if setflags then set_x rd r (set_nzcv f c) else set_xsp rd r c.

Definition logic (op : LogicOp) (x y : Z) : Z :=
  match op with And | Ands => Z.land x y | Orr => Z.lor x y | Eor => Z.lxor x y end.

Definition exec_logical_imm (sf : bool) (op : LogicOp) (imm rn rd : Z) (c : Cpu) : Cpu :=
  let x := xr c rn in
  let r := trunc (logic op x imm) sf in
  if bool_decide (op = Ands) then set_x rd r (set_logic_flags r sf c) else set_xsp rd r c.

Definition exec_move_wide (sf : bool) (op : MovOp) (shift imm16 rd : Z) (c : Cpu) : Cpu :=
  let imm := u64 (Z.shiftl imm16 shift) in
  let r := match op with
           | Movz => imm
           | Movn => u64 (Z.lnot imm)
           | Movk => Z.lor (Z.land (xr c rd) (u64 (Z.lnot (u64 (Z.shiftl 0xffff shift))))) imm
           end in
  set_x rd (trunc r sf) c.

Definition exec_adr (page : bool) (imm rd : Z) (c : Cpu) : Cpu :=
  let pc := cpu_pc c in
  let base := if page then Z.land pc (u64 (Z.lnot 0xfff)) else pc in
  set_x rd (u64 (base + u64 imm)) c.

Definition exec_bitfield (sf : bool) (op : BfOp) (r s wmask tmask rn rd : Z) (c : Cpu) : Cpu :=
  let n := datasize sf in
  let dst := match op with Bfm => xr c rd | _ => 0 end in
  let src := xr c rn in
  let bot := Z.lor (Z.land dst (u64 (Z.lnot wmask))) (Z.land (ror src r n) wmask) in
  let top := match op with
             | Sbfm => if negb (Z.land (Z.shiftr src s) 1 =? 0) then ones n else 0
             | _ => dst
             end in
  set_x rd (trunc (Z.lor (Z.land top (u64 (Z.lnot tmask))) (Z.land bot tmask)) sf) c.

Definition exec_extract (sf : bool) (lsb rm rn rd : Z) (c : Cpu) : Cpu :=
  let hi := xr c rn in
  let lo := xr c rm in
  let r := if sf then
             if lsb =? 0 then lo
             else Z.lor (Z.shiftr lo lsb) (u64 (Z.shiftl hi (64 - lsb)))
           else
             let concat := Z.lor (u64 (Z.shiftl (u32 hi) 32)) (u32 lo) in
             u32 (Z.shiftr concat lsb) in
  set_x rd r c.

Definition exec_logical_reg (sf : bool) (op : LogicOp) (invert : bool) (shift : Shift)
    (amount rm rn rd : Z) (c : Cpu) : Cpu :=
  let y := shift_reg (xr c rm) shift amount sf in
  let y := if invert then trunc (u64 (Z.lnot y)) sf else y in
  let x := xr c rn in
  let r := trunc (logic op x y) sf in
  set_x rd r (if bool_decide (op = Ands) then set_logic_flags r sf c else c).

Definition exec_add_sub_reg (sf sub setflags : bool) (shift : Shift) (amount rm rn rd : Z)
    (c : Cpu) : Cpu :=
  let y := shift_reg (xr c rm) shift amount sf in
  let '(r, c) := add_sub (xr c rn) y sub setflags sf c in
  set_x rd r c.

Definition exec_add_sub_ext (sf sub setflags : bool) (extend amount rm rn rd : Z)
    (c : Cpu) : Cpu :=
  let y := trunc (extend_reg (xr c rm) extend amount) sf in
  let '(r, c) := add_sub (xsp c rn) y sub setflags sf c in
  if setflags then set_x rd r c else set_xsp rd r c.

Definition exec_add_sub_carry (sf sub setflags : bool) (rm rn rd : Z) (c : Cpu) : Cpu :=
  let y := if sub then u64 (Z.lnot (xr c rm)) else xr c rm in
  let carry := test_mask (cpu_nzcv c) flag_C in
  let '(r, f) := add_with_carry (xr c rn) y carry sf in
  set_x rd r (if setflags then set_nzcv f c else c).

Definition exec_cond_cmp (sf sub : bool) (operand : CcmpOperand) (cond nzcv rn : Z)
    (c : Cpu) : Cpu :=
  if condition_holds c cond then
    let y := match operand with CcmpReg rm => xr c rm | CcmpImm i => i end in
    (add_sub (xr c rn) y sub true sf c).2
  else c <| cpu_nzcv := u32 (Z.shiftl nzcv 28) |>.

Definition exec_cond_sel (sf : bool) (op : CselOp) (cond rm rn rd : Z) (c : Cpu) : Cpu :=
  let r := if condition_holds c cond then xr c rn else
           let m := xr c rm in
           match op with
           | Csel => m
           | Csinc => u64 (m + 1)
           | Csinv => u64 (Z.lnot m)
           | Csneg => u64 (- m)
           end in
  set_x rd (trunc r sf) c.

Definition dp1_64 (op : Dp1Op) (x : Z) : Z :=
  match op with
  | Rbit => reverse_bits 64 x
  | Rev16 => Z.lor (u64 (Z.shiftl (Z.land x 0x00ff00ff00ff00ff) 8))
               (Z.land (Z.shiftr x 8) 0x00ff00ff00ff00ff)
  | Rev32 =>
      let lo := swap_bytes 4 (u32 x) in
      let hi := swap_bytes 4 (u32 (Z.shiftr x 32)) in
      Z.lor (u64 (Z.shiftl hi 32)) lo
  | Rev64 => swap_bytes 8 x
  | Clz => leading_zeros 64 x
  | Cls => leading_zeros 64 (Z.land (Z.lxor x (Z.shiftr x 1)) (Z.shiftr U64_MAX 1)) - 1
  end.

Definition dp1_32 (op : Dp1Op) (x : Z) : Z :=
  match op with
  | Rbit => reverse_bits 32 x
  | Rev16 => Z.lor (u32 (Z.shiftl (Z.land x 0x00ff00ff) 8)) (Z.land (Z.shiftr x 8) 0x00ff00ff)
  | Rev32 | Rev64 => swap_bytes 4 x
  | Clz => leading_zeros 32 x
  | Cls => leading_zeros 32 (Z.land (Z.lxor x (Z.shiftr x 1)) (Z.shiftr 0xffffffff 1)) - 1
  end.

Definition exec_dp1 (sf : bool) (op : Dp1Op) (rn rd : Z) (c : Cpu) : Cpu :=
  let x := xr c rn in
  let r := if sf then dp1_64 op x else dp1_32 op (u32 x) in
  set_x rd r c.

(** Rust's [i64::wrapping_div] (truncated division). *)
Definition sdiv (a b : Z) : Z := Z.quot a b.

Definition dp2 (op : Dp2Op) (x y m : Z) (sf : bool) : Z :=
  let n := datasize sf in
  match op with
  | Udiv => if y =? 0 then 0 else x / y
  | Sdiv =>
      let a := sext x n in
      let b := sext y n in
      if b =? 0 then 0 else u64 (sdiv a b)
  | Lslv => shift_reg x Lsl (y mod n) sf
  | Lsrv => shift_reg x Lsr (y mod n) sf
  | Asrv => shift_reg x Asr (y mod n) sf
  | Rorv => shift_reg x Ror (y mod n) sf
  | Crc32 bytes cc => crc32 (u32 x) m bytes cc
  end.

Definition exec_dp2 (sf : bool) (op : Dp2Op) (rm rn rd : Z) (c : Cpu) : Cpu :=
  let x := trunc (xr c rn) sf in
  let y := trunc (xr c rm) sf in
  set_x rd (trunc (dp2 op x y (xr c rm) sf) sf) c.

Definition dp3 (op : Dp3Op) (a m n : Z) : Z :=
  let sx := fun v => u64 (signed 32 (u32 v)) in
  let zx := fun v => u32 v in
  match op with
  | Madd => u64 (a + u64 (n * m))
  | Msub => u64 (a - u64 (n * m))
  | Smaddl => u64 (a + u64 (sx n * sx m))
  | Smsubl => u64 (a - u64 (sx n * sx m))
  | Umaddl => u64 (a + u64 (zx n * zx m))
  | Umsubl => u64 (a - u64 (zx n * zx m))
  | Smulh => u64 (Z.shiftr (i64 n * i64 m) 64)
  | Umulh => u64 (Z.shiftr (n * m) 64)
  end.

Definition exec_dp3 (sf : bool) (op : Dp3Op) (ra rm rn rd : Z) (c : Cpu) : Cpu :=
  set_x rd (trunc (dp3 op (xr c ra) (xr c rm) (xr c rn)) sf) c.

(** ** Executors of the AdvSIMD/FP data-processing classes *)
(** [None]: one of their [unreachable!] arms. *)
Class SimdExec {ST : SimdTypes} : Type := {
  exec_int : IntInsn -> Cpu -> option Cpu;
  exec_fp : FpInsn -> Cpu -> option Cpu;
  exec_crypto : CryptoInsn -> Cpu -> option Cpu;
}.

(** ** The machine: CPU and memory *)

Definition machine M A := prog (Cpu * M) Stop A.

Section machine.
Context {M : Type} `{Memory M}.

Definition cpu_get {A} (f : Cpu -> A) : machine M A := gets (fun s => f s.1).
Definition cpu_set (f : Cpu -> Cpu) : machine M unit := modify (fun s => (f s.1, s.2)).
Definition raise {A} (e : Exception) : machine M A := throw (Raise e).

(** A call of a memory method with [?]. *)
Definition mem_call {A} (op : prog M MemFault A) : machine M A := fun s =>
  let '(r, m) := op s.2 in (map_err (fun f => Raise (from_mem_fault f)) r, (s.1, m)).

Definition read_uint (addr bytes : Z) : machine M Z :=
  b ← mem_call (mem_read addr (Z.to_nat bytes)); mret (from_le b).

Definition write_uint (addr bytes v : Z) : machine M unit :=
  mem_call (mem_write addr (to_le (Z.to_nat bytes) v)).

Definition check_aligned (addr bytes : Z) : machine M unit :=
  if negb (addr mod bytes =? 0) then raise (ExcAlignment addr) else mret tt.

(** [Cpu::check_sp_alignment], for a load/store with base [rn]. *)
Definition sp_misaligned (rn : Z) (c : Cpu) : bool :=
  (rn =? 31) && bool_decide (sys_mode (cpu_sys c) = System) && test_mask (cpu_sp c) 15 &&
  let bit := if sys_el (cpu_sys c) =? 0 then sctlr.SA0 else sctlr.SA in
  test_mask (sys_sctlr_el1 (cpu_sys c)) bit.

Definition check_sp_alignment (rn : Z) : machine M unit :=
  bad ← cpu_get (sp_misaligned rn);
  if bad : bool then raise ExcSpAlignment else mret tt.

(** Address of a load/store and the value written back to the base. *)
Definition effective_address (addr : AddrMode) (rn : Z) (c : Cpu) : Z * option Z :=
  let base := xsp c rn in
  match addr with
  | AddrImm offset index =>
      let moved := u64 (base + u64 offset) in
      match index with
      | Offset => (moved, None)
      | Pre => (moved, Some moved)
      | Post => (base, Some moved)
      end
  | AddrReg rm extend shift => (u64 (base + extend_reg (xr c rm) extend shift), None)
  end.

Definition write_back (rn : Z) (wb : option Z) : machine M unit :=
  match wb with Some v => cpu_set (set_xsp rn v) | None => mret tt end.

(** ** Loads and stores *)

Definition exec_ldst (size : Z) (op : MemOp) (addr : AddrMode) (rt rn : Z) (unpriv : bool)
    : machine M unit :=
  (if bool_decide (op = Prefetch) then mret tt else check_sp_alignment rn);;
  '(address, writeback) ← cpu_get (effective_address addr rn);
  let bytes := Z.shiftl 1 size in
  match op with
  | Store =>
      v ← cpu_get (fun c => xr c rt);
      if unpriv then mem_call (mem_write_unpriv address (to_le (Z.to_nat bytes) v))
      else write_uint address bytes v
  | Load _ _ =>
      raw ← (if unpriv then
               b ← mem_call (mem_read_unpriv address (Z.to_nat bytes)); mret (from_le b)
             else v ← read_uint address bytes; mret (u64 v));
      cpu_set (set_x rt (extend_load raw size op))
  | Prefetch => mret tt
  end;;
  write_back rn writeback.

Definition exec_ld_literal (size : Z) (op : MemOp) (offset rt : Z) : machine M unit :=
  if bool_decide (op = Prefetch) then mret tt else
  pc ← cpu_get cpu_pc;
  raw ← read_uint (u64 (pc + u64 offset)) (Z.shiftl 1 size);
  cpu_set (set_x rt (extend_load (u64 raw) size op)).

Definition exec_ldst_pair (size : Z) (load signed : bool) (index : Index)
    (offset rt rt2 rn : Z) : machine M unit :=
  check_sp_alignment rn;;
  base ← cpu_get (fun c => xsp c rn);
  let moved := u64 (base + u64 offset) in
  let address := if bool_decide (index = Post) then base else moved in
  let bytes := Z.shiftl 1 size in
  let second := u64 (address + bytes) in
  (if load then
     let op := Load signed true in
     a ← read_uint address bytes;
     b ← read_uint second bytes;
     cpu_set (set_x rt (extend_load (u64 a) size op));;
     cpu_set (set_x rt2 (extend_load (u64 b) size op))
   else
     '(a, b) ← cpu_get (fun c => (xr c rt, xr c rt2));
     write_uint address bytes a;;
     write_uint second bytes b);;
  if bool_decide (index = Offset) then mret tt else cpu_set (set_xsp rn moved).

(** [self.monitor.take()]. *)
Definition take_monitor : machine M (option Monitor) :=
  m ← cpu_get cpu_monitor; cpu_set (fun c => c <| cpu_monitor := None |>);; mret m.

(** The value a store-exclusive stores. *)
Definition exclusive_value (pair : bool) (elem rt rt2 : Z) (c : Cpu) : Z :=
  if pair then
    let bits := elem * 8 in
    Z.lor (Z.land (xr c rt) (ones bits)) (u128 (Z.shiftl (xr c rt2) bits))
  else xr c rt.

Definition exec_exclusive (size : Z) (load pair : bool) (rs rt rt2 rn : Z) : machine M unit :=
  check_sp_alignment rn;;
  address ← cpu_get (fun c => xsp c rn);
  let elem := Z.shiftl 1 size in
  let total := if pair then elem * 2 else elem in
  check_aligned address total;;
  if load then
    v ← read_uint address total;
    cpu_set (fun c => c <| cpu_monitor := Some (MkMonitor address total v) |>);;
    if pair then
      let bits := elem * 8 in
      cpu_set (set_x rt (u64 (Z.land v (ones bits))));;
      cpu_set (set_x rt2 (u64 (Z.shiftr v bits)))
    else cpu_set (set_x rt (u64 v))
  else
    new ← cpu_get (exclusive_value pair elem rt rt2);
    let n := Z.to_nat total in
    mon ← take_monitor;
    ok ← match mon with
         | Some m =>
             if (mon_addr m =? address) && (mon_bytes m =? total)
             then mem_call (mem_cmpxchg address (to_le n (mon_value m)) (to_le n new))
             else mret false
         | None => mret false
         end;
    cpu_set (set_x rs (b2z (negb ok))).

Definition exec_load_acquire (size rt rn : Z) : machine M unit :=
  check_sp_alignment rn;;
  address ← cpu_get (fun c => xsp c rn);
  check_aligned address (Z.shiftl 1 size);;
  v ← read_uint address (Z.shiftl 1 size);
  cpu_set (set_x rt (u64 v)).

Definition exec_store_release (size rt rn : Z) : machine M unit :=
  check_sp_alignment rn;;
  address ← cpu_get (fun c => xsp c rn);
  check_aligned address (Z.shiftl 1 size);;
  v ← cpu_get (fun c => xr c rt);
  write_uint address (Z.shiftl 1 size) v.

(** ** Loads and stores of vector registers (simd/ldst.rs) *)

Definition vget (c : Cpu) (t : Z) : Z := cpu_v c !!! Z.to_nat t.
Definition vset (t v : Z) (c : Cpu) : Cpu := c <| cpu_v ::= fun l => <[Z.to_nat t := v]> l |>.

Definition post_index (rn base : Z) (post : PostInc) : machine M unit :=
  match post with
  | PostNone => mret tt
  | PostImm n => cpu_set (set_xsp rn (u64 (base + n)))
  | PostReg rm =>
      off ← cpu_get (fun c => xr c rm);
      cpu_set (set_xsp rn (u64 (base + off)))
  end.

Definition exec_vreg (scale : Z) (load : bool) (addr : AddrMode) (rt rn : Z) : machine M unit :=
  '(address, writeback) ← cpu_get (effective_address addr rn);
  let bytes := Z.shiftl 1 scale in
  (if load then
     v ← read_uint address bytes; cpu_set (vset rt v)
   else
     v ← cpu_get (fun c => vget c rt); write_uint address bytes v);;
  write_back rn writeback.

Definition exec_vpair (scale : Z) (load : bool) (index : Index) (offset rt rt2 rn : Z)
    : machine M unit :=
  base ← cpu_get (fun c => xsp c rn);
  let moved := u64 (base + u64 offset) in
  let address := if bool_decide (index = Post) then base else moved in
  let bytes := Z.shiftl 1 scale in
  let second := u64 (address + bytes) in
  (if load then
     a ← read_uint address bytes;
     b ← read_uint second bytes;
     cpu_set (vset rt a);;
     cpu_set (vset rt2 b)
   else
     a ← cpu_get (fun c => vget c rt);
     write_uint address bytes a;;
     b ← cpu_get (fun c => vget c rt2);
     write_uint second bytes b);;
  if bool_decide (index = Offset) then mret tt else cpu_set (set_xsp rn moved).

(** Body of the innermost loop of LD1-LD4/ST1-ST4 (multiple structures):
    element [e] of register [t], at [base + offs]. *)
Definition multi_elem (load : bool) (base dsize esize e : Z) (st : Z * Z)
    : machine M (Z * Z) :=
  let '(t, offs) := st in
  let ebytes := esize / 8 in
  let a := u64 (base + offs) in
  (if load then
     x ← read_uint a ebytes;
     cpu_set (fun c => vset t (set_elem (clip (vget c t) dsize) e esize (u64 x)) c)
   else
     x ← cpu_get (fun c => elem (vget c t) e esize);
     write_uint a ebytes x);;
  mret ((t + 1) mod 32, offs + ebytes).

Definition exec_multi (load q : bool) (rpt selem esize rt rn : Z) (post : PostInc)
    : machine M unit :=
  let dsize := if q then 128 else 64 in
  let elements := dsize / esize in
  base ← cpu_get (fun c => xsp c rn);
  foldM (fun offs r =>
    foldM (fun offs e =>
      '(_, offs) ← foldM (fun st _ => multi_elem load base dsize esize e st)
                     ((rt + r) mod 32, offs) (seqZ 0 selem);
      mret offs) offs (seqZ 0 elements)) 0 (seqZ 0 rpt);;
  post_index rn base post.

(** [set_elem] of every lane. *)
Definition replicate_elem (dsize esize x : Z) : Z :=
  fold_left (fun v e => set_elem v e esize x) (seqZ 0 (dsize / esize)) 0.

(** Body of the loop of the single-structure forms. *)
Definition single_elem (load q : bool) (scale index : Z) (repl : bool) (base : Z) (st : Z * Z)
    : machine M (Z * Z) :=
  let '(t, offs) := st in
  let dsize := if q then 128 else 64 in
  let esize := Z.shiftl 8 scale in
  let ebytes := Z.shiftl 1 scale in
  let a := u64 (base + offs) in
  (if repl then
     x ← read_uint a ebytes;
     cpu_set (vset t (replicate_elem dsize esize (u64 x)))
   else if load then
     x ← read_uint a ebytes;
     cpu_set (fun c => vset t (set_elem (vget c t) index esize (u64 x)) c)
   else
     x ← cpu_get (fun c => elem (vget c t) index esize);
     write_uint a ebytes x);;
  mret ((t + 1) mod 32, offs + ebytes).

Definition exec_single (load q : bool) (selem scale index : Z) (repl : bool) (rt rn : Z)
    (post : PostInc) : machine M unit :=
  base ← cpu_get (fun c => xsp c rn);
  foldM (fun st _ => single_elem load q scale index repl base st) (rt, 0) (seqZ 0 selem);;
  post_index rn base post.

Definition exec_mem (i : VecMemInsn) : machine M unit :=
  match i with
  | VReg _ _ _ _ rn | VPair _ _ _ _ _ _ rn | VMulti _ _ _ _ _ _ rn _
  | VSingle _ _ _ _ _ _ _ rn _ => check_sp_alignment rn
  | VLiteral _ _ _ => mret tt
  end;;
  match i with
  | VReg scale load addr rt rn => exec_vreg scale load addr rt rn
  | VLiteral scale offset rt =>
      pc ← cpu_get cpu_pc;
      v ← read_uint (u64 (pc + u64 offset)) (Z.shiftl 1 scale);
      cpu_set (vset rt v)
  | VPair scale load index offset rt rt2 rn => exec_vpair scale load index offset rt rt2 rn
  | VMulti load q rpt selem esize rt rn post => exec_multi load q rpt selem esize rt rn post
  | VSingle load q selem scale index repl rt rn post =>
      exec_single load q selem scale index repl rt rn post
  end.

(** ** System registers in user mode *)

(** The value MRS reads; [None] is the [unreachable!] arm. *)
Definition user_mrs (reg : SysReg) (c : Cpu) : option Z :=
  match reg with
  | Nzcv => Some (cpu_nzcv c)
  | TpidrEl0 => Some (cpu_tpidr_el0 c)
  | TpidrroEl0 => Some (cpu_tpidrro_el0 c)
  | Fpcr => Some (cpu_fpcr c)
  | Fpsr => Some (cpu_fpsr c)
  | DczidEl0 => Some 4
  | CtrEl0 => Some id.CTR_EL0
  | _ => None
  end.

Definition exec_mrs (reg : SysReg) (rt raw : Z) : machine M unit :=
  if is_el0_dcc reg then raise (ExcUndefined raw) else
  if negb (is_el0_legacy reg) then raise (ExcUnimplemented raw "MRS/MSR system register") else
  v ← cpu_get (user_mrs reg);
  match v with
  | Some v => cpu_set (set_x rt v)
  | None => throw (Panic "register not in M1, excluded above")
  end.

Definition exec_msr (reg : SysReg) (rt raw : Z) : machine M unit :=
  if is_el0_dcc reg then raise (ExcUndefined raw) else
  if negb (is_el0_legacy reg) then raise (ExcUnimplemented raw "MRS/MSR system register") else
  v ← cpu_get (fun c => xr c rt);
  match reg with
  | Nzcv => cpu_set (fun c => c <| cpu_nzcv := Z.land (u32 v) 0xf0000000 |>)
  | TpidrEl0 => cpu_set (fun c => c <| cpu_tpidr_el0 := v |>)
  | TpidrroEl0 => raise (ExcUndefined raw)
  | Fpcr => cpu_set (fun c => c <| cpu_fpcr := Z.land (u32 v) FPCR_MASK |>)
  | Fpsr => cpu_set (fun c => c <| cpu_fpsr := Z.land (u32 v) FPSR_MASK |>)
  | _ => throw (Panic "register not in M1, excluded above")
  end.

(** ** [Cpu::execute] and [Cpu::step] *)

Context {ST : SimdTypes} {SD : SimdDecode} {SE : SimdExec}.

Definition fallthrough (m : machine M unit) : machine M (option Z) := m;; mret None.
Definition dp (f : Cpu -> Cpu) : machine M (option Z) := fallthrough (cpu_set f).

(** A call of an executor. *)
Definition exec_with (f : Cpu -> option Cpu) : machine M unit :=
  c ← cpu_get f;
  match c with
  | Some c => cpu_set (fun _ => c)
  | None => throw (Panic "unreachable in the AdvSIMD unit")
  end.

Definition exec_simd (s : SimdInsn) : machine M unit :=
  match s with
  | SimdMem m => exec_mem m
  | SimdInt i => exec_with (exec_int i)
  | SimdFp f => exec_with (exec_fp f)
  | SimdCrypto c => exec_with (exec_crypto c)
  end.

(** [self.x[30] = pc.wrapping_add(4)]. *)
Definition link_x30 (pc : Z) (c : Cpu) : Cpu :=
  c <| cpu_x ::= fun x => <[30%nat := u64 (pc + 4)]> x |>.

(** The branches: the target, if taken. *)
Definition exec_branch (i : Insn) : machine M (option Z) :=
  pc ← cpu_get cpu_pc;
  match i with
  | B link offset =>
      (if link then cpu_set (link_x30 pc) else mret tt);;
      mret (Some (u64 (pc + u64 offset)))
  | BCond cond offset =>
      taken ← cpu_get (fun c => condition_holds c cond);
      mret (if taken : bool then Some (u64 (pc + u64 offset)) else None)
  | Cbz sf nonzero rt offset =>
      taken ← cpu_get (fun c => Bool.eqb (negb (trunc (xr c rt) sf =? 0)) nonzero);
      mret (if taken : bool then Some (u64 (pc + u64 offset)) else None)
  | Tbz nonzero b rt offset =>
      taken ← cpu_get (fun c =>
        Bool.eqb (negb (Z.land (Z.shiftr (xr c rt) b) 1 =? 0)) nonzero);
      mret (if taken : bool then Some (u64 (pc + u64 offset)) else None)
  | BranchReg op rn =>
      target ← cpu_get (fun c => xr c rn);
      (if bool_decide (op = Blr) then cpu_set (link_x30 pc) else mret tt);;
      mret (Some target)
  | _ => mret None
  end.

(** Executes a decoded instruction; [Some target] if it branches. *)
Definition execute (insn : Insn) (raw : Z) : machine M (option Z) :=
  match insn with
  | AddSubImm sf sub setflags imm rn rd => dp (exec_add_sub_imm sf sub setflags imm rn rd)
  | LogicalImm sf op imm rn rd => dp (exec_logical_imm sf op imm rn rd)
  | MoveWide sf op shift imm16 rd => dp (exec_move_wide sf op shift imm16 rd)
  | Adr page imm rd => dp (exec_adr page imm rd)
  | Bitfield sf op r s wmask tmask rn rd => dp (exec_bitfield sf op r s wmask tmask rn rd)
  | Extract sf lsb rm rn rd => dp (exec_extract sf lsb rm rn rd)
  | LogicalReg sf op invert shift amount rm rn rd =>
      dp (exec_logical_reg sf op invert shift amount rm rn rd)
  | AddSubReg sf sub setflags shift amount rm rn rd =>
      dp (exec_add_sub_reg sf sub setflags shift amount rm rn rd)
  | AddSubExt sf sub setflags extend amount rm rn rd =>
      dp (exec_add_sub_ext sf sub setflags extend amount rm rn rd)
  | AddSubCarry sf sub setflags rm rn rd => dp (exec_add_sub_carry sf sub setflags rm rn rd)
  | CondCmp sf sub operand cond nzcv rn => dp (exec_cond_cmp sf sub operand cond nzcv rn)
  | CondSel sf op cond rm rn rd => dp (exec_cond_sel sf op cond rm rn rd)
  | Dp1 sf op rn rd => dp (exec_dp1 sf op rn rd)
  | Dp2 sf op rm rn rd => dp (exec_dp2 sf op rm rn rd)
  | Dp3 sf op ra rm rn rd => dp (exec_dp3 sf op ra rm rn rd)
  | B _ _ | BCond _ _ | Cbz _ _ _ _ | Tbz _ _ _ _ | BranchReg _ _ => exec_branch insn
  | Svc _ => mret None
  | Brk imm => raise (ExcBreakpoint imm)
  | Nop | Barrier | CacheMaint => mret None
  | Clrex => dp (fun c => c <| cpu_monitor := None |>)
  | DcZva rt =>
      addr ← cpu_get (fun c => Z.land (xr c rt) (u64 (Z.lnot 63)));
      fallthrough (mem_call (mem_zero_block addr))
  | Wfi | Wfe | Yield => mret None
  | Hvc _ | Smc _ | Eret | MsrImm _ _ | Sys _ _ => raise (ExcUndefined raw)
  | Mrs reg rt => fallthrough (exec_mrs reg rt raw)
  | Msr reg rt => fallthrough (exec_msr reg rt raw)
  | LdSt size op addr rt rn unpriv => fallthrough (exec_ldst size op addr rt rn unpriv)
  | LdLiteral size op offset rt => fallthrough (exec_ld_literal size op offset rt)
  | LdStPair size load signed index offset rt rt2 rn =>
      fallthrough (exec_ldst_pair size load signed index offset rt rt2 rn)
  | Exclusive size load paired rs rt rt2 rn => fallthrough (exec_exclusive size load paired rs rt rt2 rn)
  | LoadAcquire size rt rn => fallthrough (exec_load_acquire size rt rn)
  | StoreRelease size rt rn => fallthrough (exec_store_release size rt rn)
  | Simd s => fallthrough (exec_simd s)
  | Undefined => raise (ExcUndefined raw)
  | Unimplemented what => raise (ExcUnimplemented raw what)
  end.

Definition step : machine M unit :=
  pc ← cpu_get cpu_pc;
  if negb (Z.land pc 3 =? 0) then raise (ExcPcAlignment pc) else
  raw ← mem_call (mem_fetch pc);
  let insn := decode raw in
  target ← execute insn raw;
  cpu_set (fun c => c <| cpu_pc := match target with
                                   | Some t => t
                                   | None => u64 (pc + 4)
                                   end |>);;
  match insn with
  | Svc imm => raise (ExcSvc imm)
  | _ => mret tt
  end.
End machine.
