(* ===== verification/Alu.v ===== *)
(** * The arithmetic of the interpreter against the architecture (exec.rs)

    What the helpers of exec.rs compute, as integer arithmetic: additions with
    their NZCV flags, comparisons through the condition codes, shifts,
    extensions, bit-field moves, extraction, reversals, division and long
    multiplication. *)

From Stdlib Require Import ZArith Lia Bool.
From stdpp Require Import base list numbers strings.
From S2P Require Import Prelude Bits SysReg State Decode Memory Vreg Exec.
Local Open Scope Z_scope.
Local Open Scope vetro_scope.

Lemma datasize_range sf : datasize sf = 32 \/ datasize sf = 64.
Proof. destruct sf; auto. Qed.

Lemma trunc_mod v sf : is_u64 v -> trunc v sf = v mod 2 ^ datasize sf.
Proof. intros. destruct sf; simpl; [|done]. symmetry. by apply mod_is_u. Qed.

Lemma trunc_bound v sf : is_u64 v -> is_u (datasize sf) (trunc v sf).
Proof. intros. rewrite trunc_mod by done. apply is_u_mod. destruct sf; simpl; lia. Qed.

Lemma trunc_u64 v sf : is_u64 v -> is_u64 (trunc v sf).
Proof. intros. eapply is_u_weaken; [by apply trunc_bound|]. destruct sf; simpl; lia. Qed.

Lemma pow2_pred w : 1 <= w -> 2 ^ w = 2 * 2 ^ (w - 1).
Proof. intros. rewrite <- Z.pow_succ_r by lia. f_equal; lia. Qed.

(** Sign bit of a [w]-bit value. *)
Lemma sign_shiftr w r : 1 <= w -> is_u w r -> negb (Z.shiftr r (w - 1) =? 0) = (2 ^ (w - 1) <=? r).
Proof.
  intros Hw [Hl Hu]. rewrite (pow2_pred w) in Hu by done. rewrite Z.shiftr_div_pow2 by lia.
  set (h := 2 ^ (w - 1)) in *. assert (0 < h) by (unfold h; lia).
  destruct (Z.leb_spec h r).
  - assert (r / h = 1) as -> by (symmetry; apply Z.div_unique_pos with (r - h); lia). done.
  - by rewrite Z.div_small by lia.
Qed.

Lemma sign_testbit w r : 1 <= w -> is_u w r -> Z.testbit r (w - 1) = (2 ^ (w - 1) <=? r).
Proof.
  intros Hw Hr. rewrite <- sign_shiftr by done. rewrite Z.testbit_eqb, Z.shiftr_div_pow2 by lia.
  assert (0 <= r / 2 ^ (w - 1) < 2) as Hq.
  { destruct Hr. split; [apply Z.div_pos; lia|]. apply Z.div_lt_upper_bound; [lia|].
    rewrite (pow2_pred w) in * by done. lia. }
  rewrite Z.mod_small by lia. lia.
Qed.

(** [((x ^ r) & (y ^ r)) >> (w - 1)]: the operands agree in sign and the
    result does not. *)
Lemma overflow_bit w x y r :
  1 <= w -> is_u w x -> is_u w y -> is_u w r ->
  negb (Z.shiftr (Z.land (Z.lxor x r) (Z.lxor y r)) (w - 1) =? 0) =
    negb (Bool.eqb (2 ^ (w - 1) <=? x) (2 ^ (w - 1) <=? r)) &&
    negb (Bool.eqb (2 ^ (w - 1) <=? y) (2 ^ (w - 1) <=? r)).
Proof.
  intros Hw Hx Hy Hr.
  assert (is_u w (Z.lxor x r)) as Hxr by (apply is_u_lxor; (done || lia)).
  assert (is_u w (Z.lxor y r)) as Hyr by (apply is_u_lxor; (done || lia)).
  assert (is_u w (Z.land (Z.lxor x r) (Z.lxor y r))) by (apply is_u_land; [lia|done|apply Hyr]).
  rewrite sign_shiftr, <- sign_testbit by done.
  rewrite Z.land_spec, !Z.lxor_spec, !sign_testbit by done.
  by destruct (_ <=? x), (_ <=? y), (_ <=? r).
Qed.

Lemma signed_cases w x : is_u w x -> signed w x = if 2 ^ (w - 1) <=? x then x - 2 ^ w else x.
Proof.
  intros Hx. unfold signed. rewrite mod_is_u by done.
  destruct (Z.ltb_spec x (2 ^ (w - 1))), (Z.leb_spec (2 ^ (w - 1)) x); lia.
Qed.

(** The specification of an addition on [w] bits: result and flags. *)
Definition add_spec (w x y carry : Z) : Z * (bool * bool * bool * bool) :=
  let r := (x + y + carry) mod 2 ^ w in
  let s := signed w x + signed w y + carry in
  (r, (signed w r <? 0, r =? 0, 2 ^ w <=? x + y + carry,
       negb ((- 2 ^ (w - 1) <=? s) && (s <? 2 ^ (w - 1))))).

Lemma add_flags w x y carry :
  1 <= w -> is_u w x -> is_u w y -> 0 <= carry <= 1 ->
  let r := (x + y + carry) mod 2 ^ w in
  (r, (negb (Z.shiftr r (w - 1) =? 0), r =? 0, 2 ^ w <=? x + y + carry,
       negb (Z.shiftr (Z.land (Z.lxor x r) (Z.lxor y r)) (w - 1) =? 0)))
  = add_spec w x y carry.
Proof.
  intros Hw Hx Hy Hc r. unfold add_spec. fold r.
  assert (is_u w r) as Hr by (apply is_u_mod; lia).
  rewrite overflow_bit, sign_shiftr by done. rewrite !signed_cases by done.
  assert (r = x + y + carry \/ r = x + y + carry - 2 ^ w) as Hr'.
  { unfold r, is_u in *. destruct (Z.lt_ge_cases (x + y + carry) (2 ^ w)).
    - left. apply Z.mod_small. lia.
    - right. symmetry. apply Z.mod_unique_pos with 1; lia. }
  pose proof (pow2_pred w Hw). unfold is_u in *. set (h := 2 ^ (w - 1)) in *.
  repeat f_equal.
  - destruct (Z.leb_spec h r); lia.
  - destruct (Z.leb_spec h r), (Z.leb_spec h x), (Z.leb_spec h y); simpl; lia.
Qed.

Lemma add_with_carry_eq x y carry sf :
  is_u64 x -> is_u64 y ->
  add_with_carry x y carry sf =
    add_spec (datasize sf) (trunc x sf) (trunc y sf) (b2z carry).
Proof.
  intros Hx Hy. assert (0 <= b2z carry <= 1) by (destruct carry; simpl; lia).
  unfold add_with_carry. destruct sf; cbn [datasize trunc].
  - rewrite <- add_flags by (done || lia). unfold u64. cbv zeta.
    rewrite Z.add_mod_idemp_l by lia. change (64 - 1) with 63. do 3 f_equal.
    unfold is_u in *. f_equal.
    destruct (Z.lt_ge_cases (x + y) (2 ^ 64)).
    + rewrite Z.mod_small by lia. lia.
    + replace ((x + y) mod 2 ^ 64) with (x + y - 2 ^ 64)
        by (apply Z.mod_unique_pos with 1; lia). lia.
  - rewrite <- add_flags by (apply is_u_u32 || lia). cbv zeta. change (32 - 1) with 31.
    fold (u32 (u32 x + u32 y + b2z carry)). do 3 f_equal.
    pose proof (is_u_u32 x). pose proof (is_u_u32 y). unfold is_u in *.
    rewrite Z.shiftr_div_pow2 by lia.
    destruct (Z.leb_spec (2 ^ 32) (u32 x + u32 y + b2z carry)).
    + replace ((u32 x + u32 y + b2z carry) / 2 ^ 32) with 1; [done|].
      apply Z.div_unique_pos with (u32 x + u32 y + b2z carry - 2 ^ 32); lia.
    + by rewrite Z.div_small by lia.
Qed.

(** C0: [add_with_carry] is the addition of the architecture on 32 or 64 bits:
    the sum modulo the width, N the sign of the result, Z its nullity, C the
    unsigned carry out, V the overflow of the signed sum. *)
Theorem add_with_carry_spec sf x y carry :
  is_u64 x -> is_u64 y ->
  let w := datasize sf in
  let a := x mod 2 ^ w in
  let b := y mod 2 ^ w in
  let sum := a + b + b2z carry in
  let ssum := signed w x + signed w y + b2z carry in
  exists n z cf v, add_with_carry x y carry sf = (sum mod 2 ^ w, (n, z, cf, v)) /\
    (n = true <-> signed w sum < 0) /\
    (z = true <-> sum mod 2 ^ w = 0) /\
    (cf = true <-> 2 ^ w <= sum) /\
    (v = true <-> ~ (- 2 ^ (w - 1) <= ssum < 2 ^ (w - 1))).
Proof.
  intros Hx Hy w a b sum ssum.
  rewrite add_with_carry_eq by done. unfold add_spec. fold w.
  rewrite !trunc_mod by done. fold w a b sum.
  assert (0 <= w) by (unfold w; destruct sf; simpl; lia).
  assert (forall v, signed w (v mod 2 ^ w) = signed w v) as Hs.
  { intros v. unfold signed. by rewrite Z.mod_mod by lia. }
  unfold a, b. rewrite !Hs. fold ssum.
  eexists _, _, _, _. split; [reflexivity|].
  split; [apply Z.ltb_lt|]. split; [apply Z.eqb_eq|]. split; [apply Z.leb_le|].
  rewrite negb_true_iff, andb_false_iff, Z.leb_gt, Z.ltb_ge. lia.
Qed.

(** INT_MAX + 1 on 32 bits: negative, overflow, no carry. *)
Lemma add_with_carry_spec_witness :
  exists n z cf v, add_with_carry 0xfffffff7fffffff 1 false false = (0x80000000, (n, z, cf, v)) /\
    n = true /\ v = true /\ cf = false.
Proof.
  destruct (add_with_carry_spec false 0xfffffff7fffffff 1 false ltac:(unfold is_u; lia)
    ltac:(unfold is_u; lia)) as (n & z & cf & v & H1 & Hn & Hz & Hc & Hv).
  exists n, z, cf, v. split; [exact H1|].
  split; [apply Hn; vm_compute; reflexivity|].
  split; [apply Hv; vm_compute; intros [_ H2]; discriminate H2|].
  destruct cf; [|reflexivity]. exfalso. apply Hc; vm_compute; reflexivity.
Defined.

(** ** Comparisons through the condition codes *)

Definition nzcv_cond (n z cf v : bool) (cond : Z) : bool :=
  match cond with
  | 0 => z | 1 => negb z | 2 => cf | 3 => negb cf | 4 => n | 5 => negb n
  | 6 => v | 7 => negb v
  | 8 => cf && negb z | 9 => negb (cf && negb z)
  | 10 => Bool.eqb n v | 11 => negb (Bool.eqb n v)
  | 12 => Bool.eqb n v && negb z | 13 => negb (Bool.eqb n v && negb z)
  | _ => true
  end.

Lemma condition_set_flags n z cf v c cond :
  0 <= cond < 16 -> condition_holds (set_flags n z cf v c) cond = nzcv_cond n z cf v cond.
Proof.
  intros Hc. unfold condition_holds.
  assert (cpu_nzcv (set_flags n z cf v c) = nzcv_word n z cf v) as ->
    by (by rewrite set_flags_word).
  assert (forall_below 16 (fun cond => forallb (fun '(n, z, cf, v) =>
    Bool.eqb (condition_holds (cpu_new <| cpu_nzcv := nzcv_word n z cf v |>) cond)
      (nzcv_cond n z cf v cond))
    (n ← [true; false]; z ← [true; false]; cf ← [true; false]; v ← [true; false];
     mret (n, z, cf, v))) = true) as Hall by (vm_compute; reflexivity).
  pose proof (forall_below_spec _ _ Hall cond Hc) as Hb. cbv beta in Hb.
  rewrite forallb_forall in Hb.
  specialize (Hb (n, z, cf, v) ltac:(destruct n, z, cf, v; simpl; tauto)).
  by apply eqb_prop in Hb.
Qed.

Lemma lnot_u64 y : is_u64 y -> u64 (Z.lnot y) = 2 ^ 64 - 1 - y.
Proof.
  intros [Hl Hu]. unfold u64. symmetry. apply Z.mod_unique_pos with (-1); [lia|].
  pose proof (Z.add_lnot_diag y). lia.
Qed.

Lemma trunc_lnot y sf :
  is_u64 y -> trunc (u64 (Z.lnot y)) sf = 2 ^ datasize sf - 1 - trunc y sf.
Proof.
  intros Hy. rewrite lnot_u64 by done. destruct sf; cbn [trunc datasize]; [done|].
  unfold u32. symmetry. pose proof (Z.div_mod y (2 ^ 32) ltac:(lia)).
  apply Z.mod_unique_pos with (2 ^ 32 - 1 - y / 2 ^ 32); [|lia].
  pose proof (Z.mod_pos_bound y (2 ^ 32) ltac:(lia)). lia.
Qed.

(** A subtraction on [w] bits through its complement: result and flags. *)
Lemma sub_flags w x y :
  1 <= w -> is_u w x -> is_u w y ->
  add_spec w x (2 ^ w - 1 - y) 1 =
  ((x - y) mod 2 ^ w,
   (signed w (x - y) <? 0, x =? y, y <=? x,
    negb ((- 2 ^ (w - 1) <=? signed w x - signed w y) &&
          (signed w x - signed w y <? 2 ^ (w - 1))))).
Proof.
  intros Hw Hx Hy. unfold add_spec.
  assert ((x + (2 ^ w - 1 - y) + 1) mod 2 ^ w = (x - y) mod 2 ^ w) as ->.
  { replace (x + (2 ^ w - 1 - y) + 1) with (x - y + 1 * 2 ^ w) by lia.
    by rewrite Z.mod_add by lia. }
  assert (signed w (2 ^ w - 1 - y) = - 1 - signed w y) as ->.
  { pose proof (pow2_pred w Hw). unfold is_u in *.
    rewrite !signed_cases by (unfold is_u; lia).
    destruct (Z.leb_spec (2 ^ (w - 1)) (2 ^ w - 1 - y)), (Z.leb_spec (2 ^ (w - 1)) y); lia. }
  assert (signed w ((x - y) mod 2 ^ w) = signed w (x - y)) as ->
    by (unfold signed; by rewrite Z.mod_mod by lia).
  replace (signed w x + (-1 - signed w y) + 1) with (signed w x - signed w y) by lia.
  unfold is_u in *. f_equal. f_equal. f_equal; [f_equal|].
  - destruct (Z.eqb_spec x y) as [->|Hne]; [by rewrite Z.sub_diag, Z.mod_0_l by lia|].
    apply Z.eqb_neq. intros Hz. apply Z.mod_divide in Hz as [q Hq]; [|lia].
    destruct (Z.lt_trichotomy q 0) as [|[->|]]; [nia|lia|nia].
  - destruct (Z.leb_spec (2 ^ w) (x + (2 ^ w - 1 - y) + 1)), (Z.leb_spec y x); lia.
Qed.

Lemma signed_sub_cases w x y :
  1 <= w -> is_u w x -> is_u w y ->
  let s := signed w x - signed w y in
  signed w (x - y) = s \/
  (s < - 2 ^ (w - 1) /\ signed w (x - y) = s + 2 ^ w) \/
  (2 ^ (w - 1) <= s /\ signed w (x - y) = s - 2 ^ w).
Proof.
  intros Hw Hx Hy s.
  assert (signed w (x - y) = signed w s) as ->.
  { unfold signed at 1 2. replace (s mod 2 ^ w) with ((x - y) mod 2 ^ w); [done|].
    unfold s. rewrite <- (Z.add_opp_r x), <- (Z.add_opp_r (signed w x)).
    rewrite (Z.add_mod x), (Z.add_mod (signed w x)) by lia.
    rewrite signed_mod by lia. do 2 f_equal.
    rewrite <- !(Z.sub_0_l (_)), (Zminus_mod 0 y), (Zminus_mod 0 (signed w y)).
    by rewrite signed_mod by lia. }
  pose proof (pow2_pred w Hw).
  pose proof (signed_bound w x Hw). pose proof (signed_bound w y Hw).
  destruct (Z.lt_ge_cases s (- 2 ^ (w - 1))) as [Hlt|Hge]; [right; left|].
  - split; [done|]. rewrite <- (signed_small w (s + 2 ^ w)) by lia. unfold signed.
    replace ((s + 2 ^ w) mod 2 ^ w) with (s mod 2 ^ w); [done|].
    rewrite <- (Z.mod_add s 1) by lia. f_equal; lia.
  - destruct (Z.lt_ge_cases s (2 ^ (w - 1))); [left; by apply signed_small|].
    right; right. split; [done|]. rewrite <- (signed_small w (s - 2 ^ w)) by lia. unfold signed.
    replace ((s - 2 ^ w) mod 2 ^ w) with (s mod 2 ^ w); [done|].
    rewrite <- (Z.mod_add s (-1)) by lia. f_equal; lia.
Qed.

(** What each condition code says of [x - y] compared on [w] bits. *)
Definition compare_cond (w x y cond : Z) : bool :=
  let s := signed w x - signed w y in
  match cond with
  | 0 => x =? y                        (* EQ *)
  | 1 => negb (x =? y)                 (* NE *)
  | 2 => y <=? x                       (* HS, unsigned *)
  | 3 => x <? y                        (* LO *)
  | 4 => signed w (x - y) <? 0         (* MI *)
  | 5 => 0 <=? signed w (x - y)        (* PL *)
  | 6 => negb ((- 2 ^ (w - 1) <=? s) && (s <? 2 ^ (w - 1)))  (* VS *)
  | 7 => (- 2 ^ (w - 1) <=? s) && (s <? 2 ^ (w - 1))         (* VC *)
  | 8 => y <? x                        (* HI *)
  | 9 => x <=? y                       (* LS *)
  | 10 => signed w y <=? signed w x    (* GE, signed *)
  | 11 => signed w x <? signed w y     (* LT *)
  | 12 => signed w y <? signed w x     (* GT *)
  | 13 => signed w x <=? signed w y    (* LE *)
  | _ => true                          (* AL *)
  end.

Lemma signed_inj w x y : 1 <= w -> is_u w x -> is_u w y -> signed w x = signed w y -> x = y.
Proof.
  intros Hw Hx Hy He.
  rewrite <- (mod_is_u w x Hx), <- (mod_is_u w y Hy).
  rewrite <- (signed_mod w x), <- (signed_mod w y) by lia. by rewrite He.
Qed.

Lemma nzcv_cond_compare w x y cond :
  1 <= w -> is_u w x -> is_u w y -> 0 <= cond < 16 ->
  nzcv_cond (signed w (x - y) <? 0) (x =? y) (y <=? x)
    (negb ((- 2 ^ (w - 1) <=? signed w x - signed w y) &&
           (signed w x - signed w y <? 2 ^ (w - 1)))) cond
  = compare_cond w x y cond.
Proof.
  intros Hw Hx Hy Hc.
  pose proof (signed_sub_cases w x y Hw Hx Hy) as Hs. cbv zeta in Hs.
  pose proof (signed_inj w x y Hw Hx Hy) as Hinj.
  pose proof (signed_bound w x Hw). pose proof (signed_bound w y Hw).
  pose proof (signed_bound w (x - y) Hw). pose proof (pow2_pred w Hw).
  assert (x = y -> signed w x = signed w y) as Hinj' by congruence.
  unfold compare_cond. cbv zeta.
  set (sx := signed w x) in *. set (sy := signed w y) in *. set (d := signed w (x - y)) in *.
  set (h := 2 ^ (w - 1)) in *.
  assert (cond = 0 \/ cond = 1 \/ cond = 2 \/ cond = 3 \/ cond = 4 \/ cond = 5 \/ cond = 6 \/
          cond = 7 \/ cond = 8 \/ cond = 9 \/ cond = 10 \/ cond = 11 \/ cond = 12 \/ cond = 13 \/
          cond = 14 \/ cond = 15) as Hcases by lia.
  clearbody h sx sy d. clear Hc.
  repeat (destruct Hcases as [->|Hcases]; [cbn [nzcv_cond]; lia|]). by subst.
Qed.

(** After a flag-setting subtraction (SUBS, CMP) on 32 or 64 bits, every
    condition code says what its name says of the operands: EQ/NE equality,
    HS/LO/HI/LS the unsigned order, GE/LT/GT/LE the signed order, MI/PL the
    sign of the difference, VS/VC signed overflow. *)
Theorem subs_conditions sf x y c cond :
  is_u64 x -> is_u64 y -> 0 <= cond < 16 ->
  let '(r, c') := add_sub x y true true sf c in
  r = (trunc x sf - trunc y sf) mod 2 ^ datasize sf /\
  condition_holds c' cond = compare_cond (datasize sf) (trunc x sf) (trunc y sf) cond.
Proof.
  intros Hx Hy Hc. unfold add_sub.
  rewrite add_with_carry_eq by (done || apply is_u_u64).
  rewrite trunc_lnot by done. cbn [b2z Z.b2z].
  assert (1 <= datasize sf) by (destruct sf; simpl; lia).
  rewrite sub_flags by (done || by apply trunc_bound). cbn [set_nzcv].
  split; [done|]. rewrite condition_set_flags by done.
  apply nzcv_cond_compare; done || by apply trunc_bound.
Qed.

(** CMP W0, W1 with -1 and 1: LT holds, LO does not. *)
Lemma subs_conditions_witness :
  let c' := (add_sub 0xffffffff 1 true true false cpu_new).2 in
  condition_holds c' 11 = true /\ condition_holds c' 3 = false.
Proof.
  assert (is_u64 0xffffffff) as Hx by (unfold is_u; lia).
  assert (is_u64 1) as Hy by (unfold is_u; lia).
  pose proof (subs_conditions false 0xffffffff 1 cpu_new 11 Hx Hy ltac:(lia)) as H11.
  pose proof (subs_conditions false 0xffffffff 1 cpu_new 3 Hx Hy ltac:(lia)) as H3.
  destruct (add_sub 0xffffffff 1 true true false cpu_new) as [r c'']. cbn [snd].
  destruct H11 as [_ ->], H3 as [_ ->]. split; vm_compute; reflexivity.
Defined.

(** ** Shifts *)

Lemma u64_mod_datasize x sf : (u64 x) mod 2 ^ datasize sf = x mod 2 ^ datasize sf.
Proof. unfold u64. apply pow_mod_mod. destruct sf; simpl; lia. Qed.

Lemma shift_reg_u64 v shift amount sf : is_u64 v -> 0 <= amount -> is_u64 (shift_reg v shift amount sf).
Proof.
  intros Hv Ha. unfold shift_reg. apply trunc_u64. pose proof (trunc_u64 v sf Hv).
  destruct shift.
  - destruct (_ <? _); [apply is_u_u64|unfold is_u; lia].
  - destruct (_ <? _); [apply is_u_shiftr; done || lia|unfold is_u; lia].
  - apply is_u_u64.
  - apply (is_u_weaken (datasize sf)); [apply ror_bound|]; destruct sf; simpl; lia.
Qed.

(** The shifts of the register forms on 32 or 64 bits are multiplication
    and division by powers of two: LSL modulo the width, LSR on the unsigned
    value, ASR on the signed value rounding to minus infinity, ROR moves the
    low bits to the top. *)
Theorem shift_reg_spec v shift amount sf :
  is_u64 v -> 0 <= amount < datasize sf ->
  let w := datasize sf in
  let x := v mod 2 ^ w in
  shift_reg v shift amount sf =
    match shift with
    | Lsl => (x * 2 ^ amount) mod 2 ^ w
    | Lsr => x / 2 ^ amount
    | Asr => (signed w x / 2 ^ amount) mod 2 ^ w
    | Ror => x / 2 ^ amount + (x mod 2 ^ amount) * 2 ^ (w - amount)
    end.
Proof.
  intros Hv Ha w x.
  assert (w = 32 \/ w = 64) as Hw by apply datasize_range.
  assert (is_u w x) as Hx by (apply is_u_mod; lia). fold w in Ha.
  unfold shift_reg. fold w. rewrite (trunc_mod v) by done. fold w x.
  destruct shift.
  - replace (amount <? 64) with true by lia. rewrite trunc_mod by apply is_u_u64.
    rewrite u64_mod_datasize. fold w. by rewrite Z.shiftl_mul_pow2 by lia.
  - replace (amount <? 64) with true by lia.
    assert (is_u w (Z.shiftr x amount)) as Hs by (apply is_u_shiftr; done || lia).
    rewrite trunc_mod by (eapply is_u_weaken; [exact Hs|lia]). fold w.
    rewrite mod_is_u by done. apply Z.shiftr_div_pow2. lia.
  - rewrite trunc_mod by apply is_u_u64. rewrite u64_mod_datasize. fold w.
    rewrite sext_spec by lia. rewrite Z.min_l by lia.
    by rewrite Z.shiftr_div_pow2 by lia.
  - assert (is_u w (ror x amount w)) as Hr by (apply ror_bound; lia).
    rewrite trunc_mod by (eapply is_u_weaken; [exact Hr|lia]). fold w.
    rewrite mod_is_u by done.
    assert (is_u (w - amount) (x / 2 ^ amount)) as Hd.
    { rewrite <- Z.shiftr_div_pow2 by lia. apply is_u_shiftr_exact; [lia|done]. }
    rewrite Z.add_comm, <- lor_shiftl_add by (done || lia).
    apply Z.bits_inj'. intros i Hi. rewrite <- Z.shiftr_div_pow2 by lia.
    autorewrite with zbits.
    destruct (Z.lt_ge_cases i w); cycle 1.
    { rewrite (testbit_high w (ror _ _ _)), (testbit_high w x (i + amount)) by (done || lia).
      by replace (_ <? amount) with false by lia. }
    rewrite testbit_ror by lia.
    destruct (Z.lt_ge_cases (i + amount) w).
    + rewrite Z.mod_small by lia. rewrite (Z.testbit_neg_r x (i - _)) by lia.
      by rewrite andb_false_r.
    + replace ((i + amount) mod w) with (i - (w - amount))
        by (apply Z.mod_unique_pos with 1; lia).
      rewrite (testbit_high w x (i + amount)) by (done || lia).
      rewrite orb_false_r. by replace (_ <? amount) with true by lia.
Qed.

(** ASR W by 4 of a negative word. *)
Lemma shift_reg_spec_witness : shift_reg 0x1234567880000010 Asr 4 false = 0xf8000001.
Proof.
  rewrite (shift_reg_spec 0x1234567880000010 Asr 4 false);
    [vm_compute; reflexivity | unfold is_u; lia | simpl; lia].
Defined.

(** ** Bit-field moves *)

Definition dst_bit (op : BfOp) (dst i : Z) : bool :=
  match op with Bfm => Z.testbit dst i | _ => false end.

(** The value a bit-field move writes. *)
Definition bitfield_value (sf : bool) (op : BfOp) (r s wmask tmask src dst : Z) : Z :=
  let n := datasize sf in
  let dst := match op with Bfm => dst | _ => 0 end in
  let bot := Z.lor (Z.land dst (u64 (Z.lnot wmask))) (Z.land (ror src r n) wmask) in
  let top := match op with
             | Sbfm => if negb (Z.land (Z.shiftr src s) 1 =? 0) then ones n else 0
             | _ => dst
             end in
  trunc (Z.lor (Z.land top (u64 (Z.lnot tmask))) (Z.land bot tmask)) sf.

Lemma bitmask_len_full sf imms :
  0 <= imms < datasize sf -> bitmask_len (b2z sf) imms = if sf then 6 else 5.
Proof.
  intros H. unfold bitmask_len. apply Z.log2_unique; destruct sf; simpl in *; lia.
Qed.

Lemma dst_testbit op dst i :
  Z.testbit (match op with Bfm => dst | _ => 0 end) i = dst_bit op dst i.
Proof. destruct op; simpl; try done; apply Z.testbit_0_l. Qed.

(** Bit [i] of the value, by the position of [i] in the field. *)
Definition bitfield_bit (op : BfOp) (w r s src dst i : Z) : bool :=
  let top := match op with Sbfm => Z.testbit src s | _ => dst_bit op dst i end in
  if r <=? s then
    if i <=? s - r then Z.testbit src (i + r) else top
  else
    if i <? w - r then dst_bit op dst i
    else if i <=? w - r + s then Z.testbit src (i - (w - r)) else top.

Lemma testbit_trunc x sf i :
  0 <= i < datasize sf -> Z.testbit (trunc x sf) i = Z.testbit x i.
Proof.
  intros. destruct sf; cbn [trunc datasize] in *; [done|]. unfold u32.
  rewrite Z.testbit_mod_pow2 by lia. by replace (i <? 32) with true by lia.
Qed.

Lemma testbit_u64_lnot x i :
  0 <= i < 64 -> Z.testbit (u64 (Z.lnot x)) i = negb (Z.testbit x i).
Proof.
  intros. unfold u64. rewrite Z.testbit_mod_pow2, Z.lnot_spec by lia.
  by replace (i <? 64) with true by lia.
Qed.

Lemma sign_mask_bit src s w i :
  0 <= s -> 0 <= i < w -> w <= 64 ->
  Z.testbit (if negb (Z.land (Z.shiftr src s) 1 =? 0) then ones w else 0) i = Z.testbit src s.
Proof.
  intros. change (negb (Z.land (Z.shiftr src s) 1 =? 0)) with (bit src s).
  rewrite bit_testbit by done. destruct (Z.testbit src s); [|apply Z.testbit_0_l].
  rewrite ones_spec, Z.testbit_ones_nonneg by lia. lia.
Qed.

Lemma testbit_bitfield sf op r s wmask tmask src dst i :
  0 <= r < datasize sf -> 0 <= s < datasize sf ->
  decode_bit_masks (b2z sf) s r false (datasize sf) = Some (wmask, tmask) ->
  0 <= i < datasize sf ->
  Z.testbit (bitfield_value sf op r s wmask tmask src dst) i =
    bitfield_bit op (datasize sf) r s src dst i.
Proof.
  intros Hr Hs Hm Hi.
  apply decode_bit_masks_bits in Hm;
    [|destruct sf; simpl; lia|destruct sf; simpl in *; lia|destruct sf; simpl; lia].
  rewrite bitmask_len_full in Hm by done.
  assert (2 ^ (if sf then 6 else 5) = datasize sf) as Hw by (by destruct sf).
  rewrite Hw in Hm. cbv zeta in Hm. destruct Hm as (_ & _ & Hm).
  destruct (Hm i Hi) as [Hwm Htm].
  assert (datasize sf <= 64) by (destruct sf; simpl; lia).
  set (w := datasize sf) in *. rewrite !(Z.mod_small s), !(Z.mod_small r) in * by lia.
  rewrite (Z.mod_small i) in Htm by lia.
  unfold bitfield_value, bitfield_bit. fold w. rewrite testbit_trunc by done.
  rewrite !Z.lor_spec, !Z.land_spec, Z.lor_spec, !Z.land_spec.
  rewrite !testbit_u64_lnot, !dst_testbit, testbit_ror by lia. rewrite Hwm, Htm.
  assert (Z.testbit match op with
    | Sbfm => if negb (Z.land (Z.shiftr src s) 1 =? 0) then ones w else 0
    | _ => match op with Bfm => dst | _ => 0 end end i
    = match op with Sbfm => Z.testbit src s | _ => dst_bit op dst i end) as ->.
  { destruct op; [apply sign_mask_bit; lia|done|apply Z.testbit_0_l]. }
  destruct (Z.leb_spec r s).
  - rewrite (Z.mod_small (s - r)) by lia. destruct (Z.leb_spec i (s - r)).
    + rewrite (Z.mod_small (i + r)) by lia. replace (i + r <=? s) with true by lia.
      cbn [negb]. by rewrite !andb_false_r, !andb_true_r.
    + cbn [negb]. by rewrite !andb_false_r, !andb_true_r, orb_false_r.
  - replace ((s - r) mod w) with (w - r + s) by (apply Z.mod_unique_pos with (-1); lia).
    destruct (Z.ltb_spec i (w - r)).
    + rewrite (Z.mod_small (i + r)) by lia. replace (i + r <=? s) with false by lia.
      replace (i <=? w - r + s) with true by lia.
      cbn [negb]. by rewrite !andb_false_r, !andb_true_r, orb_false_r.
    + replace ((i + r) mod w) with (i - (w - r)) by (apply Z.mod_unique_pos with 1; lia).
      destruct (Z.leb_spec i (w - r + s)).
      * replace (i - (w - r) <=? s) with true by lia.
        cbn [negb]. by rewrite !andb_false_r, !andb_true_r.
      * cbn [negb]. by rewrite !andb_false_r, !andb_true_r, orb_false_r.
Qed.

Lemma testbit_signed n x i :
  1 <= n -> 0 <= i ->
  Z.testbit (signed n x) i = if i <? n then Z.testbit x i else Z.testbit x (n - 1).
Proof.
  intros Hn Hi. destruct (Z.ltb_spec i n).
  - rewrite <- (Z.mod_pow2_bits_low (signed n x) n), signed_mod by lia.
    apply Z.mod_pow2_bits_low. lia.
  - pose proof (Z.mod_pos_bound x (2 ^ n) ltac:(lia)) as Hb.
    assert (is_u n (x mod 2 ^ n)) as Hu by done.
    rewrite <- (Z.mod_pow2_bits_low x n (n - 1)), sign_testbit by (done || lia).
    unfold signed. pose proof (pow2_pred n Hn).
    destruct (Z.ltb_spec (x mod 2 ^ n) (2 ^ (n - 1))),
      (Z.leb_spec (2 ^ (n - 1)) (x mod 2 ^ n)); try lia.
    + apply (testbit_high n); [done|lia].
    + assert (Z.lnot (x mod 2 ^ n - 2 ^ n) = 2 ^ n - 1 - x mod 2 ^ n) as Hl
        by (pose proof (Z.add_lnot_diag (x mod 2 ^ n - 2 ^ n)); lia).
      rewrite <- (negb_involutive (Z.testbit _ i)), <- Z.lnot_spec, Hl by lia.
      by rewrite (testbit_high n) by (unfold is_u; lia).
Qed.

Lemma exec_bitfield_value sf op r s wmask tmask rn rd c :
  exec_bitfield sf op r s wmask tmask rn rd c =
    set_x rd (bitfield_value sf op r s wmask tmask (xr c rn) (xr c rd)) c.
Proof. done. Qed.

Lemma bitfield_value_u64 sf op r s wmask tmask src dst :
  is_u64 wmask -> is_u64 tmask -> is_u64 dst ->
  is_u (datasize sf) (bitfield_value sf op r s wmask tmask src dst).
Proof.
  intros Hw Ht Hd. unfold bitfield_value. apply trunc_bound.
  assert (is_u64 (ror src r (datasize sf))).
  { apply (is_u_weaken (datasize sf)); [apply ror_bound|]; destruct sf; simpl; lia. }
  assert (is_u64 0) by (unfold is_u; lia).
  assert (is_u64 (ones (datasize sf))).
  { apply (is_u_weaken (datasize sf)); [apply ones_bound|]; destruct sf; simpl; lia. }
  pose proof (is_u_u64 (Z.lnot wmask)). pose proof (is_u_u64 (Z.lnot tmask)).
  repeat first [apply is_u_lor | apply is_u_land]; try lia; try done;
    repeat match goal with
      | |- is_u _ (match ?b with _ => _ end) => destruct b; try done
      | |- 0 <= _ => by eapply proj1
      end.
Qed.

(** Two values of the width of a register with the same bits. *)
Lemma bits_inj_u w x y :
  is_u w x -> is_u w y -> (forall i, 0 <= i < w -> Z.testbit x i = Z.testbit y i) -> x = y.
Proof.
  intros Hx Hy H. apply Z.bits_inj'. intros i Hi. destruct (Z.lt_ge_cases i w); [auto|].
  by rewrite !(testbit_high w) by done.
Qed.

(** The closed form of each bit-field move. *)
Definition bitfield_spec_value (w : Z) (op : BfOp) (r s src dst : Z) : Z :=
  match op with
  | Ubfm => if r <=? s then (src / 2 ^ r) mod 2 ^ (s - r + 1)
            else (src mod 2 ^ (s + 1)) * 2 ^ (w - r)
  | Sbfm => (if r <=? s then signed (s - r + 1) (src / 2 ^ r)
             else signed (s + 1) src * 2 ^ (w - r)) mod 2 ^ w
  | Bfm =>
      let '(lsb, width, field) :=
        if r <=? s then (0, s - r + 1, src / 2 ^ r) else (w - r, s + 1, src) in
      Z.lor (Z.ldiff (dst mod 2 ^ w) (Z.shiftl (Z.ones width) lsb))
            (Z.shiftl (field mod 2 ^ width) lsb)
  end.

Lemma bitfield_spec_bound w op r s src dst :
  0 <= r < w -> 0 <= s < w -> is_u w (bitfield_spec_value w op r s src dst).
Proof.
  intros Hr Hs. unfold bitfield_spec_value. destruct op.
  - apply is_u_mod. lia.
  - assert (forall lsb width f, 0 <= lsb -> 0 <= width -> lsb + width <= w ->
      is_u w (Z.lor (Z.ldiff (dst mod 2 ^ w) (Z.shiftl (Z.ones width) lsb))
                (Z.shiftl (f mod 2 ^ width) lsb))) as Hg.
    { intros lsb width f H1 H2 H3. pose proof (is_u_mod w dst ltac:(lia)) as Hd.
      apply is_u_lor; [lia| |].
      - apply is_u_bits; [lia|apply Z.ldiff_nonneg; left; apply Hd|].
        intros i Hi. by rewrite Z.ldiff_spec, (testbit_high w) by (done || lia).
      - apply (is_u_weaken (width + lsb)); [|lia].
        apply is_u_shiftl; [lia..|]. by apply is_u_mod. }
    destruct (Z.leb_spec r s); apply Hg; lia.
  - destruct (Z.leb_spec r s).
    + apply (is_u_weaken (s - r + 1)); [apply is_u_mod|]; lia.
    + apply (is_u_weaken (s + 1 + (w - r))); [|lia].
      rewrite <- Z.shiftl_mul_pow2 by lia. apply is_u_shiftl; [lia..|]. apply is_u_mod. lia.
Qed.

Lemma testbit_bitfield_spec w op r s src dst i :
  0 <= r < w -> 0 <= s < w -> 0 <= i < w ->
  Z.testbit (bitfield_spec_value w op r s src dst) i = bitfield_bit op w r s src dst i.
Proof.
  intros Hr Hs Hi. unfold bitfield_spec_value, bitfield_bit. destruct op; cbn [dst_bit].
  - rewrite Z.testbit_mod_pow2 by lia. replace (i <? w) with true by lia. cbn [andb].
    destruct (Z.leb_spec r s).
    + rewrite testbit_signed, <- !Z.shiftr_div_pow2, !Z.shiftr_spec by lia.
      destruct (Z.ltb_spec i (s - r + 1)), (Z.leb_spec i (s - r)); try lia; f_equal; lia.
    + rewrite <- Z.shiftl_mul_pow2, Z.shiftl_spec by lia.
      destruct (Z.ltb_spec i (w - r)); [by rewrite Z.testbit_neg_r by lia|].
      rewrite testbit_signed by lia.
      destruct (Z.ltb_spec (i - (w - r)) (s + 1)), (Z.leb_spec i (w - r + s)); try lia;
        f_equal; lia.
  - destruct (Z.leb_spec r s); rewrite Z.lor_spec, Z.ldiff_spec, !Z.shiftl_spec by lia;
      rewrite (Z.testbit_mod_pow2 dst) by lia; replace (i <? w) with true by lia;
      rewrite ?Z.sub_0_r; cbn [andb].
    + rewrite Z.testbit_ones_nonneg, Z.testbit_mod_pow2, <- Z.shiftr_div_pow2,
        Z.shiftr_spec by lia.
      destruct (Z.ltb_spec i (s - r + 1)), (Z.leb_spec i (s - r)); try lia; cbn [negb andb].
      * by rewrite andb_false_r.
      * by rewrite andb_true_r, orb_false_r.
    + destruct (Z.ltb_spec i (w - r)).
      * rewrite !(Z.testbit_neg_r _ (i - _)) by lia. by rewrite andb_true_r, orb_false_r.
      * rewrite Z.testbit_ones_nonneg, Z.testbit_mod_pow2 by lia.
        destruct (Z.ltb_spec (i - (w - r)) (s + 1)), (Z.leb_spec i (w - r + s)); try lia;
          cbn [negb andb]; [by rewrite andb_false_r|by rewrite andb_true_r, orb_false_r].
  - destruct (Z.leb_spec r s).
    + rewrite Z.testbit_mod_pow2, <- Z.shiftr_div_pow2, Z.shiftr_spec by lia.
      destruct (Z.ltb_spec i (s - r + 1)), (Z.leb_spec i (s - r)); try lia; done.
    + rewrite <- Z.shiftl_mul_pow2, Z.shiftl_spec by lia.
      destruct (Z.ltb_spec i (w - r)); [by rewrite Z.testbit_neg_r by lia|].
      rewrite Z.testbit_mod_pow2 by lia.
      destruct (Z.ltb_spec (i - (w - r)) (s + 1)), (Z.leb_spec i (w - r + s)); try lia; done.
Qed.

(** The bit-field moves with the masks the decoder computed: UBFM extracts
    bits [r..s] (UBFX, LSR) or places bits [0..s] at [w - r] (UBFIZ, LSL) with
    zeros elsewhere, SBFM the same with sign extension (SBFX, ASR, SXTB),
    BFM (BFI, BFXIL) leaves the other bits of the destination alone. *)
Theorem bitfield_spec sf op r s wmask tmask rn rd c :
  cpu_wf c -> reg_num rn -> reg_num rd ->
  0 <= r < datasize sf -> 0 <= s < datasize sf ->
  decode_bit_masks (b2z sf) s r false (datasize sf) = Some (wmask, tmask) ->
  exec_bitfield sf op r s wmask tmask rn rd c =
    set_x rd (bitfield_spec_value (datasize sf) op r s (xr c rn) (xr c rd)) c.
Proof.
  intros Hc Hrn Hrd Hr Hs Hm. rewrite exec_bitfield_value. f_equal.
  pose proof Hm as Hm'. apply decode_bit_masks_bits in Hm' as (Hw & Ht & _);
    [|destruct sf; simpl in *; lia..].
  apply (bits_inj_u (datasize sf)).
  - apply bitfield_value_u64; [| |by apply xr_bound];
      (eapply is_u_weaken; [eassumption|destruct sf; simpl; lia]).
  - by apply bitfield_spec_bound.
  - intros i Hi. rewrite testbit_bitfield by done. by rewrite testbit_bitfield_spec.
Qed.

(** UBFX X1, X0, #8, #8 of 0x...ab00 and the value it leaves in X1. *)
Lemma bitfield_spec_witness :
  exists wmask tmask, decode_bit_masks 1 15 8 false 64 = Some (wmask, tmask) /\
    xr (exec_bitfield true Ubfm 8 15 wmask tmask 0 1 (set_x 0 0x1234ab56 cpu_new)) 1 = 0xab.
Proof.
  exists 0xff000000000000ff, 0xff. split; [vm_compute; reflexivity|].
  rewrite (bitfield_spec true Ubfm 8 15); [vm_compute; reflexivity| |..];
    try (unfold reg_num; simpl; lia); [|vm_compute; reflexivity].
  apply set_x_wf; [apply cpu_new_wf|unfold is_u; lia].
Defined.

(** ** Extraction *)

Lemma exec_extract_value sf lsb rm rn rd c :
  is_u64 (xr c rn) -> is_u64 (xr c rm) -> 0 <= lsb < datasize sf ->
  exec_extract sf lsb rm rn rd c =
    set_x rd (let w := datasize sf in
      ((xr c rn mod 2 ^ w) * 2 ^ w + xr c rm mod 2 ^ w) / 2 ^ lsb mod 2 ^ w) c.
Proof.
  intros Hhi Hlo Hl. unfold exec_extract. cbv zeta.
  set (hi := xr c rn) in *. set (lo := xr c rm) in *. f_equal. destruct sf; cbn [datasize] in *.
  - rewrite (mod_is_u 64 hi), (mod_is_u 64 lo) by done. rewrite <- lor_shiftl_add, <- Z.shiftr_div_pow2 by (done || lia).
    destruct (Z.eqb_spec lsb 0) as [->|].
    + rewrite Z.shiftr_0_r, lor_shiftl_add by (done || lia).
      rewrite Z.add_comm, Z.mod_add by lia. symmetry. by apply mod_is_u.
    + unfold u64. apply Z.bits_inj'. intros i Hi. autorewrite with zbits.
      replace (i - (64 - lsb)) with (i + lsb - 64) by lia.
      destruct (Z.ltb_spec i 64); simpl; [apply orb_comm|].
      by rewrite (testbit_high 64 lo) by (done || lia).
  - rewrite <- lor_shiftl_add, <- Z.shiftr_div_pow2 by (apply is_u_mod || lia; lia).
    unfold u32, u64. rewrite (Z.mod_small (Z.shiftl _ 32)); [done|].
    apply (is_u_shiftl 32); [lia..|]. apply is_u_mod. lia.
Qed.

(** ** Reversals and leading bits *)

Lemma swap_bytes_high n x i : 8 * Z.of_nat n <= i -> Z.testbit (swap_bytes n x) i = false.
Proof.
  revert x. induction n as [|n IH]; intros x Hi; cbn [swap_bytes]; [apply Z.testbit_0_l|].
  rewrite Z.lor_spec, Z.shiftl_spec, IH by lia. rewrite orb_false_r.
  apply Z.mod_pow2_bits_high. lia.
Qed.

Lemma testbit_swap_bytes n x i :
  0 <= i < 8 * Z.of_nat n ->
  Z.testbit (swap_bytes n x) i = Z.testbit x (8 * (Z.of_nat n - 1 - i / 8) + i mod 8).
Proof.
  revert x. induction n as [|n IH]; intros x Hi; [lia|]. cbn [swap_bytes].
  rewrite Z.lor_spec, Z.shiftl_spec by lia.
  pose proof (Z.div_mod i 8 ltac:(lia)). pose proof (Z.mod_pos_bound i 8 ltac:(lia)).
  destruct (Z.lt_ge_cases i (8 * Z.of_nat n)).
  - rewrite IH, Z.shiftr_spec by lia. rewrite (Z.testbit_neg_r _ (i - _)) by lia. cbn [orb].
    f_equal; lia.
  - rewrite swap_bytes_high, orb_false_r, Z.testbit_mod_pow2 by lia.
    replace (i - 8 * Z.of_nat n <? 8) with true by lia. cbn [andb]. f_equal; lia.
Qed.

(** Position of the bit that a reversal moves to position [i]. *)
Definition rev_index (w : Z) (op : Dp1Op) (i : Z) : Z :=
  match op with
  | Rbit => w - 1 - i
  | Rev16 => Z.lxor i 8
  | Rev32 => Z.lxor i 24
  | Rev64 => if w =? 64 then Z.lxor i 56 else Z.lxor i 24
  | _ => i
  end.

(** The low byte of every halfword. *)
Lemma rev16_mask i : 0 <= i < 64 -> Z.testbit 0x00ff00ff00ff00ff i = negb (Z.testbit i 3).
Proof.
  intros Hi. assert (forall_below 64 (fun i =>
    Bool.eqb (Z.testbit 0x00ff00ff00ff00ff i) (negb (Z.testbit i 3))) = true) as H
    by (vm_compute; reflexivity).
  by apply eqb_prop, (forall_below_spec _ _ H i).
Qed.

Lemma lxor_pow2_bit i k : 0 <= k -> 0 <= i ->
  Z.lxor i (2 ^ k) = if Z.testbit i k then i - 2 ^ k else i + 2 ^ k.
Proof.
  intros Hk Hi. destruct (Z.testbit i k) eqn:E.
  - rewrite Z.sub_nocarry_ldiff.
    + zbitwise. rewrite Z.pow2_bits_eqb by lia. destruct (Z.eqb_spec k i0) as [->|]; simpl.
      * by rewrite E. * by rewrite xorb_false_r, andb_true_r.
    + zbitwise. rewrite Z.pow2_bits_eqb by lia. destruct (Z.eqb_spec k i0) as [->|]; simpl; [|done].
      by rewrite E.
  - rewrite Z.add_nocarry_lxor; [done|]. zbitwise. rewrite Z.pow2_bits_eqb by lia.
    destruct (Z.eqb_spec k i0) as [->|]; [by rewrite E|by rewrite andb_false_r].
Qed.

Lemma testbit_rev16 w m x i :
  (w = 32 \/ w = 64) -> (forall j, 0 <= j < w -> Z.testbit m j = negb (Z.testbit j 3)) ->
  is_u w m -> is_u w x -> 0 <= i < w ->
  Z.testbit (Z.lor ((Z.shiftl (Z.land x m) 8) mod 2 ^ w) (Z.land (Z.shiftr x 8) m)) i
  = Z.testbit x (Z.lxor i 8).
Proof.
  intros Hw Hm Hmu Hx Hi. change 8 with (2 ^ 3) at 3. rewrite lxor_pow2_bit by lia.
  rewrite Z.lor_spec, Z.testbit_mod_pow2, Z.shiftl_spec, !Z.land_spec, Z.shiftr_spec by lia.
  replace (i <? w) with true by lia. cbn [andb]. rewrite (Hm i) by lia.
  destruct (Z.lt_ge_cases i 8).
  - rewrite !(Z.testbit_neg_r _ (i - 8)) by lia. cbn [orb andb].
    replace (Z.testbit i 3) with false; [by rewrite andb_true_r|].
    symmetry. apply (testbit_high 3); unfold is_u; lia.
  - rewrite (Hm (i - 8)) by lia.
    assert (Z.testbit (i - 8) 3 = negb (Z.testbit i 3)) as ->.
    { rewrite !Z.testbit_eqb by lia. change (2 ^ 3) with 8.
      replace ((i - 8) / 8) with (i / 8 - 1)
        by (pose proof (Z.div_add i (-1) 8 ltac:(lia)); replace (i - 8) with (i + -1 * 8) by lia; lia).
      pose proof (Z.div_mod (i / 8) 2 ltac:(lia)). pose proof (Z.mod_pos_bound (i / 8) 2 ltac:(lia)).
      pose proof (Z.div_mod (i / 8 - 1) 2 ltac:(lia)).
      pose proof (Z.mod_pos_bound (i / 8 - 1) 2 ltac:(lia)). lia. }
    destruct (Z.testbit i 3); cbn [negb].
    + by rewrite andb_true_r, andb_false_r, orb_false_r.
    + by rewrite andb_true_r, andb_false_r.
Qed.

Lemma byte_index_lxor n i :
  (n = 4%nat \/ n = 8%nat) -> 0 <= i < 8 * Z.of_nat n ->
  8 * (Z.of_nat n - 1 - i / 8) + i mod 8 = Z.lxor i (8 * (Z.of_nat n - 1)).
Proof.
  intros Hn Hi.
  assert (forall_below 64 (fun i => 8 * (7 - i / 8) + i mod 8 =? Z.lxor i 56) = true) as H8
    by (vm_compute; reflexivity).
  assert (forall_below 32 (fun i => 8 * (3 - i / 8) + i mod 8 =? Z.lxor i 24) = true) as H4
    by (vm_compute; reflexivity).
  destruct Hn as [-> | ->]; apply Z.eqb_eq.
  - by apply (forall_below_spec _ _ H4 i).
  - by apply (forall_below_spec _ _ H8 i).
Qed.

Lemma testbit_rev32 x i :
  is_u64 x -> 0 <= i < 64 ->
  Z.testbit (dp1_64 Rev32 x) i = Z.testbit x (Z.lxor i 24).
Proof.
  intros Hx Hi. cbn [dp1_64]. unfold u32, u64.
  rewrite Z.lor_spec, Z.testbit_mod_pow2, Z.shiftl_spec by lia.
  replace (i <? 64) with true by lia. cbn [andb].
  assert (forall_below 64 (fun i => (if i <? 32 then 8 * (3 - i / 8) + i mod 8
    else 32 + (8 * (3 - (i - 32) / 8) + (i - 32) mod 8)) =? Z.lxor i 24) = true) as H
    by (vm_compute; reflexivity).
  pose proof (forall_below_spec _ _ H i Hi) as Hx'. cbv beta in Hx'. apply Z.eqb_eq in Hx'.
  rewrite <- Hx'. destruct (Z.ltb_spec i 32).
  - rewrite (Z.testbit_neg_r _ (i - 32)) by lia. cbn [orb].
    rewrite testbit_swap_bytes by (simpl; lia). change (Z.of_nat 4 - 1) with 3.
    rewrite Z.testbit_mod_pow2 by lia.
    replace (_ <? 32) with true; [done|]. symmetry. apply Z.ltb_lt.
    pose proof (Z.mod_pos_bound i 8 ltac:(lia)). pose proof (Z.div_pos i 8 ltac:(lia) ltac:(lia)). lia.
  - rewrite (swap_bytes_high 4 (x mod 2 ^ 32)) by (simpl; lia). rewrite orb_false_r.
    rewrite testbit_swap_bytes by (simpl; lia). change (Z.of_nat 4 - 1) with 3.
    pose proof (Z.mod_pos_bound (i - 32) 8 ltac:(lia)).
    pose proof (Z.div_pos (i - 32) 8 ltac:(lia) ltac:(lia)).
    pose proof (Z.div_lt_upper_bound (i - 32) 8 4 ltac:(lia) ltac:(lia)).
    rewrite Z.testbit_mod_pow2, Z.shiftr_spec by lia.
    replace (_ <? 32) with true by lia. cbn [andb]. f_equal; lia.
Qed.

(** The result of the one-source instructions on the width of [sf]. *)
Definition dp1_value (sf : bool) (op : Dp1Op) (x : Z) : Z :=
  if sf then dp1_64 op x else dp1_32 op (u32 x).

(** RBIT, REV16, REV32 and REV64 permute the bits of the register: bit [i]
    of the result is the bit at the mirrored position (RBIT), or at the
    position with the byte number complemented within its halfword, word or
    doubleword. *)
Theorem reversals_spec sf op x i :
  is_u64 x -> 0 <= i < datasize sf -> op <> Clz -> op <> Cls ->
  Z.testbit (dp1_value sf op x) i = Z.testbit x (rev_index (datasize sf) op i).
Proof.
  intros Hx Hi H1 H2. unfold dp1_value. destruct sf; cbn [datasize] in *.
  - destruct op; try done.
    + cbn [dp1_64]. by rewrite (testbit_reverse_bits 64).
    + apply (testbit_rev16 64); auto; [by apply rev16_mask|unfold is_u; lia].
    + by apply testbit_rev32.
    + cbn [dp1_64 rev_index]. rewrite testbit_swap_bytes by (simpl; lia).
      rewrite byte_index_lxor by (auto || (simpl; lia)). done.
  - assert (is_u 32 (u32 x)) as Hu by apply is_u_u32.
    assert (forall j, 0 <= j < 32 -> Z.testbit (u32 x) j = Z.testbit x j) as Hb.
    { intros j Hj. apply Z.mod_pow2_bits_low. lia. }
    assert (0 <= Z.lxor i 24 < 32) as H24 by (apply (is_u_lxor 5); unfold is_u; lia).
    assert (0 <= Z.lxor i 8 < 32) as H8 by (apply (is_u_lxor 5); unfold is_u; lia).
    destruct op; try done; cbn [dp1_32 rev_index].
    + rewrite (testbit_reverse_bits 32) by (simpl; lia). change (Z.of_nat 32) with 32.
      apply Hb. lia.
    + rewrite <- (Hb (Z.lxor i 8)) by done. unfold u32 at 1.
      apply (testbit_rev16 32); auto; [|unfold is_u; lia].
      intros j Hj. rewrite <- rev16_mask by lia.
      change 0x00ff00ff with (0x00ff00ff00ff00ff mod 2 ^ 32). apply Z.mod_pow2_bits_low. lia.
    + rewrite testbit_swap_bytes by (simpl; lia).
      rewrite byte_index_lxor by (auto || (simpl; lia)). by apply Hb.
    + rewrite testbit_swap_bytes by (simpl; lia).
      rewrite byte_index_lxor by (auto || (simpl; lia)). by apply Hb.
Qed.

(** REV W of 0x11223344: bit 0 of the result is bit 24 of the source. *)
Lemma reversals_spec_witness : Z.testbit (dp1_value false Rev32 0x11223344) 0 = true.
Proof.
  rewrite (reversals_spec false Rev32 0x11223344 0);
    [vm_compute; reflexivity|unfold is_u; lia|simpl; lia|discriminate|discriminate].
Defined.

Lemma leading_zeros_spec w x :
  0 < w -> is_u w x ->
  let k := leading_zeros w x in
  0 <= k <= w /\ (forall i, w - k <= i < w -> Z.testbit x i = false) /\
  (k < w -> Z.testbit x (w - 1 - k) = true).
Proof.
  intros Hw Hx k. unfold k, leading_zeros. destruct (Z.eqb_spec x 0) as [->|Hne].
  { split; [lia|]. split; [intros; apply Z.testbit_0_l|lia]. }
  destruct Hx as [Hl Hu]. assert (0 < x) by lia.
  pose proof (Z.log2_nonneg x). apply Z.log2_lt_pow2 in Hu; [|done].
  split; [lia|]. split.
  - intros i Hi. apply Z.bits_above_log2; lia.
  - intros _. replace (w - 1 - (w - 1 - Z.log2 x)) with (Z.log2 x) by lia. by apply Z.bit_log2.
Qed.

(** The bits CLS counts: positions whose bit differs from the one above. *)
Lemma cls_bits w x i :
  1 <= w -> is_u w x -> 0 <= i ->
  Z.testbit (Z.land (Z.lxor x (Z.shiftr x 1)) (Z.ones (w - 1))) i =
    (i <? w - 1) && xorb (Z.testbit x i) (Z.testbit x (i + 1)).
Proof.
  intros Hw Hx Hi. rewrite Z.land_spec, Z.lxor_spec, Z.shiftr_spec by lia.
  rewrite Z.testbit_ones_nonneg by lia. by rewrite andb_comm.
Qed.

Lemma cls_value_spec w x :
  1 <= w -> is_u w x ->
  let k := leading_zeros w (Z.land (Z.lxor x (Z.shiftr x 1)) (Z.ones (w - 1))) - 1 in
  0 <= k < w /\
  (forall i, w - 1 - k <= i < w -> Z.testbit x i = Z.testbit x (w - 1)) /\
  (k < w - 1 -> Z.testbit x (w - 2 - k) <> Z.testbit x (w - 1)).
Proof.
  intros Hw Hx k. set (y := Z.land _ _) in *.
  assert (is_u (w - 1) y) as Hy.
  { apply is_u_land_r; [lia| |].
    - apply Z.lxor_nonneg. rewrite Z.shiftr_nonneg. done.
    - unfold is_u. rewrite Z.ones_equiv. lia. }
  destruct (leading_zeros_spec w y) as (Hk & Hz & Hs); [lia|apply (is_u_weaken (w - 1)); [done|lia]|].
  fold k in Hk, Hz, Hs. replace (leading_zeros w y) with (k + 1) in * by (unfold k; lia).
  assert (0 <= k) as Hk0.
  { destruct (Z.lt_ge_cases k 0); [|done]. exfalso.
    assert (k = -1) as -> by lia. specialize (Hs ltac:(lia)).
    replace (w - 1 - (-1 + 1)) with (w - 1) in Hs by lia.
    by rewrite (testbit_high (w - 1) y) in Hs. }
  split; [lia|].
  assert (forall d, (Z.of_nat d <= k) -> Z.testbit x (w - 1 - Z.of_nat d) = Z.testbit x (w - 1)) as Hrun.
  { induction d as [|d IH]; intros Hd; [by rewrite Z.sub_0_r|].
    rewrite <- IH by lia. specialize (Hz (w - 1 - Z.of_nat (S d)) ltac:(lia)).
    unfold y in Hz. rewrite cls_bits in Hz by (done || lia).
    rewrite (proj2 (Z.ltb_lt _ _)) in Hz by lia. cbn [andb] in Hz. apply xorb_eq in Hz.
    rewrite Hz. f_equal; lia. }
  split.
  - intros i Hi. rewrite <- (Hrun (Z.to_nat (w - 1 - i))) by lia. f_equal; lia.
  - intros Hlt. specialize (Hs ltac:(lia)). unfold y in Hs.
    rewrite cls_bits in Hs by (done || lia). apply andb_true_iff in Hs as [_ Hs].
    replace (w - 1 - (k + 1)) with (w - 2 - k) in Hs by lia.
    rewrite <- (Hrun (Z.to_nat k)) by lia. rewrite Z2Nat.id by lia.
    replace (w - 2 - k + 1) with (w - 1 - k) in Hs by lia.
    intros Heq. by rewrite Heq, xorb_nilpotent in Hs.
Qed.

(** CLZ counts the zeros above the highest set bit, and CLS the bits below
    the sign bit equal to it, on 32 and 64 bits. *)
Theorem leading_bits_spec sf x :
  is_u64 x ->
  let w := datasize sf in
  let clz := dp1_value sf Clz x in
  let cls := dp1_value sf Cls x in
  (0 <= clz <= w /\ (forall i, w - clz <= i < w -> Z.testbit x i = false) /\
   (clz < w -> Z.testbit x (w - 1 - clz) = true)) /\
  (0 <= cls < w /\ (forall i, w - 1 - cls <= i < w -> Z.testbit x i = Z.testbit x (w - 1)) /\
   (cls < w - 1 -> Z.testbit x (w - 2 - cls) <> Z.testbit x (w - 1))).
Proof.
  intros Hx. unfold dp1_value. destruct sf; cbn [datasize dp1_64 dp1_32]; cbv zeta.
  - split; [by apply leading_zeros_spec|]. change (Z.shiftr U64_MAX 1) with (Z.ones (64 - 1)).
    by apply cls_value_spec.
  - assert (is_u 32 (u32 x)) as Hu by apply is_u_u32.
    assert (forall j, 0 <= j < 32 -> Z.testbit (u32 x) j = Z.testbit x j) as Hb.
    { intros j Hj. apply Z.mod_pow2_bits_low. lia. }
    change (Z.shiftr 0xffffffff 1) with (Z.ones (32 - 1)).
    destruct (leading_zeros_spec 32 (u32 x)) as (H1 & H2 & H3); [done..|].
    destruct (cls_value_spec 32 (u32 x)) as (H4 & H5 & H6); [done..|].
    set (clz := leading_zeros 32 (u32 x)) in *. set (cls := leading_zeros 32 _ - 1) in *.
    split; (split; [done|]); split; intros *.
    + intros Hi. rewrite <- Hb by lia. by apply H2.
    + intros Hi. rewrite <- Hb by lia. by apply H3.
    + intros Hi. rewrite <- !Hb by lia. by apply H5.
    + intros Hi. rewrite <- !Hb by lia. by apply H6.
Qed.

(** CLZ W of 0x0000ffff is 16. *)
Lemma leading_bits_spec_witness :
  Z.testbit 0xffff (32 - 1 - dp1_value false Clz 0xffff) = true.
Proof.
  apply (leading_bits_spec false 0xffff); [unfold is_u; lia|vm_compute; reflexivity].
Defined.

(** ** Division and multiplication *)

Lemma trunc_mod_eq x y sf :
  is_u64 x -> is_u64 y -> x mod 2 ^ datasize sf = y mod 2 ^ datasize sf -> trunc x sf = trunc y sf.
Proof. intros. by rewrite !trunc_mod. Qed.

Lemma trunc_mod_u64 x sf : trunc (u64 x) sf = x mod 2 ^ datasize sf.
Proof. rewrite trunc_mod by apply is_u_u64. apply u64_mod_datasize. Qed.

(** UDIV is unsigned division, SDIV truncates towards zero and wraps on
    INT_MIN / -1; dividing by zero gives zero. *)
Theorem division_spec sf x y rm :
  is_u64 x -> is_u64 y ->
  let w := datasize sf in
  let a := trunc x sf in
  let b := trunc y sf in
  trunc (dp2 Udiv a b rm sf) sf = (if b =? 0 then 0 else a / b) /\
  trunc (dp2 Sdiv a b rm sf) sf =
    (if b =? 0 then 0 else Z.quot (signed w a) (signed w b) mod 2 ^ w).
Proof.
  intros Hx Hy w a b. pose proof (trunc_bound x sf Hx) as Ha. pose proof (trunc_bound y sf Hy) as Hb.
  fold w a in Ha. fold w b in Hb.
  assert (w = 32 \/ w = 64) as Hw by apply datasize_range.
  assert (is_u64 0) as H0 by (unfold is_u; lia).
  assert (trunc 0 sf = 0) as Ht0 by (by destruct sf).
  cbn [dp2]. fold w. rewrite !sext_spec by lia. split.
  - destruct (Z.eqb_spec b 0); [done|]. unfold is_u in Ha, Hb.
    assert (is_u w (a / b)) as Hq.
    { split; [apply Z.div_pos; lia|].
      apply Z.le_lt_trans with a; [|lia]. apply Z.div_le_upper_bound; [lia|nia]. }
    rewrite trunc_mod by (eapply is_u_weaken; [exact Hq|lia]). by apply mod_is_u.
  - assert ((signed w b =? 0) = (b =? 0)) as ->.
    { destruct (Z.eqb_spec b 0) as [->|Hne].
      - by rewrite signed_small by lia.
      - apply Z.eqb_neq. intros Hs. apply Hne. apply (signed_inj w); [lia|done|unfold is_u; lia|].
        rewrite Hs. symmetry. apply signed_small; lia. }
    destruct (b =? 0); [done|]. unfold sdiv. by rewrite trunc_mod_u64.
Qed.

(** INT_MIN / -1 on 32 bits wraps to INT_MIN. *)
Lemma division_spec_witness :
  trunc (dp2 Sdiv (trunc 0x80000000 false) (trunc 0xffffffff false) 0 false) false = 0x80000000.
Proof.
  destruct (division_spec false 0x80000000 0xffffffff 0) as [_ ->];
    [unfold is_u; lia|unfold is_u; lia|vm_compute; reflexivity].
Defined.

Lemma signed32_sx v : (u64 (signed 32 (u32 v))) mod 2 ^ 64 = (signed 32 v) mod 2 ^ 64.
Proof.
  unfold u64. rewrite Z.mod_mod by lia. unfold signed, u32. by rewrite Z.mod_mod by lia.
Qed.

(** The three-source instructions compute [a +/- n * m] modulo the width,
    with the 32-bit operands of the long forms sign- or zero-extended first,
    and the high half of the signed or unsigned 128-bit product. *)
Theorem multiply_spec sf op a m n :
  is_u64 a -> is_u64 m -> is_u64 n -> (sf = true \/ op = Madd \/ op = Msub) ->
  trunc (dp3 op a m n) sf =
    match op with
    | Madd => a + n * m
    | Msub => a - n * m
    | Smaddl => a + signed 32 n * signed 32 m
    | Smsubl => a - signed 32 n * signed 32 m
    | Umaddl => a + (n mod 2 ^ 32) * (m mod 2 ^ 32)
    | Umsubl => a - (n mod 2 ^ 32) * (m mod 2 ^ 32)
    | Smulh => signed 64 n * signed 64 m / 2 ^ 64
    | Umulh => n * m / 2 ^ 64
    end mod 2 ^ datasize sf.
Proof.
  intros Ha Hm Hn Hop. assert (0 < datasize sf <= 64) as Hw by (destruct sf; simpl; lia).
  assert (forall p q, p mod 2 ^ 64 = q mod 2 ^ 64 ->
    (a + p) mod 2 ^ datasize sf = (a + q) mod 2 ^ datasize sf /\
    (a - p) mod 2 ^ datasize sf = (a - q) mod 2 ^ datasize sf) as Hlow.
  { intros p q Hpq. assert (p mod 2 ^ datasize sf = q mod 2 ^ datasize sf) as Hpq'.
    { rewrite <- (pow_mod_mod p 64), <- (pow_mod_mod q 64) by lia. by rewrite Hpq. }
    split; [rewrite Z.add_mod, Hpq', <- Z.add_mod by lia; done|].
    rewrite Zminus_mod, Hpq', <- Zminus_mod. done. }
  assert (forall p q p' q', p mod 2 ^ 64 = p' mod 2 ^ 64 -> q mod 2 ^ 64 = q' mod 2 ^ 64 ->
    (u64 (p * q)) mod 2 ^ 64 = (p' * q') mod 2 ^ 64) as Hmul.
  { intros p q p' q' Hp Hq. unfold u64. rewrite Z.mod_mod, Z.mul_mod, Hp, Hq, <- Z.mul_mod by lia.
    done. }
  destruct op; cbn [dp3]; rewrite trunc_mod_u64.
  1,2: by apply Hlow, Hmul.
  1,2: by apply Hlow, Hmul; apply signed32_sx.
  1,2: by apply Hlow, Hmul.
  all: by rewrite Z.shiftr_div_pow2 by lia.
Qed.

(** SMULH of -1 and 1. *)
Lemma multiply_spec_witness : trunc (dp3 Smulh 0 0xffffffffffffffff 1) true = 0xffffffffffffffff.
Proof.
  rewrite (multiply_spec true Smulh 0 0xffffffffffffffff 1);
    [vm_compute; reflexivity|unfold is_u; lia..|by left].
Defined.

(** EXTR on 32 or 64 bits is the double-width value Rn:Rm shifted right. *)
Theorem extract_spec sf lsb rm rn rd c :
  cpu_wf c -> reg_num rm -> reg_num rn -> 0 <= lsb < datasize sf ->
  exec_extract sf lsb rm rn rd c =
    set_x rd (let w := datasize sf in
      ((xr c rn mod 2 ^ w) * 2 ^ w + xr c rm mod 2 ^ w) / 2 ^ lsb mod 2 ^ w) c.
Proof. intros. apply exec_extract_value; [by apply xr_bound..|done]. Qed.

(** ROR X2, X0, #4 as EXTR X2, X0, X0, #4. *)
Lemma extract_spec_witness :
  xr (exec_extract true 4 0 0 2 (set_x 0 0x123 cpu_new)) 2 = 0x3000000000000012.
Proof.
  rewrite (extract_spec true 4 0 0 2); [vm_compute; reflexivity|..];
    try (unfold reg_num; simpl; lia).
  apply set_x_wf; [apply cpu_new_wf|unfold is_u; lia].
Defined.

(** ** CRC-32 *)

Lemma fold_left_seqZ_split {A} (f : A -> Z -> A) a n m :
  0 <= n -> 0 <= m ->
  fold_left f (seqZ 0 (n + m)) a =
  fold_left (fun x i => f x (n + i)) (seqZ 0 m) (fold_left f (seqZ 0 n) a).
Proof.
  intros Hn Hm. rewrite seqZ_app, fold_left_app by done.
  generalize (fold_left f (seqZ 0 n) a). intros b.
  pose proof (fmap_add_seqZ n 0 m) as H. rewrite Z.add_0_r in H. rewrite Z.add_0_l, <- H.
  generalize (seqZ 0 m). intros l. revert b. induction l as [|x l IH]; intros b; [done|].
  simpl. apply IH.
Qed.

(** The CRC of a wide operand is the CRC of its low part followed by the CRC
    of the rest, so CRC32X is two CRC32W, CRC32H two CRC32B and so on. *)
Theorem crc32_split acc data n m c :
  0 <= n -> 0 <= m ->
  crc32 acc data (n + m) c = crc32 (crc32 acc data n c) (Z.shiftr data (8 * n)) m c.
Proof.
  intros Hn Hm. unfold crc32. rewrite fold_left_seqZ_split by done.
  set (poly := if c then _ else _). generalize (fold_left (fun crc i => crc32_byte poly crc
    (u8 (Z.shiftr data (8 * i)))) (seqZ 0 n) acc). intros crc.
  assert (Forall (Z.le 0) (seqZ 0 m)) as Hl.
  { apply Forall_forall. intros x Hx. apply elem_of_seqZ in Hx. lia. }
  revert crc. induction Hl as [|i l Hi Hl IH]; intros crc; [done|]. simpl. rewrite IH.
  do 3 f_equal. rewrite Z.shiftr_shiftr by lia. do 2 f_equal. lia.
Qed.

(** CRC32CX of eight bytes in two words. *)
Lemma crc32_split_witness :
  crc32 0xffffffff 0x0123456789abcdef 8 true
  = crc32 (crc32 0xffffffff 0x0123456789abcdef 4 true) (Z.shiftr 0x0123456789abcdef 32) 4 true.
Proof. apply (crc32_split 0xffffffff 0x0123456789abcdef 4 4 true); lia. Defined.
