(* ===== verification/ExecWf.v ===== *)
(** * The interpreter keeps the machine well formed (theorems about [execute]
    and [step])

    [safe m R]: from a well-formed CPU and memory, [m] ends in a well-formed
    CPU and memory whether it succeeds or raises, never panics, and returns a
    value in [R] when it succeeds.  One lemma per operation of Exec, composed
    as the code composes them. *)

From Stdlib Require Import ZArith Lia Bool.
From stdpp Require Import base list numbers strings.
From S2P Require Import Prelude Bits SysReg State Decode DecodeWf Memory Vreg Exec Alu.
Local Open Scope Z_scope.
Local Open Scope vetro_scope.

Ltac vauto := auto 12 with vetro.

(** ** Data processing keeps registers in range *)

Lemma add_with_carry_u64 x y carry sf :
  is_u64 x -> is_u64 y -> is_u64 (add_with_carry x y carry sf).1.
Proof.
  intros. rewrite add_with_carry_eq by done. unfold add_spec. cbn [fst].
  apply (is_u_weaken (datasize sf)); [apply is_u_mod|]; destruct sf; simpl; lia.
Qed.

Lemma set_nzcv_wf' f c : cpu_wf c -> cpu_wf (set_nzcv f c).
Proof. destruct f as [[[??]?]?]. apply set_flags_wf. Qed.

Lemma logic_u64 op x y : is_u64 x -> is_u64 y -> is_u64 (logic op x y).
Proof.
  intros Hx Hy. destruct op; cbn [logic];
    first [by apply is_u_lor | by apply is_u_lxor | apply is_u_land; [lia|done|apply Hy]].
Qed.

Lemma set_logic_flags_wf r sf c : cpu_wf c -> cpu_wf (set_logic_flags r sf c).
Proof. intros. unfold set_logic_flags. by apply set_flags_wf. Qed.

Lemma add_sub_wf x y sub setflags sf c :
  cpu_wf c -> is_u64 x -> is_u64 y ->
  is_u64 (add_sub x y sub setflags sf c).1 /\ cpu_wf (add_sub x y sub setflags sf c).2.
Proof.
  intros Hc Hx Hy. unfold add_sub.
  assert (forall y carry, is_u64 y ->
    let p := (let '(r, f) := add_with_carry x y carry sf in
              (r, if setflags then set_nzcv f c else c)) in
    is_u64 p.1 /\ cpu_wf p.2) as Hg.
  { intros y' carry Hy'. pose proof (add_with_carry_u64 x y' carry sf Hx Hy').
    destruct (add_with_carry x y' carry sf) as [r f]. cbn [fst snd] in *.
    split; [done|]. destruct setflags; [by apply set_nzcv_wf'|done]. }
  destruct sub; apply Hg; [apply is_u_u64|done].
Qed.

(** Registers named by a decoded instruction are register numbers. *)
Lemma reg5_num n : reg5 n -> reg_num n.
Proof. unfold reg5, reg_num. lia. Qed.

#[local] Hint Resolve reg5_num is_u_u64 trunc_u64 logic_u64 set_nzcv_wf' set_logic_flags_wf
  add_with_carry_u64 shift_reg_u64 set_x_wf set_xsp_wf xr_bound xsp_bound : vetro.

Lemma exec_add_sub_imm_wf sf sub setflags imm rn rd c :
  cpu_wf c -> is_u 24 imm -> reg5 rn -> cpu_wf (exec_add_sub_imm sf sub setflags imm rn rd c).
Proof.
  intros Hc Hi Hrn. unfold exec_add_sub_imm.
  assert (is_u64 imm) by (eapply is_u_weaken; [exact Hi|lia]).
  assert (is_u64 (xsp c rn)) by vauto.
  destruct sub; cbv zeta beta iota;
    match goal with |- context [add_with_carry ?x ?y ?k ?s] =>
      pose proof (add_with_carry_u64 x y k s) as Hr; destruct (add_with_carry x y k s) as [r f] end;
    cbn [fst] in Hr; destruct setflags; vauto.
Qed.

Lemma exec_logical_imm_wf sf op imm rn rd c :
  cpu_wf c -> is_u64 imm -> reg5 rn -> cpu_wf (exec_logical_imm sf op imm rn rd c).
Proof.
  intros Hc Hi Hrn. unfold exec_logical_imm. destruct (bool_decide _); vauto.
Qed.

Lemma move_value_u64 op shift imm16 v :
  is_u64 v ->
  is_u64 (let imm := u64 (Z.shiftl imm16 shift) in
    match op with
    | Movz => imm
    | Movn => u64 (Z.lnot imm)
    | Movk => Z.lor (Z.land v (u64 (Z.lnot (u64 (Z.shiftl 0xffff shift))))) imm
    end).
Proof.
  intros Hv. destruct op; cbv zeta; vauto.
  apply is_u_lor; [lia| |vauto]. apply is_u_land; [lia|done|].
  apply (is_u_u64 (Z.lnot _)).
Qed.

Lemma exec_move_wide_wf sf op shift imm16 rd c :
  cpu_wf c -> reg5 rd -> cpu_wf (exec_move_wide sf op shift imm16 rd c).
Proof.
  intros Hc Hrd. unfold exec_move_wide. apply set_x_wf; [done|]. apply trunc_u64.
  apply move_value_u64. vauto.
Qed.

Lemma exec_bitfield_wf sf op r s wmask tmask rn rd c :
  cpu_wf c -> is_u (datasize sf) wmask -> is_u (datasize sf) tmask -> reg5 rn -> reg5 rd ->
  cpu_wf (exec_bitfield sf op r s wmask tmask rn rd c).
Proof.
  intros Hc Hw Ht Hrn Hrd. rewrite exec_bitfield_value. apply set_x_wf; [done|].
  assert (datasize sf <= 64) by (destruct sf; simpl; lia).
  apply (is_u_weaken (datasize sf)); [|done].
  apply bitfield_value_u64; [by eapply is_u_weaken..|vauto].
Qed.

Lemma exec_extract_wf sf lsb rm rn rd c :
  cpu_wf c -> reg5 rm -> reg5 rn -> 0 <= lsb < datasize sf ->
  cpu_wf (exec_extract sf lsb rm rn rd c).
Proof.
  intros Hc Hrm Hrn Hl. rewrite exec_extract_value by vauto.
  apply set_x_wf; [done|]. cbv zeta.
  apply (is_u_weaken (datasize sf)); [apply is_u_mod|]; destruct sf; simpl; lia.
Qed.

Lemma exec_logical_reg_wf sf op invert shift amount rm rn rd c :
  cpu_wf c -> reg5 rm -> reg5 rn -> 0 <= amount ->
  cpu_wf (exec_logical_reg sf op invert shift amount rm rn rd c).
Proof.
  intros Hc Hrm Hrn Ha. unfold exec_logical_reg. cbv zeta.
  set (y := if invert then _ else _).
  assert (is_u64 y) by (unfold y; destruct invert; vauto).
  apply set_x_wf; [destruct (bool_decide _)|]; vauto.
Qed.

Lemma exec_add_sub_reg_wf sf sub setflags shift amount rm rn rd c :
  cpu_wf c -> reg5 rm -> reg5 rn -> 0 <= amount ->
  cpu_wf (exec_add_sub_reg sf sub setflags shift amount rm rn rd c).
Proof.
  intros Hc Hrm Hrn Ha. unfold exec_add_sub_reg.
  pose proof (add_sub_wf (xr c rn) (shift_reg (xr c rm) shift amount sf) sub setflags sf c) as Hw.
  destruct (add_sub _ _ _ _ _ _) as [r c']. cbn [fst snd] in Hw.
  destruct Hw; vauto.
Qed.

Lemma extend_reg_u64 v extend shift : is_u64 (extend_reg v extend shift).
Proof. unfold extend_reg. apply is_u_u64. Qed.

Lemma exec_add_sub_ext_wf sf sub setflags extend amount rm rn rd c :
  cpu_wf c -> reg5 rn -> cpu_wf (exec_add_sub_ext sf sub setflags extend amount rm rn rd c).
Proof.
  intros Hc Hrn. unfold exec_add_sub_ext. cbv zeta.
  pose proof (add_sub_wf (xsp c rn) (trunc (extend_reg (xr c rm) extend amount) sf) sub setflags
    sf c Hc ltac:(vauto) (trunc_u64 _ _ (extend_reg_u64 _ _ _))) as Hw.
  destruct (add_sub _ _ _ _ _ _) as [r c']. cbn [fst snd] in Hw.
  destruct Hw, setflags; vauto.
Qed.

Lemma exec_add_sub_carry_wf sf sub setflags rm rn rd c :
  cpu_wf c -> reg5 rm -> reg5 rn -> cpu_wf (exec_add_sub_carry sf sub setflags rm rn rd c).
Proof.
  intros Hc Hrm Hrn. unfold exec_add_sub_carry. cbv zeta.
  assert (is_u64 (if sub then u64 (Z.lnot (xr c rm)) else xr c rm)) as Hy
    by (destruct sub; vauto).
  match goal with |- context [add_with_carry ?x ?y ?k ?s] =>
    pose proof (add_with_carry_u64 x y k s) as Hr; destruct (add_with_carry x y k s) as [r f] end.
  cbn [fst] in Hr. destruct setflags; vauto.
Qed.

Lemma nzcv_imm_ok nzcv : 0 <= nzcv < 16 -> nzcv_ok (u32 (Z.shiftl nzcv 28)).
Proof.
  intros Hn. assert (forall_below 16 (fun n => (Z.land (u32 (Z.shiftl n 28)) 0xf0000000
    =? u32 (Z.shiftl n 28)) && (0 <=? u32 (Z.shiftl n 28))) = true) as Hall
    by (vm_compute; reflexivity).
  pose proof (forall_below_spec _ _ Hall nzcv Hn) as Hb. cbv beta in Hb.
  apply andb_true_iff in Hb as [?%Z.eqb_eq ?%Z.leb_le]. by split.
Qed.

Lemma exec_cond_cmp_wf sf sub operand cond nzcv rn c :
  cpu_wf c -> match operand with CcmpReg rm => reg5 rm | CcmpImm i => 0 <= i < 32 end ->
  0 <= nzcv < 16 -> reg5 rn -> cpu_wf (exec_cond_cmp sf sub operand cond nzcv rn c).
Proof.
  intros Hc Ho Hn Hrn. unfold exec_cond_cmp. destruct (condition_holds c cond).
  - apply add_sub_wf; [done|vauto|].
    destruct operand; [vauto|unfold is_u; lia].
  - apply set_nzcv_wf; [done|]. by apply nzcv_imm_ok.
Qed.

Lemma exec_cond_sel_wf sf op cond rm rn rd c :
  cpu_wf c -> reg5 rm -> reg5 rn -> cpu_wf (exec_cond_sel sf op cond rm rn rd c).
Proof.
  intros Hc Hrm Hrn. unfold exec_cond_sel. apply set_x_wf; [done|]. apply trunc_u64.
  destruct (condition_holds c cond); [vauto|]. destruct op; vauto.
Qed.

Lemma swap_bytes_bound n x : is_u (8 * Z.of_nat n) (swap_bytes n x).
Proof.
  apply is_u_bits; [lia| |intros; by apply swap_bytes_high].
  revert x. induction n as [|n IH]; intros x; cbn [swap_bytes]; [lia|].
  apply Z.lor_nonneg. split; [|apply IH]. apply Z.shiftl_nonneg, Z.mod_pos_bound. lia.
Qed.

Lemma leading_zeros_bound w x : 0 < w <= 64 -> is_u w x -> is_u64 (leading_zeros w x).
Proof.
  intros Hw Hx. destruct (leading_zeros_spec w x) as (H & _); [lia|done|].
  cbv zeta in H. unfold is_u. lia.
Qed.

Lemma dp1_value_u64 sf op x : is_u64 x -> is_u64 (dp1_value sf op x).
Proof.
  intros Hx. assert (forall b, is_u 32 b -> is_u64 b) as H32
    by (intros; eapply is_u_weaken; [eassumption|lia]).
  destruct op; unfold dp1_value.
  - destruct sf; [apply (reverse_bits_bound 64)|apply H32, (reverse_bits_bound 32)].
  - destruct sf; cbn [dp1_64 dp1_32]; [|apply H32]; apply is_u_lor; try lia;
      try apply is_u_u64; try apply is_u_u32;
      (apply is_u_land; [lia|apply is_u_shiftr; [lia..|]|lia]); [done|apply is_u_u32].
  - destruct sf; cbn [dp1_64 dp1_32]; [|apply H32, (swap_bytes_bound 4)].
    apply is_u_lor; [lia|apply is_u_u64|apply H32, (swap_bytes_bound 4)].
  - destruct sf; [apply (swap_bytes_bound 8)|apply H32, (swap_bytes_bound 4)].
  - destruct sf; apply leading_zeros_bound; try lia; [done|apply is_u_u32].
  - assert (1 <= datasize sf <= 64) by (destruct sf; simpl; lia).
    assert (0 <= dp1_value sf Cls x < datasize sf) as Hb; cycle 1.
    { unfold dp1_value in Hb. unfold is_u. destruct sf; simpl datasize in *; lia. }
    unfold dp1_value. destruct sf; cbn [dp1_64 dp1_32 datasize].
    + change (Z.shiftr U64_MAX 1) with (Z.ones (64 - 1)). by apply cls_value_spec.
    + change (Z.shiftr 0xffffffff 1) with (Z.ones (32 - 1)).
      apply cls_value_spec; [lia|apply is_u_u32].
Qed.

Lemma crc32_bit_u32 poly crc : is_u32 poly -> is_u32 crc -> is_u32 (crc32_bit poly crc).
Proof.
  intros. unfold crc32_bit. destruct (negb _); [apply is_u_lxor|];
    try apply is_u_shiftr; done || lia.
Qed.

Lemma iter_keeps {A} (P : A -> Prop) f n x :
  (forall y, P y -> P (f y)) -> P x -> P (Nat.iter n f x).
Proof. intros Hf Hx. induction n; simpl; auto. Qed.

Lemma fold_left_keeps {A B} (P : A -> Prop) (f : A -> B -> A) l x :
  (forall y b, P y -> P (f y b)) -> P x -> P (fold_left f l x).
Proof. intros Hf. revert x. induction l; simpl; auto. Qed.

Lemma crc32_u32 acc data bytes c : is_u32 acc -> is_u32 (crc32 acc data bytes c).
Proof.
  intros Ha. unfold crc32. apply fold_left_keeps; [|done]. intros y b Hy.
  unfold crc32_byte. apply iter_keeps.
  - intros z Hz. apply crc32_bit_u32; [|done]. destruct c; unfold is_u; lia.
  - apply is_u_lxor; [lia|done|]. eapply is_u_weaken; [apply is_u_u8|lia].
Qed.

Lemma dp2_u64 op x y m sf : is_u64 x -> is_u64 y -> is_u64 (dp2 op x y m sf).
Proof.
  intros Hx Hy. assert (is_u64 0) by (unfold is_u; lia).
  assert (0 <= y mod datasize sf) by (apply Z.mod_pos_bound; destruct sf; simpl; lia).
  destruct op; cbn [dp2]; try by apply shift_reg_u64.
  - destruct (Z.eqb_spec y 0); [done|]. unfold is_u in *.
    split; [apply Z.div_pos; lia|]. apply Z.div_lt_upper_bound; [lia|nia].
  - destruct (_ =? 0); [done|apply is_u_u64].
  - eapply is_u_weaken; [apply crc32_u32, is_u_u32|lia].
Qed.

Lemma exec_dp2_wf sf op rm rn rd c :
  cpu_wf c -> reg5 rm -> reg5 rn -> cpu_wf (exec_dp2 sf op rm rn rd c).
Proof.
  intros Hc Hrm Hrn. unfold exec_dp2. cbv zeta. apply set_x_wf; [done|].
  apply trunc_u64, dp2_u64; vauto.
Qed.

Lemma dp3_u64 op a m n : is_u64 (dp3 op a m n).
Proof. destruct op; cbn [dp3]; apply is_u_u64. Qed.

Lemma exec_dp3_wf sf op ra rm rn rd c : cpu_wf c -> cpu_wf (exec_dp3 sf op ra rm rn rd c).
Proof. intros Hc. unfold exec_dp3. apply set_x_wf; [done|]. apply trunc_u64, dp3_u64. Qed.

Lemma exec_dp1_wf sf op rn rd c : cpu_wf c -> reg5 rn -> cpu_wf (exec_dp1 sf op rn rd c).
Proof. intros Hc Hrn. apply set_x_wf; [done|]. apply dp1_value_u64. vauto. Qed.

Lemma exec_adr_wf page imm rd c : cpu_wf c -> cpu_wf (exec_adr page imm rd c).
Proof. intros Hc. unfold exec_adr. cbv zeta. vauto. Qed.

Lemma link_x30_wf pc c : cpu_wf c -> cpu_wf (link_x30 pc c).
Proof.
  intros [Hx]. constructor; try done. destruct Hx as [Hlen Hall]. cbn.
  rewrite length_insert. split; [done|]. apply Forall_insert; [done|]. apply is_u_u64.
Qed.

Lemma vget_bound c t : cpu_wf c -> reg5 t -> is_u 128 (vget c t).
Proof.
  intros Hc Ht. destruct (wf_v _ Hc) as [Hlen Hall]. unfold vget, reg5 in *.
  eapply Forall_lookup_total_1; [done|]. rewrite Hlen. lia.
Qed.

Lemma vset_wf t v c : cpu_wf c -> is_u 128 v -> cpu_wf (vset t v c).
Proof.
  intros [? ? ? ? ? ? ? Hv] Hu. constructor; try done. destruct Hv as [Hlen Hall]. cbn.
  rewrite length_insert. split; [done|]. by apply Forall_insert.
Qed.

Lemma extend_load_u64 raw size op :
  0 <= size <= 3 -> is_u64 raw -> is_u64 (extend_load raw size op).
Proof.
  intros Hs Hr. unfold extend_load. destruct op as [|[] dst64|]; try done.
  destruct dst64; [apply is_u_u64|]. eapply is_u_weaken; [apply is_u_u32|lia].
Qed.

Lemma effective_address_u64 addr rn c :
  cpu_wf c -> reg5 rn ->
  is_u64 (effective_address addr rn c).1 /\
  forall v, (effective_address addr rn c).2 = Some v -> is_u64 v.
Proof.
  intros Hc Hrn. unfold effective_address. pose proof (xsp_bound c rn Hc ltac:(vauto)).
  destruct addr as [offset []|]; cbn [fst snd]; (split; [|intros ? [=]; subst]);
    try done; apply is_u_u64.
Qed.

(** ** Safety *)

(** What the executors of the SIMD data-processing classes promise (the doc
    comment of [exec_dp]): on the instructions of their type, those their
    decoder yields, they return, keep the CPU well formed and write only the
    general and vector registers, NZCV, FPCR and FPSR. *)
Definition simd_frame (c c' : Cpu) : Prop :=
  cpu_sp c' = cpu_sp c /\ cpu_pc c' = cpu_pc c /\ cpu_tpidr_el0 c' = cpu_tpidr_el0 c /\
  cpu_tpidrro_el0 c' = cpu_tpidrro_el0 c /\ cpu_monitor c' = cpu_monitor c /\
  cpu_sys c' = cpu_sys c.

Class SimdExecLaws {ST : SimdTypes} {SE : SimdExec} : Prop := {
  exec_int_wf : forall i c, cpu_wf c -> exists c', exec_int i c = Some c' /\ cpu_wf c';
  exec_fp_wf : forall i c, cpu_wf c -> exists c', exec_fp i c = Some c' /\ cpu_wf c';
  exec_crypto_wf : forall i c, cpu_wf c -> exists c', exec_crypto i c = Some c' /\ cpu_wf c';
  exec_int_frame : forall i c c', exec_int i c = Some c' -> simd_frame c c';
  exec_fp_frame : forall i c c', exec_fp i c = Some c' -> simd_frame c c';
  exec_crypto_frame : forall i c c', exec_crypto i c = Some c' -> simd_frame c c';
}.

Section safety.
Context {M : Type} `{MemoryLaws M}.

Definition wf_machine (s : Cpu * M) : Prop := cpu_wf s.1 /\ mem_ok s.2.

(** What an exception carries is in range. *)
Definition exc_ok (e : Exception) : Prop :=
  match e with
  | ExcAlignment addr => is_u64 addr
  | ExcBreakpoint imm => is_u 16 imm
  | _ => True
  end.

Definition raised (st : Stop) : Prop := match st with Raise e => exc_ok e | Panic _ => False end.

Definition safe {A} (R : A -> Prop) (m : machine M A) : Prop :=
  triple wf_machine m (fun a s => wf_machine s /\ R a) (fun e s => wf_machine s /\ raised e).

Lemma safe_ret {A} (R : A -> Prop) a : R a -> safe R (mret a).
Proof. intros Ha. by apply triple_ret. Qed.

Lemma safe_raise {A} (R : A -> Prop) e : exc_ok e -> safe R (raise e).
Proof. intros He. by apply triple_throw. Qed.

Lemma safe_bind {A B} (R1 : A -> Prop) (R2 : B -> Prop) m (k : A -> machine M B) :
  safe R1 m -> (forall a, R1 a -> safe R2 (k a)) -> safe R2 (mbind k m).
Proof.
  intros Hm Hk. eapply triple_bind; [exact Hm|]. intros a s [Hs Ha]. by apply (Hk a Ha).
Qed.

Lemma safe_get {A} (R : A -> Prop) f :
  (forall c, cpu_wf c -> R (f c)) -> safe R (cpu_get f).
Proof. intros Hf. apply triple_gets. intros [c m] [Hc Hm]. split; [done|]. by apply Hf. Qed.

Lemma safe_set (f : Cpu -> Cpu) (R : unit -> Prop) :
  (forall c, cpu_wf c -> cpu_wf (f c)) -> R tt -> safe R (cpu_set f).
Proof.
  intros Hf HR. apply triple_modify. intros [c m] [Hc Hm]. split; [|done]. split; [|done].
  by apply Hf.
Qed.

Lemma safe_weaken {A} (R R' : A -> Prop) m : safe R m -> (forall a, R a -> R' a) -> safe R' m.
Proof. intros Hm HR. eapply triple_weaken; [exact Hm|done| |done]. intros a s [??]. auto. Qed.

Lemma safe_mem_call {A} (R : A -> Prop) (op : prog M MemFault A) :
  (forall m, mem_ok m -> mem_ok (op m).2) ->
  (forall m a m', mem_ok m -> op m = (Ok a, m') -> R a) ->
  safe R (mem_call op).
Proof.
  intros Hk HR [c m] [Hc Hm]. unfold mem_call. cbn [fst snd] in *. specialize (Hk m Hm).
  destruct (op m) as [[a|e] m'] eqn:E; cbn [snd map_err fst] in *; (split; [by split|]).
  - by eapply HR.
  - unfold from_mem_fault. by destruct (fault_access e).
Qed.

Lemma safe_foldM {A B} (R : A -> Prop) (P : B -> Prop) (f : A -> B -> machine M A) acc l :
  (forall a b, R a -> P b -> safe R (f a b)) -> Forall P l -> R acc -> safe R (foldM f acc l).
Proof.
  intros Hf Hl. revert acc. induction Hl as [|b l Hb Hl IH]; intros acc Ha; cbn [foldM].
  - by apply safe_ret.
  - eapply safe_bind; [by apply Hf|]. intros a Ha'. by apply IH.
Qed.

Lemma safe_read_uint addr bytes :
  is_u64 addr -> 0 <= bytes -> safe (is_u (8 * bytes)) (read_uint addr bytes).
Proof.
  intros Ha Hb. unfold read_uint.
  apply (safe_bind (fun l => length l = Z.to_nat bytes /\ bytes_ok l)).
  - apply safe_mem_call; [intros; by apply read_keeps|]. intros m a m' Hm Hr.
    by eapply read_bytes.
  - intros l [Hlen Hl]. apply safe_ret. pose proof (from_le_bound l Hl) as Hu.
    by rewrite Hlen, Z2Nat.id in Hu.
Qed.

Lemma safe_write_uint addr bytes v :
  is_u64 addr -> safe (fun _ => True) (write_uint addr bytes v).
Proof.
  intros Ha. apply safe_mem_call; [|done]. intros m Hm. apply write_keeps; [done|done|]. apply bytes_ok_to_le.
Qed.

Lemma safe_check_aligned addr bytes :
  is_u64 addr -> safe (fun _ => addr mod bytes = 0) (check_aligned addr bytes).
Proof.
  intros Ha. unfold check_aligned. destruct (Z.eqb_spec (addr mod bytes) 0); cbn [negb].
  - by apply safe_ret.
  - by apply safe_raise.
Qed.

Lemma safe_check_sp rn : safe (fun _ => True) (check_sp_alignment (M:=M) rn).
Proof.
  unfold check_sp_alignment. apply (safe_bind (fun _ => True)); [by apply safe_get|].
  intros [] _; [by apply safe_raise|by apply safe_ret].
Qed.

Lemma safe_set_x rt v : is_u64 v -> safe (fun _ => True) (cpu_set (M:=M) (set_x rt v)).
Proof. intros Hv. apply safe_set; [|done]. intros. by apply set_x_wf. Qed.

Lemma safe_set_xsp rt v : is_u64 v -> safe (fun _ => True) (cpu_set (M:=M) (set_xsp rt v)).
Proof. intros Hv. apply safe_set; [|done]. intros. by apply set_xsp_wf. Qed.

Lemma safe_vset rt v : is_u 128 v -> safe (fun _ => True) (cpu_set (M:=M) (vset rt v)).
Proof. intros Hv. apply safe_set; [|done]. intros. by apply vset_wf. Qed.

Lemma safe_xr rt : reg5 rt -> safe is_u64 (cpu_get (M:=M) (fun c => xr c rt)).
Proof. intros. apply safe_get. vauto. Qed.

Lemma safe_xsp rt : reg5 rt -> safe is_u64 (cpu_get (M:=M) (fun c => xsp c rt)).
Proof. intros. apply safe_get. vauto. Qed.

Lemma safe_vget rt : reg5 rt -> safe (is_u 128) (cpu_get (M:=M) (fun c => vget c rt)).
Proof. intros. apply safe_get. intros. by apply vget_bound. Qed.

Lemma safe_pc : safe is_u64 (cpu_get (M:=M) cpu_pc).
Proof. apply safe_get. intros. by apply wf_pc. Qed.

Lemma safe_unit_bind {B} (R : B -> Prop) (m : machine M unit) (k : machine M B) :
  safe (fun _ => True) m -> safe R k -> safe R (m;; k).
Proof. intros Hm Hk. eapply safe_bind; [exact Hm|]. intros _ _. exact Hk. Qed.

Lemma safe_write_back rn wb :
  (forall v, wb = Some v -> is_u64 v) -> safe (fun _ => True) (write_back (M:=M) rn wb).
Proof.
  intros Hwb. destruct wb as [v|]; cbn [write_back]; [|by apply safe_ret].
  apply safe_set_xsp. by apply Hwb.
Qed.

Lemma safe_effective_address addr rn :
  reg5 rn ->
  safe (fun p => is_u64 p.1 /\ forall v, p.2 = Some v -> is_u64 v)
    (cpu_get (M:=M) (effective_address addr rn)).
Proof. intros. apply safe_get. intros. by apply effective_address_u64. Qed.
End safety.

(** Proofs of [safe]: follow the program, solve the accesses by their lemmas. *)
Create HintDb safe.
#[export] Hint Resolve safe_ret safe_raise safe_write_uint safe_check_sp safe_set_x safe_set_xsp
  safe_vset safe_xr safe_xsp safe_vget safe_pc safe_write_back safe_check_aligned : safe.

(** An address is a register or was wrapped. *)
Ltac address :=
  lazymatch goal with
  | |- is_u _ (if ?b then _ else _) => destruct b; address
  | |- _ => first [assumption|apply is_u_u64]
  end.

Ltac safe_step :=
  lazymatch goal with
  | |- safe _ (mret _) => apply safe_ret
  | |- safe _ (raise _) => apply safe_raise
  | |- safe _ (mbind _ (mbind _ _)) => idtac
  | |- safe _ (mbind _ (read_uint _ _)) =>
      eapply safe_bind; [apply safe_read_uint; [address|]|intros ?v ?Hv]
  | |- safe _ (mbind _ (check_sp_alignment _)) =>
      eapply safe_bind; [apply safe_check_sp|intros _ _]
  | |- safe _ (mbind _ (check_aligned _ _)) =>
      eapply safe_bind; [apply safe_check_aligned; address|intros [] ?Ha]
  | |- safe _ (mbind _ (write_uint _ _ _)) =>
      eapply safe_bind; [apply safe_write_uint; address|intros _ _]
  | |- safe _ (write_uint _ _ _) => eapply safe_weaken; [apply safe_write_uint; address|done]
  | |- safe _ (mbind _ (cpu_get (fun c => xr c _))) =>
      eapply safe_bind; [apply safe_xr; assumption|intros ?x ?Hx]
  | |- safe _ (mbind _ (cpu_get (fun c => xsp c _))) =>
      eapply safe_bind; [apply safe_xsp; assumption|intros ?x ?Hx]
  | |- safe _ (mbind _ (cpu_get (fun c => vget c _))) =>
      eapply safe_bind; [apply safe_vget; assumption|intros ?x ?Hx]
  | |- safe _ (mbind _ (cpu_get cpu_pc)) =>
      eapply safe_bind; [apply safe_pc|intros ?pc ?Hpc]
  | |- safe _ (mbind _ (cpu_get (effective_address _ _))) =>
      eapply safe_bind; [apply safe_effective_address; assumption|intros [?a ?wb] [?Ha ?Hwb]]
  | |- safe _ (mbind _ (cpu_set (set_x _ _))) =>
      eapply safe_bind; [apply safe_set_x|intros _ _]
  | |- safe _ (cpu_set (set_x _ _)) => apply safe_set_x
  | |- safe _ (mbind _ (cpu_set (vset _ _))) =>
      eapply safe_bind; [apply safe_vset|intros _ _]
  | |- safe _ (cpu_set (vset _ _)) => apply safe_vset
  | |- safe _ (cpu_set (set_xsp _ _)) => apply safe_set_xsp
  | |- safe _ (write_back _ _) => apply safe_write_back; assumption
  end.

Section execute_safe.
Context {M : Type} `{MemoryLaws M}.

Abbreviation ok := (fun _ => True).

Lemma size_bytes size : 0 <= size <= 4 -> 1 <= Z.shiftl 1 size <= 16.
Proof.
  intros. rewrite Z.shiftl_1_l. change 1 with (2 ^ 0). change 16 with (2 ^ 4).
  split; apply Z.pow_le_mono_r; lia.
Qed.

Lemma size_bytes8 size : 0 <= size <= 3 -> 1 <= Z.shiftl 1 size <= 8.
Proof.
  intros. rewrite Z.shiftl_1_l. change 1 with (2 ^ 0). change 8 with (2 ^ 3).
  split; apply Z.pow_le_mono_r; lia.
Qed.

Lemma u64_of_bytes n v : 0 <= n <= 8 -> is_u (8 * n) v -> is_u64 v.
Proof. intros. eapply is_u_weaken; [eassumption|lia]. Qed.

Lemma exec_ldst_safe size op addr rt rn unpriv :
  0 <= size <= 3 -> reg5 rt -> reg5 rn ->
  safe ok (exec_ldst (M:=M) size op addr rt rn unpriv).
Proof.
  intros Hs Hrt Hrn. pose proof (size_bytes8 size Hs) as Hb. unfold exec_ldst. cbv zeta.
  eapply safe_unit_bind.
  { destruct (bool_decide _); [by apply safe_ret|apply safe_check_sp]. }
  safe_step. eapply safe_unit_bind; [|safe_step]. destruct op.
  - safe_step. destruct unpriv; [|safe_step]. apply safe_mem_call; [|done].
    intros. apply write_unpriv_keeps; [done|done|]. apply bytes_ok_to_le.
  - apply (safe_bind is_u64).
    + destruct unpriv.
      * apply (safe_bind (fun l => length l = Z.to_nat (Z.shiftl 1 size) /\ bytes_ok l)).
        { apply safe_mem_call; [intros; by apply read_unpriv_keeps|].
          intros. by eapply read_unpriv_bytes. }
        intros l [Hlen Hl]. apply safe_ret. apply from_le_bound in Hl. rewrite Hlen in Hl.
        eapply is_u_weaken; [exact Hl|lia].
      * safe_step; [lia|]. apply safe_ret, is_u_u64.
    + intros raw Hr. safe_step. by apply extend_load_u64.
  - by apply safe_ret.
Qed.

Lemma exec_ld_literal_safe size op offset rt :
  2 <= size <= 3 -> safe ok (exec_ld_literal (M:=M) size op offset rt).
Proof.
  intros Hs. unfold exec_ld_literal. pose proof (size_bytes8 size ltac:(lia)).
  destruct (bool_decide _); [by apply safe_ret|]. safe_step. safe_step; [lia|]. safe_step.
  apply extend_load_u64; [lia|apply is_u_u64].
Qed.

Lemma exec_ldst_pair_safe size load signed index offset rt rt2 rn :
  2 <= size <= 3 -> reg5 rt -> reg5 rt2 -> reg5 rn ->
  safe ok (exec_ldst_pair (M:=M) size load signed index offset rt rt2 rn).
Proof.
  intros Hs Hrt Hrt2 Hrn. unfold exec_ldst_pair. pose proof (size_bytes8 size ltac:(lia)).
  safe_step. safe_step. cbv zeta. eapply safe_unit_bind.
  - destruct load.
    + safe_step; [lia|]. safe_step; [lia|].
      safe_step; [apply extend_load_u64; [lia|apply is_u_u64]|].
      safe_step. apply extend_load_u64; [lia|apply is_u_u64].
    + eapply (safe_bind ok); [by apply safe_get|]. intros [a b] _. safe_step. safe_step.
  - destruct (bool_decide _); [by apply safe_ret|]. safe_step. apply is_u_u64.
Qed.

Lemma exec_load_acquire_safe size rt rn :
  0 <= size <= 3 -> reg5 rn -> safe ok (exec_load_acquire (M:=M) size rt rn).
Proof.
  intros Hs Hrn. unfold exec_load_acquire. pose proof (size_bytes8 size Hs).
  safe_step. safe_step. safe_step. safe_step; [lia|]. safe_step. apply is_u_u64.
Qed.

Lemma exec_store_release_safe size rt rn :
  reg5 rt -> reg5 rn -> safe ok (exec_store_release (M:=M) size rt rn).
Proof.
  intros Hrt Hrn. unfold exec_store_release. safe_step. safe_step. safe_step. safe_step.
  safe_step.
Qed.

Lemma safe_monitor m :
  (forall m', m = Some m' -> monitor_ok m') ->
  safe ok (cpu_set (M:=M) (fun c => c <| cpu_monitor := m |>)).
Proof. intros Hm. apply safe_set; [|done]. intros. by apply set_monitor_wf. Qed.

Lemma take_monitor_safe :
  safe (fun o => forall m, o = Some m -> monitor_ok m) (take_monitor (M:=M)).
Proof.
  unfold take_monitor.
  apply (safe_bind (fun o => forall m, o = Some m -> monitor_ok m)).
  { apply safe_get. intros c Hc. by apply wf_monitor. }
  intros o Ho. eapply safe_unit_bind; [by apply safe_monitor|]. by apply safe_ret.
Qed.

Lemma exclusive_total size (paired : bool) :
  0 <= size <= 3 -> (paired = true -> 2 <= size) ->
  1 <= (if paired then Z.shiftl 1 size * 2 else Z.shiftl 1 size) <= 16.
Proof. intros Hs Hp. pose proof (size_bytes8 size Hs). destruct paired; lia. Qed.

Lemma exec_exclusive_safe size load paired rs rt rt2 rn :
  0 <= size <= 3 -> (paired = true -> 2 <= size) -> reg5 rs -> reg5 rt -> reg5 rt2 -> reg5 rn ->
  safe ok (exec_exclusive (M:=M) size load paired rs rt rt2 rn).
Proof.
  intros Hs Hp Hrs Hrt Hrt2 Hrn. pose proof (exclusive_total size paired Hs Hp) as Ht.
  unfold exec_exclusive. cbv zeta. set (total := if paired then _ else _) in *.
  safe_step. safe_step. safe_step. destruct load.
  - safe_step; [lia|]. eapply safe_unit_bind.
    { apply safe_monitor. intros m' [= <-]. split; [done|]. split; [simpl; lia|done]. }
    destruct paired.
    + safe_step; [apply is_u_u64|]. safe_step. apply is_u_u64.
    + safe_step. apply is_u_u64.
  - eapply (safe_bind ok); [by apply safe_get|]. intros new _.
    eapply safe_bind; [apply take_monitor_safe|]. intros mon Hmon.
    apply (safe_bind ok).
    + destruct mon as [m|]; [|by apply safe_ret].
      destruct (_ && _); [|by apply safe_ret].
      apply safe_mem_call; [|done]. intros. apply cmpxchg_keeps; [done|done|apply bytes_ok_to_le..].
    + intros b _. safe_step. by apply is_u_b2z.
Qed.

(** *** Vector registers *)

Lemma post_index_safe rn base post : safe ok (post_index (M:=M) rn base post).
Proof.
  destruct post; cbn [post_index]; [by apply safe_ret|apply safe_set_xsp, is_u_u64|].
  apply (safe_bind ok); [by apply safe_get|]. intros off _. apply safe_set_xsp, is_u_u64.
Qed.

Lemma exec_vreg_safe scale load addr rt rn :
  0 <= scale <= 4 -> reg5 rt -> reg5 rn -> safe ok (exec_vreg (M:=M) scale load addr rt rn).
Proof.
  intros Hs Hrt Hrn. pose proof (size_bytes scale Hs). unfold exec_vreg. safe_step. cbv zeta.
  eapply safe_unit_bind; [|safe_step]. destruct load.
  - safe_step; [lia|]. safe_step. eapply is_u_weaken; [eassumption|lia].
  - safe_step. safe_step.
Qed.

Lemma exec_vpair_safe scale load index offset rt rt2 rn :
  2 <= scale <= 4 -> reg5 rt -> reg5 rt2 -> reg5 rn ->
  safe ok (exec_vpair (M:=M) scale load index offset rt rt2 rn).
Proof.
  intros Hs Hrt Hrt2 Hrn. pose proof (size_bytes scale ltac:(lia)). unfold exec_vpair.
  safe_step. cbv zeta. eapply safe_unit_bind.
  - destruct load.
    + safe_step; [lia|]. safe_step; [lia|].
      safe_step; [eapply is_u_weaken; [eassumption|lia]|].
      safe_step. eapply is_u_weaken; [eassumption|lia].
    + safe_step. safe_step. safe_step. safe_step.
  - destruct (bool_decide _); [by apply safe_ret|]. safe_step. apply is_u_u64.
Qed.

Lemma multi_elem_safe load base dsize esize e st :
  esize_ok esize -> 0 <= e -> (e + 1) * esize <= 128 -> reg5 st.1 ->
  safe (fun st => reg5 st.1) (multi_elem (M:=M) load base dsize esize e st).
Proof.
  intros He He0 Hidx Ht. destruct st as [t offs]. cbn [fst] in Ht. unfold multi_elem. cbv zeta.
  eapply safe_unit_bind; cycle 1.
  { apply safe_ret. cbn [fst]. unfold reg5. apply Z.mod_pos_bound. lia. }
  assert (0 <= esize / 8) by (apply Z.div_pos; unfold esize_ok in He; lia).
  destruct load.
  - safe_step; [lia|]. apply safe_set; [|done]. intros c Hc. apply vset_wf; [done|].
    apply set_elem_bound; try done. apply clip_bound. by apply vget_bound.
  - apply (safe_bind ok); [by apply safe_get|]. intros x _. safe_step.
Qed.

Lemma seqZ_range n : Forall (fun i => 0 <= i < n) (seqZ 0 n).
Proof. apply Forall_forall. intros x Hx. apply elem_of_seqZ in Hx. lia. Qed.

Lemma exec_multi_safe load q rpt selem esize rt rn post :
  esize_ok esize -> reg5 rn -> safe ok (exec_multi (M:=M) load q rpt selem esize rt rn post).
Proof.
  intros He Hrn. unfold exec_multi. cbv zeta. safe_step.
  eapply (safe_bind ok); [|intros; apply post_index_safe].
  eapply (safe_foldM ok ok); [|by apply Forall_true|done]. intros offs r _ _.
  eapply safe_foldM; [|apply seqZ_range|done]. cbv beta. intros o e _ Hidx.
  apply (safe_bind (fun st => reg5 st.1)).
  - eapply (safe_foldM _ ok); [|by apply Forall_true|].
    + intros st _ Hst _. apply multi_elem_safe; try done; try lia.
      destruct Hidx as [Hlo Hhi].
      assert ((if q then 128 else 64) <= 128) by (destruct q; lia).
      assert (0 < esize) by (unfold esize_ok in He; lia).
      pose proof (Z.mul_div_le (if q then 128 else 64) esize ltac:(lia)). nia.
    + cbn [fst]. unfold reg5. apply Z.mod_pos_bound. lia.
  - intros [t o'] _. by apply safe_ret.
Qed.

Lemma replicate_elem_bound dsize esize x :
  esize_ok esize -> dsize <= 128 -> is_u 128 (replicate_elem dsize esize x).
Proof.
  intros He Hd. unfold replicate_elem.
  pose proof (seqZ_range (dsize / esize)) as Hr.
  assert (is_u 128 0) as Hzero by (unfold is_u; lia).
  assert (0 < esize) by (unfold esize_ok in He; lia).
  pose proof (Z.mul_div_le dsize esize ltac:(lia)).
  generalize dependent (seqZ 0 (dsize / esize)). intros l Hr. revert Hzero. generalize 0.
  induction Hr as [|e l Hb Hl IH]; intros v Hv; [done|].
  simpl. apply IH. apply set_elem_bound; [done|done|lia|nia].
Qed.

Lemma single_elem_safe load q scale index repl base st :
  0 <= scale <= 3 -> 0 <= index -> (index + 1) * 2 ^ scale <= 16 -> reg5 st.1 ->
  safe (fun st => reg5 st.1) (single_elem (M:=M) load q scale index repl base st).
Proof.
  intros Hs Hi Hidx Ht. destruct st as [t offs]. cbn [fst] in Ht. unfold single_elem. cbv zeta.
  pose proof (size_bytes8 scale Hs).
  pose proof (esize_wf scale ltac:(lia)) as He. fold (esize_ok (Z.shiftl 8 scale)) in He.
  eapply safe_unit_bind; cycle 1.
  { apply safe_ret. cbn [fst]. unfold reg5. apply Z.mod_pos_bound. lia. }
  destruct repl; [|destruct load].
  - safe_step; [lia|]. safe_step. apply replicate_elem_bound; [done|destruct q; lia].
  - safe_step; [lia|]. apply safe_set; [|done]. intros c Hc. apply vset_wf; [done|].
    apply set_elem_bound; [done|by apply vget_bound|done|].
    rewrite Z.shiftl_mul_pow2 by lia. lia.
  - apply (safe_bind ok); [by apply safe_get|]. intros x _. safe_step.
Qed.

Lemma exec_single_safe load q selem scale index repl rt rn post :
  0 <= scale <= 3 -> 0 <= index -> (index + 1) * 2 ^ scale <= 16 -> reg5 rt -> reg5 rn ->
  safe ok (exec_single (M:=M) load q selem scale index repl rt rn post).
Proof.
  intros Hs Hi Hidx Hrt Hrn. unfold exec_single. safe_step.
  apply (safe_bind (fun st => reg5 st.1)); [|intros; apply post_index_safe].
  eapply (safe_foldM _ ok); [|by apply Forall_true|done]. intros st _ Hst _.
  by apply single_elem_safe.
Qed.

Lemma exec_mem_safe i : vecmem_wf i -> safe ok (exec_mem (M:=M) i).
Proof.
  intros Hi. unfold exec_mem. eapply safe_unit_bind.
  { destruct i; first [apply safe_check_sp | by apply safe_ret]. }
  destruct i; cbn [vecmem_wf] in Hi; destruct_and!.
  - by apply exec_vreg_safe.
  - pose proof (size_bytes scale ltac:(lia)). safe_step. safe_step; [lia|]. safe_step.
    eapply is_u_weaken; [eassumption|lia].
  - by apply exec_vpair_safe.
  - by apply exec_multi_safe.
  - by apply exec_single_safe.
Qed.

(** *** System registers of user mode *)

Lemma user_mrs_legacy reg c : is_el0_legacy reg = true -> user_mrs reg c <> None.
Proof. by destruct reg. Qed.

Lemma masked_u64 v mask : is_u 32 mask -> Z.land v mask = v -> 0 <= v -> is_u64 v.
Proof.
  intros Hm Hv Hv0. rewrite <- Hv. apply (is_u_weaken 32); [|lia]. apply is_u_land_r; done || lia.
Qed.

Lemma user_mrs_u64 reg c v : cpu_wf c -> user_mrs reg c = Some v -> is_u64 v.
Proof.
  intros Hc Hv. destruct reg; simplify_eq/=.
  - destruct (nzcv_ok_bits _ (wf_nzcv _ Hc)) as [Hn _]. eapply is_u_weaken; [exact Hn|lia].
  - by apply wf_tpidr.
  - by apply wf_tpidrro.
  - apply (masked_u64 _ FPCR_MASK); [unfold is_u, FPCR_MASK; lia|apply (wf_fpcr _ Hc)|].
    rewrite <- (wf_fpcr _ Hc). apply Z.land_nonneg. right. unfold FPCR_MASK. lia.
  - apply (masked_u64 _ FPSR_MASK); [unfold is_u, FPSR_MASK; lia|apply (wf_fpsr _ Hc)|].
    rewrite <- (wf_fpsr _ Hc). apply Z.land_nonneg. right. unfold FPSR_MASK. lia.
  - unfold is_u; lia.
  - unfold is_u, id.CTR_EL0; lia.
Qed.

Lemma exec_mrs_safe reg rt raw : safe ok (exec_mrs (M:=M) reg rt raw).
Proof.
  unfold exec_mrs. destruct (is_el0_dcc reg); [by apply safe_raise|].
  destruct (is_el0_legacy reg) eqn:El; cbn [negb]; [|by apply safe_raise].
  apply (safe_bind (fun o => exists v, o = Some v /\ is_u64 v)).
  - apply safe_get. intros c Hc. pose proof (user_mrs_legacy reg c El).
    destruct (user_mrs reg c) as [v|] eqn:E; [|done]. exists v. split; [done|].
    by eapply user_mrs_u64.
  - intros o (v & -> & Hv). by apply safe_set_x.
Qed.

Lemma land_mask_idem v mask : Z.land (Z.land v mask) mask = Z.land v mask.
Proof. by rewrite <- Z.land_assoc, Z.land_diag. Qed.

Lemma exec_msr_safe reg rt raw :
  reg5 rt -> reg <> DczidEl0 -> reg <> CtrEl0 -> safe ok (exec_msr (M:=M) reg rt raw).
Proof.
  intros Hrt Hr1 Hr2. unfold exec_msr. destruct (is_el0_dcc reg); [by apply safe_raise|].
  destruct (is_el0_legacy reg) eqn:El; cbn [negb]; [|by apply safe_raise].
  safe_step. destruct reg; try done; try (by apply safe_raise); (apply safe_set; [|done]);
    intros c Hc.
  - apply set_nzcv_wf; [done|]. split; [apply land_mask_idem|].
    apply Z.land_nonneg. right. lia.
  - destruct Hc. by constructor.
  - destruct Hc. constructor; try done. apply land_mask_idem.
  - destruct Hc. constructor; try done. apply land_mask_idem.
Qed.

(** *** The whole interpreter *)

Context {ST : SimdTypes} {SD : SimdDecode} {SE : SimdExec} {SEL : SimdExecLaws}.

Definition target_ok (t : option Z) : Prop := forall a, t = Some a -> is_u64 a.

Lemma safe_fallthrough m : safe ok m -> safe target_ok (fallthrough (M:=M) m).
Proof. intros Hm. apply safe_unit_bind; [done|]. by apply safe_ret. Qed.

Lemma safe_dp f : (forall c, cpu_wf c -> cpu_wf (f c)) -> safe target_ok (dp (M:=M) f).
Proof. intros Hf. apply safe_fallthrough. by apply safe_set. Qed.

Lemma exec_branch_safe i : insn_wf i -> safe target_ok (exec_branch (M:=M) i).
Proof.
  intros Hi. unfold exec_branch. safe_step.
  assert (forall off : Z, target_ok (Some (u64 (pc + u64 off)))) as Hoff.
  { intros off a [= <-]. apply is_u_u64. }
  assert (forall (t : bool) off, target_ok (if t then Some (u64 (pc + u64 off)) else None)) as Hif.
  { intros [] off; [apply Hoff|done]. }
  destruct i; cbn [insn_wf] in Hi; try (by apply safe_ret).
  - eapply safe_unit_bind; [|by apply safe_ret].
    destruct link; [|by apply safe_ret]. apply safe_set; [|done]. intros. by apply link_x30_wf.
  - eapply (safe_bind ok); [by apply safe_get|]. intros t _. by apply safe_ret.
  - eapply (safe_bind ok); [by apply safe_get|]. intros t _. by apply safe_ret.
  - eapply (safe_bind ok); [by apply safe_get|]. intros t _. by apply safe_ret.
  - safe_step. eapply safe_unit_bind; [|apply safe_ret; by intros a [= <-]].
    destruct (bool_decide _); [|by apply safe_ret]. apply safe_set; [|done].
    intros. by apply link_x30_wf.
Qed.

Lemma exec_with_safe f :
  (forall c, cpu_wf c -> exists c', f c = Some c' /\ cpu_wf c') -> safe ok (exec_with (M:=M) f).
Proof.
  intros Hf. eapply (safe_bind (fun o => exists c', o = Some c' /\ cpu_wf c')); [by apply safe_get|].
  intros o (c' & -> & Hc'). by apply safe_set.
Qed.

Lemma exec_simd_safe s :
  match s with SimdMem m => vecmem_wf m | _ => True end -> safe ok (exec_simd (M:=M) s).
Proof.
  destruct s; intros Hs; cbn [exec_simd]; [by apply exec_mem_safe|apply exec_with_safe..].
  - apply exec_int_wf. - apply exec_fp_wf. - apply exec_crypto_wf.
Qed.

Lemma datasize_u64 sf x : is_u (datasize sf) x -> is_u64 x.
Proof. intros. eapply is_u_weaken; [eassumption|]. destruct sf; simpl; lia. Qed.

Lemma execute_safe i raw : insn_wf i -> safe target_ok (execute (M:=M) i raw).
Proof.
  intros Hi.
  destruct i; cbn [insn_wf] in Hi; destruct_and?;
    lazymatch goal with
    | |- safe _ (execute (B _ _) _) => by apply exec_branch_safe
    | |- safe _ (execute (BCond _ _) _) => by apply exec_branch_safe
    | |- safe _ (execute (Cbz _ _ _ _) _) => by apply exec_branch_safe
    | |- safe _ (execute (Tbz _ _ _ _) _) => by apply exec_branch_safe
    | |- safe _ (execute (BranchReg _ _) _) => by apply exec_branch_safe
    | _ => cbn [execute]
    end;
    lazymatch goal with
    | |- safe _ (dp _) => apply safe_dp; intros c Hc
    | |- safe _ (fallthrough _) => apply safe_fallthrough
    | |- safe _ (mret _) => by apply safe_ret
    | |- safe _ (raise _) => by apply safe_raise
    | _ => idtac
    end.
  - by apply exec_add_sub_imm_wf.
  - apply exec_logical_imm_wf; [done| |done]. by eapply datasize_u64.
  - by apply exec_move_wide_wf.
  - by apply exec_adr_wf.
  - by apply exec_bitfield_wf.
  - by apply exec_extract_wf.
  - apply exec_logical_reg_wf; done || lia.
  - apply exec_add_sub_reg_wf; done || lia.
  - by apply exec_add_sub_ext_wf.
  - by apply exec_add_sub_carry_wf.
  - by apply exec_cond_cmp_wf.
  - by apply exec_cond_sel_wf.
  - by apply exec_dp1_wf.
  - by apply exec_dp2_wf.
  - by apply exec_dp3_wf.
  - by apply set_monitor_wf.
  - eapply (safe_bind is_u64).
    { apply safe_get. intros c Hc. apply is_u_land; [lia|vauto|]. apply is_u_u64. }
    intros addr Haddr. apply safe_fallthrough. apply safe_mem_call; [|done]. intros. by apply zero_block_keeps.
  - apply exec_mrs_safe.
  - by apply exec_msr_safe.
  - by apply exec_ldst_safe.
  - by apply exec_ld_literal_safe.
  - by apply exec_ldst_pair_safe.
  - by apply exec_exclusive_safe.
  - by apply exec_load_acquire_safe.
  - by apply exec_store_release_safe.
  - apply exec_simd_safe. by destruct s.
Qed.

Lemma step_safe : simd_decoders_ok -> safe ok (step (M:=M)).
Proof.
  intros Hsd. unfold step. safe_step. destruct (negb _); [by apply safe_raise|].
  apply (safe_bind ok).
  { apply safe_mem_call; [|done]. intros. by apply fetch_keeps. }
  intros raw _. cbv zeta. eapply safe_bind; [by apply execute_safe, decode_insn_wf|].
  intros t Ht. eapply safe_unit_bind.
  - apply safe_set; [|done]. intros c Hc. apply set_pc_wf; [done|].
    destruct t; [by apply Ht|apply is_u_u64].
  - destruct (decode raw); first [by apply safe_ret | by apply safe_raise].
Qed.

(** C30: one step of the interpreter, from a well-formed CPU over any memory that
    keeps its laws, ends in a well-formed CPU and memory on every path: it
    completes or raises an exception of the architecture, and reaches none of
    the [unreachable!] arms of the scalar, load/store and system-register code.
    The AdvSIMD and floating-point data-processing executors are a parameter,
    assumed to return and to keep the CPU well formed on what their decoders
    yield ([simd_decoders_ok], [SimdExecLaws]). *)
Theorem step_keeps_wf s :
  simd_decoders_ok -> wf_machine s ->
  let '(r, s') := step (M:=M) s in
  wf_machine s' /\ match r with Ok _ => True | Err st => exists e, st = Raise e end.
Proof.
  intros Hsd Hs. pose proof (step_safe Hsd s Hs) as Hstep.
  destruct (step s) as [[u|st] s']; [by destruct Hstep|].
  destruct Hstep as [Hw Hr]. split; [done|]. destruct st as [e|]; [by exists e|done].
Qed.
End execute_safe.
