(* ===== verification/ExecFrame.v ===== *)
(** * What the interpreter leaves alone (theorems about [execute] and [step])

    Two frame properties of the interpreter: user-mode execution never writes
    the system state nor the read-only thread register, and an instruction
    that raises leaves the CPU as it was, up to the two exceptions named by
    [precise] (a store-exclusive consumes its monitor before the store can
    fault; a structure load writes the registers before the faulting element).
    Both are shown on concrete machines in UserRuns. *)

From Stdlib Require Import ZArith Lia Bool.
From stdpp Require Import base list numbers strings.
From S2P Require Import Prelude Bits SysReg State Decode DecodeWf Memory Vreg Exec Alu ExecWf.
Local Open Scope Z_scope.
Local Open Scope vetro_scope.

Section frame.
Context {M : Type} `{Memory M}.

Definition cpu_rel (R : relation Cpu) : relation (Cpu * M) := fun s s' => R s.1 s'.1.

#[local] Instance cpu_rel_refl R `{!Reflexive R} : Reflexive (cpu_rel R).
Proof. intros s. unfold cpu_rel. reflexivity. Qed.
#[local] Instance cpu_rel_trans R `{!Transitive R} : Transitive (cpu_rel R).
Proof. intros s1 s2 s3 H1 H2. unfold cpu_rel in *. by transitivity s2.1. Qed.

(** Every relation here is a preorder on CPUs. *)
Section rules.
Context (R : relation Cpu) `{!PreOrder R}.

Lemma frames_mem_call {A} (op : prog M MemFault A) : frames (cpu_rel R) (mem_call op).
Proof.
  intros s. unfold mem_call, cpu_rel. destruct (op s.2) as [r m]. cbn. reflexivity.
Qed.

Lemma frames_cpu_get {A} (f : Cpu -> A) : frames (cpu_rel R) (cpu_get (M:=M) f).
Proof. apply frames_gets. apply _. Qed.

Lemma frames_cpu_set (f : Cpu -> Cpu) :
  (forall c, R c (f c)) -> frames (cpu_rel R) (cpu_set (M:=M) f).
Proof. intros Hf. apply frames_modify. intros [c m]. apply Hf. Qed.

Lemma frames_raise {A} e : frames (cpu_rel R) (raise (M:=M) (A:=A) e).
Proof. apply frames_throw. apply _. Qed.

Lemma frames_panic {A} e : frames (cpu_rel R) (throw e : machine M A).
Proof. apply frames_throw. apply _. Qed.

Lemma frames_mret {A} (a : A) : frames (cpu_rel R) (mret a : machine M A).
Proof. apply frames_ret. apply _. Qed.

Lemma frames_mbind {A B} (m : machine M A) (k : A -> machine M B) :
  frames (cpu_rel R) m -> (forall a, frames (cpu_rel R) (k a)) -> frames (cpu_rel R) (mbind k m).
Proof. apply frames_bind. apply _. Qed.

Lemma frames_foldM {A B} (f : A -> B -> machine M A) acc l :
  (forall a b, frames (cpu_rel R) (f a b)) -> frames (cpu_rel R) (foldM f acc l).
Proof.
  intros Hf. revert acc. induction l as [|b l IH]; intros acc; cbn [foldM].
  - apply frames_mret.
  - apply frames_mbind; [apply Hf|]. intros a. apply IH.
Qed.

Lemma frames_read_uint addr bytes : frames (cpu_rel R) (read_uint addr bytes).
Proof.
  unfold read_uint. apply frames_mbind; [apply frames_mem_call|]. intros. apply frames_mret.
Qed.

Lemma frames_write_uint addr bytes v : frames (cpu_rel R) (write_uint addr bytes v).
Proof. apply frames_mem_call. Qed.

Lemma frames_check_aligned addr bytes : frames (cpu_rel R) (check_aligned (M:=M) addr bytes).
Proof. unfold check_aligned. destruct (negb _); [apply frames_raise|apply frames_mret]. Qed.

Lemma frames_check_sp rn : frames (cpu_rel R) (check_sp_alignment (M:=M) rn).
Proof.
  unfold check_sp_alignment. apply frames_mbind; [apply frames_cpu_get|].
  intros []; [apply frames_raise|apply frames_mret].
Qed.
End rules.
End frame.

(** Proofs of [frames]: follow the program; what is left are the writes of the
    CPU. *)
Ltac frame :=
  lazymatch goal with
  | |- frames _ (mret _) => apply (frames_mret _)
  | |- frames _ (raise _) => apply (frames_raise _)
  | |- frames _ (throw _) => apply (frames_panic _)
  | |- frames _ (mem_call _) => apply (frames_mem_call _)
  | |- frames _ (cpu_get _) => apply (frames_cpu_get _)
  | |- frames _ (cpu_set _) => apply (frames_cpu_set _); intros ?c
  | |- frames _ (read_uint _ _) => apply (frames_read_uint _)
  | |- frames _ (write_uint _ _ _) => apply (frames_write_uint _)
  | |- frames _ (check_aligned _ _) => apply (frames_check_aligned _)
  | |- frames _ (check_sp_alignment _) => apply (frames_check_sp _)
  | |- frames _ (mbind _ _) => apply (frames_mbind _); [frame|intros ?a; frame]
  | |- frames _ (foldM _ _ _) => apply (frames_foldM _); intros ?a ?b; frame
  | |- frames _ (if ?b then _ else _) => destruct b; frame
  | |- frames _ (let '(_, _) := ?p in _) => destruct p; frame
  | |- frames _ (match ?x with _ => _ end) => destruct x; frame
  | _ => idtac
  end.

(** ** User mode does not write the system state *)

(** The registers user mode cannot write: the whole system state and
    TPIDRRO_EL0. *)
Definition same_sys (c c' : Cpu) : Prop :=
  cpu_sys c' = cpu_sys c /\ cpu_tpidrro_el0 c' = cpu_tpidrro_el0 c.

#[export] Instance same_sys_preorder : PreOrder same_sys.
Proof. split; [done|]. intros c1 c2 c3 [H1 H2] [H3 H4]. split; congruence. Qed.

Lemma set_x_same_sys r v c : same_sys c (set_x r v c).
Proof. unfold set_x. by destruct (negb _). Qed.
Lemma set_xsp_same_sys r v c : same_sys c (set_xsp r v c).
Proof. unfold set_xsp. by destruct (_ =? _). Qed.
Lemma set_flags_same_sys n z cf v c : same_sys c (set_flags n z cf v c).
Proof. done. Qed.
Lemma set_nzcv_same_sys f c : same_sys c (set_nzcv f c).
Proof. by destruct f as [[[??]?]?]. Qed.
Lemma vset_same_sys t v c : same_sys c (vset t v c).
Proof. done. Qed.
Lemma add_sub_same_sys x y sub setflags sf c : same_sys c (add_sub x y sub setflags sf c).2.
Proof.
  unfold add_sub. destruct sub; cbv beta iota; destruct (add_with_carry _ _ _ _); cbn [snd];
    destruct setflags; try apply set_nzcv_same_sys; reflexivity.
Qed.

(** A chain of register writes keeps the system state. *)
Ltac same :=
  lazymatch goal with
  | |- same_sys ?c ?c => reflexivity
  | |- same_sys _ (set_x _ _ _) => etransitivity; [|apply set_x_same_sys]; same
  | |- same_sys _ (set_xsp _ _ _) => etransitivity; [|apply set_xsp_same_sys]; same
  | |- same_sys _ (set_nzcv _ _) => etransitivity; [|apply set_nzcv_same_sys]; same
  | |- same_sys _ (set_flags _ _ _ _ _) => etransitivity; [|apply set_flags_same_sys]; same
  | |- same_sys _ (vset _ _ _) => etransitivity; [|apply vset_same_sys]; same
  | |- same_sys _ (add_sub _ _ _ _ _ _).2 => apply add_sub_same_sys
  | |- same_sys _ (if ?b then _ else _) => destruct b; same
  | |- same_sys _ (let '(_, _) := if ?b then _ else _ in _) => destruct b; cbv beta iota; same
  | |- same_sys _ (let '(_, _) := add_with_carry ?x ?y ?k ?s in _) =>
      destruct (add_with_carry x y k s); same
  | |- _ => try (split; reflexivity)
  end.

Section user_mode.
Context {M : Type} `{Memory M} {ST : SimdTypes} {SD : SimdDecode} {SE : SimdExec}
  {SEL : SimdExecLaws}.

Abbreviation keeps_sys := (frames (cpu_rel same_sys)).

Lemma dp_same_sys (f : Cpu -> Cpu) :
  (forall c, same_sys c (f c)) -> keeps_sys (dp (M:=M) f).
Proof. intros Hf. unfold dp, fallthrough. frame. apply Hf. Qed.

Lemma add_sub_then_set_x x y sub setflags sf c (g : Z -> Cpu -> Cpu) :
  (forall r c, same_sys c (g r c)) ->
  same_sys c (let '(r, c') := add_sub x y sub setflags sf c in g r c').
Proof.
  intros Hg. pose proof (add_sub_same_sys x y sub setflags sf c).
  destruct (add_sub _ _ _ _ _ _) as [r c']. etransitivity; [eassumption|apply Hg].
Qed.

Lemma take_monitor_keeps_sys : keeps_sys (take_monitor (M:=M)).
Proof. unfold take_monitor. frame. same. Qed.

Lemma exec_exclusive_keeps_sys size load paired rs rt rt2 rn :
  keeps_sys (exec_exclusive (M:=M) size load paired rs rt rt2 rn).
Proof.
  unfold exec_exclusive. apply frames_mbind; [apply _|frame|intros _].
  apply frames_mbind; [apply _|frame|intros address]. cbv zeta.
  apply frames_mbind; [apply _|frame|intros _]. destruct load; [frame; same|].
  apply frames_mbind; [apply _|frame|intros new].
  apply frames_mbind; [apply _|apply take_monitor_keeps_sys|intros mon]. frame. same.
Qed.

Lemma exec_mem_keeps_sys i : keeps_sys (exec_mem (M:=M) i).
Proof.
  unfold exec_mem. apply frames_mbind; [apply _|destruct i; frame|intros _].
  destruct i.
  - unfold exec_vreg, write_back. frame; same.
  - frame; same.
  - unfold exec_vpair. frame; same.
  - unfold exec_multi, multi_elem, post_index. frame; same.
  - unfold exec_single, single_elem, post_index. frame; same.
Qed.

Lemma exec_with_keeps_sys f : (forall c c', f c = Some c' -> same_sys c c') -> keeps_sys (exec_with (M:=M) f).
Proof.
  intros Hf [c m]. unfold exec_with, mbind, prog_bind, cpu_get, gets. cbn [fst]. destruct (f c) as [c'|] eqn:E; [|split; reflexivity].
  exact (Hf _ _ E).
Qed.

Lemma exec_simd_keeps_sys s : keeps_sys (exec_simd (M:=M) s).
Proof.
  destruct s; cbn [exec_simd]; [apply exec_mem_keeps_sys|apply exec_with_keeps_sys; intros ? ? E..].
  - destruct (exec_int_frame _ _ _ E) as (_ & _ & _ & ? & _ & ?). by split.
  - destruct (exec_fp_frame _ _ _ E) as (_ & _ & _ & ? & _ & ?). by split.
  - destruct (exec_crypto_frame _ _ _ E) as (_ & _ & _ & ? & _ & ?). by split.
Qed.

Lemma execute_keeps_sys i raw : keeps_sys (execute (M:=M) i raw).
Proof.
  destruct i; cbn [execute];
    lazymatch goal with
    | |- frames _ (dp _) => apply dp_same_sys; intros c
    | |- frames _ (fallthrough _) => unfold fallthrough; apply frames_mbind; [apply _| |intros ?a; frame]
    | |- frames _ (exec_branch _) => unfold exec_branch, link_x30; frame; same
    | |- _ => frame
    end.
  - unfold exec_add_sub_imm. same.
  - unfold exec_logical_imm, set_logic_flags. same.
  - unfold exec_move_wide. same.
  - unfold exec_adr. same.
  - unfold exec_bitfield. same.
  - unfold exec_extract. same.
  - unfold exec_logical_reg, set_logic_flags. same.
  - apply (add_sub_then_set_x _ _ _ _ _ _ (set_x rd)). intros. same.
  - apply (add_sub_then_set_x _ _ _ _ _ _
      (fun r c => if setflags then set_x rd r c else set_xsp rd r c)). intros. same.
  - unfold exec_add_sub_carry. same.
  - unfold exec_cond_cmp. same.
  - unfold exec_cond_sel. same.
  - unfold exec_dp1. same.
  - unfold exec_dp2. same.
  - unfold exec_dp3. same.
  - same.
  - unfold fallthrough. frame.
  - unfold exec_mrs. frame; same.
  - unfold exec_msr. frame; same.
  - unfold exec_ldst, write_back. frame; same.
  - unfold exec_ld_literal. frame; same.
  - unfold exec_ldst_pair. frame; same.
  - apply exec_exclusive_keeps_sys.
  - unfold exec_load_acquire. frame; same.
  - unfold exec_store_release. frame; same.
  - apply exec_simd_keeps_sys.
Qed.

(** A step of the user-mode interpreter never writes the system state (the
    exception level, the banked stack pointers, every EL1 register) nor the
    read-only thread register TPIDRRO_EL0, whatever instruction is fetched and
    whether the step completes or raises. *)
Theorem step_keeps_system_state s :
  cpu_sys (step (M:=M) s).2.1 = cpu_sys s.1 /\
  cpu_tpidrro_el0 (step (M:=M) s).2.1 = cpu_tpidrro_el0 s.1.
Proof.
  assert (keeps_sys (step (M:=M))) as Hf; [|apply (Hf s)].
  unfold step. apply frames_mbind; [apply _|frame|intros pc]. destruct (negb _); [frame|].
  apply frames_mbind; [apply _|frame|intros raw]. cbv zeta.
  apply frames_mbind; [apply _|apply execute_keeps_sys|intros t].
  apply frames_mbind; [apply _|frame; same|intros _]. destruct (decode raw); frame.
Qed.
End user_mode.

(** ** Exceptions leave the CPU as it was *)

Ltac total_prog :=
  lazymatch goal with
  | |- total (mret _) => apply total_ret
  | |- total (cpu_get _) => apply total_gets
  | |- total (cpu_set _) => apply total_modify
  | |- total (mbind _ _) => apply total_bind; [total_prog|intros ?a; total_prog]
  | |- total (if ?b then _ else _) => destruct b; total_prog
  | |- total (match ?x with _ => _ end) => destruct x; total_prog
  end.

(** Proofs of [clean]: what runs before a failure leaves the CPU alone, or
    nothing after it can fail. *)
Ltac cleanly :=
  lazymatch goal with
  | |- clean _ (cpu_set _) => apply total_clean; total_prog
  | |- clean _ (mbind _ _) =>
      first
        [ apply clean_bind_total; [solve [cleanly]|intros ?a; solve [total_prog]]
        | apply (clean_bind_frames _); [solve [frame]|intros ?a; cleanly] ]
  | |- clean _ (if ?b then _ else _) => destruct b; cleanly
  | |- clean _ (let '(_, _) := ?p in _) => destruct p; cleanly
  | |- clean _ (match ?x with _ => _ end) => destruct x; cleanly
  | |- clean _ _ => apply frames_clean; frame
  end.

(** The instructions whose exceptions leave the CPU unchanged: all but
    store-exclusives and structure loads. *)
Definition precise {ST : SimdTypes} (i : Insn) : bool :=
  match i with
  | Exclusive _ load _ _ _ _ _ => load
  | Simd (SimdMem (VMulti load _ _ _ _ _ _ _)) => negb load
  | Simd (SimdMem (VSingle load _ _ _ _ repl _ _ _)) => negb load && negb repl
  | _ => true
  end.

Section precise.
Context {M : Type} `{Memory M} {ST : SimdTypes} {SD : SimdDecode} {SE : SimdExec}.

Abbreviation same_cpu := (cpu_rel (M:=M) eq).

#[local] Instance cpu_rel_trans' : Transitive same_cpu.
Proof. intros s1 s2 s3. unfold cpu_rel. congruence. Qed.

Lemma exec_mem_precise i :
  precise (Simd (SimdMem i)) = true -> clean same_cpu (exec_mem (M:=M) i).
Proof.
  intros Hp. unfold exec_mem.
  apply (clean_bind_frames _); [destruct i; frame|intros _].
  destruct i; cbn [precise] in Hp.
  - unfold exec_vreg, write_back. cleanly.
  - cleanly.
  - unfold exec_vpair. cleanly.
  - destruct load; [done|]. unfold exec_multi, multi_elem, post_index. cleanly.
  - destruct load, repl; try done. unfold exec_single, single_elem, post_index. cleanly.
Qed.

Lemma execute_precise i raw : precise i = true -> clean same_cpu (execute (M:=M) i raw).
Proof.
  intros Hp. destruct i; cbn [execute];
    lazymatch goal with
    | |- clean _ (dp _) => apply total_clean; unfold dp, fallthrough; total_prog
    | |- clean _ (fallthrough _) =>
        apply clean_bind_total; [|intros ?a; total_prog]
    | |- clean _ (exec_branch _) => unfold exec_branch; cleanly
    | |- _ => idtac
    end.
  all: try solve [cleanly].
  - unfold fallthrough. cleanly.
  - unfold exec_mrs. cleanly.
  - unfold exec_msr. cleanly.
  - unfold exec_ldst, write_back. cleanly.
  - unfold exec_ld_literal. cleanly.
  - unfold exec_ldst_pair. cleanly.
  - unfold exec_exclusive. cbn [precise] in Hp. subst load. cleanly.
  - unfold exec_load_acquire. cleanly.
  - unfold exec_store_release. cleanly.
  - destruct s; cbn [exec_simd]; [by apply exec_mem_precise|unfold exec_with; cleanly..].
Qed.
End precise.

(** ** The exceptions an instruction raises

    A predicate on the stop and the state after it holds of every failing run
    of [execute], if it holds of the failing calls of the memory and of the
    exceptions the interpreter raises by itself. *)

(** What [execute] raises without a fault of the memory. *)
Definition own_exception (st : Stop) : Prop :=
  match st with
  | Raise (ExcBreakpoint _ | ExcUndefined _ | ExcUnimplemented _ _ | ExcAlignment _ | ExcSpAlignment) => True
  | Raise _ => False
  | Panic _ => True
  end.

Section execute_errs.
Context {M : Type} `{Memory M} {ST : SimdTypes} {SD : SimdDecode} {SE : SimdExec}.
Context (P : Stop -> Cpu * M -> Prop).
Hypotheses (Hown : forall st s, own_exception st -> P st s)
  (Hread : forall a n, errs P (mem_call (mem_read a n)))
  (Hwrite : forall a d, errs P (mem_call (mem_write a d)))
  (Hread_unpriv : forall a n, errs P (mem_call (mem_read_unpriv a n)))
  (Hwrite_unpriv : forall a d, errs P (mem_call (mem_write_unpriv a d)))
  (Hzero : forall a, errs P (mem_call (mem_zero_block a)))
  (Hcmpxchg : forall a o n, errs P (mem_call (mem_cmpxchg a o n))).

Ltac errs_prog :=
  lazymatch goal with
  | |- errs _ (raise _) => apply errs_throw; intros; by apply Hown
  | |- errs _ (throw _) => apply errs_throw; intros; by apply Hown
  | |- errs _ (mem_call (mem_read _ _)) => apply Hread
  | |- errs _ (mem_call (mem_write _ _)) => apply Hwrite
  | |- errs _ (mem_call (mem_read_unpriv _ _)) => apply Hread_unpriv
  | |- errs _ (mem_call (mem_write_unpriv _ _)) => apply Hwrite_unpriv
  | |- errs _ (mem_call (mem_zero_block _)) => apply Hzero
  | |- errs _ (mem_call (mem_cmpxchg _ _ _)) => apply Hcmpxchg
  | |- errs _ (read_uint _ _) => unfold read_uint; errs_prog
  | |- errs _ (write_uint _ _ _) => unfold write_uint; errs_prog
  | |- errs _ (check_aligned _ _) => unfold check_aligned; errs_prog
  | |- errs _ (check_sp_alignment _) => unfold check_sp_alignment; errs_prog
  | |- errs _ take_monitor => unfold take_monitor; errs_prog
  | |- errs _ (mbind _ _) => apply errs_bind; [errs_prog|intros ?a; errs_prog]
  | |- errs _ (foldM _ _ _) => apply errs_foldM; intros ?a ?b; errs_prog
  | |- errs _ (if ?b then _ else _) => destruct b; errs_prog
  | |- errs _ (let '(_, _) := ?p in _) => destruct p; errs_prog
  | |- errs _ (match ?x with _ => _ end) => destruct x; errs_prog
  | |- errs _ _ => apply errs_total; total_prog
  end.

Lemma exec_mem_errs i : errs P (exec_mem (M:=M) i).
Proof.
  unfold exec_mem, exec_vreg, exec_vpair, exec_multi, exec_single, multi_elem, single_elem,
    write_back, post_index. errs_prog.
Qed.

Lemma execute_errs i raw : errs P (execute (M:=M) i raw).
Proof.
  destruct i; cbn [execute]; unfold dp, fallthrough;
    lazymatch goal with
    | |- errs _ (mbind _ (exec_simd ?s)) =>
        destruct s; cbn [exec_simd]; (apply errs_bind; [|intros ?a; errs_prog]);
        [apply exec_mem_errs|unfold exec_with; errs_prog..]
    | |- _ => unfold exec_branch, exec_mrs, exec_msr, exec_ldst, exec_ld_literal, exec_ldst_pair,
        exec_exclusive, exec_load_acquire, exec_store_release, write_back; errs_prog
    end.
Qed.
End execute_errs.

(** Only SVC raises the supervisor call. *)
Definition not_svc {M : Type} (st : Stop) (_ : Cpu * M) : Prop := forall imm, st <> Raise (ExcSvc imm).

Section svc.
Context {M : Type} `{Memory M} {ST : SimdTypes} {SD : SimdDecode} {SE : SimdExec}.

Lemma errs_mem_call {A} (op : prog M MemFault A) : errs not_svc (mem_call op).
Proof.
  intros s e s' He imm. unfold mem_call in He. destruct (op s.2) as [[a|f] m]; [done|].
  injection He as <- <-. unfold from_mem_fault. by destruct (fault_access f).
Qed.

Lemma execute_not_svc i raw : errs not_svc (execute (M:=M) i raw).
Proof. apply execute_errs; intros; try apply errs_mem_call. intros imm ->. done. Qed.

(** A step that raises leaves every CPU register as it was (the program
    counter still at the faulting instruction), except that a supervisor call
    leaves the program counter at the next instruction; this for every
    instruction but the store-exclusives and the structure loads. *)
Theorem exception_leaves_cpu s e s' :
  (forall raw m, mem_fetch (cpu_pc s.1) s.2 = (Ok raw, m) -> precise (decode raw) = true) ->
  step (M:=M) s = (Err (Raise e), s') ->
  s'.1 = match e with
         | ExcSvc _ => s.1 <| cpu_pc := u64 (cpu_pc s.1 + 4) |>
         | _ => s.1
         end.
Proof.
  intros Hp Hs. destruct s as [c m]. cbn [fst snd] in *. unfold step in Hs.
  apply bind_err_inv in Hs as [[=]|(pc & s1 & [= <- <-] & Hs)]. cbn [fst] in Hs.
  destruct (negb _); [injection Hs as <- <-; done|].
  apply bind_err_inv in Hs as [Hs|(raw & s1 & Hf & Hs)].
  { pose proof (errs_mem_call _ _ _ _ Hs) as Hn.
    unfold mem_call in Hs. cbn [fst snd] in Hs. destruct (mem_fetch _ _) as [r m'].
    injection Hs as _ <-. destruct e; try done. by destruct (Hn imm). }
  unfold mem_call in Hf. cbn [fst snd] in Hf.
  destruct (mem_fetch (cpu_pc c) m) as [[raw'|f] m'] eqn:Ef; [|done]. injection Hf as -> <-.
  specialize (Hp raw m' eq_refl). cbv zeta in Hs.
  apply bind_err_inv in Hs as [Ex|(t & s1 & Ex & Hs)].
  { pose proof (execute_not_svc _ _ _ _ _ Ex) as Hn.
    apply (execute_precise _ _ Hp) in Ex. unfold cpu_rel in Ex. cbn [fst] in Ex.
    destruct e; try done. by destruct (Hn imm). }
  apply bind_err_inv in Hs as [[=]|(u & s2 & [= <- <-] & Hs)].
  destruct (decode raw) eqn:Ed; try discriminate Hs.
  injection Hs as <- <-. cbn [execute] in Ex. by injection Ex as <- <-.
Qed.
End svc.
