(* ===== verification/BTree.v ===== *)
(** * Ordered maps from addresses (std::collections::BTreeMap)

    A [BTreeMap<u64, V>] as the list of its entries in the order of the keys,
    with the operations the sources use: [get], [insert], [remove], the
    entries of a range, and [range(..hi).next_back()] and
    [range(lo..).next()]. The lemmas reduce everything to [bt_get]. *)

From Stdlib Require Import ZArith Lia Bool.
From stdpp Require Import base list numbers sorting.
From S2P Require Import Prelude.
Local Open Scope Z_scope.

Abbreviation btree V := (list (Z * V)).

Section btree.
Context {V : Type}.

Fixpoint bt_get (k : Z) (m : btree V) : option V :=
  match m with
  | [] => None
  | (k', v) :: m' => if k =? k' then Some v else bt_get k m'
  end.

Fixpoint bt_insert (k : Z) (v : V) (m : btree V) : btree V :=
  match m with
  | [] => [(k, v)]
  | (k', v') :: m' =>
      if k <? k' then (k, v) :: m
      else if k =? k' then (k, v) :: m'
      else (k', v') :: bt_insert k v m'
  end.

Definition bt_remove (k : Z) (m : btree V) : btree V := filter (fun p => p.1 <> k) m.

(** [range(lo..hi)]. *)
Definition bt_range (lo hi : Z) (m : btree V) : btree V := filter (fun p => lo <= p.1 < hi) m.

(** [range(..hi).next_back()]. *)
Fixpoint bt_below (hi : Z) (m : btree V) : option (Z * V) :=
  match m with
  | [] => None
  | (k, v) :: m' =>
      if k <? hi then match bt_below hi m' with Some p => Some p | None => Some (k, v) end
      else None
  end.

(** [range(lo..).next()]. *)
Fixpoint bt_from (lo : Z) (m : btree V) : option (Z * V) :=
  match m with
  | [] => None
  | (k, v) :: m' => if lo <=? k then Some (k, v) else bt_from lo m'
  end.

(** [for (k, v) in range_mut(lo..hi) { *v = f v }]. *)
Definition bt_update (lo hi : Z) (f : V -> V) (m : btree V) : btree V :=
  map (fun p => if (lo <=? p.1) && (p.1 <? hi) then (p.1, f p.2) else p) m.

(** The keys are strictly increasing. *)
Definition bt_sorted (m : btree V) : Prop := StronglySorted (fun p q => p.1 < q.1) m.

Lemma bt_get_elem k v m : bt_sorted m -> bt_get k m = Some v <-> (k, v) ∈ m.
Proof.
  induction 1 as [|[k' v'] m Hs IH Hall]; cbn [bt_get]; [by rewrite elem_of_nil|].
  rewrite elem_of_cons, list.Forall_forall in *. destruct (Z.eqb_spec k k') as [->|Hne].
  - split; [intros [= ->]; by left|]. intros [[= ->]|Hin]; [done|].
    specialize (Hall _ Hin). simpl in Hall. lia.
  - rewrite IH. split; [by right|]. intros [[= -> ->]|?]; done.
Qed.

Lemma bt_get_insert k v j m :
  bt_sorted m -> bt_get j (bt_insert k v m) = if j =? k then Some v else bt_get j m.
Proof.
  induction 1 as [|[k' v'] m Hs IH Hall]; cbn [bt_insert bt_get]; [done|].
  destruct (Z.ltb_spec k k'); cbn [bt_get].
  - done.
  - destruct (Z.eqb_spec k k') as [->|]; cbn [bt_get].
    + by destruct (Z.eqb_spec j k').
    + rewrite IH. destruct (Z.eqb_spec j k'), (Z.eqb_spec j k); try done. lia.
Qed.

Lemma bt_insert_elem k v m p : p ∈ bt_insert k v m -> p = (k, v) \/ p ∈ m.
Proof.
  induction m as [|[k' v'] m IH]; cbn [bt_insert].
  - rewrite list_elem_of_singleton. auto.
  - destruct (k <? k'); [rewrite elem_of_cons; tauto|].
    destruct (k =? k'); rewrite !elem_of_cons; [tauto|]. intros [?|?%IH]; tauto.
Qed.

Lemma bt_sorted_insert k v m : bt_sorted m -> bt_sorted (bt_insert k v m).
Proof.
  induction 1 as [|[k' v'] m Hs IH Hall]; cbn [bt_insert]; [repeat constructor|].
  pose proof Hall as Hall'. rewrite list.Forall_forall in Hall'.
  destruct (Z.ltb_spec k k').
  - constructor; [by constructor|]. constructor; [done|]. apply list.Forall_forall. intros p Hp.
    specialize (Hall' p Hp). simpl in *. lia.
  - destruct (Z.eqb_spec k k') as [->|]; [by constructor|].
    constructor; [done|]. apply list.Forall_forall. intros p Hp.
    apply bt_insert_elem in Hp as [->|Hp]; [simpl; lia|by apply Hall'].
Qed.

Lemma bt_sorted_filter (P : Z * V -> Prop) `{!forall p, Decision (P p)} m :
  bt_sorted m -> bt_sorted (filter P m).
Proof.
  induction 1 as [|p m Hs IH Hall]; [constructor|]. rewrite filter_cons.
  destruct (decide (P p)); [|done]. constructor; [done|].
  rewrite list.Forall_forall in *. intros q [_ Hq]%list_elem_of_filter. auto.
Qed.

Lemma bt_sorted_remove k m : bt_sorted m -> bt_sorted (bt_remove k m).
Proof. apply bt_sorted_filter. Qed.

Lemma bt_get_filter (P : Z * V -> Prop) `{!forall p, Decision (P p)} k m :
  bt_sorted m ->
  bt_get k (filter P m) = v ← bt_get k m; if decide (P (k, v)) then Some v else None.
Proof.
  intros Hs. pose proof (bt_sorted_filter P m Hs) as Hs'.
  destruct (bt_get k m) as [v|] eqn:E; cbn.
  - apply bt_get_elem in E; [|done]. case_decide.
    + apply bt_get_elem; [done|]. by apply list_elem_of_filter.
    + destruct (bt_get k (filter P m)) as [v'|] eqn:E'; [|done].
      apply bt_get_elem in E' as [HP Hin]%list_elem_of_filter; [|done].
      apply bt_get_elem in E, Hin; [|done..]. congruence.
  - destruct (bt_get k (filter P m)) as [v'|] eqn:E'; [|done].
    apply bt_get_elem in E' as [HP Hin]%list_elem_of_filter; [|done].
    apply bt_get_elem in Hin; [|done]. congruence.
Qed.

Lemma bt_get_remove k j m :
  bt_sorted m -> bt_get j (bt_remove k m) = if j =? k then None else bt_get j m.
Proof.
  intros Hs. unfold bt_remove. rewrite bt_get_filter by done.
  destruct (bt_get j m); cbn; [|by destruct (j =? k)].
  destruct (Z.eqb_spec j k); case_decide; done.
Qed.

Lemma bt_get_range lo hi k m :
  bt_sorted m -> bt_get k (bt_range lo hi m) = if (lo <=? k) && (k <? hi) then bt_get k m else None.
Proof.
  intros Hs. unfold bt_range. rewrite bt_get_filter by done.
  destruct (bt_get k m); cbn; [|by destruct (_ && _)].
  destruct (Z.leb_spec lo k), (Z.ltb_spec k hi); case_decide; simpl in *; done || lia.
Qed.

Lemma bt_below_spec hi m :
  bt_sorted m ->
  match bt_below hi m with
  | Some (k, v) => bt_get k m = Some v /\ k < hi /\
      forall k' v', bt_get k' m = Some v' -> k' < hi -> k' <= k
  | None => forall k v, bt_get k m = Some v -> hi <= k
  end.
Proof.
  intros Hs. pose proof Hs as Hs0.
  induction Hs as [|[k v] m Hs IH Hall]; cbn [bt_below]; [done|].
  specialize (IH Hs). rewrite list.Forall_forall in Hall.
  destruct (Z.ltb_spec k hi); cycle 1.
  { intros k' v' Hk'. apply bt_get_elem in Hk'; [|done].
    apply elem_of_cons in Hk' as [[= -> ->]|Hin]; [done|]. specialize (Hall _ Hin). simpl in *. lia. }
  destruct (bt_below hi m) as [[k1 v1]|].
  - destruct IH as (Hg & Hlt & Hmax).
    assert (k < k1) by (apply bt_get_elem in Hg; [|done]; by specialize (Hall _ Hg)).
    cbn [bt_get]. replace (k1 =? k) with false by lia. split; [done|]. split; [done|].
    intros k' v' Hk' Hlt'. destruct (Z.eqb_spec k' k); [lia|]. by eapply Hmax.
  - cbn [bt_get]. rewrite Z.eqb_refl. split; [done|]. split; [done|].
    intros k' v' Hk' Hlt'. destruct (Z.eqb_spec k' k); [lia|]. apply IH in Hk'. lia.
Qed.

Lemma bt_from_spec lo m :
  bt_sorted m ->
  match bt_from lo m with
  | Some (k, v) => bt_get k m = Some v /\ lo <= k /\
      forall k' v', bt_get k' m = Some v' -> lo <= k' -> k <= k'
  | None => forall k v, bt_get k m = Some v -> k < lo
  end.
Proof.
  intros Hs. pose proof Hs as Hs0.
  induction Hs as [|[k v] m Hs IH Hall]; cbn [bt_from]; [done|].
  specialize (IH Hs). rewrite list.Forall_forall in Hall. cbn [bt_get].
  destruct (Z.leb_spec lo k).
  - rewrite Z.eqb_refl. split; [done|]. split; [done|]. intros k' v' Hk' Hle.
    destruct (Z.eqb_spec k' k); [lia|]. apply bt_get_elem in Hk'; [|done].
    specialize (Hall _ Hk'). simpl in *. lia.
  - destruct (bt_from lo m) as [[k1 v1]|].
    + destruct IH as (Hg & Hle & Hmin). replace (k1 =? k) with false by lia.
      split; [done|]. split; [done|]. intros k' v' Hk' Hle'.
      destruct (Z.eqb_spec k' k); [lia|]. by eapply Hmin.
    + intros k' v'. destruct (Z.eqb_spec k' k); [lia|]. apply IH.
Qed.

Lemma bt_get_update lo hi f k m :
  bt_get k (bt_update lo hi f m) =
    if (lo <=? k) && (k <? hi) then f <$> bt_get k m else bt_get k m.
Proof.
  induction m as [|[k' v] m IH]; cbn [bt_update map bt_get].
  - by destruct (_ && _).
  - fold (bt_update lo hi f m). cbn [fst snd].
    destruct ((lo <=? k') && (k' <? hi)) eqn:Er; cbn [bt_get];
      destruct (Z.eqb_spec k k') as [->|]; rewrite ?Er; try done; exact IH.
Qed.

Lemma bt_sorted_update lo hi f m : bt_sorted m -> bt_sorted (bt_update lo hi f m).
Proof.
  induction 1 as [|[k v] m Hs IH Hall]; [constructor|]. cbn [bt_update map].
  fold (bt_update lo hi f m).
  assert (forall p, p ∈ bt_update lo hi f m -> k < p.1) as Hm.
  { intros p Hp. unfold bt_update in Hp. apply list_elem_of_fmap in Hp as (q & -> & Hq).
    rewrite list.Forall_forall in Hall. specialize (Hall q Hq). simpl in Hall. by destruct (_ && _). }
  destruct (_ && _); (constructor; [done|]); apply list.Forall_forall; exact Hm.
Qed.

(** Removing a list of keys. *)
Definition bt_remove_keys (ks : list Z) (m : btree V) : btree V :=
  fold_left (fun m k => bt_remove k m) ks m.

Lemma bt_remove_keys_spec ks m :
  bt_sorted m ->
  bt_sorted (bt_remove_keys ks m) /\
  forall j, bt_get j (bt_remove_keys ks m) = if decide (j ∈ ks) then None else bt_get j m.
Proof.
  revert m. induction ks as [|k ks IH]; intros m Hs; cbn [bt_remove_keys fold_left].
  - split; [done|]. intros j. by case_decide as Hd; [apply elem_of_nil in Hd|].
  - destruct (IH (bt_remove k m) (bt_sorted_remove k m Hs)) as [Hs' Hg]. split; [done|].
    intros j. unfold bt_remove_keys in Hg. rewrite Hg, bt_get_remove by done.
    destruct (Z.eqb_spec j k) as [->|Hne].
    + rewrite (decide_True (P := k ∈ k :: ks)) by (by left). by case_decide.
    + case_decide as Hd; case_decide as Hd'; try done.
      * destruct Hd'. by right.
      * apply elem_of_cons in Hd' as [|]; done.
Qed.

(** Removing every key of a range. *)
Lemma bt_remove_range lo hi m :
  bt_sorted m ->
  let m' := bt_remove_keys (map fst (bt_range lo hi m)) m in
  bt_sorted m' /\
  forall j, bt_get j m' = if (lo <=? j) && (j <? hi) then None else bt_get j m.
Proof.
  intros Hs m'. destruct (bt_remove_keys_spec (map fst (bt_range lo hi m)) m Hs) as [Hs' Hg].
  split; [done|]. intros j. unfold m'. rewrite Hg.
  assert (j ∈ map fst (bt_range lo hi m) <-> exists v, bt_get j (bt_range lo hi m) = Some v) as Hin.
  { pose proof (bt_sorted_filter (fun p => lo <= p.1 < hi) m Hs) as Hsr. split.
    - intros ([k v] & -> & Hp)%list_elem_of_fmap. exists v. by apply bt_get_elem.
    - intros [v Hv]. apply list_elem_of_fmap. exists (j, v). split; [done|]. by apply bt_get_elem. }
  rewrite bt_get_range in Hin by done. case_decide as Hd.
  - apply Hin in Hd as [v Hv]. by destruct (_ && _).
  - destruct (_ && _); [|done]. destruct (bt_get j m) as [v|]; [|done].
    destruct Hd. apply Hin. by exists v.
Qed.
End btree.
