(* ===== verification/Region.v ===== *)
(** * Regions of a user address space (crates/vetro-cpu/src/mem.rs, [Perm],
    [Backing] and [Region])

    A region is backed by private lazy pages or by a window of a shared
    buffer. Shared buffers ([Rc<RefCell<Vec<u8>>>]) live in a store indexed by
    their identity, so two regions over the same buffer see each other's
    writes. [region_byte] is the abstract content; the loops over pages of
    [read] and [write] are proved to read and write it. *)

From Stdlib Require Import ZArith Lia Bool.
From stdpp Require Import base gmap list numbers.
From S2P Require Import Prelude Memory.
Local Open Scope Z_scope.
Local Open Scope vetro_scope.

Record Perm := MkPerm { p_read : bool; p_write : bool; p_exec : bool }.

Module perm.
Definition NONE := MkPerm false false false.
Definition R := MkPerm true false false.
Definition RW := MkPerm true true false.
Definition RX := MkPerm true false true.
Definition RWX := MkPerm true true true.
End perm.

Definition from_prot (prot : Z) : Perm :=
  MkPerm (negb (Z.land prot 1 =? 0)) (negb (Z.land prot 2 =? 0)) (negb (Z.land prot 4 =? 0)).

Definition allows (p : Perm) (a : Access) : bool :=
  match a with Read => p_read p | Write => p_write p | Fetch => p_exec p end.

Definition PAGE : Z := 4096.

(** Memory behind a region. *)
Inductive Backing :=
| Pages (pages : gmap Z (list Z)) (base : Z)
| Shared (buf : Z) (base : Z).

Record Region := MkRegion {
  reg_backing : Backing;
  reg_len : Z;
  reg_perm : Perm;
  reg_may_write : bool;
  reg_grows_down : bool;
  reg_populated : bool;
}.

#[export] Instance eta_Region : Eta Region := fun r =>
  MkRegion (reg_backing r) (reg_len r) (reg_perm r) (reg_may_write r) (reg_grows_down r)
    (reg_populated r).

(** The shared buffers, by identity. *)
Abbreviation heap := (gmap Z (list Z)).
Definition buf_of (h : heap) (b : Z) : list Z := default [] (h !! b).

Definition zero_page : list Z := replicate 4096 0.

(** Loop of [Region::own]: page [i] holds the [i]-th chunk, unless it is all
    zeros. *)
Fixpoint own_pages (fuel : nat) (i : Z) (data : list Z) : gmap Z (list Z) :=
  match fuel, data with
  | S fuel', _ :: _ =>
      let chunk := take 4096 data in
      let rest := own_pages fuel' (i + 1) (drop 4096 data) in
      if existsb (fun b => negb (b =? 0)) chunk
      then <[i := chunk ++ replicate (4096 - length chunk) 0]> rest else rest
  | _, _ => ∅
  end.

(** Private region with initial content. *)
Definition region_own (data : list Z) (perm : Perm) : Region :=
  MkRegion (Pages (own_pages (length data) 0 data) 0) (Z.of_nat (length data)) perm true false true.

(** All-zero private region, without allocating anything. *)
Definition region_zeroed (len : Z) (perm : Perm) : Region :=
  MkRegion (Pages ∅ 0) len perm true false false.

(** The page loop of [Region::read], from absolute offset [abs]. *)
Fixpoint pages_read (fuel : nat) (pages : gmap Z (list Z)) (abs n : Z) : list Z :=
  match fuel with
  | O => []
  | S fuel' =>
      if 0 <? n then
        let pi := abs / PAGE in
        let po := abs mod PAGE in
        let k := Z.min (PAGE - po) n in
        match pages !! pi with
        | Some p => take (Z.to_nat k) (drop (Z.to_nat po) p)
        | None => replicate (Z.to_nat k) 0
        end ++ pages_read fuel' pages (abs + k) (n - k)
      else []
  end.

(** [Region::read] of [n] bytes at offset [off]. *)
Definition region_read (h : heap) (r : Region) (off n : Z) : list Z :=
  match reg_backing r with
  | Pages pages base => pages_read (Z.to_nat n) pages (base + off) n
  | Shared b base =>
      let start := base + off in
      map (fun i => default 0 (buf_of h b !! Z.to_nat (start + i))) (seqZ 0 n)
  end.

(** The page loop of [Region::write]. *)
Fixpoint pages_write (fuel : nat) (pages : gmap Z (list Z)) (abs : Z) (data : list Z)
    : gmap Z (list Z) :=
  match fuel with
  | O => pages
  | S fuel' =>
      if 0 <? Z.of_nat (length data) then
        let pi := abs / PAGE in
        let po := abs mod PAGE in
        let k := Z.min (PAGE - po) (Z.of_nat (length data)) in
        let p := default zero_page (pages !! pi) in
        let p' := take (Z.to_nat po) p ++ take (Z.to_nat k) data ++ drop (Z.to_nat (po + k)) p in
        pages_write fuel' (<[pi := p']> pages) (abs + k) (drop (Z.to_nat k) data)
      else pages
  end.

(** [b.resize(n, 0)] if [b] is shorter, then [b[start..].copy_from_slice(data)]. *)
Definition buf_write (b : list Z) (start : Z) (data : list Z) : list Z :=
  let n := (Z.to_nat start + length data)%nat in
  let b := if (length b <? n)%nat then b ++ replicate (n - length b) 0 else b in
  take (Z.to_nat start) b ++ data ++ drop n b.

Definition region_write (h : heap) (r : Region) (off : Z) (data : list Z) : heap * Region :=
  match reg_backing r with
  | Pages pages base =>
      (h, r <| reg_backing := Pages (pages_write (length data) pages (base + off) data) base |>)
  | Shared b base => (<[b := buf_write (buf_of h b) (base + off) data]> h, r)
  end.

(** Byte [off] is in a page that starts beyond the end of the shared buffer. *)
Definition past_end (h : heap) (r : Region) (off : Z) : bool :=
  match reg_backing r with
  | Shared b base =>
      let page := Z.land (base + off) (u64 (Z.lnot (PAGE - 1))) in
      Z.of_nat (length (buf_of h b)) <=? page
  | Pages _ _ => false
  end.

(** Splits the region [k] bytes from the start: the head and the tail. *)
Definition split_off (r : Region) (k : Z) : Region * Region :=
  let '(head, tail) :=
    match reg_backing r with
    | Pages pages base =>
        let abs := base + k in
        let first := abs / PAGE in
        let tail_pages := filter (fun p => first <= p.1) pages in
        let head_pages := filter (fun p => p.1 < first) pages in
        let head_pages :=
          if negb (abs mod PAGE =? 0) then
            match tail_pages !! first with
            | Some p => <[first := p]> head_pages
            | None => head_pages
            end
          else head_pages in
        (Pages head_pages base, Pages tail_pages abs)
    | Shared b base => (Shared b base, Shared b (base + k))
    end in
  (r <| reg_backing := head |> <| reg_len := k |>,
   MkRegion tail (reg_len r - k) (reg_perm r) (reg_may_write r) (reg_grows_down r)
     (reg_populated r)).

(** ** Content of a region *)

(** Byte at absolute offset [k] of the pages: absent pages read as zero. *)
Definition page_byte (pages : gmap Z (list Z)) (k : Z) : Z :=
  match pages !! (k / PAGE) with
  | Some p => p !!! Z.to_nat (k mod PAGE)
  | None => 0
  end.

Definition buf_byte (b : list Z) (k : Z) : Z := default 0 (b !! Z.to_nat k).

Definition region_byte (h : heap) (r : Region) (off : Z) : Z :=
  match reg_backing r with
  | Pages pages base => page_byte pages (base + off)
  | Shared b base => buf_byte (buf_of h b) (base + off)
  end.

Definition pages_ok (pages : gmap Z (list Z)) : Prop :=
  map_Forall (fun _ p => length p = 4096%nat /\ bytes_ok p) pages.

Definition region_ok (r : Region) : Prop :=
  match reg_backing r with
  | Pages pages base => pages_ok pages /\ 0 <= base
  | Shared _ base => 0 <= base /\ base + reg_len r <= 2 ^ 64
  end.

Definition heap_ok (h : heap) : Prop := map_Forall (fun _ b => bytes_ok b) h.

Lemma page_div_mod k : 0 <= k -> k = PAGE * (k / PAGE) + k mod PAGE /\ 0 <= k mod PAGE < PAGE.
Proof.
  intros. unfold PAGE. pose proof (Z.div_mod k 4096 ltac:(lia)).
  pose proof (Z.mod_pos_bound k 4096 ltac:(lia)). lia.
Qed.

(** Offsets within one page. *)
Lemma same_page k j : 0 <= k -> 0 <= j -> k mod PAGE + j < PAGE ->
  (k + j) / PAGE = k / PAGE /\ (k + j) mod PAGE = k mod PAGE + j.
Proof.
  intros Hk Hj Hlt. destruct (page_div_mod k Hk) as [He Hm]. unfold PAGE in *. split.
  - symmetry. apply Z.div_unique_pos with (k mod 4096 + j); lia.
  - symmetry. apply Z.mod_unique_pos with (k / 4096); lia.
Qed.

Lemma page_chunk k n : 0 <= k -> 0 < n -> 0 < Z.min (PAGE - k mod PAGE) n <= n.
Proof. intros. destruct (page_div_mod k) as [_ ?]; [done|]. lia. Qed.

Lemma map_seqZ_app {A} (f : Z -> A) a b :
  0 <= a -> 0 <= b ->
  map f (seqZ 0 (a + b)) = map f (seqZ 0 a) ++ map (fun i => f (a + i)) (seqZ 0 b).
Proof.
  intros. rewrite seqZ_app, map_app by done. f_equal.
  pose proof (fmap_add_seqZ a 0 b) as E. rewrite Z.add_0_r in E.
  rewrite Z.add_0_l, <- E. apply map_map.
Qed.

(** The bytes of one page, from [po] on. *)
Lemma page_slice (p : list Z) po k :
  length p = 4096%nat -> 0 <= po -> 0 <= k -> po + k <= PAGE ->
  take (Z.to_nat k) (drop (Z.to_nat po) p) = map (fun i => p !!! Z.to_nat (po + i)) (seqZ 0 k).
Proof.
  intros Hlen Hpo Hk Hle. unfold PAGE in *. apply list_eq_same_length with (Z.to_nat k).
  - by rewrite length_map, length_seqZ.
  - rewrite length_take, length_drop. lia.
  - intros i x y Hi Hx Hy. rewrite list_lookup_fmap, lookup_seqZ_lt in Hy by lia.
    rewrite lookup_take_lt, lookup_drop in Hx by lia. injection Hy as <-.
    symmetry. apply list_lookup_total_correct. rewrite <- Hx. f_equal. lia.
Qed.

Lemma map_const_seqZ {A} (c : A) k : map (fun _ => c) (seqZ 0 k) = replicate (Z.to_nat k) c.
Proof.
  unfold seqZ. rewrite map_map. generalize 0%nat (Z.to_nat k). intros st n. revert st.
  induction n as [|n IH]; intros st; simpl; [done|]. by rewrite IH.
Qed.

Lemma pages_read_spec fuel pages abs n :
  pages_ok pages -> 0 <= abs -> n <= Z.of_nat fuel ->
  pages_read fuel pages abs n = map (fun i => page_byte pages (abs + i)) (seqZ 0 n).
Proof.
  intros Hok. revert abs n. induction fuel as [|fuel IH]; intros abs n Habs Hn; cbn [pages_read].
  { by rewrite seqZ_nil by lia. }
  destruct (Z.ltb_spec 0 n); [|by rewrite seqZ_nil by lia].
  pose proof (page_chunk abs n Habs ltac:(lia)) as Hk. set (k := Z.min _ n) in *.
  destruct (page_div_mod abs Habs) as [He Hm].
  rewrite IH by lia. replace n with (k + (n - k)) at 2 by lia.
  rewrite map_seqZ_app by lia. f_equal; cycle 1.
  { apply map_ext. intros i. by rewrite Z.add_assoc. }
  assert (forall i, 0 <= i < k -> page_byte pages (abs + i) =
    match pages !! (abs / PAGE) with
    | Some p => p !!! Z.to_nat (abs mod PAGE + i) | None => 0 end) as Hb.
  { intros i Hi. unfold page_byte. destruct (same_page abs i) as [-> ->]; [lia..|done]. }
  assert (map (fun i => page_byte pages (abs + i)) (seqZ 0 k) =
    map (fun i => match pages !! (abs / PAGE) with
      | Some p => p !!! Z.to_nat (abs mod PAGE + i) | None => 0 end) (seqZ 0 k)) as ->.
  { apply map_ext_in. intros i Hi%list_elem_of_In%elem_of_seqZ. apply Hb. lia. }
  destruct (pages !! (abs / PAGE)) as [p|] eqn:Ep; [|by rewrite map_const_seqZ].
  destruct (Hok _ _ Ep) as [Hlen _]. apply page_slice; lia.
Qed.

(** Replacing [k] bytes of a list from [po]. *)
Lemma splice_lookup (p d : list Z) po k i :
  (po + k <= length p)%nat -> length d = k ->
  (take po p ++ d ++ drop (po + k) p) !!! i =
    if decide (po <= i < po + k)%nat then d !!! (i - po)%nat else p !!! i.
Proof.
  intros Hp Hd. case_decide as Hi; rewrite !list_lookup_total_alt; f_equal.
  - rewrite lookup_app_r by (rewrite length_take; lia).
    rewrite length_take, Nat.min_l by lia. by rewrite lookup_app_l by lia.
  - destruct (decide (i < po)%nat).
    + rewrite lookup_app_l by (rewrite length_take; lia). by rewrite lookup_take_lt.
    + rewrite lookup_app_r by (rewrite length_take; lia).
      rewrite length_take, Nat.min_l by lia. rewrite lookup_app_r by lia.
      rewrite lookup_drop. f_equal. lia.
Qed.

Lemma splice_length (p d : list Z) po k :
  (po + k <= length p)%nat -> length d = k ->
  length (take po p ++ d ++ drop (po + k) p) = length p.
Proof. intros. rewrite !length_app, length_take, length_drop. lia. Qed.

Lemma zero_page_ok : length zero_page = 4096%nat /\ bytes_ok zero_page.
Proof.
  split; [apply length_replicate|]. apply Forall_replicate. unfold is_u. lia.
Qed.

Lemma page_or_zero_ok pages k :
  pages_ok pages ->
  length (default zero_page (pages !! k)) = 4096%nat /\ bytes_ok (default zero_page (pages !! k)).
Proof.
  intros Hok. destruct (pages !! k) as [p|] eqn:E; [exact (Hok _ _ E)|apply zero_page_ok].
Qed.

Lemma page_byte_default pages k :
  0 <= k -> page_byte pages k = default zero_page (pages !! (k / PAGE)) !!! Z.to_nat (k mod PAGE).
Proof.
  intros Hk. unfold page_byte. destruct (pages !! _); [done|]. cbn [default].
  destruct (page_div_mod k Hk) as [_ Hm]. unfold zero_page, PAGE in *.
  by rewrite lookup_total_replicate_2 by lia.
Qed.

(** One iteration of the write loop. *)
Lemma page_write_step pages abs k data j :
  pages_ok pages -> 0 <= abs -> 0 < k -> abs mod PAGE + k <= PAGE ->
  k <= Z.of_nat (length data) -> 0 <= j ->
  let po := abs mod PAGE in
  let p := default zero_page (pages !! (abs / PAGE)) in
  let p' := take (Z.to_nat po) p ++ take (Z.to_nat k) data ++ drop (Z.to_nat (po + k)) p in
  page_byte (<[abs / PAGE := p']> pages) j =
    if (abs <=? j) && (j <? abs + k) then data !!! Z.to_nat (j - abs) else page_byte pages j.
Proof.
  intros Hok Habs Hk Hpage Hlen Hj po p p'.
  destruct (page_or_zero_ok pages (abs / PAGE) Hok) as [Hp _]. fold p in Hp.
  destruct (page_div_mod abs Habs) as [He Hm]. destruct (page_div_mod j Hj) as [Hje Hjm].
  unfold page_byte. destruct (Z.eq_dec (j / PAGE) (abs / PAGE)) as [Heq|Hne].
  - rewrite Heq, lookup_insert_eq. unfold p'. rewrite Z2Nat.inj_add by lia.
    rewrite splice_lookup; [|unfold PAGE in *; lia|rewrite length_take; lia].
    case_decide as Hd.
    + replace ((abs <=? j) && (j <? abs + k)) with true
        by (symmetry; apply andb_true_iff; split; [apply Z.leb_le|apply Z.ltb_lt]; lia).
      rewrite list_lookup_total_alt, lookup_take_lt by lia.
      rewrite list_lookup_total_alt. do 2 f_equal. lia.
    + replace ((abs <=? j) && (j <? abs + k)) with false
        by (symmetry; apply andb_false_iff; rewrite Z.leb_gt, Z.ltb_ge; lia).
      unfold p. rewrite <- Heq. rewrite <- page_byte_default by done. done.
  - rewrite lookup_insert_ne by done.
    replace ((abs <=? j) && (j <? abs + k)) with false; [done|].
    symmetry. apply andb_false_iff. rewrite Z.leb_gt, Z.ltb_ge.
    destruct (Z.lt_ge_cases j abs); [by left|right].
    destruct (Z.lt_ge_cases j (abs + k)); [|done]. exfalso. apply Hne.
    replace j with (abs + (j - abs)) by lia. apply same_page; lia.
Qed.

Lemma bytes_ok_app l1 l2 : bytes_ok l1 -> bytes_ok l2 -> bytes_ok (l1 ++ l2).
Proof. apply Forall_app_2. Qed.

Lemma pages_ok_insert pages i p :
  pages_ok pages -> length p = 4096%nat -> bytes_ok p -> pages_ok (<[i := p]> pages).
Proof. intros. by apply map_Forall_insert_2. Qed.

Lemma pages_write_spec fuel pages abs data :
  pages_ok pages -> bytes_ok data -> 0 <= abs -> (length data <= fuel)%nat ->
  pages_ok (pages_write fuel pages abs data) /\
  forall j, 0 <= j -> page_byte (pages_write fuel pages abs data) j =
    if (abs <=? j) && (j <? abs + Z.of_nat (length data))
    then data !!! Z.to_nat (j - abs) else page_byte pages j.
Proof.
  revert pages abs data. induction fuel as [|fuel IH]; intros pages abs data Hok Hd Habs Hf;
    cbn [pages_write].
  { split; [done|]. intros j Hj. destruct (Z.leb_spec abs j), (Z.ltb_spec j (abs + Z.of_nat (length data)));
      simpl; done || lia. }
  destruct (Z.ltb_spec 0 (Z.of_nat (length data))); cycle 1.
  { split; [done|]. intros j Hj. destruct (Z.leb_spec abs j), (Z.ltb_spec j (abs + Z.of_nat (length data)));
      simpl; done || lia. }
  pose proof (page_chunk abs (Z.of_nat (length data)) Habs ltac:(lia)) as Hk.
  set (k := Z.min _ _) in *. set (p := default zero_page _). set (p' := take _ p ++ _).
  destruct (page_or_zero_ok pages (abs / PAGE) Hok) as [Hp Hpb]. fold p in Hp, Hpb.
  destruct (page_div_mod abs Habs) as [He Hm].
  assert (pages_ok (<[abs / PAGE := p']> pages)) as Hok'.
  { apply pages_ok_insert; [done| |].
    - unfold p'. rewrite Z2Nat.inj_add by lia.
      rewrite splice_length; [done|unfold PAGE in *; lia|rewrite length_take; lia].
    - unfold p'. repeat apply bytes_ok_app; [by apply Forall_take|by apply Forall_take|by apply Forall_drop]. }
  destruct (IH (<[abs / PAGE := p']> pages) (abs + k) (drop (Z.to_nat k) data)) as [IH1 IH2];
    [done|by apply Forall_drop|lia|rewrite length_drop; lia|].
  split; [done|]. intros j Hj. rewrite IH2 by done.
  unfold p', p. rewrite page_write_step by (done || lia).
  rewrite length_drop, Nat2Z.inj_sub, Z2Nat.id by lia.
  replace (abs + k + (Z.of_nat (length data) - k)) with (abs + Z.of_nat (length data)) by lia.
  destruct (Z.leb_spec (abs + k) j), (Z.leb_spec abs j), (Z.ltb_spec j (abs + k)),
    (Z.ltb_spec j (abs + Z.of_nat (length data))); cbn [andb]; try lia; try done.
  rewrite !list_lookup_total_alt, lookup_drop. do 2 f_equal. lia.
Qed.

Lemma buf_byte_nonneg_ok b k : bytes_ok b -> is_u 8 (buf_byte b k).
Proof.
  intros Hb. unfold buf_byte. destruct (b !! Z.to_nat k) as [x|] eqn:E; cbn.
  - exact (Forall_lookup_1 _ _ _ _ Hb E).
  - unfold is_u. lia.
Qed.

Lemma buf_write_spec b start data j :
  0 <= start -> 0 <= j ->
  buf_byte (buf_write b start data) j =
    if (start <=? j) && (j <? start + Z.of_nat (length data))
    then data !!! Z.to_nat (j - start) else buf_byte b j.
Proof.
  intros Hs Hj. unfold buf_write. set (n := (Z.to_nat start + length data)%nat).
  set (b' := if (length b <? n)%nat then _ else _).
  assert (n <= length b')%nat as Hn.
  { unfold b'. destruct (Nat.ltb_spec (length b) n); [|done].
    rewrite length_app, length_replicate. lia. }
  assert (forall i, default 0 (b' !! i) = default 0 (b !! i)) as Hb'.
  { intros i. unfold b'. destruct (Nat.ltb_spec (length b) n); [|done].
    destruct (decide (i < length b)%nat); [by rewrite lookup_app_l|].
    rewrite lookup_app_r, (lookup_ge_None_2 b) by lia.
    destruct (replicate _ _ !! _) eqn:E; [|done]. by apply lookup_replicate in E as [-> _]. }
  unfold buf_byte. destruct (Z.leb_spec start j); cbn [andb].
  - destruct (Z.ltb_spec j (start + Z.of_nat (length data))).
    + rewrite lookup_app_r by (rewrite length_take; lia).
      rewrite length_take, Nat.min_l, lookup_app_l by lia.
      replace (Z.to_nat j - Z.to_nat start)%nat with (Z.to_nat (j - start)) by lia.
      destruct (lookup_lt_is_Some_2 data (Z.to_nat (j - start))) as [x Hx]; [lia|].
      rewrite Hx. symmetry. by apply list_lookup_total_correct.
    + rewrite lookup_app_r by (rewrite length_take; lia).
      rewrite length_take, Nat.min_l, lookup_app_r by lia. rewrite lookup_drop.
      rewrite <- Hb'. do 2 f_equal. lia.
  - rewrite lookup_app_l by (rewrite length_take; lia).
    rewrite lookup_take_lt by lia. apply Hb'.
Qed.

Lemma buf_write_ok b start data : bytes_ok b -> bytes_ok data -> bytes_ok (buf_write b start data).
Proof.
  intros Hb Hd. unfold buf_write. set (b' := if (_ <? _)%nat then _ else _).
  assert (bytes_ok b').
  { unfold b'. destruct (_ <? _)%nat; [|done]. apply bytes_ok_app; [done|].
    apply Forall_replicate. unfold is_u. lia. }
  repeat apply bytes_ok_app; [by apply Forall_take|done|by apply Forall_drop].
Qed.

Lemma heap_ok_buf h b : heap_ok h -> bytes_ok (buf_of h b).
Proof.
  intros Hh. unfold buf_of. destruct (h !! b) as [l|] eqn:E; cbn; [exact (Hh _ _ E)|constructor].
Qed.

Lemma region_byte_ok h r off :
  heap_ok h -> region_ok r -> 0 <= off -> is_u 8 (region_byte h r off).
Proof.
  intros Hh Hr Hoff. unfold region_byte, region_ok in *. destruct (reg_backing r) as [pages base|b base].
  - destruct Hr as [Hok Hb]. rewrite page_byte_default by lia.
    destruct (page_or_zero_ok pages ((base + off) / PAGE) Hok) as [Hlen Hby].
    eapply Forall_lookup_total_1; [exact Hby|]. rewrite Hlen.
    destruct (page_div_mod (base + off)) as [_ Hm]; [lia|]. unfold PAGE in *. lia.
  - apply buf_byte_nonneg_ok. by apply heap_ok_buf.
Qed.

(** [Region::read] yields the content. *)
Lemma region_read_spec h r off n :
  region_ok r -> 0 <= off ->
  region_read h r off n = map (fun i => region_byte h r (off + i)) (seqZ 0 n).
Proof.
  intros Hr Hoff. unfold region_read, region_byte, region_ok in *.
  destruct (reg_backing r) as [pages base|b base].
  - destruct Hr as [Hok Hb]. rewrite pages_read_spec; [|done|lia|lia].
    apply map_ext. intros i. by rewrite Z.add_assoc.
  - apply map_ext. intros i. unfold buf_byte. by rewrite Z.add_assoc.
Qed.

(** [Region::write]: the content changes at the offsets written and nowhere
    else in the region; a private write leaves the shared buffers alone, a
    shared one changes its buffer only. *)
Lemma region_write_spec h r off data h' r' :
  region_ok r -> heap_ok h -> bytes_ok data -> 0 <= off ->
  region_write h r off data = (h', r') ->
  region_ok r' /\ heap_ok h' /\
  reg_len r' = reg_len r /\ reg_perm r' = reg_perm r /\ reg_may_write r' = reg_may_write r /\
  reg_grows_down r' = reg_grows_down r /\ reg_populated r' = reg_populated r /\
  match reg_backing r with
  | Pages pages base =>
      h' = h /\ (exists pages', reg_backing r' = Pages pages' base) /\
      forall j, 0 <= j -> region_byte h' r' j =
        if (off <=? j) && (j <? off + Z.of_nat (length data))
        then data !!! Z.to_nat (j - off) else region_byte h r j
  | Shared b base =>
      r' = r /\ forall b' k, 0 <= k -> buf_byte (buf_of h' b') k =
        if (b' =? b) && ((base + off <=? k) && (k <? base + off + Z.of_nat (length data)))
        then data !!! Z.to_nat (k - (base + off)) else buf_byte (buf_of h b') k
  end.
Proof.
  intros Hr Hh Hd Hoff Hw. unfold region_write, region_ok in *.
  destruct r as [backing len pm mw gd pop]. cbn [reg_backing] in *.
  destruct backing as [pages base|b base]; injection Hw as <- <-.
  - destruct Hr as [Hok Hb].
    destruct (pages_write_spec (length data) pages (base + off) data) as [Hok' Hby]; [done|done|lia|lia|].
    split; [done|]. split; [done|]. do 5 (split; [done|]). split; [done|].
    split; [by eexists|]. intros j Hj.
    cbn [region_byte reg_backing update]. unfold region_byte. cbn [reg_backing].
    rewrite Hby by lia.
    replace (base + off <=? base + j) with (off <=? j) by lia.
    replace (base + j <? base + off + Z.of_nat (length data)) with
      (j <? off + Z.of_nat (length data)) by lia.
    by replace (base + j - (base + off)) with (j - off) by lia.
  - split; [done|]. split.
    { apply map_Forall_insert_2; [|done]. apply buf_write_ok; [by apply heap_ok_buf|done]. }
    do 5 (split; [done|]). split; [done|]. intros b' k Hk.
    destruct (Z.eqb_spec b' b) as [->|Hne]; cbn [andb].
    + unfold buf_of. rewrite lookup_insert_eq. cbn [default]. apply buf_write_spec; lia.
    + unfold buf_of. by rewrite lookup_insert_ne by done.
Qed.

Lemma filter_page pages (P : Z -> Prop) `{!forall k, Decision (P k)} k :
  P (k / PAGE) -> page_byte (filter (fun p => P p.1) pages) k = page_byte pages k.
Proof.
  intros HP. unfold page_byte. destruct (pages !! (k / PAGE)) as [p|] eqn:E.
  - by rewrite (map_lookup_filter_Some_2 _ _ _ _ E HP).
  - rewrite map_lookup_filter_None_2; [done|by left].
Qed.

Lemma pages_ok_filter pages (P : Z * list Z -> Prop) `{!forall k, Decision (P k)} :
  pages_ok pages -> pages_ok (filter P pages).
Proof. intros Hok i p [Hp _]%map_lookup_filter_Some. exact (Hok _ _ Hp). Qed.

(** [Region::split_off]: head and tail have the content, the permissions and
    the backing of the region they come from. *)
Lemma split_off_spec h r k head tail :
  region_ok r -> 0 <= k <= reg_len r -> split_off r k = (head, tail) ->
  region_ok head /\ region_ok tail /\ reg_len head = k /\ reg_len tail = reg_len r - k /\
  (forall j, 0 <= j < k -> region_byte h head j = region_byte h r j) /\
  (forall j, 0 <= j -> region_byte h tail j = region_byte h r (k + j)).
Proof.
  intros Hr Hk Hs. unfold split_off, region_ok in *.
  destruct r as [backing len pm mw gd pop]. cbn [reg_backing reg_len reg_perm reg_may_write
    reg_grows_down reg_populated] in *.
  destruct backing as [pages base|b base]; injection Hs as <- <-;
    unfold update, region_byte; cbn [reg_backing reg_len]; cycle 1.
  { split; [lia|]. split; [lia|]. do 2 (split; [done|]). split; [done|].
    intros j Hj. f_equal. lia. }
  destruct Hr as [Hok Hb].
  set (first := (base + k) / PAGE). set (tl := filter (fun p => first <= p.1) pages).
  set (hd := filter (fun p => p.1 < first) pages).
  assert (pages_ok tl) as Htl by (by apply pages_ok_filter).
  assert (pages_ok hd) as Hhd by (by apply pages_ok_filter).
  assert (forall i, i < first -> hd !! i = pages !! i) as Hlow.
  { intros i Hi. unfold hd. destruct (pages !! i) as [p|] eqn:E.
    - by apply map_lookup_filter_Some_2. - apply map_lookup_filter_None_2. by left. }
  assert (forall j, 0 <= j -> base + k <= j -> page_byte tl j = page_byte pages j) as Htail.
  { intros j H0 Hj. apply (filter_page pages (fun i => first <= i)). unfold first, PAGE.
    apply Z.div_le_mono; lia. }
  split; [|split; [split; [done|lia]|]].
  { split; [|lia]. destruct (negb _); [|done]. destruct (tl !! first) as [p|] eqn:E; [|done].
    destruct (Htl _ _ E). by apply pages_ok_insert. }
  do 2 (split; [done|]). split; [|intros j Hj; rewrite Htail by lia; f_equal; lia].
  intros j Hj. unfold page_byte.
  assert ((base + j) / PAGE <= first) as Hle by (apply Z.div_le_mono; unfold PAGE; lia).
  destruct (Z.eq_dec ((base + j) / PAGE) first) as [Heq|Hne]; cycle 1.
  - assert ((base + j) / PAGE < first) as Hlt by lia.
    destruct (negb _); [|by rewrite Hlow].
    destruct (tl !! first); [|by rewrite Hlow].
    rewrite lookup_insert_ne by lia. by rewrite Hlow.
  - (* the split falls inside this page, which is copied *)
    assert ((base + k) mod PAGE <> 0) as Hmod.
    { intros Hz. destruct (page_div_mod (base + k)) as [He _]; [lia|].
      destruct (page_div_mod (base + j)) as [He' Hm']; [lia|]. fold first in He.
      rewrite Heq in He'. lia. }
    apply Z.eqb_neq in Hmod. rewrite Hmod. cbn [negb]. rewrite Heq.
    assert (tl !! first = pages !! first) as Hf.
    { unfold tl. destruct (pages !! first) as [p|] eqn:E.
      - apply map_lookup_filter_Some_2; [done|simpl; lia].
      - apply map_lookup_filter_None_2. by left. }
    rewrite Hf. destruct (pages !! first) as [p|] eqn:E; [by rewrite lookup_insert_eq|].
    unfold hd. rewrite map_lookup_filter_None_2; [done|by left].
Qed.

(** Content of a new region. *)
Lemma existsb_zero (l : list Z) : existsb (fun b => negb (b =? 0)) l = false -> forall i, default 0 (l !! i) = 0.
Proof.
  intros Hl i. destruct (l !! i) as [x|] eqn:E; [|done]. cbn.
  destruct (Z.eqb_spec x 0); [done|]. exfalso.
  assert (existsb (fun b => negb (b =? 0)) l = true) as Ht; [|congruence].
  apply existsb_exists. exists x. split; [by eapply list_elem_of_In, list_elem_of_lookup_2|].
  apply negb_true_iff. by apply Z.eqb_neq.
Qed.

Lemma own_pages_lookup fuel i data :
  (length data <= fuel)%nat ->
  (forall j, j < i -> own_pages fuel i data !! j = None) /\
  forall o, i * PAGE <= o -> page_byte (own_pages fuel i data) o = buf_byte data (o - i * PAGE).
Proof.
  revert i data. induction fuel as [|fuel IH]; intros i data Hf.
  { destruct data; [|simpl in Hf; lia]. cbn [own_pages]. split; [intros; apply lookup_empty|].
    intros o Ho. unfold page_byte. by rewrite lookup_empty. }
  destruct data as [|x data]; cbn [own_pages].
  { split; [intros; apply lookup_empty|]. intros o Ho. unfold page_byte. by rewrite lookup_empty. }
  set (l := x :: data) in *. destruct (IH (i + 1) (drop 4096 l)) as [IH1 IH2].
  { rewrite length_drop. lia. }
  set (rest := own_pages fuel (i + 1) (drop 4096 l)) in *.
  set (chunk := take 4096 l).
  split.
  { intros j Hj. destruct (existsb _ _); [rewrite lookup_insert_ne by lia|]; apply IH1; lia. }
  intros o Ho. unfold PAGE in *.
  destruct (Z.lt_ge_cases o ((i + 1) * 4096)) as [Hlt|Hge].
  - assert (o / 4096 = i) as Hdiv by (symmetry; apply Z.div_unique_pos with (o - i * 4096); lia).
    assert (o mod 4096 = o - i * 4096) as Hmod by (symmetry; apply Z.mod_unique_pos with i; lia).
    assert (chunk !! Z.to_nat (o - i * 4096) = l !! Z.to_nat (o - i * 4096)) as Hc
      by (unfold chunk; by rewrite lookup_take_lt by lia).
    unfold page_byte, buf_byte, PAGE. rewrite Hdiv, Hmod, <- Hc.
    destruct (existsb _ chunk) eqn:Ee.
    + rewrite lookup_insert_eq. destruct (chunk !! Z.to_nat (o - i * 4096)) eqn:El; cbn [default from_option].
      * apply list_lookup_total_correct. by apply lookup_app_l_Some.
      * apply lookup_ge_None in El. apply list_lookup_total_correct.
        rewrite lookup_app_r by done. apply lookup_replicate_2.
        assert (length chunk <= 4096)%nat by (unfold chunk; rewrite length_take; lia). lia.
    + rewrite IH1 by lia. symmetry. by apply existsb_zero.
  - assert (i + 1 <= o / 4096) by (apply Z.div_le_lower_bound; lia).
    assert (page_byte (if existsb (fun b => negb (b =? 0)) chunk
      then <[i := chunk ++ replicate (4096 - length chunk) 0]> rest else rest) o
      = page_byte rest o) as ->.
    { destruct (existsb _ _); [|done]. unfold page_byte, PAGE.
      by rewrite lookup_insert_ne by lia. }
    rewrite IH2 by lia. unfold buf_byte. rewrite lookup_drop. do 2 f_equal. lia.
Qed.

Lemma own_pages_ok fuel i data : bytes_ok data -> pages_ok (own_pages fuel i data).
Proof.
  revert i data. induction fuel as [|fuel IH]; intros i data Hd; [apply map_Forall_empty|].
  destruct data as [|x data]; cbn [own_pages]; [apply map_Forall_empty|].
  set (l := x :: data) in *.
  assert (pages_ok (own_pages fuel (i + 1) (drop 4096 l))) by (apply IH; by apply Forall_drop).
  destruct (existsb _ _); [|done]. apply pages_ok_insert; [done| |].
  - rewrite length_app, length_replicate, length_take. lia.
  - apply bytes_ok_app; [by apply Forall_take|]. apply Forall_replicate. unfold is_u. lia.
Qed.

Lemma region_own_spec h data perm :
  bytes_ok data ->
  region_ok (region_own data perm) /\
  forall j, 0 <= j -> region_byte h (region_own data perm) j = buf_byte data j.
Proof.
  intros Hd. split; [split; [by apply own_pages_ok|lia]|]. intros j Hj.
  unfold region_byte, region_own. cbn [reg_backing].
  destruct (own_pages_lookup (length data) 0 data) as [_ Hb]; [lia|].
  rewrite Hb by (unfold PAGE; lia). f_equal. lia.
Qed.

Lemma region_zeroed_spec h len perm :
  region_ok (region_zeroed len perm) /\ forall j, region_byte h (region_zeroed len perm) j = 0.
Proof.
  split; [split; [apply map_Forall_empty|lia]|]. intros j. unfold region_byte, page_byte.
  cbn. by rewrite lookup_empty.
Qed.
