(* ===== verification/UserMemory.v ===== *)
(** * The address space of a user process (crates/vetro-cpu/src/mem.rs,
    [UserMemory])

    Regions in a map ordered by base address, with the watch of code pages
    for the JIT. Operations that reach shared buffers take the store [heap]
    of the buffers. Sums of addresses are written without wrap-around: the
    invariant [um_ok] bounds the end of every region below 2^64 and the
    theorems ask the same of the ranges passed in. *)

From Stdlib Require Import ZArith Lia Bool.
From stdpp Require Import base gmap list numbers.
From S2P Require Import Prelude Memory BTree Region.
Local Open Scope Z_scope.
Local Open Scope vetro_scope.

Record UserMemory := MkUserMemory {
  um_regions : btree Region;
  um_space : Z;
  um_watched : gset Z;
  um_dirty : list Z;
}.

#[export] Instance eta_UserMemory : Eta UserMemory := fun m =>
  MkUserMemory (um_regions m) (um_space m) (um_watched m) (um_dirty m).

(** [UserMemory::default]; [space] is the next identity. *)
Definition um_new (space : Z) : UserMemory := MkUserMemory [] space ∅ [].

(** [Clone] (fork): a new identity and nothing watched. *)
Definition um_clone (space : Z) (m : UserMemory) : UserMemory :=
  MkUserMemory (um_regions m) space ∅ [].

(** ** Watching of code pages *)

Definition watch_code (page : Z) (m : UserMemory) : UserMemory :=
  m <| um_watched ::= fun w => {[page]} ∪ w |>.

Definition code_dirty (m : UserMemory) : bool := negb (bool_decide (um_dirty m = [])).

Definition take_code_dirty (m : UserMemory) : list Z * UserMemory :=
  (um_dirty m, m <| um_dirty := [] |>).

(** [if watch.pages.remove(&p) { watch.dirty.push(p) }]. *)
Definition touch_page (m : UserMemory) (p : Z) : UserMemory :=
  if decide (p ∈ um_watched m)
  then m <| um_watched ::= fun w => w ∖ {[p]} |> <| um_dirty ::= fun d => d ++ [p] |>
  else m.

(** Marks dirty the watched pages that touch [[start, end)]. *)
Definition touch (start e : Z) (m : UserMemory) : UserMemory :=
  if bool_decide (um_watched m = ∅) || (e <=? start) then m else
  let first := Z.shiftr start 12 in
  let last := Z.shiftr (e - 1) 12 in
  if last - first <? 64 then fold_left touch_page (seqZ first (last - first + 1)) m
  else
    let hit := filter (fun p => first <= p <= last) (elements (um_watched m)) in
    fold_left (fun m p => m <| um_watched ::= fun w => w ∖ {[p]} |>
                            <| um_dirty ::= fun d => d ++ [p] |>) hit m.

Definition saturating_add (a b : Z) : Z := Z.min (a + b) (2 ^ 64 - 1).

Definition touch_write (addr len : Z) (m : UserMemory) : UserMemory :=
  if bool_decide (um_watched m = ∅) then m else touch addr (saturating_add addr len) m.

(** ** Regions *)

Definition reg_end (p : Z * Region) : Z := p.1 + reg_len p.2.

Definition set_regions (f : btree Region -> btree Region) (m : UserMemory) : UserMemory :=
  m <| um_regions ::= f |>.

Definition overlaps (start e : Z) (m : UserMemory) : bool :=
  match bt_below e (um_regions m) with
  | Some (b, r) => start <? b + reg_len r
  | None => false
  end.

(** Region that contains [addr]: (base, length). *)
Definition find (addr : Z) (m : UserMemory) : option (Z * Z) :=
  match bt_below (addr + 1) (um_regions m) with
  | Some (b, r) => let len := reg_len r in if addr <? b + len then Some (b, len) else None
  | None => None
  end.

(** [self.regions[&b]] for the region that [find] found. *)
Definition region_at (addr : Z) (m : UserMemory) : option (Z * Region) :=
  match find addr m with
  | Some (b, _) => match bt_get b (um_regions m) with Some r => Some (b, r) | None => None end
  | None => None
  end.

Definition is_private (addr : Z) (m : UserMemory) : bool :=
  match region_at addr m with
  | Some (_, r) => match reg_backing r with Pages _ _ => true | Shared _ _ => false end
  | None => false
  end.

(** Splits the region that contains [at], so that [at] is a boundary. *)
Definition split_at (at_ : Z) (m : UserMemory) : UserMemory :=
  match bt_below at_ (um_regions m) with
  | None => m
  | Some (b, r) =>
      let e := b + reg_len r in
      if (at_ <=? b) || (e <=? at_) then m else
      let '(head, tail) := split_off r (at_ - b) in
      set_regions (fun rs => bt_insert at_ tail (bt_insert b head rs)) m
  end.

(** Removes every mapping in [[start, end)]. *)
Definition unmap (start e : Z) (m : UserMemory) : UserMemory :=
  if e <=? start then m else
  let m := split_at e (split_at start (touch start e m)) in
  let keys := map fst (bt_range start e (um_regions m)) in
  set_regions (bt_remove_keys keys) m.

(** Maps [[base, base+data.len())], which must not overlap anything else. *)
Definition um_map (base : Z) (data : list Z) (perm : Perm) (m : UserMemory)
    : result unit Z * UserMemory :=
  let e := base + Z.of_nat (length data) in
  if 2 ^ 64 <=? e then (Err base, m) else
  if bool_decide (data = []) || overlaps base e m then (Err base, m) else
  (Ok tt, set_regions (bt_insert base (region_own data perm)) (touch base e m)).

(** Like [map] but replaces what was there (MAP_FIXED). *)
Definition map_fixed (base : Z) (data : list Z) (perm : Perm) (m : UserMemory) : UserMemory :=
  if bool_decide (data = []) then m else
  set_regions (bt_insert base (region_own data perm))
    (unmap base (base + Z.of_nat (length data)) m).

Definition map_zeroed (base len : Z) (perm : Perm) (m : UserMemory) : UserMemory :=
  if len =? 0 then m else
  set_regions (bt_insert base (region_zeroed len perm)) (unmap base (base + len) m).

Definition map_shared (base buf off len : Z) (perm : Perm) (may_write : bool) (m : UserMemory)
    : UserMemory :=
  if len =? 0 then m else
  set_regions (bt_insert base (MkRegion (Shared buf off) len perm may_write false true))
    (unmap base (base + len) m).

(** True if no region in [[start, end)] forbids writing. *)
Definition may_write (start e : Z) (m : UserMemory) : bool :=
  let first := match bt_below (start + 1) (um_regions m) with Some (b, _) => b | None => start end in
  forallb (fun '(b, r) => (b + reg_len r <=? start) || reg_may_write r)
    (bt_range first e (um_regions m)).

(** Moves the regions of [[old, old+len)] to [dst] (mremap). *)
Definition remap (old len dst : Z) (m : UserMemory) : UserMemory :=
  let m := touch dst (saturating_add dst len) (touch old (saturating_add old len) m) in
  let m := split_at (old + len) (split_at old m) in
  let moved := map (fun '(k, r) => (k - old, r)) (bt_range old (old + len) (um_regions m)) in
  let m := set_regions (bt_remove_keys (map fst (bt_range old (old + len) (um_regions m)))) m in
  let m := unmap dst (dst + len) m in
  fold_left (fun m '(d, r) => set_regions (bt_insert (dst + d) r) m) moved m.

Definition set_grows_down (base : Z) (m : UserMemory) : UserMemory :=
  match bt_get base (um_regions m) with
  | Some r => set_regions (bt_insert base (r <| reg_grows_down := true |>)) m
  | None => m
  end.

(** A fault just below a MAP_GROWSDOWN region extends it down to the page of
    [addr], as long as [gap] bytes remain from the previous mapping. *)
Definition grow_down (addr gap : Z) (m : UserMemory) : bool * UserMemory :=
  let page := Z.land addr (u64 (Z.lnot (PAGE - 1))) in
  match bt_from (page + 1) (um_regions m) with
  | None => (false, m)
  | Some (b, r) =>
      if negb (reg_grows_down r) || (b <=? addr) then (false, m) else
      let blocked :=
        match bt_below (page + 1) (um_regions m) with
        | Some (pb, p) =>
            let pend := pb + reg_len p in
            let accessible := p_read (reg_perm p) || p_write (reg_perm p) || p_exec (reg_perm p) in
            (page <? pend) || accessible && negb (reg_grows_down p) && (page - pend <? gap)
        | None => false
        end in
      if blocked then (false, m) else
      let len := b - page in
      (true, set_regions (bt_insert page
               (MkRegion (Pages ∅ 0) len (reg_perm r) (reg_may_write r) true false))
               (touch page b m))
  end.

(** The region that stays behind in MREMAP_DONTUNMAP. *)
Definition left_behind (r : Region) : Region :=
  match reg_backing r with
  | Shared buf base => r <| reg_backing := Shared buf base |> <| reg_populated := true |>
  | Pages _ _ => r <| reg_backing := Pages ∅ 0 |> <| reg_populated := false |>
  end.

Definition remap_dontunmap (old len dst : Z) (m : UserMemory) : UserMemory :=
  let m := split_at (old + len) (split_at old m) in
  let left := map (fun '(b, r) => (b, left_behind r)) (bt_range old (old + len) (um_regions m)) in
  let m := remap old len dst m in
  fold_left (fun m '(b, r) => set_regions (bt_insert b r) m) left m.

(** Extends by [extra] bytes the region that ends at [e]. *)
Definition extend (e extra : Z) (m : UserMemory) : UserMemory :=
  match bt_below e (um_regions m) with
  | None => m
  | Some (b, r) =>
      if negb (b + reg_len r =? e) || (extra =? 0) then m else
      let backing := match reg_backing r with
                     | Shared buf base => Shared buf (base + reg_len r)
                     | Pages _ _ => Pages ∅ 0
                     end in
      let tail := MkRegion backing extra (reg_perm r) (reg_may_write r) (reg_grows_down r) false in
      set_regions (bt_insert e tail) (unmap e (e + extra) m)
  end.

(** Loop of [is_mapped]: [at] moves from region to region. *)
Fixpoint mapped_from (fuel : nat) (at_ e : Z) (m : UserMemory) : option bool :=
  if at_ <? e then
    match fuel with
    | O => None
    | S fuel' =>
        match find at_ m with
        | Some (b, len) => mapped_from fuel' (b + len) e m
        | None => Some false
        end
    end
  else Some true.

(** Every byte of [[start, end)] is mapped. One iteration per region. *)
Definition is_mapped (start e : Z) (m : UserMemory) : bool :=
  default false (mapped_from (S (length (um_regions m))) start e m).

(** Changes the permissions of [[start, end)]; fails without changing anything
    if part of the range is not mapped. *)
Definition protect (start e : Z) (perm : Perm) (m : UserMemory)
    : result unit MemFault * UserMemory :=
  if negb (is_mapped start e m) then (Err (MkMemFault start Read), m) else
  let m := split_at e (split_at start (touch start e m)) in
  (Ok tt, set_regions (bt_update start e (fun r => r <| reg_perm := perm |>)) m).

(** (buffer, offset in the buffer) of an address in a shared region. *)
Definition shared_key (addr : Z) (m : UserMemory) : option (Z * Z) :=
  match region_at addr m with
  | Some (b, r) => match reg_backing r with
                   | Shared buf base => Some (buf, base + (addr - b))
                   | Pages _ _ => None
                   end
  | None => None
  end.

Definition perm_at (addr : Z) (m : UserMemory) : option Perm :=
  match region_at addr m with Some (_, r) => Some (reg_perm r) | None => None end.

(** Loop of [find_free] over the regions below [top], from the highest. *)
Fixpoint find_free_from (l : btree Region) (e len bottom : Z) : option Z :=
  match l with
  | [] => if saturating_add bottom len <=? e then Some (e - len) else None
  | (b, r) :: l' =>
      let start := Z.max (b + reg_len r) bottom in
      if (start <=? e) && (len <=? e - start) then Some (e - len) else
      let e := Z.min e b in
      if e <? saturating_add bottom len then None else find_free_from l' e len bottom
  end.

(** Searches from top to bottom for a hole of [len] bytes in [[bottom, top)]. *)
Definition find_free (len bottom top : Z) (m : UserMemory) : option Z :=
  find_free_from (rev (bt_range 0 top (um_regions m))) top len bottom.

Definition maps (m : UserMemory) : list (Z * Z * Perm * bool) :=
  map (fun '(b, r) => (b, b + reg_len r, reg_perm r,
    match reg_backing r with Shared _ _ => true | Pages _ _ => false end)) (um_regions m).

Definition ranges (m : UserMemory) : list (Z * Z * Perm) :=
  map (fun '(b, r) => (b, b + reg_len r, reg_perm r)) (um_regions m).

(** The page of [addr] has memory. *)
Definition page_present (addr : Z) (m : UserMemory) : bool :=
  match region_at addr m with
  | None => false
  | Some (b, r) =>
      match reg_backing r with
      | Pages pages base =>
          reg_populated r || bool_decide (is_Some (pages !! ((base + (addr - b)) / PAGE)))
      | Shared _ _ => true
      end
  end.

Definition populate (start e : Z) (m : UserMemory) : UserMemory :=
  set_regions (map (fun '(b, r) =>
    if (b <? e) && (start <? b + reg_len r) then (b, r <| reg_populated := true |>) else (b, r))) m.

Definition beyond_eof (h : heap) (addr : Z) (m : UserMemory) : bool :=
  match region_at addr m with Some (b, r) => past_end h r (addr - b) | None => false end.

(** ** Accesses *)

(** Region that contains all of [[addr, addr+len)], with permission [a];
    [Ok None] if the range crosses several regions. *)
Definition locate (h : heap) (addr len : Z) (a : Access) (m : UserMemory)
    : result (option (Z * Region * Z)) MemFault :=
  match region_at addr m with
  | Some (b, r) =>
      let off := addr - b in
      if negb (allows (reg_perm r) a) || past_end h r (off + Z.max len 1 - 1)
      then Err (MkMemFault addr a)
      else if off + len <=? reg_len r then Ok (Some (b, r, off)) else Ok None
  | None => Err (MkMemFault addr a)
  end.

(** The byte at [p] is mapped, allows [a] and is not past the end of its
    buffer. *)
Definition byte_ok (h : heap) (p : Z) (a : Access) (m : UserMemory) : bool :=
  match region_at p m with
  | Some (b, r) => allows (reg_perm r) a && negb (past_end h r (p - b))
  | None => false
  end.

(** Checks byte by byte a range that crosses several regions. *)
Fixpoint check_slow (h : heap) (addr k : Z) (n : nat) (a : Access) (m : UserMemory)
    : result unit MemFault :=
  match n with
  | O => Ok tt
  | S n' =>
      let p := u64 (addr + k) in
      if byte_ok h p a m then check_slow h addr (k + 1) n' a m else Err (MkMemFault p a)
  end.

(** One byte at [p], read through the region that contains it. *)
Definition read_byte (h : heap) (p : Z) (m : UserMemory) : Z :=
  match region_at p m with
  | Some (b, r) => nth 0 (region_read h r (p - b) 1) 0
  | None => 0
  end.

(** One byte written at [p], which is mapped. *)
Definition write_byte (p byte : Z) (s : UserMemory * heap) : UserMemory * heap :=
  let '(m, h) := s in
  match region_at p m with
  | Some (b, r) =>
      let '(h', r') := region_write h r (p - b) [byte] in
      (set_regions (bt_insert b r') m, h')
  | None => (m, h)
  end.

(** The byte loop of a write, from offset [k]. *)
Fixpoint write_bytes (addr k : Z) (data : list Z) (s : UserMemory * heap) : UserMemory * heap :=
  match data with
  | [] => s
  | byte :: data' => write_bytes addr (k + 1) data' (write_byte (u64 (addr + k)) byte s)
  end.

(** Write that ignores permissions. *)
Fixpoint poke_bytes (addr k : Z) (data : list Z) (s : UserMemory * heap)
    : result unit MemFault * (UserMemory * heap) :=
  match data with
  | [] => (Ok tt, s)
  | byte :: data' =>
      let p := u64 (addr + k) in
      match region_at p s.1 with
      | None => (Err (MkMemFault p Write), s)
      | Some _ => poke_bytes addr (k + 1) data' (write_byte p byte s)
      end
  end.

Definition poke (addr : Z) (data : list Z) (s : UserMemory * heap)
    : result unit MemFault * (UserMemory * heap) :=
  poke_bytes addr 0 data (touch_write addr (Z.of_nat (length data)) s.1, s.2).

Definition um_read (addr : Z) (n : nat) : prog (UserMemory * heap) MemFault (list Z) := fun s =>
  let '(m, h) := s in
  let len := Z.of_nat n in
  if (n =? 0)%nat then (Ok [], s) else
  match locate h addr len Read m with
  | Err f => (Err f, s)
  | Ok (Some (b, r, off)) => (Ok (region_read h r off len), s)
  | Ok None =>
      match check_slow h addr 0 n Read m with
      | Err f => (Err f, s)
      | Ok _ => (Ok (map (fun k => read_byte h (u64 (addr + k)) m) (seqZ 0 len)), s)
      end
  end.

Definition um_write (addr : Z) (data : list Z) : prog (UserMemory * heap) MemFault unit := fun s =>
  let '(m, h) := s in
  let len := Z.of_nat (length data) in
  if bool_decide (data = []) then (Ok tt, s) else
  match locate h addr len Write m with
  | Err f => (Err f, s)
  | Ok (Some (b, r, off)) =>
      let '(h', r') := region_write h r off data in
      (Ok tt, (touch_write addr len (set_regions (bt_insert b r') m), h'))
  | Ok None =>
      match check_slow h addr 0 (length data) Write m with
      | Err f => (Err f, s)
      | Ok _ => (Ok tt, write_bytes addr 0 data (touch_write addr len m, h))
      end
  end.

Definition um_fetch (addr : Z) : prog (UserMemory * heap) MemFault Z := fun s =>
  let '(m, h) := s in
  match locate h addr 4 Fetch m with
  | Err f => (Err f, s)
  | Ok (Some (b, r, off)) => (Ok (from_le (region_read h r off 4)), s)
  | Ok None =>
      match check_slow h addr 0 4 Fetch m with
      | Err f => (Err f, s)
      | Ok _ => (Ok (from_le (map (fun k => read_byte h (u64 (addr + k)) m) (seqZ 0 4))), s)
      end
  end.

(** [impl Memory for UserMemory], with the provided methods of the trait. *)
#[export] Instance UserMemory_Memory : Memory (UserMemory * heap) := {|
  mem_read := um_read;
  mem_write := um_write;
  mem_fetch := um_fetch;
  mem_read_unpriv := default_read_unpriv um_read;
  mem_write_unpriv := default_write_unpriv um_write;
  mem_zero_block := default_zero_block um_write;
  mem_cmpxchg := default_cmpxchg um_read um_write;
|}.
