(* ===== verification/AddressSpace.v ===== *)
(** * The user address space against its specification (theorems about
    UserMemory)

    The abstract address space is a function from addresses to cells: the
    permissions, whether write permission can be added, where the byte lives
    (private to the address, or an offset of a shared buffer) and its value.
    [view] abstracts a [UserMemory]; every operation is shown to act on the
    view as its documentation says and to keep the invariant [um_ok]. *)

From Stdlib Require Import ZArith Lia Bool.
From stdpp Require Import base gmap list numbers.
From S2P Require Import Prelude Memory BTree Region UserMemory.
Local Open Scope Z_scope.
Local Open Scope vetro_scope.

(** ** Invariant *)

Record regs_ok (rs : btree Region) : Prop := {
  ok_sorted : bt_sorted rs;
  ok_region : forall b r, bt_get b rs = Some r ->
    0 <= b /\ 0 < reg_len r /\ b + reg_len r < 2 ^ 64 /\ region_ok r;
  ok_disjoint : forall b r b' r', bt_get b rs = Some r -> bt_get b' rs = Some r' -> b < b' ->
    b + reg_len r <= b';
}.

Definition um_ok (m : UserMemory) : Prop := regs_ok (um_regions m).

(** ** Abstract address space *)

Inductive Loc := LPrivate | LShared (buf off : Z).

Record Cell := MkCell {
  c_perm : Perm; c_may_write : bool; c_grows_down : bool; c_loc : Loc; c_byte : Z }.

Definition AddressSpace := Z -> option Cell.

Definition reg_loc (r : Region) (off : Z) : Loc :=
  match reg_backing r with Pages _ _ => LPrivate | Shared buf base => LShared buf (base + off) end.

Definition reg_cell (h : heap) (r : Region) (off : Z) : Cell :=
  MkCell (reg_perm r) (reg_may_write r) (reg_grows_down r) (reg_loc r off) (region_byte h r off).

Definition view (h : heap) (m : UserMemory) : AddressSpace := fun a =>
  match region_at a m with Some (b, r) => Some (reg_cell h r (a - b)) | None => None end.

(** Region [r] at [b] covers [a]. *)
Definition covers (rs : btree Region) (a b : Z) (r : Region) : Prop :=
  bt_get b rs = Some r /\ b <= a < b + reg_len r.

Lemma covers_unique rs a b r b' r' :
  regs_ok rs -> covers rs a b r -> covers rs a b' r' -> b = b' /\ r = r'.
Proof.
  intros Hok [Hg Ha] [Hg' Ha'].
  destruct (Z.lt_trichotomy b b') as [Hlt|[->|Hlt]].
  - pose proof (ok_disjoint _ Hok _ _ _ _ Hg Hg' Hlt). lia.
  - split; congruence.
  - pose proof (ok_disjoint _ Hok _ _ _ _ Hg' Hg Hlt). lia.
Qed.

Lemma find_spec m a :
  um_ok m ->
  match find a m with
  | Some (b, len) => exists r, covers (um_regions m) a b r /\ len = reg_len r
  | None => forall b r, ~ covers (um_regions m) a b r
  end.
Proof.
  intros Hok. unfold find. pose proof (bt_below_spec (a + 1) _ (ok_sorted _ Hok)) as Hb.
  destruct (bt_below (a + 1) (um_regions m)) as [[b r]|].
  - destruct Hb as (Hg & Hlt & Hmax). destruct (Z.ltb_spec a (b + reg_len r)).
    + exists r. split; [|done]. split; [done|lia].
    + intros b' r' [Hg' Ha]. assert (b' <= b) by (eapply Hmax; [done|lia]).
      destruct (Z.eq_dec b' b) as [->|]; [assert (r' = r) by congruence; subst; lia|].
      pose proof (ok_disjoint _ Hok _ _ _ _ Hg' Hg ltac:(lia)).
      destruct (ok_region _ Hok _ _ Hg') as (?&?&_). lia.
  - intros b r [Hg Ha]. apply Hb in Hg. lia.
Qed.

Lemma region_at_spec m a :
  um_ok m ->
  match region_at a m with
  | Some (b, r) => covers (um_regions m) a b r
  | None => forall b r, ~ covers (um_regions m) a b r
  end.
Proof.
  intros Hok. unfold region_at. pose proof (find_spec m a Hok) as Hf.
  destruct (find a m) as [[b len]|]; [|done]. destruct Hf as (r & Hc & ->).
  destruct Hc as [Hg Ha]. rewrite Hg. by split.
Qed.

Lemma region_at_covers m a b r :
  um_ok m -> covers (um_regions m) a b r -> region_at a m = Some (b, r).
Proof.
  intros Hok Hc. pose proof (region_at_spec m a Hok) as Hs.
  destruct (region_at a m) as [[b' r']|]; [|by destruct (Hs b r)].
  by destruct (covers_unique _ _ _ _ _ _ Hok Hs Hc) as [-> ->].
Qed.

Lemma view_covers h m a b r :
  um_ok m -> covers (um_regions m) a b r -> view h m a = Some (reg_cell h r (a - b)).
Proof. intros Hok Hc. unfold view. by rewrite (region_at_covers m a b r). Qed.

Lemma view_none h m a :
  um_ok m -> (forall b r, ~ covers (um_regions m) a b r) -> view h m a = None.
Proof.
  intros Hok Hn. unfold view. pose proof (region_at_spec m a Hok) as Hs.
  destruct (region_at a m) as [[b r]|]; [|done]. by destruct (Hn b r).
Qed.

(** Two spaces agree at [a] when the regions covering [a] have equal cells. *)
Lemma view_transfer h m h' m' a a' :
  um_ok m -> um_ok m' ->
  (forall b r, covers (um_regions m) a b r ->
     exists b' r', covers (um_regions m') a' b' r' /\
       reg_cell h' r' (a' - b') = reg_cell h r (a - b)) ->
  (forall b' r', covers (um_regions m') a' b' r' -> exists b r, covers (um_regions m) a b r) ->
  view h' m' a' = view h m a.
Proof.
  intros Hok Hok' Hf Hb. pose proof (region_at_spec m a Hok) as Hs.
  unfold view at 2. destruct (region_at a m) as [[b r]|].
  - destruct (Hf b r Hs) as (b' & r' & Hc & Hcell).
    rewrite (view_covers h' m' a' b' r') by done. by rewrite Hcell.
  - apply view_none; [done|]. intros b' r' Hc. destruct (Hb b' r' Hc) as (b & r & Hc').
    by apply (Hs b r).
Qed.

(** ** Touching pages leaves the regions alone *)

Lemma touch_page_regions m p : um_regions (touch_page m p) = um_regions m.
Proof. unfold touch_page. by case_decide. Qed.

Lemma fold_regions {A} (f : UserMemory -> A -> UserMemory) l m :
  (forall m x, um_regions (f m x) = um_regions m) -> um_regions (fold_left f l m) = um_regions m.
Proof. intros Hf. revert m. induction l as [|x l IH]; intros m; [done|]. simpl. by rewrite IH. Qed.

Lemma touch_regions s e m : um_regions (touch s e m) = um_regions m.
Proof.
  unfold touch. destruct (_ || _); [done|]. destruct (_ <? 64).
  - apply fold_regions. intros. apply touch_page_regions.
  - by apply fold_regions.
Qed.

Lemma touch_write_regions a n m : um_regions (touch_write a n m) = um_regions m.
Proof. unfold touch_write. destruct (bool_decide _); [done|apply touch_regions]. Qed.

(** The view depends on the regions only. *)
Lemma region_at_regions m m' a :
  um_regions m' = um_regions m -> region_at a m' = region_at a m.
Proof. intros E. unfold region_at, find. by rewrite E. Qed.

Lemma view_regions h m m' a : um_regions m' = um_regions m -> view h m' a = view h m a.
Proof. intros E. unfold view. by rewrite (region_at_regions m m' a E). Qed.

Lemma um_ok_regions m m' : um_regions m' = um_regions m -> um_ok m -> um_ok m'.
Proof. unfold um_ok. by intros ->. Qed.

Lemma set_regions_get f m : um_regions (set_regions f m) = f (um_regions m).
Proof. done. Qed.

(** ** Splitting *)

Lemma split_off_cells h r k head tail :
  region_ok r -> 0 <= k <= reg_len r -> split_off r k = (head, tail) ->
  region_ok head /\ region_ok tail /\ reg_len head = k /\ reg_len tail = reg_len r - k /\
  (forall j, 0 <= j < k -> reg_cell h head j = reg_cell h r j) /\
  (forall j, 0 <= j -> reg_cell h tail j = reg_cell h r (k + j)).
Proof.
  intros Hr Hk Hs. destruct (split_off_spec h r k head tail Hr Hk Hs) as (H1 & H2 & H3 & H4 & H5 & H6).
  do 4 (split; [done|]). unfold split_off in Hs. unfold reg_cell, reg_loc.
  destruct r as [backing len pm mw gd pop]. cbn [reg_backing reg_len reg_perm reg_may_write
    reg_grows_down reg_populated] in *.
  split; intros j Hj; [rewrite H5 by done|rewrite H6 by done];
    (destruct backing as [pages base|buf base]; injection Hs as <- <-;
     unfold update; cbn [reg_perm reg_may_write reg_grows_down reg_backing]; f_equal; f_equal; lia).
Qed.

(** No region straddles [x]. *)
Definition boundary (x : Z) (rs : btree Region) : Prop :=
  forall b r, bt_get b rs = Some r -> b < x -> b + reg_len r <= x.

(** [split_at] does nothing, or replaces one region by its two parts. *)
Lemma split_at_cases at_ m :
  um_ok m ->
  (split_at at_ m = m /\ boundary at_ (um_regions m)) \/
  exists b0 r0 head tail,
    bt_get b0 (um_regions m) = Some r0 /\ b0 < at_ < b0 + reg_len r0 /\
    split_off r0 (at_ - b0) = (head, tail) /\
    bt_sorted (um_regions (split_at at_ m)) /\
    forall j, bt_get j (um_regions (split_at at_ m)) =
      if j =? at_ then Some tail else if j =? b0 then Some head else bt_get j (um_regions m).
Proof.
  intros Hok. pose proof (ok_sorted _ Hok) as Hs. unfold split_at.
  pose proof (bt_below_spec at_ _ Hs) as Hb.
  destruct (bt_below at_ (um_regions m)) as [[b r]|]; cycle 1.
  { left. split; [done|]. intros b r Hg Hlt. apply Hb in Hg. lia. }
  destruct Hb as (Hg & Hlt & Hmax).
  destruct (Z.leb_spec at_ b); [lia|]. cbn [orb]. destruct (Z.leb_spec (b + reg_len r) at_).
  - left. split; [done|]. intros b' r' Hg' Hlt'.
    assert (b' <= b) by (by eapply Hmax). destruct (Z.eq_dec b' b) as [->|].
    + by assert (r' = r) as -> by congruence.
    + pose proof (ok_disjoint _ Hok _ _ _ _ Hg' Hg ltac:(lia)). lia.
  - right. destruct (split_off r (at_ - b)) as [head tail] eqn:Es.
    exists b, r, head, tail. do 3 (split; [done|]). rewrite set_regions_get.
    split; [by repeat apply bt_sorted_insert|]. intros j.
    rewrite !bt_get_insert by (done || by apply bt_sorted_insert). done.
Qed.

Lemma split_at_ok at_ m : um_ok m -> um_ok (split_at at_ m).
Proof.
  intros Hok. destruct (split_at_cases at_ m Hok) as [[-> _]|
    (b0 & r0 & head & tail & Hg0 & Ha & Hsp & Hs & Hget)]; [done|].
  destruct (ok_region _ Hok _ _ Hg0) as (Hb & Hl & He & Hr).
  destruct (split_off_spec ∅ r0 (at_ - b0) head tail Hr ltac:(lia) Hsp) as (Hrh & Hrt & Hlh & Hlt & _).
  constructor; [done| |].
  - intros b r. rewrite Hget. destruct (Z.eqb_spec b at_) as [->|]; [intros [= <-]|].
    { rewrite Hlt. split_and!; done || lia. }
    destruct (Z.eqb_spec b b0) as [->|]; [intros [= <-]|apply (ok_region _ Hok)].
    rewrite Hlh. split_and!; done || lia.
  - intros b r b' r'. rewrite !Hget. intros H1 H2 Hlt'.
    assert (forall j s, bt_get j (um_regions m) = Some s -> j <> b0 ->
      j + reg_len s <= b0 \/ b0 + reg_len r0 <= j) as Hout.
    { intros j s Hj Hne. destruct (Z.lt_ge_cases j b0).
      - left. by eapply (ok_disjoint _ Hok). - right. eapply (ok_disjoint _ Hok); [done..|lia]. }
    destruct (Z.eqb_spec b at_) as [->|], (Z.eqb_spec b' at_) as [->|]; try lia.
    + injection H1 as <-. destruct (Z.eqb_spec b' b0); [lia|].
      destruct (Hout _ _ H2); [done| |]; destruct (ok_region _ Hok _ _ H2); lia.
    + injection H2 as <-. destruct (Z.eqb_spec b b0) as [->|]; [injection H1 as <-; lia|].
      destruct (Hout _ _ H1); [done|lia|lia].
    + destruct (Z.eqb_spec b b0) as [->|], (Z.eqb_spec b' b0) as [->|]; try lia.
      * injection H1 as <-. pose proof (ok_disjoint _ Hok _ _ _ _ Hg0 H2 Hlt'). lia.
      * injection H2 as <-. by apply (ok_disjoint _ Hok _ _ _ _ H1 Hg0).
      * by apply (ok_disjoint _ Hok _ _ _ _ H1 H2).
Qed.

Lemma split_at_boundary at_ m : um_ok m -> boundary at_ (um_regions (split_at at_ m)).
Proof.
  intros Hok. destruct (split_at_cases at_ m Hok) as [[-> Hb]|
    (b0 & r0 & head & tail & Hg0 & Ha & Hsp & Hs & Hget)]; [done|].
  destruct (ok_region _ Hok _ _ Hg0) as (Hb & Hl & He & Hr).
  destruct (split_off_spec ∅ r0 (at_ - b0) head tail Hr ltac:(lia) Hsp) as (_ & _ & Hlh & Hlt & _).
  intros b r. rewrite Hget. destruct (Z.eqb_spec b at_) as [->|]; [lia|].
  destruct (Z.eqb_spec b b0) as [->|]; [intros [= <-]; lia|]. intros Hg Hlt'.
  destruct (Z.lt_ge_cases b b0) as [Hbb|].
  - pose proof (ok_disjoint _ Hok _ _ _ _ Hg Hg0 Hbb). lia.
  - pose proof (ok_disjoint _ Hok _ _ _ _ Hg0 Hg ltac:(lia)). lia.
Qed.

Lemma split_at_keeps_boundary x at_ m :
  um_ok m -> boundary x (um_regions m) -> boundary x (um_regions (split_at at_ m)).
Proof.
  intros Hok Hx. destruct (split_at_cases at_ m Hok) as [[-> Hb]|
    (b0 & r0 & head & tail & Hg0 & Ha & Hsp & Hs & Hget)]; [done|].
  destruct (ok_region _ Hok _ _ Hg0) as (Hb & Hl & He & Hr).
  destruct (split_off_spec ∅ r0 (at_ - b0) head tail Hr ltac:(lia) Hsp) as (_ & _ & Hlh & Hlt & _).
  pose proof (Hx b0 r0 Hg0) as Hx0.
  intros b r. rewrite Hget. destruct (Z.eqb_spec b at_) as [->|]; [intros [= <-]; lia|].
  destruct (Z.eqb_spec b b0) as [->|]; [intros [= <-]; lia|]. apply Hx.
Qed.

Lemma split_at_view h at_ m a : um_ok m -> view h (split_at at_ m) a = view h m a.
Proof.
  intros Hok. pose proof (split_at_ok at_ m Hok) as Hok'.
  destruct (split_at_cases at_ m Hok) as [[-> _]|
    (b0 & r0 & head & tail & Hg0 & Ha & Hsp & Hs & Hget)]; [done|].
  destruct (ok_region _ Hok _ _ Hg0) as (Hb & Hl & He & Hr).
  destruct (split_off_cells h r0 (at_ - b0) head tail Hr ltac:(lia) Hsp)
    as (_ & _ & Hlh & Hlt & Hch & Hct).
  apply view_transfer; [done|done| |].
  - intros b r [Hg Hr'].
    destruct (Z.eq_dec b b0) as [->|Hne].
    + assert (r = r0) as -> by congruence. destruct (Z.lt_ge_cases a at_).
      * exists b0, head. split; [|apply Hch; lia]. split; [|lia].
        rewrite Hget. replace (b0 =? at_) with false by lia. by rewrite Z.eqb_refl.
      * exists at_, tail. split; [|rewrite Hct by lia; f_equal; lia]. split; [|lia].
        rewrite Hget. by rewrite Z.eqb_refl.
    + exists b, r. split; [|done]. split; [|done]. rewrite Hget.
      destruct (Z.eqb_spec b at_) as [->|]; [|by rewrite (proj2 (Z.eqb_neq b b0) Hne)].
      pose proof (ok_disjoint _ Hok _ _ _ _ Hg0 Hg ltac:(lia)). lia.
  - intros b r [Hg Hr']. rewrite Hget in Hg. unfold covers.
    destruct (Z.eqb_spec b at_) as [->|]; [injection Hg as <-; exists b0, r0; split; [done|lia]|].
    destruct (Z.eqb_spec b b0) as [->|]; [injection Hg as <-; exists b0, r0; split; [done|lia]|].
    by exists b, r.
Qed.

(** Both ends of a range become boundaries. *)
Definition split_range (start e : Z) (m : UserMemory) : UserMemory :=
  split_at e (split_at start (touch start e m)).

Lemma split_range_spec h start e m :
  um_ok m ->
  let m' := split_range start e m in
  um_ok m' /\ boundary start (um_regions m') /\ boundary e (um_regions m') /\
  forall a, view h m' a = view h m a.
Proof.
  intros Hok m'. assert (um_ok (touch start e m)) as Hok0.
  { eapply um_ok_regions; [apply touch_regions|done]. }
  pose proof (split_at_ok start _ Hok0) as Hok1.
  split; [by apply split_at_ok|].
  split; [apply split_at_keeps_boundary; [done|by apply split_at_boundary]|].
  split; [by apply split_at_boundary|]. intros a. unfold m', split_range.
  rewrite !split_at_view by done. apply view_regions, touch_regions.
Qed.

(** With boundaries at both ends, a region covers an address of the range
    exactly when its base is in the range. *)
Lemma covers_in_range rs start e a b r :
  boundary start rs -> boundary e rs -> covers rs a b r ->
  start <= a < e <-> start <= b < e.
Proof.
  intros Hs He [Hg Ha]. split.
  - intros Hr. destruct (Z.lt_ge_cases b start) as [Hlt|]; [|lia]. pose proof (Hs b r Hg Hlt). lia.
  - intros Hr. destruct (Z.lt_ge_cases a e) as [|Hge]; [lia|]. pose proof (He b r Hg ltac:(lia)). lia.
Qed.

(** Restricting the regions of a space that keeps its invariant. *)
Lemma regs_ok_sub rs rs' :
  regs_ok rs -> bt_sorted rs' -> (forall b r, bt_get b rs' = Some r -> bt_get b rs = Some r) ->
  regs_ok rs'.
Proof.
  intros Hok Hs Hsub. constructor; [done| |].
  - intros b r Hg. by apply (ok_region _ Hok), Hsub.
  - intros b r b' r' Hg Hg'. eapply (ok_disjoint _ Hok); by apply Hsub.
Qed.

Definition in_range (start e a : Z) : bool := (start <=? a) && (a <? e).

Lemma in_range_spec start e a : in_range start e a = true <-> start <= a < e.
Proof. unfold in_range. rewrite andb_true_iff, Z.leb_le, Z.ltb_lt. done. Qed.

Lemma unmap_spec h start e m :
  um_ok m ->
  um_ok (unmap start e m) /\
  forall a, view h (unmap start e m) a = if in_range start e a then None else view h m a.
Proof.
  intros Hok. unfold unmap. destruct (Z.leb_spec e start).
  { split; [done|]. intros a. destruct (in_range start e a) eqn:E; [|done].
    apply in_range_spec in E. lia. }
  fold (split_range start e m).
  destruct (split_range_spec h start e m Hok) as (Hok2 & Hbs & Hbe & Hv).
  set (m2 := split_range start e m) in *.
  destruct (bt_remove_range start e (um_regions m2) (ok_sorted _ Hok2)) as [Hs Hget].
  set (rs := bt_remove_keys _ (um_regions m2)) in *.
  assert (um_ok (set_regions (bt_remove_keys (map fst (bt_range start e (um_regions m2)))) m2)) as Hok3.
  { unfold um_ok. rewrite set_regions_get. fold rs. eapply regs_ok_sub; [exact Hok2|done|].
    intros b r. rewrite Hget. by destruct (_ && _). }
  split; [done|]. intros a. rewrite <- Hv.
  assert (forall b r, covers rs a b r <-> covers (um_regions m2) a b r /\ ~ start <= a < e) as Hc.
  { intros b r. unfold covers at 1. rewrite Hget. fold (in_range start e b). split.
    - intros [Hg Ha]. destruct (in_range start e b) eqn:Eb; [done|].
      assert (covers (um_regions m2) a b r) as Hc by (by split). split; [done|].
      rewrite (covers_in_range _ _ _ _ _ _ Hbs Hbe Hc), <- in_range_spec, Eb. done.
    - intros [Hc Hn]. rewrite (covers_in_range _ _ _ _ _ _ Hbs Hbe Hc), <- in_range_spec in Hn.
      destruct Hc. split; [|done]. by destruct (in_range start e b). }
  destruct (in_range start e a) eqn:Ea.
  - apply in_range_spec in Ea. apply view_none; [done|]. intros b r Hcc.
    change (covers rs a b r) in Hcc. apply Hc in Hcc as [_ Hn]. done.
  - apply view_transfer; [done..| |].
    + intros b r Hcc. exists b, r. split; [|done]. apply Hc. split; [done|].
      rewrite <- in_range_spec, Ea. done.
    + intros b r Hcc. change (covers rs a b r) in Hcc. apply Hc in Hcc as [Hcc _]. by exists b, r.
Qed.

(** ** Mapping into a hole *)

(** No address of [[start, end)] is mapped. *)
Definition hole (rs : btree Region) (start e : Z) : Prop :=
  forall a b r, start <= a < e -> ~ covers rs a b r.

Lemma insert_spec h base r m :
  um_ok m -> 0 <= base -> 0 < reg_len r -> base + reg_len r < 2 ^ 64 -> region_ok r ->
  hole (um_regions m) base (base + reg_len r) ->
  let m' := set_regions (bt_insert base r) m in
  um_ok m' /\
  forall a, view h m' a = if in_range base (base + reg_len r) a
                          then Some (reg_cell h r (a - base)) else view h m a.
Proof.
  intros Hok Hb Hl He Hr Hhole m'. pose proof (ok_sorted _ Hok) as Hs.
  assert (forall j, bt_get j (um_regions m') =
    if j =? base then Some r else bt_get j (um_regions m)) as Hget.
  { intros j. unfold m'. rewrite set_regions_get. by apply bt_get_insert. }
  assert (forall j s, bt_get j (um_regions m) = Some s ->
    j + reg_len s <= base \/ base + reg_len r <= j) as Hout.
  { intros j s Hj. destruct (ok_region _ Hok _ _ Hj) as (?&?&_).
    destruct (Z.lt_ge_cases j base).
    - destruct (Z.le_gt_cases (j + reg_len s) base); [by left|].
      exfalso. apply (Hhole base j s); [lia|]. split; [done|lia].
    - destruct (Z.le_gt_cases (base + reg_len r) j); [by right|].
      exfalso. apply (Hhole j j s); [lia|]. split; [done|lia]. }
  assert (um_ok m') as Hok'.
  { constructor.
    - unfold m'. rewrite set_regions_get. by apply bt_sorted_insert.
    - intros b s. rewrite Hget. destruct (Z.eqb_spec b base) as [->|]; [|apply (ok_region _ Hok)].
      intros [= <-]. done.
    - intros b s b' s'. rewrite !Hget. intros H1 H2 Hlt.
      destruct (Z.eqb_spec b base) as [->|], (Z.eqb_spec b' base) as [->|]; try lia.
      + injection H1 as <-. destruct (ok_region _ Hok _ _ H2) as (?&?&_).
        destruct (Hout _ _ H2); lia.
      + destruct (ok_region _ Hok _ _ H1) as (?&?&_). destruct (Hout _ _ H1); lia.
      + by eapply (ok_disjoint _ Hok). }
  split; [done|]. intros a. destruct (in_range base _ a) eqn:Ea.
  - apply in_range_spec in Ea. apply view_covers; [done|]. split; [|done].
    rewrite Hget. by rewrite Z.eqb_refl.
  - assert (~ base <= a < base + reg_len r) as Ha by (by rewrite <- in_range_spec, Ea).
    apply view_transfer; [done..| |].
    + intros b s [Hg Hr']. exists b, s. split; [|done]. split; [|done]. rewrite Hget.
      destruct (Z.eqb_spec b base) as [->|]; [|done]. exfalso.
      destruct (Hout _ _ Hg); lia.
    + intros b s [Hg Hr']. rewrite Hget in Hg. destruct (Z.eqb_spec b base) as [->|].
      * injection Hg as <-. lia.
      * exists b, s. by split.
Qed.

(** A hole, in terms of the view. *)
Lemma hole_view h m start e :
  um_ok m -> (forall a, start <= a < e -> view h m a = None) -> hole (um_regions m) start e.
Proof.
  intros Hok Hv a b r Ha Hc. specialize (Hv a Ha).
  by rewrite (view_covers h m a b r Hok Hc) in Hv.
Qed.

(** Replacing what was mapped at [[base, base+len)] by a new region. *)
Lemma unmap_insert_spec h base r m :
  um_ok m -> 0 <= base -> 0 < reg_len r -> base + reg_len r < 2 ^ 64 -> region_ok r ->
  let m' := set_regions (bt_insert base r) (unmap base (base + reg_len r) m) in
  um_ok m' /\
  forall a, view h m' a = if in_range base (base + reg_len r) a
                          then Some (reg_cell h r (a - base)) else view h m a.
Proof.
  intros Hok Hb Hl He Hr m'.
  destruct (unmap_spec h base (base + reg_len r) m Hok) as [Hok1 Hv1].
  destruct (insert_spec h base r (unmap base (base + reg_len r) m)) as [Hok2 Hv2]; try done.
  { apply (hole_view h); [done|]. intros a Ha. rewrite Hv1.
    by rewrite (proj2 (in_range_spec _ _ _) Ha). }
  split; [done|]. intros a. unfold m'. rewrite Hv2, Hv1. by destruct (in_range _ _ a).
Qed.

Lemma overlaps_spec m start e :
  um_ok m -> start < e ->
  overlaps start e m = false <-> hole (um_regions m) start e.
Proof.
  intros Hok Hlt. unfold overlaps. pose proof (bt_below_spec e _ (ok_sorted _ Hok)) as Hb.
  destruct (bt_below e (um_regions m)) as [[b r]|].
  - destruct Hb as (Hg & Hlt' & Hmax). destruct (ok_region _ Hok _ _ Hg) as (?&?&_).
    rewrite Z.ltb_ge. split.
    + intros Hle a b' r' Ha [Hg' Ha']. assert (b' <= b) by (eapply Hmax; [done|lia]).
      destruct (Z.eq_dec b' b) as [->|]; [assert (r' = r) by congruence; subst; lia|].
      pose proof (ok_disjoint _ Hok _ _ _ _ Hg' Hg ltac:(lia)). lia.
    + intros Hhole. destruct (Z.le_gt_cases (b + reg_len r) start); [done|]. exfalso.
      apply (Hhole (Z.max start b) b r); [lia|]. split; [done|lia].
  - split; [|done]. intros _ a b r Ha [Hg Ha']. apply Hb in Hg. lia.
Qed.

(** ** Mapped ranges *)

Definition mapped (rs : btree Region) (start e : Z) : Prop :=
  forall a, start <= a < e -> exists b r, covers rs a b r.

(** Number of regions that end after [at]: what is left of the loop. *)
Definition regions_after (at_ : Z) (rs : btree Region) : nat :=
  length (filter (fun p => at_ < p.1 + reg_len p.2) rs).

Lemma regions_after_cons at_ p rs :
  regions_after at_ (p :: rs) =
    ((if decide ((at_ < p.1 + reg_len p.2)%Z) then 1 else 0) + regions_after at_ rs)%nat.
Proof. unfold regions_after. rewrite filter_cons. by case_decide. Qed.

Lemma regions_after_mono x y rs : x <= y -> (regions_after y rs <= regions_after x rs)%nat.
Proof.
  intros Hle. induction rs as [|p rs IH]; [done|]. rewrite !regions_after_cons.
  case_decide; case_decide; lia.
Qed.

Lemma regions_after_lt rs at_ b r :
  (b, r) ∈ rs -> at_ < b + reg_len r -> (regions_after (b + reg_len r) rs < regions_after at_ rs)%nat.
Proof.
  intros Hin Hlt. induction rs as [|p rs IH]; [by apply elem_of_nil in Hin|].
  rewrite !regions_after_cons.
  pose proof (regions_after_mono at_ (b + reg_len r) rs ltac:(lia)).
  apply elem_of_cons in Hin as [<-|Hin].
  - cbn [fst snd]. rewrite decide_False by lia. rewrite decide_True by done. lia.
  - specialize (IH Hin). case_decide; case_decide; lia.
Qed.

Lemma mapped_from_spec fuel at_ e m :
  um_ok m -> (regions_after at_ (um_regions m) < fuel)%nat ->
  exists res, mapped_from fuel at_ e m = Some res /\ (res = true <-> mapped (um_regions m) at_ e).
Proof.
  intros Hok. revert at_. induction fuel as [|fuel IH]; intros at_ Hf; [lia|]. cbn [mapped_from].
  destruct (Z.ltb_spec at_ e); cycle 1.
  { exists true. split; [done|]. split; [|done]. intros _ a Ha. lia. }
  pose proof (find_spec m at_ Hok) as Hfs. destruct (find at_ m) as [[b len]|].
  - destruct Hfs as (r & [Hg Ha] & ->).
    pose proof (bt_get_elem b r _ (ok_sorted _ Hok)) as Hel.
    destruct (IH (b + reg_len r)) as (res & Hres & Hiff).
    { pose proof (regions_after_lt (um_regions m) at_ b r). apply Hel in Hg. intuition lia. }
    exists res. split; [done|]. rewrite Hiff. split.
    + intros Hm a Ha'. destruct (Z.lt_ge_cases a (b + reg_len r)); [|apply Hm; lia].
      exists b, r. split; [done|lia].
    + intros Hm a Ha'. apply Hm. lia.
  - exists false. split; [done|]. split; [done|]. intros Hm.
    destruct (Hm at_ ltac:(lia)) as (b & r & Hc). by destruct (Hfs b r).
Qed.

Lemma is_mapped_iff m start e :
  um_ok m -> is_mapped start e m = true <-> mapped (um_regions m) start e.
Proof.
  intros Hok. unfold is_mapped.
  destruct (mapped_from_spec (S (length (um_regions m))) start e m Hok) as (res & -> & Hiff); [|done].
  unfold regions_after. pose proof (length_filter (fun p => start < p.1 + reg_len p.2) (um_regions m)).
  lia.
Qed.

(** ** Changing the regions of a range in place *)

Definition set_perm (p : Perm) (c : Cell) : Cell :=
  MkCell p (c_may_write c) (c_grows_down c) (c_loc c) (c_byte c).

Lemma update_perm_spec h start e perm m :
  um_ok m -> boundary start (um_regions m) -> boundary e (um_regions m) ->
  let m' := set_regions (bt_update start e (fun r => r <| reg_perm := perm |>)) m in
  um_ok m' /\
  forall a, view h m' a = if in_range start e a then set_perm perm <$> view h m a else view h m a.
Proof.
  intros Hok Hbs Hbe m'. set (f := fun r : Region => r <| reg_perm := perm |>).
  assert (forall j, bt_get j (um_regions m') =
    if in_range start e j then f <$> bt_get j (um_regions m) else bt_get j (um_regions m)) as Hget.
  { intros j. unfold m'. rewrite set_regions_get. apply bt_get_update. }
  assert (forall j r', bt_get j (um_regions m') = Some r' ->
    exists r, bt_get j (um_regions m) = Some r /\ reg_len r' = reg_len r /\ (region_ok r -> region_ok r'))
    as Hinv.
  { intros j r'. rewrite Hget. destruct (in_range _ _ _); [|by exists r'].
    destruct (bt_get j (um_regions m)) as [r|]; [|done]. intros [= <-]. by exists r. }
  assert (um_ok m') as Hok'.
  { constructor.
    - unfold m'. rewrite set_regions_get. apply bt_sorted_update, (ok_sorted _ Hok).
    - intros b r' Hg. destruct (Hinv _ _ Hg) as (r & Hg0 & -> & Hr).
      destruct (ok_region _ Hok _ _ Hg0) as (?&?&?&?). split_and!; auto.
    - intros b r b' r' H1 H2 Hlt. destruct (Hinv _ _ H1) as (r1 & Hg1 & -> & _).
      destruct (Hinv _ _ H2) as (r2 & Hg2 & _ & _). by eapply (ok_disjoint _ Hok). }
  split; [done|]. intros a. pose proof (region_at_spec m a Hok) as Hs.
  destruct (region_at a m) as [[b r]|] eqn:Era; cycle 1.
  { assert (view h m a = None) as Hvn by (by apply view_none). rewrite Hvn.
    replace (view h m' a) with (@None Cell); [by destruct (in_range _ _ _)|].
    symmetry. apply view_none; [done|]. intros b' r' [Hg Ha].
    destruct (Hinv _ _ Hg) as (r & Hg0 & Hl & _). apply (Hs b' r). split; [done|lia]. }
  rewrite (view_covers h m a b r) by done. pose proof Hs as [Hg Ha].
  assert (in_range start e a = in_range start e b) as Hrange.
  { apply eq_true_iff_eq. rewrite !in_range_spec. by eapply covers_in_range. }
  rewrite Hrange. destruct (in_range start e b) eqn:Eb.
  - rewrite (view_covers h m' a b (f r)); [done|done|]. split; [|done].
    by rewrite Hget, Eb, Hg.
  - rewrite (view_covers h m' a b r); [done|done|]. split; [|done]. by rewrite Hget, Eb.
Qed.

Lemma protect_eq h start e perm m :
  um_ok m ->
  match protect start e perm m with
  | (Ok _, m') => mapped (um_regions m) start e /\ um_ok m' /\
      forall a, view h m' a = if in_range start e a then set_perm perm <$> view h m a else view h m a
  | (Err f, m') => ~ mapped (um_regions m) start e /\ m' = m /\ f = MkMemFault start Read
  end.
Proof.
  intros Hok. unfold protect. pose proof (is_mapped_iff m start e Hok) as Him.
  destruct (is_mapped start e m) eqn:E; cbn [negb].
  - split; [by apply Him|]. fold (split_range start e m).
    destruct (split_range_spec h start e m Hok) as (Hok2 & Hbs & Hbe & Hv).
    destruct (update_perm_spec h start e perm _ Hok2 Hbs Hbe) as [Hok3 Hv3].
    split; [done|]. intros a. by rewrite Hv3, Hv.
  - split; [|done]. intros Hm. apply Him in Hm. done.
Qed.

(** Mapped addresses, in terms of the view. *)
Lemma mapped_view h m start e :
  um_ok m ->
  mapped (um_regions m) start e <-> (forall a, start <= a < e -> is_Some (view h m a)).
Proof.
  intros Hok. split.
  - intros Hm a Ha. destruct (Hm a Ha) as (b & r & Hc).
    rewrite (view_covers h m a b r Hok Hc). by eexists.
  - intros Hv a Ha. destruct (Hv a Ha) as [c Hc]. unfold view in Hc.
    pose proof (region_at_spec m a Hok) as Hs. destruct (region_at a m) as [[b r]|]; [|done].
    by exists b, r.
Qed.

Lemma hole_view_iff h m start e :
  um_ok m -> hole (um_regions m) start e <-> (forall a, start <= a < e -> view h m a = None).
Proof.
  intros Hok. split; [|by apply hole_view]. intros Hh a Ha. apply view_none; [done|].
  intros b r. by apply Hh.
Qed.

(** C0: [unmap] keeps the invariant of the address space and removes exactly
    the mappings of the range: outside it every address keeps its permissions,
    its backing and its byte. *)
Theorem unmap_view h start e m :
  um_ok m ->
  um_ok (unmap start e m) /\
  forall a, view h (unmap start e m) a = if in_range start e a then None else view h m a.
Proof. apply unmap_spec. Qed.

(** C0: [protect] succeeds exactly when the whole range is mapped; then the
    permissions of the range change and nothing else does; when it fails
    nothing changes. *)
Theorem protect_view h start e perm m :
  um_ok m ->
  match protect start e perm m with
  | (Ok _, m') =>
      (forall a, start <= a < e -> is_Some (view h m a)) /\ um_ok m' /\
      forall a, view h m' a = if in_range start e a then set_perm perm <$> view h m a else view h m a
  | (Err _, m') => m' = m /\ exists a, start <= a < e /\ view h m a = None
  end.
Proof.
  intros Hok. pose proof (protect_eq h start e perm m Hok) as Hp.
  destruct (protect start e perm m) as [[[]|f] m'].
  - destruct Hp as (Hm & Hok' & Hv). split; [by apply mapped_view|done].
  - destruct Hp as (Hm & -> & _). split; [done|].
    destruct (decide (Forall (fun a => is_Some (view h m a)) (seqZ start (e - start)))) as [Hall|Hex].
    + exfalso. apply Hm. apply (mapped_view h); [done|]. intros a Ha.
      rewrite list.Forall_forall in Hall. apply Hall, elem_of_seqZ. lia.
    + apply not_Forall_Exists in Hex; [|intros a; apply _].
      apply list.Exists_exists in Hex as (a & Hin & Ha). apply elem_of_seqZ in Hin.
      exists a. split; [lia|]. by apply eq_None_not_Some.
Qed.

(** Both outcomes of [map]. *)
Lemma map_spec h base data perm m :
  um_ok m -> 0 <= base -> bytes_ok data ->
  let e := base + Z.of_nat (length data) in
  match um_map base data perm m with
  | (Ok _, m') =>
      base < e < 2 ^ 64 /\ (forall a, base <= a < e -> view h m a = None) /\ um_ok m' /\
      forall a, view h m' a =
        if in_range base e a
        then Some (MkCell perm true false LPrivate (default 0 (data !! Z.to_nat (a - base))))
        else view h m a
  | (Err _, m') => m' = m /\
      (data = [] \/ 2 ^ 64 <= e \/ exists a, base <= a < e /\ is_Some (view h m a))
  end.
Proof.
  intros Hok Hb Hd e. unfold um_map. fold e.
  destruct (Z.leb_spec (2 ^ 64) e); [by split; [|auto]|].
  destruct (bool_decide (data = [])) eqn:Edata; cbn [orb].
  { apply bool_decide_eq_true in Edata. by split; [|auto]. }
  apply bool_decide_eq_false in Edata.
  assert (base < e) by (unfold e; destruct data; [done|simpl length; lia]).
  pose proof (overlaps_spec m base e Hok ltac:(lia)) as Hov.
  destruct (overlaps base e m) eqn:Eo.
  - split; [done|]. right. right.
    destruct (decide (Exists (fun a => is_Some (view h m a)) (seqZ base (e - base)))) as [Hex|Hno].
    + apply list.Exists_exists in Hex as (a & Hin & Ha). apply elem_of_seqZ in Hin.
      exists a. split; [lia|done].
    + exfalso. assert (hole (um_regions m) base e) as Hh; [|by apply Hov in Hh].
      apply (hole_view h); [done|]. intros a Ha. apply eq_None_not_Some. intros Hs. apply Hno.
      apply list.Exists_exists. exists a. split; [apply elem_of_seqZ; lia|done].
  - assert (hole (um_regions m) base e) as Hh by (by apply Hov).
    destruct (region_own_spec h data perm Hd) as [Hr Hby].
    destruct (insert_spec h base (region_own data perm) (touch base e m)) as [Hok' Hv];
      [by eapply um_ok_regions; [apply touch_regions|]|done|simpl; lia|done|done| |].
    { rewrite touch_regions. exact Hh. }
    split; [done|]. split; [by apply hole_view_iff|]. split; [done|].
    intros a. rewrite Hv. change (base + reg_len (region_own data perm)) with e.
    destruct (in_range base e a) eqn:Ea; [|apply view_regions, touch_regions].
    apply in_range_spec in Ea. unfold reg_cell. rewrite Hby by lia. done.
Qed.

(** C0: [map] succeeds exactly when the range is not empty, ends below 2^64 and
    overlaps no mapping; it then maps the data with the permissions given, and
    a failing call changes nothing. *)
Theorem map_view h base data perm m :
  um_ok m -> 0 <= base -> bytes_ok data ->
  let e := base + Z.of_nat (length data) in
  match um_map base data perm m with
  | (Ok _, m') =>
      base < e < 2 ^ 64 /\ (forall a, base <= a < e -> view h m a = None) /\ um_ok m' /\
      forall a, view h m' a =
        if in_range base e a
        then Some (MkCell perm true false LPrivate (default 0 (data !! Z.to_nat (a - base))))
        else view h m a
  | (Err _, m') => m' = m /\
      (data = [] \/ 2 ^ 64 <= e \/ exists a, base <= a < e /\ is_Some (view h m a))
  end.
Proof. apply map_spec. Qed.
