(* ===== verification/Mappings.v ===== *)
(** * mmap, mremap and the search for free space (theorems about UserMemory)

    The mapping operations of [UserMemory] on the abstract address space of
    AddressSpace, and [find_free]. *)

From Stdlib Require Import ZArith Lia Bool.
From stdpp Require Import base gmap list numbers sorting.
From S2P Require Import Prelude Memory BTree Region UserMemory AddressSpace.
Local Open Scope Z_scope.
Local Open Scope vetro_scope.

(** MAP_FIXED mappings replace exactly their range: with the data given
    ([map_fixed]), with zeros ([map_zeroed]), or with a window of a shared
    buffer ([map_shared]); the rest of the address space is untouched. *)
Theorem map_replace_view h m base len off buf perm mw data :
  um_ok m -> 0 <= base -> 0 < len -> base + len < 2 ^ 64 -> 0 <= off -> off + len <= 2 ^ 64 ->
  bytes_ok data -> Z.of_nat (length data) = len ->
  (um_ok (map_fixed base data perm m) /\
   forall a, view h (map_fixed base data perm m) a =
     if in_range base (base + len) a
     then Some (MkCell perm true false LPrivate (default 0 (data !! Z.to_nat (a - base))))
     else view h m a) /\
  (um_ok (map_zeroed base len perm m) /\
   forall a, view h (map_zeroed base len perm m) a =
     if in_range base (base + len) a
     then Some (MkCell perm true false LPrivate 0) else view h m a) /\
  (um_ok (map_shared base buf off len perm mw m) /\
   forall a, view h (map_shared base buf off len perm mw m) a =
     if in_range base (base + len) a
     then Some (MkCell perm mw false (LShared buf (off + (a - base)))
                  (default 0 (buf_of h buf !! Z.to_nat (off + (a - base)))))
     else view h m a).
Proof.
  intros Hok Hb Hl He Hoff Hoffl Hd Hlen. split; [|split].
  - unfold map_fixed. rewrite bool_decide_eq_false_2 by (intros ->; simpl in Hlen; lia).
    rewrite Hlen. destruct (region_own_spec h data perm Hd) as [Hr Hby].
    assert (reg_len (region_own data perm) = len) as Hrl by done.
    destruct (unmap_insert_spec h base (region_own data perm) m) as [H1 H2];
      [done|done|lia|lia|done|]. rewrite Hrl in *. split; [done|]. intros a. rewrite H2.
    destruct (in_range _ _ a) eqn:Ea; [|done]. apply in_range_spec in Ea.
    unfold reg_cell. by rewrite Hby by lia.
  - unfold map_zeroed. rewrite (proj2 (Z.eqb_neq len 0)) by lia.
    destruct (region_zeroed_spec h len perm) as [Hr Hby].
    destruct (unmap_insert_spec h base (region_zeroed len perm) m) as [H1 H2];
      [done|done|done|done|done|]. split; [done|]. intros a. rewrite H2.
    destruct (in_range _ _ a); [|done]. unfold reg_cell. by rewrite Hby.
  - unfold map_shared. rewrite (proj2 (Z.eqb_neq len 0)) by lia.
    by destruct (unmap_insert_spec h base (MkRegion (Shared buf off) len perm mw false true) m)
      as [H1 H2].
Qed.

(** ** Inserting several regions *)

(** The entry of [l] that covers offset [o]. *)
Fixpoint cover_list (l : btree Region) (o : Z) : option (Z * Region) :=
  match l with
  | [] => None
  | (d, r) :: l' => if in_range d (d + reg_len r) o then Some (d, r) else cover_list l' o
  end.

Definition insert_all (dst : Z) (l : btree Region) (m : UserMemory) : UserMemory :=
  fold_left (fun m '(d, r) => set_regions (bt_insert (dst + d) r) m) l m.

Definition apart (p q : Z * Region) : Prop := p.1 + reg_len p.2 <= q.1.

Lemma insert_all_spec h dst l m :
  um_ok m -> StronglySorted apart l ->
  Forall (fun p => 0 <= dst + p.1 /\ 0 < reg_len p.2 /\ dst + p.1 + reg_len p.2 < 2 ^ 64 /\
    region_ok p.2 /\ hole (um_regions m) (dst + p.1) (dst + p.1 + reg_len p.2)) l ->
  um_ok (insert_all dst l m) /\
  forall a, view h (insert_all dst l m) a =
    match cover_list l (a - dst) with
    | Some (d, r) => Some (reg_cell h r (a - dst - d))
    | None => view h m a
    end.
Proof.
  intros Hok Hs. revert m Hok. induction Hs as [|[d r] l Hs IH Hap]; intros m Hok Hall; [done|].
  apply Forall_cons in Hall as [(Hd & Hl & He & Hr & Hh) Hall]. cbn [fst snd] in *.
  destruct (insert_spec h (dst + d) r m) as [Hok1 Hv1]; [done..|].
  set (m1 := set_regions (bt_insert (dst + d) r) m) in *.
  destruct (IH m1 Hok1) as [Hok2 Hv2].
  { apply list.Forall_forall. intros [d' r'] Hin. rewrite list.Forall_forall in Hall, Hap.
    destruct (Hall _ Hin) as (Hd' & Hl' & He' & Hr' & Hh'). split_and!; try done.
    specialize (Hap _ Hin). unfold apart in Hap. cbn [fst snd] in *.
    apply (hole_view h); [done|]. intros a Ha. rewrite Hv1.
    destruct (in_range (dst + d) _ a) eqn:Ea; [apply in_range_spec in Ea; lia|].
    by apply (proj1 (hole_view_iff h m _ _ Hok) Hh'). }
  split; [done|]. intros a. change (insert_all dst ((d, r) :: l) m) with (insert_all dst l m1).
  rewrite Hv2, Hv1. cbn [cover_list].
  assert (in_range (dst + d) (dst + d + reg_len r) a = in_range d (d + reg_len r) (a - dst)) as ->.
  { unfold in_range. f_equal; lia. }
  destruct (in_range d (d + reg_len r) (a - dst)) eqn:Ea; [|done].
  destruct (cover_list l (a - dst)) as [[d' r']|] eqn:Ec; [|do 2 f_equal; lia].
  exfalso. apply in_range_spec in Ea. clear -Ec Ea Hap Hl.
  induction l as [|[d2 r2] l IHl]; [done|]. cbn [cover_list] in Ec.
  apply Forall_cons in Hap as [Hap Hap']. unfold apart in Hap. cbn [fst snd] in Hap.
  destruct (in_range d2 _ _) eqn:E2; [apply in_range_spec in E2; lia|]. by apply IHl.
Qed.

Lemma sorted_apart rs : regs_ok rs -> StronglySorted apart rs.
Proof.
  intros Hok. pose proof (ok_sorted _ Hok) as Hs.
  assert (forall p, p ∈ rs -> p ∈ rs) as Hin by done.
  revert Hin Hs. generalize rs at 1 3 4. intros l Hin Hs.
  induction Hs as [|[b r] l Hs IH Hall]; [constructor|].
  constructor; [apply IH; intros p Hp; apply Hin; by right|].
  rewrite list.Forall_forall in *. intros [b' r'] Hp. specialize (Hall _ Hp). unfold apart.
  cbn [fst snd] in *. eapply (ok_disjoint _ Hok); [..|exact Hall];
    (apply bt_get_elem; [apply (ok_sorted _ Hok)|apply Hin]); [by left|by right].
Qed.

Lemma StronglySorted_sub {A} (S : relation A) (P : A -> Prop) `{!forall x, Decision (P x)} l :
  StronglySorted S l -> StronglySorted S (filter P l).
Proof.
  induction 1 as [|x l Hs IH Hall]; [constructor|]. rewrite filter_cons.
  case_decide; [|done]. constructor; [done|]. rewrite list.Forall_forall in *.
  intros y [_ Hy]%list_elem_of_filter. auto.
Qed.

Lemma StronglySorted_shift old l :
  StronglySorted apart l -> StronglySorted apart (map (fun '(k, r) => (k - old, r)) l).
Proof.
  induction 1 as [|[k r] l Hs IH Hall]; [constructor|]. cbn [map]. constructor; [done|].
  rewrite list.Forall_forall in *. intros p Hp. apply list_elem_of_fmap in Hp as ([k' r'] & -> & Hin).
  specialize (Hall _ Hin). unfold apart in *. cbn [fst snd] in *. lia.
Qed.

Lemma cover_list_shift old l o :
  cover_list (map (fun '(k, r) => (k - old, r)) l) o =
    (fun p => (p.1 - old, p.2)) <$> cover_list l (o + old).
Proof.
  induction l as [|[k r] l IH]; [done|]. cbn [map cover_list].
  assert (in_range (k - old) (k - old + reg_len r) o = in_range k (k + reg_len r) (o + old)) as ->.
  { unfold in_range. f_equal; lia. }
  by destruct (in_range _ _ _).
Qed.

(** What the entries of a range with boundaries at its ends cover. *)
Lemma cover_range rs old e a :
  regs_ok rs -> boundary old rs -> boundary e rs -> old <= a < e ->
  match cover_list (bt_range old e rs) a with
  | Some (b, r) => covers rs a b r
  | None => forall b r, ~ covers rs a b r
  end.
Proof.
  intros Hok Hb1 Hb2 Ha.
  assert (forall l, (forall p, p ∈ l -> p ∈ bt_range old e rs) ->
    match cover_list l a with
    | Some (b, r) => covers rs a b r
    | None => forall b r, (b, r) ∈ l -> ~ covers rs a b r
    end) as Hgen.
  { intros l Hl. induction l as [|[b r] l IH]; cbn [cover_list].
    - intros b r Hin. by apply elem_of_nil in Hin.
    - destruct (in_range b (b + reg_len r) a) eqn:E.
      + apply in_range_spec in E. split; [|done]. apply bt_get_elem; [apply (ok_sorted _ Hok)|].
        assert ((b, r) ∈ bt_range old e rs) as [_ Hin]%list_elem_of_filter; [|done].
        apply Hl. by left.
      + specialize (IH (fun p Hp => Hl p (list_elem_of_further _ _ _ Hp))).
        destruct (cover_list l a) as [[b' r']|]; [done|]. intros b' r' Hin.
        apply elem_of_cons in Hin as [[= -> ->]|Hin]; [|by apply IH].
        intros [_ Hc]. apply in_range_spec in Hc. congruence. }
  specialize (Hgen (bt_range old e rs) ltac:(done)).
  destruct (cover_list (bt_range old e rs) a) as [[b r]|]; [done|].
  intros b r Hc. apply (Hgen b r); [|done]. apply list_elem_of_filter.
  split; [|apply bt_get_elem; [apply (ok_sorted _ Hok)|by destruct Hc]].
  by apply (covers_in_range _ _ _ _ _ _ Hb1 Hb2 Hc).
Qed.

Lemma split_both_spec h start e m :
  um_ok m ->
  let m' := split_at e (split_at start m) in
  um_ok m' /\ boundary start (um_regions m') /\ boundary e (um_regions m') /\
  forall a, view h m' a = view h m a.
Proof.
  intros Hok m'. pose proof (split_at_ok start _ Hok) as Hok1.
  split; [by apply split_at_ok|].
  split; [apply split_at_keeps_boundary; [done|by apply split_at_boundary]|].
  split; [by apply split_at_boundary|]. intros a. unfold m'. by rewrite !split_at_view by done.
Qed.

(** Taking the entries of a range out of the map. *)
Lemma take_range_spec h start e m :
  um_ok m -> boundary start (um_regions m) -> boundary e (um_regions m) ->
  let m' := set_regions (bt_remove_keys (map fst (bt_range start e (um_regions m)))) m in
  um_ok m' /\
  forall a, view h m' a = if in_range start e a then None else view h m a.
Proof.
  intros Hok Hbs Hbe m'.
  destruct (bt_remove_range start e (um_regions m) (ok_sorted _ Hok)) as [Hs Hget].
  assert (um_ok m') as Hok'.
  { eapply regs_ok_sub; [exact Hok|exact Hs|]. intros b r Hg. cbv zeta in Hget.
    unfold m' in Hg. rewrite set_regions_get in Hg. rewrite Hget in Hg. by destruct (_ && _). }
  assert (forall a b r, covers (um_regions m') a b r <->
    covers (um_regions m) a b r /\ ~ start <= a < e) as Hc.
  { intros a b r. unfold covers at 1, m'. rewrite set_regions_get, Hget.
    fold (in_range start e b). split.
    - intros [Hg Ha]. destruct (in_range start e b) eqn:Eb; [done|].
      assert (covers (um_regions m) a b r) as Hc by (by split). split; [done|].
      rewrite (covers_in_range _ _ _ _ _ _ Hbs Hbe Hc), <- in_range_spec, Eb. done.
    - intros [Hc Hn]. rewrite (covers_in_range _ _ _ _ _ _ Hbs Hbe Hc), <- in_range_spec in Hn.
      destruct Hc. split; [|done]. by destruct (in_range start e b). }
  split; [done|]. intros a. destruct (in_range start e a) eqn:Ea.
  - apply in_range_spec in Ea. apply view_none; [done|]. intros b r [_ Hn]%Hc. done.
  - apply view_transfer; [done..| |].
    + intros b r Hcc. exists b, r. split; [|done]. apply Hc. split; [done|].
      rewrite <- in_range_spec, Ea. done.
    + intros b r [Hcc _]%Hc. by exists b, r.
Qed.

(** The entries of a range, moved by [dst - old], fill a hole at [dst]. *)
Lemma moved_regions_ok rs old len dst :
  regs_ok rs -> boundary (old + len) rs -> 0 <= dst -> dst + len < 2 ^ 64 ->
  let l := map (fun '(k, r) => (k - old, r)) (bt_range old (old + len) rs) in
  StronglySorted apart l /\
  Forall (fun p => 0 <= p.1 /\ 0 < reg_len p.2 /\ p.1 + reg_len p.2 <= len /\ region_ok p.2) l.
Proof.
  intros Hok Hb Hd He l. split.
  - apply StronglySorted_shift, StronglySorted_sub. by apply sorted_apart.
  - apply list.Forall_forall. intros p Hp. apply list_elem_of_fmap in Hp as ([k r] & -> & Hin).
    apply list_elem_of_filter in Hin as [Hr Hin]. cbn [fst snd] in *.
    assert (bt_get k rs = Some r) as Hg by (apply bt_get_elem; [apply (ok_sorted _ Hok)|done]).
    destruct (ok_region _ Hok _ _ Hg) as (?&?&?&?). specialize (Hb k r Hg ltac:(lia)).
    split_and!; done || lia.
Qed.

Lemma remap_regs h old len dst m :
  um_ok m -> 0 <= dst -> 0 <= len -> dst + len < 2 ^ 64 ->
  um_ok (remap old len dst m) /\
  forall a, view h (remap old len dst m) a =
    if in_range dst (dst + len) a then view h m (old + (a - dst))
    else if in_range old (old + len) a then None else view h m a.
Proof.
  intros Hok Hd Hl He. unfold remap. cbv zeta.
  set (m0 := touch dst _ (touch old _ m)).
  assert (um_regions m0 = um_regions m) as Em0 by (unfold m0; by rewrite !touch_regions).
  assert (um_ok m0) as Hok0 by (by eapply um_ok_regions).
  destruct (split_both_spec h old (old + len) m0 Hok0) as (Hok2 & Hb1 & Hb2 & Hv2).
  set (m2 := split_at (old + len) (split_at old m0)) in *.
  destruct (take_range_spec h old (old + len) m2 Hok2 Hb1 Hb2) as [Hok3 Hv3].
  set (m3 := set_regions _ m2) in *.
  destruct (unmap_spec h dst (dst + len) m3 Hok3) as [Hok4 Hv4].
  set (m4 := unmap dst (dst + len) m3) in *.
  destruct (moved_regions_ok (um_regions m2) old len dst Hok2 Hb2 Hd He) as [Hs Hall].
  set (l := map (fun '(k, r) => (k - old, r)) (bt_range old (old + len) (um_regions m2))) in *.
  destruct (insert_all_spec h dst l m4 Hok4 Hs) as [Hok5 Hv5].
  { eapply Forall_impl; [exact Hall|]. intros [d r] (H1 & H2 & H3 & H4). cbn [fst snd] in *.
    split_and!; try done; try lia. apply (hole_view h); [done|]. intros a Ha. rewrite Hv4.
    by rewrite (proj2 (in_range_spec _ _ _)) by lia. }
  split; [done|]. intros a. fold (insert_all dst l m4). rewrite Hv5.
  assert (view h m2 (old + (a - dst)) = view h m (old + (a - dst))) as Hvm.
  { rewrite Hv2. by apply view_regions. }
  destruct (in_range dst (dst + len) a) eqn:Ea.
  - apply in_range_spec in Ea. rewrite <- Hvm. unfold l. rewrite cover_list_shift.
    pose proof (cover_range (um_regions m2) old (old + len) (a - dst + old) Hok2 Hb1 Hb2 ltac:(lia)) as Hc.
    destruct (cover_list _ (a - dst + old)) as [[b r]|]; cbn [fmap option_fmap option_map fst snd].
    + rewrite (view_covers h m2 (old + (a - dst)) b r); [|done|].
      * do 2 f_equal. lia. * by replace (old + (a - dst)) with (a - dst + old) by lia.
    + rewrite Hv4, (proj2 (in_range_spec _ _ _)) by lia. symmetry. apply view_none; [done|].
      by replace (old + (a - dst)) with (a - dst + old) by lia.
  - assert (cover_list l (a - dst) = None) as ->.
    { clear -Hall Ea. induction Hall as [|[d r] l (H1 & H2 & H3 & _) Hall IH]; [done|].
      cbn [cover_list fst snd] in *. destruct (in_range d _ _) eqn:E; [|done].
      apply in_range_spec in E. assert (in_range dst (dst + len) a = true); [|congruence].
      apply in_range_spec. lia. }
    rewrite Hv4, Ea, Hv3. destruct (in_range old (old + len) a); [done|]. rewrite Hv2.
    by apply view_regions.
Qed.

(** C0: [remap] (mremap) moves a range with its content, its permissions and its
    backing: afterwards the destination shows what the old range showed
    (holes included), the rest of the old range is unmapped, everything else
    is as before; this also when the two ranges overlap. *)
Theorem remap_view h old len dst m :
  um_ok m -> 0 <= dst -> 0 <= len -> dst + len < 2 ^ 64 ->
  um_ok (remap old len dst m) /\
  forall a, view h (remap old len dst m) a =
    if in_range dst (dst + len) a then view h m (old + (a - dst))
    else if in_range old (old + len) a then None else view h m a.
Proof. apply remap_regs. Qed.

(** What MREMAP_DONTUNMAP leaves at the old range: a shared cell stays, a
    private one reads as zero. *)
Definition left_cell (c : Cell) : Cell :=
  match c_loc c with
  | LPrivate => MkCell (c_perm c) (c_may_write c) (c_grows_down c) LPrivate 0
  | LShared _ _ => c
  end.

Lemma left_behind_cell h r off : reg_cell h (left_behind r) off = left_cell (reg_cell h r off).
Proof.
  destruct r as [[pages base|buf base] len pm mw gd pop]; unfold left_behind, reg_cell, left_cell; cbn.
  - unfold region_byte, page_byte. cbn. by rewrite lookup_empty.
  - done.
Qed.

Lemma left_behind_ok r : region_ok r -> region_ok (left_behind r) /\ reg_len (left_behind r) = reg_len r.
Proof.
  destruct r as [[pages base|buf base] len pm mw gd pop]; unfold left_behind, region_ok; cbn; [|done].
  intros _. split; [split; [apply map_Forall_empty|lia]|done].
Qed.

Lemma cover_list_map (f : Region -> Region) l o :
  (forall r, reg_len (f r) = reg_len r) ->
  cover_list (map (fun '(b, r) => (b, f r)) l) o = (fun p => (p.1, f p.2)) <$> cover_list l o.
Proof.
  intros Hf. induction l as [|[k r] l IH]; [done|]. cbn [map cover_list]. rewrite Hf.
  by destruct (in_range _ _ _).
Qed.

Lemma StronglySorted_map_apart (f : Region -> Region) l :
  (forall r, reg_len (f r) = reg_len r) ->
  StronglySorted apart l -> StronglySorted apart (map (fun '(b, r) => (b, f r)) l).
Proof.
  intros Hf. induction 1 as [|[k r] l Hs IH Hall]; [constructor|]. cbn [map]. constructor; [done|].
  rewrite list.Forall_forall in *. intros p Hp. apply list_elem_of_fmap in Hp as ([k' r'] & -> & Hin).
  specialize (Hall _ Hin). unfold apart in *. cbn [fst snd] in *. by rewrite Hf.
Qed.

Lemma left_behind_len r : reg_len (left_behind r) = reg_len r.
Proof. by destruct r as [[] ? ? ? ? ?]. Qed.

(** C0: [remap_dontunmap] (MREMAP_DONTUNMAP) with disjoint ranges shows the old
    range at the destination and keeps the old range mapped with the same
    permissions, private memory reading as zero and shared memory unchanged. *)
Theorem remap_dontunmap_view h old len dst m :
  um_ok m -> 0 <= dst -> 0 <= len -> dst + len < 2 ^ 64 ->
  (old + len <= dst \/ dst + len <= old) ->
  um_ok (remap_dontunmap old len dst m) /\
  forall a, view h (remap_dontunmap old len dst m) a =
    if in_range dst (dst + len) a then view h m (old + (a - dst))
    else if in_range old (old + len) a then left_cell <$> view h m a else view h m a.
Proof.
  intros Hok Hd Hl He Hdis. unfold remap_dontunmap. cbv zeta.
  destruct (split_both_spec h old (old + len) m Hok) as (Hok2 & Hb1 & Hb2 & Hv2).
  set (m2 := split_at (old + len) (split_at old m)) in *.
  destruct (remap_regs h old len dst m2 Hok2 Hd Hl He) as [Hok3 Hv3].
  set (m3 := remap old len dst m2) in *.
  set (l := map (fun '(b, r) => (b, left_behind r)) (bt_range old (old + len) (um_regions m2))).
  assert (fold_left (fun m '(b, r) => set_regions (bt_insert b r) m) l m3 = insert_all 0 l m3) as ->
    by done.
  assert (Forall (fun p => old <= p.1 /\ 0 <= p.1 /\ 0 < reg_len p.2 /\ p.1 + reg_len p.2 < 2 ^ 64 /\
    p.1 + reg_len p.2 <= old + len /\ region_ok p.2) l) as Hall.
  { apply list.Forall_forall. intros p Hp. apply list_elem_of_fmap in Hp as ([k r] & -> & Hin).
    apply list_elem_of_filter in Hin as [Hr Hin]. cbn [fst snd] in *.
    assert (bt_get k (um_regions m2) = Some r) as Hg
      by (apply bt_get_elem; [apply (ok_sorted _ Hok2)|done]).
    destruct (ok_region _ Hok2 _ _ Hg) as (?&?&?&Hro). pose proof (Hb2 k r Hg ltac:(lia)).
    destruct (left_behind_ok r Hro) as [? ->]. split_and!; done || lia. }
  destruct (insert_all_spec h 0 l m3 Hok3) as [Hok4 Hv4].
  { apply StronglySorted_map_apart; [apply left_behind_len|].
    apply StronglySorted_sub. by apply sorted_apart. }
  { eapply Forall_impl; [exact Hall|]. intros [k r] (H1 & H2 & H3 & H4 & H5 & H6). cbn [fst snd] in *.
    split_and!; try done; try lia. apply (hole_view h); [done|]. intros a Ha. rewrite Hv3.
    destruct (in_range dst _ a) eqn:E1; [apply in_range_spec in E1; lia|].
    by rewrite (proj2 (in_range_spec old _ _)) by lia. }
  split; [done|]. intros a. rewrite Hv4, Z.sub_0_r, Hv3, !Hv2.
  unfold l. rewrite (cover_list_map left_behind) by apply left_behind_len.
  destruct (in_range old (old + len) a) eqn:Eo.
  - apply in_range_spec in Eo.
    destruct (in_range dst (dst + len) a) eqn:Ed; [apply in_range_spec in Ed; lia|].
    pose proof (cover_range (um_regions m2) old (old + len) a Hok2 Hb1 Hb2 ltac:(lia)) as Hc.
    rewrite <- Hv2. destruct (cover_list _ a) as [[b r]|]; cbn [fmap option_fmap option_map fst snd].
    + rewrite left_behind_cell. by rewrite (view_covers h m2 a b r).
    + by rewrite (view_none h m2 a).
  - assert (cover_list (bt_range old (old + len) (um_regions m2)) a = None) as ->; [|done].
    assert (cover_list l a = None) as Hn.
    { clear -Hall Eo. induction Hall as [|[k r] l (H1 & H2 & H3 & H4 & H5 & H6) Hall IH]; [done|].
      cbn [cover_list fst snd] in *. destruct (in_range k _ _) eqn:E; [|done].
      apply in_range_spec in E. assert (in_range old (old + len) a = true); [|congruence].
      apply in_range_spec. lia. }
    unfold l in Hn. rewrite (cover_list_map left_behind) in Hn by apply left_behind_len.
    by destruct (cover_list _ a).
Qed.

(** ** Growing *)

Lemma page_mask addr : is_u64 addr -> Z.land addr (u64 (Z.lnot (PAGE - 1))) = PAGE * (addr / PAGE).
Proof.
  intros Ha. change (u64 (Z.lnot (PAGE - 1))) with (Z.shiftl (Z.ones 52) 12).
  replace (PAGE * (addr / PAGE)) with (Z.shiftl (Z.shiftr addr 12) 12)
    by (rewrite Z.shiftl_mul_pow2, Z.shiftr_div_pow2 by lia; unfold PAGE; change (2 ^ 12) with 4096; lia).
  zbitwise. destruct (Z.lt_ge_cases i 12).
  - rewrite !(Z.testbit_neg_r _ (i - 12)) by lia. by rewrite andb_false_r.
  - rewrite Z.shiftr_spec, Z.testbit_ones_nonneg by lia. replace (i - 12 + 12) with i by lia.
    destruct (Z.ltb_spec (i - 12) 52); [by rewrite andb_true_r|].
    by rewrite (testbit_high 64 addr) by (done || lia).
Qed.

(** Both outcomes of [grow_down], with the memory of the second. *)
Lemma grow_down_spec h addr gap m :
  um_ok m -> is_u64 addr ->
  let page := PAGE * (addr / PAGE) in
  match grow_down addr gap m with
  | (false, m') => m' = m
  | (true, m') => exists e c r,
      m' = set_regions (bt_insert page r) (touch page e m) /\
      page <= addr < e /\ view h m e = Some c /\ c_grows_down c = true /\
      (forall a, page <= a < e -> view h m a = None) /\ um_ok m' /\
      forall a, view h m' a =
        if in_range page e a then Some (MkCell (c_perm c) (c_may_write c) true LPrivate 0)
        else view h m a
  end.
Proof.
  intros Hok Ha page. unfold grow_down. rewrite page_mask by done. fold page. cbv zeta.
  pose proof (ok_sorted _ Hok) as Hs. pose proof (bt_from_spec (page + 1) _ Hs) as Hf.
  destruct (page_div_mod addr ltac:(apply Ha)) as [Hpage Hpm]. fold page in Hpage.
  assert (0 <= page) by (unfold page, PAGE; pose proof (Z.div_pos addr 4096 ltac:(apply Ha) ltac:(lia)); lia).
  destruct (bt_from (page + 1) (um_regions m)) as [[b r]|]; [|done].
  destruct Hf as (Hg & Hb & Hmin). destruct (ok_region _ Hok _ _ Hg) as (?&Hlen&Hend&Hro).
  destruct (negb (reg_grows_down r) || (b <=? addr)) eqn:Eg; [done|].
  apply orb_false_iff in Eg as [Eg%negb_false_iff Eb%Z.leb_gt].
  destruct (match bt_below (page + 1) (um_regions m) with Some _ => _ | None => _ end) eqn:Ebl; [done|].
  assert (hole (um_regions m) page b) as Hhole.
  { intros a b' r' Hr [Hg' Ha']. pose proof (bt_below_spec (page + 1) _ Hs) as Hbs.
    destruct (Z.le_gt_cases (page + 1) b') as [Hle|Hgt].
    { pose proof (Hmin _ _ Hg' Hle). lia. }
    destruct (bt_below (page + 1) (um_regions m)) as [[pb p]|]; [|apply Hbs in Hg'; lia].
    destruct Hbs as (Hgp & Hlt & Hmax). apply orb_false_iff in Ebl as [Ebl%Z.ltb_ge _].
    pose proof (Hmax _ _ Hg' ltac:(lia)).
    destruct (Z.eq_dec b' pb) as [->|]; [assert (r' = p) by congruence; subst; lia|].
    pose proof (ok_disjoint _ Hok _ _ _ _ Hg' Hgp ltac:(lia)).
    destruct (ok_region _ Hok _ _ Hgp) as (?&?&_). lia. }
  set (nr := MkRegion (Pages ∅ 0) (b - page) (reg_perm r) (reg_may_write r) true false).
  destruct (insert_spec h page nr (touch page b m)) as [Hok' Hv].
  { eapply um_ok_regions; [apply touch_regions|done]. }
  { done. } { simpl; lia. } { simpl; lia. } { split; [apply map_Forall_empty|lia]. }
  { rewrite touch_regions. simpl. by replace (page + (b - page)) with b by lia. }
  assert (covers (um_regions m) b b r) as Hcb by (split; [done|lia]).
  exists b, (reg_cell h r (b - b)), nr. split; [done|]. split; [lia|]. split; [by apply view_covers|].
  split; [done|]. split; [by apply hole_view_iff|]. split; [done|].
  intros a. rewrite Hv. replace (page + reg_len nr) with b by (simpl; lia).
  destruct (in_range page b a); [|by apply view_regions, touch_regions].
  unfold reg_cell, region_byte, page_byte. cbn. by rewrite lookup_empty.
Qed.

(** C0: [grow_down] either changes nothing and says no, or maps zeros from the
    page of the fault up to the growing region, with the permissions of that
    region; what it maps was free. *)
Theorem grow_down_view h addr gap m :
  um_ok m -> is_u64 addr ->
  let page := PAGE * (addr / PAGE) in
  match grow_down addr gap m with
  | (false, m') => m' = m
  | (true, m') => exists e c,
      page <= addr < e /\ view h m e = Some c /\ c_grows_down c = true /\
      (forall a, page <= a < e -> view h m a = None) /\ um_ok m' /\
      forall a, view h m' a =
        if in_range page e a then Some (MkCell (c_perm c) (c_may_write c) true LPrivate 0)
        else view h m a
  end.
Proof.
  intros Hok Ha page. pose proof (grow_down_spec h addr gap m Hok Ha) as Hg. cbv zeta in Hg. fold page in Hg.
  destruct (grow_down addr gap m) as [[] m']; [|done]. destruct Hg as (e & c & r & _ & Hg). by exists e, c.
Qed.

(** ** Free space *)

(** Entries of a map below [top], from the highest. *)
Definition descending (l : btree Region) : Prop := StronglySorted (fun p q => apart q p) l.

Lemma descending_rev l : StronglySorted apart l -> descending (rev l).
Proof.
  induction 1 as [|p l Hs IH Hall]; [constructor|]. cbn [rev]. unfold descending in *.
  clear Hs. rewrite list.Forall_forall in Hall.
  assert (forall q, q ∈ rev l -> apart p q) as Hr.
  { intros q Hq. apply Hall, list_elem_of_In, in_rev, list_elem_of_In, Hq. }
  revert IH Hr. generalize (rev l). intros k IH Hr.
  induction IH as [|q k Hk IHk Hq]; cbn [app]; [repeat constructor|].
  constructor; [apply IHk; intros; apply Hr; by right|].
  apply Forall_app. split; [done|]. constructor; [|constructor]. apply Hr. by left.
Qed.

(** [x] starts a hole of [len] bytes inside [[bottom, e)] that avoids the
    entries of [l]. *)
Definition free_at (l : btree Region) (len bottom e x : Z) : Prop :=
  bottom <= x /\ x + len <= e /\ forall b r, (b, r) ∈ l -> b + reg_len r <= x \/ x + len <= b.

Lemma find_free_from_spec l e len bottom :
  descending l -> Forall (fun p => 0 < reg_len p.2) l -> 0 < len -> bottom + len < 2 ^ 64 ->
  match find_free_from l e len bottom with
  | Some x => free_at l len bottom e x /\ forall y, free_at l len bottom e y -> y <= x
  | None => forall y, ~ free_at l len bottom e y
  end.
Proof.
  intros Hs Hlen Hl Hbot. assert (saturating_add bottom len = bottom + len) as Hsat
    by (unfold saturating_add; lia).
  revert e. induction Hs as [|[b r] l Hs IH Hall]; intros e; cbn [find_free_from]; rewrite Hsat.
  - destruct (Z.leb_spec (bottom + len) e).
    + split; [|intros y (?&?&_); lia].
      split_and!; [lia|lia|]. intros b r Hin. by apply elem_of_nil in Hin.
    + intros y (?&?&_). lia.
  - apply Forall_cons in Hlen as [Hr Hlen]. cbn [snd] in Hr. specialize (IH Hlen).
    set (start := Z.max (b + reg_len r) bottom).
    destruct (Z.leb_spec start e); [destruct (Z.leb_spec len (e - start))|]; cbn [andb].
    { split; [|intros y (?&?&_); lia]. split_and!; [lia|lia|].
      intros b' r' [[= -> ->]|Hin]%elem_of_cons; left; [lia|].
      rewrite list.Forall_forall in Hall. specialize (Hall _ Hin). unfold apart in Hall.
      cbn [fst snd] in Hall. lia. }
    all: assert (forall y, free_at ((b, r) :: l) len bottom e y <->
      free_at l len bottom (Z.min e b) y) as Hiff.
    1,3: (intros y; unfold free_at; split;
      [intros (H1 & H2 & H3); destruct (H3 b r ltac:(by left)); [lia|];
       split_and!; [lia|lia|]; intros b' r' Hin; apply H3; by right
      |intros (H1 & H2 & H3); split_and!; [lia|lia|];
       intros b' r' [[= -> ->]|Hin]%elem_of_cons; [lia|by apply H3]]).
    all: destruct (Z.ltb_spec (Z.min e b) (bottom + len));
      [intros y Hy%Hiff; destruct Hy as (?&?&_); lia|].
    all: specialize (IH (Z.min e b)); destruct (find_free_from l (Z.min e b) len bottom) as [x|];
      [destruct IH as [Hx Hmax]; split; [by apply Hiff|intros y Hy%Hiff; by apply Hmax]
      |intros y Hy%Hiff; by apply (IH y)].
Qed.

(** C0: [find_free] returns the highest free range of [len] bytes inside
    [[bottom, top)] when there is one, and nothing exactly when every such
    range meets a mapping. *)
Theorem find_free_highest h m len bottom top :
  um_ok m -> 0 < len -> 0 <= bottom -> bottom + len < 2 ^ 64 ->
  let free x := bottom <= x /\ x + len <= top /\ forall a, x <= a < x + len -> view h m a = None in
  match find_free len bottom top m with
  | Some x => free x /\ forall y, free y -> y <= x
  | None => forall y, ~ free y
  end.
Proof.
  intros Hok Hl Hb0 Hbot free. unfold find_free.
  set (l := bt_range 0 top (um_regions m)).
  assert (forall b r, (b, r) ∈ rev l <-> bt_get b (um_regions m) = Some r /\ b < top) as Hin.
  { intros b r. rewrite list_elem_of_In, <- in_rev, <- list_elem_of_In. unfold l, bt_range.
    rewrite list_elem_of_filter, <- bt_get_elem by apply (ok_sorted _ Hok). cbn [fst].
    split; [intros [??]; split; [done|lia]|]. intros [Hg Ht]. split; [|done].
    destruct (ok_region _ Hok _ _ Hg). lia. }
  assert (forall x, free x <-> free_at (rev l) len bottom top x) as Hfree.
  { intros x. unfold free, free_at. rewrite <- (hole_view_iff h) by done.
    assert (bottom <= x -> x + len <= top ->
      (hole (um_regions m) x (x + len) <->
       forall b r, (b, r) ∈ rev l -> b + reg_len r <= x \/ x + len <= b)) as Heq; [|tauto].
    intros Hx Ht. split.
    - intros Hh b r [Hg _]%Hin. destruct (ok_region _ Hok _ _ Hg) as (?&?&_).
      destruct (Z.le_gt_cases (b + reg_len r) x); [by left|].
      destruct (Z.le_gt_cases (x + len) b); [by right|]. exfalso.
      apply (Hh (Z.max x b) b r); [lia|]. split; [done|lia].
    - intros Hl' a b r Ha [Hg Ha']. destruct (Hl' b r) as [|]; [|lia|lia].
      apply Hin. split; [done|lia]. }
  pose proof (find_free_from_spec (rev l) top len bottom) as Hspec.
  assert (descending (rev l)) as Hdesc
    by (apply descending_rev, StronglySorted_sub; by apply sorted_apart).
  assert (Forall (fun p => 0 < reg_len p.2) (rev l)) as Hpos.
  { apply list.Forall_forall. intros [b r] [Hg _]%Hin. by destruct (ok_region _ Hok _ _ Hg) as (?&?&_). }
  specialize (Hspec Hdesc Hpos Hl Hbot).
  destruct (find_free_from _ _ _ _) as [x|].
  - destruct Hspec as [Hx Hmax]. split; [by apply Hfree|]. intros y Hy%Hfree. by apply Hmax.
  - intros y Hy%Hfree. by apply (Hspec y).
Qed.

(** [extend] maps [extra] bytes after the region that ends at [e]. *)
Lemma extend_spec h e extra m :
  um_ok m -> 0 <= extra -> e + extra < 2 ^ 64 ->
  (forall b r buf base, bt_get b (um_regions m) = Some r -> reg_backing r = Shared buf base ->
     base + reg_len r + extra <= 2 ^ 64) ->
  extend e extra m = m \/
  (um_ok (extend e extra m) /\ exists r, extend e extra m = set_regions (bt_insert e r) (unmap e (e + extra) m) /\
   forall a, view h (extend e extra m) a =
     if in_range e (e + extra) a then Some (reg_cell h r (a - e)) else view h m a).
Proof.
  intros Hok Hx He Hsh. unfold extend. pose proof (bt_below_spec e _ (ok_sorted _ Hok)) as Hb.
  destruct (bt_below e (um_regions m)) as [[b r]|]; [|by left]. destruct Hb as (Hg & Hlt & _).
  destruct (ok_region _ Hok _ _ Hg) as (?&?&?&Hro).
  destruct (negb (b + reg_len r =? e) || (extra =? 0)) eqn:E; [by left|right].
  apply orb_false_iff in E as [E1%negb_false_iff%Z.eqb_eq E2%Z.eqb_neq].
  set (nr := MkRegion _ extra _ _ _ _).
  assert (region_ok nr) as Hnr.
  { unfold nr, region_ok in *. cbn [reg_backing]. destruct (reg_backing r) as [|buf base] eqn:Eb.
    - split; [apply map_Forall_empty|lia].
    - specialize (Hsh _ _ _ _ Hg Eb). cbn [reg_len]. lia. }
  destruct (unmap_insert_spec h e nr m) as [Hok' Hv]; [done|lia|simpl; lia|simpl; lia|done|].
  split; [done|]. exists nr. split; [done|]. exact Hv.
Qed.
