(* ===== verification/UserAccess.v ===== *)
(** * Loads, stores and the watch of code pages (theorems about UserMemory)

    Reads and writes of [UserMemory] on the abstract address space: what a
    read returns, where a write lands (shared buffers seen through several
    mappings included), that failing accesses change nothing, and that every
    change of a watched code page is reported. [UserMemory] discharges the
    laws of the interface [Memory]. *)

From Stdlib Require Import ZArith Lia Bool.
From stdpp Require Import base gmap list numbers.
From S2P Require Import Prelude Memory BTree Region UserMemory AddressSpace Mappings.
Local Open Scope Z_scope.
Local Open Scope vetro_scope.

Definition mem_wf (s : UserMemory * heap) : Prop := um_ok s.1 /\ heap_ok s.2.

(** Where the byte of a mapped address lives. *)
Inductive Place := At (a : Z) | In_ (buf off : Z).

#[export] Instance Place_eq_dec : EqDecision Place.
Proof. solve_decision. Defined.

Definition place_of (c : Cell) (a : Z) : Place :=
  match c_loc c with LPrivate => At a | LShared buf off => In_ buf off end.

Definition place (h : heap) (m : UserMemory) (a : Z) : option Place :=
  match view h m a with Some c => Some (place_of c a) | None => None end.

Definition set_byte (b : Z) (c : Cell) : Cell :=
  MkCell (c_perm c) (c_may_write c) (c_grows_down c) (c_loc c) b.

(** The last of the bytes [data], numbered from [k], whose number satisfies [f]. *)
Fixpoint last_write (f : Z -> bool) (k : Z) (data : list Z) : option Z :=
  match data with
  | [] => None
  | b :: data' =>
      match last_write f (k + 1) data' with
      | Some x => Some x
      | None => if f k then Some b else None
      end
  end.

(** The address space after the bytes [data] are stored from [addr]: every
    address whose place is written shows the last byte stored there. *)
Definition store_view (h : heap) (m : UserMemory) (addr : Z) (data : list Z) : AddressSpace := fun a =>
  match view h m a with
  | None => None
  | Some c =>
      match last_write (fun k => bool_decide (place h m (u64 (addr + k)) = Some (place_of c a))) 0 data with
      | Some b => Some (set_byte b c)
      | None => Some c
      end
  end.

Lemma last_write_ext f g k data :
  (forall i, k <= i < k + Z.of_nat (length data) -> f i = g i) ->
  last_write f k data = last_write g k data.
Proof.
  revert k. induction data as [|b data IH]; intros k Hfg; [done|]. cbn [last_write].
  rewrite (IH (k + 1)) by (intros; apply Hfg; cbn [length]; lia).
  rewrite (Hfg k) by (cbn [length]; lia). done.
Qed.

(** One number only. *)
Lemma last_write_single f k data x :
  (forall i, k <= i < k + Z.of_nat (length data) -> f i = (i =? x)) ->
  last_write f k data = if in_range k (k + Z.of_nat (length data)) x
                        then data !! Z.to_nat (x - k) else None.
Proof.
  revert k. induction data as [|b data IH]; intros k Hf; cbn [last_write length].
  { destruct (in_range _ _ _) eqn:E; [|done]. apply in_range_spec in E. lia. }
  rewrite (IH (k + 1)) by (intros; apply Hf; cbn [length]; lia).
  rewrite (Hf k) by (cbn [length]; lia).
  destruct (in_range (k + 1) _ x) eqn:E1.
  - apply in_range_spec in E1. rewrite (proj2 (in_range_spec _ _ _)) by lia.
    replace (Z.to_nat (x - k)) with (S (Z.to_nat (x - (k + 1)))) by lia. cbn.
    destruct (lookup_lt_is_Some_2 data (Z.to_nat (x - (k + 1)))) as [y Hy]; [lia|]. by rewrite Hy.
  - destruct (Z.eqb_spec k x) as [->|Hne].
    + rewrite (proj2 (in_range_spec _ _ _)) by lia. by rewrite Z.sub_diag.
    + destruct (in_range k _ x) eqn:E2; [|done]. apply in_range_spec in E2.
      assert (in_range (k + 1) (k + 1 + Z.of_nat (length data)) x = true); [|congruence].
      apply in_range_spec. lia.
Qed.

(** ** Writing through a region *)

Lemma put_region_ok b r r' m :
  um_ok m -> bt_get b (um_regions m) = Some r -> reg_len r' = reg_len r -> region_ok r' ->
  um_ok (set_regions (bt_insert b r') m).
Proof.
  intros Hok Hg Hl Hr. pose proof (ok_sorted _ Hok) as Hs.
  assert (forall j s, bt_get j (bt_insert b r' (um_regions m)) = Some s ->
    exists s0, bt_get j (um_regions m) = Some s0 /\ reg_len s = reg_len s0 /\ region_ok s) as Hinv.
  { intros j s. rewrite bt_get_insert by done. destruct (Z.eqb_spec j b) as [->|].
    - intros [= <-]. by exists r.
    - intros Hj. exists s. by destruct (ok_region _ Hok _ _ Hj) as (?&?&?&?). }
  constructor; rewrite set_regions_get.
  - by apply bt_sorted_insert.
  - intros j s Hj. destruct (Hinv _ _ Hj) as (s0 & Hj0 & -> & Hrs).
    by destruct (ok_region _ Hok _ _ Hj0) as (?&?&?&?).
  - intros j s j' s' Hj Hj' Hlt. destruct (Hinv _ _ Hj) as (s0 & Hj0 & -> & _).
    destruct (Hinv _ _ Hj') as (s1 & Hj1 & _ & _). by eapply (ok_disjoint _ Hok).
Qed.

(** The region that covers an address after region [b] was replaced. *)
Lemma covers_put b r r' m a bb rr :
  um_ok m -> bt_get b (um_regions m) = Some r -> reg_len r' = reg_len r ->
  covers (um_regions m) a bb rr ->
  covers (bt_insert b r' (um_regions m)) a bb (if bb =? b then r' else rr).
Proof.
  intros Hok Hg Hl [Hgb Ha]. pose proof (ok_sorted _ Hok) as Hs.
  split; [rewrite bt_get_insert by done|]; destruct (Z.eqb_spec bb b) as [->|]; try done.
  assert (rr = r) by congruence. subst. lia.
Qed.

Lemma lookup_total_data (data : list Z) i :
  (i < length data)%nat -> data !! i = Some (data !!! i).
Proof. intros. by apply list_lookup_lookup_total_lt. Qed.

Lemma last_write_none f k data :
  (forall i, k <= i < k + Z.of_nat (length data) -> f i = false) -> last_write f k data = None.
Proof.
  revert k. induction data as [|b data IH]; intros k Hf; [done|]. cbn [last_write].
  rewrite (IH (k + 1)) by (intros; apply Hf; cbn [length]; lia).
  by rewrite (Hf k) by (cbn [length]; lia).
Qed.

(** The cell an address shows after a store. *)
Definition stored (c : Cell) (o : option Z) : Cell :=
  match o with Some b => set_byte b c | None => c end.

(** A write of [data] through the region at [b], within the region. *)
Section region_put.
Context (h h' : heap) (m : UserMemory) (b : Z) (r r' : Region) (off : Z) (data : list Z).
Hypotheses (Hok : um_ok m) (Hh : heap_ok h) (Hd : bytes_ok data)
  (Hg : bt_get b (um_regions m) = Some r) (Hoff : 0 <= off)
  (Hle : off + Z.of_nat (length data) <= reg_len r)
  (Hw : region_write h r off data = (h', r')).

(** The place of byte [k] of the data. *)
Definition put_place (k : Z) : Place :=
  match reg_backing r with
  | Pages _ _ => At (b + off + k)
  | Shared buf base => In_ buf (base + off + k)
  end.

Lemma put_places k :
  0 <= k < Z.of_nat (length data) -> place h m (u64 (b + off + k)) = Some (put_place k).
Proof.
  intros Hk. destruct (ok_region _ Hok _ _ Hg) as (Hb0 & Hlen & Hend & Hr).
  rewrite u64_id by (unfold is_u; lia). unfold place.
  rewrite (view_covers h m (b + off + k) b r); [|done|split; [done|lia]].
  unfold place_of, reg_cell, reg_loc, put_place. cbn [c_loc].
  destruct (reg_backing r); [done|]. do 2 f_equal. lia.
Qed.

Lemma put_private pages base a bb rr :
  reg_backing r = Pages pages base -> covers (um_regions m) a bb rr ->
  reg_cell h' (if bb =? b then r' else rr) (a - bb) =
    stored (reg_cell h rr (a - bb))
      (last_write (fun k => bool_decide (put_place k = place_of (reg_cell h rr (a - bb)) a)) 0 data).
Proof.
  intros Eb [Hgb Ha]. destruct (ok_region _ Hok _ _ Hg) as (_ & _ & _ & Hr).
  destruct (region_write_spec h r off data h' r' Hr Hh Hd Hoff Hw)
    as (_ & _ & _ & Hp & Hmw & Hgd & _ & Hcase).
  rewrite Eb in Hcase. destruct Hcase as (-> & (pages' & Eb') & Hby).
  unfold put_place. rewrite Eb. destruct (Z.eqb_spec bb b) as [->|Hne].
  - assert (rr = r) as -> by congruence. 
    rewrite (last_write_single _ 0 data (a - b - off)); cycle 1.
    { intros i Hi. unfold place_of, reg_cell, reg_loc. cbn [c_loc]. rewrite Eb.
      apply eq_true_iff_eq. rewrite bool_decide_eq_true, Z.eqb_eq. split; [intros [=]; lia|].
      intros ->. f_equal. lia. }
    assert (reg_cell h r' (a - b) = set_byte (region_byte h r' (a - b)) (reg_cell h r (a - b))) as ->.
    { unfold reg_cell, set_byte, reg_loc. cbn. by rewrite Hp, Hmw, Hgd, Eb, Eb'. }
    rewrite Hby by lia. fold (in_range off (off + Z.of_nat (length data)) (a - b)).
    replace (in_range off (off + Z.of_nat (length data)) (a - b)) with
      (in_range 0 (0 + Z.of_nat (length data)) (a - b - off)) by (unfold in_range; f_equal; lia).
    destruct (in_range 0 _ _) eqn:Er; [|done].
    apply in_range_spec in Er. rewrite lookup_total_data by lia. by rewrite Z.sub_0_r.
  - rewrite last_write_none; [done|]. intros i Hi. apply bool_decide_eq_false. intros Hpa.
    unfold place_of, reg_cell, reg_loc in Hpa. cbn [c_loc] in Hpa.
    destruct (reg_backing rr) eqn:Ebb; [|done]. injection Hpa as Hpa.
    destruct (covers_unique _ a bb rr b r Hok) as [? _]; [by split|split; [done|lia]|done].
Qed.

Lemma put_shared buf base a bb rr :
  reg_backing r = Shared buf base -> covers (um_regions m) a bb rr ->
  reg_cell h' (if bb =? b then r' else rr) (a - bb) =
    stored (reg_cell h rr (a - bb))
      (last_write (fun k => bool_decide (put_place k = place_of (reg_cell h rr (a - bb)) a)) 0 data).
Proof.
  intros Eb [Hgb Ha]. destruct (ok_region _ Hok _ _ Hg) as (_ & _ & _ & Hr).
  destruct (region_write_spec h r off data h' r' Hr Hh Hd Hoff Hw)
    as (_ & _ & _ & _ & _ & _ & _ & Hcase).
  rewrite Eb in Hcase. destruct Hcase as [-> Hby]. unfold put_place. rewrite Eb.
  assert ((if bb =? b then r else rr) = rr) as ->.
  { destruct (Z.eqb_spec bb b) as [->|]; [congruence|done]. }
  destruct (ok_region _ Hok _ _ Hgb) as (_ & _ & _ & Hrr). unfold region_ok in Hrr.
  unfold reg_cell, place_of, reg_loc, region_byte in *. cbn [c_loc].
  destruct (reg_backing rr) as [pages2 base2|buf2 base2] eqn:Ebb.
  { rewrite last_write_none; [done|]. intros i Hi. by apply bool_decide_eq_false. }
  rewrite Hby by lia. destruct (Z.eqb_spec buf2 buf) as [->|Hne]; cbn [andb]; cycle 1.
  { rewrite last_write_none; [done|]. intros i Hi. apply bool_decide_eq_false. congruence. }
  rewrite (last_write_single _ 0 data (base2 + (a - bb) - (base + off))); cycle 1.
  { intros i Hi. apply eq_true_iff_eq. rewrite bool_decide_eq_true, Z.eqb_eq.
    split; [intros [=]; lia|]. intros ->. f_equal. lia. }
  fold (in_range (base + off) (base + off + Z.of_nat (length data)) (base2 + (a - bb))).
  replace (in_range (base + off) (base + off + Z.of_nat (length data)) (base2 + (a - bb))) with
    (in_range 0 (0 + Z.of_nat (length data)) (base2 + (a - bb) - (base + off)))
    by (unfold in_range; f_equal; lia).
  destruct (in_range 0 _ _) eqn:Er; [|done].
  apply in_range_spec in Er. rewrite lookup_total_data by lia. by rewrite Z.sub_0_r.
Qed.

Lemma region_put :
  let m' := set_regions (bt_insert b r') m in
  um_ok m' /\ heap_ok h' /\ forall a, view h' m' a = store_view h m (b + off) data a.
Proof.
  intros m'. destruct (ok_region _ Hok _ _ Hg) as (_ & _ & _ & Hr).
  destruct (region_write_spec h r off data h' r' Hr Hh Hd Hoff Hw) as (Hr' & Hh' & Hl & _).
  pose proof (put_region_ok b r r' m Hok Hg Hl Hr') as Hok'. split; [done|]. split; [done|].
  intros a. unfold store_view. pose proof (region_at_spec m a Hok) as Hs.
  destruct (region_at a m) as [[bb rr]|]; cycle 1.
  { rewrite (view_none h m a) by done. apply view_none; [done|]. intros bb rr [Hgb Ha].
    unfold m' in Hgb. rewrite set_regions_get, bt_get_insert in Hgb by apply (ok_sorted _ Hok).
    destruct (Z.eqb_spec bb b) as [->|]; [|by apply (Hs bb rr)].
    injection Hgb as <-. apply (Hs b r). split; [done|lia]. }
  rewrite (view_covers h m a bb rr) by done.
  rewrite (view_covers h' m' a bb (if bb =? b then r' else rr)); [|done|by eapply covers_put].
  rewrite (last_write_ext _
    (fun k => bool_decide (put_place k = place_of (reg_cell h rr (a - bb)) a))).
  2: { intros i Hi. rewrite put_places by lia. apply bool_decide_ext. split; congruence. }
  destruct (reg_backing r) as [pages base|buf base] eqn:Eb.
  - rewrite (put_private pages base) by done. by destruct (last_write _ _ _).
  - rewrite (put_shared buf base) by done. by destruct (last_write _ _ _).
Qed.
End region_put.

(** ** Byte loops *)

Lemma place_store h m h' m' :
  (forall a, exists o, view h' m' a = (fun c => stored c (o c)) <$> view h m a) ->
  forall a, place h' m' a = place h m a.
Proof.
  intros Hv a. unfold place. destruct (Hv a) as [o ->]. destruct (view h m a) as [c|]; [|done].
  cbn. unfold place_of, stored. by destruct (o c).
Qed.

Lemma write_byte_spec m h p byte :
  mem_wf (m, h) -> is_u 8 byte -> is_u64 p -> is_Some (view h m p) ->
  let '(m', h') := write_byte p byte (m, h) in
  mem_wf (m', h') /\
  forall a, view h' m' a = (fun c => stored c
    (if bool_decide (place h m p = Some (place_of c a)) then Some byte else None)) <$> view h m a.
Proof.
  intros [Hok Hh] Hb Hp [c0 Hc0]. cbn [fst snd] in *. unfold write_byte.
  pose proof (region_at_spec m p Hok) as Hs. unfold view in Hc0.
  destruct (region_at p m) as [[b r]|]; [|done]. destruct Hs as [Hg Hr].
  destruct (region_write h r (p - b) [byte]) as [h' r'] eqn:Ew.
  destruct (region_put h h' m b r r' (p - b) [byte]) as (Hok' & Hh' & Hv); try done; try lia.
  { by constructor. } { simpl. lia. }
  split; [done|]. intros a. rewrite Hv. unfold store_view. destruct (view h m a) as [c|]; [|done].
  cbn. replace (u64 (b + (p - b) + 0)) with p by (replace (b + (p - b) + 0) with p by lia; by rewrite u64_id).
  by destruct (bool_decide _).
Qed.

Lemma write_bytes_spec m h addr k data :
  mem_wf (m, h) -> bytes_ok data ->
  (forall i, k <= i < k + Z.of_nat (length data) -> is_Some (view h m (u64 (addr + i)))) ->
  let '(m', h') := write_bytes addr k data (m, h) in
  mem_wf (m', h') /\
  forall a, view h' m' a = (fun c => stored c (last_write
    (fun i => bool_decide (place h m (u64 (addr + i)) = Some (place_of c a))) k data)) <$> view h m a.
Proof.
  revert m h k. induction data as [|byte data IH]; intros m h k Hwf Hd Hmap; cbn [write_bytes].
  { split; [done|]. intros a. cbn. by destruct (view h m a). }
  assert (is_u 8 byte) as Hb by (by inversion Hd). assert (bytes_ok data) as Hd' by (by inversion Hd).
  pose proof (write_byte_spec m h (u64 (addr + k)) byte Hwf Hb (is_u_u64 _)
    (Hmap k ltac:(cbn [length]; lia))) as H1.
  destruct (write_byte (u64 (addr + k)) byte (m, h)) as [m1 h1]. destruct H1 as [Hwf1 Hv1].
  assert (forall a, place h1 m1 a = place h m a) as Hpl.
  { apply place_store. intros a. eexists. apply Hv1. }
  specialize (IH m1 h1 (k + 1) Hwf1 Hd').
  destruct (write_bytes addr (k + 1) data (m1, h1)) as [m2 h2]. destruct IH as [Hwf2 Hv2].
  { intros i Hi. rewrite Hv1. apply fmap_is_Some, Hmap. cbn [length]. lia. }
  split; [done|]. intros a. rewrite Hv2, Hv1. destruct (view h m a) as [c|]; [|done]. cbn.
  f_equal. set (c1 := stored c _).
  assert (place_of c1 a = place_of c a) as Hpc.
  { unfold c1, place_of, stored. by destruct (bool_decide _). }
  rewrite Hpc. rewrite (last_write_ext _
    (fun i => bool_decide (place h m (u64 (addr + i)) = Some (place_of c a)))) by (intros; by rewrite Hpl).
  destruct (last_write _ _ data); [|done]. unfold c1, stored. by destruct (bool_decide _).
Qed.

Lemma check_slow_ok h addr k n a m :
  check_slow h addr k n a m = Ok tt <->
  forall i, k <= i < k + Z.of_nat n -> byte_ok h (u64 (addr + i)) a m = true.
Proof.
  revert k. induction n as [|n IH]; intros k; cbn [check_slow]; [split; [intros; lia|done]|].
  destruct (byte_ok h (u64 (addr + k)) a m) eqn:E.
  - rewrite IH. split; intros H i Hi; [|apply H; lia].
    destruct (Z.eq_dec i k) as [->|]; [done|]. apply H. lia.
  - split; [done|]. intros H. rewrite H in E by lia. done.
Qed.

Lemma check_slow_err h addr k n a m f :
  check_slow h addr k n a m = Err f ->
  exists i, k <= i < k + Z.of_nat n /\ byte_ok h (u64 (addr + i)) a m = false /\
    f = MkMemFault (u64 (addr + i)) a.
Proof.
  revert k. induction n as [|n IH]; intros k; cbn [check_slow]; [done|].
  destruct (byte_ok h (u64 (addr + k)) a m) eqn:E.
  - intros (i & Hi & ?)%IH. exists i. split; [lia|done].
  - intros [= <-]. exists k. split; [lia|done].
Qed.

Lemma past_end_mono h r x y :
  region_ok r -> 0 <= y <= x -> x < reg_len r -> past_end h r x = false -> past_end h r y = false.
Proof.
  intros Hr Hxy Hx. unfold past_end, region_ok in *. destruct (reg_backing r) as [|buf base]; [done|].
  rewrite !page_mask by (unfold is_u; lia). rewrite !Z.leb_gt. intros Hlt.
  assert ((base + y) / PAGE <= (base + x) / PAGE) by (apply Z.div_le_mono; unfold PAGE; lia).
  unfold PAGE in *. lia.
Qed.

(** The fast path: the whole range is in one region, with permission. *)
Lemma locate_some h addr len a m b r off :
  um_ok m -> 0 < len -> locate h addr len a m = Ok (Some (b, r, off)) ->
  covers (um_regions m) addr b r /\ off = addr - b /\ off + len <= reg_len r /\
  forall i, 0 <= i < len -> u64 (addr + i) = addr + i /\ byte_ok h (u64 (addr + i)) a m = true.
Proof.
  intros Hok Hl Hloc. unfold locate in Hloc. pose proof (region_at_spec m addr Hok) as Hs.
  destruct (region_at addr m) as [[b' r']|]; [|done]. cbv zeta in Hloc.
  destruct (negb _ || _) eqn:E; [done|]. apply orb_false_iff in E as [Hal%negb_false_iff Hpe].
  destruct (Z.leb_spec (addr - b' + len) (reg_len r')); [|done]. injection Hloc as <- <- <-.
  destruct Hs as [Hg Hr]. destruct (ok_region _ Hok _ _ Hg) as (?&?&?&Hro).
  split; [done|]. split; [done|]. split; [done|]. intros i Hi.
  rewrite u64_id by (unfold is_u; lia). split; [done|]. unfold byte_ok.
  rewrite (region_at_covers m (addr + i) b' r') by (done || (split; [done|lia])).
  rewrite Hal. cbn [andb]. apply negb_true_iff.
  eapply past_end_mono; [done| | |exact Hpe]; lia.
Qed.

Lemma byte_ok_view h p a m : um_ok m -> byte_ok h p a m = true ->
  exists c, view h m p = Some c /\ allows (c_perm c) a = true.
Proof.
  intros Hok. unfold byte_ok, view. destruct (region_at p m) as [[b r]|]; [|done].
  intros [Ha _]%andb_true_iff. eexists. split; [done|done].
Qed.

(** Byte shown at an address. *)
Definition byte_at (h : heap) (m : UserMemory) (a : Z) : Z :=
  match view h m a with Some c => c_byte c | None => 0 end.

Lemma read_byte_at h p m : um_ok m -> read_byte h p m = byte_at h m p.
Proof.
  intros Hok. unfold read_byte, byte_at, view. pose proof (region_at_spec m p Hok) as Hs.
  destruct (region_at p m) as [[b r]|]; [|done]. destruct Hs as [Hg Hr].
  destruct (ok_region _ Hok _ _ Hg) as (_&_&_&Hro). rewrite region_read_spec by (done || lia).
  change (seqZ 0 1) with [0]. cbn [map nth reg_cell c_byte]. f_equal. lia.
Qed.

Lemma byte_at_ok h m a : um_ok m -> heap_ok h -> is_u 8 (byte_at h m a).
Proof.
  intros Hok Hh. unfold byte_at, view. pose proof (region_at_spec m a Hok) as Hs.
  destruct (region_at a m) as [[b r]|]; [|unfold is_u; lia]. destruct Hs as [Hg Hr].
  destruct (ok_region _ Hok _ _ Hg) as (_&_&_&Hro). cbn. apply region_byte_ok; done || lia.
Qed.

(** The bytes of the range, by address. *)
Definition bytes_at (h : heap) (m : UserMemory) (addr n : Z) : list Z :=
  map (fun k => byte_at h m (u64 (addr + k))) (seqZ 0 n).

Lemma region_read_at h m addr n a b r off :
  um_ok m -> 0 < n -> locate h addr n a m = Ok (Some (b, r, off)) ->
  region_read h r off n = bytes_at h m addr n.
Proof.
  intros Hok Hn Hl. destruct (locate_some _ _ _ _ _ _ _ _ Hok Hn Hl) as ([Hg Hr] & -> & Hle & Hi).
  destruct (ok_region _ Hok _ _ Hg) as (_&_&_&Hro). rewrite region_read_spec by (done || lia).
  apply map_ext_in. intros k Hk%list_elem_of_In%elem_of_seqZ.
  destruct (Hi k ltac:(lia)) as [-> _]. unfold byte_at.
  rewrite (view_covers h m (addr + k) b r) by (done || (split; [done|lia])).
  cbn [reg_cell c_byte]. f_equal. lia.
Qed.

Lemma slow_read_at h m addr n :
  um_ok m -> map (fun k => read_byte h (u64 (addr + k)) m) (seqZ 0 n) = bytes_at h m addr n.
Proof. intros Hok. apply map_ext. intros k. by apply read_byte_at. Qed.

(** ** Reads and writes *)

(** The range starts in a shared region and runs past the end of it. *)
Definition leaves_shared (m : UserMemory) (addr n : Z) : Prop :=
  exists b r buf base, covers (um_regions m) addr b r /\ reg_backing r = Shared buf base /\
    reg_len r < addr - b + n.

Lemma locate_err h addr n a m f :
  um_ok m -> is_u64 addr -> 0 < n -> locate h addr n a m = Err f ->
  f = MkMemFault addr a /\
  (leaves_shared m addr n \/ exists i, 0 <= i < n /\ byte_ok h (u64 (addr + i)) a m = false).
Proof.
  intros Hok Ha Hn Hl. unfold locate in Hl. pose proof (region_at_spec m addr Hok) as Hs.
  destruct (region_at addr m) as [[b r]|] eqn:Er; cycle 1.
  { injection Hl as <-. split; [done|]. right. exists 0. split; [lia|].
    rewrite Z.add_0_r, u64_id by done. unfold byte_ok. by rewrite Er. }
  cbv zeta in Hl. destruct (negb _ || _) eqn:E; [|by destruct (_ <=? _)].
  injection Hl as <-. split; [done|]. apply orb_true_iff in E as [Hal%negb_true_iff|Hpe].
  { right. exists 0. split; [lia|]. rewrite Z.add_0_r, u64_id by done. unfold byte_ok.
    rewrite Er. by rewrite Hal. }
  rewrite Z.max_l in Hpe by lia. destruct (Z.le_gt_cases (addr - b + n) (reg_len r)).
  - right. exists (n - 1). split; [lia|]. destruct Hs as [Hg Hr].
    destruct (ok_region _ Hok _ _ Hg) as (?&?&?&Hro). rewrite u64_id by (unfold is_u; lia).
    unfold byte_ok. rewrite (region_at_covers m _ b r) by (done || (split; [done|lia])).
    replace (addr + (n - 1) - b) with (addr - b + n - 1) by lia. rewrite Hpe. apply andb_false_r.
  - left. unfold past_end in Hpe. destruct (reg_backing r) as [|buf base] eqn:Eb; [done|].
    exists b, r, buf, base. split; [done|]. split; [done|lia].
Qed.

Definition range_ok (h : heap) (m : UserMemory) (addr n : Z) (a : Access) : Prop :=
  forall i, 0 <= i < n -> byte_ok h (u64 (addr + i)) a m = true.

Lemma access_spec h m addr n a :
  um_ok m -> 0 < n ->
  match locate h addr n a m with
  | Err f => f = MkMemFault addr a /\
      (is_u64 addr -> leaves_shared m addr n \/ ~ range_ok h m addr n a)
  | Ok (Some (b, r, off)) => range_ok h m addr n a
  | Ok None =>
      match check_slow h addr 0 (Z.to_nat n) a m with
      | Err f => fault_access f = a /\ ~ range_ok h m addr n a
      | Ok _ => range_ok h m addr n a
      end
  end.
Proof.
  intros Hok Hn. destruct (locate h addr n a m) as [[[[b r] off]|]|f] eqn:El.
  - intros i Hi. by destruct (locate_some _ _ _ _ _ _ _ _ Hok Hn El) as (_ & _ & _ & [_ ?]%(fun H => H i Hi)).
  - destruct (check_slow h addr 0 (Z.to_nat n) a m) as [[]|f] eqn:Ec.
    + rewrite check_slow_ok in Ec. intros i Hi. apply Ec. lia.
    + apply check_slow_err in Ec as (i & Hi & Hb & ->). split; [done|]. intros Hr.
      rewrite Hr in Hb by lia. done.
  - split.
    { unfold locate in El. destruct (region_at addr m) as [[b r]|]; [|congruence].
      cbv zeta in El. destruct (negb _ || _); [congruence|by destruct (_ <=? _)]. }
    intros Ha. destruct (locate_err _ _ _ _ _ _ Hok Ha Hn El) as [_ [?|(i & Hi & Hb)]]; [by left|].
    right. intros Hr. rewrite Hr in Hb by lia. done.
Qed.

Lemma um_read_eq s addr n :
  mem_wf s ->
  let '(m, h) := s in
  match um_read addr n s with
  | (Ok l, s') => s' = s /\ l = bytes_at h m addr (Z.of_nat n) /\ range_ok h m addr (Z.of_nat n) Read
  | (Err f, s') => s' = s /\ fault_access f = Read /\
      (is_u64 addr -> leaves_shared m addr (Z.of_nat n) \/ ~ range_ok h m addr (Z.of_nat n) Read)
  end.
Proof.
  intros [Hok Hh]. destruct s as [m h]. cbn [fst snd] in *. unfold um_read.
  destruct (Nat.eqb_spec n 0) as [->|Hne]; [split; [done|]; split; [done|]; intros i Hi; lia|].
  pose proof (access_spec h m addr (Z.of_nat n) Read Hok ltac:(lia)) as Hacc.
  rewrite Nat2Z.id in Hacc. destruct (locate _ _ _ _ _) as [[[[b r] off]|]|f] eqn:El.
  - split; [done|]. split; [|done]. eapply region_read_at; [done|lia|done].
  - destruct (check_slow _ _ _ _ _ _) as [[]|f].
    + split; [done|]. split; [|done]. by apply slow_read_at.
    + destruct Hacc. auto.
  - destruct Hacc as [-> ?]. auto.
Qed.

Lemma um_fetch_eq s addr :
  mem_wf s ->
  let '(m, h) := s in
  match um_fetch addr s with
  | (Ok w, s') => s' = s /\ w = from_le (bytes_at h m addr 4) /\ range_ok h m addr 4 Fetch
  | (Err f, s') => s' = s /\ fault_access f = Fetch /\
      (is_u64 addr -> leaves_shared m addr 4 \/ ~ range_ok h m addr 4 Fetch)
  end.
Proof.
  intros [Hok Hh]. destruct s as [m h]. cbn [fst snd] in *. unfold um_fetch.
  pose proof (access_spec h m addr 4 Fetch Hok ltac:(lia)) as Hacc.
  change (Z.to_nat 4) with 4%nat in Hacc. destruct (locate _ _ _ _ _) as [[[[b r] off]|]|f] eqn:El.
  - split; [done|]. split; [|done]. f_equal. eapply region_read_at; [done|lia|done].
  - destruct (check_slow _ _ _ _ _ _) as [[]|f].
    + split; [done|]. split; [|done]. f_equal. by apply slow_read_at.
    + destruct Hacc. auto.
  - destruct Hacc as [-> ?]. auto.
Qed.

Lemma um_write_eq s addr data :
  mem_wf s -> bytes_ok data ->
  let '(m, h) := s in
  let n := Z.of_nat (length data) in
  match um_write addr data s with
  | (Ok _, (m', h')) => mem_wf (m', h') /\ range_ok h m addr n Write /\
      forall a, view h' m' a = store_view h m addr data a
  | (Err f, s') => s' = s /\ fault_access f = Write /\
      (is_u64 addr -> leaves_shared m addr n \/ ~ range_ok h m addr n Write)
  end.
Proof.
  intros [Hok Hh] Hd. destruct s as [m h]. cbn [fst snd] in *. cbv zeta. unfold um_write.
  destruct (bool_decide_reflect (data = [])) as [->|Hne].
  { split; [done|]. split; [intros i Hi; simpl in Hi; lia|]. intros a. unfold store_view. cbn.
    by destruct (view h m a). }
  assert (0 < Z.of_nat (length data)) as Hn by (destruct data; [done|simpl; lia]).
  pose proof (access_spec h m addr (Z.of_nat (length data)) Write Hok Hn) as Hacc.
  rewrite Nat2Z.id in Hacc. destruct (locate _ _ _ _ _) as [[[[b r] off]|]|f] eqn:El.
  - destruct (locate_some _ _ _ _ _ _ _ _ Hok Hn El) as ([Hg Hr] & -> & Hle & _).
    destruct (region_write h r (addr - b) data) as [h' r'] eqn:Ew.
    destruct (region_put h h' m b r r' (addr - b) data) as (Hok' & Hh' & Hv); [done..|lia|done|done|].
    split; [split; [|done]; eapply um_ok_regions; [apply touch_write_regions|done]|].
    split; [done|]. intros a. rewrite (view_regions _ _ _ _ (touch_write_regions _ _ _)), Hv.
    by replace (b + (addr - b)) with addr by lia.
  - destruct (check_slow _ _ _ _ _ _) as [[]|f]; [|destruct Hacc; auto].
    set (m1 := touch_write addr _ m).
    assert (um_regions m1 = um_regions m) as E1 by apply touch_write_regions.
    assert (forall a, view h m1 a = view h m a) as Hv1 by (intros; by apply view_regions).
    pose proof (write_bytes_spec m1 h addr 0 data) as Hw.
    destruct (write_bytes addr 0 data (m1, h)) as [m2 h2].
    destruct Hw as [Hwf2 Hv2]; [split; [by eapply um_ok_regions|done]|done| |].
    { intros i Hi. rewrite Hv1. destruct (byte_ok_view h (u64 (addr + i)) Write m Hok) as (c & -> & _);
        [apply Hacc; lia|by eexists]. }
    split; [done|]. split; [done|]. intros a. rewrite Hv2, Hv1. unfold store_view.
    destruct (view h m a) as [c|]; [|done]. cbn.
    rewrite (last_write_ext _ (fun k => bool_decide (place h m (u64 (addr + k)) = Some (place_of c a)))).
    + by destruct (last_write _ _ _).
    + intros i _. unfold place. by rewrite Hv1.
  - destruct Hacc as [-> ?]. auto.
Qed.

(** ** [UserMemory] keeps the laws of the memory interface *)

Lemma bytes_at_ok h m addr n :
  um_ok m -> heap_ok h -> 0 <= n -> Z.of_nat (length (bytes_at h m addr n)) = n /\ bytes_ok (bytes_at h m addr n).
Proof.
  intros Hok Hh Hn. unfold bytes_at. rewrite length_map, length_seqZ. split; [lia|].
  apply list.Forall_forall. intros x Hx. apply list_elem_of_fmap in Hx as (k & -> & _).
  by apply byte_at_ok.
Qed.

Lemma um_read_keeps a n s : mem_wf s -> mem_wf (um_read a n s).2.
Proof.
  intros Hs. pose proof (um_read_eq s a n Hs) as Hr. destruct s as [m h].
  destruct (um_read a n (m, h)) as [[l|f] s']; by destruct Hr as [-> _].
Qed.

Lemma um_write_keeps a d s : mem_wf s -> bytes_ok d -> mem_wf (um_write a d s).2.
Proof.
  intros Hs Hd. pose proof (um_write_eq s a d Hs Hd) as Hr. destruct s as [m h]. cbv zeta in Hr.
  destruct (um_write a d (m, h)) as [[l|f] s']; [destruct s'; by destruct Hr|by destruct Hr as [-> _]].
Qed.

Lemma um_read_bytes a n s l s' :
  mem_wf s -> um_read a n s = (Ok l, s') -> length l = n /\ bytes_ok l.
Proof.
  intros Hs He. pose proof (um_read_eq s a n Hs) as Hr. destruct s as [m h], Hs as [Hok Hh].
  rewrite He in Hr. destruct Hr as (_ & -> & _).
  destruct (bytes_at_ok h m a (Z.of_nat n)) as [Hl Hb]; [done|done|lia|]. split; [lia|done].
Qed.

#[export] Program Instance UserMemory_laws : MemoryLaws (UserMemory * heap) := {|
  mem_ok := mem_wf;
|}.
Next Obligation. intros. by apply um_read_keeps. Qed.
Next Obligation. intros. by apply um_write_keeps. Qed.
Next Obligation.
  intros a s _ Hs. cbn. pose proof (um_fetch_eq s a Hs) as Hr. destruct s as [m h].
  destruct (um_fetch a (m, h)) as [[l|f] s']; by destruct Hr as [-> _].
Qed.
Next Obligation. intros. by apply um_read_keeps. Qed.
Next Obligation. intros. by apply um_write_keeps. Qed.
Next Obligation.
  intros a s _ Hs. cbn. apply um_write_keeps; [done|]. apply Forall_replicate. unfold is_u. lia.
Qed.
Next Obligation.
  intros a old new s _ Hs Ho Hn. cbn. unfold default_cmpxchg, mbind, prog_bind.
  pose proof (um_read_keeps a (length old) s Hs) as Hk.
  destruct (um_read a (length old) s) as [[cur|f] s1]; [|done]. cbn [snd] in Hk.
  destruct (bool_decide _); [|done]. pose proof (um_write_keeps a new s1 Hk Hn) as Hw.
  by destruct (um_write a new s1) as [[]].
Qed.
Next Obligation. intros. by eapply um_read_bytes. Qed.
Next Obligation. intros. by eapply um_read_bytes. Qed.
Next Obligation.
  intros a s w s' _ Hs He. cbn in He. pose proof (um_fetch_eq s a Hs) as Hr.
  destruct s as [m h], Hs as [Hok Hh]. rewrite He in Hr. destruct Hr as (_ & -> & _).
  destruct (bytes_at_ok h m a 4) as [Hl Hb]; [done|done|lia|].
  pose proof (from_le_bound _ Hb) as Hu. by rewrite Hl in Hu.
Qed.

(** A read returns the bytes the address space shows, exactly when every
    byte of the range is mapped, readable and not past the end of its shared
    object; it never changes memory. The one exception is a range that runs
    out of a shared region, which may be refused although its bytes are
    readable. *)
Theorem read_exact m h addr n :
  mem_wf (m, h) -> is_u64 addr -> ~ leaves_shared m addr (Z.of_nat n) ->
  (um_read addr n (m, h)).2 = (m, h) /\
  (is_ok (um_read addr n (m, h)).1 = true <-> range_ok h m addr (Z.of_nat n) Read) /\
  forall l, (um_read addr n (m, h)).1 = Ok l -> l = bytes_at h m addr (Z.of_nat n).
Proof.
  intros Hs Ha Hl. pose proof (um_read_eq (m, h) addr n Hs) as Hr. cbn beta iota in Hr.
  destruct (um_read addr n (m, h)) as [[l|f] s']; cbn [fst snd is_ok].
  - destruct Hr as (-> & -> & Hok). split; [done|]. split; [done|]. by intros l [= <-].
  - destruct Hr as (-> & _ & Hf). split; [done|]. split; [|done]. split; [done|].
    intros Hok. by destruct (Hf Ha).
Qed.

(** C33: a write either fails and changes nothing, or stores its bytes at the
    places of its addresses: every address that shows one of these places (the
    same address, or another mapping of the same shared buffer) shows the last
    byte stored there, all the rest of the address space is unchanged. The
    range written is one that does not run past the end of a shared buffer into
    the memory behind it ([leaves_shared]). *)
Theorem write_exact m h addr data :
  mem_wf (m, h) -> is_u64 addr -> bytes_ok data ->
  ~ leaves_shared m addr (Z.of_nat (length data)) ->
  match um_write addr data (m, h) with
  | (Ok _, (m', h')) => range_ok h m addr (Z.of_nat (length data)) Write /\ mem_wf (m', h') /\
      forall a, view h' m' a = store_view h m addr data a
  | (Err _, s') => s' = (m, h) /\ ~ range_ok h m addr (Z.of_nat (length data)) Write
  end.
Proof.
  intros Hs Ha Hd Hl. pose proof (um_write_eq (m, h) addr data Hs Hd) as Hr. cbv zeta in Hr.
  destruct (um_write addr data (m, h)) as [[[]|f] s'].
  - destruct s' as [m' h']. destruct Hr as (Hwf & Hok & Hv). done.
  - destruct Hr as (-> & _ & Hf). split; [done|]. by destruct (Hf Ha).
Qed.

(** An access that starts in a shared region ending where its buffer ends,
    and that runs past the region, faults whatever is mapped after it, also when
    every byte of it can be read: [locate] tests the end of the buffer at the
    last byte of the access before it looks whether that byte is still in the
    region. *)
Theorem locate_spurious_fault m h addr n b r buf base :
  mem_wf (m, h) -> region_at addr m = Some (b, r) -> reg_backing r = Shared buf base -> past_end h r (reg_len r) = true ->
  b + reg_len r < addr + Z.of_nat n -> base + (addr - b) + Z.of_nat n <= 2 ^ 64 ->
  um_read addr n (m, h) = (Err (MkMemFault addr Read), (m, h)).
Proof.
  intros [Hok _] Hr Hsh Hpast Hcross Hmax. pose proof (region_at_spec m addr Hok) as Hc. rewrite Hr in Hc. destruct Hc as [Hg Ha].
  destruct (ok_region _ Hok _ _ Hg) as (_ & Hlen & _ & Hrr). unfold region_ok in Hrr. rewrite Hsh in Hrr.
  unfold um_read. destruct (Nat.eqb_spec n 0); [lia|]. unfold locate. rewrite Hr.
  assert (past_end h r (addr - b + Z.max (Z.of_nat n) 1 - 1) = true) as ->; [|by rewrite orb_true_r].
  unfold past_end in *. rewrite Hsh in *. rewrite page_mask in Hpast |- * by (unfold is_u; lia). rewrite Z.leb_le in *.
  assert ((base + reg_len r) / PAGE <= (base + (addr - b + Z.max (Z.of_nat n) 1 - 1)) / PAGE) by (apply Z.div_le_mono; unfold PAGE; lia).
  unfold PAGE in *. lia.
Qed.

(** ** Store then load *)

Lemma store_view_cell h m addr data a c :
  view h m a = Some c -> exists c', store_view h m addr data a = Some c' /\ c_perm c' = c_perm c.
Proof.
  intros Hv. unfold store_view. rewrite Hv. destruct (last_write _ _ _); by eexists.
Qed.

(** The addresses of the range have different places. *)
Definition no_alias (h : heap) (m : UserMemory) (addr n : Z) : Prop :=
  forall i j, 0 <= i < n -> 0 <= j < n ->
    place h m (u64 (addr + i)) = place h m (u64 (addr + j)) -> i = j.

Lemma bytes_at_store m h m' h' addr data :
  (forall a, view h' m' a = store_view h m addr data a) ->
  no_alias h m addr (Z.of_nat (length data)) ->
  (forall i, 0 <= i < Z.of_nat (length data) -> is_Some (view h m (u64 (addr + i)))) ->
  bytes_at h' m' addr (Z.of_nat (length data)) = data.
Proof.
  intros Hv Hna Hmap. apply list_eq_same_length with (length data); [done| |].
  { unfold bytes_at. rewrite length_map, length_seqZ. lia. }
  intros i x y Hi Hx Hy. unfold bytes_at in Hx. rewrite list_lookup_fmap, lookup_seqZ_lt in Hx by lia.
  rewrite Z.add_0_l in Hx. cbn [fmap option_fmap option_map] in Hx. injection Hx as <-.
  unfold byte_at. rewrite Hv. unfold store_view.
  destruct (Hmap (Z.of_nat i) ltac:(lia)) as [c Hc]. rewrite Hc.
  rewrite (last_write_single _ 0 data (Z.of_nat i)).
  - rewrite (proj2 (in_range_spec _ _ _)) by lia. rewrite Z.sub_0_r, Nat2Z.id, Hy. done.
  - intros j Hj. apply eq_true_iff_eq. rewrite bool_decide_eq_true, Z.eqb_eq.
    assert (Some (place_of c (u64 (addr + Z.of_nat i))) = place h m (u64 (addr + Z.of_nat i))) as Hp
      by (unfold place; by rewrite Hc).
    rewrite Hp. split; [intros; apply Hna; (done || lia)|by intros ->].
Qed.

(** Bytes stored by a successful write are what any later read of the same
    range returns, when its addresses do not alias one another (always the
    case in private memory and inside one region). *)
Theorem store_load_roundtrip m h addr data s' l s'' :
  mem_wf (m, h) -> bytes_ok data -> no_alias h m addr (Z.of_nat (length data)) ->
  um_write addr data (m, h) = (Ok tt, s') ->
  um_read addr (length data) s' = (Ok l, s'') -> l = data /\ s'' = s'.
Proof.
  intros Hs Hd Hna Hw Hr. pose proof (um_write_eq (m, h) addr data Hs Hd) as H1.
  cbv zeta in H1. rewrite Hw in H1. destruct s' as [m' h']. destruct H1 as (Hwf & Hok & Hv).
  pose proof (um_read_eq (m', h') addr (length data) Hwf) as H2. rewrite Hr in H2.
  destruct H2 as (-> & -> & _). split; [|done]. apply (bytes_at_store m h); [done|done|].
  intros i Hi. destruct Hs as [Hum _]. destruct (byte_ok_view h _ Write m Hum (Hok i Hi)) as (c & Hc & _).
  by exists c.
Qed.
