(* ===== verification/CodeWatch.v ===== *)
(** * The watch of code pages is sound (theorems about UserMemory)

    The JIT keeps translations of pages it has put under watch, until the page
    is reported dirty.  The operations of an address space are the steps of a
    transition system; along any sequence of steps, a page that is still
    watched shows what it showed at the start, at every address of private
    memory, and a page that stopped being watched has been reported. *)

From Stdlib Require Import ZArith Lia Bool String.
From stdpp Require Import base gmap list numbers relations.
From S2P Require Import Prelude Bits State Decode DecodeWf Memory Vreg Exec ExecWf ExecFrame BTree Region UserMemory AddressSpace Mappings UserAccess.
Local Open Scope Z_scope.
Local Open Scope vetro_scope.

Definition page_of (a : Z) : Z := Z.shiftr a 12.

Lemma page_of_mono a b : a <= b -> page_of a <= page_of b.
Proof. intros. unfold page_of. rewrite !Z.shiftr_div_pow2 by lia. apply Z.div_le_mono; lia. Qed.

(** ** What [touch] removes and reports *)

Lemma touch_page_spec m p q :
  (q ∈ um_watched (touch_page m p) <-> q ∈ um_watched m /\ q <> p) /\
  (q ∈ um_dirty (touch_page m p) <-> q ∈ um_dirty m \/ (q = p /\ q ∈ um_watched m)).
Proof.
  unfold touch_page. case_decide as Hp; cbn.
  - rewrite elem_of_difference, elem_of_singleton, elem_of_app, list_elem_of_singleton.
    split; [done|]. split; [intros [?| ->]; auto|tauto].
  - split; [|split; [by left|by intros [?|[-> ?]]]]. split; [|by intros [? _]].
    intros Hq. split; [done|]. by intros ->.
Qed.

Lemma fold_touch_page l m q :
  (q ∈ um_watched (fold_left touch_page l m) <-> q ∈ um_watched m /\ q ∉ l) /\
  (q ∈ um_dirty (fold_left touch_page l m) <-> q ∈ um_dirty m \/ (q ∈ l /\ q ∈ um_watched m)).
Proof.
  revert m. induction l as [|p l IH]; intros m; cbn [fold_left]; [rewrite elem_of_nil; tauto|].
  destruct (IH (touch_page m p)) as [-> ->]. destruct (touch_page_spec m p q) as [-> ->].
  rewrite elem_of_cons. destruct (decide (q = p)); tauto.
Qed.

(** The loop over the watched pages that fall in the range. *)
Lemma fold_remove l m q :
  let f := fun m p => m <| um_watched ::= fun w => w ∖ {[p]} |> <| um_dirty ::= fun d => d ++ [p] |> in
  (q ∈ um_watched (fold_left f l m) <-> q ∈ um_watched m /\ q ∉ l) /\
  (q ∈ um_dirty (fold_left f l m) <-> q ∈ um_dirty m \/ q ∈ l).
Proof.
  intros f. revert m. induction l as [|p l IH]; intros m; cbn [fold_left]; [rewrite elem_of_nil; tauto|].
  destruct (IH (f m p)) as [-> ->]. cbn.
  rewrite elem_of_app, elem_of_cons, list_elem_of_singleton, elem_of_difference, elem_of_singleton.
  tauto.
Qed.

Lemma touch_spec s e m q :
  s < e ->
  (q ∈ um_watched (touch s e m) <-> q ∈ um_watched m /\ ~ page_of s <= q <= page_of (e - 1)) /\
  (q ∈ um_dirty (touch s e m) <->
     q ∈ um_dirty m \/ (q ∈ um_watched m /\ page_of s <= q <= page_of (e - 1))).
Proof.
  intros Hse. unfold touch. destruct (bool_decide_reflect (um_watched m = ∅)) as [Hw|Hw]; cbn [orb].
  { rewrite Hw. pose proof (not_elem_of_empty (C:=gset Z) q). tauto. }
  destruct (Z.leb_spec e s); [lia|].
  fold (page_of s). fold (page_of (e - 1)). destruct (_ <? 64).
  - destruct (fold_touch_page (seqZ (page_of s) (page_of (e - 1) - page_of s + 1)) m q) as [-> ->].
    rewrite elem_of_seqZ. intuition lia.
  - set (l := filter _ _). destruct (fold_remove l m q) as [-> ->].
    unfold l. rewrite list_elem_of_filter, elem_of_elements. intuition.
Qed.

Lemma touch_empty s e m : e <= s -> touch s e m = m.
Proof.
  intros. unfold touch. destruct (bool_decide _); [done|]. by destruct (Z.leb_spec e s); [|lia].
Qed.

(** Pages are reported when they stop being watched, and touching is the only
    way to stop being watched. *)
Record reports (m m' : UserMemory) : Prop := {
  rep_watched : forall q, q ∈ um_watched m' -> q ∈ um_watched m;
  rep_dirty : forall q, q ∈ um_watched m -> q ∈ um_watched m' \/ q ∈ um_dirty m';
  rep_keep : forall q, q ∈ um_dirty m -> q ∈ um_dirty m';
}.

#[export] Instance reports_preorder : PreOrder reports.
Proof.
  split.
  - intros m. constructor; auto.
  - intros m1 m2 m3 H1 H2. constructor.
    + intros q Hq. by apply H1, H2.
    + intros q Hq. destruct (rep_dirty _ _ H1 q Hq) as [Hw|Hd]; [by apply H2|right; by apply H2].
    + intros q Hq. by apply H2, H1.
Qed.

Lemma touch_reports s e m : reports m (touch s e m).
Proof.
  destruct (Z.lt_ge_cases s e) as [Hlt|Hge]; [|rewrite touch_empty by done; reflexivity].
  constructor; intros q Hq; destruct (touch_spec s e m q Hlt) as [Hw Hd].
  - by apply Hw in Hq as [? _].
  - rewrite Hw, Hd. destruct (decide (page_of s <= q <= page_of (e - 1))); tauto.
  - rewrite Hd. by left.
Qed.

(** No address of a page still watched is in the range touched. *)
Lemma touch_range s e m a : page_of a ∈ um_watched (touch s e m) -> ~ s <= a < e.
Proof.
  intros Hp Ha. assert (s < e) as Hlt by lia.
  destruct (touch_spec s e m (page_of a) Hlt) as [Hw _]. apply Hw in Hp as [_ Hn]. apply Hn.
  split; apply page_of_mono; lia.
Qed.

(** Operations on the regions leave the watch alone. *)
Definition same_watch (m m' : UserMemory) : Prop :=
  um_watched m' = um_watched m /\ um_dirty m' = um_dirty m.

#[export] Instance same_watch_preorder : PreOrder same_watch.
Proof. split; [done|]. intros m1 m2 m3 [H1 H2] [H3 H4]. split; congruence. Qed.

Lemma set_regions_watch f m : same_watch m (set_regions f m).
Proof. done. Qed.

Lemma split_at_watch x m : same_watch m (split_at x m).
Proof.
  unfold split_at. destruct (bt_below _ _) as [[b r]|]; [|reflexivity].
  destruct (_ || _); [reflexivity|]. by destruct (split_off _ _).
Qed.

Lemma fold_insert_watch (f : Z * Region -> UserMemory -> UserMemory) l m :
  (forall p m, same_watch m (f p m)) -> same_watch m (fold_left (fun m p => f p m) l m).
Proof.
  intros Hf. revert m. induction l as [|p l IH]; intros m; cbn [fold_left]; [reflexivity|].
  etransitivity; [apply (Hf p)|apply IH].
Qed.

Lemma same_watch_reports m m' : same_watch m m' -> reports m m'.
Proof. intros [Hw Hd]. constructor; intros q; rewrite ?Hw, ?Hd; auto. Qed.

Lemma unmap_watch s e m : same_watch (touch s e m) (unmap s e m).
Proof.
  unfold unmap. destruct (Z.leb_spec e s); [by rewrite touch_empty|].
  etransitivity; [|apply set_regions_watch]. etransitivity; [apply split_at_watch|].
  apply split_at_watch.
Qed.

Lemma touch_write_eq a n m :
  touch_write a n m = touch a (saturating_add a n) m.
Proof.
  unfold touch_write. destruct (bool_decide (um_watched m = ∅)) eqn:E; [|done].
  unfold touch. by rewrite E.
Qed.

(** ** The steps of an address space *)

Definition unshared (o : option Cell) : Prop :=
  match o with Some c => c_loc c = LPrivate | None => True end.

Inductive um_step : UserMemory * heap -> UserMemory * heap -> Prop :=
| step_unmap m h s e : um_step (m, h) (unmap s e m, h)
| step_map m h base data perm :
    0 <= base -> bytes_ok data -> um_step (m, h) ((um_map base data perm m).2, h)
| step_map_fixed m h base data perm :
    0 <= base -> bytes_ok data -> base + Z.of_nat (length data) < 2 ^ 64 ->
    um_step (m, h) (map_fixed base data perm m, h)
| step_map_zeroed m h base len perm :
    0 <= base -> 0 <= len -> base + len < 2 ^ 64 -> um_step (m, h) (map_zeroed base len perm m, h)
| step_map_shared m h base buf off len perm mw :
    0 <= base -> 0 <= len -> base + len < 2 ^ 64 -> 0 <= off -> off + len <= 2 ^ 64 ->
    um_step (m, h) (map_shared base buf off len perm mw m, h)
| step_protect m h s e perm : um_step (m, h) ((protect s e perm m).2, h)
| step_remap m h old len dst :
    0 <= dst -> 0 <= old -> 0 <= len -> dst + len < 2 ^ 64 -> old + len < 2 ^ 64 ->
    um_step (m, h) (remap old len dst m, h)
| step_grow_down m h addr gap : is_u64 addr -> um_step (m, h) ((grow_down addr gap m).2, h)
| step_write m h addr data :
    is_u64 addr -> bytes_ok data -> um_step (m, h) (um_write addr data (m, h)).2
| step_poke m h addr data :
    is_u64 addr -> bytes_ok data -> um_step (m, h) (poke addr data (m, h)).2
| step_take_dirty m h : um_step (m, h) ((take_code_dirty m).2, h).

(** Only watched pages stay watched; one that stops being watched is dirty. *)
Definition watch_step (m m' : UserMemory) : Prop :=
  forall q, (q ∈ um_watched m' -> q ∈ um_watched m) /\
            (q ∈ um_watched m -> q ∈ um_watched m' \/ q ∈ um_dirty m').

Lemma reports_step m m' : reports m m' -> watch_step m m'.
Proof. intros H q. split; [apply (rep_watched _ _ H)|apply (rep_dirty _ _ H)]. Qed.

(** A step keeps the invariant and the cells of watched pages. *)
Definition sound_step (s s' : UserMemory * heap) : Prop :=
  mem_wf s' /\ watch_step s.1 s'.1 /\
  forall a, page_of a ∈ um_watched s'.1 -> unshared (view s.2 s.1 a) ->
    view s'.2 s'.1 a = view s.2 s.1 a.

(** A step that changes cells in [D] only, where no address of [D] is in a page
    still watched. *)
Lemma touched_sound m h m' (D : Z -> Prop) :
  mem_wf (m', h) -> watch_step m m' ->
  (forall a, page_of a ∈ um_watched m' -> ~ D a) ->
  (forall a, ~ D a -> view h m' a = view h m a) ->
  sound_step (m, h) (m', h).
Proof. intros Hwf Hsub HD Hv. split; [done|]. split; [done|]. cbn. intros a Ha _. auto. Qed.

Lemma unchanged_sound m h : mem_wf (m, h) -> sound_step (m, h) (m, h).
Proof. intros Hwf. apply (touched_sound _ _ _ (fun _ => False)); [done|intros q; auto|auto|auto]. Qed.

(** Operations whose watch is that of [touch s e m], changing the cells of
    [[s, e)]. *)
Lemma range_sound m h m' s e :
  mem_wf (m', h) -> reports (touch s e m) m' ->
  (forall a, ~ s <= a < e -> view h m' a = view h m a) ->
  sound_step (m, h) (m', h).
Proof.
  intros Hwf Hrep Hv. apply (touched_sound _ _ _ (fun a => s <= a < e)); [done| | |done].
  - apply reports_step. etransitivity; [apply (touch_reports s e)|done].
  - intros a Ha. apply (touch_range s e m). by apply (rep_watched _ _ Hrep).
Qed.

Lemma not_in_range s e a : ~ s <= a < e -> in_range s e a = false.
Proof. intros Hn. destruct (in_range s e a) eqn:E; [|done]. by apply in_range_spec in E. Qed.

(** Mapping after [unmap]. *)
Lemma unmap_insert_sound m h base r :
  mem_wf (m, h) -> 0 <= base -> 0 < reg_len r -> base + reg_len r < 2 ^ 64 -> region_ok r ->
  sound_step (m, h) (set_regions (bt_insert base r) (unmap base (base + reg_len r) m), h).
Proof.
  intros [Hok Hh] Hb Hl He Hr. destruct (unmap_insert_spec h base r m Hok Hb Hl He Hr) as [Hok' Hv].
  apply (range_sound _ _ _ base (base + reg_len r)); [done| |].
  - apply same_watch_reports. etransitivity; [apply unmap_watch|apply set_regions_watch].
  - intros a Ha. by rewrite Hv, not_in_range.
Qed.

Lemma protect_sound m h s e perm : mem_wf (m, h) -> sound_step (m, h) ((protect s e perm m).2, h).
Proof.
  intros [Hok Hh]. pose proof (protect_eq h s e perm m Hok) as Hp. unfold protect in *.
  destruct (negb _); [by apply unchanged_sound|]. destruct Hp as (_ & Hok' & Hv).
  apply (range_sound _ _ _ s e); [done| |intros a Ha; by rewrite Hv, not_in_range].
  apply same_watch_reports. cbn [snd]. etransitivity; [|apply set_regions_watch].
  etransitivity; apply split_at_watch.
Qed.

Lemma remap_sound m h old len dst :
  mem_wf (m, h) -> 0 <= dst -> 0 <= old -> 0 <= len -> dst + len < 2 ^ 64 -> old + len < 2 ^ 64 ->
  sound_step (m, h) (remap old len dst m, h).
Proof.
  intros [Hok Hh] Hd Ho Hl He Heo. cbn [fst snd] in *.
  destruct (remap_regs h old len dst m Hok Hd Hl He) as [Hok' Hv].
  assert (reports (touch dst (dst + len) (touch old (old + len) m)) (remap old len dst m)) as Hrep.
  { unfold remap. cbv zeta. unfold saturating_add. rewrite !Z.min_l by lia. set (m1 := touch dst _ _).
    set (m2 := split_at (old + len) (split_at old m1)).
    assert (same_watch m1 m2) as H12 by (etransitivity; apply split_at_watch).
    set (m3 := set_regions _ m2). set (l := map _ _).
    transitivity m3; [by apply same_watch_reports|].
    transitivity (unmap dst (dst + len) m3).
    { etransitivity; [apply (touch_reports dst (dst + len))|]. apply same_watch_reports, unmap_watch. }
    apply same_watch_reports.
    apply (fold_insert_watch (fun p m => let '(d, r) := p in set_regions (bt_insert (dst + d) r) m)).
    intros [d r] m'. done. }
  apply (touched_sound _ _ _ (fun a => dst <= a < dst + len \/ old <= a < old + len)); [done| | |].
  - apply reports_step. etransitivity; [apply (touch_reports old (old + len))|].
    etransitivity; [apply (touch_reports dst (dst + len))|done].
  - intros a Ha Hr. apply (rep_watched _ _ Hrep) in Ha.
    pose proof (touch_range _ _ _ _ Ha).
    apply (rep_watched _ _ (touch_reports dst (dst + len) (touch old (old + len) m))) in Ha.
    pose proof (touch_range _ _ _ _ Ha). tauto.
  - intros a Ha. rewrite Hv, !not_in_range by tauto. done.
Qed.

(** The byte 2^64-1 is never mapped, so a mapped range does not wrap. *)
Lemma mapped_no_wrap h m addr n :
  um_ok m -> is_u64 addr -> 0 <= n ->
  (forall i, 0 <= i < n -> is_Some (view h m (u64 (addr + i)))) -> addr + n <= 2 ^ 64 - 1.
Proof.
  intros Hok Ha Hn Hmap. destruct (Z.le_gt_cases (addr + n) (2 ^ 64 - 1)) as [|Hgt]; [done|].
  unfold is_u in Ha. destruct (Hmap (2 ^ 64 - 1 - addr)) as [c Hc]; [lia|].
  replace (addr + (2 ^ 64 - 1 - addr)) with (2 ^ 64 - 1) in Hc by lia.
  rewrite u64_id in Hc by (unfold is_u; lia). unfold view in Hc.
  pose proof (region_at_spec m (2 ^ 64 - 1) Hok) as Hs.
  destruct (region_at _ m) as [[b r]|]; [|done]. destruct Hs as [Hg Hr].
  destruct (ok_region _ Hok _ _ Hg) as (_ & _ & He & _). lia.
Qed.

(** A store in a range that was touched. *)
Lemma stored_sound m h m' h' addr n data :
  mem_wf (m', h') -> is_u64 addr -> Z.of_nat (length data) <= n -> um_ok m ->
  reports (touch_write addr n m) m' ->
  (forall i, 0 <= i < Z.of_nat (length data) -> is_Some (view h m (u64 (addr + i)))) ->
  (forall a, view h' m' a = store_view h m addr data a) ->
  sound_step (m, h) (m', h').
Proof.
  intros Hwf Ha Hn Hok Hrep Hmap Hv. rewrite touch_write_eq in Hrep.
  pose proof (mapped_no_wrap h m addr (Z.of_nat (length data)) Hok Ha ltac:(lia) Hmap) as Hend.
  split; [done|]. cbn [fst snd]. split.
  { apply reports_step. etransitivity; [apply (touch_reports addr (saturating_add addr n))|done]. }
  intros a Hp Hu. rewrite Hv. unfold store_view. destruct (view h m a) as [c|]; [|done].
  rewrite last_write_none; [done|]. intros i Hi. apply bool_decide_eq_false. intros Hpl.
  apply (rep_watched _ _ Hrep) in Hp. apply (touch_range _ _ _ _ Hp).
  unfold place in Hpl. destruct (view h m (u64 (addr + i))) as [c'|]; [|done].
  unfold place_of in Hpl. cbn in Hu. rewrite Hu in Hpl. destruct (c_loc c'); [|done].
  injection Hpl as <-. rewrite u64_id by (unfold is_u in *; lia). unfold saturating_add. lia.
Qed.

Lemma write_byte_watch p b s : same_watch s.1 (write_byte p b s).1.
Proof.
  destruct s as [m h]. unfold write_byte. destruct (region_at p m) as [[bb r]|]; [|done].
  by destruct (region_write _ _ _ _).
Qed.

Lemma write_bytes_watch addr k data s : same_watch s.1 (write_bytes addr k data s).1.
Proof.
  revert k s. induction data as [|b data IH]; intros k s; [done|]. cbn [write_bytes].
  etransitivity; [apply write_byte_watch|apply IH].
Qed.

Lemma fold_set_regions (g : UserMemory -> Z -> UserMemory) f l m :
  (forall m p, g (set_regions f m) p = set_regions f (g m p)) ->
  fold_left g l (set_regions f m) = set_regions f (fold_left g l m).
Proof.
  intros Hg. revert m. induction l as [|p l IH]; intros m; [done|]. cbn [fold_left].
  by rewrite Hg, IH.
Qed.

Lemma touch_set_regions s e f m : touch s e (set_regions f m) = set_regions f (touch s e m).
Proof.
  unfold touch. change (um_watched (set_regions f m)) with (um_watched m).
  destruct (_ || _); [done|]. cbv zeta. destruct (_ <? _); apply fold_set_regions; [|done].
  intros m' p. unfold touch_page. change (um_watched (set_regions f m')) with (um_watched m').
  by destruct (decide _).
Qed.

Lemma um_write_reports m h addr data :
  is_ok (um_write addr data (m, h)).1 = true -> data <> [] ->
  reports (touch_write addr (Z.of_nat (length data)) m) (um_write addr data (m, h)).2.1.
Proof.
  unfold um_write. intros Hr Hne. rewrite (bool_decide_eq_false_2 (data = [])) in * by done.
  destruct (locate _ _ _ _ _) as [[[[b r] off]|]|f]; [| |done].
  - destruct (region_write _ _ _ _) as [h' r']. cbn. apply same_watch_reports.
    by rewrite !touch_write_eq, touch_set_regions.
  - destruct (check_slow _ _ _ _ _ _); [|done]. cbn. apply same_watch_reports, write_bytes_watch.
Qed.

Lemma um_write_sound m h addr data :
  mem_wf (m, h) -> is_u64 addr -> bytes_ok data ->
  sound_step (m, h) (um_write addr data (m, h)).2.
Proof.
  intros Hwf Ha Hd. pose proof (um_write_eq (m, h) addr data Hwf Hd) as Hw. cbv zeta in Hw.
  pose proof (um_write_reports m h addr data) as Hrep.
  destruct (decide (data = [])) as [->|Hne]; [by apply unchanged_sound|].
  destruct (um_write addr data (m, h)) as [[u|f] [m' h']]; cbn [fst snd is_ok] in *.
  - destruct Hw as (Hwf' & Hok & Hv). destruct Hwf as [Hum Hh].
    apply (stored_sound _ _ _ _ addr (Z.of_nat (length data)) data); auto; [lia|].
    intros i Hi. destruct (byte_ok_view h _ Write m Hum (Hok i Hi)) as (c & -> & _). by eexists.
  - destruct Hw as [[= -> ->] _]. by apply unchanged_sound.
Qed.

(** [poke] writes a prefix of its bytes: all of them, or those before the first
    unmapped address. *)
Lemma poke_bytes_prefix addr k data s :
  mem_wf s -> bytes_ok data ->
  exists j, (j <= length data)%nat /\
    (poke_bytes addr k data s).2 = write_bytes addr k (take j data) s /\
    forall i, k <= i < k + Z.of_nat j -> is_Some (view s.2 s.1 (u64 (addr + i))).
Proof.
  revert k s. induction data as [|b data IH]; intros k s Hwf Hd; cbn [poke_bytes].
  { exists 0%nat. split; [done|]. split; [done|]. lia. }
  assert (is_u 8 b) as Hb by (by inversion Hd). assert (bytes_ok data) as Hd' by (by inversion Hd).
  destruct s as [m h]. cbn [fst snd]. destruct (region_at (u64 (addr + k)) m) as [[bb r]|] eqn:Er.
  2: { exists 0%nat. split; [lia|]. split; [done|]. lia. }
  assert (is_Some (view h m (u64 (addr + k)))) as Hm by (unfold view; rewrite Er; by eexists).
  pose proof (write_byte_spec m h (u64 (addr + k)) b Hwf Hb (is_u_u64 _) Hm) as Hw.
  destruct (write_byte (u64 (addr + k)) b (m, h)) as [m1 h1] eqn:Ew. destruct Hw as [Hwf1 Hv1].
  destruct (IH (k + 1) (m1, h1) Hwf1 Hd') as (j & Hj & -> & Hmap). exists (S j). cbn [length].
  split; [lia|]. cbn [take write_bytes]. rewrite Ew. split; [done|]. intros i Hi.
  destruct (Z.eq_dec i k) as [->|]; [done|].
  destruct (Hmap i ltac:(lia)) as [c Hc]. cbn [fst snd] in Hc. rewrite Hv1 in Hc.
  destruct (view h m (u64 (addr + i))); [by eexists|done].
Qed.

Lemma poke_sound m h addr data :
  mem_wf (m, h) -> is_u64 addr -> bytes_ok data -> sound_step (m, h) (poke addr data (m, h)).2.
Proof.
  intros [Hok Hh] Ha Hd. unfold poke. cbn [fst snd].
  set (n := Z.of_nat (length data)). set (m1 := touch_write addr n m).
  assert (um_regions m1 = um_regions m) as E1 by apply touch_write_regions.
  assert (mem_wf (m1, h)) as Hwf1 by (split; [by eapply um_ok_regions|done]).
  destruct (poke_bytes_prefix addr 0 data (m1, h) Hwf1 Hd) as (j & Hj & -> & Hmap).
  cbn [fst snd] in Hmap.
  assert (bytes_ok (take j data)) as Hd' by (by apply Forall_take).
  assert (Z.of_nat (length (take j data)) = Z.of_nat j) as El by (rewrite length_take; lia).
  pose proof (write_bytes_spec m1 h addr 0 (take j data) Hwf1 Hd') as Hw.
  pose proof (write_bytes_watch addr 0 (take j data) (m1, h)) as Hwt.
  rewrite El in Hw. specialize (Hw Hmap).
  destruct (write_bytes addr 0 (take j data) (m1, h)) as [m2 h2]. destruct Hw as [Hwf2 Hv2].
  assert (forall a, view h m1 a = view h m a) as Hv1 by (intros; by apply view_regions).
  apply (stored_sound _ _ _ _ addr n (take j data)); [done|done|lia|done| | |].
  - by apply same_watch_reports.
  - intros i Hi. rewrite <- Hv1. apply Hmap. lia.
  - intros a. rewrite Hv2, Hv1. unfold store_view. destruct (view h m a) as [c|]; [|done]. cbn.
    rewrite (last_write_ext _ (fun k => bool_decide (place h m (u64 (addr + k)) = Some (place_of c a)))).
    + by destruct (last_write _ _ _).
    + intros i _. unfold place. by rewrite Hv1.
Qed.

(** ** Every step is sound *)

Lemma map_sound m h base data perm :
  mem_wf (m, h) -> 0 <= base -> bytes_ok data -> sound_step (m, h) ((um_map base data perm m).2, h).
Proof.
  intros [Hok Hh] Hb Hd. pose proof (map_spec h base data perm m Hok Hb Hd) as Hm. cbv zeta in Hm.
  unfold um_map in *. destruct (_ <=? _); [by apply unchanged_sound|].
  destruct (_ || _); [by apply unchanged_sound|]. destruct Hm as (_ & _ & Hok' & Hv).
  apply (range_sound _ _ _ base (base + Z.of_nat (length data))); [done| |].
  - by apply same_watch_reports.
  - intros a Ha. by rewrite Hv, not_in_range.
Qed.

Lemma grow_down_sound m h addr gap :
  mem_wf (m, h) -> is_u64 addr -> sound_step (m, h) ((grow_down addr gap m).2, h).
Proof.
  intros [Hok Hh] Ha. pose proof (grow_down_spec h addr gap m Hok Ha) as Hg. cbv zeta in Hg.
  destruct (grow_down addr gap m) as [[] m']; cbn [snd]; [|subst; by apply unchanged_sound].
  destruct Hg as (e & c & r & Em & _ & _ & _ & _ & Hok' & Hv).
  apply (range_sound _ _ _ (PAGE * (addr / PAGE)) e); [done| |intros a Hna; by rewrite Hv, not_in_range].
  subst. by apply same_watch_reports.
Qed.

Lemma step_sound s s' : um_step s s' -> mem_wf s -> sound_step s s'.
Proof.
  intros Hst Hwf. destruct Hst as [m h s e|m h base data perm|m h base data perm|m h base len perm|
    m h base buf off len perm mw|m h s e perm|m h old len dst|m h addr gap|m h addr data|m h addr data|m h].
  - destruct Hwf as [Hok Hh]. destruct (unmap_spec h s e m Hok) as [Hok' Hv].
    apply (range_sound _ _ _ s e); [done|apply same_watch_reports, unmap_watch|].
    intros a Ha. by rewrite Hv, not_in_range.
  - by apply map_sound.
  - unfold map_fixed. destruct (bool_decide_reflect (data = [])) as [|Hne]; [by apply unchanged_sound|].
    change (Z.of_nat (length data)) with (reg_len (region_own data perm)).
    apply unmap_insert_sound; [done|done| |done|by apply region_own_spec].
    simpl. destruct data; [done|simpl; lia].
  - unfold map_zeroed. destruct (Z.eqb_spec len 0); [by apply unchanged_sound|].
    change len with (reg_len (region_zeroed len perm)) at 2.
    apply unmap_insert_sound; [done|done|simpl; lia|done|]. split; [apply map_Forall_empty|lia].
  - unfold map_shared. destruct (Z.eqb_spec len 0); [by apply unchanged_sound|].
    set (r := MkRegion _ len _ _ _ _). change len with (reg_len r).
    apply unmap_insert_sound; [done|done|simpl; lia|done|]. split; simpl; lia.
  - by apply protect_sound.
  - by apply remap_sound.
  - by apply grow_down_sound.
  - by apply um_write_sound.
  - by apply poke_sound.
  - apply (touched_sound _ _ _ (fun _ => False)); [done|intros q; auto|auto|].
    intros a _. by apply view_regions.
Qed.

Lemma run_watched s s' q :
  mem_wf s -> rtc um_step s s' -> q ∈ um_watched s'.1 -> q ∈ um_watched s.1.
Proof.
  intros Hwf Hrtc. revert Hwf. induction Hrtc as [|x y z Hxy Hyz IH]; [done|].
  intros Hwf Hq. destruct (step_sound _ _ Hxy Hwf) as (Hwfy & Hsub & _). by apply Hsub, IH.
Qed.

(** One operation on the address space: it keeps the well-formedness of the
    memory, puts no page under watch, and reports as dirty every page that it
    takes from the watch. *)
Theorem step_reports_dirty s s' q :
  mem_wf s -> um_step s s' ->
  mem_wf s' /\ (q ∈ um_watched s'.1 -> q ∈ um_watched s.1) /\
  (q ∈ um_watched s.1 -> q ∈ um_watched s'.1 \/ q ∈ um_dirty s'.1).
Proof. intros Hwf Hst. destruct (step_sound _ _ Hst Hwf) as (? & Hw & _). split; [done|apply Hw]. Qed.

(** C31: the watch of code pages is sound.  After any sequence of unmaps, maps,
    protects, remaps, stack growths, stores, forced writes and collections of
    the dirty list, a page that is still watched was watched from the start
    and shows, at every address that was not in a shared buffer, exactly what
    it showed: code translated from it is still the code of the guest. *)
Theorem code_watch_sound s s' a :
  mem_wf s -> rtc um_step s s' -> page_of a ∈ um_watched s'.1 -> unshared (view s.2 s.1 a) ->
  page_of a ∈ um_watched s.1 /\ view s'.2 s'.1 a = view s.2 s.1 a.
Proof.
  intros Hwf Hrtc. revert Hwf. induction Hrtc as [s|s s1 s' Hst Hrtc IH]; [done|].
  intros Hwf Hp Hu. destruct (step_sound _ _ Hst Hwf) as (Hwf1 & Hsub & Hv).
  assert (page_of a ∈ um_watched s1.1) as Hp1 by (by eapply run_watched).
  specialize (Hv a Hp1 Hu). destruct (IH Hwf1 Hp) as [_ Hv']; [by rewrite Hv|].
  split; [by apply Hsub|congruence].
Qed.

(** * A process on concrete memory

    A small user process (its code, its stack, a file mapped shared) on which
    the theorems about the interpreter and about [UserMemory] are applied, and
    the two cases where a faulting instruction leaves the CPU changed. *)

(** A build without the AdvSIMD data-processing classes. *)
#[local] Existing Instance no_simd_types.
#[local] Existing Instance no_simd_decode.

Definition no_simd_exec : SimdExec :=
  {| exec_int _ c := Some c; exec_fp _ c := Some c; exec_crypto _ c := Some c |}.
#[local] Existing Instance no_simd_exec.

#[local] Instance no_simd_laws : SimdExecLaws.
Proof. split; first [by eauto | by intros i c c' [= <-]]. Qed.

Lemma no_simd_ok : simd_decoders_ok.
Proof. intros w. split; reflexivity. Qed.

(** ** The process *)

(** stp x29, x30, [sp, #-16]!; str x0, [x1]; stxr w2, x0, [x1];
    ld2 {v0.2d, v1.2d}, [x1]. *)
Definition code : list Z :=
  to_le 4 0xA9BF7BFD ++ to_le 4 0xF9000020 ++ to_le 4 0xC8027C20 ++ to_le 4 0x4C408C20.

Definition files : heap := {[ 7 := replicate 4096 0xaa ]}.

Definition proc_code : UserMemory := map_fixed 0x10000 code perm.RX (um_new 1).
Definition proc_stack : UserMemory := map_zeroed 0x20000 0x2000 perm.RW proc_code.
Definition proc : UserMemory := map_shared 0x40000 7 0 0x1000 perm.RW true proc_stack.

Lemma files_ok : heap_ok files.
Proof.
  apply map_Forall_singleton, Forall_replicate. unfold is_u. lia.
Qed.

Lemma new_ok n : mem_wf (um_new n, files).
Proof. split; [|apply files_ok]. constructor; cbn; [constructor|done|done]. Qed.

Lemma steps_wf s s' : rtc um_step s s' -> mem_wf s -> mem_wf s'.
Proof.
  induction 1 as [|x y z Hst _ IH]; [done|]. intros Hwf. apply IH. by destruct (step_sound _ _ Hst Hwf).
Qed.

Lemma code_bytes : bytes_ok code.
Proof. apply Forall_app; split; [apply bytes_ok_to_le|]. repeat (apply Forall_app; split); apply bytes_ok_to_le. Qed.

Lemma proc_wf : mem_wf (proc, files).
Proof.
  apply (steps_wf (um_new 1, files)); [|apply new_ok].
  eapply rtc_l; [apply (step_map_fixed _ _ 0x10000 code perm.RX)|]; [lia|apply code_bytes|vm_compute; done|].
  eapply rtc_l; [apply (step_map_zeroed _ _ 0x20000 0x2000 perm.RW)|]; [lia..|].
  eapply rtc_once. apply (step_map_shared _ _ 0x40000 7 0 0x1000 perm.RW true); lia.
Qed.

(** The CPU at the instruction number [i] of the process, with X1 = [x1]. *)
Definition cpu_at (i x1 : Z) : Cpu :=
  (set_x 1 x1 (set_xsp 31 0x22000 cpu_new)) <| cpu_pc := 0x10000 + 4 * i |>.

Lemma cpu_at_wf i x1 : 0 <= i < 4 -> is_u64 x1 -> cpu_wf (cpu_at i x1).
Proof.
  intros Hi Hx. unfold cpu_at. apply set_pc_wf; [|unfold is_u; lia]. apply set_x_wf; [|done].
  apply set_xsp_wf; [apply cpu_new_wf|unfold is_u; lia].
Qed.

(** ** The interpreter *)

(** STP with writeback to the stack completes and the machine stays well formed. *)
Lemma step_keeps_wf_witness :
  let s := (cpu_at 0 0, (proc, files)) in
  wf_machine (step s).2 /\ (step s).1 = Ok tt /\ cpu_sp (step s).2.1 = 0x21ff0.
Proof.
  intros s. split; [|split; vm_compute; reflexivity].
  assert (wf_machine s) as Hs by (split; [apply cpu_at_wf; unfold is_u; lia|apply proc_wf]).
  pose proof (step_keeps_wf s no_simd_ok Hs) as Hstep. clearbody s.
  destruct (step s) as [r s']. exact (proj1 Hstep).
Defined.

(** The same step leaves the system registers as they were. *)
Lemma step_keeps_system_state_witness :
  cpu_sys (step (cpu_at 0 0, (proc, files))).2.1 = default_sys.
Proof. rewrite (proj1 (step_keeps_system_state (cpu_at 0 0, (proc, files)))). reflexivity. Defined.

(** A store to address 0, which is not mapped. *)
Lemma exception_leaves_cpu_witness :
  let s := (cpu_at 1 0, (proc, files)) in
  (step s).1 = Err (Raise (ExcDataAbort 0 true)) /\ (step s).2.1 = s.1.
Proof.
  intros s. split; [vm_compute; reflexivity|].
  apply (exception_leaves_cpu s (ExcDataAbort 0 true) (step s).2).
  - intros raw m Hf. vm_compute in Hf. injection Hf as <- _. vm_compute. reflexivity.
  - vm_compute. reflexivity.
Defined.

(** A file of one page mapped shared, with anonymous memory right after it: the
    eight bytes across the border can be read one at a time. *)
Lemma locate_spurious_fault_witness :
  let m := map_zeroed 0x2000 0x1000 perm.RW (map_shared 0x1000 7 0 0x1000 perm.RW true (um_new 1)) in
  um_read 0x1ffc 8 (m, files) = (Err (MkMemFault 0x1ffc Read), (m, files)) /\
  (forall i, 0 <= i < 8 -> is_ok (um_read (0x1ffc + i) 1 (m, files)).1 = true).
Proof.
  intros m. split.
  - assert (mem_wf (m, files)) as Hwf.
    { apply (steps_wf (um_new 1, files)); [|apply new_ok].
      eapply rtc_l; [apply (step_map_shared _ _ 0x1000 7 0 0x1000 perm.RW true)|]; [lia..|].
      eapply rtc_once. apply (step_map_zeroed _ _ 0x2000 0x1000 perm.RW); lia. }
    destruct (region_at 0x1ffc m) as [[b r]|] eqn:Hr; [|vm_compute in Hr; discriminate Hr].
    pose proof Hr as Hr'. vm_compute in Hr'. injection Hr' as <- <-.
    eapply (locate_spurious_fault m files 0x1ffc 8 0x1000); [exact Hwf|exact Hr|reflexivity|vm_compute; reflexivity|cbn; lia|lia].
  - intros i Hi. assert (i = 0 \/ i = 1 \/ i = 2 \/ i = 3 \/ i = 4 \/ i = 5 \/ i = 6 \/ i = 7) as Hc by lia.
    destruct Hc as [->|[->|[->|[->|[->|[->|[->| ->]]]]]]]; vm_compute; reflexivity.
Defined.

(** ** What is lost on a fault *)

Section lost.
Context {ST : SimdTypes} {SD : SimdDecode} {SE : SimdExec} {M : Type} `{Memory M}.

(** A store-exclusive that faults clears the exclusive monitor before it
    raises the exception: the monitor is taken before the write is tried, so
    the state does change although an exception is raised. *)
Theorem stxr_fault_clears_monitor c m raw m1 size pair rs rt rt2 rn a w c' m' :
  Z.land (cpu_pc c) 3 = 0 -> mem_fetch (cpu_pc c) m = (Ok raw, m1) -> decode raw = Exclusive size false pair rs rt rt2 rn ->
  step (c, m) = (Err (Raise (ExcDataAbort a w)), (c', m')) ->
  is_Some (cpu_monitor c) /\ c' = c <| cpu_monitor := None |>.
Proof.
  intros Hpc Hf Hd. unfold step, machine. rewrite (bind_ok _ _ _ (cpu_pc c) (c, m)) by done. rewrite Hpc. cbn [Z.eqb negb].
  rewrite (bind_ok _ _ _ raw (c, m1)) by (unfold mem_call; cbn [fst snd]; by rewrite Hf). cbv zeta. rewrite Hd. cbn [execute].
  intros [Hr|(t & s1 & _ & Hr)]%bind_err_inv; [|by apply bind_err_inv in Hr as [Hr|(? & ? & _ & Hr)]]. unfold fallthrough, machine in Hr.
  apply bind_err_inv in Hr as [Hr|(? & ? & _ & Hr)]; [|done]. unfold exec_exclusive, machine in Hr.
  apply bind_err_inv in Hr as [Hr|([] & s1 & H1 & Hr)].
  { unfold check_sp_alignment, machine in Hr. rewrite (bind_ok _ _ _ (sp_misaligned rn c) (c, m1)) in Hr by done. by destruct (sp_misaligned rn c). }
  assert (s1 = (c, m1)) as ->.
  { unfold check_sp_alignment, machine in H1. rewrite (bind_ok _ _ _ (sp_misaligned rn c) (c, m1)) in H1 by done. destruct (sp_misaligned rn c); [done|by injection H1]. }
  rewrite (bind_ok _ _ _ (xsp c rn) (c, m1)) in Hr by done. cbv zeta in Hr. set (total := if pair then _ else _) in Hr.
  apply bind_err_inv in Hr as [Hr|([] & s1 & H2 & Hr)]; [unfold check_aligned in Hr; by destruct (negb _)|].
  assert (s1 = (c, m1)) as -> by (unfold check_aligned in H2; destruct (negb _); [done|by injection H2]).
  rewrite (bind_ok _ _ _ (exclusive_value pair (Z.shiftl 1 size) rt rt2 c) (c, m1)) in Hr by done.
  rewrite (bind_ok _ _ _ (cpu_monitor c) (c <| cpu_monitor := None |>, m1)) in Hr by done.
  apply bind_err_inv in Hr as [Hr|(ok & s1 & _ & Hr)]; [|done].
  destruct (cpu_monitor c) as [mon|]; [|done]. split; [by eexists|]. destruct (_ && _); [|done].
  unfold mem_call in Hr. cbn [fst snd] in Hr. destruct (mem_cmpxchg _ _ _ m1) as [[|] m2]; [done|]. by injection Hr as _ <- _.
Qed.

(** A structure load (LD2 to LD4) whose second element faults leaves the first
    one in its vector register although an exception is raised: each element is
    written as it is read. *)
Theorem structure_load_keeps_elements c m raw m1 q selem esize rt rn post x m2 f m3 :
  Z.land (cpu_pc c) 3 = 0 -> mem_fetch (cpu_pc c) m = (Ok raw, m1) ->
  decode raw = Simd (SimdMem (VMulti true q 1 selem esize rt rn post)) -> 2 <= selem -> 0 < esize <= 64 ->
  sp_misaligned rn c = false ->
  mem_read (u64 (xsp c rn)) (Z.to_nat (esize / 8)) m1 = (Ok x, m2) ->
  mem_read (u64 (xsp c rn + esize / 8)) (Z.to_nat (esize / 8)) m2 = (Err f, m3) ->
  let t := rt mod 32 in
  step (c, m) = (Err (Raise (from_mem_fault f)),
    (vset t (set_elem (clip (vget c t) (if q then 128 else 64)) 0 esize (u64 (from_le x))) c, m3)).
Proof.
  intros Hpc Hf Hd Hsel Hes Hsp Hx Hfault t. unfold step, machine. rewrite (bind_ok _ _ _ (cpu_pc c) (c, m)) by done. rewrite Hpc. cbn [Z.eqb negb].
  rewrite (bind_ok _ _ _ raw (c, m1)) by (unfold mem_call; cbn [fst snd]; by rewrite Hf). cbv zeta. rewrite Hd. cbn [execute exec_simd].
  apply bind_err. unfold fallthrough, machine. apply bind_err. unfold exec_mem, machine. rewrite (bind_ok _ _ _ tt (c, m1)).
  2: { unfold check_sp_alignment, machine. rewrite (bind_ok _ _ _ (sp_misaligned rn c) (c, m1)) by done. by rewrite Hsp. }
  unfold exec_multi, machine. cbv zeta. set (dsize := if q then 128 else 64). rewrite (bind_ok _ _ _ (xsp c rn) (c, m1)) by done.
  assert (0 < dsize / esize) as Hn by (apply Z.div_str_pos; subst dsize; destruct q; lia).
  apply bind_err. rewrite (seqZ_cons 0 1) by lia. cbn [foldM]. apply bind_err. rewrite (seqZ_cons 0 (dsize / esize)) by lia. cbn [foldM].
  apply bind_err. apply bind_err. rewrite (seqZ_cons 0 selem), (seqZ_cons (Z.succ 0)) by lia. cbn [foldM]. rewrite Z.add_0_r. fold t.
  set (c1 := vset t _ c). rewrite (bind_ok _ _ _ ((t + 1) mod 32, 0 + esize / 8) (c1, m2)).
  2: { unfold multi_elem, machine. cbv zeta. rewrite Z.add_0_r. rewrite (bind_ok _ _ _ tt (c1, m2)); [done|].
       rewrite (bind_ok _ _ _ (from_le x) (c, m2)); [done|]. unfold read_uint, machine. rewrite (bind_ok _ _ _ x (c, m2)); [done|].
       unfold mem_call. cbn [fst snd]. by rewrite Hx. }
  apply bind_err. unfold multi_elem, machine. cbv zeta. apply bind_err. apply bind_err. unfold read_uint, machine. apply bind_err.
  unfold mem_call. cbn [fst snd]. rewrite Z.add_0_l. by rewrite Hfault.
Qed.

End lost.

(** ** The address space *)

Lemma proc_ok : um_ok proc.
Proof. apply proc_wf. Qed.

Lemma unmap_view_witness :
  view files (unmap 0x20000 0x21000 proc) 0x20008 = None /\
  is_Some (view files (unmap 0x20000 0x21000 proc) 0x21000).
Proof.
  destruct (unmap_view files 0x20000 0x21000 proc proc_ok) as [_ Hv].
  rewrite !Hv. split; [reflexivity|]. eexists. vm_compute. reflexivity.
Defined.

Lemma protect_view_witness :
  let m' := (protect 0x20000 0x21000 perm.R proc).2 in
  is_ok (protect 0x20000 0x21000 perm.R proc).1 = true /\ um_ok m' /\
  c_perm <$> view files m' 0x20fff = Some perm.R.
Proof.
  pose proof (protect_view files 0x20000 0x21000 perm.R proc proc_ok) as Hp.
  split; [vm_compute; reflexivity|].
  destruct (protect 0x20000 0x21000 perm.R proc) as [[u|f] m'] eqn:E.
  - destruct Hp as (_ & Hok & Hv). split; [exact Hok|]. cbn [snd]. rewrite Hv. vm_compute. reflexivity.
  - exfalso. vm_compute in E. discriminate E.
Defined.

Lemma map_view_witness :
  let m' := (um_map 0x30000 [1; 2; 3] perm.RW proc).2 in
  um_ok m' /\ view files m' 0x30001 = Some (MkCell perm.RW true false LPrivate 2).
Proof.
  assert (bytes_ok [1; 2; 3]) as Hd by (repeat constructor; unfold is_u; lia).
  pose proof (map_view files 0x30000 [1; 2; 3] perm.RW proc proc_ok ltac:(lia) Hd) as Hm.
  cbv zeta in Hm. destruct (um_map 0x30000 [1; 2; 3] perm.RW proc) as [[u|f] m'] eqn:E.
  - destruct Hm as (_ & _ & Hok & Hv). split; [exact Hok|]. cbn [snd]. rewrite Hv. reflexivity.
  - exfalso. vm_compute in E. discriminate E.
Defined.

Lemma map_replace_view_witness :
  view files (map_fixed 0x20ffe [1; 2; 3] perm.RW proc) 0x21000 =
    Some (MkCell perm.RW true false LPrivate 3).
Proof.
  assert (bytes_ok [1; 2; 3]) as Hd by (repeat constructor; unfold is_u; lia).
  destruct (map_replace_view files proc 0x20ffe 3 0 7 perm.RW true [1; 2; 3] proc_ok
    ltac:(lia) ltac:(lia) ltac:(lia) ltac:(lia) ltac:(lia) Hd eq_refl) as [[_ Hv] _].
  rewrite Hv. reflexivity.
Defined.

(** The stack moves, over the code. *)
Lemma remap_view_witness :
  let m' := remap 0x20000 0x2000 0xf000 proc in
  um_ok m' /\ view files m' 0x21fff = None /\
  view files m' 0x10fff = Some (MkCell perm.RW true false LPrivate 0).
Proof.
  destruct (remap_view files 0x20000 0x2000 0xf000 proc proc_ok ltac:(lia) ltac:(lia) ltac:(lia))
    as [Hok Hv].
  split; [exact Hok|]. rewrite !Hv. split; vm_compute; reflexivity.
Defined.

Lemma remap_dontunmap_view_witness :
  let m' := remap_dontunmap 0x10000 0x1000 0x50000 proc in
  um_ok m' /\ c_byte <$> view files m' 0x10003 = Some 0 /\ c_byte <$> view files m' 0x50003 = Some 0xA9.
Proof.
  destruct (remap_dontunmap_view files 0x10000 0x1000 0x50000 proc proc_ok
    ltac:(lia) ltac:(lia) ltac:(lia) ltac:(lia)) as [Hok Hv].
  split; [exact Hok|]. rewrite !Hv. split; vm_compute; reflexivity.
Defined.

(** A fault one page below a stack that grows down. *)
Lemma grow_down_view_witness :
  let m := set_grows_down 0x20000 proc in
  um_ok m /\ (grow_down 0x1f800 0 m).1 = true /\
  c_byte <$> view files (grow_down 0x1f800 0 m).2 0x1f004 = Some 0.
Proof.
  assert (um_ok (set_grows_down 0x20000 proc)) as Hok.
  { eapply put_region_ok; [apply proc_ok|reflexivity|reflexivity|].
    split; [apply map_Forall_empty|lia]. }
  split; [exact Hok|]. split; [reflexivity|].
  pose proof (grow_down_view files 0x1f800 0 _ Hok ltac:(unfold is_u; lia)) as Hg. cbv zeta in Hg.
  destruct (grow_down 0x1f800 0 (set_grows_down 0x20000 proc)) as [[] m'] eqn:E; cbn [snd].
  - destruct Hg as (e & c & He & _ & _ & _ & _ & Hv). rewrite Hv.
    rewrite (proj2 (in_range_spec _ _ _)); [done|].
    change (PAGE * (0x1f800 / PAGE)) with 0x1f000. lia.
  - exfalso. vm_compute in E. discriminate E.
Defined.

(** Half a page between the stack and the file, from the top. *)
Lemma find_free_highest_witness :
  find_free 0x800 0x10000 0x40000 proc = Some 0x3f800 /\
  forall a, 0x3f800 <= a < 0x40000 -> view files proc a = None.
Proof.
  pose proof (find_free_highest files proc 0x800 0x10000 0x40000 proc_ok
    ltac:(lia) ltac:(lia) ltac:(lia)) as Hf. cbv zeta in Hf.
  assert (find_free 0x800 0x10000 0x40000 proc = Some 0x3f800) as E by reflexivity.
  rewrite E in Hf. destruct Hf as [(_ & _ & Hfree) _]. split; [exact E|].
  intros a Ha. apply Hfree. lia.
Defined.

Lemma private_not_shared addr n :
  0x20000 <= addr < 0x22000 -> ~ leaves_shared proc addr n.
Proof.
  intros Ha (b & r & buf & base & Hc & Hb & _).
  assert (covers (um_regions proc) addr 0x20000 (region_zeroed 0x2000 perm.RW)) as Hs
    by (split; [reflexivity|cbn; lia]).
  destruct (covers_unique _ _ _ _ _ _ proc_ok Hc Hs) as [_ ->]. discriminate Hb.
Qed.

Lemma read_exact_witness :
  (um_read 0x20ffc 8 (proc, files)).1 = Ok (replicate 8 0) /\
  range_ok files proc 0x20ffc 8 Read.
Proof.
  destruct (read_exact proc files 0x20ffc 8 proc_wf ltac:(unfold is_u; lia)
    (private_not_shared 0x20ffc 8 ltac:(lia))) as (_ & Hok & _).
  split; [vm_compute; reflexivity|]. apply Hok. vm_compute. reflexivity.
Defined.

Lemma write_exact_witness :
  (um_write 0x20ffe [1; 2; 3] (proc, files)).1 = Ok tt /\
  mem_wf (um_write 0x20ffe [1; 2; 3] (proc, files)).2.
Proof.
  assert (bytes_ok [1; 2; 3]) as Hd by (repeat constructor; unfold is_u; lia).
  pose proof (write_exact proc files 0x20ffe [1; 2; 3] proc_wf ltac:(unfold is_u; lia) Hd
    (private_not_shared 0x20ffe 3 ltac:(lia))) as Hw.
  split; [vm_compute; reflexivity|].
  destruct (um_write 0x20ffe [1; 2; 3] (proc, files)) as [[u|f] [m' h']] eqn:E.
  - exact (proj1 (proj2 Hw)).
  - exfalso. vm_compute in E. discriminate E.
Defined.

(** The range of a store in the stack has no aliases. *)
Lemma store_load_roundtrip_witness :
  let s' := (um_write 0x20ffe [1; 2] (proc, files)).2 in
  (um_read 0x20ffe 2 s').1 = Ok [1; 2] /\ (um_read 0x20ffe 2 s').2 = s'.
Proof.
  assert (bytes_ok [1; 2]) as Hd by (repeat constructor; unfold is_u; lia).
  assert (no_alias files proc 0x20ffe 2) as Hna.
  { intros i j Hi Hj.
    assert ((i = 0 \/ i = 1) /\ (j = 0 \/ j = 1)) as [[->| ->] [->| ->]] by lia;
      vm_compute; first [reflexivity|discriminate]. }
  intros s'. assert (um_write 0x20ffe [1; 2] (proc, files) = (Ok tt, s')) as Ew by (vm_compute; reflexivity).
  assert (um_read 0x20ffe 2 s' = (Ok [1; 2], s')) as Er by (vm_compute; reflexivity).
  rewrite Er. split; [reflexivity|].
  exact (proj2 (store_load_roundtrip proc files 0x20ffe [1; 2] s' [1; 2] s' proc_wf Hd Hna Ew Er)).
Defined.

(** ** The watch of code pages *)

Definition watched_proc : UserMemory := watch_code 0x20 (watch_code 0x10 proc).

Lemma watched_wf : mem_wf (watched_proc, files).
Proof. destruct proc_wf as [Hok Hh]. split; [|exact Hh]. exact Hok. Qed.

(** A store in the stack: its page was watched, and is reported. *)
Lemma step_reports_dirty_witness :
  let s' := (um_write 0x20ffe [1] (watched_proc, files)).2 in
  um_dirty s'.1 = [0x20] /\ mem_wf s'.
Proof.
  intros s'. split; [vm_compute; reflexivity|].
  refine (proj1 (step_reports_dirty (watched_proc, files) s' 0x20 watched_wf _)).
  apply step_write; [unfold is_u; lia|repeat constructor; unfold is_u; lia].
Defined.

(** After that store the code page is still watched, and shows the same. *)
Lemma code_watch_sound_witness :
  let s' := (um_write 0x20ffe [1] (watched_proc, files)).2 in
  0x10 ∈ um_watched s'.1 /\ view s'.2 s'.1 0x10003 = view files proc 0x10003.
Proof.
  intros s'. assert (0x10 ∈ um_watched s'.1) as Hp.
  { apply (bool_decide_eq_true_1 (0x10 ∈ um_watched s'.1)). vm_compute. reflexivity. }
  split; [exact Hp|].
  refine (proj2 (code_watch_sound (watched_proc, files) s' 0x10003 watched_wf _ Hp _)).
  - apply rtc_once, step_write; [unfold is_u; lia|repeat constructor; unfold is_u; lia].
  - vm_compute. reflexivity.
Defined.
