(* ===== verification/SysMem.v ===== *)
(** * What system mode asks of its surroundings (crates/vetro-cpu/src/sys/mod.rs)

    The traits [SysBus] (translation and physical accesses) and [CpuEnv]
    (interrupt lines and registers of the platform) as classes of operations
    over a state type, the values that cross them, and the laws the theorems
    about system mode rely on. [MmuBus] discharges the laws of the bus. *)

From Stdlib Require Import ZArith Lia Bool.
From stdpp Require Import base list numbers strings.
From S2P Require Import Prelude SysReg State Decode Memory.
Local Open Scope Z_scope.

(** Translation request. *)
Record AccessReq := MkAccessReq { req_access : Access; req_el : Z; req_aligned : bool }.

(** Negative outcome of a translation or of a physical access. *)
Inductive BusFault :=
| BusAbort (fsc : Z) (ea : bool)
| BusUnimplemented (what : string).

Definition FSC_EXTERNAL : Z := 16.
Definition FSC_ALIGNMENT : Z := 33.

(** Outcome of an AT instruction. *)
Inductive AtResult :=
| AtPar (p : Z)
| AtAbort (fsc : Z) (ea : bool)
| AtUnimplemented (what : string).

(** System memory as seen by the CPU. *)
Class SysBus (B : Type) : Type := {
  bus_translate : TranslationRegs -> Z -> AccessReq -> prog B BusFault Z;
  bus_read_phys : Z -> nat -> prog B BusFault (list Z);
  bus_write_phys : Z -> list Z -> prog B BusFault unit;
  bus_at : TranslationRegs -> Z -> Access -> Z -> B -> AtResult * B;
  bus_tlbi : TlbiOp -> Z -> B -> B;
  bus_tlb_flush_all : B -> B;
  bus_cmpxchg_phys : Z -> list Z -> list Z -> prog B BusFault bool;
}.

(** The provided [cmpxchg_phys]. *)
Definition default_cmpxchg_phys {B} (read : Z -> nat -> prog B BusFault (list Z))
    (write : Z -> list Z -> prog B BusFault unit) (pa : Z) (old new : list Z)
    : prog B BusFault bool :=
  cur ← read pa (length old);
  if negb (bool_decide (cur = old)) then mret false else
  write pa new;; mret true.

(** What the platform provides to the core. *)
Class CpuEnv (E : Type) : Type := {
  env_irq_line : E -> bool * E;
  env_fiq_line : E -> bool * E;
  env_read_sysreg : EnvReg -> E -> Z * E;
  env_write_sysreg : EnvReg -> Z -> E -> E;
}.

(** The provided [fiq_line]. *)
Definition default_fiq_line {E} (e : E) : bool * E := (false, e).

(** Exception type: the offset within the vector group. *)
Inductive ExceptionKind := Sync | Irq | Fiq | SError.

#[export] Instance ExceptionKind_eq_dec : EqDecision ExceptionKind.
Proof. solve_decision. Defined.

(** Outcome of [step_system]. *)
Inductive SysEvent :=
| Executed
| EvException (kind : ExceptionKind) (esr from_el : Z)
| WaitForInterrupt
| EvYield
| EvHvc (imm : Z)
| EvSmc (imm : Z)
| EvUnimplemented (raw : Z) (what : string).

(** ** Laws *)

Definition fsc_ok (f : BusFault) : Prop :=
  match f with BusAbort fsc _ => is_u 6 fsc | BusUnimplemented _ => True end.

Definition at_ok (r : AtResult) : Prop :=
  match r with AtPar p => is_u64 p | AtAbort fsc _ => is_u 6 fsc | AtUnimplemented _ => True end.

(** An operation of the bus keeps the invariant, its result satisfies [R] and
    its fault has a status code of six bits. *)
Definition bus_sound {B A} (ok : B -> Prop) (R : A -> Prop) (op : prog B BusFault A) : Prop :=
  triple ok op (fun a b => ok b /\ R a) (fun f b => ok b /\ fsc_ok f).

Class SysBusLaws (B : Type) `{SysBus B} : Type := {
  bus_ok : B -> Prop;
  translate_sound : forall regs va req,
    is_u64 va -> bus_sound bus_ok is_u64 (bus_translate regs va req);
  read_phys_sound : forall pa n,
    bus_sound bus_ok (fun l => length l = n /\ bytes_ok l) (bus_read_phys pa n);
  write_phys_sound : forall pa d,
    bytes_ok d -> bus_sound bus_ok (fun _ => True) (bus_write_phys pa d);
  cmpxchg_phys_sound : forall pa old new,
    bytes_ok old -> bytes_ok new -> bus_sound bus_ok (fun _ => True) (bus_cmpxchg_phys pa old new);
  at_sound : forall regs va a el b,
    is_u64 va -> bus_ok b -> at_ok (bus_at regs va a el b).1 /\ bus_ok (bus_at regs va a el b).2;
  tlbi_sound : forall op xt b, bus_ok b -> bus_ok (bus_tlbi op xt b);
  tlb_flush_sound : forall b, bus_ok b -> bus_ok (bus_tlb_flush_all b);
}.

Class CpuEnvLaws (E : Type) `{CpuEnv E} : Prop := {
  read_sysreg_u64 : forall r e, is_u64 (env_read_sysreg r e).1;
}.

(** * Memory of the interpreter in system mode (crates/vetro-cpu/src/sys/mem.rs)

    [SysMem] adapts a [SysBus] to the interface [Memory] of the interpreter:
    alignment and endianness checks, page-by-page translation, physical
    accesses, and the details of the last fault for the syndrome. *)

Local Open Scope vetro_scope.

Definition SYS_PAGE : Z := 4096.

(** Fault of the last failed access, with what the syndrome needs. *)
Inductive Pending :=
| PendAbort (va fsc : Z) (ea : bool) (access : Access)
| PendUnimplemented (what : string).

Record SysMem (B : Type) := MkSysMem {
  sm_bus : B;
  sm_regs : TranslationRegs;
  sm_el : Z;
  sm_fault : option Pending;
}.
Arguments MkSysMem {B}.
Arguments sm_bus {B}.
Arguments sm_regs {B}.
Arguments sm_el {B}.
Arguments sm_fault {B}.

#[export] Instance eta_SysMem B : Eta (SysMem B) := fun m =>
  MkSysMem (sm_bus m) (sm_regs m) (sm_el m) (sm_fault m).

Section sysmem.
Context {B : Type} `{SysBus B}.

Definition sysmem_new (bus : B) (regs : TranslationRegs) (el : Z) : SysMem B :=
  MkSysMem bus regs el None.

(** [fail]: records the fault and reduces it for the interpreter. *)
Definition pending_of (va : Z) (access : Access) (f : BusFault) : Pending :=
  match f with
  | BusAbort fsc ea => PendAbort va fsc ea access
  | BusUnimplemented w => PendUnimplemented w
  end.

Definition sm_fail {T A} (va : Z) (access : Access) (f : BusFault) : prog (SysMem B * T) MemFault A :=
  fun '(m, t) =>
    (Err (MkMemFault va access), (m <| sm_fault := Some (pending_of va access f) |>, t)).

(** A call of the bus, on the bus and the variable captured by the closure;
    its fault goes through [fail]. *)
Definition on_bus {T A} (va : Z) (access : Access) (op : prog (B * T) BusFault A)
    : prog (SysMem B * T) MemFault A := fun '(m, t) =>
  match op (sm_bus m, t) with
  | (Ok a, (b, t)) => (Ok a, (m <| sm_bus := b |>, t))
  | (Err f, (b, t)) => sm_fail va access f (m <| sm_bus := b |>, t)
  end.

(** An operation of the bus that does not use the captured variable. *)
Definition on_fst {T A} (op : prog B BusFault A) : prog (B * T) BusFault A := fun '(b, t) =>
  let '(r, b) := op b in (r, (b, t)).

Definition chunk (va rest : Z) : Z := Z.min rest (SYS_PAGE - Z.land va (SYS_PAGE - 1)).

(** [while off < len]: every page is translated. One iteration per page, so
    [len] iterations are enough. *)
Fixpoint translate_pages {T} (fuel : nat) (va len off : Z) (req : AccessReq) (regs : TranslationRegs)
    : prog (SysMem B * T) MemFault unit :=
  match fuel with
  | O => mret tt
  | S fuel' =>
      if off <? len then
        let v := u64 (va + off) in
        on_bus v (req_access req) (on_fst (bus_translate regs v req));;
        translate_pages fuel' va len (off + chunk v (len - off)) req regs
      else mret tt
  end.

(** [while off < len]: every piece is translated and accessed. *)
Fixpoint access_pages {T} (fuel : nat) (va len off : Z) (req : AccessReq) (regs : TranslationRegs)
    (op : Z -> Z -> Z -> prog (B * T) BusFault unit) : prog (SysMem B * T) MemFault unit :=
  match fuel with
  | O => mret tt
  | S fuel' =>
      if off <? len then
        let v := u64 (va + off) in
        let n := chunk v (len - off) in
        pa ← on_bus v (req_access req) (on_fst (bus_translate regs v req));
        on_bus v (req_access req) (op pa off n);;
        access_pages fuel' va len (off + n) req regs op
      else mret tt
  end.

(** Performs an access of [len] bytes: [op pa offset n] for every piece within
    a page. *)
Definition sm_access {T} (va len : Z) (access : Access) (privilege : Z) (device_fault : bool)
    (op : Z -> Z -> Z -> prog (B * T) BusFault unit) : prog (SysMem B * T) MemFault unit := fun s =>
  let '(m, _) := s in
  if len =? 0 then (Ok tt, s) else
  let aligned := negb device_fault && (va mod len =? 0) in
  let regs := sm_regs m in
  if negb (bool_decide (access = Fetch)) && negb aligned && negb device_fault
     && test_mask (tr_sctlr regs) sctlr.A
  then sm_fail va access (BusAbort FSC_ALIGNMENT false) s
  else
  let big := if sm_el m =? 0 then sctlr.E0E else sctlr.EE in
  if negb (bool_decide (access = Fetch)) && test_mask (tr_sctlr regs) big
  then sm_fail va access (BusUnimplemented "big-endian data accesses (SCTLR_EL1.EE/E0E)") s
  else
  let req := MkAccessReq access privilege aligned in
  let fuel := Z.to_nat len in
  let crosses := chunk va len <? len in
  ((if crosses then translate_pages fuel va len 0 req regs else mret tt);;
   access_pages fuel va len 0 req regs op) s.

(** [buf[off..off + n]] becomes [bytes]. *)
Definition splice (off : Z) (bytes buf : list Z) : list Z :=
  take (Z.to_nat off) buf ++ bytes ++ drop (Z.to_nat off + length bytes) buf.

(** Runs an access whose closure captures a variable that starts as [t]. *)
Definition with_var {T} (t : T) (p : prog (SysMem B * T) MemFault unit) : prog (SysMem B) MemFault T :=
  fun m =>
    match p (m, t) with
    | (Ok _, (m, t)) => (Ok t, m)
    | (Err f, (m, _)) => (Err f, m)
    end.

Definition read_piece (pa off n : Z) : prog (B * list Z) BusFault unit := fun '(b, buf) =>
  match bus_read_phys pa (Z.to_nat n) b with
  | (Ok l, b) => (Ok tt, (b, splice off l buf))
  | (Err f, b) => (Err f, (b, buf))
  end.

Definition read_as (addr : Z) (n : nat) (privilege : Z) : prog (SysMem B) MemFault (list Z) :=
  with_var (replicate n 0) (sm_access addr (Z.of_nat n) Read privilege false read_piece).

Definition write_piece (data : list Z) (pa off n : Z) : prog (B * unit) BusFault unit :=
  on_fst (bus_write_phys pa (take (Z.to_nat n) (drop (Z.to_nat off) data))).

Definition write_as (addr : Z) (data : list Z) (privilege : Z) : prog (SysMem B) MemFault unit :=
  with_var tt (sm_access addr (Z.of_nat (length data)) Write privilege false (write_piece data)).

Definition cmpxchg_piece (old new : list Z) (pa off n : Z) : prog (B * bool) BusFault unit :=
  fun '(b, ok) =>
    match bus_cmpxchg_phys pa old new b with
    | (Ok r, b) => (Ok tt, (b, r))
    | (Err f, b) => (Err f, (b, ok))
    end.

Definition cmpxchg_as (addr : Z) (old new : list Z) : prog (SysMem B) MemFault bool := fun m =>
  with_var false
    (sm_access addr (Z.of_nat (length old)) Write (sm_el m) false (cmpxchg_piece old new)) m.

(** [fetch], with the fast path for an aligned address. *)
Definition sm_fetch (addr : Z) : prog (SysMem B) MemFault Z := fun m =>
  if Z.land addr 3 =? 0 then
    let req := MkAccessReq Fetch (sm_el m) true in
    let fail f b := (Err (MkMemFault addr Fetch),
                     m <| sm_bus := b |> <| sm_fault := Some (pending_of addr Fetch f) |>) in
    match bus_translate (sm_regs m) addr req (sm_bus m) with
    | (Err f, b) => fail f b
    | (Ok pa, b) =>
        match bus_read_phys pa 4 b with
        | (Err f, b) => fail f b
        | (Ok w, b) => (Ok (from_le w), m <| sm_bus := b |>)
        end
    end
  else
    match with_var (replicate 4 0) (sm_access addr 4 Fetch (sm_el m) false read_piece) m with
    | (Ok w, m) => (Ok (from_le w), m)
    | (Err f, m) => (Err f, m)
    end.

Definition sm_zero_block (addr : Z) : prog (SysMem B) MemFault unit := fun m =>
  with_var tt
    (sm_access addr 64 Write (sm_el m) true (write_piece (replicate 64 0))) m.

(** [impl Memory for SysMem]. *)
#[export] Instance SysMem_Memory : Memory (SysMem B) := {|
  mem_read addr n m := read_as addr n (sm_el m) m;
  mem_write addr data m := write_as addr data (sm_el m) m;
  mem_fetch := sm_fetch;
  mem_read_unpriv addr n := read_as addr n 0;
  mem_write_unpriv addr data := write_as addr data 0;
  mem_zero_block := sm_zero_block;
  mem_cmpxchg := cmpxchg_as;
|}.
End sysmem.
