(* ===== verification/Except.v ===== *)
(** * Exception entry and return (crates/vetro-cpu/src/sys/except.rs)

    [take_exception] and [exception_return], and the theorems about them: the
    vector taken, the invariant of PSTATE, and that returning from an
    exception restores the interrupted context. *)

From Stdlib Require Import ZArith Lia Bool.
From stdpp Require Import base list numbers.
From S2P Require Import Prelude Bits State SysMem.
Local Open Scope Z_scope.
Local Open Scope vetro_scope.

(** Exception Class (ESR_EL1.EC). *)
Module ec.
Definition UNKNOWN := 0x00.
Definition WFX := 0x01.
Definition FP_ACCESS := 0x07.
Definition ILLEGAL_STATE := 0x0e.
Definition SVC := 0x15.
Definition HVC := 0x16.
Definition SMC := 0x17.
Definition SYSREG := 0x18.
Definition INSN_ABORT_LOWER := 0x20.
Definition INSN_ABORT_SAME := 0x21.
Definition PC_ALIGN := 0x22.
Definition DATA_ABORT_LOWER := 0x24.
Definition DATA_ABORT_SAME := 0x25.
Definition SP_ALIGN := 0x26.
Definition SERROR := 0x2f.
Definition BRK := 0x3c.
End ec.

(** ESR_EL1.IL: 32-bit instruction. *)
Definition IL : Z := Z.shiftl 1 25.

(** ESR_EL1 for [class] and [iss]. *)
Definition esr (class iss : Z) : Z := Z.lor (Z.lor (Z.shiftl class 26) IL) iss.

(** [ExceptionKind::offset]. *)
Definition kind_offset (k : ExceptionKind) : Z :=
  match k with Sync => 0x000 | Irq => 0x080 | Fiq => 0x100 | SError => 0x180 end.

Definition opt_set {A} (o : option A) (f : A -> SysState -> SysState) (s : SysState) : SysState :=
  match o with Some a => f a s | None => s end.

Definition take_exception (kind : ExceptionKind) (esr far : option Z) (preferred : Z) (c : Cpu) : Cpu :=
  let from_el := sys_el (cpu_sys c) in
  let group := if from_el =? 0 then 0x400
               else if sys_spsel (cpu_sys c) then 0x200 else 0x000 in
  let c := c <| cpu_sys ::= fun s => s <| sys_spsr_el1 := pstate_spsr c |>
                                       <| sys_elr_el1 := preferred |> |> in
  let c := c <| cpu_sys ::= opt_set esr (fun e s => s <| sys_esr_el1 := e |>) |> in
  let c := c <| cpu_sys ::= opt_set far (fun f s => s <| sys_far_el1 := f |>) |> in
  let c := set_el_sp 1 true c in
  let c := c <| cpu_sys ::= fun s => s <| sys_daif := daif.ALL |> <| sys_il := false |> |> in
  c <| cpu_pc := u64 (sys_vbar_el1 (cpu_sys c) + (group + kind_offset kind)) |>.

Definition exception_return (c : Cpu) : Cpu :=
  let s := sys_spsr_el1 (cpu_sys c) in
  let target := sys_elr_el1 (cpu_sys c) in
  let c := c <| cpu_nzcv := u32 (Z.land s spsr.NZCV) |>
             <| cpu_sys ::= fun y => y <| sys_daif := u32 (Z.land s spsr.DAIF) |> |>
             <| cpu_monitor := None |> in
  let m := Z.land s spsr.M in
  if (m =? 0) || (m =? 4) || (m =? 5) then
    let c := set_el_sp (u8 (Z.shiftr m 2)) (test_mask m 1) c in
    let c := c <| cpu_sys ::= fun y => y <| sys_il := test_mask s spsr.IL |> |> in
    c <| cpu_pc := branch_addr c target |>
  else
    c <| cpu_sys ::= fun y => y <| sys_il := true |> |> <| cpu_pc := target |>.

(** The range of a literal. *)
Ltac literal := split; vm_compute; congruence.

(** ** PSTATE and the stack pointers *)

(** EL0 runs on SP_EL0 only. *)
Definition pstate_ok (s : SysState) : Prop := sys_el s = 0 -> sys_spsel s = false.

Lemma land_mask_disjoint x a b : Z.land a b = 0 -> Z.land (Z.land x a) b = 0.
Proof. intros Hab. by rewrite <- Z.land_assoc, Hab, Z.land_0_r. Qed.

(** The fields of the saved PSTATE. *)
Lemma pstate_spsr_fields c :
  cpu_wf c ->
  let s := pstate_spsr c in
  Z.land s spsr.NZCV = cpu_nzcv c /\ Z.land s spsr.DAIF = sys_daif (cpu_sys c) /\
  test_mask s spsr.IL = sys_il (cpu_sys c) /\
  Z.land s spsr.M = Z.lor (Z.shiftl (sys_el (cpu_sys c)) 2) (b2z (sys_spsel (cpu_sys c))).
Proof.
  intros Hwf s. destruct (wf_nzcv _ Hwf) as [Hn _]. destruct (wf_daif _ (wf_sys _ Hwf)) as [Hd _].
  unfold s, pstate_spsr. set (y := cpu_sys c) in *.
  destruct (wf_el _ (wf_sys _ Hwf)) as [He|He]; fold y in He; rewrite He;
    (split; [|split; [|split]]);
    [rewrite <- Hn at 2|rewrite <- Hd at 2|unfold test_mask| |
     rewrite <- Hn at 2|rewrite <- Hd at 2|unfold test_mask| ];
    rewrite <- Hd; rewrite ?Z.land_lor_distr_l, <- ?Z.land_assoc;
    change daif.ALL with 0x3c0; destruct (sys_il y), (sys_spsel y);
    cbn -[Z.land Z.lor]; rewrite ?Z.land_0_r, ?Z.lor_0_r, ?Z.lor_0_l; try done.
Qed.

Lemma sp_index_cases el spsel : sp_index el spsel = 0 \/ sp_index el spsel = 1.
Proof. unfold sp_index. destruct (_ || _); auto. Qed.

(** Changing level or stack pointer loses neither stack pointer. *)
Lemma set_el_sp_banks el spsel c n :
  cpu_wf c -> n = 0 \/ n = 1 -> sp_el (set_el_sp el spsel c) n = sp_el c n.
Proof.
  intros Hwf Hn. destruct (wf_sp_el _ (wf_sys _ Hwf)) as [Hlen _].
  destruct c as [x sp pc nz t t0 mo v fc fs []]. cbn in Hlen.
  destruct sys_sp_el as [|a [|b [|]]]; try discriminate Hlen.
  unfold set_el_sp, sp_el; cbn -[sp_index Z.eqb].
  destruct (sp_index_cases sys_el sys_spsel) as [-> | ->], (sp_index_cases el spsel) as [-> | ->],
    Hn as [-> | ->]; cbn -[sp_index]; try done.
Qed.

Lemma set_el_sp_state el spsel c :
  sys_el (cpu_sys (set_el_sp el spsel c)) = el /\
  sys_spsel (cpu_sys (set_el_sp el spsel c)) = spsel /\
  cpu_sp (set_el_sp el spsel c) = sp_el (set_el_sp el spsel c) (sp_index el spsel).
Proof.
  split; [|split].
  - unfold set_el_sp. by destruct (negb _).
  - unfold set_el_sp. by destruct (negb _).
  - unfold sp_el. assert (sys_el (cpu_sys (set_el_sp el spsel c)) = el) as ->
      by (unfold set_el_sp; by destruct (negb _)).
    assert (sys_spsel (cpu_sys (set_el_sp el spsel c)) = spsel) as ->
      by (unfold set_el_sp; by destruct (negb _)).
    by rewrite Z.eqb_refl.
Qed.

(** What [set_el_sp] leaves alone. *)
Lemma set_el_sp_frame el spsel c :
  let s := cpu_sys c in
  let c' := set_el_sp el spsel c in
  exists sps, cpu_sys c' = s <| sys_sp_el := sps |> <| sys_el := el |> <| sys_spsel := spsel |> /\
    c' = c <| cpu_sp := cpu_sp c' |> <| cpu_sys := cpu_sys c' |>.
Proof.
  cbv zeta. unfold set_el_sp. destruct (negb _).
  - eexists. split; reflexivity.
  - exists (sys_sp_el (cpu_sys c)). by destruct c as [????????? ? []].
Qed.

Lemma set_el_sp_wf el spsel c :
  cpu_wf c -> el = 0 \/ el = 1 -> cpu_wf (set_el_sp el spsel c).
Proof.
  intros Hwf He. destruct (wf_sp_el _ (wf_sys _ Hwf)) as [Hlen Hall].
  pose proof (sp_index_cases el spsel) as Hi. destruct (wf_sys _ Hwf) as [].
  unfold set_el_sp. destruct (negb _).
  - destruct Hwf. constructor; cbn; try done.
    + eapply Forall_lookup_total_1; [by apply Forall_insert|]. rewrite length_insert, Hlen.
      destruct Hi as [-> | ->]; simpl; lia.
    + constructor; cbn; try done. rewrite length_insert. split; [done|]. by apply Forall_insert.
  - destruct Hwf. by constructor.
Qed.

(** ** The exception entry *)

Definition vector_group (s : SysState) : Z :=
  if sys_el s =? 0 then 0x400 else if sys_spsel s then 0x200 else 0.

(** [take_exception], register by register. *)
Lemma take_exception_state k e f p c :
  let s := cpu_sys c in
  let c' := take_exception k e f p c in
  exists sps, cpu_sys c' =
    s <| sys_spsr_el1 := pstate_spsr c |> <| sys_elr_el1 := p |>
      <| sys_esr_el1 := default (sys_esr_el1 s) e |> <| sys_far_el1 := default (sys_far_el1 s) f |>
      <| sys_sp_el := sps |> <| sys_el := 1 |> <| sys_spsel := true |>
      <| sys_daif := daif.ALL |> <| sys_il := false |> /\
    c' = c <| cpu_sp := cpu_sp c' |> <| cpu_sys := cpu_sys c' |>
           <| cpu_pc := u64 (sys_vbar_el1 s + (vector_group s + kind_offset k)) |>.
Proof.
  cbv zeta. unfold take_exception. cbv zeta. generalize (pstate_spsr c) as ps. intros ps.
  set (c1 := c <| cpu_sys ::= _ |>). set (c2 := c1 <| cpu_sys ::= _ |>).
  set (c3 := c2 <| cpu_sys ::= _ |>).
  destruct (set_el_sp_frame 1 true c3) as (sps & Hs & Hc). exists sps.
  destruct (set_el_sp 1 true c3) as [x sp pc nz t t0 mo v fc fs y]. cbn in Hs, Hc |- *.
  injection Hc as -> -> -> -> -> -> -> -> ->. subst y. unfold c3, c2, c1.
  clear. destruct e, f; split; reflexivity.
Qed.

Definition opt_u64 (o : option Z) : Prop := match o with Some v => is_u64 v | None => True end.

Lemma default_u64 d o : is_u64 d -> opt_u64 o -> is_u64 (default d o).
Proof. by destruct o. Qed.

Lemma pstate_spsr_u64 c : cpu_wf c -> is_u64 (pstate_spsr c).
Proof.
  intros Hwf. destruct (wf_nzcv _ Hwf) as [_ Hn]. destruct (wf_daif _ (wf_sys _ Hwf)) as [Hd Hd0].
  unfold pstate_spsr. repeat apply is_u_lor; try lia.
  - apply is_u_land_r; [lia|done|literal].
  - destruct (sys_il _); literal.
  - rewrite <- Hd. apply is_u_land_r; [lia|done|literal].
  - destruct (wf_el _ (wf_sys _ Hwf)) as [-> | ->]; literal.
  - destruct (sys_spsel _); literal.
Qed.

Lemma take_exception_ok k e f p c :
  cpu_wf c -> opt_u64 e -> opt_u64 f -> is_u64 p ->
  cpu_wf (take_exception k e f p c) /\ pstate_ok (cpu_sys (take_exception k e f p c)).
Proof.
  intros Hwf He Hf Hp. split; [|].
  - unfold take_exception. cbv zeta. apply set_pc_wf; [|apply is_u_u64].
    assert (sys_wf (cpu_sys c)) as Hs by apply (wf_sys _ Hwf). pose proof (pstate_spsr_u64 c Hwf) as Hps.
    revert Hps. generalize (pstate_spsr c). intros ps Hps.
    set (c1 := c <| cpu_sys ::= _ |>). set (c2 := c1 <| cpu_sys ::= _ |>).
    set (c3 := c2 <| cpu_sys ::= _ |>).
    assert (cpu_wf c3) as H3.
    { apply set_sys_wf; [apply set_sys_wf; [apply set_sys_wf; [done|]|]|].
      - destruct Hs. by constructor.
      - destruct Hs, e; by constructor.
      - destruct Hs, e, f; by constructor. }
    apply (set_el_sp_wf 1 true) in H3; [|by right]. destruct (wf_sys _ H3).
    apply set_sys_wf; [done|]. by constructor.
  - destruct (take_exception_state k e f p c) as (sps & -> & _). intros Hel. discriminate Hel.
Qed.

Lemma spsr_m_cases s :
  let m := Z.land s spsr.M in
  (m =? 0) || (m =? 4) || (m =? 5) = true ->
  (u8 (Z.shiftr m 2) = 0 /\ test_mask m 1 = false) \/ u8 (Z.shiftr m 2) = 1.
Proof.
  intros m Hm. rewrite !orb_true_iff, !Z.eqb_eq in Hm.
  destruct Hm as [[-> | ->] | ->]; [left|right|right]; done.
Qed.

Lemma exception_return_ok c :
  cpu_wf c -> pstate_ok (cpu_sys c) ->
  cpu_wf (exception_return c) /\ pstate_ok (cpu_sys (exception_return c)).
Proof.
  intros Hwf Hps. unfold exception_return. cbv zeta. set (s := sys_spsr_el1 (cpu_sys c)).
  set (c1 := c <| cpu_nzcv := _ |> <| cpu_sys ::= _ |> <| cpu_monitor := _ |>).
  assert (is_u64 s) as Hs by apply (wf_spsr _ (wf_sys _ Hwf)).
  assert (is_u64 (sys_elr_el1 (cpu_sys c))) as Helr by apply (wf_elr _ (wf_sys _ Hwf)).
  assert (forall a, 0 <= a < 2 ^ 32 -> u32 (Z.land s a) = Z.land s a) as Hu.
  { intros a Ha. apply u32_id, is_u_land_r; [lia|apply Hs|done]. }
  assert (cpu_wf c1) as H1.
  { unfold c1. apply set_monitor_wf; [|done]. apply set_sys_wf; [apply set_nzcv_wf; [done|]|].
    - rewrite Hu by literal. split.
      + by rewrite <- Z.land_assoc.
      + apply Z.land_nonneg. left. apply Hs.
    - destruct (wf_sys _ Hwf). constructor; try done. cbn [cpu_sys].
      change (sys_daif _) with (u32 (Z.land s spsr.DAIF)).
      rewrite Hu by literal. split.
      + by rewrite <- Z.land_assoc.
      + apply Z.land_nonneg. left. apply Hs. }
  assert (pstate_ok (cpu_sys c1)) as Hp1 by done.
  clearbody c1. destruct (_ || _ || _) eqn:Em.
  - apply spsr_m_cases in Em.
    set (el := u8 _) in *. set (sp := test_mask (Z.land s spsr.M) 1) in *.
    assert (el = 0 \/ el = 1) as Hel by tauto.
    pose proof (set_el_sp_wf el sp c1 H1 Hel) as H2. destruct (set_el_sp_state el sp c1) as (E1 & E2 & _).
    split.
    + apply set_pc_wf; [apply set_sys_wf; [done|]; destruct (wf_sys _ H2); by constructor|].
      unfold branch_addr. destruct (test_mask (sys_tcr_el1 _) _); [apply is_u_u64|done].
    + unfold pstate_ok. change (sys_el (cpu_sys (set_el_sp el sp c1)) = 0 ->
        sys_spsel (cpu_sys (set_el_sp el sp c1)) = false). rewrite E1, E2. destruct Em as [[_ ?]|?]; [done|lia].
  - split; [|done]. apply set_pc_wf; [|done]. apply set_sys_wf; [done|].
    destruct (wf_sys _ H1). by constructor.
Qed.

Lemma take_exception_banks k e f p c n :
  cpu_wf c -> n = 0 \/ n = 1 -> sp_el (take_exception k e f p c) n = sp_el c n.
Proof.
  intros Hwf Hn. unfold take_exception. cbv zeta. generalize (pstate_spsr c). intros ps.
  set (c1 := c <| cpu_sys ::= _ |>). set (c2 := c1 <| cpu_sys ::= _ |>).
  set (c3 := c2 <| cpu_sys ::= _ |>).
  assert (cpu_sp c3 = cpu_sp c /\ sys_sp_el (cpu_sys c3) = sys_sp_el (cpu_sys c) /\
    sys_el (cpu_sys c3) = sys_el (cpu_sys c) /\ sys_spsel (cpu_sys c3) = sys_spsel (cpu_sys c))
    as (E1 & E2 & E3 & E4) by (by destruct e, f).
  transitivity (sp_el (set_el_sp 1 true c3) n); [done|]. clearbody c3. clear c1 c2.
  transitivity (sp_el (set_el_sp 1 true c) n); [|by apply set_el_sp_banks].
  unfold set_el_sp, sp_el. rewrite E3, E4. destruct (negb _); cbn -[sp_index];
    by rewrite ?E1, ?E2, ?E3, ?E4.
Qed.

Lemma saved_mode el spsel :
  el = 0 \/ el = 1 -> (el = 0 -> spsel = false) ->
  let m := Z.lor (Z.shiftl el 2) (b2z spsel) in
  (m =? 0) || (m =? 4) || (m =? 5) = true /\ u8 (Z.shiftr m 2) = el /\ test_mask m 1 = spsel.
Proof. intros [-> | ->] Hs; [rewrite (Hs eq_refl)|destruct spsel]; done. Qed.

(** C32: an exception is transparent to the context it interrupts. Whatever the
    handler at EL1 does, if it leaves the saved PSTATE, the return address and
    the stack pointer of the context as the entry set them, ERET restores the
    exception level, the stack selection and the stack pointer, the condition
    flags, the interrupt masks and the illegal-state bit of the context, and
    resumes at the preferred return address (its top byte ignored as the
    context would); the exclusive monitor is lost. *)
Theorem exception_roundtrip k e f p c c' :
  cpu_wf c -> pstate_ok (cpu_sys c) -> cpu_wf c' ->
  let s := cpu_sys c in
  let entry := take_exception k e f p c in
  let i := sp_index (sys_el s) (sys_spsel s) in
  sys_spsr_el1 (cpu_sys c') = sys_spsr_el1 (cpu_sys entry) ->
  sys_elr_el1 (cpu_sys c') = sys_elr_el1 (cpu_sys entry) ->
  sp_el c' i = sp_el entry i ->
  let r := exception_return c' in
  sys_el (cpu_sys r) = sys_el s /\ sys_spsel (cpu_sys r) = sys_spsel s /\ cpu_sp r = cpu_sp c /\
  cpu_nzcv r = cpu_nzcv c /\ sys_daif (cpu_sys r) = sys_daif s /\ sys_il (cpu_sys r) = sys_il s /\
  cpu_pc r = branch_addr c' p /\ cpu_monitor r = None /\ cpu_x r = cpu_x c' /\ cpu_v r = cpu_v c'.
Proof.
  intros Hwf Hps Hwf' s entry i Hspsr Helr Hsp r.
  pose proof (take_exception_banks k e f p c i Hwf (sp_index_cases _ _)) as Hbank.
  destruct (take_exception_state k e f p c) as (sps & Hst & _).
  assert (sys_spsr_el1 (cpu_sys c') = pstate_spsr c) as Es by (rewrite Hspsr; unfold entry; by rewrite Hst).
  assert (sys_elr_el1 (cpu_sys c') = p) as Ep by (rewrite Helr; unfold entry; by rewrite Hst).
  destruct (pstate_spsr_fields c Hwf) as (F1 & F2 & F3 & F4).
  destruct (saved_mode (sys_el s) (sys_spsel s) (wf_el _ (wf_sys _ Hwf)) Hps) as (M1 & M2 & M3).
  assert (is_u32 (cpu_nzcv c)) as Hn.
  { destruct (wf_nzcv _ Hwf) as [Hn Hn0]. rewrite <- Hn. apply is_u_land_r; [lia|done|literal]. }
  assert (is_u32 (sys_daif s)) as Hd.
  { destruct (wf_daif _ (wf_sys _ Hwf)) as [Hd Hd0]. fold s in Hd, Hd0. rewrite <- Hd.
    apply is_u_land_r; [lia|done|literal]. }
  unfold r, exception_return. cbv zeta. rewrite Es, Ep, F1, F2, F3, F4. fold s. rewrite M1, M2, M3.
  rewrite !u32_id by done. set (c1 := c' <| cpu_nzcv := _ |> <| cpu_sys ::= _ |> <| cpu_monitor := _ |>).
  assert (sp_el c1 i = sp_el c' i) as E1 by done.
  assert (sp_el (set_el_sp (sys_el s) (sys_spsel s) c1) i = sp_el c1 i) as Eb.
  { apply set_el_sp_banks; [|apply sp_index_cases]. unfold c1. apply set_monitor_wf; [|done].
    apply set_sys_wf; [apply set_nzcv_wf; [done|apply (wf_nzcv _ Hwf)]|].
    pose proof (wf_daif _ (wf_sys _ Hwf)). destruct (wf_sys _ Hwf'). by constructor. }
  destruct (set_el_sp_state (sys_el s) (sys_spsel s) c1) as (Ee & Esp & Ecsp).
  destruct (set_el_sp_frame (sys_el s) (sys_spsel s) c1) as (sps' & Hy & Hc).
  assert (cpu_sp (set_el_sp (sys_el s) (sys_spsel s) c1) = cpu_sp c) as Hfin.
  { rewrite Ecsp. fold i. rewrite Eb, E1, Hsp. unfold entry. rewrite Hbank. unfold sp_el. fold s i.
    by rewrite Z.eqb_refl. }
  revert Hfin Hy Hc Ee Esp. generalize (set_el_sp (sys_el s) (sys_spsel s) c1). intros c2 Hfin Hy Hc Ee Esp.
  split_and!; try done; try (by rewrite Hc).
  - cbn. by rewrite Hy.
  - cbn. unfold branch_addr. cbn. by rewrite Hy.
Qed.

(** A core just returned to EL0 takes an interrupt, and returns. *)
Definition el0_cpu : Cpu :=
  exception_return ((reset_system default_config cpu_new)
    <| cpu_sys ::= fun s => s <| sys_spsr_el1 := 0x80000000 |> |>).

Lemma el0_cpu_wf : cpu_wf el0_cpu /\ pstate_ok (cpu_sys el0_cpu).
Proof.
  apply exception_return_ok; [|done].
  apply set_sys_wf; [apply set_monitor_wf; [apply set_sys_wf; [apply cpu_new_wf|]|done]|];
    destruct default_sys_wf; constructor; try done;
    first [by right | literal | repeat constructor; vm_compute; congruence].
Qed.

Lemma exception_roundtrip_witness :
  let entry := take_exception Irq None None 0x1000 el0_cpu in
  let r := exception_return entry in
  sys_el (cpu_sys entry) = 1 /\ sys_el (cpu_sys r) = 0 /\ cpu_nzcv r = 0x80000000 /\ cpu_pc r = 0x1000.
Proof.
  destruct el0_cpu_wf as [Hwf Hps]. intros entry r.
  assert (cpu_wf entry) as Hwf'.
  { apply take_exception_ok; [exact Hwf|exact I|exact I|literal]. }
  destruct (exception_roundtrip Irq None None 0x1000 el0_cpu entry Hwf Hps Hwf' eq_refl eq_refl eq_refl)
    as (E1 & _ & _ & E2 & _ & _ & E3 & _).
  split; [reflexivity|]. split; [exact E1|]. split; [exact E2|]. exact E3.
Defined.
