(* ===== verification/SysAccess.v ===== *)
(** * MRS and MSR in system mode (crates/vetro-cpu/src/sys/regs.rs)

    The access checks [sysreg_access] and the semantics [sysreg_read] and
    [sysreg_write] of the system registers. A panic of the source (an
    [unreachable!] or an index out of range) is the error of the result. *)

From Stdlib Require Import ZArith Lia Bool.
From stdpp Require Import base list numbers strings.
From S2P Require Import Prelude Bits SysReg State SysMem.
Local Open Scope Z_scope.
Local Open Scope vetro_scope.

(** Why an access to a system register is not executed. *)
Inductive Deny := DenyUndefined | DenyTrap.

Definition mdscr_tdcc (mdscr : Z) : bool := test_mask mdscr (Z.shiftl 1 12).

(** The registers of the platform at EL0. *)
Definition el0_env_access (k : Z) (e : EnvReg) (write : bool) : result unit Deny :=
  let enabled bit := if test_mask k bit then Ok tt else Err DenyTrap in
  match e with
  | CntfrqEl0 =>
      match enabled (Z.lor cntkctl.EL0PCTEN cntkctl.EL0VCTEN) with
      | Err d => Err d
      | Ok _ => if write then Err DenyUndefined else Ok tt
      end
  | CntpctEl0 => enabled cntkctl.EL0PCTEN
  | CntvctEl0 => enabled cntkctl.EL0VCTEN
  | CntpTvalEl0 | CntpCtlEl0 | CntpCvalEl0 => enabled cntkctl.EL0PTEN
  | CntvTvalEl0 | CntvCtlEl0 | CntvCvalEl0 => enabled cntkctl.EL0VTEN
  | _ => Err DenyUndefined
  end.

(** The last match of [sysreg_access]: at EL0. *)
Definition el0_access (s : SysState) (reg : SysReg) (write : bool) : result unit Deny :=
  match reg with
  | Nzcv | TpidrEl0 | Fpcr | Fpsr | DczidEl0 => Ok tt
  | TpidrroEl0 | PmuserenrEl0 => if write then Err DenyUndefined else Ok tt
  | MdccsrEl0 | DbgdtrEl0 => if mdscr_tdcc (sys_mdscr_el1 s) then Err DenyTrap else Ok tt
  | CtrEl0 => if test_mask (sys_sctlr_el1 s) sctlr.UCT then Ok tt else Err DenyTrap
  | Daif => if test_mask (sys_sctlr_el1 s) sctlr.UMA then Ok tt else Err DenyTrap
  | Env e => el0_env_access (sys_cntkctl_el1 s) e write
  | _ => Err DenyUndefined
  end.

(** Checks an MRS ([write] = false) or MSR at the current level. *)
Definition sysreg_access (c : Cpu) (reg : SysReg) (write : bool) : result unit Deny :=
  let s := cpu_sys c in
  if match sysreg_rw reg, write with
     | ReadOnly, true | WriteOnly, false => true
     | _, _ => false
     end then Err DenyUndefined
  else if match reg with Env e => negb (is_timer e) && negb (gicv3 (sys_cfg s)) | _ => false end
  then Err DenyUndefined
  else if sys_el s =? 1 then
    match reg with
    | SpEl0 => if negb (sys_spsel s) then Err DenyUndefined else Ok tt
    | _ => Ok tt
    end
  else el0_access s reg write.

(** [l[n as usize]]. *)
Definition index (l : list Z) (n : Z) : result Z string :=
  match l !! Z.to_nat n with Some v => Ok v | None => Err "index out of bounds" end.

Section regs.
Context {B E : Type} `{SysBus B} `{CpuEnv E}.

(** ISR_EL1: pending SError, IRQ line, FIQ line. *)
Definition isr_el1 (s : SysState) (env : E) : Z * E :=
  let a := bool_decide (is_Some (sys_serror_pending s)) in
  let '(i, env) := env_irq_line env in
  let '(f, env) := env_fiq_line env in
  (Z.lor (Z.lor (Z.shiftl (b2z a) 8) (Z.shiftl (b2z i) 7)) (Z.shiftl (b2z f) 6), env).

(** The registers whose value does not come from the platform. *)
Definition sysreg_value (c : Cpu) (reg : SysReg) : result Z string :=
  let s := cpu_sys c in
  match reg with
  | Nzcv => Ok (cpu_nzcv c)
  | TpidrEl0 => Ok (cpu_tpidr_el0 c)
  | TpidrroEl0 => Ok (cpu_tpidrro_el0 c)
  | Fpcr => Ok (cpu_fpcr c)
  | Fpsr => Ok (cpu_fpsr c)
  | DczidEl0 =>
      let dzp := (sys_el s =? 0) && negb (test_mask (sys_sctlr_el1 s) sctlr.DZE) in
      Ok (Z.lor id.DCZID_BS (Z.shiftl (b2z dzp) 4))
  | CtrEl0 => Ok id.CTR_EL0
  | Daif => Ok (sys_daif s)
  | CurrentEl => Ok (Z.shiftl (sys_el s) 2)
  | SpSel => Ok (b2z (sys_spsel s))
  | SpEl0 => Ok (sp_el c 0)
  | ElrEl1 => Ok (sys_elr_el1 s)
  | SpsrEl1 => Ok (sys_spsr_el1 s)
  | SctlrEl1 => Ok (sys_sctlr_el1 s)
  | CpacrEl1 => Ok (sys_cpacr_el1 s)
  | TcrEl1 => Ok (sys_tcr_el1 s)
  | Ttbr0El1 => Ok (sys_ttbr0_el1 s)
  | Ttbr1El1 => Ok (sys_ttbr1_el1 s)
  | MairEl1 => Ok (sys_mair_el1 s)
  | ContextidrEl1 => Ok (sys_contextidr_el1 s)
  | VbarEl1 => Ok (sys_vbar_el1 s)
  | EsrEl1 => Ok (sys_esr_el1 s)
  | FarEl1 => Ok (sys_far_el1 s)
  | ParEl1 => Ok (sys_par_el1 s)
  | TpidrEl1 => Ok (sys_tpidr_el1 s)
  | CntkctlEl1 => Ok (sys_cntkctl_el1 s)
  | CsselrEl1 => Ok (sys_csselr_el1 s)
  | ActlrEl1 | AmairEl1 | Afsr0El1 | Afsr1El1 | MdccintEl1 | ImpDefEl1 | DbgRazWiEl1
  | MdccsrEl0 | DbgdtrEl0 => Ok 0
  | DbgclaimsetEl1 => Ok 0xff
  | DbgclaimclrEl1 => Ok (sys_dbgclaim s)
  | CbarEl1 => Ok (cbar (sys_cfg s))
  | RvbarEl1 | AidrEl1 | MdrarEl1 => Ok 0
  | MidrEl1 => Ok id.MIDR_EL1
  | MpidrEl1 => Ok (mpidr (sys_cfg s))
  | RevidrEl1 => Ok id.REVIDR_EL1
  | ClidrEl1 => Ok id.CLIDR_EL1
  | CcsidrEl1 => Ok (default 0 (id.CCSIDR_EL1 !! Z.to_nat (sys_csselr_el1 s)))
  | Id i => Ok (id.id_reg i (gicv3 (sys_cfg s)))
  | MdscrEl1 => Ok (sys_mdscr_el1 s)
  | OslsrEl1 => Ok (Z.lor 8 (Z.shiftl (b2z (sys_oslk s)) 1))
  | OsdlrEl1 => Ok (sys_osdlr_el1 s)
  | DbgbvrEl1 n => index (sys_dbgbvr s) n
  | DbgbcrEl1 n => index (sys_dbgbcr s) n
  | DbgwvrEl1 n => index (sys_dbgwvr s) n
  | DbgwcrEl1 n => index (sys_dbgwcr s) n
  | PmuserenrEl0 => Ok (sys_pmuserenr_el0 s)
  | OslarEl1 => Err "write-only, excluded by sysreg_access"
  | IsrEl1 | Env _ => Err "register of the platform"
  end.

(** Already authorised MRS. *)
Definition sysreg_read (c : Cpu) (reg : SysReg) (env : E) : result Z string * E :=
  match reg with
  | IsrEl1 => let '(v, env) := isr_el1 (cpu_sys c) env in (Ok v, env)
  | Env e => let '(v, env) := env_read_sysreg e env in (Ok v, env)
  | _ => (sysreg_value c reg, env)
  end.

Definition set_sys (f : SysState -> SysState) (c : Cpu) : Cpu := c <| cpu_sys ::= f |>.

(** [l[n as usize] = v]. *)
Definition set_index (n v : Z) (l : list Z) : list Z := <[Z.to_nat n := v]> l.

(** The registers of the CPU itself. *)
Definition sysreg_set (reg : SysReg) (v : Z) (c : Cpu) : result Cpu string :=
  match reg with
  | Nzcv => Ok (c <| cpu_nzcv := Z.land (u32 v) 0xf0000000 |>)
  | TpidrEl0 => Ok (c <| cpu_tpidr_el0 := v |>)
  | TpidrroEl0 => Ok (c <| cpu_tpidrro_el0 := v |>)
  | Fpcr => Ok (c <| cpu_fpcr := Z.land (u32 v) FPCR_MASK |>)
  | Fpsr => Ok (c <| cpu_fpsr := Z.land (u32 v) FPSR_MASK |>)
  | Daif => Ok (set_sys (fun s => s <| sys_daif := Z.land (u32 v) daif.ALL |>) c)
  | SpSel => Ok (set_el_sp (sys_el (cpu_sys c)) (test_mask v 1) c)
  | SpEl0 => Ok (set_sp_el 0 v c)
  | ElrEl1 => Ok (set_sys (fun s => s <| sys_elr_el1 := v |>) c)
  | SpsrEl1 => Ok (set_sys (fun s => s <| sys_spsr_el1 := v |>) c)
  | SctlrEl1 => Ok (set_sys (fun s => s <| sys_sctlr_el1 := Z.ldiff v sctlr.MTE_BITS |>) c)
  | CpacrEl1 => Ok (set_sys (fun s => s <| sys_cpacr_el1 := v |>) c)
  | TcrEl1 => Ok (set_sys (fun s => s <| sys_tcr_el1 := v |>) c)
  | Ttbr0El1 => Ok (set_sys (fun s => s <| sys_ttbr0_el1 := v |>) c)
  | Ttbr1El1 => Ok (set_sys (fun s => s <| sys_ttbr1_el1 := v |>) c)
  | MairEl1 => Ok (set_sys (fun s => s <| sys_mair_el1 := v |>) c)
  | ContextidrEl1 => Ok (set_sys (fun s => s <| sys_contextidr_el1 := v |>) c)
  | VbarEl1 => Ok (set_sys (fun s => s <| sys_vbar_el1 := Z.ldiff v 0x1f |>) c)
  | EsrEl1 => Ok (set_sys (fun s => s <| sys_esr_el1 := v |>) c)
  | FarEl1 => Ok (set_sys (fun s => s <| sys_far_el1 := v |>) c)
  | ParEl1 => Ok (set_sys (fun s => s <| sys_par_el1 := v |>) c)
  | TpidrEl1 => Ok (set_sys (fun s => s <| sys_tpidr_el1 := v |>) c)
  | CntkctlEl1 => Ok (set_sys (fun s => s <| sys_cntkctl_el1 := v |>) c)
  | CsselrEl1 => Ok (set_sys (fun s => s <| sys_csselr_el1 := Z.land v 0xf |>) c)
  | ActlrEl1 | AmairEl1 | Afsr0El1 | Afsr1El1 | MdccintEl1 | ImpDefEl1 | DbgRazWiEl1
  | DbgdtrEl0 => Ok c
  | DbgclaimsetEl1 => Ok (set_sys (fun s => s <| sys_dbgclaim ::= fun d => Z.lor d (u8 v) |>) c)
  | DbgclaimclrEl1 => Ok (set_sys (fun s => s <| sys_dbgclaim ::= fun d => Z.ldiff d (u8 v) |>) c)
  | MdscrEl1 => Ok (set_sys (fun s => s <| sys_mdscr_el1 := v |>) c)
  | OslarEl1 => Ok (set_sys (fun s => s <| sys_oslk := test_mask v 1 |>) c)
  | OsdlrEl1 => Ok (set_sys (fun s => s <| sys_osdlr_el1 := Z.land v 1 |>) c)
  | DbgbvrEl1 n =>
      if (Z.to_nat n <? length (sys_dbgbvr (cpu_sys c)))%nat then
        Ok (set_sys (fun s => s <| sys_dbgbvr ::= set_index n v |>) c)
      else Err "index out of bounds"
  | DbgbcrEl1 n =>
      if (Z.to_nat n <? length (sys_dbgbcr (cpu_sys c)))%nat then
        Ok (set_sys (fun s => s <| sys_dbgbcr ::= set_index n v |>) c)
      else Err "index out of bounds"
  | DbgwvrEl1 n =>
      if (Z.to_nat n <? length (sys_dbgwvr (cpu_sys c)))%nat then
        Ok (set_sys (fun s => s <| sys_dbgwvr ::= set_index n (Z.ldiff v 3) |>) c)
      else Err "index out of bounds"
  | DbgwcrEl1 n =>
      if (Z.to_nat n <? length (sys_dbgwcr (cpu_sys c)))%nat then
        Ok (set_sys (fun s => s <| sys_dbgwcr ::= set_index n v |>) c)
      else Err "index out of bounds"
  | PmuserenrEl0 => Ok (set_sys (fun s => s <| sys_pmuserenr_el0 := Z.land v 0xf |>) c)
  | Env _ => Ok c
  | DczidEl0 | CtrEl0 | CurrentEl | IsrEl1 | RvbarEl1 | MidrEl1 | MpidrEl1 | RevidrEl1
  | AidrEl1 | ClidrEl1 | CcsidrEl1 | Id _ | OslsrEl1 | MdrarEl1 | CbarEl1 | MdccsrEl0 =>
      Err "read-only, excluded by sysreg_access"
  end.

(** Already authorised MSR: SCTLR_EL1 and TCR_EL1 flush the TLB, the registers
    of the platform go to the environment. *)
Definition sysreg_write (reg : SysReg) (v : Z) (c : Cpu) (bus : B) (env : E)
    : result Cpu string * B * E :=
  let bus := match reg with SctlrEl1 | TcrEl1 => bus_tlb_flush_all bus | _ => bus end in
  let env := match reg with Env e => env_write_sysreg e v env | _ => env end in
  (sysreg_set reg v c, bus, env).
End regs.
