(* ===== verification/SysStep.v ===== *)
(** * One step in system mode (crates/vetro-cpu/src/sys/step.rs)

    [step_system]: interrupts, fetch through the MMU, the instructions with a
    meaning of their own in system mode, the common interpreter, and delivery
    of exceptions to the guest. The state of a step is the CPU, the memory
    adapter [SysMem] around the bus, and the platform. *)

From Stdlib Require Import ZArith Lia Bool.
From stdpp Require Import base list numbers strings.
From S2P Require Import Prelude Bits SysReg State Decode Memory Exec SysMem Except SysAccess.
Local Open Scope Z_scope.
Local Open Scope vetro_scope.

(** ISS of a WFI trap from EL0 and of an FP/SIMD trap: [1 << 24 | 0xe << 20]. *)
Definition ISS_WFI : Z := Z.lor (Z.shiftl 1 24) (Z.shiftl 0xe 20).
Definition ISS_FP : Z := Z.lor (Z.shiftl 1 24) (Z.shiftl 0xe 20).

(** ISS of an MSR/MRS/SYS trap, from the encoding. *)
Definition sysreg_iss (raw : Z) : Z :=
  let f hi lo := field raw hi lo in
  Z.lor (Z.lor (Z.lor (Z.lor (Z.lor (Z.lor
    (Z.shiftl (f 20 19) 20) (Z.shiftl (f 7 5) 17)) (Z.shiftl (f 18 16) 14))
    (Z.shiftl (f 15 12) 10)) (Z.shiftl (f 4 0) 5)) (Z.shiftl (f 11 8) 1)) (f 21 21).

Section step.
Context {ST : SimdTypes} {SD : SimdDecode} {SE : SimdExec}.
Context {B E : Type} `{SysBus B} `{CpuEnv E}.

(** Instructions subject to the CPACR_EL1.FPEN trap. *)
Definition is_fp (i : Insn) : bool :=
  match i with
  | Simd _ | Mrs (Fpcr | Fpsr) _ | Msr (Fpcr | Fpsr) _ => true
  | _ => false
  end.

(** Writes that can give an alignment fault from the interpreter. *)
Definition is_store (i : Insn) : bool :=
  match i with
  | Exclusive _ false _ _ _ _ _ | StoreRelease _ _ _ => true
  | _ => false
  end.

(** The state of a step, and code that can only panic. *)
Definition sys_state : Type := Cpu * SysMem B * E.
Definition sysprog (A : Type) : Type := prog sys_state string A.

Definition sget {A} (f : Cpu -> A) : sysprog A := gets (fun s => f s.1.1).
Definition sset (f : Cpu -> Cpu) : sysprog unit := modify (fun '(c, m, e) => (f c, m, e)).

(** Synchronous exception with ELR = [preferred]. *)
Definition sync (esr : Z) (far : option Z) (preferred : Z) : sysprog SysEvent :=
  from_el ← sget (fun c => sys_el (cpu_sys c));
  sset (take_exception Sync (Some esr) far preferred);;
  mret (EvException Sync esr from_el).

(** UNDEFINED instruction at the current PC. *)
Definition undefined : sysprog SysEvent :=
  pc ← sget cpu_pc; sync (esr ec.UNKNOWN 0) None pc.

(** MSR/MRS/SYS trap to EL1. *)
Definition sysreg_trap (raw : Z) : sysprog SysEvent :=
  pc ← sget cpu_pc; sync (esr ec.SYSREG (sysreg_iss raw)) None pc.

Definition deny (d : Deny) (raw : Z) : sysprog SysEvent :=
  match d with DenyUndefined => undefined | DenyTrap => sysreg_trap raw end.

(** ESR of an abort. *)
Definition abort_esr (lower : bool) (fsc : Z) (ea : bool) (access : Access) (cm : bool) : Z :=
  let ea := Z.shiftl (b2z ea) 9 in
  match access with
  | Fetch => esr (if lower then ec.INSN_ABORT_LOWER else ec.INSN_ABORT_SAME) (Z.lor ea fsc)
  | Read | Write =>
      let wnr := Z.shiftl (b2z (bool_decide (access = Write))) 6 in
      let cm := Z.shiftl (b2z cm) 8 in
      esr (if lower then ec.DATA_ABORT_LOWER else ec.DATA_ABORT_SAME)
        (Z.lor (Z.lor (Z.lor ea cm) wnr) fsc)
  end.

(** Delivers a memory fault as an abort, or returns it as a limitation. *)
Definition deliver_fault (f : option Pending) (raw : Z) (cm : bool) : sysprog SysEvent :=
  lower ← sget (fun c => sys_el (cpu_sys c) =? 0);
  match f with
  | Some (PendAbort va fsc ea access) =>
      pc ← sget cpu_pc;
      sync (abort_esr lower fsc ea access cm) (Some va) pc
  | Some (PendUnimplemented what) => mret (EvUnimplemented raw what)
  | None => mret (EvUnimplemented raw "memory fault without details")
  end.

(** A line of the platform, read only when [unmasked] ([&&]). *)
Definition line (unmasked : bool) (read : E -> bool * E) : sysprog bool := fun '(c, m, e) =>
  if unmasked then let '(l, e) := read e in (Ok l, (c, m, e)) else (Ok false, (c, m, e)).

(** [serror_pending.take()]. *)
Definition take_serror : sysprog (option Z) :=
  p ← sget (fun c => sys_serror_pending (cpu_sys c));
  sset (set_sys (fun s => s <| sys_serror_pending := None |>));;
  mret p.

(** Unmasked FIQ, IRQ and SError, in this order. *)
Definition take_interrupt : sysprog (option SysEvent) :=
  masks ← sget (fun c => sys_daif (cpu_sys c));
  from_el ← sget (fun c => sys_el (cpu_sys c));
  pc ← sget cpu_pc;
  let deliver kind :=
    sset (take_exception kind None None pc);; mret (Some (EvException kind 0 from_el)) in
  fiq ← line (negb (test_mask masks daif.F)) env_fiq_line;
  if fiq : bool then deliver Fiq else
  irq ← line (negb (test_mask masks daif.I)) env_irq_line;
  if irq : bool then deliver Irq else
  if test_mask masks daif.A then mret None else
  pending ← take_serror;
  match pending with
  | None => mret None
  | Some iss =>
      let e := esr ec.SERROR (Z.land iss 0x1ffffff) in
      sset (take_exception SError (Some e) None pc);;
      mret (Some (EvException SError e from_el))
  end.

(** [self.pc = next], then the event. *)
Definition advance (ev : SysEvent) : sysprog (option SysEvent) :=
  sset (fun c => c <| cpu_pc := u64 (cpu_pc c + 4) |>);; mret (Some ev).

Definition some (m : sysprog SysEvent) : sysprog (option SysEvent) := ev ← m; mret (Some ev).

Definition on_bus_state (f : B -> B) : sysprog unit :=
  modify (fun '(c, m, e) => (c, m <| sm_bus ::= f |>, e)).

(** AT: the access and the level of the instruction. *)
Definition at_op (op : AtOp) : Access * Z :=
  match op with
  | S1e1r => (Read, 1) | S1e1w => (Write, 1) | S1e0r => (Read, 0) | S1e0w => (Write, 0)
  end.

Definition bus_call_at (va : Z) (access : Access) (level : Z) : sysprog AtResult :=
  fun '(c, m, e) =>
    let '(r, b) := bus_at (sm_regs m) va access level (sm_bus m) in
    (Ok r, (c, m <| sm_bus := b |>, e)).

Definition exec_sys (op : SysOp) (rt raw : Z) : sysprog (option SysEvent) :=
  xt ← sget (fun c => xr c rt);
  match op with
  | Tlbi t => on_bus_state (bus_tlbi t xt);; advance Executed
  | At a =>
      let '(access, level) := at_op a in
      r ← bus_call_at xt access level;
      match r with
      | AtPar p => sset (set_sys (fun s => s <| sys_par_el1 := p |>));; advance Executed
      | AtAbort fsc ea => some (deliver_fault (Some (PendAbort xt fsc ea Write)) raw true)
      | AtUnimplemented what => mret (Some (EvUnimplemented raw what))
      end
  | IcIall | DcIvac | DcSetWay => advance Executed
  end.

Definition exec_msr_imm (fld : PstateField) (imm raw : Z) : sysprog (option SysEvent) :=
  el ← sget (fun c => sys_el (cpu_sys c));
  sc ← sget (fun c => sys_sctlr_el1 (cpu_sys c));
  let bits := Z.shiftl (Z.land imm 0xf) 6 in
  match fld with
  | FieldSpSel =>
      if el =? 0 then some undefined
      else sset (set_el_sp el (test_mask imm 1));; advance Executed
  | FieldDaifSet =>
      if (el =? 0) && negb (test_mask sc sctlr.UMA) then some (sysreg_trap raw)
      else sset (set_sys (fun s => s <| sys_daif ::= fun d => Z.lor d bits |>));; advance Executed
  | FieldDaifClr =>
      if (el =? 0) && negb (test_mask sc sctlr.UMA) then some (sysreg_trap raw)
      else sset (set_sys (fun s => s <| sys_daif ::= fun d => Z.ldiff d bits |>));; advance Executed
  end.

Definition exec_mrs_sys (reg : SysReg) (rt raw : Z) : sysprog (option SysEvent) :=
  acc ← sget (fun c => sysreg_access c reg false);
  match acc with
  | Err d => some (deny d raw)
  | Ok _ =>
      v ← (fun '(c, m, e) => let '(r, e) := sysreg_read c reg e in (r, (c, m, e)));
      sset (set_x rt v);; advance Executed
  end.

Definition exec_msr_sys (reg : SysReg) (rt raw : Z) : sysprog (option SysEvent) :=
  acc ← sget (fun c => sysreg_access c reg true);
  match acc with
  | Err d => some (deny d raw)
  | Ok _ =>
      v ← sget (fun c => xr c rt);
      (fun '(c, m, e) =>
         let '(r, b, e) := sysreg_write reg v c (sm_bus m) e in
         let m := m <| sm_bus := b |> in
         match r with Ok c => (Ok tt, (c, m, e)) | Err p => (Err p, (c, m, e)) end);;
      advance Executed
  end.

(** The instructions with a meaning of their own in system mode; [None]: the
    instruction goes to the common interpreter. *)
Definition exec_system (insn : Insn) (raw : Z) : sysprog (option SysEvent) :=
  el ← sget (fun c => sys_el (cpu_sys c));
  sc ← sget (fun c => sys_sctlr_el1 (cpu_sys c));
  conduit ← sget (fun c => psci (sys_cfg (cpu_sys c)));
  trapped ← sget fp_trapped;
  pc ← sget cpu_pc;
  if trapped && is_fp insn then some (sync (esr ec.FP_ACCESS ISS_FP) None pc) else
  match insn with
  | Wfi =>
      if (el =? 0) && negb (test_mask sc sctlr.NTWI)
      then some (sync (esr ec.WFX ISS_WFI) None pc)
      else advance WaitForInterrupt
  | Wfe | Yield => advance EvYield
  | Hvc imm =>
      if (el =? 0) || negb (bool_decide (conduit = ConduitHvc)) then some undefined
      else advance (EvHvc imm)
  | Smc imm =>
      if (el =? 0) || negb (bool_decide (conduit = ConduitSmc)) then some undefined
      else advance (EvSmc imm)
  | Eret =>
      if el =? 0 then some undefined
      else sset exception_return;; mret (Some Executed)
  | MsrImm fld imm => exec_msr_imm fld imm raw
  | Sys op rt => if el =? 0 then some undefined else exec_sys op rt raw
  | CacheMaint =>
      if (el =? 0) && negb (test_mask sc sctlr.UCI) then some (sysreg_trap raw)
      else advance Executed
  | DcZva _ =>
      if (el =? 0) && negb (test_mask sc sctlr.DZE) then some (sysreg_trap raw) else mret None
  | Mrs reg rt => exec_mrs_sys reg rt raw
  | Msr reg rt => exec_msr_sys reg rt raw
  | _ => mret None
  end.

(** A run of the common interpreter inside a step: its stops are values. *)
Definition run_machine {A} (m : machine (SysMem B) A) : sysprog (result A Stop) := fun '(c, sm, e) =>
  let '(r, (c, sm)) := m (c, sm) in (Ok r, (c, sm, e)).

(** [mem.fault.take()]. *)
Definition take_fault : sysprog (option Pending) := fun '(c, m, e) =>
  (Ok (sm_fault m), (c, m <| sm_fault := None |>, e)).

(** The exceptions of the common interpreter. *)
Definition deliver_exception (insn : Insn) (raw pc : Z) (x : Exception) : sysprog SysEvent :=
  match x with
  | ExcUndefined _ => undefined
  | ExcUnimplemented raw what => mret (EvUnimplemented raw what)
  | ExcBreakpoint imm => sync (esr ec.BRK imm) None pc
  | ExcDataAbort _ _ | ExcInstructionAbort _ => f ← take_fault; deliver_fault f raw false
  | ExcAlignment addr =>
      let access := if is_store insn then Write else Read in
      deliver_fault (Some (PendAbort addr FSC_ALIGNMENT false access)) raw false
  | ExcSpAlignment => sync (esr ec.SP_ALIGN 0) None pc
  | ExcSvc _ | ExcPcAlignment _ => throw "not produced by the common interpreter"
  end.

(** After the fetch: illegal state, the system instructions, the common
    interpreter. *)
Definition step_insn (raw pc : Z) : sysprog SysEvent :=
  il ← sget (fun c => sys_il (cpu_sys c));
  if il : bool then sync (esr ec.ILLEGAL_STATE 0) None pc else
  let insn := decode raw in
  ev ← exec_system insn raw;
  match ev with
  | Some ev => mret ev
  | None =>
      r ← run_machine (execute insn raw);
      match r with
      | Ok target =>
          sset (fun c => c <| cpu_pc := match target with
                                        | Some t => branch_addr c t
                                        | None => u64 (pc + 4)
                                        end |>);;
          match insn with
          | Svc imm => pc' ← sget cpu_pc; sync (esr ec.SVC imm) None pc'
          | _ => mret Executed
          end
      | Err (Raise x) => deliver_exception insn raw pc x
      | Err (Panic what) => throw what
      end
  end.

(** The step once the adapter exists. *)
Definition step_mem : sysprog SysEvent :=
  pc ← sget cpu_pc;
  w ← run_machine (mem_call (mem_fetch pc));
  match w with
  | Ok raw => step_insn raw pc
  | Err _ => f ← take_fault; deliver_fault f 0 false
  end.

(** Debug builds assert the mode. *)
Definition step_system : prog (Cpu * B * E) string SysEvent := fun '(c, bus, env) =>
  if negb (bool_decide (sys_mode (cpu_sys c) = System)) then (Err "step_system in user mode", (c, bus, env)) else
  let run {A} (m : sysprog A) (c : Cpu) (bus : B) (env : E) :=
    let '(r, (c', m', env')) := m (c, sysmem_new bus (translation_regs c) (sys_el (cpu_sys c)), env) in
    (r, c', sm_bus m', env') in
  let '(r, c, bus, env) := run take_interrupt c bus env in
  match r with
  | Err p => (Err p, (c, bus, env))
  | Ok (Some ev) => (Ok ev, (c, bus, env))
  | Ok None =>
      let pc := cpu_pc c in
      let m := if negb (Z.land pc 3 =? 0) then sync (esr ec.PC_ALIGN 0) (Some pc) pc else step_mem in
      let '(r, c, bus, env) := run m c bus env in
      (r, (c, bus, env))
  end.
End step.
