(* ===== verification/SysMemWf.v ===== *)
(** * The memory adapter of system mode keeps its promises (theorems about
    SysMem)

    Over any bus that keeps the laws of [SysBus], [SysMem] discharges the laws
    of the interface [Memory], so the theorems about the interpreter hold in
    system mode; a failing access always records the details the syndrome
    needs; the fast path of [fetch] is the generic path; the page loops finish. *)

From Stdlib Require Import ZArith Lia Bool.
From stdpp Require Import base list numbers strings.
From S2P Require Import Prelude State Decode Memory SysMem.
Local Open Scope Z_scope.
Local Open Scope vetro_scope.

Definition pending_ok (o : option Pending) : Prop :=
  match o with Some (PendAbort va fsc _ _) => is_u64 va /\ is_u 6 fsc | _ => True end.

Lemma chunk_bounds va rest : 0 < rest -> 1 <= chunk va rest <= rest.
Proof.
  intros Hr. unfold chunk, SYS_PAGE. change (4096 - 1) with (2 ^ 12 - 1).
  rewrite land_ones_mod by lia. pose proof (Z.mod_pos_bound va (2 ^ 12) ltac:(lia)). lia.
Qed.

Section laws.
Context {B : Type} `{SysBusLaws B}.

Definition sm_ok (m : SysMem B) : Prop := bus_ok (sm_bus m) /\ pending_ok (sm_fault m).

(** After a failing access. *)
Definition failed {T} (s : SysMem B * T) : Prop := sm_ok s.1 /\ is_Some (sm_fault s.1).

Definition sm_inv {T} (P : T -> Prop) (s : SysMem B * T) : Prop := sm_ok s.1 /\ P s.2.

(** An operation on the bus and the captured variable. *)
Definition piece_sound {T A} (P : T -> Prop) (R : A -> Prop) (op : prog (B * T) BusFault A) : Prop :=
  triple (fun s => bus_ok s.1 /\ P s.2) op (fun a s => (bus_ok s.1 /\ P s.2) /\ R a)
    (fun f s => bus_ok s.1 /\ fsc_ok f).

Lemma on_fst_sound {T A} (P : T -> Prop) (R : A -> Prop) (op : prog B BusFault A) :
  bus_sound bus_ok R op -> piece_sound P R (on_fst op).
Proof.
  intros Hop [b t] [Hb Ht]. specialize (Hop b Hb). unfold on_fst. cbn [fst snd] in *.
  destruct (op b) as [[a|f] b']; destruct Hop; auto.
Qed.

Lemma sm_fail_sound {T A} (P : T -> Prop) va a f (Q : A -> SysMem B * T -> Prop) :
  is_u64 va -> fsc_ok f -> triple (sm_inv P) (sm_fail va a f) Q (fun _ => failed).
Proof.
  intros Hva Hf [m t] [[Hb _] _]. unfold sm_fail. cbn. split; [|by eexists].
  split; [done|]. by destruct f.
Qed.

Lemma on_bus_sound {T A} (P : T -> Prop) (R : A -> Prop) va a (op : prog (B * T) BusFault A) :
  is_u64 va -> piece_sound P R op ->
  triple (sm_inv P) (on_bus va a op) (fun x s => sm_inv P s /\ R x) (fun _ => failed).
Proof.
  intros Hva Hop [m t] [[Hb Hf] Ht]. specialize (Hop (sm_bus m, t) (conj Hb Ht)). unfold on_bus.
  destruct (op (sm_bus m, t)) as [[x|f] [b' t']]; cbn [fst snd] in *.
  - destruct Hop as [[? ?] ?]. by repeat split.
  - destruct Hop as [? ?]. unfold sm_fail. cbn. split; [|by eexists]. split; [done|]. by destruct f.
Qed.

Lemma translate_pages_sound {T} (P : T -> Prop) fuel va len off req regs :
  triple (sm_inv P) (translate_pages fuel va len off req regs) (fun _ => sm_inv P) (fun _ => failed).
Proof.
  revert off. induction fuel as [|fuel IH]; intros off; cbn [translate_pages]; [by apply triple_ret|].
  destruct (off <? len); [|by apply triple_ret].
  eapply triple_bind; [apply on_bus_sound; [apply is_u_u64|apply on_fst_sound, translate_sound, is_u_u64]|].
  intros pa. eapply triple_weaken; [apply IH|by intros s [? _]|done|done].
Qed.

Lemma access_pages_sound {T} (P : T -> Prop) fuel va len off req regs op :
  0 <= off ->
  (forall pa off n, is_u64 pa -> 0 <= off -> 0 <= n -> off + n <= len ->
     piece_sound P (fun _ => True) (op pa off n)) ->
  triple (sm_inv P) (access_pages fuel va len off req regs op) (fun _ => sm_inv P) (fun _ => failed).
Proof.
  intros Hoff Hop. revert off Hoff.
  induction fuel as [|fuel IH]; intros off Hoff; cbn [access_pages]; [by apply triple_ret|].
  destruct (Z.ltb_spec off len); [|by apply triple_ret]. cbv zeta.
  set (v := u64 (va + off)). pose proof (chunk_bounds v (len - off) ltac:(lia)).
  eapply triple_bind; [apply on_bus_sound; [apply is_u_u64|apply on_fst_sound, translate_sound, is_u_u64]|].
  intros pa s [Hs Hpa]. revert s Hs.
  eapply (triple_bind (sm_inv P)).
  - apply on_bus_sound; [apply is_u_u64|]. apply Hop; [done|lia..].
  - intros u. eapply triple_weaken; [apply IH; lia|by intros s [? _]|done|done].
Qed.

Lemma sm_access_sound {T} (P : T -> Prop) va len a priv dev op :
  is_u64 va -> 0 <= len ->
  (forall pa off n, is_u64 pa -> 0 <= off -> 0 <= n -> off + n <= len ->
     piece_sound P (fun _ => True) (op pa off n)) ->
  triple (sm_inv P) (sm_access va len a priv dev op) (fun _ => sm_inv P) (fun _ => failed).
Proof.
  intros Hva Hlen Hop [m t] Hs. unfold sm_access. destruct (_ =? 0); [done|]. cbv zeta.
  destruct (_ && _ && _ && _).
  { apply (sm_fail_sound P _ _ (BusAbort FSC_ALIGNMENT false) (fun _ => sm_inv P)); [done|by split|done]. }
  destruct (_ && _).
  { apply (sm_fail_sound P _ _ (BusUnimplemented _) (fun _ => sm_inv P)); done. }
  revert Hs. generalize (m, t). fold (sm_inv P).
  apply (triple_bind (sm_inv P) _ _ (fun _ => sm_inv P)).
  - destruct (_ <? _); [apply translate_pages_sound|by apply triple_ret].
  - intros _. apply access_pages_sound; [lia|done].
Qed.

(** ** The operations of [Memory] *)

(** What every operation guarantees: the invariant, a result in [R], and the
    details of a fault. *)
Definition op_sound {A} (R : A -> Prop) (op : prog (SysMem B) MemFault A) : Prop :=
  triple sm_ok op (fun a m => sm_ok m /\ R a) (fun _ m => sm_ok m /\ is_Some (sm_fault m)).

Lemma with_var_sound {T} (P : T -> Prop) t (p : prog (SysMem B * T) MemFault unit) :
  P t -> triple (sm_inv P) p (fun _ => sm_inv P) (fun _ => failed) -> op_sound P (with_var t p).
Proof.
  intros Ht Hp m Hm. specialize (Hp (m, t) (conj Hm Ht)). unfold with_var.
  destruct (p (m, t)) as [[u|f] [m' t']]; [by destruct Hp|]. by destruct Hp.
Qed.

Definition buf_ok (n : nat) (l : list Z) : Prop := length l = n /\ bytes_ok l.

Lemma splice_ok n off k l buf :
  0 <= off -> 0 <= k -> off + k <= Z.of_nat n -> buf_ok n buf -> buf_ok (Z.to_nat k) l ->
  buf_ok n (splice off l buf).
Proof.
  intros Hoff Hk Hle [Hlen Hb] [Hl Hbl]. unfold splice. split.
  - rewrite !length_app, length_take, length_drop. lia.
  - repeat apply Forall_app_2; [by apply Forall_take|done|by apply Forall_drop].
Qed.

Lemma read_piece_sound n pa off k :
  0 <= off -> 0 <= k -> off + k <= Z.of_nat n -> piece_sound (buf_ok n) (fun _ => True) (read_piece pa off k).
Proof.
  intros Hoff Hk Hle [b buf] [Hb Hbuf]. unfold read_piece. cbn [fst snd] in *.
  pose proof (read_phys_sound pa (Z.to_nat k) b Hb) as Hr.
  destruct (bus_read_phys pa (Z.to_nat k) b) as [[l|f] b']; [|by destruct Hr].
  destruct Hr as [Hb' Hl]. split; [|done]. split; [done|]. cbn. by eapply splice_ok.
Qed.

Lemma zeros_ok n : buf_ok n (replicate n 0).
Proof. split; [apply length_replicate|]. apply Forall_replicate. unfold is_u. lia. Qed.

Lemma read_as_sound addr n priv : is_u64 addr -> op_sound (buf_ok n) (read_as addr n priv).
Proof.
  intros Ha. apply with_var_sound; [apply zeros_ok|]. apply sm_access_sound; [done|lia|].
  intros pa off k _ Hoff Hk Hle. by apply read_piece_sound.
Qed.

Lemma write_piece_sound data pa off k :
  bytes_ok data -> piece_sound (fun _ => True) (fun _ => True) (write_piece data pa off k).
Proof.
  intros Hd. apply on_fst_sound, write_phys_sound. by apply Forall_take, Forall_drop.
Qed.

Lemma write_as_sound addr data priv :
  is_u64 addr -> bytes_ok data -> op_sound (fun _ => True) (write_as addr data priv).
Proof.
  intros Ha Hd. apply with_var_sound; [done|]. apply sm_access_sound; [done|lia|].
  intros. by apply write_piece_sound.
Qed.

Lemma cmpxchg_as_sound addr old new :
  is_u64 addr -> bytes_ok old -> bytes_ok new -> op_sound (fun _ => True) (cmpxchg_as addr old new).
Proof.
  intros Ha Ho Hn m Hm. unfold cmpxchg_as. apply (with_var_sound (fun _ => True)); [done| |done].
  apply sm_access_sound; [done|lia|]. intros pa off k _ _ _ _ [b ok] [Hb _]. unfold cmpxchg_piece.
  pose proof (cmpxchg_phys_sound pa old new Ho Hn b Hb) as Hc.
  by destruct (bus_cmpxchg_phys pa old new b) as [[r|f] b']; destruct Hc.
Qed.

Lemma zero_block_sound addr : is_u64 addr -> op_sound (fun _ => True) (sm_zero_block addr).
Proof.
  intros Ha m Hm. unfold sm_zero_block. apply (with_var_sound (fun _ => True)); [done| |done].
  apply sm_access_sound; [done|lia|]. intros. apply write_piece_sound. apply zeros_ok.
Qed.

Lemma fetch_word_bound l : buf_ok 4 l -> is_u32 (from_le l).
Proof. intros [Hl Hb]. pose proof (from_le_bound l Hb) as Hu. by rewrite Hl in Hu. Qed.

Lemma fetch_sound addr : is_u64 addr -> op_sound is_u32 (sm_fetch addr).
Proof.
  intros Ha m [Hb Hf]. unfold sm_fetch. destruct (_ =? 0).
  - pose proof (translate_sound (sm_regs m) addr (MkAccessReq Fetch (sm_el m) true) Ha _ Hb) as Ht.
    destruct (bus_translate _ _ _ _) as [[pa|f] b1]; destruct Ht as [Hb1 Hr].
    2: { split; [split; [done|]|by eexists]. by destruct f. }
    pose proof (read_phys_sound pa 4 b1 Hb1) as Hrd.
    destruct (bus_read_phys pa 4 b1) as [[w|f] b2]; destruct Hrd as [Hb2 Hr2].
    + split; [by split|]. by apply fetch_word_bound.
    + split; [split; [done|]|by eexists]. by destruct f.
  - assert (op_sound (buf_ok 4)
      (with_var (replicate 4 0) (sm_access addr 4 Fetch (sm_el m) false read_piece))) as Hop.
    { apply with_var_sound; [apply zeros_ok|]. apply sm_access_sound; [done|lia|].
      intros pa off k _ Hoff Hk Hle. by apply read_piece_sound. }
    specialize (Hop m (conj Hb Hf)). destruct (with_var _ _ m) as [[w|f] m']; [|done].
    destruct Hop. split; [done|]. by apply fetch_word_bound.
Qed.

Lemma op_sound_keeps {A} (R : A -> Prop) op m : op_sound R op -> sm_ok m -> sm_ok (op m).2.
Proof. intros Hop Hm. specialize (Hop m Hm). by destruct (op m) as [[a|f] m']; destruct Hop. Qed.

Lemma op_sound_result {A} (R : A -> Prop) op m a m' :
  op_sound R op -> sm_ok m -> op m = (Ok a, m') -> R a.
Proof. intros Hop Hm He. specialize (Hop m Hm). rewrite He in Hop. by destruct Hop. Qed.

(** [SysMem] discharges the laws of [Memory]. *)
#[export] Program Instance SysMem_laws : MemoryLaws (SysMem B) := {| mem_ok := sm_ok |}.
Next Obligation. intros. change (sm_ok (read_as a n (sm_el m) m).2). eapply op_sound_keeps; [apply read_as_sound; assumption|assumption]. Qed.
Next Obligation. intros. change (sm_ok (write_as a d (sm_el m) m).2). eapply op_sound_keeps; [apply write_as_sound; assumption|assumption]. Qed.
Next Obligation. intros. change (sm_ok (sm_fetch a m).2). eapply op_sound_keeps; [apply fetch_sound; assumption|assumption]. Qed.
Next Obligation. intros. change (sm_ok (read_as a n 0 m).2). eapply op_sound_keeps; [apply read_as_sound; assumption|assumption]. Qed.
Next Obligation. intros. change (sm_ok (write_as a d 0 m).2). eapply op_sound_keeps; [apply write_as_sound; assumption|assumption]. Qed.
Next Obligation. intros. change (sm_ok (sm_zero_block a m).2). eapply op_sound_keeps; [apply zero_block_sound; assumption|assumption]. Qed.
Next Obligation. intros. change (sm_ok (cmpxchg_as a old new m).2). eapply op_sound_keeps; [apply cmpxchg_as_sound; assumption|assumption]. Qed.
Next Obligation.
  intros a n m l m' Ha Hm Hr.
  by apply (op_sound_result (buf_ok n) (read_as a n (sm_el m)) m l m' (read_as_sound a n _ Ha) Hm).
Qed.
Next Obligation.
  intros a n m l m' Ha Hm Hr.
  by apply (op_sound_result (buf_ok n) (read_as a n 0) m l m' (read_as_sound a n _ Ha) Hm).
Qed.
Next Obligation.
  intros a m w m' Ha Hm Hr. by apply (op_sound_result is_u32 (sm_fetch a) m w m' (fetch_sound a Ha) Hm).
Qed.
End laws.

(** ** The page loops finish, and the fast path of [fetch] *)

Section loops.
Context {B : Type} `{SysBusLaws B}.

(** More iterations than there are bytes left change nothing. *)
Lemma access_pages_fuel {T} fuel va len off req regs (op : Z -> Z -> Z -> prog (B * T) BusFault unit) s :
  len - off <= Z.of_nat fuel ->
  access_pages (S fuel) va len off req regs op s = access_pages fuel va len off req regs op s.
Proof.
  revert off s. induction fuel as [|fuel IH]; intros off s Hf.
  { cbn [access_pages]. destruct (Z.ltb_spec off len); [lia|done]. }
  cbn [access_pages]. destruct (Z.ltb_spec off len) as [Hlt|]; [|done]. cbv zeta.
  set (v := u64 (va + off)). pose proof (chunk_bounds v (len - off) ltac:(lia)).
  unfold mbind, prog_bind. destruct (on_bus _ _ (on_fst _) s) as [[pa|e] s1]; [|done].
  destruct (on_bus _ _ (op _ _ _) s1) as [[u|e] s2]; [|done].
  specialize (IH (off + chunk v (len - off)) s2 ltac:(lia)). cbn [access_pages] in IH. exact IH.
Qed.

(** [fetch] without the fast path. *)
Definition fetch_generic (addr : Z) : prog (SysMem B) MemFault Z := fun m =>
  match with_var (replicate 4 0) (sm_access addr 4 Fetch (sm_el m) false read_piece) m with
  | (Ok w, m) => (Ok (from_le w), m)
  | (Err f, m) => (Err f, m)
  end.

Lemma aligned_chunk addr : is_u64 addr -> Z.land addr 3 = 0 -> chunk addr 4 = 4 /\ addr mod 4 = 0.
Proof.
  intros Ha H3. change 3 with (2 ^ 2 - 1) in H3. rewrite land_ones_mod in H3 by lia.
  change (2 ^ 2) with 4 in H3. unfold chunk, SYS_PAGE. change (4096 - 1) with (2 ^ 12 - 1).
  rewrite land_ones_mod by lia. change (2 ^ 12) with 4096.
  pose proof (Z.mod_pos_bound addr 4096 ltac:(lia)).
  assert (addr mod 4096 mod 4 = 0) as Hm.
  { change 4096 with (4 * 1024). rewrite Z.rem_mul_r by lia.
    rewrite Z.mul_comm, Z.mod_add, Z.mod_mod by lia. done. }
  split; [|done]. pose proof (Z.div_mod (addr mod 4096) 4 ltac:(lia)). lia.
Qed.

Lemma fetch_generic_eq addr m :
  sm_ok m -> is_u64 addr -> Z.land addr 3 = 0 -> sm_fetch addr m = fetch_generic addr m.
Proof.
  intros [Hb Hf] Ha H3. destruct (aligned_chunk addr Ha H3) as [Hc Hm].
  unfold sm_fetch, fetch_generic. rewrite H3. cbn [Z.eqb].
  unfold with_var, sm_access. change (4 =? 0) with false. cbn iota. cbv zeta.
  rewrite Hm, Hc. change (bool_decide (Fetch = Fetch)) with true. cbn [negb andb].
  change (0 =? 0) with true. change (4 <? 4) with false. change (Z.to_nat 4) with 4%nat.
  unfold mbind, prog_bind, mret, prog_ret. cbn [access_pages].
  change (0 <? 4) with true. cbn iota. rewrite Z.add_0_r, (u64_id addr Ha), Z.sub_0_r, Hc.
  unfold mbind, prog_bind, on_bus, on_fst. cbn [sm_bus req_access].
  pose proof (translate_sound (sm_regs m) addr (MkAccessReq Fetch (sm_el m) true) Ha _ Hb) as Ht.
  destruct (bus_translate _ _ _ _) as [[pa|f] b1]; [|done]. destruct Ht as [Hb1 _].
  unfold read_piece. change (sm_bus (m <| sm_bus := b1 |>)) with b1. change (Z.to_nat 4) with 4%nat.
  pose proof (read_phys_sound pa 4 b1 Hb1) as Hr.
  destruct (bus_read_phys pa 4 b1) as [[w|f] b2]; [|done]. destruct Hr as [_ [Hw _]].
  destruct w as [|w0 [|w1 [|w2 [|w3 [|]]]]]; try discriminate Hw. done.
Qed.

(** The fast path of [fetch] (one translation, one read of a word) gives the
    word, the fault, its details and the bus that the generic page loop gives,
    for every aligned address over a bus that keeps its laws. *)
Theorem fetch_fast_path addr m :
  sm_ok m -> is_u64 addr -> Z.land addr 3 = 0 -> sm_fetch addr m = fetch_generic addr m.
Proof. apply fetch_generic_eq. Qed.

(** A memory access of system mode, over a bus that keeps its laws, returns
    the bytes asked for or fails; when it fails the details for ESR_EL1 and
    FAR_EL1 are there, with an address of 64 bits and a status code of six; and
    the page loop never stops for lack of iterations. *)
Theorem access_faults_have_details addr n priv m :
  sm_ok m -> is_u64 addr ->
  match read_as addr n priv m with
  | (Ok l, m') => length l = n /\ bytes_ok l /\ sm_ok m'
  | (Err _, m') => sm_ok m' /\ exists p, sm_fault m' = Some p /\ pending_ok (Some p)
  end /\
  forall req regs extra s,
    access_pages (extra + n) addr (Z.of_nat n) 0 req regs read_piece s =
    access_pages n addr (Z.of_nat n) 0 req regs (B:=B) read_piece s.
Proof.
  intros Hm Ha. split.
  - pose proof (read_as_sound addr n priv Ha m Hm) as Hr.
    destruct (read_as addr n priv m) as [[l|f] m']; [by destruct Hr as [? [? ?]]|].
    destruct Hr as [[Hb Hp] [p Hf]]. split; [by split|]. exists p. by rewrite Hf in Hp.
  - intros req regs extra s. induction extra as [|extra IH]; [done|].
    rewrite <- IH. apply access_pages_fuel. lia.
Qed.
End loops.
