(* ===== verification/SysSafe.v ===== *)
(** * System mode keeps the CPU well formed and never panics (theorems about
    SysAccess and SysStep)

    One step of system mode, over a bus and a platform that keep their laws,
    from a well-formed CPU: the access checks exclude every [unreachable!] of
    the register file, the interpreter's exceptions are the ones the delivery
    expects, and the CPU, PSTATE and the bus stay well formed. *)

From Stdlib Require Import ZArith Lia Bool.
From stdpp Require Import base list numbers strings.
From S2P Require Import Prelude Bits SysReg State Decode DecodeWf Memory Exec ExecWf ExecFrame SysMem Except SysAccess SysStep SysMemWf.
Local Open Scope Z_scope.
Local Open Scope vetro_scope.

(** ** The register file *)

Lemma sys_regs_u64 s x :
  sys_wf s -> x ∈ [sys_sctlr_el1 s; sys_tcr_el1 s; sys_ttbr0_el1 s; sys_ttbr1_el1 s;
    sys_mair_el1 s; sys_contextidr_el1 s; sys_cpacr_el1 s; sys_tpidr_el1 s; sys_par_el1 s;
    sys_cntkctl_el1 s; sys_csselr_el1 s; sys_mdscr_el1 s; sys_osdlr_el1 s;
    sys_pmuserenr_el0 s] -> is_u64 x.
Proof. intros Hs Hx. pose proof (wf_regs _ Hs) as Hall. rewrite list.Forall_forall in Hall. by apply Hall. Qed.

Lemma index_ok (l : list Z) n k :
  length l = k /\ Forall is_u64 l -> 0 <= n < Z.of_nat k -> exists v, index l n = Ok v /\ is_u64 v.
Proof.
  intros [Hl Hall] Hn. unfold index.
  destruct (lookup_lt_is_Some_2 l (Z.to_nat n)) as [v Hv]; [lia|]. rewrite Hv. exists v. split; [done|].
  by eapply Forall_lookup_1.
Qed.

Lemma masked_bound v m : Z.land v m = v -> 0 <= v -> is_u64 m -> is_u64 v.
Proof. intros Hv Hv0 Hm. rewrite <- Hv. by apply is_u_land_r. Qed.

Lemma sp_el_u64 c n : cpu_wf c -> n = 0 \/ n = 1 -> is_u64 (sp_el c n).
Proof.
  intros Hwf Hn. unfold sp_el. destruct (_ =? _); [apply (wf_sp _ Hwf)|].
  destruct (wf_sp_el _ (wf_sys _ Hwf)) as [Hlen Hall].
  eapply Forall_lookup_total_1; [done|]. destruct Hn as [-> | ->]; simpl; lia.
Qed.

Lemma id_reg_u64 i g : is_u64 (id.id_reg i g).
Proof.
  destruct (decide (0 <= i < 64)) as [Hi|Hi].
  - assert (forall_below 64 (fun i => (0 <=? id.id_reg i true) && (id.id_reg i true <? 2 ^ 64) &&
      (0 <=? id.id_reg i false) && (id.id_reg i false <? 2 ^ 64)) = true) as Hall by (vm_compute; reflexivity).
    pose proof (forall_below_spec _ _ Hall i Hi) as H. cbv beta in H. unfold is_u. destruct g; lia.
  - assert (id.id_reg i g = 0) as ->; [|unfold is_u; lia].
    destruct i as [|p|p]; [lia| |done]. do 6 (destruct p as [p|p|]; try done; try lia).
Qed.

Lemma fp_u64 c : cpu_wf c -> is_u64 (cpu_nzcv c) /\ is_u64 (cpu_fpcr c) /\ is_u64 (cpu_fpsr c).
Proof.
  intros Hwf. split_and!.
  - destruct (wf_nzcv _ Hwf). apply (masked_bound _ 0xf0000000); [done|done|literal].
  - apply (masked_bound _ FPCR_MASK); [apply (wf_fpcr _ Hwf)| |literal].
    rewrite <- (wf_fpcr _ Hwf). apply Z.land_nonneg. right. by unfold FPCR_MASK.
  - apply (masked_bound _ FPSR_MASK); [apply (wf_fpsr _ Hwf)| |literal].
    rewrite <- (wf_fpsr _ Hwf). apply Z.land_nonneg. right. by unfold FPSR_MASK.
Qed.

(** One of the 64-bit registers of EL1. *)
Ltac el1_register Hs :=
  solve [apply (sys_regs_u64 _ _ Hs); repeat first [apply list_elem_of_here | apply list_elem_of_further]].

Lemma sysreg_value_ok c reg :
  cpu_wf c -> reg_ok reg = true -> sysreg_access c reg false = Ok tt ->
  match reg with IsrEl1 | Env _ => True | _ => exists v, sysreg_value c reg = Ok v /\ is_u64 v end.
Proof.
  intros Hwf Hreg Hacc. pose proof (wf_sys _ Hwf) as Hs. destruct (fp_u64 c Hwf) as (Hn & Hfc & Hfs).
  destruct reg; try done; cbn [sysreg_value];
    try (eexists; split; [reflexivity|];
         tryif match goal with |- context [c] => idtac end
         then first [assumption|el1_register Hs] else literal).
  - eexists; split; [reflexivity|]. apply (wf_tpidr _ Hwf).
  - eexists; split; [reflexivity|]. apply (wf_tpidrro _ Hwf).
  - eexists; split; [reflexivity|]. destruct (_ && _); literal.
  - eexists; split; [reflexivity|]. destruct (wf_daif _ Hs). apply (masked_bound _ daif.ALL); [done|done|literal].
  - eexists; split; [reflexivity|]. destruct (wf_el _ Hs) as [-> | ->]; literal.
  - eexists; split; [reflexivity|]. destruct (sys_spsel _); literal.
  - eexists; split; [reflexivity|]. apply sp_el_u64; auto.
  - eexists; split; [reflexivity|]. apply (wf_elr _ Hs).
  - eexists; split; [reflexivity|]. apply (wf_spsr _ Hs).
  - eexists; split; [reflexivity|]. apply (wf_vbar _ Hs).
  - eexists; split; [reflexivity|]. apply (wf_esr _ Hs).
  - eexists; split; [reflexivity|]. apply (wf_far _ Hs).
  - eexists; split; [reflexivity|]. apply (wf_cfg _ Hs).
  - eexists; split; [reflexivity|].
    destruct (Z.to_nat _) as [|[|[|]]]; literal.
  - eexists; split; [reflexivity|]. apply id_reg_u64.
  - eexists; split; [reflexivity|]. destruct (sys_oslk _); literal.
  - apply (index_ok _ _ 6); [apply (wf_dbgbvr _ Hs)|]. cbn in Hreg. lia.
  - apply (index_ok _ _ 6); [apply (wf_dbgbcr _ Hs)|]. cbn in Hreg. lia.
  - apply (index_ok _ _ 4); [apply (wf_dbgwvr _ Hs)|]. cbn in Hreg. lia.
  - apply (index_ok _ _ 4); [apply (wf_dbgwcr _ Hs)|]. cbn in Hreg. lia.
  - eexists; split; [reflexivity|]. eapply is_u_weaken; [apply (wf_dbgclaim _ Hs)|lia].
  - eexists; split; [reflexivity|]. apply (wf_cfg _ Hs).
Qed.

Lemma is_u_ldiff w x y : 0 <= w -> is_u w x -> is_u w (Z.ldiff x y).
Proof.
  intros Hw Hx. apply is_u_bits; [done|apply Z.ldiff_nonneg; left; apply Hx|].
  intros i Hi. by rewrite Z.ldiff_spec, (testbit_high w x i).
Qed.

Lemma set_index_ok n v l k :
  is_u64 v -> length l = k /\ Forall is_u64 l -> length (set_index n v l) = k /\ Forall is_u64 (set_index n v l).
Proof. intros Hv [Hl Hall]. unfold set_index. rewrite length_insert. split; [done|]. by apply Forall_insert. Qed.

(** The registers of [wf_regs] after one of them was written. *)
Ltac el1_registers :=
  repeat match goal with H : Forall is_u64 (_ :: _) |- _ => apply Forall_cons in H as [? H] end;
  repeat apply Forall_cons_2;
  first [assumption | apply Forall_nil_2 | apply is_u_ldiff; [lia|assumption]
        | apply is_u_land; [lia|assumption|lia]].

Lemma sysreg_set_ok c reg v :
  cpu_wf c -> pstate_ok (cpu_sys c) -> reg_ok reg = true -> is_u64 v ->
  sysreg_access c reg true = Ok tt ->
  exists c', sysreg_set reg v c = Ok c' /\ cpu_wf c' /\ pstate_ok (cpu_sys c').
Proof.
  intros Hwf Hps Hreg Hv Hacc. pose proof (wf_sys _ Hwf) as Hs.
  assert (forall f, sys_wf (f (cpu_sys c)) -> sys_el (f (cpu_sys c)) = sys_el (cpu_sys c) ->
    sys_spsel (f (cpu_sys c)) = sys_spsel (cpu_sys c) ->
    cpu_wf (set_sys f c) /\ pstate_ok (cpu_sys (set_sys f c))) as Hset.
  { intros f Hf He Hsp. split; [by apply set_sys_wf|]. unfold pstate_ok, set_sys. cbn. by rewrite He, Hsp. }
  destruct reg; try discriminate Hacc; cbn [sysreg_set];
       try (lazymatch goal with |- exists c', Ok ?x = Ok c' /\ _ => exists x; split; [reflexivity|] end;
            lazymatch goal with
            | |- cpu_wf c /\ _ => split; assumption
            | |- cpu_wf (set_sys _ c) /\ _ => apply Hset; [|reflexivity|reflexivity]
            end; destruct Hs; constructor; first [assumption | el1_registers]).
  - eexists; split; [reflexivity|]. split; [|done]. apply set_nzcv_wf; [done|].
    split; [apply land_mask_idem|]. apply Z.land_nonneg. right. lia.
  - eexists; split; [reflexivity|]. split; [|done]. destruct Hwf. by constructor.
  - eexists; split; [reflexivity|]. split; [|done]. destruct Hwf. by constructor.
  - eexists; split; [reflexivity|]. split; [|done]. destruct Hwf. constructor; try done. apply land_mask_idem.
  - eexists; split; [reflexivity|]. split; [|done]. destruct Hwf. constructor; try done. apply land_mask_idem.
  - eexists; split; [reflexivity|]. apply Hset; [|reflexivity|reflexivity].
    destruct Hs; constructor; try assumption.
    split; [apply land_mask_idem|]. apply Z.land_nonneg. left. apply is_u_u32.
  - eexists; split; [reflexivity|].
    assert (sys_el (cpu_sys c) = 1) as He.
    { unfold sysreg_access in Hacc. cbn in Hacc. destruct (Z.eqb_spec (sys_el (cpu_sys c)) 1); [done|].
      discriminate Hacc. }
    split; [apply set_el_sp_wf; [done|by right]|].
    unfold pstate_ok. destruct (set_el_sp_state (sys_el (cpu_sys c)) (test_mask v 1) c) as (-> & _ & _). lia.
  - eexists; split; [reflexivity|]. unfold set_sp_el. destruct (_ =? _).
    + split; [|done]. destruct Hwf. by constructor.
    + apply Hset; [|reflexivity|reflexivity]. destruct Hs; constructor; try assumption.
      destruct wf_sp_el as [Hl Hall]. cbn. rewrite length_insert. split; [done|]. by apply Forall_insert.
  - rewrite (proj2 (Nat.ltb_lt _ _)) by (destruct (wf_dbgbvr _ Hs) as [-> _]; cbn in Hreg; lia).
    eexists; split; [reflexivity|]. apply Hset; [|reflexivity|reflexivity].
    destruct Hs; constructor; try assumption. by apply set_index_ok.
  - rewrite (proj2 (Nat.ltb_lt _ _)) by (destruct (wf_dbgbcr _ Hs) as [-> _]; cbn in Hreg; lia).
    eexists; split; [reflexivity|]. apply Hset; [|reflexivity|reflexivity].
    destruct Hs; constructor; try assumption. by apply set_index_ok.
  - rewrite (proj2 (Nat.ltb_lt _ _)) by (destruct (wf_dbgwvr _ Hs) as [-> _]; cbn in Hreg; lia).
    eexists; split; [reflexivity|]. apply Hset; [|reflexivity|reflexivity].
    destruct Hs; constructor; try assumption. apply set_index_ok; [by apply is_u_ldiff|done].
  - rewrite (proj2 (Nat.ltb_lt _ _)) by (destruct (wf_dbgwcr _ Hs) as [-> _]; cbn in Hreg; lia).
    eexists; split; [reflexivity|]. apply Hset; [|reflexivity|reflexivity].
    destruct Hs; constructor; try assumption. by apply set_index_ok.
  - eexists; split; [reflexivity|]. apply Hset; [|reflexivity|reflexivity].
    destruct Hs; constructor; try assumption. apply is_u_lor; [lia|done|apply is_u_u8].
Qed.

(** After the access check of the current level, reading or writing a system
    register that the decoder can name never reaches an [unreachable!] nor an
    index out of range; a read gives 64 bits, and a write keeps the CPU well
    formed and EL0 on its own stack pointer. *)
Theorem sysreg_check_sound c reg v :
  cpu_wf c -> pstate_ok (cpu_sys c) -> reg_ok reg = true -> is_u64 v ->
  (sysreg_access c reg false = Ok tt ->
   match reg with
   | IsrEl1 | Env _ => True
   | _ => exists x, sysreg_value c reg = Ok x /\ is_u64 x
   end) /\
  (sysreg_access c reg true = Ok tt ->
   exists c', sysreg_set reg v c = Ok c' /\ cpu_wf c' /\ pstate_ok (cpu_sys c')).
Proof.
  intros Hwf Hps Hreg Hv. split; intros Hacc; [by apply sysreg_value_ok|by apply sysreg_set_ok].
Qed.

Lemma sysreg_check_sound_witness :
  sysreg_access el0_cpu DczidEl0 false = Ok tt /\ sysreg_access el0_cpu TpidrEl0 true = Ok tt /\
  exists c', sysreg_set TpidrEl0 5 el0_cpu = Ok c' /\ cpu_wf c' /\ pstate_ok (cpu_sys c').
Proof.
  split; [reflexivity|]. split; [reflexivity|]. destruct el0_cpu_wf as [Hwf Hps].
  exact (proj2 (sysreg_check_sound el0_cpu TpidrEl0 5 Hwf Hps eq_refl ltac:(literal)) eq_refl).
Defined.

(** ** Every failing access of [SysMem] records its details

    Whatever the bus does. *)

Section details.
Context {B : Type} `{SysBus B}.

Definition has_fault {T} (_ : MemFault) (s : SysMem B * T) : Prop := is_Some (sm_fault s.1).

Lemma on_bus_errs {T A} va a (op : prog (B * T) BusFault A) : errs has_fault (on_bus va a op).
Proof.
  intros [m t] e [m' t'] He. unfold on_bus in He. destruct (op _) as [[x|f] [b t1]]; [done|].
  injection He as _ <- _. by eexists.
Qed.

Lemma translate_pages_errs {T} fuel va len off req regs :
  errs has_fault (translate_pages (T:=T) fuel va len off req regs).
Proof.
  revert off. induction fuel as [|fuel IH]; intros off; cbn [translate_pages].
  - apply errs_total, total_ret.
  - destruct (_ <? _); [|apply errs_total, total_ret]. apply errs_bind; [apply on_bus_errs|]. intros. apply IH.
Qed.

Lemma access_pages_errs {T} fuel va len off req regs (op : Z -> Z -> Z -> prog (B * T) BusFault unit) :
  errs has_fault (access_pages fuel va len off req regs op).
Proof.
  revert off. induction fuel as [|fuel IH]; intros off; cbn [access_pages].
  - apply errs_total, total_ret.
  - destruct (_ <? _); [|apply errs_total, total_ret]. cbv zeta.
    apply errs_bind; [apply on_bus_errs|]. intros pa. apply errs_bind; [apply on_bus_errs|]. intros. apply IH.
Qed.

Lemma sm_access_errs {T} va len a priv dev (op : Z -> Z -> Z -> prog (B * T) BusFault unit) :
  errs has_fault (sm_access va len a priv dev op).
Proof.
  intros [m t] e [m' t'] He. unfold sm_access in He. destruct (len =? 0); [done|]. cbv zeta in He.
  destruct (_ && _ && _ && _); [injection He as _ <- _; by eexists|].
  destruct (_ && _); [injection He as _ <- _; by eexists|].
  revert He. apply errs_bind; [|intros; apply access_pages_errs].
  destruct (_ <? _); [apply translate_pages_errs|apply errs_total, total_ret].
Qed.

Lemma with_var_errs {T} (t : T) p :
  errs has_fault p -> errs (fun _ m => is_Some (sm_fault m)) (with_var (B:=B) t p).
Proof.
  intros Hp m e m' He. unfold with_var in He. destruct (p (m, t)) as [[u|f] [m1 t1]] eqn:Ep; [done|].
  injection He as <- <-. apply (Hp _ _ _ Ep).
Qed.

(** An abort that the interpreter raises in system mode has its details. *)
Definition detailed (st : Stop) (s : Cpu * SysMem B) : Prop :=
  match st with
  | Raise (ExcDataAbort _ _ | ExcInstructionAbort _) => is_Some (sm_fault s.2)
  | Raise (ExcSvc _ | ExcPcAlignment _) => False
  | _ => True
  end.

(** The exceptions the delivery of system mode expects. *)
Definition detailed_kind (x : Exception) : bool :=
  match x with ExcSvc _ | ExcPcAlignment _ => false | _ => true end.

Lemma mem_call_detailed {A} (op : prog (SysMem B) MemFault A) :
  errs (fun _ m => is_Some (sm_fault m)) op -> errs detailed (mem_call op).
Proof.
  intros Hop [c m] e s' He. unfold mem_call in He. cbn [snd] in He.
  destruct (op m) as [[x|f] m'] eqn:Eo; [done|]. injection He as <- <-.
  pose proof (Hop _ _ _ Eo). unfold from_mem_fault. by destruct (fault_access f).
Qed.

Lemma read_as_errs addr n priv : errs (fun _ m => is_Some (sm_fault m)) (read_as (B:=B) addr n priv).
Proof. apply with_var_errs, sm_access_errs. Qed.

Lemma write_as_errs addr d priv : errs (fun _ m => is_Some (sm_fault m)) (write_as (B:=B) addr d priv).
Proof. apply with_var_errs, sm_access_errs. Qed.

Lemma zero_block_errs addr : errs (fun _ m => is_Some (sm_fault m)) (sm_zero_block (B:=B) addr).
Proof. intros m e m' He. unfold sm_zero_block in He. revert He. apply with_var_errs, sm_access_errs. Qed.

Lemma cmpxchg_as_errs addr o n : errs (fun _ m => is_Some (sm_fault m)) (cmpxchg_as (B:=B) addr o n).
Proof. intros m e m' He. unfold cmpxchg_as in He. revert He. apply with_var_errs, sm_access_errs. Qed.

Lemma sm_fetch_errs addr : errs (fun _ m => is_Some (sm_fault m)) (sm_fetch (B:=B) addr).
Proof.
  intros m e m' He. unfold sm_fetch in He. destruct (_ =? 0).
  - destruct (bus_translate _ _ _ _) as [[pa|f] b]; [|injection He as _ <-; by eexists].
    destruct (bus_read_phys _ _ _) as [[w|f] b2]; [done|injection He as _ <-; by eexists].
  - destruct (with_var _ _ m) as [[w|f] m1] eqn:Ew; [done|]. injection He as _ <-.
    revert Ew. apply with_var_errs, sm_access_errs.
Qed.

Lemma execute_detailed {ST : SimdTypes} {SD : SimdDecode} {SE : SimdExec} i raw :
  errs detailed (execute (M:=SysMem B) i raw).
Proof.
  apply execute_errs.
  - intros [[]|] s Hst; done.
  - intros a n. apply mem_call_detailed. intros m e m' He. exact (read_as_errs a n (sm_el m) m e m' He).
  - intros a d. apply mem_call_detailed. intros m e m' He. exact (write_as_errs a d (sm_el m) m e m' He).
  - intros a n. apply mem_call_detailed. exact (read_as_errs a n 0).
  - intros a d. apply mem_call_detailed. exact (write_as_errs a d 0).
  - intros a. apply mem_call_detailed. exact (zero_block_errs a).
  - intros a o n. apply mem_call_detailed. exact (cmpxchg_as_errs a o n).
Qed.
End details.

(** ** The step *)

Section calm.
Context {ST : SimdTypes} {SD : SimdDecode} {SE : SimdExec} {SEL : SimdExecLaws}.
Context {B E : Type} `{SysBusLaws B} `{CpuEnvLaws E}.

Abbreviation SP := (sysprog (B:=B) (E:=E)).

Definition sys_inv (s : sys_state (B:=B) (E:=E)) : Prop :=
  cpu_wf s.1.1 /\ pstate_ok (cpu_sys s.1.1) /\ sm_ok s.1.2.

(** Runs that keep the invariant, with a result in [R], and do not panic. *)
Definition calm {A} (R : A -> Prop) (m : SP A) : Prop :=
  triple sys_inv m (fun a s => sys_inv s /\ R a) (fun _ _ => False).

Abbreviation any := (fun _ => True).

Lemma calm_ret {A} (R : A -> Prop) a : R a -> calm R (mret a).
Proof. intros Ha. by apply triple_ret. Qed.

Lemma calm_bind {A C} (R1 : A -> Prop) (R2 : C -> Prop) (m : SP A) (k : A -> SP C) :
  calm R1 m -> (forall a, R1 a -> calm R2 (k a)) -> calm R2 (mbind k m).
Proof. intros Hm Hk. eapply triple_bind; [exact Hm|]. intros a s [Hs Ha]. by apply (Hk a Ha). Qed.

Lemma calm_get {A} (R : A -> Prop) f :
  (forall c, cpu_wf c -> pstate_ok (cpu_sys c) -> R (f c)) -> calm R (sget f).
Proof. intros Hf. apply triple_gets. intros [[c m] e] (Hc & Hp & Hm). split; [done|]. by apply Hf. Qed.

Lemma calm_any {A} (f : Cpu -> A) : calm any (sget f).
Proof. by apply calm_get. Qed.

Lemma calm_set f :
  (forall c, cpu_wf c -> pstate_ok (cpu_sys c) -> cpu_wf (f c) /\ pstate_ok (cpu_sys (f c))) ->
  calm any (sset f).
Proof.
  intros Hf. apply triple_modify. intros [[c m] e] (Hc & Hp & Hm). split; [|done].
  destruct (Hf c Hc Hp). by split.
Qed.

Lemma calm_weaken {A} (R R' : A -> Prop) (m : SP A) : calm R m -> (forall a, R a -> R' a) -> calm R' m.
Proof. intros Hm HR. eapply triple_weaken; [exact Hm|done| |done]. intros a s [??]. auto. Qed.

Lemma esr_u64 class iss : is_u 6 class -> is_u 25 iss -> is_u64 (esr class iss).
Proof.
  intros Hc Hi. unfold esr, IL. apply (is_u_weaken 32); [|lia]. repeat apply is_u_lor; try lia.
  - apply (is_u_shiftl 6 class 26); done || lia.
  - literal.
  - apply (is_u_weaken 25); [done|lia].
Qed.

Lemma calm_pc : calm is_u64 (sget cpu_pc).
Proof. apply calm_get. intros c Hc _. apply (wf_pc _ Hc). Qed.

Lemma calm_sync e far p :
  is_u64 e -> opt_u64 far -> is_u64 p -> calm any (sync (B:=B) (E:=E) e far p).
Proof.
  intros He Hf Hp. unfold sync. eapply calm_bind; [apply calm_any|intros el _].
  eapply calm_bind; [|intros; by apply calm_ret]. apply calm_set. intros c Hc _. by apply take_exception_ok.
Qed.

Lemma calm_undefined : calm any (undefined (B:=B) (E:=E)).
Proof.
  unfold undefined. eapply calm_bind; [apply calm_pc|]. intros pc Hpc. apply calm_sync; [literal|done|done].
Qed.

Lemma field_shift raw hi lo k n :
  0 <= lo <= hi -> hi < 32 -> 0 <= k -> hi - lo + 1 + k <= n -> is_u n (Z.shiftl (field raw hi lo) k).
Proof.
  intros. apply (is_u_weaken (hi - lo + 1 + k)); [|done]. apply is_u_shiftl; [lia|lia|]. by apply field_bound.
Qed.

Lemma sysreg_iss_bound raw : is_u 25 (sysreg_iss raw).
Proof.
  unfold sysreg_iss. cbv zeta. repeat apply is_u_lor; try lia; try (apply field_shift; lia).
  apply (is_u_weaken (21 - 21 + 1)); [|lia]. apply field_bound; lia.
Qed.

Lemma calm_sysreg_trap raw : calm any (sysreg_trap (B:=B) (E:=E) raw).
Proof.
  unfold sysreg_trap. eapply calm_bind; [apply calm_pc|]. intros pc Hpc.
  apply calm_sync; [|done|done]. apply esr_u64; [literal|apply sysreg_iss_bound].
Qed.

Lemma calm_deny d raw : calm any (deny (B:=B) (E:=E) d raw).
Proof. destruct d; [apply calm_undefined|apply calm_sysreg_trap]. Qed.

Lemma abort_esr_u64 lower fsc ea a cm : is_u 6 fsc -> is_u64 (abort_esr lower fsc ea a cm).
Proof.
  intros Hf. assert (is_u 25 fsc) as Hf' by (apply (is_u_weaken 6); [done|lia]).
  assert (forall (b : bool) k, 0 <= k < 25 -> is_u 25 (Z.shiftl (b2z b) k)) as Hbit.
  { intros b k Hk. apply (is_u_weaken (1 + k)); [|lia]. apply is_u_shiftl; [lia|lia|]. by apply is_u_b2z. }
  assert (forall x y, is_u 25 x -> is_u 25 y -> is_u 25 (Z.lor x y)) as Hlor by (intros; by apply is_u_lor).
  destruct a; cbn [abort_esr]; (apply esr_u64; [destruct lower; literal|]).
  - apply Hlor; [apply Hlor; [apply Hlor|]|exact Hf']; apply Hbit; lia.
  - apply Hlor; [apply Hlor; [apply Hlor|]|exact Hf']; apply Hbit; lia.
  - apply Hlor; [apply Hbit; lia|exact Hf'].
Qed.

Lemma calm_deliver_fault f raw cm : pending_ok f -> calm any (deliver_fault (B:=B) (E:=E) f raw cm).
Proof.
  intros Hf. unfold deliver_fault. eapply calm_bind; [apply calm_any|intros lower _].
  destruct f as [[va fsc ea a|what]|]; [|by apply calm_ret..]. destruct Hf as [Hva Hfsc].
  eapply calm_bind; [apply calm_pc|]. intros pc Hpc. apply calm_sync; [by apply abort_esr_u64|done|done].
Qed.

Lemma calm_some (m : SP SysEvent) : calm any m -> calm any (some m).
Proof. intros Hm. eapply calm_bind; [exact Hm|]. intros. by apply calm_ret. Qed.

Lemma calm_advance ev : calm any (advance (B:=B) (E:=E) ev).
Proof.
  unfold advance. eapply calm_bind; [|intros; by apply calm_ret]. apply calm_set. intros c Hc Hp.
  split; [|done]. apply set_pc_wf; [done|apply is_u_u64].
Qed.

Lemma calm_line unmasked (f : E -> bool * E) : calm any (line (B:=B) unmasked f).
Proof. intros [[c m] e] Hs. unfold line. destruct unmasked; [|done]. by destruct (f e). Qed.

Lemma calm_take_interrupt : calm any (take_interrupt (B:=B) (E:=E)).
Proof.
  unfold take_interrupt. eapply calm_bind; [apply calm_any|intros masks _].
  eapply calm_bind; [apply calm_any|intros from_el _]. eapply calm_bind; [apply calm_pc|intros pc Hpc].
  assert (forall k e o, opt_u64 e ->
    calm any (sset (B:=B) (E:=E) (take_exception k e None pc);; mret (M:=SP) (Some o : option SysEvent)))
    as Hdel.
  { intros k e o He. eapply calm_bind; [|intros; by apply calm_ret]. apply calm_set.
    intros c Hc _. by apply take_exception_ok. }
  cbv zeta. eapply calm_bind; [apply calm_line|intros [] _]; [by apply Hdel|].
  eapply calm_bind; [apply calm_line|intros [] _]; [by apply Hdel|].
  destruct (test_mask _ _); [by apply calm_ret|]. unfold take_serror.
  eapply (calm_bind (fun o => forall iss, o = Some iss -> is_u32 iss)).
  - eapply calm_bind; [apply (calm_get (fun o => forall iss, o = Some iss -> is_u32 iss))|].
    { intros c Hc _. apply (wf_serror _ (wf_sys _ Hc)). }
    intros o Ho. eapply calm_bind; [|intros; by apply calm_ret]. apply calm_set. intros c Hc Hp.
    split; [|done]. apply set_sys_wf; [done|]. destruct (wf_sys _ Hc). by constructor.
  - intros [iss|] Hiss; [|by apply calm_ret]. apply Hdel. apply esr_u64; [literal|].
    apply is_u_land_r; [lia|by apply Hiss|literal].
Qed.

Lemma calm_bus f : (forall b, bus_ok b -> bus_ok (f b)) -> calm any (on_bus_state (B:=B) (E:=E) f).
Proof.
  intros Hf. apply triple_modify. intros [[c m] e] (Hc & Hp & Hb & Hpe). split; [|done].
  split; [done|]. split; [done|]. split; [by apply Hf|done].
Qed.

Lemma calm_exec_sys op rt raw : reg5 rt -> calm any (exec_sys (B:=B) (E:=E) op rt raw).
Proof.
  intros Hrt. unfold exec_sys. eapply (calm_bind is_u64).
  { apply calm_get. intros c Hc _. apply xr_bound; [done|unfold reg_num, reg5 in *; lia]. }
  intros xt Hxt. destruct op; try apply calm_advance.
  - eapply calm_bind; [apply calm_bus; intros; by apply tlbi_sound|]. intros. apply calm_advance.
  - destruct (at_op op) as [a level]. eapply (calm_bind at_ok).
    { intros [[c m] e] (Hc & Hp & Hb & Hpe). unfold bus_call_at.
      destruct (at_sound (sm_regs m) xt a level (sm_bus m) Hxt Hb) as [Hr Hb'].
      destruct (bus_at _ _ _ _ _) as [r b]. cbn in Hr, Hb'. split; [|exact Hr].
      split; [exact Hc|]. split; [exact Hp|]. split; [exact Hb'|exact Hpe]. }
    intros [p|fsc ea|what] Hr; [|by apply calm_some, calm_deliver_fault|by apply calm_ret].
    eapply calm_bind; [|intros; apply calm_advance]. apply calm_set. intros c Hc Hp. split; [|done].
    apply set_sys_wf; [done|]. destruct (wf_sys _ Hc); constructor; first [assumption|el1_registers].
Qed.

Lemma calm_set_daif f :
  (forall d, Z.land d daif.ALL = d /\ 0 <= d -> Z.land (f d) daif.ALL = f d /\ 0 <= f d) ->
  calm any (sset (B:=B) (E:=E) (set_sys (fun s => s <| sys_daif ::= f |>))).
Proof.
  intros Hf. apply calm_set. intros c Hc Hp. split; [|done]. apply set_sys_wf; [done|].
  destruct (wf_sys _ Hc); constructor; try assumption. by apply Hf.
Qed.

Lemma daif_bits imm : 0 <= imm < 16 ->
  let b := Z.shiftl (Z.land imm 0xf) 6 in Z.land b daif.ALL = b /\ 0 <= b.
Proof.
  intros Hi. assert (forall_below 16 (fun imm => let b := Z.shiftl (Z.land imm 0xf) 6 in
    (Z.land b daif.ALL =? b) && (0 <=? b)) = true) as Hall by (vm_compute; reflexivity).
  pose proof (forall_below_spec _ _ Hall imm Hi) as H'. cbv beta zeta in *. lia.
Qed.

Lemma calm_exec_msr_imm fld imm raw :
  0 <= imm < 16 -> calm any (exec_msr_imm (B:=B) (E:=E) fld imm raw).
Proof.
  intros Hi. destruct (daif_bits imm Hi) as [Hb Hb0]. unfold exec_msr_imm.
  eapply (calm_bind (fun el => el = 0 \/ el = 1)).
  { apply calm_get. intros c Hc _. apply (wf_el _ (wf_sys _ Hc)). }
  intros el Hel. eapply calm_bind; [apply calm_any|intros sc _]. cbv zeta. destruct fld.
  - destruct (Z.eqb_spec el 0); [apply calm_some, calm_undefined|].
    eapply calm_bind; [|intros; apply calm_advance]. apply calm_set. intros c Hc Hp.
    split; [by apply set_el_sp_wf|]. intros He. destruct (set_el_sp_state el (test_mask imm 1) c) as (E1 & _).
    rewrite E1 in He. lia.
  - destruct (_ && _); [apply calm_some, calm_sysreg_trap|].
    eapply calm_bind; [|intros; apply calm_advance]. apply calm_set_daif. intros d [Hd Hd0].
    rewrite Z.land_lor_distr_l, Hd, Hb. split; [done|]. by apply Z.lor_nonneg.
  - destruct (_ && _); [apply calm_some, calm_sysreg_trap|].
    eapply calm_bind; [|intros; apply calm_advance]. apply calm_set_daif. intros d [Hd Hd0].
    split; [|apply Z.ldiff_nonneg; by left]. rewrite !Z.ldiff_land.
    by rewrite <- Z.land_assoc, (Z.land_comm (Z.lnot _)), Z.land_assoc, Hd.
Qed.

Lemma calm_exec_mrs_sys reg rt raw :
  reg_ok reg = true -> calm any (exec_mrs_sys (B:=B) (E:=E) reg rt raw).
Proof.
  intros Hreg [[c m] e] Hs. pose proof Hs as (Hc & Hp & Hm). unfold exec_mrs_sys, mbind, prog_bind, sget, gets. cbn [fst].
  destruct (sysreg_access c reg false) as [[]|d] eqn:Eacc; [|exact (calm_some _ (calm_deny d raw) (c, m, e) Hs)].
  assert (exists v e', sysreg_read c reg e = (Ok v, e') /\ is_u64 v) as (v & e' & Er & Hv).
  { pose proof (sysreg_value_ok c reg Hc Hreg Eacc) as Hval.
    destruct reg; try (destruct Hval as (v & Hv & Hu); cbn [sysreg_read]; rewrite Hv; by exists v, e).
    - unfold sysreg_read, isr_el1. destruct (env_irq_line e) as [i e1]. destruct (env_fiq_line e1) as [f e2].
      eexists _, _. split; [reflexivity|]. destruct (bool_decide _), i, f; literal.
    - cbn [sysreg_read]. pose proof (read_sysreg_u64 e0 e) as Hu. destruct (env_read_sysreg e0 e) as [v e'].
      by eexists _, _. }
  rewrite Er.
  assert (calm any (sset (B:=B) (E:=E) (set_x rt v);; advance Executed)) as Hcalm;
    [|exact (Hcalm (c, m, e') Hs)].
  eapply calm_bind; [|intros; apply calm_advance]. apply calm_set. intros c' Hc' Hp'. split; [by apply set_x_wf|].
  unfold set_x. by destruct (negb _).
Qed.

Lemma calm_exec_msr_sys reg rt raw :
  reg_ok reg = true -> reg5 rt -> calm any (exec_msr_sys (B:=B) (E:=E) reg rt raw).
Proof.
  intros Hreg Hrt [[c m] e] Hs. pose proof Hs as (Hc & Hp & Hb & Hpe). unfold exec_msr_sys, mbind, prog_bind, sget, gets. cbn [fst].
  destruct (sysreg_access c reg true) as [[]|d] eqn:Eacc; [|exact (calm_some _ (calm_deny d raw) (c, m, e) Hs)].
  assert (is_u64 (xr c rt)) as Hv by (apply xr_bound; [done|unfold reg_num, reg5 in *; lia]).
  destruct (sysreg_set_ok c reg (xr c rt) Hc Hp Hreg Hv Eacc) as (c' & Ec & Hc' & Hp').
  unfold sysreg_write. cbn beta iota zeta. cbn [fst]. rewrite Ec.
  set (b := match reg with SctlrEl1 | TcrEl1 => _ | _ => _ end). set (e' := match reg with Env _ => _ | _ => _ end).
  apply calm_advance. split; [done|]. split; [done|]. split; [|done]. unfold b.
  destruct reg; try exact Hb; by apply tlb_flush_sound.
Qed.

Lemma calm_exec_system i raw : insn_wf i -> calm any (exec_system (B:=B) (E:=E) i raw).
Proof.
  intros Hi. unfold exec_system. eapply calm_bind; [apply calm_any|intros el _].
  eapply calm_bind; [apply calm_any|intros sc _]. eapply calm_bind; [apply calm_any|intros conduit _].
  eapply calm_bind; [apply calm_any|intros trapped _]. eapply calm_bind; [apply calm_pc|intros pc Hpc].
  destruct (trapped && is_fp i); [apply calm_some, calm_sync; [literal|done|done]|].
  destruct i; cbn [insn_wf] in Hi; try (by apply calm_ret); try apply calm_advance.
  - destruct (_ || _); [apply calm_some, calm_undefined|apply calm_advance].
  - destruct (_ || _); [apply calm_some, calm_undefined|apply calm_advance].
  - destruct (_ =? _); [apply calm_some, calm_undefined|].
    eapply calm_bind; [|intros; by apply calm_ret]. apply calm_set. intros. by apply exception_return_ok.
  - destruct (_ && _); [apply calm_some, calm_sync; [literal|done|done]|apply calm_advance].
  - by apply calm_exec_msr_imm.
  - destruct (_ =? _); [apply calm_some, calm_undefined|by apply calm_exec_sys].
  - destruct (_ && _); [apply calm_some, calm_sysreg_trap|by apply calm_ret].
  - destruct (_ && _); [apply calm_some, calm_sysreg_trap|apply calm_advance].
  - apply calm_exec_mrs_sys. tauto.
  - apply calm_exec_msr_sys; tauto.
Qed.

Lemma calm_take_fault : calm pending_ok (take_fault (B:=B) (E:=E)).
Proof.
  intros [[c m] e] (Hc & Hp & Hb & Hpe). cbn. split; [|exact Hpe].
  split; [exact Hc|]. split; [exact Hp|]. split; [exact Hb|exact I].
Qed.

(** A run of the common interpreter: the CPU stays well formed and keeps its
    system state, its exceptions are in range and have their details. *)
Lemma calm_run_execute i raw :
  insn_wf i ->
  calm (fun r => match r with
                 | Ok t => target_ok t
                 | Err (Raise x) => exc_ok x /\ detailed_kind x = true
                 | Err (Panic _) => False
                 end) (run_machine (B:=B) (E:=E) (execute i raw)).
Proof.
  intros Hi [[c m] e] (Hc & Hp & Hm). unfold run_machine.
  pose proof (execute_safe i raw Hi (c, m) (conj Hc Hm)) as Hsafe.
  pose proof (execute_keeps_sys (M:=SysMem B) i raw (c, m)) as [Hsys _].
  pose proof (execute_detailed (B:=B) i raw (c, m)) as Hdet.
  destruct (execute i raw (c, m)) as [[t|st] [c' m']]; cbn [fst snd] in *.
  - destruct Hsafe as [[Hc' Hm'] Ht]. split; [|done]. split; [done|]. split; [|done].
    cbn. unfold pstate_ok. by rewrite Hsys.
  - destruct Hsafe as [[Hc' Hm'] Hr]. specialize (Hdet st _ eq_refl).
    split; [split; [done|]; split; [|done]; cbn; unfold pstate_ok; by rewrite Hsys|].
    destruct st as [x|]; [|done]. split; [exact Hr|]. by destruct x.
Qed.

Lemma calm_deliver_exception i raw pc x :
  is_u64 pc -> exc_ok x -> detailed_kind x = true ->
  calm any (deliver_exception (B:=B) (E:=E) i raw pc x).
Proof.
  intros Hpc Hx Hk. destruct x; try discriminate Hk; cbn [deliver_exception].
  - apply calm_sync; [|done|done]. apply esr_u64; [literal|]. by apply (is_u_weaken 16).
  - apply calm_undefined.
  - by apply calm_ret.
  - eapply calm_bind; [apply calm_take_fault|]. intros f Hf. by apply calm_deliver_fault.
  - eapply calm_bind; [apply calm_take_fault|]. intros f Hf. by apply calm_deliver_fault.
  - apply calm_deliver_fault. split; [done|literal].
  - apply calm_sync; [literal|done|done].
Qed.

Lemma branch_addr_u64 c t : is_u64 t -> is_u64 (branch_addr c t).
Proof. intros Ht. unfold branch_addr. destruct (test_mask _ _); [apply is_u_u64|done]. Qed.

Lemma calm_step_insn raw pc :
  simd_decoders_ok -> is_u64 pc -> calm any (step_insn (B:=B) (E:=E) raw pc).
Proof.
  intros Hsd Hpc. pose proof (decode_insn_wf raw Hsd) as Hi. unfold step_insn.
  eapply calm_bind; [apply calm_any|intros [] _]; [apply calm_sync; [literal|done|done]|]. cbv zeta.
  eapply calm_bind; [by apply calm_exec_system|]. intros [ev|] _; [by apply calm_ret|].
  eapply calm_bind; [by apply calm_run_execute|]. intros [t|[x|what]] Hr.
  - eapply (calm_bind any).
    { apply calm_set. intros c Hc Hp. split; [|done]. apply set_pc_wf; [done|].
      destruct t as [t|]; [apply branch_addr_u64; by apply Hr|apply is_u_u64]. }
    intros _ _. destruct (decode raw); try (by apply calm_ret).
    eapply calm_bind; [apply calm_pc|]. intros pc' Hpc'. apply calm_sync; [|done|done].
    apply esr_u64; [literal|]. by apply (is_u_weaken 16).
  - destruct Hr. by apply calm_deliver_exception.
  - destruct Hr.
Qed.

Lemma calm_step_mem : simd_decoders_ok -> calm any (step_mem (B:=B) (E:=E)).
Proof.
  intros Hsd. unfold step_mem. eapply calm_bind; [apply calm_pc|]. intros pc Hpc.
  eapply (calm_bind any).
  { intros [[c m] e] (Hc & Hp & Hm). unfold run_machine, mem_call. cbn [snd fst].
    pose proof (op_sound_keeps is_u32 (sm_fetch pc) m (fetch_sound pc Hpc) Hm) as Hk.
    change (mem_fetch pc m) with (sm_fetch pc m).
    destruct (sm_fetch pc m) as [r m']. cbn [fst snd] in *. by destruct r. }
  intros [raw|st] _; [by apply calm_step_insn|].
  eapply calm_bind; [apply calm_take_fault|]. intros f Hf. by apply calm_deliver_fault.
Qed.

Lemma calm_run {A} (R : A -> Prop) (m : SP A) c bus env :
  calm R m -> cpu_wf c -> pstate_ok (cpu_sys c) -> bus_ok bus ->
  match m (c, sysmem_new bus (translation_regs c) (sys_el (cpu_sys c)), env) with
  | (Ok a, (c', m', _)) => cpu_wf c' /\ pstate_ok (cpu_sys c') /\ bus_ok (sm_bus m') /\ R a
  | (Err _, _) => False
  end.
Proof.
  intros Hm Hc Hp Hb.
  assert (sys_inv (c, sysmem_new bus (translation_regs c) (sys_el (cpu_sys c)), env)) as Hi
    by (split; [done|]; split; [done|]; by split).
  specialize (Hm _ Hi). destruct (m _) as [[a|p] [[c' m'] e']]; [|done].
  destruct Hm as [(Hc' & Hp' & Hb' & _) Ha]. done.
Qed.

(** ** The mode *)

Definition same_mode (s s' : sys_state (B:=B) (E:=E)) : Prop := sys_mode (cpu_sys s'.1.1) = sys_mode (cpu_sys s.1.1).

#[local] Instance same_mode_refl : Reflexive same_mode.
Proof. intros s. reflexivity. Qed.
#[local] Instance same_mode_trans : Transitive same_mode.
Proof. intros s1 s2 s3 H12 H23. unfold same_mode in *. congruence. Qed.

Lemma mode_set_el_sp el sp c : sys_mode (cpu_sys (set_el_sp el sp c)) = sys_mode (cpu_sys c).
Proof. unfold set_el_sp. by destruct (negb _). Qed.

Lemma mode_take_exception k e f p c : sys_mode (cpu_sys (take_exception k e f p c)) = sys_mode (cpu_sys c).
Proof. destruct (take_exception_state k e f p c) as (sps & E1 & _). by rewrite E1. Qed.

Lemma mode_exception_return c : sys_mode (cpu_sys (exception_return c)) = sys_mode (cpu_sys c).
Proof.
  unfold exception_return. destruct (_ || _); [|done].
  match goal with |- context [set_el_sp ?el ?sp ?d] => change (sys_mode (cpu_sys (set_el_sp el sp d)) = sys_mode (cpu_sys d)) end.
  apply mode_set_el_sp.
Qed.

Lemma mode_sysreg_set reg v c c' : sysreg_set reg v c = Ok c' -> sys_mode (cpu_sys c') = sys_mode (cpu_sys c).
Proof.
  unfold sysreg_set. destruct reg; try discriminate; repeat case_match; intros [= <-]; try done; try apply mode_set_el_sp.
  unfold set_sp_el. by repeat case_match.
Qed.

Lemma mode_sset f : (forall c, sys_mode (cpu_sys (f c)) = sys_mode (cpu_sys c)) -> frames same_mode (sset (B:=B) (E:=E) f).
Proof. intros Hf. apply frames_modify. intros [[c m] e]. apply Hf. Qed.

Lemma mode_set_x rt v c : sys_mode (cpu_sys (set_x rt v c)) = sys_mode (cpu_sys c).
Proof. unfold set_x. by destruct (negb _). Qed.

Lemma mode_run {A} (m : machine (SysMem B) A) : frames (cpu_rel ExecFrame.same_sys) m -> frames same_mode (run_machine (B:=B) (E:=E) m).
Proof.
  intros Hm [[c sm] e]. unfold run_machine. specialize (Hm (c, sm)). destruct (m (c, sm)) as [r [c' sm']].
  destruct Hm as [Hs _]. unfold same_mode. cbn in *. by rewrite Hs.
Qed.

Lemma mode_line u read : frames same_mode (line (B:=B) (E:=E) u read).
Proof. intros [[c m] e]. unfold line. destruct u; [|reflexivity]. by destruct (read e). Qed.

(** A program by its structure. *)
Ltac mode_step :=
  lazymatch goal with
  | |- frames _ (mret _) => apply frames_ret; apply _
  | |- frames _ (throw _) => apply frames_throw; apply _
  | |- frames _ (sget _) => apply frames_gets; apply _
  | |- frames _ (mbind _ _) => apply frames_bind; [apply _| |intros ?]
  | |- frames _ (sset _) => apply mode_sset; intros ?;
      first [apply mode_take_exception | apply mode_set_el_sp | apply mode_exception_return | apply mode_set_x | reflexivity]
  | |- frames _ (line _ _) => apply mode_line
  | |- frames _ (on_bus_state _) => apply frames_modify; intros [[? ?] ?]; reflexivity
  | |- frames _ take_fault => intros [[? ?] ?]; reflexivity
  | |- frames _ (if ?b then _ else _) => destruct b
  | |- frames _ (let '(_, _) := ?p in _) => destruct p
  | |- frames _ (match ?x with _ => _ end) => destruct x
  end.
Ltac mode_prog := repeat mode_step.

Lemma mode_sync e f p : frames same_mode (sync (B:=B) (E:=E) e f p).
Proof. unfold sync. mode_prog. Qed.

Lemma mode_deliver_fault f raw cm : frames same_mode (deliver_fault (B:=B) (E:=E) f raw cm).
Proof. unfold deliver_fault, sync. mode_prog. Qed.

Lemma mode_take_interrupt : frames same_mode (take_interrupt (B:=B) (E:=E)).
Proof. unfold take_interrupt, take_serror. mode_prog. Qed.

Lemma mode_exec_system i raw : frames same_mode (exec_system (B:=B) (E:=E) i raw).
Proof.
  unfold exec_system, exec_msr_imm, exec_mrs_sys, exec_msr_sys, exec_sys, some, advance, deny, undefined, sysreg_trap, deliver_fault, sync.
  mode_prog.
  - intros [[c m] e]. unfold bus_call_at. by destruct (bus_at _ _ _ _ _).
  - intros [[c m] e]. by destruct (sysreg_read c reg e).
  - intros [[c m] e]. destruct (sysreg_write reg _ c (sm_bus m) e) as [[r b] e'] eqn:Ew. unfold sysreg_write in Ew. injection Ew as Er _ _.
    destruct r as [c'|p]; [|reflexivity]. exact (mode_sysreg_set _ _ _ _ Er).
Qed.

Lemma mode_step_mem : frames same_mode (step_mem (B:=B) (E:=E)).
Proof.
  unfold step_mem, step_insn. apply frames_bind; [apply _|apply frames_gets; apply _|intros pc].
  apply frames_bind; [apply _| |intros [raw|]].
  { apply mode_run. intros [c m]. unfold mem_call. cbn [fst snd]. by destruct (mem_fetch pc m) as [[w|f] m']. }
  2: { apply frames_bind; [apply _|intros [[? ?] ?]; reflexivity|intros f; apply mode_deliver_fault]. }
  apply frames_bind; [apply _|apply frames_gets; apply _|intros []; [apply mode_sync|]]. cbv zeta.
  apply frames_bind; [apply _|apply mode_exec_system|intros [ev|]]; [apply frames_ret; apply _|].
  apply frames_bind; [apply _|apply mode_run, execute_keeps_sys|intros [t|[x|what]]].
  - apply frames_bind; [apply _|apply mode_sset; reflexivity|intros _]. destruct (decode raw); unfold sync; mode_prog.
  - unfold deliver_exception, undefined, deliver_fault, sync. mode_prog.
  - apply frames_throw; apply _.
Qed.

(** C1: one step of system mode, from a well-formed CPU in system mode over a bus
    and a platform that keep their laws, always ends with an event: the
    assertion on the mode holds, and neither the [unreachable!] arms of the
    interpreter, of the system registers and of the delivery of exceptions nor a
    debug register out of range is reached. The CPU stays in system mode and
    well formed, EL0 stays on its own stack pointer, and the bus keeps its
    invariant. The AdvSIMD and floating-point data-processing executors are a
    parameter, assumed to return and to keep the CPU well formed on what their
    decoders yield ([simd_decoders_ok], [SimdExecLaws]). *)
Theorem step_system_keeps_wf c bus env :
  simd_decoders_ok -> sys_mode (cpu_sys c) = System -> cpu_wf c -> pstate_ok (cpu_sys c) -> bus_ok bus ->
  exists ev c' bus' env',
    step_system (c, bus, env) = (Ok ev, (c', bus', env')) /\
    sys_mode (cpu_sys c') = System /\ cpu_wf c' /\ pstate_ok (cpu_sys c') /\ bus_ok bus'.
Proof.
  intros Hsd Hmode Hc Hp Hb. unfold step_system. rewrite bool_decide_eq_true_2 by done. cbn [negb].
  pose proof (mode_take_interrupt (c, sysmem_new bus (translation_regs c) (sys_el (cpu_sys c)), env)) as Hm1.
  pose proof (calm_run any take_interrupt c bus env calm_take_interrupt Hc Hp Hb) as Hrun1.
  destruct (take_interrupt _) as [[o|p] [[c1 m1] e1]]; [|done]. destruct Hrun1 as (Hc1 & Hp1 & Hb1 & _). unfold same_mode in Hm1. cbn [fst snd] in Hm1.
  destruct o as [ev|]; [exists ev, c1, (sm_bus m1), e1; split_and!; (done || congruence)|].
  set (m := if negb _ then _ else _).
  assert (calm any m) as Hm.
  { unfold m. destruct (negb _); [|by apply calm_step_mem].
    apply calm_sync; [literal|apply (wf_pc _ Hc1)|apply (wf_pc _ Hc1)]. }
  assert (frames same_mode m) as Hmode2 by (unfold m; destruct (negb _); [apply mode_sync|apply mode_step_mem]).
  specialize (Hmode2 (c1, sysmem_new (sm_bus m1) (translation_regs c1) (sys_el (cpu_sys c1)), e1)).
  pose proof (calm_run any m c1 (sm_bus m1) e1 Hm Hc1 Hp1 Hb1) as Hrun2.
  destruct (m _) as [[ev|p] [[c2 m2] e2]]; [|done]. destruct Hrun2 as (Hc2 & Hp2 & Hb2 & _).
  unfold same_mode in Hmode2. cbn [fst snd] in Hmode2. exists ev, c2, (sm_bus m2), e2. split_and!; (done || congruence).
Qed.
End calm.
