(* ===== verification/El0.v ===== *)
(** * What EL0 can do (theorems about SysStep)

    From EL0 a step changes no register of EL1 but through an exception, and an
    exception goes to the vectors EL1 installed. *)

From Stdlib Require Import ZArith Lia Bool String.
From stdpp Require Import base list numbers gmap.
From S2P Require Import Prelude Bits SysReg State Decode DecodeWf Memory Exec ExecWf ExecFrame CodeWatch SysMem Except SysAccess SysStep SysMemWf SysSafe.
Local Open Scope Z_scope.
Local Open Scope vetro_scope.

(** The system state [s0] of EL0, up to the interrupt masks, when EL1 lets EL0
    change them. *)
Definition el0_same (s0 s : SysState) : Prop :=
  exists d, s = s0 <| sys_daif := d |> /\ (test_mask (sys_sctlr_el1 s0) sctlr.UMA = false -> d = sys_daif s0).

Lemma el0_same_refl s : el0_same s s.
Proof. exists (sys_daif s). split; [by destruct s|done]. Qed.

(** ** The registers of the platform *)

(** What CNTKCTL_EL1 = [k] opens to EL0: the frequency and the counts to read,
    with EL0PCTEN (bit 0) and EL0VCTEN (bit 1), the physical timer with EL0PTEN
    (bit 9) and the virtual one with EL0VTEN (bit 8); nothing of the interrupt
    controller. *)
Definition el0_timer (k : Z) (e : EnvReg) (write : bool) : Prop :=
  match e with
  | CntfrqEl0 => write = false /\ (Z.testbit k 0 = true \/ Z.testbit k 1 = true)
  | CntpctEl0 => write = false /\ Z.testbit k 0 = true
  | CntvctEl0 => write = false /\ Z.testbit k 1 = true
  | CntpTvalEl0 | CntpCtlEl0 | CntpCvalEl0 => Z.testbit k 9 = true
  | CntvTvalEl0 | CntvCtlEl0 | CntvCvalEl0 => Z.testbit k 8 = true
  | _ => False
  end.

Section platform.
Context {E : Type} `{CpuEnv E}.

(** A use of the platform: the interrupt lines, and the timer registers that
    are open. *)
Inductive env_step (k : Z) : E -> E -> Prop :=
| es_irq e : env_step k e (env_irq_line e).2
| es_fiq e : env_step k e (env_fiq_line e).2
| es_read r e : el0_timer k r false -> env_step k e (env_read_sysreg r e).2
| es_write r v e : el0_timer k r true -> env_step k e (env_write_sysreg r v e).

Definition el0_env (k : Z) : relation E := rtc (env_step k).
End platform.

Lemma el0_timer_access (c : Cpu) e write :
  sys_el (cpu_sys c) = 0 -> sysreg_access c (Env e) write = Ok tt -> el0_timer (sys_cntkctl_el1 (cpu_sys c)) e write.
Proof.
  intros Hel. unfold sysreg_access. cbv zeta. rewrite Hel. cbn [Z.eqb el0_access].
  set (k := sys_cntkctl_el1 (cpu_sys c)). clearbody k.
  unfold el0_env_access, cntkctl.EL0PCTEN, cntkctl.EL0VCTEN, cntkctl.EL0PTEN, cntkctl.EL0VTEN. cbv zeta.
  rewrite !test_mask_bit by lia. unfold test_mask. rewrite Z.land_lor_distr_r.
  destruct e; cbn [sysreg_rw env_rw is_timer el0_timer negb andb]; destruct write; try discriminate; try destruct (gicv3 _); try discriminate;
    repeat case_match; try discriminate; try done; intros _.
  split; [done|]. rewrite <- !test_mask_bit by lia. unfold test_mask.
  destruct (Z.eqb_spec (Z.land k (2 ^ 0)) 0) as [E0|], (Z.eqb_spec (Z.land k (2 ^ 1)) 0) as [E1|]; cbn [negb]; auto.
  rewrite E0, E1 in *. done.
Qed.

Section el0.
Context {ST : SimdTypes} {SD : SimdDecode} {SE : SimdExec} {SEL : SimdExecLaws}.
Context {B E : Type} `{SysBus B} `{CpuEnv E}.
Context (c0 : Cpu) (e0 : E) (Hel : sys_el (cpu_sys c0) = 0).

Abbreviation SP := (sysprog (B:=B) (E:=E)).
Abbreviation s0 := (cpu_sys c0).

(** The CPU as EL0 leaves it: its system state, and the register of EL0 that it
    may not write. *)
Definition el0_cpu_same (c : Cpu) : Prop := el0_same s0 (cpu_sys c) /\ cpu_tpidrro_el0 c = cpu_tpidrro_el0 c0.

Definition env_kept (s : sys_state (B:=B) (E:=E)) : Prop := el0_env (sys_cntkctl_el1 s0) e0 s.2.

Definition at_el0 (s : sys_state (B:=B) (E:=E)) : Prop := el0_cpu_same s.1.1 /\ env_kept s.

(** The context was interrupted; a pending SError is consumed only by its own
    exception. *)
Definition trapped (s : sys_state (B:=B) (E:=E)) : Prop :=
  env_kept s /\
  exists k e f p c q, el0_cpu_same c /\
    (q = sys_serror_pending s0 \/ k = SError /\ is_Some (sys_serror_pending s0) /\ q = None) /\
    s.1.1 = take_exception k e f p (set_sys (fun s => s <| sys_serror_pending := q |>) c).

Lemma serror_same c : el0_cpu_same c -> set_sys (fun s => s <| sys_serror_pending := sys_serror_pending s0 |>) c = c.
Proof. intros [(d & Hs & _) _]. destruct c. unfold set_sys, update in *. cbn in *. rewrite Hs. f_equal. Qed.

Lemma trapped_intro k e f p c m x : at_el0 (c, m, x) -> trapped (take_exception k e f p c, m, x).
Proof.
  intros [Hc He]. split; [exact He|]. exists k, e, f, p, c, (sys_serror_pending s0). split; [exact Hc|]. split; [by left|].
  by rewrite serror_same.
Qed.

(** Runs that stay at EL0 with a result in [R]; runs that stay or trap. *)
Definition stays {A} (R : A -> Prop) (m : SP A) : Prop :=
  triple at_el0 m (fun a s => at_el0 s /\ R a) (fun _ _ => True).
Definition confined {A} (m : SP A) : Prop :=
  triple at_el0 m (fun _ s => at_el0 s \/ trapped s) (fun _ _ => True).

Abbreviation any := (fun _ => True).

Lemma stays_confined {A} (R : A -> Prop) (m : SP A) : stays R m -> confined m.
Proof. intros Hm. eapply triple_weaken; [exact Hm|done| |done]. intros a s [? _]. by left. Qed.

Lemma stays_ret {A} (R : A -> Prop) a : R a -> stays R (mret a).
Proof. intros Ha. by apply triple_ret. Qed.

Lemma el0_bind {A C} (R : A -> Prop) Q (m : SP A) (k : A -> SP C) :
  stays R m -> (forall a, R a -> triple at_el0 (k a) Q (fun _ _ => True)) ->
  triple at_el0 (mbind k m) Q (fun _ _ => True).
Proof. intros Hm Hk. eapply triple_bind; [exact Hm|]. intros a s [Hs Ha]. by apply (Hk a Ha). Qed.

Lemma stays_bind {A C} (R1 : A -> Prop) (R2 : C -> Prop) (m : SP A) (k : A -> SP C) :
  stays R1 m -> (forall a, R1 a -> stays R2 (k a)) -> stays R2 (mbind k m).
Proof. apply el0_bind. Qed.

Lemma confined_bind {A C} (R : A -> Prop) (m : SP A) (k : A -> SP C) :
  stays R m -> (forall a, R a -> confined (k a)) -> confined (mbind k m).
Proof. apply el0_bind. Qed.

Lemma confined_map {A C} (m : SP A) (f : A -> C) : confined m -> confined (a ← m; mret (f a)).
Proof. intros Hm. eapply triple_bind; [exact Hm|]. intros a. by apply triple_ret. Qed.

Lemma stays_get {A} (R : A -> Prop) f :
  (forall c, el0_cpu_same c -> R (f c)) -> stays R (sget f).
Proof. intros Hf. apply triple_gets. intros [[c m] e] Hc. split; [done|]. apply Hf, Hc. Qed.

Lemma stays_any {A} (f : Cpu -> A) : stays any (sget f).
Proof. by apply stays_get. Qed.

Lemma stays_el : stays (fun el => el = 0) (sget (fun c => sys_el (cpu_sys c))).
Proof. apply stays_get. intros c [(d & -> & _) _]. exact Hel. Qed.

Lemma stays_sctlr : stays (fun x => x = sys_sctlr_el1 s0) (sget (fun c => sys_sctlr_el1 (cpu_sys c))).
Proof. apply stays_get. intros c [(d & -> & _) _]. reflexivity. Qed.

Lemma stays_set f : (forall c, el0_cpu_same c -> el0_cpu_same (f c)) -> stays any (sset f).
Proof. intros Hf. apply triple_modify. intros [[c m] e] [Hc He]. split; [|done]. split; [by apply Hf|exact He]. Qed.

Lemma confined_sync e f p : confined (sync (B:=B) (E:=E) e f p).
Proof.
  unfold sync. eapply confined_bind; [apply stays_any|intros el _].
  eapply triple_bind; [|intros; apply triple_ret; intros s Hs; exact Hs].
  apply triple_modify. intros [[c m] x] Hc. right. by apply trapped_intro.
Qed.

Lemma confined_undefined : confined (undefined (B:=B) (E:=E)).
Proof. unfold undefined. eapply confined_bind; [apply stays_any|]. intros. apply confined_sync. Qed.

Lemma confined_sysreg_trap raw : confined (sysreg_trap (B:=B) (E:=E) raw).
Proof. unfold sysreg_trap. eapply confined_bind; [apply stays_any|]. intros. apply confined_sync. Qed.

Lemma confined_deny d raw : confined (deny (B:=B) (E:=E) d raw).
Proof. destruct d; [apply confined_undefined|apply confined_sysreg_trap]. Qed.

Lemma confined_deliver_fault f raw cm : confined (deliver_fault (B:=B) (E:=E) f raw cm).
Proof.
  unfold deliver_fault. eapply confined_bind; [apply stays_any|intros lower _].
  destruct f as [[va fsc ea a|w]|]; [|by apply (stays_confined any), stays_ret..].
  eapply confined_bind; [apply stays_any|]. intros. apply confined_sync.
Qed.

Lemma confined_some m : confined m -> confined (some (B:=B) (E:=E) m).
Proof. apply confined_map. Qed.

Lemma confined_advance ev : confined (advance (B:=B) (E:=E) ev).
Proof.
  unfold advance. apply (stays_confined any). eapply stays_bind; [|intros; by apply stays_ret]. by apply stays_set.
Qed.

Lemma stays_line u read : (forall e, env_step (sys_cntkctl_el1 s0) e (read e).2) -> stays any (line (B:=B) (E:=E) u read).
Proof.
  intros Hread [[c m] e] [Hc He]. unfold line. destruct u; [|done]. specialize (Hread e). destruct (read e) as [l e'].
  split; [|done]. split; [exact Hc|]. by eapply rtc_r.
Qed.

(** ** Interrupts *)

(** An event, or no event and the core still at EL0. *)
Definition decided (o : option SysEvent) (s : sys_state (B:=B) (E:=E)) : Prop :=
  match o with Some _ => at_el0 s \/ trapped s | None => at_el0 s end.

Definition decides (m : SP (option SysEvent)) : Prop := triple at_el0 m decided (fun _ _ => True).

Lemma decides_some m : confined m -> decides (some (B:=B) (E:=E) m).
Proof.
  intros Hm. eapply triple_bind; [exact Hm|]. intros ev. apply triple_ret. intros s Hs. exact Hs.
Qed.

Lemma decides_none : decides (mret None).
Proof. by apply triple_ret. Qed.

Lemma decides_advance ev : decides (advance (B:=B) (E:=E) ev).
Proof.
  unfold advance. eapply (el0_bind any); [by apply stays_set|]. intros _ _. apply triple_ret. intros s Hs. by left.
Qed.

Lemma decides_deliver k e p ev :
  decides (sset (B:=B) (E:=E) (take_exception k e None p);; mret (Some ev)).
Proof.
  apply (triple_bind _ _ _ (fun _ s => trapped s)).
  - apply triple_modify. intros [[c m] x] Hc. by apply trapped_intro.
  - intros _. apply triple_ret. intros s Hs. by right.
Qed.

(** The SError is taken if it is pending. *)
Lemma decides_serror p ev :
  decides (pending ← take_serror (B:=B) (E:=E);
           match pending with
           | None => mret None
           | Some iss =>
               let e := Except.esr ec.SERROR (Z.land iss 0x1ffffff) in
               sset (take_exception SError (Some e) None p);; mret (Some (ev e))
           end).
Proof.
  intros [[c m] x] [Hc He]. cbn [fst snd] in Hc. pose proof Hc as [(d & Hs & _) _].
  assert (sys_serror_pending (cpu_sys c) = sys_serror_pending s0) as Ep by (by rewrite Hs).
  unfold take_serror, mbind, prog_bind, sget, gets, sset, modify. cbn [fst snd]. rewrite Ep.
  destruct (sys_serror_pending s0) as [iss|] eqn:Es; cbn.
  - right. split; [exact He|]. eexists SError, _, None, p, c, None. split; [exact Hc|]. split; [right; rewrite Es; by eauto|reflexivity].
  - pose proof (serror_same c Hc) as E1. rewrite Es in E1. unfold at_el0. cbn [fst snd]. by rewrite E1.
Qed.

Lemma decides_take_interrupt : decides (take_interrupt (B:=B) (E:=E)).
Proof.
  unfold take_interrupt. do 3 (eapply el0_bind; [apply stays_any|intros ? _]). cbv zeta.
  eapply el0_bind; [apply stays_line; constructor|intros [] _]; [apply decides_deliver|].
  eapply el0_bind; [apply stays_line; constructor|intros [] _]; [apply decides_deliver|].
  destruct (test_mask _ _); [apply decides_none|]. apply (decides_serror _ (fun e => EvException SError e _)).
Qed.

(** ** System instructions *)

Lemma stays_daif f :
  test_mask (sys_sctlr_el1 s0) sctlr.UMA = true ->
  stays any (sset (B:=B) (E:=E) (set_sys (fun s => s <| sys_daif ::= f |>))).
Proof.
  intros Hu. apply stays_set. intros c [(d & Hs & _) Ht]. split; [|exact Ht]. exists (f d). cbn. rewrite Hs. split; [done|congruence].
Qed.

Lemma decides_exec_msr_imm fld imm raw : decides (exec_msr_imm (B:=B) (E:=E) fld imm raw).
Proof.
  unfold exec_msr_imm. eapply el0_bind; [apply stays_el|intros el ->].
  eapply el0_bind; [apply stays_sctlr|intros sc ->]. cbv zeta. cbn [Z.eqb andb].
  destruct fld; [apply decides_some, confined_undefined|..];
    (destruct (test_mask (sys_sctlr_el1 s0) sctlr.UMA) eqn:Hu; cbn [negb];
       [eapply el0_bind; [by apply stays_daif|intros; apply decides_advance]
       |apply decides_some, confined_sysreg_trap]).
Qed.

(** A read EL0 is allowed leaves the platform, or is of an open register. *)
Lemma sysreg_read_env c reg e r e' :
  el0_cpu_same c -> el0_env (sys_cntkctl_el1 s0) e0 e -> sysreg_access c reg false = Ok tt -> sysreg_read c reg e = (r, e') ->
  el0_env (sys_cntkctl_el1 s0) e0 e'.
Proof.
  intros [(d & Hs & _) _] He Ha Hr. destruct reg; cbn [sysreg_read] in Hr; try (by injection Hr as _ <-).
  - unfold isr_el1 in Hr. destruct (env_irq_line e) as [i e1] eqn:E1. destruct (env_fiq_line e1) as [f e2] eqn:E2. injection Hr as _ <-.
    eapply rtc_r; [eapply rtc_r; [exact He|]|].
    + pose proof (es_irq (sys_cntkctl_el1 s0) e) as H'. by rewrite E1 in H'.
    + pose proof (es_fiq (sys_cntkctl_el1 s0) e1) as H'. by rewrite E2 in H'.
  - destruct (env_read_sysreg e1 e) as [v e2] eqn:E1. injection Hr as _ <-.
    pose proof (es_read (sys_cntkctl_el1 s0) e1 e) as H'. rewrite E1 in H'. eapply rtc_r; [exact He|]. apply H'.
    pose proof (el0_timer_access c e1 false) as Ht. rewrite Hs in Ht. by apply Ht.
Qed.

Lemma decides_exec_mrs_sys reg rt raw : decides (exec_mrs_sys (B:=B) (E:=E) reg rt raw).
Proof.
  intros [[c m] e] Hs. unfold exec_mrs_sys, mbind at 1, prog_bind at 1, sget, gets. cbn [fst].
  destruct (sysreg_access c reg false) as [[]|d] eqn:Ea; [|exact (decides_some _ (confined_deny d raw) (c, m, e) Hs)].
  unfold mbind at 1, prog_bind at 1. destruct (sysreg_read c reg e) as [[v|p] e'] eqn:Er; [|exact I].
  assert (at_el0 (c, m, e')) as Hs'.
  { destruct Hs as [Hc He]. split; [exact Hc|]. exact (sysreg_read_env c reg e _ e' Hc He Ea Er). }
  assert (decides (sset (B:=B) (E:=E) (set_x rt v);; advance Executed)) as Hd; [|exact (Hd (c, m, e') Hs')].
  eapply (el0_bind any); [|intros; apply decides_advance]. apply stays_set. intros c1 Hc1. unfold set_x. by destruct (negb _).
Qed.

(** A write EL0 is allowed keeps the system state, but for DAIF. *)
Lemma sysreg_set_el0 c reg v c' :
  el0_cpu_same c -> sysreg_access c reg true = Ok tt -> sysreg_set reg v c = Ok c' -> el0_cpu_same c'.
Proof.
  intros Hc. pose proof Hc as [(d & Hs & Hd) Ht]. unfold sysreg_access. cbv zeta.
  do 2 (match goal with |- (if ?b then _ else _) = _ -> _ => destruct b eqn:?; [discriminate|] end).
  assert ((sys_el (cpu_sys c) =? 1) = false) as -> by (rewrite Hs; cbn; by rewrite Hel).
  assert (sys_sctlr_el1 (cpu_sys c) = sys_sctlr_el1 s0) as Esc by (by rewrite Hs).
  destruct reg; cbn [el0_access sysreg_set]; try discriminate; intros Ha Hset;
    try (injection Hset as <-; exact Hc); try (injection Hset as <-; split; [by exists d|exact Ht]).
  rewrite Esc in Ha. destruct (test_mask (sys_sctlr_el1 s0) sctlr.UMA) eqn:Hu; [|discriminate].
  injection Hset as <-. split; [|exact Ht]. exists (Z.land (u32 v) daif.ALL). cbn. rewrite Hs. split; [done|congruence].
Qed.

Lemma decides_exec_msr_sys reg rt raw : decides (exec_msr_sys (B:=B) (E:=E) reg rt raw).
Proof.
  intros [[c m] e] Hs. unfold exec_msr_sys, mbind, prog_bind, sget, gets. cbn [fst].
  destruct (sysreg_access c reg true) as [[]|d] eqn:Ea; [|exact (decides_some _ (confined_deny d raw) (c, m, e) Hs)].
  unfold sysreg_write. cbn beta iota zeta.
  cbn [fst]. destruct (sysreg_set reg (xr c rt) c) as [c'|p] eqn:Es; [|exact I].
  destruct Hs as [Hc He]. cbn [fst snd] in Hc. apply decides_advance. split; [exact (sysreg_set_el0 c reg _ c' Hc Ea Es)|].
  destruct reg; try exact He. eapply rtc_r; [exact He|]. apply es_write. destruct Hc as [(d & Hs & _) _].
  pose proof (el0_timer_access c e1 true) as Ht. rewrite Hs in Ht. by apply Ht.
Qed.

Lemma decides_exec_system i raw : decides (exec_system (B:=B) (E:=E) i raw).
Proof.
  unfold exec_system. eapply el0_bind; [apply stays_el|intros el ->].
  eapply el0_bind; [apply stays_any|intros sc _]. eapply el0_bind; [apply stays_any|intros conduit _].
  eapply el0_bind; [apply stays_any|intros trap _]. eapply el0_bind; [apply stays_any|intros pc _].
  destruct (trap && is_fp i); [apply decides_some, confined_sync|]. cbn [Z.eqb andb orb].
  destruct i; try apply decides_none; try apply decides_advance; try (apply decides_some, confined_undefined).
  - destruct (negb _); [apply decides_some, confined_sync|apply decides_advance].
  - apply decides_exec_msr_imm.
  - destruct (negb _); [apply decides_some, confined_sysreg_trap|apply decides_none].
  - destruct (negb _); [apply decides_some, confined_sysreg_trap|apply decides_advance].
  - apply decides_exec_mrs_sys.
  - apply decides_exec_msr_sys.
Qed.

(** ** The step *)

Lemma stays_take_fault : stays any (take_fault (B:=B) (E:=E)).
Proof. intros [[c m] e] Hc. done. Qed.

Lemma stays_run {A} (m : machine (SysMem B) A) :
  frames (cpu_rel same_sys) m -> stays any (run_machine (B:=B) (E:=E) m).
Proof.
  intros Hm [[c sm] e] [Hc He]. unfold run_machine. specialize (Hm (c, sm)).
  destruct (m (c, sm)) as [r [c' sm']]. split; [|done]. destruct Hm as [Hs Ht]. cbn in Hs, Ht.
  split; [|exact He]. destruct Hc as [Hc1 Hc2]. split; cbn; [by rewrite Hs|by rewrite Ht].
Qed.

Lemma confined_deliver_exception i raw pc x : confined (deliver_exception (B:=B) (E:=E) i raw pc x).
Proof.
  destruct x; cbn [deliver_exception].
  - apply triple_throw. intros; exact I.
  - apply confined_sync.
  - apply confined_undefined.
  - apply (stays_confined any), stays_ret. exact I.
  - eapply confined_bind; [apply stays_take_fault|intros; apply confined_deliver_fault].
  - eapply confined_bind; [apply stays_take_fault|intros; apply confined_deliver_fault].
  - apply confined_deliver_fault.
  - apply triple_throw. intros; exact I.
  - apply confined_sync.
Qed.

Lemma confined_executed ev : confined (mret (M:=sysprog (B:=B) (E:=E)) ev : SP SysEvent).
Proof. apply (stays_confined any), stays_ret. exact I. Qed.

Lemma confined_step_insn raw pc : confined (step_insn (B:=B) (E:=E) raw pc).
Proof.
  unfold step_insn. eapply confined_bind; [apply stays_any|intros [] _]; [apply confined_sync|]. cbv zeta.
  eapply triple_bind; [apply decides_exec_system|]. intros [ev|]; [apply triple_ret; intros s Hs; exact Hs|].
  eapply confined_bind; [apply stays_run, execute_keeps_sys|]. intros [t|[x|what]] _.
  - eapply (confined_bind any); [apply stays_set; intros c Hc; exact Hc|]. intros _ _.
    destruct (decode raw); try exact (confined_executed _).
    eapply confined_bind; [apply stays_any|]. intros. apply confined_sync.
  - apply confined_deliver_exception.
  - apply triple_throw. intros; exact I.
Qed.

Lemma confined_step_mem : confined (step_mem (B:=B) (E:=E)).
Proof.
  unfold step_mem. eapply confined_bind; [apply stays_any|intros pc _].
  eapply confined_bind.
  { apply stays_run. intros [c m]. unfold mem_call. cbn [fst snd]. by destruct (mem_fetch pc m) as [[w|f] m']. }
  intros [raw|st] _; [apply confined_step_insn|].
  eapply confined_bind; [apply stays_take_fault|]. intros. apply confined_deliver_fault.
Qed.

End el0.

(** ** Isolation *)

(** An exception taken from EL0: the core is at EL1 on its own stack pointer,
    with interrupts masked, at the vector of [k] in the group of the lower
    level; of the system registers only the ones the entry writes differ, and a
    pending SError is gone only if it is the exception taken. *)
Definition el0_entry (s0 : SysState) (c' : Cpu) : Prop :=
  exists k spsr elr esr far sps serr,
    cpu_sys c' =
      s0 <| sys_spsr_el1 := spsr |> <| sys_elr_el1 := elr |> <| sys_esr_el1 := esr |>
         <| sys_far_el1 := far |> <| sys_sp_el := sps |> <| sys_serror_pending := serr |>
         <| sys_el := 1 |> <| sys_spsel := true |> <| sys_daif := daif.ALL |> <| sys_il := false |> /\
    (serr = sys_serror_pending s0 \/ k = SError /\ is_Some (sys_serror_pending s0) /\ serr = None) /\
    cpu_pc c' = u64 (sys_vbar_el1 s0 + (0x400 + kind_offset k)) /\
    cpu_sp c' = sys_sp_el s0 !!! 1%nat.

Lemma take_exception_sp k e f p c :
  sys_el (cpu_sys c) = 0 -> cpu_sp (take_exception k e f p c) = sys_sp_el (cpu_sys c) !!! 1%nat.
Proof.
  intros He. unfold take_exception. cbv zeta. generalize (pstate_spsr c) as ps. intros ps.
  unfold set_el_sp. cbv zeta.
  match goal with |- context [sp_index (sys_el (cpu_sys ?c3)) ?b] =>
    assert (sp_index (sys_el (cpu_sys c3)) b = 0) as ->
      by (unfold sp_index; cbn; destruct e, f; cbn; rewrite He; reflexivity) end.
  destruct e, f; cbn; by rewrite list_lookup_total_insert_ne.
Qed.

Lemma trapped_entry s0 k e f p c q :
  sys_el s0 = 0 -> el0_same s0 (cpu_sys c) ->
  (q = sys_serror_pending s0 \/ k = SError /\ is_Some (sys_serror_pending s0) /\ q = None) ->
  el0_entry s0 (take_exception k e f p (set_sys (fun s => s <| sys_serror_pending := q |>) c)).
Proof.
  intros He (d & Hs & _) Hq. set (c1 := set_sys _ c).
  assert (cpu_sys c1 = s0 <| sys_daif := d |> <| sys_serror_pending := q |>) as Hs1 by (unfold c1; cbn; by rewrite Hs).
  clearbody c1. assert (sys_el (cpu_sys c1) = 0) as Hc by (rewrite Hs1; exact He).
  destruct (take_exception_state k e f p c1) as (sps & H1 & H2).
  assert (cpu_pc (take_exception k e f p c1)
            = u64 (sys_vbar_el1 (cpu_sys c1) + (vector_group (cpu_sys c1) + kind_offset k))) as H3
    by (rewrite H2; reflexivity).
  pose proof (take_exception_sp k e f p c1 Hc) as H4.
  unfold vector_group in H3. rewrite Hc in H3. cbn [Z.eqb] in H3. rewrite Hs1 in H3, H4.
  exists k, (pstate_spsr c1), p, (default (sys_esr_el1 (cpu_sys c1)) e), (default (sys_far_el1 (cpu_sys c1)) f), sps, q.
  split; [rewrite H1, Hs1; reflexivity|]. split; [exact Hq|]. split; [exact H3|exact H4].
Qed.

Lemma tpidrro_take_exception k e f p c : cpu_tpidrro_el0 (take_exception k e f p c) = cpu_tpidrro_el0 c.
Proof. destruct (take_exception_state k e f p c) as (sps & _ & H2). by rewrite H2. Qed.

Section isolation.
Context {ST : SimdTypes} {SD : SimdDecode} {SE : SimdExec} {SEL : SimdExecLaws}.
Context {B E : Type} `{SysBus B} `{CpuEnv E}.

(** What a step from EL0 may leave of the CPU and of the platform. *)
Definition el0_outcome (c : Cpu) (env : E) (c' : Cpu) (env' : E) : Prop :=
  (el0_same (cpu_sys c) (cpu_sys c') \/ el0_entry (cpu_sys c) c')
  /\ cpu_tpidrro_el0 c' = cpu_tpidrro_el0 c /\ el0_env (sys_cntkctl_el1 (cpu_sys c)) env env'.

Lemma outcome_of c env (s : sys_state (B:=B) (E:=E)) :
  sys_el (cpu_sys c) = 0 -> at_el0 c env s \/ trapped c env s -> el0_outcome c env s.1.1 s.2.
Proof.
  intros He [[[H1 H2] H3]|(H3 & k & e & f & p & c1 & q & [H1 H2] & Hq & Ht)].
  - split; [by left|]. by split.
  - rewrite Ht. split; [right; by apply trapped_entry|]. by rewrite tpidrro_take_exception.
Qed.

(** C2: from EL0, whatever the instruction, a step leaves every system register
    of the CPU as it was, but for the interrupt masks when EL1 lets EL0 write
    them, or enters EL1 through the vectors EL1 installed, on EL1's stack
    pointer and with interrupts masked, where only the registers of the entry
    differ and a pending SError is consumed only by its own exception. TPIDRRO
    keeps its value, and of the platform the step reads the interrupt lines and
    uses the timer registers that CNTKCTL_EL1 opens to EL0: never one of the
    interrupt controller. *)
Theorem el0_isolation c bus env ev c' bus' env' :
  sys_el (cpu_sys c) = 0 -> step_system (c, bus, env) = (Ok ev, (c', bus', env')) ->
  el0_outcome c env c' env'.
Proof.
  intros He. unfold step_system. destruct (negb (bool_decide _)); [discriminate|]. cbv zeta.
  set (st := (c, sysmem_new bus (translation_regs c) (sys_el (cpu_sys c)), env)).
  assert (at_el0 c env st) as Hst by (split; [split; [apply el0_same_refl|done]|apply rtc_refl]).
  pose proof (decides_take_interrupt c env st Hst) as Hd.
  destruct (take_interrupt st) as [[[ev1|]|p] [[c1 m1] e1]]; [..|discriminate].
  - intros Hr. injection Hr as <- <- <- <-. exact (outcome_of c env (c1, m1, e1) He Hd).
  - set (st2 := (c1, sysmem_new _ _ _, e1)).
    assert (at_el0 c env st2) as Hst2 by exact Hd.
    assert (confined c env (if negb (Z.land (cpu_pc c1) 3 =? 0)
              then sync (B:=B) (E:=E) (Except.esr ec.PC_ALIGN 0) (Some (cpu_pc c1)) (cpu_pc c1) else step_mem)) as Hm
      by (destruct (negb _); [apply confined_sync|by apply confined_step_mem]).
    specialize (Hm st2 Hst2). destruct (_ st2) as [[a|q] [[c2 m2] e2]]; intros Heq; [|discriminate].
    injection Heq as <- <- <- <-. exact (outcome_of c env (c2, m2, e2) He Hm).
Qed.
End isolation.

(** * A small board under system mode

    A bus with RAM at address 0 and the MMU off, and a platform whose IRQ line
    is a boolean: they keep the laws of [SysBus] and [CpuEnv], and the theorems
    about system mode are applied to a core that boots on them. *)

#[local] Existing Instance no_simd_types.
#[local] Existing Instance no_simd_decode.
#[local] Existing Instance no_simd_exec.
#[local] Existing Instance no_simd_laws.

(** ** The bus *)

Definition Ram := list Z.

Definition ram_read (pa : Z) (n : nat) : prog Ram BusFault (list Z) := fun b =>
  if (0 <=? pa) && (pa + Z.of_nat n <=? Z.of_nat (length b))
  then (Ok (take n (drop (Z.to_nat pa) b)), b) else (Err (BusAbort FSC_EXTERNAL true), b).

Definition ram_write (pa : Z) (d : list Z) : prog Ram BusFault unit := fun b =>
  if (0 <=? pa) && (pa + Z.of_nat (length d) <=? Z.of_nat (length b))
  then (Ok tt, list_inserts (Z.to_nat pa) d b) else (Err (BusAbort FSC_EXTERNAL true), b).

#[local] Instance ram_bus : SysBus Ram := {|
  bus_translate _ va _ := mret va;
  bus_read_phys := ram_read;
  bus_write_phys := ram_write;
  bus_at _ va _ _ b := (AtPar va, b);
  bus_tlbi _ _ b := b;
  bus_tlb_flush_all b := b;
  bus_cmpxchg_phys := default_cmpxchg_phys ram_read ram_write;
|}.

Lemma ram_read_sound pa n : bus_sound bytes_ok (fun l => length l = n /\ bytes_ok l) (ram_read pa n).
Proof.
  intros b Hb. unfold ram_read. destruct (_ && _) eqn:Hc; [|split; [done|literal]].
  apply andb_prop in Hc as [H1%Z.leb_le H2%Z.leb_le]. repeat split; [done| |].
  - rewrite length_take, length_drop. lia.
  - by apply Forall_take, Forall_drop.
Qed.

Lemma ram_write_sound pa d : bytes_ok d -> bus_sound bytes_ok (fun _ => True) (ram_write pa d).
Proof.
  intros Hd b Hb. unfold ram_write. destruct (_ && _); [|split; [done|literal]].
  split; [|done]. by apply Forall_inserts.
Qed.

Lemma ram_cmpxchg_sound pa old new :
  bytes_ok new -> bus_sound bytes_ok (fun _ => True) (default_cmpxchg_phys ram_read ram_write pa old new).
Proof.
  intros Hn. unfold default_cmpxchg_phys. eapply triple_bind.
  { eapply triple_weaken; [apply ram_read_sound| |intros l b Hl; exact Hl|intros f b Hf; exact Hf].
    intros b Hb. exact Hb. }
  intros cur. destruct (negb _); [by apply triple_ret; intros b [? _]|].
  apply (triple_bind _ _ _ (fun _ => bytes_ok)).
  { eapply triple_weaken; [by apply (ram_write_sound pa new)|by intros b [? _]| |done].
    intros [] b [Hb _]. exact Hb. }
  intros []. by apply triple_ret.
Qed.

#[local] Instance ram_bus_laws : @SysBusLaws Ram ram_bus.
Proof.
  refine {| bus_ok := bytes_ok |}; intros.
  - by apply triple_ret.
  - apply ram_read_sound.
  - by apply ram_write_sound.
  - by apply ram_cmpxchg_sound.
  - done.
  - done.
  - done.
Defined.

(** ** The platform *)

#[local] Instance line_env : CpuEnv bool := {|
  env_irq_line e := (e, e);
  env_fiq_line := default_fiq_line;
  env_read_sysreg _ e := (0, e);
  env_write_sysreg _ _ e := e;
|}.

#[local] Instance line_env_laws : CpuEnvLaws bool.
Proof. constructor. intros. cbn. literal. Qed.

(** ** A core at EL1 and one at EL0 *)

(** eret; svc #0. *)
Definition ram : Ram := to_le 4 0xd69f03e0 ++ to_le 4 0xd4000001.

Lemma ram_ok : bus_ok ram.
Proof. unfold bus_ok, ram_bus_laws. apply Forall_app; split; apply bytes_ok_to_le. Qed.

Lemma set_pc_sys c v : cpu_sys (c <| cpu_pc := v |>) = cpu_sys c.
Proof. reflexivity. Qed.

(** A supervisor call from EL0, at address 4. *)
Lemma step_system_keeps_wf_witness :
  let c := el0_cpu <| cpu_pc := 4 |> in
  exists ev c' bus' env',
    step_system (c, ram, false) = (Ok ev, (c', bus', env')) /\ sys_mode (cpu_sys c') = System /\ cpu_wf c' /\
    pstate_ok (cpu_sys c') /\ sys_elr_el1 (cpu_sys c') = 8 /\ cpu_pc c' = 0x400.
Proof.
  intros c. destruct el0_cpu_wf as [Hwf Hps].
  assert (cpu_wf c) as Hc by (apply set_pc_wf; [exact Hwf|literal]).
  assert (pstate_ok (cpu_sys c)) as Hpc by (unfold c; rewrite set_pc_sys; exact Hps).
  destruct (step_system_keeps_wf c ram false no_simd_ok eq_refl Hc Hpc ram_ok)
    as (ev & c' & bus' & env' & Hs & H0 & H1 & H2 & _).
  exists ev, c', bus', env'. split; [exact Hs|]. split; [exact H0|]. split; [exact H1|]. split; [exact H2|].
  clear - Hs. vm_compute in Hs. injection Hs as <- <- <- <-. split; reflexivity.
Defined.

(** The same call: EL1 is entered at the vector for a lower level. *)
Lemma el0_isolation_witness :
  let c := el0_cpu <| cpu_pc := 4 |> in
  exists c' bus' env', step_system (c, ram, false) = (Ok (EvException Sync 0x56000000 0), (c', bus', env')) /\
    el0_outcome c false c' env' /\ sys_el (cpu_sys c') = 1.
Proof.
  intros c. destruct (step_system (c, ram, false)) as [r [[c' bus'] env']] eqn:Hs.
  pose proof Hs as Hr. vm_compute in Hr. injection Hr as Er Ec Eb Ee.
  assert (r = Ok (EvException Sync 0x56000000 0)) as -> by (rewrite <- Er; reflexivity).
  exists c', bus', env'. split; [reflexivity|]. split.
  - apply (el0_isolation c ram false (EvException Sync 0x56000000 0) c' bus' env'); [reflexivity|exact Hs].
  - rewrite <- Ec. reflexivity.
Defined.

Definition ram_mem : SysMem Ram := sysmem_new ram (translation_regs el0_cpu) 0.

Lemma ram_mem_ok : sm_ok ram_mem.
Proof. split; [exact ram_ok|exact I]. Qed.

(** The word at 4, by both paths. *)
Lemma fetch_fast_path_witness :
  sm_fetch 4 ram_mem = fetch_generic 4 ram_mem /\ (sm_fetch 4 ram_mem).1 = Ok 0xd4000001.
Proof.
  split; [|vm_compute; reflexivity].
  apply (fetch_fast_path 4 ram_mem ram_mem_ok); [literal|reflexivity].
Defined.

(** A read that runs off the end of the RAM. *)
Lemma access_faults_have_details_witness :
  exists p, sm_fault (read_as 6 4 0 ram_mem).2 = Some p /\ pending_ok (Some p) /\
    p = PendAbort 6 16 true Read.
Proof.
  destruct (access_faults_have_details 6 4 0 ram_mem ram_mem_ok ltac:(literal)) as [H _].
  destruct (read_as 6 4 0 ram_mem) as [[l|f] m'] eqn:Hr.
  - exfalso. vm_compute in Hr. discriminate Hr.
  - destruct H as [_ (p & Hp & Hok)]. exists p. split; [exact Hp|]. split; [exact Hok|].
    clear Hok. vm_compute in Hr. injection Hr as _ <-. cbn in Hp. injection Hp as <-. reflexivity.
Defined.
