(* ===== verification/MmuRegs.v ===== *)
(** * Registers and faults of the MMU (crates/vetro-mmu/src/regs.rs, fault.rs)

    The registers that govern stage 1 translation, the fields the walk reads
    from them, the faults and their encoding in ESR_EL1 and PAR_EL1. *)

From Stdlib Require Import ZArith Lia Bool.
From stdpp Require Import base list numbers strings.
From S2P Require Import Prelude Memory.
Local Open Scope Z_scope.
Local Open Scope vetro_scope.

Definition PAGE_SIZE : Z := 4096.

Module msctlr.
Definition M := 2 ^ 0.
Definition I := 2 ^ 12.
Definition WXN := 2 ^ 19.
Definition EE := 2 ^ 25.
End msctlr.

Module tcr.
Definition T0SZ_SHIFT := 0.
Definition EPD0 := 2 ^ 7.
Definition TG0_SHIFT := 14.
Definition T1SZ_SHIFT := 16.
Definition A1 := 2 ^ 22.
Definition EPD1 := 2 ^ 23.
Definition TG1_SHIFT := 30.
Definition IPS_SHIFT := 32.
Definition AS := 2 ^ 36.
Definition TBI0 := 2 ^ 37.
Definition TBI1 := 2 ^ 38.
End tcr.

Record MmuRegs := MkMmuRegs {
  mr_sctlr : Z; mr_tcr : Z; mr_ttbr0 : Z; mr_ttbr1 : Z; mr_mair : Z }.

#[export] Instance MmuRegs_eq_dec : EqDecision MmuRegs.
Proof. solve_decision. Defined.

Definition default_regs : MmuRegs := MkMmuRegs 0 0 0 0 0.

(** Effective granule of one half of the virtual space. *)
Inductive Granule := K4 | K64.

#[export] Instance Granule_eq_dec : EqDecision Granule.
Proof. solve_decision. Defined.

(** Branchless equality. *)
Definition same (r o : MmuRegs) : bool :=
  Z.lor (Z.lor (Z.lor (Z.lor (Z.lxor (mr_sctlr r) (mr_sctlr o)) (Z.lxor (mr_tcr r) (mr_tcr o)))
                      (Z.lxor (mr_ttbr0 r) (mr_ttbr0 o)))
               (Z.lxor (mr_ttbr1 r) (mr_ttbr1 o)))
        (Z.lxor (mr_mair r) (mr_mair o)) =? 0.

Definition enabled (r : MmuRegs) : bool := test_mask (mr_sctlr r) msctlr.M.

Definition wxn (r : MmuRegs) : bool := test_mask (mr_sctlr r) msctlr.WXN.

(** Current ASID: from TTBR1 if TCR.A1, else from TTBR0; 8 bits if TCR.AS = 0. *)
Definition asid (r : MmuRegs) : Z :=
  let ttbr := if test_mask (mr_tcr r) tcr.A1 then mr_ttbr1 r else mr_ttbr0 r in
  let a := u16 (Z.shiftr ttbr 48) in
  if test_mask (mr_tcr r) tcr.AS then a else Z.land a 0xff.

(** Highest address bit that takes part in translation. *)
Definition addr_top (r : MmuRegs) (va : Z) : Z :=
  let tbi := if test_mask (Z.shiftr va 55) 1 then tcr.TBI1 else tcr.TBI0 in
  if test_mask (mr_tcr r) tbi then 55 else 63.

(** [x.clamp(lo, hi)]. *)
Definition clamp (x lo hi : Z) : Z := Z.min (Z.max x lo) hi.

(** Translated bits of a virtual address. *)
Definition input_size (r : MmuRegs) (hi : bool) : Z :=
  let shift := if hi then tcr.T1SZ_SHIFT else tcr.T0SZ_SHIFT in
  let txsz := Z.land (Z.shiftr (mr_tcr r) shift) 0x3f in
  64 - clamp txsz 16 39.

Definition granule (r : MmuRegs) (hi : bool) : Granule :=
  let k64 := if hi then Z.land (Z.shiftr (mr_tcr r) tcr.TG1_SHIFT) 3 =? 3
             else Z.land (Z.shiftr (mr_tcr r) tcr.TG0_SHIFT) 3 =? 1 in
  if k64 then K64 else K4.

(** EPD0/EPD1: walk disabled for that half. *)
Definition walk_disabled (r : MmuRegs) (hi : bool) : bool :=
  test_mask (mr_tcr r) (if hi then tcr.EPD1 else tcr.EPD0).

Definition ttbr (r : MmuRegs) (hi : bool) : Z := if hi then mr_ttbr1 r else mr_ttbr0 r.

(** Output address bits: TCR.IPS limited to the PARange of the CPU. *)
Definition output_size (r : MmuRegs) (pa_bits : Z) : Z :=
  let ips := match Z.land (Z.shiftr (mr_tcr r) tcr.IPS_SHIFT) 7 with
             | 0 => 32 | 1 => 36 | 2 => 40 | 3 => 42 | 4 => 44 | _ => 48 end in
  Z.min ips pa_bits.

(** MAIR_EL1 byte selected by AttrIndx. *)
Definition mair_attr (r : MmuRegs) (attr_index : Z) : Z :=
  u8 (Z.shiftr (mr_mair r) (8 * Z.land attr_index 7)).

(** ** Faults *)

(** Error response of the physical bus. *)
Inductive BusError := ErrDecode | ErrSlave.

#[export] Instance BusError_eq_dec : EqDecision BusError.
Proof. solve_decision. Defined.

Inductive FaultKind :=
| AddressSize (level : Z)
| Translation_ (level : Z)
| AccessFlag (level : Z)
| Permission (level : Z)
| Alignment
| ExternalWalk (level : Z) (e : BusError)
| External (e : BusError)
| MmuUnimplemented (what : string).

(** DFSC/IFSC code. *)
Definition fsc (k : FaultKind) : option Z :=
  match k with
  | AddressSize l => Some l
  | Translation_ l => Some (Z.lor 4 l)
  | AccessFlag l => Some (Z.lor 8 l)
  | Permission l => Some (Z.lor 12 l)
  | Alignment => Some 33
  | External _ => Some 16
  | ExternalWalk l _ => Some (Z.lor 20 l)
  | MmuUnimplemented _ => None
  end.

(** Lookup level, if the fault has one. *)
Definition fault_level (k : FaultKind) : option Z :=
  match k with
  | AddressSize l | Translation_ l | AccessFlag l | Permission l | ExternalWalk l _ => Some l
  | External _ | Alignment | MmuUnimplemented _ => None
  end.

(** EA bit: a slave error. *)
Definition fault_ea (k : FaultKind) : bool :=
  match k with External ErrSlave | ExternalWalk _ ErrSlave => true | _ => false end.

Record Fault := MkFault { f_kind : FaultKind; f_va : Z; f_access : Access; f_el : Z }.

Definition far (f : Fault) : Z := f_va f.

(** ESR_EL1 for the exception taken to EL1 from [from_el]. *)
Definition fault_esr (f : Fault) (from_el : Z) : option Z :=
  match fsc (f_kind f) with
  | None => None
  | Some code =>
      let lower := from_el =? 0 in
      let ea := Z.shiftl (b2z (fault_ea (f_kind f))) 9 in
      let '(class, iss) :=
        match f_access f with
        | Fetch => (if lower then 0x20 else 0x21, Z.lor ea code)
        | Read => (if lower then 0x24 else 0x25, Z.lor ea code)
        | Write => (if lower then 0x24 else 0x25, Z.lor (Z.lor ea (Z.shiftl 1 6)) code)
        end in
      Some (Z.lor (Z.lor (Z.shiftl class 26) (Z.shiftl 1 25)) iss)
  end.

(** PAR_EL1 after a failing AT. *)
Definition fault_par (f : Fault) : option Z :=
  match fsc (f_kind f) with
  | None => None
  | Some code => Some (Z.lor (Z.lor (Z.shiftl 1 11) (Z.shiftl code 1)) 1)
  end.

(** Reduced form for the [Memory] interface. *)
Definition mem_fault (f : Fault) : MemFault := MkMemFault (f_va f) (f_access f).

(** ** Ranges of the fields *)

Definition regs_ok (r : MmuRegs) : Prop :=
  is_u64 (mr_sctlr r) /\ is_u64 (mr_tcr r) /\ is_u64 (mr_ttbr0 r) /\ is_u64 (mr_ttbr1 r) /\
  is_u64 (mr_mair r).

Lemma same_eq r o : same r o = true <-> r = o.
Proof.
  unfold same. split.
  - rewrite Z.eqb_eq, !Z.lor_eq_0_iff, !Z.lxor_eq_0_iff. destruct r, o; cbn. intuition congruence.
  - intros ->. by rewrite !Z.lxor_nilpotent.
Qed.

Lemma input_size_bound r hi : 25 <= input_size r hi <= 48.
Proof. unfold input_size, clamp. lia. Qed.

Lemma output_size_bound r pa_bits : 32 <= pa_bits <= 48 -> 32 <= output_size r pa_bits <= pa_bits.
Proof.
  intros Hp. unfold output_size.
  destruct (Z.land _ 7) as [|[[[]|[]|]|[[]|[]|]|]|]; lia.
Qed.

Lemma mair_attr_bound r i : is_u 8 (mair_attr r i).
Proof. apply is_u_u8. Qed.

Lemma asid_bound r : is_u 16 (asid r).
Proof.
  unfold asid. destruct (test_mask _ tcr.AS); [apply is_u_u16|].
  apply is_u_land; [lia|apply is_u_u16|lia].
Qed.

Definition level_ok (k : FaultKind) : Prop :=
  match fault_level k with Some l => 0 <= l <= 3 | None => True end.

(** A status code has six bits. *)
Lemma fsc_bound k code : level_ok k -> fsc k = Some code -> is_u 6 code.
Proof.
  unfold level_ok. intros Hl Hf.
  destruct k; cbn in *; [injection Hf as <-..|discriminate Hf]; try (unfold is_u; lia);
    apply is_u_lor; try lia; unfold is_u; lia.
Qed.

Lemma fsc_none k : fsc k = None -> exists what, k = MmuUnimplemented what.
Proof. destruct k; cbn; try discriminate. intros _. by eexists. Qed.
