(* ===== verification/Walk.v ===== *)
(** * The stage 1 table walk (crates/vetro-mmu/src/walk.rs) *)

From Stdlib Require Import ZArith Lia Bool.
From stdpp Require Import base list numbers strings.
From S2P Require Import Prelude Decode Memory MmuRegs.
Local Open Scope Z_scope.
Local Open Scope vetro_scope.

(** Physical memory as seen by the MMU. *)
Class PhysMemory (P : Type) : Type := {
  phys_read : Z -> nat -> prog P BusError (list Z);
  phys_write : Z -> list Z -> prog P BusError unit;
  phys_read_u64 : Z -> prog P BusError Z;
  phys_cmpxchg : Z -> list Z -> list Z -> prog P BusError bool;
  phys_tlbi_broadcast : TlbiOp -> Z -> P -> P;
}.

(** The provided methods. *)
Definition default_read_u64 {P} (read : Z -> nat -> prog P BusError (list Z)) (pa : Z)
    : prog P BusError Z :=
  b ← read pa 8%nat; mret (from_le b).

Definition default_phys_cmpxchg {P} (read : Z -> nat -> prog P BusError (list Z))
    (write : Z -> list Z -> prog P BusError unit) (pa : Z) (old new : list Z)
    : prog P BusError bool :=
  cur ← read pa (length old);
  if negb (bool_decide (cur = old)) then mret false else
  write pa new;; mret true.

(** [map_err] on a program. *)
Definition fail_as {S E F A} (f : E -> F) (p : prog S E A) : prog S F A := fun s =>
  let '(r, s') := p s in (map_err f r, s').

(** Final permissions of a translation. *)
Record Perms := MkPerms { pm_ap : Z; pm_uxn : bool; pm_pxn : bool }.

#[export] Instance Perms_eq_dec : EqDecision Perms.
Proof. solve_decision. Defined.

Definition perms_allows (p : Perms) (access : Access) (el : Z) (wxn : bool) : bool :=
  let priv_w := Z.land (pm_ap p) 2 =? 0 in
  let user_r := test_mask (pm_ap p) 1 in
  let user_w := pm_ap p =? 1 in
  if el =? 0 then
    match access with
    | Read => user_r
    | Write => user_w
    | Fetch => negb (pm_uxn p || (user_w && wxn))
    end
  else
    match access with
    | Read => true
    | Write => priv_w
    | Fetch => negb (pm_pxn p || (priv_w && wxn) || user_w)
    end.

(** Outcome of a successful translation. *)
Record Translation := MkTranslation {
  t_pa : Z;
  t_level : Z;
  t_block_size : Z;
  t_perms : option Perms;
  t_attr_index : option Z;
  t_mair_attr : Z;
  t_sh : Z;
  t_ng : bool;
  t_asid : Z;
}.

#[export] Instance eta_Translation : Eta Translation := fun t =>
  MkTranslation (t_pa t) (t_level t) (t_block_size t) (t_perms t) (t_attr_index t) (t_mair_attr t)
    (t_sh t) (t_ng t) (t_asid t).

(** Mask of bits [hi..=lo]. *)
Definition bits (hi lo : Z) : Z :=
  Z.land (Z.shiftr (2 ^ 64 - 1) (63 - hi)) (u64 (Z.lnot (u64 (Z.shiftl 1 lo) - 1))).

(** Mask of the low [n] bits. *)
Definition low (n : Z) : Z := u64 (Z.shiftl 1 n) - 1.

(** PAR_EL1 after a successful AT. *)
Definition translation_par (t : Translation) : Z :=
  let attr := t_mair_attr t in
  let sh := if (Z.land attr 0xf0 =? 0) || (attr =? 0x44) || (attr =? 0x40) then 2 else t_sh t in
  Z.lor (Z.lor (Z.lor (Z.lor (Z.shiftl attr 56) (Z.land (t_pa t) (bits 47 12)))
                      (Z.shiftl 1 11)) (Z.shiftl 1 9)) (Z.shiftl sh 7).

(** Translation with the MMU off. *)
Definition mmu_off (r : MmuRegs) (pa_bits va : Z) (access : Access) (el : Z)
    : result Translation Fault :=
  let top := addr_top r va in
  if test_mask va (bits top pa_bits) then Err (MkFault (AddressSize 0) va access el) else
  let attr := match access with
              | Fetch => if test_mask (mr_sctlr r) msctlr.I then 0xaa else 0x44
              | Read | Write => 0x00
              end in
  Ok (MkTranslation (Z.land va (low pa_bits)) 0 PAGE_SIZE None None attr 2 false (asid r)).

(** Selects the half of the virtual space (true = TTBR1). *)
Definition select (r : MmuRegs) (va : Z) : result bool FaultKind :=
  let top := addr_top r va in
  let hi := test_mask (Z.shiftr va top) 1 in
  let field := Z.land va (bits top (input_size r hi)) in
  let ok := if hi then field =? bits top (input_size r hi) else field =? 0 in
  if ok then Ok hi else Err (Translation_ 0).

Definition STRIDE : Z := 9.
Definition GRAIN : Z := 12.

(** [x.div_ceil(y)]. *)
Definition div_ceil (x y : Z) : Z := (x + y - 1) / y.

(** APTable[1:0], UXNTable, PXNTable accumulated along the walk. *)
Record Tables := MkTables { ap_table : Z; xn_table : bool; pxn_table : bool }.

Definition no_tables : Tables := MkTables 0 false false.

Definition add_table (t : Tables) (desc : Z) : Tables :=
  MkTables (Z.lor (ap_table t) (Z.land (Z.shiftr desc 61) 3))
    (xn_table t || test_mask (Z.shiftr desc 60) 1) (pxn_table t || test_mask (Z.shiftr desc 59) 1).

(** An address beyond the output size. *)
Definition oversize (outputsize addr : Z) : bool :=
  (outputsize <? 48) && test_mask addr (bits 47 outputsize).

(** The lowest address bit that a table of [level] translates. *)
Definition level_bottom (level : Z) : Z := (3 - level) * STRIDE + GRAIN.

(** The leaf: address, access flag, permissions and attributes. *)
Definition walk_leaf (r : MmuRegs) (outputsize va desc level : Z) (t : Tables)
    : result Translation FaultKind :=
  if level <? 1 then Err (Translation_ level) else
  let bottom := level_bottom level in
  let pa := Z.lor (Z.land desc (bits 47 bottom)) (Z.land va (low bottom)) in
  if oversize outputsize pa then Err (AddressSize level) else
  if Z.land (Z.shiftr desc 10) 1 =? 0 then Err (AccessFlag level) else
  let ap := Z.land (Z.shiftr desc 6) 3 in
  let perms := MkPerms
    (Z.ldiff (Z.lor ap (Z.land (ap_table t) 2)) (Z.land (ap_table t) 1))
    (test_mask (Z.shiftr desc 54) 1 || xn_table t)
    (test_mask (Z.shiftr desc 53) 1 || pxn_table t) in
  let attr_index := Z.land (Z.shiftr desc 2) 7 in
  Ok (MkTranslation pa level (Z.shiftl 1 bottom) (Some perms) (Some attr_index)
        (mair_attr r attr_index) (Z.land (Z.shiftr desc 8) 3)
        (test_mask (Z.shiftr desc 11) 1) (asid r)).

Section walk.
Context {P : Type} `{PhysMemory P}.

(** The [loop] of [walk_tables]: [rest] tables below the one at [base], so the
    level is [3 - rest]; yields the leaf descriptor and its level. At level 3
    the loop never goes round again. *)
Fixpoint walk_loop (rest : nat) (outputsize va base addrtop : Z) (t : Tables)
    : prog P FaultKind (Z * Z * Tables) :=
  let level := 3 - Z.of_nat rest in
  let bottom := level_bottom level in
  let index := Z.shiftl (Z.shiftr (Z.land va (bits addrtop bottom)) bottom) 3 in
  desc ← fail_as (ExternalWalk level) (phys_read_u64 (Z.lor base index));
  if (Z.land desc 1 =? 0) || ((Z.land desc 3 =? 1) && (level =? 3)) then throw (Translation_ level)
  else if (Z.land desc 3 =? 1) || (level =? 3) then mret (desc, level, t)
  else if oversize outputsize desc then throw (AddressSize level)
  else
    match rest with
    | O => throw (Translation_ level)
    | S rest => walk_loop rest outputsize va (Z.land desc (bits 47 GRAIN)) (bottom - 1) (add_table t desc)
    end.

(** The level of the first table. *)
Definition start_level (inputsize : Z) : Z := 4 - div_ceil (inputsize - GRAIN) STRIDE.

Definition walk_tables (r : MmuRegs) (pa_bits va : Z) (hi : bool) : prog P FaultKind Translation :=
  if walk_disabled r hi then throw (Translation_ 0) else
  if bool_decide (granule r hi = K64) then throw (MmuUnimplemented "64 KiB translation granule") else
  if test_mask (mr_sctlr r) msctlr.EE
  then throw (MmuUnimplemented "big-endian descriptors (SCTLR_EL1.EE = 1)") else
  let inputsize := input_size r hi in
  let outputsize := output_size r pa_bits in
  if oversize outputsize (ttbr r hi) then throw (AddressSize 0) else
  let level := start_level inputsize in
  let baselowerbound := 3 + inputsize - level_bottom level in
  let base := Z.land (ttbr r hi) (bits 47 baselowerbound) in
  '(desc, level, t) ← walk_loop (Z.to_nat (3 - level)) outputsize va base (inputsize - 1) no_tables;
  match walk_leaf r outputsize va desc level t with
  | Ok tr => mret tr
  | Err k => throw k
  end.

End walk.

(** Unaligned data access on Device memory. *)
Definition check_device_alignment (t : Translation) (access : Access) (aligned : bool)
    : result unit FaultKind :=
  if negb aligned && negb (bool_decide (access = Fetch)) && (Z.land (t_mair_attr t) 0xf0 =? 0)
  then Err Alignment else Ok tt.

(** Permission check. *)
Definition check (r : MmuRegs) (t : Translation) (access : Access) (el : Z) : result unit FaultKind :=
  match t_perms t with
  | Some p => if negb (perms_allows p access el (wxn r)) then Err (Permission (t_level t)) else Ok tt
  | None => Ok tt
  end.
