(* ===== verification/Tlb.v ===== *)
(** * The software TLB (crates/vetro-mmu/src/tlb.rs)

    A direct-mapped cache of 512 slots, the generation of each slot, and the
    log of the last 64 invalidations. Generations and the count of
    invalidations are [u64] counters of events; they are unbounded here. *)

From Stdlib Require Import ZArith Lia Bool.
From stdpp Require Import base list numbers strings.
From S2P Require Import Prelude Decode Memory MmuRegs Walk.
Local Open Scope Z_scope.
Local Open Scope vetro_scope.

(** VA[55:0]: the part of the address that identifies an entry. *)
Definition VA_MASK : Z := 2 ^ 56 - 1.

Definition ENTRIES : Z := 512.

Record TlbEntry := MkTlbEntry {
  e_va_base : Z;
  e_size : Z;
  e_pa_base : Z;
  e_asid : Z;
  e_global : bool;
  e_level : Z;
  e_perms : Perms;
  e_attr_index : Z;
  e_sh : Z;
}.

#[export] Instance TlbEntry_eq_dec : EqDecision TlbEntry.
Proof. solve_decision. Defined.

(** [None] where the source's [expect] panics: only walks with the MMU on are
    cached, and these have permissions and attributes ([walk_tables_leaf]). *)
Definition entry_new (key : Z) (t : Translation) : option TlbEntry :=
  let mask := u64 (Z.lnot (t_block_size t - 1)) in
  match t_perms t, t_attr_index t with
  | Some perms, Some attr_index =>
      Some (MkTlbEntry (Z.land key mask) (t_block_size t) (Z.land (t_pa t) mask) (t_asid t)
              (negb (t_ng t)) (t_level t) perms attr_index (t_sh t))
  | _, _ => None
  end.

Definition entry_contains (e : TlbEntry) (key : Z) : bool := u64 (key - e_va_base e) <? e_size e.

(** The translation of [key]; MAIR is read now. *)
Definition entry_translation (e : TlbEntry) (key : Z) (r : MmuRegs) : Translation :=
  MkTranslation (e_pa_base e + (key - e_va_base e)) (e_level e) (e_size e) (Some (e_perms e))
    (Some (e_attr_index e)) (mair_attr r (e_attr_index e)) (e_sh e) (negb (e_global e)) (e_asid e).

(** VA[55:12] and ASID from the register of a TLBI. *)
Definition tlbi_va (xt : Z) : Z := Z.shiftl (Z.land xt (2 ^ 44 - 1)) 12.
Definition tlbi_asid (xt : Z) : Z := u16 (Z.shiftr xt 48).

(** What an invalidation covered. *)
Inductive Inval := InvalAll | InvalVa (va : Z).

#[export] Instance Inval_inhabited : Inhabited Inval := populate InvalAll.

Definition LOG : Z := 64.

Record Tlb := MkTlb {
  tlb_entries : list (option TlbEntry);
  tlb_gens : list Z;
  tlb_flushes : Z;
  tlb_log : list Inval;
}.

#[export] Instance eta_Tlb : Eta Tlb := fun t =>
  MkTlb (tlb_entries t) (tlb_gens t) (tlb_flushes t) (tlb_log t).

Definition tlb_new : Tlb :=
  MkTlb (replicate (Z.to_nat ENTRIES) None) (replicate (Z.to_nat ENTRIES) 0) 0
    (replicate (Z.to_nat LOG) InvalAll).

Definition slot (key : Z) : nat := Z.to_nat (Z.land (Z.shiftr key 12) (ENTRIES - 1)).

(** Generation of a slot. *)
Definition generation (t : Tlb) (s : nat) : Z := tlb_gens t !!! s.

(** The entry serves [key] with [a] as the current ASID. *)
Definition entry_hit (e : TlbEntry) (key a : Z) : bool :=
  entry_contains e key && (e_global e || (e_asid e =? a)).

Definition tlb_lookup (t : Tlb) (key a : Z) : option TlbEntry :=
  match tlb_entries t !! slot key with
  | Some (Some e) => if entry_hit e key a then Some e else None
  | _ => None
  end.

Definition tlb_insert (key : Z) (e : TlbEntry) (t : Tlb) : Tlb :=
  t <| tlb_entries ::= fun l => <[slot key := Some e]> l |>
    <| tlb_gens ::= fun l => <[slot key := l !!! slot key + 1]> l |>.

(** The invalidations since the count was [from]; [None] if they are no longer
    all remembered. *)
Definition invalidations_since (t : Tlb) (from : Z) : option (list Inval) :=
  if tlb_flushes t <? from then None else
  let n := tlb_flushes t - from in
  if n <=? LOG then Some (map (fun i => tlb_log t !!! Z.to_nat (i mod LOG)) (seqZ from n)) else None.

Definition note (i : Inval) (t : Tlb) : Tlb :=
  t <| tlb_log := <[Z.to_nat (tlb_flushes t mod LOG) := i]> (tlb_log t) |>
    <| tlb_flushes := tlb_flushes t + 1 |>.

(** Number of valid entries. *)
Definition tlb_len (t : Tlb) : nat := length (filter (fun o => is_Some o) (tlb_entries t)).

Definition holds (pred : TlbEntry -> bool) (o : option TlbEntry) : bool :=
  match o with Some e => pred e | None => false end.

Definition remove_if (pred : TlbEntry -> bool) (t : Tlb) : Tlb :=
  t <| tlb_entries := map (fun o => if holds pred o then None else o) (tlb_entries t) |>
    <| tlb_gens := zip_with (fun o g => if holds pred o then g + 1 else g)
                     (tlb_entries t) (tlb_gens t) |>.

(** Flushes everything (VMALLE1). *)
Definition flush_all (t : Tlb) : Tlb :=
  (note InvalAll t) <| tlb_entries ::= map (fun _ => None) |> <| tlb_gens ::= map (fun g => g + 1) |>.

(** Entries that contain [va] and are global or of [a]. *)
Definition flush_va (va a : Z) (t : Tlb) : Tlb :=
  let key := Z.land va VA_MASK in remove_if (fun e => entry_hit e key a) t.

(** Non-global entries of [a]. *)
Definition flush_asid (a : Z) (t : Tlb) : Tlb :=
  remove_if (fun e => negb (e_global e) && (e_asid e =? a)) t.

(** Entries that contain [va], of any ASID. *)
Definition flush_va_all_asids (va : Z) (t : Tlb) : Tlb :=
  let key := Z.land va VA_MASK in remove_if (fun e => entry_contains e key) t.

(** Executes a TLBI with the value of Xt. *)
Definition tlb_tlbi (op : TlbiOp) (xt : Z) (t : Tlb) : Tlb :=
  let t := note (match op with
                 | Vae1 | Vae1is | Vale1 | Vale1is | Vaae1 | Vaae1is | Vaale1 | Vaale1is =>
                     InvalVa (tlbi_va xt)
                 | _ => InvalAll
                 end) t in
  match op with
  | Vmalle1 | Vmalle1is => flush_all t
  | Vae1 | Vae1is | Vale1 | Vale1is => flush_va (tlbi_va xt) (tlbi_asid xt) t
  | Aside1 | Aside1is => flush_asid (tlbi_asid xt) t
  | Vaae1 | Vaae1is | Vaale1 | Vaale1is => flush_va_all_asids (tlbi_va xt) t
  end.
