(* ===== verification/Mmu.v ===== *)
(** * The MMU of a core (crates/vetro-mmu/src/mmu.rs)

    Registers, TLB and the cache of recent translations in front of it. The
    epoch is a counter of events, unbounded here. *)

From Stdlib Require Import ZArith Lia Bool.
From stdpp Require Import base list numbers strings.
From S2P Require Import Prelude Decode Memory MmuRegs Walk Tlb.
Local Open Scope Z_scope.
Local Open Scope vetro_scope.

Definition RECENT : Z := 512.

(** Recent successful translation with the MMU on. *)
Record Recent := MkRecent {
  r_vpage : Z;
  r_pa_page : Z;
  r_perms : Perms;
  r_device : bool;
  r_epoch : Z;
  r_tlb_gen : Z;
}.

Definition EMPTY : Recent := MkRecent (2 ^ 64 - 1) 0 (MkPerms 0 true true) true 0 0.

#[export] Instance Recent_inhabited : Inhabited Recent := populate EMPTY.

Record Mmu := MkMmu {
  m_regs : MmuRegs;
  m_pa_bits : Z;
  m_tlb : Tlb;
  m_last_fault : option Fault;
  m_recent : list Recent;
  m_recent_regs : MmuRegs;
  m_recent_epoch : Z;
}.

#[export] Instance eta_Mmu : Eta Mmu := fun m =>
  MkMmu (m_regs m) (m_pa_bits m) (m_tlb m) (m_last_fault m) (m_recent m) (m_recent_regs m)
    (m_recent_epoch m).

Definition PA_BITS_CORTEX_A53 : Z := 40.

(** [None] for the [assert!] on the supported PARange. *)
Definition mmu_new (pa_bits : Z) : option Mmu :=
  if (32 <=? pa_bits) && (pa_bits <=? 48)
  then Some (MkMmu default_regs pa_bits tlb_new None (replicate (Z.to_nat RECENT) EMPTY) default_regs 1)
  else None.

(** [!(PAGE_SIZE - 1)] and [x & 0xf0 == 0]. *)
Definition page_base (pa : Z) : Z := Z.land pa (u64 (Z.lnot (PAGE_SIZE - 1))).
Definition is_device (attr : Z) : bool := Z.land attr 0xf0 =? 0.

(** New epoch of the recent cache if the registers are not the ones it was
    filled with. *)
Definition sync_recent (regs : MmuRegs) (m : Mmu) : Mmu :=
  if negb (same regs (m_recent_regs m))
  then m <| m_recent_regs := regs |> <| m_recent_epoch ::= Z.succ |>
  else m.

Definition set_last_fault (f : Fault) (m : Mmu) : Mmu := m <| m_last_fault := Some f |>.

(** Executes a TLBI on this core. *)
Definition mmu_tlbi (op : TlbiOp) (xt : Z) (m : Mmu) : Mmu := m <| m_tlb ::= tlb_tlbi op xt |>.

Definition mmu_flush_all (m : Mmu) : Mmu := m <| m_tlb ::= flush_all |>.

Section mmu.
Context {P : Type} `{PhysMemory P}.

Definition mmuprog (A : Type) : Type := prog (Mmu * P) Fault A.

Definition mget {A} (f : Mmu -> A) : mmuprog A := gets (fun s => f s.1).
Definition mset (f : Mmu -> Mmu) : mmuprog unit := modify (fun s => (f s.1, s.2)).

(** A result, and a walk of the tables, with [.map_err(|k| fault(k, ...))]. *)
Definition or_fault {A} (va : Z) (access : Access) (el : Z) (r : result A FaultKind) : mmuprog A :=
  fun s => (map_err (fun k => MkFault k va access el) r, s).
Definition on_phys {A} (va : Z) (access : Access) (el : Z) (p : prog P FaultKind A) : mmuprog A :=
  fun '(m, ph) => let '(r, ph') := p ph in (map_err (fun k => MkFault k va access el) r, (m, ph')).
Definition of_result {A} (r : result A Fault) : mmuprog A := fun s => (r, s).

(** The entry of the TLB, or the walk and a new entry. *)
Definition tlb_or_walk (regs : MmuRegs) (va : Z) (access : Access) (el : Z) (hi : bool)
    : mmuprog Translation :=
  let key := Z.land va VA_MASK in
  o ← mget (fun m => tlb_lookup (m_tlb m) key (asid regs));
  match o with
  | Some e => mret (entry_translation e key regs)
  | None =>
      pa_bits ← mget m_pa_bits;
      t ← on_phys va access el (walk_tables regs pa_bits va hi);
      match entry_new key t with
      | Some e => mset (fun m => m <| m_tlb ::= tlb_insert key e |>);; mret t
      | None => mret t
      end
  end.

Definition translate_checked (va : Z) (access : Access) (el : Z) (aligned : bool)
    : mmuprog Translation :=
  regs ← mget m_regs;
  if negb (enabled regs) then
    pa_bits ← mget m_pa_bits;
    t ← of_result (mmu_off regs pa_bits va access el);
    or_fault va access el (check_device_alignment t access aligned);;
    mret t
  else
    hi ← or_fault va access el (select regs va);
    t ← tlb_or_walk regs va access el hi;
    or_fault va access el (check_device_alignment t access aligned);;
    or_fault va access el (check regs t access el);;
    mret t.

Definition translate (va : Z) (access : Access) (el : Z) : mmuprog Translation :=
  translate_checked va access el true.

(** Full path and filling of the recent entry. *)
Definition translate_fill (va : Z) (access : Access) (el : Z) (aligned : bool) (s : nat) : mmuprog Z :=
  t ← translate_checked va access el aligned;
  on ← mget (fun m => enabled (m_regs m));
  match t_perms t with
  | Some perms =>
      (if on : bool
       then mset (fun m => m <| m_recent ::= fun l => <[s := MkRecent (va / PAGE_SIZE) (page_base (t_pa t))
              perms (is_device (t_mair_attr t)) (m_recent_epoch m) (generation (m_tlb m) s)]> l |>)
       else mret tt);;
      mret (t_pa t)
  | None => mret (t_pa t)
  end.

(** The recent entry answers the access. *)
Definition recent_hit (m : Mmu) (va : Z) (access : Access) (el : Z) (aligned : bool) (s : nat) : bool :=
  let r := m_recent m !!! s in
  (r_vpage r =? va / PAGE_SIZE) && (r_epoch r =? m_recent_epoch m)
  && (r_tlb_gen r =? generation (m_tlb m) s)
  && (aligned || bool_decide (access = Fetch) || negb (r_device r))
  && perms_allows (r_perms r) access el (wxn (m_recent_regs m)).

(** Recent cache, then full path. *)
Definition translate_recent (va : Z) (access : Access) (el : Z) (aligned : bool) : mmuprog Z :=
  m ← mget id;
  let s := slot (Z.land va VA_MASK) in
  if enabled (m_recent_regs m) && recent_hit m va access el aligned s
  then mret (Z.lor (r_pa_page (m_recent m !!! s)) (Z.land va (PAGE_SIZE - 1)))
  else translate_fill va access el aligned s.

Definition translate_pa_with (regs : MmuRegs) (va : Z) (access : Access) (el : Z) (aligned : bool)
    : mmuprog Z :=
  mset (fun m => m <| m_regs := regs |>);;
  mset (sync_recent regs);;
  translate_recent va access el aligned.

(** Without reading or filling the TLB. *)
Definition mmu_walk (va : Z) (access : Access) (el : Z) : mmuprog Translation :=
  regs ← mget m_regs;
  pa_bits ← mget m_pa_bits;
  if negb (enabled regs) then of_result (mmu_off regs pa_bits va access el) else
  t ← (hi ← or_fault va access el (select regs va); on_phys va access el (walk_tables regs pa_bits va hi));
  or_fault va access el (check regs t access el);;
  mret t.

End mmu.
