(* ===== verification/WalkSpec.v ===== *)
(** * What the table walk computes (theorems about Walk)

    The masks as ranges of bits; the leaf the walk reaches, its level and its
    size; the walk depends only on the address bits above the leaf, so one leaf
    serves every address of its block. *)

From Stdlib Require Import ZArith Lia Bool.
From stdpp Require Import base list numbers strings.
From S2P Require Import Prelude Decode Memory MmuRegs Walk.
Local Open Scope Z_scope.
Local Open Scope vetro_scope.

(** ** Masks *)

Lemma low_eq n : 0 <= n < 64 -> low n = 2 ^ n - 1.
Proof.
  intros Hn. unfold low. rewrite Z.shiftl_1_l, u64_id; [done|].
  split; [lia|apply Z.pow_lt_mono_r; lia].
Qed.

Lemma land_low x n : 0 <= n < 64 -> Z.land x (low n) = x mod 2 ^ n.
Proof. intros. rewrite low_eq by done. apply land_ones_mod. lia. Qed.

Lemma testbit_ones_64 i : 0 <= i -> Z.testbit (2 ^ 64 - 1) i = (i <? 64).
Proof.
  intros Hi. replace (2 ^ 64 - 1) with (Z.ones 64) by (rewrite Z.ones_equiv; lia).
  destruct (Z.ltb_spec i 64); [by apply Z.ones_spec_low; lia|apply Z.ones_spec_high; lia].
Qed.

Lemma testbit_low n i : 0 <= n < 64 -> 0 <= i -> Z.testbit (low n) i = (i <? n).
Proof.
  intros Hn Hi. rewrite low_eq by done. replace (2 ^ n - 1) with (Z.ones n) by (rewrite Z.ones_equiv; lia).
  destruct (Z.ltb_spec i n); [by apply Z.ones_spec_low; lia|apply Z.ones_spec_high; lia].
Qed.

Lemma testbit_bits hi lo i :
  0 <= hi < 64 -> 0 <= lo < 64 -> 0 <= i -> Z.testbit (bits hi lo) i = (lo <=? i) && (i <=? hi).
Proof.
  intros Hh Hl Hi. unfold bits. fold (low lo). unfold u64.
  rewrite Z.land_spec, Z.shiftr_spec, testbit_ones_64, Z.testbit_mod_pow2, Z.lnot_spec, testbit_low by lia.
  destruct (Z.ltb_spec (i + (63 - hi)) 64), (Z.ltb_spec i 64), (Z.ltb_spec i lo),
    (Z.leb_spec lo i), (Z.leb_spec i hi); try lia; done.
Qed.

Lemma testbit_land_bits x hi lo i :
  0 <= hi < 64 -> 0 <= lo < 64 -> 0 <= i ->
  Z.testbit (Z.land x (bits hi lo)) i = Z.testbit x i && ((lo <=? i) && (i <=? hi)).
Proof. intros. by rewrite Z.land_spec, testbit_bits. Qed.

Lemma land_bits_eq x y hi lo :
  0 <= hi < 64 -> 0 <= lo < 64 ->
  (forall i, lo <= i <= hi -> Z.testbit x i = Z.testbit y i) ->
  Z.land x (bits hi lo) = Z.land y (bits hi lo).
Proof.
  intros Hh Hl Heq. apply Z.bits_inj'. intros i Hi. rewrite !testbit_land_bits by done.
  destruct (Z.leb_spec lo i), (Z.leb_spec i hi); cbn; rewrite ?andb_false_r, ?andb_true_r; try done.
  apply Heq. lia.
Qed.

Lemma bits_nonneg hi lo : 0 <= bits hi lo.
Proof. unfold bits. apply Z.land_nonneg. right. apply is_u_u64. Qed.

Lemma land_bits_nonneg x hi lo : 0 <= Z.land x (bits hi lo).
Proof. apply Z.land_nonneg. right. apply bits_nonneg. Qed.

Lemma land_bits_bound x hi lo : 0 <= hi < 64 -> 0 <= lo < 64 -> is_u (hi + 1) (Z.land x (bits hi lo)).
Proof.
  intros Hh Hl. apply is_u_bits; [lia|apply land_bits_nonneg|]. intros i Hi.
  rewrite testbit_land_bits by lia. destruct (Z.leb_spec i hi); [lia|by rewrite !andb_false_r].
Qed.

Lemma land_bits_mod x hi lo : 0 <= lo <= hi -> hi < 64 -> Z.land x (bits hi lo) mod 2 ^ lo = 0.
Proof.
  intros Hl Hh. apply Z.bits_inj'. intros i Hi. rewrite Z.testbit_mod_pow2, testbit_land_bits, Z.testbit_0_l by lia.
  destruct (Z.ltb_spec i lo), (Z.leb_spec lo i); cbn; rewrite ?andb_false_r; try done. lia.
Qed.

(** ** Levels *)

Lemma level_bottom_bound level : 0 <= level <= 3 -> 12 <= level_bottom level <= 39.
Proof. unfold level_bottom, STRIDE, GRAIN. lia. Qed.

Lemma start_level_bound inputsize : 25 <= inputsize <= 48 -> 0 <= start_level inputsize <= 2.
Proof.
  intros H. unfold start_level, div_ceil, STRIDE, GRAIN.
  pose proof (Z.div_le_mono (25 - 12 + 9 - 1) (inputsize - 12 + 9 - 1) 9 ltac:(lia) ltac:(lia)).
  pose proof (Z.div_le_mono (inputsize - 12 + 9 - 1) (48 - 12 + 9 - 1) 9 ltac:(lia) ltac:(lia)).
  change ((25 - 12 + 9 - 1) / 9) with 2 in *. change ((48 - 12 + 9 - 1) / 9) with 4 in *. lia.
Qed.

(** The first table translates at most nine bits. *)
Lemma start_level_index inputsize :
  25 <= inputsize <= 48 ->
  let b := level_bottom (start_level inputsize) in b < inputsize <= b + 9.
Proof.
  intros H. unfold level_bottom, start_level, div_ceil, STRIDE, GRAIN. cbv zeta.
  pose proof (Z.div_mod (inputsize - 12 + 9 - 1) 9 ltac:(lia)).
  pose proof (Z.mod_pos_bound (inputsize - 12 + 9 - 1) 9 ltac:(lia)). lia.
Qed.

(** ** The leaf *)

Definition perms_ok (p : Perms) : Prop := 0 <= pm_ap p < 4.

(** The shape of a translation that comes from the tables. *)
Record leaf_ok (t : Translation) : Prop := {
  leaf_level : 1 <= t_level t <= 3;
  leaf_size : t_block_size t = 2 ^ level_bottom (t_level t);
  leaf_pa : is_u 48 (t_pa t);
  leaf_perms : exists p, t_perms t = Some p /\ perms_ok p;
  leaf_attr : exists i, t_attr_index t = Some i /\ 0 <= i < 8;
  leaf_mair : is_u 8 (t_mair_attr t);
  leaf_sh : 0 <= t_sh t < 4;
}.

Lemma oversize_small outputsize addr :
  0 <= outputsize -> is_u 48 addr -> oversize outputsize addr = false -> is_u (Z.min outputsize 48) addr.
Proof.
  intros Ho Ha Hf. unfold oversize in Hf. destruct (Z.ltb_spec outputsize 48).
  - rewrite Z.min_l by lia. unfold test_mask in Hf. cbn in Hf.
    apply negb_false_iff, Z.eqb_eq in Hf. apply is_u_bits; [done|apply Ha|]. intros i Hi.
    destruct (Z.lt_ge_cases i 48); [|by apply (testbit_high 48)].
    assert (Z.testbit (Z.land addr (bits 47 outputsize)) i = false) as Hb by (by rewrite Hf, Z.testbit_0_l).
    rewrite testbit_land_bits in Hb by lia.
    destruct (Z.leb_spec outputsize i), (Z.leb_spec i 47); try lia. by rewrite andb_true_r in Hb.
  - by rewrite Z.min_r by lia.
Qed.

Lemma leaf_pa_bound desc va bottom :
  0 <= va -> 12 <= bottom <= 39 ->
  is_u 48 (Z.lor (Z.land desc (bits 47 bottom)) (Z.land va (low bottom))).
Proof.
  intros Hv Hb. apply is_u_lor; [lia|apply land_bits_bound; lia|].
  rewrite land_low by lia. apply (is_u_weaken bottom); [apply is_u_mod; lia|lia].
Qed.

(** The offset in the block is the offset of the virtual address. *)
Lemma leaf_pa_split desc va bottom :
  12 <= bottom <= 39 ->
  Z.lor (Z.land desc (bits 47 bottom)) (Z.land va (low bottom)) =
    Z.land desc (bits 47 bottom) + va mod 2 ^ bottom.
Proof.
  intros Hb. rewrite land_low by lia.
  pose proof (land_bits_mod desc 47 bottom ltac:(lia) ltac:(lia)) as Hm.
  assert (Z.land desc (bits 47 bottom) = Z.shiftl (Z.land desc (bits 47 bottom) / 2 ^ bottom) bottom) as E.
  { rewrite Z.shiftl_mul_pow2 by lia. rewrite Z.mul_comm. apply Z_div_exact_full_2; [lia|done]. }
  rewrite E at 1. rewrite lor_shiftl_add by (try apply is_u_mod; lia).
  rewrite <- Z.shiftl_mul_pow2, <- E by lia. done.
Qed.

Lemma small_field x n k : 0 <= x -> k = 2 ^ n - 1 -> 0 <= n -> 0 <= Z.land x k < 2 ^ n.
Proof. intros Hx -> Hn. rewrite land_ones_mod by done. apply Z.mod_pos_bound. lia. Qed.

Lemma walk_leaf_ok r out va desc level t tr :
  is_u64 va -> is_u64 desc -> 0 <= level <= 3 -> 0 <= ap_table t < 4 -> 32 <= out ->
  walk_leaf r out va desc level t = Ok tr ->
  leaf_ok tr /\ t_level tr = level /\ is_u (Z.min out 48) (t_pa tr) /\ t_asid tr = asid r /\
  t_mair_attr tr = mair_attr r (default 0 (t_attr_index tr)) /\
  t_pa tr mod t_block_size tr = va mod t_block_size tr.
Proof.
  intros Hva Hd Hl Ht Ho. unfold walk_leaf. destruct (Z.ltb_spec level 1); [discriminate|].
  pose proof (level_bottom_bound level ltac:(lia)) as Hb.
  pose proof (leaf_pa_bound desc va (level_bottom level) ltac:(apply Hva) Hb) as Hpa.
  destruct (oversize _ _) eqn:Hov; [discriminate|].
  destruct (_ =? 0); [discriminate|]. intros Htr%ok_inj. subst tr.
  pose proof (oversize_small out _ ltac:(lia) Hpa Hov) as Hsmall.
  assert (forall n, 0 <= n -> 0 <= Z.shiftr desc n) as Hs by (intros; apply Z.shiftr_nonneg, Hd).
  split; [|split_and!; [reflexivity|exact Hsmall|reflexivity|reflexivity|]].
  2:{ cbn [t_pa t_block_size]. rewrite leaf_pa_split, Z.shiftl_1_l by done.
      rewrite <- Z.add_mod_idemp_l, land_bits_mod by lia. by rewrite Z.add_0_l, Z.mod_mod by lia. }
  split; cbn [t_level t_block_size t_pa t_perms t_attr_index t_mair_attr t_sh].
  - lia.
  - apply Z.shiftl_1_l.
  - exact Hpa.
  - eexists. split; [done|]. unfold perms_ok. cbn.
    apply (is_u_bits 2).
    + lia.
    + apply Z.ldiff_nonneg. left. apply Z.lor_nonneg. split; apply Z.land_nonneg; lia.
    + intros i Hi. rewrite Z.ldiff_spec, Z.lor_spec, !Z.land_spec.
      rewrite (testbit_high 2 3), (testbit_high 2 2) by (try exact Hi; unfold is_u; lia).
      rewrite !andb_false_r. reflexivity.
  - eexists. split; [done|]. by apply (small_field _ 3 7); [apply Hs|..].
  - apply mair_attr_bound.
  - by apply (small_field _ 2 3); [apply Hs|..].
Qed.

(** ** What physical memory promises *)

Class PhysMemoryLaws (P : Type) `{PhysMemory P} : Type := {
  phys_ok : P -> Prop;
  phys_read_sound : forall pa n, triple phys_ok (phys_read pa n)
    (fun l p => phys_ok p /\ length l = n /\ bytes_ok l) (fun _ => phys_ok);
  phys_write_sound : forall pa d, bytes_ok d ->
    triple phys_ok (phys_write pa d) (fun _ => phys_ok) (fun _ => phys_ok);
  phys_u64_sound : forall pa, triple phys_ok (phys_read_u64 pa)
    (fun v p => phys_ok p /\ is_u64 v) (fun _ => phys_ok);
  phys_cmpxchg_sound : forall pa old new, bytes_ok old -> bytes_ok new ->
    triple phys_ok (phys_cmpxchg pa old new) (fun _ => phys_ok) (fun _ => phys_ok);
  phys_broadcast_sound : forall op xt p, phys_ok p -> phys_ok (phys_tlbi_broadcast op xt p);
}.

Section walk.
Context {P : Type} `{PhysMemoryLaws P}.

Lemma add_table_bound t desc : 0 <= ap_table t < 4 -> 0 <= desc -> 0 <= ap_table (add_table t desc) < 4.
Proof.
  intros Ht Hd. cbn. apply (is_u_lor 2); [lia|done|].
  apply (small_field _ 2 3); [by apply Z.shiftr_nonneg|done|lia].
Qed.

(** The loop ends in a descriptor with its level, or in a fault of a level it
    visited. *)
Lemma walk_loop_ok rest out va base top t p :
  phys_ok p -> (rest <= 3)%nat -> 0 <= ap_table t < 4 ->
  phys_ok (walk_loop rest out va base top t p).2 /\
  match (walk_loop rest out va base top t p).1 with
  | Ok (desc, level, t') =>
      is_u64 desc /\ 3 - Z.of_nat rest <= level <= 3 /\ 0 <= ap_table t' < 4
  | Err k => level_ok k
  end.
Proof.
  revert base top t p. induction rest as [|rest IH]; intros base top t p Hp Hr Ht;
    cbn [walk_loop]; unfold mbind, prog_bind, fail_as;
    match goal with |- context [phys_read_u64 ?pa p] => pose proof (phys_u64_sound pa p Hp) as Hd;
      destruct (phys_read_u64 pa p) as [[d|e] p'] eqn:Hrd end;
    cbn [map_err fst snd]; unfold level_ok; cbn [fault_level];
    try (split; [exact Hd|lia]); destruct Hd as [Hp' Hd];
    repeat (match goal with |- context [if ?b then _ else _] => destruct b eqn:? end);
    cbn; unfold level_ok; cbn; try (split; [done|]; lia); try (split; [done|]; split; [done|lia]).
  specialize (IH (Z.land d (bits 47 GRAIN)) (level_bottom (3 - Z.of_nat (S rest)) - 1) (add_table t d) p'
    Hp' ltac:(lia) (add_table_bound _ _ Ht (proj1 Hd))).
  unfold level_ok in IH. destruct (walk_loop rest _ _ _ _ _ _) as [[[[d' l'] t']|k] p'']; cbn in *; [|done].
  destruct IH as (? & ? & ? & ?). split; [done|]. split; [done|]. split; [lia|done].
Qed.

Lemma walk_loop_level rest out va base top t p desc level t' p' :
  walk_loop rest out va base top t p = (Ok (desc, level, t'), p') -> 3 - Z.of_nat rest <= level <= 3.
Proof.
  revert base top t p. induction rest as [|rest IH]; intros base top t p Hw; cbn [walk_loop] in Hw;
    unfold mbind, prog_bind, fail_as in Hw; destruct (phys_read_u64 _ p) as [[d|e] q]; cbn in Hw;
    try discriminate; destruct (_ || _) in Hw; try discriminate.
  - rewrite orb_true_r in Hw. injection Hw as _ <- _ _. lia.
  - destruct (_ || _) in Hw; [injection Hw as _ <- _ _; lia|]. destruct (oversize _ _); [discriminate|].
    apply IH in Hw. lia.
Qed.

(** The loop reads the address only above the leaf it ends in. *)
Lemma walk_loop_same rest out va va' base top t p desc level t' p' :
  walk_loop rest out va base top t p = (Ok (desc, level, t'), p') ->
  (rest <= 3)%nat -> 0 <= top < 48 ->
  (forall i, level_bottom level <= i < 48 -> Z.testbit va i = Z.testbit va' i) ->
  walk_loop rest out va' base top t p = (Ok (desc, level, t'), p').
Proof.
  revert base top t p. induction rest as [|rest IH]; intros base top t p Hw Hr Htop Heq;
    pose proof (walk_loop_level _ _ _ _ _ _ _ _ _ _ _ Hw) as Hlv; cbn [walk_loop] in Hw |- *;
    match type of Hlv with ?l <= _ <= _ => pose proof (level_bottom_bound l ltac:(lia)) as Hb;
      assert (level_bottom level <= level_bottom l) as Hlb by (unfold level_bottom, STRIDE; lia);
      rewrite (land_bits_eq va' va top (level_bottom l)) by (try lia; intros; symmetry; apply Heq; lia)
    end; [exact Hw|].
  unfold mbind, prog_bind, fail_as in *.
  destruct (phys_read_u64 _ p) as [[d|e] q]; cbn in Hw |- *; [|done].
  destruct (_ || _); [done|]. destruct (_ || _); [done|]. destruct (oversize _ _); [done|].
  apply IH; [done|lia|lia|done].
Qed.

Lemma walk_tables_ok r pa_bits va hi p :
  phys_ok p -> is_u64 va -> 32 <= pa_bits <= 48 ->
  phys_ok (walk_tables r pa_bits va hi p).2 /\
  match (walk_tables r pa_bits va hi p).1 with
  | Ok t => leaf_ok t /\ is_u (output_size r pa_bits) (t_pa t) /\ t_asid t = asid r /\
      t_mair_attr t = mair_attr r (default 0 (t_attr_index t)) /\
      t_pa t mod t_block_size t = va mod t_block_size t
  | Err k => level_ok k
  end.
Proof.
  intros Hp Hva Hpb. unfold walk_tables.
  destruct (walk_disabled r hi); [by cbn|]. destruct (bool_decide _); [by cbn|].
  destruct (test_mask _ _); [by cbn|]. destruct (oversize _ _); [by cbn|].
  pose proof (start_level_bound _ (input_size_bound r hi)) as Hs.
  pose proof (output_size_bound r pa_bits Hpb) as Ho.
  unfold mbind, prog_bind.
  pose proof (walk_loop_ok (Z.to_nat (3 - start_level (input_size r hi))) (output_size r pa_bits) va
    (Z.land (ttbr r hi) (bits 47 (3 + input_size r hi - level_bottom (start_level (input_size r hi)))))
    (input_size r hi - 1) no_tables p Hp ltac:(lia) ltac:(cbn; lia)) as [Hp' Hl].
  destruct (walk_loop _ _ _ _ _ _ _) as [[[[d l] t]|k] p']; cbn [fst snd] in *; [|done].
  destruct Hl as (Hd & Hlv & Ht).
  destruct (walk_leaf r (output_size r pa_bits) va d l t) as [tr|k] eqn:Hlf; cbn; (split; [done|]).
  - destruct (walk_leaf_ok r (output_size r pa_bits) va d l t tr Hva Hd ltac:(lia) Ht ltac:(lia) Hlf) as (Hok & _ & Hpa & Ha & Hm & Hoff).
    rewrite Z.min_l in Hpa by lia. done.
  - unfold walk_leaf in Hlf. unfold level_ok.
    destruct (l <? 1); [injection Hlf as <-; cbn; lia|]. destruct (oversize _ _); [injection Hlf as <-; cbn; lia|].
    destruct (_ =? 0); [injection Hlf as <-; cbn; lia|discriminate].
Qed.

(** One leaf serves its whole block. *)
Lemma walk_leaf_same r out va va' desc level t tr :
  32 <= out -> 0 <= level <= 3 -> walk_leaf r out va desc level t = Ok tr ->
  walk_leaf r out va' desc level t =
    Ok (tr <| t_pa := t_pa tr - va mod t_block_size tr + va' mod t_block_size tr |>).
Proof.
  intros Ho Hl. unfold walk_leaf. destruct (Z.ltb_spec level 1); [discriminate|].
  assert (12 <= level_bottom level <= 30) as Hb by (unfold level_bottom, STRIDE, GRAIN; lia).
  assert (forall x, oversize out (Z.lor (Z.land desc (bits 47 (level_bottom level))) (Z.land x (low (level_bottom level))))
    = oversize out (Z.land desc (bits 47 (level_bottom level)))) as Hov.
  { intros x. unfold oversize. destruct (Z.ltb_spec out 48); [|done]. f_equal. unfold test_mask. do 2 f_equal.
    apply Z.bits_inj'. intros i Hi. rewrite !testbit_land_bits by lia. rewrite Z.lor_spec, (Z.land_spec x), testbit_low by lia.
    destruct (Z.leb_spec out i), (Z.ltb_spec i (level_bottom level)); cbn;
      rewrite ?andb_false_r, ?orb_false_r, ?testbit_land_bits by lia; try done; lia. }
  rewrite !Hov. destruct (oversize out _); [discriminate|]. destruct (_ =? 0); [discriminate|].
  intros Htr%ok_inj. subst tr. f_equal. unfold update. cbn [t_pa t_level t_block_size t_perms t_attr_index t_mair_attr t_sh t_ng t_asid].
  f_equal. rewrite !leaf_pa_split, Z.shiftl_1_l by lia. lia.
Qed.

Lemma walk_tables_same r pa_bits va va' hi p t p' :
  32 <= pa_bits <= 48 -> walk_tables r pa_bits va hi p = (Ok t, p') ->
  (forall i, level_bottom (t_level t) <= i < 48 -> Z.testbit va i = Z.testbit va' i) ->
  walk_tables r pa_bits va' hi p =
    (Ok (t <| t_pa := t_pa t - va mod t_block_size t + va' mod t_block_size t |>), p').
Proof.
  intros Hpb Hw Heq. unfold walk_tables in *.
  destruct (walk_disabled r hi); [discriminate|]. destruct (bool_decide _); [discriminate|].
  destruct (test_mask _ _); [discriminate|]. destruct (oversize _ _); [discriminate|].
  pose proof (start_level_bound _ (input_size_bound r hi)) as Hs.
  pose proof (input_size_bound r hi) as Hi.
  pose proof (output_size_bound r pa_bits Hpb) as Ho.
  unfold mbind, prog_bind in *.
  destruct (walk_loop _ _ va _ _ _ _) as [[[[d l] tb]|k] q] eqn:Hl; [|discriminate].
  destruct (walk_leaf r _ va d l tb) as [tr|k] eqn:Hlf; [|discriminate].
  assert (tr = t /\ q = p') as [-> ->] by (unfold mret, prog_ret in Hw; split; congruence). clear Hw.
  assert (t_level t = l) as Hlv.
  { unfold walk_leaf in Hlf. destruct (l <? 1); [discriminate|]. destruct (oversize _ _); [discriminate|].
    destruct (_ =? 0); [discriminate|]. apply ok_inj in Hlf. by subst t. }
  pose proof (walk_loop_level _ _ _ _ _ _ _ _ _ _ _ Hl) as Hll. rewrite Hlv in Heq.
  rewrite (walk_loop_same _ _ va va' _ _ _ _ _ _ _ _ Hl ltac:(lia) ltac:(lia) Heq).
  by rewrite (walk_leaf_same r (output_size r pa_bits) va va' d l tb t ltac:(lia) ltac:(lia) Hlf).
Qed.

(** Where reading a descriptor leaves memory as it was, so does a walk. *)
Lemma walk_loop_quiet rest out va base top t p :
  (forall pa, (phys_read_u64 pa p).2 = p) -> (walk_loop rest out va base top t p).2 = p.
Proof.
  intros Hq. revert base top t. induction rest as [|rest IH]; intros base top t; cbn [walk_loop];
    unfold mbind, prog_bind, fail_as;
    match goal with |- context [phys_read_u64 ?pa p] => pose proof (Hq pa) as Hp;
      destruct (phys_read_u64 pa p) as [[d|e] p'] end; cbn in Hp |- *; subst p'; try done;
    repeat (match goal with |- context [if ?b then _ else _] => destruct b end); try done.
Qed.

Lemma walk_tables_quiet r pa_bits va hi p :
  (forall pa, (phys_read_u64 pa p).2 = p) -> (walk_tables r pa_bits va hi p).2 = p.
Proof.
  intros Hq. unfold walk_tables. destruct (walk_disabled _ _); [done|]. destruct (bool_decide _); [done|].
  destruct (test_mask _ _); [done|]. destruct (oversize _ _); [done|]. unfold mbind, prog_bind.
  match goal with |- context [walk_loop ?a ?b ?c ?d ?e ?f p] => pose proof (walk_loop_quiet a b c d e f p Hq) as Hp;
    destruct (walk_loop a b c d e f p) as [[[[x l] t]|k] p'] end; cbn in Hp |- *; [|done].
  by destruct (walk_leaf _ _ _ _ _ _).
Qed.
End walk.
