(* ===== verification/MmuWf.v ===== *)
(** * Entries of the TLB (theorems about Tlb)

    The invariant of the TLB, kept by every operation; an entry translates the
    addresses of its block exactly as the walk that filled it did; what an
    invalidation removes, and what it leaves. *)

From Stdlib Require Import ZArith Lia Bool.
From stdpp Require Import base list numbers strings.
From S2P Require Import Prelude Decode Memory MmuRegs Walk Tlb Mmu WalkSpec.
Local Open Scope Z_scope.
Local Open Scope vetro_scope.

(** ** Addresses and blocks *)

Lemma land_va_mask va : Z.land va VA_MASK = va mod 2 ^ 56.
Proof. unfold VA_MASK. apply land_ones_mod. lia. Qed.

Lemma key_bound va : is_u 56 (Z.land va VA_MASK).
Proof. rewrite land_va_mask. apply is_u_mod. lia. Qed.

Lemma testbit_key va i : 0 <= i < 56 -> Z.testbit (Z.land va VA_MASK) i = Z.testbit va i.
Proof.
  intros Hi. rewrite land_va_mask, Z.testbit_mod_pow2 by lia. destruct (Z.ltb_spec i 56); [done|lia].
Qed.

(** [x & !(2^n - 1)]. *)
Lemma land_block x n : 0 <= n <= 64 -> is_u64 x -> Z.land x (u64 (Z.lnot (2 ^ n - 1))) = x - x mod 2 ^ n.
Proof.
  intros Hn Hx. rewrite <- land_ones_mod by lia.
  assert (Z.land x (u64 (Z.lnot (2 ^ n - 1))) = Z.ldiff x (2 ^ n - 1)) as ->.
  { apply Z.bits_inj'. intros i Hi. unfold u64. rewrite Z.land_spec, Z.testbit_mod_pow2, Z.lnot_spec, Z.ldiff_spec by lia.
    destruct (Z.ltb_spec i 64); [done|]. by rewrite (testbit_high 64 x). }
  pose proof (Z.sub_nocarry_ldiff x (Z.land x (2 ^ n - 1))) as Hs.
  rewrite Hs.
  - apply Z.bits_inj'. intros i Hi. rewrite !Z.ldiff_spec, Z.land_spec.
    by destruct (Z.testbit x i), (Z.testbit (2 ^ n - 1) i).
  - apply Z.bits_inj'. intros i Hi. rewrite Z.ldiff_spec, Z.land_spec, Z.testbit_0_l.
    by destruct (Z.testbit x i), (Z.testbit (2 ^ n - 1) i).
Qed.

Lemma testbit_div_pow2 x n i : 0 <= n <= i -> Z.testbit x i = Z.testbit (x / 2 ^ n) (i - n).
Proof. intros Hn. rewrite <- Z.shiftr_div_pow2, Z.shiftr_spec by lia. f_equal. lia. Qed.

(** ** Entries *)

Record entry_ok (e : TlbEntry) : Prop := {
  eo_level : 1 <= e_level e <= 3;
  eo_size : e_size e = 2 ^ level_bottom (e_level e);
  eo_va : is_u 56 (e_va_base e);
  eo_va_aligned : e_va_base e mod e_size e = 0;
  eo_pa : is_u 48 (e_pa_base e);
  eo_pa_aligned : e_pa_base e mod e_size e = 0;
  eo_perms : perms_ok (e_perms e);
  eo_attr : 0 <= e_attr_index e < 8;
  eo_sh : 0 <= e_sh e < 4;
}.

Lemma entry_bottom e : entry_ok e -> 12 <= level_bottom (e_level e) <= 30.
Proof. intros He. pose proof (eo_level _ He). unfold level_bottom, STRIDE, GRAIN. lia. Qed.

Lemma entry_size_bound e : entry_ok e -> 4096 <= e_size e <= 2 ^ 30.
Proof.
  intros He. rewrite (eo_size _ He). pose proof (entry_bottom e He).
  change 4096 with (2 ^ 12). split; apply Z.pow_le_mono_r; lia.
Qed.

Lemma entry_contains_range e key :
  entry_ok e -> is_u 56 key ->
  entry_contains e key = true <-> e_va_base e <= key < e_va_base e + e_size e.
Proof.
  intros He Hk. unfold entry_contains. pose proof (entry_size_bound e He) as Hs. pose proof (eo_va _ He) as Hv.
  unfold is_u in *. rewrite Z.ltb_lt. unfold u64. destruct (Z.le_gt_cases (e_va_base e) key).
  - rewrite Z.mod_small by lia. lia.
  - replace ((key - e_va_base e) mod 2 ^ 64) with (key - e_va_base e + 2 ^ 64); [lia|].
    symmetry. rewrite <- (Z.mod_add _ 1) by lia. apply Z.mod_small. lia.
Qed.

(** Two addresses of one block. *)
Lemma entry_contains_block e key :
  entry_ok e -> is_u 56 key -> entry_contains e key = true -> key / e_size e = e_va_base e / e_size e.
Proof.
  intros He Hk Hc%entry_contains_range; [|done..]. pose proof (entry_size_bound e He) as Hs.
  pose proof (Z.div_mod (e_va_base e) (e_size e) ltac:(lia)) as Hd. rewrite (eo_va_aligned _ He) in Hd.
  symmetry. apply (Z.div_unique _ _ _ (key - e_va_base e)); lia.
Qed.

Lemma entry_contains_mod e key :
  entry_ok e -> is_u 56 key -> entry_contains e key = true -> key mod e_size e = key - e_va_base e.
Proof.
  intros He Hk Hc. pose proof (entry_contains_block e key He Hk Hc) as Hb.
  pose proof (entry_size_bound e He) as Hs.
  pose proof (Z.div_mod (e_va_base e) (e_size e) ltac:(lia)) as Hd. rewrite (eo_va_aligned _ He) in Hd.
  pose proof (Z.div_mod key (e_size e) ltac:(lia)). nia.
Qed.

Lemma same_block_bits e va va' i :
  entry_ok e -> entry_contains e (Z.land va VA_MASK) = true -> entry_contains e (Z.land va' VA_MASK) = true ->
  level_bottom (e_level e) <= i < 56 -> Z.testbit va i = Z.testbit va' i.
Proof.
  intros He H1 H2 Hi. pose proof (entry_bottom e He).
  rewrite <- (testbit_key va), <- (testbit_key va') by lia.
  rewrite !(testbit_div_pow2 _ (level_bottom (e_level e)) i) by lia. rewrite <- (eo_size _ He).
  by rewrite (entry_contains_block e _ He (key_bound va) H1), (entry_contains_block e _ He (key_bound va') H2).
Qed.

(** The translation an entry gives is again a leaf. *)
Lemma entry_translation_ok e key r :
  entry_ok e -> is_u 56 key -> entry_contains e key = true -> leaf_ok (entry_translation e key r).
Proof.
  intros He Hk Hc. pose proof (entry_bottom e He) as Hb.
  apply entry_contains_range in Hc; [|done..]. split; cbn.
  - apply He.
  - apply He.
  - pose proof (eo_pa _ He) as Hp. pose proof (eo_pa_aligned _ He) as Hm. unfold is_u in *.
    split; [lia|]. rewrite (eo_size _ He) in *. set (n := level_bottom (e_level e)) in *.
    pose proof (Z.div_mod (e_pa_base e) (2 ^ n) ltac:(lia)) as Hd. rewrite Hm in Hd.
    assert (e_pa_base e / 2 ^ n < 2 ^ (48 - n)).
    { apply Z.div_lt_upper_bound; [lia|]. rewrite <- Z.pow_add_r by lia. replace (n + (48 - n)) with 48 by lia. apply Hp. }
    assert (2 ^ 48 = 2 ^ n * 2 ^ (48 - n)) as -> by (rewrite <- Z.pow_add_r by lia; f_equal; lia). nia.
  - eexists. split; [done|]. apply He.
  - eexists. split; [done|]. apply He.
  - apply mair_attr_bound.
  - apply He.
Qed.

(** An entry made from a walk: it serves the address, and gives the walk's
    translation for it. *)
Lemma entry_new_ok key t r :
  leaf_ok t -> is_u 56 key -> t_pa t mod t_block_size t = key mod t_block_size t ->
  t_mair_attr t = mair_attr r (default 0 (t_attr_index t)) ->
  exists e, entry_new key t = Some e /\ entry_ok e /\ entry_contains e key = true /\
    entry_translation e key r = t /\ e_asid e = t_asid t.
Proof.
  intros Ht Hk Hoff Hm. destruct Ht as [Hl Hs Hpa (p & Hp & Hpok) (a & Ha & Haok) Hmair Hsh].
  unfold entry_new. rewrite Hp, Ha in *. eexists. split; [done|].
  set (n := level_bottom (t_level t)) in *.
  assert (12 <= n <= 30) as Hn by (unfold n, level_bottom, STRIDE, GRAIN; lia).
  assert (forall x w, is_u w x -> 0 <= w <= 64 ->
    is_u w (x - x mod 2 ^ n) /\ (x - x mod 2 ^ n) mod 2 ^ n = 0) as Hblk.
  { intros x w Hx Hw. pose proof (Z.mod_pos_bound x (2 ^ n) ltac:(lia)). pose proof (Z.mod_le x (2 ^ n) ltac:(apply Hx) ltac:(lia)).
    unfold is_u in *. split; [lia|]. rewrite Zminus_mod_idemp_r. by rewrite Z.sub_diag. }
  rewrite Hs in *. rewrite !land_block by first [lia|eapply is_u_weaken; [eassumption|lia]].
  destruct (Hblk key 56 Hk ltac:(lia)) as [Hk1 Hk2]. destruct (Hblk (t_pa t) 48 Hpa ltac:(lia)) as [Hp1 Hp2].
  assert (entry_ok (MkTlbEntry (key - key mod 2 ^ n) (2 ^ n) (t_pa t - t_pa t mod 2 ^ n) (t_asid t)
    (negb (t_ng t)) (t_level t) p a (t_sh t))) as Hok by (by split).
  split_and!; [exact Hok| | |done].
  - apply entry_contains_range; [done|done|]. cbn. pose proof (Z.mod_pos_bound key (2 ^ n) ltac:(lia)). lia.
  - unfold entry_translation. cbn. rewrite Hoff, negb_involutive.
    cbn in Hm. rewrite <- Hm. destruct t; cbn in *. f_equal; try congruence. lia.
Qed.

(** ** The invariant *)

Record tlb_ok (t : Tlb) : Prop := {
  to_entries : length (tlb_entries t) = 512%nat;
  to_gens : length (tlb_gens t) = 512%nat;
  to_log : length (tlb_log t) = 64%nat;
  to_flushes : 0 <= tlb_flushes t;
  to_entry : forall s e, tlb_entries t !! s = Some (Some e) -> entry_ok e;
}.

Lemma slot_bound key : (slot key < 512)%nat.
Proof.
  unfold slot, ENTRIES. change (512 - 1) with (2 ^ 9 - 1). rewrite land_ones_mod by lia.
  pose proof (Z.mod_pos_bound (Z.shiftr key 12) (2 ^ 9) ltac:(lia)). lia.
Qed.

Lemma tlb_new_ok : tlb_ok tlb_new.
Proof.
  split; [apply length_replicate..|done|]. intros s e Hs. cbn in Hs.
  apply lookup_replicate in Hs as [? _]. discriminate.
Qed.

Lemma tlb_lookup_ok t key a e :
  tlb_ok t -> tlb_lookup t key a = Some e -> entry_ok e /\ entry_hit e key a = true.
Proof.
  intros Ht. unfold tlb_lookup. destruct (tlb_entries t !! slot key) as [[e'|]|] eqn:Hs; try discriminate.
  destruct (entry_hit e' key a) eqn:Hh; [|discriminate]. intros [= <-]. split; [by eapply (to_entry _ Ht)|done].
Qed.

Lemma tlb_insert_ok key e t : tlb_ok t -> entry_ok e -> tlb_ok (tlb_insert key e t).
Proof.
  intros Ht He. split; cbn; rewrite ?length_insert; try apply Ht. intros s e' Hs.
  apply list_lookup_insert_Some in Hs as [(_ & [= <-] & _)|(_ & Hs)]; [done|]. by eapply (to_entry _ Ht).
Qed.

Lemma note_ok i t : tlb_ok t -> tlb_ok (note i t).
Proof. intros Ht. split; cbn; rewrite ?length_insert; try apply Ht. pose proof (to_flushes _ Ht). lia. Qed.

Lemma remove_if_ok pred t : tlb_ok t -> tlb_ok (remove_if pred t).
Proof.
  intros Ht. split; cbn; try apply Ht.
  - rewrite length_map. apply Ht.
  - rewrite length_zip_with, (to_entries _ Ht), (to_gens _ Ht). done.
  - intros s e. rewrite list_lookup_fmap. destruct (tlb_entries t !! s) as [o|] eqn:Hs; [|done]. cbn.
    destruct (holds pred o); [done|]. intros [= ->]. by eapply (to_entry _ Ht).
Qed.

Lemma flush_all_ok t : tlb_ok t -> tlb_ok (flush_all t).
Proof.
  intros Ht. pose proof (note_ok InvalAll t Ht) as Hn. split; cbn; rewrite ?length_map; try apply Hn; try apply Ht.
  intros s e. rewrite list_lookup_fmap. by destruct (tlb_entries t !! s).
Qed.

Lemma tlb_tlbi_ok op xt t : tlb_ok t -> tlb_ok (tlb_tlbi op xt t).
Proof.
  intros Ht. unfold tlb_tlbi, flush_va, flush_asid, flush_va_all_asids.
  destruct op; (apply flush_all_ok || apply remove_if_ok); by apply note_ok.
Qed.

(** * Translation through the caches (theorems about Mmu)

    The TLB is transparent while it agrees with the tables: a translation is
    what the walk gives, and an invalidation restores the agreement after the
    tables change. The cache of recent translations is transparent always. *)

(** ** The half of the address space *)

Lemma test_mask_1 x : test_mask x 1 = Z.testbit x 0.
Proof. by apply (test_mask_bit x 0). Qed.

Lemma addr_top_cases r va : addr_top r va = 55 \/ addr_top r va = 63.
Proof. unfold addr_top. destruct (test_mask _ _); auto. Qed.

Lemma select_half r va hi : select r va = Ok hi -> hi = Z.testbit va 55.
Proof.
  unfold select. set (top := addr_top r va). rewrite test_mask_1, Z.shiftr_spec, Z.add_0_l by lia.
  assert (top = 55 \/ top = 63) as Htop by apply addr_top_cases. clearbody top.
  pose proof (input_size_bound r (Z.testbit va top)) as Hi. set (n := input_size r _) in *. clearbody n.
  assert (forall b, Z.land va (bits top n) = b -> Z.testbit va 55 = Z.testbit b 55) as Hb.
  { intros b <-. rewrite testbit_land_bits by lia.
    destruct (Z.leb_spec n 55), (Z.leb_spec 55 top); try lia. by rewrite !andb_true_r. }
  destruct (Z.testbit va top) eqn:Ht.
  - destruct (Z.eqb_spec (Z.land va (bits top n)) (bits top n)) as [E|]; [|discriminate]. intros [= <-].
    rewrite (Hb _ E), testbit_bits by lia. destruct (Z.leb_spec n 55), (Z.leb_spec 55 top); lia.
  - destruct (Z.eqb_spec (Z.land va (bits top n)) 0) as [E|]; [|discriminate]. intros [= <-].
    by rewrite (Hb _ E), Z.testbit_0_l.
Qed.

(** ** The invariant of the MMU *)

(** A recent translation that is still valid agrees with the TLB entry of its
    slot, for every address of its page. *)
Definition recent_agrees (regs : MmuRegs) (tlb : Tlb) (s : nat) (r : Recent) : Prop :=
  exists e, tlb_entries tlb !! s = Some (Some e) /\ r_perms r = e_perms e /\
    r_device r = is_device (mair_attr regs (e_attr_index e)) /\
    forall va, is_u64 va -> va / PAGE_SIZE = r_vpage r ->
      (exists hi, select regs va = Ok hi) /\ slot (Z.land va VA_MASK) = s /\
      entry_hit e (Z.land va VA_MASK) (asid regs) = true /\
      Z.lor (r_pa_page r) (Z.land va (PAGE_SIZE - 1)) =
        t_pa (entry_translation e (Z.land va VA_MASK) regs).

Record recent_ok (m : Mmu) (s : nat) (r : Recent) : Prop := {
  ro_epoch : r_epoch r <= m_recent_epoch m;
  ro_gen : r_tlb_gen r <= generation (m_tlb m) s;
  ro_agrees : enabled (m_recent_regs m) = true -> r_epoch r = m_recent_epoch m ->
    r_tlb_gen r = generation (m_tlb m) s -> recent_agrees (m_recent_regs m) (m_tlb m) s r;
}.

Record mmu_ok (m : Mmu) : Prop := {
  mo_tlb : tlb_ok (m_tlb m);
  mo_pa_bits : 32 <= m_pa_bits m <= 48;
  mo_recent_len : length (m_recent m) = 512%nat;
  mo_recent : forall s r, m_recent m !! s = Some r -> recent_ok m s r;
}.

Lemma gens_lookup t s : tlb_ok t -> (s < 512)%nat -> tlb_gens t !! s = Some (generation t s).
Proof. intros Ht Hs. apply list_lookup_lookup_total_lt. rewrite (to_gens _ Ht). done. Qed.

Lemma mmu_new_ok pa_bits m : mmu_new pa_bits = Some m -> mmu_ok m.
Proof.
  unfold mmu_new. destruct (_ && _) eqn:Hp; [|discriminate]. apply andb_prop in Hp as [H1%Z.leb_le H2%Z.leb_le].
  intros <-%(inj Some). split; [apply tlb_new_ok|done|apply length_replicate|].
  cbn [m_recent]. intros s r [-> Hs]%lookup_replicate. split; cbn [m_recent_epoch m_recent_regs m_tlb r_epoch r_tlb_gen EMPTY].
  - lia.
  - unfold generation. cbn. rewrite lookup_total_replicate_2; [lia|exact Hs].
  - discriminate.
Qed.

(** Generations never go back, and a slot whose generation is unchanged is
    unchanged. *)
Definition slots_age (t t' : Tlb) : Prop :=
  forall s, (s < 512)%nat -> generation t s <= generation t' s /\
    (generation t' s = generation t s -> tlb_entries t' !! s = tlb_entries t !! s).

Lemma tlb_insert_age key e t : tlb_ok t -> slots_age t (tlb_insert key e t).
Proof.
  intros Ht s Hs. unfold generation. cbn. pose proof (slot_bound key) as Hk.
  destruct (decide (s = slot key)) as [->|Hne].
  - rewrite list_lookup_total_insert_eq by (rewrite (to_gens _ Ht); done). split; [lia|]. intros. lia.
  - rewrite list_lookup_total_insert_ne, list_lookup_insert_ne by done. done.
Qed.

Lemma note_age i t : slots_age t (note i t).
Proof. intros s Hs. done. Qed.

Lemma remove_if_age pred t : tlb_ok t -> slots_age t (remove_if pred t).
Proof.
  intros Ht s Hs. unfold generation. cbn.
  destruct (lookup_lt_is_Some_2 (tlb_entries t) s ltac:(by rewrite (to_entries _ Ht))) as [o Ho].
  pose proof (gens_lookup t s Ht Hs) as Hg.
  assert (zip_with (fun o g => if holds pred o then g + 1 else g) (tlb_entries t) (tlb_gens t) !! s =
    Some (if holds pred o then generation t s + 1 else generation t s)) as Hz by (by rewrite lookup_zip_with, Ho, Hg).
  rewrite (list_lookup_total_correct _ _ _ Hz), list_lookup_fmap, Ho. fold (generation t s). cbn.
  destruct (holds pred o); [split; [lia|intros; lia]|done].
Qed.

Lemma flush_all_age t : tlb_ok t -> slots_age t (flush_all t).
Proof.
  intros Ht s Hs. unfold generation. cbn. pose proof (gens_lookup t s Ht Hs) as Hg.
  assert (map (fun g => g + 1) (tlb_gens t) !! s = Some (generation t s + 1)) as Hm
    by (by rewrite list_lookup_fmap, Hg).
  rewrite (list_lookup_total_correct _ _ _ Hm). fold (generation t s). split; [lia|intros; lia].
Qed.

Lemma slots_age_trans t1 t2 t3 : slots_age t1 t2 -> slots_age t2 t3 -> slots_age t1 t3.
Proof.
  intros H1 H2 s Hs. destruct (H1 s Hs) as [L1 E1], (H2 s Hs) as [L2 E2]. split; [lia|].
  intros Heq. rewrite E2, E1 by lia. done.
Qed.

Lemma tlb_tlbi_age op xt t : tlb_ok t -> slots_age t (tlb_tlbi op xt t).
Proof.
  intros Ht. unfold tlb_tlbi, flush_va, flush_asid, flush_va_all_asids.
  destruct op; (eapply slots_age_trans; [apply note_age|]); (apply flush_all_age || apply remove_if_age);
    by apply note_ok.
Qed.

Lemma recent_agrees_age regs t t' s r :
  (s < 512)%nat -> slots_age t t' -> generation t' s = generation t s ->
  recent_agrees regs t s r -> recent_agrees regs t' s r.
Proof.
  intros Hs Hage Hg (e & He & Hp & Hd & Hva). exists e. split; [|done].
  destruct (Hage s Hs) as [_ ->]; done.
Qed.

(** An operation on the TLB alone keeps the invariant. *)
Lemma mmu_ok_tlb f m :
  mmu_ok m -> tlb_ok (f (m_tlb m)) -> slots_age (m_tlb m) (f (m_tlb m)) -> mmu_ok (m <| m_tlb ::= f |>).
Proof.
  intros Hm Hf Hage. split; cbn; [done|apply Hm|apply Hm|]. intros s r Hr.
  pose proof (lookup_lt_Some _ _ _ Hr) as Hs. rewrite (mo_recent_len _ Hm) in Hs.
  destruct (mo_recent _ Hm s r Hr) as [He Hg Ha]. destruct (Hage s Hs) as [Hle _].
  split; cbn; [done|lia|]. intros Hen Hep Hgen.
  apply (recent_agrees_age _ (m_tlb m)); [done|done|lia|]. apply Ha; [done|done|lia].
Qed.

Lemma mmu_tlbi_ok op xt m : mmu_ok m -> mmu_ok (mmu_tlbi op xt m).
Proof. intros Hm. apply mmu_ok_tlb; [done|apply tlb_tlbi_ok, Hm|apply tlb_tlbi_age, Hm]. Qed.

Lemma mmu_flush_all_ok m : mmu_ok m -> mmu_ok (mmu_flush_all m).
Proof. intros Hm. apply mmu_ok_tlb; [done|apply flush_all_ok, Hm|apply flush_all_age, Hm]. Qed.

Lemma mmu_set_regs_ok regs m : mmu_ok m -> mmu_ok (m <| m_regs := regs |>).
Proof. intros [H1 H2 H3 H4]. split; [done..|]. intros s r Hr. by destruct (H4 s r Hr). Qed.

Lemma set_last_fault_ok f m : mmu_ok m -> mmu_ok (set_last_fault f m).
Proof. intros [H1 H2 H3 H4]. split; [done..|]. intros s r Hr. by destruct (H4 s r Hr). Qed.

Lemma sync_recent_ok regs m : mmu_ok m -> mmu_ok (sync_recent regs m) /\ m_recent_regs (sync_recent regs m) = regs.
Proof.
  intros Hm. unfold sync_recent. destruct (same regs (m_recent_regs m)) eqn:Hs; cbn [negb].
  - apply same_eq in Hs. by split.
  - split; [|done]. destruct Hm as [H1 H2 H3 H4]. split; [done..|]. intros s r Hr.
    destruct (H4 s r Hr) as [He Hg _]. split; cbn; [lia|done|]. intros. lia.
Qed.
