(* ===== verification/MmuCache.v ===== *)
(** * The caches in front of the tables are transparent (theorems about Mmu)

    [translate] gives what the walk gives while the TLB agrees with the tables,
    and keeps it in agreement; [translate_pa_with], with its cache of recent
    translations, gives what [translate_checked] gives, always. *)

From Stdlib Require Import ZArith Lia Bool.
From stdpp Require Import base list numbers strings.
From S2P Require Import Prelude Decode Memory MmuRegs Walk WalkSpec Tlb MmuWf Mmu.
Local Open Scope Z_scope.
Local Open Scope vetro_scope.

(** ** One page *)

Lemma page_testbit va va' i : va / PAGE_SIZE = va' / PAGE_SIZE -> 12 <= i -> Z.testbit va i = Z.testbit va' i.
Proof.
  intros Hp Hi. rewrite !(testbit_div_pow2 _ 12 i) by lia. unfold PAGE_SIZE in Hp. change (2 ^ 12) with 4096. by rewrite Hp.
Qed.

Lemma addr_top_page r va va' : va / PAGE_SIZE = va' / PAGE_SIZE -> addr_top r va = addr_top r va'.
Proof.
  intros Hp. unfold addr_top. rewrite !test_mask_1, !Z.shiftr_spec by lia. by rewrite (page_testbit va va').
Qed.

Lemma select_page r va va' : va / PAGE_SIZE = va' / PAGE_SIZE -> select r va = select r va'.
Proof.
  intros Hp. unfold select. rewrite (addr_top_page r va va' Hp). set (top := addr_top r va').
  assert (top = 55 \/ top = 63) as Htop by apply addr_top_cases. clearbody top.
  rewrite !test_mask_1, !Z.shiftr_spec by lia. rewrite (page_testbit va va' (0 + top)) by (done || lia).
  pose proof (input_size_bound r (Z.testbit va' (0 + top))).
  rewrite (land_bits_eq va va' top) by first [lia|intros; apply page_testbit; [done|lia]]. done.
Qed.

Lemma select_err r va k : select r va = Err k -> k = Translation_ 0.
Proof. unfold select. case_match; [discriminate|]. congruence. Qed.

Lemma key_page va va' : va / PAGE_SIZE = va' / PAGE_SIZE ->
  Z.land va VA_MASK / 4096 = Z.land va' VA_MASK / 4096.
Proof.
  intros Hp. rewrite !land_va_mask. change 4096 with (2 ^ 12). apply Z.bits_inj'. intros i Hi.
  rewrite <- !Z.shiftr_div_pow2, !Z.shiftr_spec, !Z.testbit_mod_pow2 by lia.
  by rewrite (page_testbit va va' (i + 12)) by (done || lia).
Qed.

Lemma slot_page va va' : va / PAGE_SIZE = va' / PAGE_SIZE ->
  slot (Z.land va VA_MASK) = slot (Z.land va' VA_MASK).
Proof. intros Hp. unfold slot. rewrite !Z.shiftr_div_pow2 by lia. change (2 ^ 12) with 4096. by rewrite (key_page va va' Hp). Qed.

Lemma key_mod_page va : Z.land va VA_MASK mod 4096 = va mod 4096.
Proof. rewrite land_va_mask. change 4096 with (2 ^ 12). apply pow_mod_mod. lia. Qed.

Lemma page_multiple n x : 12 <= n -> x mod 2 ^ n = 0 -> x mod 4096 = 0.
Proof. intros Hn Hx. change 4096 with (2 ^ 12). rewrite <- (pow_mod_mod x n 12), Hx by lia. done. Qed.

Lemma contains_page e key key' :
  entry_ok e -> is_u 56 key -> is_u 56 key' -> key / 4096 = key' / 4096 ->
  entry_contains e key = true -> entry_contains e key' = true.
Proof.
  intros He Hk Hk' Hp Hc. apply entry_contains_range in Hc; [|done..]. apply entry_contains_range; [done..|].
  pose proof (entry_bottom e He) as Hb. pose proof (eo_va_aligned _ He) as Hv. rewrite (eo_size _ He) in *.
  apply page_multiple in Hv; [|lia].
  assert (2 ^ level_bottom (e_level e) mod 4096 = 0) as Hs.
  { apply (page_multiple (level_bottom (e_level e))); [lia|]. apply Z.mod_same. lia. }
  pose proof (Z.div_mod key 4096 ltac:(lia)). pose proof (Z.div_mod key' 4096 ltac:(lia)).
  pose proof (Z.mod_pos_bound key' 4096 ltac:(lia)). pose proof (Z.mod_pos_bound key 4096 ltac:(lia)).
  pose proof (Z.div_mod (e_va_base e) 4096 ltac:(lia)).
  pose proof (Z.div_mod (2 ^ level_bottom (e_level e)) 4096 ltac:(lia)). lia.
Qed.

(** The page of the physical address, and the offset. *)
Lemma translation_page e r va va' :
  entry_ok e -> va / PAGE_SIZE = va' / PAGE_SIZE -> entry_contains e (Z.land va VA_MASK) = true ->
  Z.lor (page_base (t_pa (entry_translation e (Z.land va VA_MASK) r))) (Z.land va' (PAGE_SIZE - 1)) =
    t_pa (entry_translation e (Z.land va' VA_MASK) r).
Proof.
  intros He Hp Hc. pose proof (leaf_pa _ (entry_translation_ok e _ r He (key_bound va) Hc)) as Hpa.
  pose proof (entry_bottom e He) as Hb. pose proof (eo_va_aligned _ He) as Hv. pose proof (eo_pa_aligned _ He) as Hq.
  rewrite (eo_size _ He) in *. apply page_multiple in Hv, Hq; [|lia..].
  unfold page_base, PAGE_SIZE. change (4096 - 1) with (2 ^ 12 - 1) at 2. rewrite land_ones_mod by lia.
  change (4096 - 1) with (2 ^ 12 - 1). rewrite land_block by first [lia|apply (is_u_weaken 48); [done|lia]].
  set (x := t_pa (entry_translation e (Z.land va VA_MASK) r)) in *.
  pose proof (Z.div_mod x (2 ^ 12) ltac:(lia)).
  assert (x - x mod 2 ^ 12 = Z.shiftl (x / 2 ^ 12) 12) as ->.
  { rewrite Z.shiftl_mul_pow2 by lia. lia. }
  rewrite lor_shiftl_add by (try apply is_u_mod; lia). unfold x in *. cbn [t_pa entry_translation] in *.
  pose proof (key_page va va' Hp) as Hkp. pose proof (key_mod_page va'). pose proof (key_mod_page va).
  set (k := Z.land va VA_MASK) in *. set (k' := Z.land va' VA_MASK) in *. change (2 ^ 12) with 4096 in *.
  pose proof (Z.div_mod k 4096 ltac:(lia)). pose proof (Z.div_mod k' 4096 ltac:(lia)).
  pose proof (Z.div_mod (e_va_base e) 4096 ltac:(lia)). pose proof (Z.div_mod (e_pa_base e) 4096 ltac:(lia)).
  assert ((e_pa_base e + (k - e_va_base e)) / 4096 = e_pa_base e / 4096 + (k / 4096 - e_va_base e / 4096)) as ->; [|lia].
  pose proof (Z.mod_pos_bound k 4096 ltac:(lia)).
  symmetry. apply (Z.div_unique _ _ _ (k mod 4096)); lia.
Qed.

Section caches.
Context {P : Type} `{PhysMemoryLaws P}.

(** ** The TLB, or the walk *)

(** What [tlb_or_walk] leaves: only the TLB changes, and the slot of the address
    holds an entry that gives the translation. *)
Definition filled (regs : MmuRegs) (va : Z) (m m' : Mmu) (t : Translation) : Prop :=
  exists tlb e, m' = m <| m_tlb := tlb |> /\ tlb_ok tlb /\ slots_age (m_tlb m) tlb /\
    tlb_entries tlb !! slot (Z.land va VA_MASK) = Some (Some e) /\ entry_ok e /\
    entry_hit e (Z.land va VA_MASK) (asid regs) = true /\
    entry_translation e (Z.land va VA_MASK) regs = t.

Lemma slots_age_refl t : slots_age t t.
Proof. done. Qed.

Lemma insert_lookup_slot key e t : tlb_ok t -> tlb_entries (tlb_insert key e t) !! slot key = Some (Some e).
Proof. intros Ht. cbn. apply list_lookup_insert_eq. rewrite (to_entries _ Ht). apply slot_bound. Qed.

Lemma leaf_offset_key va t :
  leaf_ok t -> t_pa t mod t_block_size t = va mod t_block_size t ->
  t_pa t mod t_block_size t = Z.land va VA_MASK mod t_block_size t.
Proof.
  intros Ht ->. rewrite (leaf_size _ Ht), land_va_mask. symmetry. apply pow_mod_mod.
  pose proof (leaf_level _ Ht). unfold level_bottom, STRIDE, GRAIN. lia.
Qed.

Lemma tlb_or_walk_ok regs va a el hi m p :
  mmu_ok m -> phys_ok p -> is_u64 va ->
  match tlb_or_walk regs va a el hi (m, p) with
  | (Ok t, (m', p')) => phys_ok p' /\ filled regs va m m' t
  | (Err f, (m', p')) => phys_ok p' /\ m' = m /\ level_ok (f_kind f)
  end.
Proof.
  intros Hm Hph Hva. pose proof (mo_tlb _ Hm) as Ht. unfold tlb_or_walk, mbind, prog_bind, mget, gets. cbn [fst snd].
  destruct (tlb_lookup (m_tlb m) (Z.land va VA_MASK) (asid regs)) as [e|] eqn:Hl.
  - destruct (tlb_lookup_ok _ _ _ _ Ht Hl) as [He Hh]. split; [done|]. exists (m_tlb m), e.
    split; [by destruct m|]. split_and!; try done.
    unfold tlb_lookup in Hl. destruct (tlb_entries _ !! _) as [[e'|]|]; try discriminate.
    destruct (entry_hit e' _ _); [|discriminate]. by injection Hl as ->.
  - pose proof (walk_tables_ok regs (m_pa_bits m) va hi p Hph Hva (mo_pa_bits _ Hm)) as [Hph' Hw].
    unfold on_phys. cbn [fst snd] in *. destruct (walk_tables regs (m_pa_bits m) va hi p) as [[t|k] p']; cbn [fst snd map_err] in *; [|split; [exact Hph'|split; [reflexivity|exact Hw]]].
    destruct Hw as (Hlf & _ & Has & Hma & Hoff).
    destruct (entry_new_ok (Z.land va VA_MASK) t regs Hlf (key_bound va) (leaf_offset_key _ _ Hlf Hoff) Hma)
      as (e & -> & He & Hc & Htr & Hea).
    split; [exact Hph'|]. exists (tlb_insert (Z.land va VA_MASK) e (m_tlb m)), e.
    split_and!; [done|by apply tlb_insert_ok|by apply tlb_insert_age|by apply insert_lookup_slot|done| |done].
    unfold entry_hit. rewrite Hc, Hea, Has, Z.eqb_refl. by rewrite orb_true_r.
Qed.

(** ** The cache of recent translations *)

(** What a successful [translate_checked] with the MMU on has checked. *)
Definition checked (regs : MmuRegs) (a : Access) (el : Z) (aligned : bool) (t : Translation) : Prop :=
  check_device_alignment t a aligned = Ok tt /\ check regs t a el = Ok tt.

Lemma translate_checked_on va a el aligned m p :
  mmu_ok m -> phys_ok p -> is_u64 va -> enabled (m_regs m) = true ->
  match translate_checked va a el aligned (m, p) with
  | (Ok t, (m', p')) => phys_ok p' /\ filled (m_regs m) va m m' t /\ checked (m_regs m) a el aligned t /\
      is_ok (select (m_regs m) va) = true
  | (Err f, (m', p')) => phys_ok p' /\ level_ok (f_kind f) /\ exists tlb, m' = m <| m_tlb := tlb |> /\
      tlb_ok tlb /\ slots_age (m_tlb m) tlb
  end.
Proof.
  intros Hm Hph Hva Hen. unfold translate_checked. unfold mbind at 1, prog_bind at 1, mget at 1, gets at 1. cbn [fst].
  rewrite Hen. cbn [negb]. unfold mbind, prog_bind, or_fault.
  destruct (select (m_regs m) va) as [hi|k] eqn:Hsel; cbn [map_err].
  2:{ split; [done|]. split; [|exists (m_tlb m); split_and!; [by destruct m|apply Hm|done]].
      by apply select_err in Hsel as ->. }
  pose proof (tlb_or_walk_ok (m_regs m) va a el hi m p Hm Hph Hva) as Hw.
  destruct (tlb_or_walk (m_regs m) va a el hi (m, p)) as [[t|f] [m' p']]; destruct Hw as [Hph' Hw].
  2:{ destruct Hw as [-> Hk]. split; [done|]. split; [done|]. exists (m_tlb m). split_and!; [by destruct m|apply Hm|done]. }
  pose proof Hw as (tlb & e & Hm' & Htlb & Hage & Hent & Heok & Hhit & Htr).
  destruct (check_device_alignment t a aligned) as [[]|k] eqn:Hca; cbn [map_err].
  2:{ split; [done|]. split; [|by exists tlb]. unfold check_device_alignment in Hca. destruct (_ && _); [|discriminate]. by injection Hca as <-. }
  destruct (check (m_regs m) t a el) as [[]|k] eqn:Hck; cbn [map_err].
  - split; [exact Hph'|]. split; [exact Hw|]. split; [by split|reflexivity].
  - split; [exact Hph'|]. split; [|by exists tlb]. unfold check in Hck. destruct (t_perms t); [|discriminate].
    destruct (negb _); [|discriminate]. injection Hck as <-. unfold level_ok. cbn.
    rewrite <- Htr. cbn. pose proof (eo_level _ Heok). lia.
Qed.

(** A recent entry just filled agrees with the TLB. *)
Lemma filled_agrees regs va m m' t perms ep g :
  is_u64 va -> filled regs va m m' t -> t_perms t = Some perms -> is_ok (select regs va) = true ->
  recent_agrees regs (m_tlb m') (slot (Z.land va VA_MASK))
    (MkRecent (va / PAGE_SIZE) (page_base (t_pa t)) perms (is_device (t_mair_attr t)) ep g).
Proof.
  intros Hva (tlb & e & -> & Htlb & Hage & Hent & He & Hhit & <-) Hp Hsel.
  exists e. split; [done|]. cbn in Hp. injection Hp as <-. split; [done|]. split; [done|].
  cbn [r_vpage r_pa_page]. intros va' Hva' Hpg. symmetry in Hpg.
  destruct (select regs va) as [hi|] eqn:Hs; [|discriminate].
  apply andb_prop in Hhit as [Hc Ha]. split_and!.
  - exists hi. by rewrite <- (select_page regs va va' Hpg).
  - symmetry. by apply slot_page.
  - unfold entry_hit. rewrite Ha, andb_true_r.
    apply (contains_page e (Z.land va VA_MASK)); [done|apply key_bound..|by apply key_page|done].
  - by apply translation_page.
Qed.

(** With the MMU off nothing changes. *)
Lemma translate_checked_off va a el aligned m p :
  is_u64 va -> 32 <= m_pa_bits m <= 48 -> enabled (m_regs m) = false ->
  match translate_checked va a el aligned (m, p) with
  | (Ok t, s') => s' = (m, p) /\ t_perms t = None /\ is_u 48 (t_pa t)
  | (Err f, s') => s' = (m, p) /\ level_ok (f_kind f)
  end.
Proof.
  intros Hva Hpb Hen. unfold translate_checked. unfold mbind at 1, prog_bind at 1, mget at 1, gets at 1. cbn [fst].
  rewrite Hen. cbn [negb]. unfold mbind, prog_bind, mget, gets, of_result, or_fault. cbn [fst].
  unfold mmu_off. destruct (test_mask va _); [by split|].
  set (t := MkTranslation _ _ _ _ _ _ _ _ _).
  destruct (check_device_alignment t a aligned) as [[]|k] eqn:Hca; cbn [map_err].
  - split_and!; [done|done|]. cbn [t t_pa]. rewrite land_low by lia.
    apply (is_u_weaken (m_pa_bits m)); [apply is_u_mod; lia|lia].
  - split; [done|]. unfold check_device_alignment in Hca. destruct (_ && _); [|discriminate]. by injection Hca as <-.
Qed.

(** The full path reads and writes only the registers, the size and the TLB. *)
Lemma translate_checked_frame va a el aligned m n p :
  m_regs m = m_regs n -> m_pa_bits m = m_pa_bits n -> m_tlb m = m_tlb n ->
  let '(r, (m', p')) := translate_checked va a el aligned (m, p) in
  translate_checked va a el aligned (n, p) = (r, (n <| m_tlb := m_tlb m' |>, p')).
Proof.
  destruct m as [r b t lf rc rr ep], n as [r' b' t' lf' rc' rr' ep']. cbn [m_regs m_pa_bits m_tlb]. intros <- <- <-.
  unfold translate_checked, tlb_or_walk, mbind, prog_bind, mget, mset, gets, modify, of_result, or_fault,
    on_phys, mret, prog_ret. cbn [fst snd m_regs m_pa_bits m_tlb].
  destruct (negb _).
  { destruct (mmu_off _ _ _ _ _) as [tr|f]; [|reflexivity].
    destruct (check_device_alignment _ _ _); reflexivity. }
  destruct (select _ _) as [hi|k]; cbn [map_err fst snd m_regs m_pa_bits m_tlb]; [|reflexivity].
  destruct (tlb_lookup _ _ _) as [e|]; cbn [map_err fst snd m_regs m_pa_bits m_tlb].
  { destruct (check_device_alignment _ _ _); [destruct (check _ _ _ _)|]; reflexivity. }
  destruct (walk_tables _ _ _ _ _) as [[tr|k] q]; cbn [map_err]; [|reflexivity].
  destruct (entry_new _ _) as [e|]; (destruct (check_device_alignment _ _ _); [destruct (check _ _ _ _)|]);
    reflexivity.
Qed.

(** A hit of the recent cache is a hit of the TLB that passes the checks. *)
Lemma recent_hit_checked va a el aligned m p :
  mmu_ok m -> is_u64 va -> m_recent_regs m = m_regs m -> enabled (m_regs m) = true ->
  let s := slot (Z.land va VA_MASK) in
  recent_hit m va a el aligned s = true ->
  exists t, translate_checked va a el aligned (m, p) = (Ok t, (m, p)) /\
    t_pa t = Z.lor (r_pa_page (m_recent m !!! s)) (Z.land va (PAGE_SIZE - 1)).
Proof.
  intros Hm Hva Hrr Hen s Hhit. unfold recent_hit in Hhit.
  apply andb_prop in Hhit as [Hhit Hperm]. apply andb_prop in Hhit as [Hhit Hal].
  apply andb_prop in Hhit as [Hhit Hgen%Z.eqb_eq]. apply andb_prop in Hhit as [Hpg%Z.eqb_eq Hep%Z.eqb_eq].
  assert (m_recent m !! s = Some (m_recent m !!! s)) as Hr.
  { apply list_lookup_lookup_total_lt. rewrite (mo_recent_len _ Hm). apply slot_bound. }
  set (r := m_recent m !!! s) in *. destruct (mo_recent _ Hm s r Hr) as [_ _ Hag].
  rewrite Hrr in *. destruct (Hag Hen Hep Hgen) as (e & He & Hp & Hd & Hall).
  destruct (Hall va Hva (eq_sym Hpg)) as ((hi & Hsel) & _ & Hh & Hpa).
  assert (tlb_lookup (m_tlb m) (Z.land va VA_MASK) (asid (m_regs m)) = Some e) as Hl.
  { unfold tlb_lookup. fold s. by rewrite He, Hh. }
  set (t := entry_translation e (Z.land va VA_MASK) (m_regs m)) in *.
  exists t. split; [|done].
  assert (check_device_alignment t a aligned = Ok tt) as Hca.
  { unfold check_device_alignment. fold (is_device (t_mair_attr t)). cbn [t t_mair_attr entry_translation].
    rewrite <- Hd. destruct aligned, (bool_decide (a = Fetch)), (r_device r); done. }
  assert (check (m_regs m) t a el = Ok tt) as Hck.
  { unfold check. cbn [t t_perms entry_translation]. by rewrite <- Hp, Hperm. }
  unfold translate_checked, tlb_or_walk, mbind, prog_bind, mget, gets, or_fault, mret, prog_ret. cbn [fst snd].
  rewrite Hen. cbn [negb]. rewrite Hsel. cbn [map_err fst snd]. rewrite Hl. fold t. by rewrite Hca, Hck.
Qed.

(** Filling a recent entry keeps the invariant. *)
Lemma fill_ok va m m' t perms :
  mmu_ok m -> is_u64 va -> m_recent_regs m = m_regs m -> filled (m_regs m) va m m' t ->
  is_ok (select (m_regs m) va) = true -> t_perms t = Some perms ->
  let s := slot (Z.land va VA_MASK) in
  mmu_ok (m' <| m_recent ::= fun l => <[s := MkRecent (va / PAGE_SIZE) (page_base (t_pa t)) perms
    (is_device (t_mair_attr t)) (m_recent_epoch m') (generation (m_tlb m') s)]> l |>).
Proof.
  intros Hm Hva Hrr Hf Hsel Hp s.
  pose proof (filled_agrees (m_regs m) va m m' t perms (m_recent_epoch m') (generation (m_tlb m') s) Hva Hf Hp Hsel) as Hag.
  destruct Hf as (tlb & e & -> & Htlb & Hage & _).
  pose proof (mmu_ok_tlb (fun _ => tlb) m Hm Htlb Hage) as Hm'.
  split; cbn; [done|apply Hm|rewrite length_insert; apply Hm|]. intros s' r Hr.
  apply list_lookup_insert_Some in Hr as [(<- & <- & _)|(_ & Hr)].
  - split; cbn; [done|done|]. intros _ _ _. rewrite Hrr. exact Hag.
  - by destruct (mo_recent _ Hm' s' r Hr).
Qed.

Lemma recent_transparent_frame regs va a el aligned m p :
  mmu_ok m -> phys_ok p -> is_u64 va ->
  let '(r, (m1, p1)) := translate_checked va a el aligned (m <| m_regs := regs |>, p) in
  let '(r', (m2, p2)) := translate_pa_with regs va a el aligned (m, p) in
  r' = map_ok t_pa r /\ p2 = p1 /\ m_tlb m2 = m_tlb m1 /\ m_regs m2 = regs /\ mmu_ok m2.
Proof.
  intros Hm Hph Hva. set (n := sync_recent regs (m <| m_regs := regs |>)).
  destruct (sync_recent_ok regs (m <| m_regs := regs |>) (mmu_set_regs_ok regs m Hm)) as [Hn Hrr]. fold n in Hn, Hrr.
  assert (m_regs n = regs /\ m_pa_bits n = m_pa_bits m /\ m_tlb n = m_tlb m) as (E1 & E2 & E3).
  { unfold n, sync_recent. by destruct (negb _). }
  pose proof (translate_checked_frame va a el aligned n (m <| m_regs := regs |>) p E1 E2 E3) as Hfr.
  change (translate_pa_with regs va a el aligned (m, p)) with (translate_recent va a el aligned (n, p)).
  unfold translate_recent, mbind, prog_bind, mget, gets, id. cbn [fst snd].
  set (s := slot (Z.land va VA_MASK)). rewrite Hrr, <- E1.
  destruct (enabled (m_regs n)) eqn:Hen; cbn [andb].
  - destruct (recent_hit n va a el aligned s) eqn:Hh.
    + destruct (recent_hit_checked va a el aligned n p Hn Hva ltac:(congruence) Hen Hh) as (t & Ht & Hpa).
      rewrite Ht in Hfr. rewrite E1 in *. rewrite Hfr. cbn. by rewrite Hpa.
    + pose proof (translate_checked_on va a el aligned n p Hn Hph Hva Hen) as Hc.
      unfold translate_fill, mbind, prog_bind, mget, gets.
      destruct (translate_checked va a el aligned (n, p)) as [[t|f] [n' p']]; rewrite E1 in *; rewrite Hfr.
      * destruct Hc as (_ & Hf & _ & Hsel). pose proof Hf as (tlb & e & Hn' & _ & _ & _ & He & _ & Htr).
        assert (t_perms t = Some (e_perms e)) as Hp by (by rewrite <- Htr).
        assert (m_regs n' = regs) as En by (by rewrite Hn').
        cbn [fst snd]. rewrite Hp, En, Hen. cbn.
        pose proof (fill_ok va n n' t (e_perms e) Hn Hva ltac:(congruence)) as Hfill. rewrite E1 in *.
        split_and!; [done|done|done|done|]. by apply Hfill.
      * destruct Hc as (_ & _ & tlb & -> & Htlb & Hage). cbn. split_and!; [done|done|done|done|].
        by apply (mmu_ok_tlb (fun _ => tlb)).
  - pose proof (translate_checked_off va a el aligned n p Hva (mo_pa_bits _ Hn) Hen) as Hc.
    unfold translate_fill, mbind, prog_bind, mget, gets.
    destruct (translate_checked va a el aligned (n, p)) as [[t|f] [n' p']]; rewrite E1 in *; rewrite Hfr.
    + destruct Hc as ([= -> ->] & Hp & _). cbn [fst snd]. rewrite Hp. by cbn.
    + destruct Hc as ([= -> ->] & _). by cbn.
Qed.

(** C3: the cache of recent translations changes nothing that can be observed.
    Whatever it holds, [translate_pa_with] returns the physical address or the
    fault that the full path through the TLB returns with the same registers,
    reads the same descriptors from physical memory, and leaves the same TLB;
    and the cache stays valid. *)
Theorem recent_transparent regs va a el aligned m p :
  mmu_ok m -> phys_ok p -> is_u64 va ->
  let '(r, (m1, p1)) := translate_checked va a el aligned (m <| m_regs := regs |>, p) in
  let '(r', (m2, p2)) := translate_pa_with regs va a el aligned (m, p) in
  r' = map_ok t_pa r /\ p2 = p1 /\ m_tlb m2 = m_tlb m1 /\ m_regs m2 = regs /\ mmu_ok m2.
Proof. exact (recent_transparent_frame regs va a el aligned m p). Qed.
End caches.
