(* ===== verification/TlbCoherent.v ===== *)
(** * The TLB and the tables (theorems about Tlb and Mmu)

    The TLB agrees with the tables when every entry it would use gives the
    translation that a walk would give. Then a translation through the TLB is
    a walk, and the agreement lasts; after the tables change, the TLBI of the
    pages that changed restores it. *)

From Stdlib Require Import ZArith Lia Bool.
From stdpp Require Import base list numbers strings.
From S2P Require Import Prelude Decode Memory MmuRegs Walk Tlb Mmu WalkSpec MmuWf MmuCache.
Local Open Scope Z_scope.
Local Open Scope vetro_scope.

Section coherent.
Context {P : Type} `{PhysMemoryLaws P}.

Definition coherent (r : MmuRegs) (pa_bits : Z) (t : Tlb) (p : P) : Prop :=
  forall va hi e, is_u64 va -> select r va = Ok hi ->
    tlb_lookup t (Z.land va VA_MASK) (asid r) = Some e ->
    (walk_tables r pa_bits va hi p).1 = Ok (entry_translation e (Z.land va VA_MASK) r).

(** Reading descriptors does not change memory. *)
Definition quiet (r : MmuRegs) (pa_bits : Z) (p : P) : Prop :=
  forall va hi, (walk_tables r pa_bits va hi p).2 = p.

Lemma lookup_insert key e t key' a e' :
  tlb_ok t -> tlb_lookup (tlb_insert key e t) key' a = Some e' ->
  (e' = e /\ entry_hit e key' a = true) \/ tlb_lookup t key' a = Some e'.
Proof.
  intros Ht. unfold tlb_lookup. cbn. destruct (decide (slot key' = slot key)) as [->|Hne].
  - rewrite list_lookup_insert_eq by (rewrite (to_entries _ Ht); apply slot_bound).
    destruct (entry_hit e key' a) eqn:Hh; [|discriminate]. intros [= <-]. by left.
  - rewrite list_lookup_insert_ne by done. by right.
Qed.

(** The entry of a walk agrees with the tables at every address it serves. *)
Lemma coherent_insert r pa_bits t p va hi tr e :
  tlb_ok t -> 32 <= pa_bits <= 48 -> is_u64 va -> coherent r pa_bits t p -> select r va = Ok hi ->
  walk_tables r pa_bits va hi p = (Ok tr, p) -> entry_ok e -> entry_contains e (Z.land va VA_MASK) = true ->
  entry_translation e (Z.land va VA_MASK) r = tr ->
  coherent r pa_bits (tlb_insert (Z.land va VA_MASK) e t) p.
Proof.
  intros Ht Hpb Hva Hcoh Hsel Hw He Hc Htr va' hi' e' Hva' Hsel' Hl.
  apply lookup_insert in Hl as [[-> Hh]|Hl]; [|by apply Hcoh|done].
  apply andb_prop in Hh as [Hc' _].
  assert (hi' = hi) as ->.
  { rewrite (select_half _ _ _ Hsel), (select_half _ _ _ Hsel').
    pose proof (entry_bottom e He). symmetry. apply (same_block_bits e); [done|done|done|lia]. }
  assert (t_level tr = e_level e /\ t_block_size tr = e_size e) as [Elv Esz] by (by rewrite <- Htr).
  pose proof (entry_bottom e He) as Hb.
  rewrite (walk_tables_same r pa_bits va va' hi p tr p Hpb Hw); cbn.
  2:{ intros i Hi. apply (same_block_bits e); [done..|]. rewrite Elv in Hi. lia. }
  f_equal. rewrite Esz. rewrite <- Htr. unfold entry_translation, update.
  cbn [t_pa t_level t_block_size t_perms t_attr_index t_mair_attr t_sh t_ng t_asid]. f_equal.
  assert (forall x, x mod e_size e = Z.land x VA_MASK mod e_size e) as Hk.
  { intros x. rewrite (eo_size _ He), land_va_mask. symmetry. apply pow_mod_mod. lia. }
  rewrite (Hk va), (Hk va').
  rewrite (entry_contains_mod e _ He (key_bound va) Hc), (entry_contains_mod e _ He (key_bound va') Hc'). lia.
Qed.

(** [tlb_or_walk] is the walk. *)
Lemma tlb_or_walk_coherent va a el hi m p :
  mmu_ok m -> phys_ok p -> is_u64 va -> quiet (m_regs m) (m_pa_bits m) p ->
  coherent (m_regs m) (m_pa_bits m) (m_tlb m) p -> select (m_regs m) va = Ok hi ->
  let '(r, (m', p')) := tlb_or_walk (m_regs m) va a el hi (m, p) in
  r = map_err (fun k => MkFault k va a el) (walk_tables (m_regs m) (m_pa_bits m) va hi p).1 /\
  p' = p /\ tlb_ok (m_tlb m') /\ m' = m <| m_tlb := m_tlb m' |> /\
  coherent (m_regs m) (m_pa_bits m) (m_tlb m') p.
Proof.
  intros Hm Hph Hva Hq Hcoh Hsel. pose proof (mo_tlb _ Hm) as Ht.
  assert (m = m <| m_tlb := m_tlb m |>) as Em by (by destruct m).
  unfold tlb_or_walk, mbind, prog_bind, mget, gets. cbn [fst snd].
  destruct (tlb_lookup (m_tlb m) (Z.land va VA_MASK) (asid (m_regs m))) as [e|] eqn:Hl.
  { cbn. by rewrite (Hcoh va hi e Hva Hsel Hl). }
  unfold on_phys. cbn [fst snd].
  pose proof (walk_tables_ok (m_regs m) (m_pa_bits m) va hi p Hph Hva (mo_pa_bits _ Hm)) as [_ Hw].
  pose proof (Hq va hi) as Hp. destruct (walk_tables _ _ va hi p) as [[t|k] p'] eqn:Ew; cbn [fst snd map_err] in *; subst p'.
  2:{ by split_and!. }
  destruct Hw as (Hlf & _ & Has & Hma & Hoff).
  destruct (entry_new_ok (Z.land va VA_MASK) t (m_regs m) Hlf (key_bound va) (leaf_offset_key _ _ Hlf Hoff) Hma)
    as (e & -> & He & Hc & Htr & Hea).
  cbn. split_and!; [done|done|by apply tlb_insert_ok|done|].
  by eapply coherent_insert; try done; apply Hm.
Qed.

Lemma translate_coherent va a el m p :
  mmu_ok m -> phys_ok p -> is_u64 va -> quiet (m_regs m) (m_pa_bits m) p ->
  coherent (m_regs m) (m_pa_bits m) (m_tlb m) p ->
  let '(r, (m', p')) := translate va a el (m, p) in
  r = (mmu_walk va a el (m, p)).1 /\ p' = p /\ coherent (m_regs m) (m_pa_bits m) (m_tlb m') p.
Proof.
  intros Hm Hph Hva Hq Hcoh.
  unfold translate, translate_checked, mmu_walk. unfold mbind, prog_bind, mget, gets. cbn [fst snd].
  destruct (negb (enabled (m_regs m))).
  { unfold of_result. destruct (mmu_off _ _ _ _ _) as [t|f]; cbn; by split_and!. }
  unfold or_fault. destruct (select (m_regs m) va) as [hi|k] eqn:Hsel; cbn [map_err fst snd]; [|by split_and!].
  pose proof (tlb_or_walk_coherent va a el hi m p Hm Hph Hva Hq Hcoh Hsel) as Hw.
  destruct (tlb_or_walk _ va a el hi (m, p)) as [r [m' p']]. destruct Hw as (Hr & -> & Ht & Em & Hc).
  unfold on_phys. rewrite Hr. pose proof (Hq va hi) as Hp.
  destruct (walk_tables _ _ va hi p) as [[t|k] p''] eqn:Ew; cbn [fst snd map_err] in *; [|by split_and!].
  assert (check_device_alignment t a true = Ok tt) as -> by done. cbn [map_err].
  destruct (check (m_regs m) t a el) as [[]|k]; cbn; by split_and!.
Qed.

(** C4: while the TLB agrees with the tables, translating through it gives
    exactly what the walk of the tables gives (the same translation or the same
    fault), and the TLB still agrees afterwards, with the entry of this address
    added: caching is not observable. *)
Theorem translate_is_walk va a el m p :
  mmu_ok m -> phys_ok p -> is_u64 va -> quiet (m_regs m) (m_pa_bits m) p ->
  coherent (m_regs m) (m_pa_bits m) (m_tlb m) p ->
  let '(r, (m', p')) := translate va a el (m, p) in
  r = (mmu_walk va a el (m, p)).1 /\ p' = p /\ coherent (m_regs m) (m_pa_bits m) (m_tlb m') p.
Proof. exact (translate_coherent va a el m p). Qed.

(** ** Invalidation *)

Lemma remove_if_lookup pred t key a e :
  tlb_lookup (remove_if pred t) key a = Some e -> tlb_lookup t key a = Some e /\ pred e = false.
Proof.
  unfold tlb_lookup. cbn. rewrite list_lookup_fmap. destruct (tlb_entries t !! slot key) as [[e'|]|]; cbn; try discriminate.
  destruct (pred e') eqn:Hp; [discriminate|]. destruct (entry_hit e' key a) eqn:Hh; [|discriminate].
  intros [= <-]. done.
Qed.

Lemma flush_all_lookup t key a : tlb_lookup (flush_all t) key a = None.
Proof. unfold tlb_lookup. cbn. rewrite list_lookup_fmap. by destruct (tlb_entries t !! slot key). Qed.

Lemma note_lookup i t key a : tlb_lookup (note i t) key a = tlb_lookup t key a.
Proof. done. Qed.

(** What a TLBI by the current core must have removed for the address [va]. *)
Definition tlbi_covers (r : MmuRegs) (op : TlbiOp) (xt va : Z) : bool :=
  match op with
  | Vmalle1 | Vmalle1is => true
  | Vae1 | Vae1is | Vale1 | Vale1is =>
      (Z.land va VA_MASK / PAGE_SIZE =? Z.land xt (2 ^ 44 - 1)) && (tlbi_asid xt =? asid r)
  | Vaae1 | Vaae1is | Vaale1 | Vaale1is => Z.land va VA_MASK / PAGE_SIZE =? Z.land xt (2 ^ 44 - 1)
  | Aside1 | Aside1is => false
  end.

Lemma tlbi_va_key xt : Z.land (tlbi_va xt) VA_MASK = Z.land xt (2 ^ 44 - 1) * 4096.
Proof.
  unfold tlbi_va. rewrite land_va_mask, land_ones_mod, Z.shiftl_mul_pow2 by lia. change (2 ^ 12) with 4096.
  apply Z.mod_small. pose proof (Z.mod_pos_bound xt (2 ^ 44) ltac:(lia)). lia.
Qed.

Lemma tlbi_va_page xt : Z.land (tlbi_va xt) VA_MASK / 4096 = Z.land xt (2 ^ 44 - 1).
Proof. rewrite tlbi_va_key. apply Z.div_mul. lia. Qed.

(** After a TLBI the entries still used are old ones, and serve no address it
    covers. *)
Lemma tlbi_lookup r op xt t va e :
  tlb_ok t -> tlb_lookup (tlb_tlbi op xt t) (Z.land va VA_MASK) (asid r) = Some e ->
  tlb_lookup t (Z.land va VA_MASK) (asid r) = Some e /\ tlbi_covers r op xt va = false.
Proof.
  intros Ht Hl.
  assert (forall key, entry_ok e -> is_u 56 key -> entry_contains e (Z.land va VA_MASK) = true ->
    entry_contains e key = false -> Z.land va VA_MASK / 4096 <> key / 4096) as Hpg.
  { intros key He Hk Hc Hn Heq. rewrite (contains_page e (Z.land va VA_MASK) key) in Hn; try done. apply key_bound. }
  unfold tlb_tlbi, flush_va, flush_asid, flush_va_all_asids in Hl.
  destruct op; unfold tlbi_covers, PAGE_SIZE;
    try (rewrite flush_all_lookup in Hl; discriminate);
    apply remove_if_lookup in Hl as [Hl Hpred]; rewrite note_lookup in Hl; (split; [done|]); try done;
    destruct (tlb_lookup_ok _ _ _ _ Ht Hl) as [He Hh]; apply andb_prop in Hh as [Hc Ha];
    rewrite <- tlbi_va_page.
  all: destruct (Z.eqb_spec (Z.land va VA_MASK / 4096) (Z.land (tlbi_va xt) VA_MASK / 4096)) as [Heq|]; [|done].
  all: unfold entry_hit in Hpred; cbn [andb];
    rewrite (contains_page e (Z.land va VA_MASK)) in Hpred by (done || apply key_bound); cbn in Hpred;
    try discriminate.
  all: destruct (Z.eqb_spec (tlbi_asid xt) (asid r)) as [E|]; [|done]; rewrite E in Hpred; congruence.
Qed.

(** C5: an invalidation restores the agreement between the TLB and the tables
    after the tables change: if the walks of the old tables and of the new ones
    differ only at addresses that the TLBI covers (the page in its operand, of
    the current or of every address space, or everything), the TLB agrees with
    the new tables. *)
Theorem tlbi_restores_coherence r pa_bits op xt t p p' :
  tlb_ok t -> coherent r pa_bits t p ->
  (forall va hi, is_u64 va -> select r va = Ok hi -> tlbi_covers r op xt va = false ->
     (walk_tables r pa_bits va hi p').1 = (walk_tables r pa_bits va hi p).1) ->
  tlb_ok (tlb_tlbi op xt t) /\ coherent r pa_bits (tlb_tlbi op xt t) p'.
Proof.
  intros Ht Hcoh Hch. split; [by apply tlb_tlbi_ok|]. intros va hi e Hva Hsel Hl.
  destruct (tlbi_lookup r op xt t va e Ht Hl) as [Hold Hcov]. rewrite Hch by done. by apply Hcoh.
Qed.
End coherent.

(** * The log of invalidations (theorems about Tlb)

    Who keeps copies of translations outside the TLB asks for the invalidations
    since a point it remembers. The ring buffer behind [invalidations_since]
    gives exactly those, in order, or says that it no longer has them; and an
    entry that none of them covers was not invalidated. *)

(** What happens to a TLB: entries come in, invalidations take them out. *)
Inductive TlbEvent :=
| OnInsert (key : Z) (e : TlbEntry)
| OnTlbi (op : TlbiOp) (xt : Z)
| OnFlush.

Definition apply_event (t : Tlb) (ev : TlbEvent) : Tlb :=
  match ev with
  | OnInsert key e => tlb_insert key e t
  | OnTlbi op xt => tlb_tlbi op xt t
  | OnFlush => flush_all t
  end.

(** The invalidations an event reports: VMALLE1 reports twice. *)
Definition noted (ev : TlbEvent) : list Inval :=
  match ev with
  | OnInsert _ _ => []
  | OnTlbi (Vmalle1 | Vmalle1is) _ => [InvalAll; InvalAll]
  | OnTlbi (Aside1 | Aside1is) _ => [InvalAll]
  | OnTlbi _ xt => [InvalVa (tlbi_va xt)]
  | OnFlush => [InvalAll]
  end.

Definition event_ok (ev : TlbEvent) : Prop :=
  match ev with OnInsert _ e => entry_ok e | _ => True end.

Definition run (t : Tlb) (evs : list TlbEvent) : Tlb := fold_left apply_event evs t.

Lemma apply_event_ok t ev : tlb_ok t -> event_ok ev -> tlb_ok (apply_event t ev).
Proof.
  intros Ht He. destruct ev; cbn; [by apply tlb_insert_ok|by apply tlb_tlbi_ok|by apply flush_all_ok].
Qed.

(** ** The ring buffer *)

(** [h] lists the invalidations since the count was [from]; the buffer holds
    the last 64 of them. *)
Record logged (from : Z) (t : Tlb) (h : list Inval) : Prop := {
  lg_count : tlb_flushes t = from + Z.of_nat (length h);
  lg_slot : forall i x, h !! i = Some x -> (length h <= i + 64)%nat ->
    tlb_log t !!! Z.to_nat ((from + Z.of_nat i) mod 64) = x;
}.

Lemma logged_note from t h i :
  0 <= from -> tlb_ok t -> logged from t h -> logged from (note i t) (h ++ [i]).
Proof.
  intros Hf Ht [Hc Hs]. split; cbn.
  - rewrite length_app. cbn. lia.
  - intros j x Hj Hlen. rewrite length_app in Hlen. cbn in Hlen. unfold LOG. rewrite Hc.
    apply lookup_snoc_Some in Hj as [[Hlt Hj]|[-> <-]].
    + rewrite list_lookup_total_insert_ne; [apply Hs; [done|lia]|].
      pose proof (Z.mod_pos_bound (from + Z.of_nat j) 64 ltac:(lia)).
      pose proof (Z.mod_pos_bound (from + Z.of_nat (length h)) 64 ltac:(lia)).
      intros Heq. assert ((from + Z.of_nat (length h)) mod 64 = (from + Z.of_nat j) mod 64) as E by lia.
      pose proof (Z.div_mod (from + Z.of_nat j) 64 ltac:(lia)).
      pose proof (Z.div_mod (from + Z.of_nat (length h)) 64 ltac:(lia)). lia.
    + apply list_lookup_total_insert_eq. rewrite (to_log _ Ht).
      pose proof (Z.mod_pos_bound (from + Z.of_nat (length h)) 64 ltac:(lia)). lia.
Qed.

Lemma logged_same from t t' h :
  tlb_flushes t' = tlb_flushes t -> tlb_log t' = tlb_log t -> logged from t h -> logged from t' h.
Proof. intros E1 E2 [Hc Hs]. split; [congruence|]. rewrite E2. exact Hs. Qed.

Lemma logged_event from t h ev :
  0 <= from -> tlb_ok t -> logged from t h -> logged from (apply_event t ev) (h ++ noted ev).
Proof.
  intros Hf Ht Hl. destruct ev as [key e|op xt|]; cbn [noted].
  - rewrite app_nil_r. by eapply logged_same; [..|exact Hl].
  - pose proof (fun i => logged_note from t h i Hf Ht Hl) as Hn.
    destruct op; cbn [apply_event]; unfold tlb_tlbi;
      try (eapply logged_same; [| |apply Hn]; reflexivity).
    all: change [InvalAll; InvalAll] with ([InvalAll] ++ [InvalAll]); rewrite app_assoc;
      eapply logged_same; [| |apply (logged_note from (note InvalAll t)); [done|by apply note_ok|apply Hn]];
      reflexivity.
  - eapply logged_same; [| |by apply logged_note]; reflexivity.
Qed.

Lemma run_logged from evs t h :
  0 <= from -> tlb_ok t -> Forall event_ok evs -> logged from t h ->
  tlb_ok (run t evs) /\ logged from (run t evs) (h ++ concat (map noted evs)).
Proof.
  intros Hf Ht Hev. revert t h Ht. induction Hev as [|ev evs He Hev IH]; intros t h Ht Hl; cbn.
  - by rewrite app_nil_r.
  - rewrite app_assoc. apply IH; [by apply apply_event_ok|by apply logged_event].
Qed.

Lemma logged_since from t h :
  logged from t h ->
  invalidations_since t from = if Z.of_nat (length h) <=? 64 then Some h else None.
Proof.
  intros [Hc Hs]. unfold invalidations_since, LOG. rewrite Hc.
  destruct (Z.ltb_spec (from + Z.of_nat (length h)) from); [lia|].
  replace (from + Z.of_nat (length h) - from) with (Z.of_nat (length h)) by lia.
  destruct (Z.leb_spec (Z.of_nat (length h)) 64); [|done]. f_equal.
  apply list_eq. intros i. rewrite list_lookup_fmap. destruct (decide (i < length h)%nat) as [Hi|Hi].
  - destruct (lookup_lt_is_Some_2 h i Hi) as [x Hx]. rewrite lookup_seqZ_lt by lia. cbn. rewrite Hx. f_equal.
    apply Hs; [done|lia].
  - rewrite lookup_seqZ_ge by lia. cbn. symmetry. apply lookup_ge_None_2. lia.
Qed.

(** ** What an invalidation reports *)

Definition covers (e : TlbEntry) (i : Inval) : bool :=
  match i with InvalAll => true | InvalVa va => entry_contains e (Z.land va VA_MASK) end.

Definition inserts_at (s : nat) (ev : TlbEvent) : bool :=
  match ev with OnInsert key _ => bool_decide (slot key = s) | _ => false end.

Lemma remove_if_keeps pred t s e :
  tlb_entries t !! s = Some (Some e) -> pred e = false -> tlb_entries (remove_if pred t) !! s = Some (Some e).
Proof. intros Hs Hp. cbn. rewrite list_lookup_fmap, Hs. cbn. by rewrite Hp. Qed.

Lemma apply_event_keeps t ev s e :
  tlb_entries t !! s = Some (Some e) -> forallb (fun i => negb (covers e i)) (noted ev) = true ->
  inserts_at s ev = false -> tlb_entries (apply_event t ev) !! s = Some (Some e).
Proof.
  intros Hs Hc Hi. destruct ev as [key e'|op xt|]; [| |discriminate].
  - cbn in *. apply bool_decide_eq_false in Hi. by rewrite list_lookup_insert_ne.
  - destruct op; try discriminate Hc; cbn [noted forallb] in Hc; rewrite andb_true_r in Hc;
      apply negb_true_iff in Hc; (apply remove_if_keeps; [done|]); try exact Hc.
    all: unfold entry_hit; cbn in Hc; by rewrite Hc.
Qed.

(** C7: who remembers the count of invalidations gets from [invalidations_since]
    exactly the invalidations performed since, in order, when they are at most
    64, and nothing otherwise, whatever sequence of insertions, TLBI and
    flushes ran in between; and an entry that none of them covers is still in
    its slot unless another insertion replaced it, so a copy kept outside the
    TLB and covered by none was not invalidated. *)
Theorem invalidations_exact t evs s e :
  tlb_ok t -> Forall event_ok evs ->
  let invals := concat (map noted evs) in
  invalidations_since (run t evs) (tlb_flushes t) =
    (if Z.of_nat (length invals) <=? 64 then Some invals else None) /\
  (tlb_entries t !! s = Some (Some e) -> forallb (fun i => negb (covers e i)) invals = true ->
   forallb (fun ev => negb (inserts_at s ev)) evs = true ->
   tlb_entries (run t evs) !! s = Some (Some e)).
Proof.
  intros Ht Hev invals. split.
  - apply logged_since. eapply (run_logged (tlb_flushes t) evs t []); [apply Ht|done|done|].
    split; [cbn; lia|done].
  - unfold invals. clear invals Hev Ht. revert t. induction evs as [|ev evs IH]; intros t Hs Hc Hi; [done|].
    cbn in Hc, Hi |- *. rewrite forallb_app in Hc.
    apply andb_prop in Hc as [Hc1 Hc2], Hi as [Hi1%negb_true_iff Hi2].
    apply IH; [|done..]. by apply apply_event_keeps.
Qed.

(** A page goes in, a TLBI of another page and a flush come. *)
Definition page_entry : TlbEntry :=
  MkTlbEntry 0x5000 4096 0x80000 1 false 3 (MkPerms 1 true true) 0 0.

Lemma page_entry_ok : entry_ok page_entry.
Proof. split; cbn; unfold is_u, perms_ok; cbn; try lia; reflexivity. Qed.

Lemma invalidations_exact_witness :
  let t := tlb_insert 0x5000 page_entry tlb_new in
  invalidations_since (run t [OnTlbi Vaae1 0x77; OnFlush]) 0 = Some [InvalVa 0x77000; InvalAll] /\
  tlb_entries (run t [OnTlbi Vaae1 0x77]) !! 5%nat = Some (Some page_entry).
Proof.
  assert (tlb_ok (tlb_insert 0x5000 page_entry tlb_new)) as Ht
    by (apply tlb_insert_ok; [apply tlb_new_ok|apply page_entry_ok]).
  split.
  - apply (invalidations_exact _ [OnTlbi Vaae1 0x77; OnFlush] 0%nat page_entry Ht).
    repeat constructor.
  - apply (invalidations_exact _ [OnTlbi Vaae1 0x77] 5%nat page_entry Ht); [repeat constructor|vm_compute; reflexivity..].
Defined.
