(* ===== verification/WalkRef.v ===== *)
(** * The table walk against the architecture (theorems about Walk)

    A reference walk written with divisions and remainders, which returns the
    leaf and the list of the tables it came through, and the permissions as
    the architecture states them; the walk of the source is that one. *)

From Stdlib Require Import ZArith Lia Bool.
From stdpp Require Import base list numbers strings.
From S2P Require Import Prelude Decode Memory MmuRegs Walk WalkSpec.
Local Open Scope Z_scope.
Local Open Scope vetro_scope.

(** ** The reference *)

(** Bytes translated by one entry of a table of [level]. *)
Definition span (level : Z) : Z := 2 ^ (12 + 9 * (3 - level)).

(** [rd] reads a descriptor. At [level], with the table at [base], which
    translates the address modulo [top]. *)
Fixpoint ref_path (rd : Z -> result Z BusError) (rest : nat) (out va base top : Z)
    : result (Z * Z * list Z) FaultKind :=
  let level := 3 - Z.of_nat rest in
  match rd (base + 8 * (va mod top / span level)) with
  | Err e => Err (ExternalWalk level e)
  | Ok d =>
      if negb (Z.odd d) then Err (Translation_ level) else
      if d mod 4 =? 1 then (if level =? 3 then Err (Translation_ level) else Ok (d, level, []))
      else if level =? 3 then Ok (d, level, [])
      else if 2 ^ out <=? d mod 2 ^ 48 then Err (AddressSize level)
      else
        match rest with
        | O => Err (Translation_ level)
        | S rest =>
            match ref_path rd rest out va (d mod 2 ^ 48 / 4096 * 4096) (span level) with
            | Ok (leaf, l, tables) => Ok (leaf, l, d :: tables)
            | Err k => Err k
            end
        end
  end.

(** What an access may do, from the leaf and the tables above it. *)
Definition ref_allows (leaf : Z) (tables : list Z) (a : Access) (el : Z) (wxn : bool) : bool :=
  let user := Z.testbit leaf 6 && forallb (fun d => negb (Z.testbit d 61)) tables in
  let readonly := Z.testbit leaf 7 || existsb (fun d => Z.testbit d 62) tables in
  let uxn := Z.testbit leaf 54 || existsb (fun d => Z.testbit d 60) tables in
  let pxn := Z.testbit leaf 53 || existsb (fun d => Z.testbit d 59) tables in
  match a with
  | Read => if el =? 0 then user else true
  | Write => if el =? 0 then user && negb readonly else negb readonly
  | Fetch =>
      if el =? 0 then negb uxn && negb (user && negb readonly && wxn)
      else negb pxn && negb (negb readonly && wxn) && negb (user && negb readonly)
  end.

(** The leaf as a translation. *)
Record ref_leaf (r : MmuRegs) (out va leaf level : Z) (tables : list Z) (t : Translation) : Prop := {
  rl_pa : t_pa t = leaf mod 2 ^ 48 / span level * span level + va mod span level;
  rl_level : t_level t = level;
  rl_size : t_block_size t = span level;
  rl_allows : exists p, t_perms t = Some p /\
    forall a el wxn, perms_allows p a el wxn = ref_allows leaf tables a el wxn;
  rl_attr : t_attr_index t = Some (leaf / 4 mod 8);
  rl_mair : t_mair_attr t = mair_attr r (leaf / 4 mod 8);
  rl_sh : t_sh t = leaf / 256 mod 4;
  rl_ng : t_ng t = Z.testbit leaf 11;
  rl_asid : t_asid t = asid r;
}.

Definition ref_fault (out va leaf level : Z) : option FaultKind :=
  let pa := leaf mod 2 ^ 48 / span level * span level + va mod span level in
  if level =? 0 then Some (Translation_ 0)
  else if 2 ^ out <=? pa then Some (AddressSize level)
  else if negb (Z.testbit leaf 10) then Some (AccessFlag level)
  else None.

(** Tables needed for [inputsize] bits of address: one per nine bits above the
    page offset. *)
Definition table_levels (inputsize : Z) : Z := (inputsize - 12 + 8) / 9.

(** The whole walk: the first table is aligned to its own size. *)
Definition ref_walk (rd : Z -> result Z BusError) (r : MmuRegs) (pa_bits va : Z) (hi : bool)
    : result (Z * Z * list Z) FaultKind :=
  let inputsize := input_size r hi in
  let out := output_size r pa_bits in
  let rest := table_levels inputsize - 1 in
  let size := 8 * (2 ^ inputsize / span (3 - rest)) in
  if walk_disabled r hi then Err (Translation_ 0) else
  if bool_decide (granule r hi = K64) then Err (MmuUnimplemented "64 KiB translation granule") else
  if test_mask (mr_sctlr r) msctlr.EE
  then Err (MmuUnimplemented "big-endian descriptors (SCTLR_EL1.EE = 1)") else
  if 2 ^ out <=? ttbr r hi mod 2 ^ 48 then Err (AddressSize 0) else
  match ref_path rd (Z.to_nat rest) out va (ttbr r hi mod 2 ^ 48 / size * size) (2 ^ inputsize) with
  | Err k => Err k
  | Ok (leaf, level, tables) =>
      match ref_fault out va leaf level with
      | Some k => Err k
      | None => Ok (leaf, level, tables)
      end
  end.

(** ** Masks and shifts as arithmetic *)

Lemma land_bits_arith x hi lo :
  0 <= lo <= hi -> hi < 64 -> Z.land x (bits hi lo) = x mod 2 ^ (hi + 1) / 2 ^ lo * 2 ^ lo.
Proof.
  intros Hl Hh. rewrite <- Z.shiftl_mul_pow2, <- Z.shiftr_div_pow2 by lia.
  apply Z.bits_inj'. intros i Hi. rewrite testbit_land_bits, Z.shiftl_spec by lia.
  destruct (Z.leb_spec lo i).
  - rewrite Z.shiftr_spec, Z.testbit_mod_pow2 by lia. replace (i - lo + lo) with i by lia.
    destruct (Z.leb_spec i hi), (Z.ltb_spec i (hi + 1)); try lia; cbn;
      rewrite ?andb_true_r, ?andb_false_r; done.
  - rewrite (Z.testbit_neg_r _ (i - lo)) by lia. by rewrite andb_false_r.
Qed.

Lemma index_arith va top b :
  0 <= b <= top -> top < 64 ->
  Z.shiftl (Z.shiftr (Z.land va (bits top b)) b) 3 = 8 * (va mod 2 ^ (top + 1) / 2 ^ b).
Proof.
  intros Hb Ht. rewrite land_bits_arith by lia. rewrite Z.shiftr_div_pow2, Z.div_mul, Z.shiftl_mul_pow2 by lia. lia.
Qed.

Lemma oversize_arith out a : 32 <= out <= 48 -> 0 <= a -> oversize out a = (2 ^ out <=? a mod 2 ^ 48).
Proof.
  intros Ho Ha. unfold oversize. destruct (Z.ltb_spec out 48); cbn [andb].
  - unfold test_mask. rewrite land_bits_arith by lia. change (47 + 1) with 48.
    set (x := a mod 2 ^ 48). assert (0 <= x) by (apply Z.mod_pos_bound; lia).
    assert (0 < 2 ^ out) by lia. pose proof (Z.div_mod x (2 ^ out) ltac:(lia)).
    pose proof (Z.mod_pos_bound x (2 ^ out) ltac:(lia)).
    pose proof (Z.div_pos x (2 ^ out) ltac:(lia) ltac:(lia)).
    set (q := x / 2 ^ out) in *. set (w := 2 ^ out) in *. clearbody q w x.
    generalize dependent (x mod w). intros r ? ?.
    destruct (Z.eqb_spec (q * w) 0) as [E|E], (Z.leb_spec w x); try done; exfalso.
    + apply Z.mul_eq_0 in E as [->| ->]; lia.
    + assert (1 <= q) by (destruct (Z.eq_dec q 0) as [->|]; lia). nia.
  - assert (out = 48) as -> by lia. pose proof (Z.mod_pos_bound a (2 ^ 48) ltac:(lia)).
    destruct (Z.leb_spec (2 ^ 48) (a mod 2 ^ 48)); [lia|done].
Qed.

Lemma span_eq level : 0 <= level <= 3 -> span level = 2 ^ level_bottom level.
Proof. intros. unfold span, level_bottom, STRIDE, GRAIN. f_equal. lia. Qed.

(** An index in an aligned table. *)
Lemma lor_index base n x : 0 <= n -> base mod 2 ^ n = 0 -> 0 <= x < 2 ^ n -> Z.lor base x = base + x.
Proof.
  intros Hn Hb Hx. pose proof (Z.div_mod base (2 ^ n) ltac:(lia)).
  assert (base = Z.shiftl (base / 2 ^ n) n) as E by (rewrite Z.shiftl_mul_pow2 by lia; lia).
  rewrite E at 1. rewrite lor_shiftl_add by (done || lia). rewrite <- Z.shiftl_mul_pow2, <- E by lia. done.
Qed.

Lemma index_bound va top b n :
  0 <= b -> b <= top -> top + 1 - b <= n -> 0 <= 8 * (va mod 2 ^ (top + 1) / 2 ^ b) < 2 ^ (3 + n).
Proof.
  intros Hb Ht Hn. pose proof (Z.mod_pos_bound va (2 ^ (top + 1)) ltac:(lia)) as Hm.
  assert (0 <= va mod 2 ^ (top + 1) / 2 ^ b < 2 ^ n) as Hi.
  { split; [apply Z.div_pos; lia|]. apply Z.div_lt_upper_bound; [lia|]. rewrite <- Z.pow_add_r by lia.
    eapply Z.lt_le_trans; [apply Hm|]. apply Z.pow_le_mono_r; lia. }
  rewrite (Z.pow_add_r 2 3 n) by lia. change (2 ^ 3) with 8. revert Hi. generalize (va mod 2 ^ (top + 1) / 2 ^ b). clear. intros. lia.
Qed.

Lemma land_1_odd d : (Z.land d 1 =? 0) = negb (Z.odd d).
Proof. rewrite <- Z.bit0_odd, <- test_mask_bit by lia. unfold test_mask. by rewrite negb_involutive. Qed.

Lemma land_3_mod d : Z.land d 3 = d mod 4.
Proof. change 3 with (2 ^ 2 - 1). rewrite land_ones_mod by lia. done. Qed.

Lemma mod4_odd d : d mod 4 = 1 -> Z.odd d = true.
Proof. intros H. pose proof (Z.div_mod d 4 ltac:(lia)). rewrite H in *. rewrite H0. by rewrite Z.odd_add, Z.odd_mul. Qed.

(** ** The loop *)

(** The table fields accumulated over a list of tables. *)
Definition tables_of (l : list Z) : Tables := fold_left add_table l no_tables.

Lemma tables_fields l t :
  let t' := fold_left add_table l t in
  Z.testbit (ap_table t') 0 = Z.testbit (ap_table t) 0 || existsb (fun d => Z.testbit d 61) l /\
  Z.testbit (ap_table t') 1 = Z.testbit (ap_table t) 1 || existsb (fun d => Z.testbit d 62) l /\
  xn_table t' = xn_table t || existsb (fun d => Z.testbit d 60) l /\
  pxn_table t' = pxn_table t || existsb (fun d => Z.testbit d 59) l.
Proof.
  revert t. induction l as [|d l IH]; intros t; cbn [fold_left existsb]; [by rewrite !orb_false_r|].
  destruct (IH (add_table t d)) as (-> & -> & -> & ->). cbn [add_table ap_table xn_table pxn_table].
  rewrite !Z.lor_spec, !Z.land_spec, !Z.shiftr_spec by lia.
  rewrite !(test_mask_bit (Z.shiftr _ _) 0 ltac:(lia)), !Z.shiftr_spec by lia.
  change (Z.testbit 3 0) with true. change (Z.testbit 3 1) with true. by rewrite !andb_true_r, !orb_assoc.
Qed.

(** The two bits of AP as the architecture reads them. *)
Lemma perms_allows_bits p a el w :
  perms_ok p ->
  let user := Z.testbit (pm_ap p) 0 in
  let readonly := Z.testbit (pm_ap p) 1 in
  perms_allows p a el w =
    match a with
    | Read => if el =? 0 then user else true
    | Write => if el =? 0 then user && negb readonly else negb readonly
    | Fetch =>
        if el =? 0 then negb (pm_uxn p) && negb (user && negb readonly && w)
        else negb (pm_pxn p) && negb (negb readonly && w) && negb (user && negb readonly)
    end.
Proof.
  intros Hp. unfold perms_ok in Hp. unfold perms_allows.
  assert (pm_ap p = 0 \/ pm_ap p = 1 \/ pm_ap p = 2 \/ pm_ap p = 3) as [-> | [-> | [-> | ->]]] by lia;
    destruct a, (el =? 0), (pm_uxn p), (pm_pxn p), w; reflexivity.
Qed.

Lemma field_div_mod x n k m : 0 <= n -> 0 <= k -> m = 2 ^ k - 1 -> Z.land (Z.shiftr x n) m = x / 2 ^ n mod 2 ^ k.
Proof. intros Hn Hk ->. rewrite land_ones_mod, Z.shiftr_div_pow2 by done. done. Qed.

Lemma testbit_land_1 x n : 0 <= n -> (Z.land (Z.shiftr x n) 1 =? 0) = negb (Z.testbit x n).
Proof. intros Hn. rewrite land_1_odd, <- Z.bit0_odd, Z.shiftr_spec by lia. by rewrite Z.add_0_l. Qed.

Lemma test_mask_shift x n : 0 <= n -> test_mask (Z.shiftr x n) 1 = Z.testbit x n.
Proof. intros Hn. unfold test_mask. by rewrite testbit_land_1, negb_involutive. Qed.

Lemma walk_leaf_ref r out va d level tables :
  is_u64 va -> is_u64 d -> 0 <= level <= 3 -> 32 <= out <= 48 ->
  match ref_fault out va d level with
  | Some k => walk_leaf r out va d level (tables_of tables) = Err k
  | None => exists t, walk_leaf r out va d level (tables_of tables) = Ok t /\ ref_leaf r out va d level tables t
  end.
Proof.
  intros Hva Hd Hl Ho. unfold ref_fault, walk_leaf. cbv zeta.
  destruct (Z.eqb_spec level 0) as [->|Hl0]; [reflexivity|]. destruct (Z.ltb_spec level 1); [lia|].
  pose proof (level_bottom_bound level ltac:(lia)) as Hb. rewrite span_eq by lia.
  pose proof (leaf_pa_bound d va _ ltac:(apply Hva) Hb) as Hpb.
  rewrite oversize_arith by (done || apply Hpb). rewrite (Z.mod_small (Z.lor _ _)) by apply Hpb.
  rewrite leaf_pa_split, land_bits_arith by lia. change (47 + 1) with 48.
  destruct (_ <=? _); [reflexivity|]. rewrite testbit_land_1 by lia.
  destruct (Z.testbit d 10); cbn [negb]; [|reflexivity]. eexists. split; [reflexivity|].
  assert (forall n, 0 <= n -> 0 <= Z.shiftr d n) as Hs by (intros; apply Z.shiftr_nonneg, Hd).
  destruct (tables_fields tables no_tables) as (F1 & F2 & F3 & F4). fold (tables_of tables) in *.
  cbn [no_tables ap_table xn_table pxn_table] in F1, F2, F3, F4. rewrite Z.testbit_0_l in F1, F2. cbn [orb] in F1, F2, F3, F4.
  split; cbn [t_pa t_level t_block_size t_perms t_attr_index t_mair_attr t_sh t_ng t_asid].
  - by rewrite span_eq by lia.
  - reflexivity.
  - rewrite Z.shiftl_1_l. by rewrite span_eq by lia.
  - eexists. split; [reflexivity|]. intros a el w. rewrite perms_allows_bits.
    2:{ unfold perms_ok. cbn [pm_ap]. apply (is_u_bits 2); [lia| |].
        - apply Z.ldiff_nonneg. left. apply Z.lor_nonneg. split; apply Z.land_nonneg; lia.
        - intros i Hi. rewrite Z.ldiff_spec, Z.lor_spec, !Z.land_spec.
          rewrite (testbit_high 2 3), (testbit_high 2 2) by (try exact Hi; unfold is_u; lia).
          rewrite !andb_false_r. reflexivity. }
    cbn [pm_ap pm_uxn pm_pxn]. rewrite !Z.ldiff_spec, !Z.lor_spec, !Z.land_spec, !Z.shiftr_spec by lia.
    rewrite F1, F2, F3, F4, !test_mask_shift by lia.
    change (Z.testbit 3 0) with true. change (Z.testbit 3 1) with true. change (Z.testbit 2 0) with false.
    change (Z.testbit 2 1) with true. change (Z.testbit 1 0) with true. change (Z.testbit 1 1) with false.
    rewrite !andb_true_r, !andb_false_r, !orb_false_r, ?andb_true_r.
    unfold ref_allows. change (0 + 6) with 6. change (1 + 6) with 7.
    assert (forallb (fun d => negb (Z.testbit d 61)) tables = negb (existsb (fun d => Z.testbit d 61) tables)) as ->.
    { clear. induction tables as [|x l IH]; cbn [forallb existsb]; [done|]. by rewrite IH, negb_orb. }
    destruct a, (el =? 0); cbn [negb]; rewrite ?andb_true_r; reflexivity.
  - by rewrite (field_div_mod d 2 3 7).
  - by rewrite (field_div_mod d 2 3 7).
  - by rewrite (field_div_mod d 8 2 3).
  - by rewrite test_mask_shift by lia.
  - reflexivity.
Qed.

Section walk.
Context {P : Type} `{PhysMemoryLaws P} (p : P).
Context (Hok : phys_ok p) (Hquiet : forall pa, (phys_read_u64 pa p).2 = p).

Definition rd (pa : Z) : result Z BusError := (phys_read_u64 pa p).1.

Lemma rd_eq pa : phys_read_u64 pa p = (rd pa, p).
Proof. unfold rd. pose proof (Hquiet pa). by destruct (phys_read_u64 pa p) as [r q]; cbn in *; subst. Qed.

Lemma rd_nonneg pa d : rd pa = Ok d -> 0 <= d.
Proof. intros E. pose proof (phys_u64_sound pa p Hok) as Hs. rewrite rd_eq, E in Hs. apply Hs. Qed.

Lemma walk_loop_ref rest out va base top t n :
  (rest <= 3)%nat -> 32 <= out <= 48 ->
  level_bottom (3 - Z.of_nat rest) <= top < 48 -> top + 1 - level_bottom (3 - Z.of_nat rest) <= n -> 0 <= n ->
  base mod 2 ^ (3 + n) = 0 ->
  walk_loop rest out va base top t p =
    (match ref_path rd rest out va base (2 ^ (top + 1)) with
     | Ok (d, l, tables) => Ok (d, l, fold_left add_table tables t)
     | Err k => Err k
     end, p).
Proof.
  intros Hr Ho. revert base top t n Hr. induction rest as [|rest IH]; intros base top t n Hr Ht Hn Hn0 Hb;
    cbn [walk_loop ref_path]; rewrite span_eq by lia;
    match type of Ht with level_bottom ?l <= _ < _ => pose proof (level_bottom_bound l ltac:(lia)) as Hlb; set (level := l) in * end;
    rewrite index_arith by lia;
    rewrite (lor_index base (3 + n)) by (try done; try lia; apply index_bound; lia);
    unfold mbind, prog_bind, fail_as; rewrite rd_eq;
    destruct (rd _) as [d|e] eqn:Hd; cbn [map_err]; try reflexivity;
    rewrite land_1_odd, land_3_mod; destruct (Z.odd d) eqn:Hodd; cbn [negb orb]; try reflexivity;
    destruct (d mod 4 =? 1) eqn:H41; cbn [andb orb].
  - by destruct (level =? 3).
  - destruct (level =? 3); [reflexivity|]. rewrite oversize_arith; [by destruct (_ <=? _)|done|by eapply rd_nonneg].
  - by destruct (level =? 3).
  - destruct (level =? 3); [reflexivity|]. rewrite oversize_arith; [|done|by eapply rd_nonneg].
    destruct (_ <=? _); [reflexivity|].
    rewrite (IH (Z.land d (bits 47 GRAIN)) (level_bottom level - 1) (add_table t d) 9); try lia.
    + rewrite land_bits_arith by (unfold GRAIN; lia). replace (level_bottom level - 1 + 1) with (level_bottom level) by lia.
      unfold GRAIN. change (2 ^ 12) with 4096. change (47 + 1) with 48.
      destruct (ref_path _ _ _ _ _ _) as [[[d' l'] tb]|k]; reflexivity.
    + unfold level, level_bottom, STRIDE, GRAIN in *. lia.
    + unfold level, level_bottom, STRIDE, GRAIN in *. lia.
    + unfold GRAIN. change (3 + 9) with 12. apply land_bits_mod; lia.
Qed.

Lemma table_levels_start inputsize : start_level inputsize = 4 - table_levels inputsize.
Proof. unfold start_level, table_levels, div_ceil, STRIDE, GRAIN. do 2 f_equal. lia. Qed.

(** C6: the walk is the walk of the architecture. For every setting of the
    registers, every table in memory and every address, [walk_tables] ends (in
    at most four reads) with the fault of the reference walk, or with its leaf:
    the output address is the base in the leaf plus the offset of the address,
    the size is that of the level, and an access is permitted exactly when the
    leaf and all the tables above it permit it (APTable, UXNTable, PXNTable). *)
Theorem walk_is_reference r pa_bits va hi :
  is_u64 va -> is_u64 (mr_ttbr0 r) -> is_u64 (mr_ttbr1 r) -> 32 <= pa_bits <= 48 ->
  match ref_walk rd r pa_bits va hi with
  | Err k => walk_tables r pa_bits va hi p = (Err k, p)
  | Ok (leaf, level, tables) => exists t, walk_tables r pa_bits va hi p = (Ok t, p) /\
      ref_leaf r (output_size r pa_bits) va leaf level tables t
  end.
Proof.
  intros Hva Ht0 Ht1 Hpb. unfold ref_walk, walk_tables.
  destruct (walk_disabled r hi); [reflexivity|]. destruct (bool_decide _); [reflexivity|].
  destruct (test_mask _ _); [reflexivity|].
  pose proof (output_size_bound r pa_bits Hpb) as Ho. pose proof (input_size_bound r hi) as Hi.
  assert (is_u64 (ttbr r hi)) as Ht by (by destruct hi).
  rewrite oversize_arith by (lia || apply Ht). destruct (_ <=? _); [reflexivity|].
  pose proof (start_level_bound _ Hi) as Hs. pose proof (start_level_index _ Hi) as Hx. cbv zeta in Hx.
  rewrite table_levels_start in *. set (n := table_levels (input_size r hi)) in *.
  pose proof (level_bottom_bound (4 - n) ltac:(lia)) as Hb.
  replace (3 - (n - 1)) with (4 - n) by lia. replace (3 - (4 - n)) with (n - 1) by lia.
  assert (8 * (2 ^ input_size r hi / span (4 - n)) = 2 ^ (3 + input_size r hi - level_bottom (4 - n))) as ->.
  { rewrite span_eq by lia. replace (2 ^ input_size r hi) with (2 ^ (input_size r hi - level_bottom (4 - n)) * 2 ^ level_bottom (4 - n))
      by (rewrite <- Z.pow_add_r by lia; f_equal; lia).
    rewrite Z.div_mul by lia. change 8 with (2 ^ 3). rewrite <- Z.pow_add_r by lia. f_equal. lia. }
  set (blb := 3 + input_size r hi - level_bottom (4 - n)) in *.
  assert (3 - Z.of_nat (Z.to_nat (n - 1)) = 4 - n) as El by lia.
  pose proof (walk_loop_ref (Z.to_nat (n - 1)) (output_size r pa_bits) va (Z.land (ttbr r hi) (bits 47 blb))
    (input_size r hi - 1) no_tables (input_size r hi - level_bottom (4 - n))) as Hloop.
  rewrite El in Hloop. replace (3 + (input_size r hi - level_bottom (4 - n))) with blb in Hloop by lia.
  specialize (Hloop ltac:(lia) ltac:(lia) ltac:(lia) ltac:(lia) ltac:(lia) ltac:(apply land_bits_mod; lia)).
  pose proof (walk_loop_ok (Z.to_nat (n - 1)) (output_size r pa_bits) va (Z.land (ttbr r hi) (bits 47 blb))
    (input_size r hi - 1) no_tables p Hok ltac:(lia) ltac:(cbn; lia)) as [_ Hlp].
  unfold mbind, prog_bind. rewrite Hloop in Hlp |- *. clear Hloop.
  rewrite land_bits_arith in Hlp |- * by lia. replace (input_size r hi - 1 + 1) with (input_size r hi) in * by lia.
  change (47 + 1) with 48 in *.
  destruct (ref_path _ _ _ _ _ _) as [[[leaf level] tables]|k]; [|reflexivity]. cbn [fst] in Hlp.
  destruct Hlp as (Hd & Hlv & _).
  pose proof (walk_leaf_ref r (output_size r pa_bits) va leaf level tables Hva Hd ltac:(lia) ltac:(lia)) as Hlf.
  unfold tables_of in Hlf. destruct (ref_fault _ _ _ _) as [k|]; [by rewrite Hlf|].
  destruct Hlf as (t & -> & Hleaf). by exists t.
Qed.
End walk.
