(* ===== verification/MmuBus.v ===== *)
(** * The MMU under the CPU (crates/vetro-mmu/src/bus.rs, adapter.rs)

    [MmuBus] is the bus of system mode: the MMU and physical memory behind the
    interface [SysBus]. [VirtMemory] is the memory of one privilege level
    behind the interface [Memory]. *)

From Stdlib Require Import ZArith Lia Bool.
From stdpp Require Import base list numbers strings.
From S2P Require Import Prelude SysReg State Decode Memory SysMem MmuRegs Walk Tlb Mmu.
Local Open Scope Z_scope.
Local Open Scope vetro_scope.

Definition mmu_regs (r : TranslationRegs) : MmuRegs :=
  MkMmuRegs (tr_sctlr r) (tr_tcr r) (tr_ttbr0 r) (tr_ttbr1 r) (tr_mair r).

(** The last case is the [unreachable!]: only [MmuUnimplemented] has no code
    ([fsc_none]). *)
Definition bus_fault (k : FaultKind) : BusFault :=
  match k, fsc k with
  | _, Some code => BusAbort code (fault_ea k)
  | MmuUnimplemented what, None => BusUnimplemented what
  | _, None => BusUnimplemented "only Unimplemented has no FSC"
  end.

Section bus.
Context {P : Type} `{PhysMemory P}.

Definition MmuBus : Type := Mmu * P.

Definition load_regs (r : TranslationRegs) (b : MmuBus) : MmuBus := (b.1 <| m_regs := mmu_regs r |>, b.2).

Definition mb_translate (regs : TranslationRegs) (va : Z) (req : AccessReq) : prog MmuBus BusFault Z :=
  fun s =>
    match translate_pa_with (mmu_regs regs) va (req_access req) (req_el req) (req_aligned req) s with
    | (Ok pa, s') => (Ok pa, s')
    | (Err f, (m, p)) => (Err (bus_fault (f_kind f)), (set_last_fault f m, p))
    end.

(** An access of physical memory, with [.map_err(|e| bus_fault(External(e)))]. *)
Definition on_memory {A} (op : prog P BusError A) : prog MmuBus BusFault A := fun '(m, p) =>
  let '(r, p') := op p in (map_err (fun e => bus_fault (External e)) r, (m, p')).

Definition mb_read_phys (pa : Z) (n : nat) : prog MmuBus BusFault (list Z) := on_memory (phys_read pa n).

Definition mb_write_phys (pa : Z) (data : list Z) : prog MmuBus BusFault unit :=
  on_memory (phys_write pa data).

Definition mb_at (regs : TranslationRegs) (va : Z) (access : Access) (el : Z) (b : MmuBus)
    : AtResult * MmuBus :=
  match mmu_walk va access el (load_regs regs b) with
  | (Ok t, b') => (AtPar (translation_par t), b')
  | (Err f, b') =>
      (match f_kind f with
       | ExternalWalk _ _ =>
           match bus_fault (f_kind f) with
           | BusAbort code ea => AtAbort code ea
           | BusUnimplemented w => AtUnimplemented w
           end
       | MmuUnimplemented what => AtUnimplemented what
       | _ => AtPar (default 0 (fault_par f))
       end, b')
  end.

Definition mb_tlbi (op : TlbiOp) (xt : Z) (b : MmuBus) : MmuBus :=
  let '(m, p) := b in
  (mmu_tlbi op xt m, if is_broadcast op then phys_tlbi_broadcast op xt p else p).

Definition mb_tlb_flush_all (b : MmuBus) : MmuBus := (mmu_flush_all b.1, b.2).

Definition mb_cmpxchg_phys (pa : Z) (old new : list Z) : prog MmuBus BusFault bool :=
  on_memory (phys_cmpxchg pa old new).

#[export] Instance MmuBus_SysBus : SysBus MmuBus := {|
  bus_translate := mb_translate;
  bus_read_phys := mb_read_phys;
  bus_write_phys := mb_write_phys;
  bus_at := mb_at;
  bus_tlbi := mb_tlbi;
  bus_tlb_flush_all := mb_tlb_flush_all;
  bus_cmpxchg_phys := mb_cmpxchg_phys;
|}.

(** ** One privilege level *)

Record VirtMemory := MkVirtMemory { vm_mmu : Mmu; vm_phys : P; vm_el : Z }.

Definition vm_prog (T A : Type) : Type := prog (VirtMemory * T) MemFault A.

Definition vm_fail {T A} (f : Fault) : vm_prog T A := fun '(v, t) =>
  (Err (mem_fault f), (MkVirtMemory (set_last_fault f (vm_mmu v)) (vm_phys v) (vm_el v), t)).

Definition vm_translate {T} (va : Z) (access : Access) : vm_prog T Z := fun '(v, t) =>
  match translate va access (vm_el v) (vm_mmu v, vm_phys v) with
  | (Ok tr, (m, p)) => (Ok (t_pa tr), (MkVirtMemory m p (vm_el v), t))
  | (Err f, (m, p)) => vm_fail f (MkVirtMemory m p (vm_el v), t)
  end.

(** [f(self.phys, pa, off, n)], an external abort on its error. *)
Definition vm_piece {T} (va : Z) (access : Access) (op : prog (P * T) BusError unit) : vm_prog T unit :=
  fun '(v, t) =>
    match op (vm_phys v, t) with
    | (Ok _, (p, t)) => (Ok tt, (MkVirtMemory (vm_mmu v) p (vm_el v), t))
    | (Err e, (p, t)) =>
        vm_fail (MkFault (External e) va access (vm_el v)) (MkVirtMemory (vm_mmu v) p (vm_el v), t)
    end.

Fixpoint vm_translate_pages {T} (fuel : nat) (va len off : Z) (access : Access) : vm_prog T unit :=
  match fuel with
  | O => mret tt
  | S fuel =>
      if off <? len then
        let v := u64 (va + off) in
        vm_translate v access;;
        vm_translate_pages fuel va len (off + chunk v (len - off)) access
      else mret tt
  end.

Fixpoint vm_access_pages {T} (fuel : nat) (va len off : Z) (access : Access)
    (op : Z -> Z -> Z -> prog (P * T) BusError unit) : vm_prog T unit :=
  match fuel with
  | O => mret tt
  | S fuel =>
      if off <? len then
        let v := u64 (va + off) in
        let n := chunk v (len - off) in
        pa ← vm_translate v access;
        vm_piece v access (op pa off n);;
        vm_access_pages fuel va len (off + n) access op
      else mret tt
  end.

(** One iteration per page, so [len] iterations are enough. *)
Definition vm_access {T} (va len : Z) (access : Access)
    (op : Z -> Z -> Z -> prog (P * T) BusError unit) : vm_prog T unit :=
  if len =? 0 then mret tt else
  let fuel := Z.to_nat len in
  (if chunk va len <? len then vm_translate_pages fuel va len 0 access else mret tt);;
  vm_access_pages fuel va len 0 access op.

Definition vm_read_piece (pa off n : Z) : prog (P * list Z) BusError unit := fun '(p, buf) =>
  match phys_read pa (Z.to_nat n) p with
  | (Ok l, p) => (Ok tt, (p, splice off l buf))
  | (Err e, p) => (Err e, (p, buf))
  end.

Definition vm_write_piece (data : list Z) (pa off n : Z) : prog (P * unit) BusError unit := fun '(p, t) =>
  let '(r, p) := phys_write pa (take (Z.to_nat n) (drop (Z.to_nat off) data)) p in (r, (p, t)).

Definition vm_with {T} (t : T) (q : vm_prog T unit) : prog VirtMemory MemFault T := fun v =>
  match q (v, t) with
  | (Ok _, (v, t)) => (Ok t, v)
  | (Err f, (v, _)) => (Err f, v)
  end.

Definition vm_read (addr : Z) (n : nat) : prog VirtMemory MemFault (list Z) :=
  vm_with (replicate n 0) (vm_access addr (Z.of_nat n) Read vm_read_piece).

Definition vm_write (addr : Z) (data : list Z) : prog VirtMemory MemFault unit :=
  vm_with tt (vm_access addr (Z.of_nat (length data)) Write (vm_write_piece data)).

Definition vm_fetch (addr : Z) : prog VirtMemory MemFault Z :=
  b ← vm_with (replicate 4 0) (vm_access addr 4 Fetch vm_read_piece);
  mret (from_le b).

#[export] Instance VirtMemory_Memory : Memory VirtMemory := {|
  mem_read := vm_read;
  mem_write := vm_write;
  mem_fetch := vm_fetch;
  mem_read_unpriv := default_read_unpriv vm_read;
  mem_write_unpriv := default_write_unpriv vm_write;
  mem_zero_block := default_zero_block vm_write;
  mem_cmpxchg := default_cmpxchg vm_read vm_write;
|}.

End bus.

#[global] Arguments MmuBus P : clear implicits.
#[global] Arguments VirtMemory P : clear implicits.
