(* ===== verification/MmuBusWf.v ===== *)
(** * The MMU keeps the laws of the bus (theorems about MmuBus)

    Over any physical memory that keeps its laws, [MmuBus] discharges the laws
    of [SysBus], so the theorems about system mode hold with the MMU; the
    syndromes the MMU computes are the ones the CPU delivers. *)

From Stdlib Require Import ZArith Lia Bool.
From stdpp Require Import base list numbers strings.
From S2P Require Import Prelude SysReg State Decode Memory SysMem Except SysStep MmuRegs Walk Tlb Mmu WalkSpec MmuWf MmuCache TlbCoherent WalkRef MmuBus.
Local Open Scope Z_scope.
Local Open Scope vetro_scope.

Lemma bus_fault_abort k code : fsc k = Some code -> bus_fault k = BusAbort code (fault_ea k).
Proof. intros Hf. unfold bus_fault. destruct k; try discriminate Hf; by rewrite Hf. Qed.

Lemma bus_fault_ok k : level_ok k -> fsc_ok (bus_fault k).
Proof.
  intros Hk. destruct (fsc k) as [code|] eqn:Hf.
  - rewrite (bus_fault_abort k code Hf). exact (fsc_bound k code Hk Hf).
  - apply fsc_none in Hf as [what ->]. exact I.
Qed.

Lemma translation_par_ok t :
  is_u 8 (t_mair_attr t) -> 0 <= t_sh t < 4 -> is_u64 (translation_par t).
Proof.
  intros Hm Hs. unfold translation_par.
  assert (forall w x, w <= 64 -> is_u w x -> is_u64 x) as Hw by (intros; by eapply is_u_weaken).
  repeat apply is_u_lor; try lia.
  - apply (is_u_shiftl 8 _ 56); [lia|lia|done].
  - apply (Hw 48); [lia|]. apply land_bits_bound; lia.
  - literal.
  - literal.
  - apply (Hw (2 + 7)); [lia|]. apply is_u_shiftl; [lia|lia|]. destruct (_ || _); [literal|done].
Qed.

Lemma mmu_off_ok r pa_bits va a el :
  match mmu_off r pa_bits va a el with
  | Ok t => is_u 8 (t_mair_attr t) /\ 0 <= t_sh t < 4
  | Err f => level_ok (f_kind f)
  end.
Proof.
  unfold mmu_off. destruct (test_mask va _); [unfold level_ok; cbn; lia|]. cbn. split; [|lia].
  destruct a; try literal. destruct (test_mask _ _); literal.
Qed.

Section laws.
Context {P : Type} `{PhysMemoryLaws P}.

Definition mb_ok (b : MmuBus P) : Prop := mmu_ok b.1 /\ phys_ok b.2.

Lemma translate_pa_with_ok regs va a el aligned m p :
  mmu_ok m -> phys_ok p -> is_u64 va ->
  match translate_pa_with regs va a el aligned (m, p) with
  | (Ok pa, s') => mb_ok s' /\ is_u 48 pa
  | (Err f, s') => mb_ok s' /\ level_ok (f_kind f)
  end.
Proof.
  intros Hm Hp Hva. pose proof (mmu_set_regs_ok regs m Hm) as Hm'.
  pose proof (recent_transparent_frame regs va a el aligned m p Hm Hp Hva) as Ht.
  destruct (enabled regs) eqn:Hen.
  - pose proof (translate_checked_on va a el aligned (m <| m_regs := regs |>) p Hm' Hp Hva Hen) as Hc.
    destruct (translate_checked _ _ _ _ _) as [[t|f] [m1 p1]], (translate_pa_with _ _ _ _ _ _) as [r' [m2 p2]];
      destruct Ht as (-> & -> & _ & _ & Hok); cbn.
    + destruct Hc as (Hp1 & (tlb & e & _ & _ & _ & _ & He & Hh & <-) & _). split; [done|].
      apply andb_prop in Hh as [Hc _]. apply (leaf_pa _ (entry_translation_ok e _ regs He (key_bound va) Hc)).
    + by destruct Hc as (? & ? & _).
  - pose proof (translate_checked_off va a el aligned (m <| m_regs := regs |>) p Hva (mo_pa_bits _ Hm') Hen) as Hc.
    destruct (translate_checked _ _ _ _ _) as [[t|f] [m1 p1]], (translate_pa_with _ _ _ _ _ _) as [r' [m2 p2]];
      destruct Ht as (-> & -> & _ & _ & Hok); cbn.
    + by destruct Hc as ([= _ ->] & _ & Hpa).
    + by destruct Hc as ([= _ ->] & Hl).
Qed.

Lemma on_memory_sound {A} (R : A -> Prop) (op : prog P BusError A) :
  triple phys_ok op (fun a p => phys_ok p /\ R a) (fun _ => phys_ok) ->
  bus_sound mb_ok R (on_memory op).
Proof.
  intros Hop [m p] [Hm Hp]. specialize (Hop p Hp). unfold on_memory.
  destruct (op p) as [[x|e] p']; [by destruct Hop|]. split; [done|]. by apply (bus_fault_ok (External e)).
Qed.

Lemma mmu_walk_ok va a el m p :
  mmu_ok m -> phys_ok p -> is_u64 va ->
  match mmu_walk va a el (m, p) with
  | (Ok t, s') => mb_ok s' /\ is_u 8 (t_mair_attr t) /\ 0 <= t_sh t < 4
  | (Err f, s') => mb_ok s' /\ level_ok (f_kind f)
  end.
Proof.
  intros Hm Hp Hva. unfold mmu_walk, mbind, prog_bind, mget, gets. cbn [fst snd].
  destruct (negb _).
  { unfold of_result. pose proof (mmu_off_ok (m_regs m) (m_pa_bits m) va a el) as Hoff.
    destruct (mmu_off _ _ _ _ _); by split. }
  unfold or_fault, on_phys. destruct (select _ va) as [hi|k] eqn:Hs; cbn [map_err].
  2:{ apply select_err in Hs as ->. split; [by split|]. unfold level_ok. cbn. lia. }
  destruct (walk_tables_ok (m_regs m) (m_pa_bits m) va hi p Hp Hva (mo_pa_bits _ Hm)) as [Hp' Hw].
  destruct (walk_tables _ _ va hi p) as [[t|k] p'] eqn:Ew; cbn [fst snd map_err] in *; [|by split].
  destruct Hw as (Hlf & _). unfold check. destruct (t_perms t); [destruct (negb _)|]; cbn.
  - split; [by split|]. unfold level_ok. cbn. pose proof (leaf_level _ Hlf). lia.
  - split; [by split|]. split; apply Hlf.
  - split; [by split|]. split; apply Hlf.
Qed.

Lemma fault_par_ok f : level_ok (f_kind f) -> is_u64 (default 0 (fault_par f)).
Proof.
  intros Hl. unfold fault_par. destruct (fsc (f_kind f)) as [code|] eqn:Hf; cbn; [|literal].
  pose proof (fsc_bound _ _ Hl Hf) as Hc. apply is_u_lor; [lia| |literal]. apply is_u_lor; [lia|literal|].
  apply (is_u_weaken (6 + 1)); [|lia]. apply is_u_shiftl; [lia|lia|done].
Qed.

#[export] Instance MmuBus_laws : SysBusLaws (MmuBus P).
Proof.
  refine {| bus_ok := mb_ok |}.
  - intros regs va req Hva [m p] [Hm Hp]. cbn [bus_translate MmuBus_SysBus]. unfold mb_translate.
    pose proof (translate_pa_with_ok (mmu_regs regs) va (req_access req) (req_el req) (req_aligned req) m p Hm Hp Hva) as Ht.
    destruct (translate_pa_with _ _ _ _ _ _) as [[pa|f] [m' p']].
    + destruct Ht as [Hok Hpa]. split; [done|]. by eapply is_u_weaken.
    + destruct Ht as [[Hm' Hp'] Hl]. split; [|by apply bus_fault_ok]. split; [by apply set_last_fault_ok|done].
  - intros pa n. apply on_memory_sound. eapply triple_weaken; [apply phys_read_sound|done| |done].
    intros l p (? & ? & ?). done.
  - intros pa d Hd. apply on_memory_sound. eapply triple_weaken; [by apply phys_write_sound|done|done|done].
  - intros pa old new Ho Hn. apply on_memory_sound.
    eapply triple_weaken; [by apply phys_cmpxchg_sound|done|done|done].
  - intros regs va a el [m p] Hva [Hm Hp]. cbn [bus_at MmuBus_SysBus]. unfold mb_at, load_regs. cbn [fst snd].
    pose proof (mmu_walk_ok va a el (m <| m_regs := mmu_regs regs |>) p (mmu_set_regs_ok _ m Hm) Hp Hva) as Hw.
    destruct (mmu_walk va a el _) as [[t|f] s'].
    + destruct Hw as (Hok & H1 & H2). split; [by apply translation_par_ok|done].
    + destruct Hw as (Hok & Hl). split; [|done]. pose proof (bus_fault_ok _ Hl) as Hbf. pose proof (fault_par_ok _ Hl) as Hpar.
      cbn [fst]. destruct (f_kind f); try exact Hpar; try exact I. by destruct (bus_fault _).
  - intros op xt [m p] [Hm Hp]. cbn. split; [by apply mmu_tlbi_ok|]. cbn.
    destruct (is_broadcast op); [by apply phys_broadcast_sound|done].
  - intros [m p] [Hm Hp]. split; [by apply mmu_flush_all_ok|done].
Defined.
End laws.

(** C8: the syndrome of a fault is computed twice in the source, by the MMU
    ([Fault::esr]) and by the CPU that delivers what the bus reports
    ([deliver_fault]): the two agree on every fault, access and level, and the
    MMU has no syndrome exactly when the bus reports a limitation instead of an
    abort. *)
Theorem syndromes_agree f from_el :
  match bus_fault (f_kind f) with
  | BusAbort code ea => fault_esr f from_el = Some (abort_esr (from_el =? 0) code ea (f_access f) false)
  | BusUnimplemented what => fault_esr f from_el = None /\ f_kind f = MmuUnimplemented what
  end.
Proof.
  unfold fault_esr. destruct (fsc (f_kind f)) as [code|] eqn:Hf.
  - rewrite (bus_fault_abort _ code Hf).
    destruct (f_access f), (from_el =? 0); unfold abort_esr, esr, IL; cbn [b2z Z.b2z bool_decide];
      rewrite ?Z.shiftl_0_l, ?Z.lor_0_r; reflexivity.
  - apply fsc_none in Hf as [what ->]. done.
Qed.

(** * A core with an MMU on concrete memory

    RAM with three page tables and a page of code. The theorems about the MMU
    are applied to it, and the core runs on it through [MmuBus]. *)

(** ** The RAM *)

Definition MemRam := list Z.

Definition mr_read (pa : Z) (n : nat) : prog MemRam BusError (list Z) := fun b =>
  if (0 <=? pa) && (pa + Z.of_nat n <=? Z.of_nat (length b))
  then (Ok (take n (drop (Z.to_nat pa) b)), b) else (Err ErrDecode, b).

Definition mr_write (pa : Z) (d : list Z) : prog MemRam BusError unit := fun b =>
  if (0 <=? pa) && (pa + Z.of_nat (length d) <=? Z.of_nat (length b))
  then (Ok tt, list_inserts (Z.to_nat pa) d b) else (Err ErrDecode, b).

#[local] Instance MemRam_phys : PhysMemory MemRam := {|
  phys_read := mr_read;
  phys_write := mr_write;
  phys_read_u64 := default_read_u64 mr_read;
  phys_cmpxchg := default_phys_cmpxchg mr_read mr_write;
  phys_tlbi_broadcast _ _ p := p;
|}.

Lemma mr_read_sound pa n :
  triple bytes_ok (mr_read pa n) (fun l p => bytes_ok p /\ length l = n /\ bytes_ok l) (fun _ => bytes_ok).
Proof.
  intros b Hb. unfold mr_read. destruct (_ && _) eqn:Hc; [|done].
  apply andb_prop in Hc as [H1%Z.leb_le H2%Z.leb_le]. split; [done|]. split.
  - rewrite length_take, length_drop. lia.
  - by apply Forall_take, Forall_drop.
Qed.

Lemma mr_write_sound pa d :
  bytes_ok d -> triple bytes_ok (mr_write pa d) (fun _ => bytes_ok) (fun _ => bytes_ok).
Proof.
  intros Hd b Hb. unfold mr_write. destruct (_ && _); [|done]. by apply Forall_inserts.
Qed.

#[local] Instance MemRam_laws : PhysMemoryLaws MemRam.
Proof.
  refine {| phys_ok := bytes_ok |}; cbn.
  - apply mr_read_sound.
  - apply mr_write_sound.
  - intros pa. unfold default_read_u64. eapply triple_bind; [apply mr_read_sound|].
    intros l. apply triple_ret. intros p (Hp & Hn & Hl). split; [done|].
    pose proof (from_le_bound l Hl) as Hb. by rewrite Hn in Hb.
  - intros pa old new _ Hn. unfold default_phys_cmpxchg. eapply triple_bind; [apply mr_read_sound|].
    intros cur. destruct (negb _); [by apply triple_ret; intros p [? _]|].
    apply (triple_bind _ _ _ (fun _ => bytes_ok)); [|by intros []; apply triple_ret].
    eapply triple_weaken; [by apply mr_write_sound|by intros p [? _]|done|done].
  - done.
Defined.

Lemma mr_quiet (p : MemRam) pa : (phys_read_u64 pa p).2 = p.
Proof. cbn. unfold default_read_u64, mbind, prog_bind, mr_read. by destruct (_ && _). Qed.

(** ** The tables: level 1 at 0, level 2 at 0x1000, level 3 at 0x2000; the first
    page of the address space is the RAM at [page]. *)

Definition board_ram (page : Z) : MemRam :=
  list_inserts 0 (to_le 8 0x1003)
    (list_inserts 0x1000 (to_le 8 0x2003)
       (list_inserts 0x2000 (to_le 8 (page + 0x743)) (replicate (Z.to_nat 0x4000) 0))).

Lemma board_ram_ok page : phys_ok (board_ram page).
Proof.
  unfold phys_ok, MemRam_laws, board_ram. repeat apply Forall_inserts; try apply bytes_ok_to_le.
  apply Forall_replicate. literal.
Qed.

(** The MMU on, 39 bits of address, TTBR0 = 0. *)
Definition board_regs : MmuRegs := MkMmuRegs 1 25 0 0 0xff.

Definition board_mmu : Mmu :=
  MkMmu default_regs 40 tlb_new None (replicate (Z.to_nat RECENT) EMPTY) default_regs 1.

Lemma board_mmu_ok : mmu_ok board_mmu.
Proof. apply (mmu_new_ok 40). unfold mmu_new. cbn [Z.leb Z.compare andb]. reflexivity. Qed.

Definition board_mmu_on : Mmu := board_mmu <| m_regs := board_regs |>.

Lemma board_mmu_on_ok : mmu_ok board_mmu_on.
Proof. apply mmu_set_regs_ok, board_mmu_ok. Qed.

Lemma empty_coherent (p : MemRam) : coherent board_regs 40 tlb_new p.
Proof.
  intros va hi e _ _ Hl. exfalso. unfold tlb_lookup in Hl. cbn [tlb_entries tlb_new] in Hl.
  destruct (replicate _ None !! slot _) as [o|] eqn:Hs; [|discriminate].
  apply lookup_replicate in Hs as [-> _]. discriminate.
Qed.

(** ** The theorems on the board *)

(** The tables lead from 0x123 to 0x3123. *)
Lemma walk_is_reference_witness :
  exists t, walk_tables board_regs 40 0x123 false (board_ram 0x3000) = (Ok t, board_ram 0x3000) /\
    t_pa t = 0x3123 /\ t_level t = 3.
Proof.
  pose proof (walk_is_reference (board_ram 0x3000) (board_ram_ok 0x3000) (mr_quiet _) board_regs 40 0x123 false
    ltac:(literal) ltac:(literal) ltac:(literal) ltac:(lia)) as H.
  assert (ref_walk (rd (board_ram 0x3000)) board_regs 40 0x123 false = Ok (0x3743, 3, [0x1003; 0x2003])) as E
    by (vm_compute; reflexivity).
  rewrite E in H. destruct H as (t & Ht & Hl). exists t. split; [exact Ht|]. split.
  - rewrite (rl_pa _ _ _ _ _ _ _ Hl). vm_compute. reflexivity.
  - apply (rl_level _ _ _ _ _ _ _ Hl).
Defined.

(** A translation through the empty TLB, from EL0. *)
Lemma translate_is_walk_witness :
  (translate 0x123 Read 0 (board_mmu_on, board_ram 0x3000)).1 =
    (mmu_walk 0x123 Read 0 (board_mmu_on, board_ram 0x3000)).1 /\
  map_ok t_pa (mmu_walk 0x123 Read 0 (board_mmu_on, board_ram 0x3000)).1 = Ok 0x3123.
Proof.
  split; [|vm_compute; reflexivity].
  pose proof (translate_is_walk 0x123 Read 0 board_mmu_on (board_ram 0x3000) board_mmu_on_ok
    (board_ram_ok _) ltac:(literal) (fun va hi => walk_tables_quiet _ _ va hi _ (mr_quiet _))
    (empty_coherent _)) as H.
  destruct (translate _ _ _ _) as [r [m' p']]. apply H.
Defined.

(** The same page twice: the second time the recent cache answers. *)
Lemma recent_transparent_witness :
  let s1 := (translate_pa_with board_regs 0x123 Read 0 true (board_mmu, board_ram 0x3000)).2 in
  mmu_ok s1.1 /\
  (translate_pa_with board_regs 0x456 Read 0 true s1).1 = Ok 0x3456 /\
  recent_hit s1.1 0x456 Read 0 true 0 = true.
Proof.
  intros s1. split; [|split; vm_compute; reflexivity]. unfold s1.
  pose proof (recent_transparent board_regs 0x123 Read 0 true board_mmu (board_ram 0x3000) board_mmu_ok
    (board_ram_ok _) ltac:(literal)) as H.
  destruct (translate_checked _ _ _ _ _) as [r [m1 p1]], (translate_pa_with _ _ _ _ _ _) as [r' [m2 p2]].
  apply H.
Defined.

(** The TLB after a translation; then the page moves, and a TLBI of everything
    follows. *)
Definition used_tlb : Tlb := m_tlb (translate 0x123 Read 0 (board_mmu_on, board_ram 0x3000)).2.1.

Lemma used_tlb_ok : tlb_ok used_tlb /\ coherent board_regs 40 used_tlb (board_ram 0x3000).
Proof.
  pose proof (translate_checked_on 0x123 Read 0 true board_mmu_on (board_ram 0x3000) board_mmu_on_ok
    (board_ram_ok _) ltac:(literal) eq_refl) as H1.
  pose proof (translate_coherent 0x123 Read 0 board_mmu_on (board_ram 0x3000) board_mmu_on_ok
    (board_ram_ok _) ltac:(literal) (fun va hi => walk_tables_quiet _ _ va hi _ (mr_quiet _))
    (empty_coherent _)) as H2.
  unfold used_tlb. unfold translate in *.
  destruct (translate_checked _ _ _ _ _) as [[t|f] [m' p']]; cbn [fst snd].
  - destruct H1 as (_ & (tlb & e & -> & Htlb & _) & _). split; [exact Htlb|apply H2].
  - destruct H1 as (_ & _ & tlb & -> & Htlb & _). split; [exact Htlb|apply H2].
Qed.

Lemma tlbi_restores_coherence_witness :
  tlb_len used_tlb = 1%nat /\ coherent board_regs 40 (tlb_tlbi Vmalle1 0 used_tlb) (board_ram 0x2000) /\
  tlb_len (tlb_tlbi Vmalle1 0 used_tlb) = 0%nat.
Proof.
  split; [vm_compute; reflexivity|]. split; [|vm_compute; reflexivity].
  destruct used_tlb_ok as [Hok Hcoh].
  apply (tlbi_restores_coherence board_regs 40 Vmalle1 0 used_tlb (board_ram 0x3000) (board_ram 0x2000) Hok Hcoh).
  intros va hi _ _ Hc. discriminate Hc.
Defined.
