(* ===== verification/SnapWire.v ===== *)
(** * The snapshot encoding (crates/vetro-snapshot/src/lib.rs)

    [Writer] and [Reader]: fixed-width little-endian values, options,
    sequences, length-prefixed bytes, and sections with a tag and a length.
    A writer appends; a deferred one also keeps the marks of its sections and
    of its large data. A reader is a position in a buffer, and every read past
    the end is [Truncated]. *)

From Stdlib Require Import ZArith Lia Bool.
From stdpp Require Import base list numbers strings pretty.
From S2P Require Import Prelude.
Local Open Scope Z_scope.
Local Open Scope vetro_scope.

(** ** Errors *)

Inductive Error :=
| BadMagic
| Version (found expected : Z)
| Config (found expected : Z)
| Checksum
| Truncated
| ESection (expected found : list Z)
| Trailing (section : list Z) (bytes : nat)
| Invalid (what : string).

#[export] Instance Error_eq_dec : EqDecision Error.
Proof. solve_decision. Defined.

(** How hard to compress ([blocks::Level]). *)
Inductive Level := Fast | Small.

#[export] Instance Level_eq_dec : EqDecision Level.
Proof. solve_decision. Defined.

(** What a position of the raw stream holds ([deferred::Mark]). *)
Inductive Mark :=
| MSection (at_ : Z) (end_ : Z)
| MBlocks (at_ : Z) (len : Z).

#[export] Instance Mark_eq_dec : EqDecision Mark.
Proof. solve_decision. Defined.

#[export] Instance Mark_inhabited : Inhabited Mark := populate (MBlocks 0 0).

(** ** Writing *)

Record Writer := MkWriter {
  w_buf : list Z;
  w_level : Level;
  w_marks : option (list Mark);
}.

#[export] Instance eta_Writer : Eta Writer := fun w => MkWriter (w_buf w) (w_level w) (w_marks w).

Definition writer_new : Writer := MkWriter [] Fast None.
Definition writer_deferred : Writer := MkWriter [] Fast (Some []).

Definition set_level (l : Level) (w : Writer) : Writer := w <| w_level := l |>.

(** [copy_from_slice] over [buf[at..at + b.len()]], which is in range. *)
Definition overwrite (at_ : nat) (b buf : list Z) : list Z :=
  take at_ buf ++ b ++ drop (at_ + length b) buf.

(** Bytes without a length. *)
Definition w_raw (b : list Z) (w : Writer) : Writer := w <| w_buf ::= fun buf => buf ++ b |>.

Definition w_u8 (v : Z) : Writer -> Writer := w_raw [v].
Definition w_u16 (v : Z) : Writer -> Writer := w_raw (to_le 2 v).
Definition w_u32 (v : Z) : Writer -> Writer := w_raw (to_le 4 v).
Definition w_u64 (v : Z) : Writer -> Writer := w_raw (to_le 8 v).
Definition w_u128 (v : Z) : Writer -> Writer := w_raw (to_le 16 v).
Definition w_bool (v : bool) : Writer -> Writer := w_raw [b2z v].
Definition w_len_of (n : nat) : Writer -> Writer := w_u64 (Z.of_nat n).

(** Bytes preceded by their length; a string is its bytes. *)
Definition w_bytes (b : list Z) (w : Writer) : Writer := w_raw b (w_len_of (length b) w).
Definition w_str (s : list Z) : Writer -> Writer := w_bytes s.

(** 0, or 1 and the value. *)
Definition w_opt {T} (v : option T) (f : T -> Writer -> Writer) (w : Writer) : Writer :=
  match v with
  | None => w_u8 0 w
  | Some x => f x (w_u8 1 w)
  end.
Definition w_opt_u64 (v : option Z) : Writer -> Writer := w_opt v w_u64.

(** The number of elements, then each of them. *)
Definition w_seq {T} (items : list T) (f : T -> Writer -> Writer) (w : Writer) : Writer :=
  foldl (fun w x => f x w) (w_len_of (length items) w) items.

(** Tag, length (written over once known) and the content [f] writes. *)
Definition w_section (tag : list Z) (f : Writer -> Writer) (w : Writer) : Writer :=
  let w := w_raw tag w in
  let at_ := length (w_buf w) in
  let w := w_u64 0 w in
  let i := match w_marks w with Some m => length m | None => O end in
  let w := w <| w_marks ::= option_map (fun m => m ++ [MSection (Z.of_nat at_) 0]) |> in
  let w := f w in
  let len := Z.of_nat (length (w_buf w) - at_ - 8) in
  let w := w <| w_buf ::= overwrite at_ (to_le 8 len) |> in
  w <| w_marks ::= option_map
         (fun m => <[i := MSection (Z.of_nat at_) (Z.of_nat (length (w_buf w)))]> m) |>.

(** The last section of a deferred writer, whose [len] bytes of large data
    the caller streams; [None] is the [expect] on a writer that is not deferred. *)
Definition w_external_section (tag : list Z) (len : Z) (w : Writer) : option Writer :=
  let w := w_raw tag w in
  let at_ := Z.of_nat (length (w_buf w)) in
  let w := w_u64 0 w in
  match w_marks w with
  | Some m => Some (w <| w_marks := Some (m ++ [MSection at_ (at_ + 8 + len); MBlocks (at_ + 8) len]) |>)
  | None => None
  end.

(** [deferred::Plan]. *)
Record Plan := MkPlan { config_hash : Z; marks : list Mark; raw_len : Z }.

(** The marks and the bytes of a deferred writer. *)
Definition w_into_plan (hash extra : Z) (w : Writer) : option (Plan * list Z) :=
  match w_marks w with
  | Some m => Some (MkPlan hash m (Z.of_nat (length (w_buf w)) + extra), w_buf w)
  | None => None
  end.

(** ** Reading *)

Record Reader := MkReader { r_buf : list Z; r_pos : nat; r_tag : list Z }.

#[export] Instance eta_Reader : Eta Reader := fun r => MkReader (r_buf r) (r_pos r) (r_tag r).

(** Four spaces. *)
Definition reader_new (buf : list Z) : Reader := MkReader buf 0 [32; 32; 32; 32].

Definition remaining (r : Reader) : nat := length (r_buf r) - r_pos r.

Abbreviation reading := (prog Reader Error).

Definition r_raw (n : nat) : reading (list Z) := fun r =>
  if (remaining r <? n)%nat then (Err Truncated, r)
  else (Ok (take n (drop (r_pos r) (r_buf r))), r <| r_pos ::= fun p => (p + n)%nat |>).

Definition r_le (n : nat) : reading Z := b ← r_raw n; mret (from_le b).
Definition r_u8 : reading Z := r_le 1.
Definition r_u16 : reading Z := r_le 2.
Definition r_u32 : reading Z := r_le 4.
Definition r_u64 : reading Z := r_le 8.
Definition r_u128 : reading Z := r_le 16.

Definition r_bool : reading bool :=
  v ← r_u8;
  if v =? 0 then mret false else if v =? 1 then mret true
  else throw (Invalid ("boolean " ++ pretty v)).

(** A length that cannot exceed the bytes left over [min_item]. *)
Definition r_len_of (min_item : nat) : reading nat :=
  n ← r_u64;
  left ← gets remaining;
  let max := Z.of_nat (left / Nat.max min_item 1)%nat in
  if max <? n then throw Truncated else mret (Z.to_nat n).

Definition r_bytes : reading (list Z) := n ← r_len_of 1; r_raw n.
Definition r_vec : reading (list Z) := r_bytes.

(** [String::from_utf8]: the well-formed UTF-8 byte sequences. *)
Definition in_range (lo hi b : Z) : bool := (lo <=? b) && (b <=? hi).
Definition tail_byte : Z -> bool := in_range 0x80 0xbf.

Fixpoint utf8 (s : list Z) : bool :=
  match s with
  | [] => true
  | a :: s1 =>
      if a <=? 0x7f then utf8 s1 else
      match s1 with
      | [] => false
      | b :: s2 =>
          if in_range 0xc2 0xdf a then tail_byte b && utf8 s2 else
          match s2 with
          | [] => false
          | c :: s3 =>
              let three := in_range (if a =? 0xe0 then 0xa0 else 0x80) (if a =? 0xed then 0x9f else 0xbf) b in
              if in_range 0xe0 0xef a then three && tail_byte c && utf8 s3 else
              match s3 with
              | [] => false
              | d :: s4 =>
                  let four := in_range (if a =? 0xf0 then 0x90 else 0x80) (if a =? 0xf4 then 0x8f else 0xbf) b in
                  in_range 0xf0 0xf4 a && four && tail_byte c && tail_byte d && utf8 s4
              end
          end
      end
  end.

Definition r_string : reading (list Z) :=
  s ← r_vec; if utf8 s then mret s else throw (Invalid "non-UTF-8 string").

Definition r_opt {T} (f : reading T) : reading (option T) :=
  v ← r_u8;
  if v =? 0 then mret None
  else if v =? 1 then x ← f; mret (Some x)
  else throw (Invalid ("option " ++ pretty v)).
Definition r_opt_u64 : reading (option Z) := r_opt r_u64.

Fixpoint r_times {T} (n : nat) (f : reading T) : reading (list T) :=
  match n with
  | O => mret []
  | S n => x ← f; l ← r_times n f; mret (x :: l)
  end.

Definition r_seq {T} (min_item : nat) (f : reading T) : reading (list T) :=
  n ← r_len_of min_item; r_times n f.

(** The reader of the content of the next section. *)
Definition r_section (tag : list Z) : reading Reader :=
  found ← r_raw 4;
  if negb (bool_decide (found = tag)) then throw (ESection tag found) else
  n ← r_u64;
  left ← gets remaining;
  if Z.of_nat left <? n then throw Truncated else
  body ← r_raw (Z.to_nat n);
  mret (MkReader body 0 tag).

Definition peek_tag (r : Reader) : option (list Z) :=
  if (r_pos r + 4 <=? length (r_buf r))%nat then Some (take 4 (drop (r_pos r) (r_buf r))) else None.

Definition r_finish (r : Reader) : result unit Error :=
  match remaining r with
  | O => Ok tt
  | n => Err (Trailing (r_tag r) n)
  end.

Definition r_expect_u64 (what : string) (expected : Z) : reading unit :=
  v ← r_u64;
  if negb (v =? expected)
  then throw (Invalid (what ++ ": " ++ pretty v ++ " in the snapshot, " ++ pretty expected ++ " in this machine"))
  else mret tt.
