(* ===== verification/SnapCodec.v ===== *)
(** * What the snapshot encoding promises (theorems about SnapWire)

    A [codec] is a write, the read that goes with it and the bytes between
    them: the write appends the bytes, the read takes them back, and the read
    accepts no other bytes for the same value. *)

From Stdlib Require Import ZArith Lia Bool.
From stdpp Require Import base list numbers strings pretty.
From S2P Require Import Prelude SnapWire.
Local Open Scope Z_scope.
Local Open Scope vetro_scope.

(** ** Programs that write, programs that read *)

(** On a writer that is not deferred, [f] appends [b]. *)
Definition writes (f : Writer -> Writer) (b : list Z) : Prop :=
  forall w, w_marks w = None -> f w = w_raw b w.

(** Wherever they are in the buffer, [m] takes the bytes [b] for [a]. *)
Definition reads {A} (m : reading A) (b : list Z) (a : A) : Prop :=
  forall pre rest tag,
    m (MkReader (pre ++ b ++ rest) (length pre) tag)
    = (Ok a, MkReader (pre ++ b ++ rest) (length pre + length b)%nat tag).

Definition unread (r : Reader) : list Z := drop (r_pos r) (r_buf r).
Definition reader_ok (r : Reader) : Prop := (r_pos r <= length (r_buf r))%nat /\ bytes_ok (r_buf r).

(** What [m] takes for [a] is [enc a], and [a] is in range. *)
Definition exact {A} (m : reading A) (enc : A -> list Z) (ok : A -> Prop) : Prop :=
  forall r a r', reader_ok r -> m r = (Ok a, r') ->
    ok a /\ unread r = enc a ++ unread r' /\ reader_ok r' /\ r_buf r' = r_buf r /\ r_tag r' = r_tag r.

Record codec {A} (ok : A -> Prop) (wr : A -> Writer -> Writer) (rd : reading A) (enc : A -> list Z)
    : Prop := {
  codec_writes a : writes (wr a) (enc a);
  codec_reads a : ok a -> reads rd (enc a) a;
  codec_exact : exact rd enc ok;
}.

(** *** Writes compose *)

Lemma w_raw_raw a b w : w_raw a (w_raw b w) = w_raw (b ++ a) w.
Proof. destruct w. unfold w_raw, update. cbn. by rewrite app_assoc. Qed.

Lemma writes_raw b : writes (w_raw b) b.
Proof. by intros w _. Qed.

Lemma writes_then f g a b : writes f a -> writes g b -> writes (fun w => g (f w)) (a ++ b).
Proof.
  intros Hf Hg w Hw. rewrite (Hf w Hw), Hg; [apply w_raw_raw|]. exact Hw.
Qed.

Lemma writes_foldl {T} (f : T -> Writer -> Writer) enc (items : list T) f0 b0 :
  writes f0 b0 -> (forall x, x ∈ items -> writes (f x) (enc x)) ->
  writes (fun w => foldl (fun w x => f x w) (f0 w) items) (b0 ++ concat (map enc items)).
Proof.
  revert f0 b0. induction items as [|x items IH]; intros f0 b0 H0 Hf; cbn.
  - by rewrite app_nil_r.
  - rewrite app_assoc. apply (IH (fun w => f x (f0 w))).
    + apply writes_then; [done|]. apply Hf. by left.
    + intros y Hy. apply Hf. by right.
Qed.

(** *** Reads compose *)

Lemma reads_ret {A} (a : A) : reads (mret a) [] a.
Proof. intros pre rest tag. cbn. by rewrite Nat.add_0_r. Qed.

Lemma reads_bind {A B} (m : reading A) (k : A -> reading B) b1 b2 a c :
  reads m b1 a -> reads (k a) b2 c -> reads (mbind k m) (b1 ++ b2) c.
Proof.
  intros Hm Hk pre rest tag. unfold mbind, prog_bind. rewrite <- app_assoc, Hm.
  specialize (Hk (pre ++ b1) rest tag). rewrite !length_app, <- app_assoc in *.
  rewrite Hk. by rewrite Nat.add_assoc.
Qed.

Lemma reads_map {A B} (m : reading A) (f : A -> B) b a :
  reads m b a -> reads (x ← m; mret (f x)) b (f a).
Proof. intros Hm. rewrite <- (app_nil_r b). eapply reads_bind; [exact Hm|apply reads_ret]. Qed.

Lemma reads_raw b : reads (r_raw (length b)) b b.
Proof.
  intros pre rest tag. unfold r_raw, remaining. cbn [r_buf r_pos]. rewrite !length_app.
  destruct (Nat.ltb_spec (length pre + (length b + length rest) - length pre) (length b)); [lia|].
  rewrite drop_app_length, take_app_length. reflexivity.
Qed.

Lemma reads_le n v : is_u (8 * Z.of_nat n) v -> reads (r_le n) (to_le n v) v.
Proof.
  intros Hv. rewrite <- (mod_is_u _ _ Hv) at 2. rewrite <- from_to_le.
  apply reads_map. rewrite <- (length_to_le n v) at 1. apply reads_raw.
Qed.

(** [m] reads what is left of a reader, which [reads] starts from. *)
Lemma reads_at {A} (m : reading A) b a r rest :
  reads m b a -> (r_pos r <= length (r_buf r))%nat -> unread r = b ++ rest ->
  m r = (Ok a, r <| r_pos ::= fun p => (p + length b)%nat |>).
Proof.
  intros Hm Hp Hu. destruct r as [buf pos tag]. cbn in *. unfold unread in Hu. cbn in Hu.
  rewrite <- (take_drop pos buf), Hu. specialize (Hm (take pos buf) rest tag).
  rewrite length_take_le in Hm by done. exact Hm.
Qed.

(** *** Exact reads compose *)

Lemma exact_weaken {A} (m : reading A) enc (ok ok' : A -> Prop) :
  exact m enc ok -> (forall a, ok a -> ok' a) -> exact m enc ok'.
Proof. intros Hm Hw r a r' Hr He. destruct (Hm r a r' Hr He) as [Ha Hu]. auto. Qed.

Lemma exact_bind {A B} (m : reading A) (k : A -> reading B) enc1 ok1 enc2 ok2 enc ok :
  exact m enc1 ok1 -> (forall a, ok1 a -> exact (k a) (enc2 a) (ok2 a)) ->
  (forall a b, ok1 a -> ok2 a b -> ok b /\ enc b = enc1 a ++ enc2 a b) ->
  exact (mbind k m) enc ok.
Proof.
  intros Hm Hk He r b r' Hr H. apply bind_ok_inv in H as (a & r1 & H1 & H2).
  destruct (Hm r a r1 Hr H1) as (Ha & Hu1 & Hr1 & Hb1 & Ht1).
  destruct (Hk a Ha r1 b r' Hr1 H2) as (Hb & Hu2 & Hr2 & Hb2 & Ht2).
  destruct (He a b Ha Hb) as [Hok Henc]. split; [done|].
  split; [by rewrite Hu1, Hu2, Henc, app_assoc|]. split; [done|]. split; congruence.
Qed.

Lemma exact_ret {A} (a : A) enc (ok : A -> Prop) : ok a -> enc a = [] -> exact (mret a) enc ok.
Proof.
  intros Ha He r x r' Hr H. injection H as <- <-. rewrite He. auto.
Qed.

Lemma exact_throw {A} e enc (ok : A -> Prop) : exact (throw e) enc ok.
Proof. intros r x r' Hr H. discriminate. Qed.

Lemma raw_exact n : exact (r_raw n) id (fun b => length b = n /\ bytes_ok b).
Proof.
  intros [buf pos tag] b r' [Hp Hb] H. unfold r_raw, remaining in H. cbn [r_buf r_pos] in *.
  destruct (Nat.ltb_spec (length buf - pos) n); [discriminate|]. injection H as <- <-.
  unfold unread, reader_ok. cbn. repeat split; [| | |lia|done].
  - rewrite length_take, length_drop. lia.
  - by apply Forall_take, Forall_drop.
  - unfold id. rewrite <- drop_drop. by rewrite take_drop.
Qed.

Lemma le_exact n : exact (r_le n) (to_le n) (is_u (8 * Z.of_nat n)).
Proof.
  eapply (exact_bind _ _ _ _ (fun _ _ => []) (fun b v => v = from_le b)); [apply raw_exact| |].
  - intros b _. by apply exact_ret.
  - intros b v [Hl Hb] ->. rewrite app_nil_r. split.
    + rewrite <- Hl. by apply from_le_bound.
    + rewrite <- Hl. by apply to_from_le.
Qed.

(** ** The codecs of the writer *)

Lemma codec_le n wr :
  (forall v, wr v = w_raw (to_le n v)) -> codec (is_u (8 * Z.of_nat n)) wr (r_le n) (to_le n).
Proof.
  intros Hw. split.
  - intros v. rewrite Hw. apply writes_raw.
  - intros v. apply reads_le.
  - apply le_exact.
Qed.

Lemma codec_u16 : codec (is_u 16) w_u16 r_u16 (to_le 2).
Proof. by apply (codec_le 2). Qed.
Lemma codec_u32 : codec (is_u 32) w_u32 r_u32 (to_le 4).
Proof. by apply (codec_le 4). Qed.
Lemma codec_u64 : codec (is_u 64) w_u64 r_u64 (to_le 8).
Proof. by apply (codec_le 8). Qed.
Lemma codec_u128 : codec (is_u 128) w_u128 r_u128 (to_le 16).
Proof. by apply (codec_le 16). Qed.

Lemma to_le_1 v : is_u 8 v -> to_le 1 v = [v].
Proof. intros Hv. cbn. by rewrite mod_is_u. Qed.

Lemma codec_u8 : codec (is_u 8) w_u8 r_u8 (fun v => [v]).
Proof.
  split.
  - intros v. apply writes_raw.
  - intros v Hv. rewrite <- to_le_1 by done. by apply (reads_le 1).
  - intros r v r' Hr H. destruct (le_exact 1 r v r' Hr H) as (Hv & Hu & Hs).
    split; [done|]. split; [|exact Hs]. by rewrite <- to_le_1.
Qed.

Lemma codec_bool : codec (fun _ => True) w_bool r_bool (fun v => [b2z v]).
Proof.
  split.
  - intros v. apply writes_raw.
  - intros v _. unfold r_bool. rewrite <- (app_nil_r [b2z v]). eapply reads_bind.
    + apply (codec_reads _ _ _ _ codec_u8). by destruct v.
    + destruct v; apply reads_ret.
  - eapply (exact_bind _ _ _ _ (fun _ _ => []) (fun v b => v = b2z b)).
    + apply (codec_exact _ _ _ _ codec_u8).
    + intros v _. destruct (Z.eqb_spec v 0) as [->|]; [by apply exact_ret|].
      destruct (Z.eqb_spec v 1) as [->|]; [by apply exact_ret|apply exact_throw].
    + by intros v b _ ->.
Qed.

Lemma codec_opt {T} ok wr (rd : reading T) enc :
  codec ok wr rd enc ->
  codec (fun v => match v with Some x => ok x | None => True end) (fun v => w_opt v wr) (r_opt rd)
    (fun v => match v with Some x => 1 :: enc x | None => [0] end).
Proof.
  intros C. split.
  - intros [x|]; [|apply writes_raw]. apply (writes_then (w_u8 1) (wr x) [1]); [apply writes_raw|apply C].
  - intros [x|] Hx; unfold r_opt.
    + apply (reads_bind _ _ [1] (enc x) 1); [by apply (codec_reads _ _ _ _ codec_u8)|].
      apply reads_map. by apply C.
    + apply (reads_bind _ _ [0] [] 0); [by apply (codec_reads _ _ _ _ codec_u8)|apply reads_ret].
  - eapply (exact_bind _ _ _ _
      (fun _ v => match v with Some x => enc x | None => [] end)
      (fun t v => match v with Some x => t = 1 /\ ok x | None => t = 0 end)).
    + apply (codec_exact _ _ _ _ codec_u8).
    + intros v _. destruct (Z.eqb_spec v 0) as [->|]; [by apply exact_ret|].
      destruct (Z.eqb_spec v 1) as [->|]; [|apply exact_throw].
      eapply (exact_bind _ _ _ _ (fun _ _ => []) (fun x v => v = Some x)); [apply C| |].
      * intros x _. by apply exact_ret.
      * intros x v Hx ->. by rewrite app_nil_r.
    + intros v [x|] _; [intros [-> ?]|intros ->]; done.
Qed.

(** *** Lengths *)

(** A length of [n] items of at least [min_item] bytes each, followed by them. *)
Lemma reads_len_of {B} min_item n (k : nat -> reading B) b c :
  (n * Nat.max min_item 1 <= length b)%nat -> is_u 64 (Z.of_nat n) -> reads (k n) b c ->
  reads (mbind k (r_len_of min_item)) (to_le 8 (Z.of_nat n) ++ b) c.
Proof.
  intros Hn Hu Hk pre rest tag. rewrite <- app_assoc.
  pose proof (codec_reads _ _ _ _ codec_u64 (Z.of_nat n) Hu pre (b ++ rest) tag) as H8.
  set (buf := pre ++ to_le 8 (Z.of_nat n) ++ b ++ rest) in *.
  assert (remaining (MkReader buf (length pre + length (to_le 8 (Z.of_nat n))) tag)
          = length b + length rest)%nat as Hrem.
  { unfold remaining, buf. cbn [r_buf r_pos]. rewrite !length_app. lia. }
  assert (r_len_of min_item (MkReader buf (length pre) tag)
          = (Ok n, MkReader buf (length pre + length (to_le 8 (Z.of_nat n))) tag)) as Hlen.
  { unfold r_len_of, mbind, prog_bind, gets. rewrite H8, Hrem.
    destruct (Z.ltb_spec (Z.of_nat ((length b + length rest) / Nat.max min_item 1)) (Z.of_nat n)) as [Hlt|_].
    - exfalso. apply Nat2Z.inj_lt in Hlt. apply Nat.lt_nge in Hlt. apply Hlt, Nat.div_le_lower_bound; lia.
    - by rewrite Nat2Z.id. }
  unfold mbind, prog_bind. rewrite Hlen.
  specialize (Hk (pre ++ to_le 8 (Z.of_nat n)) rest tag). rewrite length_app, <- app_assoc in Hk.
  unfold buf. rewrite Hk, length_app. by rewrite Nat.add_assoc.
Qed.

Lemma len_of_exact min_item : exact (r_len_of min_item) (fun n => to_le 8 (Z.of_nat n)) (fun n => is_u 64 (Z.of_nat n)).
Proof.
  eapply (exact_bind _ _ _ _ (fun _ _ => []) (fun v n => Z.of_nat n = v)).
  - apply (codec_exact _ _ _ _ codec_u64).
  - intros v [Hv _] r n r' Hr H. unfold mbind, prog_bind, gets in H.
    destruct (_ <? v); [discriminate|]. injection H as <- <-.
    split; [lia|]. by split.
  - intros v n Hv ->. by rewrite app_nil_r.
Qed.

Lemma codec_bytes : codec (fun b => bytes_ok b /\ is_u 64 (Z.of_nat (length b))) w_bytes r_bytes
                      (fun b => to_le 8 (Z.of_nat (length b)) ++ b).
Proof.
  split.
  - intros b. unfold w_bytes, w_len_of, w_u64. apply writes_then; apply writes_raw.
  - intros b [_ Hl]. apply reads_len_of; [lia|done|apply reads_raw].
  - eapply (exact_bind _ _ _ _ (fun _ => id) (fun n b => length b = n /\ bytes_ok b)); [apply len_of_exact| |].
    + intros n _. apply raw_exact.
    + intros n b Hn [<- Hb]. done.
Qed.

Lemma codec_string : codec (fun s => utf8 s = true /\ bytes_ok s /\ is_u 64 (Z.of_nat (length s))) w_str r_string
                       (fun s => to_le 8 (Z.of_nat (length s)) ++ s).
Proof.
  split.
  - apply codec_bytes.
  - intros s [Hu Hs]. unfold r_string. rewrite <- (app_nil_r (_ ++ s)).
    eapply reads_bind; [by apply codec_bytes|]. rewrite Hu. apply reads_ret.
  - eapply (exact_bind _ _ _ _ (fun _ _ => []) (fun b s => s = b /\ utf8 b = true)); [apply codec_bytes| |].
    + intros b _. destruct (utf8 b) eqn:Hu; [by apply exact_ret|apply exact_throw].
    + intros b s Hb [-> Hu]. by rewrite app_nil_r.
Qed.

Lemma reads_times {T} (f : reading T) enc l :
  (forall x, x ∈ l -> reads f (enc x) x) -> reads (r_times (length l) f) (concat (map enc l)) l.
Proof.
  induction l as [|x l IH]; intros Hf; cbn; [apply reads_ret|].
  eapply reads_bind; [apply Hf; by left|]. apply reads_map. apply IH. intros y Hy. apply Hf. by right.
Qed.

Lemma times_exact {T} (f : reading T) enc ok n :
  exact f enc ok -> exact (r_times n f) (fun l => concat (map enc l)) (fun l => Forall ok l /\ length l = n).
Proof.
  intros Hf. induction n as [|n IH]; cbn; [by apply exact_ret|].
  eapply (exact_bind _ _ _ _ (fun x l => concat (map enc (tail l)))
            (fun x l => exists l', l = x :: l' /\ Forall ok l' /\ length l' = n)); [exact Hf| |].
  - intros x Hx. eapply (exact_bind _ _ _ _ (fun _ _ => []) (fun l' l => l = x :: l')); [exact IH| |].
    + intros l' _. by apply exact_ret.
    + intros l' l [H1 H2] ->. cbn. rewrite app_nil_r. eauto.
  - intros x l Hx (l' & -> & Hl & Hn). cbn. auto with f_equal.
Qed.

Lemma concat_length_le {T} (enc : T -> list Z) k l :
  (forall x, x ∈ l -> (k <= length (enc x))%nat) -> (length l * k <= length (concat (map enc l)))%nat.
Proof.
  induction l as [|x l IH]; intros Hk; cbn; [lia|]. rewrite length_app.
  specialize (Hk x (list_elem_of_here _ _)) as Hx.
  assert (length l * k <= length (concat (map enc l)))%nat by (apply IH; intros y Hy; apply Hk; by right). lia.
Qed.

Lemma codec_seq {T} ok wr (rd : reading T) enc min_item :
  codec ok wr rd enc -> (forall x, ok x -> (Nat.max min_item 1 <= length (enc x))%nat) ->
  codec (fun l => Forall ok l /\ is_u 64 (Z.of_nat (length l))) (fun l => w_seq l wr) (r_seq min_item rd)
    (fun l => to_le 8 (Z.of_nat (length l)) ++ concat (map enc l)).
Proof.
  intros C Hmin. split.
  - intros l. unfold w_seq. apply writes_foldl; [apply writes_raw|]. intros x _. apply C.
  - intros l [Hl Hu]. rewrite Forall_forall in Hl. apply reads_len_of; [|done|].
    + apply concat_length_le. intros x Hx. by apply Hmin, Hl.
    + apply reads_times. intros x Hx. by apply C, Hl.
  - eapply (exact_bind _ _ _ _ (fun _ l => concat (map enc l)) (fun n l => Forall ok l /\ length l = n)).
    + apply len_of_exact.
    + intros n _. apply times_exact, C.
    + intros n l Hn [Hl <-]. done.
Qed.

(** ** Sections *)

Lemma overwrite_app a b c b' : length b = length b' -> overwrite (length a) b' (a ++ b ++ c) = a ++ b' ++ c.
Proof.
  intros Hl. unfold overwrite. rewrite take_app_length. rewrite <- drop_drop, drop_app_length.
  rewrite <- Hl. by rewrite drop_app_length.
Qed.

Definition section_bytes (tag b : list Z) : list Z := tag ++ to_le 8 (Z.of_nat (length b)) ++ b.

Lemma writes_section tag f b : writes f b -> writes (w_section tag f) (section_bytes tag b).
Proof.
  intros Hf [buf lv ms] Hw. cbn in Hw. subst ms. unfold w_section.
  cbv zeta. rewrite Hf by reflexivity. unfold w_u64, w_raw, update. cbn -[to_le overwrite]. f_equal.
  replace ((buf ++ tag) ++ to_le 8 0) with (buf ++ tag ++ to_le 8 0) by by rewrite app_assoc.
  assert (length (((buf ++ tag ++ to_le 8 0) ++ b)) - length (buf ++ tag) - 8 = length b)%nat as ->.
  { rewrite !length_app, length_to_le. lia. }
  rewrite <- !app_assoc. rewrite (app_assoc buf tag).
  rewrite overwrite_app by by rewrite !length_to_le. unfold section_bytes. by rewrite <- !app_assoc.
Qed.

Lemma reads_section tag b :
  length tag = 4%nat -> is_u 64 (Z.of_nat (length b)) ->
  reads (r_section tag) (section_bytes tag b) (MkReader b 0 tag).
Proof.
  intros Ht Hl pre rest tg. unfold r_section, section_bytes. rewrite <- !app_assoc.
  unfold mbind, prog_bind, gets. pose proof (reads_raw tag) as Hraw. rewrite Ht in Hraw. rewrite Hraw.
  rewrite bool_decide_eq_true_2 by done. cbn [negb].
  pose proof (codec_reads _ _ _ _ codec_u64 _ Hl (pre ++ tag) (b ++ rest) tg) as H8.
  rewrite length_app, <- !app_assoc in H8. rewrite H8.
  assert (remaining (MkReader (pre ++ tag ++ to_le 8 (Z.of_nat (length b)) ++ b ++ rest)
            (length pre + length tag + length (to_le 8 (Z.of_nat (length b)))) tg)
          = length b + length rest)%nat as ->.
  { unfold remaining. cbn [r_buf r_pos]. rewrite !length_app. lia. }
  destruct (Z.ltb_spec (Z.of_nat (length b + length rest)) (Z.of_nat (length b))); [lia|].
  rewrite Nat2Z.id.
  pose proof (reads_raw b (pre ++ tag ++ to_le 8 (Z.of_nat (length b))) rest tg) as Hb.
  rewrite !length_app, <- !app_assoc in Hb. rewrite Nat.add_assoc in Hb. rewrite Hb. unfold mret, prog_ret.
  do 2 f_equal. rewrite !length_app. lia.
Qed.

Lemma section_exact tag :
  length tag = 4%nat ->
  exact (r_section tag) (fun r => section_bytes tag (r_buf r))
    (fun r => reader_ok r /\ r_pos r = O /\ r_tag r = tag /\ is_u 64 (Z.of_nat (length (r_buf r)))).
Proof.
  intros Ht. unfold r_section, section_bytes.
  eapply (exact_bind _ _ id _ (fun _ r => to_le 8 (Z.of_nat (length (r_buf r))) ++ r_buf r)
    (fun b r => b = tag /\ reader_ok r /\ r_pos r = O /\ r_tag r = tag /\ is_u 64 (Z.of_nat (length (r_buf r)))));
    [apply raw_exact| |by intros b r _ (-> & Hr)].
  intros found Hf. destruct (bool_decide_reflect (found = tag)) as [->|]; cbn [negb]; [|apply exact_throw].
  eapply (exact_bind _ _ (to_le 8) _ (fun _ r => r_buf r)
    (fun n r => n = Z.of_nat (length (r_buf r)) /\ reader_ok r /\ r_pos r = O /\ r_tag r = tag));
    [apply (codec_exact _ _ _ _ codec_u64)| |].
  - intros n Hn r s r' Hr H. unfold mbind, prog_bind, gets in H.
    destruct (Z.ltb_spec (Z.of_nat (remaining r)) n); [discriminate|].
    destruct (r_raw (Z.to_nat n) r) as [[b|e] r1] eqn:Hb; [|discriminate]. injection H as <- <-.
    destruct (raw_exact _ r b r1 Hr Hb) as ([Hl Hbo] & Hu & Hr1 & Hs). destruct Hn as [Hn0 _].
    split; [|done]. cbn [r_buf r_pos r_tag]. rewrite Hl, Z2Nat.id by done.
    split; [done|]. split; [|done]. split; [apply Nat.le_0_l|done].
  - intros n r Hn (-> & Hr). split; [|done]. repeat split; try apply Hr; apply Hn.
Qed.

(** The content of a section, read to its end. *)
Definition in_section {A} (tag : list Z) (rd : reading A) : reading A :=
  s ← r_section tag;
  match rd s with
  | (Ok a, s') => match r_finish s' with Ok _ => mret a | Err e => throw e end
  | (Err e, _) => throw e
  end.

Lemma finish_reader_ok r : reader_ok r -> r_finish r = Ok tt -> unread r = [].
Proof.
  intros [Hp _] H. unfold r_finish in H. destruct (remaining r) eqn:Hr; [|discriminate].
  unfold remaining in Hr. apply drop_ge. lia.
Qed.

(** A section written around a content that reads back, reads back: the
    reader of the section sees exactly its content, [finish] accepts it, and
    what is read is accepted only from the bytes the writer writes for it. *)
Lemma codec_section {A} tag (ok : A -> Prop) wr rd enc :
  length tag = 4%nat -> codec ok wr rd enc ->
  codec (fun a => ok a /\ is_u 64 (Z.of_nat (length (enc a)))) (fun a => w_section tag (wr a))
    (in_section tag rd) (fun a => section_bytes tag (enc a)).
Proof.
  intros Ht C. split.
  - intros a. apply writes_section, C.
  - intros a [Ha Hl]. unfold in_section. rewrite <- (app_nil_r (section_bytes _ _)).
    eapply reads_bind; [by apply reads_section|].
    pose proof (codec_reads _ _ _ _ C a Ha [] [] tag) as H. cbn in H. rewrite app_nil_r in H. rewrite H.
    unfold r_finish, remaining. cbn [r_buf r_pos]. rewrite Nat.sub_diag. apply reads_ret.
  - eapply (exact_bind _ _ _ _ (fun _ _ => []) (fun s a => r_buf s = enc a /\ ok a)); [by apply section_exact| |].
    + intros s (Hs & Hp & Htag & Hl) r a r' Hr H. destruct (rd s) as [[x|e] s'] eqn:Hrd; [|discriminate].
      destruct (codec_exact _ _ _ _ C s x s' Hs Hrd) as (Hx & Hu & Hs' & Hb & _).
      destruct (r_finish s') as [[]|] eqn:Hf; [|discriminate]. injection H as <- <-.
      rewrite (finish_reader_ok _ Hs' Hf), app_nil_r in Hu. unfold unread in Hu. rewrite Hp in Hu.
      split; [done|]. by split.
    + intros s a (Hs & Hp & Htag & Hl) [Hb Ha]. rewrite app_nil_r, <- Hb. done.
Qed.
