(* ===== verification/SnapFile.v ===== *)
(** * Checksum and snapshot file (crates/vetro-snapshot/src/lib.rs)

    [hash64], in one piece and in many, and the file container with its
    header. The theorems: hashing in pieces is hashing the whole, and a file is
    accepted exactly when it is the encoding of its header and content. *)

From Stdlib Require Import ZArith Lia Bool.
From stdpp Require Import base list numbers strings pretty.
From S2P Require Import Prelude SnapWire SnapCodec.
Local Open Scope Z_scope.
Local Open Scope vetro_scope.

(** ** Hash *)

(** [as_chunks::<8>()]: the 8-byte words and the rest. *)
Fixpoint chunks8 (l : list Z) : list (list Z) * list Z :=
  match l with
  | a :: b :: c :: d :: e :: f :: g :: h :: l' =>
      let '(words, rest) := chunks8 l' in ([a; b; c; d; e; f; g; h] :: words, rest)
  | _ => ([], l)
  end.

(** [u64::rotate_left]. *)
Definition rotate_left (x n : Z) : Z := Z.lor (u64 (Z.shiftl x n)) (Z.shiftr x (64 - n)).

Definition HASH_P : Z := 0x00000100000001b3.
Definition HASH_SEED : Z := 0xcbf29ce484222325.

Definition hash_word (h : Z) (c : list Z) : Z := rotate_left (u64 (Z.lxor h (from_le c) * HASH_P)) 23.
Definition hash_byte (h b : Z) : Z := u64 (Z.lxor h b * HASH_P).

(** The final mix. *)
Definition hash_mix (h : Z) : Z :=
  let h := u64 (Z.lxor h (Z.shiftr h 30) * 0xbf58476d1ce4e5b9) in
  let h := u64 (Z.lxor h (Z.shiftr h 27) * 0x94d049bb133111eb) in
  Z.lxor h (Z.shiftr h 31).

Definition hash64 (data : list Z) : Z :=
  let h := Z.lxor HASH_SEED (u64 (Z.of_nat (length data))) in
  let '(words, rest) := chunks8 data in
  hash_mix (foldl hash_byte (foldl hash_word h words) rest).

(** [hash64] in pieces. *)
Record Hash64 := MkHash64 { hh : Z; carry : list Z; hn : nat }.

#[export] Instance eta_Hash64 : Eta Hash64 := fun x => MkHash64 (hh x) (carry x) (hn x).

Definition hash_new (total : Z) : Hash64 := MkHash64 (Z.lxor HASH_SEED total) (replicate 8 0) 0.

(** The words and the rest of [data], once there is no carry. *)
Definition hash_chunks (data : list Z) (x : Hash64) : Hash64 :=
  let '(words, rest) := chunks8 data in
  MkHash64 (foldl hash_word (hh x) words) (overwrite 0 rest (carry x)) (length rest).

Definition hash_update (data : list Z) (x : Hash64) : Hash64 :=
  if (0 <? hn x)%nat then
    let k := Nat.min (8 - hn x) (length data) in
    let x := x <| carry ::= overwrite (hn x) (take k data) |> <| hn ::= fun n => (n + k)%nat |> in
    let data := drop k data in
    if (hn x <? 8)%nat then x
    else hash_chunks data (x <| hh := hash_word (hh x) (carry x) |> <| hn := O |>)
  else hash_chunks data x.

Definition hash_finish (x : Hash64) : Z := hash_mix (foldl hash_byte (hh x) (take (hn x) (carry x))).

(** ** File *)

(** VETROSNP. *)
Definition MAGIC : list Z := [86; 69; 84; 82; 79; 83; 78; 80].
Definition FORMAT_VERSION : Z := 4.
Definition HEADER_LEN : nat := 8 + 4 + 8 + 8 + 8.
Definition BLOCK : nat := Z.to_nat 4096.

Definition encode_container (magic : list Z) (version hash : Z) (payload : list Z) : list Z :=
  magic ++ to_le 4 version ++ to_le 8 hash ++ to_le 8 (Z.of_nat (length payload))
    ++ to_le 8 (hash64 payload) ++ payload.

Definition encode_file (hash : Z) (payload : list Z) : list Z :=
  encode_container MAGIC FORMAT_VERSION hash payload.

Record Header := MkHeader { h_version : Z; h_config_hash : Z }.

(** What follows the magic. *)
Definition decode_body (version : Z) : reading (Header * list Z) :=
  found ← r_u32;
  if negb (found =? version) then throw (Version found version) else
  config_hash ← r_u64;
  len ← r_u64;
  sum ← r_u64;
  left ← gets remaining;
  if negb (len =? Z.of_nat left) then throw Truncated else
  payload ← r_raw (Z.to_nat len);
  if negb (hash64 payload =? sum) then throw Checksum else
  mret (MkHeader found config_hash, payload).

Definition decode_container (magic : list Z) (version : Z) (bytes : list Z)
    : result (Header * list Z) Error :=
  if (length bytes <? 8)%nat || negb (bool_decide (take 8 bytes = magic)) then Err BadMagic
  else (decode_body version (reader_new (drop 8 bytes))).1.

Definition decode_file (bytes : list Z) : result (Header * list Z) Error :=
  decode_container MAGIC FORMAT_VERSION bytes.

(** Eight bytes at a time, then the rest. *)
Definition is_zero (b : list Z) : bool :=
  let '(words, rest) := chunks8 b in
  (foldl (fun a c => Z.lor a (from_le c)) 0 words =? 0) && forallb (Z.eqb 0) rest.

(** ** Words and rest *)

Lemma chunks8_short l : (length l < 8)%nat -> chunks8 l = ([], l).
Proof. intros Hl. do 8 (destruct l as [|? l]; [done|]). cbn in Hl. lia. Qed.

Lemma chunks8_word w l : length w = 8%nat -> chunks8 (w ++ l) = (w :: (chunks8 l).1, (chunks8 l).2).
Proof.
  intros Hw. do 8 (destruct w as [|? w]; [done|]). destruct w; [|done]. cbn. by destruct (chunks8 l).
Qed.

(** Eight at a time. *)
Lemma words_ind (P : list Z -> Prop) :
  (forall l, (length l < 8)%nat -> P l) -> (forall w l, length w = 8%nat -> P l -> P (w ++ l)) ->
  forall l, P l.
Proof.
  intros Hs Hw l. induction l as [l IH] using (induction_ltof1 _ (@length Z)). unfold ltof in IH.
  destruct (decide (length l < 8)%nat) as [|Hl]; [by apply Hs|].
  rewrite <- (take_drop 8 l). apply Hw; [rewrite length_take; lia|]. apply IH. rewrite length_drop. lia.
Qed.

Lemma chunks8_app a b :
  chunks8 (a ++ b) = ((chunks8 a).1 ++ (chunks8 ((chunks8 a).2 ++ b)).1, (chunks8 ((chunks8 a).2 ++ b)).2).
Proof.
  induction a as [a Ha|w a Hw IH] using words_ind.
  - rewrite (chunks8_short a) by done. cbn. by destruct (chunks8 (a ++ b)).
  - rewrite <- app_assoc, (chunks8_word w a), (chunks8_word w (a ++ b)), IH by done. reflexivity.
Qed.

Lemma chunks8_join l : concat (chunks8 l).1 ++ (chunks8 l).2 = l.
Proof.
  induction l as [l Hl|w l Hw IH] using words_ind; [by rewrite chunks8_short|].
  rewrite chunks8_word by done. cbn [fst snd concat]. by rewrite <- app_assoc, IH.
Qed.

Lemma chunks8_rest l : (length (chunks8 l).2 < 8)%nat.
Proof.
  induction l as [l Hl|w l Hw IH] using words_ind; [by rewrite chunks8_short|]. by rewrite chunks8_word.
Qed.

(** ** Hashing in pieces *)

(** [x] has hashed [pre]. *)
Definition hashed (seed : Z) (pre : list Z) (x : Hash64) : Prop :=
  hh x = foldl hash_word seed (chunks8 pre).1 /\ hn x = length (chunks8 pre).2 /\
  take (hn x) (carry x) = (chunks8 pre).2 /\ length (carry x) = 8%nat.

Lemma hash_chunks_hashed seed pre data x :
  hashed seed pre x -> (chunks8 pre).2 = [] -> hashed seed (pre ++ data) (hash_chunks data x).
Proof.
  intros (Hh & Hn & Hc & Hl) Hr. unfold hash_chunks. pose proof (chunks8_rest data) as Hd.
  unfold hashed. rewrite chunks8_app, Hr. cbn [app fst snd].
  destruct (chunks8 data) as [words rest]. cbn [hh hn carry fst snd] in *.
  rewrite Hh, foldl_app. split; [done|]. split; [done|]. unfold overwrite. cbn [app plus].
  rewrite take_0, app_nil_l. split; [by rewrite take_app_length|].
  rewrite length_app, length_drop. lia.
Qed.

Lemma hash_update_hashed seed pre data x :
  hashed seed pre x -> hashed seed (pre ++ data) (hash_update data x).
Proof.
  intros Hx. pose proof Hx as (Hh & Hn & Hc & Hl). unfold hash_update.
  pose proof (chunks8_rest pre) as Hr8. destruct (Nat.ltb_spec 0 (hn x)) as [Hpos|Hz].
  2: { apply hash_chunks_hashed; [done|]. destruct (chunks8 pre).2; [done|]. cbn in Hn. lia. }
  set (k := Nat.min (8 - hn x) (length data)). cbv zeta.
  assert (take (hn x + k) (overwrite (hn x) (take k data) (carry x)) = (chunks8 pre).2 ++ take k data) as Hc'.
  { unfold overwrite. rewrite Hc, app_assoc. apply take_app_length'.
    rewrite length_app, length_take, <- Hn. lia. }
  assert (length (overwrite (hn x) (take k data) (carry x)) = 8%nat) as Hl'.
  { unfold overwrite. rewrite !length_app, !length_take, length_drop, Hl. lia. }
  unfold update. cbn [hh hn carry]. destruct (Nat.ltb_spec (hn x + k) 8) as [Hs|Hf].
  - assert (k = length data) as Ek by lia. unfold hashed. cbn [hh hn carry].
    rewrite Ek, firstn_all in *. rewrite chunks8_app.
    rewrite (chunks8_short ((chunks8 pre).2 ++ data)) by (rewrite length_app; lia).
    cbn [fst snd]. rewrite app_nil_r, length_app, <- Hn. done.
  - rewrite firstn_all2 in Hc' by lia.
    assert (length (take k data) = k) as Hk by (rewrite length_take; lia).
    assert (chunks8 (pre ++ take k data) = ((chunks8 pre).1 ++ [(chunks8 pre).2 ++ take k data], [])) as Hp.
    { rewrite chunks8_app. rewrite <- (app_nil_r ((chunks8 pre).2 ++ take k data)) at 1 2.
      rewrite chunks8_word by (rewrite length_app; lia). done. }
    rewrite <- (take_drop k data) at 1. rewrite app_assoc. apply hash_chunks_hashed; [|by rewrite Hp].
    unfold hashed. rewrite Hp. cbn [hh hn carry fst snd length]. rewrite foldl_app, <- Hh. cbn [foldl].
    split; [by rewrite Hc'|]. by rewrite take_0.
Qed.

(** A hash computed in pieces of any sizes, with the total length given
    up front, is the hash of the whole data. *)
Theorem hash64_pieces pieces :
  let data := concat pieces in
  hash_finish (foldl (fun x p => hash_update p x) (hash_new (u64 (Z.of_nat (length data)))) pieces)
  = hash64 data.
Proof.
  cbv zeta. set (seed := Z.lxor HASH_SEED (u64 (Z.of_nat (length (concat pieces))))).
  assert (forall ps pre x, hashed seed pre x ->
    hashed seed (pre ++ concat ps) (foldl (fun x p => hash_update p x) x ps)) as Hall.
  { induction ps as [|p ps IH]; intros pre x Hx; cbn; [by rewrite app_nil_r|].
    rewrite app_assoc. by apply IH, hash_update_hashed. }
  destruct (Hall pieces [] (hash_new (u64 (Z.of_nat (length (concat pieces)))))) as (Hh & Hn & Hc & _);
    [by repeat split|]. cbn [app] in *.
  unfold hash_finish, hash64. rewrite Hh, Hc. fold seed. by destruct (chunks8 (concat pieces)).
Qed.

(** ** Zero blocks *)

Lemma from_le_zero l : bytes_ok l -> (from_le l = 0 <-> Forall (fun b => b = 0) l).
Proof.
  induction 1 as [|b l Hb Hl IH]; cbn; [by split|].
  pose proof (from_le_bound l Hl) as [H0 _]. destruct Hb as [Hb0 Hb1]. rewrite Forall_cons, <- IH.
  change (2 ^ 8) with 256. lia.
Qed.

Lemma foldl_lor_zero (ws : list (list Z)) a :
  foldl (fun a c => Z.lor a (from_le c)) a ws = 0 <-> a = 0 /\ Forall (fun c => from_le c = 0) ws.
Proof.
  revert a. induction ws as [|w ws IH]; intros a; cbn.
  - split; [|by intros [? _]]. auto.
  - rewrite IH, Z.lor_eq_0_iff, Forall_cons. tauto.
Qed.

Lemma concat_forall {A} (P : A -> Prop) (ls : list (list A)) : Forall P (concat ls) <-> Forall (Forall P) ls.
Proof. induction ls as [|l ls IH]; cbn; [done|]. by rewrite Forall_app, Forall_cons, IH. Qed.

Lemma is_zero_spec b : bytes_ok b -> is_zero b = true <-> Forall (fun x => x = 0) b.
Proof.
  intros Hb. unfold is_zero. rewrite <- (chunks8_join b) in Hb |- * at 2.
  destruct (chunks8 b) as [ws rest]. cbn [fst snd] in *. apply Forall_app in Hb as [Hws Hrest].
  rewrite andb_true_iff, Z.eqb_eq, foldl_lor_zero, Forall_app, concat_forall.
  apply concat_forall in Hws. rewrite forallb_forall, (Forall_forall _ rest).
  assert (Forall (fun c => from_le c = 0) ws <-> Forall (Forall (fun x => x = 0)) ws) as <-.
  { rewrite !Forall_forall. rewrite Forall_forall in Hws.
    split; intros H c Hc; apply (from_le_zero c (Hws c Hc)), H, Hc. }
  setoid_rewrite Z.eqb_eq. setoid_rewrite list_elem_of_In. split.
  - intros [[_ Hw] Hr]. split; [done|]. intros x Hx. by rewrite <- (Hr x Hx).
  - intros [Hw Hr]. split; [done|]. intros x Hx. by rewrite (Hr x Hx).
Qed.

(** A block is skipped as zero exactly when all its bytes are zero. *)
Theorem is_zero_iff b : bytes_ok b -> is_zero b = true <-> b = replicate (length b) 0.
Proof.
  intros Hb. rewrite is_zero_spec by done. split.
  - intros H. symmetry. apply replicate_as_Forall_2; [done|].
    eapply Forall_impl; [exact H|]. by intros x ->.
  - intros ->. by apply Forall_replicate.
Qed.

(** ** The container *)

Lemma is_u_hash_mix h : is_u 64 (hash_mix h).
Proof.
  unfold hash_mix. cbv zeta. set (x := u64 (Z.lxor (u64 _) _ * _)).
  apply is_u_lxor; [lia|apply is_u_u64|]. apply is_u_shiftr; [lia|lia|apply is_u_u64].
Qed.

Lemma is_u_hash64 data : is_u 64 (hash64 data).
Proof. unfold hash64. destruct (chunks8 data). apply is_u_hash_mix. Qed.

(** The header fields after the magic, and the content to the end. *)
Definition body_bytes (version hash : Z) (payload : list Z) : list Z :=
  to_le 4 version ++ to_le 8 hash ++ to_le 8 (Z.of_nat (length payload)) ++ to_le 8 (hash64 payload) ++ payload.

Lemma decode_body_encoded version hash payload tag :
  is_u 32 version -> is_u 64 hash -> is_u 64 (Z.of_nat (length payload)) ->
  (decode_body version (MkReader (body_bytes version hash payload) 0 tag)).1
  = Ok (MkHeader version hash, payload).
Proof.
  intros Hv Hh Hl. unfold decode_body, body_bytes. unfold mbind, prog_bind, gets.
  pose proof (codec_reads _ _ _ _ codec_u32 version Hv []) as H1. cbn [app length plus] in H1. rewrite H1.
  rewrite Z.eqb_refl. cbn [negb].
  pose proof (codec_reads _ _ _ _ codec_u64 hash Hh (to_le 4 version)) as H2. rewrite H2.
  pose proof (codec_reads _ _ _ _ codec_u64 _ Hl (to_le 4 version ++ to_le 8 hash)) as H3.
  setoid_rewrite <- app_assoc in H3. rewrite length_app in H3. rewrite H3.
  pose proof (codec_reads _ _ _ _ codec_u64 _ (is_u_hash64 payload)
    (to_le 4 version ++ to_le 8 hash ++ to_le 8 (Z.of_nat (length payload)))) as H4.
  repeat setoid_rewrite <- app_assoc in H4. rewrite !length_app, Nat.add_assoc in H4. rewrite H4.
  set (r := MkReader _ _ _). assert (remaining r = length payload) as ->.
  { unfold remaining, r. cbn [r_buf r_pos]. rewrite !length_app. lia. }
  rewrite Z.eqb_refl. cbn [negb]. rewrite Nat2Z.id.
  rewrite (reads_at _ payload payload r []); [|apply reads_raw| |].
  - by rewrite Z.eqb_refl.
  - unfold r. cbn [r_buf r_pos]. rewrite !length_app. lia.
  - unfold unread, r. cbn [r_buf r_pos]. rewrite app_nil_r, !app_assoc. apply drop_app_length'.
    rewrite !length_app. lia.
Qed.

Lemma decode_body_exact version r h payload r' :
  reader_ok r -> decode_body version r = (Ok (h, payload), r') ->
  unread r = body_bytes version (h_config_hash h) payload /\ h_version h = version /\
  is_u 32 version /\ is_u 64 (h_config_hash h) /\ is_u 64 (Z.of_nat (length payload)).
Proof.
  intros Hr H. unfold decode_body in H.
  apply bind_ok_inv in H as (found & r1 & H1 & H).
  destruct (codec_exact _ _ _ _ codec_u32 r found r1 Hr H1) as (Hf & U1 & R1 & _).
  destruct (Z.eqb_spec found version) as [->|]; cbn [negb] in H; [|discriminate].
  apply bind_ok_inv in H as (ch & r2 & H2 & H).
  destruct (codec_exact _ _ _ _ codec_u64 r1 ch r2 R1 H2) as (Hc & U2 & R2 & _).
  apply bind_ok_inv in H as (len & r3 & H3 & H).
  destruct (codec_exact _ _ _ _ codec_u64 r2 len r3 R2 H3) as (Hl & U3 & R3 & _).
  apply bind_ok_inv in H as (sum & r4 & H4 & H).
  destruct (codec_exact _ _ _ _ codec_u64 r3 sum r4 R3 H4) as (Hs & U4 & R4 & _).
  apply bind_ok_inv in H as (left & r5 & H5 & H). injection H5 as <- <-.
  destruct (Z.eqb_spec len (Z.of_nat (remaining r4))) as [El|]; cbn [negb] in H; [|discriminate].
  apply bind_ok_inv in H as (pl & r6 & H6 & H).
  destruct (raw_exact _ r4 pl r6 R4 H6) as ([Hpl _] & U6 & R6 & Hb6 & _).
  destruct (Z.eqb_spec (hash64 pl) sum) as [<-|]; cbn [negb] in H; [|discriminate].
  injection H as <- <- <-. cbn [h_version h_config_hash]. unfold id in U6.
  assert (unread r6 = []) as E6.
  { assert (length (unread r4) = length (pl ++ unread r6)) as E by by rewrite U6.
    rewrite length_app in E. unfold unread in E at 1. rewrite length_drop in E. unfold remaining in El.
    apply length_zero_iff_nil. lia. }
  rewrite E6, app_nil_r in U6. rewrite El, Nat2Z.id in Hpl. rewrite <- Hpl in El. subst len.
  unfold body_bytes. rewrite U1, U2, U3, U4, U6. repeat split; try done; apply Hf || apply Hc || apply Hl.
Qed.

(** A file is accepted exactly when it is the encoding of its header and
    its content: what [encode_container] writes is read back, and any other
    bytes — another magic, another version, a wrong length, a wrong checksum,
    bytes missing or left over — are refused. *)
Theorem container_exact magic version bytes h payload :
  length magic = 8%nat -> bytes_ok bytes ->
  decode_container magic version bytes = Ok (h, payload) <->
  (bytes = encode_container magic version (h_config_hash h) payload /\ h_version h = version /\
   is_u 32 version /\ is_u 64 (h_config_hash h) /\ is_u 64 (Z.of_nat (length payload))).
Proof.
  intros Hm Hb. unfold decode_container, encode_container. split.
  - destruct (Nat.ltb_spec (length bytes) 8) as [|Hl]; cbn [orb]; [discriminate|].
    destruct (bool_decide_reflect (take 8 bytes = magic)) as [Et|]; cbn [negb]; [|discriminate].
    destruct (decode_body version (reader_new (drop 8 bytes))) as [[[h' p']|e] r'] eqn:Hd; [|discriminate].
    cbn [fst]. intros E%ok_inj. injection E as -> ->.
    apply decode_body_exact in Hd as (Hu & Hrest); [|split; [cbn; lia|by apply Forall_drop]].
    split; [|exact Hrest]. unfold unread in Hu. cbn in Hu. rewrite drop_0 in Hu.
    rewrite <- (take_drop 8 bytes), Et, Hu. reflexivity.
  - intros (-> & Ev & Hv & Hh & Hl). fold (body_bytes version (h_config_hash h) payload).
    rewrite length_app, Hm. cbn [plus Nat.ltb Nat.leb orb].
    rewrite take_app_length', drop_app_length' by done.
    rewrite bool_decide_eq_true_2 by done. cbn [negb]. unfold reader_new.
    rewrite decode_body_encoded by done. rewrite <- Ev. by destruct h.
Qed.

(** The file of an empty machine, read back. *)
Lemma container_exact_witness :
  decode_container MAGIC FORMAT_VERSION (encode_file 42 [1; 2; 3])
  = Ok (MkHeader FORMAT_VERSION 42, [1; 2; 3]).
Proof.
  apply (container_exact MAGIC FORMAT_VERSION (encode_file 42 [1; 2; 3]) (MkHeader FORMAT_VERSION 42)); [done| |].
  - unfold bytes_ok. apply (bool_decide_unpack _). vm_compute. exact I.
  - vm_compute. repeat split; congruence.
Defined.
