(* ===== verification/SnapLz.v ===== *)
(** * LZ77 for small blocks (crates/vetro-snapshot/src/lz.rs)

    The compressor with its reusable hash table, LEB128 integers, and the
    decompressor over the destination slice. Positions in slices are [nat];
    the entries of the hash table are u32. *)

From Stdlib Require Import ZArith Lia Bool.
From stdpp Require Import base list numbers strings.
From S2P Require Import Prelude SnapWire.
Local Open Scope Z_scope.
Local Open Scope vetro_scope.

Module lz.

Definition MIN_MATCH : nat := 4.
Definition HASH_BITS : Z := 12.

(** The hash table: entries of the current block are at least [base]. *)
Record Table := MkTable { slots : list Z; base : Z }.

#[export] Instance eta_Table : Eta Table := fun t => MkTable (slots t) (base t).

Definition table_new : Table := MkTable (replicate (Z.to_nat (2 ^ HASH_BITS)) 0) 1.

(** [start]: the base of a new block of [len] bytes. *)
Definition start (len : nat) (t : Table) : Z * Table :=
  let next := base t + Z.of_nat len + 1 in
  let t := if 2 ^ 32 - 1 <=? next then MkTable (map (fun _ => 0) (slots t)) 1 else t in
  (base t, t <| base := u32 (base t + u32 (Z.of_nat len) + 1) |>).

Definition hash (v : Z) : nat := Z.to_nat (Z.shiftr (u32 (v * 0x9e3779b1)) (32 - HASH_BITS)).

(** LEB128; ten bytes hold any u64. *)
Fixpoint varint (fuel : nat) (v : Z) : list Z :=
  match fuel with
  | O => []
  | S fuel => if 0x80 <=? v then Z.lor (u8 v) 0x80 :: varint fuel (Z.shiftr v 7) else [u8 v]
  end.

Definition put_varint (out : list Z) (v : Z) : list Z := out ++ varint 10 v.

(** The integer at [pos] and the position after it. *)
Fixpoint get_varint_loop (n : nat) (shift v : Z) (src : list Z) (pos : nat) : result (Z * nat) Error :=
  match n with
  | O => Err (Invalid "LEB128 integer too long")
  | S n =>
      match src !! pos with
      | None => Err Truncated
      | Some b =>
          let v := Z.lor v (u64 (Z.shiftl (Z.land b 0x7f) shift)) in
          if Z.land b 0x80 =? 0 then Ok (v, S pos) else get_varint_loop n (shift + 7) v src (S pos)
      end
  end.

Definition get_varint (src : list Z) (pos : nat) : result (Z * nat) Error := get_varint_loop 10 0 0 src pos.

Definition literals (out lit : list Z) : list Z :=
  match lit with
  | [] => out
  | _ => put_varint out (u64 (Z.shiftl (Z.of_nat (length lit)) 1)) ++ lit
  end.

(** [&b[i..j]]. *)
Definition slice (b : list Z) (i j : nat) : list Z := take (j - i) (drop i b).

Definition word (b : list Z) (i : nat) : Z := from_le (take 4 (drop i b)).

(** [while i + len < n && src[c + len] == src[i + len] { len += 1 }]. *)
Fixpoint match_len (fuel : nat) (src : list Z) (c i len : nat) : nat :=
  match fuel with
  | O => len
  | S fuel =>
      if (i + len <? length src)%nat && (src !!! (c + len)%nat =? src !!! (i + len)%nat)
      then match_len fuel src c i (S len) else len
  end.

(** The position the table gives for [i], if it is one of this block before
    [i] with the same four bytes. *)
Definition candidate (src : list Z) (b cand : Z) (i : nat) : option nat :=
  if b <=? cand then
    let c := Z.to_nat (cand - b) in
    if (c <? i)%nat && (word src c =? word src i) then Some c else None
  else None.

(** The loop; it moves [i] forward at every turn. *)
Fixpoint compress_loop (fuel : nat) (src : list Z) (b : Z) (t : Table) (out : list Z) (lit_start i : nat)
    : list Z * nat * Table :=
  match fuel with
  | O => (out, lit_start, t)
  | S fuel =>
      if (i + MIN_MATCH <=? length src)%nat then
        let h := hash (word src i) in
        let cand := slots t !!! h in
        let t := t <| slots ::= <[h := u32 (b + u32 (Z.of_nat i))]> |> in
        match candidate src b cand i with
        | Some c =>
            let len := match_len (length src) src c i MIN_MATCH in
            let out := literals out (slice src lit_start i) in
            let out := put_varint out (Z.lor (u64 (Z.shiftl (Z.of_nat (len - MIN_MATCH)) 1)) 1) in
            let out := put_varint out (Z.of_nat (i - c)) in
            compress_loop fuel src b t out (i + len) (i + len)
        | None => compress_loop fuel src b t out lit_start (S i)
        end
      else (out, lit_start, t)
  end.

Definition compress (src out : list Z) (t : Table) : list Z * Table :=
  let '(b, t) := start (length src) t in
  let '(out, lit_start, t) := compress_loop (S (length src)) src b t out 0 0 in
  (literals out (drop lit_start src), t).

(** ** Decompression *)

Definition bad {A} (what : string) : result A Error := Err (Invalid ("compressed block: " ++ what)).

(** [for k in 0..len { dst[o + k] = dst[o + k - d] }]. *)
Fixpoint copy_bytes (len o d : nat) (dst : list Z) : list Z :=
  match len with
  | O => dst
  | S len => copy_bytes len (S o) d (<[o := dst !!! (o - d)%nat]> dst)
  end.

(** [dst.copy_within(o - d..o - d + len, o)]. *)
Definition copy_within (len o d : nat) (dst : list Z) : list Z :=
  overwrite o (take len (drop (o - d) dst)) dst.

(** The loop over tokens, each at least one byte of [src]. After an error the
    caller does not use [dst]. *)
Fixpoint decompress_loop (fuel : nat) (src : list Z) (p o : nat) (dst : list Z) : result (list Z) Error :=
  match fuel with
  | O => bad "out of fuel"
  | S fuel =>
      if (p <? length src)%nat then
        match get_varint src p with
        | Err e => Err e
        | Ok (t, p) =>
            if Z.land t 1 =? 0 then
              let len := Z.shiftr t 1 in
              if (len =? 0) || (Z.of_nat (length dst - o) <? len) || (Z.of_nat (length src - p) <? len)
              then bad "literals past the block"
              else
                let len := Z.to_nat len in
                decompress_loop fuel src (p + len) (o + len) (overwrite o (slice src p (p + len)) dst)
            else
              let len := Z.min (Z.shiftr t 1 + Z.of_nat MIN_MATCH) (2 ^ 64 - 1) in
              match get_varint src p with
              | Err e => Err e
              | Ok (d, p) =>
                  if (d =? 0) || (Z.of_nat o <? d) || (Z.of_nat (length dst - o) <? len)
                  then bad "copy outside the block"
                  else
                    let '(len, d) := (Z.to_nat len, Z.to_nat d) in
                    decompress_loop fuel src p (o + len)
                      (if (len <=? d)%nat then copy_within len o d dst else copy_bytes len o d dst)
              end
        end
      else if negb (o =? length dst)%nat then bad "shorter than expected" else Ok dst
  end.

Definition decompress (src dst : list Z) : result (list Z) Error :=
  decompress_loop (S (length src)) src 0 0 dst.

End lz.

(** * The LZ round trip (theorems about SnapLz)

    What the compressor writes is a sequence of tokens, literals and copies
    from the output so far, whose expansion is the source; the decompressor
    expands tokens in place. So decompressing gives the source back, whatever
    earlier blocks left in the hash table. *)

Import lz.

(** ** Copies from the output *)

(** The output after a copy of [len] bytes from [d] back. *)
Fixpoint copy_back (len d : nat) (out : list Z) : list Z :=
  match len with
  | O => out
  | S len => copy_back len d (out ++ [out !!! (length out - d)%nat])
  end.

Lemma length_copy_back len d out : length (copy_back len d out) = (length out + len)%nat.
Proof.
  revert out. induction len as [|len IH]; intros out; cbn [copy_back]; [lia|]. rewrite IH, length_app. cbn. lia.
Qed.

Lemma insert_boundary (out junk : list Z) x y :
  <[length out := x]> (out ++ y :: junk) = (out ++ [x]) ++ junk.
Proof. rewrite insert_app_r_alt by lia. rewrite Nat.sub_diag. cbn. by rewrite <- app_assoc. Qed.

Lemma copy_bytes_back len d out junk :
  (1 <= d <= length out)%nat -> (len <= length junk)%nat ->
  copy_bytes len (length out) d (out ++ junk) = copy_back len d out ++ drop len junk.
Proof.
  revert out junk. induction len as [|len IH]; intros out junk Hd Hl; [done|].
  destruct junk as [|y junk]; cbn in Hl; [lia|]. cbn [copy_bytes copy_back drop].
  rewrite lookup_total_app_l by lia. rewrite insert_boundary.
  replace (S (length out)) with (length (out ++ [out !!! (length out - d)%nat])) by (rewrite length_app; cbn; lia).
  apply IH; [rewrite length_app; cbn|]; lia.
Qed.

(** The copy is determined by what it repeats. *)
Lemma copy_back_unique (X : list Z) d len o :
  (1 <= d <= o)%nat -> (o + len <= length X)%nat ->
  (forall k, (k < len)%nat -> X !!! (o + k)%nat = X !!! (o + k - d)%nat) ->
  copy_back len d (take o X) = take (o + len) X.
Proof.
  revert o. induction len as [|len IH]; intros o Hd Hl Hk; [by rewrite Nat.add_0_r|].
  cbn [copy_back]. rewrite length_take_le by lia.
  assert (X !!! o = X !!! (o - d)%nat) as H0.
  { specialize (Hk O). rewrite Nat.add_0_r in Hk. apply Hk. lia. }
  rewrite lookup_total_take_lt, <- H0 by lia. rewrite <- take_S_r by (apply list_lookup_lookup_total_lt; lia).
  rewrite IH; [f_equal; lia|lia|lia|]. intros k Hk'. specialize (Hk (S k)).
  rewrite <- plus_n_Sm in Hk. apply Hk. lia.
Qed.

Lemma copy_back_far len d out :
  (1 <= d <= length out)%nat -> (len <= d)%nat ->
  copy_back len d out = out ++ take len (drop (length out - d) out).
Proof.
  intros Hd Hl. set (c := take len (drop (length out - d) out)).
  assert (length c = len) as Hc by (unfold c; rewrite length_take, length_drop; lia).
  pose proof (copy_back_unique (out ++ c) d len (length out)) as H.
  rewrite take_app_length in H. rewrite H; [|lia|rewrite length_app; lia|].
  - apply take_ge. rewrite length_app. lia.
  - intros k Hk. rewrite (lookup_total_app_r out c) by lia. rewrite (lookup_total_app_l out c) by lia.
    unfold c. rewrite lookup_total_take_lt by lia. rewrite lookup_total_drop. f_equal. lia.
Qed.

Lemma copy_within_back len d out junk :
  (1 <= d <= length out)%nat -> (len <= d)%nat -> (len <= length junk)%nat ->
  copy_within len (length out) d (out ++ junk) = copy_back len d out ++ drop len junk.
Proof.
  intros Hd Hl Hj. unfold copy_within, overwrite. rewrite copy_back_far by lia.
  rewrite drop_app_le by lia. rewrite (take_app_le (drop _ out)) by (rewrite length_drop; lia).
  rewrite take_app_length. rewrite <- app_assoc. do 2 f_equal.
  rewrite length_take, length_drop, Nat.min_l by lia.
  rewrite <- drop_drop, drop_app_length. done.
Qed.

(** The copied bytes of a match are those of the source. *)
Lemma copy_back_match src c i len :
  (c < i)%nat -> (i + len <= length src)%nat ->
  (forall k, (k < len)%nat -> src !!! (c + k)%nat = src !!! (i + k)%nat) ->
  copy_back len (i - c) (take i src) = take (i + len) src.
Proof.
  intros Hc Hl Hk. apply copy_back_unique; [lia|lia|]. intros k H.
  rewrite <- Hk by done. f_equal. lia.
Qed.

(** ** LEB128 *)

Lemma byte_low b : is_u 8 b ->
  Z.land (Z.lor b 0x80) 0x7f = b mod 128 /\ (Z.land (Z.lor b 0x80) 0x80 =? 0) = false.
Proof.
  intros Hb. assert (forall_below 256 (fun b => (Z.land (Z.lor b 0x80) 0x7f =? b mod 128)
    && negb (Z.land (Z.lor b 0x80) 0x80 =? 0)) = true) as H by (vm_compute; reflexivity).
  pose proof (forall_below_spec _ _ H b Hb) as Hall. apply andb_prop in Hall as [H1 H2]. apply Z.eqb_eq in H1. apply negb_true_iff in H2. done.
Qed.

Lemma small_byte v : 0 <= v < 128 -> u8 v = v /\ Z.land v 0x7f = v /\ (Z.land v 0x80 =? 0) = true.
Proof.
  intros Hv. split; [apply mod_is_u; split; [lia|change (2 ^ 8) with 256; lia]|].
  split.
  - change 0x7f with (2 ^ 7 - 1). rewrite land_ones_mod by lia. apply Z.mod_small. lia.
  - apply Z.eqb_eq. apply Z.bits_inj'. intros n Hn. rewrite Z.land_spec, Z.bits_0.
    destruct (decide (n = 7)) as [->|].
    + rewrite (testbit_high 7 v 7); [done|split; [lia|change (2 ^ 7) with 128; lia]|lia].
    + change 0x80 with (2 ^ 7). by rewrite Z.pow2_bits_false, andb_false_r.
Qed.

Lemma varint_step v shift :
  0 <= v -> 0 <= shift ->
  Z.lor (Z.shiftl (v mod 128) shift) (Z.shiftl (Z.shiftr v 7) (shift + 7)) = Z.shiftl v shift.
Proof.
  intros Hv Hs. rewrite Z.add_comm, <- Z.shiftl_shiftl by lia. rewrite <- Z.shiftl_lor. f_equal.
  change 128 with (2 ^ 7). rewrite Z.lor_comm, lor_shiftl_add by (try lia; apply is_u_mod; lia).
  rewrite Z.shiftr_div_pow2 by lia. rewrite (Z.div_mod v (2 ^ 7)) at 3 by lia. lia.
Qed.

Lemma get_varint_loop_spec n shift acc v pre rest :
  0 <= shift < 64 -> 64 <= shift + 7 * Z.of_nat n -> 0 <= v < 2 ^ (64 - shift) ->
  get_varint_loop n shift acc (pre ++ varint n v ++ rest) (length pre)
  = Ok (Z.lor acc (Z.shiftl v shift), (length pre + length (varint n v))%nat).
Proof.
  revert shift acc v pre. induction n as [|n IH]; intros shift acc v pre Hs Hn Hv; [lia|].
  cbn [get_varint_loop varint].
  assert (forall x, 0 <= x <= v -> u64 (Z.shiftl x shift) = Z.shiftl x shift) as Hu.
  { intros x Hx. apply u64_id. rewrite Z.shiftl_mul_pow2 by lia. split; [nia|].
    replace (2 ^ 64) with (2 ^ (64 - shift) * 2 ^ shift) by (rewrite <- Z.pow_add_r by lia; f_equal; lia).
    nia. }
  destruct (Z.leb_spec 0x80 v) as [Hb|Hb]; cbn [app].
  - rewrite list_lookup_middle by done. destruct (byte_low (u8 v) (is_u_u8 v)) as [-> ->].
    assert (u8 v mod 128 = v mod 128) as -> by (unfold u8; change 128 with (2 ^ 7); by rewrite pow_mod_mod by lia).
    rewrite Hu by (pose proof (Z.mod_le v 128); pose proof (Z.mod_pos_bound v 128); lia).
    specialize (IH (shift + 7) (Z.lor acc (Z.shiftl (v mod 128) shift)) (Z.shiftr v 7)
      (pre ++ [Z.lor (u8 v) 0x80])).
    rewrite <- app_assoc in IH. cbn [app] in IH. rewrite length_app in IH. cbn [length] in IH.
    rewrite Nat.add_1_r in IH. rewrite Z.shiftr_div_pow2 in IH by lia.
    assert (7 < 64 - shift) as H7.
    { apply (Z.pow_lt_mono_r_iff 2); [lia|lia|]. change (2 ^ 7) with 128. lia. }
    rewrite Z.shiftr_div_pow2 by lia. rewrite IH.
    + rewrite <- Z.shiftr_div_pow2 by lia. rewrite <- Z.lor_assoc, varint_step by lia.
      do 2 f_equal. cbn [length]. lia.
    + lia.
    + lia.
    + split; [apply Z.div_pos; lia|]. apply Z.div_lt_upper_bound; [lia|]. rewrite <- Z.pow_add_r by lia.
      replace (7 + (64 - (shift + 7))) with (64 - shift) by lia. lia.
  - rewrite list_lookup_middle by done. destruct (small_byte v) as (-> & H1 & H2); [lia|].
    rewrite H1, H2, Hu by lia. do 2 f_equal. cbn [length]. lia.
Qed.

Lemma get_varint_spec v pre rest :
  is_u 64 v -> get_varint (pre ++ varint 10 v ++ rest) (length pre)
               = Ok (v, (length pre + length (varint 10 v))%nat).
Proof.
  intros Hv. unfold get_varint. rewrite get_varint_loop_spec by (lia || exact Hv).
  by rewrite Z.lor_0_l, Z.shiftl_0_r.
Qed.

Lemma varint_nonempty v : (0 < length (varint 10 v))%nat.
Proof. cbn [varint]. destruct (_ <=? _); cbn; lia. Qed.

(** ** Tokens *)

Inductive tok := TLit (l : list Z) | TCopy (len d : nat).

Definition tok_bytes (t : tok) : list Z :=
  match t with
  | TLit l => varint 10 (2 * Z.of_nat (length l)) ++ l
  | TCopy len d => varint 10 (2 * Z.of_nat (len - 4) + 1) ++ varint 10 (Z.of_nat d)
  end.

Definition expand1 (out : list Z) (t : tok) : list Z :=
  match t with TLit l => out ++ l | TCopy len d => copy_back len d out end.

Definition expand (out : list Z) (ts : list tok) : list Z := foldl expand1 out ts.

Definition tok_ok (out : list Z) (t : tok) : Prop :=
  match t with
  | TLit l => l <> []
  | TCopy len d => (4 <= len)%nat /\ (1 <= d <= length out)%nat
  end.

Fixpoint toks_ok (out : list Z) (ts : list tok) : Prop :=
  match ts with
  | [] => True
  | t :: ts => tok_ok out t /\ toks_ok (expand1 out t) ts
  end.

Lemma toks_ok_app out ts us : toks_ok out (ts ++ us) <-> toks_ok out ts /\ toks_ok (expand out ts) us.
Proof.
  revert out. induction ts as [|t ts IH]; intros out; cbn; [tauto|]. rewrite IH. tauto.
Qed.

Lemma expand1_length out t : (length out <= length (expand1 out t))%nat.
Proof. destruct t as [l|len d]; cbn; [rewrite length_app|rewrite length_copy_back]; lia. Qed.

Lemma expand_length out ts : (length out <= length (expand out ts))%nat.
Proof.
  revert out. induction ts as [|t ts IH]; intros out; cbn; [lia|].
  pose proof (expand1_length out t). specialize (IH (expand1 out t)). unfold expand in IH. lia.
Qed.

(** ** Decompressing tokens *)

Lemma token_even n : 0 <= n -> Z.land (2 * n) 1 = 0 /\ Z.shiftr (2 * n) 1 = n.
Proof.
  intros Hn. change 1 with (2 ^ 1 - 1) at 1. rewrite land_ones_mod, Z.shiftr_div_pow2 by lia.
  change (2 ^ 1) with 2. rewrite (Z.mul_comm 2 n), Z.mod_mul, Z.div_mul by lia. done.
Qed.

Lemma token_odd n : 0 <= n -> Z.land (2 * n + 1) 1 = 1 /\ Z.shiftr (2 * n + 1) 1 = n.
Proof.
  intros Hn. change 1 with (2 ^ 1 - 1) at 2. rewrite land_ones_mod, Z.shiftr_div_pow2 by lia.
  change (2 ^ 1) with 2. rewrite (Z.mul_comm 2 n).
  rewrite Z.add_comm, Z.mod_add, Z.div_add by lia. done.
Qed.

Lemma tok_bytes_nonempty t : (0 < length (tok_bytes t))%nat.
Proof. destruct t; cbn [tok_bytes]; rewrite length_app; pose proof varint_nonempty as H; [specialize (H (2 * Z.of_nat (length l)))|specialize (H (2 * Z.of_nat (len - 4) + 1))]; lia. Qed.

Definition small (n : nat) : Prop := Z.of_nat n < 2 ^ 62.

Lemma u64_twice n b : small n -> 0 <= b <= 1 -> is_u 64 (2 * Z.of_nat n + b).
Proof. unfold small. intros Hn Hb. split; [lia|]. change (2 ^ 64) with (4 * 2 ^ 62). lia. Qed.

Lemma u64_double n : small n -> u64 (Z.shiftl (Z.of_nat n) 1) = 2 * Z.of_nat n.
Proof.
  intros Hn. rewrite Z.shiftl_mul_pow2, Z.mul_comm by lia. apply u64_id.
  rewrite <- (Z.add_0_r (2 ^ 1 * _)). apply u64_twice; [done|lia].
Qed.

Lemma lor_double_1 n : Z.lor (2 * n) 1 = 2 * n + 1.
Proof.
  replace (2 * n) with (Z.shiftl n 1) at 1 by (rewrite Z.shiftl_mul_pow2; lia).
  rewrite lor_shiftl_add; [lia|lia|done].
Qed.

(** One token, at the front of what is left of the source. *)
Lemma decompress_token fuel pre t rest out junk :
  tok_ok out t -> small (length out + length junk) ->
  (length (expand1 out t) <= length out + length junk)%nat ->
  decompress_loop (S fuel) (pre ++ tok_bytes t ++ rest) (length pre) (length out) (out ++ junk)
  = decompress_loop fuel (pre ++ tok_bytes t ++ rest) (length (pre ++ tok_bytes t))
      (length (expand1 out t)) (expand1 out t ++ drop (length (expand1 out t) - length out) junk).
Proof.
  intros Ht Hs Hl. cbn [decompress_loop]. pose proof (tok_bytes_nonempty t) as Hne.
  destruct (Nat.ltb_spec (length pre) (length (pre ++ tok_bytes t ++ rest))) as [_|Hx];
    [|rewrite !length_app in Hx; lia].
  destruct t as [l|len d]; cbn [tok_ok expand1 tok_bytes] in *.
  - rewrite length_app in Hl. rewrite <- app_assoc.
    assert (l <> [] -> 0 < length l)%nat as Hpos by (destruct l; cbn; [done|lia]). specialize (Hpos Ht).
    assert (is_u 64 (2 * Z.of_nat (length l))) as Hu.
    { rewrite <- (Z.add_0_r (2 * _)). apply u64_twice; [unfold small in *; lia|lia]. }
    rewrite get_varint_spec by exact Hu. destruct (token_even (Z.of_nat (length l))) as [-> ->]; [lia|].
    cbn [Z.eqb]. set (v := varint 10 (2 * Z.of_nat (length l))).
    destruct (Z.eqb_spec (Z.of_nat (length l)) 0); [lia|].
    destruct (Z.ltb_spec (Z.of_nat (length (out ++ junk) - length out)) (Z.of_nat (length l))) as [Hx|_];
      [rewrite length_app in Hx; lia|].
    destruct (Z.ltb_spec (Z.of_nat (length (pre ++ v ++ l ++ rest) - (length pre + length v)))
      (Z.of_nat (length l))) as [Hx|_]; [rewrite !length_app in Hx; lia|].
    cbn [orb]. rewrite Nat2Z.id, !length_app, Nat.add_assoc. f_equal.
    unfold overwrite, slice. rewrite take_app_length, <- app_assoc. f_equal.
    replace (length pre + length v + length l - (length pre + length v))%nat with (length l) by lia.
    rewrite (app_assoc pre v). rewrite drop_app_length' by (rewrite length_app; done).
    rewrite take_app_length. f_equal. rewrite <- drop_drop, drop_app_length. f_equal. lia.
  - destruct Ht as [H4 Hd]. rewrite length_copy_back in *. rewrite <- app_assoc.
    assert (is_u 64 (2 * Z.of_nat (len - 4) + 1)) as Hu by (apply u64_twice; unfold small in *; lia).
    rewrite get_varint_spec by exact Hu. destruct (token_odd (Z.of_nat (len - 4))) as [-> ->]; [lia|].
    cbn [Z.eqb]. set (v := varint 10 (2 * Z.of_nat (len - 4) + 1)).
    assert (is_u 64 (Z.of_nat d)) as Hud by (unfold small in Hs; split; [lia|change (2 ^ 64) with (4 * 2 ^ 62); lia]).
    pose proof (get_varint_spec (Z.of_nat d) (pre ++ v) rest Hud) as Hg.
    rewrite <- app_assoc, length_app in Hg. rewrite Hg.
    assert (Z.min (Z.of_nat (len - 4) + Z.of_nat MIN_MATCH) (2 ^ 64 - 1) = Z.of_nat len) as ->.
    { unfold MIN_MATCH, small in *. change (2 ^ 64 - 1) with (4 * 2 ^ 62 - 1). lia. }
    destruct (Z.eqb_spec (Z.of_nat d) 0); [lia|].
    destruct (Z.ltb_spec (Z.of_nat (length out)) (Z.of_nat d)); [lia|].
    destruct (Z.ltb_spec (Z.of_nat (length (out ++ junk) - length out)) (Z.of_nat len)) as [Hx|_];
      [rewrite length_app in Hx; lia|].
    cbn [orb]. rewrite !Nat2Z.id, !length_app, Nat.add_assoc. f_equal.
    replace (length out + len - length out)%nat with len by lia.
    destruct (Nat.leb_spec len d); [apply copy_within_back|apply copy_bytes_back]; lia.
Qed.

Lemma decompress_tokens ts : forall fuel pre out junk,
  toks_ok out ts -> small (length out + length junk) -> (length ts < fuel)%nat ->
  length (expand out ts) = (length out + length junk)%nat ->
  decompress_loop fuel (pre ++ concat (map tok_bytes ts)) (length pre) (length out) (out ++ junk)
  = Ok (expand out ts).
Proof.
  induction ts as [|t ts IH]; intros fuel pre out junk Hok Hs Hf Hl; (destruct fuel as [|fuel]; [cbn in Hf; lia|]).
  - cbn [map concat expand foldl] in *. rewrite app_nil_r. cbn [decompress_loop].
    rewrite Nat.ltb_irrefl. assert (junk = []) as -> by (apply length_zero_iff_nil; lia).
    rewrite app_nil_r, Nat.eqb_refl. done.
  - cbn [map concat toks_ok] in *. destruct Hok as [Ht Hts]. change (expand out (t :: ts)) with (expand (expand1 out t) ts) in *.
    pose proof (expand_length (expand1 out t) ts) as He. pose proof (expand1_length out t) as H1.
    rewrite decompress_token by (done || lia). rewrite (app_assoc pre).
    apply IH; [done| | |]; rewrite ?length_drop; [|cbn in Hf|]; unfold small in *; lia.
Qed.

(** ** Compressing to tokens *)

(** [out] is the bytes of tokens whose expansion is the first [n] bytes. *)
Definition tokenised (src out : list Z) (n : nat) : Prop :=
  exists ts, out = concat (map tok_bytes ts) /\ toks_ok [] ts /\ expand [] ts = take n src.

Lemma tokenised_snoc src out n t :
  tokenised src out n -> tok_ok (take n src) t ->
  forall m, expand1 (take n src) t = take m src -> tokenised src (out ++ tok_bytes t) m.
Proof.
  intros (ts & -> & Hok & He) Ht m Hm. exists (ts ++ [t]). rewrite map_app, concat_app. cbn [map concat].
  rewrite app_nil_r. split; [done|]. rewrite toks_ok_app, He. split; [by split|].
  unfold expand in *. rewrite foldl_app, He. exact Hm.
Qed.

Lemma literals_tokenised src out i j :
  small (length src) -> (i <= j <= length src)%nat -> tokenised src out i ->
  tokenised src (literals out (slice src i j)) j.
Proof.
  intros Hs Hij Ht. assert (length (slice src i j) = (j - i)%nat) as Hl.
  { unfold slice. rewrite length_take, length_drop. lia. }
  unfold literals. destruct (slice src i j) as [|x l] eqn:E.
  - cbn in Hl. by replace j with i by lia.
  - unfold put_varint. rewrite <- app_assoc, u64_double by (unfold small in *; lia).
    apply (tokenised_snoc src out i (TLit (x :: l)) Ht); [done|]. cbn [expand1]. rewrite <- E. unfold slice.
    rewrite <- (take_drop i (take j src)). rewrite take_take, Nat.min_l by lia. f_equal.
    rewrite skipn_firstn_comm. done.
Qed.

Lemma match_len_spec src c i : forall fuel len,
  (i + len <= length src)%nat -> (forall k, (k < len)%nat -> src !!! (c + k)%nat = src !!! (i + k)%nat) ->
  let m := match_len fuel src c i len in
  (len <= m)%nat /\ (i + m <= length src)%nat /\
  (forall k, (k < m)%nat -> src !!! (c + k)%nat = src !!! (i + k)%nat).
Proof.
  induction fuel as [|fuel IH]; intros len Hl Hk; cbn [match_len]; [auto|].
  destruct (Nat.ltb_spec (i + len) (length src)); cbn [andb]; [|auto].
  destruct (Z.eqb_spec (src !!! (c + len)%nat) (src !!! (i + len)%nat)); [|auto].
  destruct (IH (S len)) as (H1 & H2 & H3); [lia| |split; [lia|auto]].
  intros k Hk'. destruct (decide (k = len)) as [->|]; [done|]. apply Hk. lia.
Qed.

Lemma word_bytes src c i :
  bytes_ok src -> (c <= i)%nat -> (i + 4 <= length src)%nat -> word src c = word src i ->
  forall k, (k < 4)%nat -> src !!! (c + k)%nat = src !!! (i + k)%nat.
Proof.
  intros Hb Hc Hl Hw k Hk. unfold word in Hw.
  assert (take 4 (drop c src) = take 4 (drop i src)) as E.
  { rewrite <- (to_from_le (take 4 (drop c src))) by by apply Forall_take, Forall_drop.
    rewrite <- (to_from_le (take 4 (drop i src))) by by apply Forall_take, Forall_drop.
    rewrite Hw, !length_take, !length_drop. f_equal. lia. }
  rewrite <- !lookup_total_drop. rewrite <- (lookup_total_take_lt (drop c src) 4 k) by done.
  rewrite <- (lookup_total_take_lt (drop i src) 4 k) by done. by rewrite E.
Qed.

Lemma candidate_spec src b cand i c :
  candidate src b cand i = Some c -> (c < i)%nat /\ word src c = word src i.
Proof.
  unfold candidate. destruct (_ <=? _); [|discriminate].
  destruct (Nat.ltb_spec (Z.to_nat (cand - b)) i); cbn [andb]; [|discriminate].
  destruct (Z.eqb_spec (word src (Z.to_nat (cand - b))) (word src i)); [|discriminate].
  intros [= <-]. done.
Qed.

Lemma compress_loop_tokenised src b : bytes_ok src -> small (length src) ->
  forall fuel t out lit i,
  (lit <= i <= length src)%nat -> tokenised src out lit ->
  let '(out', lit', _) := compress_loop fuel src b t out lit i in
  (lit' <= length src)%nat /\ tokenised src out' lit'.
Proof.
  intros Hb Hs. induction fuel as [|fuel IH]; intros t out lit i Hi Ht; cbn [compress_loop]; [split; [lia|done]|].
  destruct (Nat.leb_spec (i + MIN_MATCH) (length src)) as [H4|]; [|split; [lia|done]].
  destruct (candidate _ _ _ _) as [c|] eqn:Hc; [|apply IH; [unfold MIN_MATCH in *; lia|done]].
  apply candidate_spec in Hc as [Hci Hw].
  destruct (match_len_spec src c i (length src) MIN_MATCH) as (H1 & H2 & H3).
  { done. } { apply word_bytes; [done|lia|done|done]. }
  set (len := match_len (length src) src c i MIN_MATCH) in *. apply IH; [unfold MIN_MATCH in *; lia|].
  unfold put_varint. rewrite <- app_assoc.
  assert (Z.lor (u64 (Z.shiftl (Z.of_nat (len - MIN_MATCH)) 1)) 1 = 2 * Z.of_nat (len - 4) + 1) as ->.
  { rewrite u64_double by (unfold small in *; lia). apply lor_double_1. }
  apply (tokenised_snoc src _ i (TCopy len (i - c))).
  - apply literals_tokenised; [done|lia|done].
  - split; [done|]. rewrite length_take_le by lia. lia.
  - cbn [expand1]. apply copy_back_match; done.
Qed.

Lemma toks_bytes_length ts : (length ts <= length (concat (map tok_bytes ts)))%nat.
Proof.
  induction ts as [|t ts IH]; cbn; [lia|]. rewrite length_app. pose proof (tok_bytes_nonempty t). lia.
Qed.

Lemma compress_tokenised src t :
  bytes_ok src -> small (length src) -> tokenised src (compress src [] t).1 (length src).
Proof.
  intros Hb Hs. unfold compress. destruct (start (length src) t) as [b t1].
  pose proof (compress_loop_tokenised src b Hb Hs (S (length src)) t1 [] 0 0) as H.
  destruct (compress_loop _ _ _ _ _ _ _) as [[out lit] t2]. cbn [fst].
  destruct H as [Hl Ht]; [lia|by exists []|].
  assert (drop lit src = slice src lit (length src)) as ->.
  { unfold slice. symmetry. apply take_ge. rewrite length_drop. lia. }
  by apply literals_tokenised.
Qed.

Lemma lz_roundtrip_any src t dst :
  bytes_ok src -> small (length src) -> length dst = length src ->
  decompress (compress src [] t).1 dst = Ok src.
Proof.
  intros Hb Hs Hd. destruct (compress_tokenised src t Hb Hs) as (ts & -> & Hok & He).
  rewrite firstn_all in He. unfold decompress.
  pose proof (decompress_tokens ts (S (length (concat (map tok_bytes ts)))) [] [] dst) as H.
  cbn [app length plus] in H. rewrite He in H. apply H; [done|by rewrite Hd| |done].
  pose proof (toks_bytes_length ts). lia.
Qed.

(** Decompressing what [lz::compress] wrote gives the source back, for
    every block and whatever the table holds from earlier blocks. *)
Theorem lz_roundtrip src t dst :
  bytes_ok src -> Z.of_nat (length src) < 2 ^ 62 -> length dst = length src ->
  decompress (compress src [] t).1 dst = Ok src.
Proof. apply lz_roundtrip_any. Qed.

Lemma lz_roundtrip_witness :
  decompress [10; 1; 2; 3; 4; 5; 13; 5; 4; 6; 7; 9; 1] (replicate 25 0)
  = Ok [1; 2; 3; 4; 5; 1; 2; 3; 4; 5; 1; 2; 3; 4; 5; 6; 7; 7; 7; 7; 7; 7; 7; 7; 7].
Proof.
  pose proof (lz_roundtrip [1; 2; 3; 4; 5; 1; 2; 3; 4; 5; 1; 2; 3; 4; 5; 6; 7; 7; 7; 7; 7; 7; 7; 7; 7]
    table_new (replicate 25 0)) as H.
  assert ((compress [1; 2; 3; 4; 5; 1; 2; 3; 4; 5; 1; 2; 3; 4; 5; 6; 7; 7; 7; 7; 7; 7; 7; 7; 7] [] table_new).1
          = [10; 1; 2; 3; 4; 5; 13; 5; 4; 6; 7; 9; 1]) as E by (vm_compute; reflexivity).
  rewrite E in H. apply H; [|vm_compute; reflexivity|reflexivity].
  repeat (apply Forall_cons; split; [split; vm_compute; congruence|]). apply Forall_nil. exact I.
Defined.

(** ** The table between blocks *)

Definition table_ok (t : Table) : Prop :=
  length (slots t) = Z.to_nat (2 ^ HASH_BITS) /\ 1 <= base t < 2 ^ 32 /\
  Forall (fun e => 0 <= e < base t) (slots t).

(** What an entry says to a block of base [b]. *)
Definition view (b e : Z) : option Z := if b <=? e then Some (e - b) else None.

Lemma candidate_view src b1 b2 e1 e2 i :
  view b1 e1 = view b2 e2 -> candidate src b1 e1 i = candidate src b2 e2 i.
Proof.
  unfold view, candidate. destruct (b1 <=? e1), (b2 <=? e2); try discriminate; [|done].
  intros [= ->]. done.
Qed.

(** Two tables that say the same, and keep below [m]. *)
Definition agree (b1 b2 : Z) (t1 t2 : Table) : Prop :=
  view b1 <$> slots t1 = view b2 <$> slots t2 /\ length (slots t1) = Z.to_nat (2 ^ HASH_BITS).

Lemma hash_bound v : (hash v < Z.to_nat (2 ^ HASH_BITS))%nat.
Proof.
  unfold hash. destruct (is_u_shiftr_exact 32 (u32 (v * 0x9e3779b1)) (32 - HASH_BITS)) as [H0 H1];
    [unfold HASH_BITS; lia|apply is_u_u32|]. change (32 - (32 - HASH_BITS)) with HASH_BITS in H1. lia.
Qed.

Lemma agree_lookup b1 b2 t1 t2 h :
  agree b1 b2 t1 t2 -> (h < Z.to_nat (2 ^ HASH_BITS))%nat ->
  view b1 (slots t1 !!! h) = view b2 (slots t2 !!! h).
Proof.
  intros [Hm Hl] Hh. assert (length (slots t2) = length (slots t1)) as Hl2.
  { pose proof (f_equal length Hm) as E. by rewrite !length_fmap in E. }
  pose proof (f_equal (fun l => l !! h) Hm) as E. cbn in E. rewrite !list_lookup_fmap in E.
  rewrite (list_lookup_lookup_total_lt (slots t1)), (list_lookup_lookup_total_lt (slots t2)) in E by lia.
  cbn in E. congruence.
Qed.

Lemma agree_insert b1 b2 t1 t2 h e1 e2 :
  agree b1 b2 t1 t2 -> view b1 e1 = view b2 e2 ->
  agree b1 b2 (t1 <| slots ::= <[h := e1]> |>) (t2 <| slots ::= <[h := e2]> |>).
Proof.
  intros [Hm Hl] He. split; cbn; [|by rewrite length_insert]. rewrite !list_fmap_insert. by rewrite Hm, He.
Qed.

Lemma view_entry b i : 1 <= b -> b + Z.of_nat i < 2 ^ 32 -> view b (u32 (b + u32 (Z.of_nat i))) = Some (Z.of_nat i).
Proof.
  intros Hb Hi. rewrite (u32_id (Z.of_nat i)), u32_id by (split; lia). unfold view.
  destruct (Z.leb_spec b (b + Z.of_nat i)); [|lia]. f_equal. lia.
Qed.

Lemma compress_loop_agree src b1 b2 :
  1 <= b1 -> 1 <= b2 -> b1 + Z.of_nat (length src) < 2 ^ 32 -> b2 + Z.of_nat (length src) < 2 ^ 32 ->
  forall fuel t1 t2 out lit i, agree b1 b2 t1 t2 ->
  (compress_loop fuel src b1 t1 out lit i).1 = (compress_loop fuel src b2 t2 out lit i).1.
Proof.
  intros H1 H2 Hl1 Hl2. induction fuel as [|fuel IH]; intros t1 t2 out lit i Ha; cbn [compress_loop]; [done|].
  destruct (Nat.leb_spec (i + MIN_MATCH) (length src)) as [Hi|]; [|done]. unfold MIN_MATCH in Hi.
  rewrite (candidate_view src b1 b2 _ (slots t2 !!! hash (word src i)) i)
    by (apply agree_lookup; [done|apply hash_bound]).
  assert (agree b1 b2 (t1 <| slots ::= <[hash (word src i) := u32 (b1 + u32 (Z.of_nat i))]> |>)
                      (t2 <| slots ::= <[hash (word src i) := u32 (b2 + u32 (Z.of_nat i))]> |>)) as Ha'.
  { apply agree_insert; [done|]. by rewrite !view_entry by lia. }
  destruct (candidate _ _ _ _); by apply IH.
Qed.

(** What [start] gives: a base no entry reaches. *)
Lemma start_spec len t :
  table_ok t -> Z.of_nat len < 2 ^ 32 - 2 ->
  let '(b, t') := start len t in
  1 <= b /\ b + Z.of_nat len + 1 < 2 ^ 32 /\ base t' = b + Z.of_nat len + 1 /\
  length (slots t') = Z.to_nat (2 ^ HASH_BITS) /\ Forall (fun e => 0 <= e < b) (slots t').
Proof.
  intros (Hl & Hb & Hf) Hlen. unfold start. rewrite (u32_id (Z.of_nat len)) by (split; lia).
  destruct (Z.leb_spec (2 ^ 32 - 1) (base t + Z.of_nat len + 1)) as [Hn|Hn]; cbn [base slots];
    unfold update; cbn [base slots]; rewrite u32_id by (split; lia); repeat split; try lia; try done.
  - by rewrite length_map.
  - apply Forall_map, Forall_true. cbn. lia.
Qed.

Lemma compress_loop_table src b :
  1 <= b -> b + Z.of_nat (length src) + 1 < 2 ^ 32 -> forall fuel t out lit i,
  length (slots t) = Z.to_nat (2 ^ HASH_BITS) -> Forall (fun e => 0 <= e < b + Z.of_nat (length src) + 1) (slots t) ->
  let '(_, _, t') := compress_loop fuel src b t out lit i in
  base t' = base t /\ length (slots t') = Z.to_nat (2 ^ HASH_BITS) /\
  Forall (fun e => 0 <= e < b + Z.of_nat (length src) + 1) (slots t').
Proof.
  intros Hb Hm. induction fuel as [|fuel IH]; intros t out lit i Hl Hf; cbn [compress_loop]; [done|].
  destruct (Nat.leb_spec (i + MIN_MATCH) (length src)) as [Hi|]; [|done]. unfold MIN_MATCH in Hi.
  set (t1 := t <| slots ::= <[hash (word src i) := u32 (b + u32 (Z.of_nat i))]> |>).
  assert (length (slots t1) = Z.to_nat (2 ^ HASH_BITS)) as Hl1 by (unfold t1; cbn; by rewrite length_insert).
  assert (Forall (fun e => 0 <= e < b + Z.of_nat (length src) + 1) (slots t1)) as Hf1.
  { unfold t1; cbn. apply Forall_insert; [done|]. rewrite (u32_id (Z.of_nat i)), u32_id by (split; lia). lia. }
  change (base t) with (base t1). destruct (candidate _ _ _ _); by apply IH.
Qed.

(** The bytes of a block do not depend on the blocks compressed before it
    with the same table: any two tables that such blocks can leave give the
    same bytes, and leave such a table. *)
Theorem lz_history_free src out t1 t2 :
  table_ok t1 -> table_ok t2 -> Z.of_nat (length src) < 2 ^ 32 - 2 ->
  (compress src out t1).1 = (compress src out t2).1 /\ table_ok (compress src out t1).2.
Proof.
  intros Ht1 Ht2 Hl. unfold compress.
  pose proof (start_spec (length src) t1 Ht1 Hl) as H1. pose proof (start_spec (length src) t2 Ht2 Hl) as H2.
  destruct (start (length src) t1) as [b1 s1], (start (length src) t2) as [b2 s2].
  destruct H1 as (B1 & M1 & E1 & L1 & F1), H2 as (B2 & M2 & E2 & L2 & F2).
  assert (forall b s, Forall (fun e => 0 <= e < b) s -> view b <$> s = replicate (length s) None) as Hnone.
  { intros b s. induction 1 as [|e s He Hs IH]; cbn; [done|]. rewrite IH. unfold view at 1.
    destruct (Z.leb_spec b e); [lia|done]. }
  assert (agree b1 b2 s1 s2) as Ha by (split; [rewrite !Hnone by done; by rewrite L1, L2|done]).
  pose proof (compress_loop_agree src b1 b2 B1 B2 ltac:(lia) ltac:(lia) (S (length src)) s1 s2 out 0 0 Ha) as Hc.
  pose proof (compress_loop_table src b1 B1 M1 (S (length src)) s1 out 0 0 L1) as Ht.
  destruct (compress_loop (S (length src)) src b1 s1 out 0 0) as [[o1 l1] t1'].
  destruct (compress_loop (S (length src)) src b2 s2 out 0 0) as [[o2 l2] t2'].
  cbn [fst snd] in *. injection Hc as -> ->. split; [done|].
  destruct Ht as (Hb & Hlen & Hf); [eapply Forall_impl; [exact F1|cbn; lia]|].
  split; [done|]. rewrite Hb, E1. split; [lia|done].
Qed.

Lemma table_new_ok : table_ok table_new.
Proof.
  split; [apply length_replicate|]. split; [done|]. apply Forall_replicate. cbn. lia.
Qed.

(** The second block compresses as if it were the first. *)
Lemma lz_history_free_witness :
  let t := (compress [9; 9; 9; 9; 9; 9; 9; 9] [] table_new).2 in
  (compress [9; 9; 9; 9; 9; 9] [] t).1 = (compress [9; 9; 9; 9; 9; 9] [] table_new).1.
Proof.
  intros t. assert (table_ok t) as Ht.
  { apply (lz_history_free [9; 9; 9; 9; 9; 9; 9; 9] [] table_new table_new table_new_ok table_new_ok). reflexivity. }
  apply (lz_history_free [9; 9; 9; 9; 9; 9] [] t table_new Ht table_new_ok). reflexivity.
Defined.
