(* ===== verification/SnapLzh.v ===== *)
(** * LZ77 with Huffman codes (crates/vetro-snapshot/src/lzh.rs)

    The codec of frames: buckets for lengths and distances, Huffman code
    lengths limited to 12 bits, canonical codes and their decoding table, the
    bit streams, the compressor with hash chains and lazy matching, and the
    decompressor. Positions and bit counts are [nat], values are [Z]. *)

From Stdlib Require Import ZArith Lia Bool.
From stdpp Require Import base list numbers strings.
From S2P Require Import Prelude SnapWire SnapLz.
Local Open Scope Z_scope.
Local Open Scope vetro_scope.

Module lzh.

Definition FRAME : Z := 64 * 4096.
Definition MIN_MATCH : nat := 4.
Definition MAX_MATCH : Z := 4 + 2 ^ 16 - 1.
Definition MAX_BITS : nat := 12.
Definition LEN_CODES : nat := 40.
Definition LL_CODES : nat := 256 + LEN_CODES.
Definition DIST_CODES : nat := 44.
Definition HEADER : nat := (LL_CODES + DIST_CODES) / 2.
Definition HASH_BITS : Z := 16.
Definition MAX_CHAIN : nat := 48.
Definition LAZY_MAX : nat := 64.
Definition TABLE : nat := 2 ^ MAX_BITS.

(** Code, number of extra bits and extra value of [v]. *)
Definition bucket (v : Z) : nat * nat * Z :=
  if v <? 16 then (Z.to_nat v, O, 0)
  else
    let n := 31 - leading_zeros 32 v in
    let m := Z.land (Z.shiftr v (n - 1)) 1 in
    (Z.to_nat (16 + 2 * (n - 4) + m), Z.to_nat (n - 1), Z.land v (Z.shiftl 1 (n - 1) - 1)).

(** Base value and extra bits of a code. *)
Definition code_base (code : nat) : Z * nat :=
  if (code <? 16)%nat then (Z.of_nat code, O)
  else
    let n := ((code - 16) / 2 + 4)%nat in
    let m := Z.of_nat ((code - 16) mod 2) in
    (Z.shiftl (Z.lor 2 m) (Z.of_nat (n - 1)), (n - 1)%nat).

Definition bases (n : nat) : list (Z * nat) := map code_base (seq 0 n).
Definition LEN_BASE : list (Z * nat) := bases LEN_CODES.
Definition DIST_BASE : list (Z * nat) := bases DIST_CODES.

(** ** Huffman *)

(** [sort_by_key(|s| (freq[s], s))]. *)
Definition key_le (freq : list Z) (a b : nat) : bool :=
  (freq !!! a <? freq !!! b) || ((freq !!! a =? freq !!! b) && (a <=? b)%nat).

Fixpoint insert_by_key (freq : list Z) (s : nat) (l : list nat) : list nat :=
  match l with
  | [] => [s]
  | x :: l' => if key_le freq s x then s :: l else x :: insert_by_key freq s l'
  end.

Definition sort_by_key (freq : list Z) (l : list nat) : list nat := foldr (insert_by_key freq) [] l.

(** The two queues: leaves by weight, internal nodes in creation order. *)
Record Queues := MkQueues { weight : list Z; parent : list nat; leaf : nat; node : nat }.

#[export] Instance eta_Queues : Eta Queues := fun q => MkQueues (weight q) (parent q) (leaf q) (node q).

(** The lighter of the two heads. *)
Definition pick (m : nat) (q : Queues) : nat * Queues :=
  let take_leaf := (leaf q <? m)%nat && ((length (weight q) <=? node q)%nat
                     || (weight q !!! leaf q <=? weight q !!! node q)) in
  if take_leaf then (leaf q, q <| leaf ::= S |>) else (node q, q <| node ::= S |>).

(** A new node over the two lightest. *)
Definition merge (m : nat) (q : Queues) : Queues :=
  let '(a, q) := pick m q in
  let '(b, q) := pick m q in
  let id := length (weight q) in
  q <| weight ::= fun w => w ++ [w !!! a + w !!! b] |> <| parent ::= fun p => <[b := id]> (<[a := id]> p) |>.

(** [for i in (0..n).rev() { depth[i] = depth[parent[i]] + 1 }]. *)
Fixpoint set_depths (n : nat) (parent depth : list nat) : list nat :=
  match n with
  | O => depth
  | S i => set_depths i parent (<[i := (depth !!! (parent !!! i) + 1)%nat]> depth)
  end.

(** [while count[j] == 0 { j -= 1 }]. *)
Fixpoint lower (j : nat) (count : list Z) : nat :=
  match j with
  | O => O
  | S j' => if count !!! j =? 0 then lower j' count else j
  end.

(** Two codes of length [i] become one of [i - 1], and a shorter code two
    longer ones. *)
Definition shorten (i : nat) (count : list Z) : list Z :=
  let j := lower (i - 2) count in
  let count := <[i := count !!! i - 2]> count in
  let count := <[(i - 1)%nat := count !!! (i - 1)%nat + 1]> count in
  let count := <[(j + 1)%nat := count !!! (j + 1)%nat + 2]> count in
  <[j := count !!! j - 1]> count.

Fixpoint shorten_all (fuel i : nat) (count : list Z) : list Z :=
  match fuel with
  | O => count
  | S fuel => if 0 <? count !!! i then shorten_all fuel i (shorten i count) else count
  end.

(** [for i in (max + 1..=deepest).rev()]. *)
Fixpoint limit (n max : nat) (count : list Z) : list Z :=
  match n with
  | O => count
  | S n' => let i := (max + n)%nat in limit n' max (shorten_all (Z.to_nat (count !!! i)) i count)
  end.

(** [while count[l] == 0 { l += 1 }]. *)
Fixpoint higher (fuel l : nat) (count : list Z) : nat :=
  match fuel with
  | O => l
  | S fuel => if count !!! l =? 0 then higher fuel (S l) count else l
  end.

(** The most frequent symbols get the shortest codes. *)
Fixpoint assign (syms : list nat) (l : nat) (count : list Z) (len : list nat) : list nat :=
  match syms with
  | [] => len
  | s :: syms =>
      let l := higher (length count) l count in
      assign syms l (<[l := count !!! l - 1]> count) (<[s := l]> len)
  end.

(** Number of leaves at each depth. *)
Definition depth_counts (size : nat) (depths : list nat) : list Z :=
  foldl (fun count d => <[d := count !!! d + 1]> count) (replicate size 0) depths.

(** Depths of the leaves of the Huffman tree of [ws]. *)
Definition tree_depths (ws : list Z) : list nat :=
  let m := length ws in
  let q := Nat.iter (m - 1) (merge m) (MkQueues ws (replicate (2 * m - 1) O) 0 m) in
  take m (set_depths (2 * m - 2) (parent q) (replicate (2 * m - 1) O)).

Definition code_lengths (freq : list Z) (max : nat) : list nat :=
  let len := replicate (length freq) O in
  let syms := filter (fun s => 0 < freq !!! s) (seq 0 (length freq)) in
  match syms with
  | [] => len
  | [s] => <[s := 1%nat]> len
  | _ =>
      let syms := sort_by_key freq syms in
      let depths := tree_depths (map (fun s => freq !!! s) syms) in
      let deepest := max_list depths in
      let count := depth_counts (Nat.max deepest max + 1) depths in
      let count := limit (deepest - max) max count in
      assign (rev syms) 1 count len
  end.

(** The first code of each length: [next[b]]. *)
Definition length_counts (len : list nat) : list Z :=
  <[O := 0]> (foldl (fun count l => <[l := u16 (count !!! l + 1)]> count) (replicate (MAX_BITS + 1) 0) len).

Fixpoint first_codes (n : nat) (count : list Z) (code : Z) (b : nat) : list Z :=
  match n with
  | O => []
  | S n =>
      let code := u16 (Z.shiftl (u16 (code + count !!! (b - 1)%nat)) 1) in
      code :: first_codes n count code (S b)
  end.

Definition next_codes (len : list nat) : list Z := 0 :: first_codes MAX_BITS (length_counts len) 0 1 ++ [0].

Fixpoint number (next : list Z) (len : list nat) : list Z :=
  match len with
  | [] => []
  | O :: len => 0 :: number next len
  | l :: len =>
      let c := next !!! l in
      Z.shiftr (reverse_bits 16 c) (16 - Z.of_nat l) :: number (<[l := u16 (c + 1)]> next) len
  end.

(** Canonical codes, written from their first bit. *)
Definition codes (len : list nat) : list Z := number (next_codes len) len.

(** [while i < TABLE { out[i] = e; i += 1 << l }]. *)
Fixpoint fill (fuel i l : nat) (e : Z) (out : list Z) : list Z :=
  match fuel with
  | O => out
  | S fuel => if (i <? TABLE)%nat then fill fuel (i + 2 ^ l) l e (<[i := e]> out) else out
  end.

Fixpoint fill_all (s : nat) (lc : list (nat * Z)) (out : list Z) : list Z :=
  match lc with
  | [] => out
  | (O, _) :: lc => fill_all (S s) lc out
  | (l, c) :: lc =>
      let e := Z.lor (u16 (Z.shiftl (u16 (Z.of_nat s)) 4)) (Z.of_nat l) in
      fill_all (S s) lc (fill TABLE (Z.to_nat c) l e out)
  end.

(** Entries taken by the codes of the lengths. *)
Definition table_used (len : list nat) : nat :=
  sum_list_with (fun l => match l with O => O | _ => TABLE / 2 ^ l end)%nat len.

(** The decoding table: symbol and length for every [MAX_BITS] bits. *)
Definition table (len : list nat) : result (list Z) Error :=
  if existsb (fun l => MAX_BITS <? l)%nat len then Err (Invalid "frame: code longer than 12 bits")
  else if (TABLE <? table_used len)%nat then Err (Invalid "frame: over-subscribed code")
  else Ok (fill_all 0 (zip len (codes len)) (replicate TABLE 0)).

(** ** Bits *)

Record BitWriter := MkBitWriter { bw_out : list Z; bw_acc : Z; bw_n : nat }.

Fixpoint bw_flush (fuel : nat) (w : BitWriter) : BitWriter :=
  match fuel with
  | O => w
  | S fuel =>
      if (8 <=? bw_n w)%nat
      then bw_flush fuel (MkBitWriter (bw_out w ++ [u8 (bw_acc w)]) (Z.shiftr (bw_acc w) 8) (bw_n w - 8))
      else w
  end.

Definition bw_put (v : Z) (bits : nat) (w : BitWriter) : BitWriter :=
  let n := (bw_n w + bits)%nat in
  bw_flush n (MkBitWriter (bw_out w) (Z.lor (bw_acc w) (u64 (Z.shiftl v (Z.of_nat (bw_n w))))) n).

Definition bw_finish (w : BitWriter) : list Z :=
  if (0 <? bw_n w)%nat then bw_out w ++ [u8 (bw_acc w)] else bw_out w.

Record BitReader := MkBitReader { br_src : list Z; br_pos : nat; br_acc : Z; br_n : nat }.

#[export] Instance eta_BitReader : Eta BitReader := fun r =>
  MkBitReader (br_src r) (br_pos r) (br_acc r) (br_n r).

(** A byte at a time, zeros past the end. *)
Fixpoint refill_slow (fuel : nat) (r : BitReader) : BitReader :=
  match fuel with
  | O => r
  | S fuel =>
      if (br_n r <=? 56)%nat then
        let b := default 0 (br_src r !! br_pos r) in
        refill_slow fuel (r <| br_acc ::= fun a => Z.lor a (u64 (Z.shiftl b (Z.of_nat (br_n r)))) |>
                            <| br_pos ::= S |> <| br_n ::= fun n => (n + 8)%nat |>)
      else r
  end.

Definition refill (r : BitReader) : BitReader :=
  if (br_pos r + 8 <=? length (br_src r))%nat then
    let v := from_le (take 8 (drop (br_pos r) (br_src r))) in
    r <| br_acc ::= fun a => Z.lor a (u64 (Z.shiftl v (Z.of_nat (br_n r)))) |>
      <| br_pos ::= fun p => (p + (63 - br_n r) / 8)%nat |>
      <| br_n ::= fun n => Nat.lor n 56 |>
  else refill_slow 8 r.

Definition br_bits (k : nat) (r : BitReader) : Z * BitReader :=
  (u32 (Z.land (br_acc r) (Z.shiftl 1 (Z.of_nat k) - 1)),
   r <| br_acc ::= fun a => Z.shiftr a (Z.of_nat k) |> <| br_n ::= fun n => (n - k)%nat |>).

Definition br_symbol (t : list Z) (r : BitReader) : result (nat * BitReader) Error :=
  let e := t !!! Z.to_nat (Z.land (br_acc r) (Z.of_nat TABLE - 1)) in
  let l := Z.land e 15 in
  if l =? 0 then Err (Invalid "frame: invalid code")
  else Ok (Z.to_nat (Z.shiftr e 4),
           r <| br_acc ::= fun a => Z.shiftr a l |> <| br_n ::= fun n => (n - Z.to_nat l)%nat |>).

(** More bits used than the stream has. *)
Definition br_check (r : BitReader) : result unit Error :=
  if (length (br_src r) * 8 <? br_pos r * 8 - br_n r)%nat then Err Truncated else Ok tt.

(** ** Compression *)

(** A token: [dist = 0] is the literal [len]. *)
Record Encoder := MkEncoder { head : list Z; prev : list Z; toks : list (Z * Z) }.

#[export] Instance eta_Encoder : Eta Encoder := fun e => MkEncoder (head e) (prev e) (toks e).

Definition encoder_new : Encoder :=
  MkEncoder (replicate (Z.to_nat (2 ^ HASH_BITS)) 0) (replicate (Z.to_nat FRAME) 0) [].

Definition hash4 (b : list Z) (i : nat) : nat :=
  Z.to_nat (Z.shiftr (u32 (from_le (take 4 (drop i b)) * 0x9e3779b1)) (32 - HASH_BITS)).

(** [u64::trailing_zeros] of a value that is not zero. *)
Fixpoint trailing_zeros (fuel : nat) (x : Z) : nat :=
  match fuel with
  | O => O
  | S fuel => if Z.testbit x 0 then O else S (trailing_zeros fuel (Z.shiftr x 1))
  end.

(** Byte by byte, from [l]. *)
Fixpoint common_bytes (fuel : nat) (b : list Z) (a i l max : nat) : nat :=
  match fuel with
  | O => l
  | S fuel =>
      if (l <? max)%nat && (b !!! (a + l)%nat =? b !!! (i + l)%nat)
      then common_bytes fuel b a i (S l) max else l
  end.

(** Eight bytes at a time, then byte by byte. *)
Fixpoint common_from (fuel : nat) (b : list Z) (a i l max : nat) : nat :=
  match fuel with
  | O => l
  | S fuel =>
      if (l + 8 <=? max)%nat then
        let x := from_le (take 8 (drop (a + l) b)) in
        let y := from_le (take 8 (drop (i + l) b)) in
        if negb (x =? y) then (l + trailing_zeros 64 (Z.lxor x y) / 8)%nat
        else common_from fuel b a i (l + 8) max
      else common_bytes max b a i l max
  end.

Definition common (b : list Z) (a i max : nat) : nat := common_from (S max) b a i 0 max.

Definition enc_insert (b : list Z) (i : nat) (e : Encoder) : Encoder :=
  if (i + MIN_MATCH <=? length b)%nat then
    let h := hash4 b i in
    let e := e <| prev ::= <[i := head e !!! h]> |> in
    e <| head ::= <[h := u32 (Z.of_nat i + 1)]> |>
  else e.

(** Along the chain: the longest match so far and its distance. *)
Fixpoint find_loop (chain : nat) (e : Encoder) (b : list Z) (i max : nat) (cand : Z) (best dist : nat)
    : nat * nat :=
  match chain with
  | O => (best, dist)
  | S chain =>
      if cand =? 0 then (best, dist) else
      let c := Z.to_nat (cand - 1) in
      if (best <? max)%nat && (b !!! (c + best)%nat =? b !!! (i + best)%nat) then
        let l := common b c i max in
        if (best <? l)%nat then
          if (l =? max)%nat then (l, (i - c)%nat)
          else find_loop chain e b i max (prev e !!! c) l (i - c)
        else find_loop chain e b i max (prev e !!! c) best dist
      else find_loop chain e b i max (prev e !!! c) best dist
  end.

Definition find (e : Encoder) (b : list Z) (i : nat) : nat * nat :=
  if (length b <? i + MIN_MATCH)%nat then (O, O)
  else
    let max := Nat.min (length b - i) (Z.to_nat MAX_MATCH) in
    let '(best, dist) := find_loop MAX_CHAIN e b i max (head e !!! hash4 b i) 0 0 in
    if (best <? MIN_MATCH)%nat then (O, O) else (best, dist).

Definition push_tok (l d : Z) (e : Encoder) : Encoder := e <| toks ::= fun t => t ++ [(l, d)] |>.

(** [for p in i..j { self.insert(src, p) }]. *)
Definition insert_range (src : list Z) (i j : nat) (e : Encoder) : Encoder :=
  foldl (fun e p => enc_insert src p e) e (seq i (j - i)).

(** The matching loop: every turn moves [i] forward. *)
Fixpoint match_loop (fuel : nat) (src : list Z) (i : nat) (e : Encoder) : Encoder :=
  match fuel with
  | O => e
  | S fuel =>
      if (i <? length src)%nat then
        let '(l0, d0) := find e src i in
        let e := enc_insert src i e in
        if (l0 =? 0)%nat then match_loop fuel src (S i) (push_tok (src !!! i) 0 e)
        else
          let '(l, d, i, e) :=
            if (l0 <? LAZY_MAX)%nat && (i + 1 <? length src)%nat then
              let '(l1, d1) := find e src (i + 1) in
              if (l0 <? l1)%nat
              then (l1, d1, (i + 1)%nat, enc_insert src (i + 1) (push_tok (src !!! i) 0 e))
              else (l0, d0, i, e)
            else (l0, d0, i, e) in
          let e := push_tok (Z.of_nat l) (Z.of_nat d) e in
          match_loop fuel src (i + l) (insert_range src (i + 1) (i + l) e)
      else e
  end.

(** Occurrences of each symbol. *)
Definition bump (i : nat) (f : list Z) : list Z := <[i := u32 (f !!! i + 1)]> f.

Definition count_tok (f : list Z * list Z) (t : Z * Z) : list Z * list Z :=
  let '(ll, dd) := f in
  let '(l, d) := t in
  if d =? 0 then (bump (Z.to_nat l) ll, dd)
  else (bump (256 + (bucket (l - 4)).1.1) ll, bump (bucket (d - 1)).1.1 dd).

Definition frequencies (ts : list (Z * Z)) : list Z * list Z :=
  foldl count_tok (replicate LL_CODES 0, replicate DIST_CODES 0) ts.

(** Two lengths a byte, low nibble first. *)
Fixpoint nibbles (l : list nat) : list Z :=
  match l with
  | a :: b :: l => Z.lor (Z.of_nat a) (u8 (Z.shiftl (Z.of_nat b) 4)) :: nibbles l
  | [a] => [Z.of_nat a]
  | [] => []
  end.

Definition put_tok (ll_code : list Z) (ll_len : list nat) (dd_code : list Z) (dd_len : list nat)
    (w : BitWriter) (t : Z * Z) : BitWriter :=
  let '(l, d) := t in
  if d =? 0 then bw_put (ll_code !!! Z.to_nat l) (ll_len !!! Z.to_nat l) w
  else
    let '(c, bits, extra) := bucket (l - 4) in
    let w := bw_put (ll_code !!! (256 + c)%nat) (ll_len !!! (256 + c)%nat) w in
    let w := bw_put extra bits w in
    let '(c, bits, extra) := bucket (d - 1) in
    let w := bw_put (dd_code !!! c) (dd_len !!! c) w in
    bw_put extra bits w.

(** [None] is the [assert!] on the size of the frame. *)
Definition compress (src out : list Z) (e : Encoder) : option (list Z * Encoder) :=
  if FRAME <? Z.of_nat (length src) then None
  else
    let e := e <| head ::= map (fun _ => 0) |> <| toks := [] |> in
    let e := match_loop (length src) src 0 e in
    let '(ll, dd) := frequencies (toks e) in
    let ll_len := code_lengths ll MAX_BITS in
    let dd_len := code_lengths dd MAX_BITS in
    let out := out ++ nibbles (ll_len ++ dd_len) in
    let w := foldl (put_tok (codes ll_len) ll_len (codes dd_len) dd_len) (MkBitWriter out 0 0) (toks e) in
    Some (bw_finish w, e).

(** ** Decompression *)

(** Eight bytes at a time, forwards. *)
Fixpoint copy_wide (fuel k len o d : nat) (dst : list Z) : list Z :=
  match fuel with
  | O => dst
  | S fuel =>
      if (k <? len)%nat
      then copy_wide fuel (k + 8) len o d (overwrite (o + k) (take 8 (drop (o + k - d) dst)) dst)
      else dst
  end.

Definition copy_match (len o d : nat) (dst : list Z) : list Z :=
  if (d =? 1)%nat then overwrite o (replicate len (dst !!! (o - 1)%nat)) dst
  else if (8 <=? d)%nat && (o + len + 8 <=? length dst)%nat then copy_wide len 0 len o d dst
  else if (len <=? d)%nat then lz.copy_within len o d dst
  else lz.copy_bytes len o d dst.

(** A run of literals: where it ends the frame, or the symbol after it. *)
Inductive Run := RunEnd (r : BitReader) (dst : list Z) | RunSymbol (r : BitReader) (s o : nat) (dst : list Z).

Fixpoint literal_run (fuel : nat) (ll : list Z) (r : BitReader) (s o : nat) (dst : list Z) : result Run Error :=
  match fuel with
  | O => Err (Invalid "out of fuel")
  | S fuel =>
      if (s <? 256)%nat then
        let dst := <[o := Z.of_nat s]> dst in
        let o := S o in
        if (o =? length dst)%nat then Ok (RunEnd r dst)
        else
          let r := if (br_n r <? MAX_BITS)%nat then refill r else r in
          match br_symbol ll r with
          | Err e => Err e
          | Ok (s, r) => literal_run fuel ll r s o dst
          end
      else Ok (RunSymbol r s o dst)
  end.

(** A match, after its length symbol. *)
Definition copy_symbol (dd : list Z) (r : BitReader) (s o : nat) (dst : list Z)
    : result (BitReader * nat * list Z) Error :=
  let r := refill r in
  let code := (s - 256)%nat in
  if (LEN_CODES <=? code)%nat then Err (Invalid "frame: length code") else
  let '(base, bits) := LEN_BASE !!! code in
  let '(v, r) := br_bits bits r in
  let len := (Z.to_nat (base + v) + MIN_MATCH)%nat in
  match br_symbol dd r with
  | Err e => Err e
  | Ok (dc, r) =>
      let '(base, bits) := DIST_BASE !!! dc in
      let '(v, r) := br_bits bits r in
      let dist := (Z.to_nat (base + v) + 1)%nat in
      if (o <? dist)%nat || (length dst - o <? len)%nat
      then Err (Invalid "frame: copy outside the frame")
      else Ok (r, (o + len)%nat, copy_match len o dist dst)
  end.

Fixpoint decompress_loop (fuel : nat) (ll dd : list Z) (r : BitReader) (o : nat) (dst : list Z)
    : result (list Z) Error :=
  match fuel with
  | O => Err (Invalid "out of fuel")
  | S fuel =>
      if (o <? length dst)%nat then
        match br_symbol ll (refill r) with
        | Err e => Err e
        | Ok (s, r) =>
            match literal_run (S (length dst)) ll r s o dst with
            | Err e => Err e
            | Ok (RunEnd r dst) => map_ok (fun _ => dst) (br_check r)
            | Ok (RunSymbol r s o dst) =>
                match copy_symbol dd r s o dst with
                | Err e => Err e
                | Ok (r, o, dst) => decompress_loop fuel ll dd r o dst
                end
            end
        end
      else map_ok (fun _ => dst) (br_check r)
  end.

(** The code lengths in the header. *)
Definition header_lens (src : list Z) : list nat :=
  map (fun i => Z.to_nat (Z.land (Z.shiftr (src !!! (i / 2)%nat) (4 * Z.of_nat (i mod 2))) 15))
    (seq 0 (LL_CODES + DIST_CODES)).

Definition decompress (src dst : list Z) : result (list Z) Error :=
  if FRAME <? Z.of_nat (length dst) then Err (Invalid "frame too long")
  else if (length src <? HEADER)%nat then Err Truncated
  else
    let lens := header_lens src in
    match table (take LL_CODES lens) with
    | Err e => Err e
    | Ok ll =>
        match table (drop LL_CODES lens) with
        | Err e => Err e
        | Ok dd =>
            decompress_loop (S (length dst)) ll dd (MkBitReader (drop HEADER src) 0 0 0) 0 dst
        end
    end.

End lzh.
