(* ===== verification/SnapHuff.v ===== *)
(** * Huffman code lengths (theorems about lzh.code_lengths)

    The tree built over the two queues, the limiting to 12 bits and the
    assignment of lengths keep the sum of [2^-length] at one, so the lengths
    have a prefix code; no count goes below zero on the way. *)

From Stdlib Require Import ZArith Lia Bool.
From stdpp Require Import base sets list numbers strings.
From S2P Require Import Prelude SnapWire SnapLz SnapLzh.
Local Open Scope Z_scope.
Local Open Scope vetro_scope.
Import lzh.

(** ** Sums over lists *)

Fixpoint lsum {A} (f : A -> Z) (l : list A) : Z :=
  match l with [] => 0 | x :: l => f x + lsum f l end.

Lemma lsum_app {A} (f : A -> Z) l k : lsum f (l ++ k) = lsum f l + lsum f k.
Proof. induction l as [|x l IH]; cbn in *; [done|]. lia. Qed.

Lemma lsum_ext {A} (f g : A -> Z) l : (forall x, x ∈ l -> f x = g x) -> lsum f l = lsum g l.
Proof.
  induction l as [|x l IH]; intros H; cbn; [done|]. rewrite (H x) by by left.
  f_equal. apply IH. intros y Hy. apply H. by right.
Qed.

Lemma lsum_perm {A} (f : A -> Z) l k : Permutation l k -> lsum f l = lsum f k.
Proof. induction 1; cbn in *; lia. Qed.

Lemma lsum_scale {A} (f : A -> Z) c l : lsum (fun x => c * f x) l = c * lsum f l.
Proof. induction l as [|x l IH]; cbn in *; lia. Qed.

Lemma lsum_add {A} (f g : A -> Z) l : lsum (fun x => f x + g x) l = lsum f l + lsum g l.
Proof. induction l as [|x l IH]; cbn in *; lia. Qed.

Lemma lsum_le {A} (f g : A -> Z) l : (forall x, x ∈ l -> f x <= g x) -> lsum f l <= lsum g l.
Proof.
  induction l as [|x l IH]; intros H; cbn; [lia|]. specialize (H x (list_elem_of_here _ _)) as Hx.
  assert (lsum f l <= lsum g l) by (apply IH; intros y Hy; apply H; by right). lia.
Qed.

Lemma lsum_zero {A} (f : A -> Z) l : (forall x, x ∈ l -> f x = 0) -> lsum f l = 0.
Proof. intros H. rewrite (lsum_ext f (fun _ => 0) l H). clear. induction l; cbn in *; lia. Qed.

Lemma lsum_nonneg {A} (f : A -> Z) l : (forall x, x ∈ l -> 0 <= f x) -> 0 <= lsum f l.
Proof. intros H. rewrite <- (lsum_zero (fun _ : A => 0) l) by done. by apply lsum_le. Qed.

Lemma lsum_elem {A} (f : A -> Z) l x : (forall y, y ∈ l -> 0 <= f y) -> x ∈ l -> f x <= lsum f l.
Proof.
  intros Hn Hx. apply list_elem_of_split in Hx as (l1 & l2 & ->). rewrite lsum_app. cbn.
  assert (0 <= lsum f l1) by (apply lsum_nonneg; intros y Hy; apply Hn; set_solver).
  assert (0 <= lsum f l2) by (apply lsum_nonneg; intros y Hy; apply Hn; set_solver). lia.
Qed.

Lemma lsum_map {A B} (f : B -> Z) (g : A -> B) l : lsum f (map g l) = lsum (fun x => f (g x)) l.
Proof. induction l as [|x l IH]; cbn in *; [done|]. by rewrite IH. Qed.

(** One term changes. *)
Lemma lsum_change {A} `{EqDecision A} (f f' : A -> Z) l i :
  NoDup l -> i ∈ l -> (forall x, x ∈ l -> x <> i -> f' x = f x) -> lsum f' l = lsum f l + f' i - f i.
Proof.
  intros Hn Hi Hx. apply list_elem_of_split in Hi as (l1 & l2 & ->).
  apply NoDup_app in Hn as (_ & H1 & [H2 _]%NoDup_cons). rewrite !lsum_app. cbn.
  rewrite (lsum_ext f' f l1), (lsum_ext f' f l2); [lia| |].
  - intros x H. apply Hx; [set_solver|]. intros ->. done.
  - intros x H. apply Hx; [set_solver|]. intros ->. apply (H1 i H). by left.
Qed.

(** ** Counts by length

    [total g c] is the sum of [c[l] * g l]. *)

Definition total (g : nat -> Z) (c : list Z) : Z := lsum (fun l => c !!! l * g l) (seq 0 (length c)).

Lemma total_insert g c l v :
  (l < length c)%nat -> total g (<[l := v]> c) = total g c + (v - c !!! l) * g l.
Proof.
  intros Hl. unfold total. rewrite length_insert.
  rewrite (lsum_change (fun k => c !!! k * g k) _ _ l).
  - rewrite list_lookup_total_insert_eq by done. lia.
  - apply NoDup_seq.
  - apply elem_of_seq. lia.
  - intros x _ Hx. by rewrite list_lookup_total_insert_ne by done.
Qed.

Lemma total_zeros g n : total g (replicate n 0) = 0.
Proof.
  unfold total. apply lsum_zero. intros l Hl. apply elem_of_seq in Hl. rewrite length_replicate in Hl.
  rewrite lookup_total_replicate_2 by lia. lia.
Qed.

Lemma depth_counts_total g ds : forall c,
  (forall d, d ∈ ds -> (d < length c)%nat) ->
  let c' := foldl (fun count d => <[d := count !!! d + 1]> count) c ds in
  total g c' = total g c + lsum g ds /\ length c' = length c.
Proof.
  induction ds as [|d ds IH]; intros c Hd; cbn [foldl lsum]; [split; [lia|done]|].
  destruct (IH (<[d := c !!! d + 1]> c)) as [H1 H2].
  { intros x Hx. rewrite length_insert. apply Hd. by right. }
  rewrite H1, H2, length_insert, total_insert by (apply Hd; by left). split; [|done]. lia.
Qed.

Lemma depth_counts_nonneg (ds : list nat) (c : list Z) :
  Forall (fun x => 0 <= x) c -> Forall (fun x => 0 <= x) (foldl (fun count d => <[d := count !!! d + 1]> count) c ds).
Proof.
  revert c. induction ds as [|d ds IH]; intros c Hc; cbn; [done|]. apply IH.
  destruct (decide (d < length c)%nat) as [Hd|Hd].
  - apply Forall_insert; [done|]. rewrite Forall_lookup in Hc.
    assert (0 <= c !!! d) by (apply (Hc d), list_lookup_lookup_total_lt, Hd). lia.
  - by rewrite list_insert_ge by lia.
Qed.

Lemma depth_counts_absent (ds : list nat) (c : list Z) (k : nat) :
  k ∉ ds -> (foldl (fun count d => <[d := count !!! d + 1]> count) c ds) !!! k = c !!! k.
Proof.
  revert c. induction ds as [|d ds IH]; intros c Hk; cbn; [done|]. apply not_elem_of_cons in Hk as [H1 H2].
  rewrite IH by done. by rewrite list_lookup_total_insert_ne by done.
Qed.

(** ** The tree *)

Section tree.
Context (m : nat) (Hm : (2 <= m)%nat).

(** After [k] merges: every picked node has a parent after it, and every
    parent is the parent of two. *)
Record tree_inv (k : nat) (q : Queues) : Prop := {
  ti_weight : length (weight q) = (m + k)%nat;
  ti_parent : length (parent q) = (2 * m - 1)%nat;
  ti_leaf : (leaf q <= m)%nat;
  ti_node : (m <= node q <= m + (k - 1))%nat;
  ti_picked : (leaf q + node q = m + 2 * k)%nat;
  ti_after : forall i, i ∈ seq 0 (leaf q) ++ seq m (node q - m) -> (i < parent q !!! i < m + k)%nat;
  ti_twice : forall f : nat -> Z, lsum (fun i => f (parent q !!! i)) (seq 0 (leaf q) ++ seq m (node q - m))
               = 2 * lsum f (seq m k);
}.

(** The nodes picked so far, as an order of two queues. *)
Definition picked (q : Queues) : list nat := seq 0 (leaf q) ++ seq m (node q - m).

(** A pick takes a node that is there and was not picked. *)
Lemma pick_spec q :
  (leaf q <= m)%nat -> (m <= node q)%nat -> (node q < length (weight q))%nat \/ (leaf q < m)%nat ->
  (node q <= length (weight q))%nat -> (m <= length (weight q))%nat ->
  let '(a, q') := pick m q in
  weight q' = weight q /\ parent q' = parent q /\ (a < length (weight q))%nat /\ (a ∉ picked q) /\
  Permutation (picked q') (a :: picked q) /\ (leaf q' <= m)%nat /\ (m <= node q' <= length (weight q))%nat /\
  (leaf q' + node q' = leaf q + node q + 1)%nat.
Proof.
  intros Hl Hn Hor Hw Hmw. unfold pick.
  destruct (Nat.ltb_spec (leaf q) m) as [Hlm|Hlm]; cbn [andb].
  2: { unfold picked, update. cbn [weight parent leaf node]. destruct Hor; [|lia].
       repeat split; try lia.
       - rewrite elem_of_app, !elem_of_seq. lia.
       - replace (S (node q) - m)%nat with (S (node q - m)) by lia. rewrite seq_S, app_assoc.
         replace (m + (node q - m))%nat with (node q) by lia. symmetry. apply Permutation_cons_append. }
  destruct (_ || _) eqn:Hb; unfold picked, update; cbn [weight parent leaf node].
  - repeat split; try lia.
    + rewrite elem_of_app, !elem_of_seq. lia.
    + rewrite seq_S, <- app_assoc. cbn. symmetry. apply Permutation_middle.
  - apply orb_false_iff in Hb as [Hb _]. apply Nat.leb_gt in Hb.
    repeat split; try lia.
    + rewrite elem_of_app, !elem_of_seq. lia.
    + replace (S (node q) - m)%nat with (S (node q - m)) by lia. rewrite seq_S, app_assoc.
      replace (m + (node q - m))%nat with (node q) by lia. symmetry. apply Permutation_cons_append.
Qed.

Lemma merge_inv k q : tree_inv k q -> (k + 1 < m)%nat -> tree_inv (S k) (merge m q).
Proof.
  intros [Iw Ip Il In Is Ia It] Hk. fold (picked q) in Ia, It. unfold merge.
  pose proof (pick_spec q Il ltac:(lia) ltac:(lia) ltac:(lia) ltac:(lia)) as P1.
  destruct (pick m q) as [a q1]. destruct P1 as (W1 & R1 & A1 & N1 & Q1 & L1 & M1 & S1).
  rewrite <- W1 in M1. pose proof (pick_spec q1 L1 ltac:(lia) ltac:(rewrite W1 in *; lia) ltac:(lia) ltac:(lia)) as P2.
  destruct (pick m q1) as [b q2]. destruct P2 as (W2 & R2 & A2 & N2 & Q2 & L2 & M2 & S2).
  rewrite W1 in *. rewrite Q1 in Q2, N2. apply not_elem_of_cons in N2 as [Nba N2].
  set (p' := <[b := length (weight q)]> (<[a := length (weight q)]> (parent q))).
  assert (forall i, i ∈ picked q -> p' !!! i = parent q !!! i) as Hold.
  { intros i Hi. unfold p'. rewrite !list_lookup_total_insert_ne; [done|..]; intros ->; done. }
  assert (p' !!! a = (m + k)%nat) as Ha.
  { unfold p'. rewrite list_lookup_total_insert_ne, list_lookup_total_insert_eq by (done || lia). done. }
  assert (p' !!! b = (m + k)%nat) as Hb.
  { unfold p'. rewrite list_lookup_total_insert_eq by (rewrite length_insert; lia). done. }
  split; unfold update; cbn [weight parent leaf node]; rewrite ?R2, ?R1, ?W2; fold p'.
  - rewrite length_app. cbn. lia.
  - unfold p'. rewrite !length_insert. done.
  - done.
  - lia.
  - lia.
  - intros i Hi. change (i ∈ picked q2) in Hi. rewrite Q2, !elem_of_cons in Hi.
    destruct Hi as [-> |[-> |Hi]]; [rewrite Hb; lia|rewrite Ha; lia|].
    rewrite (Hold i Hi). specialize (Ia i Hi). lia.
  - intros f. change (lsum (fun i => f (p' !!! i)) (picked q2) = 2 * lsum f (seq m (S k))).
    rewrite (lsum_perm _ _ _ Q2). cbn [lsum]. rewrite Ha, Hb, seq_S, lsum_app. cbn [lsum].
    rewrite (lsum_ext _ (fun i => f (parent q !!! i)) (picked q)) by (intros i Hi; by rewrite Hold).
    rewrite It. lia.
Qed.

Lemma tree_inv_0 ws : length ws = m -> tree_inv 0 (MkQueues ws (replicate (2 * m - 1) O) 0 m).
Proof.
  intros Hl. split; cbn [weight parent leaf node]; rewrite ?length_replicate, ?Nat.sub_diag; try lia; cbn.
  - intros i Hi. by apply not_elem_of_nil in Hi.
  - done.
Qed.

Lemma merges_inv ws k :
  length ws = m -> (k < m)%nat -> tree_inv k (Nat.iter k (merge m) (MkQueues ws (replicate (2 * m - 1) O) 0 m)).
Proof.
  intros Hl. induction k as [|k IH]; intros Hk; cbn; [by apply tree_inv_0|]. apply merge_inv; [apply IH|]; lia.
Qed.

(** Depths follow the parents. *)
Lemma set_depths_spec par : forall n d,
  (n <= length d)%nat -> (forall i, (i < n)%nat -> (i < par !!! i)%nat) ->
  let d' := set_depths n par d in
  length d' = length d /\ (forall i, (n <= i)%nat -> d' !!! i = d !!! i) /\
  (forall i, (i < n)%nat -> d' !!! i = (d' !!! (par !!! i) + 1)%nat).
Proof.
  induction n as [|n IH]; intros d Hn Hp; cbn [set_depths]; [split; [done|]; split; [done|lia]|].
  destruct (IH (<[n := (d !!! (par !!! n) + 1)%nat]> d)) as (H1 & H2 & H3).
  { rewrite length_insert. lia. } { intros i Hi. apply Hp. lia. }
  rewrite length_insert in H1. split; [done|]. split.
  - intros i Hi. rewrite H2 by lia. by rewrite list_lookup_total_insert_ne by lia.
  - intros i Hi. destruct (decide (i = n)) as [->|]; [|apply H3; lia].
    specialize (Hp n ltac:(lia)). rewrite !H2 by lia. rewrite list_lookup_total_insert_eq by lia.
    by rewrite list_lookup_total_insert_ne by lia.
Qed.

(** The leaves of a tree: [2^-depth] sums to one, and no leaf is the root. *)
Lemma tree_depths_kraft ws E :
  length ws = m -> (2 * m <= E)%nat ->
  length (tree_depths ws) = m /\
  (forall d, d ∈ tree_depths ws -> (1 <= d <= 2 * m)%nat) /\
  lsum (fun d => 2 ^ Z.of_nat (E - d)) (tree_depths ws) = 2 ^ Z.of_nat E.
Proof.
  intros Hl HE. unfold tree_depths. rewrite Hl. set (q := Nat.iter _ _ _).
  assert (tree_inv (m - 1) q) as [Iw Ip Il In Is Ia It] by (apply merges_inv; [done|lia]).
  assert (leaf q = m /\ node q = 2 * m - 2)%nat as [El En] by lia. rewrite El, En in Ia, It.
  replace (2 * m - 2 - m)%nat with (m - 2)%nat in Ia, It by lia.
  rewrite <- seq_app in Ia, It. replace (m + (m - 2))%nat with (2 * m - 2)%nat in Ia, It by lia.
  assert (forall i, (i < 2 * m - 2)%nat -> (i < parent q !!! i <= 2 * m - 2)%nat) as Hpar.
  { intros i Hi. specialize (Ia i ltac:(apply elem_of_seq; lia)). lia. }
  destruct (set_depths_spec (parent q) (2 * m - 2) (replicate (2 * m - 1) O)) as (D1 & D2 & D3).
  { rewrite length_replicate. lia. } { intros i Hi. by apply Hpar. }
  set (D := set_depths _ _ _) in *. rewrite length_replicate in D1.
  assert (D !!! (2 * m - 2)%nat = O) as Hroot.
  { rewrite D2 by lia. apply lookup_total_replicate_2. lia. }
  assert (forall n i, (2 * m - 2 - i <= n)%nat -> (i <= 2 * m - 2)%nat -> (D !!! i <= n)%nat) as Hbound.
  { induction n as [|n IH]; intros i Hn Hi.
    - replace i with (2 * m - 2)%nat by lia. lia.
    - destruct (decide (i = 2 * m - 2)%nat) as [->|]; [lia|]. specialize (Hpar i ltac:(lia)).
      rewrite D3 by lia. specialize (IH (parent q !!! i)). lia. }
  assert (forall i, (i < m)%nat -> (1 <= D !!! i <= 2 * m)%nat) as Hleaf.
  { intros i Hi. split; [rewrite D3 by lia; lia|]. specialize (Hbound (2 * m)%nat i). lia. }
  split; [rewrite length_take; lia|]. split.
  { intros d Hd. apply list_elem_of_lookup in Hd as [i Hi]. apply lookup_take_Some in Hi as [Hi Hlt].
    apply list_lookup_total_correct in Hi. subst d. by apply Hleaf. }
  set (g := fun i => 2 ^ Z.of_nat (E - D !!! i)).
  assert (forall i, (i < 2 * m - 2)%nat -> g (parent q !!! i) = 2 * g i) as Hg.
  { intros i Hi. unfold g. rewrite (D3 i) by lia. specialize (Hpar i Hi).
    specialize (Hbound (2 * m - 2)%nat (parent q !!! i)) as Hb.
    rewrite <- Z.pow_succ_r by lia. f_equal. lia. }
  specialize (It g). rewrite (lsum_ext _ (fun i => 2 * g i)) in It
    by (intros i Hi; apply elem_of_seq in Hi; apply Hg; lia).
  rewrite lsum_scale in It. replace (2 * m - 2)%nat with (m + (m - 2))%nat in It by lia.
  rewrite seq_app, lsum_app in It. replace (m - 1)%nat with (S (m - 2)) in It by lia.
  rewrite seq_S, lsum_app in It. cbn [lsum plus] in It.
  replace (m + (m - 2))%nat with (2 * m - 2)%nat in It by lia.
  assert (g (2 * m - 2)%nat = 2 ^ Z.of_nat E) as Hgr by (unfold g; rewrite Hroot; f_equal; lia).
  assert (take m D = map (fun i => D !!! i) (seq 0 m)) as ->.
  { apply list_eq_same_length with m; [by rewrite length_map, length_seq|rewrite length_take; lia|].
    intros i x y Hi Hx Hy. apply lookup_take_Some in Hx as [Hx _].
    rewrite list_lookup_fmap, lookup_seq_lt in Hy by done. apply (inj Some) in Hy.
    apply list_lookup_total_correct in Hx. rewrite <- Hx, <- Hy. done. }
  rewrite lsum_map. fold g. change (fun x => 2 ^ Z.of_nat (E - D !!! x)) with g. lia.
Qed.
End tree.

(** ** Limiting the lengths *)

(** Counts of [n] codes whose [2^-length] sums to one, in units of [2^-E]. *)
Record counts_ok (E : nat) (n : Z) (c : list Z) : Prop := {
  co_nonneg : forall l, (l < length c)%nat -> 0 <= c !!! l;
  co_zero : c !!! O = 0;
  co_length : (0 < length c <= S E)%nat;
  co_kraft : total (fun l => 2 ^ Z.of_nat (E - l)) c = 2 ^ Z.of_nat E;
  co_total : total (fun _ => 1) c = n;
}.

Lemma total_top g c i :
  (i < length c)%nat -> (forall l, (i < l < length c)%nat -> c !!! l = 0) ->
  total g c = lsum (fun l => c !!! l * g l) (seq 0 i) + c !!! i * g i.
Proof.
  intros Hi Hz. unfold total. replace (length c) with (i + S (length c - i - 1))%nat by lia.
  rewrite seq_app, lsum_app. cbn [seq lsum]. rewrite (lsum_zero _ (seq (S (0 + i)) _)); [cbn [plus]; lia|].
  intros l Hl. apply elem_of_seq in Hl. rewrite Hz by lia. lia.
Qed.

(** In units of [2^-i]: twice the codes below [i], and those of [i]. *)
Lemma kraft_top E n c i :
  counts_ok E n c -> (1 <= i < length c)%nat -> (forall l, (i < l < length c)%nat -> c !!! l = 0) ->
  2 ^ Z.of_nat i = 2 * lsum (fun l => c !!! l * 2 ^ Z.of_nat (i - 1 - l)) (seq 0 i) + c !!! i.
Proof.
  intros C Hi Hz. pose proof (co_length _ _ _ C) as HL. pose proof (co_kraft _ _ _ C) as HK.
  rewrite (total_top _ c i) in HK by (done || lia).
  rewrite (lsum_ext _ (fun l => 2 ^ Z.of_nat (E - i + 1) * (c !!! l * 2 ^ Z.of_nat (i - 1 - l)))) in HK.
  2: { intros l Hl. apply elem_of_seq in Hl.
       replace (E - l)%nat with ((E - i + 1) + (i - 1 - l))%nat by lia.
       rewrite Nat2Z.inj_add, Z.pow_add_r by lia. lia. }
  rewrite lsum_scale in HK. replace E with ((E - i) + i)%nat in HK at 3 by lia.
  rewrite !Nat2Z.inj_add, !Z.pow_add_r in HK by lia. change (2 ^ Z.of_nat 1) with 2 in HK.
  assert (0 < 2 ^ Z.of_nat (E - i)) by (apply Z.pow_pos_nonneg; lia). nia.
Qed.

Lemma lower_spec c j :
  (exists k, (1 <= k <= j)%nat /\ c !!! k <> 0) -> (1 <= lower j c <= j)%nat /\ c !!! lower j c <> 0.
Proof.
  induction j as [|j IH]; intros (k & Hk & Hc); [lia|]. cbn [lower].
  destruct (Z.eqb_spec (c !!! S j) 0) as [Hz|Hz]; [|split; [lia|done]].
  destruct IH as [H1 H2]; [|split; [lia|done]]. exists k. split; [|done].
  destruct (decide (k = S j)) as [->|]; [done|lia].
Qed.

(** A code shorter than [i - 1] is there as long as one of [i] is too long. *)
Lemma shorter_code E n c i :
  counts_ok E n c -> (2 <= i < length c)%nat -> (forall l, (i < l < length c)%nat -> c !!! l = 0) ->
  0 < c !!! i -> n <= 2 ^ Z.of_nat (i - 1) -> exists k, (1 <= k <= i - 2)%nat /\ c !!! k <> 0.
Proof.
  intros C Hi Hz Hpos Hn.
  destruct (decide (Exists (fun k => c !!! k <> 0) (seq 1 (i - 2)))) as [Hex|Hno].
  - apply Exists_exists in Hex as (k & Hk & Hc). apply elem_of_seq in Hk. exists k. split; [lia|done].
  - exfalso. assert (forall l, (l < i - 1)%nat -> c !!! l = 0) as H0.
    { intros l Hl. destruct (decide (l = O)) as [->|]; [apply C|].
      destruct (decide (c !!! l = 0)) as [|Hc]; [done|]. exfalso. apply Hno, Exists_exists.
      exists l. split; [apply elem_of_seq; lia|done]. }
    pose proof (kraft_top E n c i C ltac:(lia) Hz) as HK.
    pose proof (co_total _ _ _ C) as HT. rewrite (total_top _ c i) in HT by (done || lia).
    assert (seq 0 i = seq 0 (i - 1) ++ [(i - 1)%nat]) as Hseq.
    { transitivity (seq 0 (S (i - 1))); [f_equal; lia|]. by rewrite seq_S. }
    rewrite Hseq in HK, HT. replace (Z.of_nat i) with (Z.succ (Z.of_nat (i - 1))) in HK by lia.
    rewrite lsum_app in HK, HT. cbn [lsum] in HK, HT.
    rewrite lsum_zero in HK by (intros l Hl; apply elem_of_seq in Hl; rewrite H0 by lia; lia).
    rewrite lsum_zero in HT by (intros l Hl; apply elem_of_seq in Hl; rewrite H0 by lia; lia).
    rewrite Nat.sub_diag in HK. change (2 ^ Z.of_nat 0) with 1 in HK.
    rewrite Z.pow_succ_r in HK by lia. lia.
Qed.

Lemma shorten_spec E n c i :
  counts_ok E n c -> (2 <= i < length c)%nat -> (forall l, (i < l < length c)%nat -> c !!! l = 0) ->
  0 < c !!! i -> n <= 2 ^ Z.of_nat (i - 1) ->
  let c' := shorten i c in
  counts_ok E n c' /\ length c' = length c /\ (forall l, (i < l < length c')%nat -> c' !!! l = 0) /\
  c' !!! i = c !!! i - 2 /\ 2 <= c !!! i.
Proof.
  intros C Hi Hz Hpos Hn. pose proof (co_length _ _ _ C) as HL.
  destruct (lower_spec c (i - 2) (shorter_code E n c i C Hi Hz Hpos Hn)) as [Hj Hcj].
  assert (2 <= c !!! i) as H2.
  { pose proof (kraft_top E n c i C ltac:(lia) Hz) as HK.
    replace (Z.of_nat i) with (Z.succ (Z.of_nat (i - 1))) in HK by lia. rewrite Z.pow_succ_r in HK by lia. lia. }
  cbv zeta. unfold shorten. set (j := lower (i - 2) c) in *.
  set (c1 := <[i := c !!! i - 2]> c). set (c2 := <[(i - 1)%nat := c1 !!! (i - 1)%nat + 1]> c1).
  set (c3 := <[(j + 1)%nat := c2 !!! (j + 1)%nat + 2]> c2).
  assert (length c1 = length c) as L1 by apply length_insert.
  assert (length c2 = length c) as L2 by (unfold c2; by rewrite length_insert).
  assert (length c3 = length c) as L3 by (unfold c3; by rewrite length_insert).
  assert (forall l, (l < length c)%nat -> 0 <= c1 !!! l) as N1.
  { intros l Hl. unfold c1. destruct (decide (l = i)) as [->|];
      [rewrite list_lookup_total_insert_eq by lia; lia|rewrite list_lookup_total_insert_ne by done; by apply C]. }
  assert (forall l, (l < length c)%nat -> 0 <= c2 !!! l) as N2.
  { intros l Hl. unfold c2. destruct (decide (l = i - 1)%nat) as [->|];
      [rewrite list_lookup_total_insert_eq by lia; specialize (N1 (i - 1)%nat ltac:(lia)); lia
      |rewrite list_lookup_total_insert_ne by done; by apply N1]. }
  assert (c3 !!! j = c !!! j) as E3.
  { unfold c3, c2, c1. rewrite !list_lookup_total_insert_ne by lia. done. }
  assert (forall g, total g (<[j := c3 !!! j - 1]> c3) = total g c - 2 * g i + g (i - 1)%nat + 2 * g (j + 1)%nat - g j) as HT.
  { intros g. rewrite total_insert by lia. unfold c3 at 1. rewrite total_insert by lia.
    unfold c2 at 1. rewrite total_insert by lia. unfold c1 at 1. rewrite total_insert by lia. lia. }
  assert (0 < c !!! j) as Hcj' by (pose proof (co_nonneg _ _ _ C j ltac:(lia)); lia).
  rewrite length_insert, L3. split; [|split; [done|split; [|split; [|done]]]].
  - split.
    + intros l Hl. rewrite length_insert, L3 in Hl. destruct (decide (l = j)) as [->|];
        [rewrite list_lookup_total_insert_eq by lia; lia|rewrite list_lookup_total_insert_ne by done].
      unfold c3. destruct (decide (l = j + 1)%nat) as [->|];
        [rewrite list_lookup_total_insert_eq by lia; specialize (N2 (j + 1)%nat ltac:(lia)); lia
        |rewrite list_lookup_total_insert_ne by done; by apply N2].
    + unfold c3, c2, c1. rewrite !list_lookup_total_insert_ne by lia. apply C.
    + rewrite length_insert. lia.
    + rewrite HT. rewrite (co_kraft _ _ _ C).
      replace (E - (i - 1))%nat with (S (E - i)) by lia. replace (E - j)%nat with (S (E - (j + 1))) by lia.
      rewrite !Nat2Z.inj_succ, !Z.pow_succ_r by lia. lia.
    + rewrite HT. rewrite (co_total _ _ _ C). lia.
  - intros l Hl. unfold c3, c2, c1. rewrite !list_lookup_total_insert_ne by lia. apply Hz. lia.
  - unfold c3, c2, c1. rewrite !list_lookup_total_insert_ne by lia. by rewrite list_lookup_total_insert_eq by lia.
Qed.

Lemma shorten_all_spec E n i : n <= 2 ^ Z.of_nat (i - 1) -> forall fuel c,
  counts_ok E n c -> (2 <= i < length c)%nat -> (forall l, (i < l < length c)%nat -> c !!! l = 0) ->
  c !!! i <= Z.of_nat fuel ->
  let c' := shorten_all fuel i c in
  counts_ok E n c' /\ length c' = length c /\ (forall l, (i <= l < length c')%nat -> c' !!! l = 0).
Proof.
  intros Hn. induction fuel as [|fuel IH]; intros c C Hi Hz Hf; cbn [shorten_all].
  - split; [done|]. split; [done|]. intros l Hl. destruct (decide (l = i)) as [->|]; [|apply Hz; lia].
    pose proof (co_nonneg _ _ _ C i ltac:(lia)). lia.
  - destruct (Z.ltb_spec 0 (c !!! i)) as [Hpos|Hneg].
    + destruct (shorten_spec E n c i C Hi Hz Hpos Hn) as (C' & L' & Z' & Ei & H2).
      destruct (IH (shorten i c)) as (C2 & L2 & Z2); [done|lia|done|lia|]. rewrite <- L'. done.
    + split; [done|]. split; [done|]. intros l Hl. destruct (decide (l = i)) as [->|]; [|apply Hz; lia].
      pose proof (co_nonneg _ _ _ C i ltac:(lia)). lia.
Qed.

Lemma limit_spec E n max : (1 <= max)%nat -> n <= 2 ^ Z.of_nat max -> forall k c,
  counts_ok E n c -> (max + k < length c)%nat -> (forall l, (max + k < l < length c)%nat -> c !!! l = 0) ->
  let c' := limit k max c in
  counts_ok E n c' /\ length c' = length c /\ (forall l, (max < l < length c')%nat -> c' !!! l = 0).
Proof.
  intros Hmax Hn. induction k as [|k IH]; intros c C Hk Hz; cbn [limit].
  - rewrite Nat.add_0_r in Hz. done.
  - destruct (shorten_all_spec E n (max + S k)) with (fuel := Z.to_nat (c !!! (max + S k)%nat)) (c := c)
      as (C1 & L1 & Z1); [|done|lia|done|lia|].
    + etransitivity; [exact Hn|]. apply Z.pow_le_mono_r; lia.
    + set (c1 := shorten_all _ _ _) in *. destruct (IH c1) as (C2 & L2 & Z2); [done|lia| |].
      * intros l Hl. apply Z1. lia.
      * rewrite L2, L1 in *. done.
Qed.

(** ** Assigning the lengths *)

Lemma total_nonneg_zero c :
  (forall l, (l < length c)%nat -> 0 <= c !!! l) -> total (fun _ => 1) c <= 0 ->
  forall l, (l < length c)%nat -> c !!! l = 0.
Proof.
  intros Hn Ht l Hl. pose proof (lsum_elem (fun k => c !!! k * 1) (seq 0 (length c)) l) as H.
  unfold total in Ht. specialize (Hn l Hl) as H0. cbv beta in H.
  assert (c !!! l * 1 <= lsum (fun k => c !!! k * 1) (seq 0 (length c))).
  { apply H; [|apply elem_of_seq; lia]. intros k Hk. apply elem_of_seq in Hk. specialize (Hn k ltac:(lia)). lia. }
  lia.
Qed.

Lemma higher_spec c : forall fuel l,
  (exists k, (l <= k < length c)%nat /\ c !!! k <> 0) -> (length c <= l + fuel)%nat ->
  let h := higher fuel l c in
  (l <= h < length c)%nat /\ c !!! h <> 0 /\ (forall k, (l <= k < h)%nat -> c !!! k = 0).
Proof.
  induction fuel as [|fuel IH]; intros l (k & Hk & Hc) Hf; cbn [higher]; [lia|].
  destruct (Z.eqb_spec (c !!! l) 0) as [Hz|Hz]; [|split; [lia|]; split; [done|lia]].
  destruct (IH (S l)) as (H1 & H2 & H3); [|lia|].
  - exists k. split; [|done]. destruct (decide (k = l)) as [->|]; [done|lia].
  - split; [lia|]. split; [done|]. intros x Hx. destruct (decide (x = l)) as [->|]; [done|apply H3; lia].
Qed.

Lemma assign_spec g : forall syms l c len,
  (forall k, (k < length c)%nat -> 0 <= c !!! k) -> (forall k, (k < l)%nat -> c !!! k = 0) ->
  total (fun _ => 1) c = Z.of_nat (length syms) -> NoDup syms -> (forall s, s ∈ syms -> (s < length len)%nat) ->
  let len' := assign syms l c len in
  length len' = length len /\ (forall s, s ∉ syms -> len' !!! s = len !!! s) /\
  (forall s, s ∈ syms -> (len' !!! s < length c)%nat /\ 0 < c !!! (len' !!! s)) /\
  lsum (fun s => g (len' !!! s)) syms = total g c.
Proof.
  induction syms as [|s syms IH]; intros l c len Hn Hz Ht Hd Hs; cbn [assign].
  - split; [done|]. split; [done|]. split; [intros s Hs'; by apply not_elem_of_nil in Hs'|].
    cbn [lsum]. symmetry. apply lsum_zero. intros k Hk. apply elem_of_seq in Hk.
    rewrite (total_nonneg_zero c Hn) by (cbn in Ht; lia). lia.
  - assert (exists k, (l <= k < length c)%nat /\ c !!! k <> 0) as Hex.
    { destruct (decide (Exists (fun k => c !!! k <> 0) (seq 0 (length c)))) as [He|He].
      - apply Exists_exists in He as (k & Hk & Hc). apply elem_of_seq in Hk. exists k. split; [|done].
        destruct (decide (k < l)%nat); [by rewrite Hz in Hc|lia].
      - exfalso. unfold total in Ht. rewrite lsum_zero in Ht; [cbn in Ht; lia|]. intros k Hk.
        destruct (decide (c !!! k = 0)) as [->|Hc]; [lia|]. exfalso. apply He, Exists_exists. eauto. }
    destruct (higher_spec c (length c) l Hex) as (Hh & Hc & Hb); [lia|].
    set (h := higher (length c) l c) in *. apply NoDup_cons in Hd as [Hns Hd].
    set (c1 := <[h := c !!! h - 1]> c).
    assert (0 < c !!! h) as Hpos by (specialize (Hn h ltac:(lia)); lia).
    assert (forall k, (k < length c)%nat -> 0 <= c1 !!! k <= c !!! k) as H1.
    { intros k Hk. unfold c1. destruct (decide (k = h)) as [->|];
        [rewrite list_lookup_total_insert_eq by lia; lia|].
      rewrite list_lookup_total_insert_ne by done. specialize (Hn k Hk). lia. }
    assert (length c1 = length c) as L1 by apply length_insert.
    destruct (IH h c1 (<[s := h]> len)) as (A1 & A2 & A3 & A4).
    + intros k Hk. apply H1. lia.
    + intros k Hk. unfold c1. rewrite list_lookup_total_insert_ne by lia.
      destruct (decide (k < l)%nat); [by apply Hz|apply Hb; lia].
    + unfold c1. rewrite total_insert by lia. cbn [length] in Ht. lia.
    + done.
    + intros x Hx. rewrite length_insert. apply Hs. by right.
    + rewrite length_insert in A1. set (len' := assign _ _ _ _) in *.
      assert (len' !!! s = h) as Es.
      { rewrite A2 by done. apply list_lookup_total_insert_eq. apply Hs. by left. }
      split; [done|]. split; [|split].
      * intros x Hx. apply not_elem_of_cons in Hx as [Hx1 Hx2]. rewrite A2 by done.
        by rewrite list_lookup_total_insert_ne by done.
      * intros x Hx. apply elem_of_cons in Hx as [->|Hx]; [rewrite Es; lia|].
        destruct (A3 x Hx) as [B1 B2]. split; [lia|]. specialize (H1 (len' !!! x)). lia.
      * cbn [lsum]. rewrite Es, A4. unfold c1. rewrite total_insert by lia. lia.
Qed.

Lemma insert_by_key_perm freq s l : Permutation (insert_by_key freq s l) (s :: l).
Proof.
  induction l as [|x l IH]; cbn [insert_by_key]; [done|]. destruct (key_le _ _ _); [done|].
  rewrite IH. apply perm_swap.
Qed.

Lemma sort_by_key_perm freq l : Permutation (sort_by_key freq l) l.
Proof.
  induction l as [|x l IH]; cbn; [done|]. rewrite insert_by_key_perm. by rewrite IH.
Qed.

(** ** The lengths of a code *)

(** The part of the code space of a symbol of length [l], in units of [2^-max]. *)
Definition space (max l : nat) : Z := match l with O => 0 | _ => 2 ^ Z.of_nat (max - l) end.

Lemma lsum_filter {A} (f : A -> Z) (P : A -> Prop) `{!forall x, Decision (P x)} l :
  (forall x, x ∈ l -> ~ P x -> f x = 0) -> lsum f l = lsum f (filter P l).
Proof.
  induction l as [|x l IH]; intros Hf; [done|]. rewrite filter_cons. cbn [lsum].
  rewrite IH by (intros y Hy; apply Hf; by right).
  destruct (decide (P x)); [done|]. rewrite (Hf x) by (by left || done). lia.
Qed.

Lemma lsum_positions {A} `{!Inhabited A} (f : A -> Z) l : lsum f l = lsum (fun i => f (l !!! i)) (seq 0 (length l)).
Proof.
  induction l as [|x l IH] using rev_ind; [done|]. rewrite length_app, Nat.add_1_r, seq_S, !lsum_app. cbn [lsum plus].
  rewrite IH, lookup_total_app_r, Nat.sub_diag by lia. f_equal.
  apply lsum_ext. intros i Hi. apply elem_of_seq in Hi. by rewrite lookup_total_app_l by lia.
Qed.

Definition used (freq : list Z) : list nat := filter (fun s => 0 < freq !!! s) (seq 0 (length freq)).

Lemma elem_of_used freq s : s ∈ used freq <-> (s < length freq)%nat /\ 0 < freq !!! s.
Proof. unfold used. rewrite list_elem_of_filter, elem_of_seq. lia. Qed.

Lemma NoDup_used freq : NoDup (used freq).
Proof. apply NoDup_filter, NoDup_seq. Qed.

(** What a list of code lengths for [freq] has to be. *)
Record lengths_ok (freq : list Z) (max : nat) (len : list nat) : Prop := {
  lo_length : length len = length freq;
  lo_used : forall s, s ∈ used freq -> (1 <= len !!! s <= max)%nat;
  lo_unused : forall s, s ∉ used freq -> (s < length freq)%nat -> len !!! s = O;
  lo_space : lsum (space max) len <= 2 ^ Z.of_nat max;
  lo_complete : (2 <= length (used freq))%nat -> lsum (space max) len = 2 ^ Z.of_nat max;
}.

(** The space is that of the used symbols. *)
Lemma space_used freq max len :
  length len = length freq -> (forall s, s ∉ used freq -> (s < length freq)%nat -> len !!! s = O) ->
  lsum (space max) len = lsum (fun s => space max (len !!! s)) (used freq).
Proof.
  intros Hl Hu. rewrite lsum_positions, Hl. apply lsum_filter. intros s Hs Hn. apply elem_of_seq in Hs.
  rewrite Hu; [done| |lia]. rewrite elem_of_used. intros [_ ?]. done.
Qed.

Lemma max_list_bound ds d : d ∈ ds -> (d <= max_list ds)%nat.
Proof. induction 1; cbn; lia. Qed.

Lemma max_list_elem ds n : (forall d, d ∈ ds -> (d <= n)%nat) -> (max_list ds <= n)%nat.
Proof.
  induction ds as [|d ds IH]; intros H; cbn; [lia|].
  specialize (H d (list_elem_of_here _ _)) as Hd. assert (max_list ds <= n)%nat by (apply IH; intros; apply H; by right).
  lia.
Qed.

(** The counts of the tree, limited. *)
Lemma limited_counts ws max :
  (2 <= length ws)%nat -> (1 <= max)%nat -> Z.of_nat (length ws) <= 2 ^ Z.of_nat max ->
  let depths := tree_depths ws in
  let c := limit (max_list depths - max) max (depth_counts (Nat.max (max_list depths) max + 1) depths) in
  (forall l, (l < length c)%nat -> 0 <= c !!! l) /\ c !!! O = 0 /\ (max < length c)%nat /\
  (forall l, (max < l < length c)%nat -> c !!! l = 0) /\
  total (space max) c = 2 ^ Z.of_nat max /\ total (fun _ => 1) c = Z.of_nat (length ws).
Proof.
  intros Hw Hmax Hn depths. set (size := (Nat.max (max_list depths) max + 1)%nat).
  set (E := (2 * length ws + max)%nat).
  destruct (tree_depths_kraft (length ws) Hw ws E eq_refl ltac:(lia)) as (Dl & Db & Dk). fold depths in Dl, Db, Dk.
  assert (max_list depths <= 2 * length ws)%nat as Hmx by (apply max_list_elem; intros d Hd; by apply Db).
  set (c0 := depth_counts size depths).
  assert (forall d, d ∈ depths -> (d < length (replicate size 0%Z))%nat) as Hlt.
  { intros d Hd. rewrite length_replicate. pose proof (max_list_bound _ _ Hd). lia. }
  assert (length c0 = size) as L0.
  { destruct (depth_counts_total (fun _ => 1) depths (replicate size 0) Hlt) as [_ H].
    by rewrite length_replicate in H. }
  assert (forall g, total g c0 = lsum g depths) as T0.
  { intros g. destruct (depth_counts_total g depths (replicate size 0) Hlt) as [H _].
    unfold c0, depth_counts. rewrite H, total_zeros. done. }
  assert (forall k, (k < size)%nat -> k ∉ depths -> c0 !!! k = 0) as A0.
  { intros k Hk Hd. unfold c0, depth_counts. rewrite depth_counts_absent by done.
    by apply lookup_total_replicate_2. }
  assert (counts_ok E (Z.of_nat (length ws)) c0) as C0.
  { split.
    - intros l Hl. pose proof (depth_counts_nonneg depths (replicate size 0)) as H.
      apply (Forall_lookup_1 (fun x => 0 <= x) c0 l); [by apply H, Forall_replicate|].
      by apply list_lookup_lookup_total_lt.
    - apply A0; [lia|]. intros H. specialize (Db O H). lia.
    - lia.
    - by rewrite T0.
    - rewrite T0, <- Dl. clear. induction depths as [|d ds IH]; cbn [lsum length]; lia. }
  destruct (limit_spec E (Z.of_nat (length ws)) max Hmax Hn (max_list depths - max) c0 C0) as (C & L & Z0).
  - lia.
  - intros l Hl. apply A0; [lia|]. intros H. pose proof (max_list_bound _ _ H). lia.
  - cbv zeta. fold c0. set (c := limit _ _ _) in *. rewrite L0 in L.
    split; [apply C|]. split; [apply C|]. split; [lia|]. split; [done|]. split; [|apply C].
    pose proof (co_kraft _ _ _ C) as HK.
    assert (total (fun l => 2 ^ Z.of_nat (E - l)) c = 2 ^ Z.of_nat (E - max) * total (space max) c) as HS.
    { unfold total. rewrite <- lsum_scale. apply lsum_ext. intros l Hl. apply elem_of_seq in Hl.
      destruct (decide (l = O)) as [->|]; [rewrite (co_zero _ _ _ C); lia|].
      destruct (decide (max < l)%nat); [rewrite Z0 by lia; lia|].
      unfold space. destruct l as [|l]; [done|]. rewrite (Z.mul_comm (2 ^ Z.of_nat (E - max))), <- Z.mul_assoc.
      rewrite <- Z.pow_add_r by lia. do 2 f_equal. lia. }
    rewrite HS in HK. replace E with ((E - max) + max)%nat in HK at 2 by lia.
    rewrite Nat2Z.inj_add, Z.pow_add_r in HK by lia.
    assert (0 < 2 ^ Z.of_nat (E - max)) by (apply Z.pow_pos_nonneg; lia). nia.
Qed.

Lemma code_lengths_ok freq max :
  (1 <= max)%nat -> Z.of_nat (length (used freq)) <= 2 ^ Z.of_nat max -> lengths_ok freq max (code_lengths freq max).
Proof.
  intros Hmax Hn. unfold code_lengths. fold (used freq). pose proof (NoDup_used freq) as Hd.
  pose proof (elem_of_used freq) as Hu. destruct (used freq) as [|s [|s2 syms]] eqn:Eu.
  - split; rewrite ?Eu.
    + apply length_replicate.
    + intros s Hs. by apply not_elem_of_nil in Hs.
    + intros s _ Hs. by apply lookup_total_replicate_2.
    + rewrite lsum_zero; [lia|]. intros x Hx. by apply elem_of_replicate_inv in Hx as ->.
    + cbn. lia.
  - assert (s < length freq)%nat as Hs by (apply Hu; by left).
    assert (length (<[s := 1%nat]> (replicate (length freq) O)) = length freq) as L
      by by rewrite length_insert, length_replicate.
    assert (forall x, x ∉ used freq -> (x < length freq)%nat -> <[s := 1%nat]> (replicate (length freq) O) !!! x = O) as Z0.
    { intros x Hx Hlt. rewrite Eu in Hx. rewrite list_lookup_total_insert_ne by (intros ->; apply Hx; by left).
      by apply lookup_total_replicate_2. }
    split; try done.
    + intros x Hx. rewrite Eu in Hx. apply list_elem_of_singleton in Hx as ->.
      rewrite list_lookup_total_insert_eq by by rewrite length_replicate. lia.
    + rewrite (space_used freq) by done. rewrite Eu. cbn [lsum].
      rewrite list_lookup_total_insert_eq by by rewrite length_replicate. cbn [space].
      rewrite Z.add_0_r. apply Z.pow_le_mono_r; lia.
    + rewrite Eu. cbn. lia.
  - rewrite <- Eu in *. set (ss := sort_by_key freq (used freq)).
    assert (Permutation ss (used freq)) as HP by apply sort_by_key_perm.
    assert (Permutation (rev ss) (used freq)) as HR by (rewrite <- HP; symmetry; apply Permutation_rev).
    assert (length (used freq) = S (S (length syms))) as Hl by by rewrite Eu.
    destruct (limited_counts (map (fun s => freq !!! s) ss) max) as (N & Z0 & M & Zm & K & T);
      rewrite ?length_map, ?(Permutation_length HP); [lia|done|done|].
    set (c := limit _ _ _) in *. rewrite length_map, (Permutation_length HP) in T.
    destruct (assign_spec (space max) (rev ss) 1 c (replicate (length freq) O)) as (A1 & A2 & A3 & A4).
    + done.
    + intros k Hk. by replace k with O by lia.
    + by rewrite length_rev, (Permutation_length HP).
    + by rewrite HR.
    + intros s' Hs. rewrite length_replicate. rewrite HR in Hs. by apply Hu.
    + set (len := assign _ _ _ _) in *. rewrite length_replicate in A1.
      assert (forall x, x ∈ rev ss <-> x ∈ used freq) as Hr by (intros x; by rewrite HR).
      assert (forall x, x ∉ used freq -> (x < length freq)%nat -> len !!! x = O) as U0.
      { intros x Hx Hlt. rewrite A2 by by rewrite Hr. by apply lookup_total_replicate_2. }
      assert (lsum (space max) len = 2 ^ Z.of_nat max) as HS.
      { rewrite (space_used freq) by done. rewrite <- K, <- A4. apply lsum_perm. by rewrite HR. }
      split; [done| |done|lia|done]. intros x Hx. destruct (A3 x ltac:(by apply Hr)) as [B1 B2].
      destruct (decide (len !!! x = O)) as [E0|]; [rewrite E0 in B2; lia|].
      destruct (decide (max < len !!! x)%nat); [rewrite Zm in B2 by lia; lia|lia].
Qed.
