(* ===== verification/SnapCanon.v ===== *)
(** * Canonical codes and the decoding table (theorems about lzh.codes, lzh.table)

    The code of a symbol of length [l] stands for an interval of the [2^12]
    code words of 12 bits; the intervals of the symbols are laid out one after
    the other, by length and then by symbol, so they do not overlap, and every
    entry of the decoding table belongs to one symbol. *)

From Stdlib Require Import ZArith Lia Bool.
From stdpp Require Import base sets list numbers strings.
From S2P Require Import Prelude SnapWire SnapLz SnapLzh SnapHuff.
Local Open Scope Z_scope.
Local Open Scope vetro_scope.
Import lzh.

(** ** Lengths and counts *)

(** Lengths that a table accepts. *)
Definition lens_ok (len : list nat) : Prop :=
  Forall (fun l => l <= MAX_BITS)%nat len /\ lsum (space MAX_BITS) len <= 2 ^ Z.of_nat MAX_BITS.

(** Symbols of length [l] among [len]. *)
Definition occ (l : nat) (len : list nat) : Z := lsum (fun x => if decide (x = l) then 1 else 0) len.

Lemma occ_nonneg l len : 0 <= occ l len.
Proof. apply lsum_nonneg. intros x _. destruct (decide _); lia. Qed.

Lemma occ_take l len s : 0 <= occ l (take s len) <= occ l len.
Proof.
  split; [apply occ_nonneg|]. rewrite <- (take_drop s len) at 2. unfold occ. rewrite lsum_app.
  pose proof (occ_nonneg l (drop s len)) as H. unfold occ in H. lia.
Qed.

Lemma occ_take_lt l len s : len !! s = Some l -> occ l (take s len) < occ l len.
Proof.
  intros Hs. rewrite <- (take_drop_middle len s l Hs) at 2. unfold occ. rewrite lsum_app. cbn [lsum].
  rewrite decide_True by done. pose proof (occ_nonneg l (drop (S s) len)) as H. unfold occ in H. lia.
Qed.

Lemma space_le l : 0 <= space MAX_BITS l.
Proof. destruct l; cbn; [lia|]. apply Z.pow_nonneg. lia. Qed.

Lemma occ_space l len : (1 <= l)%nat -> occ l len * 2 ^ Z.of_nat (MAX_BITS - l) <= lsum (space MAX_BITS) len.
Proof.
  intros Hl. unfold occ. rewrite Z.mul_comm, <- lsum_scale. apply lsum_le. intros x _.
  destruct (decide (x = l)) as [->|]; [|pose proof (space_le x); lia]. destruct l; [lia|]. cbn. lia.
Qed.

Lemma pow12 : 2 ^ Z.of_nat MAX_BITS = 4096.
Proof. reflexivity. Qed.

Lemma occ_bound l len : lens_ok len -> (1 <= l)%nat -> 0 <= occ l len <= 4096.
Proof.
  intros [_ Hk] Hl. split; [apply occ_nonneg|]. pose proof (occ_space l len Hl) as H. rewrite pow12 in Hk.
  assert (1 <= 2 ^ Z.of_nat (MAX_BITS - l)) by (assert (0 < 2 ^ Z.of_nat (MAX_BITS - l)) by (apply Z.pow_pos_nonneg; lia); lia).
  pose proof (occ_nonneg l len). nia.
Qed.

Lemma length_counts_spec len l :
  lens_ok len -> (l <= MAX_BITS)%nat -> length_counts len !!! l = if decide (l = O) then 0 else occ l len.
Proof.
  intros Hok Hl. unfold length_counts.
  assert (forall ls c, Forall (fun x => x <= MAX_BITS)%nat ls -> length c = (MAX_BITS + 1)%nat ->
    (forall k, (1 <= k <= MAX_BITS)%nat -> 0 <= c !!! k /\ c !!! k + occ k ls < 2 ^ 16) ->
    length (foldl (fun count l => <[l := u16 (count !!! l + 1)]> count) c ls) = (MAX_BITS + 1)%nat /\
    forall k, (1 <= k <= MAX_BITS)%nat ->
    foldl (fun count l => <[l := u16 (count !!! l + 1)]> count) c ls !!! k = c !!! k + occ k ls) as Hgen.
  { induction ls as [|x ls IH]; intros c Hf Hc Hb; cbn [foldl]; [split; [done|]; intros; cbn; lia|].
    apply Forall_cons in Hf as [Hx Hf]. destruct (IH (<[x := u16 (c !!! x + 1)]> c) Hf) as [L K].
    - by rewrite length_insert.
    - intros k Hk. destruct (Hb k Hk) as [H0 H1]. unfold occ in H1. cbn [lsum] in H1. fold (occ k ls) in H1.
      pose proof (occ_nonneg k ls). destruct (decide (x = k)) as [->|].
      + rewrite list_lookup_total_insert_eq by lia.
        assert (u16 (c !!! k + 1) = c !!! k + 1) as -> by (apply mod_is_u; split; lia). lia.
      + rewrite list_lookup_total_insert_ne by done. lia.
    - split; [done|]. intros k Hk. rewrite K by done. destruct (Hb k Hk) as [H0 H1].
      unfold occ in *. cbn [lsum] in *. fold (occ k ls) in *. pose proof (occ_nonneg k ls).
      destruct (decide (x = k)) as [->|].
      + rewrite list_lookup_total_insert_eq by lia.
        assert (u16 (c !!! k + 1) = c !!! k + 1) as -> by (apply mod_is_u; split; lia). lia.
      + rewrite list_lookup_total_insert_ne by done. lia. }
  destruct (Hgen len (replicate (MAX_BITS + 1) 0)) as [L K].
  - apply Hok.
  - apply length_replicate.
  - intros k Hk. rewrite lookup_total_replicate_2 by lia. pose proof (occ_bound k len Hok ltac:(lia)). lia.
  - destruct (decide (l = O)) as [->|].
    + apply list_lookup_total_insert_eq. lia.
    + rewrite list_lookup_total_insert_ne by done. rewrite K by lia. rewrite lookup_total_replicate_2 by lia. lia.
Qed.

(** ** First codes *)

(** The first code of length [b]. *)
Fixpoint first_code (len : list nat) (b : nat) : Z :=
  match b with
  | O => 0
  | S b => 2 * (first_code len b + if decide (b = O) then 0 else occ b len)
  end.

(** Code space of the symbols shorter than [b]. *)
Definition below (len : list nat) (b : nat) : Z :=
  lsum (fun x => if decide (x < b)%nat then space MAX_BITS x else 0) len.

Lemma below_S len b : (1 <= b)%nat -> below len (S b) = below len b + occ b len * 2 ^ Z.of_nat (MAX_BITS - b).
Proof.
  intros Hb. unfold below, occ. rewrite Z.mul_comm, <- lsum_scale, <- lsum_add. apply lsum_ext. intros x _.
  destruct (decide (x = b)) as [->|].
  - rewrite decide_True, decide_False by lia. destruct b; [lia|]. cbn. lia.
  - destruct (decide (x < S b)%nat), (decide (x < b)%nat); lia.
Qed.

Lemma below_all len b : below len b <= lsum (space MAX_BITS) len.
Proof. apply lsum_le. intros x _. destruct (decide _); [lia|apply space_le]. Qed.

Lemma below_mono len b b' : (b <= b')%nat -> below len b <= below len b'.
Proof.
  intros Hb. apply lsum_le. intros x _. pose proof (space_le x).
  destruct (decide (x < b)%nat), (decide (x < b')%nat); lia.
Qed.

Lemma first_code_below len b :
  (b <= MAX_BITS)%nat -> first_code len b * 2 ^ Z.of_nat (MAX_BITS - b) = below len b.
Proof.
  induction b as [|b IH]; intros Hb; cbn [first_code].
  - unfold below. rewrite lsum_zero; [lia|]. intros x _. by rewrite decide_False by lia.
  - replace (2 * (first_code len b + (if decide (b = O) then 0 else occ b len)) * 2 ^ Z.of_nat (MAX_BITS - S b))
      with ((first_code len b + (if decide (b = O) then 0 else occ b len)) * 2 ^ Z.of_nat (MAX_BITS - b)).
    2: { replace (MAX_BITS - b)%nat with (S (MAX_BITS - S b)) by lia. rewrite Nat2Z.inj_succ, Z.pow_succ_r by lia. lia. }
    rewrite Z.mul_add_distr_r, IH by lia. destruct (decide (b = O)) as [->|].
    + unfold below at 1 2. rewrite !lsum_zero; [lia| |].
      * intros x _. destruct (decide (x < 1)%nat); [|done]. by replace x with O by lia.
      * intros x _. by rewrite decide_False by lia.
    + by rewrite below_S by lia.
Qed.

Lemma first_code_nonneg len b : 0 <= first_code len b.
Proof.
  induction b as [|b IH]; cbn [first_code]; [lia|]. destruct (decide _); [lia|]. pose proof (occ_nonneg b len). lia.
Qed.

(** All the codes of a length fit in it. *)
Lemma first_code_fits len b :
  lens_ok len -> (1 <= b <= MAX_BITS)%nat -> first_code len b + occ b len <= 2 ^ Z.of_nat b.
Proof.
  intros [_ Hk] Hb. pose proof (first_code_below len b ltac:(lia)) as HF.
  pose proof (below_S len b ltac:(lia)) as HS. pose proof (below_all len (S b)) as HA.
  replace (2 ^ Z.of_nat MAX_BITS) with (2 ^ Z.of_nat b * 2 ^ Z.of_nat (MAX_BITS - b)) in Hk
    by (rewrite <- Z.pow_add_r by lia; f_equal; lia).
  assert (0 < 2 ^ Z.of_nat (MAX_BITS - b)) by (apply Z.pow_pos_nonneg; lia). nia.
Qed.

Lemma first_codes_spec len : lens_ok len -> forall n b k,
  (1 <= b)%nat -> (b + n <= S MAX_BITS)%nat -> (k < n)%nat ->
  first_codes n (length_counts len) (first_code len (b - 1)) b !! k = Some (first_code len (b + k)).
Proof.
  intros Hok. induction n as [|n IH]; intros b k Hb Hn Hk; [lia|]. cbn [first_codes].
  assert (u16 (Z.shiftl (u16 (first_code len (b - 1) + length_counts len !!! (b - 1)%nat)) 1) = first_code len b) as ->.
  { destruct b as [|b]; [lia|]. cbn [first_code]. replace (S b - 1)%nat with b by lia.
    rewrite length_counts_spec by (done || lia).
    assert (0 <= first_code len b + (if decide (b = O) then 0 else occ b len) <= 2048) as Hv.
    { pose proof (first_code_nonneg len b). pose proof (occ_nonneg b len). destruct (decide (b = O)) as [->|].
      - cbn. lia.
      - pose proof (first_code_fits len b Hok ltac:(lia)) as Hf.
        assert (2 ^ Z.of_nat b <= 2 ^ 11) by (apply Z.pow_le_mono_r; unfold MAX_BITS in *; lia).
        change (2 ^ 11) with 2048 in *. lia. }
    set (v := first_code len b + _) in *. assert (u16 v = v) as -> by (apply mod_is_u; split; lia).
    rewrite Z.shiftl_mul_pow2 by lia. change (2 ^ 1) with 2. rewrite Z.mul_comm. apply mod_is_u. split; lia. }
  destruct k as [|k]; cbn [lookup list_lookup]; [do 2 f_equal; lia|].
  replace (first_code len b) with (first_code len (S b - 1)) by (f_equal; lia).
  etransitivity; [apply IH; lia|]. do 2 f_equal. lia.
Qed.

Lemma length_first_codes n c code b : length (first_codes n c code b) = n.
Proof. revert code b. induction n as [|n IH]; intros code b; cbn [first_codes length]; [done|]. by rewrite IH. Qed.

Lemma next_codes_spec len l : lens_ok len -> (1 <= l <= MAX_BITS)%nat -> next_codes len !!! l = first_code len l.
Proof.
  intros Hok Hl. unfold next_codes. destruct l as [|l]; [lia|].
  apply list_lookup_total_correct.
  change ((first_codes MAX_BITS (length_counts len) (first_code len (1 - 1)) 1 ++ [0]) !! l
          = Some (first_code len (1 + l))).
  rewrite lookup_app_l by (rewrite length_first_codes; lia).
  rewrite first_codes_spec by (done || lia). done.
Qed.

(** ** The codes *)

(** The code of a symbol before reversal. *)
Definition code_of (len : list nat) (s : nat) : Z :=
  let l := len !!! s in first_code len l + occ l (take s len).

(** The [l] bits of [c], first bit first. *)
Definition rcode (l : nat) (c : Z) : Z := Z.shiftr (reverse_bits 16 c) (16 - Z.of_nat l).

Lemma lookup_S {A} (x : A) l i : (x :: l) !! S i = l !! i.
Proof. reflexivity. Qed.

Lemma number_spec : forall len next s l,
  (forall k, (1 <= k <= MAX_BITS)%nat -> 0 <= next !!! k /\ next !!! k + occ k len < 2 ^ 16) ->
  (MAX_BITS < length next)%nat -> Forall (fun x => x <= MAX_BITS)%nat len ->
  len !! s = Some l -> (1 <= l)%nat ->
  number next len !! s = Some (rcode l (next !!! l + occ l (take s len))).
Proof.
  induction len as [|x len IH]; intros next s l Hn Hlen Hf Hs Hl; [done|].
  apply Forall_cons in Hf as [Hx Hf]. destruct s as [|s]; cbn in Hs.
  - injection Hs as ->. destruct l as [|l]; [lia|]. cbn [number take].
    unfold occ. cbn [lsum]. by rewrite Z.add_0_r.
  - assert (forall k, (1 <= k <= MAX_BITS)%nat -> 0 <= next !!! k /\ next !!! k + occ k len < 2 ^ 16) as Hn'.
    { intros k Hk. destruct (Hn k Hk) as [H0 H1]. unfold occ in H1. cbn [lsum] in H1. fold (occ k len) in H1.
      destruct (decide _); lia. }
    destruct x as [|x]; cbn [number]; rewrite lookup_S.
    + rewrite (IH next s l) by done. do 2 f_equal. unfold occ. cbn [take lsum]. rewrite decide_False by lia. lia.
    + set (nx := <[S x := u16 (next !!! S x + 1)]> next).
      destruct (Hn (S x) ltac:(lia)) as [H0 H1]. unfold occ in H1. cbn [lsum] in H1. fold (occ (S x) len) in H1.
      rewrite decide_True in H1 by done. pose proof (occ_nonneg (S x) len).
      assert (u16 (next !!! S x + 1) = next !!! S x + 1) as Hu by (apply mod_is_u; split; lia).
      rewrite (IH nx s l).
      * do 2 f_equal. unfold occ. cbn [take lsum]. unfold nx. destruct (decide (S x = l)) as [<-|].
        -- rewrite list_lookup_total_insert_eq by lia. rewrite Hu. lia.
        -- rewrite list_lookup_total_insert_ne by done. lia.
      * intros k Hk. unfold nx. destruct (decide (k = S x)) as [->|].
        -- rewrite list_lookup_total_insert_eq by lia. lia.
        -- rewrite list_lookup_total_insert_ne by done. by apply Hn'.
      * unfold nx. by rewrite length_insert.
      * done.
      * done.
      * done.
Qed.

Lemma codes_spec len s l :
  lens_ok len -> len !! s = Some l -> (1 <= l)%nat -> codes len !! s = Some (rcode l (code_of len s)).
Proof.
  intros Hok Hs Hl. assert (l <= MAX_BITS)%nat as Hm.
  { destruct Hok as [Hf _]. by apply (Forall_lookup_1 _ _ _ _ Hf) in Hs. }
  unfold codes. rewrite (number_spec len (next_codes len) s l).
  - rewrite next_codes_spec by (done || lia). unfold code_of. rewrite (list_lookup_total_correct _ _ _ Hs). done.
  - intros k Hk. rewrite next_codes_spec by done. pose proof (first_code_nonneg len k).
    pose proof (first_code_fits len k Hok Hk).
    assert (2 ^ Z.of_nat k <= 2 ^ 12) by (apply Z.pow_le_mono_r; unfold MAX_BITS in *; lia).
    change (2 ^ 12) with 4096 in *. lia.
  - unfold next_codes. rewrite length_cons, length_app, length_first_codes. cbn [length]. lia.
  - apply Hok.
  - done.
  - done.
Qed.

(** The interval of a symbol, and that it does not meet another's. *)
Lemma code_interval len s l :
  lens_ok len -> len !! s = Some l -> (1 <= l)%nat ->
  0 <= code_of len s < 2 ^ Z.of_nat l /\
  below len l <= code_of len s * 2 ^ Z.of_nat (MAX_BITS - l) /\
  (code_of len s + 1) * 2 ^ Z.of_nat (MAX_BITS - l) <= below len (S l).
Proof.
  intros Hok Hs Hl. assert (l <= MAX_BITS)%nat as Hm.
  { destruct Hok as [Hf _]. by apply (Forall_lookup_1 _ _ _ _ Hf) in Hs. }
  unfold code_of. rewrite (list_lookup_total_correct _ _ _ Hs).
  pose proof (first_code_fits len l Hok ltac:(lia)). pose proof (first_code_nonneg len l).
  pose proof (occ_take l len s). pose proof (occ_take_lt l len s Hs).
  split; [lia|]. rewrite below_S by lia. rewrite <- (first_code_below len l) by lia.
  assert (0 < 2 ^ Z.of_nat (MAX_BITS - l)) by (apply Z.pow_pos_nonneg; lia). nia.
Qed.

Lemma occ_take_mono l len s s' :
  (s < s')%nat -> len !! s = Some l -> len !! s' = Some l -> occ l (take s len) + 1 <= occ l (take s' len).
Proof.
  intros Hss Hs Hs'. assert (take s' len !! s = Some l) as Ht by (by rewrite lookup_take_lt).
  pose proof (occ_take_lt l (take s' len) s Ht) as H. rewrite take_take, Nat.min_l in H by lia. lia.
Qed.

Lemma code_unique len s s' l l' w :
  lens_ok len -> len !! s = Some l -> len !! s' = Some l' -> (1 <= l)%nat -> (1 <= l')%nat ->
  w / 2 ^ Z.of_nat (MAX_BITS - l) = code_of len s -> w / 2 ^ Z.of_nat (MAX_BITS - l') = code_of len s' -> s = s'.
Proof.
  intros Hok Hs Hs' Hl Hl' Hw Hw'.
  destruct (code_interval len s l Hok Hs Hl) as (_ & I1 & I2).
  destruct (code_interval len s' l' Hok Hs' Hl') as (_ & J1 & J2).
  assert (0 < 2 ^ Z.of_nat (MAX_BITS - l)) as P1 by (apply Z.pow_pos_nonneg; lia).
  assert (0 < 2 ^ Z.of_nat (MAX_BITS - l')) as P2 by (apply Z.pow_pos_nonneg; lia).
  pose proof (Z.mul_div_le w _ P1). pose proof (Z.mul_succ_div_gt w _ P1).
  pose proof (Z.mul_div_le w _ P2). pose proof (Z.mul_succ_div_gt w _ P2). rewrite Hw, Hw' in *.
  destruct (lt_eq_lt_dec l l') as [[Hll| ->]|Hll].
  - pose proof (below_mono len (S l) l' Hll). lia.
  - rewrite Hw in Hw'. unfold code_of in Hw'.
    rewrite (list_lookup_total_correct _ _ _ Hs), (list_lookup_total_correct _ _ _ Hs') in Hw'.
    destruct (lt_eq_lt_dec s s') as [[Hlt|]|Hlt]; [|done|].
    + pose proof (occ_take_mono l' len s s' Hlt Hs Hs'). lia.
    + pose proof (occ_take_mono l' len s' s Hlt Hs' Hs). lia.
  - pose proof (below_mono len (S l') l Hll). lia.
Qed.

(** ** Reversed codes *)

Lemma testbit_rcode l c k :
  (l <= 16)%nat -> 0 <= k < Z.of_nat l -> Z.testbit (rcode l c) k = Z.testbit c (Z.of_nat l - 1 - k).
Proof.
  intros Hl Hk. unfold rcode. rewrite Z.shiftr_spec, testbit_reverse_bits by lia. f_equal. lia.
Qed.

Lemma rcode_bound l c : (l <= 16)%nat -> is_u (Z.of_nat l) (rcode l c).
Proof.
  intros Hl. unfold rcode. replace (Z.of_nat l) with (16 - (16 - Z.of_nat l)) at 1 by lia.
  apply is_u_shiftr_exact; [lia|]. apply (reverse_bits_bound 16).
Qed.

(** A 12-bit word that starts with a code is in the interval of the code. *)
Lemma rcode_word l c x :
  (1 <= l <= MAX_BITS)%nat -> 0 <= c < 2 ^ Z.of_nat l -> x mod 2 ^ Z.of_nat l = rcode l c ->
  reverse_bits MAX_BITS x / 2 ^ Z.of_nat (MAX_BITS - l) = c.
Proof.
  intros Hl Hc Hx. rewrite <- Z.shiftr_div_pow2 by lia. apply Z.bits_inj'. intros k Hk.
  rewrite Z.shiftr_spec by lia. destruct (Z.ltb_spec k (Z.of_nat l)) as [Hkl|Hkl].
  - rewrite testbit_reverse_bits by lia.
    replace (Z.of_nat MAX_BITS - 1 - (k + Z.of_nat (MAX_BITS - l))) with (Z.of_nat l - 1 - k) by lia.
    rewrite <- (Z.mod_pow2_bits_low x (Z.of_nat l)) by lia. rewrite Hx, testbit_rcode by (unfold MAX_BITS in *; lia).
    f_equal. lia.
  - rewrite (testbit_high (Z.of_nat MAX_BITS)); [|apply reverse_bits_bound|lia].
    symmetry. apply (testbit_high (Z.of_nat l)); [exact Hc|lia].
Qed.

(** ** The table *)

Lemma fill_spec l e : forall fuel i out j,
  length out = TABLE -> (j < TABLE)%nat -> (TABLE < i + fuel * 2 ^ l)%nat ->
  length (fill fuel i l e out) = TABLE /\
  fill fuel i l e out !!! j = if decide (i <= j /\ (j - i) mod 2 ^ l = 0)%nat then e else out !!! j.
Proof.
  induction fuel as [|fuel IH]; intros i out j Ho Hj Hf; cbn [fill]; [split; [done|]; rewrite decide_False by lia; done|].
  assert (0 < 2 ^ l)%nat as Hp by (apply Nat.neq_0_lt_0, Nat.pow_nonzero; lia).
  destruct (Nat.ltb_spec i TABLE) as [Hi|Hi].
  - destruct (IH (i + 2 ^ l)%nat (<[i := e]> out) j) as [L V]; [by rewrite length_insert|done|lia|].
    split; [done|]. rewrite V. destruct (decide (j = i)) as [->|Hne].
    + rewrite (decide_True (P := (i <= i /\ _)%nat)) by (rewrite Nat.sub_diag; split; [lia|by apply Nat.Div0.mod_0_l]).
      destruct (decide _); [done|]. apply list_lookup_total_insert_eq. lia.
    + rewrite list_lookup_total_insert_ne by done.
      destruct (decide (i <= j /\ (j - i) mod 2 ^ l = 0)%nat) as [[H1 H2]|Hno].
      * apply Nat.Lcm0.mod_divide in H2 as [q Hq]. destruct q as [|q]; [lia|].
        rewrite decide_True; [done|]. split; [lia|]. replace (j - (i + 2 ^ l))%nat with (q * 2 ^ l)%nat by lia.
        by apply Nat.Div0.mod_mul.
      * rewrite decide_False; [done|]. intros [H1 H2]. apply Hno. split; [lia|].
        replace (j - i)%nat with (j - (i + 2 ^ l) + 1 * 2 ^ l)%nat by lia. by rewrite Nat.Div0.mod_add.
  - split; [done|]. rewrite decide_False by lia. done.
Qed.

(** Entry [i] belongs to a symbol of length [l] and reversed code [c]. *)
Definition starts (i l : nat) (c : Z) : Prop := Z.of_nat i mod 2 ^ Z.of_nat l = c.

Lemma starts_fill i l c :
  is_u (Z.of_nat l) c -> starts i l c <-> (Z.to_nat c <= i /\ (i - Z.to_nat c) mod 2 ^ l = 0)%nat.
Proof.
  intros [H0 H1]. unfold starts. rewrite Nat.Lcm0.mod_divide.
  replace (2 ^ Z.of_nat l) with (Z.of_nat (2 ^ l)) in * by (by rewrite Nat2Z.inj_pow).
  set (p := (2 ^ l)%nat) in *. split.
  - intros <-. pose proof (Z.div_mod (Z.of_nat i) (Z.of_nat p) ltac:(lia)) as Hd.
    pose proof (Z.div_pos (Z.of_nat i) (Z.of_nat p) ltac:(lia) ltac:(lia)).
    split; [nia|]. exists (Z.to_nat (Z.of_nat i / Z.of_nat p)). apply Nat2Z.inj.
    rewrite Nat2Z.inj_mul, Z2Nat.id, Nat2Z.inj_sub, Z2Nat.id by nia. nia.
  - intros [Hle [q Hq]]. replace (Z.of_nat i) with (c + Z.of_nat q * Z.of_nat p) by nia.
    rewrite Z.mod_add by lia. apply Z.mod_small. lia.
Qed.

(** Where one symbol owns the entry, the table holds it. *)
Lemma fill_all_spec i : (i < TABLE)%nat -> forall lc s out,
  length out = TABLE ->
  Forall (fun p => (1 <= p.1)%nat -> is_u (Z.of_nat p.1) p.2) lc ->
  (forall k l c, lc !! k = Some (l, c) -> (1 <= l)%nat -> starts i l c ->
     (forall k' l' c', lc !! k' = Some (l', c') -> (1 <= l')%nat -> starts i l' c' -> k' = k) ->
     fill_all s lc out !!! i = Z.lor (u16 (Z.shiftl (u16 (Z.of_nat (s + k))) 4)) (Z.of_nat l)) /\
  ((forall k l c, lc !! k = Some (l, c) -> (1 <= l)%nat -> ~ starts i l c) -> fill_all s lc out !!! i = out !!! i).
Proof.
  intros Hi. induction lc as [|[l c] lc IH]; intros s out Ho Hf; [split; done|].
  apply Forall_cons in Hf as [Hc Hf]. cbn [fst snd] in Hc.
  destruct l as [|l].
  - destruct (IH (S s) out Ho Hf) as [A B]. cbn [fill_all]. split.
    + intros [|k] l' c' Hk Hl' Hs Hu; [cbn in Hk; injection Hk as <- <-; lia|].
      rewrite (A k l' c' Hk Hl' Hs). { do 4 f_equal. lia. }
      intros k' l2 c2 Hk' Hl2 Hs2. specialize (Hu (S k') l2 c2 Hk' Hl2 Hs2). lia.
    + intros Hno. apply B. intros k l' c' Hk. by apply (Hno (S k)).
  - specialize (Hc ltac:(lia)). cbn [fill_all]. set (e := Z.lor _ _).
    destruct (fill_spec (S l) e TABLE (Z.to_nat c) out i Ho Hi) as [L V].
    { pose proof (Nat.pow_le_mono_r 2 1 (S l) ltac:(lia) ltac:(lia)) as H2. rewrite Nat.pow_1_r in H2.
      assert (0 < TABLE)%nat by (apply Nat.neq_0_lt_0, Nat.pow_nonzero; lia). nia. }
    destruct (IH (S s) (fill TABLE (Z.to_nat c) (S l) e out) L Hf) as [A B]. split.
    + intros [|k] l' c' Hk Hl' Hs Hu.
      * cbn in Hk. injection Hk as <- <-. rewrite B.
        -- rewrite V, decide_True by by apply starts_fill. unfold e. do 4 f_equal. lia.
        -- intros k' l2 c2 Hk' Hl2 Hs2. specialize (Hu (S k') l2 c2 Hk' Hl2 Hs2). lia.
      * rewrite (A k l' c' Hk Hl' Hs). { do 4 f_equal. lia. }
        intros k' l2 c2 Hk' Hl2 Hs2. specialize (Hu (S k') l2 c2 Hk' Hl2 Hs2). lia.
    + intros Hno. rewrite B by (intros k l' c' Hk; by apply (Hno (S k))). rewrite V.
      rewrite decide_False; [done|]. rewrite <- starts_fill by done. apply (Hno O); [done|lia].
Qed.

Lemma table_used_space len :
  Forall (fun l => l <= MAX_BITS)%nat len -> Z.of_nat (table_used len) = lsum (space MAX_BITS) len.
Proof.
  unfold table_used. induction 1 as [|l len Hl Hlen IH]; cbn [sum_list_with lsum]; [done|].
  rewrite Nat2Z.inj_add, IH. f_equal. destruct l as [|l]; [done|]. unfold space, TABLE.
  rewrite Nat2Z.inj_div, !Nat2Z.inj_pow. rewrite <- Z.pow_sub_r by lia. f_equal. lia.
Qed.

Lemma table_accepts len :
  is_ok (table len) = true <-> lens_ok len.
Proof.
  unfold table, lens_ok. destruct (existsb _ len) eqn:He.
  - split; [done|]. intros [Hf _]. exfalso. apply existsb_exists in He as (l & Hl & Hlt).
    apply Nat.ltb_lt in Hlt. rewrite Forall_forall in Hf. specialize (Hf l (proj2 (list_elem_of_In _ _) Hl)). cbn in Hf. lia.
  - assert (Forall (fun l => l <= MAX_BITS)%nat len) as Hf.
    { apply Forall_forall. intros l Hl. destruct (decide (l <= MAX_BITS)%nat) as [|Hn]; [done|]. exfalso.
      assert (existsb (fun l => MAX_BITS <? l)%nat len = true); [|congruence].
      apply existsb_exists. exists l. split; [by apply list_elem_of_In|]. apply Nat.ltb_lt. lia. }
    assert (Z.of_nat TABLE = 2 ^ Z.of_nat MAX_BITS) as HT by (unfold TABLE; by rewrite Nat2Z.inj_pow).
    pose proof (table_used_space len Hf) as Hu.
    destruct (Nat.ltb_spec TABLE (table_used len)) as [Hlt|Hle]; cbn [is_ok]; split; try done; intros; [lia|].
    split; [done|]. lia.
Qed.

Lemma table_entry s l : (s < 4096)%nat -> (l <= MAX_BITS)%nat ->
  Z.lor (u16 (Z.shiftl (u16 (Z.of_nat s)) 4)) (Z.of_nat l) = Z.of_nat s * 16 + Z.of_nat l.
Proof.
  intros Hs Hl. assert (u16 (Z.of_nat s) = Z.of_nat s) as -> by (apply mod_is_u; split; lia).
  assert (u16 (Z.shiftl (Z.of_nat s) 4) = Z.shiftl (Z.of_nat s) 4) as ->.
  { apply mod_is_u. rewrite Z.shiftl_mul_pow2 by lia. split; lia. }
  rewrite lor_shiftl_add; [done|lia|]. unfold MAX_BITS in Hl. split; lia.
Qed.

Lemma land_table x : 0 <= x -> Z.land x (Z.of_nat TABLE - 1) = x mod 2 ^ 12.
Proof.
  intros Hx. unfold TABLE. rewrite Nat2Z.inj_pow. change (Z.of_nat 2 ^ Z.of_nat MAX_BITS) with (2 ^ 12).
  apply land_ones_mod. lia.
Qed.

(** The table of accepted lengths decodes every code, whatever follows it. *)
Lemma table_lookup len t s l x :
  table len = Ok t -> (length len <= 4096)%nat -> len !! s = Some l -> (1 <= l)%nat -> 0 <= x ->
  x mod 2 ^ Z.of_nat l = codes len !!! s ->
  t !!! Z.to_nat (Z.land x (Z.of_nat TABLE - 1)) = Z.of_nat s * 16 + Z.of_nat l.
Proof.
  intros Ht Hlen Hs Hl Hx Hc. assert (lens_ok len) as Hok by (apply table_accepts; by rewrite Ht).
  unfold table in Ht. destruct (existsb _ _); [discriminate|]. destruct (_ <? _)%nat; [discriminate|].
  apply ok_inj in Ht. subst t. rewrite land_table by done. set (i := Z.to_nat (x mod 2 ^ 12)).
  pose proof (Z.mod_pos_bound x (2 ^ 12) ltac:(lia)) as Hb.
  assert (Z.of_nat TABLE = 2 ^ 12) as HT by (unfold TABLE; by rewrite Nat2Z.inj_pow).
  assert (i < TABLE)%nat as Hi by lia.
  assert (forall k lk, len !! k = Some lk -> (1 <= lk)%nat -> zip len (codes len) !! k = Some (lk, rcode lk (code_of len k))) as Hzip.
  { intros k lk Hk Hlk. apply lookup_zip_Some. split; [done|]. by apply codes_spec. }
  assert (forall l, (l <= MAX_BITS)%nat -> Z.of_nat i mod 2 ^ Z.of_nat l = x mod 2 ^ Z.of_nat l) as Hmod.
  { intros l' Hl'. unfold i. rewrite Z2Nat.id by lia. apply pow_mod_mod. unfold MAX_BITS in *. lia. }
  assert (forall k lk, len !! k = Some lk -> (lk <= MAX_BITS)%nat) as Hle.
  { intros k lk Hk. destruct Hok as [Hf _]. by apply (Forall_lookup_1 _ _ _ _ Hf) in Hk. }
  assert (forall k lk c, zip len (codes len) !! k = Some (lk, c) -> (1 <= lk)%nat -> starts i lk c ->
    len !! k = Some lk /\ reverse_bits MAX_BITS (Z.of_nat i) / 2 ^ Z.of_nat (MAX_BITS - lk) = code_of len k) as Hrev.
  { intros k lk c Hk Hlk Hst. apply lookup_zip_Some in Hk as [Hk Hck]. split; [done|].
    pose proof (codes_spec len k lk Hok Hk Hlk) as Hcs. rewrite Hck in Hcs. injection Hcs as ->.
    apply rcode_word; [specialize (Hle k lk Hk); lia| |exact Hst].
    by destruct (code_interval len k lk Hok Hk Hlk). }
  destruct (fill_all_spec i Hi (zip len (codes len)) 0 (replicate TABLE 0)) as [A _].
  - apply length_replicate.
  - apply Forall_lookup. intros k [lk c] Hk. cbn [fst snd]. apply lookup_zip_Some in Hk as [Hk Hck]. intros Hlk.
    pose proof (codes_spec len k lk Hok Hk Hlk) as Hcs. rewrite Hck in Hcs. injection Hcs as ->.
    apply rcode_bound. specialize (Hle k lk Hk). unfold MAX_BITS in *. lia.
  - assert (starts i l (rcode l (code_of len s))) as Hst.
    { unfold starts. rewrite Hmod by by apply (Hle s). rewrite Hc.
      apply list_lookup_total_correct. by apply codes_spec. }
    rewrite (A s l (rcode l (code_of len s))).
    + cbn [plus]. apply table_entry; [|by apply (Hle s)]. apply lookup_lt_Some in Hs. lia.
    + by apply Hzip.
    + done.
    + done.
    + intros k' l' c' Hk' Hl' Hst'. destruct (Hrev k' l' c' Hk' Hl' Hst') as [Hlk' Hr'].
      destruct (Hrev s l _ (Hzip s l Hs Hl) Hl Hst) as [_ Hr].
      by apply (code_unique len k' s l' l (reverse_bits MAX_BITS (Z.of_nat i))).
Qed.

(** The decoding table is built exactly for the lengths of a prefix code
    (no length over 12 bits, no more code words than there are), and then it
    decodes: 12 bits that start with the code of a symbol, whatever comes
    after, give that symbol and its length. *)
Theorem table_decodes len :
  (length len <= 4096)%nat ->
  (is_ok (table len) = true <-> lens_ok len) /\
  (forall t, table len = Ok t -> forall s l x, len !! s = Some l -> (1 <= l)%nat -> 0 <= x ->
     x mod 2 ^ Z.of_nat l = codes len !!! s ->
     t !!! Z.to_nat (Z.land x (Z.of_nat TABLE - 1)) = Z.of_nat s * 16 + Z.of_nat l).
Proof.
  intros Hlen. split; [apply table_accepts|]. intros t Ht s l x Hs Hl Hx Hc. by apply (table_lookup len t s l x).
Qed.

(** Four symbols: 0, 10, 110 and 111. *)
Definition four_symbols : list nat := [1; 2; 3; 3]%nat.

Lemma table_decodes_witness :
  match table four_symbols with
  | Ok t => t !!! Z.to_nat (Z.land 0xfd (Z.of_nat TABLE - 1)) = 1 * 16 + 2
  | Err _ => False
  end.
Proof.
  destruct (table_decodes four_symbols) as [Ha Hd]; [cbn; lia|].
  assert (is_ok (table four_symbols) = true) as Ho.
  { apply Ha. split; [apply (bool_decide_unpack _); vm_compute; exact I|vm_compute; discriminate]. }
  clear Ha. destruct (table four_symbols) as [t|e]; [|discriminate Ho].
  apply (Hd t eq_refl 1%nat 2%nat 0xfd); [reflexivity|lia|lia|reflexivity].
Defined.

(** * The bit streams (theorems about lzh.BitWriter and lzh.BitReader)

    A stream of bits is the number whose binary digits they are. Writing
    appends fields to it; the reader's accumulator holds its next digits,
    whichever way it was refilled, and nothing that is not in the stream. *)

(** ** Fields *)

(** The fields of a stream, first one in the low digits. *)
Fixpoint pack (fs : list (Z * nat)) : Z :=
  match fs with
  | [] => 0
  | (v, k) :: fs => v + 2 ^ Z.of_nat k * pack fs
  end.

Definition width (fs : list (Z * nat)) : nat := sum_list_with snd fs.

Definition field_ok (f : Z * nat) : Prop := is_u (Z.of_nat f.2) f.1.

Lemma pow2_pos k : 0 < 2 ^ Z.of_nat k.
Proof. apply Z.pow_pos_nonneg; lia. Qed.

Lemma width_app a b : width (a ++ b) = (width a + width b)%nat.
Proof. apply sum_list_with_app. Qed.

Lemma pack_app a b : pack (a ++ b) = pack a + 2 ^ Z.of_nat (width a) * pack b.
Proof.
  induction a as [|[v k] a IH]; cbn [pack app]; [cbn; lia|].
  rewrite IH. change (width ((v, k) :: a)) with (k + width a)%nat. rewrite Nat2Z.inj_add, Z.pow_add_r by lia. lia.
Qed.

Lemma pack_bound fs : Forall field_ok fs -> is_u (Z.of_nat (width fs)) (pack fs).
Proof.
  induction 1 as [|[v k] fs [H0 H1] Hfs [I0 I1]]; [by split|]. cbn [fst snd] in *.
  change (width ((v, k) :: fs)) with (k + width fs)%nat. cbn [pack].
  rewrite Nat2Z.inj_add. unfold is_u. rewrite Z.pow_add_r by lia. pose proof (pow2_pos k). nia.
Qed.

(** The first field of a stream. *)
Lemma pack_head v k fs :
  is_u (Z.of_nat k) v ->
  pack ((v, k) :: fs) mod 2 ^ Z.of_nat k = v /\ Z.shiftr (pack ((v, k) :: fs)) (Z.of_nat k) = pack fs.
Proof.
  intros Hv. pose proof (pow2_pos k). cbn [pack]. rewrite (Z.mul_comm (2 ^ _)). split.
  - rewrite Z.mod_add by lia. by apply Z.mod_small.
  - rewrite Z.shiftr_div_pow2, Z.div_add, Z.div_small by (lia || done). lia.
Qed.

(** ** Writing *)

Lemma from_le_app a b : from_le (a ++ b) = from_le a + 2 ^ (8 * Z.of_nat (length a)) * from_le b.
Proof.
  induction a as [|x a IH]; cbn [from_le app length]; [cbn; lia|]. rewrite IH.
  rewrite Nat2Z.inj_succ. replace (8 * Z.succ (Z.of_nat (length a))) with (8 + 8 * Z.of_nat (length a)) by lia.
  rewrite (Z.pow_add_r 2 8) by lia. lia.
Qed.

(** [w] has written [fs] after the bytes [pre], [m] bits at most pending. *)
Definition written (pre : list Z) (fs : list (Z * nat)) (m : nat) (w : BitWriter) : Prop :=
  exists o, bw_out w = pre ++ o /\ bytes_ok o /\ is_u (Z.of_nat (bw_n w)) (bw_acc w) /\
    pack fs = from_le o + 2 ^ (8 * Z.of_nat (length o)) * bw_acc w /\
    width fs = (8 * length o + bw_n w)%nat /\ (bw_n w < m)%nat.

Lemma bw_flush_written pre fs : forall fuel w,
  written pre fs (8 * fuel + 8) w -> written pre fs 8 (bw_flush fuel w).
Proof.
  induction fuel as [|fuel IH]; intros w Hw; [exact Hw|]. cbn [bw_flush].
  destruct Hw as (o & Ho & Hb & Ha & Hp & Hwd & Hn).
  destruct (Nat.leb_spec 8 (bw_n w)) as [H8|H8]; [|by exists o; repeat (split; [done|])].
  apply IH. exists (o ++ [u8 (bw_acc w)]). cbn [bw_out bw_acc bw_n]. split; [by rewrite Ho, app_assoc|].
  split; [by apply Forall_app; split; [|apply Forall_singleton, is_u_u8]|].
  split. { rewrite Nat2Z.inj_sub by lia. apply is_u_shiftr_exact; [lia|done]. }
  split; [|rewrite length_app; cbn [length]; lia].
  rewrite Hp, from_le_app, length_app. cbn [from_le length]. unfold u8.
  rewrite Z.shiftr_div_pow2 by lia.
  replace (8 * Z.of_nat (length o + 1)) with (8 * Z.of_nat (length o) + 8) by lia.
  rewrite Z.pow_add_r by lia. rewrite (Z.div_mod (bw_acc w) (2 ^ 8)) at 1 by lia. lia.
Qed.

Lemma bw_put_written pre fs v k w :
  written pre fs 8 w -> is_u (Z.of_nat k) v -> (k <= 56)%nat ->
  written pre (fs ++ [(v, k)]) 8 (bw_put v k w).
Proof.
  intros (o & Ho & Hb & Ha & Hp & Hwd & Hn) Hv Hk. unfold bw_put. apply bw_flush_written.
  exists o. cbn [bw_out bw_acc bw_n].
  assert (u64 (Z.shiftl v (Z.of_nat (bw_n w))) = Z.shiftl v (Z.of_nat (bw_n w))) as ->.
  { apply u64_id. eapply is_u_weaken; [apply (is_u_shiftl (Z.of_nat k)); [lia|lia|exact Hv]|lia]. }
  rewrite Z.lor_comm, lor_shiftl_add by (lia || done).
  split; [done|]. split; [done|]. split.
  - destruct Ha as [A0 A1], Hv as [V0 V1]. unfold is_u. rewrite Nat2Z.inj_add, Z.pow_add_r by lia. nia.
  - rewrite pack_app, width_app. cbn [pack]. change (width [(v, k)]) with (k + 0)%nat.
    split; [|lia]. rewrite Hp, Hwd, Z.mul_0_r, Z.add_0_r, Nat2Z.inj_add, Z.pow_add_r by lia.
    rewrite Nat2Z.inj_mul. change (Z.of_nat 8) with 8. lia.
Qed.

Lemma bw_finish_written pre fs w :
  written pre fs 8 w ->
  exists o, bw_finish w = pre ++ o /\ bytes_ok o /\ from_le o = pack fs /\ (width fs <= 8 * length o)%nat.
Proof.
  intros (o & Ho & Hb & Ha & Hp & Hwd & Hn). unfold bw_finish. destruct (Nat.ltb_spec 0 (bw_n w)) as [Hpos|Hz].
  - assert (is_u 8 (bw_acc w)) as Ha8 by (eapply is_u_weaken; [exact Ha|lia]).
    exists (o ++ [u8 (bw_acc w)]). split; [by rewrite Ho, app_assoc|].
    split; [by apply Forall_app; split; [|apply Forall_singleton, is_u_u8]|].
    rewrite from_le_app, length_app. cbn [from_le length]. unfold u8. rewrite mod_is_u by done. split; lia.
  - exists o. replace (bw_n w) with O in * by lia. destruct Ha as [A0 A1]. change (2 ^ Z.of_nat 0) with 1 in A1.
    split; [done|]. split; [done|]. split; [|lia]. rewrite Hp. replace (bw_acc w) with 0 by lia. lia.
Qed.

(** ** Reading *)

(** [r] is at bit [c] of [src]. *)
Record at_bit (src : list Z) (c : nat) (r : BitReader) : Prop := {
  ab_src : br_src r = src;
  ab_pos : (c + br_n r = 8 * br_pos r)%nat;
  ab_n : (br_n r <= 64)%nat;
  ab_acc : is_u 64 (br_acc r);
  ab_low : forall k, 0 <= k < Z.of_nat (br_n r) -> Z.testbit (br_acc r) k = Z.testbit (from_le src) (Z.of_nat c + k);
  ab_high : forall k, Z.of_nat (br_n r) <= k -> Z.testbit (br_acc r) k = true ->
              Z.testbit (from_le src) (Z.of_nat c + k) = true;
}.

Lemma at_bit_0 src : at_bit src 0 (MkBitReader src 0 0 0).
Proof.
  split; cbn [br_src br_n br_pos br_acc]; try done; try lia.
  intros k _. by rewrite Z.testbit_0_l.
Qed.

Lemma from_le_nonneg l : bytes_ok l -> 0 <= from_le l.
Proof. intros Hl. apply (from_le_bound l Hl). Qed.

Lemma testbit_from_le_drop l p k :
  bytes_ok l -> 0 <= k -> Z.testbit (from_le (drop p l)) k = Z.testbit (from_le l) (8 * Z.of_nat p + k).
Proof.
  intros Hl Hk. destruct (decide (p <= length l)%nat) as [Hp|Hp].
  - assert (length (take p l) = p) as Ht by (rewrite length_take; lia).
    rewrite <- (take_drop p l) at 2. rewrite from_le_app, Ht.
    rewrite (Z.add_comm (8 * Z.of_nat p)), <- Z.shiftr_spec by lia. f_equal.
    rewrite Z.shiftr_div_pow2, Z.mul_comm, Z.div_add by lia. rewrite Z.div_small; [lia|].
    pose proof (from_le_bound (take p l) ltac:(by apply Forall_take)) as Hbd. by rewrite Ht in Hbd.
  - rewrite drop_ge by lia. cbn. rewrite Z.testbit_0_l. symmetry.
    eapply testbit_high; [by apply from_le_bound|lia].
Qed.

Lemma testbit_from_le_take l n k :
  bytes_ok l -> 0 <= k < 8 * Z.of_nat n -> Z.testbit (from_le (take n l)) k = Z.testbit (from_le l) k.
Proof.
  intros Hl Hk. destruct (decide (n <= length l)%nat) as [Hn|Hn]; [|by rewrite take_ge by lia].
  assert (length (take n l) = n) as Ht by (rewrite length_take; lia).
  rewrite <- (take_drop n l) at 2. rewrite from_le_app, Ht.
  rewrite <- (Z.mod_pow2_bits_low (from_le (take n l) + _) (8 * Z.of_nat n)) by lia.
  rewrite Z.mul_comm, Z.mod_add by lia. rewrite mod_is_u; [done|].
  pose proof (from_le_bound (take n l) ltac:(by apply Forall_take)) as Hbd. by rewrite Ht in Hbd.
Qed.

(** Bits of the stream joined above the [n] the accumulator has. *)
Lemma join_bits src c n acc v w :
  is_u 64 acc -> 0 <= v -> (n <= 64)%nat ->
  (forall k, 0 <= k < Z.of_nat n -> Z.testbit acc k = Z.testbit (from_le src) (Z.of_nat c + k)) ->
  (forall k, Z.of_nat n <= k -> Z.testbit acc k = true -> Z.testbit (from_le src) (Z.of_nat c + k) = true) ->
  (forall k, 0 <= k < w -> Z.testbit v k = Z.testbit (from_le src) (Z.of_nat (c + n) + k)) ->
  (forall k, w <= k -> Z.testbit v k = false) -> 0 <= w ->
  let acc' := Z.lor acc (u64 (Z.shiftl v (Z.of_nat n))) in
  is_u 64 acc' /\
  (forall k, 0 <= k < Z.of_nat n + w -> k < 64 -> Z.testbit acc' k = Z.testbit (from_le src) (Z.of_nat c + k)) /\
  (forall k, 0 <= k -> Z.testbit acc' k = true -> Z.testbit (from_le src) (Z.of_nat c + k) = true).
Proof.
  intros Ha Hv Hn Hlow Hhigh Hvl Hvh Hw. cbv zeta. split; [apply is_u_lor; [lia|done|apply is_u_u64]|].
  assert (forall k, 0 <= k -> k < 64 -> Z.testbit (u64 (Z.shiftl v (Z.of_nat n))) k
    = if k <? Z.of_nat n then false else Z.testbit v (k - Z.of_nat n)) as Hs.
  { intros k H0 H1. unfold u64. rewrite Z.mod_pow2_bits_low by lia. rewrite Z.shiftl_spec by lia.
    destruct (Z.ltb_spec k (Z.of_nat n)); [by apply Z.testbit_neg_r; lia|done]. }
  split.
  - intros k [H0 H1] H64. rewrite Z.lor_spec, Hs by done. destruct (Z.ltb_spec k (Z.of_nat n)).
    + rewrite orb_false_r. apply Hlow. lia.
    + rewrite (Hvl (k - Z.of_nat n)) by lia.
      replace (Z.of_nat (c + n) + (k - Z.of_nat n)) with (Z.of_nat c + k) by lia.
      destruct (Z.testbit acc k) eqn:E; cbn [orb]; [|done]. symmetry. apply Hhigh; [lia|done].
  - intros k H0 E. destruct (Z.ltb_spec k 64) as [H64|H64].
    + rewrite Z.lor_spec, Hs in E by done. destruct (Z.ltb_spec k (Z.of_nat n)).
      * rewrite orb_false_r in E. rewrite <- Hlow by lia. done.
      * apply orb_prop in E as [E|E]; [apply Hhigh; [lia|done]|].
        destruct (Z.ltb_spec (k - Z.of_nat n) w); [|rewrite Hvh in E by lia; discriminate].
        rewrite Hvl in E by lia. rewrite <- E. f_equal. lia.
    + rewrite (testbit_high 64) in E; [discriminate|apply is_u_lor; [lia|done|apply is_u_u64]|done].
Qed.

(** The byte at [p], zero past the end. *)
Lemma byte_bits src p k :
  bytes_ok src -> 0 <= k ->
  Z.testbit (default 0 (src !! p)) k = if k <? 8 then Z.testbit (from_le src) (8 * Z.of_nat p + k) else false.
Proof.
  intros Hb Hk. assert (is_u 8 (default 0 (src !! p))) as H8.
  { destruct (src !! p) as [b|] eqn:E; [by apply (Forall_lookup_1 _ _ _ _ Hb E)|done]. }
  destruct (Z.ltb_spec k 8); [|by apply (testbit_high 8)].
  rewrite <- testbit_from_le_drop by done. destruct (src !! p) as [b|] eqn:E.
  - rewrite (drop_S _ _ _ E). cbn [from_le default].
    rewrite <- (Z.mod_pow2_bits_low (b + _) 8) by lia. rewrite Z.mul_comm, Z.mod_add by lia.
    by rewrite mod_is_u.
  - apply lookup_ge_None in E. rewrite drop_ge by done. done.
Qed.

Lemma refill_slow_at src c : bytes_ok src -> forall fuel r,
  at_bit src c r -> at_bit src c (refill_slow fuel r) /\
  (64 < br_n r + 8 * fuel + 8 -> 56 < br_n (refill_slow fuel r))%nat.
Proof.
  intros Hb. induction fuel as [|fuel IH]; intros r Hr; cbn [refill_slow]; [split; [done|lia]|].
  destruct (Nat.leb_spec (br_n r) 56) as [H56|H56]; [|split; [done|lia]].
  destruct Hr as [Hs Hp Hn Ha Hl Hh]. rewrite Hs.
  destruct (join_bits src c (br_n r) (br_acc r) (default 0 (src !! br_pos r)) 8) as (A & L & H); try done; try lia.
  - destruct (src !! br_pos r) as [b|] eqn:E; [by apply (Forall_lookup_1 _ _ _ _ Hb E)|done].
  - intros k Hk. rewrite byte_bits by (done || lia). destruct (Z.ltb_spec k 8); [|lia]. f_equal. lia.
  - intros k Hk. rewrite byte_bits by (done || lia). destruct (Z.ltb_spec k 8); [lia|done].
  - destruct (IH (r <| br_acc ::= fun a => Z.lor a (u64 (Z.shiftl (default 0 (src !! br_pos r)) (Z.of_nat (br_n r)))) |>
                    <| br_pos ::= S |> <| br_n ::= fun n => (n + 8)%nat |>)) as [I1 I2].
    + unfold update. split; cbn [br_src br_n br_pos br_acc]; try done; try lia.
      * intros k Hk. apply L; lia.
      * intros k Hk. apply H. lia.
    + split; [exact I1|]. unfold update in I2 at 1 2 3. cbn [br_n] in I2. intros. apply I2. lia.
Qed.

Lemma lor_56 n : (n <= 63)%nat -> Nat.lor n 56 = (n + 8 * ((63 - n) / 8))%nat.
Proof.
  intros Hn. assert (forallb (fun n => Nat.lor n 56 =? n + 8 * ((63 - n) / 8))%nat (seq 0 64) = true) as H
    by (vm_compute; reflexivity).
  rewrite forallb_forall in H. apply Nat.eqb_eq, H, in_seq. lia.
Qed.

(** After a refill there are 56 bits at least, of the stream or past its end. *)
Lemma refill_at src c r :
  bytes_ok src -> at_bit src c r -> (br_n r <= 63)%nat ->
  at_bit src c (refill r) /\ (56 <= br_n (refill r))%nat.
Proof.
  intros Hb Hr H63. unfold refill. pose proof Hr as [Hs Hp Hn Ha Hl Hh]. rewrite Hs.
  destruct (Nat.leb_spec (br_pos r + 8) (length src)) as [Hf|Hf].
  - destruct (join_bits src c (br_n r) (br_acc r) (from_le (take 8 (drop (br_pos r) src))) 64) as (A & L & H);
      try done; try lia.
    + apply from_le_nonneg. by apply Forall_take, Forall_drop.
    + intros k Hk. rewrite testbit_from_le_take by (by apply Forall_drop || lia).
      rewrite testbit_from_le_drop by (done || lia). f_equal. lia.
    + intros k Hk. eapply testbit_high; [apply from_le_bound; by apply Forall_take, Forall_drop|].
      rewrite length_take, length_drop. lia.
    + pose proof (lor_56 (br_n r) H63) as H56.
      assert (56 <= br_n r + 8 * ((63 - br_n r) / 8) <= 63)%nat as Hr56.
      { pose proof (Nat.div_mod (63 - br_n r) 8 ltac:(lia)).
        pose proof (Nat.mod_upper_bound (63 - br_n r) 8 ltac:(lia)). lia. }
      unfold update. cbn [br_n]. split; [|lia]. split; cbn [br_src br_n br_pos br_acc]; try done; try lia.
      * intros k Hk. apply L; lia.
      * intros k Hk. apply H. lia.
  - destruct (refill_slow_at src c Hb 8 r Hr) as [H1 H2]. split; [done|]. specialize (H2 ltac:(lia)). lia.
Qed.

(** The next [k] digits. *)
Lemma at_bit_low src c r k :
  at_bit src c r -> (k <= br_n r)%nat ->
  br_acc r mod 2 ^ Z.of_nat k = Z.shiftr (from_le src) (Z.of_nat c) mod 2 ^ Z.of_nat k.
Proof.
  intros [Hs Hp Hn Ha Hl Hh] Hk. apply Z.bits_inj'. intros i Hi.
  rewrite !Z.testbit_mod_pow2 by lia. destruct (Z.ltb_spec i (Z.of_nat k)); [|done]. cbn [andb].
  rewrite Hl, Z.shiftr_spec by lia. f_equal. lia.
Qed.

Lemma at_bit_skip src c r k :
  at_bit src c r -> (k <= br_n r)%nat ->
  at_bit src (c + k) (r <| br_acc ::= fun a => Z.shiftr a (Z.of_nat k) |> <| br_n ::= fun n => (n - k)%nat |>).
Proof.
  intros [Hs Hp Hn Ha Hl Hh] Hk. unfold update. split; cbn [br_src br_n br_pos br_acc]; try done; try lia.
  - apply is_u_shiftr; [lia|lia|done].
  - intros i Hi. rewrite Z.shiftr_spec, Hl by lia. f_equal. lia.
  - intros i Hi E. rewrite Z.shiftr_spec in E by lia. apply Hh in E; [|lia]. rewrite <- E. f_equal. lia.
Qed.

(** ** Reading fields *)

(** [r] is where the fields [fs] start, [n] bits of them in the accumulator. *)
Definition at_fields (src : list Z) (fs : list (Z * nat)) (r : BitReader) : Prop :=
  exists c, at_bit src c r /\ Z.shiftr (from_le src) (Z.of_nat c) = pack fs /\
    (c + width fs <= 8 * length src)%nat.

Lemma at_fields_refill src fs r :
  bytes_ok src -> at_fields src fs r -> (br_n r <= 63)%nat ->
  at_fields src fs (refill r) /\ (56 <= br_n (refill r))%nat.
Proof.
  intros Hb (c & Hr & Hp) Hn. destruct (refill_at src c r Hb Hr Hn) as [H1 H2]. split; [by exists c|done].
Qed.

Lemma at_fields_skip src v k fs r :
  at_fields src ((v, k) :: fs) r -> is_u (Z.of_nat k) v -> (k <= br_n r)%nat ->
  br_acc r mod 2 ^ Z.of_nat k = v /\
  at_fields src fs (r <| br_acc ::= fun a => Z.shiftr a (Z.of_nat k) |> <| br_n ::= fun n => (n - k)%nat |>).
Proof.
  intros (c & Hr & Hp & Hw) Hv Hk. destruct (pack_head v k fs Hv) as [P1 P2]. split.
  - rewrite (at_bit_low src c r k Hr Hk), Hp. exact P1.
  - exists (c + k)%nat. split; [by apply at_bit_skip|].
    split; [|change (width ((v, k) :: fs)) with (k + width fs)%nat in Hw; lia].
    rewrite Nat2Z.inj_add, <- Z.shiftr_shiftr by lia. by rewrite Hp.
Qed.

Lemma br_bits_field src v k fs r :
  at_fields src ((v, k) :: fs) r -> is_u (Z.of_nat k) v -> (k <= br_n r)%nat -> (k <= 32)%nat ->
  exists r', br_bits k r = (v, r') /\ at_fields src fs r' /\ br_n r' = (br_n r - k)%nat.
Proof.
  intros Hr Hv Hk H32. destruct (at_fields_skip src v k fs r Hr Hv Hk) as [Hm Hs].
  eexists. split; [|split; [exact Hs|done]]. unfold br_bits. f_equal.
  rewrite Z.shiftl_1_l, land_ones_mod by lia. rewrite Hm. apply u32_id.
  eapply is_u_weaken; [exact Hv|lia].
Qed.

(** A symbol is read back with the table of its code. *)
Lemma br_symbol_field src len t s l fs r :
  table len = Ok t -> (length len <= 4096)%nat -> len !! s = Some l -> (1 <= l)%nat ->
  at_fields src ((codes len !!! s, l) :: fs) r -> (MAX_BITS <= br_n r)%nat ->
  exists r', br_symbol t r = Ok (s, r') /\ at_fields src fs r' /\ br_n r' = (br_n r - l)%nat.
Proof.
  intros Ht Hlen Hs Hl Hr Hn. assert (lens_ok len) as Hok by (apply table_accepts; by rewrite Ht).
  assert (l <= MAX_BITS)%nat as Hm by (destruct Hok as [Hf _]; by apply (Forall_lookup_1 _ _ _ _ Hf) in Hs).
  assert (is_u (Z.of_nat l) (codes len !!! s)) as Hc.
  { rewrite (list_lookup_total_correct _ _ _ (codes_spec len s l Hok Hs Hl)). apply rcode_bound.
    unfold MAX_BITS in Hm. lia. }
  destruct (at_fields_skip src _ l fs r Hr Hc ltac:(lia)) as [Hmod Hskip].
  unfold br_symbol. rewrite (table_lookup len t s l (br_acc r) Ht Hlen Hs Hl) by
    (done || (destruct Hr as (c & [_ _ _ [Ha _] _ _] & _); exact Ha)).
  assert (Z.land (Z.of_nat s * 16 + Z.of_nat l) 15 = Z.of_nat l) as E1.
  { change 15 with (2 ^ 4 - 1). rewrite land_ones_mod by lia. change (2 ^ 4) with 16.
    rewrite Z.add_comm, Z.mod_add by lia. apply Z.mod_small. unfold MAX_BITS in Hm. lia. }
  assert (Z.shiftr (Z.of_nat s * 16 + Z.of_nat l) 4 = Z.of_nat s) as E2.
  { rewrite Z.shiftr_div_pow2 by lia. change (2 ^ 4) with 16. rewrite Z.add_comm, Z.div_add by lia.
    rewrite Z.div_small; [lia|]. unfold MAX_BITS in Hm. lia. }
  rewrite E1, E2, !Nat2Z.id. destruct (Z.eqb_spec (Z.of_nat l) 0); [lia|].
  eexists. split; [reflexivity|]. split; [exact Hskip|done].
Qed.

(** At the end of the fields no more bits were used than there are. *)
Lemma br_check_at src fs r : at_fields src fs r -> br_check r = Ok tt.
Proof.
  intros (c & [Hs Hp _ _ _ _] & _ & Hw). unfold br_check. rewrite Hs.
  destruct (Nat.ltb_spec (length src * 8) (br_pos r * 8 - br_n r)); [lia|done].
Qed.
