(* ===== verification/SnapMatch.v ===== *)
(** * The match finder (theorems about lzh.find and lzh.match_loop)

    Whatever a match is, it repeats earlier bytes of the frame: the hash
    chains only hold positions of this frame, inserted before the one that
    looks for a match. So the tokens expand to the frame. *)

From Stdlib Require Import ZArith Lia Bool.
From stdpp Require Import base sets list numbers strings.
From S2P Require Import Prelude SnapWire SnapLz SnapLzh SnapHuff SnapCanon.
Local Open Scope Z_scope.
Local Open Scope vetro_scope.
Import lzh.

(** [b[a..a + l]] and [b[i..i + l]] are the same. *)
Definition repeats (b : list Z) (a i l : nat) : Prop :=
  forall k, (k < l)%nat -> b !!! (a + k)%nat = b !!! (i + k)%nat.

(** ** Common prefixes *)

Lemma common_bytes_spec b a i max : forall fuel l,
  (l <= max)%nat -> repeats b a i l ->
  let m := common_bytes fuel b a i l max in (l <= m <= max)%nat /\ repeats b a i m.
Proof.
  induction fuel as [|fuel IH]; intros l Hl Hr; cbn [common_bytes]; [split; [lia|done]|].
  destruct (Nat.ltb_spec l max); cbn [andb]; [|split; [lia|done]].
  destruct (Z.eqb_spec (b !!! (a + l)%nat) (b !!! (i + l)%nat)); [|split; [lia|done]].
  destruct (IH (S l)) as [H1 H2]; [lia| |split; [lia|done]].
  intros k Hk. destruct (decide (k = l)) as [->|]; [done|]. apply Hr. lia.
Qed.

Lemma trailing_zeros_spec : forall fuel x k,
  (k < trailing_zeros fuel x)%nat -> Z.testbit x (Z.of_nat k) = false.
Proof.
  induction fuel as [|fuel IH]; intros x k Hk; cbn [trailing_zeros] in Hk; [lia|].
  destruct (Z.testbit x 0) eqn:E; [lia|]. destruct k as [|k]; [done|].
  specialize (IH (Z.shiftr x 1) k ltac:(lia)). rewrite Z.shiftr_spec in IH by lia. rewrite <- IH. f_equal. lia.
Qed.

Lemma trailing_zeros_fuel fuel x : (trailing_zeros fuel x <= fuel)%nat.
Proof.
  revert x. induction fuel as [|fuel IH]; intros x; cbn [trailing_zeros]; [lia|].
  destruct (Z.testbit x 0); [lia|]. specialize (IH (Z.shiftr x 1)). lia.
Qed.

(** Words that agree on their low bits agree on their first bytes. *)
Lemma word_prefix x y n :
  bytes_ok x -> bytes_ok y -> (n <= length x)%nat -> (n <= length y)%nat ->
  (forall k, (k < 8 * n)%nat -> Z.testbit (Z.lxor (from_le x) (from_le y)) (Z.of_nat k) = false) ->
  take n x = take n y.
Proof.
  intros Hx Hy Lx Ly H. rewrite <- (to_from_le (take n x)) by by apply Forall_take.
  rewrite <- (to_from_le (take n y)) by by apply Forall_take. rewrite !length_take_le by done. f_equal.
  pose proof (from_le_bound (take n x) ltac:(by apply Forall_take)) as Bx.
  pose proof (from_le_bound (take n y) ltac:(by apply Forall_take)) as By.
  rewrite length_take_le in Bx, By by done. apply Z.bits_inj'. intros k Hk.
  destruct (Z.ltb_spec k (8 * Z.of_nat n)) as [Hlt|Hge].
  - rewrite !testbit_from_le_take by (done || lia). specialize (H (Z.to_nat k) ltac:(lia)).
    rewrite Z2Nat.id, Z.lxor_spec in H by done. by apply xorb_eq.
  - by rewrite (testbit_high _ _ _ Bx), (testbit_high _ _ _ By).
Qed.

Lemma common_from_spec b a i max : bytes_ok b -> (a <= i)%nat -> (i + max <= length b)%nat -> forall fuel l,
  (l <= max)%nat -> repeats b a i l ->
  let m := common_from fuel b a i l max in (l <= m <= max)%nat /\ repeats b a i m.
Proof.
  intros Hb Ha Hm. induction fuel as [|fuel IH]; intros l Hl Hr; cbn [common_from]; [split; [lia|done]|].
  destruct (Nat.leb_spec (l + 8) max) as [H8|]; [|by apply common_bytes_spec].
  set (x := take 8 (drop (a + l) b)). set (y := take 8 (drop (i + l) b)).
  assert (bytes_ok x) as Bx by by apply Forall_take, Forall_drop.
  assert (bytes_ok y) as By by by apply Forall_take, Forall_drop.
  assert (length x = 8%nat) as Lx by (unfold x; rewrite length_take, length_drop; lia).
  assert (length y = 8%nat) as Ly by (unfold y; rewrite length_take, length_drop; lia).
  assert (forall n, (n <= 8)%nat -> take n x = take n y -> repeats b a i (l + n)) as Hrep.
  { intros n Hn E k Hk. destruct (decide (k < l)%nat) as [|Hkl]; [by apply Hr|].
    replace (a + k)%nat with ((a + l) + (k - l))%nat by lia. replace (i + k)%nat with ((i + l) + (k - l))%nat by lia.
    rewrite <- !lookup_total_drop. rewrite <- (lookup_total_take_lt (drop (a + l) b) n) by lia.
    rewrite <- (lookup_total_take_lt (drop (i + l) b) n) by lia. f_equal.
    unfold x, y in E. rewrite !take_take, Nat.min_l in E by lia. exact E. }
  destruct (Z.eqb_spec (from_le x) (from_le y)) as [E|E]; cbn [negb].
  - destruct (IH (l + 8)%nat) as [H1 H2]; [lia| |split; [lia|done]]. apply Hrep; [lia|].
    rewrite <- (to_from_le x), <- (to_from_le y) by done. by rewrite Lx, Ly, E.
  - set (t := trailing_zeros 64 (Z.lxor (from_le x) (from_le y))).
    assert (t <= 64)%nat as Ht by apply trailing_zeros_fuel.
    pose proof (Nat.Div0.mul_div_le t 8) as Hd.
    assert (t / 8 <= 8)%nat as H88 by (apply Nat.Div0.div_le_upper_bound; lia).
    split; [lia|]. apply Hrep; [done|]. apply word_prefix; [done|done|lia|lia|].
    intros k Hk. apply (trailing_zeros_spec 64). fold t. lia.
Qed.

Lemma common_spec b a i max :
  bytes_ok b -> (a <= i)%nat -> (i + max <= length b)%nat ->
  (common b a i max <= max)%nat /\ repeats b a i (common b a i max).
Proof.
  intros Hb Ha Hm. unfold common.
  destruct (common_from_spec b a i max Hb Ha Hm (S max) 0) as [H1 H2]; [lia| |split; [apply H1|exact H2]].
  intros k Hk. lia.
Qed.

(** ** Hash chains *)

(** A link to a position before [i] that has four bytes. *)
Definition link_ok (b : list Z) (i : nat) (e : Z) : Prop :=
  e = 0 \/ (1 <= e /\ (Z.to_nat (e - 1) < i)%nat /\ (Z.to_nat (e - 1) + 4 <= length b)%nat).

Lemma link_ok_mono b i j e : (i <= j)%nat -> link_ok b i e -> link_ok b j e.
Proof. intros Hij [->|(H1 & H2 & H3)]; [by left|]. right. split; [done|]. split; [lia|done]. Qed.

(** The chains after the positions below [i] were inserted. *)
Record chains_ok (b : list Z) (i : nat) (e : Encoder) : Prop := {
  ch_head : length (head e) = Z.to_nat (2 ^ HASH_BITS);
  ch_prev : length (prev e) = Z.to_nat FRAME;
  ch_heads : forall h, (h < Z.to_nat (2 ^ HASH_BITS))%nat -> link_ok b i (head e !!! h);
  ch_links : forall p, (p < i)%nat -> (p + 4 <= length b)%nat -> link_ok b p (prev e !!! p);
}.

Lemma hash4_bound b i : (hash4 b i < Z.to_nat (2 ^ HASH_BITS))%nat.
Proof.
  unfold hash4. set (v := _ * _).
  destruct (is_u_shiftr_exact 32 (u32 v) (32 - HASH_BITS)) as [H0 H1];
    [unfold HASH_BITS; lia|apply is_u_u32|]. change (32 - (32 - HASH_BITS)) with HASH_BITS in H1. lia.
Qed.

Lemma enc_insert_ok b i e :
  Z.of_nat (length b) <= FRAME -> (i < length b)%nat -> chains_ok b i e -> chains_ok b (S i) (enc_insert b i e).
Proof.
  intros Hf Hi [H1 H2 H3 H4]. unfold enc_insert. destruct (Nat.leb_spec (i + MIN_MATCH) (length b)) as [H|H].
  - pose proof (hash4_bound b i) as Hh. unfold update. split; cbn [head prev].
    + by rewrite length_insert.
    + by rewrite length_insert.
    + intros h Hlt. destruct (decide (h = hash4 b i)) as [->|].
      * rewrite list_lookup_total_insert_eq by lia. right.
        assert (u32 (Z.of_nat i + 1) = Z.of_nat i + 1) as -> by (unfold FRAME in Hf; apply u32_id; split; lia).
        unfold MIN_MATCH in H. split; [lia|]. split; lia.
      * rewrite list_lookup_total_insert_ne by done. apply (link_ok_mono b i); [lia|by apply H3].
    + intros p Hp Hl. destruct (decide (p = i)) as [->|].
      * rewrite list_lookup_total_insert_eq by (unfold FRAME in *; lia). by apply H3.
      * rewrite list_lookup_total_insert_ne by done. apply H4; lia.
  - unfold MIN_MATCH in H. split; [done|done| |].
    + intros h Hlt. apply (link_ok_mono b i); [lia|by apply H3].
    + intros p Hp Hl. apply H4; lia.
Qed.

(** ** Matches *)

Definition match_ok (b : list Z) (i : nat) (m : nat * nat) : Prop :=
  m = (O, O) \/
  ((4 <= m.1)%nat /\ Z.of_nat m.1 <= MAX_MATCH /\ (i + m.1 <= length b)%nat /\ (1 <= m.2 <= i)%nat /\
   repeats b (i - m.2) i m.1).

(** The best so far, good for its length. *)
Lemma find_loop_spec e b i max :
  bytes_ok b -> chains_ok b i e -> (i + max <= length b)%nat -> forall chain cand best dist,
  link_ok b i cand -> (best <= max)%nat ->
  (best = O \/ ((1 <= dist <= i)%nat /\ repeats b (i - dist) i best)) ->
  let '(best', dist') := find_loop chain e b i max cand best dist in
  (best' <= max)%nat /\ (best' = O \/ ((1 <= dist' <= i)%nat /\ repeats b (i - dist') i best')).
Proof.
  intros Hb Hc Hm. induction chain as [|chain IH]; intros cand best dist Hl Hbm Hr; cbn [find_loop]; [done|].
  destruct (Z.eqb_spec cand 0) as [|Hne]; [done|]. destruct Hl as [|(L1 & L2 & L3)]; [done|].
  set (c := Z.to_nat (cand - 1)) in *.
  assert (link_ok b i (prev e !!! c)) as Hnext.
  { apply (link_ok_mono b c); [lia|]. apply (ch_links _ _ _ Hc); lia. }
  destruct (_ && _); [|by apply IH].
  destruct (common_spec b c i max Hb ltac:(lia) Hm) as [C1 C2].
  destruct (Nat.ltb_spec best (common b c i max)); [|by apply IH].
  assert ((1 <= i - c <= i)%nat /\ repeats b (i - (i - c)) i (common b c i max)) as Hg.
  { split; [lia|]. by replace (i - (i - c))%nat with c by lia. }
  destruct (Nat.eqb_spec (common b c i max) max); [split; [lia|by right]|]. apply IH; [done|lia|by right].
Qed.

Lemma longest_spec e b i : bytes_ok b -> chains_ok b i e -> match_ok b i (find e b i).
Proof.
  intros Hb Hc. unfold find. destruct (Nat.ltb_spec (length b) (i + MIN_MATCH)); [by left|].
  set (max := Nat.min (length b - i) (Z.to_nat MAX_MATCH)). unfold MIN_MATCH in *.
  pose proof (find_loop_spec e b i max Hb Hc ltac:(lia) MAX_CHAIN (head e !!! hash4 b i) 0 0) as Hf.
  destruct (find_loop _ _ _ _ _ _ _ _) as [best dist].
  destruct Hf as [H1 H2]; [apply Hc, hash4_bound|lia|by left|].
  destruct (Nat.ltb_spec best 4); [by left|]. right. cbn [fst snd].
  destruct H2 as [->|[H2 H3]]; [lia|]. unfold MAX_MATCH in *. split; [done|]. split; [lia|]. split; [lia|done].
Qed.

(** ** Tokens *)

(** A token of the compressor as one of the output. *)
Definition out_tok (t : Z * Z) : tok :=
  if t.2 =? 0 then TLit [t.1] else TCopy (Z.to_nat t.1) (Z.to_nat t.2).

(** What the compressor may emit. *)
Definition emitted (t : Z * Z) : Prop :=
  (t.2 = 0 /\ is_u 8 t.1) \/ (4 <= t.1 <= MAX_MATCH /\ 1 <= t.2 <= FRAME).

(** [ts] takes the output from [i] bytes of the frame to [j]. *)
Definition covers (src : list Z) (i j : nat) (ts : list (Z * Z)) : Prop :=
  toks_ok (take i src) (map out_tok ts) /\ expand (take i src) (map out_tok ts) = take j src /\ Forall emitted ts.

Lemma covers_nil src i : covers src i i [].
Proof. by repeat split. Qed.

Lemma covers_app src i j k ts us : covers src i j ts -> covers src j k us -> covers src i k (ts ++ us).
Proof.
  intros (T1 & T2 & T3) (U1 & U2 & U3). unfold covers. rewrite map_app, toks_ok_app, T2. unfold expand in *.
  rewrite foldl_app, T2. split; [done|]. split; [done|]. by apply Forall_app.
Qed.

Lemma covers_literal src i :
  bytes_ok src -> (i < length src)%nat -> covers src i (S i) [(src !!! i, 0)].
Proof.
  intros Hb Hi. pose proof (list_lookup_lookup_total_lt src i Hi) as Hx. split; [by repeat split|]. split.
  - cbn. by rewrite (take_S_r _ _ _ Hx).
  - apply Forall_singleton. left. split; [done|]. by apply (Forall_lookup_1 _ _ _ _ Hb Hx).
Qed.

Lemma covers_match src i l d :
  Z.of_nat (length src) <= FRAME -> (i < length src)%nat -> (1 <= l)%nat -> match_ok src i (l, d) ->
  covers src i (i + l) [(Z.of_nat l, Z.of_nat d)].
Proof.
  intros Hf Hi Hl [Hm|(M1 & M2 & M3 & M4 & M5)]; [injection Hm; lia|]. cbn [fst snd] in *.
  assert (out_tok (Z.of_nat l, Z.of_nat d) = TCopy l d) as Ht.
  { unfold out_tok. cbn [fst snd]. destruct (Z.eqb_spec (Z.of_nat d) 0); [lia|]. by rewrite !Nat2Z.id. }
  unfold covers. cbn [map]. rewrite Ht. split; [split; [|done]|split].
  - split; [done|]. rewrite length_take_le by lia. lia.
  - cbn [expand foldl expand1]. replace d with (i - (i - d))%nat by lia.
    apply copy_back_match; [lia|done|]. exact M5.
  - apply Forall_singleton. right. cbn [fst snd]. unfold MAX_MATCH, FRAME in *. lia.
Qed.

Lemma toks_enc_insert b i e : toks (enc_insert b i e) = toks e.
Proof. unfold enc_insert. by destruct (_ <=? _)%nat. Qed.

Lemma insert_range_ok src e : Z.of_nat (length src) <= FRAME -> forall n i,
  (i + n <= length src)%nat -> chains_ok src i e ->
  chains_ok src (i + n) (insert_range src i (i + n) e) /\ toks (insert_range src i (i + n) e) = toks e.
Proof.
  intros Hf n. unfold insert_range. revert e. induction n as [|n IH]; intros e i Hi Hc.
  - rewrite Nat.add_0_r, Nat.sub_diag. done.
  - replace (i + S n - i)%nat with (S n) by lia. cbn [seq foldl].
    destruct (IH (enc_insert src i e) (S i)) as [H1 H2]; [lia|by apply enc_insert_ok; [|lia|]|].
    replace (S i + n - S i)%nat with n in H1, H2 by lia. rewrite toks_enc_insert in H2.
    by replace (i + S n)%nat with (S i + n)%nat by lia.
Qed.

Lemma push_tok_ok b i l d e : chains_ok b i e -> chains_ok b i (push_tok l d e).
Proof. intros [H1 H2 H3 H4]. by split. Qed.

(** The choice between the match here and the one a byte later. *)
Lemma match_loop_spec src : bytes_ok src -> Z.of_nat (length src) <= FRAME -> forall fuel i e,
  (i <= length src)%nat -> (length src <= i + fuel)%nat -> chains_ok src i e ->
  exists ts, toks (match_loop fuel src i e) = toks e ++ ts /\ covers src i (length src) ts.
Proof.
  intros Hb Hf. induction fuel as [|fuel IH]; intros i e Hi Hfuel Hc; cbn [match_loop].
  - replace i with (length src) by lia. exists []. split; [by rewrite app_nil_r|apply covers_nil].
  - destruct (Nat.ltb_spec i (length src)) as [Hlt|Hge].
    2: { replace i with (length src) by lia. exists []. split; [by rewrite app_nil_r|apply covers_nil]. }
    pose proof (longest_spec e src i Hb Hc) as Hm. destruct (find e src i) as [l0 d0].
    pose proof (enc_insert_ok src i e Hf Hlt Hc) as Hc1. set (e1 := enc_insert src i e) in *.
    assert (toks e1 = toks e) as Et by apply toks_enc_insert.
    destruct (Nat.eqb_spec l0 0) as [E0|E0].
    { destruct (IH (S i) (push_tok (src !!! i) 0 e1)) as (ts & T1 & T2); [lia|lia|by apply push_tok_ok|].
      exists ((src !!! i, 0) :: ts). rewrite T1. unfold push_tok, update. cbn [toks]. rewrite Et, <- app_assoc.
      split; [done|]. eapply (covers_app _ _ _ _ [_]); [by apply covers_literal|done]. }
    assert (exists l d i' e' pre,
      (if (l0 <? LAZY_MAX)%nat && (i + 1 <? length src)%nat then
         let '(l1, d1) := find e1 src (i + 1) in
         if (l0 <? l1)%nat then (l1, d1, (i + 1)%nat, enc_insert src (i + 1) (push_tok (src !!! i) 0 e1))
         else (l0, d0, i, e1)
       else (l0, d0, i, e1)) = (l, d, i', e') /\
      toks e' = toks e ++ pre /\ covers src i i' pre /\ (i' < length src)%nat /\ (i <= i')%nat /\
      chains_ok src (S i') e' /\ (1 <= l)%nat /\ match_ok src i' (l, d)) as (l & d & i' & e' & pre & -> & E1 & E2 & E3 & E4 & E5 & E6 & E7).
    { assert (exists pre, toks e1 = toks e ++ pre /\ covers src i i pre) as (pre & P1 & P2).
      { exists []. split; [by rewrite app_nil_r|apply covers_nil]. }
      destruct ((l0 <? LAZY_MAX)%nat && (i + 1 <? length src)%nat) eqn:Hz.
      2: { exists l0, d0, i, e1, pre. repeat (split; [done || lia|]). done. }
      apply andb_prop in Hz as [_ Hz%Nat.ltb_lt]. rewrite Nat.add_1_r in *.
      pose proof (longest_spec e1 src (S i) Hb Hc1) as Hm1. destruct (find e1 src (S i)) as [l1 d1].
      destruct (Nat.ltb_spec l0 l1) as [Hl|Hl].
      2: { exists l0, d0, i, e1, pre. repeat (split; [done || lia|]). done. }
      exists l1, d1, (S i), (enc_insert src (S i) (push_tok (src !!! i) 0 e1)), [(src !!! i, 0)].
      split; [done|]. rewrite toks_enc_insert. unfold push_tok, update at 1. cbn [toks]. rewrite Et.
      split; [done|]. split; [by apply covers_literal|]. split; [done|]. split; [lia|].
      split; [apply enc_insert_ok; [done|done|by apply push_tok_ok]|]. split; [lia|done]. }
    cbv zeta. assert (i' + l <= length src)%nat as Hil.
    { destruct E7 as [E7|(M1 & M2 & M3 & _)]; [injection E7; lia|done]. }
    destruct (insert_range_ok src (push_tok (Z.of_nat l) (Z.of_nat d) e') Hf (l - 1) (S i')) as [R1 R2];
      [lia|by apply push_tok_ok|].
    replace (S i' + (l - 1))%nat with (i' + l)%nat in R1, R2 by lia. rewrite Nat.add_1_r.
    destruct (IH (i' + l)%nat (insert_range src (S i') (i' + l) (push_tok (Z.of_nat l) (Z.of_nat d) e')))
      as (ts & T1 & T2); [lia|lia|done|].
    exists (pre ++ (Z.of_nat l, Z.of_nat d) :: ts). rewrite T1, R2. unfold push_tok, update. cbn [toks].
    rewrite E1, <- !app_assoc. split; [done|]. eapply covers_app; [exact E2|].
    eapply (covers_app _ _ _ _ [_]); [by apply covers_match|done].
Qed.
