(* ===== verification/SnapLzhProof.v ===== *)
(** * The LZ77 and Huffman round trip (theorems about SnapLzh)

    The compressor writes the code lengths and, for every token, the fields of
    its symbols; the decompressor reads the same lengths, builds the same
    codes and reads the fields back. So a frame decompresses to itself,
    whatever the encoder did before. *)

From Stdlib Require Import ZArith Lia Bool.
From stdpp Require Import base sets list numbers strings.
From S2P Require Import Prelude SnapWire SnapLz SnapLzh SnapHuff SnapCanon SnapMatch.
Local Open Scope Z_scope.
Local Open Scope vetro_scope.
Import lzh.

(** ** Buckets *)

Lemma bucket_spec v :
  0 <= v < 2 ^ 18 ->
  let '(c, k, x) := bucket v in
  exists base, code_base c = (base, k) /\ base + x = v /\ 0 <= base /\ is_u (Z.of_nat k) x /\ (k <= 16)%nat /\
    (c < 44)%nat /\ (v < 2 ^ 16 -> (c < 40)%nat).
Proof.
  intros Hv. unfold bucket. destruct (Z.ltb_spec v 16) as [H16|H16].
  - exists v. unfold code_base. destruct (Nat.ltb_spec (Z.to_nat v) 16) as [_|]; [|lia].
    rewrite Z2Nat.id by lia. repeat split; lia.
  - assert (31 - leading_zeros 32 v = Z.log2 v) as ->.
    { unfold leading_zeros. destruct (Z.eqb_spec v 0); lia. }
    set (n := Z.log2 v). pose proof (Z.log2_spec v ltac:(lia)) as [L1 L2]. fold n in L1, L2.
    assert (4 <= n) as Hn4 by (change 4 with (Z.log2 16); apply Z.log2_le_mono; lia).
    assert (n < 18) as Hn18 by (apply Z.log2_lt_pow2; lia).
    assert (v < 2 ^ 16 -> n < 16) as Hn16 by (intros; apply Z.log2_lt_pow2; lia).
    assert (2 ^ Z.succ n = 4 * 2 ^ (n - 1) /\ 2 ^ n = 2 * 2 ^ (n - 1)) as [P1 P2].
    { replace (Z.succ n) with (n - 1 + 2) by lia. replace n with (n - 1 + 1) at 3 by lia.
      rewrite !Z.pow_add_r by lia. lia. }
    assert (0 < 2 ^ (n - 1)) as P0 by (apply Z.pow_pos_nonneg; lia).
    assert (forall y, Z.land y 1 = y mod 2) as Hl1 by (intros y; exact (land_ones_mod y 1 ltac:(lia))).
    rewrite !Hl1. rewrite Z.shiftl_1_l, land_ones_mod, Z.shiftr_div_pow2 by lia.
    set (q := v / 2 ^ (n - 1)). set (x := v mod 2 ^ (n - 1)).
    pose proof (Z.div_mod v (2 ^ (n - 1)) ltac:(lia)) as Hd. fold q x in Hd.
    pose proof (Z.mod_pos_bound v (2 ^ (n - 1)) ltac:(lia)) as Hx. fold x in Hx.
    assert (2 <= q <= 3) as Hq by (split; [|apply Z.lt_succ_r]; nia).
    set (m := q mod 2). assert (q = 2 + m /\ 0 <= m <= 1) as [Hqm Hm].
    { unfold m. destruct (decide (q = 2)) as [->|]; [done|]. replace q with 3 by lia. done. }
    assert (Z.to_nat (16 + 2 * (n - 4) + m) - 16 = Z.to_nat m + Z.to_nat (n - 4) * 2)%nat as Ec by lia.
    exists ((2 + m) * 2 ^ (n - 1)). unfold code_base.
    destruct (Nat.ltb_spec (Z.to_nat (16 + 2 * (n - 4) + m)) 16); [lia|]. rewrite Ec.
    rewrite Nat.div_add, Nat.Div0.mod_add by lia. rewrite (Nat.div_small (Z.to_nat m)), Nat.mod_small by lia.
    replace (0 + Z.to_nat (n - 4) + 4 - 1)%nat with (Z.to_nat (n - 1)) by lia. rewrite !Z2Nat.id by lia.
    split; [f_equal; rewrite Z.shiftl_mul_pow2 by lia; f_equal; destruct (decide (m = 0)) as [->|]; [done|];
            by replace m with 1 by lia|].
    split; [nia|]. split; [nia|]. split; [exact Hx|].
    split; [lia|]. split; [lia|]. intros Hlt. specialize (Hn16 Hlt). lia.
Qed.

(** The base in the tables of the decompressor. *)
Lemma bases_lookup n c : (c < n)%nat -> bases n !!! c = code_base c.
Proof.
  intros Hc. apply list_lookup_total_correct. unfold bases. by rewrite list_lookup_fmap, lookup_seq_lt.
Qed.

(** ** Copies of the decompressor *)

Lemma copy_back_add a b d out : copy_back (a + b) d out = copy_back b d (copy_back a d out).
Proof. revert out. induction a as [|a IH]; intros out; cbn [copy_back plus]; [done|]. apply IH. Qed.

Lemma copy_back_extends len d out : exists x, copy_back len d out = out ++ x /\ length x = len.
Proof.
  revert out. induction len as [|len IH]; intros out; cbn [copy_back]; [exists []; by rewrite app_nil_r|].
  destruct (IH (out ++ [out !!! (length out - d)%nat])) as (x & -> & Hx). rewrite <- app_assoc.
  eexists. split; [reflexivity|]. cbn. by rewrite Hx.
Qed.

Lemma copy_wide_spec d : forall fuel k len o out junk,
  length out = (o + k)%nat -> (8 <= d <= o)%nat -> (len <= k + 8 * fuel)%nat ->
  (k < len -> len - k + 7 <= length junk)%nat ->
  exists n junk', copy_wide fuel k len o d (out ++ junk) = copy_back n d out ++ junk' /\
    (len <= k + n)%nat /\ (n + length junk' = length junk)%nat.
Proof.
  induction fuel as [|fuel IH]; intros k len o out junk Ho Hd Hf Hj; cbn [copy_wide];
    [exists O, junk; split; [done|lia]|].
  destruct (Nat.ltb_spec k len) as [Hk|Hk]; [|exists O, junk; split; [done|lia]].
  specialize (Hj Hk). rewrite <- Ho.
  assert (overwrite (length out) (take 8 (drop (length out - d) (out ++ junk))) (out ++ junk)
          = copy_back 8 d out ++ drop 8 junk) as -> by (apply (copy_within_back 8); lia).
  destruct (IH (k + 8)%nat len o (copy_back 8 d out) (drop 8 junk)) as (n & junk' & E1 & E2 & E3);
    rewrite ?length_copy_back, ?length_drop; try lia.
  rewrite length_drop in E3. exists (8 + n)%nat, junk'. rewrite E1, copy_back_add. split; [done|]. lia.
Qed.

Lemma copy_match_spec len d out junk :
  (1 <= d <= length out)%nat -> (len <= length junk)%nat ->
  exists junk', copy_match len (length out) d (out ++ junk) = copy_back len d out ++ junk' /\
    (len + length junk' = length junk)%nat.
Proof.
  intros Hd Hl. unfold copy_match. destruct (Nat.eqb_spec d 1) as [->|Hd1].
  - exists (drop len junk). rewrite length_drop. split; [|lia].
    rewrite lookup_total_app_l by lia. set (x := out !!! (length out - 1)%nat).
    unfold overwrite. rewrite take_app_length, length_replicate, <- drop_drop, drop_app_length, app_assoc. f_equal.
    pose proof (copy_back_unique (out ++ replicate len x) 1 len (length out)) as H.
    rewrite take_app_length in H. rewrite H; [|lia|rewrite length_app, length_replicate; lia|].
    + symmetry. apply take_ge. rewrite length_app, length_replicate. lia.
    + intros k Hk. rewrite lookup_total_app_r by lia. rewrite lookup_total_replicate_2 by lia.
      destruct (decide (k = O)) as [->|].
      * rewrite lookup_total_app_l by lia. unfold x. f_equal. lia.
      * rewrite lookup_total_app_r by lia. by rewrite lookup_total_replicate_2 by lia.
  - destruct (Nat.leb_spec 8 d) as [H8|H8]; cbn [andb].
    + destruct (Nat.leb_spec (length out + len + 8) (length (out ++ junk))) as [Hw|Hw].
      * rewrite length_app in Hw. destruct (copy_wide_spec d len 0 len (length out) out junk) as (n & j & E1 & E2 & E3);
          try lia. rewrite E1. destruct (copy_back_extends (n - len) d (copy_back len d out)) as (x & Ex & Hx).
        exists (x ++ j). replace n with (len + (n - len))%nat by lia. rewrite copy_back_add, Ex, <- app_assoc.
        split; [done|]. rewrite length_app. lia.
      * exists (drop len junk). rewrite length_drop. split; [|lia].
        destruct (Nat.leb_spec len d); [apply copy_within_back|apply copy_bytes_back]; lia.
    + exists (drop len junk). rewrite length_drop. split; [|lia].
      destruct (Nat.leb_spec len d); [apply copy_within_back|apply copy_bytes_back]; lia.
Qed.

(** ** The fields of the tokens *)

Section fields.
Context (ll_len dd_len : list nat).

(** The symbol of a token, and the fields after it. *)
Definition symbol (t : Z * Z) : nat :=
  if t.2 =? 0 then Z.to_nat t.1 else (256 + (bucket (t.1 - 4)).1.1)%nat.

Definition dist_symbol (t : Z * Z) : nat := (bucket (t.2 - 1)).1.1.

Definition tail_fields (t : Z * Z) : list (Z * nat) :=
  if t.2 =? 0 then []
  else
    let '(_, k, x) := bucket (t.1 - 4) in
    let '(c, k', x') := bucket (t.2 - 1) in
    [(x, k); (codes dd_len !!! c, dd_len !!! c); (x', k')].

Definition tok_fields (t : Z * Z) : list (Z * nat) :=
  (codes ll_len !!! symbol t, ll_len !!! symbol t) :: tail_fields t.

(** A token whose symbols have codes. *)
Definition coded (t : Z * Z) : Prop :=
  emitted t /\ (exists l, ll_len !! symbol t = Some l /\ (1 <= l)%nat) /\
  (t.2 <> 0 -> exists l, dd_len !! dist_symbol t = Some l /\ (1 <= l)%nat).

Definition toks_fields (ts : list (Z * Z)) : list (Z * nat) := concat (map tok_fields ts).

Lemma emitted_buckets t :
  emitted t -> t.2 <> 0 -> 0 <= t.1 - 4 < 2 ^ 16 /\ 0 <= t.2 - 1 < 2 ^ 18.
Proof. intros [[? _]|[H1 H2]] Ht; [done|]. unfold MAX_MATCH, FRAME in *. lia. Qed.

Context (Hll : lens_ok ll_len) (Hdd : lens_ok dd_len).

Lemma code_field len s l :
  lens_ok len -> len !! s = Some l -> (1 <= l)%nat ->
  is_u (Z.of_nat (len !!! s)) (codes len !!! s) /\ (1 <= len !!! s <= MAX_BITS)%nat.
Proof.
  intros Hok Hs Hl. rewrite (list_lookup_total_correct _ _ _ Hs).
  assert (l <= MAX_BITS)%nat by (destruct Hok as [Hf _]; by apply (Forall_lookup_1 _ _ _ _ Hf) in Hs).
  rewrite (list_lookup_total_correct _ _ _ (codes_spec len s l Hok Hs Hl)).
  split; [|done]. apply rcode_bound. unfold MAX_BITS in *. lia.
Qed.

(** The compressor writes the fields of the tokens. *)
Lemma put_tok_written pre fs w t :
  written pre fs 8 w -> coded t ->
  written pre (fs ++ tok_fields t) 8 (put_tok (codes ll_len) ll_len (codes dd_len) dd_len w t).
Proof.
  intros Hw (He & (l & Hs & Hl) & Hd). destruct (code_field ll_len _ l Hll Hs Hl) as [F1 F2].
  unfold put_tok, tok_fields, tail_fields, symbol in *. destruct t as [tl td]. cbn [fst snd] in *.
  destruct (Z.eqb_spec td 0) as [E0|E0].
  - apply bw_put_written; [done|done|unfold MAX_BITS in *; lia].
  - destruct (emitted_buckets (tl, td) He E0) as [B1 B2]. cbn [fst snd] in B1, B2.
    destruct (Hd E0) as (l' & Hs' & Hl'). unfold dist_symbol in Hs'. cbn [snd] in Hs'.
    destruct (code_field dd_len _ l' Hdd Hs' Hl') as [G1 G2].
    pose proof (bucket_spec (tl - 4) ltac:(lia)) as X1. pose proof (bucket_spec (td - 1) B2) as X2.
    destruct (bucket (tl - 4)) as [[c k] x]. destruct (bucket (td - 1)) as [[c' k'] x']. cbn [fst] in *.
    destruct X1 as (b1 & _ & _ & _ & U1 & K1 & _). destruct X2 as (b2 & _ & _ & _ & U2 & K2 & _).
    set (f0 := (codes ll_len !!! (256 + c)%nat, ll_len !!! (256 + c)%nat)).
    set (f2 := (codes dd_len !!! c', dd_len !!! c')).
    replace (fs ++ [f0; (x, k); f2; (x', k')]) with ((((fs ++ [f0]) ++ [(x, k)]) ++ [f2]) ++ [(x', k')])
      by by rewrite <- !app_assoc.
    unfold MAX_BITS in *. repeat (apply bw_put_written; [|done|lia]). done.
Qed.

Lemma put_toks_written pre ts : forall fs w,
  written pre fs 8 w -> Forall coded ts ->
  written pre (fs ++ toks_fields ts) 8 (foldl (put_tok (codes ll_len) ll_len (codes dd_len) dd_len) w ts).
Proof.
  induction ts as [|t ts IH]; intros fs w Hw Hc; cbn [foldl]; [unfold toks_fields; cbn; by rewrite app_nil_r|].
  apply Forall_cons in Hc as [Ht Hts]. unfold toks_fields. cbn [map concat]. rewrite app_assoc.
  apply IH; [by apply put_tok_written|done].
Qed.

(** ** Decompressing the fields *)

Context (ll dd : list Z) (Tll : table ll_len = Ok ll) (Tdd : table dd_len = Ok dd).
Context (Lll : length ll_len = LL_CODES) (Ldd : length dd_len = DIST_CODES).
Context (src : list Z) (Hsrc : bytes_ok src).

Abbreviation E := (fun out ts => expand out (map out_tok ts)).

Lemma length_alphabets : (length ll_len <= 4096)%nat /\ (length dd_len <= 4096)%nat.
Proof. rewrite Lll, Ldd. unfold LL_CODES, LEN_CODES, DIST_CODES. lia. Qed.

(** The symbol of the next token. *)
Lemma read_symbol t ts r :
  coded t -> at_fields src (toks_fields (t :: ts)) r -> (MAX_BITS <= br_n r <= 64)%nat ->
  exists r', br_symbol ll r = Ok (symbol t, r') /\ at_fields src (tail_fields t ++ toks_fields ts) r' /\
    (br_n r' <= 63)%nat.
Proof.
  intros (He & (l & Hs & Hl) & _) Hr Hn. unfold toks_fields in Hr. cbn [map concat] in Hr.
  unfold tok_fields in Hr. rewrite (list_lookup_total_correct _ _ _ Hs) in Hr.
  destruct (br_symbol_field src ll_len ll (symbol t) l _ r Tll (proj1 length_alphabets) Hs Hl Hr) as (r' & E1 & E2 & E3);
    [lia|]. exists r'. split; [done|]. split; [done|]. lia.
Qed.

(** A reader ready for a symbol. *)
Lemma ready_refill fs r :
  at_fields src fs r -> (br_n r <= 63)%nat ->
  let r' := if (br_n r <? MAX_BITS)%nat then refill r else r in
  at_fields src fs r' /\ (MAX_BITS <= br_n r' <= 64)%nat.
Proof.
  intros Hr Hn. cbv zeta. destruct (Nat.ltb_spec (br_n r) MAX_BITS).
  - destruct (at_fields_refill src fs r Hsrc Hr Hn) as [H1 H2]. split; [done|].
    destruct H1 as (c & [_ _ H3 _ _ _] & _). unfold MAX_BITS. lia.
  - split; [done|lia].
Qed.

(** A run of literals, its first symbol read. *)
Lemma literal_run_spec ts : forall t fuel r out junk,
  Forall coded (t :: ts) -> toks_ok out (map out_tok (t :: ts)) ->
  length (E out (t :: ts)) = (length out + length junk)%nat -> (length junk < fuel)%nat ->
  at_fields src (tail_fields t ++ toks_fields ts) r -> (br_n r <= 63)%nat ->
  (exists r', literal_run fuel ll r (symbol t) (length out) (out ++ junk) = Ok (RunEnd r' (E out (t :: ts))) /\
     at_fields src [] r') \/
  (exists lits m ts' r' junk', t :: ts = lits ++ m :: ts' /\ m.2 <> 0 /\
     literal_run fuel ll r (symbol t) (length out) (out ++ junk)
     = Ok (RunSymbol r' (symbol m) (length (E out lits)) (E out lits ++ junk')) /\
     (length (E out lits) + length junk' = length out + length junk)%nat /\
     at_fields src (tail_fields m ++ toks_fields ts') r' /\ (br_n r' <= 63)%nat).
Proof.
  induction ts as [|t2 ts IH]; intros t fuel r out junk Hc Hok Hlen Hf Hr Hn;
    (destruct fuel as [|fuel]; [lia|]); apply Forall_cons in Hc as [Ht Hts]; cbn [literal_run].
  - destruct (Z.eqb_spec t.2 0) as [E0|E0].
    + left. pose proof Ht as (He & _). destruct He as [[_ Hb]|[? ?]]; [|lia].
      assert (out_tok t = TLit [t.1]) as Eo by (unfold out_tok; by rewrite E0).
      unfold symbol. rewrite E0. cbn [Z.eqb]. destruct Hb as [Hb0 Hb1]. change (2 ^ 8) with 256 in Hb1.
      destruct (Nat.ltb_spec (Z.to_nat t.1) 256); [|lia]. rewrite Z2Nat.id by lia.
      cbn [map expand foldl] in Hlen |- *. rewrite Eo in Hlen |- *. cbn [expand1] in *. rewrite length_app in Hlen. cbn in Hlen.
      destruct junk as [|y [|]]; cbn in Hlen; try lia.
      rewrite insert_boundary, app_nil_r. destruct (Nat.eqb_spec (S (length out)) (length (out ++ [t.1]))) as [|Hx];
        [|rewrite length_app in Hx; cbn in Hx; lia].
      exists r. split; [done|]. unfold tail_fields in Hr. rewrite E0 in Hr. exact Hr.
    + right. exists [], t, [], r, junk. destruct (Nat.ltb_spec (symbol t) 256) as [Hx|_].
      { unfold symbol in Hx. destruct (Z.eqb_spec t.2 0); [done|lia]. }
      split; [done|]. split; [done|]. split; [done|]. split; [done|]. split; [done|done].
  - destruct (Z.eqb_spec t.2 0) as [E0|E0].
    2: { right. exists [], t, (t2 :: ts), r, junk. destruct (Nat.ltb_spec (symbol t) 256) as [Hx|_].
         { unfold symbol in Hx. destruct (Z.eqb_spec t.2 0); [done|lia]. }
         split; [done|]. split; [done|]. split; [done|]. split; [done|]. split; [done|done]. }
    pose proof Ht as (He & _). destruct He as [[_ Hb]|[? ?]]; [|lia].
    assert (out_tok t = TLit [t.1]) as Eo by (unfold out_tok; by rewrite E0).
    destruct Hb as [Hb0 Hb1]. change (2 ^ 8) with 256 in Hb1.
    assert (symbol t = Z.to_nat t.1) as Es by (unfold symbol; by rewrite E0).
    rewrite Es. destruct (Nat.ltb_spec (Z.to_nat t.1) 256); [|lia]. rewrite Z2Nat.id by lia.
    assert (forall us, expand out (map out_tok (t :: us)) = expand (out ++ [t.1]) (map out_tok us)) as Hexp
      by (intros us; unfold expand; cbn [map foldl]; by rewrite Eo).
    rewrite Hexp in Hlen |- *. destruct Hok as [_ Hok]. rewrite Eo in Hok. cbn [expand1] in Hok.
    apply Forall_cons in Hts as Hts2. destruct Hts2 as [Ht2 _].
    assert (length (out ++ [t.1]) < length (E (out ++ [t.1]) (t2 :: ts)))%nat as Hgrow.
    { cbn [map expand foldl]. pose proof (expand_length (expand1 (out ++ [t.1]) (out_tok t2)) (map out_tok ts)) as H1.
      unfold expand in H1. destruct Hok as [Hok2 _]. cbn [map] in Hok2.
      destruct (out_tok t2) as [l|len d]; cbn [expand1 tok_ok] in *.
      - rewrite (length_app _ l) in H1. destruct l; [done|]. cbn in H1. lia.
      - rewrite length_copy_back in H1. lia. }
    rewrite length_app in Hgrow. cbn [length] in Hgrow.
    destruct junk as [|y junk]; [cbn [length] in Hlen; lia|]. rewrite insert_boundary.
    destruct (Nat.eqb_spec (S (length out)) (length ((out ++ [t.1]) ++ junk))) as [Hx|_].
    { rewrite !length_app in Hx. cbn [length] in Hx, Hlen. lia. }
    unfold tail_fields in Hr. rewrite E0 in Hr. cbn [Z.eqb app] in Hr.
    destruct (ready_refill _ r Hr Hn) as [R1 R2].
    destruct (read_symbol t2 ts _ Ht2 R1 R2) as (r' & Hsym & Hr' & Hn'). rewrite Hsym.
    replace (S (length out)) with (length (out ++ [t.1])) by (rewrite length_app; cbn; lia).
    destruct (IH t2 fuel r' (out ++ [t.1]) junk) as [HL|HR].
    + done.
    + exact Hok.
    + rewrite Hlen, length_app. cbn. lia.
    + cbn in Hf. lia.
    + done.
    + done.
    + left. exact HL.
    + right. destruct HR as (lits & m & ts' & r2 & junk' & E1 & E2 & E3 & E4 & E5).
      exists (t :: lits), m, ts', r2, junk'. rewrite E1.
      rewrite Hexp. split; [done|]. split; [done|]. split; [done|]. rewrite E4, length_app. cbn [length]. split; [lia|done].
Qed.

(** A match, its length symbol read. *)
Lemma copy_symbol_spec m ts r out junk :
  coded m -> m.2 <> 0 -> tok_ok out (out_tok m) -> (length (expand1 out (out_tok m)) <= length out + length junk)%nat ->
  at_fields src (tail_fields m ++ toks_fields ts) r -> (br_n r <= 63)%nat ->
  exists r' junk', copy_symbol dd r (symbol m) (length out) (out ++ junk)
    = Ok (r', length (expand1 out (out_tok m)), expand1 out (out_tok m) ++ junk') /\
    (length (expand1 out (out_tok m)) + length junk' = length out + length junk)%nat /\
    at_fields src (toks_fields ts) r' /\ (br_n r' <= 63)%nat.
Proof.
  intros (He & _ & Hd) H0 Hok Hlen Hr Hn. destruct (Hd H0) as (l' & Hs' & Hl').
  assert (out_tok m = TCopy (Z.to_nat m.1) (Z.to_nat m.2)) as Eo by (unfold out_tok; by destruct (Z.eqb_spec m.2 0)).
  rewrite Eo in *. cbn [expand1 tok_ok] in *. rewrite length_copy_back in *.
  destruct (emitted_buckets m He H0) as [B1 B2].
  pose proof (bucket_spec (m.1 - 4) ltac:(lia)) as X1. pose proof (bucket_spec (m.2 - 1) B2) as X2.
  unfold copy_symbol, symbol, tail_fields, dist_symbol in *.
  destruct (Z.eqb_spec m.2 0); [done|].
  destruct (bucket (m.1 - 4)) as [[c k] x]. destruct (bucket (m.2 - 1)) as [[c' k'] x']. cbn [fst] in *.
  destruct X1 as (b1 & C1 & V1 & Z1 & U1 & K1 & _ & N1). destruct X2 as (b2 & C2 & V2 & Z2 & U2 & K2 & N2 & _).
  destruct (at_fields_refill src _ r Hsrc Hr Hn) as [R1 R2]. specialize (N1 ltac:(lia)).
  replace (256 + c - 256)%nat with c by lia. destruct (Nat.leb_spec LEN_CODES c) as [Hx|_]; [unfold LEN_CODES in Hx; lia|].
  unfold LEN_BASE. rewrite bases_lookup by (unfold LEN_CODES; lia). rewrite C1. cbn [app] in R1.
  destruct (br_bits_field src x k _ (refill r) R1 U1) as (r1 & Eb1 & Q1 & M1); [lia|lia|]. rewrite Eb1.
  rewrite (list_lookup_total_correct _ _ _ Hs') in Q1.
  assert (l' <= MAX_BITS)%nat as Hl12 by (destruct Hdd as [Hf _]; by apply (Forall_lookup_1 _ _ _ _ Hf) in Hs').
  destruct (br_symbol_field src dd_len dd c' l' _ r1 Tdd (proj2 length_alphabets) Hs' Hl' Q1) as (r2 & Es2 & Q2 & M2);
    [unfold MAX_BITS; lia|]. rewrite Es2.
  unfold DIST_BASE. rewrite bases_lookup by (unfold DIST_CODES; lia). rewrite C2.
  destruct (br_bits_field src x' k' _ r2 Q2 U2) as (r3 & Eb3 & Q3 & M3); [unfold MAX_BITS in *; lia|lia|]. rewrite Eb3.
  assert (Z.to_nat (b1 + x) + MIN_MATCH = Z.to_nat m.1)%nat as -> by (unfold MIN_MATCH; lia).
  assert (Z.to_nat (b2 + x') + 1 = Z.to_nat m.2)%nat as -> by lia.
  destruct (Nat.ltb_spec (length out) (Z.to_nat m.2)); [lia|].
  destruct (Nat.ltb_spec (length (out ++ junk) - length out) (Z.to_nat m.1)) as [Hx|_]; [rewrite length_app in Hx; lia|].
  cbn [orb]. destruct (copy_match_spec (Z.to_nat m.1) (Z.to_nat m.2) out junk) as (junk' & E1 & E2); [lia|lia|].
  exists r3, junk'. rewrite E1. split; [done|]. split; [lia|]. split; [done|].
  destruct Q3 as (cc & [_ _ H64 _ _ _] & _). destruct R1 as (cr & [_ _ H64' _ _ _] & _). lia.
Qed.

Lemma decompress_fields : forall fuel ts r out junk,
  Forall coded ts -> toks_ok out (map out_tok ts) -> length (E out ts) = (length out + length junk)%nat ->
  (length ts < fuel)%nat -> at_fields src (toks_fields ts) r -> (br_n r <= 63)%nat ->
  decompress_loop fuel ll dd r (length out) (out ++ junk) = Ok (E out ts).
Proof.
  induction fuel as [|fuel IH]; intros ts r out junk Hc Hok Hlen Hf Hr Hn; [lia|]. cbn [decompress_loop].
  destruct ts as [|t ts].
  - cbn [map expand foldl] in *. assert (junk = []) as -> by (apply length_zero_iff_nil; lia).
    rewrite app_nil_r, Nat.ltb_irrefl. by rewrite (br_check_at src [] r).
  - assert (length out < length (E out (t :: ts)))%nat as Hgrow.
    { cbn [map expand foldl]. pose proof (expand_length (expand1 out (out_tok t)) (map out_tok ts)) as H1.
      unfold expand in H1. destruct Hok as [Hok1 _]. cbn [map] in Hok1.
      destruct (out_tok t) as [l|len d]; cbn [expand1 tok_ok] in *.
      - rewrite (length_app _ l) in H1. destruct l; [done|]. cbn in H1. lia.
      - rewrite length_copy_back in H1. lia. }
    destruct (Nat.ltb_spec (length out) (length (out ++ junk))) as [_|Hx]; [|rewrite length_app in Hx; lia].
    destruct (at_fields_refill src _ r Hsrc Hr Hn) as [R1 R2].
    apply Forall_cons in Hc as Hc'. destruct Hc' as [Ht _].
    destruct (read_symbol t ts (refill r) Ht R1) as (r1 & Hsym & Q1 & M1).
    { destruct R1 as (c & [_ _ H64 _ _ _] & _). unfold MAX_BITS. lia. }
    rewrite Hsym.
    destruct (literal_run_spec ts t (S (length (out ++ junk))) r1 out junk Hc Hok Hlen) as [(r2 & E1 & E2)|Hm];
      [rewrite length_app; lia|done|done| |].
    + rewrite E1. by rewrite (br_check_at src [] r2).
    + destruct Hm as (lits & m & ts' & r2 & junk' & Ets & Hm0 & E1 & E2 & E3 & E4). rewrite E1.
      rewrite Ets in *. rewrite map_app in Hok. apply toks_ok_app in Hok as [_ Hok]. cbn [map toks_ok] in Hok.
      destruct Hok as [Hok1 Hok2]. apply Forall_app in Hc as [_ Hc]. apply Forall_cons in Hc as [Hcm Hc].
      assert (E out (lits ++ m :: ts') = E (expand1 (E out lits) (out_tok m)) ts') as Eall.
      { rewrite map_app. unfold expand. rewrite foldl_app. done. }
      rewrite Eall in *. pose proof (expand_length (expand1 (E out lits) (out_tok m)) (map out_tok ts')) as Hle.
      destruct (copy_symbol_spec m ts' r2 (E out lits) junk' Hcm Hm0 Hok1) as (r3 & junk2 & F1 & F2 & F3 & F4);
        [lia|done|done|]. rewrite F1. apply IH; [done|done|lia| |done|done].
      rewrite length_app in Hf. cbn [length] in Hf. lia.
Qed.
End fields.

(** ** Frequencies *)

Lemma symbol_bound t : emitted t -> (symbol t < LL_CODES)%nat /\ (t.2 <> 0 -> (dist_symbol t < DIST_CODES)%nat).
Proof.
  intros He. unfold symbol, dist_symbol, LL_CODES, LEN_CODES, DIST_CODES. destruct (Z.eqb_spec t.2 0) as [E0|E0].
  - destruct He as [[_ [H0 H1]]|[_ ?]]; [|lia]. change (2 ^ 8) with 256 in H1. split; [lia|done].
  - destruct (emitted_buckets t He E0) as [B1 B2].
    pose proof (bucket_spec (t.1 - 4) ltac:(lia)) as X1. pose proof (bucket_spec (t.2 - 1) B2) as X2.
    destruct (bucket (t.1 - 4)) as [[c k] x]. destruct (bucket (t.2 - 1)) as [[c' k'] x']. cbn [fst].
    destruct X1 as (_ & _ & _ & _ & _ & _ & _ & N1). destruct X2 as (_ & _ & _ & _ & _ & _ & N2 & _).
    specialize (N1 ltac:(lia)). split; [lia|done].
Qed.

(** Counts of at most [n] occurrences. *)
Definition counts_upto (n : nat) (f : list Z) : Prop :=
  forall s, (s < length f)%nat -> 0 <= f !!! s <= Z.of_nat n.

Lemma bump_spec n f i :
  counts_upto n f -> Z.of_nat n + 1 < 2 ^ 32 -> (i < length f)%nat ->
  length (bump i f) = length f /\ counts_upto (S n) (bump i f) /\ 0 < bump i f !!! i /\
  (forall s, 0 < f !!! s -> 0 < bump i f !!! s).
Proof.
  intros Hf Hn Hi. pose proof (Hf i Hi) as Hx. unfold bump.
  assert (u32 (f !!! i + 1) = f !!! i + 1) as -> by (apply u32_id; split; lia).
  split; [apply length_insert|]. split; [|split].
  - intros s Hs. rewrite length_insert in Hs. destruct (decide (s = i)) as [->|];
      [rewrite list_lookup_total_insert_eq by done; lia|].
    rewrite list_lookup_total_insert_ne by done. specialize (Hf s Hs). lia.
  - rewrite list_lookup_total_insert_eq by done. lia.
  - intros s Hs. destruct (decide (s = i)) as [->|]; [rewrite list_lookup_total_insert_eq by done; lia|].
    by rewrite list_lookup_total_insert_ne by done.
Qed.

Lemma frequencies_spec ts :
  Forall emitted ts -> Z.of_nat (length ts) < 2 ^ 32 ->
  let '(ll, dd) := frequencies ts in
  length ll = LL_CODES /\ length dd = DIST_CODES /\ counts_upto (length ts) ll /\ counts_upto (length ts) dd /\
  (forall t, t ∈ ts -> 0 < ll !!! symbol t /\ (t.2 <> 0 -> 0 < dd !!! dist_symbol t)).
Proof.
  induction ts as [|t ts IH] using rev_ind; intros He Hn.
  - cbn [frequencies foldl]. rewrite !length_replicate. split; [done|]. split; [done|].
    split; [intros s Hs; rewrite length_replicate in Hs; by rewrite lookup_total_replicate_2|].
    split; [intros s Hs; rewrite length_replicate in Hs; by rewrite lookup_total_replicate_2|].
    intros t Ht. by apply not_elem_of_nil in Ht.
  - apply Forall_app in He as [He Ht]. apply Forall_inv in Ht. rewrite length_app in Hn |- *. cbn [length] in *.
    rewrite Nat.add_1_r in *. unfold frequencies in *. rewrite foldl_app. cbn [foldl].
    destruct (foldl count_tok _ ts) as [ll dd]. destruct IH as (L1 & L2 & C1 & C2 & P); [done|lia|].
    destruct (symbol_bound t Ht) as [S1 S2]. unfold count_tok. destruct t as [l d]. cbn [snd fst] in *.
    assert (forall s, (s < LL_CODES)%nat -> bump s ll !!! s > 0 /\ length (bump s ll) = LL_CODES /\
      counts_upto (S (length ts)) (bump s ll) /\ (forall x, 0 < ll !!! x -> 0 < bump s ll !!! x)) as HB.
    { intros s Hs. destruct (bump_spec (length ts) ll s C1) as (B1 & B2 & B3 & B4); [lia|lia|]. split; [lia|]. split; [lia|]. by split. }
    unfold symbol, dist_symbol in *. cbn [fst snd] in *. destruct (Z.eqb_spec d 0) as [E0|E0].
    + destruct (HB _ S1) as (B3 & B1 & B2 & B4). rewrite B1. repeat (split; [done|]). split.
      * intros s Hs. specialize (C2 s Hs). lia.
      * intros t [Hin| ->%list_elem_of_singleton]%elem_of_app; [destruct (P t Hin); split; [by apply B4|done]|].
        cbn [fst snd]. rewrite E0. cbn [Z.eqb]. split; [lia|done].
    + destruct (HB _ S1) as (B3 & B1 & B2 & B4). specialize (S2 E0).
      destruct (bump_spec (length ts) dd (bucket (d - 1)).1.1 C2) as (D1 & D2 & D3 & D4); [lia|lia|].
      rewrite B1, D1. repeat (split; [done|]).
      intros t [Hin| ->%list_elem_of_singleton]%elem_of_app.
      * destruct (P t Hin) as [P1 P2]. split; [by apply B4|]. intros H. by apply D4, P2.
      * cbn [fst snd]. destruct (Z.eqb_spec d 0); [done|]. split; [lia|done].
Qed.

(** ** The header *)

Lemma nibble_byte a b : (a < 16)%nat -> (b < 16)%nat ->
  let x := Z.lor (Z.of_nat a) (u8 (Z.shiftl (Z.of_nat b) 4)) in
  x = Z.of_nat b * 16 + Z.of_nat a /\ is_u 8 x.
Proof.
  intros Ha Hb. cbv zeta. assert (u8 (Z.shiftl (Z.of_nat b) 4) = Z.shiftl (Z.of_nat b) 4) as ->.
  { apply mod_is_u. rewrite Z.shiftl_mul_pow2 by lia. split; lia. }
  rewrite Z.lor_comm, lor_shiftl_add by (lia || (split; lia)). split; [done|]. split; lia.
Qed.

Lemma nibbles_spec n : forall L, length L = (2 * n)%nat -> Forall (fun l => l < 16)%nat L ->
  length (nibbles L) = n /\ bytes_ok (nibbles L) /\
  forall i, (i < 2 * n)%nat ->
    Z.to_nat (Z.land (Z.shiftr (nibbles L !!! (i / 2)%nat) (4 * Z.of_nat (i mod 2))) 15) = L !!! i.
Proof.
  induction n as [|n IH]; intros L Hl Hf.
  - destruct L; [|done]. split; [done|]. split; [constructor|lia].
  - destruct L as [|a [|b L]]; [done|cbn in Hl; lia|]. apply Forall_cons in Hf as [Ha Hf]. apply Forall_cons in Hf as [Hb Hf].
    destruct (IH L) as (I1 & I2 & I3); [cbn in Hl; lia|done|]. destruct (nibble_byte a b Ha Hb) as [Ex Hx].
    cbn [nibbles]. split; [cbn; by rewrite I1|]. split; [by constructor|].
    intros i Hi. destruct i as [|[|i]].
    + cbn [Nat.div Nat.modulo Nat.divmod fst snd]. change (Z.of_nat 0) with 0.
      rewrite Z.mul_0_r, Z.shiftr_0_r. change 15 with (2 ^ 4 - 1). rewrite land_ones_mod by lia.
      cbn [lookup_total list_lookup_total]. rewrite Ex. change (2 ^ 4) with 16.
      rewrite Z.add_comm, Z.mod_add, Z.mod_small by lia. by rewrite Nat2Z.id.
    + change (1 / 2)%nat with O. change (1 mod 2)%nat with 1%nat. change (4 * Z.of_nat 1) with 4.
      change 15 with (2 ^ 4 - 1). rewrite land_ones_mod by lia. cbn [lookup_total list_lookup_total]. rewrite Ex.
      rewrite Z.shiftr_div_pow2 by lia. change (2 ^ 4) with 16. rewrite Z.add_comm, Z.div_add by lia.
      rewrite (Z.div_small (Z.of_nat a)), Z.add_0_l, Z.mod_small by lia. by rewrite Nat2Z.id.
    + specialize (I3 i ltac:(lia)). replace (S (S i)) with (i + 1 * 2)%nat by lia.
      rewrite Nat.div_add, Nat.Div0.mod_add by lia. rewrite Nat.add_1_r.
      replace (i + 1 * 2)%nat with (S (S i)) by lia. exact I3.
Qed.

Lemma header_lens_spec L rest :
  length L = (LL_CODES + DIST_CODES)%nat -> Forall (fun l => l < 16)%nat L ->
  header_lens (nibbles L ++ rest) = L /\ length (nibbles L) = HEADER.
Proof.
  intros Hl Hf. destruct (nibbles_spec HEADER L) as (N1 & N2 & N3); [done|done|]. split; [|done].
  unfold header_lens. rewrite <- Hl. apply list_eq_same_length with (length L);
    [done|by rewrite length_map, length_seq|].
  intros i x y Hi Hx Hy. rewrite list_lookup_fmap, lookup_seq_lt in Hx by done. apply (inj Some) in Hx.
  apply list_lookup_total_correct in Hy. rewrite <- Hx, <- Hy. cbn [plus].
  change (length L = (2 * HEADER)%nat) in Hl.
  assert (i / 2 < HEADER)%nat by (apply Nat.Div0.div_lt_upper_bound; lia).
  rewrite lookup_total_app_l by lia. apply N3. lia.
Qed.

(** ** The round trip *)

(** The working memory of an encoder has its sizes. *)
Definition encoder_ok (e : Encoder) : Prop :=
  length (head e) = Z.to_nat (2 ^ HASH_BITS) /\ length (prev e) = Z.to_nat FRAME.

Lemma encoder_ok_insert b i e : encoder_ok e -> encoder_ok (enc_insert b i e).
Proof.
  intros [H1 H2]. unfold enc_insert. destruct (_ <=? _)%nat; [|done]. unfold update.
  split; cbn [head prev]; by rewrite length_insert.
Qed.

Lemma encoder_ok_insert_range b i j e : encoder_ok e -> encoder_ok (insert_range b i j e).
Proof.
  unfold insert_range. generalize (seq i (j - i)). intros l. revert e.
  induction l as [|p l IH]; intros e He; [done|]. cbn [foldl]. by apply IH, encoder_ok_insert.
Qed.

Lemma encoder_ok_match_loop src : forall fuel i e, encoder_ok e -> encoder_ok (match_loop fuel src i e).
Proof.
  induction fuel as [|fuel IH]; intros i e He; cbn [match_loop]; [done|].
  destruct (_ <? _)%nat; [|done]. destruct (find e src i) as [l0 d0].
  pose proof (encoder_ok_insert src i e He) as He1. destruct (l0 =? 0)%nat; [by apply IH|].
  destruct (_ && _); [|by apply IH, encoder_ok_insert_range].
  destruct (find _ src (i + 1)) as [l1 d1]. destruct (l0 <? l1)%nat; [|by apply IH, encoder_ok_insert_range].
  by apply IH, encoder_ok_insert_range, encoder_ok_insert.
Qed.

Lemma lengths_lens_ok freq len : lengths_ok freq MAX_BITS len -> lens_ok len.
Proof.
  intros [H1 H2 H3 H4 _]. split; [|done]. apply Forall_lookup. intros s l Hs.
  pose proof (lookup_lt_Some _ _ _ Hs) as Hlt. apply list_lookup_total_correct in Hs. subst l.
  destruct (decide (s ∈ used freq)) as [Hu|Hu]; [by apply H2|]. rewrite H3 by (done || lia). unfold MAX_BITS. lia.
Qed.

Lemma code_lengths_alphabet freq :
  (length freq <= 4096)%nat -> lengths_ok freq MAX_BITS (code_lengths freq MAX_BITS).
Proof.
  intros Hl. apply code_lengths_ok; [unfold MAX_BITS; lia|]. rewrite pow12. unfold used.
  pose proof (length_filter (fun s => 0 < freq !!! s) (seq 0 (length freq))) as H. rewrite length_seq in H. lia.
Qed.

Lemma toks_ok_count ts : forall out, toks_ok out ts -> (length out + length ts <= length (expand out ts))%nat.
Proof.
  induction ts as [|t ts IH]; intros out Hok; [cbn; lia|]. destruct Hok as [Ht Hok]. specialize (IH _ Hok).
  change (expand out (t :: ts)) with (expand (expand1 out t) ts). cbn [length].
  assert (length out + 1 <= length (expand1 out t))%nat; [|lia].
  destruct t as [l|len d]; cbn [expand1 tok_ok] in *.
  - rewrite length_app. destruct l; [done|]. cbn. lia.
  - rewrite length_copy_back. lia.
Qed.

Lemma lzh_roundtrip_any src e :
  bytes_ok src -> Z.of_nat (length src) <= FRAME -> encoder_ok e ->
  exists c e', compress src [] e = Some (c, e') /\ encoder_ok e' /\ bytes_ok c /\
    forall dst, length dst = length src -> decompress c dst = Ok src.
Proof.
  intros Hb Hf [Hh Hp]. unfold compress. destruct (Z.ltb_spec FRAME (Z.of_nat (length src))); [lia|].
  set (e0 := e <| head ::= map (fun _ => 0) |> <| toks := [] |>).
  assert (chains_ok src 0 e0) as Hc0.
  { split; cbn [e0 head prev update]; [unfold e0, update; cbn [head]; by rewrite length_map|done| |lia].
    intros h Hlt. left. unfold e0, update. cbn [head]. apply list_lookup_total_correct.
    rewrite list_lookup_fmap. rewrite (list_lookup_lookup_total_lt (head e)) by lia. done. }
  destruct (match_loop_spec src Hb Hf (length src) 0 e0) as (ts & Ets & Hok & Hexp & Hem); [lia|lia|done|].
  set (e1 := match_loop (length src) src 0 e0) in *. assert (toks e1 = ts) as -> by (rewrite Ets; done).
  rewrite take_0, firstn_all in *.
  assert (length ts <= length src)%nat as Hcount.
  { pose proof (toks_ok_count _ _ Hok) as H1. rewrite Hexp, length_map in H1. cbn in H1. lia. }
  pose proof (frequencies_spec ts Hem) as HF. destruct (frequencies ts) as [ll dd].
  destruct HF as (L1 & L2 & _ & _ & HP); [unfold FRAME in *; lia|].
  assert (lengths_ok ll MAX_BITS (code_lengths ll MAX_BITS)) as O1
    by (apply code_lengths_alphabet; rewrite L1; unfold LL_CODES, LEN_CODES; lia).
  assert (lengths_ok dd MAX_BITS (code_lengths dd MAX_BITS)) as O2
    by (apply code_lengths_alphabet; rewrite L2; unfold DIST_CODES; lia).
  set (ll_len := code_lengths ll MAX_BITS) in *. set (dd_len := code_lengths dd MAX_BITS) in *.
  pose proof (lengths_lens_ok _ _ O1) as K1. pose proof (lengths_lens_ok _ _ O2) as K2.
  pose proof (lo_length _ _ _ O1) as M1. rewrite L1 in M1. pose proof (lo_length _ _ _ O2) as M2. rewrite L2 in M2.
  assert (Forall (coded ll_len dd_len) ts) as Hcoded.
  { apply Forall_forall. intros t Ht. rewrite Forall_forall in Hem. specialize (Hem t Ht).
    destruct (symbol_bound t Hem) as [S1 S2]. destruct (HP t Ht) as [P1 P2]. split; [done|]. split.
    - exists (ll_len !!! symbol t). split; [apply list_lookup_lookup_total_lt; lia|].
      apply (lo_used _ _ _ O1), elem_of_used. split; [lia|done].
    - intros Hd. exists (dd_len !!! dist_symbol t). specialize (S2 Hd). split; [apply list_lookup_lookup_total_lt; lia|].
      apply (lo_used _ _ _ O2), elem_of_used. split; [lia|by apply P2]. }
  assert (Forall (fun l => l < 16)%nat (ll_len ++ dd_len)) as H16.
  { apply Forall_app. split; (eapply Forall_impl; [apply K1 || apply K2|]); cbn; unfold MAX_BITS; lia. }
  destruct (nibbles_spec HEADER (ll_len ++ dd_len)) as (_ & NB & _); [by rewrite length_app, M1, M2|done|].
  pose proof (put_toks_written ll_len dd_len K1 K2 (nibbles (ll_len ++ dd_len)) ts []
    (MkBitWriter (nibbles (ll_len ++ dd_len)) 0 0)) as HW.
  destruct (bw_finish_written (nibbles (ll_len ++ dd_len)) (toks_fields ll_len dd_len ts)
    (foldl (put_tok (codes ll_len) ll_len (codes dd_len) dd_len) (MkBitWriter (nibbles (ll_len ++ dd_len)) 0 0) ts))
    as (o & Eo & Ho & Hpack & Hw).
  { apply HW; [|done]. exists []. rewrite app_nil_r. split; [done|]. split; [constructor|].
    split; [split; cbn; lia|]. cbn. split; [done|]. split; [done|lia]. }
  exists (nibbles (ll_len ++ dd_len) ++ o), e1. cbn [app]. rewrite Eo. split; [done|].
  split; [apply encoder_ok_match_loop; by split; unfold e0, update; cbn [head prev]; rewrite ?length_map|].
  split; [by apply Forall_app|]. intros dst Hdst. unfold decompress. rewrite Hdst.
  destruct (Z.ltb_spec FRAME (Z.of_nat (length src))); [lia|].
  destruct (header_lens_spec (ll_len ++ dd_len) o) as [HL Hlen]; [by rewrite length_app, M1, M2|done|].
  destruct (Nat.ltb_spec (length (nibbles (ll_len ++ dd_len) ++ o)) HEADER) as [Hx|_]; [rewrite length_app in Hx; lia|].
  rewrite HL. rewrite take_app_length', drop_app_length' by done.
  rewrite (drop_app_length' (nibbles (ll_len ++ dd_len))) by done.
  pose proof (proj2 (table_accepts ll_len) K1) as T1. pose proof (proj2 (table_accepts dd_len) K2) as T2.
  destruct (table ll_len) as [tl|] eqn:E1; [|discriminate]. destruct (table dd_len) as [td|] eqn:E2; [|discriminate].
  transitivity (Ok (A := list Z) (E := Error) (expand [] (map out_tok ts))); [|by rewrite Hexp].
  apply (decompress_fields ll_len dd_len K2 tl td E1 E2 M1 M2 o Ho (S (length src)) ts
    (MkBitReader o 0 0 0) [] dst Hcoded Hok).
  - by rewrite Hexp, Hdst.
  - lia.
  - exists O. split; [apply at_bit_0|]. split; [|lia]. change (Z.of_nat 0) with 0. by rewrite Z.shiftr_0_r.
  - cbn. lia.
Qed.

(** C29: a frame compressed with LZ77 and Huffman codes decompresses to
    itself, whatever the encoder's memory holds from earlier frames and
    whatever the destination holds. *)
Theorem lzh_roundtrip src e :
  bytes_ok src -> Z.of_nat (length src) <= FRAME -> encoder_ok e ->
  exists c e', compress src [] e = Some (c, e') /\
    forall dst, length dst = length src -> decompress c dst = Ok src.
Proof.
  intros Hb Hf He. destruct (lzh_roundtrip_any src e Hb Hf He) as (c & e' & H1 & _ & _ & H2). eauto.
Qed.

Lemma encoder_new_ok : encoder_ok encoder_new.
Proof. split; apply length_replicate. Qed.

(** A frame of one run and a last byte. *)
Definition small_frame : list Z := [7; 7; 7; 7; 7; 7; 7; 7; 3].

Lemma lzh_roundtrip_witness :
  exists c e1, lzh.compress small_frame [] encoder_new = Some (c, e1) /\
    forall dst, length dst = 9%nat -> decompress c dst = Ok small_frame.
Proof.
  apply (lzh_roundtrip small_frame encoder_new);
    [repeat constructor; cbn; lia|unfold FRAME; cbn; lia|split; apply length_replicate].
Defined.
