(* ===== verification/SnapBlocks.v ===== *)
(** * Large data in blocks (crates/vetro-snapshot/src/blocks.rs)

    RAM, disks and GPU images: the blocks that are not zero, each raw,
    compressed, the copy of an earlier one, or in a frame of several
    ([encode]), and the reader that checks and places them ([decode]), over
    the interfaces [Source] and [Target]. The chunks given to [emit] are a
    list, and so are the blocks given to [visit]. [compress] and [decompress]
    of lib.rs are at the end. *)

From Stdlib Require Import ZArith Lia Bool.
From stdpp Require Import base gmap list numbers strings pretty.
From S2P Require Import Prelude SnapWire SnapFile SnapLz SnapLzh.
Local Open Scope Z_scope.
Local Open Scope vetro_scope.

Module blocks.

Definition RAW : Z := 0.
Definition LZ : Z := 1.
Definition SAME : Z := 2.
Definition FRAME : Z := 3.
Definition FRAME_BLOCKS : nat := Z.to_nat lzh.FRAME / BLOCK.
Definition FLUSH : nat := Z.to_nat (2 ^ 20).

(** [len.div_ceil(BLOCK)] blocks; the last one may be shorter. *)
Definition div_ceil (a b : nat) : nat := (a + (b - 1)) / b.
Definition block_count (len : nat) : nat := div_ceil len BLOCK.
Definition block_len (len i : nat) : nat := Nat.min BLOCK (len - i * BLOCK).

(** ** Writing *)

Record Out := MkOut { out_buf : list Z; emitted : list (list Z) }.

#[global] Instance eta_Out : Eta Out := fun o => MkOut (out_buf o) (emitted o).

Definition out_raw (b : list Z) (o : Out) : Out := o <| out_buf ::= fun x => x ++ b |>.
Definition out_u64 (v : Z) (o : Out) : Out := out_raw (to_le 8 v) o.
Definition maybe_flush (o : Out) : Out :=
  if (FLUSH <=? length (out_buf o))%nat then MkOut [] (emitted o ++ [out_buf o]) else o.

(** The variables of the loop of [encode]. *)
Record Enc := MkEnc {
  e_out : Out;
  e_first : gmap Z nat;
  e_table : lz.Table;
  e_lzh : option lzh.Encoder;
  e_frame : list nat;
  e_data : list Z;
  e_same : list (nat * nat);
}.

#[global] Instance eta_Enc : Eta Enc := fun e =>
  MkEnc (e_out e) (e_first e) (e_table e) (e_lzh e) (e_frame e) (e_data e) (e_same e).

Definition put_same (o : Out) (ij : nat * nat) : Out :=
  out_u64 (Z.of_nat ij.2) (out_raw [SAME] (out_u64 (Z.of_nat ij.1) o)).

Definition put_raw_block (i : nat) (b : list Z) (o : Out) : Out :=
  out_raw b (out_raw [RAW] (out_u64 (Z.of_nat i) o)).

(** The blocks of a frame that does not shrink, from position [at] of its data. *)
Fixpoint put_raw_blocks (len : nat) (frame : list nat) (data : list Z) (at_ : nat) (o : Out) : Out :=
  match frame with
  | [] => o
  | i :: frame =>
      let l := block_len len i in
      put_raw_blocks len frame data (at_ + l) (put_raw_block i (lz.slice data at_ (at_ + l)) o)
  end.

Definition put_frame (frame : list nat) (scratch : list Z) (o : Out) : Out :=
  let o := out_raw [FRAME] (out_u64 (Z.of_nat (frame !!! 0%nat)) o) in
  let o := out_raw (to_le 2 (Z.of_nat (length frame))) o in
  let o := foldl (fun o i => out_u64 (Z.of_nat i) o) o (tail frame) in
  out_raw scratch (out_raw (to_le 4 (Z.of_nat (length scratch))) o).

(** Compresses the pending blocks with [enc], then the copies that wait for
    them. [None] is the panic of the compressor on too long a frame. *)
Definition flush_frame (len : nat) (enc : lzh.Encoder) (e : Enc) : option Enc :=
  match
    match e_frame e with
    | [] => Some e
    | _ =>
        match lzh.compress (e_data e) [] enc with
        | None => None
        | Some (scratch, enc) =>
            let o := e_out e in
            let o := if (length scratch <? length (e_data e))%nat
                     then put_frame (e_frame e) scratch o
                     else put_raw_blocks len (e_frame e) (e_data e) 0 o in
            Some (e <| e_out := o |> <| e_lzh := Some enc |> <| e_frame := [] |> <| e_data := [] |>)
        end
    end
  with
  | None => None
  | Some e => Some (e <| e_out ::= fun o => maybe_flush (foldl put_same o (e_same e)) |> <| e_same := [] |>)
  end.

(** Block [i], not a copy: on its own with [lz], or to the pending frame. *)
Definition put_new (len i : nat) (b : list Z) (e : Enc) : option Enc :=
  match e_lzh e with
  | None =>
      let o := out_u64 (Z.of_nat i) (e_out e) in
      let '(scratch, t) := lz.compress b [] (e_table e) in
      let o := if (length scratch <? length b)%nat
               then out_raw scratch (out_raw (to_le 4 (Z.of_nat (length scratch))) (out_raw [LZ] o))
               else out_raw b (out_raw [RAW] o) in
      Some (e <| e_out := maybe_flush o |> <| e_table := t |>)
  | Some enc =>
      let e := e <| e_frame ::= fun f => f ++ [i] |> <| e_data ::= fun d => d ++ b |> in
      if (length (e_frame e) =? FRAME_BLOCKS)%nat then flush_frame len enc e else Some e
  end.

(** A turn of the loop of [encode]. *)
Definition encode_block (len : nat) (block : nat -> list Z) (e : Enc) (i : nat) : option Enc :=
  let b := block i in
  let h := hash64 b in
  match e_first e !! h with
  | Some j =>
      if bool_decide (block j = b) then
        match e_frame e with
        | [] => Some (e <| e_out ::= fun o => put_same o (i, j) |>)
        | _ => Some (e <| e_same ::= fun s => s ++ [(i, j)] |>)
        end
      else put_new len i b e
  | None => put_new len i b (e <| e_first ::= <[h := i]> |>)
  end.

Definition present (len : nat) (block : nat -> list Z) : list nat :=
  filter (fun i => is_zero (block i) = false) (seq 0 (block_count len)).

(** The state before the first block: length and count are written. *)
Definition encode_start (len : nat) (level : Level) (count : nat) : Enc :=
  MkEnc (out_u64 (Z.of_nat count) (out_u64 (Z.of_nat len) (MkOut [] []))) ∅ lz.table_new
    (match level with Small => Some lzh.encoder_new | Fast => None end) [] [] [].

(** The chunks given to [emit]. *)
Definition encode (len : nat) (level : Level) (block : nat -> list Z) : option (list (list Z)) :=
  let p := present len block in
  e ← foldl (fun e i => e ← e; encode_block len block e i) (Some (encode_start len level (length p))) p;
  e ← (match e_lzh e with Some enc => flush_frame len enc e | None => Some e end);
  let o := e_out e in
  Some (match out_buf o with [] => emitted o | b => emitted o ++ [b] end).

(** ** Reading *)

(** [trait Source]: the next [n] bytes. *)
Class Source (S : Type) := s_take : nat -> prog S Error (list Z).

#[global] Instance source_reader : Source Reader := r_raw.

(** [trait Target]: block [i], to read ([t_get]) and to write ([t_set]). *)
Class Target (T : Type) := {
  t_get : T -> nat -> list Z;
  t_set : nat -> list Z -> T -> T;
}.

(** [Slice]: a target over bytes. *)
#[global] Instance slice_target : Target (list Z) := {
  t_get data i := take (Nat.min (i * BLOCK + BLOCK) (length data) - i * BLOCK) (drop (i * BLOCK) data);
  t_set i b data := overwrite (i * BLOCK) b data;
}.

Record Dec (S T : Type) := MkDec {
  d_src : S;
  d_target : T;
  d_seen : list nat;
  d_done : list Z;
  d_last : option nat;
  d_frame_buf : list Z;
  d_covered : Z;
}.
Arguments MkDec {S T}.
Arguments d_src {S T} d.
Arguments d_target {S T} d.
Arguments d_seen {S T} d.
Arguments d_done {S T} d.
Arguments d_last {S T} d.
Arguments d_frame_buf {S T} d.
Arguments d_covered {S T} d.

#[global] Instance eta_Dec {S T} : Eta (Dec S T) := fun d =>
  MkDec (d_src d) (d_target d) (d_seen d) (d_done d) (d_last d) (d_frame_buf d) (d_covered d).

(** [is_done] and the mark of a block that is done: a bit each. *)
Definition is_done (d : list Z) (i : nat) : bool :=
  test_mask (d !!! (i / 64)%nat) (Z.shiftl 1 (Z.of_nat (i mod 64))).
Definition set_done (i : nat) (d : list Z) : list Z :=
  <[(i / 64)%nat := Z.lor (d !!! (i / 64)%nat) (Z.shiftl 1 (Z.of_nat (i mod 64)))]> d.

Section decode.
Context {S T : Type} `{!Source S} `{!Target T}.
Variable len : nat.

Local Abbreviation decoding := (prog (Dec S T) Error).

Definition d_take (n : nat) : decoding (list Z) := fun d =>
  let '(r, s) := s_take n (d_src d) in (r, d <| d_src := s |>).
Definition d_le (n : nat) : decoding Z := b ← d_take n; mret (from_le b).
Definition u64_of : decoding Z := d_le 8.

(** Marks block [i], which must be in the data and new, and after the last
    one when entries are in order. *)
Definition claim (i : Z) (ordered : bool) : decoding nat := fun d =>
  if (Z.of_nat (block_count len) <=? i) || is_done (d_done d) (Z.to_nat i)
     || (ordered && match d_last d with Some l => (Z.to_nat i <=? l)%nat | None => false end)
  then (Err (Invalid ("block " ++ pretty i ++ " out of place")), d)
  else
    let n := Z.to_nat i in
    let d := d <| d_done ::= set_done n |> in
    (Ok n, if ordered then d <| d_last := Some n |> else d).

(** Writes block [i] and visits it. *)
Definition place (i : nat) (b : list Z) : decoding unit :=
  modify (fun d => d <| d_target ::= t_set i b |> <| d_seen ::= fun s => s ++ [i] |>).

Definition cover (k : Z) : decoding unit := modify (fun d => d <| d_covered ::= Z.add k |>).

Definition of_result {A} (r : result A Error) : decoding A :=
  match r with Ok a => mret a | Err e => throw e end.

(** Entries of encodings 0 and 1. *)
Definition decode_one (enc first : Z) : decoding unit :=
  i ← claim first true;
  dst ← gets (fun d => t_get (d_target d) i);
  (if enc =? RAW then b ← d_take (length dst); place i b
   else n ← d_le 4; c ← d_take (Z.to_nat n); b ← of_result (lz.decompress c dst); place i b);;
  cover 1.

(** Encoding 2. *)
Definition decode_same (first : Z) : decoding unit :=
  i ← claim first false;
  j ← u64_of;
  done ← gets d_done;
  if (Z.of_nat i <=? j) || negb (is_done done (Z.to_nat j))
     || negb (block_len len (Z.to_nat j) =? block_len len i)%nat
  then throw (Invalid ("block " ++ pretty (Z.of_nat i) ++ ": copy of block " ++ pretty j))
  else
    b ← gets (fun d => t_get (d_target d) (Z.to_nat j));
    place i b;;
    cover 1.

Fixpoint claim_rest (n : nat) : decoding (list nat) :=
  match n with
  | O => mret []
  | Datatypes.S n => i ← u64_of; x ← claim i true; l ← claim_rest n; mret (x :: l)
  end.

(** [Vec::resize(n, 0)]. *)
Definition resize (n : nat) (l : list Z) : list Z := take n l ++ replicate (n - length l) 0.

(** The blocks of a frame, from position [at] of its bytes. *)
Fixpoint place_all (idx : list nat) (at_ : nat) : decoding unit :=
  match idx with
  | [] => mret tt
  | i :: idx =>
      l ← gets (fun d => length (t_get (d_target d) i));
      b ← gets (fun d => lz.slice (d_frame_buf d) at_ (at_ + l));
      place i b;;
      place_all idx (at_ + l)
  end.

(** Encoding 3. *)
Definition decode_frame (count first : Z) : decoding unit :=
  k ← d_le 2;
  covered ← gets d_covered;
  if (k =? 0) || (Z.of_nat FRAME_BLOCKS <? k) || (count <? covered + k)
  then throw (Invalid ("frame of " ++ pretty k ++ " blocks"))
  else
    i ← claim first true;
    rest ← claim_rest (Z.to_nat (k - 1));
    let idx := i :: rest in
    let total := sum_list_with (block_len len) idx in
    n ← d_le 4;
    modify (fun d => d <| d_frame_buf ::= resize total |>);;
    c ← d_take (Z.to_nat n);
    dst ← gets d_frame_buf;
    b ← of_result (lzh.decompress c dst);
    modify (fun d => d <| d_frame_buf := b |>);;
    place_all idx 0;;
    cover k.

Definition decode_entry (count : Z) : decoding unit :=
  first ← u64_of;
  e ← d_take 1;
  let enc := e !!! 0%nat in
  if (enc =? RAW) || (enc =? LZ) then decode_one enc first
  else if enc =? SAME then decode_same first
  else if enc =? FRAME then decode_frame count first
  else throw (Invalid ("block encoding " ++ pretty enc)).

(** [while covered < count]: every entry covers at least one block. *)
Fixpoint decode_loop (fuel : nat) (count : Z) : decoding unit :=
  match fuel with
  | O => mret tt
  | Datatypes.S fuel =>
      covered ← gets d_covered;
      if covered <? count then decode_entry count;; decode_loop fuel count else mret tt
  end.

Definition decode_all : decoding unit :=
  found ← u64_of;
  if negb (found =? Z.of_nat len)
  then throw (Invalid ("data of " ++ pretty found ++ " bytes, expected " ++ pretty (Z.of_nat len)))
  else
    count ← u64_of;
    if Z.of_nat (block_count len) <? count then throw (Invalid "more blocks than the data")
    else decode_loop (Z.to_nat count) count.

(** The source after the data, the target and the blocks visited. After an
    error the target is given up, and so it is not part of the result. *)
Definition decode (s : S) (t : T) : result (S * T * list nat) Error :=
  let d := MkDec s t [] (replicate (div_ceil (block_count len) 64) 0) None [] 0 in
  match decode_all d with
  | (Ok _, d) => Ok (d_src d, d_target d, d_seen d)
  | (Err e, _) => Err e
  end.

End decode.

End blocks.

(** ** lib.rs: [compress] and [decompress] *)

(** [&data[i * BLOCK..(i * BLOCK + BLOCK).min(data.len())]]. *)
Definition block_of (data : list Z) (i : nat) : list Z :=
  lz.slice data (i * BLOCK) (Nat.min (i * BLOCK + BLOCK) (length data)).

Definition compress (data : list Z) (w : Writer) : option Writer :=
  match w_marks w with
  | Some m =>
      Some (w <| w_marks := Some (m ++ [MBlocks (Z.of_nat (length (w_buf w))) (Z.of_nat (length data))]) |>
              <| w_buf ::= fun b => b ++ data |>)
  | None =>
      chunks ← blocks.encode (length data) (w_level w) (block_of data);
      Some (foldl (fun w c => w_raw c w) w chunks)
  end.

Definition decompress_into (out : list Z) (r : Reader) : result (Reader * list Z * list nat) Error :=
  blocks.decode (length out) r out.

Definition decompress (r : Reader) : result (Reader * list Z) Error :=
  match r_u64 r with
  | (Err e, _) => Err e
  | (Ok len, _) =>
      if 2 ^ 40 <? len then Err (Invalid ("data of " ++ pretty len ++ " bytes"))
      else map_ok fst (decompress_into (replicate (Z.to_nat len) 0) r)
  end.
