(* ===== verification/SnapBlocksProof.v ===== *)
(** * The block store round trip (theorems about SnapBlocks)

    What [encode] writes is a sequence of entries, each in its place; [decode]
    takes such entries back one by one. So data comes back whatever its
    blocks are, at both levels, over any source and target that keep their
    laws. *)

From Stdlib Require Import ZArith Lia Bool Sorted.
From stdpp Require Import base gmap list sets numbers strings pretty sorting.
From S2P Require Import Prelude SnapWire SnapCodec SnapFile SnapLz SnapLzh SnapLzhProof SnapBlocks.
Local Open Scope Z_scope.
Local Open Scope vetro_scope.
Import blocks.

(** ** The interfaces *)

(** A source is a stream of bytes that [take] moves along. *)
Class SourceLaws (S : Type) `{!Source S} := {
  stream : S -> list Z;
  skip : nat -> S -> S;
  take_spec n s : s_take n s = if (length (stream s) <? n)%nat then (Err Truncated, s)
                               else (Ok (take n (stream s)), skip n s);
  stream_skip n s : stream (skip n s) = drop n (stream s);
  skip_0 s : skip 0 s = s;
  skip_skip n m s : skip m (skip n s) = skip (n + m) s;
}.

(** A target of [len] bytes holds a value for each block. *)
Class TargetLaws (T : Type) `{!Target T} (len : nat) := {
  t_ok : T -> Prop;
  get_length t i : t_ok t -> (i < block_count len)%nat -> length (t_get t i) = block_len len i;
  set_ok t i b : t_ok t -> (i < block_count len)%nat -> length b = block_len len i -> t_ok (t_set i b t);
  get_set t i j b : t_ok t -> (i < block_count len)%nat -> (j < block_count len)%nat ->
    length b = block_len len i -> t_get (t_set i b t) j = if decide (i = j) then b else t_get t j;
}.

#[global] Program Instance source_reader_laws : SourceLaws Reader := {
  stream := unread;
  skip n r := r <| r_pos ::= fun p => (p + n)%nat |>;
}.
Next Obligation. intros n s. unfold s_take, source_reader, r_raw, unread, remaining. by rewrite length_drop. Qed.
Next Obligation. intros n s. unfold unread, update. cbn [r_pos r_buf]. by rewrite drop_drop. Qed.
Next Obligation. intros [b p t]. unfold update. cbn. by rewrite Nat.add_0_r. Qed.
Next Obligation. intros n m s. unfold update. cbn [r_pos r_buf r_tag]. by rewrite Nat.add_assoc. Qed.

Lemma frame_blocks_64 : Z.of_nat FRAME_BLOCKS = 64.
Proof. vm_compute. reflexivity. Qed.

Lemma BLOCK_pos : (0 < BLOCK)%nat.
Proof. unfold BLOCK. lia. Qed.

Lemma block_len_in len i : (i < block_count len)%nat <-> (i * BLOCK < len)%nat.
Proof.
  pose proof BLOCK_pos. unfold block_count, div_ceil. split; intros Hi.
  - assert (S i * BLOCK <= len + (BLOCK - 1))%nat; [|lia].
    pose proof (Nat.Div0.mul_div_le (len + (BLOCK - 1)) BLOCK). nia.
  - apply Nat.div_le_lower_bound; lia.
Qed.

Lemma block_len_bounds len i : (i < block_count len)%nat ->
  (0 < block_len len i <= BLOCK)%nat /\ (i * BLOCK + block_len len i <= len)%nat.
Proof. intros Hi%block_len_in. pose proof BLOCK_pos. unfold block_len. lia. Qed.

Lemma block_apart len i j : (i < j)%nat -> (j < block_count len)%nat -> (i * BLOCK + block_len len i <= j * BLOCK)%nat.
Proof. intros Hij Hj%block_len_in. unfold block_len. nia. Qed.

#[global] Program Instance slice_target_laws len : TargetLaws (list Z) len := {
  t_ok t := length t = len;
}.
Next Obligation.
  intros len t i Ht Hi. cbv beta in Ht. cbn [t_get slice_target]. rewrite length_take, length_drop, Ht.
  apply block_len_in in Hi. unfold block_len. clear Ht. generalize dependent (i * BLOCK)%nat. intros. lia.
Qed.
Next Obligation.
  intros len t i b Ht Hi Hb. cbv beta in *. destruct (block_len_bounds len i Hi). cbn [t_set slice_target]. unfold overwrite.
  rewrite !length_app, length_take, length_drop. lia.
Qed.
Next Obligation.
  intros len t i j b Ht Hi Hj Hb. cbv beta in Ht. destruct (block_len_bounds len i Hi), (block_len_bounds len j Hj). cbn [t_get t_set slice_target].
  assert (length (overwrite (i * BLOCK) b t) = length t) as El.
  { unfold overwrite. rewrite !length_app, length_take, length_drop. lia. }
  rewrite El, Ht. replace (Nat.min (j * BLOCK + BLOCK) len - j * BLOCK)%nat with (block_len len j)
    by (apply block_len_in in Hj; unfold block_len; lia).
  unfold overwrite. destruct (decide (i = j)) as [->|Hne].
  - rewrite drop_app_length' by (rewrite length_take; lia). by rewrite take_app_length' by done.
  - destruct (decide (i < j)%nat) as [Hlt|Hge].
    + pose proof (block_apart len i j Hlt Hj). rewrite app_assoc, drop_app_ge by (rewrite length_app, length_take; lia).
      rewrite drop_drop, length_app, length_take. f_equal. f_equal. lia.
    + pose proof (block_apart len j i ltac:(lia) Hi). rewrite drop_app_le by (rewrite length_take; lia).
      rewrite take_app_le by (rewrite length_drop, length_take; lia).
      rewrite skipn_firstn_comm, take_take. f_equal. lia.
Qed.

(** ** The bits of the blocks that are done *)

Lemma is_done_bit d i : is_done d i = Z.testbit (d !!! (i / 64)%nat) (Z.of_nat (i mod 64)).
Proof. unfold is_done. by rewrite Z.shiftl_1_l, test_mask_bit by lia. Qed.

Lemma length_set_done i d : length (set_done i d) = length d.
Proof. apply length_insert. Qed.

Lemma is_done_set i j d : (i / 64 < length d)%nat ->
  is_done (set_done i d) j = bool_decide (i = j) || is_done d j.
Proof.
  intros Hi. rewrite !is_done_bit. unfold set_done. destruct (decide (j / 64 = i / 64)%nat) as [E|E].
  - rewrite E, list_lookup_total_insert_eq by done. rewrite Z.lor_spec, Z.shiftl_1_l, Z.pow2_bits_eqb by lia.
    rewrite orb_comm. f_equal. pose proof (Nat.div_mod_eq i 64). pose proof (Nat.div_mod_eq j 64).
    destruct (Z.eqb_spec (Z.of_nat (i mod 64)) (Z.of_nat (j mod 64))) as [E1|E1]; symmetry.
    + apply bool_decide_eq_true. lia.
    + apply bool_decide_eq_false. intros ->. lia.
  - rewrite list_lookup_total_insert_ne by done. rewrite bool_decide_eq_false_2; [done|]. by intros ->.
Qed.

Lemma word_in_range len i : (i < block_count len)%nat -> (i / 64 < div_ceil (block_count len) 64)%nat.
Proof.
  intros Hi. unfold div_ceil at 1. apply Nat.div_le_lower_bound; [lia|].
  pose proof (Nat.div_mod_eq i 64). lia.
Qed.

Lemma is_done_zeros n i : is_done (replicate n 0) i = false \/ (n <= i / 64)%nat.
Proof.
  destruct (decide (i / 64 < n)%nat) as [H|H]; [left|right; lia].
  rewrite is_done_bit, lookup_total_replicate_2 by done. apply Z.bits_0.
Qed.

(** ** Reading entries *)

(** What the decoder has claimed, placed, last claimed in order, covered, and
    its buffer. *)
Record ghost := MkGhost {
  g_claimed : list nat; g_seen : list nat; g_last : option nat; g_covered : Z; g_buf : list Z }.

Section reading.
Context {S T : Type} `{!Source S} `{!Target T} `{!SourceLaws S}.
Variable len : nat.
Context `{!TargetLaws T len}.
Variable block : nat -> list Z.
Variable t0 : T.

Local Abbreviation blocks := (block_count len).
Hypothesis t0_ok : t_ok (len := len) t0.
Hypothesis block_size : forall i, (i < blocks)%nat -> length (block i) = block_len len i.

(** Decoder [d] is at [g]: the blocks seen are in the target, the others are
    as they were. *)
Record at_ghost (g : ghost) (d : Dec S T) : Prop := {
  at_ok : t_ok (len := len) (d_target d);
  at_words : length (d_done d) = div_ceil blocks 64;
  at_done i : (i < blocks)%nat -> is_done (d_done d) i = bool_decide (i ∈ g_claimed g);
  at_blocks i : (i < blocks)%nat ->
    t_get (d_target d) i = if decide (i ∈ g_seen g) then block i else t_get t0 i;
  at_seen : d_seen d = g_seen g;
  at_last : d_last d = g_last g;
  at_covered : d_covered d = g_covered g;
  at_buf : d_frame_buf d = g_buf g;
}.

(** From [g], [m] takes the bytes [b], gives [a] and leads to [g']. *)
Definition run {A} (g : ghost) (m : prog (Dec S T) Error A) (b : list Z) (a : A) (g' : ghost) : Prop :=
  forall d rest, at_ghost g d -> stream (d_src d) = b ++ rest ->
    exists d', m d = (Ok a, d') /\ at_ghost g' d' /\ d_src d' = skip (length b) (d_src d).

Lemma run_bind {A B} g1 g2 g3 (m : prog (Dec S T) Error A) (k : A -> prog (Dec S T) Error B) b1 b2 a c :
  run g1 m b1 a g2 -> run g2 (k a) b2 c g3 -> run g1 (mbind k m) (b1 ++ b2) c g3.
Proof.
  intros Hm Hk d rest Hd Hs. rewrite <- app_assoc in Hs. destruct (Hm d _ Hd Hs) as (d1 & E1 & H1 & S1).
  destruct (Hk d1 rest H1) as (d2 & E2 & H2 & S2).
  { rewrite S1, stream_skip, Hs. by apply drop_app_length'. }
  exists d2. unfold mbind, prog_bind. rewrite E1. split; [done|]. split; [done|].
  by rewrite S2, S1, skip_skip, length_app.
Qed.

(** Steps that take no bytes. *)
Lemma run_bind_nil {A B} g1 g2 g3 (m : prog (Dec S T) Error A) (k : A -> prog (Dec S T) Error B) b a c :
  run g1 m [] a g2 -> run g2 (k a) b c g3 -> run g1 (mbind k m) b c g3.
Proof. apply run_bind. Qed.

Lemma run_ret {A} g (a : A) : run g (mret a) [] a g.
Proof. intros d rest Hd _. exists d. split; [done|]. split; [done|]. by rewrite skip_0. Qed.

Lemma run_gets {A} g (f : Dec S T -> A) a : (forall d, at_ghost g d -> f d = a) -> run g (gets f) [] a g.
Proof. intros Hf d rest Hd _. exists d. unfold gets. rewrite (Hf d Hd). split; [done|]. split; [done|]. by rewrite skip_0. Qed.

Lemma run_modify g (f : Dec S T -> Dec S T) g' :
  (forall d, at_ghost g d -> at_ghost g' (f d) /\ d_src (f d) = d_src d) -> run g (modify f) [] tt g'.
Proof.
  intros Hf d rest Hd _. destruct (Hf d Hd). exists (f d). split; [done|]. split; [done|]. by rewrite skip_0.
Qed.

Lemma run_take g b n : length b = n -> run g (d_take n) b b g.
Proof.
  intros <- d rest [H1 H2 H3 H4 H5 H6 H7 H8] Hs. unfold d_take. rewrite take_spec, Hs.
  destruct (Nat.ltb_spec (length (b ++ rest)) (length b)) as [Hx|_]; [rewrite length_app in Hx; lia|].
  rewrite take_app_length. eexists. split; [reflexivity|]. by split.
Qed.

Lemma run_le g n v : is_u (8 * Z.of_nat n) v -> run g (d_le n) (to_le n v) v g.
Proof.
  intros Hv. unfold d_le. rewrite <- (app_nil_r (to_le n v)). eapply run_bind; [apply run_take, length_to_le|].
  rewrite from_to_le, mod_is_u by done. apply run_ret.
Qed.

Lemma run_u64 g v : is_u 64 v -> run g u64_of (to_le 8 v) v g.
Proof. apply (run_le g 8). Qed.

(** Block [i] may be claimed. *)
Definition fresh (cl : list nat) (last : option nat) (i : nat) : Prop :=
  (i < blocks)%nat /\ i ∉ cl /\ match last with Some l => (l < i)%nat | None => True end.

Lemma run_claim g i (ordered : bool) :
  fresh (g_claimed g) (if ordered then g_last g else None) i ->
  run g (claim len (Z.of_nat i) ordered) [] i
    (MkGhost (g_claimed g ++ [i]) (g_seen g) (if ordered then Some i else g_last g) (g_covered g) (g_buf g)).
Proof.
  intros (Hi & Hn & Hl) d rest [H1 H2 H3 H4 H5 H6 H7 H8] _. unfold claim. rewrite Nat2Z.id.
  destruct (Z.leb_spec (Z.of_nat blocks) (Z.of_nat i)); [lia|].
  rewrite H3, bool_decide_eq_false_2 by done. rewrite H6. cbn [orb].
  assert (ordered && match g_last g with Some l => (i <=? l)%nat | None => false end = false) as ->.
  { destruct ordered; [|done]. destruct (g_last g) as [l|]; [|done]. by apply Nat.leb_gt. }
  eexists. split; [reflexivity|]. rewrite skip_0. split; [|by destruct ordered].
  assert (i / 64 < length (d_done d))%nat as Hw by (rewrite H2; by apply word_in_range).
  destruct ordered; unfold update; split; cbn [d_target d_done d_seen d_last d_covered d_frame_buf g_claimed
    g_seen g_last g_covered g_buf]; try done; try (by rewrite length_set_done);
    (intros j Hj; rewrite is_done_set, H3 by done; apply eq_bool_prop_intro;
     rewrite orb_True, !bool_decide_spec; set_solver).
Qed.

Lemma run_place g i b :
  (i < blocks)%nat -> b = block i ->
  run g (place i b) [] tt (MkGhost (g_claimed g) (g_seen g ++ [i]) (g_last g) (g_covered g) (g_buf g)).
Proof.
  intros Hi ->. apply run_modify. intros d [H1 H2 H3 H4 H5 H6 H7 H8]. split; [|done].
  unfold update. split; cbn [d_target d_done d_seen d_last d_covered d_frame_buf g_claimed g_seen g_last
    g_covered g_buf]; try done.
  - apply set_ok; [done|done|by apply block_size].
  - intros j Hj. rewrite (get_set (len := len)) by (done || by apply block_size). rewrite H4 by done.
    destruct (decide (i = j)) as [->|].
    + rewrite decide_True; [done|]. set_solver.
    + destruct (decide (j ∈ g_seen g)); [rewrite decide_True by set_solver; done|rewrite decide_False by set_solver; done].
  - by rewrite H5.
Qed.

Lemma run_cover g k :
  run g (cover k) [] tt (MkGhost (g_claimed g) (g_seen g) (g_last g) (g_covered g + k) (g_buf g)).
Proof.
  apply run_modify. intros d [H1 H2 H3 H4 H5 H6 H7 H8]. split; [|done].
  unfold update. split; cbn; try done. rewrite H7. lia.
Qed.

Lemma run_buf g f :
  run g (modify (fun d => d <| d_frame_buf ::= f |>)) [] tt
    (MkGhost (g_claimed g) (g_seen g) (g_last g) (g_covered g) (f (g_buf g))).
Proof.
  apply run_modify. intros d [H1 H2 H3 H4 H5 H6 H7 H8]. split; [|reflexivity]. unfold update.
  split; [exact H1|exact H2|exact H3|exact H4|exact H5|exact H6|exact H7|]. cbn [d_frame_buf g_buf]. by rewrite H8.
Qed.

(** ** Entries *)

Fixpoint fresh_seq (cl : list nat) (last : option nat) (is_ : list nat) : Prop :=
  match is_ with
  | [] => True
  | i :: is_ => fresh cl last i /\ fresh_seq (cl ++ [i]) (Some i) is_
  end.

(** The last of [is_], or [last] when there is none. *)
Definition last_of (last : option nat) (is_ : list nat) : option nat := foldl (fun _ i => Some i) last is_.

Lemma run_claim_rest g is_ :
  Forall (fun i => is_u 64 (Z.of_nat i)) is_ -> fresh_seq (g_claimed g) (g_last g) is_ ->
  run g (claim_rest len (length is_)) (concat (map (fun i => to_le 8 (Z.of_nat i)) is_)) is_
    (MkGhost (g_claimed g ++ is_) (g_seen g) (last_of (g_last g) is_) (g_covered g) (g_buf g)).
Proof.
  revert g. induction is_ as [|i is_ IH]; intros g Hu Hf.
  - cbn. rewrite app_nil_r. destruct g. apply run_ret.
  - apply Forall_cons in Hu as [Hi Hu]. destruct Hf as [Hf Hfs]. cbn [length claim_rest map concat].
    eapply run_bind; [by apply run_u64|]. eapply run_bind_nil; [by apply run_claim|].
    rewrite <- (app_nil_r (concat _)). eapply run_bind; [by apply IH|]. cbn. rewrite <- app_assoc. apply run_ret.
Qed.

Lemma run_place_all g is_ pre :
  Forall (fun i => i < blocks)%nat is_ ->
  g_buf g = pre ++ concat (map block is_) ->
  run g (place_all is_ (length pre)) [] tt
    (MkGhost (g_claimed g) (g_seen g ++ is_) (g_last g) (g_covered g) (g_buf g)).
Proof.
  revert g pre. induction is_ as [|i is_ IH]; intros g pre Hb Hbuf.
  - cbn. rewrite app_nil_r. destruct g. apply run_ret.
  - apply Forall_cons in Hb as [Hi Hb]. cbn [place_all]. cbn [map concat] in Hbuf.
    eapply run_bind_nil.
    { apply (run_gets _ _ (block_len len i)). intros d Hd. apply get_length; [apply Hd|done]. }
    eapply run_bind_nil.
    { apply (run_gets _ _ (block i)). intros d Hd. rewrite (at_buf _ _ Hd), Hbuf. unfold lz.slice.
      rewrite drop_app_length. apply take_app_length'. rewrite block_size by done. lia. }
    eapply run_bind_nil; [by apply run_place|].
    rewrite <- (block_size i Hi), <- length_app.
    pose proof (IH (MkGhost (g_claimed g) (g_seen g ++ [i]) (g_last g) (g_covered g) (g_buf g)) (pre ++ block i) Hb) as H.
    cbn in H. rewrite <- !app_assoc in H. by apply H.
Qed.

Inductive entry :=
| ERaw (i : nat) (b : list Z)
| ELz (i : nat) (c : list Z)
| ESame (i j : nat)
| EFrame (i : nat) (is_ : list nat) (c : list Z).

Definition entry_bytes (e : entry) : list Z :=
  match e with
  | ERaw i b => to_le 8 (Z.of_nat i) ++ [RAW] ++ b
  | ELz i c => to_le 8 (Z.of_nat i) ++ [LZ] ++ to_le 4 (Z.of_nat (length c)) ++ c
  | ESame i j => to_le 8 (Z.of_nat i) ++ [SAME] ++ to_le 8 (Z.of_nat j)
  | EFrame i is_ c =>
      to_le 8 (Z.of_nat i) ++ [FRAME] ++ to_le 2 (Z.of_nat (length (i :: is_)))
      ++ concat (map (fun i => to_le 8 (Z.of_nat i)) is_) ++ to_le 4 (Z.of_nat (length c)) ++ c
  end.

Definition entry_blocks (e : entry) : list nat :=
  match e with ERaw i _ | ELz i _ | ESame i _ => [i] | EFrame i is_ _ => i :: is_ end.

Definition entry_last (last : option nat) (e : entry) : option nat :=
  match e with ESame _ _ => last | e => last_of last (entry_blocks e) end.

(** An entry in its place: its blocks are new and in order, and decode to the
    blocks of the data. *)
Definition good (seen : list nat) (last : option nat) (e : entry) : Prop :=
  match e with
  | ERaw i b => fresh seen last i /\ b = block i
  | ELz i c => fresh seen last i /\ is_u 32 (Z.of_nat (length c)) /\
      forall dst, length dst = block_len len i -> lz.decompress c dst = Ok (block i)
  | ESame i j => fresh seen None i /\ (j < i)%nat /\ j ∈ seen /\ block j = block i
  | EFrame i is_ c => fresh_seq seen last (i :: is_) /\ (length (i :: is_) <= FRAME_BLOCKS)%nat /\
      is_u 32 (Z.of_nat (length c)) /\
      forall dst, length dst = length (concat (map block (i :: is_))) ->
        lzh.decompress c dst = Ok (concat (map block (i :: is_)))
  end.

Hypothesis len_u64 : is_u 64 (Z.of_nat len).

Lemma index_u64 i : (i < blocks)%nat -> is_u 64 (Z.of_nat i).
Proof.
  intros Hi%block_len_in. pose proof BLOCK_pos. destruct len_u64. split; [lia|]. nia.
Qed.

Lemma fresh_seq_in cl last is_ : fresh_seq cl last is_ -> Forall (fun i => i < blocks)%nat is_.
Proof.
  revert cl last. induction is_ as [|i is_ IH]; intros cl last Hf; [constructor|].
  destruct Hf as [[Hi _] Hf]. constructor; [done|]. by eapply IH.
Qed.

Lemma total_length is_ : Forall (fun i => i < blocks)%nat is_ ->
  sum_list_with (block_len len) is_ = length (concat (map block is_)).
Proof.
  induction 1 as [|i is_ Hi _ IH]; [done|]. cbn [sum_list_with map concat]. by rewrite length_app, IH, block_size.
Qed.

Lemma length_resize n l : length (resize n l) = n.
Proof. unfold resize. rewrite length_app, length_take, length_replicate. lia. Qed.

Local Ltac covered := cbn [g_claimed g_seen g_last g_covered g_buf]; apply (run_cover (MkGhost _ _ _ _ _)).

(** A block on its own: [m] makes its bytes from what the target holds. *)
Lemma run_one g enc i b :
  fresh (g_claimed g) (g_last g) i -> g_claimed g = g_seen g ->
  (forall g' dst, length dst = block_len len i ->
    run g' (if enc =? RAW then b ← d_take (length dst); place i b
            else n ← d_le 4; c ← d_take (Z.to_nat n); b ← of_result (lz.decompress c dst); place i b) b tt
      (MkGhost (g_claimed g') (g_seen g' ++ [i]) (g_last g') (g_covered g') (g_buf g'))) ->
  run g (decode_one len enc (Z.of_nat i)) b tt
    (MkGhost (g_claimed g ++ [i]) (g_seen g ++ [i]) (Some i) (g_covered g + 1) (g_buf g)).
Proof.
  intros Hf Hcs Hm. pose proof (proj1 Hf) as Hi. eapply run_bind_nil; [by apply (run_claim g i true)|].
  eapply run_bind_nil.
  { apply (run_gets _ _ (t_get t0 i)). intros d Hd. rewrite (at_blocks _ _ Hd) by done. cbn [g_seen].
    rewrite decide_False; [done|]. rewrite <- Hcs. apply Hf. }
  rewrite <- (app_nil_r b). eapply run_bind; [apply Hm; by apply get_length|]. covered.
Qed.

Lemma run_same g i j :
  fresh (g_claimed g) None i -> g_claimed g = g_seen g -> (j < i)%nat -> j ∈ g_seen g -> block j = block i ->
  run g (decode_same len (Z.of_nat i)) (to_le 8 (Z.of_nat j)) tt
    (MkGhost (g_claimed g ++ [i]) (g_seen g ++ [i]) (g_last g) (g_covered g + 1) (g_buf g)).
Proof.
  intros Hf Hcs Hji Hj Hb. pose proof (proj1 Hf) as Hi. assert (j < blocks)%nat as Hjb by lia.
  eapply run_bind_nil; [by apply (run_claim g i false)|].
  rewrite <- (app_nil_r (to_le 8 _)). eapply run_bind; [by apply run_u64, index_u64|].
  intros d rest Hd. unfold mbind at 1, prog_bind at 1, gets at 1. rewrite Nat2Z.id.
  rewrite (at_done _ _ Hd), bool_decide_eq_true_2 by (done || (cbn [g_claimed]; rewrite Hcs; apply elem_of_app; by left)).
  rewrite <- !block_size, Hb, Nat.eqb_refl by done. destruct (Z.leb_spec (Z.of_nat i) (Z.of_nat j)); [lia|].
  cbn [orb negb]. revert d rest Hd. eapply run_bind_nil.
  { apply (run_gets _ _ (block i)). intros d Hd. rewrite (at_blocks _ _ Hd) by done. cbn [g_seen].
    by rewrite decide_True by done. }
  eapply run_bind_nil; [by apply run_place|]. covered.
Qed.

Lemma run_frame g count i is_ c :
  fresh_seq (g_claimed g) (g_last g) (i :: is_) -> g_claimed g = g_seen g ->
  (length (i :: is_) <= FRAME_BLOCKS)%nat -> g_covered g + Z.of_nat (length (i :: is_)) <= count ->
  is_u 32 (Z.of_nat (length c)) ->
  (forall dst, length dst = length (concat (map block (i :: is_))) ->
    lzh.decompress c dst = Ok (concat (map block (i :: is_)))) ->
  run g (decode_frame len count (Z.of_nat i))
    (to_le 2 (Z.of_nat (length (i :: is_))) ++ concat (map (fun i => to_le 8 (Z.of_nat i)) is_)
      ++ to_le 4 (Z.of_nat (length c)) ++ c) tt
    (MkGhost (g_claimed g ++ i :: is_) (g_seen g ++ i :: is_) (last_of (g_last g) (i :: is_))
      (g_covered g + Z.of_nat (length (i :: is_))) (concat (map block (i :: is_)))).
Proof.
  intros Hfs Hcs Hk Hcount Hc Hdec. pose proof (fresh_seq_in _ _ _ Hfs) as Hin.
  pose proof frame_blocks_64 as H64.
  destruct Hfs as [Hf Hfs]. cbn [length] in *.
  eapply run_bind; [apply (run_le _ 2); split; cbn; lia|].
  eapply run_bind_nil; [apply (run_gets _ _ (g_covered g)); intros d Hd; apply Hd|].
  destruct (Z.eqb_spec (Z.of_nat (Datatypes.S (length is_))) 0); [lia|].
  destruct (Z.ltb_spec (Z.of_nat FRAME_BLOCKS) (Z.of_nat (Datatypes.S (length is_)))); [lia|].
  destruct (Z.ltb_spec count (g_covered g + Z.of_nat (Datatypes.S (length is_)))); [lia|]. cbn [orb].
  eapply run_bind_nil; [by apply (run_claim g i true)|].
  replace (Z.to_nat (Z.of_nat (Datatypes.S (length is_)) - 1)) with (length is_) by lia.
  eapply run_bind.
  { apply run_claim_rest; [|done]. apply Forall_cons in Hin as [_ Hin].
    eapply Forall_impl; [exact Hin|]. intros x. apply index_u64. }
  cbn zeta. rewrite total_length by done.
  eapply run_bind; [by apply (run_le _ 4)|]. rewrite Nat2Z.id.
  set (frame := concat (map block (i :: is_))) in *. cbn [g_claimed g_seen g_last g_covered g_buf].
  eapply run_bind_nil; [apply run_buf|]. cbn [g_claimed g_seen g_last g_covered g_buf].
  rewrite <- (app_nil_r c) at 2. eapply run_bind; [by apply run_take|].
  eapply run_bind_nil; [apply (run_gets _ _ (resize (length frame) (g_buf g))); intros d Hd; apply Hd|].
  rewrite Hdec by apply length_resize. eapply run_bind_nil; [apply run_ret|].
  eapply run_bind_nil; [apply (run_buf _ (fun _ => frame))|]. cbn [g_claimed g_seen g_last g_covered g_buf].
  eapply run_bind_nil; [by apply (run_place_all _ (i :: is_) [])|].
  cbn [g_claimed g_seen g_last g_covered g_buf]. rewrite <- app_assoc. covered.
Qed.

Lemma run_entry g count e :
  g_claimed g = g_seen g -> good (g_seen g) (g_last g) e ->
  g_covered g + Z.of_nat (length (entry_blocks e)) <= count ->
  exists buf, run g (decode_entry len count) (entry_bytes e) tt
    (MkGhost (g_claimed g ++ entry_blocks e) (g_seen g ++ entry_blocks e) (entry_last (g_last g) e)
      (g_covered g + Z.of_nat (length (entry_blocks e))) buf).
Proof.
  intros Hcs Hg Hcount. pose proof Hg as Hg'.
  assert (forall x i rest g', (i < blocks)%nat ->
    run g (if (x =? RAW) || (x =? LZ) then decode_one len x (Z.of_nat i)
                else if x =? SAME then decode_same len (Z.of_nat i)
                else if x =? FRAME then decode_frame len count (Z.of_nat i)
                else throw (Invalid ("block encoding " ++ pretty x))) rest tt g' ->
    run g (decode_entry len count) (to_le 8 (Z.of_nat i) ++ [x] ++ rest) tt g') as Hgen.
  { intros x i rest g' Hi Hx. eapply run_bind; [by apply run_u64, index_u64|].
    eapply run_bind; [by apply run_take|]. exact Hx. }
  destruct e as [i b|i c|i j|i is_ c]; cbn [good] in Hg; cbn [entry_bytes entry_blocks entry_last].
  - destruct Hg as [Hf ->]. exists (g_buf g). apply Hgen; [apply Hf|].
    cbn [Z.eqb orb]. apply run_one; [by rewrite Hcs|done|]. intros g' dst Hdst. cbn [Z.eqb].
    rewrite <- (app_nil_r (block i)). eapply run_bind; [apply run_take; rewrite block_size by apply Hf; done|].
    apply run_place; [apply Hf|done].
  - destruct Hg as (Hf & Hc & Hd). exists (g_buf g).
    apply Hgen; [apply Hf|].
    change ((LZ =? RAW) || (LZ =? LZ)) with true. cbn iota. apply run_one; [by rewrite Hcs|done|].
    intros g' dst Hdst. change (LZ =? RAW) with false. cbn iota. eapply run_bind; [by apply (run_le _ 4)|].
    rewrite Nat2Z.id, <- (app_nil_r c). eapply run_bind; [apply run_take; by rewrite app_nil_r|].
    rewrite Hd by done. eapply run_bind_nil; [apply run_ret|]. apply run_place; [apply Hf|done].
  - destruct Hg as (Hf & Hji & Hj & Hb). exists (g_buf g).
    apply Hgen; [apply Hf|].
    change ((SAME =? RAW) || (SAME =? LZ)) with false. change (SAME =? SAME) with true. cbn iota.
    apply run_same; [by rewrite Hcs|done..].
  - destruct Hg as (Hf & Hk & Hc & Hd). exists (concat (map block (i :: is_))).
    apply Hgen; [apply Hf|].
    change ((FRAME =? RAW) || (FRAME =? LZ)) with false. change (FRAME =? SAME) with false.
    change (FRAME =? FRAME) with true. cbn iota. apply run_frame; [by rewrite Hcs|done..].
Qed.

Fixpoint goods (seen : list nat) (last : option nat) (es : list entry) : Prop :=
  match es with
  | [] => True
  | e :: es => good seen last e /\ goods (seen ++ entry_blocks e) (entry_last last e) es
  end.

Definition all_blocks (es : list entry) : list nat := concat (map entry_blocks es).

Lemma entry_blocks_pos e : (0 < length (entry_blocks e))%nat.
Proof. destruct e; cbn; lia. Qed.

Lemma run_loop es : forall fuel g count,
  g_claimed g = g_seen g -> goods (g_seen g) (g_last g) es ->
  g_covered g + Z.of_nat (length (all_blocks es)) = count -> (length es <= fuel)%nat ->
  exists g', run g (decode_loop len fuel count) (concat (map entry_bytes es)) tt g' /\
    g_seen g' = g_seen g ++ all_blocks es.
Proof.
  induction es as [|e es IH]; intros fuel g count Hcs Hg Hcount Hf.
  - exists g. cbn. rewrite app_nil_r. split; [|done]. destruct fuel as [|fuel]; cbn [decode_loop]; [apply run_ret|].
    eapply run_bind_nil; [apply (run_gets _ _ (g_covered g)); intros d Hd; apply Hd|].
    destruct (Z.ltb_spec (g_covered g) count) as [Hlt|_]; [cbn in Hcount; lia|]. apply run_ret.
  - destruct Hg as [Hg Hgs]. unfold all_blocks in *. cbn [map concat length] in *. rewrite length_app in Hcount.
    destruct fuel as [|fuel]; [lia|]. destruct (run_entry g count e Hcs Hg) as [buf Hr]; [lia|].
    match type of Hr with run _ _ _ _ ?g1 => destruct (IH fuel g1 count) as (g' & Hr' & Hs') end;
      cbn [g_claimed g_seen g_last g_covered]; [by rewrite Hcs|exact Hgs|lia|lia|].
    exists g'. split; [|rewrite Hs'; cbn [g_seen]; by rewrite <- app_assoc].
    cbn [decode_loop]. eapply run_bind_nil; [apply (run_gets _ _ (g_covered g)); intros d Hd; apply Hd|].
    pose proof (entry_blocks_pos e). destruct (Z.ltb_spec (g_covered g) count) as [_|Hge]; [|lia].
    eapply run_bind; [exact Hr|exact Hr'].
Qed.

(** A stream of length, count and entries is taken whole. *)
Lemma decode_entries es s rest :
  goods [] None es -> stream s = to_le 8 (Z.of_nat len) ++ to_le 8 (Z.of_nat (length (all_blocks es)))
                              ++ concat (map entry_bytes es) ++ rest ->
  (length (all_blocks es) <= blocks)%nat ->
  exists t, decode len s t0 = Ok (skip (16 + length (concat (map entry_bytes es))) s, t, all_blocks es) /\
    t_ok (len := len) t /\
    forall i, (i < blocks)%nat -> t_get t i = if decide (i ∈ all_blocks es) then block i else t_get t0 i.
Proof.
  intros Hg Hs Hn. pose proof (block_len_in len) as _.
  set (g0 := MkGhost [] [] None 0 []). set (count := Z.of_nat (length (all_blocks es))).
  assert (length es <= length (all_blocks es))%nat as Hes.
  { clear. unfold all_blocks. induction es as [|e es IH]; [done|]. cbn [map concat length].
    rewrite length_app. pose proof (entry_blocks_pos e). lia. }
  destruct (run_loop es (Z.to_nat count) g0 count) as (g' & Hr & Hseen); [done|done|done|unfold count; lia|].
  assert (is_u 64 count) as Hc.
  { unfold count. destruct (decide (blocks = 0)%nat) as [E|E]; [rewrite E in Hn; split; lia|].
    destruct (index_u64 (blocks - 1)); [lia|]. destruct len_u64. split; [lia|].
    assert (blocks - 1 < blocks)%nat as Hx%block_len_in by lia. pose proof BLOCK_pos. nia. }
  assert (run g0 (decode_all len) (to_le 8 (Z.of_nat len) ++ to_le 8 count ++ concat (map entry_bytes es)) tt g') as Hall.
  { eapply run_bind; [by apply run_u64|]. rewrite Z.eqb_refl. cbn [negb].
    eapply run_bind; [by apply run_u64|]. destruct (Z.ltb_spec (Z.of_nat blocks) count); [lia|]. exact Hr. }
  destruct (Hall (MkDec s t0 [] (replicate (div_ceil blocks 64) 0) None [] 0) rest) as (d' & E & Hd & Hsrc).
  - unfold g0. split; cbn [d_target d_done d_seen d_last d_covered d_frame_buf g_claimed g_seen g_last g_covered g_buf];
      try done; [by rewrite length_replicate|].
    intros i Hi. destruct (is_done_zeros (div_ceil blocks 64) i) as [->|Hx]; [done|].
    pose proof (word_in_range len i Hi). lia.
  - cbn [d_src]. rewrite Hs. by rewrite <- !app_assoc.
  - unfold decode. rewrite E. exists (d_target d'). split; [|split; [apply Hd|]].
    + rewrite Hsrc, (at_seen _ _ Hd), Hseen. cbn [d_src g_seen app]. rewrite !length_app, !length_to_le. done.
    + intros i Hi. rewrite (at_blocks _ _ Hd) by done. by rewrite Hseen.
Qed.

End reading.

(** * What [encode] writes, and the round trip (theorems about SnapBlocks)

    The invariant of the loop of [encode]: what is written is a sequence of
    good entries, and the blocks processed are those of the entries, the
    pending frame and the copies that wait for it. *)

#[local] Opaque FRAME_BLOCKS.

(** ** Output *)

Definition out_bytes (o : Out) : list Z := concat (emitted o) ++ out_buf o.

Lemma out_bytes_raw b o : out_bytes (out_raw b o) = out_bytes o ++ b.
Proof. unfold out_bytes, out_raw, update. cbn [emitted out_buf]. by rewrite app_assoc. Qed.

Lemma out_bytes_u64 v o : out_bytes (out_u64 v o) = out_bytes o ++ to_le 8 v.
Proof. apply out_bytes_raw. Qed.

Lemma out_bytes_flush o : out_bytes (maybe_flush o) = out_bytes o.
Proof.
  unfold maybe_flush. destruct (_ <=? _)%nat; [|done]. unfold out_bytes. cbn [emitted out_buf].
  rewrite concat_app. cbn. by rewrite !app_nil_r.
Qed.

Create Rewrite HintDb out.
#[local] Hint Rewrite out_bytes_raw out_bytes_u64 out_bytes_flush : out.
Local Ltac out_norm := autorewrite with out; rewrite <- ?app_assoc.

Lemma out_bytes_same o i j : out_bytes (put_same o (i, j)) = out_bytes o ++ entry_bytes (ESame i j).
Proof. unfold put_same. out_norm. done. Qed.

Lemma out_bytes_sames l o :
  out_bytes (foldl put_same o l) = out_bytes o ++ concat (map (fun ij => entry_bytes (ESame ij.1 ij.2)) l).
Proof.
  revert o. induction l as [|[i j] l IH]; intros o; cbn [foldl map concat]; [by rewrite app_nil_r|].
  rewrite IH, out_bytes_same. by rewrite <- app_assoc.
Qed.

Lemma out_bytes_indices l o :
  out_bytes (foldl (fun o i => out_u64 (Z.of_nat i) o) o l)
  = out_bytes o ++ concat (map (fun i => to_le 8 (Z.of_nat i)) l).
Proof.
  revert o. induction l as [|i l IH]; intros o; cbn [foldl map concat]; [by rewrite app_nil_r|].
  rewrite IH. by out_norm.
Qed.

Lemma out_bytes_frame i is_ c o :
  out_bytes (put_frame (i :: is_) c o) = out_bytes o ++ entry_bytes (EFrame i is_ c).
Proof. unfold put_frame. cbn [tail]. out_norm. rewrite out_bytes_indices. by out_norm. Qed.

(** ** Sorted lists of blocks *)

Lemma sorted_nodup (l : list nat) : StronglySorted lt l -> NoDup l.
Proof.
  induction 1 as [|i l _ IH Hi]; constructor; [|done]. intros Hin. rewrite Forall_forall in Hi. specialize (Hi i Hin). lia.
Qed.

Lemma seq_sorted n : forall k, StronglySorted lt (seq k n).
Proof.
  induction n as [|n IH]; intros k; cbn; constructor; [apply IH|]. apply Forall_forall. intros x Hx%elem_of_seq. lia.
Qed.

Lemma filter_sorted (P : nat -> Prop) `{!forall x, Decision (P x)} l : StronglySorted lt l -> StronglySorted lt (filter P l).
Proof.
  induction 1 as [|i l _ IH Hi]; [constructor|]. rewrite filter_cons. destruct (decide (P i)); [|done].
  constructor; [done|]. apply Forall_forall. intros x [_ Hx]%list_elem_of_filter. rewrite Forall_forall in Hi. by apply Hi.
Qed.

Lemma present_sorted len block :
  StronglySorted lt (present len block) /\ Forall (fun i => i < block_count len)%nat (present len block).
Proof.
  split; [apply filter_sorted, seq_sorted|]. apply Forall_forall. intros i [_ Hi%elem_of_seq]%list_elem_of_filter. lia.
Qed.

(** ** Entries *)

Section writing.
Variable len : nat.
Variable block : nat -> list Z.
Local Abbreviation blocks := (block_count len).
Hypothesis block_size : forall i, (i < blocks)%nat -> length (block i) = block_len len i.
Hypothesis block_bytes : forall i, (i < blocks)%nat -> bytes_ok (block i).

Local Abbreviation fresh := (fresh len).
Local Abbreviation fresh_seq := (fresh_seq len).
Local Abbreviation goods := (goods len block).

Definition lasts (last : option nat) (es : list entry) : option nat := foldl entry_last last es.

Lemma goods_app es1 es2 seen last :
  goods seen last (es1 ++ es2) <-> goods seen last es1 /\ goods (seen ++ all_blocks es1) (lasts last es1) es2.
Proof.
  revert seen last. induction es1 as [|e es1 IH]; intros seen last.
  - cbn. rewrite app_nil_r. tauto.
  - cbn [app SnapBlocksProof.goods]. rewrite IH.
    change (all_blocks (e :: es1)) with (entry_blocks e ++ all_blocks es1).
    change (lasts last (e :: es1)) with (lasts (entry_last last e) es1). rewrite <- app_assoc. tauto.
Qed.

Lemma all_blocks_app es1 es2 : all_blocks (es1 ++ es2) = all_blocks es1 ++ all_blocks es2.
Proof. unfold all_blocks. by rewrite map_app, concat_app. Qed.

Lemma fresh_seq_snoc cl last is_ i :
  fresh_seq cl last is_ -> (i < blocks)%nat -> i ∉ cl ++ is_ ->
  match last with Some l => (l < i)%nat | None => True end -> Forall (fun x => x < i)%nat is_ ->
  fresh_seq cl last (is_ ++ [i]).
Proof.
  revert cl last. induction is_ as [|x is_ IH]; intros cl last Hf Hi Hn Hl Hlt; cbn.
  - split; [|done]. split; [done|]. split; [|done]. by rewrite app_nil_r in Hn.
  - destruct Hf as [Hx Hf]. apply Forall_cons in Hlt as [Hxi Hlt]. split; [done|].
    apply IH; [done|done| |done|done]. by rewrite <- app_assoc.
Qed.

Lemma raw_goods is_ seen last : fresh_seq seen last is_ ->
  goods seen last (map (fun i => ERaw i (block i)) is_).
Proof.
  revert seen last. induction is_ as [|i is_ IH]; intros seen last Hf; [done|].
  destruct Hf as [Hi Hf]. split; [by split|]. by apply IH.
Qed.

Lemma raw_blocks is_ : all_blocks (map (fun i => ERaw i (block i)) is_) = is_.
Proof. unfold all_blocks. induction is_ as [|i is_ IH]; cbn; [done|by rewrite IH]. Qed.

Lemma raw_lasts is_ last : lasts last (map (fun i => ERaw i (block i)) is_) = last_of last is_.
Proof. revert last. induction is_ as [|i is_ IH]; intros last; cbn; [done|]. apply IH. Qed.

(** A copy that can be written once the blocks [seen] are. *)
Definition copy_ok (seen : list nat) (ij : nat * nat) : Prop :=
  (ij.1 < blocks)%nat /\ (ij.2 < ij.1)%nat /\ ij.2 ∈ seen /\ block ij.2 = block ij.1.

Definition sames (l : list (nat * nat)) : list entry := map (fun ij => ESame ij.1 ij.2) l.

Lemma sames_goods l seen last :
  Forall (copy_ok seen) l -> NoDup (seen ++ map fst l) -> goods seen last (sames l).
Proof.
  revert seen. induction l as [|[i j] l IH]; intros seen Hl Hnd; [done|].
  apply Forall_cons in Hl as [(Hi & Hji & Hj & Hb) Hl]. cbn [fst snd map] in *. cbn [sames map].
  split.
  - split; [|done]. split; [done|]. split; [|done]. intros Hin.
    apply NoDup_app in Hnd as (_ & Hd & _). apply (Hd i Hin). by left.
  - cbn [entry_blocks entry_last fst snd]. apply IH.
    + eapply Forall_impl; [exact Hl|]. intros [i' j'] (? & ? & ? & ?). repeat split; try done. set_solver.
    + by rewrite <- app_assoc.
Qed.

Lemma sames_blocks l : all_blocks (sames l) = map fst l.
Proof. unfold all_blocks, sames. induction l as [|ij l IH]; cbn; [done|by rewrite IH]. Qed.

Lemma sames_lasts l last : lasts last (sames l) = last.
Proof. unfold lasts, sames. induction l as [|ij l IH]; cbn; done. Qed.

Lemma out_bytes_raw_blocks is_ pre o :
  Forall (fun i => i < blocks)%nat is_ ->
  out_bytes (put_raw_blocks len is_ (pre ++ concat (map block is_)) (length pre) o)
  = out_bytes o ++ concat (map entry_bytes (map (fun i => ERaw i (block i)) is_)).
Proof.
  revert pre o. induction is_ as [|i is_ IH]; intros pre o Hin; cbn [put_raw_blocks map concat]; [by rewrite app_nil_r|].
  apply Forall_cons in Hin as [Hi Hin].
  assert (lz.slice (pre ++ block i ++ concat (map block is_)) (length pre) (length pre + block_len len i) = block i) as ->.
  { unfold lz.slice. rewrite drop_app_length. apply take_app_length'. rewrite block_size by done. lia. }
  rewrite <- (block_size i Hi), <- length_app, (app_assoc pre), IH by done. unfold put_raw_block.
  out_norm. done.
Qed.

(** ** The invariant of the loop *)

(** [seen] and [last] are those of the entries written; [ps] are the blocks
    processed. *)
Record pending (seen : list nat) (last : option nat) (ps : list nat) (e : Enc) : Prop := {
  pd_all : seen ++ e_frame e ++ map fst (e_same e) ≡ₚ ps;
  pd_last : match last with Some l => l ∈ seen | None => True end;
  pd_frame : fresh_seq seen last (e_frame e);
  pd_data : e_data e = concat (map block (e_frame e));
  pd_same : Forall (copy_ok (seen ++ e_frame e)) (e_same e);
  pd_lzh : match e_lzh e with Some enc => encoder_ok enc | None => e_frame e = [] end;
  pd_idle : e_frame e = [] -> e_same e = [];
}.

(** Every block known by its hash is written or in the frame. *)
Definition firsts (l : list nat) (e : Enc) : Prop := forall h j, e_first e !! h = Some j -> j ∈ l.

Record inv (pre : list Z) (es : list entry) (ps : list nat) (e : Enc) : Prop := {
  in_bytes : out_bytes (e_out e) = pre ++ concat (map entry_bytes es);
  in_goods : goods [] None es;
  in_pending : pending (all_blocks es) (lasts None es) ps e;
  in_size : (length (e_frame e) < FRAME_BLOCKS)%nat;
  in_first : firsts (all_blocks es ++ e_frame e) e;
}.

Lemma last_of_in last l seen :
  match last with Some x => x ∈ seen | None => True end ->
  match last_of last l with Some x => x ∈ seen ++ l | None => True end.
Proof.
  revert last seen. induction l as [|i l IH]; intros last seen Hl; cbn.
  - by rewrite app_nil_r.
  - specialize (IH (Some i) (seen ++ [i])). rewrite <- app_assoc in IH. apply IH. set_solver.
Qed.

Lemma frame_length is_ : Forall (fun i => i < blocks)%nat is_ -> (length is_ <= FRAME_BLOCKS)%nat ->
  Z.of_nat (length (concat (map block is_))) <= lzh.FRAME.
Proof.
  intros Hin Hl. assert (length (concat (map block is_)) <= length is_ * BLOCK)%nat.
  { clear Hl. induction Hin as [|i is_ Hi _ IH]; [done|]. cbn [map concat length]. rewrite length_app, block_size by done.
    destruct (block_len_bounds len i Hi). lia. }
  pose proof frame_blocks_64. unfold lzh.FRAME, BLOCK in *. lia.
Qed.

Lemma frame_bytes_ok is_ : Forall (fun i => i < blocks)%nat is_ -> bytes_ok (concat (map block is_)).
Proof.
  induction 1 as [|i is_ Hi _ IH]; [constructor|]. cbn. apply Forall_app. split; [by apply block_bytes|done].
Qed.

(** The pending frame, written as one entry or block by block. *)
Lemma frame_entries enc i is_ seen last :
  fresh_seq seen last (i :: is_) -> (length (i :: is_) <= FRAME_BLOCKS)%nat -> encoder_ok enc ->
  exists c enc', lzh.compress (concat (map block (i :: is_))) [] enc = Some (c, enc') /\ encoder_ok enc' /\
    exists es, goods seen last es /\ all_blocks es = i :: is_ /\ lasts last es = last_of last (i :: is_) /\
      forall o, out_bytes (if (length c <? length (concat (map block (i :: is_))))%nat
                           then put_frame (i :: is_) c o
                           else put_raw_blocks len (i :: is_) (concat (map block (i :: is_))) 0 o)
                = out_bytes o ++ concat (map entry_bytes es).
Proof.
  intros Hf Hl Henc. pose proof (fresh_seq_in _ _ _ _ Hf) as Hin.
  pose proof (frame_length _ Hin Hl) as Hlen.
  destruct (lzh_roundtrip_any _ enc (frame_bytes_ok _ Hin) Hlen Henc) as (c & enc' & Hc & He' & _ & Hd).
  exists c, enc'. split; [done|]. split; [done|]. destruct (Nat.ltb_spec (length c) (length (concat (map block (i :: is_))))) as [Hlt|_].
  - exists [EFrame i is_ c]. split.
    + split; [|done]. split; [done|]. split; [done|]. split; [|done]. unfold lzh.FRAME in Hlen. split; lia.
    + split; [unfold all_blocks; cbn; by rewrite app_nil_r|]. split; [done|]. intros o. rewrite out_bytes_frame.
      cbn [map concat]. by rewrite app_nil_r.
  - exists (map (fun i => ERaw i (block i)) (i :: is_)). split; [by apply raw_goods|].
    split; [apply raw_blocks|]. split; [apply raw_lasts|]. intros o. by apply (out_bytes_raw_blocks _ []).
Qed.

Lemma flush_inv pre es ps e enc :
  out_bytes (e_out e) = pre ++ concat (map entry_bytes es) -> goods [] None es ->
  pending (all_blocks es) (lasts None es) ps e -> (length (e_frame e) <= FRAME_BLOCKS)%nat ->
  firsts (all_blocks es ++ e_frame e) e -> e_lzh e = Some enc -> NoDup ps ->
  exists es' e', flush_frame len enc e = Some e' /\ inv pre es' ps e' /\ e_frame e' = [] /\ e_lzh e' <> None.
Proof.
  intros Hby Hg [P1 P2 P3 P4 P5 P6 P7] Hsz Hfi Hz Hnd. rewrite Hz in P6.
  assert (0 < FRAME_BLOCKS)%nat as Hfb by (pose proof frame_blocks_64; lia).
  assert (exists es1 e1, (match e_frame e with
    | [] => Some e
    | _ => match lzh.compress (e_data e) [] enc with
           | None => None
           | Some (scratch, enc) =>
               Some (e <| e_out := if (length scratch <? length (e_data e))%nat then put_frame (e_frame e) scratch (e_out e)
                                   else put_raw_blocks len (e_frame e) (e_data e) 0 (e_out e) |>
                       <| e_lzh := Some enc |> <| e_frame := [] |> <| e_data := [] |>)
           end
    end) = Some e1 /\ goods (all_blocks es) (lasts None es) es1 /\ all_blocks es1 = e_frame e /\
      lasts (lasts None es) es1 = last_of (lasts None es) (e_frame e) /\
      out_bytes (e_out e1) = out_bytes (e_out e) ++ concat (map entry_bytes es1) /\
      e_frame e1 = [] /\ e_data e1 = [] /\ e_same e1 = e_same e /\ e_first e1 = e_first e /\
      match e_lzh e1 with Some enc => encoder_ok enc | None => False end) as (es1 & e1 & Ef & G1 & G2 & G3 & G4 & F1 & F2 & F3 & F4 & F5).
  { destruct (e_frame e) as [|i is_] eqn:Efr.
    - exists [], e. cbn. rewrite app_nil_r, Hz, Efr, P4. repeat split; try done; apply P6.
    - rewrite P4. destruct (frame_entries enc i is_ _ _ P3 Hsz P6) as (c & enc' & -> & He' & es1 & G1 & G2 & G3 & G4).
      eexists es1, _. split; [reflexivity|]. unfold update. cbn [e_out e_frame e_data e_same e_first e_lzh].
      split; [done|]. split; [done|]. split; [done|]. split; [apply G4|]. repeat split; try done; apply He'. }
  exists (es ++ es1 ++ sames (e_same e)). unfold flush_frame. rewrite Ef. eexists. split; [reflexivity|].
  unfold update. cbn [e_frame e_lzh]. split; [|split; [done|by destruct (e_lzh e1)]].
  assert (NoDup ((all_blocks es ++ e_frame e) ++ map fst (e_same e))) as Hnd2 by (rewrite <- app_assoc, P1; done).
  split; cbn [e_out e_frame e_first].
  - rewrite out_bytes_flush, out_bytes_sames, G4, Hby, F3, !map_app, !concat_app. unfold sames.
    by rewrite map_map, <- !app_assoc.
  - rewrite goods_app. split; [done|]. rewrite goods_app, G2. split; [done|]. by apply sames_goods.
  - rewrite !all_blocks_app, sames_blocks, G2. split; cbn [e_frame e_same e_data e_lzh]; rewrite ?F1, ?F2; try done.
    + cbn [map app]. by rewrite app_nil_r.
    + unfold lasts in *. rewrite !foldl_app, G3, (sames_lasts (e_same e)). pose proof (last_of_in _ (e_frame e) _ P2) as H.
      destruct (last_of _ _); [|done]. rewrite app_assoc. apply elem_of_app. by left.
    + by destruct (e_lzh e1).
  - rewrite F1. done.
  - rewrite F1, F4, !all_blocks_app, G2, app_nil_r. intros h j Hj. specialize (Hfi h j Hj). set_solver.
Qed.

(** A block after all those processed is new. *)
Lemma fresh_next seen last ps e i :
  pending seen last ps e -> (i < blocks)%nat -> Forall (fun p => p < i)%nat ps ->
  i ∉ seen ++ e_frame e /\ match last with Some l => (l < i)%nat | None => True end /\
  Forall (fun x => x < i)%nat (e_frame e) /\ fresh seen last i.
Proof.
  intros [P1 P2 _ _ _ _ _] Hi Hlt. rewrite Forall_forall in Hlt.
  assert (forall x, x ∈ seen ++ e_frame e -> (x < i)%nat) as Hx.
  { intros x Hx. apply Hlt. rewrite <- P1. set_solver. }
  assert (i ∉ seen ++ e_frame e) as Hn by (intros Hin; specialize (Hx i Hin); lia).
  assert (match last with Some l => (l < i)%nat | None => True end) as Hl by (destruct last; [apply Hx; set_solver|done]).
  split; [done|]. split; [done|]. split; [apply Forall_forall; intros x Hin; apply Hx; set_solver|].
  split; [done|]. split; [set_solver|done].
Qed.

(** Block [i] on its own. *)
Lemma one_entry t i seen last : fresh seen last i ->
  exists e, goods seen last [e] /\ entry_blocks e = [i] /\ entry_last last e = Some i /\
    forall o, out_bytes (if (length (lz.compress (block i) [] t).1 <? length (block i))%nat
      then out_raw (lz.compress (block i) [] t).1
             (out_raw (to_le 4 (Z.of_nat (length (lz.compress (block i) [] t).1))) (out_raw [LZ] (out_u64 (Z.of_nat i) o)))
      else out_raw (block i) (out_raw [RAW] (out_u64 (Z.of_nat i) o))) = out_bytes o ++ entry_bytes e.
Proof.
  intros Hf. pose proof (proj1 Hf) as Hi. destruct (block_len_bounds len i Hi) as [Hb _].
  assert (Z.of_nat (length (block i)) <= 4096) as Hs by (rewrite block_size by done; unfold BLOCK in Hb; lia).
  destruct (Nat.ltb_spec (length (lz.compress (block i) [] t).1) (length (block i))) as [Hlt|_].
  - exists (ELz i (lz.compress (block i) [] t).1). split.
    + split; [|done]. split; [done|]. split; [split; lia|]. intros dst Hdst.
      apply lz_roundtrip_any; [by apply block_bytes|unfold small; lia|by rewrite block_size].
    + split; [done|]. split; [done|]. intros o. by out_norm.
  - exists (ERaw i (block i)). split; [done|]. split; [done|]. split; [done|]. intros o. by out_norm.
Qed.

Lemma put_new_inv pre es ps e i :
  out_bytes (e_out e) = pre ++ concat (map entry_bytes es) -> goods [] None es ->
  pending (all_blocks es) (lasts None es) ps e -> (length (e_frame e) < FRAME_BLOCKS)%nat ->
  firsts (all_blocks es ++ e_frame e ++ [i]) e ->
  (i < blocks)%nat -> Forall (fun p => p < i)%nat ps -> NoDup ps ->
  exists es' e', put_new len i (block i) e = Some e' /\ inv pre es' (ps ++ [i]) e'.
Proof.
  intros Hby Hg Hp Hsz Hfi Hi Hlt Hnd.
  destruct (fresh_next _ _ _ _ _ Hp Hi Hlt) as (Hn & Hl & Hfl & Hf).
  destruct Hp as [P1 P2 P3 P4 P5 P6 P7]. unfold put_new. destruct (e_lzh e) as [enc|] eqn:Ez.
  - set (e1 := e <| e_frame ::= fun f => f ++ [i] |> <| e_data ::= fun d => d ++ block i |>).
    assert (pending (all_blocks es) (lasts None es) (ps ++ [i]) e1) as Hp1.
    { unfold e1, update. split; cbn [e_frame e_same e_data e_lzh]; try done.
      - rewrite <- P1, <- !app_assoc. f_equiv. f_equiv. apply Permutation_app_comm.
      - by apply fresh_seq_snoc.
      - rewrite P4, map_app, concat_app. cbn. by rewrite app_nil_r.
      - eapply Forall_impl; [exact P5|]. intros x (? & ? & ? & ?). repeat split; try done. set_solver.
      - by rewrite Ez.
      - intros E. by apply app_nil in E as [_ ?]. }
    assert (NoDup (ps ++ [i])) as Hnd1.
    { apply NoDup_app. split; [done|]. split; [|apply NoDup_singleton]. intros x Hx ->%list_elem_of_singleton.
      rewrite Forall_forall in Hlt. specialize (Hlt i Hx). lia. }
    assert (length (e_frame e1) = S (length (e_frame e))) as El
      by (unfold e1, update; cbn [e_frame]; rewrite length_app; cbn; lia).
    destruct (Nat.eqb_spec (length (e_frame e1)) FRAME_BLOCKS) as [E|E].
    + destruct (flush_inv pre es (ps ++ [i]) e1 enc) as (es' & e' & H1 & H2 & _);
        [exact Hby|exact Hg|exact Hp1|lia|by unfold e1, update|exact Ez|exact Hnd1|]. eauto.
    + exists es, e1. split; [done|]. split; [exact Hby|exact Hg|exact Hp1|lia|by unfold e1, update].
  - destruct (one_entry (e_table e) i _ _ Hf) as (x & G1 & G2 & G3 & G4).
    destruct (lz.compress (block i) [] (e_table e)) as [c t] eqn:Ec. cbn [fst] in G4.
    exists (es ++ [x]). eexists. split; [reflexivity|]. unfold update. specialize (P7 P6).
    split; cbn [e_out e_frame e_first].
    + rewrite out_bytes_flush, G4, Hby, map_app, concat_app. cbn [map concat]. by rewrite app_nil_r, <- app_assoc.
    + rewrite goods_app. by split.
    + rewrite all_blocks_app. change (all_blocks [x]) with (entry_blocks x ++ []). rewrite G2.
      unfold lasts. rewrite foldl_app. cbn [foldl]. fold (lasts None es). rewrite G3, P6 in *.
      split; cbn [e_frame e_same e_data e_lzh map app]; rewrite ?P6, ?P7, ?Ez in *; try done.
      * cbn [app map] in *. rewrite <- P1, !app_nil_r. done.
      * set_solver.
    + done.
    + rewrite all_blocks_app. change (all_blocks [x]) with (entry_blocks x ++ []). rewrite G2, P6, !app_nil_r.
      rewrite P6 in Hfi. exact Hfi.
Qed.

Lemma encode_block_inv pre es ps e i :
  inv pre es ps e -> (i < blocks)%nat -> Forall (fun p => p < i)%nat ps -> NoDup ps ->
  exists es' e', encode_block len block e i = Some e' /\ inv pre es' (ps ++ [i]) e'.
Proof.
  intros [I1 I2 I3 I4 I5] Hi Hlt Hnd. unfold encode_block.
  destruct (e_first e !! hash64 (block i)) as [j|] eqn:Ef.
  - destruct (bool_decide (block j = block i)) eqn:Eb.
    2: { apply put_new_inv with es; try done. intros h k Hk. rewrite app_assoc. apply elem_of_app. left. by apply (I5 h). }
    apply bool_decide_eq_true in Eb. specialize (I5 _ _ Ef) as Hj.
    destruct (fresh_next _ _ _ _ _ I3 Hi Hlt) as (Hn & Hl & Hfl & Hf). destruct I3 as [P1 P2 P3 P4 P5 P6 P7].
    assert (j < i)%nat as Hji.
    { rewrite Forall_forall in Hlt. apply Hlt. rewrite <- P1. set_solver. }
    destruct (e_frame e) as [|x f] eqn:Efr.
    + exists (es ++ [ESame i j]). eexists. split; [reflexivity|]. unfold update. rewrite app_nil_r in *.
      split; cbn [e_out e_frame e_first].
      * rewrite out_bytes_same, I1, map_app, concat_app. cbn [map concat]. by rewrite app_nil_r, <- app_assoc.
      * rewrite goods_app. split; [done|]. split; [|done]. split; [|done]. by split; [|split].
      * rewrite all_blocks_app. change (all_blocks [ESame i j]) with [i].
        unfold lasts. rewrite foldl_app. cbn [foldl entry_last]. fold (lasts None es).
        rewrite (P7 eq_refl) in *. cbn [map app] in *. rewrite app_nil_r in P1.
        split; cbn [e_frame e_same e_data e_lzh map app]; rewrite ?Efr, ?P4, ?(P7 eq_refl); try done.
        -- cbn. by rewrite app_nil_r, P1.
        -- destruct (lasts None es); [set_solver|done].
      * by rewrite Efr.
      * rewrite Efr, app_nil_r, all_blocks_app. intros h k Hk. apply elem_of_app. left. by apply (I5 h).
    + exists es. eexists. split; [reflexivity|]. unfold update.
      split; cbn [e_out e_frame e_first]; rewrite ?Efr; try done.
      split; cbn [e_frame e_same e_data e_lzh]; rewrite ?Efr; try done.
      * rewrite map_app, <- P1. cbn [map fst]. by rewrite !app_assoc.
      * apply Forall_app. split; [done|]. apply Forall_singleton. by repeat split.
  - destruct I3 as [P1 P2 P3 P4 P5 P6 P7].
    apply (put_new_inv pre es ps (e <| e_first ::= <[hash64 (block i) := i]> |>)); try done.
    intros h k. unfold update. cbn [e_first e_frame]. intros [[_ <-]|[_ Hk]]%lookup_insert_Some; [set_solver|].
    rewrite app_assoc. apply elem_of_app. left. by apply (I5 h).
Qed.

Lemma encode_fold pre l : forall es ps e,
  inv pre es ps e -> StronglySorted lt (ps ++ l) -> Forall (fun i => i < blocks)%nat l ->
  exists es' e', foldl (fun e i => e ← e; encode_block len block e i) (Some e) l = Some e' /\ inv pre es' (ps ++ l) e'.
Proof.
  induction l as [|i l IH]; intros es ps e Hinv Hs Hin.
  - exists es, e. rewrite app_nil_r. by split.
  - apply Forall_cons in Hin as [Hi Hin]. pose proof Hs as (Hlt & Hps & _)%StronglySorted_app.
    destruct (encode_block_inv pre es ps e i Hinv Hi) as (es1 & e1 & E1 & H1).
    { apply Forall_forall. intros p Hp. apply Hlt; [done|by left]. }
    { by apply sorted_nodup. }
    rewrite (app_assoc ps [i] l : ps ++ i :: l = _) in Hs |- *. cbn [foldl]. cbn [mbind option_bind]. rewrite E1.
    by apply (IH es1).
Qed.

(** What [encode] gives: length, count and good entries of all the blocks that
    are not zero. *)
Lemma encode_entries level : exists chunks es,
  encode len level block = Some chunks /\
  concat chunks = to_le 8 (Z.of_nat len) ++ to_le 8 (Z.of_nat (length (all_blocks es))) ++ concat (map entry_bytes es) /\
  goods [] None es /\ all_blocks es ≡ₚ present len block.
Proof.
  set (ps := present len block). set (pre := to_le 8 (Z.of_nat len) ++ to_le 8 (Z.of_nat (length ps))).
  assert (StronglySorted lt ps /\ Forall (fun i => i < blocks)%nat ps) as [Hs Hin] by apply present_sorted.
  destruct (encode_fold pre ps [] [] (encode_start len level (length ps))) as (es & e & Ee & [I1 I2 I3 I4 I5]); try done.
  { split; try done.
    - split; try done. cbn. destruct level; [done|apply encoder_new_ok].
    - cbn. pose proof frame_blocks_64. lia. }
  cbn [app] in *.
  assert (exists es' e', (match e_lzh e with Some enc => flush_frame len enc e | None => Some e end) = Some e' /\
    inv pre es' ps e' /\ e_frame e' = []) as (es' & e' & Ef & [J1 J2 J3 J4 J5] & Efr).
  { destruct (e_lzh e) as [enc|] eqn:Ez.
    - destruct (flush_inv pre es ps e enc) as (es' & e' & H1 & H2 & H3 & _);
        [exact I1|exact I2|exact I3|lia|exact I5|exact Ez|by apply sorted_nodup|]. by exists es', e'.
    - exists es, e. split; [done|]. split; [by split|]. pose proof (pd_lzh _ _ _ _ I3) as H. by rewrite Ez in H. }
  assert (all_blocks es' ≡ₚ ps) as Hall.
  { pose proof (pd_all _ _ _ _ J3) as H. rewrite (pd_idle _ _ _ _ J3 Efr), Efr in H. cbn in H. by rewrite app_nil_r in H. }
  eexists _, es'. split; [|split; [|by split]].
  - unfold encode. fold ps. rewrite Ee. cbn [mbind option_bind]. rewrite Ef. reflexivity.
  - rewrite Hall. unfold pre in J1. rewrite <- app_assoc in J1. rewrite <- J1. unfold out_bytes.
    destruct (out_buf (e_out e')); [by rewrite app_nil_r|]. rewrite concat_app. cbn. by rewrite app_nil_r.
Qed.

End writing.

(** ** The round trip *)

(** C26: what [encode] writes, at either level, [decode] reads back from any
    source into any target: it takes exactly those bytes, visits every block
    that is not zero once and leaves the others as they are, so a target whose
    zero blocks are zero holds the data. *)
Theorem blocks_roundtrip {S T} `{!Source S} `{!Target T} `{!SourceLaws S} len `{!TargetLaws T len}
    (level : Level) (block : nat -> list Z) :
  is_u 64 (Z.of_nat len) ->
  (forall i, (i < block_count len)%nat -> length (block i) = block_len len i /\ bytes_ok (block i)) ->
  exists chunks, encode len level block = Some chunks /\
    forall (s : S) (t : T) rest, t_ok (len := len) t -> stream s = concat chunks ++ rest ->
    exists t' seen, decode len s t = Ok (skip (length (concat chunks)) s, t', seen) /\
      t_ok (len := len) t' /\ seen ≡ₚ present len block /\
      forall i, (i < block_count len)%nat ->
        t_get t' i = if is_zero (block i) then t_get t i else block i.
Proof.
  intros Hlen Hb. assert (forall i, (i < block_count len)%nat -> length (block i) = block_len len i) as Hb1 by apply Hb.
  destruct (encode_entries len block Hb1 ltac:(apply Hb) level) as (chunks & es & He & Hc & Hg & Hp).
  exists chunks. split; [done|]. intros s t rest Ht Hs. rewrite Hc, <- !app_assoc in Hs.
  destruct (decode_entries len block t Ht Hb1 Hlen es s rest Hg Hs) as (t' & Hd & Ht' & Hget).
  { rewrite Hp. unfold present. etransitivity; [apply length_filter|]. by rewrite length_seq. }
  exists t', (all_blocks es). rewrite Hc, !length_app, !length_to_le. split; [exact Hd|]. split; [done|].
  split; [done|]. intros i Hi. rewrite Hget by done. destruct (is_zero (block i)) eqn:Ez.
  - rewrite decide_False; [done|]. rewrite Hp. intros [Hz _]%list_elem_of_filter. congruence.
  - rewrite decide_True; [done|]. rewrite Hp. apply list_elem_of_filter. split; [done|]. apply elem_of_seq. lia.
Qed.

(** Data and its blocks. *)
Lemma block_of_get data i : block_of data i = t_get data i.
Proof. reflexivity. Qed.

Lemma same_blocks (a b : list Z) : length a = length b ->
  (forall i, (i < block_count (length a))%nat -> t_get a i = t_get b i) -> a = b.
Proof.
  intros Hl Hb. apply list_eq. intros k. destruct (decide (k < length a)%nat) as [Hk|Hk].
  2: { rewrite !lookup_ge_None_2 by lia. done. }
  pose proof BLOCK_pos. pose proof (Nat.div_mod_eq k BLOCK) as Ek.
  pose proof (Nat.mod_upper_bound k BLOCK ltac:(lia)) as Hm. set (i := (k / BLOCK)%nat) in *.
  assert (i < block_count (length a))%nat as Hi by (apply block_len_in; lia).
  specialize (Hb i Hi). cbn [t_get slice_target] in Hb. rewrite <- Hl in Hb.
  apply (f_equal (fun l => l !! (k mod BLOCK)%nat)) in Hb.
  rewrite !lookup_take_lt, !lookup_drop in Hb by lia. by replace (i * BLOCK + k mod BLOCK)%nat with k in Hb by lia.
Qed.

Lemma get_zeros n i : t_get (replicate n 0) i = replicate (block_len n i) 0.
Proof.
  cbn [t_get slice_target]. rewrite length_replicate, drop_replicate, take_replicate.
  f_equal. unfold block_len. lia.
Qed.

Lemma foldl_raw chunks w : foldl (fun w c => w_raw c w) w chunks = w_raw (concat chunks) w.
Proof.
  revert w. induction chunks as [|c chunks IH]; intros w; cbn [foldl concat].
  - destruct w. unfold w_raw, update. cbn. by rewrite app_nil_r.
  - by rewrite IH, w_raw_raw.
Qed.

(** C25: data of at most 2^40 bytes written with [compress], at either level,
    to a snapshot whose writer compresses at once (not one that defers the
    blocks to a stream) is what [decompress] reads at that place of the
    snapshot, and the reader is left right after it. *)
Theorem compress_roundtrip data w :
  bytes_ok data -> Z.of_nat (length data) <= 2 ^ 40 -> w_marks w = None ->
  exists bs, compress data w = Some (w_raw bs w) /\
    forall pre rest tag, decompress (MkReader (pre ++ bs ++ rest) (length pre) tag)
      = Ok (MkReader (pre ++ bs ++ rest) (length pre + length bs) tag, data).
Proof.
  intros Hb Hl Hw. set (len := length data) in *. assert (is_u 64 (Z.of_nat len)) as Hu by (split; lia).
  assert (forall i, (i < block_count len)%nat -> length (block_of data i) = block_len len i) as Hb1
    by (intros i Hi; rewrite block_of_get; by apply (get_length (T := list Z))).
  assert (forall i, (i < block_count len)%nat -> bytes_ok (block_of data i)) as Hb2
    by (intros i _; by apply Forall_take, Forall_drop).
  destruct (encode_entries len (block_of data) Hb1 Hb2 (w_level w)) as (chunks & es & He & Hc & Hg & Hp).
  exists (concat chunks). split; [unfold compress; rewrite Hw; fold len; rewrite He; cbn; by rewrite foldl_raw|].
  intros pre rest tag. unfold decompress. set (r := MkReader _ _ _).
  assert (stream r = concat chunks ++ rest) as Hr by (apply drop_app_length).
  assert (reads r_u64 (to_le 8 (Z.of_nat len)) (Z.of_nat len)) as Hrd by (by apply (reads_le 8)).
  assert (exists r', r_u64 r = (Ok (Z.of_nat len), r')) as [r' ->]
    by (unfold r; rewrite Hc, <- !app_assoc; eexists; apply Hrd).
  destruct (Z.ltb_spec (2 ^ 40) (Z.of_nat len)); [lia|].
  unfold decompress_into. rewrite Nat2Z.id, length_replicate.
  rewrite Hc, <- !app_assoc in Hr.
  assert (t_ok (T := list Z) (len := len) (replicate len 0)) as Hz by apply length_replicate.
  destruct (decode_entries (S := Reader) len (block_of data) (replicate len 0) Hz
    Hb1 Hu es r rest Hg Hr) as (t' & Hd & Ht' & Hget).
  { rewrite Hp. unfold present. etransitivity; [apply length_filter|]. by rewrite length_seq. }
  rewrite Hd. cbn [map_ok fst]. f_equal. f_equal.
  - rewrite Hc, !length_app, !length_to_le. unfold r. unfold skip, source_reader_laws, update. cbn [r_pos r_buf r_tag].
    by rewrite Hc, <- !app_assoc.
  - apply same_blocks; [done|]. rewrite Ht'. intros i Hi. rewrite Hget by done. change (t_get data i) with (block_of data i).
    destruct (decide (i ∈ all_blocks es)) as [Hin|Hin]; [done|]. rewrite get_zeros.
    rewrite Hp in Hin. destruct (is_zero (block_of data i)) eqn:Ez.
    + apply is_zero_spec in Ez; [|by apply Hb2]. rewrite <- Hb1 by done.
      apply replicate_as_Forall. split; [done|]. eapply Forall_impl; [exact Ez|]. by intros x ->.
    + destruct Hin. apply list_elem_of_filter. split; [done|]. apply elem_of_seq. lia.
Qed.

(** Data of one short block. *)
Definition short_data : list Z := [1; 2; 3].

Lemma short_data_ok : bytes_ok short_data.
Proof. repeat constructor; cbn; lia. Qed.

Lemma blocks_roundtrip_witness :
  exists chunks, encode 3 Fast (block_of short_data) = Some chunks /\
    forall (s : Reader) (t : list Z) rest, t_ok (len := 3) t -> stream s = concat chunks ++ rest ->
    exists t' seen, decode 3 s t = Ok (skip (length (concat chunks)) s, t', seen) /\
      t_ok (len := 3) t' /\ seen ≡ₚ present 3 (block_of short_data) /\
      forall i, (i < block_count 3)%nat ->
        t_get t' i = if is_zero (block_of short_data i) then t_get t i else block_of short_data i.
Proof.
  apply (blocks_roundtrip 3 Fast (block_of short_data)); [split; lia|]. intros i Hi. split.
  - rewrite block_of_get. by apply (get_length (T := list Z) (len := 3) short_data i).
  - apply Forall_take, Forall_drop, short_data_ok.
Defined.

Lemma compress_roundtrip_witness :
  exists bs, compress short_data writer_new = Some (w_raw bs writer_new) /\
    forall pre rest tag, decompress (MkReader (pre ++ bs ++ rest) (length pre) tag)
      = Ok (MkReader (pre ++ bs ++ rest) (length pre + length bs) tag, short_data).
Proof. apply (compress_roundtrip short_data writer_new); [apply short_data_ok|cbn; lia|reflexivity]. Defined.
