(* ===== verification/SnapOverlay.v ===== *)
(** * The file of a disk overlay (crates/vetro-snapshot/src/overlay.rs)

    A persistent copy-on-write overlay: a header and slots of one cluster
    each. [load] reads the file, [update] and [sync] give the writes that bring
    it to a new state, slots in place and the header last. *)

From Stdlib Require Import ZArith Lia Bool.
From stdpp Require Import base list numbers strings pretty sorting.
From S2P Require Import Prelude BTree SnapWire SnapFile.
Local Open Scope Z_scope.
Local Open Scope vetro_scope.

Module overlay.

(** "VETROCOW". *)
Definition MAGIC : list Z := [86; 69; 84; 82; 79; 67; 79; 87].
Definition VERSION : Z := 1.
Definition CLUSTER : Z := 4096.
Definition HEADER_LEN : Z := 4096.
Definition SLOT_LEN : Z := 16 + CLUSTER.
Definition FREE : Z := 2 ^ 64 - 1.
Definition MAX_IDENTITY : Z := HEADER_LEN - 64.

Inductive LoadError :=
| MismatchBase (found expected : list Z)
| MismatchSize (found expected : Z)
| Corrupt (why : string).

(** Writes to perform on the file: the truncation, then the bytes at their
    offsets in order. *)
Record Patches := MkPatches { truncate : option Z; writes : list (Z * list Z) }.

#[global] Instance eta_Patches : Eta Patches := fun p => MkPatches (truncate p) (writes p).

Definition is_empty (p : Patches) : bool :=
  match truncate p, writes p with None, [] => true | _, _ => false end.

Definition encode_write (w : Z * list Z) : list Z :=
  to_le 8 w.1 ++ to_le 4 (Z.of_nat (length w.2)) ++ w.2.

Definition encode (p : Patches) : list Z :=
  to_le 8 (default (2 ^ 64 - 1) (truncate p)) ++ to_le 4 (Z.of_nat (length (writes p)))
  ++ concat (map encode_write (writes p)).

(** A write at [at], past the end too: the file grows with zeros. *)
Definition apply_write (file : list Z) (w : Z * list Z) : list Z :=
  let at_ := Z.to_nat w.1 in
  let end_ := (at_ + length w.2)%nat in
  let file := if (length file <? end_)%nat then file ++ replicate (end_ - length file) 0 else file in
  overwrite at_ w.2 file.

Definition apply_truncate (t : option Z) (file : list Z) : list Z :=
  match t with Some n => take (Z.to_nat n) file | None => file end.

Definition apply_to (p : Patches) (file : list Z) : list Z :=
  foldl apply_write (apply_truncate (truncate p) file) (writes p).

(** Binds the data to the cluster. *)
Definition slot_check (cluster : Z) (data : list Z) : Z :=
  Z.lxor (Z.lxor (hash64 data) (rotate_left cluster 17)) 0x5a17c0de0f5e7a11.

Record Overlay := MkOverlay {
  identity : list Z;
  disk_size : Z;
  generation : Z;
  slots : Z;
  map_ : btree (Z * Z);
  free : btree unit;
  damaged : Z;
  is_fresh : bool;
}.

#[global] Instance eta_Overlay : Eta Overlay := fun o =>
  MkOverlay (identity o) (disk_size o) (generation o) (slots o) (map_ o) (free o) (damaged o) (is_fresh o).

Definition new (id : list Z) (size : Z) : Overlay :=
  MkOverlay (take (Nat.min (length id) (Z.to_nat MAX_IDENTITY)) id) size 0 0 [] [] 0 true.

(** [disk_size.div_ceil(CLUSTER)]. *)
Definition clusters_of (size : Z) : Z := (size + (CLUSTER - 1)) / CLUSTER.

(** ** Reading *)

Definition sub (l : list Z) (at_ n : nat) : list Z := take n (drop at_ l).
Definition u32_at (h : list Z) (o : nat) : Z := from_le (sub h o 4).
Definition u64_at (h : list Z) (o : nat) : Z := from_le (sub h o 8).

(** Offset of slot [k]. *)
Definition slot_off (k : Z) : Z := u64 (HEADER_LEN + u64 (k * SLOT_LEN)).

(** [bytes.get(at..at + SLOT_LEN)]. *)
Definition get_slot (bytes : list Z) (k : Z) : option (list Z) :=
  let at_ := slot_off k in
  let end_ := u64 (at_ + SLOT_LEN) in
  if (at_ <=? end_) && (end_ <=? Z.of_nat (length bytes))
  then Some (sub bytes (Z.to_nat at_) (Z.to_nat (end_ - at_))) else None.

Definition cluster_len (size c : Z) : Z := Z.min (size - c * CLUSTER) CLUSTER.

Definition contains_key {V} (c : Z) (m : btree V) : bool := match bt_get c m with Some _ => true | None => false end.

(** A turn of the loop over the slots: the overlay and the clusters so far. *)
Definition load_slot (bytes : list Z) (st : Overlay * list (Z * list Z)) (k : Z) : Overlay * list (Z * list Z) :=
  let '(ov, out) := st in
  match get_slot bytes k with
  | None => (ov <| free ::= bt_insert k tt |>, out)
  | Some slot =>
      let c := from_le (take 8 slot) in
      let check := from_le (sub slot 8 8) in
      let data := drop 16 slot in
      if negb (check =? slot_check c data)
         || (negb (c =? FREE) && ((clusters_of (disk_size ov) <=? c) || contains_key c (map_ ov)))
      then (ov <| damaged ::= Z.add 1 |> <| free ::= bt_insert k tt |>, out)
      else if c =? FREE then (ov <| free ::= bt_insert k tt |>, out)
      else (ov <| map_ ::= bt_insert c (k, check) |>,
            out ++ [(c, take (Z.to_nat (cluster_len (disk_size ov) c)) data)])
  end.

(** [sort_unstable_by_key(|&(c, _)| c)]. *)
Definition by_cluster (a b : Z * list Z) : Prop := a.1 <= b.1.
#[global] Instance by_cluster_dec : RelDecision by_cluster.
Proof. intros a b. unfold by_cluster. apply _. Defined.

Definition load_body (ov : Overlay) (bytes h : list Z) : Overlay * list (Z * list Z) :=
  let ov := ov <| generation := u64_at h 24 |> <| slots := u64_at h 32 |> <| is_fresh := false |> in
  let '(ov, out) := foldl (load_slot bytes) (ov, []) (seqZ 0 (slots ov)) in
  (ov, merge_sort by_cluster out).

(** The overlay and its clusters in order. *)
Definition load (bytes id : list Z) (size : Z) : result (Overlay * list (Z * list Z)) LoadError :=
  let ov := new id size in
  match bytes with
  | [] => Ok (ov, [])
  | _ =>
      if Z.of_nat (length bytes) <? HEADER_LEN then Err (Corrupt "shorter than the header") else
      let h := take (Z.to_nat HEADER_LEN) bytes in
      if negb (bool_decide (take 8 h = MAGIC)) then Err (Corrupt "not a Vetro overlay") else
      if negb (u32_at h 8 =? VERSION)
      then Err (Corrupt ("format version " ++ pretty (u32_at h 8) ++ ", expected " ++ pretty VERSION)) else
      if negb (u64_at h (Z.to_nat (HEADER_LEN - 8)) =? hash64 (take (Z.to_nat (HEADER_LEN - 8)) h))
      then Err (Corrupt "corrupted header") else
      if negb (u32_at h 12 =? CLUSTER)
      then Err (Corrupt ("clusters of " ++ pretty (u32_at h 12) ++ " bytes")) else
      let id_len := u32_at h 40 in
      if MAX_IDENTITY <? id_len then Err (Corrupt "identity too long") else
      let found := sub h 44 (Z.to_nat id_len) in
      if negb (bool_decide (found = identity ov)) then Err (MismatchBase found (identity ov)) else
      if negb (u64_at h 16 =? size) then Err (MismatchSize (u64_at h 16) size)
      else Ok (load_body ov bytes h)
  end.

Definition file_len (o : Overlay) : Z :=
  if is_fresh o && (slots o =? 0) then 0 else HEADER_LEN + slots o * SLOT_LEN.

(** ** Writing *)

(** The header: the fields at their offsets, zeros, and the checksum last. *)
Definition header_body (o : Overlay) : list Z :=
  MAGIC ++ to_le 4 VERSION ++ to_le 4 CLUSTER ++ to_le 8 (disk_size o) ++ to_le 8 (generation o)
  ++ to_le 8 (slots o) ++ to_le 4 (Z.of_nat (length (identity o))) ++ identity o
  ++ replicate (Z.to_nat (HEADER_LEN - 8) - 44 - length (identity o)) 0.

Definition header (o : Overlay) : list Z := header_body o ++ to_le 8 (hash64 (header_body o)).

(** The data of a slot: a cluster, with zeros after a short one. *)
Definition pad (data : list Z) : list Z := data ++ replicate (Z.to_nat CLUSTER - length data) 0.

Definition slot_bytes (cluster : Z) (data : list Z) : Z * list Z :=
  let check := slot_check cluster (pad data) in
  (check, to_le 8 cluster ++ to_le 8 check ++ pad data).

(** [self.free.pop_first()], or a new slot at the end. *)
Definition take_slot (o : Overlay) : Z * Overlay :=
  match free o with
  | (k, _) :: rest => (k, o <| free := rest |>)
  | [] => (slots o, o <| slots ::= fun n => n + 1 |>)
  end.

(** One change: the writes of [p] grow by at most one. [None] is the panic on
    a cluster outside the disk. *)
Definition update_one (st : Overlay * Patches) (change : Z * option (list Z)) : option (Overlay * Patches) :=
  let '(o, p) := st in
  let '(c, data) := change in
  match data with
  | Some data =>
      if negb ((c <? clusters_of (disk_size o)) && (Z.of_nat (length data) <=? CLUSTER)) then None else
      let '(check, bytes) := slot_bytes c data in
      let write '(slot, o) :=
        Some (o <| map_ ::= bt_insert c (slot, check) |>,
              p <| writes ::= fun w => w ++ [(slot_off slot, bytes)] |>) in
      match bt_get c (map_ o) with
      | Some (slot, old) => if old =? check then Some (o, p) else write (slot, o)
      | None => write (take_slot o)
      end
  | None =>
      match bt_get c (map_ o) with
      | None => Some (o, p)
      | Some (slot, _) =>
          Some (o <| map_ ::= bt_remove c |> <| free ::= bt_insert slot tt |>,
                p <| writes ::= fun w => w ++ [(slot_off slot, (slot_bytes FREE []).2)] |>)
      end
  end.

Fixpoint update_all (st : Overlay * Patches) (changes : list (Z * option (list Z))) : option (Overlay * Patches) :=
  match changes with
  | [] => Some st
  | ch :: changes => st ← update_one st ch; update_all st changes
  end.

(** The header is the last write, if there is any. *)
Definition finish_update (st : Overlay * Patches) : Overlay * Patches :=
  let '(o, p) := st in
  if match writes p with [] => is_fresh o | _ => true end then
    let o := o <| generation ::= fun g => u64 (g + 1) |> <| is_fresh := false |> in
    (o, p <| writes ::= fun w => w ++ [(0, header o)] |>)
  else (o, p).

Definition update (o : Overlay) (changes : list (Z * option (list Z))) : option (Overlay * Patches) :=
  let p := MkPatches (if is_fresh o then Some 0 else None) [] in
  st ← update_all (o, p) changes;
  Some (finish_update st).

(** The complete state: the clusters of the file that are not in [all] go. *)
Definition sync (o : Overlay) (all : list (Z * list Z)) : option (Overlay * Patches) :=
  let gone := foldl (fun gone cd => bt_remove cd.1 gone) (map (fun e => (e.1, tt)) (map_ o)) all in
  update o (map (fun cd => (cd.1, Some cd.2)) all ++ map (fun e => (e.1, None)) gone).

End overlay.
