(* ===== verification/SnapOverlayProof.v ===== *)
(** * The overlay on its file (theorems about SnapOverlay)

    The invariant [on_file]: each slot of the file is the cluster the overlay
    says, or is one that [load] takes for free. Every change keeps it, with
    its write applied, and a file that keeps it loads as its overlay. *)

From Stdlib Require Import ZArith Lia Bool.
From stdpp Require Import base list sets numbers strings pretty sorting.
From S2P Require Import Prelude BTree SnapWire SnapCodec SnapFile SnapOverlay.
Local Open Scope Z_scope.
Local Open Scope vetro_scope.
Import overlay.

(** ** Slots of a file *)

(** Slots whose offsets fit, with room to spare. *)
Definition small_slot (k : Z) : Prop := 0 <= k < 2 ^ 50.

Definition off (k : Z) : nat := Z.to_nat (4096 + k * 4112).

Lemma slot_off_small k : small_slot k -> slot_off k = 4096 + k * 4112.
Proof.
  intros Hk. unfold small_slot, slot_off, HEADER_LEN, SLOT_LEN, CLUSTER in *.
  rewrite (u64_id (k * _)) by (split; lia). apply u64_id. split; lia.
Qed.

Lemma get_slot_small f k : small_slot k ->
  get_slot f k = if (off k + 4112 <=? length f)%nat then Some (sub f (off k) 4112) else None.
Proof.
  intros Hk. unfold get_slot. rewrite slot_off_small by done. unfold small_slot, SLOT_LEN, CLUSTER in *.
  rewrite u64_id by (split; lia). unfold off.
  destruct (Z.leb_spec (4096 + k * 4112) (4096 + k * 4112 + (16 + 4096))); [|lia]. cbn [andb].
  destruct (Z.leb_spec (4096 + k * 4112 + (16 + 4096)) (Z.of_nat (length f))),
    (Nat.leb_spec (Z.to_nat (4096 + k * 4112) + 4112) (length f)); try lia; [|done].
  f_equal. f_equal. lia.
Qed.

Lemma get_slot_below f j k : small_slot j -> small_slot k -> j <= k ->
  get_slot f k <> None -> get_slot f j <> None.
Proof.
  intros Hj Hk Hjk. rewrite !get_slot_small by done. unfold small_slot, off in *.
  destruct (Nat.leb_spec (Z.to_nat (4096 + k * 4112) + 4112) (length f)); [|done].
  destruct (Nat.leb_spec (Z.to_nat (4096 + j * 4112) + 4112) (length f)); [done|]. lia.
Qed.

Lemma length_apply_write f w : length (apply_write f w) = Nat.max (length f) (Z.to_nat w.1 + length w.2).
Proof.
  unfold apply_write, overwrite. rewrite !length_app, length_take, length_drop.
  destruct (Nat.ltb_spec (length f) (Z.to_nat w.1 + length w.2)); rewrite ?length_app, ?length_replicate; lia.
Qed.

(** A part of the file that ends before the write, or starts after it. *)
Lemma sub_apply_write f at_ b i n : (i + n <= length f)%nat ->
  (i + n <= at_ \/ at_ + length b <= i)%nat ->
  sub (apply_write f (Z.of_nat at_, b)) i n = sub f i n.
Proof.
  intros Hl Hd. unfold sub, apply_write. cbn [fst snd]. rewrite Nat2Z.id.
  set (f1 := if (length f <? at_ + length b)%nat then _ else _).
  assert (exists z, f1 = f ++ z) as [z ->].
  { unfold f1. destruct (_ <? _)%nat; [by eexists|]. exists []. by rewrite app_nil_r. }
  unfold overwrite. destruct Hd as [Hd|Hd].
  - rewrite drop_app_le by (rewrite length_take, length_app; lia).
    rewrite take_app_le by (rewrite length_drop, length_take, length_app; lia).
    rewrite skipn_firstn_comm, take_take. rewrite Nat.min_l by lia.
    rewrite drop_app_le by lia. by rewrite take_app_le by (rewrite length_drop; lia).
  - rewrite app_assoc, drop_app_ge by (rewrite length_app, length_take, length_app; lia).
    rewrite length_app, length_take, length_app, drop_drop.
    replace (_ + (i - _))%nat with i by lia. rewrite drop_app_le by lia.
    by rewrite take_app_le by (rewrite length_drop; lia).
Qed.

Lemma sub_apply_write_same f at_ b : sub (apply_write f (Z.of_nat at_, b)) at_ (length b) = b.
Proof.
  unfold sub, apply_write. cbn [fst snd]. rewrite Nat2Z.id. unfold overwrite.
  rewrite drop_app_length'; [by rewrite take_app_length|].
  rewrite length_take. destruct (Nat.ltb_spec (length f) (at_ + length b)); rewrite ?length_app, ?length_replicate; lia.
Qed.

(** A write to slot [k], when the slots below are in the file. *)
Lemma get_slot_write f k b j :
  length b = 4112%nat -> small_slot k -> small_slot j -> (j < k -> get_slot f j <> None) ->
  get_slot (apply_write f (slot_off k, b)) j = if j =? k then Some b else get_slot f j.
Proof.
  intros Hb Hk Hj Hbelow. rewrite slot_off_small by done.
  assert (4096 + k * 4112 = Z.of_nat (off k)) as -> by (unfold off, small_slot in *; lia).
  rewrite !get_slot_small in * by done. rewrite length_apply_write. cbn [fst snd]. rewrite Nat2Z.id, Hb.
  destruct (Z.eqb_spec j k) as [->|Hne].
  - destruct (Nat.leb_spec (off k + 4112) (Nat.max (length f) (off k + 4112))); [|lia].
    f_equal. rewrite <- Hb. apply sub_apply_write_same.
  - assert (off j + 4112 <= off k \/ off k + 4112 <= off j)%nat as Hd by (unfold off, small_slot in *; lia).
    destruct (Nat.leb_spec (off j + 4112) (length f)) as [Hin|Hout].
    + destruct (Nat.leb_spec (off j + 4112) (Nat.max (length f) (off k + 4112))); [|lia].
      f_equal. apply sub_apply_write; [lia|]. rewrite Hb. done.
    + destruct (Nat.leb_spec (off j + 4112) (Nat.max (length f) (off k + 4112))); [|done].
      destruct (Z.lt_ge_cases j k); [by destruct Hbelow|]. unfold off, small_slot in *. lia.
Qed.

Lemma header_write_slot f k b : (4096 <= length f)%nat -> small_slot k ->
  take 4096 (apply_write f (slot_off k, b)) = take 4096 f.
Proof.
  intros Hf Hk. rewrite slot_off_small by done.
  assert (4096 + k * 4112 = Z.of_nat (off k)) as -> by (unfold off, small_slot in *; lia).
  pose proof (sub_apply_write f (off k) b 0 4096) as H. unfold sub in H. rewrite !drop_0 in H. apply H; [lia|].
  left. unfold off, small_slot in *. lia.
Qed.

Lemma get_slot_header f h j : length h = 4096%nat -> small_slot j ->
  get_slot (apply_write f (0, h)) j = get_slot f j.
Proof.
  intros Hh Hj. rewrite !get_slot_small by done. rewrite length_apply_write. cbn [fst snd]. rewrite Hh.
  destruct (Nat.leb_spec (off j + 4112) (length f)) as [Hin|Hout].
  - destruct (Nat.leb_spec (off j + 4112) (Nat.max (length f) (Z.to_nat 0 + 4096))); [|lia]. f_equal.
    apply (sub_apply_write f 0 h); [lia|]. right. unfold off, small_slot in *. lia.
  - destruct (Nat.leb_spec (off j + 4112) (Nat.max (length f) (Z.to_nat 0 + 4096))); [|done].
    unfold off, small_slot in *. lia.
Qed.

Lemma header_write f h : length h = 4096%nat -> take 4096 (apply_write f (0, h)) = h.
Proof. intros Hh. pose proof (sub_apply_write_same f 0 h) as H. unfold sub in H. by rewrite drop_0, Hh in H. Qed.

(** ** What a slot holds *)

Definition slot_of (c : Z) (data : list Z) : list Z := to_le 8 c ++ to_le 8 (slot_check c data) ++ data.

Lemma slot_bytes_of c data : slot_bytes c data = (slot_check c (pad data), slot_of c (pad data)).
Proof. reflexivity. Qed.

Definition cluster_data (data : list Z) : Prop := length data = 4096%nat /\ bytes_ok data.

Lemma pad_ok data : Z.of_nat (length data) <= CLUSTER -> bytes_ok data -> cluster_data (pad data).
Proof.
  intros Hl Hb. unfold pad, CLUSTER in *. split; [rewrite length_app, length_replicate; lia|].
  apply Forall_app. split; [done|]. apply Forall_replicate. split; lia.
Qed.

Lemma length_slot_of c data : length data = 4096%nat -> length (slot_of c data) = 4112%nat.
Proof. intros Hd. unfold slot_of. rewrite !length_app, !length_to_le, Hd. done. Qed.

Lemma is_u_rotate_left x n : 0 <= n <= 64 -> is_u 64 x -> is_u 64 (rotate_left x n).
Proof.
  intros Hn Hx. unfold rotate_left. apply is_u_lor; [lia|apply is_u_u64|].
  apply is_u_shiftr; [lia|lia|done].
Qed.

Lemma is_u_slot_check c data : is_u 64 c -> is_u 64 (slot_check c data).
Proof.
  intros Hc. unfold slot_check. apply is_u_lxor; [lia| |split; lia]. apply is_u_lxor; [lia|apply is_u_hash64|].
  by apply is_u_rotate_left.
Qed.

(** The three parts of a slot that was written. *)
Lemma slot_of_parts c data : is_u 64 c -> length data = 4096%nat ->
  from_le (take 8 (slot_of c data)) = c /\ from_le (sub (slot_of c data) 8 8) = slot_check c data /\
  drop 16 (slot_of c data) = data.
Proof.
  intros Hc Hd. unfold slot_of, sub. rewrite take_app_length' by (by rewrite length_to_le).
  rewrite from_to_le, mod_is_u by done. split; [done|].
  rewrite drop_app_length' by (by rewrite length_to_le). rewrite take_app_length' by (by rewrite length_to_le).
  rewrite from_to_le, mod_is_u by (by apply is_u_slot_check). split; [done|].
  rewrite app_assoc. apply drop_app_length'. by rewrite length_app, !length_to_le.
Qed.

(** [load] takes the slot for free, whatever clusters it has seen. *)
Definition dead (size : Z) (s : option (list Z)) : Prop :=
  match s with
  | None => True
  | Some slot =>
      let c := from_le (take 8 slot) in
      from_le (sub slot 8 8) <> slot_check c (drop 16 slot) \/ c = FREE \/ clusters_of size <= c
  end.

Lemma free_slot_dead size : dead size (Some (slot_of FREE (pad []))).
Proof.
  right. left. apply slot_of_parts; [split; unfold FREE; lia|].
  unfold pad. by rewrite length_app, length_replicate.
Qed.

(** ** The invariant *)

Record on_file (o : Overlay) (f : list Z) : Prop := {
  of_map_sorted : bt_sorted (map_ o);
  of_free_sorted : bt_sorted (free o);
  of_slots : 0 <= slots o < 2 ^ 50;
  of_live c k ch : bt_get c (map_ o) = Some (k, ch) ->
    0 <= c < clusters_of (disk_size o) /\ 0 <= k < slots o /\ bt_get k (free o) = None /\
    exists data, get_slot f k = Some (slot_of c data) /\ ch = slot_check c data /\ cluster_data data;
  of_free k u : bt_get k (free o) = Some u -> 0 <= k < slots o /\ dead (disk_size o) (get_slot f k);
  of_all k : 0 <= k < slots o -> bt_get k (free o) = Some tt \/ exists c ch, bt_get c (map_ o) = Some (k, ch);
}.

Definition size_ok (size : Z) : Prop := 0 <= size <= 2 ^ 60.

Lemma cluster_u64 size c : size_ok size -> 0 <= c < clusters_of size -> is_u 64 c /\ c <> FREE.
Proof.
  intros [Hs1 Hs2] [Hc1 Hc2]. unfold clusters_of, CLUSTER in Hc2.
  assert ((size + (4096 - 1)) / 4096 <= 2 ^ 50) as Hx by (apply Z.div_le_upper_bound; lia).
  split; [split; lia|]. unfold FREE. lia.
Qed.

(** The contents of the clusters, with the zeros after a short one. *)
Definition view (o : Overlay) (f : list Z) (c : Z) : option (list Z) :=
  match bt_get c (map_ o) with
  | Some (k, _) => match get_slot f k with Some s => Some (drop 16 s) | None => None end
  | None => None
  end.

Section on_file.
Context (o : Overlay) (f : list Z) (Hof : on_file o f) (Hsize : size_ok (disk_size o)).

Lemma live_data c k ch : bt_get c (map_ o) = Some (k, ch) ->
  exists data, get_slot f k = Some (slot_of c data) /\ ch = slot_check c data /\ cluster_data data /\
    view o f c = Some data.
Proof.
  intros Hc. destruct (of_live _ _ Hof _ _ _ Hc) as (H1 & H2 & _ & data & Hs & Hch & Hd).
  exists data. split; [done|]. split; [done|]. split; [done|]. unfold view. rewrite Hc, Hs.
  destruct (slot_of_parts c data) as (_ & _ & ->); [by eapply cluster_u64|apply Hd|done].
Qed.

Lemma live_unique c1 c2 k ch1 ch2 :
  bt_get c1 (map_ o) = Some (k, ch1) -> bt_get c2 (map_ o) = Some (k, ch2) -> c1 = c2.
Proof.
  intros H1 H2. destruct (of_live _ _ Hof _ _ _ H1) as (U1 & _ & _ & d1 & S1 & _ & D1 & _).
  destruct (of_live _ _ Hof _ _ _ H2) as (U2 & _ & _ & d2 & S2 & _ & D2 & _).
  rewrite S1 in S2. apply (inj Some) in S2.
  destruct (slot_of_parts c1 d1) as [E1 _]; [by eapply cluster_u64|done|].
  destruct (slot_of_parts c2 d2) as [E2 _]; [by eapply cluster_u64|done|]. by rewrite <- E1, <- E2, S2.
Qed.

Lemma slot_small k : 0 <= k < slots o -> small_slot k.
Proof. pose proof (of_slots _ _ Hof). unfold small_slot. lia. Qed.

Lemma live_in_file k : 0 <= k < slots o -> bt_get k (free o) = None -> get_slot f k <> None.
Proof.
  intros Hk Hn. destruct (of_all _ _ Hof k Hk) as [E|(c & ch & E)]; [congruence|].
  destruct (of_live _ _ Hof _ _ _ E) as (_ & _ & _ & d & -> & _). done.
Qed.

End on_file.

(** ** Changes *)

(** Slot [k] of [o1] may be given to cluster [c]. *)
Record allots (o : Overlay) (f : list Z) (c k : Z) (o1 : Overlay) : Prop := {
  al_map : map_ o1 = map_ o;
  al_disk : disk_size o1 = disk_size o;
  al_free_sorted : bt_sorted (free o1);
  al_slots : slots o <= slots o1 <= slots o + 1;
  al_in : 0 <= k < slots o1;
  al_taken : bt_get k (free o1) = None;
  al_free j : j <> k -> bt_get j (free o1) = bt_get j (free o);
  al_old j : 0 <= j < slots o1 -> j <> k -> 0 <= j < slots o;
  al_owner x kx ch : bt_get x (map_ o) = Some (kx, ch) -> kx = k <-> x = c;
  al_below j : 0 <= j < k -> get_slot f j <> None;
}.

Lemma allots_live o f c k ch :
  on_file o f -> size_ok (disk_size o) -> bt_get c (map_ o) = Some (k, ch) -> allots o f c k o.
Proof.
  intros Hof Hs Hc. destruct (of_live _ _ Hof _ _ _ Hc) as (H1 & H2 & H3 & d & Hd & _).
  split; try done; try lia; [apply Hof|..].
  - intros x kx ch' Hx. split; [intros ->; by eapply (live_unique o f Hof Hs)|intros ->; congruence].
  - intros j Hj. apply (get_slot_below f j k); [apply (slot_small o f Hof); lia|apply (slot_small o f Hof); lia|lia|].
    by rewrite Hd.
Qed.

Lemma allots_take o f c : on_file o f -> bt_get c (map_ o) = None ->
  let '(k, o1) := take_slot o in allots o f c k o1.
Proof.
  intros Hof Hc. unfold take_slot. pose proof (of_free_sorted _ _ Hof) as Hfs. pose proof (of_slots _ _ Hof).
  destruct (free o) as [|[k []] rest] eqn:Ef.
  - split; unfold Prelude.update; cbn [map_ disk_size slots free]; rewrite ?Ef; try done; try lia.
    + intros x kx ch Hx. destruct (of_live _ _ Hof _ _ _ Hx) as (_ & Hk & _). split; [lia|intros ->; congruence].
    + intros j Hj. apply (live_in_file o f Hof); [lia|by rewrite Ef].
  - assert (forall j, bt_get j (free o) = if j =? k then Some tt else bt_get j rest) as Hget by (intros j; by rewrite Ef).
    inversion Hfs as [|? ? Hrs Hall]; subst. rewrite list.Forall_forall in Hall.
    assert (forall j u, bt_get j rest = Some u -> k < j) as Hmin.
    { intros j u Hj. apply bt_get_elem in Hj; [|done]. by apply (Hall _ Hj). }
    destruct (of_free _ _ Hof k tt) as [Hk _]; [by rewrite Hget, Z.eqb_refl|].
    split; unfold Prelude.update; cbn [map_ disk_size slots free]; try done; try lia.
    + destruct (bt_get k rest) eqn:E; [|done]. specialize (Hmin _ _ E). lia.
    + intros j Hj. rewrite Hget. by destruct (Z.eqb_spec j k).
    + intros x kx ch Hx. destruct (of_live _ _ Hof _ _ _ Hx) as (_ & _ & Hn & _). rewrite Hget in Hn.
      split; [intros ->; by rewrite Z.eqb_refl in Hn|intros ->; congruence].
    + intros j Hj. apply (live_in_file o f Hof); [lia|]. rewrite Hget. destruct (Z.eqb_spec j k); [lia|].
      destruct (bt_get j rest) eqn:E; [|done]. specialize (Hmin _ _ E). lia.
Qed.

Lemma get_slot_allotted o f c k o1 b j :
  on_file o f -> allots o f c k o1 -> slots o1 < 2 ^ 50 -> length b = 4112%nat -> 0 <= j < slots o1 ->
  get_slot (apply_write f (slot_off k, b)) j = if j =? k then Some b else get_slot f j.
Proof.
  intros Hof Hal Hs Hb Hj. pose proof (al_in _ _ _ _ _ Hal). unfold small_slot in *.
  apply get_slot_write; [done|unfold small_slot; lia|unfold small_slot; lia|].
  intros Hjk. apply (al_below _ _ _ _ _ Hal). lia.
Qed.

(** A cluster written to its slot. *)
Lemma write_cluster o f c k o1 data :
  on_file o f -> size_ok (disk_size o) -> allots o f c k o1 -> slots o1 < 2 ^ 50 ->
  0 <= c < clusters_of (disk_size o) -> cluster_data data ->
  let o2 := o1 <| map_ ::= bt_insert c (k, slot_check c data) |> in
  let f2 := apply_write f (slot_off k, slot_of c data) in
  on_file o2 f2 /\ forall x, view o2 f2 x = if x =? c then Some data else view o f x.
Proof.
  intros Hof Hsize Hal Hs Hc [Hd Hb] o2 f2. pose proof Hal as [A1 A2 A3 A4 A5 A6 A7 A8 A9 A10].
  pose proof (fun j => get_slot_allotted o f c k o1 (slot_of c data) j Hof Hal Hs (length_slot_of c data Hd)) as Hg.
  fold f2 in Hg. pose proof (of_map_sorted _ _ Hof) as Hms.
  assert (forall x, bt_get x (map_ o2) = if x =? c then Some (k, slot_check c data) else bt_get x (map_ o)) as Hm.
  { intros x. unfold o2, Prelude.update. cbn [map_]. rewrite A1. by apply bt_get_insert. }
  assert (forall x kx ch, x <> c -> bt_get x (map_ o) = Some (kx, ch) ->
    0 <= kx < slots o1 /\ kx <> k /\ get_slot f2 kx = get_slot f kx) as Hother.
  { intros x kx ch Hx E. destruct (of_live _ _ Hof _ _ _ E) as (_ & Hk & _). split; [lia|].
    assert (kx <> k) as Hne by (intros ->; by apply Hx, (A9 x k ch)). split; [done|].
    rewrite Hg by lia. by destruct (Z.eqb_spec kx k). }
  split.
  - split.
    + unfold o2, Prelude.update. cbn [map_]. rewrite A1. by apply bt_sorted_insert.
    + exact A3.
    + change (slots o2) with (slots o1). pose proof (of_slots _ _ Hof). lia.
    + intros x kx ch. rewrite Hm. change (slots o2) with (slots o1). change (free o2) with (free o1).
      change (disk_size o2) with (disk_size o1). rewrite A2. destruct (Z.eqb_spec x c) as [->|Hx].
      * intros [= <- <-]. split; [done|]. split; [done|]. split; [done|]. exists data.
        rewrite Hg, Z.eqb_refl by done. by split; [|split].
      * intros E. destruct (Hother _ _ _ Hx E) as (H1 & H2 & H3).
        destruct (of_live _ _ Hof _ _ _ E) as (U1 & U2 & U3 & d & U4 & U5 & U6). split; [done|]. split; [done|].
        split; [by rewrite A7|]. exists d. by rewrite H3.
    + intros j u. change (slots o2) with (slots o1). change (free o2) with (free o1).
      change (disk_size o2) with (disk_size o1). rewrite A2. intros E.
      assert (j <> k) as Hjk by (intros ->; congruence). rewrite A7 in E by done.
      destruct (of_free _ _ Hof _ _ E) as [H1 H2]. split; [lia|]. rewrite Hg by lia. by destruct (Z.eqb_spec j k).
    + intros j Hj. change (free o2) with (free o1). change (slots o2) with (slots o1) in Hj.
      destruct (Z.eq_dec j k) as [->|Hjk]; [right; exists c; eexists; rewrite Hm, Z.eqb_refl; done|].
      destruct (of_all _ _ Hof j (A8 j Hj Hjk)) as [E|(x & ch & E)]; [left; by rewrite A7|].
      right. exists x, ch. rewrite Hm. destruct (Z.eqb_spec x c) as [->|]; [|done].
      destruct Hjk. by apply (A9 c j ch).
  - intros x. unfold view. rewrite Hm. destruct (Z.eqb_spec x c) as [->|Hx].
    + rewrite Hg, Z.eqb_refl by done.
      destruct (slot_of_parts c data) as (_ & _ & ->); [by eapply cluster_u64|done|done].
    + destruct (bt_get x (map_ o)) as [[kx ch]|] eqn:E; [|done]. by destruct (Hother _ _ _ Hx E) as (_ & _ & ->).
Qed.

(** A cluster removed: its slot is written free. *)
Lemma remove_cluster o f c k ch :
  on_file o f -> size_ok (disk_size o) -> bt_get c (map_ o) = Some (k, ch) ->
  let o2 := o <| map_ ::= bt_remove c |> <| free ::= bt_insert k tt |> in
  let f2 := apply_write f (slot_off k, slot_of FREE (pad [])) in
  on_file o2 f2 /\ forall x, view o2 f2 x = if x =? c then None else view o f x.
Proof.
  intros Hof Hsize Hc o2 f2. pose proof (allots_live o f c k ch Hof Hsize Hc) as Hal.
  pose proof Hal as [A1 A2 A3 A4 A5 A6 A7 A8 A9 A10]. pose proof (of_slots _ _ Hof) as Hs.
  assert (length (slot_of FREE (pad [])) = 4112%nat) as Hl
    by (apply length_slot_of; unfold pad; by rewrite length_app, length_replicate).
  pose proof (fun j => get_slot_allotted o f c k o _ j Hof Hal (proj2 Hs) Hl) as Hg. fold f2 in Hg.
  assert (forall x, bt_get x (map_ o2) = if x =? c then None else bt_get x (map_ o)) as Hm by (intros x; unfold o2, Prelude.update; cbn [map_]; rewrite bt_get_remove by apply Hof; done).
  assert (forall j, bt_get j (free o2) = if j =? k then Some tt else bt_get j (free o)) as Hfr
    by (intros j; by apply bt_get_insert).
  assert (forall x kx cx, x <> c -> bt_get x (map_ o) = Some (kx, cx) -> kx <> k /\ get_slot f2 kx = get_slot f kx) as Hother.
  { intros x kx cx Hx E. destruct (of_live _ _ Hof _ _ _ E) as (_ & Hk & _).
    assert (kx <> k) as Hne by (intros ->; by apply Hx, (A9 x k cx)). split; [done|].
    rewrite Hg by lia. by destruct (Z.eqb_spec kx k). }
  split.
  - split.
    + apply bt_sorted_remove, Hof.
    + apply bt_sorted_insert, Hof.
    + exact Hs.
    + intros x kx cx. rewrite Hm. destruct (Z.eqb_spec x c) as [|Hx]; [done|]. intros E.
      destruct (Hother _ _ _ Hx E) as (H2 & H3).
      destruct (of_live _ _ Hof _ _ _ E) as (U1 & U2 & U3 & d & U4 & U5 & U6). split; [done|]. split; [done|].
      rewrite Hfr. destruct (Z.eqb_spec kx k); [done|]. split; [done|]. exists d. by rewrite H3.
    + intros j u. rewrite Hfr. change (slots o2) with (slots o). change (disk_size o2) with (disk_size o).
      destruct (Z.eqb_spec j k) as [->|Hj].
      * intros _. split; [done|]. rewrite Hg, Z.eqb_refl by done. apply free_slot_dead.
      * intros E. destruct (of_free _ _ Hof _ _ E) as [H1 H2]. split; [done|]. rewrite Hg by done.
        by destruct (Z.eqb_spec j k).
    + intros j Hj. rewrite Hfr. change (slots o2) with (slots o) in Hj. destruct (Z.eqb_spec j k) as [|Hjk]; [by left|].
      destruct (of_all _ _ Hof j Hj) as [E|(x & cx & E)]; [by left|]. right. exists x, cx. rewrite Hm.
      destruct (Z.eqb_spec x c) as [->|]; [|done]. destruct Hjk. by apply (A9 c j cx).
  - intros x. unfold view. rewrite Hm. destruct (Z.eqb_spec x c) as [|Hx]; [done|].
    destruct (bt_get x (map_ o)) as [[kx cx]|] eqn:E; [|done]. by destruct (Hother _ _ _ Hx E) as (_ & ->).
Qed.

Lemma lxor_cancel k a b : Z.lxor a k = Z.lxor b k -> a = b.
Proof.
  intros H. apply (f_equal (fun x => Z.lxor x k)) in H. by rewrite !Z.lxor_assoc, Z.lxor_nilpotent, !Z.lxor_0_r in H.
Qed.

Lemma slot_check_inj c a b : slot_check c a = slot_check c b -> hash64 a = hash64 b.
Proof. unfold slot_check. intros H. by apply lxor_cancel, lxor_cancel in H. Qed.

(** The clusters after a change. *)
Definition change_view (v : Z -> option (list Z)) (ch : Z * option (list Z)) (x : Z) : option (list Z) :=
  if x =? ch.1 then pad <$> ch.2 else v x.

(** What an update leaves as it is. *)
Definition same_disk (o o' : Overlay) : Prop :=
  identity o' = identity o /\ disk_size o' = disk_size o /\ generation o' = generation o /\ is_fresh o' = is_fresh o.

Section changes.
(** Data on which the checksum tells one cluster from another. *)
Variable D : list Z -> Prop.
Hypothesis hash_inj : forall a b, D a -> D b -> hash64 a = hash64 b -> a = b.

Definition change_ok (size : Z) (ch : Z * option (list Z)) : Prop :=
  match ch.2 with
  | Some data => 0 <= ch.1 < clusters_of size /\ Z.of_nat (length data) <= CLUSTER /\ bytes_ok data /\ D (pad data)
  | None => True
  end.

Definition in_D (v : Z -> option (list Z)) : Prop := forall c d, v c = Some d -> D d.

Lemma update_one_ok o p f ch :
  on_file o f -> size_ok (disk_size o) -> slots o + 1 < 2 ^ 50 -> change_ok (disk_size o) ch -> in_D (view o f) ->
  exists o' ws, update_one (o, p) ch = Some (o', MkPatches (truncate p) (writes p ++ ws)) /\
    (ws = [] \/ exists k b, ws = [(slot_off k, b)] /\ small_slot k) /\
    on_file o' (foldl apply_write f ws) /\
    (forall x, view o' (foldl apply_write f ws) x = change_view (view o f) ch x) /\
    slots o <= slots o' <= slots o + 1 /\ same_disk o o'.
Proof.
  intros Hof Hsize Hs Hch HD. destruct ch as [c [data|]]; cbn [change_ok snd fst] in Hch; unfold update_one, change_view; cbn [fst snd].
  - destruct Hch as (Hc & Hl & Hb & HDd). destruct (Z.ltb_spec c (clusters_of (disk_size o))) as [_|]; [|lia].
    destruct (Z.leb_spec (Z.of_nat (length data)) CLUSTER) as [_|]; [|lia]. cbn [andb negb].
    rewrite slot_bytes_of. pose proof (pad_ok data Hl Hb) as Hpad.
    assert (forall k o1, allots o f c k o1 -> same_disk o o1 ->
      exists o' ws, Some (o1 <| map_ ::= bt_insert c (k, slot_check c (pad data)) |>,
          p <| writes ::= fun w => w ++ [(slot_off k, slot_of c (pad data))] |>) = Some (o', MkPatches (truncate p) (writes p ++ ws)) /\
      (ws = [] \/ exists k b, ws = [(slot_off k, b)] /\ small_slot k) /\
      on_file o' (foldl apply_write f ws) /\
      (forall x, view o' (foldl apply_write f ws) x = if x =? c then pad <$> Some data else view o f x) /\
      slots o <= slots o' <= slots o + 1 /\ same_disk o o') as Hwrite.
    { intros k o1 Hal Hsd. pose proof (al_slots _ _ _ _ _ Hal) as Q1. pose proof (al_in _ _ _ _ _ Hal) as Q2. pose proof (of_slots _ _ Hof) as Q3.
      destruct (write_cluster o f c k o1 (pad data) Hof Hsize Hal ltac:(lia) Hc Hpad) as [H1 H2].
      eexists _, [_]. split; [reflexivity|]. split; [right; eexists k, _; split; [done|unfold small_slot; lia]|].
      split; [exact H1|]. split; [exact H2|]. split; [|exact Hsd]. done. }
    destruct (bt_get c (map_ o)) as [[k old]|] eqn:Ec.
    + destruct (live_data o f Hof Hsize _ _ _ Ec) as (d & Hg & Hold & Hd & Hv).
      destruct (Z.eqb_spec old (slot_check c (pad data))) as [E|E].
      * exists o, []. rewrite app_nil_r. destruct p. split; [done|]. split; [by left|]. split; [exact Hof|].
        split; [|split; [lia|by repeat split]]. intros x. destruct (Z.eqb_spec x c) as [->|]; [|done]. cbn [foldl fmap option_fmap option_map].
        rewrite Hv. f_equal. apply hash_inj; [by eapply HD|done|]. apply (slot_check_inj c). congruence.
      * apply Hwrite; [by eapply allots_live|by repeat split].
    + pose proof (allots_take o f c Hof Ec) as Hal. destruct (take_slot o) as [k o1] eqn:Et. apply Hwrite; [done|].
      unfold take_slot in Et. by destruct (free o) as [|[? ?] ?]; injection Et as <- <-; repeat split.
  - destruct (bt_get c (map_ o)) as [[k old]|] eqn:Ec.
    + destruct (remove_cluster o f c k old Hof Hsize Ec) as [H1 H2].
      destruct (of_live _ _ Hof _ _ _ Ec) as (_ & Hk & _). pose proof (of_slots _ _ Hof).
      eexists _, [_]. split; [reflexivity|]. split; [right; eexists k, _; split; [done|unfold small_slot; lia]|].
      split; [exact H1|]. split; [exact H2|]. split; [unfold Prelude.update; cbn [slots]; lia|by repeat split].
    + exists o, []. rewrite app_nil_r. destruct p. split; [done|]. split; [by left|]. split; [exact Hof|].
      split; [|split; [lia|by repeat split]]. intros x. destruct (Z.eqb_spec x c) as [->|]; [|done]. cbn.
      unfold view. by rewrite Ec.
Qed.

Lemma change_in_D v ch size : in_D v -> change_ok size ch -> in_D (change_view v ch).
Proof.
  intros Hv Hch c d. unfold change_view. destruct (c =? ch.1); [|apply Hv]. unfold change_ok in Hch.
  destruct (ch.2) as [data|]; cbn; [|done]. intros [= <-]. apply Hch.
Qed.

(** The clusters after all the changes. *)
Definition changes_view (v : Z -> option (list Z)) (changes : list (Z * option (list Z))) : Z -> option (list Z) :=
  foldl change_view v changes.

Lemma change_view_ext v1 v2 ch x : (forall y, v1 y = v2 y) -> change_view v1 ch x = change_view v2 ch x.
Proof. intros H. unfold change_view. by destruct (x =? ch.1). Qed.

Lemma changes_view_ext changes : forall v1 v2 x, (forall y, v1 y = v2 y) -> changes_view v1 changes x = changes_view v2 changes x.
Proof.
  induction changes as [|ch changes IH]; intros v1 v2 x H; [apply H|]. apply IH. intros y. by apply change_view_ext.
Qed.

Lemma update_all_ok changes : forall o p f,
  on_file o f -> size_ok (disk_size o) -> slots o + Z.of_nat (length changes) < 2 ^ 50 ->
  Forall (change_ok (disk_size o)) changes -> in_D (view o f) ->
  exists o' ws, update_all (o, p) changes = Some (o', MkPatches (truncate p) (writes p ++ ws)) /\
    Forall (fun w => exists k, w.1 = slot_off k /\ small_slot k) ws /\
    on_file o' (foldl apply_write f ws) /\
    (forall x, view o' (foldl apply_write f ws) x = changes_view (view o f) changes x) /\
    slots o <= slots o' <= slots o + Z.of_nat (length changes) /\ same_disk o o'.
Proof.
  induction changes as [|ch changes IH]; intros o p f Hof Hsize Hs Hch HD.
  - exists o, []. rewrite app_nil_r. destruct p. split; [done|]. split; [constructor|]. split; [done|]. split; [done|].
    cbn. split; [lia|by repeat split].
  - apply Forall_cons in Hch as [Hc Hch]. cbn [length] in *.
    destruct (update_one_ok o p f ch Hof Hsize ltac:(lia) Hc HD) as (o1 & ws1 & E1 & W1 & H1 & V1 & S1 & (I1 & I2 & I3 & I4)).
    destruct (IH o1 (MkPatches (truncate p) (writes p ++ ws1)) (foldl apply_write f ws1)) as (o2 & ws2 & E2 & W2 & H2 & V2 & S2 & (J1 & J2 & J3 & J4)).
    + done.
    + by rewrite I2.
    + lia.
    + by rewrite I2.
    + intros c d. rewrite V1. by eapply change_in_D.
    + exists o2, (ws1 ++ ws2). rewrite foldl_app. cbn [update_all mbind option_bind]. rewrite E1. cbn [mbind option_bind].
      rewrite E2. cbn [truncate writes]. rewrite <- app_assoc. split; [done|]. split.
      { apply Forall_app. split; [|done]. destruct W1 as [->|(k & b & -> & Hk)]; [constructor|].
        constructor; [|constructor]. by exists k. }
      split; [done|]. split.
      { intros x. rewrite V2. apply (changes_view_ext changes _ (change_view (view o f) ch)). exact V1. } split; [lia|].
      unfold same_disk. by rewrite J1, J2, J3, J4.
Qed.

End changes.

(** * Updates, loads and interruptions of an overlay (theorems about SnapOverlay)

    A file brought to a state by [update] loads as that state; interrupted
    before the header it loads as the state after some of the changes, with
    the generation it had. *)

(** ** The header *)

Lemma sub_at pre x post i n : length pre = i -> length x = n -> sub (pre ++ x ++ post) i n = x.
Proof. intros <- <-. unfold sub. by rewrite drop_app_length, take_app_length. Qed.

Definition id_ok (id : list Z) : Prop := Z.of_nat (length id) <= MAX_IDENTITY.

Lemma length_header_body o : id_ok (identity o) -> length (header_body o) = 4088%nat.
Proof.
  intros Hid. unfold header_body, id_ok, MAX_IDENTITY, HEADER_LEN in *.
  rewrite !length_app, !length_to_le, length_replicate. change (length MAGIC) with 8%nat. lia.
Qed.

Lemma length_header o : id_ok (identity o) -> length (header o) = 4096%nat.
Proof. intros Hid. unfold header. by rewrite length_app, length_to_le, length_header_body. Qed.

(** The fields of a header, where [load] looks for them. *)
Record header_fields (o : Overlay) (h : list Z) : Prop := {
  hf_magic : take 8 h = MAGIC;
  hf_version : u32_at h 8 = VERSION;
  hf_cluster : u32_at h 12 = CLUSTER;
  hf_size : u64_at h 16 = disk_size o;
  hf_generation : u64_at h 24 = generation o;
  hf_slots : u64_at h 32 = slots o;
  hf_id_len : u32_at h 40 = Z.of_nat (length (identity o));
  hf_id : sub h 44 (length (identity o)) = identity o;
  hf_sum : u64_at h 4088 = hash64 (take 4088 h);
}.

Lemma header_parses o :
  id_ok (identity o) -> is_u 64 (disk_size o) -> is_u 64 (generation o) -> is_u 64 (slots o) ->
  header_fields o (header o).
Proof.
  intros Hid H1 H2 H3. pose proof (length_header_body o Hid) as Hl.
  assert (is_u 32 (Z.of_nat (length (identity o)))) as H4 by (unfold id_ok, MAX_IDENTITY, HEADER_LEN in Hid; split; lia).
  assert (forall pre n v post i, header o = pre ++ to_le n v ++ post -> length pre = i ->
    from_le (sub (header o) i n) = v mod 2 ^ (8 * Z.of_nat n)) as Hf.
  { intros pre n v post i -> Hi. rewrite sub_at by (done || apply length_to_le). apply from_to_le. }
  assert (forall pre n v post i, header o = pre ++ to_le n v ++ post -> length pre = i -> is_u (8 * Z.of_nat n) v ->
    from_le (sub (header o) i n) = v) as Hfu by (intros; erewrite Hf by done; by apply mod_is_u).
  split.
  - done.
  - apply (Hf MAGIC 4%nat VERSION (drop 12 (header o))); done.
  - apply (Hf (MAGIC ++ to_le 4 VERSION) 4%nat CLUSTER (drop 16 (header o))); done.
  - eapply (Hfu (MAGIC ++ to_le 4 VERSION ++ to_le 4 CLUSTER) 8%nat); [|done|done].
    unfold header, header_body. rewrite <- !app_assoc. reflexivity.
  - eapply (Hfu (MAGIC ++ to_le 4 VERSION ++ to_le 4 CLUSTER ++ to_le 8 (disk_size o)) 8%nat); [|done|done].
    unfold header, header_body. rewrite <- !app_assoc. reflexivity.
  - eapply (Hfu (MAGIC ++ to_le 4 VERSION ++ to_le 4 CLUSTER ++ to_le 8 (disk_size o) ++ to_le 8 (generation o)) 8%nat); [|done|done].
    unfold header, header_body. rewrite <- !app_assoc. reflexivity.
  - eapply (Hfu (MAGIC ++ to_le 4 VERSION ++ to_le 4 CLUSTER ++ to_le 8 (disk_size o) ++ to_le 8 (generation o) ++ to_le 8 (slots o)) 4%nat); [|done|done].
    unfold header, header_body. rewrite <- !app_assoc. reflexivity.
  - assert (header o = (MAGIC ++ to_le 4 VERSION ++ to_le 4 CLUSTER ++ to_le 8 (disk_size o) ++ to_le 8 (generation o)
      ++ to_le 8 (slots o) ++ to_le 4 (Z.of_nat (length (identity o)))) ++ identity o
      ++ (replicate (Z.to_nat (HEADER_LEN - 8) - 44 - length (identity o)) 0 ++ to_le 8 (hash64 (header_body o)))) as ->
      by (unfold header, header_body; rewrite <- !app_assoc; reflexivity).
    by apply sub_at.
  - unfold header. unfold u64_at. rewrite <- (app_nil_r (to_le 8 _)).
    rewrite sub_at by (done || apply length_to_le). rewrite take_app_length' by done.
    rewrite from_to_le. apply mod_is_u, is_u_hash64.
Qed.

(** ** Loading *)

(** The bytes of cluster [c] that are in the disk. *)
Definition in_disk (o : Overlay) (c : Z) (data : list Z) : list Z :=
  take (Z.to_nat (cluster_len (disk_size o) c)) data.

(** What [load] gives for a file that holds [o]. *)
Record loads_as (o : Overlay) (f : list Z) (r : Overlay * list (Z * list Z)) : Prop := {
  la_id : identity r.1 = identity o;
  la_size : disk_size r.1 = disk_size o;
  la_generation : generation r.1 = generation o;
  la_slots : slots r.1 = slots o;
  la_fresh : is_fresh r.1 = false;
  la_map_sorted : bt_sorted (map_ r.1);
  la_free_sorted : bt_sorted (free r.1);
  la_map c : bt_get c (map_ r.1) = bt_get c (map_ o);
  la_free k : bt_get k (free r.1) = bt_get k (free o);
  la_clusters c d : (c, d) ∈ r.2 <-> exists data, view o f c = Some data /\ d = in_disk o c data;
  la_sorted : Sorted by_cluster r.2;
}.

(** The scan after the slots below [j]. *)
Record scanned (o : Overlay) (f : list Z) (j : Z) (st : Overlay * list (Z * list Z)) : Prop := {
  sc_id : identity st.1 = identity o;
  sc_size : disk_size st.1 = disk_size o;
  sc_generation : generation st.1 = generation o;
  sc_slots : slots st.1 = slots o;
  sc_fresh : is_fresh st.1 = false;
  sc_map_sorted : bt_sorted (map_ st.1);
  sc_free_sorted : bt_sorted (free st.1);
  sc_map c k ch : bt_get c (map_ st.1) = Some (k, ch) <-> bt_get c (map_ o) = Some (k, ch) /\ k < j;
  sc_free k u : bt_get k (free st.1) = Some u <-> bt_get k (free o) = Some u /\ k < j;
  sc_out c d : (c, d) ∈ st.2 <-> exists k ch data,
    bt_get c (map_ o) = Some (k, ch) /\ k < j /\ view o f c = Some data /\ d = in_disk o c data;
}.

Section scan.
Context (o : Overlay) (f : list Z) (Hof : on_file o f) (Hsize : size_ok (disk_size o)).

Lemma load_slot_dead j (st : Overlay * list (Z * list Z)) : scanned o f j st -> dead (disk_size o) (get_slot f j) ->
  exists n, load_slot f st j = (st.1 <| damaged := n |> <| free ::= bt_insert j tt |>, st.2).
Proof.
  intros Hst Hd. destruct st as [ov out]. pose proof (sc_size _ _ _ _ Hst) as Es. cbn [fst snd] in *.
  unfold load_slot. unfold dead in Hd. destruct (get_slot f j) as [slot|]; [|exists (damaged ov); by destruct ov].
  destruct (Z.eqb_spec (from_le (sub slot 8 8)) (slot_check (from_le (take 8 slot)) (drop 16 slot))) as [E|E];
    [|by exists (1 + damaged ov)]. cbn [negb orb].
  destruct (Z.eqb_spec (from_le (take 8 slot)) FREE) as [F|F]; [exists (damaged ov); by destruct ov|].
  destruct Hd as [|[|Hd]]; [done|done|]. rewrite Es. destruct (Z.leb_spec (clusters_of (disk_size o)) (from_le (take 8 slot))); [|lia].
  by exists (1 + damaged ov).
Qed.

Lemma load_slot_live j (st : Overlay * list (Z * list Z)) c ch : scanned o f j st -> bt_get c (map_ o) = Some (j, ch) ->
  exists data, view o f c = Some data /\
    load_slot f st j = (st.1 <| map_ ::= bt_insert c (j, ch) |>, st.2 ++ [(c, in_disk o c data)]).
Proof.
  intros Hst Hc. destruct (live_data o f Hof Hsize _ _ _ Hc) as (data & Hg & -> & [Hd _] & Hv).
  destruct (of_live _ _ Hof _ _ _ Hc) as (Hcl & _). destruct (cluster_u64 _ _ Hsize Hcl) as [Hu Hne].
  exists data. split; [done|]. destruct st as [ov out]. pose proof (sc_size _ _ _ _ Hst) as Es. cbn [fst snd] in *.
  unfold load_slot. rewrite Hg. destruct (slot_of_parts c data Hu Hd) as (-> & -> & ->). rewrite Z.eqb_refl, Es. cbn [negb orb].
  destruct (Z.eqb_spec c FREE); [done|]. cbn [negb andb].
  destruct (Z.leb_spec (clusters_of (disk_size o)) c); [lia|]. cbn [orb]. unfold contains_key.
  destruct (bt_get c (map_ ov)) as [[k' ch']|] eqn:E; [|done].
  destruct (sc_map _ _ _ _ Hst c k' ch') as [H1 _]. destruct (H1 E) as [E' Hlt]. rewrite Hc in E'. injection E'. lia.
Qed.

Lemma load_slot_scanned j st : scanned o f j st -> 0 <= j < slots o -> scanned o f (j + 1) (load_slot f st j).
Proof.
  intros Hst Hj. pose proof Hst as [S1 S2 S3 S4 S5 S6 S7 S8 S9 S10].
  destruct (of_all _ _ Hof j Hj) as [Hfree|(c & ch & Hc)].
  - destruct (of_free _ _ Hof _ _ Hfree) as [_ Hdead]. destruct (load_slot_dead j st Hst Hdead) as [n ->].
    assert (forall c k ch, bt_get c (map_ o) = Some (k, ch) -> k < j + 1 <-> k < j) as Hno.
    { intros c k ch Hc. destruct (of_live _ _ Hof _ _ _ Hc) as (_ & _ & Hn & _).
      assert (k <> j) by (intros ->; congruence). lia. }
    split; unfold Prelude.update; cbn [fst snd identity disk_size generation slots is_fresh map_ free]; try done.
    + by apply bt_sorted_insert.
    + intros c k ch. rewrite S8. split; intros [H1 H2]; (split; [done|]); specialize (Hno _ _ _ H1); lia.
    + intros k []. rewrite bt_get_insert by done. destruct (Z.eqb_spec k j) as [->|Hk].
      * split; [intros _; split; [done|lia]|done].
      * rewrite S9. split; intros [H1 H2]; (split; [done|lia]).
    + intros c d. rewrite S10. split; intros (k & ch & data & H1 & H2 & H3); exists k, ch, data; specialize (Hno _ _ _ H1);
        (split; [done|split; [lia|done]]).
  - destruct (load_slot_live j st c ch Hst Hc) as (data & Hv & ->).
    destruct (of_live _ _ Hof _ _ _ Hc) as (_ & _ & Hn & _).
    assert (forall x k cx, bt_get x (map_ o) = Some (k, cx) -> k < j + 1 <-> k < j \/ x = c) as Hiff.
    { intros x k cx Hx. split; [|intros [H| ->]; [lia|rewrite Hc in Hx; injection Hx; lia]].
      intros Hk. destruct (Z.eq_dec k j) as [->|]; [|left; lia]. right. by eapply (live_unique o f Hof Hsize). }
    split; unfold Prelude.update; cbn [fst snd identity disk_size generation slots is_fresh map_ free]; try done.
    + by apply bt_sorted_insert.
    + intros x k cx. rewrite bt_get_insert by done. destruct (Z.eqb_spec x c) as [->|Hx].
      * rewrite Hc. split; [intros [= <- <-]; split; [done|lia]|]. by intros [[= <- <-] _].
      * rewrite S8. split; intros [H1 H2]; (split; [done|]); destruct (Hiff _ _ _ H1) as [Hi _]; [lia|].
        destruct (Hi H2); [done|done].
    + intros k u. rewrite S9. split; intros [H1 H2]; (split; [done|]); [lia|].
      assert (k <> j) by (intros ->; congruence). lia.
    + intros x d. rewrite elem_of_app, S10, list_elem_of_singleton. split.
      * intros [(k & cx & dx & H1 & H2 & H3)|[= -> ->]]; [exists k, cx, dx; split; [done|split; [lia|done]]|].
        exists j, ch, data. split; [done|]. split; [lia|done].
      * intros (k & cx & dx & H1 & H2 & H3 & H4). destruct (Hiff _ _ _ H1) as [Hi _]. destruct (Hi H2) as [Hlt| ->].
        -- left. exists k, cx, dx. by repeat split.
        -- right. rewrite Hv in H3. injection H3 as <-. by rewrite H4.
Qed.

Lemma scan_all n : Z.of_nat n <= slots o -> forall st, scanned o f 0 st ->
  scanned o f (Z.of_nat n) (foldl (load_slot f) st (seqZ 0 (Z.of_nat n))).
Proof.
  intros Hn st Hst. induction n as [|n IH]; [done|].
  replace (Z.of_nat (S n)) with (Z.of_nat n + 1) by lia. rewrite seqZ_app by lia. rewrite foldl_app.
  rewrite Z.add_0_l, (seqZ_cons (Z.of_nat n) 1) by lia. change (seqZ _ (Z.pred 1)) with (@nil Z). cbn [foldl].
  apply load_slot_scanned; [apply IH; lia|lia].
Qed.

End scan.

(** A file whose header and slots are those of [o]. *)
Definition holds (o : Overlay) (f : list Z) : Prop :=
  on_file o f /\ is_fresh o = false /\ (4096 <= length f)%nat /\ take 4096 f = header o.

Lemma load_holds o f id size :
  holds o f -> size_ok size -> disk_size o = size -> identity o = identity (new id size) ->
  is_u 64 (generation o) ->
  exists r, load f id size = Ok r /\ loads_as o f r.
Proof.
  intros (Hof & _ & Hl & Hh) Hsize Hd Hid Hg.
  assert (id_ok (identity o)) as Hidok.
  { rewrite Hid. unfold new, id_ok. cbn [identity]. rewrite length_take. unfold MAX_IDENTITY, HEADER_LEN. lia. }
  assert (is_u 64 (slots o)) as Hs by (destruct (of_slots _ _ Hof); split; lia).
  destruct (header_parses o Hidok) as [F1 F2 F3 F4 F5 F6 F7 F8 F9]; [rewrite Hd; unfold size_ok in Hsize; split; lia|done|done|].
  rewrite <- Hh in *. unfold load. destruct f as [|x f0] eqn:Ef; [cbn in Hl; lia|]. rewrite <- Ef in *. clear Ef.
  change (Z.to_nat HEADER_LEN) with 4096%nat. change (Z.to_nat (HEADER_LEN - 8)) with 4088%nat.
  destruct (Z.ltb_spec (Z.of_nat (length f)) HEADER_LEN); [unfold HEADER_LEN in *; lia|].
  rewrite F1, bool_decide_eq_true_2 by done. rewrite F2, F9, F3, F4, F7, !Z.eqb_refl. cbn [negb].
  destruct (Z.ltb_spec MAX_IDENTITY (Z.of_nat (length (identity o)))); [unfold id_ok in Hidok; lia|].
  rewrite Nat2Z.id, F8, bool_decide_eq_true_2 by done. cbn [negb]. rewrite <- Hd, Z.eqb_refl. cbn [negb].
  eexists. split; [reflexivity|]. unfold load_body. rewrite F5, F6.
  set (ov := _ <| is_fresh := false |>). change (slots ov) with (slots o).
  pose proof (of_slots _ _ Hof) as Hslots.
  assert (scanned o f 0 (ov, [])) as Hstart.
  { split; unfold ov, Prelude.update; cbn [fst snd identity disk_size generation slots is_fresh map_ free new]; try done.
    - constructor.
    - constructor.
    - intros c k ch. split; [done|]. intros [H1 H2]. destruct (of_live _ _ Hof _ _ _ H1) as (_ & Hk & _). lia.
    - intros k u. split; [done|]. intros [H1 H2]. destruct (of_free _ _ Hof _ _ H1) as (Hk & _). lia.
    - intros c d. rewrite elem_of_nil. split; [done|]. intros (k & ch & data & H1 & H2 & _).
      destruct (of_live _ _ Hof _ _ _ H1) as (_ & Hk & _). lia. }
  assert (size_ok (disk_size o)) as Hsz by (by rewrite Hd).
  pose proof (scan_all o f Hof Hsz (Z.to_nat (slots o)) ltac:(lia) _ Hstart) as Hsc. rewrite Z2Nat.id in Hsc by lia.
  destruct (foldl _ _ _) as [ov' out]. destruct Hsc as [S1 S2 S3 S4 S5 S6 S7 S8 S9 S10]. cbn [fst snd] in *.
  split; cbn [fst snd]; try done.
  - intros c. apply option_eq. intros [k ch]. rewrite S8. split; [by intros [? _]|]. intros H1. split; [done|].
    destruct (of_live _ _ Hof _ _ _ H1) as (_ & Hk & _). lia.
  - intros k. apply option_eq. intros u. rewrite S9. split; [by intros [? _]|]. intros H1. split; [done|].
    destruct (of_free _ _ Hof _ _ H1) as (Hk & _). lia.
  - intros c d. rewrite merge_sort_Permutation, S10. split.
    + intros (k & ch & data & _ & _ & H1 & H2). eauto.
    + intros (data & H1 & H2). pose proof H1 as Hv. unfold view in Hv.
      destruct (bt_get c (map_ o)) as [[k ch]|] eqn:E; [|done]. exists k, ch, data.
      destruct (of_live _ _ Hof _ _ _ E) as (_ & Hk & _). by repeat split; try lia.
  - apply Sorted_merge_sort. intros a b. unfold by_cluster. lia.
Qed.

(** ** Updates *)

Lemma on_file_ext o o' f f' :
  on_file o f -> map_ o' = map_ o -> free o' = free o -> slots o' = slots o -> disk_size o' = disk_size o ->
  (forall k, small_slot k -> get_slot f' k = get_slot f k) ->
  on_file o' f' /\ forall x, view o' f' x = view o f x.
Proof.
  intros Hof E1 E2 E3 E4 Eg. pose proof (fun k => slot_small o f Hof k) as Hsm. split.
  - destruct Hof as [H1 H2 H3 H4 H5 H6]. split; rewrite ?E1, ?E2, ?E3, ?E4; try done.
    + intros c k ch Hc. destruct (H4 c k ch Hc) as (U1 & U2 & U3 & d & U4 & U5). rewrite Eg by auto. eauto 10.
    + intros k u Hk. destruct (H5 k u Hk). by rewrite Eg by auto.
  - intros x. unfold view. rewrite E1. destruct (bt_get x (map_ o)) as [[k ch]|] eqn:E; [|done].
    destruct (of_live _ _ Hof _ _ _ E) as (_ & Hk & _). by rewrite Eg by auto.
Qed.

(** [o] is the state of the file [f] of base [id] and size [size]. *)
Definition stored (id : list Z) (size : Z) (o : Overlay) (f : list Z) : Prop :=
  disk_size o = size /\ identity o = identity (new id size) /\ is_u 64 (generation o) /\
  if is_fresh o then map_ o = [] /\ free o = [] /\ slots o = 0 else holds o f.

Lemma stored_new id size f : stored id size (new id size) f.
Proof. repeat split; cbn; lia. Qed.

Lemma stored_id_ok id size o f : stored id size o f -> id_ok (identity o).
Proof.
  intros (_ & -> & _). unfold new, id_ok. cbn [identity]. rewrite length_take. unfold MAX_IDENTITY, HEADER_LEN. lia.
Qed.

(** The file the writes of an update start from. *)
Lemma stored_start id size o f : stored id size o f -> 
  on_file o (apply_truncate (if is_fresh o then Some 0 else None) f) /\
  forall x, view o (apply_truncate (if is_fresh o then Some 0 else None) f) x = view o f x.
Proof.
  intros (_ & _ & _ & H). destruct (is_fresh o); cbn [apply_truncate]; [|by split; [apply H|]].
  destruct H as (E1 & E2 & E3). split; [|intros x; unfold view; by rewrite E1].
  split; rewrite ?E1, ?E2, ?E3; try done; try lia; constructor.
Qed.

Lemma holds_header o f h :
  on_file o f -> id_ok (identity o) -> h = header o -> is_fresh o = false -> 
  holds o (apply_write f (0, h)) /\ forall x, view o (apply_write f (0, h)) x = view o f x.
Proof.
  intros Hof Hid -> Hfr. pose proof (length_header o Hid) as Hl.
  destruct (on_file_ext o o f (apply_write f (0, header o)) Hof) as [H1 H2]; try done.
  { intros k Hk. by apply get_slot_header. }
  split; [|done]. split; [done|]. split; [done|]. rewrite length_apply_write. cbn [fst snd]. split; [rewrite Hl; lia|].
  by apply header_write.
Qed.

Lemma loads_stored id size o f r :
  holds o f -> stored id size o f -> loads_as o f r -> stored id size r.1 f /\ forall x, view r.1 f x = view o f x.
Proof.
  intros (Hof & Hfr & Hl & Hh) (S1 & S2 & S3 & _) [L1 L2 L3 L4 L5 L6 L7 L8 L9 _ _].
  assert (forall x, view r.1 f x = view o f x) as Hv by (intros x; unfold view; by rewrite L8).
  split; [|done]. split; [congruence|]. split; [congruence|]. split; [by rewrite L3|]. rewrite L5.
  split; [|split; [done|split; [done|]]].
  - destruct Hof as [H1 H2 H3 H4 H5 H6]. split; rewrite ?L4, ?L2; try done.
    + intros c k ch. rewrite L8. intros Hc. rewrite L9. by apply H4.
    + intros k u. rewrite L9. apply H5.
    + intros k Hk. rewrite L9. destruct (H6 k Hk) as [E|(c & ch & E)]; [by left|]. right. exists c, ch. by rewrite L8.
  - rewrite Hh. unfold header, header_body. by rewrite L1, L2, L3, L4.
Qed.

(** A change does nothing, or adds a write. *)
Lemma update_one_writes o p ch o' p' : update_one (o, p) ch = Some (o', p') ->
  (o' = o /\ p' = p) \/ exists w, writes p' = writes p ++ [w].
Proof.
  destruct ch as [c [data|]]; unfold update_one.
  - destruct (negb _); [done|]. rewrite slot_bytes_of. destruct (bt_get c (map_ o)) as [[k old]|].
    + destruct (old =? _); intros [= <- <-]; [by left|]. right. by eexists.
    + destruct (take_slot o) as [k o1]. intros [= <- <-]. right. by eexists.
  - destruct (bt_get c (map_ o)) as [[k old]|]; intros [= <- <-]; [right; by eexists|by left].
Qed.

(** The writes after some of the changes are the first of those after all. *)
Lemma update_all_prefix changes : forall o p o' p', update_all (o, p) changes = Some (o', p') ->
  (exists ws, writes p' = writes p ++ ws /\ (ws = [] -> o' = o)) /\
  forall n, (length (writes p) <= n <= length (writes p'))%nat ->
  exists m om pm, update_all (o, p) (take m changes) = Some (om, pm) /\ writes pm = take n (writes p').
Proof.
  induction changes as [|ch changes IH]; intros o p o' p' E.
  - injection E as <- <-. split; [exists []; by rewrite app_nil_r|]. intros n Hn. exists O, o, p.
    split; [done|]. by rewrite take_ge by lia.
  - cbn [update_all] in E. destruct (update_one (o, p) ch) as [[o1 p1]|] eqn:E1; [|done]. cbn [mbind option_bind] in E.
    destruct (IH _ _ _ _ E) as [(ws & Ews & Eo) IHn].
    assert (exists ws1, writes p1 = writes p ++ ws1 /\ (length ws1 <= 1)%nat /\ (ws1 = [] -> o1 = o)) as (ws1 & Ew1 & Hl1 & Eo1).
    { destruct (update_one_writes _ _ _ _ _ E1) as [[-> ->]|[w Hw]]; [exists []; rewrite app_nil_r; split; [done|split; [cbn; lia|done]]|].
      exists [w]. split; [done|]. split; [cbn; lia|done]. }
    split.
    + exists (ws1 ++ ws). rewrite Ews, Ew1, app_assoc. split; [done|]. intros [-> ->]%app_nil. by rewrite Eo, Eo1.
    + intros n Hn. destruct (decide (length (writes p1) <= n)%nat) as [Hle|Hgt].
      * destruct (IHn n ltac:(lia)) as (m & om & pm & Em & Hm). exists (S m), om, pm. cbn [take update_all].
        rewrite E1. done.
      * exists O, o, p. split; [done|]. rewrite Ews, Ew1 in *. rewrite length_app in Hgt.
        rewrite <- app_assoc. by rewrite take_app_length' by lia.
Qed.

Lemma update_stored D id size o f changes :
  (forall a b, D a -> D b -> hash64 a = hash64 b -> a = b) ->
  size_ok size -> stored id size o f -> slots o + Z.of_nat (length changes) < 2 ^ 50 ->
  Forall (change_ok D size) changes -> in_D D (view o f) ->
  exists o' p, update o changes = Some (o', p) /\ stored id size o' (apply_to p f) /\ holds o' (apply_to p f) /\
    (forall x, view o' (apply_to p f) x = changes_view (view o f) changes x) /\
    slots o <= slots o' <= slots o + Z.of_nat (length changes) /\
    ((is_empty p = true /\ generation o' = generation o) \/
     (generation o' = u64 (generation o + 1) /\ exists ws, writes p = ws ++ [(0, header o')])).
Proof.
  intros Hinj Hsize Hst Hs Hch HD. destruct (stored_start id size o f Hst) as [Hof Hv0].
  set (f0 := apply_truncate _ f) in *. pose proof (stored_id_ok _ _ _ _ Hst) as Hid.
  pose proof Hst as (S1 & S2 & S3 & S4).
  destruct (update_all_ok D Hinj changes o (MkPatches (if is_fresh o then Some 0 else None) []) f0)
    as (o1 & ws & E1 & W1 & H1 & V1 & SL & (I1 & I2 & I3 & I4)); rewrite ?S1; try done.
  { intros c d. rewrite Hv0. apply HD. }
  cbn [truncate writes app] in E1. unfold update. rewrite E1. cbn [mbind option_bind].
  assert (forall x, view o1 (foldl apply_write f0 ws) x = changes_view (view o f) changes x) as V2
    by (intros x; rewrite V1; by apply changes_view_ext).
  unfold finish_update. cbn [writes truncate]. rewrite I4.
  destruct (match ws with [] => is_fresh o | _ => true end) eqn:Ew.
  - set (o' := o1 <| generation ::= fun g => u64 (g + 1) |> <| is_fresh := false |>).
    eexists o', _. split; [reflexivity|]. unfold apply_to, Prelude.update. cbn [truncate writes]. fold f0.
    rewrite foldl_app. cbn [foldl]. set (f1 := foldl apply_write f0 ws) in *.
    destruct (on_file_ext o1 o' f1 f1 H1) as [H2 Hv2]; try done.
    destruct (holds_header o' f1 (header o') H2) as [H3 Hv3]; [by rewrite <- I1 in Hid|done|done|].
    assert (generation o' = u64 (generation o + 1)) as Hgen by (unfold o', Prelude.update; cbn [generation]; by rewrite I3).
    split; [|split; [exact H3|split; [|split; [exact SL|]]]].
    + split; [by rewrite <- I2 in S1|]. split; [by rewrite <- I1 in S2|]. split; [rewrite Hgen; apply is_u_u64|]. exact H3.
    + intros x. rewrite Hv3, Hv2. apply V2.
    + right. split; [done|]. by exists ws.
  - destruct ws; [|done]. destruct (update_all_prefix _ _ _ _ _ E1) as [(ws & Ews & Eo) _].
    destruct ws; [|done]. specialize (Eo eq_refl). subst o1.
    eexists o, _. split; [reflexivity|]. unfold apply_to. cbn [truncate writes foldl]. unfold f0 in *.
    cbn [foldl] in V2. rewrite Ew in *. cbn [apply_truncate] in *.
    split; [exact Hst|]. split; [exact S4|]. split; [exact V2|]. split; [exact SL|]. left. split; [done|done].
Qed.

(** C27: from a file that holds an overlay, or one to start afresh, [update]
    gives writes after which the file loads as the changed overlay: every
    cluster given is there with its data, those removed are gone, the others
    are as they were; the overlay loaded is again the state of the file. The
    generation grows by one exactly when there is something to write, and the
    header is then the last write. The data compared by their checksum are
    assumed to be told apart by it. *)
Theorem overlay_update_loads D id size o f changes :
  (forall a b, D a -> D b -> hash64 a = hash64 b -> a = b) ->
  size_ok size -> stored id size o f -> slots o + Z.of_nat (length changes) < 2 ^ 50 ->
  Forall (change_ok D size) changes -> in_D D (view o f) ->
  exists o' p r, update o changes = Some (o', p) /\ load (apply_to p f) id size = Ok r /\
    stored id size r.1 (apply_to p f) /\
    (forall c d, (c, d) ∈ r.2 <-> exists data, changes_view (view o f) changes c = Some data /\ d = in_disk o c data) /\
    Sorted by_cluster r.2 /\
    ((is_empty p = true /\ generation r.1 = generation o) \/
     (generation r.1 = u64 (generation o + 1) /\ exists ws, writes p = ws ++ [(0, header r.1)])).
Proof.
  intros Hinj Hsize Hst Hs Hch HD.
  destruct (update_stored D id size o f changes Hinj Hsize Hst Hs Hch HD) as (o' & p & E & Hst' & Hh & Hv & _ & Hg).
  pose proof Hst' as (S1 & S2 & S3 & _). destruct (load_holds o' (apply_to p f) id size Hh Hsize S1 S2 S3) as (r & Er & Hr).
  exists o', p, r. split; [done|]. split; [done|].
  destruct (loads_stored id size o' _ r Hh Hst' Hr) as [Hst2 _]. split; [done|].
  pose proof Hst as (S0 & _). split; [|split; [apply Hr|]].
  - intros c d. rewrite (la_clusters _ _ _ Hr). unfold in_disk. rewrite S0, S1. by setoid_rewrite Hv.
  - pose proof (la_generation _ _ _ Hr) as Eg. rewrite Eg. destruct Hg as [[H1 H2]|[H1 [ws H2]]]; [left; by rewrite H2|].
    right. split; [done|]. exists ws. rewrite H2. unfold header, header_body.
    by rewrite (la_id _ _ _ Hr), (la_size _ _ _ Hr), Eg, (la_slots _ _ _ Hr).
Qed.

(** ** Interruptions *)

(** The overlay with the slots below [n] only. *)
Definition below (n : Z) (o : Overlay) : Overlay :=
  o <| slots := n |> <| map_ ::= filter (fun e => e.2.1 < n) |> <| free ::= filter (fun e => e.1 < n) |>.

Lemma on_file_below n o f : on_file o f -> 0 <= n <= slots o -> on_file (below n o) f.
Proof.
  intros [H1 H2 H3 H4 H5 H6] Hn. unfold below, Prelude.update.
  split; cbn [map_ free slots disk_size].
  - by apply bt_sorted_filter.
  - by apply bt_sorted_filter.
  - lia.
  - intros c k ch. rewrite bt_get_filter by done. destruct (bt_get c (map_ o)) as [[k' ch']|] eqn:E; [|done].
    cbn [mbind option_bind fst snd]. case_decide as Hk; [|done]. intros [= -> ->]. destruct (H4 _ _ _ E) as (U1 & U2 & U3 & U4).
    split; [done|]. split; [lia|]. split; [|done]. rewrite bt_get_filter by done. by rewrite U3.
  - intros k u. rewrite bt_get_filter by done. destruct (bt_get k (free o)) as [[]|] eqn:E; [|done].
    cbn [mbind option_bind fst snd]. case_decide as Hk; [|done]. intros _. destruct (H5 _ _ E). split; [lia|done].
  - intros k Hk. destruct (H6 k ltac:(lia)) as [E|(c & ch & E)].
    + left. rewrite bt_get_filter, E by done. cbn [mbind option_bind fst]. by rewrite decide_True by lia.
    + right. exists c, ch. rewrite bt_get_filter, E by done. cbn [mbind option_bind fst snd]. by rewrite decide_True by lia.
Qed.

Lemma view_below n o f c d : bt_sorted (map_ o) ->
  view (below n o) f c = Some d <-> view o f c = Some d /\ exists k ch, bt_get c (map_ o) = Some (k, ch) /\ k < n.
Proof.
  intros Hs. unfold view, below, Prelude.update. cbn [map_]. rewrite bt_get_filter by done.
  destruct (bt_get c (map_ o)) as [[k ch]|]; [|split; [done|by intros [? _]]]. cbn [mbind option_bind fst snd].
  case_decide as Hk.
  - split; [|by intros [? _]]. intros H. split; [done|]. by exists k, ch.
  - split; [done|]. intros [_ (k' & ch' & [= <- <-] & ?)]. done.
Qed.

Lemma header_kept ws f : Forall (fun w => exists k, w.1 = slot_off k /\ small_slot k) ws -> (4096 <= length f)%nat ->
  take 4096 (foldl apply_write f ws) = take 4096 f /\ (4096 <= length (foldl apply_write f ws))%nat.
Proof.
  revert f. induction ws as [|[at_ b] ws IH]; intros f Hws Hl; [done|]. apply Forall_cons in Hws as [(k & Ek & Hk) Hws].
  cbn [fst] in Ek. subst at_. cbn [foldl].
  destruct (IH (apply_write f (slot_off k, b)) Hws) as [H1 H2]; [rewrite length_apply_write; lia|].
  split; [|done]. rewrite H1. by apply header_write_slot.
Qed.

Lemma interrupted_loads D id size o f changes n :
  (forall a b, D a -> D b -> hash64 a = hash64 b -> a = b) ->
  size_ok size -> stored id size o f -> is_fresh o = false ->
  slots o + Z.of_nat (length changes) < 2 ^ 50 ->
  Forall (change_ok D size) changes -> in_D D (view o f) ->
  exists o' p, update o changes = Some (o', p) /\
    ((n < length (writes p))%nat ->
     exists m om pm r, update_all (o, MkPatches None []) (take m changes) = Some (om, pm) /\ writes pm = take n (writes p) /\
       load (foldl apply_write f (take n (writes p))) id size = Ok r /\
       generation r.1 = generation o /\ slots r.1 = slots o /\
       forall c d, (c, d) ∈ r.2 <-> exists data k ch,
         changes_view (view o f) (take m changes) c = Some data /\ d = in_disk o c data /\
         bt_get c (map_ om) = Some (k, ch) /\ k < slots o).
Proof.
  intros Hinj Hsize Hst Hfr Hs Hch HD. pose proof Hst as (S1 & S2 & S3 & S4). rewrite Hfr in S4.
  destruct S4 as (Hof & _ & Hlen & Hhd).
  destruct (update_all_ok D Hinj changes o (MkPatches None []) f Hof) as (o1 & ws & E1 & W1 & _); rewrite ?S1; try done.
  cbn [truncate writes app] in E1. unfold update. rewrite Hfr, E1. cbn [mbind option_bind].
  destruct (finish_update (o1, MkPatches None ws)) as [o' p] eqn:Ef. exists o', p. split; [done|]. intros Hn.
  assert (take n (writes p) = take n ws /\ (n <= length ws)%nat) as [-> Hnw].
  { unfold finish_update in Ef. destruct (match _ with [] => _ | _ => true end); injection Ef as <- <-; [|by split; [|cbn in Hn; lia]].
    unfold Prelude.update in *. cbn [writes] in *. rewrite length_app in Hn. cbn in Hn. split; [|lia]. by rewrite take_app_le by lia. }
  destruct (update_all_prefix _ _ _ _ _ E1) as [_ Hpre]. cbn [writes length] in Hpre.
  destruct (Hpre n ltac:(lia)) as (m & om & pm & Em & Hpm). clear Hpre.
  destruct (update_all_ok D Hinj (take m changes) o (MkPatches None []) f Hof) as (om' & wm & Em' & Wm & Hm & Vm & Sm & (I1 & I2 & I3 & I4));
    rewrite ?S1; try done.
  { rewrite length_take. lia. }
  { by apply Forall_take. }
  rewrite Em in Em'. injection Em' as <- Epm. cbn [truncate writes app] in Epm. rewrite Epm in Hpm. cbn [writes] in Hpm.
  rewrite <- Hpm. destruct (header_kept wm f Wm Hlen) as [Hh Hl].
  set (fn := foldl apply_write f wm) in *. pose proof (of_slots _ _ Hof) as Hsl.
  assert (holds (below (slots o) om) fn) as Hholds.
  { split; [apply on_file_below; [done|lia]|]. split; [by rewrite <- I4 in Hfr|]. split; [done|]. rewrite Hh, Hhd.
    unfold header, header_body, below, Prelude.update. cbn [disk_size generation slots identity]. by rewrite I1, I2, I3. }
  destruct (load_holds (below (slots o) om) fn id size Hholds Hsize) as (r & Er & Hr).
  { by rewrite <- I2 in S1. }
  { by rewrite <- I1 in S2. }
  { by rewrite <- I3 in S3. }
  exists m, om, pm, r. split; [done|]. split; [by rewrite Epm|]. split; [done|]. split; [by rewrite (la_generation _ _ _ Hr), <- I3|].
  split; [by rewrite (la_slots _ _ _ Hr)|]. intros c d. rewrite (la_clusters _ _ _ Hr).
  setoid_rewrite (view_below (slots o) om fn c _ (of_map_sorted _ _ Hm)). setoid_rewrite Vm.
  assert (forall data, in_disk (below (slots o) om) c data = in_disk o c data) as Hd
    by (intros data; unfold in_disk, below, Prelude.update; cbn [disk_size]; by rewrite I2).
  setoid_rewrite Hd. naive_solver.
Qed.

(** C28: an update of an overlay that is on its file (one that has had its header
    written), interrupted after any number of its writes, the header not among
    them, leaves a file that loads: it has the generation and the slots it had,
    and every cluster in it has its contents after one and the same part of the
    changes; a cluster is missing only if it is in a slot past those the header
    counts. The data compared by their checksum are assumed to be told apart by
    it. The first update of a fresh overlay is not covered: until its header is
    written the file is not an overlay. *)
Theorem overlay_interrupted D id size o f changes n :
  (forall a b, D a -> D b -> hash64 a = hash64 b -> a = b) ->
  size_ok size -> stored id size o f -> is_fresh o = false ->
  slots o + Z.of_nat (length changes) < 2 ^ 50 ->
  Forall (change_ok D size) changes -> in_D D (view o f) ->
  exists o' p, update o changes = Some (o', p) /\
    ((n < length (writes p))%nat ->
     exists m om pm r, update_all (o, MkPatches None []) (take m changes) = Some (om, pm) /\
       load (foldl apply_write f (take n (writes p))) id size = Ok r /\
       generation r.1 = generation o /\ slots r.1 = slots o /\
       forall c d, (c, d) ∈ r.2 <-> exists data k ch,
         changes_view (view o f) (take m changes) c = Some data /\ d = in_disk o c data /\
         bt_get c (map_ om) = Some (k, ch) /\ k < slots o).
Proof.
  intros Hinj Hsize Hst Hfr Hs Hch HD.
  destruct (interrupted_loads D id size o f changes n Hinj Hsize Hst Hfr Hs Hch HD) as (o' & p & Hu & H). exists o', p. split; [exact Hu|].
  intros Hn. destruct (H Hn) as (m & om & pm & r & H1 & _ & H2). exists m, om, pm, r. by split.
Qed.

(** ** A disk of one cluster *)

Definition one_disk : Overlay := new [98] 4096.
Definition two_data (a : list Z) : Prop := a = pad [5] \/ a = pad [6].

Lemma two_data_told_apart a b : two_data a -> two_data b -> hash64 a = hash64 b -> a = b.
Proof.
  assert (hash64 (pad [5]) <> hash64 (pad [6])) as H by (vm_compute; discriminate).
  intros [->| ->] [->| ->] E; [reflexivity|destruct (H E)|destruct (H (eq_sym E))|reflexivity].
Qed.

Lemma write_0_ok v : v = 5 \/ v = 6 -> Forall (change_ok two_data 4096) [(0, Some [v])].
Proof.
  intros Hv. constructor; [|constructor]. unfold change_ok. cbn [fst snd]. split; [split; [lia|reflexivity]|]. split; [cbn; unfold CLUSTER; lia|].
  split; [constructor; [destruct Hv as [->| ->]; split; lia|constructor]|].
  destruct Hv as [->| ->]; [left; reflexivity|right; reflexivity].
Qed.

Lemma overlay_update_loads_witness :
  exists o' p r, update one_disk [(0, Some [5])] = Some (o', p) /\ load (apply_to p []) [98] 4096 = Ok r /\
    stored [98] 4096 r.1 (apply_to p []) /\ (0, pad [5]) ∈ r.2.
Proof.
  destruct (overlay_update_loads two_data [98] 4096 one_disk [] [(0, Some [5])]) as (o' & p & r & H1 & H2 & H3 & H4 & _).
  - apply two_data_told_apart.
  - split; lia.
  - apply stored_new.
  - cbn. lia.
  - by apply write_0_ok; left.
  - done.
  - exists o', p, r. split; [exact H1|]. split; [exact H2|]. split; [exact H3|]. apply H4. exists (pad [5]). split; [reflexivity|].
    vm_compute. reflexivity.
Defined.

Lemma overlay_interrupted_witness :
  exists o f o' p, stored [98] 4096 o f /\ update o [(0, Some [6])] = Some (o', p) /\
    ((1 < length (writes p))%nat ->
     exists r, load (foldl apply_write f (take 1 (writes p))) [98] 4096 = Ok r /\ generation r.1 = generation o).
Proof.
  destruct (update_stored two_data [98] 4096 one_disk [] [(0, Some [5])]) as (o & p1 & _ & Hst & (Hof & Hfr & _) & Hv & Hsl & _).
  - apply two_data_told_apart.
  - split; lia.
  - apply stored_new.
  - cbn. lia.
  - by apply write_0_ok; left.
  - done.
  - destruct (overlay_interrupted two_data [98] 4096 o (apply_to p1 []) [(0, Some [6])] 1) as (o' & p & H1 & H2).
    + apply two_data_told_apart.
    + split; lia.
    + done.
    + done.
    + cbn in *. lia.
    + by apply write_0_ok; right.
    + intros c d. rewrite Hv. unfold changes_view, change_view. cbn. destruct (c =? 0); [|done]. intros [= <-]. by left.
    + exists o, (apply_to p1 []), o', p. split; [done|]. split; [done|]. intros Hn.
      destruct (H2 Hn) as (m & om & pm & r & _ & H3 & H4 & _). by exists r.
Defined.

(** The generation does not tell a file from the one an interrupted update
    leaves: whenever a cluster of the file is given new data and the update
    stops before its header, the file loads with the new data of the cluster
    under the generation of the old. *)
Theorem torn_update_keeps_generation D id size o f c old data :
  (forall a b, D a -> D b -> hash64 a = hash64 b -> a = b) ->
  size_ok size -> stored id size o f -> is_fresh o = false -> slots o + 1 < 2 ^ 50 ->
  change_ok D size (c, Some data) -> in_D D (view o f) -> view o f c = Some old -> pad data <> old ->
  exists o' p r0 r1, update o [(c, Some data)] = Some (o', p) /\ length (writes p) = 2%nat /\
    load f id size = Ok r0 /\ load (foldl apply_write f (take 1 (writes p))) id size = Ok r1 /\
    generation r1.1 = generation r0.1 /\ (c, in_disk o c old) ∈ r0.2 /\ (c, in_disk o c (pad data)) ∈ r1.2.
Proof.
  intros Hinj Hsize Hst Hfr Hs Hch HD Hold Hne. pose proof Hst as (S1 & S2 & S3 & S4). rewrite Hfr in S4.
  destruct (load_holds o f id size S4 Hsize S1 S2 S3) as (r0 & E0 & Hr0). destruct S4 as (Hof & _).
  destruct (interrupted_loads D id size o f [(c, Some data)] 1 Hinj Hsize Hst Hfr) as (o' & p & Hu & H); [cbn; lia|by apply Forall_singleton|done|].
  unfold view in Hold. destruct (bt_get c (map_ o)) as [[k ch]|] eqn:Ec; [|done].
  destruct (live_data o f Hof ltac:(by rewrite S1) _ _ _ Ec) as (d & Hg & Hch' & _ & Hv). rewrite Hg in Hold. cbn in Hold.
  assert (view o f c = Some old) as Hold' by (unfold view; by rewrite Ec, Hg). rewrite Hv in Hold'. injection Hold' as ->.
  assert (ch <> slot_check c (pad data)) as Hcheck.
  { intros E. apply Hne. symmetry. apply Hinj; [by eapply HD|apply Hch|]. apply (slot_check_inj c). congruence. }
  assert (update_one (o, MkPatches None []) (c, Some data) = Some (o <| map_ ::= bt_insert c (k, slot_check c (pad data)) |>,
            MkPatches None [(slot_off k, slot_of c (pad data))])) as Eone.
  { destruct Hch as (Hc & Hl & _). cbn [fst snd] in *. unfold update_one. rewrite S1.
    destruct (Z.ltb_spec c (clusters_of size)); [|lia]. destruct (Z.leb_spec (Z.of_nat (length data)) CLUSTER); [|lia]. cbn [andb negb].
    rewrite slot_bytes_of, Ec. destruct (Z.eqb_spec ch (slot_check c (pad data))); [done|reflexivity]. }
  pose proof Hu as Hu'. unfold update in Hu'. rewrite Hfr in Hu'. cbn [update_all] in Hu'. rewrite Eone in Hu'. cbn in Hu'. injection Hu' as _ Ep.
  assert (length (writes p) = 2%nat) as Hlen by (by rewrite <- Ep). destruct (H ltac:(lia)) as (m & om & pm & r & Em & Hpm & Hl & Hgen & _ & Hcl).
  exists o', p, r0, r. split_and!; [done..|by rewrite Hgen, (la_generation _ _ _ Hr0)| |].
  - apply (la_clusters _ _ _ Hr0). by exists old.
  - destruct m as [|m]; [cbn in Em; injection Em as _ <-; rewrite <- Ep in Hpm; done|].
    cbn [take update_all] in Em. rewrite Eone in Em. cbn in Em. rewrite take_nil in Em. injection Em as <- _.
    apply Hcl. exists (pad data), k, (slot_check c (pad data)). cbn [take]. rewrite take_nil. split_and!; [| done | |].
    + unfold changes_view, change_view. cbn. by rewrite Z.eqb_refl.
    + unfold Prelude.update. cbn [map_]. by rewrite bt_get_insert, Z.eqb_refl by apply Hof.
    + by destruct (of_live _ _ Hof _ _ _ Ec) as (_ & [_ ?] & _).
Qed.
