(* ===== verification/PlatBus.v ===== *)
(** * The memory map of the virt platform (crates/vetro-platform/src/map.rs)

    Addresses and interrupt numbers of the devices. *)

From Stdlib Require Import ZArith Lia Bool Sorting.Sorted.
From stdpp Require Import base list numbers strings sorting.
From S2P Require Import Prelude.
Local Open Scope Z_scope.

Module map.
Definition GICD_BASE : Z := 0x08000000.
Definition GICD_SIZE : Z := 0x10000.
Definition GICR_BASE : Z := 0x080A0000.
Definition GICR_SIZE_PER_CPU : Z := 0x20000.
Definition UART_BASE : Z := 0x09000000.
Definition UART_SIZE : Z := 0x1000.
Definition RTC_BASE : Z := 0x09010000.
Definition RTC_SIZE : Z := 0x1000.
Definition GPIO_BASE : Z := 0x09030000.
Definition GPIO_SIZE : Z := 0x1000.
Definition VIRTIO_BASE : Z := 0x0A000000.
Definition VIRTIO_SLOT_SIZE : Z := 0x200.
Definition VIRTIO_SLOTS : Z := 32.
Definition RAM_BASE : Z := 0x40000000.

Definition SPI_BASE : Z := 32.
Definition UART_SPI : Z := 1.
Definition RTC_SPI : Z := 2.
Definition GPIO_SPI : Z := 7.
Definition VIRTIO_SPI_BASE : Z := 16.

Definition PPI_VTIMER : Z := 27.
Definition PPI_PTIMER : Z := 30.
Definition PPI_SEC_PTIMER : Z := 29.
Definition PPI_HYP_TIMER : Z := 26.

Definition CNTFRQ_HZ : Z := 62500000.
Definition UART_CLOCK_HZ : Z := 24000000.
End map.

(** * The bus of memory-mapped devices (crates/vetro-platform/src/bus.rs)

    Regions in the order they were mapped, and their indices sorted by base.
    The theorems: [map] keeps the regions disjoint and the index sorted, and
    [find] gives the one region that holds the whole access. *)

Local Open Scope vetro_scope.

(** [trait MmioDevice]: the value read, and the device after the access. *)
Class MmioDevice (D : Type) := {
  dev_read : Z -> Z -> D -> Z * D;
  dev_write : Z -> Z -> Z -> D -> D;
}.

Module bus.

Inductive BusError :=
| InvalidRange (base size : Z)
| Overlap (base size : Z) (existing : string).

Record Region (D : Type) := MkRegion { base : Z; size : Z; name : string; device : D }.
Arguments MkRegion {D}.
Arguments base {D}.
Arguments size {D}.
Arguments name {D}.
Arguments device {D}.

#[export] Instance eta_Region {D} : Eta (Region D) := fun r => MkRegion (base r) (size r) (name r) (device r).

Definition end_ {D} (r : Region D) : Z := base r + size r.

Record Bus (D : Type) := MkBus {
  (** In the order of insertion: the index is the [DeviceId]. *)
  regions : list (Region D);
  (** Indices into [regions], sorted by base. *)
  by_base : list nat;
}.
Arguments MkBus {D}.
Arguments regions {D}.
Arguments by_base {D}.

#[export] Instance eta_Bus {D} : Eta (Bus D) := fun b => MkBus (regions b) (by_base b).

(** Mask of the valid bits of an access. *)
Definition size_mask (size : Z) : Z :=
  if size =? 1 then 0xFF else if size =? 2 then 0xFFFF else if size =? 4 then 0xFFFFFFFF else 2 ^ 64 - 1.

(** A 32-bit register inside an access. *)
Definition sub_word (word offset size : Z) : Z :=
  let shift := Z.land offset 3 * 8 in
  Z.land (Z.shiftr word shift) (size_mask size).

(** [slice::partition_point]: the length of the prefix that satisfies [p]. *)
Fixpoint partition_point {A} (p : A -> bool) (l : list A) : nat :=
  match l with
  | [] => 0
  | x :: l => if p x then S (partition_point p l) else 0
  end.

Section bus.
Context {D : Type}.

Definition bus_new : Bus D := MkBus [] [].

(** [regions[i].base]; the indices of [by_base] are in range. *)
Definition base_of (b : Bus D) (i : nat) : option Z := base <$> regions b !! i.

(** [regions[i].base < x] and [<= x]. *)
Definition base_lt (rs : list (Region D)) (x : Z) (i : nat) : bool :=
  match rs !! i with Some r => base r <? x | None => false end.
Definition base_le (rs : list (Region D)) (x : Z) (i : nat) : bool :=
  match rs !! i with Some r => base r <=? x | None => false end.

Definition overlaps (lo hi : Z) (r : Region D) : bool := (lo <? end_ r) && (base r <? hi).

Definition bus_map (base0 size0 : Z) (name0 : string) (dev : D) (b : Bus D) : result nat BusError * Bus D :=
  if (size0 =? 0) || (2 ^ 64 <=? base0 + size0) then (Err (InvalidRange base0 size0), b) else
  let hi := base0 + size0 in
  match List.find (overlaps base0 hi) (regions b) with
  | Some r => (Err (Overlap base0 size0 (name r)), b)
  | None =>
      let id := length (regions b) in
      let rs := regions b ++ [MkRegion base0 size0 name0 dev] in
      let pos := partition_point (base_lt rs base0) (by_base b) in
      (Ok id, MkBus rs (take pos (by_base b) ++ [id] ++ drop pos (by_base b)))
  end.

(** Device and offset of an access; [checked_sub] and [checked_add] give up. *)
Definition find (addr sz : Z) (b : Bus D) : option (nat * Z) :=
  let pos := partition_point (base_le (regions b) addr) (by_base b) in
  match pos with
  | O => None
  | S pos =>
      match by_base b !! pos with
      | None => None
      | Some idx =>
          match regions b !! idx with
          | None => None
          | Some r =>
              let last := addr + (Z.max sz 1 - 1) in
              if 2 ^ 64 <=? last then None
              else if last <? end_ r then Some (idx, addr - base r) else None
          end
      end
  end.

Definition region (b : Bus D) (id : nat) : option (string * Z * Z) :=
  match regions b !! id with Some r => Some (name r, base r, size r) | None => None end.

(** [device] and a write through [device_mut]. *)
Definition device_of (b : Bus D) (id : nat) : option D := device <$> regions b !! id.
Definition set_device (id : nat) (f : D -> D) (b : Bus D) : Bus D :=
  b <| regions ::= alter (fun r => r <| device ::= f |>) id |>.

Context `{!MmioDevice D}.

Definition read (addr sz : Z) (b : Bus D) : option Z * Bus D :=
  match find addr sz b with
  | None => (None, b)
  | Some (i, off) =>
      match device_of b i with
      | None => (None, b)
      | Some d =>
          let r := dev_read off sz d in
          (Some (Z.land r.1 (size_mask sz)), set_device i (fun _ => r.2) b)
      end
  end.

Definition write (addr sz value : Z) (b : Bus D) : bool * Bus D :=
  match find addr sz b with
  | None => (false, b)
  | Some (i, off) => (true, set_device i (dev_write off sz (Z.land value (size_mask sz))) b)
  end.

End bus.
End bus.

(** ** Invariant *)

Import bus.

Section wf.
Context {D : Type}.
Implicit Types b : Bus D.

Definition region_ok (r : Region D) : Prop := 0 <= base r /\ 0 < size r /\ end_ r < 2 ^ 64.

Definition disjoint_regions (r r' : Region D) : Prop := end_ r <= base r' \/ end_ r' <= base r.

(** [i] comes before [j] in the index. *)
Definition before (rs : list (Region D)) (i j : nat) : Prop :=
  exists r r', rs !! i = Some r /\ rs !! j = Some r' /\ base r < base r'.

Record bus_wf b : Prop := {
  bw_regions : Forall region_ok (regions b);
  bw_disjoint i j r r' : i <> j -> regions b !! i = Some r -> regions b !! j = Some r' -> disjoint_regions r r';
  bw_index : by_base b ≡ₚ seq 0 (length (regions b));
  bw_sorted : StronglySorted (before (regions b)) (by_base b);
}.

Lemma bus_new_wf : bus_wf (bus_new (D := D)).
Proof. split; cbn; [constructor| |done|constructor]. intros i j r r' _ H. by rewrite lookup_nil in H. Qed.

(** On a sorted index the prefix of smaller bases is a partition. *)
Lemma partition_prefix {A} (p : A -> bool) l :
  Forall (fun x => p x = true) (take (partition_point p l) l) /\
  (forall x, l !! partition_point p l = Some x -> p x = false) /\ (partition_point p l <= length l)%nat.
Proof.
  induction l as [|x l (H1 & H2 & H3)]; cbn; [by repeat split|]. destruct (p x) eqn:E; cbn.
  - repeat split; [by constructor|done|lia].
  - repeat split; [constructor| |lia]. by intros y [= <-].
Qed.

Lemma partition_rest {A} (R : relation A) (p : A -> bool) l :
  StronglySorted R l -> (forall x y, R x y -> p y = true -> p x = true) ->
  Forall (fun x => p x = false) (drop (partition_point p l) l).
Proof.
  intros Hs Hp. induction Hs as [|x l Hs IH Hx]; cbn; [constructor|]. destruct (p x) eqn:E; cbn; [done|].
  constructor; [done|]. eapply Forall_impl; [exact Hx|]. intros y Hy. destruct (p y) eqn:Ey; [|done].
  rewrite (Hp x y Hy Ey) in E. discriminate.
Qed.

Lemma before_app rs r i j : before rs i j -> before (rs ++ [r]) i j.
Proof. intros (a & a' & Ha & Ha' & Hlt). exists a, a'. split; [by apply lookup_app_l_Some|]. split; [by apply lookup_app_l_Some|done]. Qed.

Lemma index_lookup b i : bus_wf b -> i ∈ by_base b -> exists r, regions b !! i = Some r.
Proof.
  intros W Hi. rewrite (bw_index _ W), elem_of_seq in Hi. apply lookup_lt_is_Some_2. lia.
Qed.

Lemma not_overlapping r r' :
  region_ok r -> region_ok r' -> overlaps (base r) (end_ r) r' = false -> disjoint_regions r r'.
Proof.
  unfold overlaps, disjoint_regions. intros _ _ H. apply andb_false_iff in H as [H|H]; lia.
Qed.

(** Where a new region goes in the index. *)
Lemma sorted_insert b r :
  bus_wf b -> Forall (disjoint_regions r) (regions b) -> region_ok r ->
  let rs := regions b ++ [r] in
  let pos := partition_point (base_lt rs (base r)) (by_base b) in
  StronglySorted (before rs) (take pos (by_base b) ++ [length (regions b)] ++ drop pos (by_base b)).
Proof.
  intros W Hd Hr rs pos.
  assert (StronglySorted (before rs) (by_base b)) as Hs.
  { pose proof (bw_sorted _ W) as H. induction H as [|x l H IH Hx]; constructor; [done|].
    eapply Forall_impl; [exact Hx|]. intros y. apply before_app. }
  assert (rs !! length (regions b) = Some r) as Hnew by (unfold rs; by rewrite lookup_app_r, Nat.sub_diag).
  assert (forall i, i ∈ by_base b -> exists q, rs !! i = Some q /\ disjoint_regions r q /\ region_ok q) as Hin.
  { intros i Hi. destruct (index_lookup b i W Hi) as [q Hq]. exists q.
    split; [by apply lookup_app_l_Some|]. split; [exact (Forall_lookup_1 _ _ _ _ Hd Hq)|].
    exact (Forall_lookup_1 _ _ _ _ (bw_regions _ W) Hq). }
  destruct (partition_prefix (base_lt rs (base r)) (by_base b)) as (Hpre & _ & _).
  pose proof (partition_rest (before rs) (base_lt rs (base r)) (by_base b) Hs) as Hrest.
  assert (Forall (fun x => base_lt rs (base r) x = false) (drop pos (by_base b))) as Hpost.
  { apply Hrest. intros x y (q & q' & Hq & Hq' & Hlt). unfold base_lt. rewrite Hq, Hq'. lia. }
  fold pos in Hpre.
  assert (Forall (fun i => before rs i (length (regions b))) (take pos (by_base b))) as Hlo.
  { apply Forall_forall. intros i Hi. rewrite Forall_forall in Hpre. specialize (Hpre i Hi).
    destruct (Hin i) as (q & Hq & _); [by eapply subseteq_take|]. exists q, r. split; [done|]. split; [done|].
    unfold base_lt in Hpre. rewrite Hq in Hpre. lia. }
  assert (Forall (before rs (length (regions b))) (drop pos (by_base b))) as Hhi.
  { apply Forall_forall. intros i Hi. rewrite Forall_forall in Hpost. specialize (Hpost i Hi).
    destruct (Hin i) as (q & Hq & Hdq & Hok); [by eapply subseteq_drop|]. exists r, q. split; [done|]. split; [done|].
    unfold base_lt in Hpost. rewrite Hq in Hpost. unfold disjoint_regions, end_, region_ok in *. lia. }
  rewrite <- (take_drop pos (by_base b)) in Hs. clear -Hs Hlo Hhi.
  revert Hs Hlo. generalize (take pos (by_base b)) as l1. intros l1.
  induction l1 as [|x l1 IH]; cbn; intros Hs Hlo.
  - by constructor.
  - apply StronglySorted_inv in Hs as [Hs Hx]. apply Forall_cons_1 in Hlo as [Hx0 Hlo].
    constructor; [by apply IH|]. apply Forall_app in Hx as [Hx1 Hx2]. apply Forall_app. split; [done|]. by constructor.
Qed.

Lemma bus_map_wf b base0 size0 nm dev :
  bus_wf b -> 0 <= base0 -> 0 <= size0 -> bus_wf (bus_map base0 size0 nm dev b).2.
Proof.
  intros W Hb Hs. unfold bus_map.
  destruct (Z.eqb_spec size0 0), (Z.leb_spec (2 ^ 64) (base0 + size0)); try exact W. cbn [orb].
  destruct (List.find _ _) as [r|] eqn:Ef; [exact W|]. cbn [snd].
  set (r := MkRegion base0 size0 nm dev).
  assert (region_ok r) as Hr by (unfold region_ok, end_; cbn; lia).
  assert (Forall (disjoint_regions r) (regions b)) as Hd.
  { apply Forall_forall. intros q Hq. apply not_overlapping; [done| |].
    - apply list_elem_of_lookup in Hq as [i Hq]. exact (Forall_lookup_1 _ _ _ _ (bw_regions _ W) Hq).
    - eapply (List.find_none _ _ Ef). by apply list_elem_of_In. }
  split; cbn [regions by_base].
  - apply Forall_app. split; [apply (bw_regions _ W)|by constructor].
  - intros i j q q' Hne Hi Hj. apply lookup_app_Some in Hi as [Hi|[Hi1 Hi]]; apply lookup_app_Some in Hj as [Hj|[Hj1 Hj]].
    + by apply (bw_disjoint _ W i j).
    + apply list_lookup_singleton_Some in Hj as [_ <-].
      pose proof (Forall_lookup_1 _ _ _ _ Hd Hi) as H'. unfold disjoint_regions in *. lia.
    + apply list_lookup_singleton_Some in Hi as [_ <-]. exact (Forall_lookup_1 _ _ _ _ Hd Hj).
    + apply list_lookup_singleton_Some in Hi as [Hi _]. apply list_lookup_singleton_Some in Hj as [Hj _]. lia.
  - rewrite length_app. cbn [length]. rewrite Nat.add_1_r, seq_S, (Permutation_app_comm (seq 0 _)). cbn [app].
    rewrite <- (bw_index _ W), <- Permutation_middle. by rewrite take_drop.
  - by apply sorted_insert.
Qed.

(** An access that lies inside a region. *)
Definition covers (b : Bus D) (addr sz : Z) (i : nat) (off : Z) : Prop :=
  exists r, regions b !! i = Some r /\ base r <= addr /\ addr + (Z.max sz 1 - 1) < end_ r /\ off = addr - base r.

Lemma bus_covers_unique b addr sz i off j off' : bus_wf b -> covers b addr sz i off -> covers b addr sz j off' -> i = j.
Proof.
  intros W (r & Hi & H1 & H2 & _) (r' & Hj & H3 & H4 & _). destruct (decide (i = j)); [done|].
  destruct (bw_disjoint _ W i j r r') as [H|H]; try done; unfold end_ in *; lia.
Qed.

Lemma find_sound b addr sz i off : find addr sz b = Some (i, off) -> bus_wf b -> covers b addr sz i off.
Proof.
  unfold find. intros Hf W.
  destruct (partition_prefix (base_le (regions b) addr) (by_base b)) as (Hpre & _ & Hlen).
  destruct (partition_point _ _) as [|pos] eqn:Ep; [discriminate|].
  destruct (by_base b !! pos) as [idx|] eqn:Ei; [|discriminate].
  destruct (regions b !! idx) as [r|] eqn:Er; [|discriminate].
  destruct (2 ^ 64 <=? _); [discriminate|]. destruct (Z.ltb_spec (addr + (Z.max sz 1 - 1)) (end_ r)); [|discriminate].
  injection Hf as <- <-. exists r. split; [done|]. split; [|done].
  rewrite Forall_lookup in Hpre. specialize (Hpre pos idx). rewrite lookup_take_lt in Hpre by lia.
  specialize (Hpre Ei). unfold base_le in Hpre. rewrite Er in Hpre. lia.
Qed.

Lemma find_complete b addr sz i off : bus_wf b -> covers b addr sz i off -> find addr sz b = Some (i, off).
Proof.
  intros W (r & Hi & Hlo & Hhi & ->). unfold find.
  assert (forall x y, before (regions b) x y -> base_le (regions b) addr y = true -> base_le (regions b) addr x = true) as Hmono.
  { intros x y (q & q' & Hq & Hq' & Hlt). unfold base_le. rewrite Hq, Hq'. lia. }
  pose proof (partition_rest _ _ _ (bw_sorted _ W) Hmono) as Hrest.
  destruct (partition_prefix (base_le (regions b) addr) (by_base b)) as (Hpre & _ & Hlen).
  set (pos := partition_point (base_le (regions b) addr) (by_base b)) in *.
  assert (i ∈ by_base b) as Hin.
  { rewrite (bw_index _ W), elem_of_seq. apply lookup_lt_Some in Hi. lia. }
  assert (base_le (regions b) addr i = true) as Hle by (unfold base_le; rewrite Hi; lia).
  apply list_elem_of_lookup in Hin as [k Hk].
  assert (k < pos)%nat as Hkp.
  { destruct (Nat.lt_ge_cases k pos) as [|Hge]; [done|]. rewrite Forall_lookup in Hrest.
    specialize (Hrest (k - pos)%nat i). rewrite lookup_drop in Hrest. replace (pos + (k - pos))%nat with k in Hrest by lia.
    rewrite (Hrest Hk) in Hle. discriminate. }
  destruct pos as [|pos]; [lia|].
  (* The last base at most [addr] is that of [i]: another one would overlap it. *)
  assert (k = pos) as ->.
  { destruct (decide (k = pos)) as [|Hne]; [done|]. exfalso.
    destruct (lookup_lt_is_Some_2 (by_base b) pos ltac:(lia)) as [j Hj].
    assert (before (regions b) i j) as (q & q' & Hq & Hq' & Hlt).
    { pose proof (bw_sorted _ W) as Hs. clear -Hs Hk Hj Hne Hkp.
      assert (forall l x y (kx ky : nat), StronglySorted (before (regions b)) l -> l !! kx = Some x -> l !! ky = Some y ->
        (kx < ky)%nat -> before (regions b) x y) as H; [|apply (H (by_base b) i j k pos); [done..|lia]].
      clear. intros l x y kx ky Hs. revert kx ky. induction Hs as [|z l Hs IH Hz]; intros [|kx] [|ky]; cbn; try done; try lia.
      - intros [= ->] Hy _. exact (Forall_lookup_1 _ _ _ _ Hz Hy).
      - intros Hx Hy Hlt. apply (IH kx ky); [done..|lia]. }
    rewrite Hi in Hq. injection Hq as <-.
    rewrite Forall_lookup in Hpre. specialize (Hpre pos j). rewrite lookup_take_lt in Hpre by lia.
    specialize (Hpre Hj). unfold base_le in Hpre. rewrite Hq' in Hpre.
    assert (i <> j) as Hij by (intros ->; rewrite Hi in Hq'; injection Hq' as <-; lia).
    pose proof (Forall_lookup_1 _ _ _ _ (bw_regions _ W) Hq') as Hok.
    destruct (bw_disjoint _ W i j r q' Hij Hi Hq'); unfold end_, region_ok in *; lia. }
  rewrite Hk, Hi. pose proof (Forall_lookup_1 _ _ _ _ (bw_regions _ W) Hi) as Hok.
  destruct (Z.leb_spec (2 ^ 64) (addr + (Z.max sz 1 - 1))); [unfold region_ok in Hok; lia|].
  destruct (Z.ltb_spec (addr + (Z.max sz 1 - 1)) (end_ r)); [done|lia].
Qed.
End wf.

(** A sequence of [map]s on an empty bus; those refused change nothing. *)
Definition bus_maps {D} (l : list (Z * Z * string * D)) (b : Bus D) : Bus D :=
  foldl (fun b '(base0, size0, nm, dev) => (bus_map base0 size0 nm dev b).2) b l.

Lemma bus_maps_wf {D} (l : list (Z * Z * string * D)) b :
  bus_wf b -> Forall (fun x => 0 <= x.1.1.1 /\ 0 <= x.1.1.2) l -> bus_wf (bus_maps l b).
Proof.
  intros W Hl. revert b W. induction Hl as [|[[[base0 size0] nm] dev] l [H1 H2] Hl IH]; intros b W; cbn; [done|].
  apply IH. by apply bus_map_wf.
Qed.

(** On a bus built by any sequence of [map]s, accepted or refused, the
    binary search finds a device exactly for the accesses whose bytes all lie
    in one region, with the offset from its base; that region is unique, since
    no two overlap. *)
Theorem bus_find_exact {D} (l : list (Z * Z * string * D)) (addr sz : Z) (i : nat) (off : Z) :
  Forall (fun x => 0 <= x.1.1.1 /\ 0 <= x.1.1.2) l ->
  let b := bus_maps l bus_new in
  (find addr sz b = Some (i, off) <-> covers b addr sz i off) /\
  forall j off', covers b addr sz i off -> covers b addr sz j off' -> i = j.
Proof.
  intros Hl b. assert (bus_wf b) as W by (apply bus_maps_wf; [apply bus_new_wf|done]).
  split; [split|].
  - intros Hf. by apply find_sound.
  - by apply find_complete.
  - intros j off' H1 H2. by eapply bus_covers_unique.
Qed.

Lemma bus_find_exact_witness :
  let l := [(0x9000000, 0x1000, "b", tt); (0x8000000, 0x10000, "a", tt); (0x8000800, 0x10, "c", tt)]%string in
  let b := bus_maps l bus_new in
  (find 0x8000010 4 b = Some (1%nat, 0x10) <-> covers b 0x8000010 4 1 0x10) /\
  (forall j off', covers b 0x8000010 4 1 0x10 -> covers b 0x8000010 4 j off' -> 1%nat = j) /\
  find 0x8000010 4 b = Some (1%nat, 0x10) /\ find 0x900FFFE 4 b = None /\ by_base b = [1; 0]%nat.
Proof.
  cbv zeta. set (l := [_; _; _]).
  assert (Forall (fun x : Z * Z * string * unit => 0 <= x.1.1.1 /\ 0 <= x.1.1.2) l) as Hl by (repeat constructor; cbn; lia).
  split; [apply (bus_find_exact l 0x8000010 4 1 0x10 Hl)|].
  split; [apply (bus_find_exact l 0x8000010 4 1 0x10 Hl)|].
  split; [vm_compute; reflexivity|]. split; vm_compute; reflexivity.
Defined.
