(* ===== verification/Gic.v ===== *)
(** * The interrupt controller (crates/vetro-platform/src/gic.rs)

    GICv3: a distributor, and per core a redistributor with its private
    interrupts and a CPU interface. An operation that indexes a vector or
    asserts returns [None] where the source panics; an access to the registers
    in memory never does. *)

From Stdlib Require Import ZArith Lia Bool.
From stdpp Require Import base list numbers strings pretty.
From S2P Require Import Prelude SnapWire PlatBus.
Local Open Scope Z_scope.
Local Open Scope vetro_scope.

Module gic.

Definition NUM_SPIS : nat := 256.
Definition NUM_INTIDS : nat := 32 + NUM_SPIS.
Definition INTID_SPURIOUS : Z := 1023.
Definition PRI_BITS : Z := 5.
Definition PRI_MASK : Z := u8 (Z.shiftr 0xFF00 PRI_BITS).
Definition MIN_BPR1 : Z := 8 - PRI_BITS.
Definition GICR_OFFSET : Z := map.GICR_BASE - map.GICD_BASE.

Definition GICD_CTLR : Z := 0x0000.
Definition GICD_TYPER : Z := 0x0004.
Definition GICD_IIDR : Z := 0x0008.
Definition GICD_TYPER2 : Z := 0x000C.
Definition GICD_IGROUPR : Z := 0x0080.
Definition GICD_ISENABLER : Z := 0x0100.
Definition GICD_ICENABLER : Z := 0x0180.
Definition GICD_ISPENDR : Z := 0x0200.
Definition GICD_ICPENDR : Z := 0x0280.
Definition GICD_ISACTIVER : Z := 0x0300.
Definition GICD_ICACTIVER : Z := 0x0380.
Definition GICD_IPRIORITYR : Z := 0x0400.
Definition GICD_ICFGR : Z := 0x0C00.
Definition GICD_IGRPMODR : Z := 0x0D00.
Definition GICD_IROUTER : Z := 0x6000.

Definition GICD_CTLR_ENABLE_GRP0 : Z := 0x1.
Definition GICD_CTLR_ENABLE_GRP1 : Z := 0x2.
Definition GICD_CTLR_ARE : Z := 0x10.
Definition GICD_CTLR_DS : Z := 0x40.

Definition GICR_IIDR : Z := 0x0004.
Definition GICR_TYPER : Z := 0x0008.
Definition GICR_WAKER : Z := 0x0014.
Definition GICR_WAKER_PROCESSOR_SLEEP : Z := 0x2.
Definition GICR_WAKER_CHILDREN_ASLEEP : Z := 0x4.
Definition GICR_SGI_BASE : Z := 0x10000.
Definition GICR_IGROUPR0 : Z := 0x0080.
Definition GICR_ISENABLER0 : Z := 0x0100.
Definition GICR_ICENABLER0 : Z := 0x0180.
Definition GICR_ISPENDR0 : Z := 0x0200.
Definition GICR_ICPENDR0 : Z := 0x0280.
Definition GICR_ISACTIVER0 : Z := 0x0300.
Definition GICR_ICACTIVER0 : Z := 0x0380.
Definition GICR_IPRIORITYR : Z := 0x0400.
Definition GICR_ICFGR0 : Z := 0x0C00.
Definition GICR_ICFGR1 : Z := 0x0C04.

Definition IIDR : Z := 0x43B.
Definition GICD_IDS : list Z := [0x44; 0x00; 0x00; 0x00; 0x92; 0xB4; 0x3B; 0x00; 0x0D; 0xF0; 0x05; 0xB1].
Definition GICR_IDS : list Z := [0x44; 0x00; 0x00; 0x00; 0x93; 0xB4; 0x3B; 0x00; 0x0D; 0xF0; 0x05; 0xB1].

Definition ICC_CTLR_EOIMODE : Z := 0x2.
Definition ICC_CTLR_PRIBITS : Z := Z.shiftl (PRI_BITS - 1) 8.
Definition ICC_CTLR_A3V : Z := 0x8000.

(** ** State *)

Record Irq := MkIrq {
  enabled : bool;
  (** Pending latch (edge, ISPENDR); for levels it is added to the line. *)
  pending : bool;
  level : bool;
  active : bool;
  group1 : bool;
  (** Rising edge, or level high. *)
  edge : bool;
  priority : Z;
  (** GICD_IROUTER (SPIs only). *)
  router : Z;
}.

#[export] Instance eta_Irq : Eta Irq := fun i =>
  MkIrq (enabled i) (pending i) (level i) (active i) (group1 i) (edge i) (priority i) (router i).

#[export] Instance Irq_eq_dec : EqDecision Irq.
Proof. solve_decision. Defined.

Definition irq_default : Irq := MkIrq false false false false false false 0 0.

Definition is_pending (i : Irq) : bool := pending i || (negb (edge i) && level i).

Inductive BitOp := Group | SetEnable | ClearEnable | SetPending | ClearPending | SetActive | ClearActive.

(** The CPU interface of a core and the wake state of its redistributor. *)
Record CpuIf := MkCpuIf {
  processor_sleep : bool;
  pmr : Z;
  bpr1 : Z;
  igrpen1 : bool;
  eoimode : bool;
  (** Active priorities (INTID, group priority), the highest last. *)
  active_prio : list (Z * Z);
}.

#[export] Instance eta_CpuIf : Eta CpuIf := fun c =>
  MkCpuIf (processor_sleep c) (pmr c) (bpr1 c) (igrpen1 c) (eoimode c) (active_prio c).

#[export] Instance CpuIf_eq_dec : EqDecision CpuIf.
Proof. solve_decision. Defined.

Definition cpuif_new : CpuIf := MkCpuIf true 0 MIN_BPR1 false false [].

Definition group_prio (c : CpuIf) (prio : Z) : Z := Z.land prio (u8 (Z.shiftl 0xFF (bpr1 c))).

(** Running priority (0x100: none active). *)
Definition running (c : CpuIf) : Z :=
  match last (active_prio c) with Some (_, p) => p | None => 0x100 end.

(** SGIs are always edge-triggered. *)
Definition private_irqs : list Irq :=
  replicate 16 (irq_default <| edge := true |>) ++ replicate 16 irq_default.

Definition cpu_affinity (cpu : nat) : Z :=
  let cpu := Z.of_nat cpu in Z.lor (Z.shiftl (cpu / 16) 8) (cpu mod 16).

Definition router_affinity (aff : Z) : Z := Z.land aff 0xFF00FFFFFF.

Record Gic := MkGic {
  (** INTIDs of core 0 and the SPIs. *)
  irqs : list Irq;
  (** SGIs and PPIs of cores 1... *)
  banked : list (list Irq);
  (** Only EnableGrp0 and EnableGrp1. *)
  gicd_ctlr : Z;
  cpus : list CpuIf;
  (** Core whose ICC registers are accessed. *)
  cur : nat;
}.

#[export] Instance eta_Gic : Eta Gic := fun g =>
  MkGic (irqs g) (banked g) (gicd_ctlr g) (cpus g) (cur g).

#[export] Instance Gic_eq_dec : EqDecision Gic.
Proof. solve_decision. Defined.

Definition with_cpus (n : nat) : option Gic :=
  guard (1 <= n <= 16)%nat;;
  Some (MkGic (private_irqs ++ replicate NUM_SPIS irq_default) (replicate (n - 1) private_irqs) 0
          (replicate n cpuif_new) 0).

Definition mmio_size (n : nat) : Z :=
  map.GICR_BASE + Z.of_nat n * map.GICR_SIZE_PER_CPU - map.GICD_BASE.

Definition set_current (cpu : nat) (g : Gic) : option Gic :=
  guard (cpu < length (cpus g))%nat;; Some (g <| cur := cpu |>).

(** The INTIDs below 32 of cores other than 0 are banked. *)
Definition is_banked (cpu intid : nat) : bool := (intid <? 32)%nat && (0 <? cpu)%nat.

Definition irq (g : Gic) (cpu intid : nat) : option Irq :=
  if is_banked cpu intid
  then match banked g !! (cpu - 1)%nat with Some b => b !! intid | None => None end
  else irqs g !! intid.

(** A write through [irq_mut]. *)
Definition set_irq (cpu intid : nat) (f : Irq -> Irq) (g : Gic) : Gic :=
  if is_banked cpu intid
  then g <| banked ::= alter (alter f intid) (cpu - 1)%nat |>
  else g <| irqs ::= alter f intid |>.

(** [&mut self.cpus[cpu]]. *)
Definition set_cpu (cpu : nat) (f : CpuIf -> CpuIf) (g : Gic) : option Gic :=
  guard (cpu < length (cpus g))%nat;; Some (g <| cpus ::= alter f cpu |>).

(** ** Input lines *)

Definition raise_line (lvl : bool) (i : Irq) : Irq :=
  let i := if edge i && lvl && negb (level i) then i <| pending := true |> else i in
  i <| level := lvl |>.

Definition set_private_level (cpu : nat) (intid : Z) (lvl : bool) (g : Gic) : Gic :=
  if 16 <=? intid then set_irq cpu (Z.to_nat intid) (raise_line lvl) g else g.

Definition set_irq_level (intid : Z) (lvl : bool) : Gic -> Gic := set_private_level 0 intid lvl.

Definition set_spi_level (spi : Z) (lvl : bool) : Gic -> Gic := set_irq_level (map.SPI_BASE + spi) lvl.

Definition send_sgi_to (cpu : nat) (intid : Z) (g : Gic) : Gic :=
  if intid <? 16 then set_irq cpu (Z.to_nat intid) (fun i => i <| pending := true |>) g else g.

Definition send_sgi (intid : Z) : Gic -> Gic := send_sgi_to 0 intid.

Definition irq_state (g : Gic) (intid : Z) : option (bool * bool * bool) :=
  match irq g 0 (Z.to_nat intid) with
  | Some i => Some (enabled i, is_pending i, active i)
  | None => None
  end.

(** ** Selection *)

Definition routed_to (cpu : nat) (i : Irq) : bool :=
  if test_mask (router i) (2 ^ 31) then (cpu =? 0)%nat
  else router_affinity (router i) =? router_affinity (cpu_affinity cpu).

Definition signals (i : Irq) : bool := enabled i && is_pending i && negb (active i) && group1 i.

(** A turn of the two loops of [highest_pending_of]; [ok] is their guard. *)
Definition better (ok : Irq -> bool) (best : option (Z * Z)) (e : nat * Irq) : option (Z * Z) :=
  if ok e.2 && match best with None => true | Some (_, p) => priority e.2 <? p end
  then Some (Z.of_nat e.1, priority e.2) else best.

Definition highest_pending_of (g : Gic) (cpu : nat) : option (option (Z * Z)) :=
  if negb (test_mask (gicd_ctlr g) GICD_CTLR_ENABLE_GRP1) then Some None else
  private ← (if (cpu =? 0)%nat then guard (32 <= length (irqs g))%nat;; Some (take 32 (irqs g))
             else banked g !! (cpu - 1)%nat);
  let best := foldl (better signals) None (imap pair private) in
  Some (foldl (better (fun i => signals i && routed_to cpu i)) best (drop 32 (imap pair (irqs g)))).

Definition highest_pending (g : Gic) : option (option (Z * Z)) := highest_pending_of g 0.

Definition deliverable (g : Gic) (cpu : nat) : option (option (Z * Z)) :=
  hp ← highest_pending_of g cpu;
  match hp with
  | None => Some None
  | Some (intid, prio) =>
      c ← cpus g !! cpu;
      Some (if igrpen1 c && (prio <? pmr c) && (group_prio c prio <? running c)
            then Some (intid, prio) else None)
  end.

Definition is_some {A} (o : option A) : bool := match o with Some _ => true | None => false end.

Definition irq_line_of (g : Gic) (cpu : nat) : option bool := d ← deliverable g cpu; Some (is_some d).
Definition irq_line (g : Gic) : option bool := irq_line_of g (cur g).

(** ** CPU interface *)

Definition read_iar1 (g : Gic) : option (Z * Gic) :=
  let cpu := cur g in
  d ← deliverable g cpu;
  match d with
  | None => Some (INTID_SPURIOUS, g)
  | Some (intid, prio) =>
      c ← cpus g !! cpu;
      let gp := group_prio c prio in
      _ ← irq g cpu (Z.to_nat intid);
      let g := set_irq cpu (Z.to_nat intid) (fun i => i <| active := true |> <| pending := false |>) g in
      g ← set_cpu cpu (fun c => c <| active_prio ::= fun a => a ++ [(intid, gp)] |>) g;
      Some (intid, g)
  end.

Definition read_hppir1 (g : Gic) : option Z :=
  hp ← highest_pending_of g (cur g);
  Some (match hp with Some (i, _) => i | None => INTID_SPURIOUS end).

Definition deactivate (intid : Z) (g : Gic) : Gic :=
  set_irq (cur g) (Z.to_nat intid) (fun i => i <| active := false |>) g.

(** [Vec::pop]. *)
Definition pop {A} (l : list A) : list A := take (length l - 1) l.

Definition write_eoir1 (value : Z) (g : Gic) : option Gic :=
  let intid := Z.land value 0xFFFFFF in
  if (1020 <=? intid) && (intid <? 1024) then Some g else
  c ← cpus g !! cur g;
  g ← set_cpu (cur g) (fun c => c <| active_prio ::= pop |>) g;
  Some (if eoimode c then g else deactivate intid g).

Definition write_dir (value : Z) (g : Gic) : Gic := deactivate (Z.land value 0xFFFFFF) g.

(** The cores an SGI request names. *)
Definition sgi_hit (value : Z) (sender cpu : nat) : bool :=
  let irm := test_mask value (2 ^ 40) in
  let targets := Z.land value 0xFFFF in
  let rs := Z.land (Z.shiftr value 44) 0xF in
  let cluster := Z.lor (Z.lor (Z.shiftl (Z.land (Z.shiftr value 48) 0xFF) 32)
                              (Z.shiftl (Z.land (Z.shiftr value 32) 0xFF) 16))
                       (Z.shiftl (Z.land (Z.shiftr value 16) 0xFF) 8) in
  let aff := cpu_affinity cpu in
  if irm then negb (cpu =? sender)%nat
  else
    let aff0 := Z.land aff 0xFF in
    (Z.land aff (u64 (Z.lnot 0xFF)) =? cluster) && (Z.shiftr aff0 4 =? rs)
    && test_mask targets (Z.shiftl 1 (Z.land aff0 0xF)).

Definition write_sgi1r (value : Z) (g : Gic) : Gic :=
  let intid := Z.land (Z.shiftr value 24) 0xF in
  foldl (fun g' cpu => if sgi_hit value (cur g) cpu then send_sgi_to cpu intid g' else g') g
        (seq 0 (length (cpus g))).

Definition read_pmr (g : Gic) : option Z := c ← cpus g !! cur g; Some (pmr c).
Definition write_pmr (value : Z) (g : Gic) : option Gic :=
  set_cpu (cur g) (fun c => c <| pmr := Z.land (u8 value) PRI_MASK |>) g.

Definition read_bpr1 (g : Gic) : option Z := c ← cpus g !! cur g; Some (bpr1 c).
Definition write_bpr1 (value : Z) (g : Gic) : option Gic :=
  set_cpu (cur g) (fun c => c <| bpr1 := Z.max (Z.land (u8 value) 7) MIN_BPR1 |>) g.

Definition read_rpr (g : Gic) : option Z := c ← cpus g !! cur g; Some (Z.min (running c) 0xFF).

Definition read_ctlr (g : Gic) : option Z :=
  c ← cpus g !! cur g;
  Some (Z.lor (Z.lor ICC_CTLR_A3V ICC_CTLR_PRIBITS) (if eoimode c then ICC_CTLR_EOIMODE else 0)).
Definition write_ctlr (value : Z) (g : Gic) : option Gic :=
  set_cpu (cur g) (fun c => c <| eoimode := test_mask value ICC_CTLR_EOIMODE |>) g.

Definition read_igrpen1 (g : Gic) : option Z := c ← cpus g !! cur g; Some (b2z (igrpen1 c)).
Definition write_igrpen1 (value : Z) (g : Gic) : option Gic :=
  set_cpu (cur g) (fun c => c <| igrpen1 := test_mask value 1 |>) g.

Definition read_sre (g : Gic) : Z := 0x7.
Definition write_sre (value : Z) (g : Gic) : Gic := g.

(** One bit per active group priority. *)
Definition ap1r0_of (a : list (Z * Z)) : Z :=
  foldl (fun acc e => Z.lor acc (Z.shiftl 1 (Z.shiftr e.2 3))) 0 a.
Definition read_ap1r0 (g : Gic) : option Z := c ← cpus g !! cur g; Some (ap1r0_of (active_prio c)).

Definition ap1r0_stack (value : Z) : list (Z * Z) :=
  foldl (fun a bit => if test_mask value (Z.shiftl 1 bit)
                      then a ++ [(INTID_SPURIOUS, u8 (Z.shiftl bit 3))] else a)
        [] (rev (seqZ 0 32)).
Definition write_ap1r0 (value : Z) (g : Gic) : option Gic :=
  set_cpu (cur g) (fun c => c <| active_prio := ap1r0_stack value |>) g.

(** ** Bitmap registers *)

Definition bit_of (op : BitOp) (i : Irq) : bool :=
  match op with
  | Group => group1 i
  | SetEnable | ClearEnable => enabled i
  | SetPending | ClearPending => is_pending i
  | SetActive | ClearActive => active i
  end.

(** The [irq]s of [n] consecutive INTIDs up to the first that is missing. *)
Fixpoint irqs_while (g : Gic) (cpu first n : nat) : list Irq :=
  match n with
  | O => []
  | S n => match irq g cpu first with
           | Some i => i :: irqs_while g cpu (S first) n
           | None => []
           end
  end.

Definition read_bits (g : Gic) (cpu word : nat) (op : BitOp) : Z :=
  foldl (fun v '(bit, i) => Z.lor v (Z.shiftl (b2z (bit_of op i)) (Z.of_nat bit))) 0
        (imap pair (irqs_while g cpu (word * 32) 32)).

Definition write_bit (op : BitOp) (one : bool) (i : Irq) : Irq :=
  match op with
  | Group => i <| group1 := one |>
  | _ => if negb one then i else
         match op with
         | Group => i
         | SetEnable => i <| enabled := true |>
         | ClearEnable => i <| enabled := false |>
         | SetPending => i <| pending := true |>
         | ClearPending => i <| pending := false |>
         | SetActive => i <| active := true |>
         | ClearActive => i <| active := false |>
         end
  end.

(** A loop over [n] consecutive INTIDs that stops at the first missing one. *)
Fixpoint update_while (f : nat -> Irq -> Irq) (cpu first k n : nat) (g : Gic) : Gic :=
  match n with
  | O => g
  | S n => match irq g cpu (first + k) with
           | Some _ => update_while f cpu first (S k) n (set_irq cpu (first + k) (f k) g)
           | None => g
           end
  end.

Definition write_bits (cpu word : nat) (op : BitOp) (value : Z) (g : Gic) : Gic :=
  update_while (fun bit => write_bit op (test_mask value (Z.shiftl 1 (Z.of_nat bit)))) cpu (word * 32) 0 32 g.

Definition bit_op (reg : Z) : option BitOp :=
  let r := Z.land reg (u64 (Z.lnot 0x7F)) in
  if r =? GICD_IGROUPR then Some Group
  else if r =? GICD_ISENABLER then Some SetEnable
  else if r =? GICD_ICENABLER then Some ClearEnable
  else if r =? GICD_ISPENDR then Some SetPending
  else if r =? GICD_ICPENDR then Some ClearPending
  else if r =? GICD_ISACTIVER then Some SetActive
  else if r =? GICD_ICACTIVER then Some ClearActive
  else None.

Definition read_prio (g : Gic) (cpu first : nat) (size : Z) : Z :=
  foldl (fun acc i => Z.lor acc (Z.shiftl (match irq g cpu (first + i) with Some q => priority q | None => 0 end)
                                          (8 * Z.of_nat i)))
        0 (seq 0 (Z.to_nat size)).

Definition write_prio (cpu first : nat) (size value : Z) (g : Gic) : Gic :=
  foldl (fun g i => set_irq cpu (first + i) (fun q => q <| priority := u8 (Z.shiftr value (8 * Z.of_nat i)) |>) g)
        g (seq 0 (Z.to_nat size)).

Definition read_cfg (g : Gic) (cpu word : nat) : Z :=
  foldl (fun acc '(k, i) => Z.lor acc (Z.shiftl (b2z (edge i)) (2 * Z.of_nat k + 1))) 0
        (imap pair (irqs_while g cpu (word * 16) 16)).

Definition write_cfg (cpu word : nat) (value : Z) (g : Gic) : Gic :=
  update_while (fun k i => i <| edge := test_mask value (Z.shiftl 1 (2 * Z.of_nat k + 1)) |>) cpu (word * 16) 0 16 g.

(** ** Distributor *)

Definition words : Z := Z.of_nat NUM_INTIDS / 32.

(** [lo..hi] as a pattern. *)
Definition within (lo hi x : Z) : bool := (lo <=? x) && (x <? hi).

Definition is_1_2_4 (size : Z) : bool := (size =? 1) || (size =? 2) || (size =? 4).
Definition is_4_8 (size : Z) : bool := (size =? 4) || (size =? 8).

Definition dist_read (g : Gic) (offset size : Z) : Z :=
  if within GICD_IPRIORITYR 0x0800 offset && is_1_2_4 size && (GICD_IPRIORITYR + 32 <=? offset) then
    read_prio g 0 (Z.to_nat (offset - GICD_IPRIORITYR)) size
  else if within GICD_IROUTER 0x8000 offset && is_4_8 size && (GICD_IROUTER + 32 * 8 <=? offset) then
    let n := Z.to_nat ((offset - GICD_IROUTER) / 8) in
    let r := match irqs g !! n with Some i => router i | None => 0 end in
    if size =? 8 then r else Z.land (Z.shiftr r (Z.land offset 4 * 8)) 0xFFFFFFFF
  else if (size =? 4) && (Z.land offset 3 =? 0) then
    if offset =? GICD_CTLR then Z.lor (Z.lor (gicd_ctlr g) GICD_CTLR_ARE) GICD_CTLR_DS
    else if offset =? GICD_TYPER then
      Z.lor (Z.lor (words - 1) (Z.shiftl (Z.min (Z.of_nat (length (cpus g)) - 1) 7) 5)) (Z.shiftl 9 19)
    else if offset =? GICD_IIDR then IIDR
    else if offset =? GICD_TYPER2 then 0
    else if within 0x0080 0x0400 offset then
      let n := Z.land offset 0x7F / 4 in
      match bit_op offset with
      | Some op => if (1 <=? n) && (n <? words) then read_bits g 0 (Z.to_nat n) op else 0
      | None => 0
      end
    else if within GICD_ICFGR GICD_IGRPMODR offset then
      let n := (offset - GICD_ICFGR) / 4 in
      if (2 <=? n) && (n <? words * 2) then read_cfg g 0 (Z.to_nat n) else 0
    else if (0xFFD0 <=? offset) && (offset <=? 0xFFFC) then GICD_IDS !!! Z.to_nat ((offset - 0xFFD0) / 4)
    else 0
  else 0.

Definition dist_write (offset size value : Z) (g : Gic) : Gic :=
  if within GICD_IPRIORITYR 0x0800 offset && is_1_2_4 size && (GICD_IPRIORITYR + 32 <=? offset) then
    write_prio 0 (Z.to_nat (offset - GICD_IPRIORITYR)) size value g
  else if within GICD_IROUTER 0x8000 offset && is_4_8 size && (GICD_IROUTER + 32 * 8 <=? offset) then
    let n := Z.to_nat ((offset - GICD_IROUTER) / 8) in
    g <| irqs ::= alter (fun i =>
      let r := if size =? 8 then value
               else if Z.land offset 4 =? 0
               then Z.lor (Z.land (router i) (u64 (Z.lnot 0xFFFFFFFF))) value
               else Z.lor (Z.land (router i) 0xFFFFFFFF) (u64 (Z.shiftl value 32)) in
      i <| router := Z.land r 0xFF80FFFFFF |>) n |>
  else if (size =? 4) && (Z.land offset 3 =? 0) then
    let v := u32 value in
    if offset =? GICD_CTLR then
      g <| gicd_ctlr := Z.land v (Z.lor GICD_CTLR_ENABLE_GRP0 GICD_CTLR_ENABLE_GRP1) |>
    else if within 0x0080 0x0400 offset then
      let n := Z.land offset 0x7F / 4 in
      match bit_op offset with
      | Some op => if (1 <=? n) && (n <? words) then write_bits 0 (Z.to_nat n) op v g else g
      | None => g
      end
    else if within GICD_ICFGR GICD_IGRPMODR offset then
      let n := (offset - GICD_ICFGR) / 4 in
      if (2 <=? n) && (n <? words * 2) then write_cfg 0 (Z.to_nat n) v g else g
    else g
  else g.

(** ** Redistributors *)

Definition is_bitmap0 (off : Z) : bool :=
  (off =? GICR_IGROUPR0) || (off =? GICR_ISENABLER0) || (off =? GICR_ICENABLER0) || (off =? GICR_ISPENDR0)
  || (off =? GICR_ICPENDR0) || (off =? GICR_ISACTIVER0) || (off =? GICR_ICACTIVER0).

Definition redist_typer (g : Gic) (cpu : nat) : Z :=
  Z.lor (Z.lor (u64 (Z.shiftl (cpu_affinity cpu) 32)) (Z.shiftl (Z.of_nat cpu) 8))
        (Z.shiftl (b2z (S cpu =? length (cpus g))%nat) 4).

Definition redist_read (g : Gic) (offset size : Z) : Z :=
  let cpu := Z.to_nat (offset / map.GICR_SIZE_PER_CPU) in
  let offset := offset mod map.GICR_SIZE_PER_CPU in
  match cpus g !! cpu with
  | None => 0
  | Some c =>
      if GICR_SGI_BASE <=? offset then
        let off := offset - GICR_SGI_BASE in
        if within GICR_IPRIORITYR 0x0420 off && is_1_2_4 size then
          read_prio g cpu (Z.to_nat (off - GICR_IPRIORITYR)) size
        else if size =? 4 then
          if is_bitmap0 off then
            match bit_op off with Some op => read_bits g cpu 0 op | None => 0 end
          else if off =? GICR_ICFGR0 then read_cfg g cpu 0
          else if off =? GICR_ICFGR1 then read_cfg g cpu 1
          else 0
        else 0
      else
        let typer := redist_typer g cpu in
        if (offset =? GICR_TYPER) && (size =? 8) then typer
        else if size =? 4 then
          if offset =? GICR_IIDR then IIDR
          else if offset =? GICR_TYPER then u32 typer
          else if offset =? GICR_TYPER + 4 then u32 (Z.shiftr typer 32)
          else if offset =? GICR_WAKER then
            if processor_sleep c then Z.lor GICR_WAKER_PROCESSOR_SLEEP GICR_WAKER_CHILDREN_ASLEEP else 0
          else if (0xFFD0 <=? offset) && (offset <=? 0xFFFC) then GICR_IDS !!! Z.to_nat ((offset - 0xFFD0) / 4)
          else 0
        else 0
  end.

Definition redist_write (offset size value : Z) (g : Gic) : Gic :=
  let cpu := Z.to_nat (offset / map.GICR_SIZE_PER_CPU) in
  let offset := offset mod map.GICR_SIZE_PER_CPU in
  if (length (cpus g) <=? cpu)%nat then g
  else if GICR_SGI_BASE <=? offset then
    let off := offset - GICR_SGI_BASE in
    if within GICR_IPRIORITYR 0x0420 off && is_1_2_4 size then
      write_prio cpu (Z.to_nat (off - GICR_IPRIORITYR)) size value g
    else if is_bitmap0 off && (size =? 4) then
      match bit_op off with Some op => write_bits cpu 0 op (u32 value) g | None => g end
    else if (off =? GICR_ICFGR1) && (size =? 4) then write_cfg cpu 1 (u32 value) g
    else g
  else if (offset =? GICR_WAKER) && (size =? 4) then
    g <| cpus ::= alter (fun c => c <| processor_sleep := test_mask (u32 value) GICR_WAKER_PROCESSOR_SLEEP |>) cpu |>
  else g.

(** ** [MmioDevice] *)

Definition read (offset size : Z) (g : Gic) : Z :=
  if offset <? map.GICD_SIZE then dist_read g offset size
  else if within GICR_OFFSET (mmio_size (length (cpus g))) offset then redist_read g (offset - GICR_OFFSET) size
  else 0.

Definition write (offset size value : Z) (g : Gic) : Gic :=
  if offset <? map.GICD_SIZE then dist_write offset size value g
  else if within GICR_OFFSET (mmio_size (length (cpus g))) offset then redist_write (offset - GICR_OFFSET) size value g
  else g.

(** ** Snapshot *)

Definition irq_flags (i : Irq) : Z :=
  Z.lor (Z.lor (Z.lor (Z.lor (Z.lor (b2z (enabled i)) (Z.shiftl (b2z (pending i)) 1))
                             (Z.shiftl (b2z (level i)) 2)) (Z.shiftl (b2z (active i)) 3))
               (Z.shiftl (b2z (group1 i)) 4)) (Z.shiftl (b2z (edge i)) 5).

Definition save_irq (i : Irq) (w : Writer) : Writer :=
  w_u64 (router i) (w_u8 (priority i) (w_u8 (irq_flags i) w)).

(** [{f:#x}] of a byte. *)
Definition hex_digit (d : Z) : string := String.substring (Z.to_nat d) 1 "0123456789abcdef".
Definition hex_u8 (f : Z) : string :=
  "0x" ++ (if f <? 16 then hex_digit f else hex_digit (f / 16) ++ hex_digit (f mod 16)).

Definition restore_irq : reading Irq :=
  f ← r_u8;
  if negb (Z.shiftr f 6 =? 0) then throw (Invalid ("interrupt state " ++ hex_u8 f)) else
  p ← r_u8;
  rt ← r_u64;
  mret (MkIrq (test_mask f 1) (test_mask f 2) (test_mask f 4) (test_mask f 8) (test_mask f 16)
          (test_mask f 32) p rt).

Definition save_active (e : Z * Z) (w : Writer) : Writer := w_u8 e.2 (w_u32 e.1 w).

Definition save_cpuif (with_sleep : bool) (c : CpuIf) (w : Writer) : Writer :=
  let w := if with_sleep then w_bool (processor_sleep c) w else w in
  w_seq (active_prio c) save_active
    (w_bool (eoimode c) (w_bool (igrpen1 c) (w_u8 (bpr1 c) (w_u8 (pmr c) w)))).

(** [sleep]: what the field holds before, kept without [with_sleep]. *)
Definition restore_cpuif (with_sleep : bool) (sleep : bool) : reading CpuIf :=
  sleep ← (if with_sleep then r_bool else mret sleep);
  p ← r_u8;
  b ← r_u8;
  e ← r_bool;
  m ← r_bool;
  a ← r_seq 5 (i ← r_u32; q ← r_u8; mret (i, q));
  mret (MkCpuIf sleep p b e m a).

Definition save_core (e : list Irq * CpuIf) (w : Writer) : Writer :=
  save_cpuif true e.2 (foldl (fun w i => save_irq i w) w e.1).

(** [None]: [self.cpus[0]] without a core. *)
Definition save (g : Gic) (w : Writer) : option Writer :=
  let w := foldl (fun w i => save_irq i w) (w_len_of (length (irqs g)) w) (irqs g) in
  let w := w_u32 (gicd_ctlr g) w in
  c0 ← cpus g !! 0%nat;
  let w := save_cpuif false c0 (w_bool (processor_sleep c0) w) in
  Some (foldl (fun w e => save_core e w) w (zip (banked g) (tail (cpus g)))).

(** A bank and a core's interface read over the old ones. *)
Definition restore_core (e : list Irq * CpuIf) : reading (list Irq * CpuIf) :=
  b ← r_times (length e.1) restore_irq;
  c ← restore_cpuif true (processor_sleep e.2);
  mret (b, c).

Fixpoint restore_cores (l : list (list Irq * CpuIf)) : reading (list (list Irq * CpuIf)) :=
  match l with
  | [] => mret []
  | e :: l => e' ← restore_core e; l' ← restore_cores l; mret (e' :: l')
  end.

(** The state of a restore that succeeds. *)
Definition restore (g : Gic) : reading Gic :=
  _ ← r_expect_u64 "GIC INTIDs" (Z.of_nat (length (irqs g)));
  l0 ← r_times (length (irqs g)) restore_irq;
  ctlr ← r_u32;
  sleep ← r_bool;
  c0 ← restore_cpuif false sleep;
  l ← restore_cores (zip (banked g) (tail (cpus g)));
  mret (MkGic l0 (l.*1 ++ drop (length l) (banked g)) ctlr (c0 :: l.*2 ++ drop (length l) (tail (cpus g))) (cur g)).

End gic.
