(* ===== verification/GicWf.v ===== *)
(** * The interrupt controller keeps its invariant (theorems about Gic)

    [gic_wf]: the vectors have their lengths, SGIs are edge-triggered, and the
    active priorities of a core are a strictly decreasing stack of multiples
    of eight. Every operation keeps it, and none panics. *)

From Stdlib Require Import ZArith Lia Bool Sorting.Sorted.
From stdpp Require Import base list numbers strings.
From S2P Require Import Prelude SnapWire PlatBus Gic.
Local Open Scope Z_scope.
Local Open Scope vetro_scope.
Import gic.

(** ** The invariant *)

Definition irq_ok (k : nat) (i : Irq) : Prop :=
  is_u 8 (priority i) /\ is_u 64 (router i) /\ ((k < 16)%nat -> edge i = true).

Definition bank_ok (l : list Irq) : Prop := forall k i, l !! k = Some i -> irq_ok k i.

Definition group_prio_ok (e : Z * Z) : Prop := is_u 32 e.1 /\ is_u 8 e.2 /\ (8 | e.2).

(** [a] was active before [b], which preempted it. *)
Definition preempts (a b : Z * Z) : Prop := b.2 < a.2.

Definition stack_ok (a : list (Z * Z)) : Prop := Forall group_prio_ok a /\ StronglySorted preempts a.

Definition cpuif_ok (c : CpuIf) : Prop :=
  is_u 8 (pmr c) /\ MIN_BPR1 <= bpr1 c <= 7 /\ stack_ok (active_prio c).

Record gic_wf (n : nat) (g : Gic) : Prop := {
  wf_cores : (1 <= n <= 16)%nat;
  wf_irqs : length (irqs g) = NUM_INTIDS;
  wf_irqs_ok : bank_ok (irqs g);
  wf_banked : length (banked g) = (n - 1)%nat;
  wf_banked_ok : Forall (fun b => length b = 32%nat /\ bank_ok b) (banked g);
  wf_ctlr : is_u 2 (gicd_ctlr g);
  wf_cpus : length (cpus g) = n;
  wf_cpus_ok : Forall cpuif_ok (cpus g);
  wf_cur : (cur g < n)%nat;
}.

(** ** Writes to an interrupt *)

Lemma bank_ok_alter f k l :
  bank_ok l -> (forall i, irq_ok k i -> irq_ok k (f i)) -> bank_ok (alter f k l).
Proof.
  intros Hl Hf j i Hj. destruct (decide (j = k)) as [->|Hne].
  - rewrite list_lookup_alter_eq in Hj. apply fmap_Some in Hj as (i0 & Hi0 & ->). by apply Hf, Hl.
  - rewrite list_lookup_alter_ne in Hj by done. by apply Hl.
Qed.

Lemma set_irq_wf n cpu k f g :
  gic_wf n g -> (forall i, irq_ok k i -> irq_ok k (f i)) -> gic_wf n (set_irq cpu k f g).
Proof.
  intros W Hf. destruct W as [Hn Hi Hio Hb Hbo Hc Hcl Hco Hcur]. unfold set_irq, update.
  destruct (is_banked cpu k); split; cbn; rewrite ?length_alter; auto.
  - apply Forall_alter; [exact Hbo|]. intros b _ [Hl Ho]. split; [by rewrite length_alter|].
    by apply bank_ok_alter.
  - by apply bank_ok_alter.
Qed.

(** [irq] reads what [set_irq] writes, and nothing else changes. *)
Definition same_cell (cpu k cpu' k' : nat) : Prop := k = k' /\ (cpu = cpu' \/ (32 <= k)%nat).

#[export] Instance same_cell_dec cpu k cpu' k' : Decision (same_cell cpu k cpu' k').
Proof. unfold same_cell. apply _. Defined.

Lemma irq_set_irq cpu k f g cpu' k' :
  irq (set_irq cpu k f g) cpu' k'
  = if decide (same_cell cpu k cpu' k') then f <$> irq g cpu' k' else irq g cpu' k'.
Proof.
  unfold irq, set_irq, is_banked, same_cell, update.
  case_decide as Hd.
  - destruct Hd as [<- Hd].
    destruct (Nat.ltb_spec k 32), (Nat.ltb_spec 0 cpu), (Nat.ltb_spec 0 cpu'); cbn; try lia;
      try (apply list_lookup_alter_eq).
    destruct Hd as [->|?]; [|lia]. rewrite list_lookup_alter_eq. destruct (banked g !! _); [|done].
    apply list_lookup_alter_eq.
  - destruct (Nat.ltb_spec k 32), (Nat.ltb_spec 0 cpu), (Nat.ltb_spec k' 32), (Nat.ltb_spec 0 cpu'); cbn;
      try reflexivity; try (apply list_lookup_alter_ne; lia).
    destruct (decide (cpu - 1 = cpu' - 1)%nat) as [He|Hne].
    + rewrite He, list_lookup_alter_eq. destruct (banked g !! _); [|done]. cbn.
      apply list_lookup_alter_ne. lia.
    + by rewrite list_lookup_alter_ne.
Qed.

Lemma set_irq_cpus cpu k f g : cpus (set_irq cpu k f g) = cpus g.
Proof. unfold set_irq, update. by destruct (is_banked cpu k). Qed.
Lemma set_irq_cur cpu k f g : cur (set_irq cpu k f g) = cur g.
Proof. unfold set_irq, update. by destruct (is_banked cpu k). Qed.
Lemma set_irq_ctlr cpu k f g : gicd_ctlr (set_irq cpu k f g) = gicd_ctlr g.
Proof. unfold set_irq, update. by destruct (is_banked cpu k). Qed.

(** ** Writes to a CPU interface *)

Lemma cpu_lookup n g cpu :
  gic_wf n g -> (cpu < n)%nat -> exists c, cpus g !! cpu = Some c /\ cpuif_ok c.
Proof.
  intros W Hc. rewrite <- (wf_cpus _ _ W) in Hc. destruct (lookup_lt_is_Some_2 _ _ Hc) as [c Hl].
  exists c. split; [exact Hl|]. exact (Forall_lookup_1 _ _ _ _ (wf_cpus_ok _ _ W) Hl).
Qed.

Lemma set_cpu_some n g cpu f :
  gic_wf n g -> (cpu < n)%nat -> set_cpu cpu f g = Some (g <| cpus ::= alter f cpu |>).
Proof.
  intros W Hc. unfold set_cpu. rewrite <- (wf_cpus _ _ W) in Hc.
  case_guard; [reflexivity|contradiction].
Qed.

Lemma alter_cpu_wf n g cpu f :
  gic_wf n g -> (forall c, cpuif_ok c -> cpuif_ok (f c)) -> gic_wf n (g <| cpus ::= alter f cpu |>).
Proof.
  intros W Hf. destruct W. unfold update. split; cbn; rewrite ?length_alter; auto.
  apply Forall_alter; auto.
Qed.

Lemma set_cpu_wf n g cpu f :
  gic_wf n g -> (cpu < n)%nat -> (forall c, cpuif_ok c -> cpuif_ok (f c)) ->
  exists g', set_cpu cpu f g = Some g' /\ gic_wf n g'.
Proof.
  intros W Hc Hf. rewrite (set_cpu_some _ _ _ _ W Hc). eexists. split; [reflexivity|].
  by apply alter_cpu_wf.
Qed.

(** ** Priorities *)

Lemma land_divide x y k : 0 <= k -> (2 ^ k | y) -> (2 ^ k | Z.land x y).
Proof.
  intros Hk [q ->]. rewrite <- Z.shiftl_mul_pow2 by done. exists (Z.shiftr (Z.land x (Z.shiftl q k)) k).
  rewrite <- Z.shiftl_mul_pow2 by done. apply Z.bits_inj'. intros i Hi.
  rewrite (Z.shiftl_spec _ k i), Z.land_spec, (Z.shiftl_spec q) by done.
  destruct (Z.lt_ge_cases i k).
  - by rewrite !(Z.testbit_neg_r _ (i - k)), andb_false_r by lia.
  - rewrite Z.shiftr_spec, Z.land_spec, Z.shiftl_spec by lia. f_equal; f_equal; lia.
Qed.

Lemma group_mask b : MIN_BPR1 <= b <= 7 -> (8 | u8 (Z.shiftl 0xFF b)).
Proof.
  change MIN_BPR1 with 3. intros Hb.
  assert (b = 3 \/ b = 4 \/ b = 5 \/ b = 6 \/ b = 7) as [->|[->|[->|[->| ->]]]] by lia;
    apply Z.mod_divide; try lia; reflexivity.
Qed.

Lemma group_prio_range c p : cpuif_ok c -> is_u 8 p -> is_u 8 (group_prio c p) /\ (8 | group_prio c p).
Proof.
  intros (_ & Hb & _) Hp. unfold group_prio. split.
  - apply is_u_land; [lia|exact Hp|]. apply is_u_u8.
  - apply (land_divide _ _ 3); [lia|]. by apply group_mask.
Qed.

Lemma stack_ok_nil : stack_ok [].
Proof. split; constructor. Qed.

Lemma stack_ok_snoc a e :
  stack_ok a -> group_prio_ok e -> (forall x, last a = Some x -> e.2 < x.2) -> stack_ok (a ++ [e]).
Proof.
  intros [Hf Hs] He Hl. split; [by apply Forall_app_2; [|constructor]|].
  induction Hs as [|x a Hs IH Hx]; cbn; [repeat constructor|].
  apply Forall_cons_1 in Hf as [Hx0 Hf]. constructor.
  - apply IH; [done|]. intros y Hy. apply Hl. destruct a; [done|exact Hy].
  - apply Forall_app_2; [done|]. constructor; [|constructor].
    destruct (last a) as [y|] eqn:Ey.
    + specialize (Hl y). rewrite last_cons, Ey in Hl. specialize (Hl eq_refl).
      assert (y ∈ a) as Hin by (by apply last_Some_elem_of).
      rewrite Forall_forall in Hx. specialize (Hx y Hin). unfold preempts in *. lia.
    + apply last_None in Ey as ->. apply (Hl x). reflexivity.
Qed.

Lemma stack_ok_take k a : stack_ok a -> stack_ok (take k a).
Proof.
  intros [Hf Hs]. split; [by apply Forall_take|].
  revert k. induction Hs as [|x a Hs IH Hx]; intros [|k]; cbn; try constructor.
  - apply IH. by apply Forall_cons_1 in Hf as [_ ?].
  - by apply Forall_take.
Qed.

Lemma stack_ok_pop a : stack_ok a -> stack_ok (pop a).
Proof. apply stack_ok_take. Qed.

(** At most one active priority per group: no more than 32. *)
Lemma stack_prios_nodup a : StronglySorted preempts a -> NoDup a.*2.
Proof.
  induction 1 as [|x a Hs IH Hx]; cbn; constructor; [|done].
  intros Hin. apply list_elem_of_fmap in Hin as (y & He & Hy).
  rewrite Forall_forall in Hx. specialize (Hx y Hy). unfold preempts in Hx. lia.
Qed.

Lemma stack_depth a : stack_ok a -> (length a <= 32)%nat.
Proof.
  intros [Hf Hs]. apply stack_prios_nodup in Hs.
  rewrite <- (length_fmap snd a).
  assert (a.*2 ⊆ ((fun k => 8 * k) <$> seqZ 0 32)) as Hsub.
  { intros p Hp. apply list_elem_of_fmap in Hp as (e & -> & He).
    rewrite Forall_forall in Hf. destruct (Hf e He) as (_ & Hr & [q Hq]).
    apply list_elem_of_fmap. exists q. split; [lia|]. apply elem_of_seqZ. unfold is_u in Hr. lia. }
  change 32%nat with (length ((fun k => 8 * k) <$> seqZ 0 32)). apply submseteq_length.
  apply NoDup_submseteq; [exact Hs|exact Hsub].
Qed.

Lemma ap1r0_stack_ok v : stack_ok (ap1r0_stack v).
Proof.
  unfold ap1r0_stack.
  assert (forall l a, stack_ok a -> (forall x, last a = Some x -> forall b, b ∈ l -> 8 * b < x.2) ->
    Forall (fun b => 0 <= b < 32) l -> StronglySorted (fun x y => y < x) l ->
    stack_ok (foldl (fun a bit => if test_mask v (Z.shiftl 1 bit)
                      then a ++ [(INTID_SPURIOUS, u8 (Z.shiftl bit 3))] else a) a l)) as H.
  { induction l as [|b l IH]; intros a Ha Hl Hr Hs; cbn; [done|].
    apply Forall_cons_1 in Hr as [Hb Hr]. apply StronglySorted_inv in Hs as [Hs Hlt].
    assert (u8 (Z.shiftl b 3) = 8 * b) as Hu.
    { unfold u8. rewrite Z.shiftl_mul_pow2, Z.mod_small by lia. lia. }
    destruct (test_mask v (Z.shiftl 1 b)).
    - apply IH; [|intros x Hx b' Hb'|done|done].
      + apply stack_ok_snoc; [done| |].
        * rewrite Hu. split; [cbn; unfold INTID_SPURIOUS; solve_is_u|]. cbn. split; [solve_is_u|]. exists b. lia.
        * intros x Hx. rewrite Hu. cbn. apply (Hl x Hx). left.
      + rewrite last_snoc in Hx. injection Hx as <-. cbn. rewrite Hu.
        rewrite Forall_forall in Hlt. specialize (Hlt b' Hb'). cbn in Hlt. lia.
    - apply IH; [done| |done|done]. intros x Hx b' Hb'. apply (Hl x Hx). by right. }
  apply H; [apply stack_ok_nil|done| |].
  - change (rev (seqZ 0 32)) with (reverse (seqZ 0 32)).
    repeat constructor; lia.
  - repeat constructor; lia.
Qed.

(** * Which interrupt is signalled (theorems about Gic)

    The two loops of [highest_pending_of] compute the minimum, by priority and
    then by INTID, of the interrupts that can be signalled to a core. *)

(** ** The interrupts of a core *)

(** Interrupt [k] can be signalled to [cpu]: enabled, pending, inactive, in
    group 1 and, if shared, routed to it. *)
Definition candidate (g : Gic) (cpu k : nat) (i : Irq) : Prop :=
  irq g cpu k = Some i /\ signals i = true /\ ((32 <= k)%nat -> routed_to cpu i = true).

(** [Some (id, p)] names the candidate of lowest priority value, and among
    these of lowest INTID; [None] means that there is no candidate. *)
Definition best_candidate (g : Gic) (cpu : nat) (r : option (Z * Z)) : Prop :=
  match r with
  | None => forall k i, ~ candidate g cpu k i
  | Some (id, p) => exists k i, candidate g cpu k i /\ id = Z.of_nat k /\ p = priority i
      /\ forall k' i', candidate g cpu k' i' -> p < priority i' \/ (p = priority i' /\ (k <= k')%nat)
  end.

Lemma elem_of_imap_pair {A} (l : list A) k x : (k, x) ∈ imap pair l <-> l !! k = Some x.
Proof.
  rewrite list_elem_of_lookup. setoid_rewrite list_lookup_imap. split.
  - intros [j Hj]. destruct (l !! j) eqn:E; [|done]. cbn in Hj. congruence.
  - intros Hk. exists k. by rewrite Hk.
Qed.

Lemma elem_of_drop_imap_pair {A} (l : list A) n k x :
  (k, x) ∈ drop n (imap pair l) <-> (n <= k)%nat /\ l !! k = Some x.
Proof.
  rewrite list_elem_of_lookup. setoid_rewrite lookup_drop. setoid_rewrite list_lookup_imap. split.
  - intros [j Hj]. destruct (l !! (n + j)%nat) eqn:E; [|done]. cbn in Hj. injection Hj as <- <-.
    split; [lia|done].
  - intros [Hn Hk]. exists (k - n)%nat. replace (n + (k - n))%nat with k by lia. by rewrite Hk.
Qed.

Lemma keys_imap_pair {A} (l : list A) : (imap pair l).*1 = seq 0 (length l).
Proof.
  apply list_eq. intros j. rewrite list_lookup_fmap, list_lookup_imap.
  destruct (l !! j) eqn:E; cbn.
  - rewrite lookup_seq_lt; [done|]. by eapply lookup_lt_Some.
  - rewrite lookup_seq_ge; [done|]. by apply lookup_ge_None_1.
Qed.

Lemma sorted_seq m n : StronglySorted lt (seq m n).
Proof.
  revert m. induction n as [|n IH]; intros m; cbn; constructor; [apply IH|].
  apply Forall_forall. intros x Hx. apply elem_of_seq in Hx. lia.
Qed.

(** What both loops go over: the private interrupts, then the shared ones. *)
Definition entries (g : Gic) (cpu : nat) : list (nat * Irq) :=
  imap pair (if (cpu =? 0)%nat then take 32 (irqs g) else default [] (banked g !! (cpu - 1)%nat))
  ++ drop 32 (imap pair (irqs g)).

Definition entry_ok (cpu : nat) (e : nat * Irq) : bool :=
  signals e.2 && ((e.1 <? 32)%nat || routed_to cpu e.2).

Lemma private_length n g cpu :
  gic_wf n g -> (cpu < n)%nat ->
  exists p, (if (cpu =? 0)%nat then guard (32 <= length (irqs g))%nat;; Some (take 32 (irqs g))
             else banked g !! (cpu - 1)%nat) = Some p
    /\ p = (if (cpu =? 0)%nat then take 32 (irqs g) else default [] (banked g !! (cpu - 1)%nat))
    /\ length p = 32%nat.
Proof.
  intros W Hc. destruct (Nat.eqb_spec cpu 0) as [->|Hne].
  - pose proof (wf_irqs _ _ W) as Hl. case_guard as Hg; [|unfold NUM_INTIDS in Hl; lia].
    eexists. split; [reflexivity|]. split; [done|]. rewrite length_take. lia.
  - assert (cpu - 1 < length (banked g))%nat as Hlt by (rewrite (wf_banked _ _ W); lia).
    destruct (lookup_lt_is_Some_2 _ _ Hlt) as [b Hb]. rewrite Hb. exists b. split; [done|].
    split; [done|]. by destruct (Forall_lookup_1 _ _ _ _ (wf_banked_ok _ _ W) Hb).
Qed.

Lemma entries_irq n g cpu k i :
  gic_wf n g -> (cpu < n)%nat -> (k, i) ∈ entries g cpu <-> irq g cpu k = Some i.
Proof.
  intros W Hc. unfold entries, irq, is_banked. rewrite elem_of_app, elem_of_imap_pair, elem_of_drop_imap_pair.
  destruct (private_length n g cpu W Hc) as (p & _ & Hp & Hl). rewrite <- Hp.
  destruct (Nat.ltb_spec k 32) as [Hk|Hk]; cbn [andb].
  - transitivity (p !! k = Some i); [split; [intros [?|[? ?]]; [done|lia]|by left]|].
    rewrite Hp. destruct (Nat.eqb_spec cpu 0) as [->|Hne].
    + cbn. by rewrite lookup_take_lt.
    + destruct (Nat.ltb_spec 0 cpu); [|lia]. by destruct (banked g !! _).
  - split; [|by right]. intros [H|[_ H]]; [|done]. apply lookup_lt_Some in H. lia.
Qed.

Lemma entries_sorted n g cpu : gic_wf n g -> (cpu < n)%nat -> StronglySorted lt (entries g cpu).*1.
Proof.
  intros W Hc. unfold entries. rewrite fmap_app, fmap_drop, !keys_imap_pair.
  destruct (private_length n g cpu W Hc) as (p & _ & <- & ->). rewrite (wf_irqs _ _ W).
  apply (sorted_seq 0 288).
Qed.

Lemma highest_pending_fold n g cpu :
  gic_wf n g -> (cpu < n)%nat -> test_mask (gicd_ctlr g) GICD_CTLR_ENABLE_GRP1 = true ->
  highest_pending_of g cpu
  = Some (foldl (fun best e => if entry_ok cpu e && match best with None => true | Some (_, p) => priority e.2 <? p end
                               then Some (Z.of_nat e.1, priority e.2) else best) None (entries g cpu)).
Proof.
  intros W Hc He. unfold highest_pending_of. rewrite He. cbn [negb].
  destruct (private_length n g cpu W Hc) as (p & Hs & Hp & Hl). rewrite Hs. cbn [mbind option_bind]. f_equal.
  unfold entries. rewrite <- Hp, foldl_app.
  assert (forall f h (l : list (nat * Irq)) b, (forall x e, e ∈ l -> f x e = h x e) ->
    foldl f b l = foldl h b l :> option (Z * Z)) as Hext.
  { intros f h l. induction l as [|e l IH]; intros b Hf; [done|]. cbn. rewrite (Hf b e) by left.
    apply IH. intros x e' He'. apply Hf. by right. }
  rewrite (Hext (better signals)
    (fun best e => if entry_ok cpu e && match best with None => true | Some (_, p) => priority e.2 <? p end
                   then Some (Z.of_nat e.1, priority e.2) else best)).
  - apply Hext. intros b [k i] Hin. apply elem_of_drop_imap_pair in Hin as [Hk _].
    unfold better, entry_ok. cbn [fst snd]. destruct (Nat.ltb_spec k 32); [lia|reflexivity].
  - intros b [k i] Hin. apply elem_of_imap_pair, lookup_lt_Some in Hin.
    unfold better, entry_ok. cbn [fst snd]. destruct (Nat.ltb_spec k 32); [|lia]. cbn [orb]. by rewrite andb_true_r.
Qed.

(** The minimum of a list with increasing keys. *)
Definition list_best (ok : nat * Irq -> bool) (l : list (nat * Irq)) (r : option (Z * Z)) : Prop :=
  match r with
  | None => forall e, e ∈ l -> ok e = false
  | Some (id, p) => exists e, e ∈ l /\ ok e = true /\ id = Z.of_nat e.1 /\ p = priority e.2
      /\ forall e', e' ∈ l -> ok e' = true -> p < priority e'.2 \/ (p = priority e'.2 /\ (e.1 <= e'.1)%nat)
  end.

Lemma sorted_snoc_inv l x : StronglySorted lt (l ++ [x]) -> StronglySorted lt l /\ Forall (fun y => (y < x)%nat) l.
Proof.
  induction l as [|y l IH]; cbn; intros H; [by repeat constructor|].
  apply StronglySorted_inv in H as [H Hy]. destruct (IH H) as [Hs Hf]. apply Forall_app in Hy as [Hy Hx].
  apply Forall_cons_1 in Hx as [Hx _]. split; constructor; auto.
Qed.

Lemma foldl_list_best ok l :
  StronglySorted lt l.*1 ->
  list_best ok l
    (foldl (fun best e => if ok e && match best with None => true | Some (_, p) => priority e.2 <? p end
                          then Some (Z.of_nat e.1, priority e.2) else best) None l).
Proof.
  induction l as [|e l IH] using rev_ind; intros Hs; [by intros e He%not_elem_of_nil|].
  rewrite fmap_app in Hs. apply sorted_snoc_inv in Hs as [Hs Hlt]. specialize (IH Hs).
  rewrite foldl_app. cbn [foldl]. set (b := foldl _ None l) in *.
  destruct (ok e) eqn:Eok; cbn [andb].
  - destruct b as [[id p]|]; cbn [list_best] in IH |- *.
    + destruct IH as (e0 & Hin & Hok & -> & -> & Hmin). destruct (Z.ltb_spec (priority e.2) (priority e0.2)).
      * exists e. split; [apply elem_of_app; right; left|]. split; [done|]. split; [done|]. split; [done|].
        intros e' [He'|He'%list_elem_of_singleton]%elem_of_app Hok'.
        -- specialize (Hmin e' He' Hok'). lia.
        -- subst e'. right. split; [done|lia].
      * exists e0. split; [apply elem_of_app; by left|]. split; [done|]. split; [done|]. split; [done|].
        intros e' [He'|He'%list_elem_of_singleton]%elem_of_app Hok'; [by apply Hmin|]. subst e'.
        rewrite Forall_fmap, Forall_forall in Hlt. specialize (Hlt e0 Hin). cbn in Hlt. lia.
    + exists e. split; [apply elem_of_app; right; left|]. split; [done|]. split; [done|]. split; [done|].
      intros e' [He'|He'%list_elem_of_singleton]%elem_of_app Hok'; [|subst e'; right; split; [done|lia]].
      rewrite (IH e' He') in Hok'. discriminate.
  - destruct b as [[id p]|]; cbn [list_best] in IH |- *.
    + destruct IH as (e0 & Hin & Hok & -> & -> & Hmin). exists e0.
      split; [apply elem_of_app; by left|]. split; [done|]. split; [done|]. split; [done|].
      intros e' [He'|He'%list_elem_of_singleton]%elem_of_app Hok'; [by apply Hmin|]. subst e'. congruence.
    + intros e' [He'|He'%list_elem_of_singleton]%elem_of_app; [by apply IH|]. by subst e'.
Qed.

Lemma entry_candidate n g cpu k i :
  gic_wf n g -> (cpu < n)%nat ->
  candidate g cpu k i <-> (k, i) ∈ entries g cpu /\ entry_ok cpu (k, i) = true.
Proof.
  intros W Hc. rewrite (entries_irq n) by done. unfold candidate, entry_ok. cbn [fst snd].
  destruct (Nat.ltb_spec k 32); cbn [orb]; rewrite ?andb_true_r, ?andb_true_iff; intuition lia.
Qed.

Lemma highest_pending_best n g cpu :
  gic_wf n g -> (cpu < n)%nat -> test_mask (gicd_ctlr g) GICD_CTLR_ENABLE_GRP1 = true ->
  exists r, highest_pending_of g cpu = Some r /\ best_candidate g cpu r.
Proof.
  intros W Hc He. eexists. split; [by apply (highest_pending_fold n)|].
  pose proof (foldl_list_best (entry_ok cpu) (entries g cpu) (entries_sorted n g cpu W Hc)) as HB.
  destruct (foldl _ _ _) as [[id p]|]; cbn [list_best best_candidate] in *.
  - destruct HB as ([k i] & Hin & Hok & Hid & Hp & Hmin). exists k, i.
    split; [by apply (entry_candidate n)|]. split; [exact Hid|]. split; [exact Hp|].
    intros k' i' Hc'. apply (entry_candidate n) in Hc' as [Hin' Hok']; [|done..]. by apply (Hmin (k', i')).
  - intros k i Hk. apply (entry_candidate n) in Hk as [Hin Hok]; [|done..].
    specialize (HB _ Hin). congruence.
Qed.

Lemma highest_pending_total n g cpu :
  gic_wf n g -> (cpu < n)%nat -> exists r, highest_pending_of g cpu = Some r
    /\ forall id p, r = Some (id, p) -> exists k i, candidate g cpu k i /\ id = Z.of_nat k /\ p = priority i.
Proof.
  intros W Hc. destruct (test_mask (gicd_ctlr g) GICD_CTLR_ENABLE_GRP1) eqn:He.
  - destruct (highest_pending_best n g cpu W Hc He) as ([[id p]|] & Hr & HB).
    + eexists. split; [exact Hr|]. intros id' p' [= <- <-]. destruct HB as (k & i & ? & ? & ? & _). eauto.
    + eexists. split; [exact Hr|]. done.
  - exists None. split; [|done]. unfold highest_pending_of. by rewrite He.
Qed.

(** ** What is signalled *)

(** The conditions of [deliverable] on a candidate: the group is enabled and
    the priority passes the mask and preempts what is running. *)
Definition passes (c : CpuIf) (p : Z) : bool :=
  igrpen1 c && (p <? pmr c) && (group_prio c p <? running c).

Lemma deliverable_some n g cpu :
  gic_wf n g -> (cpu < n)%nat -> exists r, deliverable g cpu = Some r.
Proof.
  intros W Hc. destruct (highest_pending_total n g cpu W Hc) as (r & Hr & _).
  unfold deliverable. rewrite Hr. cbn [mbind option_bind]. destruct r as [[id p]|]; [|eauto].
  destruct (cpu_lookup n g cpu W Hc) as (c & Hl & _). rewrite Hl. cbn. eauto.
Qed.

Lemma deliverable_inv n g cpu id p :
  gic_wf n g -> (cpu < n)%nat -> deliverable g cpu = Some (Some (id, p)) ->
  highest_pending_of g cpu = Some (Some (id, p)) /\
  (exists k i, candidate g cpu k i /\ id = Z.of_nat k /\ p = priority i) /\
  exists c, cpus g !! cpu = Some c /\ cpuif_ok c /\ passes c p = true.
Proof.
  intros W Hc Hd. destruct (highest_pending_total n g cpu W Hc) as (r & Hr & HB).
  destruct (cpu_lookup n g cpu W Hc) as (c & Hl & Hok).
  unfold deliverable in Hd. rewrite Hr in Hd. cbn [mbind option_bind] in Hd.
  destruct r as [[id' p']|]; [|discriminate]. rewrite Hl in Hd. cbn [mbind option_bind] in Hd.
  fold (passes c p') in Hd. destruct (passes c p') eqn:Ep; [|discriminate].
  injection Hd as -> ->. split; [exact Hr|]. split; [by apply HB|]. eauto.
Qed.

(** * The operations of the interrupt controller (theorems about Gic)

    Each operation keeps [gic_wf] and returns; the acknowledgement and the end
    of an interrupt in terms of the interrupts and of the active priorities;
    sequences of operations. *)

(** A value masked by a [w]-bit mask. *)
Lemma is_u_land_mask w x m : 0 <= w -> is_u w m -> is_u w (Z.land x m).
Proof.
  intros Hw Hm. apply is_u_bits; [done|apply Z.land_nonneg; right; apply Hm|].
  intros i Hi. by rewrite Z.land_spec, (testbit_high w m i), andb_false_r.
Qed.

Lemma private_irqs_ok : bank_ok private_irqs.
Proof.
  intros k i Hk. unfold private_irqs in Hk. apply lookup_app_Some in Hk as [Hk|[Hl Hk]].
  - apply lookup_replicate in Hk as [-> Hk]. unfold irq_ok, is_u. cbn. lia.
  - apply lookup_replicate in Hk as [-> Hk]. rewrite length_replicate in Hl. unfold irq_ok, is_u. cbn. lia.
Qed.

Lemma with_cpus_wf n : (1 <= n <= 16)%nat -> exists g, with_cpus n = Some g /\ gic_wf n g.
Proof.
  intros Hn. unfold with_cpus. case_guard; [|contradiction]. eexists. split; [reflexivity|].
  split; cbn [irqs banked gicd_ctlr cpus cur].
  - exact Hn.
  - reflexivity.
  - intros k i Hk. apply lookup_app_Some in Hk as [Hk|[Hl Hk]]; [by apply private_irqs_ok|].
    apply lookup_replicate in Hk as [-> Hk]. change (length private_irqs) with 32%nat in Hl.
    split; [by cbn|]. split; [by cbn|]. intros. lia.
  - apply length_replicate.
  - apply Forall_replicate. split; [reflexivity|apply private_irqs_ok].
  - by cbn.
  - apply length_replicate.
  - apply Forall_replicate. split; [by cbn|]. split; [by cbn|]. apply stack_ok_nil.
  - lia.
Qed.

(** ** Interrupts *)

(** A change that keeps the trigger, and the ranges. *)
Lemma irq_ok_same_edge k i i' :
  irq_ok k i -> edge i' = edge i -> is_u 8 (priority i') -> is_u 64 (router i') -> irq_ok k i'.
Proof. intros (_ & _ & He) Hed Hp Hr. split; [done|]. split; [done|]. by rewrite Hed. Qed.

Ltac irq_fields :=
  let i := fresh "i" in let H := fresh "H" in
  intros i H; apply (irq_ok_same_edge _ i); [exact H|unfold update; try reflexivity..]; unfold irq_ok in H; try apply H.

Lemma raise_line_ok k lvl i : irq_ok k i -> irq_ok k (raise_line lvl i).
Proof.
  intros H. unfold raise_line. destruct (edge i && lvl && negb (level i));
    apply (irq_ok_same_edge _ i); try reflexivity; apply H.
Qed.

Lemma set_private_level_wf n cpu intid lvl g :
  gic_wf n g -> gic_wf n (set_private_level cpu intid lvl g).
Proof.
  intros W. unfold set_private_level. destruct (16 <=? intid); [|done].
  apply set_irq_wf; [done|]. apply raise_line_ok.
Qed.

Lemma send_sgi_to_wf n cpu intid g : gic_wf n g -> gic_wf n (send_sgi_to cpu intid g).
Proof.
  intros W. unfold send_sgi_to. destruct (intid <? 16); [|done]. apply set_irq_wf; [done|]. irq_fields.
Qed.

Lemma deactivate_wf n intid g : gic_wf n g -> gic_wf n (deactivate intid g).
Proof. intros W. apply set_irq_wf; [done|]. irq_fields. Qed.

Lemma foldl_wf {A} n (f : Gic -> A -> Gic) l g :
  (forall g x, gic_wf n g -> gic_wf n (f g x)) -> gic_wf n g -> gic_wf n (foldl f g l).
Proof. intros Hf. revert g. induction l as [|x l IH]; intros g W; cbn; auto. Qed.

Lemma write_sgi1r_wf n v g : gic_wf n g -> gic_wf n (write_sgi1r v g).
Proof.
  intros W. apply foldl_wf; [|done]. intros g' cpu W'. destruct (sgi_hit v (cur g) cpu); [|done].
  by apply send_sgi_to_wf.
Qed.

(** ** The acknowledgement *)

Lemma running_bound c e : last (active_prio c) = Some e -> running c = e.2.
Proof. unfold running. intros ->. by destruct e. Qed.

(** What an acknowledged interrupt becomes. *)
Definition acked (i : Irq) : Irq := i <| active := true |> <| pending := false |>.

Lemma read_iar1_some n g id p :
  gic_wf n g -> deliverable g (cur g) = Some (Some (id, p)) ->
  exists c, cpus g !! cur g = Some c /\
  read_iar1 g = Some (id, (set_irq (cur g) (Z.to_nat id) acked g)
    <| cpus ::= alter (fun c => c <| active_prio ::= fun a => a ++ [(id, group_prio c p)] |>) (cur g) |>).
Proof.
  intros W Hd. pose proof (wf_cur _ _ W) as Hcur.
  destruct (deliverable_inv n g _ id p W Hcur Hd) as (_ & (k & i & (Hi & _) & -> & ->) & (c & Hc & Hok & _)).
  exists c. split; [done|]. unfold read_iar1. rewrite Hd. cbn [mbind option_bind]. rewrite Hc.
  cbn [mbind option_bind]. rewrite Nat2Z.id, Hi. cbn [mbind option_bind].
  change (set_irq (cur g) k _ g) with (set_irq (cur g) k acked g) at 1.
  pose proof (set_irq_cpus (cur g) k acked g) as Hg1. set (g1 := set_irq (cur g) k acked g) in *.
  unfold set_cpu. rewrite Hg1, (wf_cpus _ _ W). case_guard; [|contradiction].
  assert (alter (fun c0 : CpuIf => c0 <| active_prio ::= fun a => a ++ [(Z.of_nat k, group_prio c (priority i))] |>)
            (cur g) (cpus g1)
    = alter (fun c0 : CpuIf => c0 <| active_prio ::= fun a => a ++ [(Z.of_nat k, group_prio c0 (priority i))] |>)
        (cur g) (cpus g1)) as Ha.
  { apply list_eq. intros j. destruct (decide (j = cur g)) as [->|Hne].
    - by rewrite !list_lookup_alter_eq, Hg1, Hc.
    - by rewrite !list_lookup_alter_ne. }
  unfold update in *. cbn [mbind option_bind mret option_ret]. rewrite Ha. reflexivity.
Qed.

Lemma read_iar1_none g : deliverable g (cur g) = Some None -> read_iar1 g = Some (INTID_SPURIOUS, g).
Proof. intros Hd. unfold read_iar1. by rewrite Hd. Qed.

Lemma read_iar1_wf n g : gic_wf n g -> exists id g', read_iar1 g = Some (id, g') /\ gic_wf n g'.
Proof.
  intros W. pose proof (wf_cur _ _ W) as Hcur.
  destruct (deliverable_some n g _ W Hcur) as [[[id p]|] Hd].
  - destruct (deliverable_inv n g _ id p W Hcur Hd) as (_ & (k & i & (Hi & _) & -> & ->) & (c & Hc & Hok & Hp)).
    destruct (read_iar1_some n g _ _ W Hd) as (c' & Hc' & Hr). rewrite Hc in Hc'. injection Hc' as <-.
    eexists _, _. split; [exact Hr|].
    assert (is_u 8 (priority i) /\ (k < 288)%nat) as [Hpr Hk].
    { unfold irq, is_banked in Hi. destruct (Nat.ltb_spec k 32), (Nat.ltb_spec 0 (cur g)); cbn in Hi;
        try (split; [eapply (wf_irqs_ok _ _ W), Hi|lia]).
      - destruct (banked g !! _) as [b|] eqn:Eb; [|discriminate].
        destruct (Forall_lookup_1 _ _ _ _ (wf_banked_ok _ _ W) Eb) as [_ Hb].
        split; [by eapply Hb|lia].
      - split; [eapply (wf_irqs_ok _ _ W), Hi|]. apply lookup_lt_Some in Hi. by rewrite (wf_irqs _ _ W) in Hi.
      - split; [eapply (wf_irqs_ok _ _ W), Hi|]. apply lookup_lt_Some in Hi. by rewrite (wf_irqs _ _ W) in Hi. }
    unfold passes in Hp. apply andb_true_iff in Hp as [_ Hlt]. apply Z.ltb_lt in Hlt.
    assert (gic_wf n (set_irq (cur g) (Z.to_nat (Z.of_nat k)) acked g)) as W1.
    { apply set_irq_wf; [done|]. unfold acked. irq_fields. }
    destruct W1. unfold update. split; cbn; rewrite ?length_alter; auto.
    apply Forall_alter; [done|]. intros c' Hc' (H1 & H2 & H3).
    rewrite set_irq_cpus, Hc in Hc'. injection Hc' as <-. split; [exact H1|]. split; [exact H2|]. cbn.
    destruct (group_prio_range c (priority i) Hok Hpr) as [Hg1 Hg2].
    apply stack_ok_snoc; [done|split; [cbn; solve_is_u|by split]|].
    intros x Hx. rewrite (running_bound _ _ Hx) in Hlt. exact Hlt.
  - eexists _, _. split; [by apply read_iar1_none|done].
Qed.

(** ** The end of an interrupt *)

Lemma write_eoir1_wf n v g : gic_wf n g -> exists g', write_eoir1 v g = Some g' /\ gic_wf n g'.
Proof.
  intros W. pose proof (wf_cur _ _ W) as Hcur. unfold write_eoir1. destruct (_ && _); [eauto|].
  destruct (cpu_lookup n g _ W Hcur) as (c & Hc & _). rewrite Hc. cbn [mbind option_bind].
  destruct (set_cpu_wf n g (cur g) (fun c => c <| active_prio ::= pop |>) W Hcur) as (g' & Hg & W').
  { intros c' (H1 & H2 & H3). split; [exact H1|]. split; [exact H2|]. by apply stack_ok_pop. }
  rewrite Hg. cbn [mbind option_bind]. eexists. split; [reflexivity|].
  destruct (eoimode c); [done|]. by apply deactivate_wf.
Qed.

(** ** The other registers of the CPU interface *)

Lemma set_current_wf n cpu g :
  gic_wf n g -> (cpu < n)%nat -> exists g', set_current cpu g = Some g' /\ gic_wf n g'.
Proof.
  intros W Hc. unfold set_current. rewrite (wf_cpus _ _ W). case_guard; [|contradiction].
  eexists. split; [reflexivity|]. destruct W. by split.
Qed.

Lemma write_pmr_wf n v g : gic_wf n g -> exists g', write_pmr v g = Some g' /\ gic_wf n g'.
Proof.
  intros W. apply set_cpu_wf; [done|apply (wf_cur _ _ W)|]. intros c (H1 & H2 & H3).
  split; [|by split]. cbn. apply is_u_land; [lia|apply is_u_u8|by vm_compute].
Qed.

Lemma write_bpr1_wf n v g : gic_wf n g -> exists g', write_bpr1 v g = Some g' /\ gic_wf n g'.
Proof.
  intros W. apply set_cpu_wf; [done|apply (wf_cur _ _ W)|]. intros c (H1 & H2 & H3).
  split; [done|]. split; [|done]. cbn. change MIN_BPR1 with 3.
  assert (is_u 3 (Z.land (u8 v) 7)) as Hr by (apply is_u_land_mask; [lia|by cbn]).
  unfold is_u in Hr. lia.
Qed.

Lemma write_ctlr_wf n v g : gic_wf n g -> exists g', write_ctlr v g = Some g' /\ gic_wf n g'.
Proof. intros W. apply set_cpu_wf; [done|apply (wf_cur _ _ W)|]. intros c (H1 & H2 & H3). by split. Qed.

Lemma write_igrpen1_wf n v g : gic_wf n g -> exists g', write_igrpen1 v g = Some g' /\ gic_wf n g'.
Proof. intros W. apply set_cpu_wf; [done|apply (wf_cur _ _ W)|]. intros c (H1 & H2 & H3). by split. Qed.

Lemma write_ap1r0_wf n v g : gic_wf n g -> exists g', write_ap1r0 v g = Some g' /\ gic_wf n g'.
Proof.
  intros W. apply set_cpu_wf; [done|apply (wf_cur _ _ W)|]. intros c (H1 & H2 & H3).
  split; [done|]. split; [done|]. apply ap1r0_stack_ok.
Qed.

(** ** Registers in memory *)

Lemma update_while_wf n f cpu first k m g :
  gic_wf n g -> (forall j i, irq_ok (first + j) i -> irq_ok (first + j) (f j i)) ->
  gic_wf n (update_while f cpu first k m g).
Proof.
  intros W Hf. revert k g W. induction m as [|m IH]; intros k g W; cbn; [done|].
  destruct (irq g cpu (first + k)); [|done]. apply IH. apply set_irq_wf; [done|]. apply Hf.
Qed.

Lemma write_bit_ok k op one i : irq_ok k i -> irq_ok k (write_bit op one i).
Proof.
  intros H. destruct op, one; cbn; try exact H; apply (irq_ok_same_edge _ i); try exact H; try reflexivity; apply H.
Qed.

Lemma write_bits_wf n cpu w op v g : gic_wf n g -> gic_wf n (write_bits cpu w op v g).
Proof. intros W. apply update_while_wf; [done|]. intros j i. apply write_bit_ok. Qed.

Lemma write_prio_wf n cpu first size v g : gic_wf n g -> gic_wf n (write_prio cpu first size v g).
Proof.
  intros W. apply foldl_wf; [|done]. intros g' j W'. apply set_irq_wf; [done|]. intros i Hi.
  apply (irq_ok_same_edge _ i); [done|done| |apply Hi]. cbn. apply is_u_u8.
Qed.

Lemma write_cfg_wf n cpu w v g : gic_wf n g -> (1 <= w)%nat -> gic_wf n (write_cfg cpu w v g).
Proof.
  intros W Hw. apply update_while_wf; [done|]. intros j i (H1 & H2 & H3).
  split; [exact H1|]. split; [exact H2|]. intros. lia.
Qed.

Lemma write_router_wf n (r : Irq -> Z) k g :
  gic_wf n g -> gic_wf n (g <| irqs ::= alter (fun i => i <| router := Z.land (r i) 0xFF80FFFFFF |>) k |>).
Proof.
  intros W. destruct W. unfold update. split; cbn; rewrite ?length_alter; auto.
  apply bank_ok_alter; [done|]. intros i (Hp & _ & He). split; [exact Hp|]. split; [|exact He]. cbn.
  apply (is_u_weaken 40); [|lia]. apply is_u_land_mask; [lia|by vm_compute].
Qed.

Lemma dist_write_wf n off size v g : gic_wf n g -> gic_wf n (dist_write off size v g).
Proof.
  intros W. unfold dist_write. cbv zeta.
  case_match; [by apply write_prio_wf|].
  case_match; [by apply (write_router_wf n (fun i => if size =? 8 then v else if Z.land off 4 =? 0 then _ else _))|].
  repeat case_match; try exact W; try (apply write_bits_wf; exact W).
  - destruct W. unfold update. split; cbn; auto. apply is_u_land_mask; [lia|by vm_compute].
  - apply write_cfg_wf; [done|]. lia.
Qed.

Lemma redist_write_wf n off size v g : gic_wf n g -> gic_wf n (redist_write off size v g).
Proof.
  intros W. unfold redist_write. destruct (_ <=? _)%nat; [done|]. destruct (_ <=? _).
  - destruct (_ && _); [by apply write_prio_wf|]. destruct (_ && _).
    + destruct (bit_op _); [|done]. by apply write_bits_wf.
    + destruct (_ && _); [|done]. apply write_cfg_wf; [done|lia].
  - destruct (_ && _); [|done]. apply alter_cpu_wf; [done|]. intros c (H1 & H2 & H3). by split.
Qed.

Lemma write_wf n off size v g : gic_wf n g -> gic_wf n (write off size v g).
Proof.
  intros W. unfold write. destruct (_ <? _); [by apply dist_write_wf|].
  destruct (within _ _ _); [by apply redist_write_wf|done].
Qed.
