(* ===== verification/GicProof.v ===== *)
(** * What the interrupt controller promises (theorems about Gic)

    Sequences of operations never panic; the interrupt signalled is the best
    one; the life of an interrupt from the acknowledgement to its end; the
    targets of a software-generated interrupt; the active priorities register;
    and a guest that keeps acknowledging serves every latched interrupt. *)

From Stdlib Require Import ZArith Lia Bool Sorting.Sorted.
From stdpp Require Import base list numbers strings.
From S2P Require Import Prelude SnapWire PlatBus Gic GicWf.
Local Open Scope Z_scope.
Local Open Scope vetro_scope.
Import gic.

(** ** Sequences of operations *)

(** What the machine and the guest do to the controller. *)
Inductive gic_op :=
| OpCurrent (cpu : nat)
| OpLevel (cpu : nat) (intid : Z) (lvl : bool)
| OpSgi (cpu : nat) (intid : Z)
| OpIar1
| OpEoir1 (v : Z)
| OpDir (v : Z)
| OpSgi1r (v : Z)
| OpPmr (v : Z)
| OpBpr1 (v : Z)
| OpCtlr (v : Z)
| OpIgrpen1 (v : Z)
| OpAp1r0 (v : Z)
| OpWrite (offset size v : Z).

Definition gic_step (o : gic_op) (g : Gic) : option Gic :=
  match o with
  | OpCurrent cpu => set_current cpu g
  | OpLevel cpu intid lvl => Some (set_private_level cpu intid lvl g)
  | OpSgi cpu intid => Some (send_sgi_to cpu intid g)
  | OpIar1 => r ← read_iar1 g; Some r.2
  | OpEoir1 v => write_eoir1 v g
  | OpDir v => Some (write_dir v g)
  | OpSgi1r v => Some (write_sgi1r v g)
  | OpPmr v => write_pmr v g
  | OpBpr1 v => write_bpr1 v g
  | OpCtlr v => write_ctlr v g
  | OpIgrpen1 v => write_igrpen1 v g
  | OpAp1r0 v => write_ap1r0 v g
  | OpWrite offset size v => Some (write offset size v g)
  end.

Fixpoint gic_run (ops : list gic_op) (g : Gic) : option Gic :=
  match ops with
  | [] => Some g
  | o :: ops => g' ← gic_step o g; gic_run ops g'
  end.

(** The machine only runs cores it has. *)
Definition op_ok (n : nat) (o : gic_op) : Prop :=
  match o with OpCurrent cpu => (cpu < n)%nat | _ => True end.

Lemma gic_step_wf n o g : gic_wf n g -> op_ok n o -> exists g', gic_step o g = Some g' /\ gic_wf n g'.
Proof.
  intros W Ho. destruct o; cbn [gic_step].
  - by apply set_current_wf.
  - eexists. split; [reflexivity|]. by apply set_private_level_wf.
  - eexists. split; [reflexivity|]. by apply send_sgi_to_wf.
  - destruct (read_iar1_wf n g W) as (id & g' & -> & W'). cbn. eauto.
  - by apply write_eoir1_wf.
  - eexists. split; [reflexivity|]. by apply deactivate_wf.
  - eexists. split; [reflexivity|]. by apply write_sgi1r_wf.
  - by apply write_pmr_wf.
  - by apply write_bpr1_wf.
  - by apply write_ctlr_wf.
  - by apply write_igrpen1_wf.
  - by apply write_ap1r0_wf.
  - eexists. split; [reflexivity|]. by apply write_wf.
Qed.

Lemma gic_run_wf n ops g : gic_wf n g -> Forall (op_ok n) ops -> exists g', gic_run ops g = Some g' /\ gic_wf n g'.
Proof.
  intros W Ho. revert g W. induction Ho as [|o ops Ho Hos IH]; intros g W; cbn [gic_run]; [eauto|].
  destruct (gic_step_wf n o g W Ho) as (g' & -> & W'). by apply IH.
Qed.

(** C9: an interrupt controller of 1 to 16 cores that goes through any
    sequence of guest writes, acknowledges and machine operations (with the
    machine selecting only cores that exist) never panics and stays well-formed: the vectors keep
    their lengths, the SGIs of every core stay edge-triggered, priorities and
    routes keep their width, and the active priorities of each core are a
    strictly decreasing stack of multiples of eight. *)
Theorem gic_operations_safe (n : nat) (ops : list gic_op) :
  (1 <= n <= 16)%nat -> Forall (op_ok n) ops ->
  exists g0 g, with_cpus n = Some g0 /\ gic_run ops g0 = Some g /\ gic_wf n g.
Proof.
  intros Hn Ho. destruct (with_cpus_wf n Hn) as (g0 & H0 & W).
  destruct (gic_run_wf n ops g0 W Ho) as (g & Hg & Wg). eauto.
Qed.

(** C11: with the distributor's group 1 enabled, the interrupt chosen for a
    core is, among those enabled, pending, inactive, in group 1 and private to
    the core or routed to it, the one of lowest priority value and then of
    lowest INTID; none is chosen exactly when there is none. *)
Theorem highest_pending_is_minimum (n : nat) (g : Gic) (cpu : nat) :
  gic_wf n g -> (cpu < n)%nat -> test_mask (gicd_ctlr g) GICD_CTLR_ENABLE_GRP1 = true ->
  exists r, highest_pending_of g cpu = Some r /\ best_candidate g cpu r.
Proof. apply highest_pending_best. Qed.

(** ** The active priorities *)

Lemma ap1r0_of_bits (a : list (Z * Z)) (acc b : Z) :
  Forall (fun e => 0 <= e.2) a -> 0 <= b ->
  Z.testbit (foldl (fun acc e => Z.lor acc (Z.shiftl 1 (Z.shiftr e.2 3))) acc a) b
  = Z.testbit acc b || existsb (fun e => Z.shiftr e.2 3 =? b) a.
Proof.
  intros Ha Hb. revert acc. induction Ha as [|e a He Ha IH]; intros acc; cbn [foldl existsb].
  - by rewrite orb_false_r.
  - rewrite IH, Z.lor_spec. rewrite Z.shiftl_1_l, Z.pow2_bits_eqb by by apply Z.shiftr_nonneg.
    by rewrite orb_assoc.
Qed.

Lemma stack_bit a b : stack_ok a -> 0 <= b -> Z.testbit (ap1r0_of a) b = bool_decide (8 * b ∈ a.*2).
Proof.
  intros [Hf _] Hb. unfold ap1r0_of. rewrite ap1r0_of_bits; [|by eapply Forall_impl; [exact Hf|]; intros e (_ & Hr & _); apply Hr|done].
  rewrite Z.testbit_0_l. cbn [orb]. apply eq_true_iff_eq. rewrite existsb_exists, bool_decide_eq_true.
  rewrite list_elem_of_fmap. rewrite Forall_forall in Hf. split.
  - intros (e & He%list_elem_of_In & Hk). exists e. split; [|done]. apply Z.eqb_eq in Hk.
    destruct (Hf e He) as (_ & Hr & [q Hq]). rewrite Z.shiftr_div_pow2 in Hk by lia.
    change (2 ^ 3) with 8 in Hk. rewrite Hq, Z.div_mul in Hk by done. lia.
  - intros (e & Hk & He). exists e. split; [by apply list_elem_of_In|]. apply Z.eqb_eq.
    rewrite <- Hk, Z.shiftr_div_pow2 by lia. change (2 ^ 3) with 8. rewrite Z.mul_comm. by apply Z.div_mul.
Qed.

(** Two strictly decreasing lists with the same elements are equal. *)
Lemma decreasing_ext (l1 l2 : list Z) :
  StronglySorted (fun x y => y < x) l1 -> StronglySorted (fun x y => y < x) l2 ->
  (forall x, x ∈ l1 <-> x ∈ l2) -> l1 = l2.
Proof.
  intros H1. revert l2. induction H1 as [|x l1 H1 IH Hx]; intros l2 H2 He.
  - destruct l2 as [|y l2]; [done|]. exfalso. apply (not_elem_of_nil y), He. left.
  - destruct H2 as [|y l2 H2 Hy]; [exfalso; apply (not_elem_of_nil x), He; left|].
    rewrite Forall_forall in Hx. rewrite Forall_forall in Hy.
    assert (x = y) as ->.
    { pose proof (proj1 (He x) (list_elem_of_here _ _)) as Hxi. pose proof (proj2 (He y) (list_elem_of_here _ _)) as Hyi.
      apply elem_of_cons in Hxi as [?|Hxi]; [done|]. apply elem_of_cons in Hyi as [?|Hyi]; [done|].
      specialize (Hx y Hyi). specialize (Hy x Hxi). cbn in *. lia. }
    f_equal. apply IH; [done|]. intros z. specialize (He z). rewrite !elem_of_cons in He. split; intros Hz.
    + destruct (proj1 He (or_intror Hz)) as [->|]; [|done]. specialize (Hx y Hz). cbn in *. lia.
    + destruct (proj2 He (or_intror Hz)) as [->|]; [|done]. specialize (Hy y Hz). cbn in *. lia.
Qed.

Lemma stack_prios_sorted a : stack_ok a -> StronglySorted (fun x y => y < x) a.*2.
Proof.
  intros [_ Hs]. induction Hs as [|x a Hs IH Hx]; cbn; constructor; [done|].
  apply Forall_fmap. exact Hx.
Qed.

Lemma ap1r0_stack_elem v p : p ∈ (ap1r0_stack v).*2 <-> exists b, 0 <= b < 32 /\ Z.testbit v b = true /\ p = 8 * b.
Proof.
  unfold ap1r0_stack.
  assert (forall l a, Forall (fun b => 0 <= b < 32) l ->
    p ∈ (foldl (fun a bit => if test_mask v (Z.shiftl 1 bit)
                      then a ++ [(INTID_SPURIOUS, u8 (Z.shiftl bit 3))] else a) a l).*2
    <-> p ∈ a.*2 \/ exists b, b ∈ l /\ Z.testbit v b = true /\ p = 8 * b) as H.
  { induction l as [|b l IH]; intros a Hr; cbn [foldl].
    - split; [by left|]. intros [?|(b & Hb%not_elem_of_nil & _)]; done.
    - apply Forall_cons_1 in Hr as [Hb Hr]. rewrite IH by done. rewrite Z.shiftl_1_l, test_mask_bit by lia.
      assert (u8 (Z.shiftl b 3) = 8 * b) as Hu
        by (unfold u8; rewrite Z.shiftl_mul_pow2, Z.mod_small by lia; lia).
      destruct (Z.testbit v b) eqn:Eb.
      + rewrite fmap_app, elem_of_app. cbn. rewrite Hu, list_elem_of_singleton. split.
        * intros [[?| ->]|(b' & ? & ? & ?)]; [by left|right; exists b; split; [left|done]|].
          right. exists b'. split; [by right|done].
        * intros [?|(b' & Hb' & Ht & ->)]; [by left; left|]. apply elem_of_cons in Hb' as [->|Hb']; [by left; right|].
          right. exists b'. done.
      + split; (intros [?|(b' & Hb' & Ht & ->)]; [by left|]).
        * right. exists b'. split; [by right|done].
        * apply elem_of_cons in Hb' as [->|Hb']; [congruence|]. right. exists b'. done. }
  rewrite H by (repeat constructor; lia). split.
  - intros [Hn%not_elem_of_nil|(b & Hb & Ht & ->)]; [done|]. exists b.
    rewrite list_elem_of_In, <- in_rev, <- list_elem_of_In, elem_of_seqZ in Hb. split; [lia|done].
  - intros (b & Hb & Ht & ->). right. exists b.
    rewrite list_elem_of_In, <- in_rev, <- list_elem_of_In, elem_of_seqZ. split; [lia|done].
Qed.

(** No core ever has more than 32 active priorities; bit [b] of
    ICC_AP1R0_EL1 is set exactly when priority [8 * b] is active; and writing
    back the value read rebuilds the same stack of priorities, so that the
    running priority and what can preempt it are the same. *)
Theorem active_priorities (n : nat) (g : Gic) :
  gic_wf n g ->
  exists c v, cpus g !! cur g = Some c /\ read_ap1r0 g = Some v /\
    (length (active_prio c) <= 32)%nat /\ is_u 32 v /\
    (forall b, 0 <= b -> Z.testbit v b = bool_decide (8 * b ∈ (active_prio c).*2)) /\
    exists g' c', write_ap1r0 v g = Some g' /\ cpus g' !! cur g = Some c' /\
      (active_prio c').*2 = (active_prio c).*2 /\ running c' = running c.
Proof.
  intros W. destruct (cpu_lookup n g _ W (wf_cur _ _ W)) as (c & Hc & Hok).
  pose proof (proj2 (proj2 Hok)) as Hst.
  exists c, (ap1r0_of (active_prio c)). split; [done|]. split; [unfold read_ap1r0; by rewrite Hc|].
  split; [by apply stack_depth|].
  assert (forall b, 0 <= b -> Z.testbit (ap1r0_of (active_prio c)) b = bool_decide (8 * b ∈ (active_prio c).*2)) as Hb
    by (intros; by apply stack_bit).
  destruct Hst as [Hf Hs] eqn:Est. clear Est. rewrite Forall_forall in Hf.
  assert (forall p, p ∈ (active_prio c).*2 -> exists b, 0 <= b < 32 /\ p = 8 * b) as Hran.
  { intros p Hp. apply list_elem_of_fmap in Hp as (e & -> & He). destruct (Hf e He) as (_ & Hr & [q Hq]).
    exists q. unfold is_u in Hr. lia. }
  split; [|split; [done|]].
  - apply is_u_bits; [lia| |].
    + unfold ap1r0_of. clear -Hf. assert (forall acc, 0 <= acc ->
        0 <= foldl (fun acc e => Z.lor acc (Z.shiftl 1 (Z.shiftr e.2 3))) acc (active_prio c)) as H; [|by apply H].
      induction (active_prio c) as [|e a IH]; intros acc Ha; cbn; [done|]. apply IH.
      * intros x Hx. apply Hf. by right.
      * apply Z.lor_nonneg. split; [done|]. apply Z.shiftl_nonneg. lia.
    + intros b Hb'. rewrite Hb by lia. apply bool_decide_eq_false. intros Hp.
      destruct (Hran _ Hp) as (q & Hq & He). lia.
  - unfold write_ap1r0. rewrite (set_cpu_some n) by (done || apply (wf_cur _ _ W)).
    eexists _, _. split; [reflexivity|]. split; [unfold update; cbn; by rewrite list_lookup_alter_eq, Hc|].
    assert ((ap1r0_stack (ap1r0_of (active_prio c))).*2 = (active_prio c).*2) as He.
    { apply decreasing_ext; [apply stack_prios_sorted, ap1r0_stack_ok|by apply stack_prios_sorted|].
      intros p. rewrite ap1r0_stack_elem. split.
      - intros (b & Hr & Ht & ->). rewrite Hb in Ht by lia. by apply bool_decide_eq_true in Ht.
      - intros Hp. destruct (Hran p Hp) as (b & Hr & ->). exists b. split; [done|]. split; [|done].
        rewrite Hb by lia. by apply bool_decide_eq_true. }
    split; [exact He|]. unfold update, running. cbn [active_prio].
    assert (last (ap1r0_stack (ap1r0_of (active_prio c))).*2 = last (active_prio c).*2) as Hl by (by rewrite He).
    rewrite !fmap_last in Hl. destruct (last (ap1r0_stack _)) as [[? ?]|], (last (active_prio c)) as [[? ?]|];
      cbn in Hl; congruence.
Qed.

(** * The registers of the interrupt controller (theorems about Gic)

    Which cores a software-generated interrupt reaches, and what an access to
    a bitmap register of the distributor or of a redistributor does. *)

(** ** Software-generated interrupts *)

(** Field [lo .. lo + w) of a register. *)
Definition field (v lo w : Z) : Z := Z.land (Z.shiftr v lo) (2 ^ w - 1).

(** The cores ICC_SGI1R_EL1 names, in a machine of one cluster: with IRM all
    but the sender, else those of the target list when the cluster and the
    range selector are 0. *)
Definition sgi_reaches (v : Z) (sender cpu : nat) : bool :=
  if Z.testbit v 40 then negb (cpu =? sender)%nat
  else (field v 48 8 =? 0) && (field v 32 8 =? 0) && (field v 16 8 =? 0) && (field v 44 4 =? 0)
       && Z.testbit v (Z.of_nat cpu).

Lemma cluster_zero a b c :
  (0 =? Z.lor (Z.lor (Z.shiftl a 32) (Z.shiftl b 16)) (Z.shiftl c 8)) = (a =? 0) && (b =? 0) && (c =? 0).
Proof.
  apply eq_true_iff_eq. rewrite !andb_true_iff, !Z.eqb_eq. split.
  - intros H. symmetry in H. apply Z.lor_eq_0_iff in H as [H ?]. apply Z.lor_eq_0_iff in H as [? ?].
    rewrite Z.shiftl_eq_0_iff in * by lia. done.
  - intros [[-> ->] ->]. reflexivity.
Qed.

Lemma sgi_hit_reaches v sender cpu : (cpu < 16)%nat -> sgi_hit v sender cpu = sgi_reaches v sender cpu.
Proof.
  intros Hc. unfold sgi_hit, sgi_reaches, field. rewrite (test_mask_bit v 40) by lia. destruct (Z.testbit v 40); [done|].
  assert (cpu_affinity cpu = Z.of_nat cpu) as ->.
  { unfold cpu_affinity. rewrite Z.div_small, Z.mod_small by lia. apply Z.lor_0_l. }
  assert (Z.land (Z.of_nat cpu) 0xFF = Z.of_nat cpu) as ->.
  { change 0xFF with (2 ^ 8 - 1). rewrite land_ones_mod, Z.mod_small by lia. done. }
  assert (Z.land (Z.of_nat cpu) 0xF = Z.of_nat cpu) as ->.
  { change 0xF with (2 ^ 4 - 1). rewrite land_ones_mod, Z.mod_small by lia. done. }
  assert (Z.shiftr (Z.of_nat cpu) 4 = 0) as ->.
  { rewrite Z.shiftr_div_pow2 by lia. apply Z.div_small. lia. }
  assert (Z.land (Z.of_nat cpu) (u64 (Z.lnot 0xFF)) = 0) as ->.
  { apply Z.bits_inj'. intros i Hi. rewrite Z.land_spec, Z.testbit_0_l. unfold u64.
    rewrite Z.testbit_mod_pow2, Z.lnot_spec by lia. change 0xFF with (Z.ones 8). rewrite Z.testbit_ones_nonneg by lia.
    destruct (Z.ltb_spec i 8); [by rewrite !andb_false_r|].
    rewrite (testbit_high 8); [done|unfold is_u; lia|done]. }
  rewrite cluster_zero, Z.shiftl_1_l, test_mask_bit, Z.land_spec by lia. rewrite (Z.eqb_sym 0).
  change 0xFFFF with (Z.ones 16). rewrite Z.testbit_ones_nonneg by lia.
  destruct (Z.ltb_spec (Z.of_nat cpu) 16); [|lia]. rewrite andb_true_r. reflexivity.
Qed.

Lemma irq_sgi_fold (hit : nat -> bool) (intid : nat) l g cpu k :
  (intid < 16)%nat ->
  irq (foldl (fun g' c => if hit c then send_sgi_to c (Z.of_nat intid) g' else g') g l) cpu k
  = (if bool_decide (k = intid) && bool_decide (cpu ∈ l) && hit cpu
     then (fun i : Irq => i <| pending := true |>) else id) <$> irq g cpu k.
Proof.
  intros Hi. revert g. induction l as [|c l IH]; intros g; cbn [foldl].
  - rewrite (bool_decide_false (cpu ∈ [])) by apply not_elem_of_nil. rewrite andb_false_r. cbn. by rewrite option_fmap_id.
  - rewrite IH. clear IH. destruct (decide (k = intid)) as [->|Hne].
    + rewrite bool_decide_true by done. cbn [andb].
      assert (irq (if hit c then send_sgi_to c (Z.of_nat intid) g else g) cpu intid
              = (if bool_decide (cpu = c) && hit c then (fun i : Irq => i <| pending := true |>) else id) <$> irq g cpu intid) as ->.
      { destruct (hit c); [|rewrite andb_false_r; by rewrite option_fmap_id]. rewrite andb_true_r.
        unfold send_sgi_to. destruct (Z.ltb_spec (Z.of_nat intid) 16); [|lia]. rewrite Nat2Z.id, irq_set_irq.
        destruct (decide (cpu = c)) as [->|Hc].
        - rewrite decide_True by (split; [done|by left]). by rewrite bool_decide_true.
        - rewrite decide_False by (intros [_ [?|?]]; [congruence|lia]). rewrite bool_decide_false by done.
          by rewrite option_fmap_id. }
      rewrite <- option_fmap_compose. destruct (irq g cpu intid) as [i|]; [|done]. cbn. f_equal.
      destruct (decide (cpu = c)) as [->|Hc].
      * rewrite (bool_decide_true (c = c)), (bool_decide_true (c ∈ c :: l)) by (done || left). cbn [andb].
        destruct (hit c), (bool_decide (c ∈ l)); reflexivity.
      * rewrite (bool_decide_false (cpu = c)) by done. cbn [andb].
        rewrite (bool_decide_ext (cpu ∈ c :: l) (cpu ∈ l)); [reflexivity|].
        rewrite elem_of_cons. tauto.
    + rewrite bool_decide_false by done. cbn [andb]. rewrite !option_fmap_id.
      destruct (hit c); [|done]. unfold send_sgi_to. destruct (Z.ltb_spec (Z.of_nat intid) 16); [|lia].
      rewrite Nat2Z.id, irq_set_irq, decide_False; [done|]. intros [? _]. congruence.
Qed.

Lemma sgi_fold_frame (hit : nat -> bool) intid l g :
  let g' := foldl (fun g' c => if hit c then send_sgi_to c intid g' else g') g l in
  cpus g' = cpus g /\ cur g' = cur g /\ gicd_ctlr g' = gicd_ctlr g.
Proof.
  cbn zeta. revert g. induction l as [|c l IH]; intros g; cbn [foldl]; [done|].
  destruct (IH (if hit c then send_sgi_to c intid g else g)) as (-> & -> & ->).
  destruct (hit c); [|done]. unfold send_sgi_to. destruct (intid <? 16); [|done].
  by rewrite set_irq_cpus, set_irq_ctlr, set_irq_cur.
Qed.

(** C12: a write to ICC_SGI1R_EL1 makes the SGI of bits 27:24 pending on exactly
    the cores it names (with IRM every core but the sender, else those of the
    target list, and none when it names another cluster) and changes nothing
    else: no other interrupt of any core, no CPU interface, no enable. *)
Theorem sgi_reaches_targets (n : nat) (g : Gic) (v : Z) :
  gic_wf n g ->
  (forall cpu k, (cpu < n)%nat ->
     irq (write_sgi1r v g) cpu k
     = (if (Z.of_nat k =? field v 24 4) && sgi_reaches v (cur g) cpu
        then (fun i : Irq => i <| pending := true |>) else id) <$> irq g cpu k) /\
  cpus (write_sgi1r v g) = cpus g /\ cur (write_sgi1r v g) = cur g /\
  gicd_ctlr (write_sgi1r v g) = gicd_ctlr g.
Proof.
  intros W. split; [|apply sgi_fold_frame]. intros cpu k Hc. pose proof (wf_cores _ _ W).
  assert (is_u 4 (field v 24 4)) as Hf by (apply is_u_land_mask; [lia|by cbn]).
  unfold write_sgi1r. change (Z.land (Z.shiftr v 24) 0xF) with (field v 24 4).
  rewrite <- (Z2Nat.id (field v 24 4)) by apply Hf. unfold is_u in Hf. change (2 ^ 4) with 16 in Hf.
  rewrite irq_sgi_fold by lia. rewrite sgi_hit_reaches by lia.
  rewrite (bool_decide_true (cpu ∈ _)) by (apply elem_of_seq; rewrite (wf_cpus _ _ W); lia).
  assert (bool_decide (k = Z.to_nat (field v 24 4)) = (Z.of_nat k =? Z.of_nat (Z.to_nat (field v 24 4)))) as ->.
  { apply eq_true_iff_eq. rewrite bool_decide_eq_true, Z.eqb_eq. lia. }
  by rewrite andb_true_r.
Qed.

(** ** Bitmap registers *)

Lemma irq_update_while f cpu first k m g cpu' x :
  (forall j, (k <= j < k + m)%nat -> is_Some (irq g cpu (first + j))) ->
  irq (update_while f cpu first k m g) cpu' x
  = if decide ((first + k <= x < first + k + m)%nat /\ (cpu = cpu' \/ (32 <= x)%nat))
    then f (x - first)%nat <$> irq g cpu' x else irq g cpu' x.
Proof.
  revert k g. induction m as [|m IH]; intros k g Hs; cbn [update_while].
  - rewrite decide_False by lia. done.
  - destruct (Hs k ltac:(lia)) as [i Hi]. rewrite Hi. rewrite IH.
    + rewrite irq_set_irq. destruct (decide (same_cell cpu (first + k) cpu' x)) as [[<- Hc]|Hn].
      * rewrite decide_False, decide_True by lia. by replace (first + k - first)%nat with k by lia.
      * destruct (decide ((first + S k <= x < first + S k + m)%nat /\ (cpu = cpu' \/ (32 <= x)%nat))) as [H|H].
        -- rewrite decide_True by lia. done.
        -- rewrite decide_False; [done|]. intros [H1 H2]. apply H. split; [|done].
           assert (x <> first + k)%nat; [|lia]. intros ->. apply Hn. split; [done|]. lia.
    + intros j Hj. rewrite irq_set_irq. destruct (Hs j ltac:(lia)) as [i' Hi']. rewrite Hi'.
      destruct (decide _); cbn; eauto.
Qed.

Lemma irqs_while_lookup g cpu first m j :
  (forall j, (j < m)%nat -> is_Some (irq g cpu (first + j))) -> (j < m)%nat ->
  irqs_while g cpu first m !! j = irq g cpu (first + j).
Proof.
  revert first j. induction m as [|m IH]; intros first j Hs Hj; [lia|]. cbn [irqs_while].
  destruct (Hs 0%nat ltac:(lia)) as [i Hi]. rewrite Nat.add_0_r in Hi. rewrite Hi.
  destruct j as [|j]; cbn; [by rewrite Nat.add_0_r|]. rewrite IH.
  - f_equal. lia.
  - intros j' Hj'. replace (S first + j')%nat with (first + S j')%nat by lia. apply Hs. lia.
  - lia.
Qed.

Lemma length_irqs_while g cpu first m : (length (irqs_while g cpu first m) <= m)%nat.
Proof.
  revert first. induction m as [|m IH]; intros first; cbn; [lia|].
  destruct (irq g cpu first); cbn; [|lia]. specialize (IH (S first)). lia.
Qed.

(** The bits a loop over numbered interrupts sets. *)
Lemma testbit_fold_bits (f : Irq -> bool) l acc b :
  0 <= b ->
  Z.testbit (foldl (fun v '(bit, i) => Z.lor v (Z.shiftl (b2z (f i)) (Z.of_nat bit))) acc l) b
  = Z.testbit acc b || existsb (fun e => f e.2 && (Z.of_nat e.1 =? b)) l.
Proof.
  intros Hb. revert acc. induction l as [|[k i] l IH]; intros acc; cbn [foldl existsb].
  - by rewrite orb_false_r.
  - rewrite IH, Z.lor_spec, <- orb_assoc. f_equal. f_equal. cbn [fst snd].
    destruct (f i); cbn; [|by rewrite Z.shiftl_0_l, Z.testbit_0_l].
    by rewrite Z.shiftl_1_l, Z.pow2_bits_eqb by lia.
Qed.

Lemma read_bits_testbit g cpu w op b i :
  (forall j, (j < 32)%nat -> is_Some (irq g cpu (w * 32 + j))) -> (b < 32)%nat ->
  irq g cpu (w * 32 + b) = Some i -> Z.testbit (read_bits g cpu w op) (Z.of_nat b) = bit_of op i.
Proof.
  intros Hs Hb Hi. unfold read_bits. rewrite testbit_fold_bits, Z.testbit_0_l by lia. cbn [orb].
  apply eq_true_iff_eq. rewrite existsb_exists. split.
  - intros ([k i'] & Hin%list_elem_of_In & He). cbn in He. apply andb_true_iff in He as [He Hk%Z.eqb_eq].
    apply Nat2Z.inj in Hk as ->. apply elem_of_imap_pair in Hin. rewrite irqs_while_lookup in Hin by done. congruence.
  - intros He. exists (b, i). split; [|cbn; by rewrite He, Z.eqb_refl].
    apply list_elem_of_In, elem_of_imap_pair. by rewrite irqs_while_lookup.
Qed.

(** The register that holds the bits of word [w] for [op]: of the distributor,
    or for word 0 of the redistributor of [cpu]. *)
Definition bit_base (op : BitOp) : Z :=
  match op with
  | Group => GICD_IGROUPR
  | SetEnable => GICD_ISENABLER
  | ClearEnable => GICD_ICENABLER
  | SetPending => GICD_ISPENDR
  | ClearPending => GICD_ICPENDR
  | SetActive => GICD_ISACTIVER
  | ClearActive => GICD_ICACTIVER
  end.

Definition bitmap_offset (cpu w : nat) (op : BitOp) : Z :=
  match w with
  | O => GICR_OFFSET + (Z.of_nat cpu * map.GICR_SIZE_PER_CPU + (GICR_SGI_BASE + bit_base op))
  | S _ => bit_base op + 4 * Z.of_nat w
  end.

Lemma words_upto_8 w : (1 <= w <= 8)%nat ->
  w = 1%nat \/ w = 2%nat \/ w = 3%nat \/ w = 4%nat \/ w = 5%nat \/ w = 6%nat \/ w = 7%nat \/ w = 8%nat.
Proof. lia. Qed.

Lemma dist_read_bitmap g w op : (1 <= w <= 8)%nat ->
  read (bit_base op + 4 * Z.of_nat w) 4 g = read_bits g 0 w op.
Proof.
  intros Hw. apply words_upto_8 in Hw.
  destruct Hw as [->|[->|[->|[->|[->|[->|[->| ->]]]]]]]; destruct op; reflexivity.
Qed.

Lemma dist_write_bitmap g w op v : (1 <= w <= 8)%nat ->
  write (bit_base op + 4 * Z.of_nat w) 4 v g = write_bits 0 w op (u32 v) g.
Proof.
  intros Hw. apply words_upto_8 in Hw.
  destruct Hw as [->|[->|[->|[->|[->|[->|[->| ->]]]]]]]; destruct op; reflexivity.
Qed.

(** An access at [r] of the redistributor of [cpu]. *)
Lemma redist_region n g cpu r :
  gic_wf n g -> (cpu < n)%nat -> 0 <= r < map.GICR_SIZE_PER_CPU ->
  let off := GICR_OFFSET + (Z.of_nat cpu * map.GICR_SIZE_PER_CPU + r) in
  (off <? map.GICD_SIZE) = false /\ within GICR_OFFSET (mmio_size (length (cpus g))) off = true /\
  Z.to_nat ((off - GICR_OFFSET) / map.GICR_SIZE_PER_CPU) = cpu /\ (off - GICR_OFFSET) mod map.GICR_SIZE_PER_CPU = r.
Proof.
  intros W Hc Hr off. rewrite (wf_cpus _ _ W).
  unfold off, within, mmio_size, GICR_OFFSET, map.GICR_BASE, map.GICD_BASE, map.GICD_SIZE, map.GICR_SIZE_PER_CPU in *.
  split; [lia|]. split; [lia|].
  replace (134873088 - 134217728 + (Z.of_nat cpu * 131072 + r) - (134873088 - 134217728))
    with (r + Z.of_nat cpu * 131072) by lia.
  rewrite Z.div_add, Z.mod_add, Z.div_small, Z.mod_small by lia. split; [lia|done].
Qed.

Lemma bit_base_range op : 0 <= GICR_SGI_BASE + bit_base op < map.GICR_SIZE_PER_CPU.
Proof. destruct op; by vm_compute. Qed.

Lemma redist_read_bitmap n g cpu op :
  gic_wf n g -> (cpu < n)%nat -> read (bitmap_offset cpu 0 op) 4 g = read_bits g cpu 0 op.
Proof.
  intros W Hc. cbn [bitmap_offset].
  destruct (redist_region n g cpu _ W Hc (bit_base_range op)) as (H1 & H2 & H3 & H4).
  unfold read. rewrite H1, H2. unfold redist_read. rewrite H3, H4.
  destruct (cpu_lookup n g cpu W Hc) as (c & -> & _). destruct op; reflexivity.
Qed.

Lemma redist_write_bitmap n g cpu op v :
  gic_wf n g -> (cpu < n)%nat -> write (bitmap_offset cpu 0 op) 4 v g = write_bits cpu 0 op (u32 v) g.
Proof.
  intros W Hc. cbn [bitmap_offset].
  destruct (redist_region n g cpu _ W Hc (bit_base_range op)) as (H1 & H2 & H3 & H4).
  unfold write. rewrite H1, H2. unfold redist_write. rewrite H3, H4.
  destruct (Nat.leb_spec (length (cpus g)) cpu) as [Hl|_]; [rewrite (wf_cpus _ _ W) in Hl; lia|].
  destruct op; reflexivity.
Qed.

Lemma irq_present n g cpu k : gic_wf n g -> (cpu < n)%nat -> (k < 288)%nat -> is_Some (irq g cpu k).
Proof.
  intros W Hc Hk. unfold irq, is_banked. destruct (Nat.ltb_spec k 32), (Nat.ltb_spec 0 cpu); cbn [andb].
  - assert (cpu - 1 < length (banked g))%nat as Hl by (rewrite (wf_banked _ _ W); lia).
    destruct (lookup_lt_is_Some_2 _ _ Hl) as [b Hb]. rewrite Hb. apply lookup_lt_is_Some_2.
    by destruct (Forall_lookup_1 _ _ _ _ (wf_banked_ok _ _ W) Hb) as [-> _].
  - apply lookup_lt_is_Some_2. by rewrite (wf_irqs _ _ W).
  - apply lookup_lt_is_Some_2. by rewrite (wf_irqs _ _ W).
  - apply lookup_lt_is_Some_2. by rewrite (wf_irqs _ _ W).
Qed.

(** [write_bits] on an interrupt: its bit when it is in the word and, below
    32, of the core. *)
Lemma irq_write_bits n g cpu w op v cpu' k :
  gic_wf n g -> (cpu < n)%nat -> (w <= 8)%nat ->
  irq (write_bits cpu w op (u32 v) g) cpu' k
  = (if bool_decide ((k / 32 = w)%nat /\ (w = 0%nat -> cpu = cpu'))
     then write_bit op (Z.testbit v (Z.of_nat (k mod 32))) else id) <$> irq g cpu' k.
Proof.
  intros W Hc Hw. unfold write_bits. rewrite irq_update_while.
  2: { intros j Hj. apply (irq_present n); [done|done|lia]. }
  pose proof (Nat.div_mod_eq k 32) as Hdm. pose proof (Nat.mod_upper_bound k 32 ltac:(lia)) as Hmb.
  destruct (decide _) as [[Hr Hcpu]|Hn].
  - assert (k / 32 = w)%nat as Hd by lia. rewrite bool_decide_true by (split; [done|lia]).
    replace (k - w * 32)%nat with (k mod 32)%nat by lia.
    rewrite Z.shiftl_1_l, test_mask_bit by lia. f_equal. f_equal. unfold u32.
    rewrite Z.testbit_mod_pow2 by lia. destruct (Z.ltb_spec (Z.of_nat (k mod 32)) 32); [done|lia].
  - rewrite bool_decide_false; [by rewrite option_fmap_id|]. intros [Hd Hcpu]. apply Hn. split; [lia|].
    destruct w; [left; auto|right; lia].
Qed.

(** For each of the seven bitmap registers of the distributor (words 1 to
    8) and of each redistributor (word 0), a 32-bit read gives in bit [b] the
    group, enable, pending or active state of interrupt [32 * w + b]; a 32-bit
    write sets the group of the interrupts of the word, or sets or clears the
    state of exactly those whose bit is 1, and changes no other interrupt: a
    redistributor reaches only the private interrupts of its own core. *)
Theorem bitmap_registers (n : nat) (g : Gic) (cpu w : nat) (op : BitOp) (v : Z) :
  gic_wf n g -> (cpu < n)%nat -> (w <= 8)%nat ->
  (forall b i, (b < 32)%nat -> irq g cpu (w * 32 + b) = Some i ->
     Z.testbit (read (bitmap_offset cpu w op) 4 g) (Z.of_nat b) = bit_of op i) /\
  (forall cpu' k, irq (write (bitmap_offset cpu w op) 4 v g) cpu' k
     = (if bool_decide ((k / 32 = w)%nat /\ (w = 0%nat -> cpu = cpu'))
        then write_bit op (Z.testbit v (Z.of_nat (k mod 32))) else id) <$> irq g cpu' k).
Proof.
  intros W Hc Hw.
  assert (forall c, (c < n)%nat -> forall j, (j < 32)%nat -> is_Some (irq g c (w * 32 + j))) as Hp.
  { intros c' Hc' j Hj. apply (irq_present n); [done|done|lia]. }
  destruct w as [|w].
  - rewrite (redist_read_bitmap n), (redist_write_bitmap n) by done. split.
    + intros b i Hb Hi. apply read_bits_testbit; auto.
    + intros. by apply (irq_write_bits n).
  - change (bitmap_offset cpu (S w) op) with (bit_base op + 4 * Z.of_nat (S w)).
    rewrite dist_read_bitmap, dist_write_bitmap by lia. pose proof (wf_cores _ _ W). split.
    + intros b i Hb Hi. apply read_bits_testbit; [apply Hp; lia|done|].
      rewrite <- Hi. unfold irq, is_banked. destruct (Nat.ltb_spec (S w * 32 + b) 32); [lia|done].
    + intros cpu' k. rewrite (irq_write_bits n) by (done || lia). f_equal.
      rewrite (bool_decide_ext _ ((k / 32)%nat = S w /\ (S w = 0%nat -> cpu = cpu'))); [done|].
      split; intros [? _]; split; (done || lia).
Qed.

(** The priority registers of a redistributor are not checked for alignment:
    an access of four bytes at the last two reaches the priorities of the
    first shared interrupts. *)
Lemma redist_priority_straddles n g cpu v :
  gic_wf n g -> (cpu < n)%nat ->
  write (GICR_OFFSET + (Z.of_nat cpu * map.GICR_SIZE_PER_CPU + (GICR_SGI_BASE + GICR_IPRIORITYR + 30))) 4 v g
  = write_prio cpu 30 4 v g /\
  forall i, irq g 0 32 = Some i ->
    irq (write_prio cpu 30 4 v g) 0 32 = Some (i <| priority := u8 (Z.shiftr v 16) |>).
Proof.
  intros W Hc. split.
  - destruct (redist_region n g cpu (GICR_SGI_BASE + GICR_IPRIORITYR + 30) W Hc) as (H1 & H2 & H3 & H4); [by vm_compute|].
    unfold write. rewrite H1, H2. unfold redist_write. rewrite H3, H4.
    destruct (Nat.leb_spec (length (cpus g)) cpu) as [Hl|_]; [rewrite (wf_cpus _ _ W) in Hl; lia|]. reflexivity.
  - intros i Hi. unfold write_prio. change (seq 0 (Z.to_nat 4)) with [0; 1; 2; 3]%nat. cbn [foldl].
    rewrite !irq_set_irq.
    rewrite (decide_False (P := same_cell cpu (30 + 0) 0 32)), (decide_False (P := same_cell cpu (30 + 1) 0 32)),
      (decide_False (P := same_cell cpu (30 + 3) 0 32)), (decide_True (P := same_cell cpu (30 + 2) 0 32))
      by (unfold same_cell; lia).
    rewrite Hi. reflexivity.
Qed.
