(* ===== verification/GicLife.v ===== *)
(** * The life of an interrupt (theorems about Gic)

    An acknowledged interrupt is active until it ends and the running priority
    masks its peers; ending it restores the CPU interface; and a handler that
    acknowledges and ends interrupts until there are none serves all of them,
    in the order of their priorities. *)

From Stdlib Require Import ZArith Lia Bool Sorting.Sorted.
From stdpp Require Import base list numbers strings.
From S2P Require Import Prelude SnapWire PlatBus Gic GicWf.
Local Open Scope Z_scope.
Local Open Scope vetro_scope.
Import gic.

(** ** Writes to one interrupt compose *)

Lemma alter_compose_list {A} (f h : A -> A) k (l : list A) : alter f k (alter h k l) = alter (fun x => f (h x)) k l.
Proof.
  apply list_eq. intros j. destruct (decide (j = k)) as [->|Hne].
  - rewrite !list_lookup_alter_eq. by destruct (l !! k).
  - by rewrite !list_lookup_alter_ne.
Qed.

Lemma alter_ext_list {A} (f h : A -> A) k (l : list A) :
  (forall x, l !! k = Some x -> f x = h x) -> alter f k l = alter h k l.
Proof.
  intros He. apply list_eq. intros j. destruct (decide (j = k)) as [->|Hne].
  - rewrite !list_lookup_alter_eq. destruct (l !! k) as [x|] eqn:E; [|done]. cbn. by rewrite He.
  - by rewrite !list_lookup_alter_ne.
Qed.

Lemma set_irq_compose cpu k f h g : set_irq cpu k f (set_irq cpu k h g) = set_irq cpu k (fun i => f (h i)) g.
Proof.
  unfold set_irq, update. destruct (is_banked cpu k); cbn; f_equal.
  - rewrite alter_compose_list. apply alter_ext_list. intros b _. apply alter_compose_list.
  - apply alter_compose_list.
Qed.

Lemma set_irq_ext cpu k f h g i : irq g cpu k = Some i -> f i = h i -> set_irq cpu k f g = set_irq cpu k h g.
Proof.
  unfold set_irq, update, irq. intros Hi He. destruct (is_banked cpu k); f_equal.
  - apply alter_ext_list. intros b Hb. rewrite Hb in Hi. apply alter_ext_list. congruence.
  - apply alter_ext_list. congruence.
Qed.

Lemma set_irq_cpus_comm cpu k f h g :
  set_irq cpu k f (g <| cpus ::= h |>) = (set_irq cpu k f g) <| cpus ::= h |>.
Proof. unfold set_irq, update. by destruct (is_banked cpu k). Qed.

Lemma pop_snoc {A} (a : list A) x : pop (a ++ [x]) = a.
Proof. unfold pop. rewrite length_app. apply take_app_length'. cbn. lia. Qed.

Lemma candidate_bound n g cpu k i : gic_wf n g -> (cpu < n)%nat -> candidate g cpu k i -> (k < 288)%nat.
Proof.
  intros W Hc Hk. apply (entry_candidate n) in Hk as [Hin _]; [|done..].
  assert (k ∈ (entries g cpu).*1) as Hk by (apply list_elem_of_fmap; by exists (k, i)).
  unfold entries in Hk. rewrite fmap_app, fmap_drop, !keys_imap_pair in Hk.
  destruct (private_length n g cpu W Hc) as (p & _ & Hp & Hl). rewrite <- Hp, Hl, (wf_irqs _ _ W) in Hk.
  change (seq 0 32 ++ drop 32 (seq 0 NUM_INTIDS)) with (seq 0 288) in Hk. apply elem_of_seq in Hk. lia.
Qed.

(** ** Masking by group priority is monotone *)

Lemma group_prio_mono c p q : cpuif_ok c -> is_u 8 p -> is_u 8 q -> p <= q -> group_prio c p <= group_prio c q.
Proof.
  intros (_ & Hb & _) Hp Hq Hle. change MIN_BPR1 with 3 in Hb.
  assert (forall x, is_u 8 x -> group_prio c x = x / 2 ^ bpr1 c * 2 ^ bpr1 c) as Hg.
  { intros x Hx. rewrite <- Z.shiftr_div_pow2, <- Z.shiftl_mul_pow2 by lia. unfold group_prio, u8.
    apply Z.bits_inj'. intros i Hi. rewrite Z.land_spec, Z.testbit_mod_pow2, !Z.shiftl_spec by lia.
    destruct (Z.ltb_spec i 8); cbn [andb].
    - change 0xFF with (Z.ones 8). destruct (Z.lt_ge_cases i (bpr1 c)).
      + by rewrite !(Z.testbit_neg_r _ (i - bpr1 c)), andb_false_r by lia.
      + rewrite Z.testbit_ones_nonneg, Z.shiftr_spec by lia. destruct (Z.ltb_spec (i - bpr1 c) 8); [|lia].
        rewrite andb_true_r. f_equal. lia.
    - rewrite Z.shiftr_spec by lia. replace (i - bpr1 c + bpr1 c) with i by lia.
      by rewrite (testbit_high 8 x i). }
  rewrite !Hg by done. apply Z.mul_le_mono_nonneg_r; [lia|]. apply Z.div_le_mono; lia.
Qed.

Lemma passes_mono c p q :
  cpuif_ok c -> is_u 8 p -> is_u 8 q -> p <= q -> passes c q = true -> passes c p = true.
Proof.
  intros Hok Hp Hq Hle. pose proof (group_prio_mono c p q Hok Hp Hq Hle). unfold passes.
  rewrite !andb_true_iff, !Z.ltb_lt. intros [[Hg Hm] Hr]. split; [split; [done|lia]|lia].
Qed.

Lemma candidate_prio n g cpu k i : gic_wf n g -> candidate g cpu k i -> is_u 8 (priority i).
Proof.
  intros W (Hi & _). unfold irq in Hi. destruct (is_banked cpu k).
  - destruct (banked g !! _) as [b|] eqn:Eb; [|discriminate].
    destruct (Forall_lookup_1 _ _ _ _ (wf_banked_ok _ _ W) Eb) as [_ Hb]. by eapply Hb.
  - by eapply (wf_irqs_ok _ _ W).
Qed.

(** ** Acknowledge, end *)

Definition clear_pending (i : Irq) : Irq := i <| pending := false |>.

Lemma candidate_inactive g cpu k i : candidate g cpu k i -> active i = false.
Proof. intros (_ & Hs & _). unfold signals in Hs. rewrite !andb_true_iff in Hs. by destruct (active i), Hs as [[_ ?] _]. Qed.

(** The acknowledgement and the end of the interrupt acknowledged, without
    EOImode: the latch is clear and nothing else has changed. *)
Lemma ack_end n g k i c :
  gic_wf n g -> deliverable g (cur g) = Some (Some (Z.of_nat k, priority i)) -> candidate g (cur g) k i ->
  cpus g !! cur g = Some c -> eoimode c = false ->
  exists g1, read_iar1 g = Some (Z.of_nat k, g1) /\
    write_eoir1 (Z.of_nat k) g1 = Some (set_irq (cur g) k clear_pending g).
Proof.
  intros W Hd Hk Hc Hm. pose proof (candidate_bound n g _ k i W (wf_cur _ _ W) Hk) as Hlt.
  destruct (read_iar1_some n g _ _ W Hd) as (c' & Hc' & Hr). rewrite Hc in Hc'. injection Hc' as <-.
  rewrite Nat2Z.id in Hr. eexists. split; [exact Hr|].
  set (g0 := set_irq (cur g) k acked g).
  assert (cpus g0 = cpus g) as Hg0 by apply set_irq_cpus.
  assert (cur g0 = cur g) as Hcur by apply set_irq_cur.
  assert (Z.land (Z.of_nat k) 0xFFFFFF = Z.of_nat k) as Hl.
  { change 0xFFFFFF with (2 ^ 24 - 1). rewrite land_ones_mod by lia. apply Z.mod_small. lia. }
  unfold write_eoir1. rewrite Hl. destruct (Z.leb_spec 1020 (Z.of_nat k)); [lia|]. cbn [andb].
  set (push := fun c : CpuIf => c <| active_prio ::= fun a => a ++ [(Z.of_nat k, group_prio c (priority i))] |>).
  change (cur (g0 <| cpus ::= alter push (cur g) |>)) with (cur g0). rewrite Hcur.
  change (cpus (g0 <| cpus ::= alter push (cur g) |>)) with (alter push (cur g) (cpus g0)).
  rewrite Hg0, list_lookup_alter_eq, Hc. cbn [fmap option_fmap option_map mbind option_bind].
  unfold set_cpu. change (cpus (g0 <| cpus ::= alter push (cur g) |>)) with (alter push (cur g) (cpus g0)).
  rewrite length_alter, Hg0, (wf_cpus _ _ W). case_guard as Hg; [|destruct Hg; apply (wf_cur _ _ W)].
  cbn [mbind option_bind mret option_ret].
  change (eoimode (push c)) with (eoimode c). rewrite Hm. f_equal.
  assert (forall l : list CpuIf, alter (fun c : CpuIf => c <| active_prio ::= pop |>) (cur g) (alter push (cur g) l) = l) as Hpop.
  { intros l. rewrite alter_compose_list. apply list_eq. intros j.
    destruct (decide (j = cur g)) as [->|Hne]; [|by rewrite list_lookup_alter_ne].
    rewrite list_lookup_alter_eq. destruct (l !! cur g) as [x|]; [|done]. cbn [fmap option_fmap option_map]. f_equal.
    unfold push, update. cbn [active_prio]. rewrite pop_snoc. by destruct x. }
  unfold deactivate. rewrite Nat2Z.id.
  match goal with |- set_irq _ _ _ ?gg = _ => assert (gg = g0) as -> end.
  { destruct g0 as [a b d cs cu] eqn:Eg. unfold update. cbn in *. f_equal. apply Hpop. }
  rewrite Hcur. unfold g0. rewrite set_irq_compose. apply (set_irq_ext _ _ _ _ _ i); [apply Hk|].
  unfold acked, clear_pending, update. cbn. rewrite <- (candidate_inactive _ _ _ _ Hk). by destruct i.
Qed.

(** When ICC_IAR1_EL1 returns an interrupt, it was a candidate; it is now
    active with its latch clear; the running priority is its group priority,
    strictly below the one before; right after the acknowledge it is not
    signalled again, and only an interrupt of a strictly lower group priority
    value is; and without EOImode, writing its INTID to ICC_EOIR1_EL1 there
    gives back the state before, the latch apart. *)
Theorem acknowledge_then_end (n : nat) (g : Gic) (id : Z) (g1 : Gic) :
  gic_wf n g -> read_iar1 g = Some (id, g1) -> id <> INTID_SPURIOUS ->
  exists k i c c1, id = Z.of_nat k /\ candidate g (cur g) k i /\
    cpus g !! cur g = Some c /\ cpus g1 !! cur g = Some c1 /\
    irq g1 (cur g) k = Some (acked i) /\
    running c1 = group_prio c (priority i) /\ running c1 < running c /\
    (forall id' p', deliverable g1 (cur g) = Some (Some (id', p')) ->
       id' <> id /\ group_prio c p' < group_prio c (priority i)) /\
    (eoimode c = false -> write_eoir1 id g1 = Some (set_irq (cur g) k clear_pending g)).
Proof.
  intros W Hr Hid. pose proof (wf_cur _ _ W) as Hcur.
  destruct (read_iar1_wf n g W) as (id0 & g0 & Hr0 & W1). rewrite Hr in Hr0. injection Hr0 as <- <-.
  destruct (deliverable_some n g _ W Hcur) as [[[id0 p]|] Hd];
    [|rewrite (read_iar1_none g Hd) in Hr; congruence].
  destruct (deliverable_inv n g _ id0 p W Hcur Hd) as (_ & (k & i & Hk & -> & ->) & (c & Hc & Hok & Hp)).
  destruct (read_iar1_some n g _ _ W Hd) as (c' & Hc' & Hr'). rewrite Hc in Hc'. injection Hc' as <-.
  rewrite Hr in Hr'. injection Hr' as -> Hg1. rewrite Nat2Z.id in Hg1.
  assert (cpus g1 !! cur g = Some (c <| active_prio ::= fun a => a ++ [(Z.of_nat k, group_prio c (priority i))] |>)) as Hc1.
  { rewrite Hg1. unfold update. cbn [cpus]. by rewrite set_irq_cpus, list_lookup_alter_eq, Hc. }
  assert (irq g1 (cur g) k = Some (acked i)) as Hi1.
  { transitivity (irq (set_irq (cur g) k acked g) (cur g) k); [by rewrite Hg1|].
    rewrite irq_set_irq, decide_True by (split; [done|by left]). by rewrite (proj1 Hk). }
  eexists k, i, c, _. split; [done|]. split; [exact Hk|]. split; [exact Hc|]. split; [exact Hc1|].
  assert (running (c <| active_prio ::= fun a => a ++ [(Z.of_nat k, group_prio c (priority i))] |>)
          = group_prio c (priority i)) as Hrun.
  { unfold running, update. cbn [active_prio]. by rewrite last_snoc. }
  unfold passes in Hp. rewrite !andb_true_iff, !Z.ltb_lt in Hp.
  split; [exact Hi1|]. split; [exact Hrun|]. split; [rewrite Hrun; apply Hp|]. split.
  - intros id' p' Hd'.
    assert (cur g1 = cur g) as Hcur1 by (rewrite Hg1; apply set_irq_cur).
    destruct (deliverable_inv n g1 _ id' p' W1 Hcur Hd') as (_ & (k' & i' & Hk' & -> & ->) & (c' & Hc' & _ & Hp')).
    rewrite Hc1 in Hc'. injection Hc' as <-. unfold passes in Hp'. rewrite !andb_true_iff, !Z.ltb_lt, Hrun in Hp'.
    split; [|apply Hp']. intros ->%Nat2Z.inj.
    pose proof (candidate_inactive _ _ _ _ Hk') as Ha. destruct Hk' as [Hk' _]. rewrite Hi1 in Hk'.
    injection Hk' as <-. discriminate.
  - intros Hm. destruct (ack_end n g k i c W Hd Hk Hc Hm) as (g1' & Hr1 & He). rewrite Hr in Hr1.
    injection Hr1 as <-. exact He.
Qed.

(** ** A handler that serves all *)

(** Acknowledge and end interrupts until the acknowledgement is spurious. *)
Fixpoint serve_all (fuel : nat) (g : Gic) : option (list Z * Gic) :=
  match fuel with
  | O => Some ([], g)
  | S fuel =>
      r ← read_iar1 g;
      if r.1 =? INTID_SPURIOUS then Some ([], r.2) else
      g1 ← write_eoir1 r.1 r.2;
      s ← serve_all fuel g1;
      Some (r.1 :: s.1, s.2)
  end.

(** No interrupt of the core is asserted by its line: all are latched. *)
Definition latched (g : Gic) (cpu : nat) : Prop :=
  forall k i, irq g cpu k = Some i -> edge i = true \/ level i = false.

(** The interrupts that can be delivered to the core. *)
Definition servable (g : Gic) (c : CpuIf) (k : nat) (i : Irq) : Prop :=
  candidate g (cur g) k i /\ passes c (priority i) = true.

(** [x] is served before [y]: lower priority value, then lower INTID. *)
Definition served_before (g : Gic) (c : CpuIf) (x y : Z) : Prop :=
  exists k i k' i', x = Z.of_nat k /\ y = Z.of_nat k' /\ servable g c k i /\ servable g c k' i' /\
    (priority i < priority i' \/ (priority i = priority i' /\ (k < k')%nat)).

Lemma irq_clear_pending cpu k g k' :
  irq (set_irq cpu k clear_pending g) cpu k' = (if decide (k = k') then clear_pending else id) <$> irq g cpu k'.
Proof.
  rewrite irq_set_irq. destruct (decide (k = k')) as [->|Hne].
  - rewrite decide_True; [done|]. split; [done|by left].
  - rewrite decide_False by (intros [? _]; done). by destruct (irq g cpu k').
Qed.

Lemma latched_clear g cpu k : latched g cpu -> latched (set_irq cpu k clear_pending g) cpu.
Proof.
  intros HL k' i' Hi. rewrite irq_clear_pending in Hi. apply fmap_Some in Hi as (i & Hi & ->).
  destruct (decide (k = k')); apply (HL k' i Hi).
Qed.

Lemma candidate_clear g cpu k k' i' :
  latched g cpu ->
  candidate (set_irq cpu k clear_pending g) cpu k' i' <-> k' <> k /\ candidate g cpu k' i'.
Proof.
  intros HL. unfold candidate. rewrite irq_clear_pending. destruct (decide (k = k')) as [->|Hne].
  - split; [|by intros [? _]]. intros (Hi & Hs & _). apply fmap_Some in Hi as (i & Hi & ->). exfalso.
    unfold signals, is_pending, clear_pending, update in Hs. cbn in Hs.
    destruct (HL k' i Hi) as [He|He]; rewrite He in Hs; rewrite ?andb_false_r in Hs; cbn in Hs;
      rewrite ?andb_false_r in Hs; discriminate.
  - assert (id <$> irq g cpu k' = irq g cpu k') as -> by (by destruct (irq g cpu k')).
    split; [|by intros [_ ?]]. intros H. split; [congruence|exact H].
Qed.

Lemma clear_pending_wf n cpu k g : gic_wf n g -> gic_wf n (set_irq cpu k clear_pending g).
Proof.
  intros W. apply set_irq_wf; [done|]. intros i Hi. apply (irq_ok_same_edge _ i); [done|done|apply Hi..].
Qed.

(** With nothing delivered, no candidate passes. *)
Lemma not_deliverable n g c :
  gic_wf n g -> cpus g !! cur g = Some c -> deliverable g (cur g) = Some None ->
  test_mask (gicd_ctlr g) GICD_CTLR_ENABLE_GRP1 = true -> forall k i, ~ servable g c k i.
Proof.
  intros W Hc Hd He k i [Hk Hp]. pose proof (wf_cur _ _ W) as Hcur.
  destruct (highest_pending_best n g _ W Hcur He) as ([[id p]|] & Hr & HB); [|by eapply HB].
  destruct HB as (k0 & i0 & Hk0 & -> & -> & Hmin).
  unfold deliverable in Hd. rewrite Hr in Hd. cbn [mbind option_bind] in Hd. rewrite Hc in Hd.
  cbn [mbind option_bind] in Hd. fold (passes c (priority i0)) in Hd.
  destruct (cpu_lookup n g _ W Hcur) as (c' & Hc' & Hok). rewrite Hc in Hc'. injection Hc' as <-.
  rewrite (passes_mono c (priority i0) (priority i) Hok) in Hd; [discriminate| | | |done].
  - by eapply candidate_prio.
  - by eapply candidate_prio.
  - destruct (Hmin k i Hk) as [?|[? _]]; lia.
Qed.

(** The interrupt delivered is the first to be served. *)
Lemma deliverable_first n g c id p :
  gic_wf n g -> cpus g !! cur g = Some c -> test_mask (gicd_ctlr g) GICD_CTLR_ENABLE_GRP1 = true ->
  deliverable g (cur g) = Some (Some (id, p)) ->
  exists k i, id = Z.of_nat k /\ p = priority i /\ servable g c k i /\
    forall k' i', servable g c k' i' -> k' <> k -> served_before g c id (Z.of_nat k').
Proof.
  intros W Hc He Hd. pose proof (wf_cur _ _ W) as Hcur.
  destruct (deliverable_inv n g _ id p W Hcur Hd) as (Hh & _ & (c' & Hc' & _ & Hp)).
  rewrite Hc in Hc'. injection Hc' as <-.
  destruct (highest_pending_best n g _ W Hcur He) as (r & Hr & HB). rewrite Hh in Hr. injection Hr as <-.
  destruct HB as (k & i & Hk & -> & -> & Hmin). exists k, i.
  split; [done|]. split; [done|]. split; [by split|]. intros k' i' Hs Hne.
  exists k, i, k', i'. split; [done|]. split; [done|]. split; [by split|]. split; [done|].
  destruct (Hmin k' i' (proj1 Hs)) as [?|[? ?]]; [by left|right; split; [done|lia]].
Qed.

Lemma strongly_sorted_impl {A} (R S : A -> A -> Prop) l :
  (forall x y, R x y -> S x y) -> StronglySorted R l -> StronglySorted S l.
Proof.
  intros H. induction 1 as [|x l Hs IH Hx]; constructor; [done|]. eapply Forall_impl; [exact Hx|auto].
Qed.

Lemma serve_all_from n c fuel g todo :
  gic_wf n g -> cpus g !! cur g = Some c -> eoimode c = false -> latched g (cur g) ->
  test_mask (gicd_ctlr g) GICD_CTLR_ENABLE_GRP1 = true ->
  (forall k i, candidate g (cur g) k i -> k ∈ todo) -> (length todo < fuel)%nat ->
  exists ids g', serve_all fuel g = Some (ids, g') /\ deliverable g' (cur g) = Some None /\
    (forall x, x ∈ ids <-> exists k i, x = Z.of_nat k /\ servable g c k i) /\
    StronglySorted (served_before g c) ids.
Proof.
  revert g todo. induction fuel as [|fuel IH]; intros g todo W Hc Hm HL He Htodo Hlen; [lia|].
  pose proof (wf_cur _ _ W) as Hcur. cbn [serve_all].
  destruct (deliverable_some n g _ W Hcur) as [[[id p]|] Hd].
  - destruct (deliverable_first n g c id p W Hc He Hd) as (k & i & -> & -> & Hs & Hfirst).
    pose proof (candidate_bound n g _ k i W Hcur (proj1 Hs)) as Hk.
    destruct (ack_end n g k i c W Hd (proj1 Hs) Hc Hm) as (g1 & -> & Hend). cbn [mbind option_bind fst snd].
    destruct (Z.eqb_spec (Z.of_nat k) INTID_SPURIOUS) as [Hsp|_]; [unfold INTID_SPURIOUS in Hsp; lia|].
    rewrite Hend. cbn [mbind option_bind]. set (g2 := set_irq (cur g) k clear_pending g).
    assert (cur g2 = cur g) as Hcur2 by apply set_irq_cur.
    assert (forall k' i', servable g2 c k' i' <-> k' <> k /\ servable g c k' i') as Hsv.
    { intros k' i'. unfold servable. rewrite Hcur2. unfold g2. rewrite candidate_clear by done. tauto. }
    destruct (IH g2 (filter (fun x => x <> k) todo)) as (ids & g' & -> & Hd' & Hin & Hsort).
    + by apply clear_pending_wf.
    + rewrite Hcur2. unfold g2. by rewrite set_irq_cpus.
    + done.
    + rewrite Hcur2. by apply latched_clear.
    + unfold g2. by rewrite set_irq_ctlr.
    + intros k' i' Hk'. rewrite Hcur2 in Hk'. apply candidate_clear in Hk' as [Hne Hk']; [|done].
      apply list_elem_of_filter. split; [done|]. by eapply Htodo.
    + assert (length (filter (fun x => x <> k) todo) < length todo)%nat; [|lia].
      apply Nat2Z.inj_lt, Nat2Z.inj_lt, (length_filter_lt _ _ k); [by apply (Htodo k i), Hs|by intros []].
    + cbn [mbind option_bind fst snd]. eexists _, g'. split; [reflexivity|]. split; [by rewrite <- Hcur2|]. split.
      * intros x. rewrite elem_of_cons, Hin. split.
        -- intros [->|(k' & i' & -> & Hs')]; [by exists k, i|]. apply Hsv in Hs' as [_ Hs']. by exists k', i'.
        -- intros (k' & i' & -> & Hs'). destruct (decide (k' = k)) as [->|Hne]; [by left|]. right.
           exists k', i'. split; [done|]. by apply Hsv.
      * constructor.
        -- eapply strongly_sorted_impl; [|exact Hsort].
           intros x y (a & ia & b & ib & -> & -> & Ha & Hb & Hlt). apply Hsv in Ha as [_ Ha]. apply Hsv in Hb as [_ Hb].
           exists a, ia, b, ib. done.
        -- apply Forall_forall. intros x (k' & i' & -> & Hs')%Hin. apply Hsv in Hs' as [Hne Hs']. by eapply Hfirst.
  - rewrite (read_iar1_none g Hd). cbn [mbind option_bind fst snd]. eexists [], g. split; [reflexivity|].
    split; [done|]. split; [|constructor]. intros x. split; [by intros ?%not_elem_of_nil|].
    intros (k & i & _ & Hs). exfalso. by eapply not_deliverable.
Qed.

(** C10: a handler that acknowledges and ends interrupts until it reads 1023
    terminates: from a state where every interrupt of the core is latched, with
    group 1 enabled and no EOImode, within 289 turns nothing is signalled to
    the core any more, every interrupt that could be delivered to it has been
    served, no other one has, and they have been served in the order of their
    priorities and then of their INTIDs. *)
Theorem handler_serves_all (n : nat) (g : Gic) (c : CpuIf) :
  gic_wf n g -> cpus g !! cur g = Some c -> eoimode c = false -> latched g (cur g) ->
  test_mask (gicd_ctlr g) GICD_CTLR_ENABLE_GRP1 = true ->
  exists ids g', serve_all 289 g = Some (ids, g') /\ deliverable g' (cur g) = Some None /\
    (forall x, x ∈ ids <-> exists k i, x = Z.of_nat k /\ servable g c k i) /\
    StronglySorted (served_before g c) ids.
Proof.
  intros W Hc Hm HL He. apply (serve_all_from n c 289 g (seq 0 288)); try done.
  - intros k i Hk. apply elem_of_seq. pose proof (candidate_bound n g _ k i W (wf_cur _ _ W) Hk). lia.
  - rewrite length_seq. lia.
Qed.
