(* ===== verification/GicSnap.v ===== *)
(** * The snapshot of the interrupt controller (theorems about Gic)

    A controller restored from what another one saved is in the state of the
    one that saved it. *)

From Stdlib Require Import ZArith Lia Bool Sorting.Sorted.
From stdpp Require Import base list numbers strings.
From S2P Require Import Prelude SnapWire SnapCodec PlatBus Gic GicWf GicProof GicLife.
Local Open Scope Z_scope.
Local Open Scope vetro_scope.
Import gic.

(** ** The parts *)

Definition enc_irq (i : Irq) : list Z := [irq_flags i] ++ [priority i] ++ to_le 8 (router i).

Lemma irq_flags_decode i :
  is_u 8 (irq_flags i) /\ Z.shiftr (irq_flags i) 6 = 0 /\
  test_mask (irq_flags i) 1 = enabled i /\ test_mask (irq_flags i) 2 = pending i /\
  test_mask (irq_flags i) 4 = level i /\ test_mask (irq_flags i) 8 = active i /\
  test_mask (irq_flags i) 16 = group1 i /\ test_mask (irq_flags i) 32 = edge i.
Proof. destruct i as [[] [] [] [] [] [] p r]; by vm_compute. Qed.

Lemma writes_irq i : writes (save_irq i) (enc_irq i).
Proof.
  unfold save_irq, enc_irq. rewrite app_assoc.
  apply (writes_then (fun w => w_u8 (priority i) (w_u8 (irq_flags i) w)) (w_u64 (router i))); [|apply writes_raw].
  apply (writes_then (w_u8 (irq_flags i)) (w_u8 (priority i))); apply writes_raw.
Qed.

Lemma reads_irq k i : irq_ok k i -> reads restore_irq (enc_irq i) i.
Proof.
  intros (Hp & Hr & _). destruct (irq_flags_decode i) as (Hf & Hs & H1 & H2 & H3 & H4 & H5 & H6).
  unfold restore_irq, enc_irq. eapply reads_bind; [by apply (codec_reads _ _ _ _ codec_u8)|].
  rewrite Hs. cbn [Z.eqb negb]. eapply reads_bind; [by apply (codec_reads _ _ _ _ codec_u8)|].
  rewrite H1, H2, H3, H4, H5, H6.
  pose proof (reads_map r_u64 (MkIrq (enabled i) (pending i) (level i) (active i) (group1 i) (edge i) (priority i)) _ _
    (codec_reads _ _ _ _ codec_u64 (router i) Hr)) as H.
  destruct i. exact H.
Qed.

Definition enc_active (e : Z * Z) : list Z := to_le 4 e.1 ++ [e.2].

Lemma codec_active : codec (fun e => is_u 32 e.1 /\ is_u 8 e.2) save_active (i ← r_u32; q ← r_u8; mret (i, q)) enc_active.
Proof.
  split.
  - intros e. apply (writes_then (w_u32 e.1) (w_u8 e.2)); apply writes_raw.
  - intros [i q] [Hi Hq]. eapply reads_bind; [by apply (codec_reads _ _ _ _ codec_u32)|].
    apply (reads_map r_u8 (pair i)). by apply (codec_reads _ _ _ _ codec_u8).
  - eapply (exact_bind _ _ _ _ (fun _ e => [e.2]) (fun i e => e.1 = i /\ is_u 8 e.2)).
    + apply (codec_exact _ _ _ _ codec_u32).
    + intros i Hi. eapply (exact_bind _ _ _ _ (fun _ _ => []) (fun q e => e = (i, q))).
      * apply (codec_exact _ _ _ _ codec_u8).
      * intros q _. by apply exact_ret.
      * intros q e Hq ->. done.
    + intros i [a q] Hi [Ha Hq]. cbn in *. subst. done.
Qed.

Definition enc_cpuif (with_sleep : bool) (c : CpuIf) : list Z :=
  (if with_sleep then [b2z (processor_sleep c)] else []) ++ [pmr c] ++ [bpr1 c] ++ [b2z (igrpen1 c)] ++ [b2z (eoimode c)]
  ++ to_le 8 (Z.of_nat (length (active_prio c))) ++ concat (map enc_active (active_prio c)).

Lemma codec_stack :
  codec (fun l => Forall (fun e : Z * Z => is_u 32 e.1 /\ is_u 8 e.2) l /\ is_u 64 (Z.of_nat (length l)))
    (fun l => w_seq l save_active) (r_seq 5 (i ← r_u32; q ← r_u8; mret (i, q)))
    (fun l => to_le 8 (Z.of_nat (length l)) ++ concat (map enc_active l)).
Proof.
  apply codec_seq; [apply codec_active|]. intros e _. unfold enc_active. rewrite length_app, length_to_le. cbn. lia.
Qed.

Lemma writes_cpuif s c : writes (save_cpuif s c) (enc_cpuif s c).
Proof.
  unfold save_cpuif, enc_cpuif.
  apply (writes_then (fun w => if s then w_bool (processor_sleep c) w else w)
    (fun w => w_seq (active_prio c) save_active (w_bool (eoimode c) (w_bool (igrpen1 c) (w_u8 (bpr1 c) (w_u8 (pmr c) w)))))).
  - destruct s; [apply writes_raw|]. intros w _. destruct w. unfold w_raw, update. cbn. by rewrite app_nil_r.
  - apply (writes_then (w_u8 (pmr c)) (fun w => w_seq (active_prio c) save_active (w_bool (eoimode c) (w_bool (igrpen1 c) (w_u8 (bpr1 c) w)))));
      [apply writes_raw|].
    apply (writes_then (w_u8 (bpr1 c)) (fun w => w_seq (active_prio c) save_active (w_bool (eoimode c) (w_bool (igrpen1 c) w))));
      [apply writes_raw|].
    apply (writes_then (w_bool (igrpen1 c)) (fun w => w_seq (active_prio c) save_active (w_bool (eoimode c) w)));
      [apply writes_raw|].
    apply (writes_then (w_bool (eoimode c)) (w_seq (active_prio c) save_active)); [apply writes_raw|].
    apply (codec_writes _ _ _ _ codec_stack).
Qed.

Lemma reads_cpuif s sleep c :
  cpuif_ok c -> (s = false -> sleep = processor_sleep c) -> reads (restore_cpuif s sleep) (enc_cpuif s c) c.
Proof.
  intros (Hp & Hb & Hst) Hs. unfold restore_cpuif, enc_cpuif.
  eapply (reads_bind _ _ _ _ (processor_sleep c)).
  { destruct s; [by apply (codec_reads _ _ _ _ codec_bool)|]. rewrite Hs by done. apply reads_ret. }
  eapply reads_bind; [by apply (codec_reads _ _ _ _ codec_u8)|].
  eapply reads_bind; [apply (codec_reads _ _ _ _ codec_u8); change MIN_BPR1 with 3 in Hb; unfold is_u; lia|].
  eapply reads_bind; [by apply (codec_reads _ _ _ _ codec_bool)|].
  eapply reads_bind; [by apply (codec_reads _ _ _ _ codec_bool)|].
  assert (reads (r_seq 5 (i ← r_u32; q ← r_u8; mret (i, q)))
    (to_le 8 (Z.of_nat (length (active_prio c))) ++ concat (map enc_active (active_prio c))) (active_prio c)) as Ha.
  { apply (codec_reads _ _ _ _ codec_stack). split.
    - destruct Hst as [Hf _]. eapply Forall_impl; [exact Hf|]. intros e (H1 & H2 & _). done.
    - pose proof (stack_depth _ Hst). unfold is_u. lia. }
  apply (reads_map _ (MkCpuIf (processor_sleep c) (pmr c) (bpr1 c) (igrpen1 c) (eoimode c))) in Ha.
  destruct c. exact Ha.
Qed.

(** ** The whole *)

Definition enc_core (e : list Irq * CpuIf) : list Z := concat (map enc_irq e.1) ++ enc_cpuif true e.2.

Definition enc_gic (g : Gic) (c0 : CpuIf) : list Z :=
  to_le 8 (Z.of_nat (length (irqs g))) ++ concat (map enc_irq (irqs g)) ++ to_le 4 (gicd_ctlr g)
  ++ [b2z (processor_sleep c0)] ++ enc_cpuif false c0 ++ concat (map enc_core (zip (banked g) (tail (cpus g)))).

Lemma reads_bank l : bank_ok l -> reads (r_times (length l) restore_irq) (concat (map enc_irq l)) l.
Proof.
  intros Hl. apply reads_times. intros i [k Hk]%list_elem_of_lookup. by apply (reads_irq k), Hl.
Qed.

Lemma reads_expect what v : is_u 64 v -> reads (r_expect_u64 what v) (to_le 8 v) tt.
Proof.
  intros Hv. rewrite <- (app_nil_r (to_le 8 v)). eapply reads_bind; [by apply (codec_reads _ _ _ _ codec_u64)|].
  rewrite Z.eqb_refl. apply reads_ret.
Qed.

(** A core read over another one with as many interrupts. *)
Lemma reads_core e e' :
  bank_ok e.1 -> cpuif_ok e.2 -> length e'.1 = length e.1 -> reads (restore_core e') (enc_core e) e.
Proof.
  intros Hb Hc Hl. unfold restore_core, enc_core. rewrite Hl.
  eapply reads_bind; [by apply reads_bank|].
  pose proof (reads_map _ (pair e.1) _ _ (reads_cpuif true (processor_sleep e'.2) e.2 Hc ltac:(done))) as H.
  destruct e. exact H.
Qed.

Lemma reads_cores l l' :
  Forall2 (fun e e' => bank_ok e.1 /\ cpuif_ok e.2 /\ length e'.1 = length e.1) l l' ->
  reads (restore_cores l') (concat (map enc_core l)) l.
Proof.
  induction 1 as [|e e' l l' (Hb & Hc & Hl) Hr IH]; cbn [restore_cores map concat]; [apply reads_ret|].
  eapply reads_bind; [by apply reads_core|]. by apply reads_map.
Qed.

Lemma writes_core e : writes (save_core e) (enc_core e).
Proof.
  unfold save_core, enc_core.
  apply (writes_then (fun w => foldl (fun w i => save_irq i w) w e.1) (save_cpuif true e.2)); [|apply writes_cpuif].
  apply (writes_foldl save_irq enc_irq e.1 (fun w => w) []); [|intros i _; apply writes_irq].
  intros w _. destruct w. unfold w_raw, update. cbn. by rewrite app_nil_r.
Qed.

Lemma save_writes g c0 : cpus g !! 0%nat = Some c0 ->
  forall w, w_marks w = None -> save g w = Some (w_raw (enc_gic g c0) w).
Proof.
  intros Hc w Hw. unfold save. rewrite Hc. cbn [mbind option_bind]. f_equal. unfold enc_gic.
  assert (writes (fun w => foldl (fun w e => save_core e w)
    (save_cpuif false c0 (w_bool (processor_sleep c0) (w_u32 (gicd_ctlr g)
      (foldl (fun w i => save_irq i w) (w_len_of (length (irqs g)) w) (irqs g)))))
    (zip (banked g) (tail (cpus g)))) (enc_gic g c0)) as H; [|by apply H].
  unfold enc_gic. rewrite !app_assoc.
  apply (writes_foldl save_core enc_core); [|intros e _; apply writes_core].
  apply (writes_then _ (save_cpuif false c0)); [|apply writes_cpuif].
  apply (writes_then _ (w_bool (processor_sleep c0))); [|apply writes_raw].
  apply (writes_then _ (w_u32 (gicd_ctlr g))); [|apply writes_raw].
  apply (writes_foldl save_irq enc_irq); [apply writes_raw|]. intros i _. apply writes_irq.
Qed.

Lemma zip_cores n g : gic_wf n g -> length (zip (banked g) (tail (cpus g))) = (n - 1)%nat
  /\ (zip (banked g) (tail (cpus g))).*1 = banked g /\ (zip (banked g) (tail (cpus g))).*2 = tail (cpus g).
Proof.
  intros W. assert (length (tail (cpus g)) = (n - 1)%nat) as Ht.
  { pose proof (wf_cpus _ _ W). destruct (cpus g); cbn in *; lia. }
  pose proof (wf_banked _ _ W) as Hb. split; [rewrite length_zip_with; lia|].
  split; [apply fst_zip|apply snd_zip]; lia.
Qed.

Lemma restore_reads n g h c0 :
  gic_wf n g -> gic_wf n h -> cpus g !! 0%nat = Some c0 ->
  reads (restore h) (enc_gic g c0) (g <| cur := cur h |>).
Proof.
  intros Wg Wh Hc. unfold restore, enc_gic. rewrite (wf_irqs _ _ Wh), <- (wf_irqs _ _ Wg).
  eapply reads_bind; [apply reads_expect; rewrite (wf_irqs _ _ Wg); by vm_compute|].
  eapply reads_bind; [apply reads_bank, (wf_irqs_ok _ _ Wg)|].
  eapply reads_bind; [apply (codec_reads _ _ _ _ codec_u32), (is_u_weaken 2); [apply (wf_ctlr _ _ Wg)|lia]|].
  eapply reads_bind; [by apply (codec_reads _ _ _ _ codec_bool)|].
  pose proof (Forall_lookup_1 _ _ _ _ (wf_cpus_ok _ _ Wg) Hc) as Hc0.
  eapply reads_bind; [by apply reads_cpuif|].
  destruct (zip_cores n g Wg) as (Hlg & H1g & H2g). destruct (zip_cores n h Wh) as (Hlh & H1h & H2h).
  set (lg := zip (banked g) (tail (cpus g))) in *. set (lh := zip (banked h) (tail (cpus h))) in *.
  assert (reads (restore_cores lh) (concat (map enc_core lg)) lg) as Hr.
  { apply reads_cores. apply Forall2_same_length_lookup. split; [congruence|]. intros j e e' He He'.
    assert (banked g !! j = Some e.1) as Hb by (by rewrite <- H1g, list_lookup_fmap, He).
    assert (banked h !! j = Some e'.1) as Hb' by (by rewrite <- H1h, list_lookup_fmap, He').
    assert (cpus g !! S j = Some e.2) as Hce.
    { rewrite <- lookup_tail. by rewrite <- H2g, list_lookup_fmap, He. }
    destruct (Forall_lookup_1 _ _ _ _ (wf_banked_ok _ _ Wg) Hb) as [Hl Hok].
    destruct (Forall_lookup_1 _ _ _ _ (wf_banked_ok _ _ Wh) Hb') as [Hl' _].
    split; [done|]. split; [|congruence]. exact (Forall_lookup_1 _ _ _ _ (wf_cpus_ok _ _ Wg) Hce). }
  apply (reads_map _ (fun l => MkGic (irqs g) (l.*1 ++ drop (length l) (banked h)) (gicd_ctlr g)
    (c0 :: l.*2 ++ drop (length l) (tail (cpus h))) (cur h))) in Hr.
  assert (drop (length lg) (banked h) = [] /\ drop (length lg) (tail (cpus h)) = []) as [Hd1 Hd2].
  { rewrite Hlg, <- Hlh. split; apply drop_ge; [rewrite <- H1h|rewrite <- H2h]; by rewrite length_fmap. }
  rewrite H1g, H2g, Hd1, Hd2, !app_nil_r in Hr.
  assert (c0 :: tail (cpus g) = cpus g) as Ht by (destruct (cpus g); cbn in *; congruence).
  rewrite Ht in Hr. exact Hr.
Qed.

(** C23: saving an interrupt controller and restoring the bytes into any
    controller of as many cores gives the state that was saved, interrupts,
    banks, wake states and CPU interfaces, and reads exactly the bytes written;
    only the current core, which the machine sets, is that of the target. *)
Theorem gic_save_restore (n : nat) (g h : Gic) :
  gic_wf n g -> gic_wf n h ->
  exists b, save g writer_new = Some (w_raw b writer_new) /\
    restore h (reader_new b) = (Ok (g <| cur := cur h |>), (reader_new b) <| r_pos := length b |>).
Proof.
  intros Wg Wh. pose proof (wf_cores _ _ Wg).
  destruct (cpu_lookup n g 0 Wg) as (c0 & Hc & _); [lia|].
  exists (enc_gic g c0). split; [by apply save_writes|].
  pose proof (restore_reads n g h c0 Wg Wh Hc [] [] [32; 32; 32; 32]) as Hr. rewrite app_nil_r in Hr. exact Hr.
Qed.

(** * A concrete interrupt controller (instances of the theorems about Gic)

    Two cores set up the way Linux does it, with shared interrupts and an SGI
    pending on core 0. *)

(** Group 1 everywhere, distributor and CPU interface enabled, PMR open. *)
Definition linux_ops (cpu : nat) : list gic_op :=
  let r := GICR_OFFSET + Z.of_nat cpu * map.GICR_SIZE_PER_CPU in
  [OpCurrent cpu; OpWrite (r + GICR_WAKER) 4 0; OpWrite (r + GICR_SGI_BASE + GICR_IGROUPR0) 4 0xFFFFFFFF;
   OpWrite (r + GICR_SGI_BASE + GICR_ISENABLER0) 4 0xFFFF; OpPmr 0xF0; OpIgrpen1 1].

(** SPIs 40 and 41 edge-triggered with a rising edge each, SGI 5 to core 0. *)
Definition demo_ops : list gic_op :=
  linux_ops 1 ++ linux_ops 0 ++
  [OpWrite GICD_CTLR 4 0x12; OpWrite (GICD_IGROUPR + 4) 4 0xFFFFFFFF; OpWrite (GICD_ISENABLER + 4) 4 0x300;
   OpWrite (GICD_IPRIORITYR + 40) 1 0x80; OpWrite (GICD_IPRIORITYR + 41) 1 0x40; OpWrite (GICD_ICFGR + 8) 4 0xFFFFFFFF;
   OpWrite (GICR_OFFSET + GICR_SGI_BASE + GICR_IPRIORITYR + 5) 1 0x60;
   OpLevel 0 40 true; OpLevel 0 41 true; OpSgi1r 0x5000001].

Definition demo_of (n : nat) (ops : list gic_op) : Gic :=
  match with_cpus n with
  | Some g0 => default (MkGic [] [] 0 [] 0) (gic_run ops g0)
  | None => MkGic [] [] 0 [] 0
  end.

Lemma demo_of_wf n ops : (1 <= n <= 16)%nat -> Forall (op_ok n) ops -> gic_wf n (demo_of n ops).
Proof.
  intros Hn Ho. unfold demo_of. destruct (with_cpus_wf n Hn) as (g0 & -> & W).
  by destruct (gic_run_wf n ops g0 W Ho) as (g & -> & Wg).
Qed.

Definition demo : Gic := demo_of 2 demo_ops.

Lemma demo_ops_ok : Forall (op_ok 2) demo_ops.
Proof. repeat constructor. Qed.

Lemma demo_wf : gic_wf 2 demo.
Proof. apply demo_of_wf; [lia|apply demo_ops_ok]. Qed.

Definition demo_cpu : CpuIf := default cpuif_new (cpus demo !! 0%nat).
Definition demo_acked : Gic := match read_iar1 demo with Some (_, g) => g | None => demo end.

Lemma gic_operations_safe_witness :
  exists g0 g, with_cpus 2 = Some g0 /\ gic_run demo_ops g0 = Some g /\ gic_wf 2 g.
Proof. apply (gic_operations_safe 2 demo_ops); [lia|apply demo_ops_ok]. Defined.

Lemma highest_pending_is_minimum_witness :
  exists r, highest_pending_of demo 0 = Some r /\ best_candidate demo 0 r.
Proof. apply (highest_pending_is_minimum 2 demo 0); [apply demo_wf|lia|vm_compute; reflexivity]. Defined.

Lemma active_priorities_witness :
  exists c v, cpus demo !! cur demo = Some c /\ read_ap1r0 demo = Some v /\
    (length (active_prio c) <= 32)%nat /\ is_u 32 v /\
    (forall b, 0 <= b -> Z.testbit v b = bool_decide (8 * b ∈ (active_prio c).*2)) /\
    exists g' c', write_ap1r0 v demo = Some g' /\ cpus g' !! cur demo = Some c' /\
      (active_prio c').*2 = (active_prio c).*2 /\ running c' = running c.
Proof. apply (active_priorities 2 demo). apply demo_wf. Defined.

Lemma acknowledge_then_end_witness :
  exists k i c c1, 41 = Z.of_nat k /\ candidate demo (cur demo) k i /\
    cpus demo !! cur demo = Some c /\ cpus demo_acked !! cur demo = Some c1 /\
    irq demo_acked (cur demo) k = Some (acked i) /\
    running c1 = group_prio c (priority i) /\ running c1 < running c /\
    (forall id' p', deliverable demo_acked (cur demo) = Some (Some (id', p')) ->
       id' <> 41 /\ group_prio c p' < group_prio c (priority i)) /\
    (eoimode c = false -> write_eoir1 41 demo_acked = Some (set_irq (cur demo) k clear_pending demo)).
Proof.
  apply (acknowledge_then_end 2 demo 41 demo_acked); [apply demo_wf| |discriminate].
  vm_compute. reflexivity.
Defined.

Lemma demo_latched : latched demo 0.
Proof.
  intros k i Hi.
  assert (forallb (fun i => edge i || negb (level i)) (irqs demo) = true) as H by (vm_compute; reflexivity).
  rewrite forallb_forall in H. unfold irq, is_banked in Hi. rewrite andb_false_r in Hi.
  specialize (H i (proj1 (list_elem_of_In _ _) (list_elem_of_lookup_2 _ _ _ Hi))).
  destruct (edge i); [by left|right]. by destruct (level i).
Qed.

Lemma handler_serves_all_witness :
  (exists ids g', serve_all 289 demo = Some (ids, g') /\ deliverable g' (cur demo) = Some None /\
    (forall x, x ∈ ids <-> exists k i, x = Z.of_nat k /\ servable demo demo_cpu k i) /\
    StronglySorted (served_before demo demo_cpu) ids) /\
  option_map fst (serve_all 289 demo) = Some [41; 5; 40].
Proof.
  split; [|vm_compute; reflexivity].
  apply (handler_serves_all 2 demo demo_cpu); [apply demo_wf|vm_compute; reflexivity..| |vm_compute; reflexivity].
  apply demo_latched.
Defined.

Lemma sgi_reaches_targets_witness :
  (forall cpu k, (cpu < 2)%nat ->
     irq (write_sgi1r 0x2000002 demo) cpu k
     = (if (Z.of_nat k =? field 0x2000002 24 4) && sgi_reaches 0x2000002 (cur demo) cpu
        then (fun i : Irq => i <| pending := true |>) else id) <$> irq demo cpu k) /\
  cpus (write_sgi1r 0x2000002 demo) = cpus demo /\ cur (write_sgi1r 0x2000002 demo) = cur demo /\
  gicd_ctlr (write_sgi1r 0x2000002 demo) = gicd_ctlr demo.
Proof. apply (sgi_reaches_targets 2 demo 0x2000002). apply demo_wf. Defined.

Lemma bitmap_registers_witness :
  (forall b i, (b < 32)%nat -> irq demo 1 (0 * 32 + b) = Some i ->
     Z.testbit (read (bitmap_offset 1 0 SetEnable) 4 demo) (Z.of_nat b) = bit_of SetEnable i) /\
  (forall cpu' k, irq (write (bitmap_offset 1 0 SetEnable) 4 0x80000000 demo) cpu' k
     = (if bool_decide ((k / 32 = 0)%nat /\ (0%nat = 0%nat -> 1%nat = cpu'))
        then write_bit SetEnable (Z.testbit 0x80000000 (Z.of_nat (k mod 32))) else id) <$> irq demo cpu' k).
Proof. apply (bitmap_registers 2 demo 1 0 SetEnable 0x80000000); [apply demo_wf|lia|lia]. Defined.

Lemma gic_save_restore_witness :
  exists b, save demo writer_new = Some (w_raw b writer_new) /\
    restore (demo_of 2 []) (reader_new b)
    = (Ok (demo <| cur := cur (demo_of 2 []) |>), (reader_new b) <| r_pos := length b |>).
Proof. apply (gic_save_restore 2 demo (demo_of 2 [])); [apply demo_wf|]. apply demo_of_wf; [lia|constructor]. Defined.
