(* ===== verification/PlatTimer.v ===== *)
(** * The generic timer (crates/vetro-platform/src/timer.rs)

    The physical and virtual channels of one core over a counter given from
    outside. The theorems: the deadline is the first count at which a line
    changes, TVAL is a signed distance, and the snapshot is faithful. *)

From Stdlib Require Import ZArith Lia Bool.
From stdpp Require Import base list numbers strings.
From S2P Require Import Prelude SnapWire SnapCodec PlatBus.
Local Open Scope Z_scope.
Local Open Scope vetro_scope.

Module timer.

Definition CTL_ENABLE : Z := 1.
Definition CTL_IMASK : Z := 2.
Definition CTL_ISTATUS : Z := 4.

Record TimerChannel := MkChannel { ctl : Z; cval : Z }.

#[export] Instance eta_TimerChannel : Eta TimerChannel := fun t => MkChannel (ctl t) (cval t).

Definition channel_default : TimerChannel := MkChannel 0 0.

Definition istatus (t : TimerChannel) (count : Z) : bool := test_mask (ctl t) CTL_ENABLE && (cval t <=? count).

Definition irq_level (t : TimerChannel) (count : Z) : bool := istatus t count && (Z.land (ctl t) CTL_IMASK =? 0).

Definition read_ctl (t : TimerChannel) (count : Z) : Z :=
  Z.lor (ctl t) (if istatus t count then CTL_ISTATUS else 0).

Definition write_ctl (value : Z) (t : TimerChannel) : TimerChannel :=
  t <| ctl := Z.land value (Z.lor CTL_ENABLE CTL_IMASK) |>.

Definition read_cval (t : TimerChannel) : Z := cval t.
Definition write_cval (value : Z) (t : TimerChannel) : TimerChannel := t <| cval := value |>.

Definition read_tval (t : TimerChannel) (count : Z) : Z := u32 (u64 (cval t - count)).

Definition write_tval (count value : Z) (t : TimerChannel) : TimerChannel :=
  t <| cval := u64 (count + u64 (signed 32 (u32 value))) |>.

Definition deadline (t : TimerChannel) (count : Z) : option Z :=
  if (Z.land (ctl t) (Z.lor CTL_ENABLE CTL_IMASK) =? CTL_ENABLE) && (count <? cval t) then Some (cval t) else None.

Record GenericTimer := MkTimer { cntfrq : Z; cntvoff : Z; phys : TimerChannel; virt : TimerChannel }.

#[export] Instance eta_GenericTimer : Eta GenericTimer := fun t => MkTimer (cntfrq t) (cntvoff t) (phys t) (virt t).

Definition timer_new (frq : Z) : GenericTimer := MkTimer frq 0 channel_default channel_default.
Definition timer_default : GenericTimer := timer_new map.CNTFRQ_HZ.

Definition cntvct (t : GenericTimer) (cntpct : Z) : Z := u64 (cntpct - cntvoff t).

Definition cntp_ctl (t : GenericTimer) (cntpct : Z) : Z := read_ctl (phys t) cntpct.
Definition set_cntp_ctl (value : Z) (t : GenericTimer) : GenericTimer := t <| phys ::= write_ctl value |>.
Definition cntp_cval (t : GenericTimer) : Z := read_cval (phys t).
Definition set_cntp_cval (value : Z) (t : GenericTimer) : GenericTimer := t <| phys ::= write_cval value |>.
Definition cntp_tval (t : GenericTimer) (cntpct : Z) : Z := read_tval (phys t) cntpct.
Definition set_cntp_tval (cntpct value : Z) (t : GenericTimer) : GenericTimer := t <| phys ::= write_tval cntpct value |>.

Definition cntv_ctl (t : GenericTimer) (cntpct : Z) : Z := read_ctl (virt t) (cntvct t cntpct).
Definition set_cntv_ctl (value : Z) (t : GenericTimer) : GenericTimer := t <| virt ::= write_ctl value |>.
Definition cntv_cval (t : GenericTimer) : Z := read_cval (virt t).
Definition set_cntv_cval (value : Z) (t : GenericTimer) : GenericTimer := t <| virt ::= write_cval value |>.
Definition cntv_tval (t : GenericTimer) (cntpct : Z) : Z := read_tval (virt t) (cntvct t cntpct).
Definition set_cntv_tval (cntpct value : Z) (t : GenericTimer) : GenericTimer :=
  let count := cntvct t cntpct in t <| virt ::= write_tval count value |>.

Definition irq_lines (t : GenericTimer) (cntpct : Z) : list (Z * bool) :=
  [(map.PPI_VTIMER, irq_level (virt t) (cntvct t cntpct)); (map.PPI_PTIMER, irq_level (phys t) cntpct)].

Definition next_deadline (t : GenericTimer) (cntpct : Z) : option Z :=
  let v := option_map (fun c => u64 (c + cntvoff t)) (deadline (virt t) (cntvct t cntpct)) in
  let p := deadline (phys t) cntpct in
  match v, p with
  | Some a, Some b => Some (Z.min a b)
  | Some a, None => Some a
  | None, b => b
  end.

Definition save_channel (c : TimerChannel) (w : Writer) : Writer := w_u64 (cval c) (w_u64 (ctl c) w).

Definition save (t : GenericTimer) (w : Writer) : Writer :=
  save_channel (virt t) (save_channel (phys t) (w_u64 (cntvoff t) (w_u32 (cntfrq t) w))).

Definition restore_channel : reading TimerChannel :=
  a ← r_u64; b ← r_u64; mret ((write_ctl a channel_default) <| cval := b |>).

Definition restore : reading GenericTimer :=
  f ← r_u32; o ← r_u64; p ← restore_channel; v ← restore_channel; mret (MkTimer f o p v).

End timer.
Import timer.

(** ** Deadlines *)

Definition channel_ok (t : TimerChannel) : Prop := is_u 2 (ctl t) /\ is_u 64 (cval t).
Definition timer_ok (t : GenericTimer) : Prop :=
  is_u 32 (cntfrq t) /\ is_u 64 (cntvoff t) /\ channel_ok (phys t) /\ channel_ok (virt t).

(** A channel that can fire, and the count at which it does. *)
Lemma ctl_cases t : channel_ok t -> ctl t = 0 \/ ctl t = 1 \/ ctl t = 2 \/ ctl t = 3.
Proof. intros [H _]. unfold is_u in H. change (2 ^ 2) with 4 in H. lia. Qed.

Lemma irq_level_iff t count : channel_ok t -> irq_level t count = (ctl t =? 1) && (cval t <=? count).
Proof.
  intros Hc. unfold irq_level, istatus. destruct (ctl_cases t Hc) as [->|[->|[->| ->]]]; cbn;
    rewrite ?andb_false_r, ?andb_true_r; reflexivity.
Qed.

Lemma deadline_iff t count : channel_ok t ->
  deadline t count = if (ctl t =? 1) && (count <? cval t) then Some (cval t) else None.
Proof.
  intros Hc. unfold deadline. destruct (ctl_cases t Hc) as [->|[->|[->| ->]]]; reflexivity.
Qed.

(** The virtual count moves with the physical one until it wraps. *)
Lemma cntvct_shift t a b :
  is_u 64 (cntvoff t) -> a <= b -> cntvct t a + (b - a) < 2 ^ 64 -> cntvct t b = cntvct t a + (b - a).
Proof.
  intros Ho Hab Hlt. unfold cntvct, u64 in *. pose proof (Z.mod_pos_bound (a - cntvoff t) (2 ^ 64) ltac:(lia)).
  replace (b - cntvoff t) with ((a - cntvoff t) + (b - a)) by lia.
  rewrite Z.add_mod by lia. rewrite (Z.mod_small (b - a)) by lia. apply Z.mod_small. lia.
Qed.

(** The deadline of the virtual channel as a physical count. *)
Lemma virt_deadline t cnt :
  timer_ok t -> is_u 64 cnt -> cntvct t cnt < cval (virt t) ->
  let d := u64 (cval (virt t) + cntvoff t) in
  let e := cnt + (cval (virt t) - cntvct t cnt) in d = e \/ (d = e - 2 ^ 64 /\ d < cnt).
Proof.
  intros (_ & Ho & _ & _ & Hc) Hcnt Hlt d e. unfold d, e, cntvct, u64, is_u in *.
  pose proof (Z.mod_pos_bound (cnt - cntvoff t) (2 ^ 64) ltac:(lia)).
  pose proof (Z.mod_pos_bound (cval (virt t) + cntvoff t) (2 ^ 64) ltac:(lia)).
  pose proof (Z.div_mod (cnt - cntvoff t) (2 ^ 64) ltac:(lia)).
  pose proof (Z.div_mod (cval (virt t) + cntvoff t) (2 ^ 64) ltac:(lia)).
  set (q1 := (cnt - cntvoff t) / 2 ^ 64) in *. set (q2 := (cval (virt t) + cntvoff t) / 2 ^ 64) in *.
  assert (q1 = 0 \/ q1 = -1) as [Hq|Hq] by nia; rewrite Hq in *; assert (q2 = 0 \/ q2 = 1) as [Hq2|Hq2] by nia;
    rewrite Hq2 in *; lia.
Qed.

(** The physical count at which the line of a channel rises. *)
Definition rises_at (t : GenericTimer) (cnt d : Z) : Prop :=
  (ctl (virt t) = 1 /\ cntvct t cnt < cval (virt t) /\ d = cnt + (cval (virt t) - cntvct t cnt)) \/
  (ctl (phys t) = 1 /\ cnt < cval (phys t) /\ d = cval (phys t)).

(** The virtual channel fires, if it does, before the physical counter wraps. *)
Definition virt_fits (t : GenericTimer) (cnt : Z) : Prop :=
  cntvct t cnt < cval (virt t) -> cnt + (cval (virt t) - cntvct t cnt) < 2 ^ 64.

Lemma next_deadline_rises t cnt d :
  timer_ok t -> is_u 64 cnt -> virt_fits t cnt -> next_deadline t cnt = Some d ->
  cnt < d /\ rises_at t cnt d /\ (forall d', rises_at t cnt d' -> d <= d').
Proof.
  intros Hok Hcnt Hfit Hn. pose proof Hok as (_ & Ho & Hp & Hv). unfold next_deadline in Hn.
  rewrite (deadline_iff _ _ Hv), (deadline_iff _ _ Hp) in Hn. unfold rises_at, virt_fits in *.
  pose proof (virt_deadline t cnt Hok Hcnt) as Hvd. pose proof (is_u_u64 (cval (virt t) + cntvoff t)) as Hu. unfold is_u in *.
  destruct (Z.eqb_spec (ctl (virt t)) 1), (Z.ltb_spec (cntvct t cnt) (cval (virt t))),
    (Z.eqb_spec (ctl (phys t)) 1), (Z.ltb_spec cnt (cval (phys t)));
    cbn [andb option_map] in Hn; try discriminate; injection Hn as <-;
    try (specialize (Hvd ltac:(assumption)); specialize (Hfit ltac:(assumption)); cbv zeta in Hvd); split_and!; try lia; intros d' [(? & ? & ->)|(? & ? & ->)]; lia.
Qed.

Lemma next_deadline_range t cnt d : timer_ok t -> next_deadline t cnt = Some d -> is_u 64 d.
Proof.
  intros (_ & _ & [_ Hp] & _) Hn. unfold next_deadline, deadline in Hn.
  pose proof (is_u_u64 (cval (virt t) + cntvoff t)) as Hv. unfold is_u in *.
  repeat case_match; simplify_eq/=; lia.
Qed.

(** The lines between two counts with no rise in between. *)
Lemma lines_stable t cnt c :
  timer_ok t -> is_u 64 cnt -> cnt <= c < 2 ^ 64 -> cntvct t cnt + (c - cnt) < 2 ^ 64 ->
  (forall d, rises_at t cnt d -> c < d) -> irq_lines t c = irq_lines t cnt.
Proof.
  intros Hok Hcnt Hc Hw Hr. pose proof Hok as (_ & Ho & Hp & Hv). unfold irq_lines.
  rewrite !(irq_level_iff _ _ Hv), !(irq_level_iff _ _ Hp).
  rewrite (cntvct_shift t cnt c Ho) by lia. unfold rises_at in Hr.
  pose proof (Hr (cnt + (cval (virt t) - cntvct t cnt))) as H1. pose proof (Hr (cval (phys t))) as H2.
  f_equal; [|f_equal]; f_equal.
  - destruct (Z.eqb_spec (ctl (virt t)) 1) as [E|]; [|done]. cbn [andb].
    destruct (Z.leb_spec (cval (virt t)) (cntvct t cnt + (c - cnt))), (Z.leb_spec (cval (virt t)) (cntvct t cnt)); lia.
  - destruct (Z.eqb_spec (ctl (phys t)) 1) as [E|]; [|done]. cbn [andb].
    destruct (Z.leb_spec (cval (phys t)) c), (Z.leb_spec (cval (phys t)) cnt); lia.
Qed.

Lemma lines_rise t cnt d :
  timer_ok t -> is_u 64 cnt -> cnt < d < 2 ^ 64 -> cntvct t cnt + (d - cnt) < 2 ^ 64 ->
  rises_at t cnt d -> irq_lines t d <> irq_lines t cnt.
Proof.
  intros Hok Hcnt Hd Hw Hr. pose proof Hok as (_ & Ho & Hp & Hv). unfold irq_lines.
  rewrite !(irq_level_iff _ _ Hv), !(irq_level_iff _ _ Hp). rewrite (cntvct_shift t cnt d Ho) by lia.
  intros [= Hve Hpe]. destruct Hr as [(E & H1 & H2)|(E & H1 & H2)].
  - rewrite E in Hve. cbn [andb Z.eqb Pos.eqb] in Hve. lia.
  - rewrite E in Hpe. cbn [andb Z.eqb Pos.eqb] in Hpe. lia.
Qed.

(** C24: the next deadline of a timer is in the future, and it is the first count
    at which one of its lines changes; no deadline means that none will: the
    machine may sleep until then without missing an interrupt. This is for a
    virtual comparator whose count comes before the physical counter wraps, and
    the lines are followed as long as the virtual counter does not wrap. *)
Theorem next_deadline_exact (t : GenericTimer) (cnt : Z) :
  timer_ok t -> is_u 64 cnt -> virt_fits t cnt ->
  match next_deadline t cnt with
  | Some d => cnt < d < 2 ^ 64 /\
      (cntvct t cnt + (d - cnt) < 2 ^ 64 ->
       (forall c, cnt <= c < d -> irq_lines t c = irq_lines t cnt) /\ irq_lines t d <> irq_lines t cnt)
  | None => forall c, cnt <= c < 2 ^ 64 -> cntvct t cnt + (c - cnt) < 2 ^ 64 -> irq_lines t c = irq_lines t cnt
  end.
Proof.
  intros Hok Hcnt Hfit. destruct (next_deadline t cnt) as [d|] eqn:Hn.
  - destruct (next_deadline_rises t cnt d Hok Hcnt Hfit Hn) as (Hlt & Hr & Hmin).
    pose proof (next_deadline_range t cnt d Hok Hn) as Hd. unfold is_u in Hd. split; [lia|]. intros Hw.
    split; [|apply lines_rise; (done || lia)]. intros c Hc. apply lines_stable; [done|done|lia|lia|].
    intros d' Hd'. specialize (Hmin d' Hd'). lia.
  - intros c Hc Hw. apply lines_stable; [done..|]. intros d Hr. exfalso. pose proof Hok as (_ & Ho & Hp & Hv).
    unfold next_deadline in Hn. rewrite (deadline_iff _ _ Hv), (deadline_iff _ _ Hp) in Hn.
    destruct Hr as [(E & H1 & _)|(E & H1 & _)]; rewrite E in Hn; cbn [Z.eqb Pos.eqb andb] in Hn.
    + destruct (Z.ltb_spec (cntvct t cnt) (cval (virt t))); [|lia]. cbn in Hn. repeat case_match; discriminate.
    + destruct (Z.ltb_spec cnt (cval (phys t))); [|lia]. repeat case_match; discriminate.
Qed.

(** The virtual channel has fired at 150, the physical one is next. *)
Lemma next_deadline_exact_witness :
  let t := set_cntp_ctl 1 (set_cntp_cval 500 (set_cntv_ctl 1 (set_cntv_tval 100 50 timer_default))) in
  next_deadline t 200 = Some 500 /\ (forall c, 200 <= c < 500 -> irq_lines t c = irq_lines t 200) /\ irq_lines t 500 <> irq_lines t 200.
Proof.
  intros t. pose proof (next_deadline_exact t 200) as H.
  assert (next_deadline t 200 = Some 500) as E by (vm_compute; reflexivity). rewrite E in H.
  destruct H as [_ H]; [repeat split; by vm_compute|by vm_compute|intros Hlt; vm_compute in Hlt; discriminate Hlt|].
  split; [exact E|]. apply H. by vm_compute.
Defined.

(** Setting TVAL to a positive distance fires after it, and it reads back. *)
Lemma tval_spec t count v :
  is_u 64 count -> let t' := write_tval count v t in
  read_tval t' count = u32 v /\
  (0 < signed 32 (u32 v) -> count + signed 32 (u32 v) < 2 ^ 64 -> cval t' = count + signed 32 (u32 v)).
Proof.
  intros Hc t'. unfold t', write_tval, read_tval, update. cbn [cval]. split.
  - unfold u32, u64. rewrite pow_mod_mod by lia. set (s := signed 32 (v mod 2 ^ 32)).
    assert (s mod 2 ^ 32 = v mod 2 ^ 32) as Hs.
    { unfold s, signed. rewrite Z.mod_mod by lia. destruct (_ <? _); [by apply Z.mod_mod|].
      rewrite <- (Z.mod_add (v mod 2 ^ 32 - 2 ^ 32) 1) by lia.
      replace (v mod 2 ^ 32 - 2 ^ 32 + 1 * 2 ^ 32) with (v mod 2 ^ 32) by lia. by apply Z.mod_mod. }
    rewrite <- Hs. rewrite <- (pow_mod_mod ((count + s mod 2 ^ 64) mod 2 ^ 64 - count) 64 32) by lia.
    rewrite Zminus_mod_idemp_l. replace (count + s mod 2 ^ 64 - count) with (s mod 2 ^ 64) by lia.
    rewrite Z.mod_mod by lia. by rewrite pow_mod_mod by lia.
  - intros Hp Hlt. unfold u64. rewrite (Z.mod_small (signed 32 (u32 v))), Z.mod_small; unfold is_u in Hc; lia.
Qed.

(** ** Snapshot *)

Definition enc_channel (c : TimerChannel) : list Z := to_le 8 (ctl c) ++ to_le 8 (cval c).
Definition enc_timer (t : GenericTimer) : list Z :=
  to_le 4 (cntfrq t) ++ to_le 8 (cntvoff t) ++ enc_channel (phys t) ++ enc_channel (virt t).

Lemma writes_channel c : writes (save_channel c) (enc_channel c).
Proof. apply (writes_then (w_u64 (ctl c)) (w_u64 (cval c))); apply writes_raw. Qed.

Lemma reads_channel c : channel_ok c -> reads restore_channel (enc_channel c) c.
Proof.
  intros [H1 H2]. eapply reads_bind; [apply (codec_reads _ _ _ _ codec_u64); apply (is_u_weaken 2); [done|lia]|].
  pose proof (reads_map r_u64 (fun b => (write_ctl (ctl c) channel_default) <| cval := b |>) _ _
    (codec_reads _ _ _ _ codec_u64 (cval c) H2)) as H.
  assert (Z.land (ctl c) (Z.lor CTL_ENABLE CTL_IMASK) = ctl c) as Hl.
  { change (Z.lor CTL_ENABLE CTL_IMASK) with (2 ^ 2 - 1). rewrite land_ones_mod by lia. by apply mod_is_u. }
  cbv beta in H. unfold write_ctl, update in H |- *. cbn [ctl cval channel_default] in H |- *.
  rewrite Hl in H |- *. destruct c. exact H.
Qed.

Lemma timer_writes t : writes (save t) (enc_timer t).
Proof.
  unfold save, enc_timer. rewrite !app_assoc.
  apply (writes_then _ (save_channel (virt t))); [|apply writes_channel].
  apply (writes_then _ (save_channel (phys t))); [|apply writes_channel].
  apply (writes_then (w_u32 (cntfrq t)) (w_u64 (cntvoff t))); apply writes_raw.
Qed.

Lemma timer_reads t : timer_ok t -> reads restore (enc_timer t) t.
Proof.
  intros (Hf & Ho & Hp & Hv). unfold restore, enc_timer.
  eapply reads_bind; [by apply (codec_reads _ _ _ _ codec_u32)|].
  eapply reads_bind; [by apply (codec_reads _ _ _ _ codec_u64)|].
  eapply reads_bind; [by apply reads_channel|].
  pose proof (reads_map _ (MkTimer (cntfrq t) (cntvoff t) (phys t)) _ _ (reads_channel _ Hv)) as H.
  destruct t. exact H.
Qed.
