(* ===== verification/Pl011.v ===== *)
(** * The UART (crates/vetro-platform/src/pl011.rs)

    Input queued by the host, a receive FIFO, and output taken by the host.
    The theorems: bytes reach the guest in order and none is lost while the
    FIFO is not reset, and a read of an enabled UART never starves. *)

From Stdlib Require Import ZArith Lia Bool.
From stdpp Require Import base list numbers strings.
From S2P Require Import Prelude SnapWire SnapCodec PlatBus.
Local Open Scope Z_scope.
Local Open Scope vetro_scope.

Module pl011.

Definition DR : Z := 0x000.
Definition RSR_ECR : Z := 0x004.
Definition FR : Z := 0x018.
Definition ILPR : Z := 0x020.
Definition IBRD : Z := 0x024.
Definition FBRD : Z := 0x028.
Definition LCR_H : Z := 0x02C.
Definition CR : Z := 0x030.
Definition IFLS : Z := 0x034.
Definition IMSC : Z := 0x038.
Definition RIS : Z := 0x03C.
Definition MIS : Z := 0x040.
Definition ICR : Z := 0x044.
Definition DMACR : Z := 0x048.
Definition PERIPH_ID0 : Z := 0xFE0.

Definition FR_RXFE : Z := 0x10.
Definition FR_RXFF : Z := 0x40.
Definition FR_TXFE : Z := 0x80.
Definition LCR_H_FEN : Z := 0x10.
Definition CR_UARTEN : Z := 0x1.
Definition CR_LBE : Z := 0x80.
Definition CR_TXE : Z := 0x100.
Definition CR_RXE : Z := 0x200.
Definition INT_RX : Z := 0x10.
Definition INT_TX : Z := 0x20.
Definition INT_RT : Z := 0x40.
Definition INT_MASK : Z := 0x7FF.
Definition FIFO_DEPTH : nat := 16.
Definition ID : list Z := [0x11; 0x10; 0x14; 0x00; 0x0D; 0xF0; 0x05; 0xB1].

Record Pl011 := MkPl011 {
  (** Bytes from the host, not yet in the FIFO. *)
  input : list Z;
  rx_fifo : list Z;
  (** Bytes of the guest, not yet read by the host. *)
  output : list Z;
  rsr : Z;
  ilpr : Z;
  ibrd : Z;
  fbrd : Z;
  lcr_h : Z;
  cr : Z;
  ifls : Z;
  imsc : Z;
  ris : Z;
  dmacr : Z;
}.

#[export] Instance eta_Pl011 : Eta Pl011 := fun u =>
  MkPl011 (input u) (rx_fifo u) (output u) (rsr u) (ilpr u) (ibrd u) (fbrd u) (lcr_h u) (cr u) (ifls u)
    (imsc u) (ris u) (dmacr u).

Definition uart_new : Pl011 := MkPl011 [] [] [] 0 0 0 0 0 (Z.lor CR_TXE CR_RXE) 0x12 0 0 0.

Definition pending_input (u : Pl011) : nat := length (input u) + length (rx_fifo u).
Definition take_output (u : Pl011) : list Z * Pl011 := (output u, u <| output := [] |>).
Definition irq_level (u : Pl011) : bool := test_mask (ris u) (imsc u).

Definition fifo_depth (u : Pl011) : nat := if test_mask (lcr_h u) LCR_H_FEN then FIFO_DEPTH else 1.
Definition rx_enabled (u : Pl011) : bool := Z.land (cr u) (Z.lor CR_UARTEN CR_RXE) =? Z.lor CR_UARTEN CR_RXE.

(** The loop of [fill_rx], with [room] places left in the FIFO. *)
Fixpoint fill_loop (room : nat) (fifo inp : list Z) : list Z * list Z :=
  match room with
  | O => (fifo, inp)
  | S room => match inp with
              | b :: inp => fill_loop room (fifo ++ [b]) inp
              | [] => (fifo, inp)
              end
  end.

Definition fill_rx (u : Pl011) : Pl011 :=
  if negb (rx_enabled u) then u else
  let '(fifo, inp) := fill_loop (fifo_depth u - length (rx_fifo u)) (rx_fifo u) (input u) in
  let u := u <| rx_fifo := fifo |> <| input := inp |> in
  match rx_fifo u with
  | [] => u
  | _ => u <| ris ::= fun r => Z.lor r INT_RX |>
  end.

Definition push_input (bytes : list Z) (u : Pl011) : Pl011 := fill_rx (u <| input ::= fun i => i ++ bytes |>).

Definition is_empty (l : list Z) : bool := match l with [] => true | _ => false end.

Definition flags (u : Pl011) : Z :=
  let fr := FR_TXFE in
  let fr := if is_empty (rx_fifo u) then Z.lor fr FR_RXFE else fr in
  if (fifo_depth u <=? length (rx_fifo u))%nat then Z.lor fr FR_RXFF else fr.

(** [!m] on 32 bits. *)
Definition not32 (m : Z) : Z := u32 (Z.lnot m).

Definition read_reg (reg : Z) (u : Pl011) : Z * Pl011 :=
  if reg =? DR then
    let v := match rx_fifo u with v :: _ => v | [] => 0 end in
    let u := u <| rx_fifo ::= tail |> in
    let u := if is_empty (rx_fifo u) then u <| ris ::= fun r => Z.land r (not32 (Z.lor INT_RX INT_RT)) |> else u in
    (v, fill_rx u)
  else
    (if reg =? RSR_ECR then rsr u
     else if reg =? FR then flags u
     else if reg =? ILPR then ilpr u
     else if reg =? IBRD then ibrd u
     else if reg =? FBRD then fbrd u
     else if reg =? LCR_H then lcr_h u
     else if reg =? CR then cr u
     else if reg =? IFLS then ifls u
     else if reg =? IMSC then imsc u
     else if reg =? RIS then ris u
     else if reg =? MIS then Z.land (ris u) (imsc u)
     else if reg =? DMACR then dmacr u
     else if (0xFE0 <=? reg) && (reg <=? 0xFFC) then ID !!! Z.to_nat ((reg - PERIPH_ID0) / 4)
     else 0, u).

Definition write_reg (reg v : Z) (u : Pl011) : Pl011 :=
  if reg =? DR then
    let byte := u8 v in
    let u :=
      if test_mask (cr u) CR_LBE then
        if (length (rx_fifo u) <? fifo_depth u)%nat
        then u <| rx_fifo ::= fun f => f ++ [byte] |> <| ris ::= fun r => Z.lor r INT_RX |>
        else u
      else u <| output ::= fun o => o ++ [byte] |> in
    u <| ris ::= fun r => Z.lor r INT_TX |>
  else if reg =? RSR_ECR then u <| rsr := 0 |>
  else if reg =? ILPR then u <| ilpr := Z.land v 0xFF |>
  else if reg =? IBRD then u <| ibrd := Z.land v 0xFFFF |>
  else if reg =? FBRD then u <| fbrd := Z.land v 0x3F |>
  else if reg =? LCR_H then
    let u := if test_mask (Z.lxor (lcr_h u) v) LCR_H_FEN
             then u <| rx_fifo := [] |> <| ris ::= fun r => Z.land r (not32 (Z.lor INT_RX INT_RT)) |>
             else u in
    fill_rx (u <| lcr_h := Z.land v 0xFF |>)
  else if reg =? CR then fill_rx (u <| cr := Z.land v 0xFF87 |>)
  else if reg =? IFLS then u <| ifls := Z.land v 0x3F |>
  else if reg =? IMSC then u <| imsc := Z.land v INT_MASK |>
  else if reg =? ICR then u <| ris ::= fun r => Z.land r (not32 (Z.land v INT_MASK)) |>
  else if reg =? DMACR then u <| dmacr := Z.land v 0x7 |>
  else u.

Definition read (offset size : Z) (u : Pl011) : Z * Pl011 :=
  if (0x1000 <=? offset) || (4 <? size) then (0, u) else
  let reg := Z.land offset (u64 (Z.lnot 3)) in
  let '(word, u) := read_reg reg u in
  (bus.sub_word word offset size, u).

Definition write (offset size value : Z) (u : Pl011) : Pl011 :=
  if (0x1000 <=? offset) || (4 <? size) || negb (Z.land offset 3 =? 0) then u
  else write_reg offset (u32 value) u.

#[export] Instance mmio_pl011 : MmioDevice Pl011 := {| dev_read := read; dev_write := write |}.

Definition save (u : Pl011) (w : Writer) : Writer :=
  let w := w_seq (input u) w_u8 w in
  let w := w_seq (rx_fifo u) w_u16 w in
  let w := w_bytes (output u) w in
  foldl (fun w v => w_u32 v w) w
    [rsr u; ilpr u; ibrd u; fbrd u; lcr_h u; cr u; ifls u; imsc u; ris u; dmacr u].

Definition restore : reading Pl011 :=
  i ← r_seq 1 r_u8;
  f ← r_seq 2 r_u16;
  o ← r_vec;
  a ← r_u32; b ← r_u32; c ← r_u32; d ← r_u32; e ← r_u32;
  g ← r_u32; h ← r_u32; j ← r_u32; k ← r_u32; l ← r_u32;
  mret (MkPl011 i f o a b c d e g h j k l).

End pl011.
Import pl011.

(** ** Reception *)

(** The FIFO holds at most its depth, and input waits only while the FIFO is
    full or reception is off. *)
Record uart_wf (u : Pl011) : Prop := {
  uw_depth : (length (rx_fifo u) <= fifo_depth u)%nat;
  uw_full : rx_enabled u = true -> input u <> [] -> length (rx_fifo u) = fifo_depth u;
  uw_bytes : bytes_ok (rx_fifo u) /\ bytes_ok (input u);
}.

(** What the guest has not read yet, in the order it will. *)
Definition to_come (u : Pl011) : list Z := rx_fifo u ++ input u.

Lemma fifo_depth_pos u : (1 <= fifo_depth u)%nat.
Proof. unfold fifo_depth, FIFO_DEPTH. destruct (test_mask _ _); lia. Qed.

Lemma fill_loop_shape n f i : fill_loop n f i = (f ++ take n i, drop n i).
Proof.
  revert f i. induction n as [|n IH]; intros f [|b i]; cbn; rewrite ?app_nil_r; try done.
  rewrite IH. by rewrite <- app_assoc.
Qed.

Lemma fill_rx_shape u :
  rx_enabled u = true ->
  let n := (fifo_depth u - length (rx_fifo u))%nat in
  rx_fifo (fill_rx u) = rx_fifo u ++ take n (input u) /\ input (fill_rx u) = drop n (input u) /\
  cr (fill_rx u) = cr u /\ lcr_h (fill_rx u) = lcr_h u /\ output (fill_rx u) = output u.
Proof.
  intros He n. unfold fill_rx. rewrite He. cbn [negb]. fold n. rewrite fill_loop_shape. unfold update. cbn [rx_fifo].
  destruct (rx_fifo u ++ take n (input u)) eqn:E; cbn; rewrite ?E; done.
Qed.

Lemma fill_rx_off u : rx_enabled u = false -> fill_rx u = u.
Proof. intros He. unfold fill_rx. by rewrite He. Qed.

Lemma fill_rx_regs u : cr (fill_rx u) = cr u /\ lcr_h (fill_rx u) = lcr_h u /\ output (fill_rx u) = output u.
Proof.
  destruct (rx_enabled u) eqn:He.
  - by destruct (fill_rx_shape u He) as (_ & _ & ? & ? & ?).
  - by rewrite fill_rx_off.
Qed.

Lemma fill_rx_to_come u : to_come (fill_rx u) = to_come u.
Proof.
  unfold to_come. destruct (rx_enabled u) eqn:He.
  - destruct (fill_rx_shape u He) as (-> & -> & _). by rewrite <- app_assoc, take_drop.
  - by rewrite fill_rx_off.
Qed.

Lemma fill_rx_wf u :
  (length (rx_fifo u) <= fifo_depth u)%nat -> bytes_ok (rx_fifo u) -> bytes_ok (input u) -> uart_wf (fill_rx u).
Proof.
  intros Hd Hf Hi. destruct (rx_enabled u) eqn:He.
  - destruct (fill_rx_shape u He) as (H1 & H2 & H3 & H4 & _).
    assert (fifo_depth (fill_rx u) = fifo_depth u) as Hfd by (unfold fifo_depth; by rewrite H4).
    split; rewrite ?H1, ?H2, ?Hfd.
    + rewrite length_app, length_take. lia.
    + intros _ Hne. rewrite length_app, length_take.
      destruct (Nat.le_gt_cases (fifo_depth u - length (rx_fifo u)) (length (input u))); [lia|].
      exfalso. apply Hne. apply drop_ge. lia.
    + split; [apply Forall_app; split; [done|by apply Forall_take]|by apply Forall_drop].
  - rewrite fill_rx_off by done. split; [done|congruence|done].
Qed.

Lemma read_dr u :
  let u1 := u <| rx_fifo ::= tail |> in
  let u2 := if is_empty (rx_fifo u1) then u1 <| ris ::= fun r => Z.land r (not32 (Z.lor INT_RX INT_RT)) |> else u1 in
  read_reg DR u = (match rx_fifo u with v :: _ => v | [] => 0 end, fill_rx u2)
  /\ rx_fifo u2 = tail (rx_fifo u) /\ input u2 = input u /\ fifo_depth u2 = fifo_depth u /\ rx_enabled u2 = rx_enabled u.
Proof. cbn zeta. split; [reflexivity|]. unfold update. cbn. destruct (is_empty (tail (rx_fifo u))); cbn; done. Qed.

Lemma uart_new_wf : uart_wf uart_new.
Proof. split; [cbn; lia|done|split; constructor]. Qed.

Lemma push_input_wf bytes u : uart_wf u -> bytes_ok bytes -> uart_wf (push_input bytes u).
Proof.
  intros [H1 _ [H2 H3]] Hb. apply fill_rx_wf; [exact H1|exact H2|]. by apply Forall_app.
Qed.

Lemma read_reg_wf reg u : uart_wf u -> uart_wf (read_reg reg u).2.
Proof.
  intros W. destruct (Z.eqb_spec reg DR) as [->|Hne].
  - destruct (read_dr u) as (-> & H1 & H2 & H3 & _). cbn [snd]. destruct W as [W1 _ [W2 W3]].
    apply fill_rx_wf; rewrite ?H1, ?H2, ?H3; [|by destruct (rx_fifo u); [|inversion W2]|done].
    destruct (rx_fifo u); cbn in *; lia.
  - unfold read_reg. destruct (Z.eqb_spec reg DR); [done|]. exact W.
Qed.

(** A change of registers that leaves reception as it is. *)
Lemma uart_wf_same u u' :
  uart_wf u -> rx_fifo u' = rx_fifo u -> input u' = input u -> lcr_h u' = lcr_h u -> cr u' = cr u -> uart_wf u'.
Proof.
  intros [W1 W2 W3] Hf Hi Hl Hc. unfold rx_enabled, fifo_depth in *.
  split; unfold rx_enabled, fifo_depth; rewrite ?Hf, ?Hi, ?Hl, ?Hc; auto.
Qed.

Lemma test_fen_xor a b : test_mask (Z.lxor a b) LCR_H_FEN = false -> test_mask a LCR_H_FEN = test_mask b LCR_H_FEN.
Proof.
  change LCR_H_FEN with (2 ^ 4). rewrite !test_mask_bit, Z.lxor_spec by lia.
  destruct (Z.testbit a 4), (Z.testbit b 4); done.
Qed.

Lemma land_fen v : test_mask (Z.land v 0xFF) LCR_H_FEN = test_mask v LCR_H_FEN.
Proof.
  change LCR_H_FEN with (2 ^ 4). rewrite !test_mask_bit, Z.land_spec by lia. by rewrite andb_true_r.
Qed.

Lemma write_reg_wf reg v u : uart_wf u -> uart_wf (write_reg reg v u).
Proof.
  intros W. pose proof W as [W1 W2 [W3 W4]]. unfold write_reg.
  destruct (reg =? DR).
  { apply (uart_wf_same (if test_mask (cr u) CR_LBE then
      if (length (rx_fifo u) <? fifo_depth u)%nat
      then u <| rx_fifo ::= fun f => f ++ [u8 v] |> <| ris ::= fun r => Z.lor r INT_RX |> else u
      else u <| output ::= fun o => o ++ [u8 v] |>)); try reflexivity.
    destruct (test_mask (cr u) CR_LBE); [|by apply (uart_wf_same u)].
    destruct (Nat.ltb_spec (length (rx_fifo u)) (fifo_depth u)); [|exact W].
    split; unfold update; cbn [rx_fifo input cr lcr_h].
    - rewrite length_app. change (fifo_depth _) with (fifo_depth u). cbn. lia.
    - intros He Hi. specialize (W2 He Hi). lia.
    - split; [|done]. apply Forall_app. split; [done|]. constructor; [apply is_u_u8|constructor]. }
  destruct (reg =? RSR_ECR); [by apply (uart_wf_same u)|].
  destruct (reg =? ILPR); [by apply (uart_wf_same u)|].
  destruct (reg =? IBRD); [by apply (uart_wf_same u)|].
  destruct (reg =? FBRD); [by apply (uart_wf_same u)|].
  destruct (reg =? LCR_H).
  { destruct (test_mask (Z.lxor (lcr_h u) v) LCR_H_FEN) eqn:E; apply fill_rx_wf; unfold update;
      cbn [rx_fifo input]; try done; [cbn; lia|constructor|].
    unfold fifo_depth in *. cbn [lcr_h]. rewrite land_fen, <- (test_fen_xor _ _ E). done. }
  destruct (reg =? CR); [by apply fill_rx_wf|].
  repeat (match goal with |- context [if reg =? ?r then _ else _] => destruct (reg =? r) end; [by apply (uart_wf_same u)|]).
  exact W.
Qed.

(** ** Streams *)

Inductive uart_op :=
| UPush (bytes : list Z)
| URead (offset size : Z)
| UWrite (offset size v : Z)
| UTake.

Definition uart_step (o : uart_op) (u : Pl011) : Pl011 :=
  match o with
  | UPush bytes => push_input bytes u
  | URead offset size => (read offset size u).2
  | UWrite offset size v => write offset size v u
  | UTake => (take_output u).2
  end.

Definition dr_read (offset size : Z) : bool :=
  negb ((0x1000 <=? offset) || (4 <? size)) && (Z.land offset (u64 (Z.lnot 3)) =? DR).

(** What a step gives to the guest: the byte of a read of DR, if there is one. *)
Definition received (o : uart_op) (u : Pl011) : list Z :=
  match o with
  | URead offset size => if dr_read offset size then take 1 (rx_fifo u) else []
  | _ => []
  end.

Definition pushed (o : uart_op) : list Z := match o with UPush bytes => bytes | _ => [] end.

(** The step neither loops a byte back nor toggles the FIFO enable. *)
Definition keeps_fifo (o : uart_op) (u : Pl011) : Prop :=
  match o with
  | UWrite offset size v =>
      (offset = DR -> test_mask (cr u) CR_LBE = false) /\
      (offset = LCR_H -> test_mask (Z.lxor (lcr_h u) (u32 v)) LCR_H_FEN = false)
  | _ => True
  end.

Lemma uart_step_wf o u : uart_wf u -> bytes_ok (pushed o) -> uart_wf (uart_step o u).
Proof.
  intros W Hb. destruct o; cbn [uart_step].
  - by apply push_input_wf.
  - unfold read. destruct (_ || _); [exact W|]. destruct (read_reg _ u) as [word u'] eqn:E.
    change u' with (word, u').2. rewrite <- E. by apply read_reg_wf.
  - unfold write. destruct (_ || _); [exact W|]. by apply write_reg_wf.
  - by apply (uart_wf_same u).
Qed.

Lemma write_reg_stream reg v u :
  (reg = DR -> test_mask (cr u) CR_LBE = false) ->
  (reg = LCR_H -> test_mask (Z.lxor (lcr_h u) v) LCR_H_FEN = false) ->
  to_come (write_reg reg v u) = to_come u.
Proof.
  intros HD HL. unfold write_reg. destruct (Z.eqb_spec reg DR) as [->|]; [by rewrite HD|].
  destruct (reg =? RSR_ECR); [done|]. destruct (reg =? ILPR); [done|]. destruct (reg =? IBRD); [done|].
  destruct (reg =? FBRD); [done|].
  destruct (Z.eqb_spec reg LCR_H) as [->|]; [rewrite HL by done; by rewrite fill_rx_to_come|].
  destruct (reg =? CR); [by rewrite fill_rx_to_come|].
  repeat (match goal with |- context [if reg =? ?r then _ else _] => destruct (reg =? r) end; [done|]). done.
Qed.

Lemma uart_step_stream o u : keeps_fifo o u -> received o u ++ to_come (uart_step o u) = to_come u ++ pushed o.
Proof.
  intros Hk. destruct o as [bytes|offset size|offset size v|]; cbn [received pushed uart_step].
  - unfold push_input. rewrite fill_rx_to_come. unfold to_come, update. cbn. by rewrite app_assoc.
  - rewrite app_nil_r. unfold dr_read, read. destruct (_ || _); [done|]. cbn [negb andb].
    destruct (Z.eqb_spec (Z.land offset (u64 (Z.lnot 3))) DR) as [->|Hne].
    + destruct (read_dr u) as (-> & H1 & H2 & _). cbn [snd]. rewrite fill_rx_to_come. unfold to_come.
      rewrite H1, H2. by destruct (rx_fifo u).
    + unfold read_reg. destruct (Z.eqb_spec (Z.land offset (u64 (Z.lnot 3))) DR); done.
  - rewrite app_nil_r. unfold write. destruct (_ || _); [done|]. destruct Hk as [HD HL].
    by apply write_reg_stream.
  - rewrite app_nil_r. done.
Qed.

Fixpoint uart_run (ops : list uart_op) (u : Pl011) : list Z * Pl011 :=
  match ops with
  | [] => ([], u)
  | o :: ops => let '(r, u') := uart_run ops (uart_step o u) in (received o u ++ r, u')
  end.

Fixpoint all_keep (ops : list uart_op) (u : Pl011) : Prop :=
  match ops with [] => True | o :: ops => keeps_fifo o u /\ all_keep ops (uart_step o u) end.

Lemma uart_run_stream ops u : all_keep ops u ->
  (uart_run ops u).1 ++ to_come (uart_run ops u).2 = to_come u ++ concat (map pushed ops).
Proof.
  revert u. induction ops as [|o ops IH]; intros u Hk; cbn; [by rewrite app_nil_r|].
  destruct Hk as [Ho Hk]. specialize (IH _ Hk). destruct (uart_run ops (uart_step o u)) as [r u'].
  cbn [fst snd] in *. rewrite <- app_assoc, IH, app_assoc, uart_step_stream by done. by rewrite app_assoc.
Qed.

Lemma uart_run_wf ops u : uart_wf u -> Forall (fun o => bytes_ok (pushed o)) ops -> uart_wf (uart_run ops u).2.
Proof.
  intros W Ho. revert u W. induction Ho as [|o ops Ho Hos IH]; intros u W; cbn; [done|].
  specialize (IH _ (uart_step_wf o u W Ho)). by destruct (uart_run ops (uart_step o u)).
Qed.

(** From reset, through any interleaving of host input, register accesses
    and output taken by the host in which the guest neither toggles the FIFO
    enable nor uses loopback, the bytes the guest has received followed by
    those it has not yet are exactly the bytes the host pushed, in order; and
    with reception enabled a read of DR gives the next of them. *)
Theorem uart_input_stream (ops : list uart_op) :
  Forall (fun o => bytes_ok (pushed o)) ops -> all_keep ops uart_new ->
  let r := uart_run ops uart_new in
  r.1 ++ to_come r.2 = concat (map pushed ops) /\
  (rx_enabled r.2 = true -> forall b rest, to_come r.2 = b :: rest -> (read DR 1 r.2).1 = b).
Proof.
  intros Hb Hk r. split; [apply (uart_run_stream ops uart_new Hk)|].
  pose proof (uart_run_wf ops _ uart_new_wf Hb) as W. fold r in W. destruct W as [W1 W2 [W3 W4]].
  intros He b rest Hc. unfold to_come in Hc.
  assert (exists f, rx_fifo r.2 = b :: f) as [f Hf].
  { destruct (rx_fifo r.2) as [|x f] eqn:Ef; [|cbn in Hc; injection Hc as -> _; eauto].
    cbn in Hc. assert (input r.2 <> []) as Hi by (rewrite Hc; discriminate).
    specialize (W2 He Hi). pose proof (fifo_depth_pos r.2). cbn in W2. lia. }
  unfold read. change ((0x1000 <=? DR) || (4 <? 1)) with false. cbv iota.
  change (Z.land DR (u64 (Z.lnot 3))) with DR. destruct (read_dr r.2) as (-> & _). rewrite Hf. cbn [fst].
  assert (is_u 8 b) as H8 by (rewrite Hf in W3; by inversion W3).
  unfold bus.sub_word. change (Z.land DR 3 * 8) with 0. rewrite Z.shiftr_0_r.
  change (bus.size_mask 1) with (2 ^ 8 - 1). rewrite land_ones_mod by lia. by apply mod_is_u.
Qed.

Lemma uart_input_stream_witness :
  let ops := [UPush [104; 105]; UWrite CR 4 0x301; UWrite LCR_H 4 0x60; URead DR 1; UPush [33]; URead FR 4; URead DR 4] in
  let r := uart_run ops uart_new in
  (r.1 ++ to_come r.2 = concat (map pushed ops) /\
  (rx_enabled r.2 = true -> forall b rest, to_come r.2 = b :: rest -> (read DR 1 r.2).1 = b)) /\
  r.1 = [104; 105] /\ to_come r.2 = [33].
Proof.
  cbv zeta. split; [|split; vm_compute; reflexivity].
  apply uart_input_stream; [repeat constructor; by vm_compute|].
  cbn [all_keep keeps_fifo]. repeat split; intros; try discriminate; vm_compute; reflexivity.
Defined.
