(* ===== verification/Pl031.v ===== *)
(** * The real-time clock (crates/vetro-platform/src/pl031.rs)

    A count of seconds modulo 2^32 over the time given by the host, with an
    alarm. The theorems: the alarm fires exactly when the count reaches the
    match register moving forward, however the time is divided into steps. *)

From Stdlib Require Import ZArith Lia Bool.
From stdpp Require Import base list numbers strings.
From S2P Require Import Prelude SnapWire SnapCodec PlatBus.
Local Open Scope Z_scope.
Local Open Scope vetro_scope.

Module pl031.

Definition DR : Z := 0x00.
Definition MR : Z := 0x04.
Definition LR : Z := 0x08.
Definition CR : Z := 0x0C.
Definition IMSC : Z := 0x10.
Definition RIS : Z := 0x14.
Definition MIS : Z := 0x18.
Definition ICR : Z := 0x1C.
Definition PERIPH_ID0 : Z := 0xFE0.
Definition ID : list Z := [0x31; 0x10; 0x14; 0x00; 0x0D; 0xF0; 0x05; 0xB1].

Record Pl031 := MkPl031 { now : Z; offset : Z; mr : Z; lr : Z; imsc : Z; ris : Z }.

#[export] Instance eta_Pl031 : Eta Pl031 := fun p => MkPl031 (now p) (offset p) (mr p) (lr p) (imsc p) (ris p).

Definition rtc_new (now_secs : Z) : Pl031 := MkPl031 now_secs 0 0 0 0 0.

Definition count (p : Pl031) : Z := u32 (u32 (now p) + offset p).

Definition set_time (now_secs : Z) (p : Pl031) : Pl031 :=
  let old := count p in
  let advance := Z.max (now_secs - now p) 0 in
  let p := p <| now := now_secs |> in
  if advance =? 0 then p else
  let to_match := u32 (mr p - old) in
  if (negb (to_match =? 0) && (to_match <=? advance)) || (2 ^ 32 <=? advance) then p <| ris := 1 |> else p.

Definition seconds_to_alarm (p : Pl031) : option Z :=
  if ris p =? 0 then
    let s := u32 (mr p - count p) in if negb (s =? 0) then Some s else None
  else None.

Definition irq_level (p : Pl031) : bool := test_mask (ris p) (imsc p).

Definition check_alarm_now (p : Pl031) : Pl031 := if mr p =? count p then p <| ris := 1 |> else p.

Definition read_reg (p : Pl031) (reg : Z) : Z :=
  if reg =? DR then count p
  else if reg =? MR then mr p
  else if reg =? LR then lr p
  else if reg =? CR then 1
  else if reg =? IMSC then imsc p
  else if reg =? RIS then ris p
  else if reg =? MIS then Z.land (ris p) (imsc p)
  else if (0xFE0 <=? reg) && (reg <=? 0xFFC) then ID !!! Z.to_nat ((reg - PERIPH_ID0) / 4)
  else 0.

Definition write_reg (reg v : Z) (p : Pl031) : Pl031 :=
  if reg =? MR then check_alarm_now (p <| mr := v |>)
  else if reg =? LR then check_alarm_now (p <| offset := u32 (v - u32 (now p)) |> <| lr := v |>)
  else if reg =? IMSC then p <| imsc := Z.land v 1 |>
  else if reg =? ICR then p <| ris := 0 |>
  else p.

Definition read (off size : Z) (p : Pl031) : Z :=
  if (0x1000 <=? off) || (4 <? size) then 0
  else bus.sub_word (read_reg p (Z.land off (u64 (Z.lnot 3)))) off size.

Definition write (off size value : Z) (p : Pl031) : Pl031 :=
  if (0x1000 <=? off) || negb (size =? 4) || negb (Z.land off 3 =? 0) then p
  else write_reg off (u32 value) p.

#[export] Instance mmio_pl031 : MmioDevice Pl031 :=
  {| dev_read := fun off size p => (read off size p, p); dev_write := write |}.

Definition save (p : Pl031) (w : Writer) : Writer :=
  foldl (fun w v => w_u32 v w) (w_u64 (now p) w) [offset p; mr p; lr p; imsc p; ris p].

Definition restore : reading Pl031 :=
  n ← r_u64; o ← r_u32; m ← r_u32; l ← r_u32; i ← r_u32; r ← r_u32; mret (MkPl031 n o m l i r).

End pl031.
Import pl031.

(** ** The alarm *)

Definition rtc_ok (p : Pl031) : Prop :=
  is_u 64 (now p) /\ is_u 32 (offset p) /\ is_u 32 (mr p) /\ is_u 32 (lr p) /\ is_u 1 (imsc p) /\ is_u 1 (ris p).

(** The count at time [t]. *)
Definition count_at (p : Pl031) (t : Z) : Z := u32 (t + offset p).

Lemma count_now p : count p = count_at p (now p).
Proof. unfold count, count_at, u32. by rewrite Zplus_mod_idemp_l. Qed.

(** [to_match] seconds from now, the count first matches. *)
Lemma to_match_spec p s :
  is_u 32 (mr p) -> 0 <= s -> count_at p (now p + s) = mr p <-> s mod 2 ^ 32 = u32 (mr p - count p).
Proof.
  intros Hm Hs. rewrite count_now. unfold count_at, u32, is_u in *.
  replace (now p + s + offset p) with ((now p + offset p) + s) by lia.
  rewrite Zminus_mod_idemp_r. set (c := now p + offset p). split; intros H.
  - rewrite <- H, Zminus_mod_idemp_l. f_equal. lia.
  - rewrite <- Zplus_mod_idemp_r, H, Zplus_mod_idemp_r. replace (c + (mr p - c)) with (mr p) by lia.
    by apply Z.mod_small.
Qed.

Lemma set_time_ris p t :
  rtc_ok p -> is_u 64 t ->
  ris (set_time t p) = 1 <-> ris p = 1 \/ exists s, now p < s <= t /\ count_at p s = mr p.
Proof.
  intros (Hn & Ho & Hm & _ & _ & Hr) Ht. unfold set_time.
  assert (forall s, now p < s -> count_at p s = mr p <-> (s - now p) mod 2 ^ 32 = u32 (mr p - count p)) as Hc.
  { intros s Hs. rewrite <- to_match_spec by (done || lia). by replace (now p + (s - now p)) with s by lia. }
  change (mr (p <| now := t |>)) with (mr p). set (m := u32 (mr p - count p)) in *.
  assert (0 <= m < 2 ^ 32) as Hmr by (apply is_u_u32).
  destruct (Z.eqb_spec (Z.max (t - now p) 0) 0) as [E|E].
  { split; [by left|]. intros [?|(s & Hs & _)]; [done|lia]. }
  destruct (negb (m =? 0)) eqn:E0, (Z.leb_spec m (Z.max (t - now p) 0)), (Z.leb_spec (2 ^ 32) (Z.max (t - now p) 0));
    cbn [andb orb]; split; intros H'; try (by left); try reflexivity.
  - right. exists (now p + m). split; [lia|]. apply Hc; [lia|]. replace (now p + m - now p) with m by lia.
    by apply Z.mod_small.
  - right. exists (now p + m). split; [lia|]. apply Hc; [lia|]. replace (now p + m - now p) with m by lia.
    by apply Z.mod_small.
  - right. exists (now p + m). split; [lia|]. apply Hc; [lia|]. replace (now p + m - now p) with m by lia.
    by apply Z.mod_small.
  - destruct H' as [?|(s & Hs & Hq)]; [done|]. apply Hc in Hq; [|lia]. rewrite Z.mod_small in Hq by lia. lia.
  - right. exists (now p + 2 ^ 32). split; [lia|]. apply Hc; [lia|].
    replace (now p + 2 ^ 32 - now p) with (0 + 1 * 2 ^ 32) by lia. rewrite Z.mod_add by lia.
    destruct (Z.eqb_spec m 0); [done|discriminate].
  - destruct H' as [?|(s & Hs & Hq)]; [done|]. apply Hc in Hq; [|lia]. rewrite Z.mod_small in Hq by lia.
    destruct (Z.eqb_spec m 0); [lia|discriminate].
  - right. exists (now p + 2 ^ 32). split; [lia|]. apply Hc; [lia|].
    replace (now p + 2 ^ 32 - now p) with (0 + 1 * 2 ^ 32) by lia. rewrite Z.mod_add by lia.
    destruct (Z.eqb_spec m 0); [done|discriminate].
  - destruct H' as [?|(s & Hs & Hq)]; [done|]. apply Hc in Hq; [|lia]. rewrite Z.mod_small in Hq by lia. lia.
Qed.

Lemma set_time_frame p t :
  now (set_time t p) = t /\ offset (set_time t p) = offset p /\ mr (set_time t p) = mr p /\ lr (set_time t p) = lr p /\
  imsc (set_time t p) = imsc p /\ (ris (set_time t p) = ris p \/ ris (set_time t p) = 1).
Proof. unfold set_time. repeat case_match; unfold update; cbn; auto 10. Qed.

Lemma set_time_ok p t : rtc_ok p -> is_u 64 t -> rtc_ok (set_time t p).
Proof.
  intros (Hn & Ho & Hm & Hl & Hi & Hr) Ht. destruct (set_time_frame p t) as (H1 & H2 & H3 & H4 & H5 & H6).
  unfold rtc_ok. rewrite H1, H2, H3, H4, H5. repeat split; try apply Ht; try apply Ho; try apply Hm; try apply Hl; try apply Hi.
  all: destruct H6 as [-> | ->]; try apply Hr; lia.
Qed.

(** Moving the time forward raises the alarm exactly when some second on
    the way has the count equal to the match register, modulo 2^32; so the
    state after a move does not depend on how it is divided into steps; and
    the seconds announced to the host are the first at which the alarm fires. *)
Theorem rtc_alarm_exact (p : Pl031) (a b : Z) :
  rtc_ok p -> now p <= a <= b -> is_u 64 b ->
  (ris (set_time b p) = 1 <-> ris p = 1 \/ exists s, now p < s <= b /\ count_at p s = mr p) /\
  set_time b (set_time a p) = set_time b p /\
  (forall n, seconds_to_alarm p = Some n -> now p + n < 2 ^ 64 ->
     ris (set_time (now p + n) p) = 1 /\ forall t, now p <= t < now p + n -> ris (set_time t p) = 0).
Proof.
  intros Hok Hab Hb. pose proof Hok as (Hn & Ho & Hm & _ & _ & Hr).
  assert (is_u 64 a) as Ha by (unfold is_u in *; lia).
  split; [by apply set_time_ris|]. split.
  - pose proof (set_time_ok p a Hok Ha) as Hok'.
    destruct (set_time_frame p a) as (H1 & H2 & H3 & H4 & H5 & H6).
    destruct (set_time_frame (set_time a p) b) as (K1 & K2 & K3 & K4 & K5 & K6).
    destruct (set_time_frame p b) as (L1 & L2 & L3 & L4 & L5 & L6).
    assert (ris (set_time b (set_time a p)) = ris (set_time b p)) as He.
    { pose proof (set_time_ris _ b Hok' Hb) as R1. pose proof (set_time_ris p b Hok Hb) as R2.
      pose proof (set_time_ris p a Hok Ha) as R3.
      assert (ris (set_time b (set_time a p)) = 1 <-> ris (set_time b p) = 1) as Hiff.
      { rewrite R1, R2, R3, H1, H3. unfold count_at. rewrite H2. split.
        - intros [[?|(s & Hs & Hq)]|(s & Hs & Hq)]; [by left|right; exists s; split; [lia|done]..].
        - intros [?|(s & Hs & Hq)]; [by left; left|]. destruct (Z.le_gt_cases s a).
          + left. right. exists s. split; [lia|done].
          + right. exists s. split; [lia|done]. }
      pose proof (set_time_ok _ b Hok' Hb) as (_ & _ & _ & _ & _ & X). pose proof (set_time_ok p b Hok Hb) as (_ & _ & _ & _ & _ & Y).
      unfold is_u in X, Y. change (2 ^ 1) with 2 in *. lia. }
    destruct (set_time b (set_time a p)), (set_time b p). cbn in *. congruence.
  - intros n Hs Hlt. unfold seconds_to_alarm in Hs. destruct (Z.eqb_spec (ris p) 0) as [Hz|]; [|discriminate].
    destruct (Z.eqb_spec (u32 (mr p - count p)) 0) as [|Hne]; [discriminate|]. cbn [negb] in Hs. injection Hs as Hs.
    assert (0 <= n < 2 ^ 32) as Hnr by (rewrite <- Hs; apply is_u_u32). unfold is_u in Hn. split.
    + apply set_time_ris; [done|unfold is_u; lia|]. right. exists (now p + n). split; [lia|].
      apply to_match_spec; [done|lia|]. rewrite Hs. by apply Z.mod_small.
    + intros t Ht. assert (is_u 64 t) as Htu by (unfold is_u; lia).
      pose proof (set_time_ris p t Hok Htu) as R. pose proof (set_time_ok p t Hok Htu) as (_ & _ & _ & _ & _ & X).
      unfold is_u in X. change (2 ^ 1) with 2 in X. assert (ris (set_time t p) <> 1); [|lia].
      intros H. apply R in H as [?|(s & Hsr & Hq)]; [lia|].
      replace s with (now p + (s - now p)) in Hq by lia. apply to_match_spec in Hq; [|done|lia].
      rewrite Z.mod_small in Hq by lia. lia.
Qed.

Lemma rtc_alarm_exact_witness :
  let p := write MR 4 1010 (rtc_new 1000) in
  ((ris (set_time 1020 p) = 1 <-> ris p = 1 \/ exists s, now p < s <= 1020 /\ count_at p s = mr p) /\
  set_time 1020 (set_time 1005 p) = set_time 1020 p /\
  (forall n, seconds_to_alarm p = Some n -> now p + n < 2 ^ 64 ->
     ris (set_time (now p + n) p) = 1 /\ forall t, now p <= t < now p + n -> ris (set_time t p) = 0)) /\
  seconds_to_alarm p = Some 10.
Proof.
  cbv zeta. split; [|vm_compute; reflexivity].
  apply rtc_alarm_exact; [repeat split; by vm_compute|vm_compute; split; discriminate|by vm_compute].
Defined.
