(* ===== verification/Pl061.v ===== *)
(** * The GPIO controller (crates/vetro-platform/src/pl061.rs)

    Eight lines with edge and level interrupts. The theorems: every operation
    leaves the edge detector settled, and what driving an input line does to
    each interrupt. *)

From Stdlib Require Import ZArith Lia Bool.
From stdpp Require Import base list numbers strings.
From S2P Require Import Prelude SnapWire SnapCodec PlatBus.
Local Open Scope Z_scope.
Local Open Scope vetro_scope.

Module pl061.

Definition DATA : Z := 0x000.
Definition DIR : Z := 0x400.
Definition IS : Z := 0x404.
Definition IBE : Z := 0x408.
Definition IEV : Z := 0x40C.
Definition IE : Z := 0x410.
Definition RIS : Z := 0x414.
Definition MIS : Z := 0x418.
Definition IC : Z := 0x41C.
Definition AFSEL : Z := 0x420.
Definition PERIPH_ID0 : Z := 0xFE0.
Definition POWER_KEY_LINE : Z := 3.
Definition ID : list Z := [0x61; 0x10; 0x04; 0x00; 0x0D; 0xF0; 0x05; 0xB1].

Record Pl061 := MkPl061 {
  data : Z;
  old_in : Z;
  dir : Z;
  is_ : Z;
  ibe : Z;
  iev : Z;
  ie : Z;
  ris : Z;
  afsel : Z;
}.

#[export] Instance eta_Pl061 : Eta Pl061 := fun p =>
  MkPl061 (data p) (old_in p) (dir p) (is_ p) (ibe p) (iev p) (ie p) (ris p) (afsel p).

Definition gpio_new : Pl061 := MkPl061 0 0 0 0 0 0 0 0 0.

(** [!x] on 8 bits. *)
Definition not8 (x : Z) : Z := u8 (Z.lnot x).

Definition update_irq (p : Pl061) : Pl061 :=
  let changed := Z.land (Z.lxor (old_in p) (data p)) (not8 (dir p)) in
  let p :=
    if negb (changed =? 0) then
      let p := p <| old_in := data p |> in
      let edge := Z.land changed (not8 (is_ p)) in
      p <| ris ::= fun r => Z.lor r (Z.land edge (Z.lor (ibe p) (not8 (Z.lxor (data p) (iev p))))) |>
    else p in
  p <| ris ::= fun r => Z.lor r (Z.land (not8 (Z.lxor (data p) (iev p))) (is_ p)) |>.

Definition set_input (line : Z) (level : bool) (p : Pl061) : Pl061 :=
  let mask := Z.shiftl 1 (Z.land line 7) in
  if Z.land (dir p) mask =? 0
  then update_irq (p <| data := Z.lor (Z.land (data p) (not8 mask)) (if level then mask else 0) |>)
  else p.

Definition outputs (p : Pl061) : Z := Z.land (data p) (dir p).
Definition irq_level (p : Pl061) : bool := test_mask (ris p) (ie p).

Definition read_reg (p : Pl061) (reg : Z) : Z :=
  if (0x000 <=? reg) && (reg <=? 0x3FC) then Z.land (data p) (u8 (Z.shiftr reg 2))
  else if reg =? DIR then dir p
  else if reg =? IS then is_ p
  else if reg =? IBE then ibe p
  else if reg =? IEV then iev p
  else if reg =? IE then ie p
  else if reg =? RIS then ris p
  else if reg =? MIS then Z.land (ris p) (ie p)
  else if reg =? AFSEL then afsel p
  else if (0xFE0 <=? reg) && (reg <=? 0xFFC) then ID !!! Z.to_nat ((reg - PERIPH_ID0) / 4)
  else 0.

Definition write_reg (reg v : Z) (p : Pl061) : Pl061 :=
  if (0x000 <=? reg) && (reg <=? 0x3FC) then
    let mask := Z.land (u8 (Z.shiftr reg 2)) (dir p) in
    update_irq (p <| data := Z.lor (Z.land (data p) (not8 mask)) (Z.land v mask) |>)
  else if reg =? DIR then update_irq (p <| dir := v |>)
  else if reg =? IS then update_irq (p <| is_ := v |>)
  else if reg =? IBE then update_irq (p <| ibe := v |>)
  else if reg =? IEV then update_irq (p <| iev := v |>)
  else if reg =? IE then update_irq (p <| ie := v |>)
  else if reg =? IC then update_irq (p <| ris := Z.land (ris p) (not8 v) |>)
  else if reg =? AFSEL then update_irq (p <| afsel := v |>)
  else p.

Definition read (off size : Z) (p : Pl061) : Z :=
  if (0x1000 <=? off) || (4 <? size) then 0
  else bus.sub_word (read_reg p (Z.land off (u64 (Z.lnot 3)))) off size.

Definition write (off size value : Z) (p : Pl061) : Pl061 :=
  if (0x1000 <=? off) || (4 <? size) || negb (Z.land off 3 =? 0) then p
  else write_reg off (u8 value) p.

#[export] Instance mmio_pl061 : MmioDevice Pl061 :=
  {| dev_read := fun off size p => (read off size p, p); dev_write := write |}.

Definition save (p : Pl061) : Writer -> Writer :=
  w_raw [data p; old_in p; dir p; is_ p; ibe p; iev p; ie p; ris p; afsel p].

(** [r_raw 9] gives nine bytes: the [expect] holds. *)
Definition restore : reading Pl061 :=
  b ← r_raw 9;
  match b with
  | [a; o; d; i; e; v; n; r; f] => mret (MkPl061 a o d i e v n r f)
  | _ => throw Truncated
  end.

End pl061.
Import pl061.

(** ** Interrupts *)

Definition gpio_ok (p : Pl061) : Prop :=
  is_u 8 (data p) /\ is_u 8 (old_in p) /\ is_u 8 (dir p) /\ is_u 8 (is_ p) /\ is_u 8 (ibe p) /\ is_u 8 (iev p) /\
  is_u 8 (ie p) /\ is_u 8 (ris p) /\ is_u 8 (afsel p).

(** Every change of an input line has been seen by the edge detector. *)
Definition settled (p : Pl061) : Prop :=
  forall b, 0 <= b < 8 -> Z.testbit (dir p) b = false -> Z.testbit (old_in p) b = Z.testbit (data p) b.

Lemma testbit_not8 x b : 0 <= b < 8 -> Z.testbit (not8 x) b = negb (Z.testbit x b).
Proof. intros Hb. unfold not8, u8. rewrite Z.testbit_mod_pow2, Z.lnot_spec by lia. destruct (Z.ltb_spec b 8); [done|lia]. Qed.

Lemma update_settled p : settled (update_irq p).
Proof.
  intros b Hb Hd. unfold update_irq in *.
  destruct (Z.eqb_spec (Z.land (Z.lxor (old_in p) (data p)) (not8 (dir p))) 0) as [E|E]; [|done].
  cbn [negb] in *. change (Z.testbit (old_in p) b = Z.testbit (data p) b).
  change (Z.testbit (dir p) b = false) in Hd.
  assert (Z.testbit (Z.land (Z.lxor (old_in p) (data p)) (not8 (dir p))) b = false) as H by (rewrite E; apply Z.testbit_0_l).
  rewrite Z.land_spec, Z.lxor_spec, testbit_not8, Hd in H by done. cbn in H. rewrite andb_true_r in H.
  by destruct (Z.testbit (old_in p) b), (Z.testbit (data p) b).
Qed.

(** What [update_irq] adds to each interrupt. *)
Lemma update_ris p b :
  0 <= b < 8 ->
  Z.testbit (ris (update_irq p)) b
  = Z.testbit (ris p) b
    || (xorb (Z.testbit (old_in p) b) (Z.testbit (data p) b) && negb (Z.testbit (dir p) b) && negb (Z.testbit (is_ p) b)
        && (Z.testbit (ibe p) b || eqb (Z.testbit (data p) b) (Z.testbit (iev p) b)))
    || (Z.testbit (is_ p) b && eqb (Z.testbit (data p) b) (Z.testbit (iev p) b)).
Proof.
  intros Hb. unfold update_irq.
  destruct (Z.eqb_spec (Z.land (Z.lxor (old_in p) (data p)) (not8 (dir p))) 0) as [E|E]; unfold update; cbn [negb ris data iev is_ ibe];
    rewrite ?Z.lor_spec, ?Z.land_spec, ?Z.lor_spec, !testbit_not8, ?Z.land_spec, ?Z.lxor_spec by done;
    rewrite ?testbit_not8 by done.
  - assert (Z.testbit (Z.land (Z.lxor (old_in p) (data p)) (not8 (dir p))) b = false) as H by (rewrite E; apply Z.testbit_0_l).
    rewrite Z.land_spec, Z.lxor_spec, testbit_not8 in H by done. rewrite H. cbn [andb].
    rewrite orb_false_r. f_equal. rewrite andb_comm. f_equal.
    by destruct (Z.testbit (data p) b), (Z.testbit (iev p) b).
  - f_equal; [f_equal; f_equal; f_equal; by destruct (Z.testbit (data p) b), (Z.testbit (iev p) b)|].
    rewrite andb_comm. f_equal. by destruct (Z.testbit (data p) b), (Z.testbit (iev p) b).
Qed.

Lemma update_frame p :
  data (update_irq p) = data p /\ dir (update_irq p) = dir p /\ is_ (update_irq p) = is_ p /\ ibe (update_irq p) = ibe p /\
  iev (update_irq p) = iev p /\ ie (update_irq p) = ie p.
Proof. unfold update_irq. by destruct (negb _). Qed.

Lemma write_reg_settled reg v p : settled p -> settled (write_reg reg v p).
Proof. intros H. unfold write_reg. repeat case_match; try apply update_settled; exact H. Qed.

Lemma set_input_settled line lvl p : settled p -> settled (set_input line lvl p).
Proof. intros H. unfold set_input. destruct (_ =? 0); [apply update_settled|exact H]. Qed.

(** Driving a line: the new data. *)
Lemma set_input_data line lvl p b :
  0 <= line < 8 -> 0 <= b < 8 -> Z.testbit (dir p) line = false ->
  Z.testbit (data (set_input line lvl p)) b = (if b =? line then lvl else Z.testbit (data p) b) /\
  set_input line lvl p = update_irq (p <| data := Z.lor (Z.land (data p) (not8 (Z.shiftl 1 line))) (if lvl then Z.shiftl 1 line else 0) |>).
Proof.
  intros Hl Hb Hd. unfold set_input.
  assert (Z.land line 7 = line) as Hm by (change 7 with (2 ^ 3 - 1); rewrite land_ones_mod by lia; apply Z.mod_small; lia).
  rewrite Hm. assert (Z.land (dir p) (Z.shiftl 1 line) =? 0 = true) as ->.
  { rewrite Z.shiftl_1_l. pose proof (test_mask_bit (dir p) line ltac:(lia)) as H. rewrite Hd in H. unfold test_mask in H.
    by destruct (_ =? 0). }
  split; [|done]. destruct (update_frame (p <| data := Z.lor (Z.land (data p) (not8 (Z.shiftl 1 line))) (if lvl then Z.shiftl 1 line else 0) |>)) as (-> & _).
  unfold update. cbn [data]. rewrite Z.lor_spec, Z.land_spec, testbit_not8, Z.shiftl_1_l, Z.pow2_bits_eqb by lia.
  rewrite (Z.eqb_sym line b). destruct (Z.eqb_spec b line) as [->|Hne]; cbn [negb].
  - rewrite andb_false_r. cbn [orb]. destruct lvl; [by rewrite Z.pow2_bits_true by lia|by rewrite Z.testbit_0_l].
  - rewrite andb_true_r. destruct lvl; [|by rewrite Z.testbit_0_l, orb_false_r].
    rewrite Z.pow2_bits_false by lia. by rewrite orb_false_r.
Qed.

(** Driving an input line of a settled controller to a level raises the
    interrupt of that line exactly on the edge chosen by IBE and IEV when it is
    edge-triggered, re-raises every level-triggered interrupt whose line is at
    its active level, clears none and raises no other; the controller stays
    settled and the data of the other lines is unchanged. *)
Theorem gpio_input_interrupts (p : Pl061) (line : Z) (lvl : bool) :
  settled p -> 0 <= line < 8 -> Z.testbit (dir p) line = false ->
  let p' := set_input line lvl p in
  settled p' /\
  (forall b, 0 <= b < 8 -> Z.testbit (data p') b = if b =? line then lvl else Z.testbit (data p) b) /\
  (forall b, 0 <= b < 8 ->
     Z.testbit (ris p') b
     = Z.testbit (ris p) b
       || (Z.testbit (is_ p) b && eqb (Z.testbit (data p') b) (Z.testbit (iev p) b))
       || ((b =? line) && negb (Z.testbit (is_ p) b) && xorb lvl (Z.testbit (data p) b)
           && (Z.testbit (ibe p) b || eqb lvl (Z.testbit (iev p) b)))).
Proof.
  intros Hs Hl Hd p'. split; [by apply set_input_settled|]. split; [intros b Hb; by apply set_input_data|].
  intros b Hb. destruct (set_input_data line lvl p b Hl Hb Hd) as [Hdat Heq]. fold p' in Hdat, Heq.
  rewrite Heq at 1. rewrite update_ris by done. rewrite Heq in Hdat at 1.
  destruct (update_frame (p <| data := Z.lor (Z.land (data p) (not8 (Z.shiftl 1 line))) (if lvl then Z.shiftl 1 line else 0) |>)) as (Hu & _).
  assert (data p' = Z.lor (Z.land (data p) (not8 (Z.shiftl 1 line))) (if lvl then Z.shiftl 1 line else 0)) as Hd' by (by rewrite Heq, Hu).
  rewrite Hu in Hdat. unfold update in *. cbn [data old_in dir is_ ibe iev ris] in *. rewrite Hd'.
  set (nd := Z.lor (Z.land (data p) (not8 (Z.shiftl 1 line))) (if lvl then Z.shiftl 1 line else 0)) in *.
  destruct (Z.eqb_spec b line) as [->|Hne]; rewrite Hdat.
  - rewrite (Hs line Hl Hd), Hd. cbn [negb andb]. rewrite andb_true_r.
    destruct (Z.testbit (ris p) line), (Z.testbit (is_ p) line), (Z.testbit (ibe p) line), (Z.testbit (iev p) line), lvl,
      (Z.testbit (data p) line); reflexivity.
  - cbn [andb]. rewrite orb_false_r. destruct (Z.testbit (dir p) b) eqn:Edb.
    + rewrite andb_false_r. cbn [andb]. by rewrite orb_false_r.
    + rewrite (Hs b Hb Edb), xorb_nilpotent. cbn [andb]. by rewrite orb_false_r.
Qed.

Lemma gpio_input_interrupts_witness :
  let p := write IE 1 8 (write IEV 1 8 gpio_new) in
  let p' := set_input POWER_KEY_LINE true p in
  (settled p' /\
  (forall b, 0 <= b < 8 -> Z.testbit (data p') b = if b =? POWER_KEY_LINE then true else Z.testbit (data p) b) /\
  (forall b, 0 <= b < 8 ->
     Z.testbit (ris p') b
     = Z.testbit (ris p) b
       || (Z.testbit (is_ p) b && eqb (Z.testbit (data p') b) (Z.testbit (iev p) b))
       || ((b =? POWER_KEY_LINE) && negb (Z.testbit (is_ p) b) && xorb true (Z.testbit (data p) b)
           && (Z.testbit (ibe p) b || eqb true (Z.testbit (iev p) b))))) /\
  irq_level p' = true.
Proof.
  cbv zeta. split; [|vm_compute; reflexivity].
  apply gpio_input_interrupts; [|by vm_compute|vm_compute; reflexivity].
  do 2 apply write_reg_settled. intros b _ _. done.
Defined.
