(* ===== verification/VirtQueue.v ===== *)
(** * Guest memory and split virtqueues (crates/vetro-platform/src/virtio/mod.rs, queue.rs)

    [GuestRam] as devices see it, descriptor chains, and the device side of a
    split queue. Arithmetic on guest addresses wraps around at 64 bits; a
    division by a queue size of zero is [Panicked]. *)

From Stdlib Require Import ZArith Lia Bool.
From stdpp Require Import base list numbers strings pretty.
From S2P Require Import Prelude SnapWire.
Local Open Scope Z_scope.
Local Open Scope vetro_scope.

(** ** Guest memory *)

Record RamError := MkRamError { re_addr : Z; re_len : nat }.

#[export] Instance RamError_eq_dec : EqDecision RamError.
Proof. solve_decision. Defined.

(** [trait GuestRam]: a failing write may leave partial effects. *)
Class GuestRam (R : Type) := {
  ram_read : Z -> nat -> R -> result (list Z) RamError;
  ram_write : Z -> list Z -> prog R RamError unit;
}.

(** Contiguous memory. *)
Record VecRam := MkVecRam { vr_base : Z; vr_bytes : list Z }.

#[export] Instance eta_VecRam : Eta VecRam := fun r => MkVecRam (vr_base r) (vr_bytes r).

Definition vecram_new (base : Z) (size : nat) : VecRam := MkVecRam base (replicate size 0).

Definition vr_range (r : VecRam) (addr : Z) (len : nat) : result (nat * nat) RamError :=
  let err := MkRamError addr len in
  if addr <? vr_base r then Err err else
  let start := addr - vr_base r in
  let end_ := start + Z.of_nat len in
  if 2 ^ 64 <=? end_ then Err err
  else if Z.of_nat (length (vr_bytes r)) <? end_ then Err err
  else Ok (Z.to_nat start, Z.to_nat end_).

#[export] Instance vecram_guest : GuestRam VecRam := {|
  ram_read addr len r :=
    match vr_range r addr len with
    | Ok (a, b) => Ok (take (b - a) (drop a (vr_bytes r)))
    | Err e => Err e
    end;
  ram_write addr data r :=
    match vr_range r addr (length data) with
    | Ok (a, _) => (Ok tt, r <| vr_bytes ::= overwrite a data |>)
    | Err e => (Err e, r)
    end;
|}.

Section ram.
Context {R : Type} `{!GuestRam R}.

Definition read_u16 (addr : Z) (r : R) : result Z RamError := map_ok from_le (ram_read addr 2 r).
Definition read_u32 (addr : Z) (r : R) : result Z RamError := map_ok from_le (ram_read addr 4 r).
Definition read_u64 (addr : Z) (r : R) : result Z RamError := map_ok from_le (ram_read addr 8 r).
Definition write_u16 (addr v : Z) : prog R RamError unit := ram_write addr (to_le 2 v).
Definition write_u32 (addr v : Z) : prog R RamError unit := ram_write addr (to_le 4 v).
End ram.

(** ** Descriptor chains *)

Definition DESC_F_NEXT : Z := 1.
Definition DESC_F_WRITE : Z := 2.
Definition DESC_F_INDIRECT : Z := 4.
Definition AVAIL_F_NO_INTERRUPT : Z := 1.
Definition MAX_QUEUE_SIZE : Z := 32768.

Inductive QueueError :=
| Ram (e : RamError)
| AvailIdx (last avail : Z)
| HeadOutOfRange (h : Z)
| NextOutOfRange (n : Z)
| ChainLoop
| ReadableAfterWritable
| IndirectNotNegotiated
| IndirectLen (l : Z)
| IndirectMisplaced
| Malformed (m : string).

#[export] Instance QueueError_eq_dec : EqDecision QueueError.
Proof. solve_decision. Defined.

(** An error of the queue, a panic, or a loop over the queue that has not
    ended within its fuel. *)
Inductive halt := Failed (e : QueueError) | Panicked | OutOfFuel.

Record Buf := MkBuf { buf_addr : Z; buf_len : Z }.

#[export] Instance Buf_eq_dec : EqDecision Buf.
Proof. solve_decision. Defined.

Record DescChain := MkChain { head : Z; readable : list Buf; writable : list Buf }.

#[export] Instance eta_DescChain : Eta DescChain := fun c => MkChain (head c) (readable c) (writable c).

Definition total_len (bufs : list Buf) : Z := foldr (fun b n => buf_len b + n) 0 bufs.

Definition readable_len (c : DescChain) : Z := total_len (readable c).
Definition writable_len (c : DescChain) : Z := total_len (writable c).

(** The pieces [(addr, start, end)] that [for_each_piece] visits, in order. *)
Fixpoint pieces (bufs : list Buf) (offset : Z) (done len : nat) : list (Z * nat * nat) :=
  match bufs with
  | [] => []
  | b :: bufs =>
      if (done =? len)%nat then [] else
      if buf_len b <=? offset then pieces bufs (offset - buf_len b) done len else
      let n := Nat.min (Z.to_nat (buf_len b - offset)) (len - done) in
      (u64 (buf_addr b + offset), done, (done + n)%nat) :: pieces bufs 0 (done + n) len
  end.

(** The count [for_each_piece] returns when no piece fails. *)
Definition pieces_done (ps : list (Z * nat * nat)) : nat :=
  match last ps with Some (_, _, e) => e | None => O end.

Section queue.
Context {R : Type} `{!GuestRam R}.

(** The bytes read, in place of the buffer they are copied to. *)
Fixpoint read_pieces (ps : list (Z * nat * nat)) (r : R) : result (list Z) RamError :=
  match ps with
  | [] => Ok []
  | (addr, a, b) :: ps =>
      match ram_read addr (b - a) r with
      | Err e => Err e
      | Ok d => match read_pieces ps r with Ok l => Ok (d ++ l) | Err e => Err e end
      end
  end.

Definition chain_read (c : DescChain) (offset : Z) (len : nat) (r : R) : result (list Z) RamError :=
  read_pieces (pieces (readable c) offset 0 len) r.

(** [read_to_vec] of the chain; what is not read stays zero. *)
Definition read_to_vec (c : DescChain) (offset : Z) (r : R) : result (list Z) RamError :=
  let len := Z.to_nat (readable_len c - offset) in
  match chain_read c offset len r with
  | Ok d => Ok (d ++ replicate (len - length d) 0)
  | Err e => Err e
  end.

Fixpoint write_pieces (ps : list (Z * nat * nat)) (data : list Z) : prog R RamError unit :=
  match ps with
  | [] => mret tt
  | (addr, a, b) :: ps => ram_write addr (take (b - a) (drop a data));; write_pieces ps data
  end.

Definition chain_write (c : DescChain) (offset : Z) (data : list Z) : prog R RamError nat :=
  let ps := pieces (writable c) offset 0 (length data) in
  write_pieces ps data;; mret (pieces_done ps).

(** ** Descriptors *)

Record Desc := MkDesc { d_addr : Z; d_len : Z; d_flags : Z; d_next : Z }.

Definition read_desc (table i : Z) (r : R) : result Desc RamError :=
  match ram_read (u64 (table + 16 * i)) 16 r with
  | Err e => Err e
  | Ok b => Ok (MkDesc (from_le (take 8 b)) (from_le (take 4 (drop 8 b))) (from_le (take 2 (drop 12 b)))
                  (from_le (take 2 (drop 14 b))))
  end.

(** An event is needed if [event] lies in [old, new) modulo 2^16. *)
Definition need_event (event new old : Z) : bool := u16 (u16 (new - event) - 1) <? u16 (new - old).

(** ** The queue *)

Record Virtqueue := MkQueue {
  max_size : Z;
  size : Z;
  ready : bool;
  desc : Z;
  driver : Z;
  device : Z;
  last_avail : Z;
  used_idx : Z;
  signalled_used : Z;
  event_idx : bool;
  indirect : bool;
}.

#[global] Instance eta_Virtqueue : Eta Virtqueue := fun q =>
  MkQueue (max_size q) (size q) (ready q) (desc q) (driver q) (device q) (last_avail q) (used_idx q)
    (signalled_used q) (event_idx q) (indirect q).

Definition queue_new (max : Z) : Virtqueue := MkQueue max max false 0 0 0 0 0 0 false false.
Definition queue_reset (q : Virtqueue) : Virtqueue := queue_new (max_size q).

Definition set_size (n : Z) (q : Virtqueue) : Virtqueue := q <| size := n |>.
Definition set_desc (a : Z) (q : Virtqueue) : Virtqueue := q <| desc := a |>.
Definition set_driver (a : Z) (q : Virtqueue) : Virtqueue := q <| driver := a |>.
Definition set_device (a : Z) (q : Virtqueue) : Virtqueue := q <| device := a |>.

(** [u16::is_power_of_two]. *)
Definition is_power_of_two (n : Z) : bool := (0 <? n) && (n =? 2 ^ Z.log2 n).

Definition queue_valid (q : Virtqueue) : bool :=
  negb (size q =? 0) && is_power_of_two (size q) && (size q <=? max_size q)
  && (desc q mod 16 =? 0) && (driver q mod 2 =? 0) && (device q mod 4 =? 0).

Definition set_ready (r : bool) (q : Virtqueue) : Virtqueue :=
  let q := q <| ready := r && queue_valid q |> in
  if ready q then q <| last_avail := 0 |> <| used_idx := 0 |> <| signalled_used := 0 |> else q.

Definition lift_ram {A} (r : result A RamError) : result A QueueError := map_err Ram r.

Definition avail_idx (q : Virtqueue) (r : R) : result Z QueueError :=
  match read_u16 (u64 (driver q + 2)) r with
  | Err e => Err (Ram e)
  | Ok idx => if size q <? u16 (idx - last_avail q) then Err (AvailIdx (last_avail q) idx) else Ok idx
  end.

Definition available (q : Virtqueue) (r : R) : result Z QueueError :=
  if negb (ready q) then Ok 0 else map_ok (fun idx => u16 (idx - last_avail q)) (avail_idx q r).

(** The methods of the queue: the queue, then the memory. *)
Abbreviation queueing := (prog (Virtqueue * R) halt).

Definition on_ram {A} (m : prog R RamError A) : queueing A := fun s =>
  match m s.2 with
  | (Ok a, r) => (Ok a, (s.1, r))
  | (Err e, r) => (Err (Failed (Ram e)), (s.1, r))
  end.

Definition from_ram {A} (f : R -> result A RamError) : queueing A := fun s =>
  (map_err (fun e => Failed (Ram e)) (f s.2), s).

Definition from_queue {A} (f : Virtqueue -> R -> result A QueueError) : queueing A := fun s =>
  (map_err Failed (f s.1 s.2), s).

Definition set_queue (f : Virtqueue -> Virtqueue) : queueing unit := modify (fun s => (f s.1, s.2)).

Definition publish_avail_event : queueing unit :=
  q ← gets fst;
  if event_idx q then on_ram (write_u16 (u64 (device q + 4 + 8 * size q)) (last_avail q)) else mret tt.

(** [self.last_avail % self.size], which panics on a size of zero. *)
Definition slot_of (idx : Virtqueue -> Z) : queueing Z :=
  q ← gets fst;
  if size q =? 0 then throw Panicked else mret (idx q mod size q).

(** The loop of [walk]: [budget] descriptors may still be visited. *)
Fixpoint walk_loop (budget : nat) (table table_len : Z) (d : Desc) (c : DescChain) (r : R) : result DescChain QueueError :=
  match budget with
  | O => Err ChainLoop
  | S budget =>
      if test_mask (d_flags d) DESC_F_INDIRECT then Err IndirectMisplaced else
      let buf := MkBuf (d_addr d) (d_len d) in
      let pushed :=
        if test_mask (d_flags d) DESC_F_WRITE then Some (c <| writable ::= fun w => w ++ [buf] |>)
        else match writable c with
             | [] => Some (c <| readable ::= fun w => w ++ [buf] |>)
             | _ => None
             end in
      match pushed with
      | None => Err ReadableAfterWritable
      | Some c =>
          if negb (test_mask (d_flags d) DESC_F_NEXT) then Ok c
          else if table_len <=? d_next d then Err (NextOutOfRange (d_next d))
          else match read_desc table (d_next d) r with
               | Err e => Err (Ram e)
               | Ok d => walk_loop budget table table_len d c r
               end
      end
  end.

Definition walk (q : Virtqueue) (h : Z) (r : R) : result DescChain QueueError :=
  if size q <=? h then Err (HeadOutOfRange h) else
  match read_desc (desc q) h r with
  | Err e => Err (Ram e)
  | Ok d =>
      let c := MkChain h [] [] in
      if test_mask (d_flags d) DESC_F_INDIRECT then
        if negb (indirect q) then Err IndirectNotNegotiated
        else if (d_len d =? 0) || negb (d_len d mod 16 =? 0) || (MAX_QUEUE_SIZE <? d_len d / 16)
        then Err (IndirectLen (d_len d))
        else
          let table_len := d_len d / 16 in
          match read_desc (d_addr d) 0 r with
          | Err e => Err (Ram e)
          | Ok d' => walk_loop (Z.to_nat table_len) (d_addr d) table_len d' c r
          end
      else walk_loop (Z.to_nat (size q)) (desc q) (size q) d c r
  end.

Definition pop : queueing (option DescChain) :=
  q ← gets fst;
  if negb (ready q) then mret None else
  avail ← from_queue avail_idx;
  if avail =? last_avail q then publish_avail_event;; mret None else
  slot ← slot_of last_avail;
  h ← from_ram (read_u16 (u64 (driver q + 4 + 2 * slot)));
  chain ← from_queue (fun q => walk q h);
  set_queue (fun q => q <| last_avail ::= fun i => u16 (i + 1) |>);;
  publish_avail_event;;
  mret (Some chain).

Definition rewind (n : Z) : queueing unit :=
  set_queue (fun q => q <| last_avail ::= fun i => u16 (i - n) |>);;
  publish_avail_event.

Definition push_used (h len : Z) : queueing unit :=
  q ← gets fst;
  slot ← slot_of used_idx;
  let elem := u64 (device q + 4 + 8 * slot) in
  on_ram (write_u32 elem h);;
  on_ram (write_u32 (u64 (elem + 4)) len);;
  set_queue (fun q => q <| used_idx ::= fun i => u16 (i + 1) |>);;
  q ← gets fst;
  on_ram (write_u16 (u64 (device q + 2)) (used_idx q)).

Definition should_notify : queueing bool :=
  q ← gets fst;
  let old := signalled_used q in
  let new := used_idx q in
  if negb (ready q) || (old =? new) then mret false else
  set_queue (fun q => q <| signalled_used := new |>);;
  if event_idx q then
    event ← from_ram (read_u16 (u64 (driver q + 4 + 2 * size q)));
    mret (need_event event new old)
  else
    flags ← from_ram (read_u16 (driver q));
    mret (Z.land flags AVAIL_F_NO_INTERRUPT =? 0).

(** ** Snapshot *)

Definition save_queue (q : Virtqueue) (w : Writer) : Writer :=
  let w := w_bool (ready q) (w_u16 (size q) (w_u16 (max_size q) w)) in
  let w := w_u64 (device q) (w_u64 (driver q) (w_u64 (desc q) w)) in
  let w := w_u16 (signalled_used q) (w_u16 (used_idx q) (w_u16 (last_avail q) w)) in
  w_bool (indirect q) (w_bool (event_idx q) w).

Definition restore_queue (q : Virtqueue) : reading Virtqueue :=
  max ← r_u16;
  if negb (max =? max_size q)
  then throw (Invalid ("queue of " ++ pretty max ++ " in the snapshot, " ++ pretty (max_size q) ++ " in the device"))
  else
  s ← r_u16; rd ← r_bool; d ← r_u64; dr ← r_u64; dv ← r_u64; la ← r_u16; ui ← r_u16; su ← r_u16; ev ← r_bool; i ← r_bool;
  mret (MkQueue (max_size q) s rd d dr dv la ui su ev i).

Definition save_buf (b : Buf) (w : Writer) : Writer := w_u32 (buf_len b) (w_u64 (buf_addr b) w).
Definition restore_buf : reading Buf := a ← r_u64; l ← r_u32; mret (MkBuf a l).

Definition save_chain (c : DescChain) (w : Writer) : Writer :=
  w_seq (writable c) save_buf (w_seq (readable c) save_buf (w_u16 (head c) w)).
Definition restore_chain : reading DescChain :=
  h ← r_u16; rd ← r_seq 12 restore_buf; wr ← r_seq 12 restore_buf; mret (MkChain h rd wr).

End queue.
