(* ===== verification/VirtMmio.v ===== *)
(** * The virtio-mmio transport (crates/vetro-platform/src/virtio/mmio.rs, mod.rs)

    Registers, feature negotiation, queue configuration, status and interrupts
    over the interface [VirtioDevice]. *)

From Stdlib Require Import ZArith Lia Bool.
From stdpp Require Import base list numbers strings pretty.
From S2P Require Import Prelude SnapWire SnapCodec PlatBus VirtQueue.
Local Open Scope Z_scope.
Local Open Scope vetro_scope.

Module mmio.

Definition MAGIC_VALUE : Z := 0x000.
Definition VERSION : Z := 0x004.
Definition DEVICE_ID : Z := 0x008.
Definition VENDOR_ID : Z := 0x00C.
Definition DEVICE_FEATURES : Z := 0x010.
Definition DEVICE_FEATURES_SEL : Z := 0x014.
Definition DRIVER_FEATURES : Z := 0x020.
Definition DRIVER_FEATURES_SEL : Z := 0x024.
Definition QUEUE_SEL : Z := 0x030.
Definition QUEUE_NUM_MAX : Z := 0x034.
Definition QUEUE_NUM : Z := 0x038.
Definition QUEUE_READY : Z := 0x044.
Definition QUEUE_NOTIFY : Z := 0x050.
Definition INTERRUPT_STATUS : Z := 0x060.
Definition INTERRUPT_ACK : Z := 0x064.
Definition STATUS : Z := 0x070.
Definition QUEUE_DESC_LOW : Z := 0x080.
Definition QUEUE_DESC_HIGH : Z := 0x084.
Definition QUEUE_DRIVER_LOW : Z := 0x090.
Definition QUEUE_DRIVER_HIGH : Z := 0x094.
Definition QUEUE_DEVICE_LOW : Z := 0x0A0.
Definition QUEUE_DEVICE_HIGH : Z := 0x0A4.
Definition SHM_LEN_LOW : Z := 0x0B0.
Definition SHM_LEN_HIGH : Z := 0x0B4.
Definition SHM_BASE_LOW : Z := 0x0B8.
Definition SHM_BASE_HIGH : Z := 0x0BC.
Definition CONFIG_GENERATION : Z := 0x0FC.
Definition CONFIG : Z := 0x100.
Definition MAGIC : Z := 0x74726976.
Definition VENDOR : Z := 0x554D4551.

Definition STATUS_ACKNOWLEDGE : Z := 1.
Definition STATUS_DRIVER : Z := 2.
Definition STATUS_DRIVER_OK : Z := 4.
Definition STATUS_FEATURES_OK : Z := 8.
Definition STATUS_DEVICE_NEEDS_RESET : Z := 64.
Definition STATUS_FAILED : Z := 128.
Definition INT_VRING : Z := 1.
Definition INT_CONFIG : Z := 2.
Definition F_INDIRECT_DESC : Z := 2 ^ 28.
Definition F_EVENT_IDX : Z := 2 ^ 29.
Definition F_VERSION_1 : Z := 2 ^ 32.
Definition ID_BLOCK : Z := 2.
Definition ID_CONSOLE : Z := 3.

(** What [service] hands to the device: the queues, the memory, and whether
    the device has signalled a configuration change. *)
Record ServiceCtx (R : Type) := MkCtx { queues : list Virtqueue; ram : R; config_changed : bool }.
Arguments MkCtx {R}.
Arguments queues {R}.
Arguments ram {R}.
Arguments config_changed {R}.

#[global] Instance eta_ServiceCtx {R} : Eta (ServiceCtx R) := fun c => MkCtx (queues c) (ram c) (config_changed c).

(** [trait VirtioDevice]. [vd_service] takes the negotiated features. *)
Class VirtioDevice (R D : Type) := {
  vd_id : D -> Z;
  vd_features : D -> Z;
  vd_queue_max_sizes : D -> list Z;
  vd_read_config : Z -> nat -> D -> list Z;
  vd_write_config : Z -> list Z -> D -> D;
  vd_negotiate : Z -> D -> bool * D;
  vd_reset : D -> D;
  vd_service : Z -> prog (D * ServiceCtx R) halt unit;
  vd_save : D -> Writer -> option Writer;
  vd_restore : D -> reading D;
}.

(** Bytes of the configuration structure; past the end it reads 0. *)
Definition read_config_bytes (cfg : list Z) (offset : Z) (n : nat) : list Z :=
  map (fun i => default 0 (cfg !! (Z.to_nat offset + i)%nat)) (seq 0 n).

(** A slot without a device. *)
Definition empty_read (offset sz : Z) : Z :=
  let reg := Z.land offset (u64 (Z.lnot 3)) in
  let word := if reg =? MAGIC_VALUE then MAGIC else if reg =? VERSION then 2 else 0 in
  if 4 <? sz then 0 else bus.sub_word word offset sz.

Record VirtioMmio (D : Type) := MkMmio {
  dev : option D;
  qs : list Virtqueue;
  removed : Z;
  device_features_sel : Z;
  driver_features_sel : Z;
  driver_features : Z;
  queue_sel : Z;
  interrupt_status : Z;
  status : Z;
  config_generation : Z;
  last_error : option QueueError;
}.
Arguments MkMmio {D}.
Arguments dev {D}.
Arguments qs {D}.
Arguments removed {D}.
Arguments device_features_sel {D}.
Arguments driver_features_sel {D}.
Arguments driver_features {D}.
Arguments queue_sel {D}.
Arguments interrupt_status {D}.
Arguments status {D}.
Arguments config_generation {D}.
Arguments last_error {D}.

#[global] Instance eta_VirtioMmio {D} : Eta (VirtioMmio D) := fun t =>
  MkMmio (dev t) (qs t) (removed t) (device_features_sel t) (driver_features_sel t) (driver_features t)
    (queue_sel t) (interrupt_status t) (status t) (config_generation t) (last_error t).

Section transport.
Context {R D : Type} `{!GuestRam R} `{!VirtioDevice R D}.
Implicit Types t : VirtioMmio D.

Definition empty : VirtioMmio D := MkMmio None [] 0 0 0 0 0 0 0 0 None.

Definition reset t : VirtioMmio D :=
  t <| qs ::= map queue_reset |> <| device_features_sel := 0 |> <| driver_features_sel := 0 |>
    <| driver_features := 0 |> <| queue_sel := 0 |> <| interrupt_status := 0 |> <| status := 0 |>
    <| last_error := None |> <| dev ::= option_map (vd_reset (R := R)) |>.

Definition set_device (d : option D) t : VirtioMmio D :=
  reset (t <| qs := match d with Some d => map queue_new (vd_queue_max_sizes (R := R) d) | None => [] end |> <| dev := d |>).

Definition mmio_new (d : D) : VirtioMmio D := set_device (Some d) empty.

Definition without_features (mask : Z) t : VirtioMmio D := t <| removed := Z.land mask (u64 (Z.lnot F_VERSION_1)) |>.

Definition offered_features t : Z :=
  match dev t with
  | Some d => Z.land (Z.lor (Z.lor (Z.lor (vd_features (R := R) d) F_VERSION_1) F_INDIRECT_DESC) F_EVENT_IDX) (u64 (Z.lnot (removed t)))
  | None => 0
  end.

Definition irq_level t : bool := negb (interrupt_status t =? 0).

Definition signal_config_change t : VirtioMmio D :=
  let t := t <| config_generation ::= fun g => u32 (g + 1) |> in
  if test_mask (status t) STATUS_DRIVER_OK then t <| interrupt_status ::= fun i => Z.lor i INT_CONFIG |> else t.

Definition fail (e : QueueError) t : VirtioMmio D :=
  signal_config_change (t <| last_error := Some e |> <| status ::= fun s => Z.lor s STATUS_DEVICE_NEEDS_RESET |>).

(** The loop over the queues after the device has run: whether one notifies,
    and the first error. *)
Fixpoint notify_all (l : list Virtqueue) (r : R) (res : result unit halt) : bool * list Virtqueue * result unit halt :=
  match l with
  | [] => (false, [], res)
  | q :: l =>
      let '(o, (q', _)) := should_notify (q, r) in
      let res := match o, res with
                 | Err e, Ok _ => Err e
                 | _, _ => res
                 end in
      let '(n, l', res') := notify_all l r res in
      (match o with Ok b => b || n | Err _ => n end, q' :: l', res')
  end.

(** [None]: the device panicked, or did not end within its fuel. *)
Definition service t (r : R) : option (VirtioMmio D * R) :=
  if negb (test_mask (status t) STATUS_DRIVER_OK) || test_mask (status t) STATUS_DEVICE_NEEDS_RESET then Some (t, r) else
  match dev t with
  | None => Some (t, r)
  | Some d =>
      let '(result, (d, ctx)) := vd_service (driver_features t) (d, MkCtx (qs t) r false) in
      match result with
      | Err Panicked | Err OutOfFuel => None
      | _ =>
          let t := t <| dev := Some d |> <| qs := queues ctx |> in
          let t := if config_changed ctx then signal_config_change t else t in
          let '(notify, l, result) := notify_all (qs t) (ram ctx) result in
          let t := t <| qs := l |> in
          let t := if notify then t <| interrupt_status ::= fun i => Z.lor i INT_VRING |> else t in
          match result with
          | Ok _ => Some (t, ram ctx)
          | Err (Failed e) => Some (fail e t, ram ctx)
          | Err _ => None
          end
      end
  end.

Definition cur_queue t : option Virtqueue := qs t !! Z.to_nat (queue_sel t).

(** A write through [cur_queue]. *)
Definition on_queue (f : Virtqueue -> Virtqueue) t : VirtioMmio D := t <| qs ::= alter f (Z.to_nat (queue_sel t)) |>.

Definition read_reg (offset : Z) t : Z :=
  if offset =? MAGIC_VALUE then MAGIC
  else if offset =? VERSION then 2
  else if offset =? DEVICE_ID then match dev t with Some d => vd_id (R := R) d | None => 0 end
  else if offset =? VENDOR_ID then VENDOR
  else if offset =? DEVICE_FEATURES then
    if device_features_sel t =? 0 then u32 (offered_features t)
    else if device_features_sel t =? 1 then u32 (Z.shiftr (offered_features t) 32)
    else 0
  else if offset =? QUEUE_NUM_MAX then match cur_queue t with Some q => max_size q | None => 0 end
  else if offset =? QUEUE_READY then match cur_queue t with Some q => b2z (ready q) | None => 0 end
  else if offset =? INTERRUPT_STATUS then interrupt_status t
  else if offset =? STATUS then status t
  else if (offset =? SHM_LEN_LOW) || (offset =? SHM_LEN_HIGH) || (offset =? SHM_BASE_LOW) || (offset =? SHM_BASE_HIGH)
  then 2 ^ 32 - 1
  else if offset =? CONFIG_GENERATION then config_generation t
  else 0.

Definition write_status (v : Z) t : VirtioMmio D :=
  if v =? 0 then reset t else
  let v := Z.lor v (Z.land (status t) STATUS_DEVICE_NEEDS_RESET) in
  if test_mask v STATUS_FEATURES_OK && negb (test_mask (status t) STATUS_FEATURES_OK) then
    let f := driver_features t in
    if test_mask f F_VERSION_1 && (Z.land f (u64 (Z.lnot (offered_features t))) =? 0) then
      match dev t with
      | Some d =>
          let '(ok, d) := vd_negotiate (R := R) f d in
          t <| dev := Some d |> <| status := if ok then v else Z.land v (u32 (Z.lnot STATUS_FEATURES_OK)) |>
      | None => t <| status := Z.land v (u32 (Z.lnot STATUS_FEATURES_OK)) |>
      end
    else t <| status := Z.land v (u32 (Z.lnot STATUS_FEATURES_OK)) |>
  else t <| status := v |>.

(** The low or high word of an address. *)
Definition half (offset v old : Z) : Z :=
  if Z.land offset 4 =? 0 then Z.lor (Z.land old (u64 (Z.lnot 0xFFFFFFFF))) v
  else Z.lor (Z.land old 0xFFFFFFFF) (Z.shiftl v 32).

Definition is_queue_addr (offset : Z) : bool :=
  (offset =? QUEUE_DESC_LOW) || (offset =? QUEUE_DESC_HIGH) || (offset =? QUEUE_DRIVER_LOW) || (offset =? QUEUE_DRIVER_HIGH)
  || (offset =? QUEUE_DEVICE_LOW) || (offset =? QUEUE_DEVICE_HIGH).

Definition set_queue_addr (offset v : Z) (q : Virtqueue) : Virtqueue :=
  if ready q then q else
  let reg := Z.land offset (u64 (Z.lnot 4)) in
  if reg =? QUEUE_DESC_LOW then set_desc (half offset v (desc q)) q
  else if reg =? QUEUE_DRIVER_LOW then set_driver (half offset v (driver q)) q
  else VirtQueue.set_device (half offset v (device q)) q.

Definition write_reg (offset v : Z) t : VirtioMmio D :=
  let features_locked := test_mask (status t) STATUS_FEATURES_OK in
  if offset =? DEVICE_FEATURES_SEL then t <| device_features_sel := v |>
  else if offset =? DRIVER_FEATURES_SEL then t <| driver_features_sel := v |>
  else if (offset =? DRIVER_FEATURES) && negb features_locked then
    if driver_features_sel t =? 0
    then t <| driver_features ::= fun f => Z.lor (Z.land f (u64 (Z.lnot 0xFFFFFFFF))) v |>
    else if driver_features_sel t =? 1
    then t <| driver_features ::= fun f => Z.lor (Z.land f 0xFFFFFFFF) (Z.shiftl v 32) |>
    else t
  else if offset =? QUEUE_SEL then t <| queue_sel := v |>
  else if offset =? QUEUE_NUM then
    on_queue (fun q => if ready q then q else set_size (if v <? 2 ^ 16 then v else 0) q) t
  else if offset =? QUEUE_READY then
    let f := driver_features t in
    on_queue (fun q =>
      let q := q <| event_idx := test_mask f F_EVENT_IDX |> <| indirect := test_mask f F_INDIRECT_DESC |> in
      set_ready (test_mask v 1) q) t
  else if is_queue_addr offset then on_queue (set_queue_addr offset v) t
  else if offset =? INTERRUPT_ACK then t <| interrupt_status ::= fun i => Z.land i (u32 (Z.lnot v)) |>
  else if offset =? STATUS then write_status v t
  else t.

Definition read (offset sz : Z) t : Z :=
  if CONFIG <=? offset then
    match dev t with
    | None => 0
    | Some d => from_le (vd_read_config (R := R) (offset - CONFIG) (Z.to_nat (Z.min sz 8)) d)
    end
  else if negb (sz =? 4) || negb (offset mod 4 =? 0) then 0
  else match dev t with
       | None => empty_read offset sz
       | Some _ => read_reg offset t
       end.

Definition write (offset sz value : Z) t : VirtioMmio D :=
  match dev t with
  | None => t
  | Some d =>
      if CONFIG <=? offset then
        t <| dev := Some (vd_write_config (R := R) (offset - CONFIG) (take (Z.to_nat (Z.min sz 8)) (to_le 8 value)) d) |>
      else if (sz =? 4) && (offset mod 4 =? 0) then write_reg offset (u32 value) t
      else t
  end.

(** ** Snapshot *)

Definition save_queue_error (e : QueueError) (w : Writer) : Writer :=
  match e with
  | Ram (MkRamError addr len) => w_len_of len (w_u64 addr (w_u8 0 w))
  | AvailIdx last avail => w_u16 avail (w_u16 last (w_u8 1 w))
  | HeadOutOfRange h => w_u16 h (w_u8 2 w)
  | NextOutOfRange n => w_u16 n (w_u8 3 w)
  | ChainLoop => w_u8 4 w
  | ReadableAfterWritable => w_u8 5 w
  | IndirectNotNegotiated => w_u8 6 w
  | IndirectLen l => w_u32 l (w_u8 7 w)
  | IndirectMisplaced => w_u8 8 w
  | Malformed m => w_str (map (fun a => Z.of_N (Ascii.N_of_ascii a)) (String.list_ascii_of_string m)) (w_u8 9 w)
  end.

Definition restore_queue_error : reading QueueError :=
  k ← r_u8;
  if k =? 0 then a ← r_u64; l ← r_u64; mret (Ram (MkRamError a (Z.to_nat l)))
  else if k =? 1 then l ← r_u16; a ← r_u16; mret (AvailIdx l a)
  else if k =? 2 then h ← r_u16; mret (HeadOutOfRange h)
  else if k =? 3 then n ← r_u16; mret (NextOutOfRange n)
  else if k =? 4 then mret ChainLoop
  else if k =? 5 then mret ReadableAfterWritable
  else if k =? 6 then mret IndirectNotNegotiated
  else if k =? 7 then l ← r_u32; mret (IndirectLen l)
  else if k =? 8 then mret IndirectMisplaced
  else if k =? 9 then
    s ← r_string;
    mret (Malformed (String.string_of_list_ascii (map (fun b => Ascii.ascii_of_N (Z.to_N b)) s)))
  else throw (Invalid ("queue error " ++ pretty k)).

(** VDEV. *)
Definition VDEV : list Z := [86; 68; 69; 86].

(** [Writer::section] around a content whose writing may fail. *)
Definition try_section (tag : list Z) (f : Writer -> option Writer) (w : Writer) : option Writer :=
  let w0 := w_u64 0 (w_raw tag w) in
  let w0 := w0 <| w_marks ::= option_map (fun m => m ++ [MSection (Z.of_nat (length (w_buf w) + length tag)) 0]) |> in
  w1 ← f w0;
  Some (w_section tag (fun _ => w1) w).

Definition save t (w : Writer) : option Writer :=
  let w := w_u64 (match dev t with Some d => vd_id (R := R) d | None => 0 end) w in
  let w := w_u64 (driver_features t) (w_u32 (driver_features_sel t) (w_u32 (device_features_sel t) (w_u64 (removed t) w))) in
  let w := w_u32 (config_generation t) (w_u32 (status t) (w_u32 (interrupt_status t) (w_u32 (queue_sel t) w))) in
  let w := w_opt (last_error t) save_queue_error w in
  let w := w_seq (qs t) save_queue w in
  match dev t with
  | Some d => try_section VDEV (vd_save (R := R) d) w
  | None => Some w
  end.

Fixpoint restore_queues (l : list Virtqueue) : reading (list Virtqueue) :=
  match l with
  | [] => mret []
  | q :: l => q' ← restore_queue q; l' ← restore_queues l; mret (q' :: l')
  end.

Definition restore t : reading (VirtioMmio D) :=
  _ ← r_expect_u64 "virtio DeviceID" (match dev t with Some d => vd_id (R := R) d | None => 0 end);
  _ ← r_expect_u64 "features removed from the offer" (removed t);
  a ← r_u32; b ← r_u32; f ← r_u64; s ← r_u32; i ← r_u32; st ← r_u32; g ← r_u32;
  e ← r_opt restore_queue_error;
  _ ← r_expect_u64 "number of queues" (Z.of_nat (length (qs t)));
  l ← restore_queues (qs t);
  d ← match dev t with
      | Some d => d' ← in_section VDEV (vd_restore (R := R) d); mret (Some d')
      | None => mret None
      end;
  mret (MkMmio d l (removed t) a b f s i st g e).

End transport.
End mmio.
