(* ===== verification/VirtBlk.v ===== *)
(** * The virtio block device (crates/vetro-platform/src/virtio/blk.rs)

    Disks as the device sees them, the disk in memory, the copy-on-write
    layer, and the requests of virtio-blk. *)

From Stdlib Require Import ZArith Lia Bool.
From stdpp Require Import base list numbers strings pretty.
From S2P Require Import Prelude BTree SnapWire SnapFile SnapBlocks VirtQueue VirtMmio.
Local Open Scope Z_scope.
Local Open Scope vetro_scope.

Module blk.

Definition BLK_SECTOR_SIZE : Z := 512.
Definition T_IN : Z := 0.
Definition T_OUT : Z := 1.
Definition T_FLUSH : Z := 4.
Definition T_GET_ID : Z := 8.
Definition S_OK : Z := 0.
Definition S_IOERR : Z := 1.
Definition S_UNSUPP : Z := 2.
Definition F_SIZE_MAX : Z := 0x2.
Definition F_SEG_MAX : Z := 0x4.
Definition F_RO : Z := 0x20.
Definition F_BLK_SIZE : Z := 0x40.
Definition F_FLUSH : Z := 0x200.
Definition ID_BYTES : nat := 20.
Definition CHUNK : Z := 64 * 1024.

Inductive BlockError := Io | OutOfRange | ReadOnly | NotReady.

#[export] Instance BlockError_eq_dec : EqDecision BlockError.
Proof. solve_decision. Defined.

(** [trait BlockBackend]: sectors of 512 bytes; a read gives the bytes in
    place of the buffer. A save may compress, which can run out of range. *)
Class BlockBackend (B : Type) := {
  bk_size : B -> Z;
  bk_read_only : B -> bool;
  bk_read : Z -> nat -> prog B BlockError (list Z);
  bk_write : Z -> list Z -> prog B BlockError unit;
  bk_flush : prog B BlockError unit;
  bk_save : B -> Writer -> option Writer;
  bk_restore : B -> reading B;
}.

(** [checked_mul] and [checked_add] over u64. *)
Definition checked_u64 (x : Z) : option Z := if (0 <=? x) && (x <? 2 ^ 64) then Some x else None.

(** The first byte of [len] bytes from [sector], if they are in the disk. *)
Definition byte_range (disk sector : Z) (len : nat) : result nat BlockError :=
  match checked_u64 (sector * BLK_SECTOR_SIZE) with
  | None => Err OutOfRange
  | Some start =>
      match checked_u64 (start + Z.of_nat len) with
      | None => Err OutOfRange
      | Some end_ =>
          if (disk <? end_) || negb (Z.of_nat len mod BLK_SECTOR_SIZE =? 0) then Err OutOfRange else Ok (Z.to_nat start)
      end
  end.

(** [decompress_into] over the bytes of a disk. *)
Definition r_decompress_into (out : list Z) : reading (list Z) := fun r =>
  match decompress_into out r with
  | Ok (r', d, _) => (Ok d, r')
  | Err e => (Err e, r)
  end.

(** ** Disk in memory *)

Record MemBackend := MkMem { mem_data : list Z; mem_read_only : bool }.

#[export] Instance eta_MemBackend : Eta MemBackend := fun m => MkMem (mem_data m) (mem_read_only m).

(** [next_multiple_of(512)]. *)
Definition next_sector (n : nat) : nat := Z.to_nat ((Z.of_nat n + 511) / 512 * 512).

Definition mem_from_vec (data : list Z) : MemBackend :=
  MkMem (data ++ replicate (next_sector (length data) - length data) 0) false.

Definition mem_new (size : Z) : MemBackend := mem_from_vec (replicate (Z.to_nat size) 0).

Definition mem_set_read_only (m : MemBackend) : MemBackend := m <| mem_read_only := true |>.

Definition mem_read (sector : Z) (len : nat) : prog MemBackend BlockError (list Z) := fun m =>
  match byte_range (Z.of_nat (length (mem_data m))) sector len with
  | Ok a => (Ok (take len (drop a (mem_data m))), m)
  | Err e => (Err e, m)
  end.

Definition mem_write (sector : Z) (data : list Z) : prog MemBackend BlockError unit := fun m =>
  if mem_read_only m then (Err ReadOnly, m) else
  match byte_range (Z.of_nat (length (mem_data m))) sector (length data) with
  | Ok a => (Ok tt, m <| mem_data ::= overwrite a data |>)
  | Err e => (Err e, m)
  end.

Definition mem_save (m : MemBackend) (w : Writer) : option Writer :=
  let w := w_u64 (b2z (mem_read_only m)) w in
  if mem_read_only m then Some (w_u64 (hash64 (mem_data m)) w) else compress (mem_data m) w.

Definition mem_restore (m : MemBackend) : reading MemBackend :=
  _ ← r_expect_u64 "read-only flag of the in-memory disk" (b2z (mem_read_only m));
  if mem_read_only m then _ ← r_expect_u64 "hash of the in-memory disk" (hash64 (mem_data m)); mret m
  else d ← r_decompress_into (replicate (length (mem_data m)) 0); mret (m <| mem_data := d |>).

#[export] Instance mem_backend : BlockBackend MemBackend := {|
  bk_size m := Z.of_nat (length (mem_data m));
  bk_read_only := mem_read_only;
  bk_read := mem_read;
  bk_write := mem_write;
  bk_flush := mret tt;
  bk_save := mem_save;
  bk_restore := mem_restore;
|}.

(** ** Copy-on-write layer *)

Definition CLUSTER : Z := 4096.

Record CowBackend (B : Type) := MkCow {
  cow_base : B;
  clusters : btree (list Z);
  (** The clusters written since the last [take_dirty], a set. *)
  dirty : btree unit;
}.
Arguments MkCow {B}.
Arguments cow_base {B}.
Arguments clusters {B}.
Arguments dirty {B}.

#[export] Instance eta_CowBackend {B} : Eta (CowBackend B) := fun c => MkCow (cow_base c) (clusters c) (dirty c).

(** The pieces [(cluster, offset, start, end)] of [pos, pos + len), split by
    cluster; each turn covers at least a byte. *)
Fixpoint cow_pieces (fuel : nat) (pos : Z) (done len : nat) : list (Z * nat * nat * nat) :=
  match fuel with
  | O => []
  | S fuel =>
      if (done <? len)%nat then
        let at_ := pos + Z.of_nat done in
        let c := at_ / CLUSTER in
        let off := Z.to_nat (at_ mod CLUSTER) in
        let n := Nat.min (Z.to_nat CLUSTER - off) (len - done) in
        (c, off, done, (done + n)%nat) :: cow_pieces fuel pos (done + n) len
      else []
  end.

Section cow.
Context {B : Type} `{!BlockBackend B}.

Definition cow_new (base : B) : CowBackend B := MkCow base [] [].

Definition cow_size (c : CowBackend B) : Z := bk_size (cow_base c).

Definition take_dirty (c : CowBackend B) : list Z * CowBackend B := ((dirty c).*1, c <| dirty := [] |>).

Definition cluster_len (b : B) (c : Z) : nat := Z.to_nat (Z.min (bk_size b - c * CLUSTER) CLUSTER).

(** [size.div_ceil(CLUSTER)]. *)
Definition cluster_count (b : B) : Z := (bk_size b + (CLUSTER - 1)) / CLUSTER.

Definition load_cluster (c : Z) (data : list Z) (d : CowBackend B) : result unit BlockError * CowBackend B :=
  if cluster_count (cow_base d) <=? c then (Err OutOfRange, d)
  else if negb (length data =? cluster_len (cow_base d) c)%nat then (Err Io, d)
  else (Ok tt, d <| clusters ::= bt_insert c data |>).

Definition on_base {A} (m : prog B BlockError A) : prog (CowBackend B) BlockError A := fun d =>
  match m (cow_base d) with (r, b) => (r, d <| cow_base := b |>) end.

Definition cow_read_piece (p : Z * nat * nat * nat) : prog (CowBackend B) BlockError (list Z) :=
  let '(c, off, a, b) := p in
  cl ← gets (fun d => bt_get c (clusters d));
  match cl with
  | Some data => mret (take (b - a) (drop off data))
  | None => on_base (bk_read ((c * CLUSTER + Z.of_nat off) / BLK_SECTOR_SIZE) (b - a))
  end.

Definition cow_read (sector : Z) (len : nat) : prog (CowBackend B) BlockError (list Z) :=
  sz ← gets cow_size;
  match byte_range sz sector len with
  | Err e => throw e
  | Ok start => foldM (fun acc p => d ← cow_read_piece p; mret (acc ++ d)) [] (cow_pieces len (Z.of_nat start) 0 len)
  end.

(** The cluster exists, copied from the base unless it is about to be covered. *)
Definition cow_fill (c : Z) (covered : nat) : prog (CowBackend B) BlockError unit :=
  cl ← gets (fun d => bt_get c (clusters d));
  match cl with
  | Some _ => mret tt
  | None =>
      n ← gets (fun d => cluster_len (cow_base d) c);
      fresh ← (if (covered <? n)%nat then on_base (bk_read (c * CLUSTER / BLK_SECTOR_SIZE) n) else mret (replicate n 0));
      modify (fun d => d <| clusters ::= bt_insert c fresh |>)
  end.

Definition cow_write_piece (data : list Z) (p : Z * nat * nat * nat) : prog (CowBackend B) BlockError unit :=
  let '(c, off, a, b) := p in
  cow_fill c (b - a);;
  modify (fun d =>
    d <| clusters ::= fun m => match bt_get c m with
                               | Some cl => bt_insert c (overwrite off (take (b - a) (drop a data)) cl) m
                               | None => m
                               end |>
      <| dirty ::= bt_insert c tt |>).

Definition cow_write (sector : Z) (data : list Z) : prog (CowBackend B) BlockError unit :=
  sz ← gets cow_size;
  match byte_range sz sector (length data) with
  | Err e => throw e
  | Ok start => foldM (fun _ p => cow_write_piece data p) tt (cow_pieces (length data) (Z.of_nat start) 0 (length data))
  end.

Fixpoint save_clusters (l : list (Z * list Z)) (w : Writer) : option Writer :=
  match l with
  | [] => Some w
  | (c, data) :: l => w ← compress data (w_u64 c w); save_clusters l w
  end.

Definition cow_save (d : CowBackend B) (w : Writer) : option Writer :=
  let w := w_u64 (bk_size (cow_base d)) w in
  w ← save_clusters (clusters d) (w_len_of (length (clusters d)) w);
  bk_save (cow_base d) w.

Fixpoint restore_clusters (n : nat) (b : B) (m : btree (list Z)) : reading (btree (list Z)) :=
  match n with
  | O => mret m
  | S n =>
      c ← r_u64;
      if (cluster_count b <=? c) || (match bt_get c m with Some _ => true | None => false end)
      then throw (Invalid ("disk cluster " ++ pretty c))
      else data ← r_decompress_into (replicate (cluster_len b c) 0); restore_clusters n b (bt_insert c data m)
  end.

Definition cow_restore (d : CowBackend B) : reading (CowBackend B) :=
  _ ← r_expect_u64 "disk size" (bk_size (cow_base d));
  n ← r_len_of 16;
  m ← restore_clusters n (cow_base d) [];
  b ← bk_restore (cow_base d);
  mret (MkCow b m []).

#[export] Instance cow_backend : BlockBackend (CowBackend B) := {|
  bk_size := cow_size;
  bk_read_only _ := false;
  bk_read := cow_read;
  bk_write := cow_write;
  bk_flush := mret tt;
  bk_save := cow_save;
  bk_restore := cow_restore;
|}.
End cow.

(** ** Requests *)

Record VirtioBlkConfig := MkBlkConfig {
  queue_size : Z;
  seg_max : Z;
  size_max : Z;
  blk_size : Z;
  read_only : bool;
  serial : list Z;
}.

(** The serial is vetro-blk. *)
Definition blk_config_default : VirtioBlkConfig :=
  MkBlkConfig 256 254 (2 ^ 20) 512 false [118; 101; 116; 114; 111; 45; 98; 108; 107].

Inductive Outcome := Done (written : Z) | Retry.

Record VirtioBlk (B : Type) := MkBlk { backend : B; cfg : VirtioBlkConfig; pending : option DescChain }.
Arguments MkBlk {B}.
Arguments backend {B}.
Arguments cfg {B}.
Arguments pending {B}.

#[export] Instance eta_VirtioBlk {B} : Eta (VirtioBlk B) := fun d => MkBlk (backend d) (cfg d) (pending d).

Section blk.
Context {R B : Type} `{!GuestRam R} `{!BlockBackend B}.

Definition blk_new (b : B) (c : VirtioBlkConfig) : VirtioBlk B := MkBlk b c None.

Definition is_read_only (d : VirtioBlk B) : bool := read_only (cfg d) || bk_read_only (backend d).
Definition capacity (d : VirtioBlk B) : Z := bk_size (backend d) / BLK_SECTOR_SIZE.

Definition config_bytes (d : VirtioBlk B) : list Z :=
  to_le 8 (capacity d) ++ to_le 4 (size_max (cfg d)) ++ to_le 4 (seg_max (cfg d)) ++ replicate 4 0
  ++ to_le 4 (blk_size (cfg d)) ++ replicate 8 0 ++ replicate 2 0 ++ to_le 2 1.

(** The device and the memory, while a request is handled. *)
Abbreviation handling := (prog (VirtioBlk B * R) QueueError).

Definition h_ram {A} (m : prog R RamError A) : handling A := fun s =>
  match m s.2 with (r, ram) => (map_err Ram r, (s.1, ram)) end.
Definition h_from_ram {A} (f : R -> result A RamError) : handling A := fun s => (map_err Ram (f s.2), s).

(** A call to the backend: its error is a value. *)
Definition h_disk {A} (m : prog B BlockError A) : handling (result A BlockError) := fun s =>
  match m (backend s.1) with (r, b) => (Ok r, (s.1 <| backend := b |>, s.2)) end.

(** A turn of the loop of [transfer] for [n] bytes at [done]. *)
Definition transfer_chunk (c : DescChain) (sector done : Z) (n : nat) (out : bool) : handling (result unit BlockError) :=
  let s := sector + done / BLK_SECTOR_SIZE in
  if out then
    chunk ← h_from_ram (chain_read c (16 + done) n);
    h_disk (bk_write s (chunk ++ replicate (n - length chunk) 0))
  else
    r ← h_disk (bk_read s n);
    match r with
    | Ok chunk => _ ← h_ram (chain_write c done chunk); mret (Ok tt)
    | Err e => mret (Err e)
    end.

(** [len] bytes left from [done]; a turn moves a chunk of 64 KiB or the rest. *)
Fixpoint transfer_loop (fuel : nat) (c : DescChain) (sector done len : Z) (out : bool)
    : handling (option (result unit BlockError)) :=
  match fuel with
  | O => mret (Some (Ok tt))
  | S fuel =>
      if done <? len then
        let n := Z.min (len - done) CHUNK in
        r ← transfer_chunk c sector done (Z.to_nat n) out;
        match r with
        | Ok _ => transfer_loop fuel c sector (done + n) len out
        | Err NotReady => mret None
        | Err e => mret (Some (Err e))
        end
      else mret (Some (Ok tt))
  end.

Definition transfer (c : DescChain) (sector len : Z) (out : bool) : handling (option (result unit BlockError)) :=
  d ← gets fst;
  if out && is_read_only d then mret (Some (Err ReadOnly))
  else if negb (len mod BLK_SECTOR_SIZE =? 0) then mret (Some (Err OutOfRange))
  else
    if match checked_u64 (sector + len / BLK_SECTOR_SIZE) with Some end_ => capacity d <? end_ | None => true end
    then mret (Some (Err OutOfRange))
    else transfer_loop (Z.to_nat (len / CHUNK) + 1) c sector 0 len out.

(** The status byte and the bytes written, or a retry. *)
Definition transfer_status (r : option (result unit BlockError)) (written : Z) : option (Z * Z) :=
  match r with
  | Some (Ok _) => Some (S_OK, written)
  | Some (Err _) => Some (S_IOERR, 0)
  | None => None
  end.

Definition serve (c : DescChain) (kind sector status_at : Z) : handling (option (Z * Z)) :=
  if kind =? T_IN then r ← transfer c sector status_at false; mret (transfer_status r status_at)
  else if kind =? T_OUT then r ← transfer c sector (readable_len c - 16) true; mret (transfer_status r 0)
  else if kind =? T_FLUSH then
    r ← h_disk bk_flush;
    mret (match r with
          | Ok _ => Some (S_OK, 0)
          | Err NotReady => None
          | Err _ => Some (S_IOERR, 0)
          end)
  else if kind =? T_GET_ID then
    d ← gets fst;
    let n := Nat.min (length (serial (cfg d))) ID_BYTES in
    let id := take n (serial (cfg d)) ++ replicate (ID_BYTES - n) 0 in
    let len := Nat.min (Z.to_nat status_at) ID_BYTES in
    _ ← h_ram (chain_write c 0 (take len id));
    mret (Some (S_OK, Z.of_nat len))
  else mret (Some (S_UNSUPP, 0)).

Definition handle (c : DescChain) : handling Outcome :=
  hdr ← h_from_ram (chain_read c 0 16);
  if (length hdr <? 16)%nat then throw (Malformed "incomplete virtio-blk header")
  else if writable_len c <? 1 then throw (Malformed "virtio-blk status byte missing")
  else
    let status_at := writable_len c - 1 in
    let kind := from_le (take 4 hdr) in
    let sector := from_le (take 8 (drop 8 hdr)) in
    r ← serve c kind sector status_at;
    match r with
    | None => mret Retry
    | Some (status, written) =>
        _ ← h_ram (chain_write c status_at [status]);
        mret (Done (u32 (u32 written + 1)))
    end.

(** The device, its queue and the memory. *)
Abbreviation serving := (prog (VirtioBlk B * mmio.ServiceCtx R) halt).

Definition s_queue {A} (m : prog (Virtqueue * R) halt A) : serving A := fun s =>
  match mmio.queues s.2 with
  | [] => (Err Panicked, s)
  | q :: qs =>
      match m (q, mmio.ram s.2) with
      | (r, (q, ram)) => (r, (s.1, mmio.MkCtx (q :: qs) ram (mmio.config_changed s.2)))
      end
  end.

Definition s_handle {A} (m : handling A) : serving A := fun s =>
  match m (s.1, mmio.ram s.2) with
  | (r, (d, ram)) => (map_err Failed r, (d, mmio.MkCtx (mmio.queues s.2) ram (mmio.config_changed s.2)))
  end.

(** A turn of the loop of [service]: whether it goes on. *)
Definition blk_turn : serving bool :=
  d ← gets fst;
  next ← match pending d with
         | Some c => modify (fun s : VirtioBlk B * mmio.ServiceCtx R => (s.1 <| pending := None |>, s.2));; mret (Some c)
         | None => s_queue pop
         end;
  match next with
  | None => mret false
  | Some c =>
      o ← s_handle (handle c);
      match o with
      | Done len => s_queue (push_used (head c) len);; mret true
      | Retry => modify (fun s : VirtioBlk B * mmio.ServiceCtx R => (s.1 <| pending := Some c |>, s.2));; mret false
      end
  end.

Fixpoint blk_loop (fuel : nat) : serving unit :=
  match fuel with
  | O => throw OutOfFuel
  | S fuel => go ← (blk_turn : serving bool); if go : bool then blk_loop fuel else mret tt
  end.

(** The chains of the queue and a pending one are at most [size + 1], and a
    turn that finds none ends the loop. *)
Definition service : serving unit :=
  l ← gets (fun s => mmio.queues s.2);
  blk_loop (match l with q :: _ => Z.to_nat (size q) + 2 | [] => 1 end).

Definition save_state (d : VirtioBlk B) (w : Writer) : option Writer :=
  let w := w_u64 (b2z (is_read_only d)) (w_u64 (capacity d) w) in
  let w := w_opt (pending d) save_chain (w_bytes (serial (cfg d)) w) in
  bk_save (backend d) w.

Definition restore_state (d : VirtioBlk B) : reading (VirtioBlk B) :=
  _ ← r_expect_u64 "disk sectors" (capacity d);
  _ ← r_expect_u64 "disk read-only flag" (b2z (is_read_only d));
  s ← r_bytes;
  if negb (bool_decide (s = serial (cfg d))) then throw (Invalid "different disk identifier") else
  p ← r_opt restore_chain;
  b ← bk_restore (backend d);
  mret (MkBlk b (cfg d) p).

#[export] Instance blk_device : mmio.VirtioDevice R (VirtioBlk B) := {|
  mmio.vd_id _ := mmio.ID_BLOCK;
  mmio.vd_features d :=
    Z.lor (Z.lor (Z.lor (Z.lor F_SIZE_MAX F_SEG_MAX) F_BLK_SIZE) F_FLUSH) (if is_read_only d then F_RO else 0);
  mmio.vd_queue_max_sizes d := [queue_size (cfg d)];
  mmio.vd_read_config offset n d := mmio.read_config_bytes (config_bytes d) offset n;
  mmio.vd_write_config _ _ d := d;
  mmio.vd_negotiate _ d := (true, d);
  mmio.vd_reset d := d <| pending := None |>;
  mmio.vd_service _ := service;
  mmio.vd_save := save_state;
  mmio.vd_restore := restore_state;
|}.

End blk.
End blk.
