(* ===== verification/VirtChain.v ===== *)
(** * Descriptor chains (crates/vetro-platform/src/virtio/queue.rs)

    What [walk] accepts, against the chains of the virtio specification as a
    predicate on linked descriptors; the condition of [need_event]; and the
    bytes a device reads through a chain. *)

From Stdlib Require Import ZArith Lia Bool.
From stdpp Require Import base list numbers strings.
From S2P Require Import Prelude SnapWire VirtQueue.
Local Open Scope Z_scope.
Local Open Scope vetro_scope.

(** ** Notifications *)

Definition u16_window (old new x : Z) : Prop := exists k, 0 <= k < u16 (new - old) /\ x = u16 (old + k).

(** For 16-bit indices, [need_event event new old] holds exactly when
    [event] is one of the indices [old, old + 1, ..., new - 1] counted modulo
    2^16: the driver is notified exactly when the batch passed its event. *)
Theorem need_event_window event new old :
  is_u 16 event -> is_u 16 new -> is_u 16 old -> need_event event new old = true <-> u16_window old new event.
Proof.
  unfold need_event, u16_window, u16, is_u. change (2 ^ 16) with 65536. intros He Hn Ho.
  rewrite Z.ltb_lt. split.
  - intros H. exists ((event - old) mod 65536). split; [Z.div_mod_to_equations; lia|].
    Z.div_mod_to_equations; lia.
  - intros (k & Hk & ->). Z.div_mod_to_equations; lia.
Qed.

Lemma need_event_window_witness : u16_window 65534 3 1.
Proof. apply (need_event_window 1 3 65534); [unfold is_u; lia..|reflexivity]. Defined.

(** ** Chains *)

Section chains.
Context {R : Type} `{!GuestRam R}.

Definition has_next (d : Desc) : bool := test_mask (d_flags d) DESC_F_NEXT.
Definition is_write (d : Desc) : bool := test_mask (d_flags d) DESC_F_WRITE.
Definition is_indirect (d : Desc) : bool := test_mask (d_flags d) DESC_F_INDIRECT.
Definition desc_buf (d : Desc) : Buf := MkBuf (d_addr d) (d_len d).

(** The descriptors from [d] on, linked inside a table of [tl] entries. *)
Inductive linked (table tl : Z) (r : R) : Desc -> list Desc -> Prop :=
| linked_last d : has_next d = false -> linked table tl r d [d]
| linked_next d d' ds : has_next d = true -> d_next d < tl -> read_desc table (d_next d) r = Ok d' ->
    linked table tl r d' ds -> linked table tl r d (d :: ds).

(** Readable buffers, then writable ones, and no indirect descriptor. *)
Definition ordered (rd wr : list Desc) : Prop :=
  Forall (fun d => is_write d = false) rd /\ Forall (fun d => is_write d = true) wr
  /\ Forall (fun d => is_indirect d = false) (rd ++ wr).

(** The table a chain lives in and its first descriptor there: the queue's, or
    the one an indirect head points at. *)
Inductive chain_start (q : Virtqueue) (h : Z) (r : R) : Z -> Z -> Desc -> Prop :=
| start_direct d : read_desc (desc q) h r = Ok d -> is_indirect d = false -> chain_start q h r (desc q) (size q) d
| start_indirect i d : read_desc (desc q) h r = Ok i -> is_indirect i = true -> indirect q = true ->
    d_len i <> 0 -> d_len i mod 16 = 0 -> d_len i / 16 <= MAX_QUEUE_SIZE ->
    read_desc (d_addr i) 0 r = Ok d -> chain_start q h r (d_addr i) (d_len i / 16) d.

(** A chain of the virtio specification with head [h]. *)
Definition spec_chain (q : Virtqueue) (h : Z) (r : R) (c : DescChain) : Prop :=
  h < size q /\ exists table tl d rd wr,
    chain_start q h r table tl d /\ linked table tl r d (rd ++ wr) /\ Z.of_nat (length (rd ++ wr)) <= tl
    /\ ordered rd wr /\ c = MkChain h (desc_buf <$> rd) (desc_buf <$> wr).

Lemma linked_nonempty table tl r d ds : linked table tl r d ds -> exists ds', ds = d :: ds'.
Proof. destruct 1; eauto. Qed.

(** A turn of the loop: the chain with the descriptor added, or [None] for a
    readable buffer after a writable one. *)
Definition add_desc (d : Desc) (c : DescChain) : option DescChain :=
  if is_write d then Some (c <| writable ::= fun w => w ++ [desc_buf d] |>)
  else match writable c with
       | [] => Some (c <| readable ::= fun w => w ++ [desc_buf d] |>)
       | _ => None
       end.

Lemma walk_loop_S n table tl d c r :
  walk_loop (S n) table tl d c r =
    if is_indirect d then Err IndirectMisplaced else
    match add_desc d c with
    | None => Err ReadableAfterWritable
    | Some c =>
        if negb (has_next d) then Ok c
        else if tl <=? d_next d then Err (NextOutOfRange (d_next d))
        else match read_desc table (d_next d) r with
             | Err e => Err (Ram e)
             | Ok d => walk_loop n table tl d c r
             end
    end.
Proof. reflexivity. Qed.

(** The chain after the descriptors [rd ++ wr]. *)
Definition extended (c : DescChain) (rd wr : list Desc) : DescChain :=
  MkChain (head c) (readable c ++ (desc_buf <$> rd)) (writable c ++ (desc_buf <$> wr)).

Definition accepts (c : DescChain) (rd wr : list Desc) : Prop := ordered rd wr /\ (rd = [] \/ writable c = []).

(** One more descriptor in front of an accepted chain... *)
Lemma add_desc_accepts d c c1 rd wr :
  is_indirect d = false -> add_desc d c = Some c1 -> accepts c1 rd wr ->
  exists rd' wr', rd' ++ wr' = d :: rd ++ wr /\ accepts c rd' wr' /\ extended c rd' wr' = extended c1 rd wr.
Proof.
  unfold add_desc, accepts, ordered, extended. intros Hi Ha ((H1 & H2 & H3) & Hc).
  destruct (is_write d) eqn:Hw.
  - injection Ha as <-. unfold update in *. cbn [writable readable head] in *.
    destruct Hc as [->|Hc]; [|by destruct (writable c)].
    exists [], (d :: wr). split_and!; [done..|by constructor|by constructor|by left|].
    cbn [fmap list_fmap app]. by rewrite <- app_assoc.
  - destruct (writable c) eqn:Hwc; [|done]. injection Ha as <-. unfold update in *. cbn [writable readable head] in *.
    rewrite Hwc. exists (d :: rd), wr. split_and!; [done|by constructor|done|by constructor|by right|].
    cbn [fmap list_fmap app]. by rewrite <- app_assoc.
Qed.

(** ... and conversely. *)
Lemma accepts_add_desc d ds c rd wr :
  accepts c rd wr -> rd ++ wr = d :: ds ->
  is_indirect d = false /\ exists c1 rd' wr', add_desc d c = Some c1 /\ ds = rd' ++ wr' /\ accepts c1 rd' wr'
    /\ extended c rd wr = extended c1 rd' wr'.
Proof.
  unfold add_desc, accepts, ordered, extended. intros ((H1 & H2 & H3) & Hc) Hds. rewrite Hds in H3.
  apply Forall_cons in H3 as [Hi H3]. split; [done|]. destruct rd as [|d0 rd].
  - cbn [app] in Hds. subst wr. apply Forall_cons in H2 as [-> H2]. eexists _, [], ds.
    split; [reflexivity|]. unfold update. cbn [writable readable head app fmap list_fmap].
    split_and!; try done; [by left|]. by rewrite <- app_assoc.
  - cbn [app] in Hds. injection Hds as -> <-. destruct Hc as [|Hc]; [done|]. apply Forall_cons in H1 as [-> H1].
    rewrite Hc. eexists _, rd, wr. split; [reflexivity|]. unfold update. cbn [writable readable head app fmap list_fmap].
    rewrite Hc. split_and!; try done; [by right|]. by rewrite <- app_assoc.
Qed.

(** The loop of [walk] returns exactly the chains within its budget. *)
Lemma chain_loop_ok n table tl d c r c' :
  walk_loop n table tl d c r = Ok c' <->
  exists rd wr, linked table tl r d (rd ++ wr) /\ (length (rd ++ wr) <= n)%nat /\ accepts c rd wr /\ c' = extended c rd wr.
Proof.
  revert d c c'. induction n as [|n IH]; intros d c c'.
  { split; [done|]. intros (rd & wr & Hl & Hn & _). apply linked_nonempty in Hl as [? Hx]. rewrite Hx in Hn. cbn [length] in Hn. lia. }
  rewrite walk_loop_S. split.
  - destruct (is_indirect d) eqn:Hi; [done|]. destruct (add_desc d c) as [c1|] eqn:Ha; [|done].
    destruct (has_next d) eqn:Hn; cbn [negb].
    + destruct (Z.leb_spec tl (d_next d)); [done|]. destruct (read_desc table (d_next d) r) as [d'|] eqn:Hr; [|done].
      intros (rd & wr & Hl & Hlen & Hacc & ->)%IH.
      destruct (add_desc_accepts _ _ _ _ _ Hi Ha Hacc) as (rd' & wr' & E & Hacc' & Hx).
      exists rd', wr'. rewrite E. split_and!; [by eapply linked_next|cbn [length]; lia|done|done].
    + intros [= <-]. destruct (add_desc_accepts d c c1 [] [] Hi Ha) as (rd' & wr' & E & Hacc' & Hx).
      { repeat split; [constructor..|by left]. }
      exists rd', wr'. rewrite E. split_and!; [by apply linked_last|cbn [length app]; lia|done|].
      rewrite Hx. unfold extended. cbn [fmap list_fmap]. rewrite !app_nil_r. by destruct c1.
  - intros (rd & wr & Hl & Hlen & Hacc & ->). destruct (linked_nonempty _ _ _ _ _ Hl) as [ds Hds].
    destruct (accepts_add_desc _ _ _ _ _ Hacc Hds) as (-> & c1 & rd' & wr' & -> & -> & Hacc' & ->).
    rewrite Hds in Hl, Hlen. cbn [length] in Hlen. inversion Hl as [? Hn|? d' ? Hn Hlt Hr Hl']; subst; rewrite Hn; cbn [negb].
    + match goal with H : [] = _ |- _ => symmetry in H; apply app_eq_nil in H as [-> ->] end.
      unfold extended. cbn [fmap list_fmap]. rewrite !app_nil_r. by destruct c1.
    + destruct (Z.leb_spec tl (d_next d)); [lia|]. rewrite Hr. apply IH. exists rd', wr'. split_and!; [done|lia|done|done].
Qed.

Lemma walk_table_ok table tl h d r c :
  walk_loop (Z.to_nat tl) table tl d (MkChain h [] []) r = Ok c <->
  exists rd wr, linked table tl r d (rd ++ wr) /\ Z.of_nat (length (rd ++ wr)) <= tl /\ ordered rd wr
    /\ c = MkChain h (desc_buf <$> rd) (desc_buf <$> wr).
Proof.
  rewrite chain_loop_ok. unfold accepts, extended. cbn [head readable writable app].
  split; intros (rd & wr & Hl & Hn & Ha & Hc); exists rd, wr; pose proof (linked_nonempty _ _ _ _ _ Hl) as [ds Hx];
    (assert (0 < length (rd ++ wr))%nat by (rewrite Hx; cbn [length]; lia));
    split_and!; try done; try lia; [by apply Ha|by right].
Qed.

(** C19: [walk] returns a chain exactly when the virtio specification has one at
    that head: the head is inside the table, an indirect head is negotiated and
    of a valid length, the descriptors are linked inside their table and no
    more than its entries, none of them is indirect, and the readable buffers
    come first; the chain lists their buffers in order. *)
Theorem walk_exact (q : Virtqueue) (h : Z) (r : R) (c : DescChain) : walk q h r = Ok c <-> spec_chain q h r c.
Proof.
  unfold walk, spec_chain. destruct (Z.leb_spec (size q) h); [split; [done|intros [? _]; lia]|].
  split.
  - destruct (read_desc (desc q) h r) as [d|] eqn:Hd; [|done]. intros Hw. split; [done|].
    destruct (test_mask (d_flags d) DESC_F_INDIRECT) eqn:Hi.
    + destruct (indirect q) eqn:Hneg; [|done]. cbn [negb] in Hw.
      destruct (Z.eqb_spec (d_len d) 0); [done|]. destruct (Z.eqb_spec (d_len d mod 16) 0); [|done].
      destruct (Z.ltb_spec MAX_QUEUE_SIZE (d_len d / 16)); [done|]. cbn [orb negb] in Hw.
      destruct (read_desc (d_addr d) 0 r) as [d'|] eqn:Hd'; [|done].
      apply walk_table_ok in Hw as (rd & wr & Hl). exists (d_addr d), (d_len d / 16), d', rd, wr.
      split; [by eapply start_indirect|done].
    + apply walk_table_ok in Hw as (rd & wr & Hl). exists (desc q), (size q), d, rd, wr. split; [by apply start_direct|done].
  - intros (_ & table & tl & d & rd & wr & Hs & Hl). destruct Hs as [d Hd Hi|i d Hd Hi Hneg H0 H16 Hmax Hd'].
    + rewrite Hd. unfold is_indirect in Hi. rewrite Hi. apply walk_table_ok. by exists rd, wr.
    + rewrite Hd. unfold is_indirect in Hi. rewrite Hi, Hneg. cbn [negb].
      destruct (Z.eqb_spec (d_len i) 0); [done|]. rewrite H16. cbn [Z.eqb orb negb].
      destruct (Z.ltb_spec MAX_QUEUE_SIZE (d_len i / 16)); [lia|]. rewrite Hd'. apply walk_table_ok. by exists rd, wr.
Qed.
End chains.

(** ** Laws of guest memory

    What the queue and the devices rely on: a read gives as many bytes as
    asked for, part of a readable range reads as that part, a write is read
    back and leaves what it does not touch. *)

Class GuestRamLaws (R : Type) `{!GuestRam R} := {
  ram_read_length addr n (r : R) d : ram_read addr n r = Ok d -> length d = n;
  ram_read_sub addr n (r : R) d off m :
    is_u 64 addr -> addr + Z.of_nat n <= 2 ^ 64 -> ram_read addr n r = Ok d -> (0 < m)%nat -> (off + m <= n)%nat ->
    ram_read (u64 (addr + Z.of_nat off)) m r = Ok (take m (drop off d));
  ram_write_same addr data (r r' : R) :
    ram_write addr data r = (Ok tt, r') -> ram_read addr (length data) r' = Ok data;
  ram_write_other addr data (r r' : R) a n :
    ram_write addr data r = (Ok tt, r') -> a + Z.of_nat n <= addr \/ addr + Z.of_nat (length data) <= a ->
    ram_read a n r' = ram_read a n r;
  ram_write_ok addr data (r : R) d :
    ram_read addr (length data) r = Ok d -> exists r', ram_write addr data r = (Ok tt, r');
}.

Lemma length_overwrite a b buf : (a + length b <= length buf)%nat -> length (overwrite a b buf) = length buf.
Proof. intros. unfold overwrite. rewrite !length_app, length_take, length_drop. lia. Qed.

(** [addr - base .. + n] inside the bytes. *)
Lemma vr_range_ok r addr n a b :
  vr_range r addr n = Ok (a, b) <->
  vr_base r <= addr /\ a = Z.to_nat (addr - vr_base r) /\ b = (a + n)%nat
    /\ (b <= length (vr_bytes r))%nat /\ addr - vr_base r + Z.of_nat n < 2 ^ 64.
Proof.
  unfold vr_range. destruct (Z.ltb_spec addr (vr_base r)); [split; [done|lia]|].
  destruct (Z.leb_spec (2 ^ 64) (addr - vr_base r + Z.of_nat n)); [split; [done|lia]|].
  destruct (Z.ltb_spec (Z.of_nat (length (vr_bytes r))) (addr - vr_base r + Z.of_nat n)).
  - split; [done|]. intros (_ & -> & -> & ? & _). lia.
  - split; [intros [= <- <-]|intros (_ & -> & -> & _)]; [split_and!; lia|]. do 2 f_equal. lia.
Qed.

Lemma vr_range_congr r r' addr n :
  vr_base r' = vr_base r -> length (vr_bytes r') = length (vr_bytes r) -> vr_range r' addr n = vr_range r addr n.
Proof. intros E1 E2. unfold vr_range. by rewrite E1, E2. Qed.

Lemma take_drop_overwrite_other a d buf s m :
  (a + length d <= length buf)%nat -> (s + m <= a)%nat \/ (a + length d <= s)%nat ->
  take m (drop s (overwrite a d buf)) = take m (drop s buf).
Proof.
  intros Ha Hs. apply list_eq. intros i. destruct (decide (i < m)%nat); [|rewrite !lookup_take_ge by lia; done].
  rewrite !lookup_take_lt, !lookup_drop by lia. unfold overwrite.
  destruct Hs.
  - rewrite lookup_app_l by (rewrite length_take; lia). by rewrite lookup_take_lt by lia.
  - rewrite app_assoc, lookup_app_r by (rewrite length_app, length_take; lia).
    rewrite lookup_drop. f_equal. rewrite length_app, length_take. lia.
Qed.

#[export] Instance vecram_laws : GuestRamLaws VecRam.
Proof.
  split; cbn [ram_read ram_write vecram_guest].
  - intros addr n r d. destruct (vr_range r addr n) as [[a b]|] eqn:E; [|done]. intros [= <-].
    apply vr_range_ok in E as (_ & _ & -> & Hb & _). rewrite length_take, length_drop. lia.
  - intros addr n r d off m Ha Hn. destruct (vr_range r addr n) as [[a b]|] eqn:E; [|done]. intros [= <-] Hm Hoff.
    apply vr_range_ok in E as (Hbase & -> & -> & Hb & H64). unfold is_u in Ha.
    assert (u64 (addr + Z.of_nat off) = addr + Z.of_nat off) as -> by (apply Z.mod_small; lia).
    assert (vr_range r (addr + Z.of_nat off) m = Ok ((Z.to_nat (addr - vr_base r) + off)%nat, (Z.to_nat (addr - vr_base r) + off + m)%nat)) as ->.
    { apply vr_range_ok. split_and!; lia. }
    f_equal. rewrite skipn_firstn_comm, take_take, drop_drop. f_equal; lia.
  - intros addr data r r'. destruct (vr_range r addr (length data)) as [[a b]|] eqn:E; [|done]. intros [= <-].
    apply vr_range_ok in E as (H1 & -> & -> & H2 & H3).
    rewrite (vr_range_congr r) by (cbn; rewrite ?length_overwrite by lia; done).
    rewrite (proj2 (vr_range_ok r addr (length data) _ _) (conj H1 (conj eq_refl (conj eq_refl (conj H2 H3))))).
    cbn [vr_bytes update]. f_equal. unfold overwrite.
    rewrite drop_app_le, drop_ge by (rewrite length_take; lia). cbn [app].
    rewrite take_app_le by lia. apply take_ge. lia.
  - intros addr data r r' a n. destruct (vr_range r addr (length data)) as [[s e]|] eqn:E; [|done]. intros [= <-] Hd.
    apply vr_range_ok in E as (H1 & -> & -> & H2 & H3).
    rewrite (vr_range_congr r) by (cbn; rewrite ?length_overwrite by lia; done).
    destruct (vr_range r a n) as [[s e]|] eqn:E; [|done].
    apply vr_range_ok in E as (H1' & -> & -> & H2' & H3'). cbn [vr_bytes update]. f_equal.
    apply take_drop_overwrite_other; lia.
  - intros addr data r d. destruct (vr_range r addr (length data)) as [[s e]|]; [by eexists|done].
Qed.

(** ** Bytes of a chain *)

Section chain_bytes.
Context {R : Type} `{!GuestRam R} `{!GuestRamLaws R}.

(** A buffer of guest memory holds [d]. *)
Definition buf_holds (r : R) (b : Buf) (d : list Z) : Prop :=
  is_u 64 (buf_addr b) /\ is_u 32 (buf_len b) /\ buf_addr b + buf_len b <= 2 ^ 64
  /\ ram_read (buf_addr b) (Z.to_nat (buf_len b)) r = Ok d.

Lemma buf_holds_len r b d : buf_holds r b d -> buf_len b = Z.of_nat (length d).
Proof. intros (_ & Hl & _ & Hd). apply ram_read_length in Hd. unfold is_u in Hl. lia. Qed.

Lemma pieces_end bufs offset done len : (len <= done)%nat -> done = len -> pieces bufs offset done len = [].
Proof. intros _ ->. destruct bufs; [done|]. cbn [pieces]. by rewrite Nat.eqb_refl. Qed.

Lemma read_pieces_bytes r bufs ds offset done len :
  Forall2 (buf_holds r) bufs ds -> 0 <= offset -> (done <= len)%nat ->
  read_pieces (pieces bufs offset done len) r = Ok (take (len - done) (drop (Z.to_nat offset) (concat ds))).
Proof.
  intros H. revert offset done. induction H as [|b d bufs ds Hb H IH]; intros offset done Ho Hd.
  { cbn [pieces read_pieces concat]. by rewrite drop_nil, take_nil. }
  cbn [pieces concat]. destruct (Nat.eqb_spec done len) as [->|Hne].
  { cbn [read_pieces]. by rewrite Nat.sub_diag, take_0. }
  pose proof (buf_holds_len _ _ _ Hb) as Hl. rewrite Hl. destruct (Z.leb_spec (Z.of_nat (length d)) offset).
  - rewrite IH by lia. do 2 f_equal. rewrite drop_app_ge by lia. f_equal. lia.
  - remember (Nat.min _ _) as n eqn:Hn. cbn [read_pieces]. destruct Hb as (Ha & Hbl & Hw & Hr). unfold is_u in Hbl.
    replace (buf_addr b + offset) with (buf_addr b + Z.of_nat (Z.to_nat offset)) by lia.
    rewrite (ram_read_sub _ (Z.to_nat (buf_len b)) _ d) by (done || lia).
    rewrite IH by lia. f_equal. change (Z.to_nat 0) with O. cbn [drop]. rewrite drop_app_le, take_app by lia.
    rewrite length_drop. f_equal; [|f_equal; lia].
    destruct (Nat.min_spec (Z.to_nat (Z.of_nat (length d) - offset)) (len - done)) as [[? E]|[? E]]; rewrite E in Hn.
    + rewrite !take_ge by (rewrite length_drop; lia). done.
    + f_equal. lia.
Qed.

(** Reading [len] bytes at [offset] through a chain gives those bytes of
    the contents of its readable buffers put one after the other, and fewer
    only at their end. *)
Theorem chain_read_bytes (c : DescChain) ds (r : R) offset len :
  Forall2 (buf_holds r) (readable c) ds -> 0 <= offset ->
  chain_read c offset len r = Ok (take len (drop (Z.to_nat offset) (concat ds))).
Proof. intros H Ho. unfold chain_read. rewrite (read_pieces_bytes r _ ds) by (done || lia). by rewrite Nat.sub_0_r. Qed.
End chain_bytes.

(** A chain with an indirect table. *)
Module example.
(** A table of one indirect descriptor at 0, its table at 64, the data after. *)
Definition mem : VecRam := MkVecRam 0x1000
  (to_le 8 0x1040 ++ to_le 4 32 ++ to_le 2 4 ++ to_le 2 0 ++ replicate 48 0
   ++ to_le 8 0x1060 ++ to_le 4 3 ++ to_le 2 1 ++ to_le 2 1
   ++ to_le 8 0x1070 ++ to_le 4 2 ++ to_le 2 2 ++ to_le 2 0
   ++ [7; 8; 9] ++ replicate 29 0).
Definition q : Virtqueue := MkQueue 8 1 true 0x1000 0x2000 0x3000 0 0 0 false true.
Definition chain : DescChain := MkChain 0 [MkBuf 0x1060 3] [MkBuf 0x1070 2].
End example.

Lemma walk_exact_witness : spec_chain example.q 0 example.mem example.chain.
Proof. apply walk_exact. vm_compute. reflexivity. Defined.

Lemma chain_read_bytes_witness :
  chain_read example.chain 1 5 example.mem = Ok [8; 9].
Proof.
  apply (chain_read_bytes example.chain [[7; 8; 9]] example.mem 1 5); [|lia].
  constructor; [|constructor]. repeat split; vm_compute; congruence.
Defined.

(** * Operations of a queue (crates/vetro-platform/src/virtio/queue.rs)

    What each operation of [Virtqueue] leaves unchanged, and what
    [push_used] publishes to the driver. *)

Lemma frames_foldM_rel {S E A C} (Rel : relation S) `{!Reflexive Rel} `{!Transitive Rel} (f : A -> C -> prog S E A) a l :
  (forall a c, frames Rel (f a c)) -> frames Rel (foldM f a l).
Proof. intros Hf. revert a. induction l as [|c l IH]; intros a; cbn [foldM]; [by apply frames_ret|]. by apply frames_bind. Qed.

(** The framing of a program, from the framing of the calls in it, which
    [leaf] or the hints of the section prove. *)
Ltac frame_steps leaf :=
  repeat match goal with
  | |- frames _ (mbind _ _) => apply frames_bind; [apply _| |intros ?]
  | |- frames _ (gets _) => apply frames_gets, _
  | |- frames _ (mret _) => apply frames_ret, _
  | |- frames _ (throw _) => apply frames_throw, _
  | |- frames _ (foldM _ _ _) => apply frames_foldM_rel; [apply _..|intros]
  | |- frames _ (match ?x with _ => _ end) => destruct x
  | _ => first [solve [leaf] | solve [auto]]
  end.

(** ** The configuration of a queue *)

(** Two queues that differ at most in their indices. *)
Definition same_config (q q' : Virtqueue) : Prop :=
  q' = q <| last_avail := last_avail q' |> <| used_idx := used_idx q' |> <| signalled_used := signalled_used q' |>.

#[export] Instance same_config_refl : Reflexive same_config.
Proof. intros []. reflexivity. Qed.

#[export] Instance same_config_trans : Transitive same_config.
Proof. intros [] [] [] H1 H2. unfold same_config, update in *. cbn in *. congruence. Qed.

Section frames.
Context {R : Type} `{!GuestRam R}.

Definition keeps_config : relation (Virtqueue * R) := fun s s' => same_config s.1 s'.1.

#[local] Instance keeps_refl : Reflexive keeps_config.
Proof. intros [q r]. unfold keeps_config. reflexivity. Qed.

#[local] Instance keeps_trans : Transitive keeps_config.
Proof. intros s1 s2 s3 H1 H2. unfold keeps_config in *. by etransitivity. Qed.

Lemma keeps_on_ram {A} (m : prog R RamError A) : frames keeps_config (on_ram m).
Proof. intros [q r]. unfold on_ram, keeps_config. cbn. destruct (m r) as [[a|e] r']; reflexivity. Qed.

Lemma keeps_from_ram {A} (f : R -> result A RamError) : frames keeps_config (from_ram f).
Proof. intros s. unfold from_ram, keeps_config. cbn. reflexivity. Qed.

Lemma keeps_from_queue {A} (f : Virtqueue -> R -> result A QueueError) : frames keeps_config (from_queue f).
Proof. intros s. unfold from_queue, keeps_config. cbn. reflexivity. Qed.

Lemma keeps_set_queue f : (forall q, same_config q (f q)) -> frames keeps_config (set_queue (R:=R) f).
Proof. intros Hf. unfold set_queue. apply frames_modify. intros s. apply Hf. Qed.

Lemma keeps_slot_of idx : frames keeps_config (slot_of (R:=R) idx).
Proof.
  unfold slot_of. apply frames_bind; [apply _|apply frames_gets, _|]. intros q.
  destruct (size q =? 0); [apply frames_throw, _|apply frames_ret, _].
Qed.

#[local] Hint Resolve keeps_on_ram keeps_from_ram keeps_from_queue keeps_slot_of : core.

Ltac keeps := frame_steps ltac:(apply keeps_set_queue; intros []; reflexivity).

Lemma keeps_publish : frames keeps_config (publish_avail_event (R:=R)).
Proof. unfold publish_avail_event. keeps. Qed.

#[local] Hint Resolve keeps_publish : core.

Lemma pop_keeps_config : frames keeps_config (pop (R:=R)).
Proof. unfold pop. keeps. Qed.

Lemma rewind_keeps_config n : frames keeps_config (rewind (R:=R) n).
Proof. unfold rewind. keeps. Qed.

Lemma push_used_keeps_config h len : frames keeps_config (push_used (R:=R) h len).
Proof. unfold push_used. keeps. Qed.

Lemma should_notify_keeps_config : frames keeps_config (should_notify (R:=R)).
Proof. unfold should_notify. keeps. Qed.
End frames.

(** ** The used ring *)

Section used.
Context {R : Type} `{!GuestRam R} `{!GuestRamLaws R}.

(** The used ring of the queue is memory. *)
Definition used_ring_ok (q : Virtqueue) (r : R) : Prop :=
  0 < size q <= MAX_QUEUE_SIZE /\ is_u 64 (device q) /\ is_u 16 (used_idx q) /\ device q + 4 + 8 * size q <= 2 ^ 64
  /\ exists d, ram_read (device q) (Z.to_nat (4 + 8 * size q)) r = Ok d.

(** Element [k] of the used ring: the head of a chain and its length. *)
Definition used_elem (q : Virtqueue) (k : Z) (r : R) : result (Z * Z) RamError :=
  match read_u32 (device q + 4 + 8 * k) r, read_u32 (device q + 4 + 8 * k + 4) r with
  | Ok h, Ok len => Ok (h, len)
  | Err e, _ | _, Err e => Err e
  end.

Lemma used_ring_part q r off n :
  used_ring_ok q r -> 0 <= off -> (0 < n)%nat -> off + Z.of_nat n <= 4 + 8 * size q ->
  exists d, ram_read (device q + off) n r = Ok d.
Proof.
  intros (Hs & Hd & _ & Hend & d & Hr) Ho Hn Hle. unfold is_u, MAX_QUEUE_SIZE in *.
  pose proof (ram_read_sub (device q) (Z.to_nat (4 + 8 * size q)) r d (Z.to_nat off) n Hd ltac:(lia) Hr Hn ltac:(lia)) as H.
  rewrite Z2Nat.id in H by lia. unfold u64 in H. rewrite Z.mod_small in H by lia. eauto.
Qed.

(** A write inside a range that can be read, and what it leaves. *)
Lemma write_part r a data d :
  ram_read a (length data) r = Ok d -> exists r', ram_write a data r = (Ok tt, r')
    /\ ram_read a (length data) r' = Ok data
    /\ (forall b n, b + Z.of_nat n <= a \/ a + Z.of_nat (length data) <= b -> ram_read b n r' = ram_read b n r).
Proof.
  intros Hr. destruct (ram_write_ok _ _ _ _ Hr) as [r' Hw]. exists r'. split_and!; [done| |].
  - by eapply ram_write_same.
  - intros b n Hb. by eapply ram_write_other.
Qed.

(** The writes of [push_used], in order. *)
Lemma push_used_run q (r r1 r2 r3 : R) h len :
  0 < size q <= MAX_QUEUE_SIZE -> is_u 64 (device q) -> device q + 4 + 8 * size q <= 2 ^ 64 ->
  let elem := device q + 4 + 8 * (used_idx q mod size q) in
  ram_write elem (to_le 4 h) r = (Ok tt, r1) -> ram_write (elem + 4) (to_le 4 len) r1 = (Ok tt, r2) ->
  ram_write (device q + 2) (to_le 2 (u16 (used_idx q + 1))) r2 = (Ok tt, r3) ->
  push_used h len (q, r) = (Ok tt, (q <| used_idx := u16 (used_idx q + 1) |>, r3)).
Proof.
  intros Hs Hd Hend elem W1 W2 W3. unfold MAX_QUEUE_SIZE, is_u in *.
  pose proof (Z.mod_pos_bound (used_idx q) (size q) ltac:(lia)) as Hk.
  assert (forall x, 0 <= x < 2 ^ 64 -> u64 x = x) as Hu by (intros; by apply Z.mod_small).
  unfold push_used, slot_of. rewrite (bind_ok _ _ _ q (q, r)) by done.
  rewrite (bind_ok _ _ _ (used_idx q mod size q) (q, r)).
  2: { rewrite (bind_ok _ _ _ q (q, r)) by done. destruct (Z.eqb_spec (size q) 0); [lia|done]. }
  fold elem. cbv zeta. rewrite (Hu elem), (Hu (elem + 4)) by lia. unfold write_u32, write_u16.
  rewrite (bind_ok _ _ _ tt (q, r1)) by (unfold on_ram; cbn [fst snd]; by rewrite W1).
  rewrite (bind_ok _ _ _ tt (q, r2)) by (unfold on_ram; cbn [fst snd]; by rewrite W2).
  rewrite (bind_ok _ _ _ tt (q <| used_idx := u16 (used_idx q + 1) |>, r2)) by done.
  rewrite (bind_ok _ _ _ (q <| used_idx := u16 (used_idx q + 1) |>) (q <| used_idx := u16 (used_idx q + 1) |>, r2)) by done.
  unfold on_ram. cbn [fst snd]. change (device (q <| used_idx := _ |>)) with (device q).
  rewrite Hu by lia. change (used_idx (q <| used_idx := u16 (used_idx q + 1) |>)) with (u16 (used_idx q + 1)). by rewrite W3.
Qed.

(** C20: [push_used] over a used ring in memory succeeds; the driver then finds
    the chain's head and length in the slot of the old index and the index
    advanced by one modulo 2^16; the other elements of the ring, and all
    memory outside it, are unchanged. *)
Theorem push_used_publishes q (r : R) h len :
  used_ring_ok q r -> is_u 16 h -> is_u 32 len ->
  exists q' r', push_used h len (q, r) = (Ok tt, (q', r'))
    /\ q' = q <| used_idx := u16 (used_idx q + 1) |>
    /\ read_u16 (device q + 2) r' = Ok (used_idx q')
    /\ used_elem q (used_idx q mod size q) r' = Ok (h, len)
    /\ (forall k, 0 <= k < size q -> k <> used_idx q mod size q -> used_elem q k r' = used_elem q k r)
    /\ (forall a n, a + Z.of_nat n <= device q + 2 \/ device q + 4 + 8 * size q <= a -> ram_read a n r' = ram_read a n r).
Proof.
  intros Hok Hh Hlen. pose proof Hok as (Hs & Hd & Hu & Hend & Hmem).
  unfold is_u, MAX_QUEUE_SIZE in *. set (k := used_idx q mod size q).
  assert (0 <= k < size q) as Hk by (apply Z.mod_pos_bound; lia).
  set (elem := device q + 4 + 8 * k).
  destruct (used_ring_part q r (4 + 8 * k) 4 Hok ltac:(lia) ltac:(lia) ltac:(lia)) as [d1 H1].
  destruct (used_ring_part q r (4 + 8 * k + 4) 4 Hok ltac:(lia) ltac:(lia) ltac:(lia)) as [d2 H2].
  destruct (used_ring_part q r 2 2 Hok ltac:(lia) ltac:(lia) ltac:(lia)) as [d3 H3].
  replace (device q + (4 + 8 * k)) with elem in H1 by (unfold elem; lia).
  replace (device q + (4 + 8 * k + 4)) with (elem + 4) in H2 by (unfold elem; lia).
  destruct (write_part r elem (to_le 4 h) d1) as (r1 & W1 & S1 & O1); [by rewrite length_to_le|].
  destruct (write_part r1 (elem + 4) (to_le 4 len) d2) as (r2 & W2 & S2 & O2).
  { rewrite length_to_le in *. rewrite O1; [done|lia]. }
  destruct (write_part r2 (device q + 2) (to_le 2 (u16 (used_idx q + 1))) d3) as (r3 & W3 & S3 & O3).
  { rewrite length_to_le in *. rewrite O2, O1; [done|unfold elem; lia..]. }
  exists (q <| used_idx := u16 (used_idx q + 1) |>), r3.
  rewrite !length_to_le in *. split_and!.
  - eapply push_used_run; done.
  - done.
  - unfold read_u16. rewrite S3. cbn [map_ok]. f_equal. rewrite from_to_le. apply Z.mod_small, is_u_u16.
  - unfold used_elem, read_u32. fold elem. rewrite !O3, S2, O2, S1 by lia. cbn [map_ok]. rewrite !from_to_le.
    do 2 f_equal; apply Z.mod_small; lia.
  - intros j Hj Hne. unfold used_elem, read_u32. rewrite !O3, !O2, !O1 by lia. done.
  - intros a n Ha. rewrite O3, O2, O1 by lia. done.
Qed.
End used.

(** A ring of four elements whose index wraps around. *)
Lemma push_used_publishes_witness :
  let q := MkQueue 8 4 true 0 0 0x1000 0 65535 0 false false in
  exists q' r', push_used 2 7 (q, vecram_new 0x1000 64) = (Ok tt, (q', r')) /\ used_idx q' = 0
    /\ used_elem q 3 r' = Ok (2, 7).
Proof.
  intros q.
  destruct (push_used_publishes q (vecram_new 0x1000 64) 2 7) as (q' & r' & Hp & Hq & _ & He & _).
  - split_and!; [reflexivity|discriminate|unfold is_u; cbn; lia..|]. eexists. vm_compute. reflexivity.
  - unfold is_u; lia.
  - unfold is_u; lia.
  - exists q', r'. split_and!; [done|by rewrite Hq|done].
Defined.
