(* ===== verification/VirtMmioProof.v ===== *)
(** * The virtio-mmio transport: invariants (crates/vetro-platform/src/virtio/mmio.rs)

    The laws of a device that the transport relies on, the states that
    register accesses and service turns can reach, and what holds in all of
    them. *)

From Stdlib Require Import ZArith Lia Bool.
From stdpp Require Import base list numbers strings.
From S2P Require Import Prelude SnapWire VirtQueue VirtChain VirtMmio.
Local Open Scope Z_scope.
Local Open Scope vetro_scope.

(** What a device promises to the transport: the features it offers are fixed,
    and it changes its queues only through their operations. *)
Class VirtioDeviceLaws (R D : Type) `{!mmio.VirtioDevice R D} := {
  features_write_config off l (d : D) : mmio.vd_features (R:=R) (mmio.vd_write_config (R:=R) off l d) = mmio.vd_features (R:=R) d;
  features_negotiate f (d : D) : mmio.vd_features (R:=R) (mmio.vd_negotiate (R:=R) f d).2 = mmio.vd_features (R:=R) d;
  features_reset (d : D) : mmio.vd_features (R:=R) (mmio.vd_reset (R:=R) d) = mmio.vd_features (R:=R) d;
  features_service f (d d' : D) c c' r : mmio.vd_service f (d, c) = (r, (d', c')) -> mmio.vd_features (R:=R) d' = mmio.vd_features (R:=R) d;
  queues_service f (d d' : D) (c c' : mmio.ServiceCtx R) r :
    mmio.vd_service f (d, c) = (r, (d', c')) -> Forall2 same_config (mmio.queues c) (mmio.queues c');
}.

Module transport.
Import mmio.

Section invariant.
Context {R D : Type} `{!GuestRam R} `{!VirtioDevice R D} `{!VirtioDeviceLaws R D}.
Implicit Types t : VirtioMmio D.

(** The features the driver has accepted were offered, and include VERSION_1. *)
Definition negotiated t : Prop :=
  test_mask (status t) STATUS_FEATURES_OK = true ->
  test_mask (driver_features t) F_VERSION_1 = true /\ Z.land (driver_features t) (u64 (Z.lnot (offered_features (R:=R) t))) = 0.

(** A ready queue has a valid configuration. *)
Definition queue_ok (q : Virtqueue) : Prop := ready q = true -> queue_valid q = true.

Definition transport_ok t : Prop := negotiated t /\ Forall queue_ok (qs t).

(** The states of a transport: it is created with a device and a mask of
    features, then the guest writes registers and the board runs the device. *)
Inductive reachable : VirtioMmio D -> Prop :=
| reach_new d mask : reachable (without_features mask (mmio_new (R:=R) d))
| reach_write t offset sz v : reachable t -> reachable (write (R:=R) offset sz v t)
| reach_service t r t' r' : reachable t -> service t r = Some (t', r') -> reachable t'
| reach_config_change t : reachable t -> reachable (signal_config_change t)
| reach_device t d : reachable t -> reachable (set_device (R:=R) d t).

Lemma queue_ok_same q q' : same_config q q' -> queue_ok q -> queue_ok q'.
Proof. unfold same_config, queue_ok. intros ->. done. Qed.

Lemma queue_ok_set_ready b q : queue_ok (set_ready b q).
Proof.
  unfold queue_ok, set_ready. unfold update. cbn [ready]. destruct (b && queue_valid q) eqn:E; cbn [ready]; [|done].
  intros _. apply andb_prop in E as [_ E]. exact E.
Qed.

Lemma queue_ok_not_ready q : ready q = false -> queue_ok q.
Proof. intros E. unfold queue_ok. by rewrite E. Qed.

(** [negotiated] depends on the status, the features and the offer. *)
Lemma negotiated_congr t t' :
  test_mask (status t') STATUS_FEATURES_OK = test_mask (status t) STATUS_FEATURES_OK ->
  driver_features t' = driver_features t -> offered_features (R:=R) t' = offered_features (R:=R) t ->
  negotiated t -> negotiated t'.
Proof. unfold negotiated. by intros -> -> ->. Qed.

Lemma offered_congr t t' d d' :
  dev t = Some d -> dev t' = Some d' -> removed t' = removed t -> vd_features (R:=R) d' = vd_features (R:=R) d ->
  offered_features (R:=R) t' = offered_features (R:=R) t.
Proof. unfold offered_features. by intros -> -> -> ->. Qed.

Lemma ok_on_queue f t : (forall q, queue_ok q -> queue_ok (f q)) -> transport_ok t -> transport_ok (on_queue f t).
Proof.
  intros Hf [Hn Hq]. split; [exact Hn|].
  change (qs (on_queue f t)) with (alter f (Z.to_nat (queue_sel t)) (qs t)). apply Forall_alter; auto.
Qed.

Lemma ok_reset t : transport_ok (reset (R:=R) t).
Proof.
  split; [intros H; discriminate H|]. change (qs (reset t)) with (map queue_reset (qs t)).
  apply Forall_map, Forall_true. intros q. by apply queue_ok_not_ready.
Qed.

Lemma ok_set_device d t : transport_ok (set_device (R:=R) d t).
Proof. apply ok_reset. Qed.

Lemma ok_without_features mask t : test_mask (status t) STATUS_FEATURES_OK = false -> transport_ok t -> transport_ok (without_features mask t).
Proof. intros Hs [_ Hq]. split; [|exact Hq]. unfold negotiated. change (status (without_features mask t)) with (status t). by rewrite Hs. Qed.

Lemma ok_signal t : transport_ok t -> transport_ok (signal_config_change t).
Proof.
  intros [Hn Hq]. unfold signal_config_change. cbv zeta.
  destruct (test_mask (status _) STATUS_DRIVER_OK); split; [exact Hn|exact Hq|exact Hn|exact Hq].
Qed.

Lemma test_mask_lor_other x y m : Z.land y m = 0 -> test_mask (Z.lor x y) m = test_mask x m.
Proof. intros H. unfold test_mask. by rewrite Z.land_lor_distr_l, H, Z.lor_0_r. Qed.

Lemma ok_fail e t : transport_ok t -> transport_ok (fail e t).
Proof.
  intros [Hn Hq]. unfold fail. apply ok_signal. split; [|exact Hq].
  eapply negotiated_congr, Hn; [|reflexivity..]. by apply test_mask_lor_other.
Qed.

Lemma features_ok_cleared v : test_mask (Z.land v (u32 (Z.lnot STATUS_FEATURES_OK))) STATUS_FEATURES_OK = false.
Proof.
  unfold test_mask. rewrite <- Z.land_assoc. change (Z.land (u32 (Z.lnot STATUS_FEATURES_OK)) STATUS_FEATURES_OK) with 0.
  by rewrite Z.land_0_r.
Qed.

(** A status without FEATURES_OK asks for nothing. *)
Lemma ok_unlocked t s d :
  test_mask s STATUS_FEATURES_OK = false -> transport_ok t -> transport_ok (t <| dev := d |> <| status := s |>).
Proof. intros Hs [_ Hq]. split; [|exact Hq]. unfold negotiated, update. cbn [status]. by rewrite Hs. Qed.

Lemma ok_write_status v t : transport_ok t -> transport_ok (write_status (R:=R) v t).
Proof.
  intros Hok. pose proof Hok as [Hn Hq]. unfold write_status. destruct (v =? 0); [apply ok_reset|].
  set (v' := Z.lor v _). destruct (test_mask v' STATUS_FEATURES_OK) eqn:Hv; cbn [andb].
  - destruct (test_mask (status t) STATUS_FEATURES_OK) eqn:Hs; cbn [negb].
    + split; [|exact Hq]. eapply negotiated_congr, Hn; [|reflexivity..]. change (status (t <| status := v' |>)) with v'. by rewrite Hv, Hs.
    + cbv zeta. destruct (test_mask (driver_features t) F_VERSION_1) eqn:H1; cbn [andb].
      2: { apply (ok_unlocked _ _ (dev t)); [apply features_ok_cleared|by destruct t]. }
      destruct (Z.eqb_spec (Z.land (driver_features t) (u64 (Z.lnot (offered_features (R:=R) t)))) 0) as [H2|].
      2: { apply (ok_unlocked _ _ (dev t)); [apply features_ok_cleared|by destruct t]. }
      destruct (dev t) as [d|] eqn:Hd.
      2: { apply (ok_unlocked _ _ (dev t)); [apply features_ok_cleared|by destruct t]. }
      destruct (vd_negotiate (R:=R) (driver_features t) d) as [ok d'] eqn:En.
      destruct ok; [|by apply ok_unlocked, Hok; apply features_ok_cleared].
      split; [|exact Hq]. intros _. unfold update at 1. cbn [driver_features].
      rewrite (offered_congr t _ d d'); try done. pose proof (features_negotiate (driver_features t) d) as Hf. by rewrite En in Hf.
  - by apply (ok_unlocked _ _ (dev t)); [|destruct t].
Qed.

(** A queue that is ready does not change but through QueueReady. *)
Lemma queue_ok_unless_ready q q' : ready q' = ready q -> queue_ok q -> queue_ok (if ready q then q else q').
Proof. intros Hr Hq. destruct (ready q) eqn:E; [done|]. by apply queue_ok_not_ready. Qed.

Lemma ok_set_queue_addr offset v q : queue_ok q -> queue_ok (set_queue_addr offset v q).
Proof. unfold set_queue_addr. apply queue_ok_unless_ready. cbv zeta. by repeat case_match. Qed.

Lemma ok_driver_features f t :
  test_mask (status t) STATUS_FEATURES_OK = false -> transport_ok t -> transport_ok (t <| driver_features ::= f |>).
Proof. intros Hs [_ Hq]. split; [|exact Hq]. unfold negotiated, update. cbn [status]. by rewrite Hs. Qed.

Lemma ok_write_reg offset v t : transport_ok t -> transport_ok (write_reg (R:=R) offset v t).
Proof.
  intros Hok. unfold write_reg. cbv zeta.
  destruct (offset =? DEVICE_FEATURES_SEL); [exact Hok|]. destruct (offset =? DRIVER_FEATURES_SEL); [exact Hok|].
  destruct ((offset =? DRIVER_FEATURES) && negb (test_mask (status t) STATUS_FEATURES_OK)) eqn:Hf.
  { apply andb_prop in Hf as [_ Hs]. apply negb_true_iff in Hs. repeat case_match; try exact Hok; by apply ok_driver_features. }
  destruct (offset =? QUEUE_SEL); [exact Hok|].
  destruct (offset =? QUEUE_NUM); [apply ok_on_queue, Hok; intros q; by apply queue_ok_unless_ready|].
  destruct (offset =? QUEUE_READY); [apply ok_on_queue, Hok; intros q _; apply queue_ok_set_ready|].
  destruct (is_queue_addr offset); [apply ok_on_queue, Hok; intros q; apply ok_set_queue_addr|].
  destruct (offset =? INTERRUPT_ACK); [exact Hok|].
  destruct (offset =? STATUS); [by apply ok_write_status|exact Hok].
Qed.

(** A device that keeps its features keeps the offer. *)
Lemma ok_set_dev t d d' :
  dev t = Some d -> vd_features (R:=R) d' = vd_features (R:=R) d -> transport_ok t -> transport_ok (t <| dev := Some d' |>).
Proof.
  intros Hd Hf [Hn Hq]. split; [|exact Hq]. eapply negotiated_congr, Hn; [reflexivity..|].
  by apply (offered_congr t _ d d').
Qed.

Lemma ok_write offset sz v t : transport_ok t -> transport_ok (write (R:=R) offset sz v t).
Proof.
  intros Hok. unfold write. destruct (dev t) as [d|] eqn:Hd; [|done]. destruct (CONFIG <=? offset).
  - apply (ok_set_dev _ d); [done|apply features_write_config|done].
  - destruct ((sz =? 4) && (offset mod 4 =? 0)); [by apply ok_write_reg|done].
Qed.

Lemma notify_all_config l r res : Forall2 same_config l (notify_all (R:=R) l r res).1.2.
Proof.
  revert res. induction l as [|q l IH]; intros res; [constructor|]. cbn [notify_all].
  pose proof (should_notify_keeps_config (R:=R) (q, r)) as Hk.
  destruct (should_notify (q, r)) as [o [q' r']]. unfold keeps_config in Hk. cbn [fst snd] in Hk.
  specialize (IH (match o, res with Err e, Ok _ => Err e | _, _ => res end)).
  destruct (notify_all l r _) as [[n l'] res']. cbn [fst snd] in *. by constructor.
Qed.

Lemma ok_queues l t : Forall2 same_config (qs t) l -> transport_ok t -> transport_ok (t <| qs := l |>).
Proof.
  intros Hl [Hn Hq]. split; [exact Hn|]. change (qs (t <| qs := l |>)) with l.
  induction Hl; [constructor|]. apply Forall_cons in Hq as [? ?]. constructor; [by eapply queue_ok_same|auto].
Qed.

Lemma ok_service t r t' r' : transport_ok t -> service (R:=R) t r = Some (t', r') -> transport_ok t'.
Proof.
  intros Hok. unfold service. destruct (negb _ || _); [by intros [= <- <-]|]. destruct (dev t) as [d|] eqn:Hd; [|by intros [= <- <-]].
  destruct (vd_service (driver_features t) _) as [res [d' ctx]] eqn:Hs.
  set (t1 := t <| dev := Some d' |> <| qs := queues ctx |>).
  assert (transport_ok t1) as H1.
  { unfold t1. apply ok_queues; [exact (queues_service _ _ _ _ _ _ Hs)|]. eapply ok_set_dev, Hok; [done|]. exact (features_service _ _ _ _ _ _ Hs). }
  set (t2 := if config_changed ctx then signal_config_change t1 else t1).
  assert (transport_ok t2) as H2 by (unfold t2; destruct (config_changed ctx); [by apply ok_signal|done]).
  intros H. assert (match notify_all (qs t2) (ram ctx) res with
    | (notify, l, Ok _) => Some ((if notify then t2 <| qs := l |> <| interrupt_status ::= fun i => Z.lor i INT_VRING |> else t2 <| qs := l |>), ram ctx)
    | (notify, l, Err (Failed e)) => Some (fail e (if notify then t2 <| qs := l |> <| interrupt_status ::= fun i => Z.lor i INT_VRING |> else t2 <| qs := l |>), ram ctx)
    | _ => None end = Some (t', r')) as H'.
  { destruct res as [|[]]; try discriminate; destruct (notify_all _ _ _) as [[? ?] []]; exact H. }
  clear H. pose proof (notify_all_config (qs t2) (ram ctx) res) as Hk. destruct (notify_all _ _ _) as [[n l] res'].
  assert (transport_ok (if n then t2 <| qs := l |> <| interrupt_status ::= fun i => Z.lor i INT_VRING |> else t2 <| qs := l |>)) as H3.
  { pose proof (ok_queues l t2 Hk H2) as H3. destruct n; exact H3. }
  destruct res' as [|[e| |]]; try discriminate; injection H' as <- _; [done|by apply ok_fail].
Qed.

(** C15: In every state that register writes and service turns can reach, for
    any device that keeps its laws: once the driver has FEATURES_OK, the
    features it accepted were all offered and include VERSION_1; and a queue
    that is ready has a size that is a power of two within its maximum and
    areas aligned as the specification asks. *)
Theorem transport_invariant t : reachable t -> transport_ok t.
Proof.
  induction 1; [|by apply ok_write|by eapply ok_service|by apply ok_signal|apply ok_set_device].
  apply ok_without_features; [done|apply ok_set_device].
Qed.

Lemma write_status_features v t :
  test_mask (status (write_status (R:=R) v t)) STATUS_FEATURES_OK = true -> driver_features (write_status (R:=R) v t) = driver_features t.
Proof.
  unfold write_status. destruct (v =? 0); [intros H; discriminate H|]. intros _. cbv zeta.
  repeat case_match; reflexivity.
Qed.

(** While FEATURES_OK stays set the accepted features are locked: no
    register write changes them. *)
Theorem features_locked offset sz v t :
  test_mask (status t) STATUS_FEATURES_OK = true ->
  test_mask (status (write (R:=R) offset sz v t)) STATUS_FEATURES_OK = true ->
  driver_features (write (R:=R) offset sz v t) = driver_features t.
Proof.
  intros Hs. unfold write. destruct (dev t) as [d|]; [|done]. destruct (CONFIG <=? offset); [done|].
  destruct ((sz =? 4) && (offset mod 4 =? 0)); [|done]. unfold write_reg. cbv zeta. rewrite Hs, andb_false_r. cbn [negb].
  unfold on_queue. repeat (destruct (offset =? _); [done|]). destruct (is_queue_addr offset); [done|].
  destruct (offset =? INTERRUPT_ACK); [done|]. destruct (offset =? STATUS); [|done]. apply write_status_features.
Qed.
End invariant.
End transport.
