(* ===== verification/VirtBlkProof.v ===== *)
(** * The virtio block device: laws and termination (crates/vetro-platform/src/virtio/blk.rs)

    The laws of a backend, the laws of the transport's interface for the block
    device, the end of the loop over its queue, and a panic. *)

From Stdlib Require Import ZArith Lia Bool.
From stdpp Require Import base list numbers strings relations.
From S2P Require Import Prelude BTree SnapWire SnapFile SnapBlocks VirtQueue VirtChain VirtMmio VirtBlk VirtMmioProof.
Local Open Scope Z_scope.
Local Open Scope vetro_scope.

(** Size and write protection of a disk are fixed. *)
Definition same_disk {B} `{!blk.BlockBackend B} : relation B := fun b b' =>
  blk.bk_size b' = blk.bk_size b /\ blk.bk_read_only b' = blk.bk_read_only b.

Class BlockBackendLaws (B : Type) `{!blk.BlockBackend B} := {
  disk_read s n : frames same_disk (blk.bk_read (B:=B) s n);
  disk_write s d : frames same_disk (blk.bk_write (B:=B) s d);
  disk_flush : frames same_disk (blk.bk_flush (B:=B));
}.

Lemma frames_run {S E A} (Rel : relation S) (m : prog S E A) s res s' : frames Rel m -> m s = (res, s') -> Rel s s'.
Proof. intros Hm H. specialize (Hm s). by rewrite H in Hm. Qed.

Module blkdev.
Import blk.

Section laws.
Context {R B : Type} `{!GuestRam R} `{!BlockBackend B} `{!BlockBackendLaws B}.

#[local] Instance same_disk_refl : Reflexive (same_disk (B:=B)).
Proof. intros b. by split. Qed.

#[local] Instance same_disk_trans : Transitive (same_disk (B:=B)).
Proof. intros b1 b2 b3 [] []. split; congruence. Qed.

(** What handling a request keeps of the device. *)
Definition same_device (d d' : VirtioBlk B) : Prop := cfg d' = cfg d /\ same_disk (backend d) (backend d').

Definition keeps_device : relation (VirtioBlk B * R) := fun s s' => same_device s.1 s'.1 /\ pending s'.1 = pending s.1.

#[local] Instance same_device_refl : Reflexive same_device.
Proof. intros d. by split. Qed.

#[local] Instance same_device_trans : Transitive same_device.
Proof. intros d1 d2 d3 [E1 H1] [E2 H2]. split; [congruence|by etransitivity]. Qed.

#[local] Instance keeps_device_refl : Reflexive keeps_device.
Proof. intros s. by split. Qed.

#[local] Instance keeps_device_trans : Transitive keeps_device.
Proof. intros s1 s2 s3 [] []. split; [by etransitivity|congruence]. Qed.

Lemma keeps_h_ram {A} (m : prog R RamError A) : frames keeps_device (h_ram m).
Proof. intros [d r]. unfold h_ram, keeps_device. cbn [fst snd]. by destruct (m r). Qed.

Lemma keeps_h_from_ram {A} (f : R -> result A RamError) : frames keeps_device (h_from_ram f).
Proof. intros s. by unfold h_from_ram, keeps_device. Qed.

Lemma keeps_h_disk {A} (m : prog B BlockError A) : frames same_disk m -> frames keeps_device (h_disk m).
Proof.
  intros Hm [d r]. unfold h_disk, keeps_device. cbn [fst snd]. specialize (Hm (backend d)).
  destruct (m (backend d)) as [res b]. by repeat split; apply Hm.
Qed.

#[local] Hint Resolve keeps_h_ram keeps_h_from_ram keeps_h_disk disk_read disk_write disk_flush : core.

Ltac keeps := frame_steps idtac.

Lemma keeps_transfer_loop fuel c sector at_ len out : frames keeps_device (transfer_loop fuel c sector at_ len out).
Proof.
  revert at_. induction fuel as [|fuel IH]; intros at_; cbn [transfer_loop]; [keeps|].
  destruct (at_ <? len); [|keeps]. cbv zeta. unfold transfer_chunk. cbv zeta. keeps.
Qed.

#[local] Hint Resolve keeps_transfer_loop : core.

Lemma keeps_transfer c sector len out : frames keeps_device (transfer c sector len out).
Proof. unfold transfer. cbv zeta. keeps. Qed.

#[local] Hint Resolve keeps_transfer : core.

Lemma handle_keeps_device c : frames keeps_device (handle c).
Proof. unfold handle, serve. cbv zeta. keeps. Qed.

(** ** The laws of the transport *)

Definition keeps_service : relation (VirtioBlk B * mmio.ServiceCtx R) := fun s s' =>
  same_device s.1 s'.1 /\ Forall2 same_config (mmio.queues s.2) (mmio.queues s'.2).

#[local] Instance keeps_service_refl : Reflexive keeps_service.
Proof. intros s. split; reflexivity. Qed.

#[local] Instance keeps_service_trans : Transitive keeps_service.
Proof. intros s1 s2 s3 [] []. split; by etransitivity. Qed.

Lemma keeps_s_queue {A} (m : prog (Virtqueue * R) halt A) : frames keeps_config m -> frames keeps_service (s_queue (B:=B) m).
Proof.
  intros Hm [d [[|q l] r cc]]; unfold s_queue; cbn [fst snd mmio.queues mmio.ram]; [reflexivity|].
  specialize (Hm (q, r)). destruct (m (q, r)) as [res [q' r']]. split; [reflexivity|].
  constructor; [exact Hm|reflexivity].
Qed.

Lemma keeps_s_handle {A} (m : prog (VirtioBlk B * R) QueueError A) : frames keeps_device m -> frames keeps_service (s_handle m).
Proof.
  intros Hm [d [l r cc]]. unfold s_handle. cbn [fst snd mmio.queues mmio.ram]. specialize (Hm (d, r)).
  destruct (m (d, r)) as [res [d' r']]. split; [apply Hm|reflexivity].
Qed.

Lemma keeps_set_pending p :
  frames keeps_service (modify (E:=halt) (fun s : VirtioBlk B * mmio.ServiceCtx R => (s.1 <| pending := p |>, s.2))).
Proof. apply frames_modify. intros s. split; [by repeat split|reflexivity]. Qed.

#[local] Hint Resolve keeps_s_queue keeps_s_handle keeps_set_pending handle_keeps_device pop_keeps_config push_used_keeps_config : core.

Lemma keeps_blk_turn : frames keeps_service (blk_turn (R:=R) (B:=B)).
Proof. unfold blk_turn. keeps. Qed.

#[local] Hint Resolve keeps_blk_turn : core.

Lemma keeps_blk_loop n : frames keeps_service (blk_loop (R:=R) (B:=B) n).
Proof. induction n; cbn [blk_loop]; keeps. Qed.

#[local] Hint Resolve keeps_blk_loop : core.

Lemma service_keeps : frames keeps_service (service (R:=R) (B:=B)).
Proof. unfold service. keeps. Qed.

#[export] Instance blk_laws : VirtioDeviceLaws R (VirtioBlk B).
Proof.
  split; cbn [mmio.vd_features mmio.vd_write_config mmio.vd_negotiate mmio.vd_reset mmio.vd_service blk_device]; [done..| |].
  - intros _ d d' c c' r H. pose proof (service_keeps (d, c)) as [[Hc [_ Hr]] _]. rewrite H in Hc, Hr. cbn [fst snd] in *.
    unfold is_read_only. by rewrite Hc, Hr.
  - intros _ d d' c c' r H. pose proof (service_keeps (d, c)) as [_ Hq]. by rewrite H in Hq.
Qed.
End laws.

(** ** The two backends *)

Lemma checked_u64_some x y : checked_u64 x = Some y <-> y = x /\ 0 <= x < 2 ^ 64.
Proof.
  unfold checked_u64. destruct (Z.leb_spec 0 x); cbn [andb]; [|split; [done|lia]].
  destruct (Z.ltb_spec x (2 ^ 64)); split; try done; try lia; [by intros [= <-]|by intros [-> _]].
Qed.

Lemma byte_range_ok disk sector len a :
  byte_range disk sector len = Ok a <->
  0 <= sector /\ Z.of_nat a = sector * BLK_SECTOR_SIZE /\ Z.of_nat (a + len) < 2 ^ 64 /\ Z.of_nat (a + len) <= disk
    /\ Z.of_nat len mod BLK_SECTOR_SIZE = 0.
Proof.
  unfold byte_range, BLK_SECTOR_SIZE. destruct (checked_u64 (sector * 512)) as [start|] eqn:E1.
  - apply checked_u64_some in E1 as [-> ?].
    destruct (checked_u64 (sector * 512 + Z.of_nat len)) as [end_|] eqn:E2.
    + apply checked_u64_some in E2 as [-> ?].
      destruct (Z.ltb_spec disk (sector * 512 + Z.of_nat len)); cbn [orb]; [split; [done|lia]|].
      destruct (Z.eqb_spec (Z.of_nat len mod 512) 0); cbn [negb]; split; try done; try lia; [intros [= <-]; lia|].
      intros. f_equal. lia.
    + split; [done|]. intros (? & ? & ? & _). assert (checked_u64 (sector * 512 + Z.of_nat len) = Some (sector * 512 + Z.of_nat len)); [|congruence].
      apply checked_u64_some. lia.
  - split; [done|]. intros (? & ? & ? & _). assert (checked_u64 (sector * 512) = Some (sector * 512)); [|congruence].
    apply checked_u64_some. lia.
Qed.

#[export] Instance mem_backend_laws : BlockBackendLaws MemBackend.
Proof.
  split; intros; intros m; cbn [bk_read bk_write bk_flush mem_backend].
  - unfold mem_read. by case_match.
  - unfold mem_write. destruct (mem_read_only m) eqn:E; [done|]. case_match eqn:Hr; [|done].
    apply byte_range_ok in Hr as (_ & _ & _ & Hr & _).
    split; [|done]. unfold update. cbn [snd bk_size mem_backend mem_data]. f_equal. apply length_overwrite. lia.
  - done.
Qed.

Section cow.
Context {B : Type} `{!BlockBackend B} `{!BlockBackendLaws B}.

Definition keeps_base : relation (CowBackend B) := fun d d' => same_disk (cow_base d) (cow_base d').

#[local] Instance keeps_base_refl : Reflexive keeps_base.
Proof. intros d. by split. Qed.

#[local] Instance keeps_base_trans : Transitive keeps_base.
Proof. intros d1 d2 d3 [] []. split; congruence. Qed.

Lemma keeps_on_base {A} (m : prog B BlockError A) : frames same_disk m -> frames keeps_base (on_base m).
Proof. intros Hm d. unfold on_base. specialize (Hm (cow_base d)). destruct (m (cow_base d)). exact Hm. Qed.

Lemma keeps_base_modify f : (forall d, cow_base (f d) = cow_base d) -> frames keeps_base (modify (E:=BlockError) f).
Proof. intros Hf. apply frames_modify. intros d. unfold keeps_base. by rewrite Hf. Qed.

#[local] Hint Resolve keeps_on_base disk_read : core.

Ltac keeps := frame_steps ltac:(by apply keeps_base_modify).

#[export] Instance cow_backend_laws : BlockBackendLaws (CowBackend B).
Proof.
  assert (forall A (m : prog (CowBackend B) BlockError A), frames keeps_base m -> frames same_disk m) as H.
  { intros A m Hm d. specialize (Hm d). split; [apply Hm|done]. }
  split; intros; cbn [bk_read bk_write bk_flush cow_backend]; apply H.
  - unfold cow_read, cow_read_piece. keeps.
  - unfold cow_write, cow_write_piece, cow_fill. keeps.
  - keeps.
Qed.
End cow.

(** ** The loop over the queue ends *)

Section ends.
Context {R B : Type} `{!GuestRam R} `{!BlockBackend B} `{!BlockBackendLaws B}.

Definition not_fuel {S} : halt -> S -> Prop := fun e _ => e <> OutOfFuel.

Lemma ends_gets {S A} (f : S -> A) : errs not_fuel (gets f).
Proof. apply errs_total, total_gets. Qed.
Lemma ends_ret {S A} (a : A) : errs (S:=S) not_fuel (mret a).
Proof. apply errs_total, total_ret. Qed.
Lemma ends_modify {S} (f : S -> S) : errs not_fuel (modify f).
Proof. apply errs_total, total_modify. Qed.
Lemma ends_on_ram {A} (m : prog R RamError A) : errs not_fuel (on_ram m).
Proof. intros [q r] e s'. unfold on_ram. destruct (m _) as [[]]; [done|]. by intros [= <- _]. Qed.
Lemma ends_from_ram {A} (f : R -> result A RamError) : errs not_fuel (from_ram f).
Proof. intros [q r] e s'. unfold from_ram. destruct (f _); [done|]. by intros [= <- _]. Qed.
Lemma ends_from_queue {A} (f : Virtqueue -> R -> result A QueueError) : errs not_fuel (from_queue f).
Proof. intros [q r] e s'. unfold from_queue. destruct (f _ _); [done|]. by intros [= <- _]. Qed.
Lemma ends_s_handle {A} (m : prog (VirtioBlk B * R) QueueError A) : errs not_fuel (s_handle m).
Proof. intros [d c] e s'. unfold s_handle. destruct (m _) as [[] []]; [done|]. by intros [= <- _]. Qed.
Lemma ends_s_queue {A} (m : prog (Virtqueue * R) halt A) : errs not_fuel m -> errs not_fuel (s_queue (B:=B) m).
Proof.
  intros Hm [d [[|q l] r cc]] e s'; unfold s_queue; cbn [snd fst mmio.queues mmio.ram]; [by intros [= <- _]|].
  specialize (Hm (q, r)). destruct (m (q, r)) as [[|e'] []]; [done|]. intros [= <- _]. by eapply Hm.
Qed.

#[local] Hint Resolve ends_gets ends_ret ends_modify ends_on_ram ends_from_ram ends_from_queue ends_s_handle ends_s_queue : core.

Ltac ends :=
  repeat match goal with
  | |- errs _ (mbind _ _) => apply errs_bind; [|intros ?]
  | |- errs _ (throw _) => by apply errs_throw
  | |- errs _ (match ?x with _ => _ end) => destruct x
  | |- errs _ (set_queue _) => apply ends_modify
  | _ => solve [auto]
  end.

Lemma ends_pop : errs not_fuel (pop (R:=R)).
Proof. unfold pop, slot_of, publish_avail_event. ends. Qed.

Lemma ends_push_used h len : errs not_fuel (push_used (R:=R) h len).
Proof. unfold push_used, slot_of. cbv zeta. ends. Qed.

#[local] Hint Resolve ends_pop ends_push_used : core.

Lemma ends_blk_turn : errs not_fuel (blk_turn (R:=R) (B:=B)).
Proof. unfold blk_turn. ends. Qed.

(** A chain popped is one of those the driver has made available. *)
Lemma pop_some q r c s' :
  pop (q, r) = (Ok (Some c), s') -> exists idx, read_u16 (u64 (driver q + 2)) r = Ok idx
    /\ u16 (idx - last_avail q) <= size q /\ idx <> last_avail q /\ last_avail s'.1 = u16 (last_avail q + 1).
Proof.
  unfold pop. rewrite (bind_ok _ _ _ q (q, r)) by done. destruct (negb (ready q)); [done|].
  intros (avail & s1 & Ha & H)%bind_ok_inv. unfold from_queue, avail_idx in Ha. cbn [fst snd] in Ha.
  destruct (read_u16 (u64 (driver q + 2)) r) as [idx|] eqn:Hr; [|done].
  destruct (Z.ltb_spec (size q) (u16 (idx - last_avail q))); [done|]. injection Ha as <- <-.
  destruct (Z.eqb_spec idx (last_avail q)).
  { apply bind_ok_inv in H as (? & ? & _ & H). done. }
  exists idx. split_and!; [done..|].
  apply bind_ok_inv in H as (slot & s1 & Hs & H). unfold slot_of in Hs.
  rewrite (bind_ok _ _ _ q (q, r)) in Hs by done. destruct (size q =? 0); [done|]. injection Hs as <- <-.
  apply bind_ok_inv in H as (h & s1 & Hh & H). unfold from_ram in Hh. injection Hh as _ <-.
  apply bind_ok_inv in H as (c' & s1 & Hc & H). unfold from_queue in Hc. injection Hc as _ <-.
  rewrite (bind_ok _ _ _ tt (q <| last_avail ::= fun i => u16 (i + 1) |>, r)) in H by done.
  apply bind_ok_inv in H as ([] & s2 & Hp & H). injection H as _ <-. revert Hp. unfold publish_avail_event.
  rewrite (bind_ok _ _ _ (q <| last_avail ::= fun i => u16 (i + 1) |>) (q <| last_avail ::= fun i => u16 (i + 1) |>, r)) by done.
  destruct (event_idx _); [|by intros [= <-]]. unfold on_ram. cbn [snd fst]. destruct (write_u16 _ _ _) as [[]]; [|done]. intros [=]. by subst.
Qed.

Definition same_last : relation (Virtqueue * R) := fun s s' => last_avail s'.1 = last_avail s.1.

Lemma push_used_last h len : frames same_last (push_used (R:=R) h len).
Proof.
  assert (Reflexive same_last) by (intros s; done). assert (Transitive same_last) by (intros s1 s2 s3; unfold same_last; congruence).
  assert (forall A (m : prog R RamError A), frames same_last (on_ram m)).
  { intros A m [q r]. unfold on_ram, same_last. cbn [fst snd]. by destruct (m r) as [[]]. }
  unfold push_used, slot_of. cbv zeta. frame_steps ltac:(apply frames_modify; intros []; done).
Qed.

(** The chains the driver has made available and the device has not popped. *)
Definition backlog (q : Virtqueue) (r : R) : nat :=
  match read_u16 (u64 (driver q + 2)) r with Ok idx => Z.to_nat (u16 (idx - last_avail q)) | Err _ => O end.

(** The index of the available ring is a 16-bit value. *)
Definition index_ok (q : Virtqueue) (r : R) : Prop := forall idx, read_u16 (u64 (driver q + 2)) r = Ok idx -> is_u 16 idx.

(** A turn of the loop after which it goes on. *)
Definition goes_on (s s' : VirtioBlk B * mmio.ServiceCtx R) : Prop := blk_turn s = (Ok true, s').

(** The word at [at_] is never changed in the run of the loop from [s]: what
    the turns write (used ring, event index, the buffers of the chains) leaves
    it as it was. *)
Definition run_keeps_word (at_ : Z) (s : VirtioBlk B * mmio.ServiceCtx R) : Prop :=
  forall s', rtc goes_on s s' -> read_u16 at_ (mmio.ram s'.2) = read_u16 at_ (mmio.ram s.2).

Lemma run_keeps_word_step at_ s s' :
  goes_on s s' -> run_keeps_word at_ s -> read_u16 at_ (mmio.ram s'.2) = read_u16 at_ (mmio.ram s.2) /\ run_keeps_word at_ s'.
Proof.
  intros Hs Hk. assert (read_u16 at_ (mmio.ram s'.2) = read_u16 at_ (mmio.ram s.2)) as E by (apply Hk; by eapply rtc_once).
  split; [done|]. intros s2 H2. rewrite E. apply Hk. by eapply rtc_l.
Qed.

(** A run that ends after one turn. *)
Lemma one_turn_run at_ s s1 :
  goes_on s s1 -> (blk_turn s1).1 = Ok false -> read_u16 at_ (mmio.ram s1.2) = read_u16 at_ (mmio.ram s.2) -> run_keeps_word at_ s.
Proof.
  unfold goes_on. intros H1 H2 Hr s' H. inversion H as [|? s2 ? E H3]; subst; [done|].
  unfold goes_on in E. rewrite E in H1. injection H1 as ->.
  inversion H3 as [|? s3 ? E3 _]; subst; [exact Hr|]. unfold goes_on in E3. rewrite E3 in H2. discriminate H2.
Qed.

Lemma s_queue_inv {A} (m : prog (Virtqueue * R) halt A) (d : VirtioBlk B) q l r cc a s' :
  s_queue m (d, mmio.MkCtx (q :: l) r cc) = (Ok a, s') ->
  exists q' r', m (q, r) = (Ok a, (q', r')) /\ s' = (d, mmio.MkCtx (q' :: l) r' cc).
Proof.
  unfold s_queue. cbn [fst snd mmio.queues mmio.ram mmio.config_changed]. destruct (m (q, r)) as [res [q' r']].
  intros [= -> <-]. eauto.
Qed.

(** What a turn keeps of the queue. *)
Definition same_ring (q q' : Virtqueue) : Prop := driver q' = driver q /\ size q' = size q.

Lemma pop_next q r c q' r' :
  index_ok q r -> is_u 16 (last_avail q) -> pop (q, r) = (Ok (Some c), (q', r')) ->
  same_ring q q' /\ last_avail q' = u16 (last_avail q + 1) /\ (0 < backlog q r)%nat /\ Z.of_nat (backlog q r) <= size q.
Proof.
  intros Hidx Hla Hp. destruct (pop_some _ _ _ _ Hp) as (idx & Hr & Hle & Hne & Hl). cbn [fst] in Hl.
  pose proof (frames_run _ _ _ _ _ (pop_keeps_config (R:=R)) Hp) as Hc. unfold keeps_config, same_config in Hc. cbn [fst] in Hc.
  pose proof (Hidx _ Hr) as Hi. split; [by split; rewrite Hc|]. split; [done|].
  unfold backlog. rewrite Hr. unfold is_u, u16 in *. change (2 ^ 16) with 65536 in *. clear -Hne Hi Hla Hle. split; Z.div_mod_to_equations; lia.
Qed.

Lemma push_used_next q r h len q' r' :
  push_used h len (q, r) = (Ok tt, (q', r')) -> same_ring q q' /\ last_avail q' = last_avail q.
Proof.
  intros Hp. pose proof (frames_run _ _ _ _ _ (push_used_keeps_config (R:=R) h len) Hp) as Hc.
  unfold keeps_config, same_config in Hc. cbn [fst] in Hc.
  pose proof (frames_run _ _ _ _ _ (push_used_last h len) Hp) as Hl. split; [by split; rewrite Hc|exact Hl].
Qed.

(** A turn that goes on has popped a chain, or served the pending one. *)
Lemma turn_pops d d' q l r cc c' :
  index_ok q r -> is_u 16 (last_avail q) -> goes_on (d, mmio.MkCtx (q :: l) r cc) (d', c') ->
  pending d' = None /\ exists q' r', c' = mmio.MkCtx (q' :: l) r' cc /\ same_ring q q'
    /\ match pending d with
       | Some _ => last_avail q' = last_avail q
       | None => last_avail q' = u16 (last_avail q + 1) /\ (0 < backlog q r)%nat /\ Z.of_nat (backlog q r) <= size q
       end.
Proof.
  intros Hidx Hla. unfold goes_on, blk_turn. rewrite (bind_ok _ _ _ d (d, mmio.MkCtx (q :: l) r cc)) by done.
  intros (next & [d1 c1] & Hnext & H)%bind_ok_inv. destruct next as [c|]; [|done].
  apply bind_ok_inv in H as (o & [d2 c2] & Ho & H). destruct o as [len|]; [|by apply bind_ok_inv in H as (? & ? & _ & ?)].
  apply bind_ok_inv in H as ([] & [d3 c3] & Hpush & H). injection H as -> ->.
  assert (pending d1 = None /\ exists q1 r1, c1 = mmio.MkCtx (q1 :: l) r1 cc /\ same_ring q q1
    /\ match pending d with
       | Some _ => last_avail q1 = last_avail q
       | None => last_avail q1 = u16 (last_avail q + 1) /\ (0 < backlog q r)%nat /\ Z.of_nat (backlog q r) <= size q
       end) as (Hp1 & q1 & r1 & -> & [Hd1 Hs1] & Ha1).
  { destruct (pending d) eqn:Hpd.
    - injection Hnext as _ <- <-. split; [done|]. by exists q, r.
    - apply s_queue_inv in Hnext as (q1 & r1 & Hpop & [= -> ->]). split; [done|]. exists q1, r1. split; [done|].
      by eapply pop_next in Hpop. }
  unfold s_handle in Ho. cbn [fst snd mmio.queues mmio.ram mmio.config_changed] in Ho.
  pose proof (handle_keeps_device c (d1, r1)) as [_ Hp2].
  destruct (handle c (d1, r1)) as [o [d2' r2]]. injection Ho as _ -> <-. cbn [fst snd] in *.
  apply s_queue_inv in Hpush as (q3 & r3 & Hpush & [= -> ->]). split; [congruence|]. exists q3, r3. split; [done|].
  apply push_used_next in Hpush as [[Hd3 Hs3] Hl3]. rewrite Hl3. split; [|done]. split; congruence.
Qed.

(** With the index unchanged, a popped chain is one fewer to pop. *)
Lemma backlog_next q q' r r' :
  same_ring q q' -> index_ok q r -> is_u 16 (last_avail q) -> last_avail q' = u16 (last_avail q + 1) -> (0 < backlog q r)%nat ->
  read_u16 (u64 (driver q + 2)) r' = read_u16 (u64 (driver q + 2)) r -> backlog q r = S (backlog q' r').
Proof.
  unfold backlog, index_ok. intros [-> _] Hidx Hla -> Hpos ->. destruct (read_u16 _ r) as [idx|]; [|lia]. specialize (Hidx _ eq_refl).
  unfold is_u, u16 in *. change (2 ^ 16) with 65536 in *. rewrite Zminus_mod_idemp_r. clear -Hidx Hla Hpos. Z.div_mod_to_equations. lia.
Qed.

Lemma backlog_same q q' r r' :
  same_ring q q' -> last_avail q' = last_avail q ->
  read_u16 (u64 (driver q + 2)) r' = read_u16 (u64 (driver q + 2)) r -> backlog q' r' = backlog q r.
Proof. unfold backlog. by intros [-> _] -> ->. Qed.

Definition pending_turns (d : VirtioBlk B) : nat := match pending d with Some _ => 1 | None => 0 end.

Lemma loop_ends n d q l r cc :
  index_ok q r -> is_u 16 (last_avail q) -> run_keeps_word (u64 (driver q + 2)) (d, mmio.MkCtx (q :: l) r cc) ->
  (Nat.min (backlog q r) (Z.to_nat (size q)) + pending_turns d < n)%nat ->
  forall s', blk_loop n (d, mmio.MkCtx (q :: l) r cc) <> (Err OutOfFuel, s').
Proof.
  unfold pending_turns. revert d q r. induction n as [|n IH]; intros d q r Hidx Hla Hrun Hn s'; [lia|]. cbn [blk_loop].
  intros [H|([] & [d1 c1] & Ht & H)]%bind_err_inv; [by apply ends_blk_turn in H| |done].
  destruct (run_keeps_word_step _ _ _ Ht Hrun) as [Hr Hrun1].
  apply turn_pops in Ht as (Hp & q1 & r1 & -> & Hq & Ha); [|done..]. cbn [snd mmio.ram] in Hr.
  assert (index_ok q1 r1) by (destruct Hq as [Hd _]; unfold index_ok; by rewrite Hd, Hr).
  assert (driver q1 = driver q /\ size q1 = size q) as [Hd Hs] by exact Hq.
  revert H. destruct (pending d).
  - apply IH; [done|by rewrite Ha|by rewrite Hd|]. rewrite Hp, Hs, (backlog_same _ _ _ _ Hq Ha Hr). lia.
  - destruct Ha as (Hl & Hpos & Hle). pose proof (backlog_next _ _ _ _ Hq Hidx Hla Hl Hpos Hr).
    apply IH; [done|rewrite Hl; apply is_u_u16|by rewrite Hd|]. rewrite Hp, Hs. lia.
Qed.

Lemma loop_more_fuel m n (s : VirtioBlk B * mmio.ServiceCtx R) :
  (m <= n)%nat -> (forall s', blk_loop m s <> (Err OutOfFuel, s')) -> blk_loop n s = blk_loop m s.
Proof.
  revert n s. induction m as [|m IH]; intros n s Hn H; [by destruct (H s)|]. destruct n as [|n]; [lia|].
  cbn [blk_loop] in *. unfold mbind, prog_bind in *. destruct (blk_turn s) as [[[]|e] s1]; [|done..]. apply IH; [lia|exact H].
Qed.

(** C18: When the turns of this run do not change the index of the available
    ring (the word the driver writes at [driver + 2]), [service] ends: it never
    runs out of the fuel it takes, [size + 2], so the loop over the queue
    returns or fails exactly as it does with any larger amount. The condition
    is on what the run itself writes, for any guest memory. *)
Theorem blk_service_ends d q l r cc n :
  index_ok q r -> is_u 16 (last_avail q) -> run_keeps_word (u64 (driver q + 2)) (d, mmio.MkCtx (q :: l) r cc) ->
  (Z.to_nat (size q) + 2 <= n)%nat ->
  blk_loop n (d, mmio.MkCtx (q :: l) r cc) = service (d, mmio.MkCtx (q :: l) r cc)
  /\ forall s', service (d, mmio.MkCtx (q :: l) r cc) <> (Err OutOfFuel, s').
Proof.
  intros Hidx Hla Hrun Hn. unfold service. rewrite (bind_ok _ _ _ (q :: l) (d, mmio.MkCtx (q :: l) r cc)) by done.
  assert (forall s', blk_loop (Z.to_nat (size q) + 2) (d, mmio.MkCtx (q :: l) r cc) <> (Err OutOfFuel, s')) as H.
  { apply loop_ends; [done..|]. unfold pending_turns. destruct (pending d); lia. }
  split; [by apply loop_more_fuel|exact H].
Qed.

(** ** A pending request and a queue of size zero *)

(** The driver takes its first queue back and gives it the size 0. *)
Lemma release_queue (t : mmio.VirtioMmio (VirtioBlk B)) q l :
  mmio.qs t = q :: l -> mmio.queue_sel t = 0 -> is_Some (mmio.dev t) ->
  exists q', mmio.write (R:=R) mmio.QUEUE_NUM 4 0 (mmio.write (R:=R) mmio.QUEUE_READY 4 0 t) = t <| mmio.qs := q' :: l |> /\ size q' = 0.
Proof.
  intros Hq Hsel [d Hd]. destruct t as [dv qs0 ? ? ? ? sel ? ? ? ?]. cbn in Hq, Hsel, Hd. subst. eexists. split.
  - unfold mmio.write at 2. cbn [mmio.dev]. change (mmio.CONFIG <=? mmio.QUEUE_READY) with false.
    change ((4 =? 4) && (mmio.QUEUE_READY mod 4 =? 0)) with true. cbv iota.
    unfold mmio.write. reflexivity.
  - reflexivity.
Qed.

Lemma push_used_zero q (r : R) h len : size q = 0 -> push_used h len (q, r) = (Err Panicked, (q, r)).
Proof.
  intros Hz. unfold push_used. rewrite (bind_ok _ _ _ q (q, r)) by done. apply bind_err. unfold slot_of.
  rewrite (bind_ok _ _ _ q (q, r)) by done. by rewrite Hz.
Qed.

(** C35: [push_used] divides by the size of the queue, and the size of a queue
    that is not ready is the guest's: when a request is pending on a disk that
    was not ready, and the driver takes the queue back (QueueReady 0) and writes
    0 to QueueNum, the turn that completes the request panics. *)
Theorem pending_request_panics t d c (r : R) q l :
  mmio.dev t = Some d -> pending d = Some c -> mmio.qs t = q :: l -> mmio.queue_sel t = 0 ->
  test_mask (mmio.status t) mmio.STATUS_DRIVER_OK = true ->
  test_mask (mmio.status t) mmio.STATUS_DEVICE_NEEDS_RESET = false ->
  (exists len s', handle c (d <| pending := None |>, r) = (Ok (Done len), s')) ->
  mmio.service (mmio.write (R:=R) mmio.QUEUE_NUM 4 0 (mmio.write (R:=R) mmio.QUEUE_READY 4 0 t)) r = None.
Proof.
  intros Hd Hp Hq Hsel Hok Hnr (len & s' & Hh). set (t1 := mmio.write _ _ _ t). set (t2 := mmio.write _ _ _ t1).
  destruct (release_queue t q l) as (q' & E & Hz); [done..|by rewrite Hd|]. fold t1 t2 in E.
  rewrite E. unfold mmio.service. change (mmio.status (t <| mmio.qs := _ |>)) with (mmio.status t). rewrite Hok, Hnr. cbn [negb orb].
  change (mmio.dev (t <| mmio.qs := _ |>)) with (mmio.dev t). rewrite Hd.
  change (mmio.qs (t <| mmio.qs := q' :: l |>)) with (q' :: l). cbn [mmio.vd_service blk_device].
  assert (exists s2, service (d, mmio.MkCtx (q' :: l) r false) = (Err Panicked, s2)) as [[d2 c2] ->]; [|done].
  unfold service. rewrite (bind_ok _ _ _ (q' :: l) (d, mmio.MkCtx (q' :: l) r false)) by done. rewrite Hz. cbn [Z.to_nat Nat.add blk_loop].
  destruct s' as [d' r']. eexists. apply bind_err. unfold blk_turn. rewrite (bind_ok _ _ _ d (d, mmio.MkCtx (q' :: l) r false)) by done.
  rewrite Hp. rewrite (bind_ok _ _ _ (Some c) (d <| pending := None |>, mmio.MkCtx (q' :: l) r false)) by done.
  rewrite (bind_ok _ _ _ (Done len) (d', mmio.MkCtx (q' :: l) r' false)).
  2: { unfold s_handle. cbn [fst snd mmio.ram]. by rewrite Hh. }
  apply bind_err. unfold s_queue. cbn [fst snd mmio.queues mmio.ram].
  rewrite (push_used_zero q' r'); [reflexivity|done].
Qed.
End ends.
End blkdev.
