(* ===== verification/VirtHostDisk.v ===== *)
(** * A disk fed by the host (crates/vetro-wasm/src/disk.rs)

    The backend whose blocks arrive from outside: reads of missing blocks
    answer [NotReady] and ask for them; the block device retries. *)

From Stdlib Require Import ZArith Lia Bool.
From stdpp Require Import base list numbers strings.
From S2P Require Import Prelude BTree SnapWire VirtQueue VirtChain VirtMmio VirtBlk VirtMmioProof VirtBlkProof.
Local Open Scope Z_scope.
Local Open Scope vetro_scope.

Module hostdisk.
Import blk.

Record DiskStats := MkStats { misses : Z; fills : Z; evictions : Z; failures : Z }.

#[export] Instance eta_DiskStats : Eta DiskStats := fun s => MkStats (misses s) (fills s) (evictions s) (failures s).

(** [requested] and [failed] are sets. *)
Record HostDisk := MkDisk {
  dsize : Z;
  block : Z;
  cache : btree (list Z);
  order : list Z;
  max_blocks : nat;
  requested : btree unit;
  wanted : list Z;
  failed : btree unit;
  stats : DiskStats;
}.

#[export] Instance eta_HostDisk : Eta HostDisk := fun d =>
  MkDisk (dsize d) (block d) (cache d) (order d) (max_blocks d) (requested d) (wanted d) (failed d) (stats d).

Inductive DiskError := BadBlockSize | DiskOutOfRange | BadLength.

(** [BTreeMap::contains_key] and [BTreeSet::contains]. *)
Definition contains {V} (k : Z) (m : btree V) : bool := match bt_get k m with Some _ => true | None => false end.

Definition disk_new (size block_size : Z) (max : nat) : result HostDisk DiskError :=
  if negb ((0 <? block_size) && (block_size =? 2 ^ Z.log2 block_size)) || (block_size <? BLK_SECTOR_SIZE) then Err BadBlockSize
  else Ok (MkDisk (size / BLK_SECTOR_SIZE * BLK_SECTOR_SIZE) block_size [] [] max [] [] [] (MkStats 0 0 0 0)).

(** [size.div_ceil(block)]. *)
Definition blocks (d : HostDisk) : Z := (dsize d + (block d - 1)) / block d.

Definition block_len (d : HostDisk) (b : Z) : nat := Z.to_nat (Z.min (dsize d - b * block d) (block d)).

Definition cached_blocks (d : HostDisk) : nat := length (cache d).

Definition take_wanted (d : HostDisk) : list Z * HostDisk := (wanted d, d <| wanted := [] |>).

Definition requeue (b : Z) (d : HostDisk) : HostDisk :=
  if contains b (requested d) && negb (existsb (Z.eqb b) (wanted d)) then d <| wanted ::= fun l => l ++ [b] |> else d.

(** The eviction loop: the oldest blocks go, while there are too many. *)
Fixpoint evict (ord : list Z) (d : HostDisk) : HostDisk :=
  if (0 <? max_blocks d)%nat && (max_blocks d <? length (cache d))%nat then
    match ord with
    | [] => d
    | old :: ord =>
        evict ord (d <| order := ord |> <| cache ::= bt_remove old |>
                     <| stats ::= fun s => s <| evictions ::= Z.succ |> |>)
    end
  else d.

Definition fill (b : Z) (data : list Z) (d : HostDisk) : result unit DiskError * HostDisk :=
  if blocks d <=? b then (Err DiskOutOfRange, d)
  else if negb (length data =? block_len d b)%nat then (Err BadLength, d)
  else
    let d := d <| requested ::= bt_remove b |> <| failed ::= bt_remove b |> <| stats ::= fun s => s <| fills ::= Z.succ |> |> in
    let new := negb (contains b (cache d)) in
    let d := d <| cache ::= bt_insert b data |> in
    let d := if new then d <| order ::= fun l => l ++ [b] |> else d in
    (Ok tt, evict (order d) d).

Definition disk_fail (b : Z) (d : HostDisk) : HostDisk :=
  d <| requested ::= bt_remove b |> <| failed ::= bt_insert b tt |> <| stats ::= fun s => s <| failures ::= Z.succ |> |>.

(** The first loop of a read: the blocks it lacks are requested; whether one
    is missing. *)
Fixpoint request (bs : list Z) (missing : bool) : prog HostDisk BlockError bool := fun d =>
  match bs with
  | [] => (Ok missing, d)
  | b :: bs =>
      if contains b (failed d) then (Err Io, d)
      else if contains b (cache d) then request bs missing d
      else if contains b (requested d) then request bs true d
      else request bs true (d <| requested ::= bt_insert b tt |> <| wanted ::= fun l => l ++ [b] |>)
  end.

(** The second loop: each block's part of the buffer. *)
Fixpoint copy_blocks (bs : list Z) (start end_ : Z) (d : HostDisk) (buf : list Z) : list Z :=
  match bs with
  | [] => buf
  | b :: bs =>
      let data := default [] (bt_get b (cache d)) in
      let at_ := b * block d in
      let lo := Z.max start at_ in
      let hi := Z.min end_ (at_ + Z.of_nat (length data)) in
      copy_blocks bs start end_ d
        (overwrite (Z.to_nat (lo - start)) (take (Z.to_nat (hi - lo)) (drop (Z.to_nat (lo - at_)) data)) buf)
  end.

Definition disk_read (sector : Z) (len : nat) : prog HostDisk BlockError (list Z) :=
  d ← gets id;
  match byte_range (dsize d) sector len with
  | Err e => throw e
  | Ok start =>
      if (len =? 0)%nat then mret [] else
      let start := Z.of_nat start in
      let end_ := start + Z.of_nat len in
      let first := start / block d in
      let last := (end_ - 1) / block d in
      let bs := seqZ first (last - first + 1) in
      missing ← request bs false;
      if (missing : bool)
      then modify (fun d => d <| stats ::= fun s => s <| misses ::= Z.succ |> |>);; throw NotReady
      else d ← gets id; mret (copy_blocks bs start end_ d (replicate len 0))
  end.

#[export] Instance host_backend : BlockBackend HostDisk := {|
  bk_size := dsize;
  bk_read_only _ := true;
  bk_read := disk_read;
  bk_write _ _ := throw ReadOnly;
  bk_flush := mret tt;
  bk_save _ w := Some w;
  bk_restore d := mret d;
|}.

(** ** Reads against the image *)

(** The blocks in the cache are those of the image. *)
Record cache_ok (img : list Z) (d : HostDisk) : Prop := {
  ok_size : dsize d = Z.of_nat (length img);
  ok_block : 0 < block d;
  ok_sorted : bt_sorted (cache d);
  ok_data b data : bt_get b (cache d) = Some data -> 0 <= b -> data = take (block_len d b) (drop (Z.to_nat (b * block d)) img);
}.

Lemma lookup_overwrite a d buf i :
  (a + length d <= length buf)%nat ->
  overwrite a d buf !! i = if decide (a <= i < a + length d)%nat then d !! (i - a)%nat else buf !! i.
Proof.
  intros Ha. unfold overwrite. destruct (decide (i < a)%nat).
  { rewrite lookup_app_l by (rewrite length_take; lia). rewrite lookup_take_lt by lia. rewrite decide_False by lia. done. }
  rewrite lookup_app_r, length_take by (rewrite length_take; lia). rewrite Nat.min_l by lia.
  case_decide.
  - by rewrite lookup_app_l by lia.
  - rewrite lookup_app_r by lia. rewrite lookup_drop. f_equal. lia.
Qed.

Section read.
Context (img : list Z) (start : Z) (len : nat).
Implicit Types d : HostDisk.

Definition cached d b : Prop := 0 <= b /\ exists data, bt_get b (cache d) = Some data.

(** A block of the range holds its part of the image. *)
Lemma block_part d b data :
  cache_ok img d -> 0 <= b -> bt_get b (cache d) = Some data -> b * block d < Z.of_nat (length img) ->
  b * block d + Z.of_nat (length data) = Z.min (Z.of_nat (length img)) ((b + 1) * block d)
  /\ forall j, (j < length data)%nat -> data !! j = img !! (Z.to_nat (b * block d) + j)%nat.
Proof.
  intros Hok Hb Hd Hlt. pose proof (ok_data _ _ Hok b data Hd Hb) as ->. pose proof (ok_size _ _ Hok) as Hs.
  pose proof (ok_block _ _ Hok) as Hbl. unfold block_len. rewrite Hs. split.
  - rewrite length_take, length_drop. nia.
  - intros j Hj. rewrite length_take in Hj. rewrite lookup_take_lt by lia. by rewrite lookup_drop.
Qed.

Lemma copy_blocks_lookup d bs buf :
  cache_ok img d -> length buf = len -> 0 <= start -> start + Z.of_nat len <= Z.of_nat (length img) ->
  Forall (fun b => cached d b /\ b * block d < start + Z.of_nat len /\ start < (b + 1) * block d) bs ->
  length (copy_blocks bs start (start + Z.of_nat len) d buf) = len
  /\ forall i, (i < len)%nat -> copy_blocks bs start (start + Z.of_nat len) d buf !! i
      = if decide ((start + Z.of_nat i) / block d ∈ bs) then img !! (Z.to_nat start + i)%nat else buf !! i.
Proof.
  intros Hok Hlen Hs He Hbs. pose proof (ok_block _ _ Hok) as Hbl. revert buf Hlen.
  induction Hbs as [|b bs ((Hb & data & Hd) & Hlo & Hhi) Hbs IH]; intros buf Hlen; cbn [copy_blocks].
  { split; [done|]. intros i Hi. rewrite decide_False; [done|]. apply not_elem_of_nil. }
  rewrite Hd. cbn [default id]. destruct (block_part d b data Hok Hb Hd) as [Hdl Hdj]; [lia|].
  set (lo := Z.max start (b * block d)). set (hi := Z.min _ _).
  assert (length (take (Z.to_nat (hi - lo)) (drop (Z.to_nat (lo - b * block d)) data)) = Z.to_nat (hi - lo)) as Hpl.
  { rewrite length_take, length_drop. unfold hi, lo. lia. }
  destruct (IH (overwrite (Z.to_nat (lo - start)) (take (Z.to_nat (hi - lo)) (drop (Z.to_nat (lo - b * block d)) data)) buf)) as [Hl Hi].
  { rewrite length_overwrite; [done|]. rewrite Hpl. unfold hi, lo. lia. }
  split; [exact Hl|]. intros i Hi'. rewrite Hi by done.
  destruct (decide ((start + Z.of_nat i) / block d ∈ bs)) as [Hin|Hin].
  { rewrite decide_True; [done|]. by apply list_elem_of_further. }
  rewrite lookup_overwrite by (rewrite Hpl; unfold hi, lo; lia). rewrite Hpl.
  destruct (decide ((start + Z.of_nat i) / block d = b)) as [Heq|Hne].
  - rewrite (decide_True (P := _ ∈ _)) by (rewrite Heq; apply list_elem_of_here).
    pose proof (Z.div_mod (start + Z.of_nat i) (block d)) as Hdm. rewrite Heq in Hdm.
    pose proof (Z.mod_pos_bound (start + Z.of_nat i) (block d) Hbl).
    rewrite decide_True by (unfold hi, lo; lia). rewrite lookup_take_lt by (unfold hi, lo; lia).
    rewrite lookup_drop, Hdj by (unfold hi, lo; lia). f_equal. unfold lo. lia.
  - rewrite (decide_False (P := _ ∈ _ :: _)) by (rewrite elem_of_cons; tauto).
    rewrite decide_False; [done|]. intros [H1 H2]. apply Hne. symmetry. apply Z.div_unique_pos with (start + Z.of_nat i - b * block d); unfold hi, lo in *; lia.
Qed.
End read.

(** The blocks of a range of bytes. *)
Definition range_blocks (d : HostDisk) (start : Z) (len : nat) : list Z :=
  let first := start / block d in seqZ first ((start + Z.of_nat len - 1) / block d - first + 1).

Lemma elem_of_range_blocks d start len b :
  0 < block d -> (0 < len)%nat ->
  b ∈ range_blocks d start len <-> b * block d < start + Z.of_nat len /\ start < (b + 1) * block d.
Proof.
  intros Hbl Hlen. unfold range_blocks. cbv zeta. rewrite elem_of_seqZ.
  pose proof (Z.div_mod start (block d) ltac:(lia)). pose proof (Z.mod_pos_bound start (block d) Hbl).
  pose proof (Z.div_mod (start + Z.of_nat len - 1) (block d) ltac:(lia)).
  pose proof (Z.mod_pos_bound (start + Z.of_nat len - 1) (block d) Hbl). nia.
Qed.

(** A step of [request]: the disk with [b] asked for, unless it is there. *)
Definition ask (b : Z) (d : HostDisk) : HostDisk :=
  if contains b (cache d) || contains b (requested d) then d
  else d <| requested ::= bt_insert b tt |> <| wanted ::= fun l => l ++ [b] |>.

Lemma request_cons b bs missing d :
  request (b :: bs) missing d =
    if contains b (failed d) then (Err Io, d) else request bs (missing || negb (contains b (cache d))) (ask b d).
Proof.
  cbn [request]. unfold ask. destruct (contains b (failed d)); [done|].
  destruct (contains b (cache d)); cbn [orb negb]; [by rewrite orb_false_r|]. rewrite orb_true_r.
  by destruct (contains b (requested d)).
Qed.

Lemma contains_insert k b (m : btree unit) : bt_sorted m -> contains k (bt_insert b tt m) = (k =? b) || contains k m.
Proof. intros Hs. unfold contains. rewrite bt_get_insert by done. by destruct (k =? b). Qed.

(** What asking keeps: all but the requests, which grow. *)
Definition asks_more (d d' : HostDisk) : Prop :=
  cache d' = cache d /\ failed d' = failed d /\ block d' = block d /\ dsize d' = dsize d /\ max_blocks d' = max_blocks d
  /\ bt_sorted (requested d') /\ forall b, contains b (requested d) = true -> contains b (requested d') = true.

Lemma ask_more b d : bt_sorted (requested d) -> asks_more d (ask b d).
Proof.
  intros Hs. unfold ask. destruct (contains b (cache d) || contains b (requested d)); [by split_and!|].
  unfold asks_more, update. cbn [cache failed block dsize max_blocks requested]. split_and!; [done..|by apply bt_sorted_insert|].
  intros k Hk. rewrite contains_insert, Hk by done. apply orb_true_r.
Qed.

Lemma asked b d : bt_sorted (requested d) -> contains b (cache d) = false -> contains b (requested (ask b d)) = true.
Proof.
  intros Hs Hc. unfold ask. rewrite Hc. cbn [orb]. destruct (contains b (requested d)) eqn:Hr; [done|].
  unfold update. cbn [requested]. rewrite contains_insert by done. by rewrite Z.eqb_refl.
Qed.

Lemma asks_more_trans d1 d2 d3 : asks_more d1 d2 -> asks_more d2 d3 -> asks_more d1 d3.
Proof. intros (? & ? & ? & ? & ? & ? & ?) (? & ? & ? & ? & ? & ? & ?). split_and!; try congruence; auto. Qed.

(** A request either meets a failed block, or finds every block cached and
    changes nothing, or leaves every missing block asked for. *)
Lemma request_spec bs missing d :
  bt_sorted (requested d) ->
  match request bs missing d with
  | (Ok false, d') => d' = d /\ missing = false /\ forall b, b ∈ bs -> contains b (cache d) = true
  | (Ok true, d') => asks_more d d' /\ (missing = true \/ exists b, b ∈ bs /\ contains b (cache d) = false)
      /\ forall b, b ∈ bs -> contains b (cache d) = false -> contains b (requested d') = true
  | (Err e, d') => asks_more d d' /\ e = Io /\ exists b, b ∈ bs /\ contains b (failed d) = true
  end.
Proof.
  revert missing d. induction bs as [|b bs IH]; intros missing d Hs.
  { cbn [request]. destruct missing; split_and!; try done; try tauto; intros ? ?%elem_of_nil; done. }
  rewrite request_cons. destruct (contains b (failed d)) eqn:Hf.
  { split_and!; try done. exists b. split; [apply list_elem_of_here|done]. }
  pose proof (ask_more b d Hs) as Hm. pose proof Hm as (Hca & Hfa & _ & _ & _ & Hsa & _).
  specialize (IH (missing || negb (contains b (cache d))) (ask b d) Hsa). rewrite Hca, Hfa in IH.
  destruct (request bs _ (ask b d)) as [[[]|e] d'].
  - destruct IH as (Hm' & Hex & Hall). split_and!; [by eapply asks_more_trans| |].
    + destruct missing; [by left|]. right. destruct (contains b (cache d)) eqn:Hc.
      * destruct Hex as [|(k & ? & ?)]; [done|]. exists k. split; [by apply list_elem_of_further|done].
      * exists b. split; [apply list_elem_of_here|done].
    + intros k [->|Hk]%elem_of_cons Hc; [|by apply Hall]. apply Hm'. by apply asked.
  - destruct IH as (-> & [-> Hc]%orb_false_elim & Hall). apply negb_false_iff in Hc. unfold ask. rewrite Hc. cbn [orb].
    split_and!; [done..|]. intros k [->|Hk]%elem_of_cons; [done|by apply Hall].
  - destruct IH as (Hm' & -> & k & Hk & Hfk). split_and!; [by eapply asks_more_trans|done|].
    exists k. split; [by apply list_elem_of_further|done].
Qed.

Lemma contains_cached d b : 0 <= b -> contains b (cache d) = true -> cached d b.
Proof. unfold contains, cached. intros Hb H. destruct (bt_get b (cache d)) eqn:E; [eauto|done]. Qed.

(** With every block of the range cached, the copy is the range of the image. *)
Lemma copy_blocks_image img d start len :
  cache_ok img d -> (0 < len)%nat -> Z.of_nat (start + len) <= dsize d ->
  (forall b, b ∈ range_blocks d (Z.of_nat start) len -> contains b (cache d) = true) ->
  copy_blocks (range_blocks d (Z.of_nat start) len) (Z.of_nat start) (Z.of_nat start + Z.of_nat len) d (replicate len 0)
  = take len (drop start img).
Proof.
  intros Hok Hlen He Hall. pose proof (ok_block _ _ Hok) as Hbl. pose proof (ok_size _ _ Hok) as Hs.
  destruct (copy_blocks_lookup img (Z.of_nat start) len d (range_blocks d (Z.of_nat start) len) (replicate len 0)) as [Hl Hi].
  - done.
  - apply length_replicate.
  - lia.
  - lia.
  - apply Forall_forall. intros b Hb. pose proof (Hall b Hb). apply elem_of_range_blocks in Hb; [|done..].
    split; [|done]. apply contains_cached; [nia|done].
  - apply list_eq. intros i. destruct (decide (i < len)%nat) as [Hlt|].
    + rewrite Hi by done. rewrite decide_True.
      * rewrite lookup_take_lt, lookup_drop by done. f_equal. lia.
      * apply elem_of_range_blocks; [done..|].
        pose proof (Z.div_mod (Z.of_nat start + Z.of_nat i) (block d) ltac:(lia)).
        pose proof (Z.mod_pos_bound (Z.of_nat start + Z.of_nat i) (block d) Hbl). nia.
    + rewrite !lookup_ge_None_2; [done|rewrite length_take; lia|lia].
Qed.

(** The outcomes of a read in range. *)
Lemma disk_read_cases img d sector len start r d' :
  cache_ok img d -> bt_sorted (requested d) -> byte_range (dsize d) sector len = Ok start ->
  disk_read sector len d = (r, d') -> asks_more d d' /\
  match r with
  | Ok data => data = take len (drop start img) /\ d' = d
  | Err NotReady => (exists b, b ∈ range_blocks d (Z.of_nat start) len /\ contains b (cache d) = false)
      /\ forall b, b ∈ range_blocks d (Z.of_nat start) len -> contains b (cache d) = false -> contains b (requested d') = true
  | Err Io => exists b, b ∈ range_blocks d (Z.of_nat start) len /\ contains b (failed d) = true
  | Err _ => False
  end.
Proof.
  intros Hok Hs Hr. unfold disk_read. rewrite (bind_ok _ _ _ d d) by done. rewrite Hr.
  apply blkdev.byte_range_ok in Hr as (_ & _ & _ & He & _). destruct (Nat.eqb_spec len 0) as [->|Hlen].
  { intros [= <- <-]. by split_and!. }
  cbv zeta. change (seqZ _ _) with (range_blocks d (Z.of_nat start) len).
  pose proof (request_spec (range_blocks d (Z.of_nat start) len) false d Hs) as Hq.
  unfold mbind, prog_bind. destruct (request _ false d) as [[[]|e] d1]; intros [= <- <-].
  - destruct Hq as (Hm & [|Hex] & Hall); [done|]. split; [exact Hm|]. split; [done|exact Hall].
  - destruct Hq as (-> & _ & Hall). split; [by split_and!|]. split; [|done]. apply copy_blocks_image; [done|lia|done|done].
  - destruct Hq as (Hm & -> & Hex). by split.
Qed.

Lemma disk_read_range d sector len e : byte_range (dsize d) sector len = Err e -> disk_read sector len d = (Err e, d).
Proof. intros Hr. unfold disk_read. rewrite (bind_ok _ _ _ d d) by done. by rewrite Hr. Qed.

Lemma asks_more_ok img d d' : asks_more d d' -> cache_ok img d -> cache_ok img d'.
Proof.
  intros (Hc & _ & Hb & Hs & _) [H1 H2 H3 H4]. split; rewrite ?Hc, ?Hb, ?Hs; try done.
  unfold block_len in *. rewrite Hs, Hb. exact H4.
Qed.

(** C21: A read of a disk whose cache agrees with its image gives the bytes of
    the image and changes nothing; or, when a block is missing, [NotReady], with
    the cache as it was and every missing block of the range requested; or an
    I/O error for a block the host could not obtain; or it is out of range. *)
Theorem host_disk_read img d sector len :
  cache_ok img d -> bt_sorted (requested d) ->
  match byte_range (dsize d) sector len, disk_read sector len d with
  | Err e, (r, d') => r = Err e /\ d' = d
  | Ok start, (Ok data, d') => data = take len (drop start img) /\ d' = d
  | Ok start, (Err NotReady, d') =>
      cache d' = cache d
      /\ (exists b, b ∈ range_blocks d (Z.of_nat start) len /\ contains b (cache d) = false)
      /\ forall b, b ∈ range_blocks d (Z.of_nat start) len -> contains b (cache d) = false -> contains b (requested d') = true
  | Ok start, (Err Io, d') => exists b, b ∈ range_blocks d (Z.of_nat start) len /\ contains b (failed d) = true
  | Ok _, (Err _, _) => False
  end.
Proof.
  intros Hok Hs. destruct (byte_range (dsize d) sector len) as [start|e] eqn:Hr.
  - destruct (disk_read sector len d) as [r d'] eqn:Hd. destruct (disk_read_cases img _ _ _ _ _ _ Hok Hs Hr Hd) as [Hm H].
    destruct r as [|[]]; [exact H..|]. split; [apply Hm|exact H].
  - by rewrite (disk_read_range _ _ _ _ Hr).
Qed.

(** ** Deliveries *)

(** Block [b] of the image. *)
Definition image_block (img : list Z) (d : HostDisk) (b : Z) : list Z := take (block_len d b) (drop (Z.to_nat (b * block d)) img).

(** The host delivers the blocks [bs] of the image. *)
Definition deliver (img : list Z) (bs : list Z) (d : HostDisk) : HostDisk :=
  foldl (fun d b => (fill b (image_block img d b) d).2) d bs.

Lemma evict_unlimited ord d : max_blocks d = O -> evict ord d = d.
Proof. intros E. destruct ord; cbn [evict]; by rewrite E. Qed.

Definition valid_block (d : HostDisk) (b : Z) : Prop := 0 <= b /\ b * block d < dsize d.

Lemma length_image_block img d b : cache_ok img d -> valid_block d b -> length (image_block img d b) = block_len d b.
Proof.
  intros Hok [Hb Hlt]. pose proof (ok_size _ _ Hok). unfold image_block, block_len. rewrite length_take, length_drop.
  pose proof (ok_block _ _ Hok). nia.
Qed.

(** A delivery of a block that is on the disk, without a limit on the cache. *)
Lemma fill_block img d b :
  cache_ok img d -> valid_block d b -> max_blocks d = O ->
  exists d', fill b (image_block img d b) d = (Ok tt, d') /\ cache d' = bt_insert b (image_block img d b) (cache d)
    /\ failed d' = bt_remove b (failed d) /\ requested d' = bt_remove b (requested d)
    /\ block d' = block d /\ dsize d' = dsize d /\ max_blocks d' = O.
Proof.
  intros Hok Hv Hmax. unfold fill. pose proof Hv as [Hb Hlt]. pose proof (ok_block _ _ Hok) as Hbl.
  destruct (Z.leb_spec (blocks d) b) as [Hle|_].
  { exfalso. unfold blocks in Hle. pose proof (Z.mul_div_le (dsize d + (block d - 1)) (block d) Hbl).
    pose proof (Z.mod_pos_bound (dsize d + (block d - 1)) (block d) Hbl).
    pose proof (Z.div_mod (dsize d + (block d - 1)) (block d) ltac:(lia)). nia. }
  rewrite (length_image_block img d b Hok Hv), Nat.eqb_refl. cbn [negb]. cbv zeta.
  rewrite evict_unlimited by (by destruct (negb _)). eexists. split; [reflexivity|].
  destruct (negb _); by split_and!.
Qed.

Lemma disk_fill_ok img d b d' :
  cache_ok img d -> valid_block d b -> cache d' = bt_insert b (image_block img d b) (cache d) ->
  block d' = block d -> dsize d' = dsize d -> cache_ok img d'.
Proof.
  intros [H1 H2 H3 H4] Hv Hc Hb Hs. split; rewrite ?Hs, ?Hb, ?Hc; [done|done|by apply bt_sorted_insert|].
  intros k data. rewrite bt_get_insert by done. unfold image_block, block_len in *. rewrite Hs, Hb.
  destruct (Z.eqb_spec k b) as [->|]; [by intros [= <-]|]. intros Hk. by apply H4.
Qed.

Lemma contains_get {V} b (m : btree V) : contains b m = true <-> bt_get b m <> None.
Proof. unfold contains. by destruct (bt_get b m). Qed.

Lemma deliver_spec img bs d :
  cache_ok img d -> max_blocks d = O -> bt_sorted (failed d) -> bt_sorted (requested d) -> Forall (valid_block d) bs ->
  let d' := deliver img bs d in
  cache_ok img d' /\ block d' = block d /\ dsize d' = dsize d /\ bt_sorted (requested d')
  /\ (forall b, contains b (cache d) = true \/ b ∈ bs -> contains b (cache d') = true)
  /\ (forall b, contains b (failed d') = true -> contains b (failed d) = true /\ b ∉ bs).
Proof.
  intros Hok Hmax Hf Hr Hv. revert d Hok Hmax Hf Hr Hv. induction bs as [|b bs IH]; intros d Hok Hmax Hf Hr Hv; cbn [deliver foldl].
  { split_and!; try done; [by intros b [|?%elem_of_nil]|]. intros b Hb. split; [done|apply not_elem_of_nil]. }
  apply Forall_cons in Hv as [Hv Hvs].
  destruct (fill_block img d b Hok Hv Hmax) as (d1 & E & Hc & Hfl & Hrq & Hbl & Hsz & Hm1). rewrite E. cbn [snd].
  destruct (IH d1) as (A & B' & C' & D' & F & G).
  - by eapply disk_fill_ok.
  - done.
  - rewrite Hfl. by apply bt_sorted_remove.
  - rewrite Hrq. by apply bt_sorted_remove.
  - eapply Forall_impl; [exact Hvs|]. intros k [? ?]. split; [done|]. by rewrite Hbl, Hsz.
  - change (foldl _ d1 bs) with (deliver img bs d1). split_and!; [done|congruence|congruence|done| |].
    + intros k Hk. apply F. rewrite elem_of_cons in Hk. rewrite Hc. unfold contains.
      rewrite bt_get_insert by apply (ok_sorted _ _ Hok). unfold contains in Hk.
      destruct (Z.eqb_spec k b); [by left|]. destruct Hk as [Hk|[?|Hk]]; [by left|done|by right].
    + intros k Hk. apply G in Hk as [Hk Hn]. rewrite Hfl in Hk. unfold contains in Hk. rewrite bt_get_remove in Hk by done.
      destruct (Z.eqb_spec k b); [done|]. split; [exact Hk|]. rewrite elem_of_cons. tauto.
Qed.

(** C22: A read that was not ready succeeds once the host has delivered the
    missing blocks: over an unlimited cache, after the delivery of any blocks
    of the image that include those missing from the range and those that had
    failed, the read gives the bytes of the image. *)
Theorem host_disk_retry img d sector len start bs :
  cache_ok img d -> max_blocks d = O -> bt_sorted (failed d) -> bt_sorted (requested d) ->
  byte_range (dsize d) sector len = Ok start -> Forall (valid_block d) bs ->
  (forall b, b ∈ range_blocks d (Z.of_nat start) len ->
     contains b (cache d) = false \/ contains b (failed d) = true -> b ∈ bs) ->
  disk_read sector len (deliver img bs d) = (Ok (take len (drop start img)), deliver img bs d).
Proof.
  intros Hok Hmax Hf Hr Hrange Hv Hall.
  destruct (deliver_spec img bs d Hok Hmax Hf Hr Hv) as (Hok' & Hb & Hsz & Hr' & Hc & Hfail).
  set (d' := deliver img bs d) in *. apply blkdev.byte_range_ok in Hrange as Hrange'. destruct Hrange' as (_ & _ & _ & He & _).
  unfold disk_read. rewrite (bind_ok _ _ _ d' d') by done. rewrite Hsz, Hrange. destruct (Nat.eqb_spec len 0) as [->|Hlen]; [done|].
  cbv zeta. change (seqZ _ _) with (range_blocks d' (Z.of_nat start) len).
  assert (range_blocks d' (Z.of_nat start) len = range_blocks d (Z.of_nat start) len) as Erange by (unfold range_blocks; by rewrite Hb).
  assert (forall b, b ∈ range_blocks d' (Z.of_nat start) len -> contains b (cache d') = true) as Hcached.
  { intros b Hin. rewrite Erange in Hin. apply Hc. destruct (contains b (cache d)) eqn:Eb; [by left|]. right. apply Hall; [done|by left]. }
  pose proof (request_spec (range_blocks d' (Z.of_nat start) len) false d' Hr') as Hq.
  unfold mbind, prog_bind. destruct (request _ false d') as [[[]|e] d2].
  - destruct Hq as (_ & [|(b & Hin & Hno)] & _); [done|]. rewrite Hcached in Hno by done. done.
  - destruct Hq as (-> & _ & _). rewrite <- (copy_blocks_image img d' start len) by (done || lia || by rewrite Hsz). reflexivity.
  - destruct Hq as (_ & _ & b & Hin & Hbad). apply Hfail in Hbad as [Hbad Hnot]. destruct Hnot. apply Hall; [by rewrite <- Erange|by right].
Qed.

#[export] Instance host_backend_laws : BlockBackendLaws HostDisk.
Proof.
  split; [intros s n d|done|done]. cbn [bk_read host_backend].
  assert (forall bs m d, dsize (request bs m d).2 = dsize d) as Hq.
  { intros bs. induction bs as [|b bs IH]; intros m d0; [done|]. rewrite request_cons. destruct (contains b (failed d0)); [done|].
    rewrite IH. unfold ask. by destruct (_ || _). }
  split; [|done]. cbn [bk_size host_backend]. unfold disk_read. rewrite (bind_ok _ _ _ d d) by done.
  destruct (byte_range _ _ _) as [start|]; [|done]. destruct (n =? 0)%nat; [done|]. cbv zeta.
  set (bs := seqZ _ _). specialize (Hq bs false d). unfold mbind, prog_bind. by destruct (request bs false d) as [[[]|] d'].
Qed.
End hostdisk.
