(* ===== verification/VirtCow.v ===== *)
(** * The copy-on-write disk (crates/vetro-platform/src/virtio/blk.rs)

    [CowBackend] over a base that holds an image refines a plain disk: reads
    give the disk's bytes, writes overwrite them, and the base keeps its
    image. *)

From Stdlib Require Import ZArith Lia Bool.
From stdpp Require Import base list numbers strings.
From S2P Require Import Prelude BTree SnapWire SnapFile SnapBlocks VirtQueue VirtChain VirtMmio VirtBlk VirtMmioProof VirtBlkProof VirtHostDisk.
Local Open Scope Z_scope.
Local Open Scope vetro_scope.

Import blk.
#[local] Existing Instance hostdisk.host_backend.

(** A backend that holds an image: reading keeps it, and what is read is part
    of it. *)
Class ImageBackend (B : Type) `{!BlockBackend B} := {
  holds : B -> list Z -> Prop;
  holds_size (b : B) img : holds b img -> bk_size b = Z.of_nat (length img);
  holds_read (b b' : B) img s n r : holds b img -> bk_read s n b = (r, b') -> holds b' img
    /\ forall d a, r = Ok d -> byte_range (Z.of_nat (length img)) s n = Ok a -> d = take n (drop a img);
}.

#[export] Instance mem_image : ImageBackend MemBackend.
Proof.
  refine {| holds m img := mem_data m = img |}.
  - by intros m img <-.
  - intros m m' img s n r <-. cbn [bk_read mem_backend]. unfold mem_read.
    destruct (byte_range _ s n) as [a|]; intros [= <- <-]; (split; [done|]); congruence.
Defined.

#[export] Instance host_image : ImageBackend hostdisk.HostDisk.
Proof.
  refine {| holds d img := hostdisk.cache_ok img d /\ bt_sorted (hostdisk.requested d) |}.
  - intros d img [Hok _]. apply (hostdisk.ok_size _ _ Hok).
  - intros d d' img s n r [Hok Hs]. cbn [bk_read hostdisk.host_backend]. intros Hr.
    rewrite <- (hostdisk.ok_size _ _ Hok). destruct (byte_range (hostdisk.dsize d) s n) as [start|e] eqn:Hrange.
    + destruct (hostdisk.disk_read_cases img _ _ _ _ _ _ Hok Hs Hrange Hr) as [Hm H].
      split; [split; [by eapply hostdisk.asks_more_ok|apply Hm]|]. intros data a -> [= ->]. apply H.
    + rewrite (hostdisk.disk_read_range _ _ _ _ Hrange) in Hr. injection Hr as <- <-. by split.
Defined.

Module cow.

Section refines.
Context {B : Type} `{!BlockBackend B} `{!ImageBackend B}.
Implicit Types d : CowBackend B.

Definition cstart (c : Z) : nat := Z.to_nat (c * CLUSTER).

(** The copy-on-write disk [d] over [img] shows [disk]: where there is a
    cluster it is the disk's, elsewhere the image's. *)
Record shows d (img disk : list Z) : Prop := {
  shows_base : holds (cow_base d) img;
  shows_sorted : bt_sorted (clusters d);
  shows_length : length disk = length img;
  shows_cluster c cl : bt_get c (clusters d) = Some cl -> 0 <= c ->
    cl = take (cluster_len (cow_base d) c) (drop (cstart c) disk);
  shows_image i : bt_get (Z.of_nat i / CLUSTER) (clusters d) = None -> disk !! i = img !! i;
}.

(** ** Reading *)

Lemma shows_size d img disk : shows d img disk -> cow_size d = Z.of_nat (length disk).
Proof. intros H. unfold cow_size. rewrite (holds_size _ _ (shows_base _ _ _ H)). by rewrite (shows_length _ _ _ H). Qed.

Lemma cluster_len_eq d img disk c :
  shows d img disk -> 0 <= c -> cluster_len (cow_base d) c = Nat.min (length disk - cstart c) (Z.to_nat CLUSTER).
Proof.
  intros H Hc. unfold cluster_len, cstart. rewrite (holds_size _ _ (shows_base _ _ _ H)), (shows_length _ _ _ H).
  unfold CLUSTER. lia.
Qed.

(** A piece: [n] bytes at [off] of cluster [c], in whole sectors and inside the
    disk and the cluster. *)
Record piece_ok (disk : list Z) (c : Z) (off n : nat) : Prop := {
  piece_c : 0 <= c;
  piece_in : (off + n <= Z.to_nat CLUSTER)%nat;
  piece_disk : (cstart c + off + n <= length disk)%nat;
  piece_pos : (0 < n)%nat;
  piece_off : (Z.of_nat off) mod BLK_SECTOR_SIZE = 0;
  piece_len : (Z.of_nat n) mod BLK_SECTOR_SIZE = 0;
}.

(** The bytes of a cluster that is not there are the image's. *)
Lemma image_slice d img disk c off n :
  shows d img disk -> 0 <= c -> (off + n <= Z.to_nat CLUSTER)%nat -> bt_get c (clusters d) = None ->
  take n (drop (cstart c + off) img) = take n (drop (cstart c + off) disk).
Proof.
  intros H Hc Hin Hno. apply list_eq. intros i. destruct (decide (i < n)%nat); [|by rewrite !lookup_take_ge by lia].
  rewrite !lookup_take_lt, !lookup_drop by lia. symmetry. apply (shows_image _ _ _ H).
  replace (Z.of_nat (cstart c + off + i) / CLUSTER) with c; [done|].
  apply Z.div_unique_pos with (Z.of_nat (off + i)); unfold cstart, CLUSTER in *; lia.
Qed.

(** A piece of a disk of whole sectors, as the base reads it. *)
Lemma base_range (disk : list Z) c off n :
  piece_ok disk c off n -> Z.of_nat (length disk) < 2 ^ 64 ->
  byte_range (Z.of_nat (length disk)) ((c * CLUSTER + Z.of_nat off) / BLK_SECTOR_SIZE) n = Ok (cstart c + off)%nat.
Proof.
  intros [Hc Hin Hd Hn Ho Hl] H64. unfold cstart, BLK_SECTOR_SIZE, CLUSTER in *. apply blkdev.byte_range_ok. unfold BLK_SECTOR_SIZE.
  pose proof (Z.div_mod (Z.of_nat off) 512 ltac:(lia)).
  assert ((c * 4096 + Z.of_nat off) / 512 = c * 8 + Z.of_nat off / 512) as ->.
  { replace (c * 4096 + Z.of_nat off) with ((c * 8) * 512 + Z.of_nat off) by lia. rewrite Z.div_add_l by lia. done. }
  split_and!; lia || done.
Qed.

(** The base read keeps what is shown. *)
Lemma shows_base_read d img disk s n r b :
  shows d img disk -> bk_read s n (cow_base d) = (r, b) -> shows (d <| cow_base := b |>) img disk
  /\ forall l a, r = Ok l -> byte_range (Z.of_nat (length disk)) s n = Ok a -> l = take n (drop a img).
Proof.
  intros H Hb. destruct (holds_read _ _ _ _ _ _ (shows_base _ _ _ H) Hb) as [Hh Hr]. split.
  - destruct H as [H1 H2 H3 H4 H5]. split; try done. unfold cluster_len in *. cbn [cow_base clusters update].
    rewrite (holds_size _ _ Hh). rewrite (holds_size _ _ H1) in H4. exact H4.
  - rewrite (shows_length _ _ _ H). exact Hr.
Qed.

Lemma cow_read_piece_refines d img disk c off a n r d' :
  shows d img disk -> Z.of_nat (length disk) < 2 ^ 64 -> piece_ok disk c off n ->
  cow_read_piece (c, off, a, (a + n)%nat) d = (r, d') ->
  shows d' img disk /\ clusters d' = clusters d /\ forall l, r = Ok l -> l = take n (drop (cstart c + off) disk).
Proof.
  intros H H64 Hp. pose proof Hp as [Hc Hin Hd Hn Ho Hl]. unfold cow_read_piece. replace (a + n - a)%nat with n by lia.
  rewrite (bind_ok _ _ _ (bt_get c (clusters d)) d) by done. destruct (bt_get c (clusters d)) as [cl|] eqn:Hcl.
  - intros [= <- <-]. split_and!; [done..|]. intros l [= <-]. rewrite (shows_cluster _ _ _ H c cl Hcl Hc).
    rewrite (cluster_len_eq d img disk c H Hc), skipn_firstn_comm, take_take, drop_drop. f_equal. lia.
  - unfold on_base. destruct (bk_read _ n (cow_base d)) as [r0 b] eqn:Hb. intros [= <- <-].
    destruct (shows_base_read _ _ _ _ _ _ _ H Hb) as [Hs Hr]. split_and!; [done|done|].
    intros l ->. rewrite (Hr l (cstart c + off)%nat eq_refl) by by apply base_range.
    by eapply image_slice.
Qed.

(** The bytes left, in whole sectors. *)
Definition aligned (n : nat) : Prop := Z.of_nat n mod BLK_SECTOR_SIZE = 0.

(** The piece the loops take at [pos + at_]. *)
Lemma next_piece (disk : list Z) pos at_ len :
  (at_ < len)%nat -> (pos + len <= length disk)%nat -> aligned (pos + at_) -> aligned (len - at_) ->
  let p := Z.of_nat pos + Z.of_nat at_ in
  let off := Z.to_nat (p mod CLUSTER) in
  let n := Nat.min (Z.to_nat CLUSTER - off) (len - at_) in
  piece_ok disk (p / CLUSTER) off n /\ (cstart (p / CLUSTER) + off = pos + at_)%nat
  /\ aligned (pos + (at_ + n)) /\ aligned (len - (at_ + n)).
Proof.
  intros Hlt Hlen Hp Hl p off n. unfold aligned, BLK_SECTOR_SIZE in *.
  pose proof (Z.div_mod p CLUSTER ltac:(unfold CLUSTER; lia)) as Hdm.
  pose proof (Z.mod_pos_bound p CLUSTER ltac:(unfold CLUSTER; lia)) as Hmod.
  assert (0 <= p / CLUSTER) as Hc by (apply Z.div_pos; unfold p, CLUSTER; lia).
  assert (Z.of_nat off = p mod CLUSTER) as Hoff by (unfold off; lia).
  assert (cstart (p / CLUSTER) + off = pos + at_)%nat as Hcs by (unfold cstart; unfold p in *; lia).
  assert (Z.of_nat off mod 512 = 0) as Ho.
  { rewrite Hoff. unfold CLUSTER. replace (Z.of_nat (pos + at_)) with p in Hp by (unfold p; lia).
    change 4096 with (512 * 8). rewrite Z.rem_mul_r by lia. rewrite Hp. rewrite Z.add_0_l, Z.mul_comm. apply Z.mod_mul. lia. }
  assert (Z.of_nat n mod 512 = 0) as Hn.
  { unfold n. destruct (Nat.min_spec (Z.to_nat CLUSTER - off) (len - at_)) as [[_ ->]|[_ ->]]; [|done].
    unfold CLUSTER in *. rewrite Nat2Z.inj_sub, Zminus_mod, Ho by lia. done. }
  assert (0 < n)%nat by (unfold n, CLUSTER in *; lia).
  split_and!; [split; try done; unfold n, CLUSTER in *; lia|done| |].
  - replace (Z.of_nat (pos + (at_ + n))) with (Z.of_nat (pos + at_) + Z.of_nat n) by lia. by rewrite Z.add_mod, Hp, Hn.
  - assert (n <= len - at_)%nat by (unfold n; lia).
    replace (Z.of_nat (len - (at_ + n))) with (Z.of_nat (len - at_) - Z.of_nat n) by lia. by rewrite Zminus_mod, Hl, Hn.
Qed.

Lemma cow_pieces_S fuel pos at_ len :
  cow_pieces (S fuel) pos at_ len =
    if (at_ <? len)%nat then
      let p := pos + Z.of_nat at_ in
      let off := Z.to_nat (p mod CLUSTER) in
      let n := Nat.min (Z.to_nat CLUSTER - off) (len - at_) in
      (p / CLUSTER, off, at_, (at_ + n)%nat) :: cow_pieces fuel pos (at_ + n) len
    else [].
Proof. reflexivity. Qed.

Lemma take_drop_extend (l : list Z) p n m : take n (drop p l) ++ take m (drop (p + n) l) = take (n + m) (drop p l).
Proof. rewrite <- (drop_drop l n p). apply take_take_drop. Qed.

Lemma cow_read_loop img disk fuel pos at_ len acc d r d' :
  shows d img disk -> Z.of_nat (length disk) < 2 ^ 64 -> (pos + len <= length disk)%nat -> (at_ <= len)%nat -> (len - at_ <= fuel)%nat ->
  aligned (pos + at_) -> aligned (len - at_) ->
  foldM (fun acc p => x ← cow_read_piece p; mret (acc ++ x)) acc (cow_pieces fuel (Z.of_nat pos) at_ len) d = (r, d') ->
  shows d' img disk /\ clusters d' = clusters d /\ forall l, r = Ok l -> l = acc ++ take (len - at_) (drop (pos + at_) disk).
Proof.
  intros H H64 Hlen. revert at_ acc d H. induction fuel as [|fuel IH]; intros at_ acc d H Hat Hfuel Hp Hl.
  { cbn [cow_pieces foldM]. intros [= <- <-]. split_and!; [done..|]. intros l [= <-].
    replace (len - at_)%nat with O by lia. by rewrite take_0, app_nil_r. }
  rewrite cow_pieces_S. destruct (Nat.ltb_spec at_ len).
  2: { cbn [foldM]. intros [= <- <-]. split_and!; [done..|]. intros l [= <-].
       replace (len - at_)%nat with O by lia. by rewrite take_0, app_nil_r. }
  destruct (next_piece disk pos at_ len) as (Hok & Hcs & Hp' & Hl'); [done..|]. cbv zeta in *.
  set (c := (Z.of_nat pos + Z.of_nat at_) / CLUSTER) in *. set (off := Z.to_nat _) in *. set (n := Nat.min _ _) in *.
  assert (0 < n <= len - at_)%nat as Hn by (split; [apply Hok|unfold n; lia]).
  cbn [foldM]. intros Hrun. unfold mbind, prog_bind in Hrun. destruct (cow_read_piece (c, off, at_, (at_ + n)%nat) d) as [r1 d1] eqn:H1.
  destruct (cow_read_piece_refines _ _ _ _ _ _ _ _ _ H H64 Hok H1) as (Hs1 & Hc1 & Hr1).
  destruct r1 as [x|e]; [|injection Hrun as <- <-; by split_and!].
  apply IH in Hrun as (Hs2 & Hc2 & Hr2); [|done|lia|lia|done|done]. split_and!; [done|congruence|].
  intros l ->. rewrite (Hr2 l eq_refl), (Hr1 x eq_refl), Hcs, <- app_assoc. f_equal.
  replace (pos + (at_ + n))%nat with (pos + at_ + n)%nat by lia. rewrite take_drop_extend. f_equal. lia.
Qed.

(** ** Writing *)

Lemma take_drop_overwrite (l x : list Z) p off m :
  (off + length x <= m)%nat -> (p + off + length x <= length l)%nat ->
  overwrite off x (take m (drop p l)) = take m (drop p (overwrite (p + off) x l)).
Proof.
  intros Hm Hl. apply list_eq. intros i.
  rewrite hostdisk.lookup_overwrite by (rewrite length_take, length_drop; lia).
  destruct (decide (i < m)%nat).
  - rewrite !lookup_take_lt, !lookup_drop by lia. rewrite hostdisk.lookup_overwrite by lia.
    repeat case_decide; try lia; [f_equal; lia|done].
  - rewrite !lookup_take_ge by lia. rewrite decide_False by lia. done.
Qed.

Lemma overwrite_twice (l x : list Z) p n :
  (n <= length x)%nat -> (p + length x <= length l)%nat ->
  overwrite (p + n) (drop n x) (overwrite p (take n x) l) = overwrite p x l.
Proof.
  intros Hn Hl. pose proof (length_overwrite p (take n x) l) as Hlo. rewrite length_take in Hlo.
  apply list_eq. intros i. rewrite !hostdisk.lookup_overwrite by (rewrite ?length_drop, ?length_take, ?Hlo; lia).
  rewrite length_drop, length_take. repeat case_decide; try lia; try done.
  - rewrite lookup_drop. f_equal. lia.
  - by rewrite lookup_take_lt by lia.
Qed.

(** Setting a cluster to its part of the new disk. *)
Lemma shows_set d d' img disk c off (x : list Z) :
  shows d img disk -> holds (cow_base d') img -> bt_sorted (clusters d') -> 0 <= c -> (off + length x <= Z.to_nat CLUSTER)%nat ->
  (cstart c + off + length x <= length disk)%nat ->
  (forall k, bt_get k (clusters d') = if k =? c
     then Some (take (cluster_len (cow_base d) c) (drop (cstart c) (overwrite (cstart c + off) x disk))) else bt_get k (clusters d)) ->
  shows d' img (overwrite (cstart c + off) x disk).
Proof.
  intros H Hh Hs Hc Hin Hd Hget.
  assert (forall k, cluster_len (cow_base d') k = cluster_len (cow_base d) k) as Hcl.
  { intros k. unfold cluster_len. by rewrite (holds_size _ _ Hh), (holds_size _ _ (shows_base _ _ _ H)). }
  split; [done|done|rewrite length_overwrite by lia; apply (shows_length _ _ _ H)| |].
  - intros k cl Hk Hk0. rewrite Hget in Hk. rewrite Hcl. destruct (Z.eqb_spec k c) as [->|Hne]; [by injection Hk as <-|].
    rewrite (shows_cluster _ _ _ H k cl Hk Hk0). symmetry. apply take_drop_overwrite_other; [lia|].
    rewrite (cluster_len_eq d img disk k H Hk0). unfold cstart, CLUSTER in *. lia.
  - intros j Hj. rewrite Hget in Hj. destruct (Z.eqb_spec (Z.of_nat j / CLUSTER) c) as [|Hne]; [done|].
    rewrite hostdisk.lookup_overwrite by lia. rewrite decide_False; [by apply (shows_image _ _ _ H)|].
    intros Hj'. apply Hne. symmetry. apply Z.div_unique_pos with (Z.of_nat j - c * CLUSTER); unfold cstart, CLUSTER in *; lia.
Qed.

(** Cluster [c] of the disk, whole. *)
Definition cluster_of (d : CowBackend B) (disk : list Z) (c : Z) : list Z :=
  take (cluster_len (cow_base d) c) (drop (cstart c) disk).

Lemma length_cluster_of d img disk c :
  shows d img disk -> 0 <= c -> length (cluster_of d disk c) = cluster_len (cow_base d) c.
Proof. intros H Hc. unfold cluster_of. rewrite (cluster_len_eq d img disk c H Hc), length_take, length_drop. lia. Qed.

Lemma whole_cluster d img disk c :
  shows d img disk -> 0 <= c -> aligned (length disk) -> (cstart c < length disk)%nat ->
  piece_ok disk c 0 (cluster_len (cow_base d) c).
Proof.
  intros H Hc Hal Hlt. pose proof (cluster_len_eq d img disk c H Hc) as ->.
  unfold aligned, BLK_SECTOR_SIZE in Hal. split; try done; try (unfold cstart, CLUSTER in *; lia).
  unfold BLK_SECTOR_SIZE. destruct (Nat.min_spec (length disk - cstart c) (Z.to_nat CLUSTER)) as [[? ->]|[_ ->]]; [|done].
  rewrite Nat2Z.inj_sub, Zminus_mod, Hal by lia. unfold cstart, CLUSTER in *. rewrite Z2Nat.id by lia.
  replace (c * 4096) with (c * 8 * 512) by lia. by rewrite Z.mod_mul.
Qed.

(** What [cow_fill] leaves: the cluster is there, and is the disk's unless it
    is about to be covered. *)
Definition filled d (img disk : list Z) (c : Z) (n : nat) d' : Prop :=
  holds (cow_base d') img /\ bt_sorted (clusters d') /\ dirty d' = dirty d
  /\ exists cl, length cl = cluster_len (cow_base d) c
    /\ ((n < cluster_len (cow_base d) c)%nat -> cl = cluster_of d disk c)
    /\ forall k, bt_get k (clusters d') = if k =? c then Some cl else bt_get k (clusters d).

Lemma filled_insert d img disk c n b0 fresh :
  shows (d <| cow_base := b0 |>) img disk -> length fresh = cluster_len (cow_base d) c ->
  ((n < cluster_len (cow_base d) c)%nat -> fresh = cluster_of d disk c) ->
  filled d img disk c n ((d <| cow_base := b0 |>) <| clusters ::= bt_insert c fresh |>).
Proof.
  intros Hs Hl Hf. split_and!; [apply Hs|apply bt_sorted_insert, Hs|done|].
  exists fresh. split_and!; [done..|]. intros k. apply (bt_get_insert _ _ _ _ (shows_sorted _ _ _ Hs)).
Qed.

Lemma cow_fill_spec d img disk c n r d' :
  shows d img disk -> Z.of_nat (length disk) < 2 ^ 64 -> 0 <= c -> aligned (length disk) -> (cstart c < length disk)%nat ->
  cow_fill c n d = (r, d') -> match r with Err _ => shows d' img disk | Ok _ => filled d img disk c n d' end.
Proof.
  intros H H64 Hc Hal Hlt. unfold cow_fill. rewrite (bind_ok _ _ _ (bt_get c (clusters d)) d) by done.
  destruct (bt_get c (clusters d)) as [cl|] eqn:Hcl.
  { intros [= <- <-]. split_and!; [apply H|apply H|done|]. exists (cluster_of d disk c).
    split_and!; [by eapply length_cluster_of|done|]. intros k. pose proof (shows_cluster _ _ _ H c cl Hcl Hc) as ->.
    by destruct (Z.eqb_spec k c) as [->|]. }
  rewrite (bind_ok _ _ _ (cluster_len (cow_base d) c) d) by done.
  intros Hrun. unfold mbind, prog_bind in Hrun. destruct (Nat.ltb_spec n (cluster_len (cow_base d) c)).
  - unfold on_base in Hrun. destruct (bk_read _ _ (cow_base d)) as [r0 b0] eqn:Hb.
    destruct (shows_base_read _ _ _ _ _ _ _ H Hb) as [Hs Hr]. destruct r0 as [l|e]; [|by injection Hrun as <- <-].
    injection Hrun as <- <-. assert (l = cluster_of d disk c) as ->.
    { pose proof (whole_cluster d img disk c H Hc Hal Hlt) as Hp. rewrite (Hr l (cstart c + 0)%nat eq_refl).
      - rewrite (image_slice d img disk c 0) by (done || apply Hp). unfold cluster_of. by rewrite Nat.add_0_r.
      - rewrite <- (base_range disk c 0 _ Hp H64). f_equal. by rewrite Z.add_0_r. }
    apply filled_insert; [done|by eapply length_cluster_of|done].
  - injection Hrun as <- <-. assert (d = d <| cow_base := cow_base d |>) as Ed by by destruct d.
    rewrite Ed at 3. apply filled_insert; [by rewrite <- Ed|apply length_replicate|lia].
Qed.

(** A write of a piece is a write of the disk. *)
Lemma cow_write_piece_refines d img disk data c off a n r d' :
  shows d img disk -> Z.of_nat (length disk) < 2 ^ 64 -> aligned (length disk) -> piece_ok disk c off n -> (a + n <= length data)%nat ->
  cow_write_piece data (c, off, a, (a + n)%nat) d = (r, d') ->
  match r with
  | Ok _ => shows d' img (overwrite (cstart c + off) (take n (drop a data)) disk)
  | Err _ => shows d' img disk
  end.
Proof.
  intros H H64 Hal Hp Ha. pose proof Hp as [Hc Hin Hd Hn _ _]. unfold cow_write_piece. replace (a + n - a)%nat with n by lia.
  intros Hrun. unfold mbind, prog_bind in Hrun. destruct (cow_fill c n d) as [r1 d1] eqn:Hf.
  apply (cow_fill_spec d img disk) in Hf; [|done..|lia]. destruct r1; [|by injection Hrun as <- <-].
  injection Hrun as <- <-. destruct Hf as (Hh & Hs & _ & cl & Hl & Hcl & Hget).
  pose proof (cluster_len_eq d img disk c H Hc) as Hm. set (x := take n (drop a data)).
  assert (length x = n) as Hx by (unfold x; rewrite length_take, length_drop; lia).
  assert (overwrite off x cl = cluster_of d (overwrite (cstart c + off) x disk) c) as Hov.
  { unfold cluster_of. destruct (decide (n < cluster_len (cow_base d) c)%nat) as [Hlt|Hge].
    - rewrite (Hcl Hlt). apply take_drop_overwrite; lia.
    - assert (off = O) as -> by lia. rewrite <- take_drop_overwrite by lia. unfold overwrite. cbn [take app Nat.add].
      rewrite (drop_ge cl), (drop_ge (take _ _)) by (rewrite ?length_take, ?length_drop; lia). done. }
  assert (bt_get c (clusters d1) = Some cl) as Hc1 by (rewrite Hget; by rewrite Z.eqb_refl).
  apply (shows_set d); try done; try lia; unfold update; cbn [clusters cow_base]; rewrite Hc1.
  - by apply bt_sorted_insert.
  - intros k. rewrite bt_get_insert, Hget, Hov by done. by destruct (k =? c).
Qed.

Lemma overwrite_nil p (l : list Z) : overwrite p [] l = l.
Proof. unfold overwrite. cbn [length app]. rewrite Nat.add_0_r. apply take_drop. Qed.

Lemma byte_range_aligned (disk : list Z) sector len start :
  byte_range (Z.of_nat (length disk)) sector len = Ok start -> (start + len <= length disk)%nat /\ aligned start /\ aligned len.
Proof.
  intros (_ & Hs & _ & Hd & Hl)%blkdev.byte_range_ok. split_and!; [lia| |done].
  unfold aligned. rewrite Hs. by apply Z.mod_mul.
Qed.

Lemma cow_write_loop img fuel pos at_ data disk d r d' :
  shows d img disk -> Z.of_nat (length disk) < 2 ^ 64 -> aligned (length disk) ->
  (pos + length data <= length disk)%nat -> (at_ <= length data)%nat -> (length data - at_ <= fuel)%nat ->
  aligned (pos + at_) -> aligned (length data - at_) ->
  foldM (fun _ p => cow_write_piece data p) tt (cow_pieces fuel (Z.of_nat pos) at_ (length data)) d = (r, d') ->
  exists disk', shows d' img disk' /\ length disk' = length disk
    /\ (forall i, (i < pos \/ pos + length data <= i)%nat -> disk' !! i = disk !! i)
    /\ (r = Ok tt -> disk' = overwrite (pos + at_) (drop at_ data) disk).
Proof.
  revert at_ disk d. induction fuel as [|fuel IH]; intros at_ disk d H H64 Hal Hlen Hat Hfuel Hp Hl.
  { cbn [cow_pieces foldM]. intros [= <- <-]. exists disk. split_and!; [done..|]. intros _.
    rewrite drop_ge by lia. by rewrite overwrite_nil. }
  rewrite cow_pieces_S. destruct (Nat.ltb_spec at_ (length data)).
  2: { cbn [foldM]. intros [= <- <-]. exists disk. split_and!; [done..|]. intros _. rewrite drop_ge by lia. by rewrite overwrite_nil. }
  destruct (next_piece disk pos at_ (length data)) as (Hok & Hcs & Hp' & Hl'); [done..|]. cbv zeta in *.
  set (c := (Z.of_nat pos + Z.of_nat at_) / CLUSTER) in *. set (off := Z.to_nat _) in *. set (n := Nat.min _ _) in *.
  assert (0 < n <= length data - at_)%nat as Hn by (split; [apply Hok|unfold n; lia]).
  cbn [foldM]. intros Hrun. unfold mbind at 1, prog_bind at 1 in Hrun.
  destruct (cow_write_piece data (c, off, at_, (at_ + n)%nat) d) as [r1 d1] eqn:H1.
  apply (cow_write_piece_refines d img disk) in H1 as Hw; [|done..|lia].
  destruct r1 as [[]|e]; [|injection Hrun as <- <-; by exists disk]. rewrite Hcs in Hw.
  assert (length (take n (drop at_ data)) = n) as Hx by (rewrite length_take, length_drop; lia).
  set (disk1 := overwrite (pos + at_) (take n (drop at_ data)) disk) in *.
  assert (length disk1 = length disk) as Hd1 by (apply length_overwrite; lia).
  destruct (IH (at_ + n)%nat disk1 d1) as (disk' & Hs & Hl2 & Hout & Hr); rewrite ?Hd1; try done; try lia.
  exists disk'. split_and!; [done|congruence| |].
  - intros i Hi. rewrite Hout by done. unfold disk1. rewrite hostdisk.lookup_overwrite by lia. rewrite decide_False; [done|lia].
  - intros Hok'. rewrite (Hr Hok'). unfold disk1. rewrite Nat.add_assoc, <- drop_drop. apply overwrite_twice; rewrite length_drop; lia.
Qed.

(** C16: The copy-on-write disk refines a plain disk. When it shows [disk]: a
    read that succeeds gives the bytes of [disk] and changes nothing of it; a
    write that succeeds shows [disk] with the bytes overwritten; a write that
    fails part of the way leaves all bytes outside its range; and in every case
    the base still holds its image. *)
Theorem cow_refines_disk d img disk sector :
  shows d img disk -> Z.of_nat (length disk) < 2 ^ 64 -> aligned (length disk) ->
  (forall len r d', cow_read sector len d = (r, d') ->
     shows d' img disk /\ forall l, r = Ok l -> exists start, byte_range (Z.of_nat (length disk)) sector len = Ok start
       /\ l = take len (drop start disk))
  /\ (forall data r d', cow_write sector data d = (r, d') ->
     match byte_range (Z.of_nat (length disk)) sector (length data) with
     | Err e => r = Err e /\ d' = d
     | Ok start => exists disk', shows d' img disk' /\ length disk' = length disk
         /\ (forall i, (i < start \/ start + length data <= i)%nat -> disk' !! i = disk !! i)
         /\ (r = Ok tt -> disk' = overwrite start data disk)
     end).
Proof.
  intros H H64 Hal. split.
  - intros len r d'. unfold cow_read. rewrite (bind_ok _ _ _ (cow_size d) d), (shows_size _ _ _ H) by done.
    destruct (byte_range (Z.of_nat (length disk)) sector len) as [start|e] eqn:Hr; [|by intros [= <- <-]].
    intros Hrun. destruct (byte_range_aligned _ _ _ _ Hr) as (Hin & Hs & Hl).
    apply (cow_read_loop img disk) in Hrun as (Hs' & _ & Hres); rewrite ?Nat.sub_0_r, ?Nat.add_0_r in *; try done; try lia.
    split; [done|]. intros l ->. exists start. split; [done|]. by apply Hres.
  - intros data r d'. unfold cow_write. rewrite (bind_ok _ _ _ (cow_size d) d), (shows_size _ _ _ H) by done.
    destruct (byte_range (Z.of_nat (length disk)) sector (length data)) as [start|e] eqn:Hr; [|by intros [= <- <-]].
    intros Hrun. destruct (byte_range_aligned _ _ _ _ Hr) as (Hin & Hs & Hl).
    apply (cow_write_loop img _ _ _ _ disk) in Hrun; rewrite ?Nat.sub_0_r, ?Nat.add_0_r in *; try done; try lia.
Qed.
End refines.
End cow.
