(* ===== verification/VirtRequest.v ===== *)
(** * Block requests (crates/vetro-platform/src/virtio/blk.rs)

    A write request from the driver to the disk, through the descriptor chain,
    the chunks of the transfer and the backend, to its status byte. *)

From Stdlib Require Import ZArith Lia Bool.
From stdpp Require Import base list numbers strings.
From S2P Require Import Prelude BTree SnapWire SnapFile SnapBlocks VirtQueue VirtMmio VirtBlk VirtChain VirtMmioProof VirtBlkProof VirtHostDisk VirtCow.
Local Open Scope Z_scope.
Local Open Scope vetro_scope.

Module request.
Import blk.

Section write.
Context {R : Type} `{!GuestRam R} `{!GuestRamLaws R}.
Implicit Types (d : VirtioBlk MemBackend) (c : DescChain).

(** The readable buffers of the chain hold the bytes [bs]. *)
Definition chain_holds (r : R) c (bs : list Z) : Prop :=
  exists ds, Forall2 (buf_holds r) (readable c) ds /\ concat ds = bs.

Lemma chain_holds_read r c bs offset len :
  chain_holds r c bs -> 0 <= offset -> chain_read c offset len r = Ok (take len (drop (Z.to_nat offset) bs)).
Proof.
  intros (ds & H & <-) Ho. unfold chain_read. rewrite (read_pieces_bytes r _ ds) by (done || lia). by rewrite Nat.sub_0_r.
Qed.

Lemma chain_holds_len r c bs : chain_holds r c bs -> readable_len c = Z.of_nat (length bs).
Proof.
  intros (ds & H & <-). unfold readable_len. induction H as [|b l bufs ds Hb H IH]; [done|]. cbn [total_len foldr concat].
  rewrite length_app, (buf_holds_len _ _ _ Hb). change (foldr _ 0 bufs) with (total_len bufs). lia.
Qed.

(** [n] bytes of the disk at [p] replaced. *)
Definition with_data d (m : list Z) : VirtioBlk MemBackend := d <| backend ::= fun b => b <| mem_data := m |> |>.

Section transfer.
Context (c : DescChain) (r : R) (hdr data : list Z) (sector : Z) (disk0 : list Z).
Hypothesis Hc : chain_holds r c (hdr ++ data).
Hypothesis Hh : length hdr = 16%nat.
Hypothesis Hs : 0 <= sector.
Hypothesis Hal : cow.aligned (length data).
Hypothesis Hin : sector * BLK_SECTOR_SIZE + Z.of_nat (length data) <= Z.of_nat (length disk0).
Hypothesis H64 : Z.of_nat (length disk0) < 2 ^ 64.

(** Where the data goes on the disk. *)
Definition place : nat := Z.to_nat (sector * BLK_SECTOR_SIZE).

(** The disk with the first [n] bytes of the data. *)
Definition written (n : nat) : list Z := overwrite place (take n data) disk0.

Lemma length_written n : length (written n) = length disk0.
Proof. unfold written. apply length_overwrite. rewrite length_take. unfold place, BLK_SECTOR_SIZE in *. lia. Qed.

Lemma written_more at_ n : (at_ + n <= length data)%nat -> overwrite (place + at_) (take n (drop at_ data)) (written at_) = written (at_ + n).
Proof.
  intros Hn. unfold written. rewrite <- (cow.overwrite_twice disk0 (take (at_ + n) data) place at_).
  - f_equal; [|by rewrite take_take, Nat.min_l by lia]. by rewrite skipn_firstn_comm, Nat.add_comm, Nat.add_sub.
  - rewrite length_take. lia.
  - rewrite length_take. unfold place, BLK_SECTOR_SIZE in *. lia.
Qed.

Lemma chunk_write d at_ n :
  mem_read_only (backend d) = false -> mem_data (backend d) = written at_ ->
  (at_ + n <= length data)%nat -> cow.aligned at_ -> cow.aligned n ->
  transfer_chunk c sector (Z.of_nat at_) n true (d, r) = (Ok (Ok tt), (with_data d (written (at_ + n)), r)).
Proof.
  intros Hro Hd Hle Ha Hn. unfold transfer_chunk. cbv zeta.
  assert (chain_read c (16 + Z.of_nat at_) n r = Ok (take n (drop at_ data))) as Hread.
  { rewrite (chain_holds_read r c _ _ _ Hc) by lia. do 2 f_equal.
    replace (Z.to_nat (16 + Z.of_nat at_)) with (length hdr + at_)%nat by lia. apply drop_app_add. }
  rewrite (bind_ok _ _ _ (take n (drop at_ data)) (d, r)).
  2: { unfold h_from_ram. cbn [snd]. by rewrite Hread. }
  assert (length (take n (drop at_ data)) = n) as Hl by (rewrite length_take, length_drop; lia).
  rewrite Hl, Nat.sub_diag. cbn [replicate]. rewrite app_nil_r.
  unfold h_disk. cbn [fst snd bk_write mem_backend]. unfold mem_write. rewrite Hro, Hl, Hd, length_written.
  assert (byte_range (Z.of_nat (length disk0)) (sector + Z.of_nat at_ / BLK_SECTOR_SIZE) n = Ok (place + at_)%nat) as ->.
  { apply blkdev.byte_range_ok. unfold cow.aligned, place, BLK_SECTOR_SIZE in *.
    pose proof (Z.div_mod (Z.of_nat at_) 512 ltac:(lia)). split_and!; try lia; done. }
  rewrite <- written_more by done. rewrite <- Hd. unfold with_data, update. by destruct d as [[]].
Qed.

(** The chunks of a write put the data on the disk. *)
Lemma transfer_write fuel d at_ :
  mem_read_only (backend d) = false -> mem_data (backend d) = written at_ ->
  (at_ <= length data)%nat -> cow.aligned at_ -> Z.of_nat (length data - at_) <= Z.of_nat fuel * CHUNK ->
  transfer_loop fuel c sector (Z.of_nat at_) (Z.of_nat (length data)) true (d, r)
  = (Ok (Some (Ok tt)), (with_data d (written (length data)), r)).
Proof.
  revert d at_. induction fuel as [|fuel IH]; intros d at_ Hro Hd Hle Ha Hf; cbn [transfer_loop].
  - replace (length data) with at_ by lia. rewrite <- Hd. unfold with_data, update. by destruct d as [[]].
  - destruct (Z.ltb_spec (Z.of_nat at_) (Z.of_nat (length data))).
    2: { replace (length data) with at_ by lia. rewrite <- Hd. unfold with_data, update. by destruct d as [[]]. }
    cbv zeta. set (n := Z.min _ CHUNK). assert (0 < n <= Z.of_nat (length data) - Z.of_nat at_) as Hn by (unfold n, CHUNK; lia).
    assert (cow.aligned (Z.to_nat n)) as Han.
    { unfold cow.aligned, BLK_SECTOR_SIZE, n in *. rewrite Z2Nat.id by lia.
      destruct (Z.min_spec (Z.of_nat (length data) - Z.of_nat at_) CHUNK) as [[_ ->]|[_ ->]]; [|done]. by rewrite Zminus_mod, Hal, Ha. }
    rewrite (bind_ok _ _ _ (Ok tt) (with_data d (written (at_ + Z.to_nat n)), r)) by (apply chunk_write; try done; lia).
    replace (Z.of_nat at_ + n) with (Z.of_nat (at_ + Z.to_nat n)) by lia.
    rewrite IH; [by destruct d as [[]]|done|done|lia| |unfold CHUNK in *; unfold n in *; lia].
    unfold cow.aligned, BLK_SECTOR_SIZE in *. by rewrite Nat2Z.inj_add, Z.add_mod, Ha, Han.
Qed.
End transfer.

(** ** The whole request *)

(** The header of a request: type, a reserved word, sector. *)
Definition request_header (kind sector : Z) (reserved : list Z) : list Z := to_le 4 kind ++ reserved ++ to_le 8 sector.

(** The chain ends with one writable buffer, whose last byte is the status. *)
Definition status_buf (r : R) c (b : Buf) : Prop := writable c = [b] /\ 1 <= buf_len b /\ exists x, buf_holds r b x.

(** A write that the device can serve. *)
Definition servable d (sector len : Z) : bool :=
  negb (is_read_only d) && (len mod BLK_SECTOR_SIZE =? 0) && (sector + len / BLK_SECTOR_SIZE <=? capacity d).

Lemma status_written r c b v :
  status_buf r c b ->
  exists r', chain_write c (writable_len c - 1) [v] r = (Ok 1%nat, r')
    /\ ram_read (buf_addr b + buf_len b - 1) 1 r' = Ok [v]
    /\ forall a n, a + Z.of_nat n <= buf_addr b + buf_len b - 1 \/ buf_addr b + buf_len b <= a -> ram_read a n r' = ram_read a n r.
Proof.
  intros (Hw & Hl & x & (Ha & Hbl & H64 & Hx)). unfold is_u in *. unfold chain_write, writable_len. rewrite Hw.
  cbn [total_len foldr pieces length Nat.eqb]. rewrite Z.add_0_r.
  destruct (Z.leb_spec (buf_len b) (buf_len b - 1)); [lia|].
  replace (Nat.min (Z.to_nat (buf_len b - (buf_len b - 1))) (1 - 0)) with 1%nat by lia.
  cbn [write_pieces Nat.add Nat.sub take drop]. set (at_ := u64 (buf_addr b + (buf_len b - 1))).
  assert (at_ = buf_addr b + buf_len b - 1) as Hat by (unfold at_, u64; rewrite Z.mod_small by lia; lia).
  destruct (write_part r at_ [v] (take 1 (drop (Z.to_nat (buf_len b - 1)) x))) as (r' & W & S & O).
  { cbn [length]. rewrite <- (ram_read_sub (buf_addr b) (Z.to_nat (buf_len b)) r x (Z.to_nat (buf_len b - 1)) 1) by (done || lia).
    f_equal. unfold at_. f_equal. lia. }
  exists r'. split_and!.
  - rewrite (bind_ok _ _ _ tt r'); [done|]. by rewrite (bind_ok _ _ _ tt r').
  - by rewrite <- Hat.
  - intros a n Han. apply O. cbn [length]. lia.
Qed.

Lemma transfer_servable d c (r : R) hdr data sector :
  chain_holds r c (hdr ++ data) -> length hdr = 16%nat -> is_u 64 sector ->
  cow.aligned (length (mem_data (backend d))) -> Z.of_nat (length (mem_data (backend d))) < 2 ^ 64 ->
  transfer c sector (Z.of_nat (length data)) true (d, r)
  = if servable d sector (Z.of_nat (length data))
    then (Ok (Some (Ok tt)), (with_data d (overwrite (Z.to_nat (sector * BLK_SECTOR_SIZE)) data (mem_data (backend d))), r))
    else (Ok (Some (Err (if is_read_only d then ReadOnly else OutOfRange))), (d, r)).
Proof.
  intros Hc Hh Hs Hdisk H64. unfold transfer, servable. rewrite (bind_ok _ _ _ d (d, r)) by done. cbn [andb].
  destruct (is_read_only d) eqn:Hro; cbn [negb andb]; [done|].
  destruct (Z.eqb_spec (Z.of_nat (length data) mod BLK_SECTOR_SIZE) 0) as [Hal|]; cbn [negb andb]; [|done].
  unfold is_u in Hs. set (end_ := sector + _). pose proof (Z.div_mod (Z.of_nat (length data)) BLK_SECTOR_SIZE ltac:(done)) as Hdm.
  pose proof (Z.div_mod (Z.of_nat (length (mem_data (backend d)))) BLK_SECTOR_SIZE ltac:(done)) as Hdm'. unfold cow.aligned in Hdisk.
  assert (0 <= end_) as H0 by (unfold end_, BLK_SECTOR_SIZE in *; lia).
  destruct (checked_u64 end_) as [e|] eqn:He.
  - apply blkdev.checked_u64_some in He as [-> _]. destruct (Z.ltb_spec (capacity d) end_), (Z.leb_spec end_ (capacity d)); try lia; [done|].
    unfold is_read_only in Hro. apply orb_false_elim in Hro as [_ Hro]. cbn [bk_read_only mem_backend] in Hro.
    unfold capacity in *. cbn [bk_size mem_backend] in *.
    rewrite (transfer_write c r hdr data sector (mem_data (backend d)) Hc Hh) with (at_ := O); try done; try lia.
    + unfold written. by rewrite take_ge by lia.
    + unfold end_, BLK_SECTOR_SIZE in *. lia.
    + unfold written. rewrite take_0, cow.overwrite_nil. done.
    + unfold CHUNK, BLK_SECTOR_SIZE in *. Z.div_mod_to_equations. lia.
  - destruct (Z.leb_spec end_ (capacity d)); [|done]. exfalso.
    assert (checked_u64 end_ = Some end_); [|congruence]. apply blkdev.checked_u64_some. split; [done|]. split; [done|].
    unfold capacity in *. cbn [bk_size mem_backend] in *. unfold BLK_SECTOR_SIZE in *. Z.div_mod_to_equations. lia.
Qed.

Lemma header_fields kind sector reserved :
  is_u 32 kind -> is_u 64 sector -> length reserved = 4%nat ->
  length (request_header kind sector reserved) = 16%nat /\ from_le (take 4 (request_header kind sector reserved)) = kind
  /\ from_le (take 8 (drop 8 (request_header kind sector reserved))) = sector.
Proof.
  intros Hk Hs Hr. unfold request_header. split_and!.
  - by rewrite !length_app, !length_to_le, Hr.
  - rewrite take_app_length' by by rewrite length_to_le. rewrite from_to_le. by apply mod_is_u.
  - rewrite app_assoc, drop_app_length' by by rewrite length_app, length_to_le, Hr.
    rewrite take_ge by by rewrite length_to_le. rewrite from_to_le. by apply mod_is_u.
Qed.

(** C17: On a disk held in memory (the [MemBackend], which is never waited
    for), a write request whose chain holds a header for [sector] and then the
    data, and whose writable part is one buffer that takes the status in its
    last byte: when the disk is writable, the data is whole sectors and fits,
    the disk afterwards is the disk before with the data at that sector, and
    the status byte is OK; otherwise the disk is unchanged and the status byte
    is IOERR. One byte is reported as written, and no other memory changes. *)
Theorem write_request d c (r : R) b sector reserved data :
  chain_holds r c (request_header T_OUT sector reserved ++ data) -> length reserved = 4%nat -> status_buf r c b -> is_u 64 sector ->
  cow.aligned (length (mem_data (backend d))) -> Z.of_nat (length (mem_data (backend d))) < 2 ^ 64 ->
  let ok := servable d sector (Z.of_nat (length data)) in
  exists r', handle c (d, r) = (Ok (Done 1),
      (if ok then with_data d (overwrite (Z.to_nat (sector * BLK_SECTOR_SIZE)) data (mem_data (backend d))) else d, r'))
    /\ ram_read (buf_addr b + buf_len b - 1) 1 r' = Ok [if ok then S_OK else S_IOERR]
    /\ forall a n, a + Z.of_nat n <= buf_addr b + buf_len b - 1 \/ buf_addr b + buf_len b <= a -> ram_read a n r' = ram_read a n r.
Proof.
  intros Hc Hr Hst Hs Hdisk H64 ok. destruct (header_fields T_OUT sector reserved) as (Hh & Hk & Hsec); [done..|].
  destruct (status_written r c b (if ok then S_OK else S_IOERR) Hst) as (r' & W & Hread & Hout).
  exists r'. split; [|done]. unfold handle.
  rewrite (bind_ok _ _ _ (request_header T_OUT sector reserved) (d, r)).
  2: { unfold h_from_ram. cbn [snd]. rewrite (chain_holds_read r c _ _ _ Hc) by lia. change (Z.to_nat 0) with O. rewrite drop_0.
       by rewrite take_app_length' by by rewrite Hh. }
  rewrite Hh. cbn [Nat.ltb Nat.leb]. destruct Hst as (Hw & Hl & _).
  assert (writable_len c = buf_len b) as Hwl by (unfold writable_len; rewrite Hw; cbn; lia).
  destruct (Z.ltb_spec (writable_len c) 1); [lia|]. cbv zeta. rewrite Hk, Hsec.
  set (d' := if ok then _ else d).
  rewrite (bind_ok _ _ _ (Some (if ok then S_OK else S_IOERR, 0)) (d', r)).
  - rewrite (bind_ok _ _ _ 1%nat (d', r')); [done|]. unfold h_ram. cbn [fst snd]. by rewrite W.
  - unfold serve. change (T_OUT =? T_IN) with false. change (T_OUT =? T_OUT) with true. cbv iota. rewrite (chain_holds_len r c _ Hc), length_app, Hh.
    replace (Z.of_nat (16 + length data) - 16) with (Z.of_nat (length data)) by lia.
    pose proof (transfer_servable d c r _ data sector Hc Hh Hs Hdisk H64) as Ht. fold ok in Ht. unfold d'. destruct ok.
    + by rewrite (bind_ok _ _ _ _ _ Ht).
    + by rewrite (bind_ok _ _ _ _ _ Ht).
Qed.
End write.
End request.

(** * Concrete virtio runs

    A driver, guest memory and disks on which the theorems about the virtio
    devices apply. *)

Module virtrun.
Import blk blkdev hostdisk.

(** ** A driver *)

(** Descriptor table at 0x1000, available ring at 0x1040, used ring at 0x1080,
    request header at 0x1100, status at 0x1110, data at 0x1200. *)
Definition descriptor (addr len flags next : Z) : list Z := to_le 8 addr ++ to_le 4 len ++ to_le 2 flags ++ to_le 2 next.

Definition read_sector_0 : VecRam := MkVecRam 0x1000
  (descriptor 0x1100 16 1 1 ++ descriptor 0x1200 512 3 2 ++ descriptor 0x1110 1 2 0 ++ descriptor 0 0 0 0
   ++ to_le 2 0 ++ to_le 2 1 ++ to_le 2 0 ++ replicate 58 0
   ++ replicate 128 0
   ++ request.request_header T_IN 0 [0; 0; 0; 0] ++ replicate 240 0
   ++ replicate 512 0).

Section driver.
Context {B : Type} `{!BlockBackend B}.
Abbreviation transport := (mmio.VirtioMmio (VirtioBlk B)).

(** The writes of a driver that brings the device up with a queue of 4. *)
Definition bring_up : list (Z * Z) :=
  [(mmio.STATUS, 1); (mmio.STATUS, 3); (mmio.DRIVER_FEATURES_SEL, 1); (mmio.DRIVER_FEATURES, 1); (mmio.STATUS, 11);
   (mmio.QUEUE_NUM, 4); (mmio.QUEUE_DESC_LOW, 0x1000); (mmio.QUEUE_DRIVER_LOW, 0x1040); (mmio.QUEUE_DEVICE_LOW, 0x1080);
   (mmio.QUEUE_READY, 1); (mmio.STATUS, 15)].

Definition write_all (l : list (Z * Z)) (t : transport) : transport :=
  foldl (fun t p => mmio.write (R:=VecRam) p.1 4 p.2 t) t l.

Definition start (b : B) : transport :=
  write_all bring_up (mmio.without_features 0 (mmio.mmio_new (R:=VecRam) (blk_new b blk_config_default))).

Lemma write_all_reachable l (t : transport) : transport.reachable (R:=VecRam) t -> transport.reachable (R:=VecRam) (write_all l t).
Proof. revert t. induction l as [|[a v] l IH]; intros t H; [done|]. apply IH. by constructor. Qed.

Lemma start_reachable b : transport.reachable (R:=VecRam) (start b).
Proof. apply write_all_reachable. constructor. Qed.
End driver.

(** ** The transport *)

Definition disk2 : MemBackend := mem_new 1024.

(** The device is up, with the features it offered and a valid queue. *)
Lemma transport_invariant_witness :
  mmio.status (start disk2) = 15 /\ mmio.driver_features (start disk2) = mmio.F_VERSION_1
  /\ map ready (mmio.qs (start disk2)) = [true] /\ transport.transport_ok (R:=VecRam) (start disk2).
Proof.
  split_and!; [vm_compute; reflexivity..|]. apply (transport.transport_invariant (R:=VecRam) (start disk2)). apply start_reachable.
Defined.

(** A write of the features of a device that is up. *)
Lemma features_locked_witness :
  mmio.driver_features (mmio.write (R:=VecRam) mmio.DRIVER_FEATURES 4 7 (start disk2)) = mmio.F_VERSION_1.
Proof.
  rewrite (transport.features_locked (R:=VecRam) mmio.DRIVER_FEATURES 4 7 (start disk2)); vm_compute; reflexivity.
Defined.

(** ** A disk fed by the host *)

Definition image : list Z := map (fun i => Z.of_nat i mod 251) (seq 0 1024).

(** Two blocks of 512 bytes, none of them delivered. *)
Definition empty_disk : HostDisk := MkDisk 1024 512 [] [] 0 [] [] [] (MkStats 0 0 0 0).

Lemma empty_disk_ok : cache_ok image empty_disk.
Proof. split; [done|done|constructor|done]. Qed.

(** A read of the first sector is not ready and asks for block 0. *)
Lemma host_disk_read_witness :
  exists d', disk_read 0 512 empty_disk = (Err NotReady, d') /\ contains 0 (requested d') = true.
Proof.
  pose proof (host_disk_read image empty_disk 0 512 empty_disk_ok ltac:(constructor)) as H.
  destruct (disk_read 0 512 empty_disk) as [r d'] eqn:E. vm_compute in E. injection E as <- <-. eexists. split; [reflexivity|].
  change (byte_range (dsize empty_disk) 0 512) with (@Ok nat BlockError 0%nat) in H. cbv iota beta in H.
  destruct H as (_ & _ & Hall). apply Hall; [|reflexivity]. vm_compute. left.
Defined.

(** With block 0 delivered the read succeeds. *)
Lemma host_disk_retry_witness :
  disk_read 0 512 (deliver image [0] empty_disk) = (Ok (take 512 image), deliver image [0] empty_disk).
Proof.
  apply (host_disk_retry image empty_disk 0 512 0 [0] empty_disk_ok); [reflexivity|constructor|constructor|reflexivity| |].
  - repeat constructor. reflexivity.
  - intros b Hb _. replace (range_blocks empty_disk (Z.of_nat 0) 512) with [0] in Hb by reflexivity. exact Hb.
Defined.

(** ** A pending request *)

Definition up : mmio.VirtioMmio (VirtioBlk HostDisk) * VecRam :=
  default (start empty_disk, read_sector_0) (mmio.service (start empty_disk) read_sector_0).

(** The host delivers block 0 to the disk of the device. *)
Definition delivered : mmio.VirtioMmio (VirtioBlk HostDisk) :=
  up.1 <| mmio.dev ::= option_map (fun d => d <| backend ::= deliver image [0] |>) |>.

(** The request waits for the host, which delivers the block while another
    core takes the queue back. *)
Lemma pending_request_panics_witness :
  transport.reachable (R:=VecRam) up.1
  /\ mmio.service (mmio.write (R:=VecRam) mmio.QUEUE_NUM 4 0 (mmio.write (R:=VecRam) mmio.QUEUE_READY 4 0 delivered)) up.2 = None.
Proof.
  split.
  - apply (transport.reach_service (start empty_disk) read_sector_0 up.1 up.2); [apply start_reachable|vm_compute; reflexivity].
  - eapply (pending_request_panics delivered); [vm_compute; reflexivity..|]. eexists _, _. vm_compute. reflexivity.
Defined.

(** Without the queue being taken back the request completes. *)
Example pending_request_completes :
  match mmio.service delivered up.2 with
  | Some (t, r) => map used_idx (mmio.qs t) = [1] /\ ram_read 0x1200 4 r = Ok (take 4 image) /\ ram_read 0x1110 1 r = Ok [S_OK]
  | None => False
  end.
Proof. vm_compute. by split_and!. Qed.

(** ** The loop over the queue *)

Definition queue4 : Virtqueue := MkQueue 256 4 true 0x1000 0x1040 0x1080 0 0 0 false false.

(** A read request of the first sector, served to its end. *)
Lemma blk_service_ends_witness :
  let s := (blk_new disk2 blk_config_default, mmio.MkCtx [queue4] read_sector_0 false) in
  blk_loop 100 s = service s /\ (service s).1 = Ok tt.
Proof.
  intros s. split; [|vm_compute; reflexivity].
  apply (blk_service_ends (blk_new disk2 blk_config_default) queue4 [] read_sector_0 false 100).
  - intros idx. vm_compute. intros [= <-]. done.
  - done.
  - eapply one_turn_run; [vm_compute; reflexivity..].
  - vm_compute. lia.
Defined.

(** ** Requests and the copy-on-write disk *)

(** A write of the second sector: header, a sector of data, status. *)
Definition write_sector_1 : VecRam := MkVecRam 0x1000
  (request.request_header T_OUT 1 [0; 0; 0; 0] ++ replicate 16 0 ++ replicate 512 7).

Definition write_chain : DescChain := MkChain 0 [MkBuf 0x1000 16; MkBuf 0x1020 512] [MkBuf 0x1010 1].

Lemma write_request_witness :
  exists r', handle write_chain (blk_new disk2 blk_config_default, write_sector_1)
    = (Ok (Done 1), (blk_new (MkMem (replicate 512 0 ++ replicate 512 7) false) blk_config_default, r'))
    /\ ram_read 0x1010 1 r' = Ok [S_OK].
Proof.
  destruct (request.write_request (blk_new disk2 blk_config_default) write_chain write_sector_1 (MkBuf 0x1010 1) 1 [0; 0; 0; 0] (replicate 512 7))
    as (r' & Hh & Hs & _).
  - exists [request.request_header T_OUT 1 [0; 0; 0; 0]; replicate 512 7]. split; [|reflexivity].
    repeat constructor; vm_compute; congruence.
  - reflexivity.
  - split; [reflexivity|]. split; [done|]. exists [0]. repeat constructor; vm_compute; congruence.
  - done.
  - reflexivity.
  - vm_compute. reflexivity.
  - exists r'. split; [exact Hh|exact Hs].
Defined.

Definition cow2 : CowBackend MemBackend := cow_new disk2.

Lemma cow_refines_disk_witness :
  exists d' disk', cow_write 1 (replicate 512 7) cow2 = (Ok tt, d') /\ cow.shows d' (replicate 1024 0) disk'
    /\ disk' = replicate 512 0 ++ replicate 512 7.
Proof.
  destruct (cow.cow_refines_disk cow2 (replicate 1024 0) (replicate 1024 0) 1) as [_ Hw].
  - split; [reflexivity|constructor|done|done|done].
  - vm_compute. reflexivity.
  - reflexivity.
  - destruct (cow_write 1 (replicate 512 7) cow2) as [r d'] eqn:E. specialize (Hw _ _ _ E).
    assert (r = Ok tt) as -> by (vm_compute in E; by injection E as <- _).
    change (byte_range (Z.of_nat (length (replicate 1024 0))) 1 (length (replicate 512 7))) with (@Ok nat BlockError 512%nat) in Hw.
    destruct Hw as (disk' & Hs & _ & _ & Hd). exists d', disk'. split_and!; [done|done|by rewrite (Hd eq_refl)].
Defined.
End virtrun.
