(* ===== verification/PlatVirt.v ===== *)
(** * The virt platform (crates/vetro-platform/src/virt.rs)

    The bus with the interrupt controller, the simple devices and 32
    virtio-mmio slots, a timer per core, and the wiring of the interrupt
    lines. [None] is a panic: an [unwrap], an assertion, or one of a device. *)

From Stdlib Require Import ZArith Lia Bool.
From stdpp Require Import base list numbers strings.
From S2P Require Import Prelude SnapWire SnapFile SnapCodec PlatBus Gic PlatTimer Pl011 Pl031 Pl061 VirtQueue VirtMmio.
Local Open Scope Z_scope.
Local Open Scope vetro_scope.

Module virt.

Inductive VirtioSlotError := NoSuchSlot (s : Z) | Occupied (s : Z) | Full.

#[export] Instance VirtioSlotError_eq_dec : EqDecision VirtioSlotError.
Proof. solve_decision. Defined.

(** The devices behind the bus, [Box<dyn MmioDevice>] in the source. *)
Inductive Device (D : Type) :=
| DGic (g : gic.Gic)
| DUart (u : pl011.Pl011)
| DRtc (r : pl031.Pl031)
| DGpio (p : pl061.Pl061)
| DVirtio (t : mmio.VirtioMmio D).
Arguments DGic {D}.
Arguments DUart {D}.
Arguments DRtc {D}.
Arguments DGpio {D}.
Arguments DVirtio {D}.

Record Virt (D : Type) := MkVirt {
  bus : bus.Bus (Device D);
  timers : list timer.GenericTimer;
  cur : nat;
  gic_id : nat;
  uart_id : nat;
  rtc_id : nat;
  gpio_id : nat;
  virtio_ids : list nat;
}.
Arguments MkVirt {D}.
Arguments bus {D}.
Arguments timers {D}.
Arguments cur {D}.
Arguments gic_id {D}.
Arguments uart_id {D}.
Arguments rtc_id {D}.
Arguments gpio_id {D}.
Arguments virtio_ids {D}.

#[export] Instance eta_Virt {D} : Eta (Virt D) := fun v =>
  MkVirt (bus v) (timers v) (cur v) (gic_id v) (uart_id v) (rtc_id v) (gpio_id v) (virtio_ids v).

Section platform.
Context {R D : Type} `{!GuestRam R} `{!mmio.VirtioDevice R D}.
Implicit Types v : Virt D.

#[export] Instance device_mmio : MmioDevice (Device D) := {|
  dev_read off sz d :=
    match d with
    | DGic g => (gic.read off sz g, DGic g)
    | DUart u => let r := pl011.read off sz u in (r.1, DUart r.2)
    | DRtc r => (pl031.read off sz r, DRtc r)
    | DGpio p => (pl061.read off sz p, DGpio p)
    | DVirtio t => (mmio.read (R:=R) off sz t, DVirtio t)
    end;
  dev_write off sz value d :=
    match d with
    | DGic g => DGic (gic.write off sz value g)
    | DUart u => DUart (pl011.write off sz value u)
    | DRtc r => DRtc (pl031.write off sz value r)
    | DGpio p => DGpio (pl061.write off sz value p)
    | DVirtio t => DVirtio (mmio.write (R:=R) off sz value t)
    end;
|}.

(** [bus.map(..).unwrap()]. *)
Definition map_unwrap (base size : Z) (name : string) (d : Device D) (b : bus.Bus (Device D)) : option (nat * bus.Bus (Device D)) :=
  match bus.bus_map base size name d b with
  | (Ok id, b) => Some (id, b)
  | (Err _, _) => None
  end.

(** The slots from [k] on. *)
Fixpoint map_slots (n : nat) (k : Z) (b : bus.Bus (Device D)) : option (list nat * bus.Bus (Device D)) :=
  match n with
  | O => Some ([], b)
  | S n =>
      r ← map_unwrap (map.VIRTIO_BASE + k * map.VIRTIO_SLOT_SIZE) map.VIRTIO_SLOT_SIZE "virtio-mmio" (DVirtio mmio.empty) b;
      rest ← map_slots n (k + 1) r.2;
      Some (r.1 :: rest.1, rest.2)
  end.

Definition with_cpus (now_secs : Z) (cpus : nat) : option (Virt D) :=
  g ← gic.with_cpus cpus;
  r1 ← map_unwrap map.GICD_BASE (gic.mmio_size cpus) "gicv3" (DGic g) bus.bus_new;
  r2 ← map_unwrap map.UART_BASE map.UART_SIZE "pl011" (DUart pl011.uart_new) r1.2;
  r3 ← map_unwrap map.RTC_BASE map.RTC_SIZE "pl031" (DRtc (pl031.rtc_new now_secs)) r2.2;
  r4 ← map_unwrap map.GPIO_BASE map.GPIO_SIZE "pl061" (DGpio pl061.gpio_new) r3.2;
  r5 ← map_slots (Z.to_nat map.VIRTIO_SLOTS) 0 r4.2;
  Some (MkVirt r5.2 (replicate cpus timer.timer_default) 0 r1.1 r2.1 r3.1 r4.1 r5.1).

Definition virt_new (now_secs : Z) : option (Virt D) := with_cpus now_secs 1.

Definition cpus v : nat := length (timers v).

(** [bus.device(id).unwrap()] of each kind. *)
Definition the_gic v : option gic.Gic :=
  match bus.device_of (bus v) (gic_id v) with Some (DGic g) => Some g | _ => None end.
Definition the_uart v : option pl011.Pl011 :=
  match bus.device_of (bus v) (uart_id v) with Some (DUart u) => Some u | _ => None end.
Definition the_rtc v : option pl031.Pl031 :=
  match bus.device_of (bus v) (rtc_id v) with Some (DRtc r) => Some r | _ => None end.
Definition the_gpio v : option pl061.Pl061 :=
  match bus.device_of (bus v) (gpio_id v) with Some (DGpio p) => Some p | _ => None end.

Definition set_dev (id : nat) (d : Device D) v : Virt D := v <| bus ::= bus.set_device id (fun _ => d) |>.

(** [gic_mut] and an operation of the GIC that may panic. *)
Definition gic_mut (f : gic.Gic -> option gic.Gic) v : option (Virt D) :=
  g ← the_gic v; g' ← f g; Some (set_dev (gic_id v) (DGic g') v).

Definition set_current_cpu (cpu : nat) v : option (Virt D) :=
  if (cpu =? cur v)%nat then Some v
  else if (cpu <? length (timers v))%nat then gic_mut (gic.set_current cpu) (v <| cur := cpu |>)
  else None.

Definition the_timer v : option timer.GenericTimer := timers v !! cur v.

(** The transport of a slot; [None] when there is no such slot. *)
Definition virtio_at (slot : Z) v : option (mmio.VirtioMmio D) :=
  match virtio_ids v !! Z.to_nat slot with
  | Some id => match bus.device_of (bus v) id with Some (DVirtio t) => Some t | _ => None end
  | None => None
  end.

Definition set_virtio (slot : Z) (t : mmio.VirtioMmio D) v : Virt D :=
  match virtio_ids v !! Z.to_nat slot with Some id => set_dev id (DVirtio t) v | None => v end.

Definition attach_virtio (slot : Z) (dev : D) v : result unit VirtioSlotError * Virt D :=
  match virtio_at slot v with
  | None => (Err (NoSuchSlot slot), v)
  | Some t =>
      match mmio.dev t with
      | Some _ => (Err (Occupied slot), v)
      | None => (Ok tt, set_virtio slot (mmio.set_device (R:=R) (Some dev) t) v)
      end
  end.

(** [(0..VIRTIO_SLOTS).rev()]. *)
Definition slots_down : list Z := rev (seqZ 0 map.VIRTIO_SLOTS).

Definition slot_free v (k : Z) : bool :=
  match virtio_at k v with Some t => match mmio.dev t with None => true | Some _ => false end | None => false end.

Definition attach_virtio_next (dev : D) v : result Z VirtioSlotError * Virt D :=
  match List.find (slot_free v) slots_down with
  | None => (Err Full, v)
  | Some slot =>
      match attach_virtio slot dev v with
      | (Ok _, v) => (Ok slot, v)
      | (Err e, v) => (Err e, v)
      end
  end.

(** A turn of [service_virtio]. *)
Definition service_slot (id : nat) (s : Virt D * R) : option (Virt D * R) :=
  match bus.device_of (bus s.1) id with
  | Some (DVirtio t) =>
      match mmio.dev t with
      | Some _ => r ← mmio.service t s.2; Some (set_dev id (DVirtio r.1) s.1, r.2)
      | None => Some s
      end
  | _ => None
  end.

Fixpoint service_ids (ids : list nat) (s : Virt D * R) : option (Virt D * R) :=
  match ids with
  | [] => Some s
  | id :: ids => s ← service_slot id s; service_ids ids s
  end.

Definition service_virtio v (r : R) : option (Virt D * R) := service_ids (virtio_ids v) (v, r).

(** The lines of a core's timer. *)
Definition set_timer_lines (cntpct : Z) (g : gic.Gic) (e : nat * timer.GenericTimer) : gic.Gic :=
  foldl (fun g l => gic.set_private_level e.1 l.1 l.2 g) g (timer.irq_lines e.2 cntpct).

Definition virtio_level v (k : nat) : bool :=
  match virtio_at (Z.of_nat k) v with Some t => mmio.irq_level t | None => false end.

Definition update_irqs (cntpct : Z) v : option (Virt D) :=
  uart ← the_uart v;
  rtc ← the_rtc v;
  gpio ← the_gpio v;
  gic_mut (fun g =>
    let g := foldl (set_timer_lines cntpct) g (imap pair (timers v)) in
    let g := gic.set_spi_level map.UART_SPI (pl011.irq_level uart) g in
    let g := gic.set_spi_level map.RTC_SPI (pl031.irq_level rtc) g in
    let g := gic.set_spi_level map.GPIO_SPI (pl061.irq_level gpio) g in
    Some (foldl (fun g k => gic.set_spi_level (map.VIRTIO_SPI_BASE + Z.of_nat k) (virtio_level v k) g) g
            (seq 0 (Z.to_nat map.VIRTIO_SLOTS)))) v.

Definition irq_line v : option bool := g ← the_gic v; gic.irq_line g.
Definition irq_line_of (cpu : nat) v : option bool := g ← the_gic v; gic.irq_line_of g cpu.

(** ** Snapshot *)

Definition TIMR : list Z := [84; 73; 77; 82].
Definition GIC3 : list Z := [71; 73; 67; 51].
Definition UART : list Z := [85; 65; 82; 84].
Definition RTC_ : list Z := [82; 84; 67; 32].
Definition GPIO : list Z := [71; 80; 73; 79].
Definition VIO_ : list Z := [86; 73; 79; 32].
Definition TMRS : list Z := [84; 77; 82; 83].

Definition save_slot v (w : Writer) (k : Z) : option Writer :=
  t ← virtio_at k v; mmio.try_section VIO_ (fun w => mmio.save (R:=R) t (w_u64 k w)) w.

Fixpoint save_slots v (ks : list Z) (w : Writer) : option Writer :=
  match ks with
  | [] => Some w
  | k :: ks => w ← save_slot v w k; save_slots v ks w
  end.

Definition save v (w : Writer) : option Writer :=
  t0 ← timers v !! 0%nat;
  g ← the_gic v; u ← the_uart v; r ← the_rtc v; p ← the_gpio v;
  let w := w_section TIMR (timer.save t0) w in
  w ← mmio.try_section GIC3 (gic.save g) w;
  let w := w_section GPIO (pl061.save p) (w_section RTC_ (pl031.save r) (w_section UART (pl011.save u) w)) in
  w ← save_slots v (seqZ 0 map.VIRTIO_SLOTS) w;
  Some (if (1 <? length (timers v))%nat
        then w_section TMRS (fun w => foldl (fun w t => timer.save t w) w (tail (timers v))) w
        else w).

(** The transports of all slots, [expect("32 slots")]. *)
Definition all_slots v : option (list (Z * mmio.VirtioMmio D)) :=
  mapM (fun k => t ← virtio_at k v; Some (k, t)) (seqZ 0 map.VIRTIO_SLOTS).

Definition restore_slot (e : Z * mmio.VirtioMmio D) : reading (Z * mmio.VirtioMmio D) :=
  in_section VIO_ (_ ← r_expect_u64 "virtio slot" e.1; t ← mmio.restore (R:=R) e.2; mret (e.1, t)).

Fixpoint restore_slots (l : list (Z * mmio.VirtioMmio D)) : reading (list (Z * mmio.VirtioMmio D)) :=
  match l with
  | [] => mret []
  | e :: l => e' ← restore_slot e; l' ← restore_slots l; mret (e' :: l')
  end.

(** The state of a restore that succeeds. *)
Definition restore v : option (reading (Virt D)) :=
  g ← the_gic v;
  slots ← all_slots v;
  Some (
    t0 ← in_section TIMR timer.restore;
    g' ← in_section GIC3 (gic.restore g);
    u ← in_section UART pl011.restore;
    r ← in_section RTC_ pl031.restore;
    p ← in_section GPIO pl061.restore;
    l ← restore_slots slots;
    ts ← (if (1 <? length (timers v))%nat then in_section TMRS (r_times (length (timers v) - 1) timer.restore) else mret []);
    let v := set_dev (gic_id v) (DGic g') (set_dev (uart_id v) (DUart u) (set_dev (rtc_id v) (DRtc r) (set_dev (gpio_id v) (DGpio p) v))) in
    mret ((foldl (fun v e => set_virtio e.1 e.2 v) v l) <| timers := t0 :: ts |>)).
End platform.
End virt.
