(* ===== verification/PlatVirtProof.v ===== *)
(** * The virt platform: wiring and invariant (crates/vetro-platform/src/virt.rs)

    The devices are where the address map says, the invariant that no access
    or operation of the platform breaks, and the interrupt lines after
    [update_irqs] against the documented wiring. *)

From Stdlib Require Import ZArith Lia Bool.
From stdpp Require Import base list numbers strings.
From S2P Require Import Prelude SnapWire PlatBus Gic GicWf PlatTimer Pl011 Pl031 Pl061 VirtQueue VirtMmio VirtBlk PlatVirt.
Local Open Scope Z_scope.
Local Open Scope vetro_scope.

Module platform.
Import virt.

Section proofs.
Context {R D : Type} `{!GuestRam R} `{!mmio.VirtioDevice R D}.
Implicit Types v : Virt D.

(** ** Construction *)

(** The regions of a new platform, in the order they are mapped. *)
Definition new_regions (g : gic.Gic) (now_secs : Z) (n : nat) : list (bus.Region (Device D)) :=
  [bus.MkRegion map.GICD_BASE (gic.mmio_size n) "gicv3" (DGic g);
   bus.MkRegion map.UART_BASE map.UART_SIZE "pl011" (DUart pl011.uart_new);
   bus.MkRegion map.RTC_BASE map.RTC_SIZE "pl031" (DRtc (pl031.rtc_new now_secs));
   bus.MkRegion map.GPIO_BASE map.GPIO_SIZE "pl061" (DGpio pl061.gpio_new)]
  ++ ((fun k => bus.MkRegion (map.VIRTIO_BASE + k * map.VIRTIO_SLOT_SIZE) map.VIRTIO_SLOT_SIZE "virtio-mmio" (DVirtio mmio.empty)) <$> seqZ 0 32).

Definition new_virt (g : gic.Gic) (now_secs : Z) (n : nat) : Virt D :=
  MkVirt (bus.MkBus (new_regions g now_secs n) (seq 0 36)) (replicate n timer.timer_default) 0 0 1 2 3 (seq 4 32).

(** No region overlaps another: all the [unwrap]s succeed. *)
Lemma with_cpus_new now_secs n g : gic.with_cpus n = Some g -> with_cpus (D:=D) now_secs n = Some (new_virt g now_secs n).
Proof.
  intros Hg. unfold with_cpus. rewrite Hg. cbn [mbind option_bind].
  unfold gic.with_cpus in Hg. case_guard as Hn; [|done]. clear Hg.
  do 17 (destruct n as [|n]; [first [exfalso; lia|vm_compute; reflexivity]|]); lia.
Qed.

(** ** Invariant *)

(** Every device is on the bus under its identifier, and the interrupt
    controller serves the cores there are. *)
Record virt_wf (n : nat) v : Prop := {
  vw_timers : length (timers v) = n;
  vw_cur : (cur v < n)%nat;
  vw_ids : NoDup (gic_id v :: uart_id v :: rtc_id v :: gpio_id v :: virtio_ids v);
  vw_slots : length (virtio_ids v) = 32%nat;
  vw_gic : exists g, the_gic v = Some g /\ gic_wf n g;
  vw_uart : is_Some (the_uart v);
  vw_rtc : is_Some (the_rtc v);
  vw_gpio : is_Some (the_gpio v);
  vw_virtio id : id ∈ virtio_ids v -> exists t, bus.device_of (bus v) id = Some (DVirtio t);
}.

Lemma device_set id d v j :
  bus.device_of (bus (set_dev id d v)) j = if decide (j = id) then (fun _ => d) <$> bus.device_of (bus v) j else bus.device_of (bus v) j.
Proof.
  unfold bus.device_of, set_dev, bus.set_device, update. cbn [bus bus.regions]. destruct (decide (j = id)) as [->|Hne].
  - rewrite list_lookup_alter_eq. by destruct (bus.regions (bus v) !! id).
  - by rewrite list_lookup_alter_ne.
Qed.

(** The kind of a device. *)
Definition same_kind (d d' : Device D) : Prop :=
  match d, d' with
  | DGic _, DGic _ | DUart _, DUart _ | DRtc _, DRtc _ | DGpio _, DGpio _ | DVirtio _, DVirtio _ => True
  | _, _ => False
  end.

(** Replacing a device by one of its kind keeps the invariant; the interrupt
    controller must stay well formed. *)
Lemma set_dev_wf n id d d0 v :
  virt_wf n v -> bus.device_of (bus v) id = Some d0 -> same_kind d0 d ->
  (id = gic_id v -> forall g, d = DGic g -> gic_wf n g) -> virt_wf n (set_dev id d v).
Proof.
  intros [H1 H2 H3 H4 (g & H5 & H5') H6 H7 H8 H9] Hd Hk Hg.
  assert (forall j, bus.device_of (bus (set_dev id d v)) j = bus.device_of (bus v) j
    \/ (j = id /\ bus.device_of (bus (set_dev id d v)) j = Some d)) as Hj.
  { intros j. rewrite device_set. destruct (decide (j = id)) as [->|]; [right; by rewrite Hd|by left]. }
  split; try done.
  - unfold the_gic in *. change (gic_id (set_dev id d v)) with (gic_id v).
    destruct (Hj (gic_id v)) as [->|[E ->]]; [eauto|]. rewrite E, Hd in H5. destruct d0; try done. destruct d; try done. eauto.
  - unfold the_uart in *. change (uart_id (set_dev id d v)) with (uart_id v).
    destruct (Hj (uart_id v)) as [->|[E ->]]; [eauto|]. rewrite E, Hd in H6. destruct d0; try by destruct H6. by destruct d.
  - unfold the_rtc in *. change (rtc_id (set_dev id d v)) with (rtc_id v).
    destruct (Hj (rtc_id v)) as [->|[E ->]]; [eauto|]. rewrite E, Hd in H7. destruct d0; try by destruct H7. by destruct d.
  - unfold the_gpio in *. change (gpio_id (set_dev id d v)) with (gpio_id v).
    destruct (Hj (gpio_id v)) as [->|[E ->]]; [eauto|]. rewrite E, Hd in H8. destruct d0; try by destruct H8. by destruct d.
  - intros j Hin. destruct (Hj j) as [->|[E ->]]; [by apply H9|]. destruct (H9 j Hin) as [t Ht]. rewrite E, Hd in Ht.
    injection Ht as ->. destruct d; try done. eauto.
Qed.

Lemma new_virt_wf g now_secs n : gic.with_cpus n = Some g -> virt_wf n (new_virt g now_secs n).
Proof.
  intros Hg. assert (1 <= n <= 16)%nat as Hn by (unfold gic.with_cpus in Hg; by case_guard).
  destruct (with_cpus_wf n Hn) as (g' & Hg' & W). assert (g' = g) as -> by congruence.
  split; try done.
  - apply length_replicate.
  - cbn. lia.
  - change (NoDup (seq 0 36)). apply NoDup_seq.
  - exists g. done.
  - intros id Hin. unfold new_virt in *. cbn [virtio_ids bus] in *. apply elem_of_seq in Hin.
    unfold bus.device_of, new_regions. cbn [bus.regions]. rewrite lookup_app_r by (cbn; lia). cbn [length].
    rewrite list_lookup_fmap. destruct (seqZ 0 32 !! (id - 4)%nat) as [k|] eqn:E; [by eexists|].
    apply lookup_ge_None_1 in E. rewrite length_seqZ in E. lia.
Qed.

(** ** Accesses *)

Lemma dev_write_kind off sz x (d : Device D) : same_kind d (dev_write off sz x d).
Proof. by destruct d. Qed.
Lemma dev_read_kind off sz (d : Device D) : same_kind d (dev_read off sz d).2.
Proof. by destruct d. Qed.

Lemma at_gic n v g : virt_wf n v -> bus.device_of (bus v) (gic_id v) = Some (DGic g) -> gic_wf n g.
Proof. intros W Hd. destruct (vw_gic _ _ W) as (g' & Hg & Hwf). unfold the_gic in Hg. rewrite Hd in Hg. by injection Hg as ->. Qed.

Lemma find_device (b : bus.Bus (Device D)) addr sz i off : bus.find addr sz b = Some (i, off) -> is_Some (bus.device_of b i).
Proof.
  unfold bus.find, bus.device_of. destruct (bus.partition_point _ _); [done|]. destruct (bus.by_base b !! _) as [j|]; [|done].
  destruct (bus.regions b !! j) as [r|] eqn:E; [|done]. case_match; [done|]. case_match; [|done]. intros [= <- _]. rewrite E. eauto.
Qed.

Lemma set_device_at (b : bus.Bus (Device D)) i f d :
  bus.device_of b i = Some d -> bus.set_device i f b = bus.set_device i (fun _ => f d) b.
Proof.
  unfold bus.device_of. intros Hd. unfold bus.set_device, update. f_equal. apply list_alter_ext; [|done]. intros r Hr.
  rewrite Hr in Hd. cbn in Hd. by injection Hd as <-.
Qed.

(** An access to a device, as a replacement by one of its kind. *)
Lemma access_wf n i (f : Device D -> Device D) d v :
  virt_wf n v -> bus.device_of (bus v) i = Some d -> same_kind d (f d) -> (forall g, d = DGic g -> gic_wf n g -> exists g', f d = DGic g' /\ gic_wf n g') ->
  virt_wf n (v <| bus ::= bus.set_device i f |>).
Proof.
  intros W Hd Hk Hg. replace (v <| bus ::= bus.set_device i f |>) with (set_dev i (f d) v).
  - eapply set_dev_wf; [done|exact Hd|exact Hk|]. intros -> g Eg. destruct d; rewrite Eg in Hk; try done.
    destruct (Hg _ eq_refl (at_gic _ _ _ W Hd)) as (g' & E & Hw). rewrite E in Eg. by injection Eg as <-.
  - unfold set_dev, update. by rewrite <- (set_device_at _ _ f d Hd).
Qed.

Abbreviation bus_read := (bus.read (MmioDevice0 := device_mmio (R:=R))).
Abbreviation bus_write := (bus.write (MmioDevice0 := device_mmio (R:=R))).

Lemma bus_write_wf n addr sz x v : virt_wf n v -> virt_wf n (v <| bus := (bus_write addr sz x (bus v)).2 |>).
Proof.
  intros W. unfold bus.write. destruct (bus.find addr sz (bus v)) as [[i off]|] eqn:Hf; cbn [snd]; [|by destruct v].
  destruct (find_device _ _ _ _ _ Hf) as [d Hd]. eapply access_wf; [done|exact Hd|by destruct d|].
  intros g -> Hg. eexists. split; [reflexivity|]. by apply write_wf.
Qed.

Lemma bus_read_wf n addr sz v : virt_wf n v -> virt_wf n (v <| bus := (bus_read addr sz (bus v)).2 |>).
Proof.
  intros W. unfold bus.read. destruct (bus.find addr sz (bus v)) as [[i off]|] eqn:Hf; cbn [snd]; [|by destruct v].
  destruct (find_device _ _ _ _ _ Hf) as [d Hd]. rewrite Hd.
  assert (same_kind d (dev_read (MmioDevice := device_mmio (R:=R)) off sz d).2) as Hk by by destruct d.
  assert (forall g, d = DGic g -> (dev_read (MmioDevice := device_mmio (R:=R)) off sz d).2 = DGic g) as Hg by by intros g ->.
  destruct (dev_read off sz d) as [x d']. cbn [fst snd] in *.
  apply (access_wf n i (fun _ => d') d); [done|done|done|]. intros g Eg Wg. exists g. split; [by apply Hg|done].
Qed.

(** ** Operations of the platform *)

Lemma gic_mut_wf n f v :
  virt_wf n v -> (forall g, gic_wf n g -> exists g', f g = Some g' /\ gic_wf n g') ->
  exists g g', the_gic v = Some g /\ gic_wf n g /\ f g = Some g' /\ gic_wf n g'
    /\ gic_mut f v = Some (set_dev (gic_id v) (DGic g') v) /\ virt_wf n (set_dev (gic_id v) (DGic g') v).
Proof.
  intros W Hf. destruct (vw_gic _ _ W) as (g & Hg & Wg). destruct (Hf g Wg) as (g' & E & Wg').
  exists g, g'. unfold gic_mut. rewrite Hg. cbn [mbind option_bind]. rewrite E. split_and!; try done.
  unfold the_gic in Hg. destruct (bus.device_of (bus v) (gic_id v)) as [[]|] eqn:Hd; try done.
  eapply set_dev_wf; [done|exact Hd|done|]. intros _ g1 [= <-]. done.
Qed.

Lemma set_current_cpu_wf n cpu v : virt_wf n v -> (cpu < n)%nat -> exists v', set_current_cpu cpu v = Some v' /\ virt_wf n v' /\ cur v' = cpu.
Proof.
  intros W Hc. unfold set_current_cpu. destruct (Nat.eqb_spec cpu (cur v)) as [->|]; [by exists v|].
  rewrite (vw_timers _ _ W). destruct (Nat.ltb_spec cpu n); [|lia].
  assert (virt_wf n (v <| cur := cpu |>)) as W'.
  { destruct W as [H1 H2 H3 H4 H5 H6 H7 H8 H9]. by split. }
  destruct (gic_mut_wf n (gic.set_current cpu) _ W') as (g & g' & _ & _ & _ & _ & E & Wr).
  { intros g Wg. by eapply set_current_wf. }
  eexists. split; [exact E|]. split; [exact Wr|done].
Qed.

(** ** The interrupt lines *)

(** The lines a platform drives: core, INTID and level. Two private
    interrupts for the timer of each core; SPI 1 the UART, 2 the RTC, 7 the
    GPIO and 16 + k the virtio slot k. *)
Definition lines (cntpct : Z) (uart : pl011.Pl011) (rtc : pl031.Pl031) (gpio : pl061.Pl061) v : list (nat * Z * bool) :=
  concat (imap (fun cpu t => (fun l => (cpu, l.1, l.2)) <$> timer.irq_lines t cntpct) (timers v))
  ++ [(0%nat, 32 + 1, pl011.irq_level uart); (0%nat, 32 + 2, pl031.irq_level rtc); (0%nat, 32 + 7, pl061.irq_level gpio)]
  ++ ((fun k => (0%nat, 32 + (16 + Z.of_nat k), virtio_level v k)) <$> seq 0 32).

Definition drive (g : gic.Gic) (l : nat * Z * bool) : gic.Gic := gic.set_private_level l.1.1 l.1.2 l.2 g.

Lemma foldl_fmap {A B C} (f : A -> C -> A) (h : B -> C) a l : foldl f a (h <$> l) = foldl (fun a b => f a (h b)) a l.
Proof. revert a. induction l as [|b l IH]; intros a; [done|]. cbn. apply IH. Qed.

Lemma drive_timers cntpct (f : nat -> nat) g (ts : list timer.GenericTimer) :
  foldl (set_timer_lines cntpct) g (imap (fun i t => (f i, t)) ts)
  = foldl drive g (concat (imap (fun i t => (fun l => (f i, l.1, l.2)) <$> timer.irq_lines t cntpct) ts)).
Proof.
  revert f g. induction ts as [|t ts IH]; intros f g; [done|].
  cbn [imap foldl concat]. rewrite foldl_app. rewrite (IH (f ∘ S)). f_equal.
Qed.

(** [update_irqs] drives these lines in order. *)
Lemma update_irqs_drives n cntpct v :
  virt_wf n v -> exists uart rtc gpio g, the_uart v = Some uart /\ the_rtc v = Some rtc /\ the_gpio v = Some gpio
    /\ the_gic v = Some g /\ gic_wf n g
    /\ update_irqs cntpct v = Some (set_dev (gic_id v) (DGic (foldl drive g (lines cntpct uart rtc gpio v))) v).
Proof.
  intros W. destruct (vw_uart _ _ W) as [uart Hu]. destruct (vw_rtc _ _ W) as [rtc Hr]. destruct (vw_gpio _ _ W) as [gpio Hp].
  destruct (vw_gic _ _ W) as (g & Hg & Wg). exists uart, rtc, gpio, g. split_and!; try done.
  unfold update_irqs. rewrite Hu, Hr, Hp. cbn [mbind option_bind]. unfold gic_mut. rewrite Hg. cbn [mbind option_bind]. cbv zeta.
  do 3 f_equal. unfold lines. rewrite !foldl_app. 
  assert (foldl (set_timer_lines cntpct) g (imap pair (timers v))
    = foldl drive g (concat (imap (fun cpu t => (fun l => (cpu, l.1, l.2)) <$> timer.irq_lines t cntpct) (timers v)))) as -> by apply (drive_timers cntpct id).
  generalize (foldl drive g (concat (imap (fun cpu t => (fun l => (cpu, l.1, l.2)) <$> timer.irq_lines t cntpct) (timers v)))).
  intros g0. cbn [foldl]. rewrite foldl_fmap. change (Z.to_nat map.VIRTIO_SLOTS) with 32%nat. generalize (seq 0 32). intros ks.
  change (drive (drive (drive g0 _) _) _) with (gic.set_spi_level map.GPIO_SPI (pl061.irq_level gpio) (gic.set_spi_level map.RTC_SPI (pl031.irq_level rtc)
    (gic.set_spi_level map.UART_SPI (pl011.irq_level uart) g0))).
  generalize (gic.set_spi_level map.GPIO_SPI (pl061.irq_level gpio) (gic.set_spi_level map.RTC_SPI (pl031.irq_level rtc)
    (gic.set_spi_level map.UART_SPI (pl011.irq_level uart) g0))).
  induction ks as [|k ks IH]; intros g1; [done|]. cbn [foldl]. by rewrite IH.
Qed.

Definition line_level (g : gic.Gic) (cpu : nat) (intid : Z) : option bool := gic.level <$> gic.irq g cpu (Z.to_nat intid).

(** Two lines are the same interrupt. *)
Definition same_line (l l' : nat * Z * bool) : Prop := same_cell l.1.1 (Z.to_nat l.1.2) l'.1.1 (Z.to_nat l'.1.2).

Lemma irq_drive g l cpu k :
  16 <= l.1.2 -> gic.irq (drive g l) cpu k
  = if decide (same_cell l.1.1 (Z.to_nat l.1.2) cpu k) then gic.raise_line l.2 <$> gic.irq g cpu k else gic.irq g cpu k.
Proof.
  intros Hl. unfold drive, gic.set_private_level. destruct (Z.leb_spec 16 l.1.2); [|lia]. apply irq_set_irq.
Qed.

Lemma level_raise lvl i : gic.level (gic.raise_line lvl i) = lvl.
Proof. unfold gic.raise_line. cbv zeta. by destruct (gic.edge i && lvl && negb (gic.level i)). Qed.

(** Interrupts that no line of [ls] drives are as they were. *)
Lemma irq_drives_other ls g cpu k :
  Forall (fun l => 16 <= l.1.2) ls -> (forall l, l ∈ ls -> ~ same_cell l.1.1 (Z.to_nat l.1.2) cpu k) ->
  gic.irq (foldl drive g ls) cpu k = gic.irq g cpu k.
Proof.
  intros Hls. revert g. induction Hls as [|l ls Hl Hls IH]; intros g Hn; [done|]. cbn [foldl].
  rewrite IH by (intros l' Hin; apply Hn; by apply list_elem_of_further). rewrite irq_drive by done.
  rewrite decide_False; [done|]. apply Hn. apply list_elem_of_here.
Qed.

(** A line driven consistently has its level at the end. *)
Lemma level_drives ls g cpu intid lvl :
  Forall (fun l => 16 <= l.1.2) ls -> (cpu, intid, lvl) ∈ ls -> is_Some (gic.irq g cpu (Z.to_nat intid)) ->
  (forall l, l ∈ ls -> same_line l (cpu, intid, lvl) -> l.2 = lvl) -> line_level (foldl drive g ls) cpu intid = Some lvl.
Proof.
  intros Hls. revert g. induction ls as [|l ls IH] using rev_ind; intros g Hin Hex Hsame; [by apply elem_of_nil in Hin|].
  apply Forall_app in Hls as [Hls Hl]. apply Forall_cons in Hl as [Hl _]. rewrite foldl_app. cbn [foldl].
  assert (is_Some (gic.irq (foldl drive g ls) cpu (Z.to_nat intid))) as [i Hi].
  { clear -Hls Hex. revert g Hex. induction Hls as [|l' ls' Hl' Hls' IH']; intros g Hex; [done|]. cbn [foldl]. apply IH'.
    rewrite irq_drive by done. case_decide; [by apply fmap_is_Some|done]. }
  unfold line_level. rewrite irq_drive by done. case_decide as Hc.
  - rewrite Hi. change (gic.level <$> (gic.raise_line l.2 <$> Some i)) with (Some (gic.level (gic.raise_line l.2 i))). f_equal. rewrite level_raise. apply Hsame; [apply elem_of_app; right; apply list_elem_of_here|exact Hc].
  - apply elem_of_app in Hin as [Hin|Hin]; [|apply list_elem_of_singleton in Hin; subst l; destruct Hc; split; [done|by left]].
    apply (IH Hls g Hin Hex). intros l' Hl'. apply Hsame. apply elem_of_app. by left.
Qed.

(** The lines of a platform, by case. *)
Lemma elem_of_lines cntpct uart rtc gpio v l :
  l ∈ lines cntpct uart rtc gpio v ->
  (exists cpu t, timers v !! cpu = Some t /\ (l = (cpu, 27, timer.irq_level (timer.virt t) (timer.cntvct t cntpct))
     \/ l = (cpu, 30, timer.irq_level (timer.phys t) cntpct)))
  \/ l = (0%nat, 33, pl011.irq_level uart) \/ l = (0%nat, 34, pl031.irq_level rtc) \/ l = (0%nat, 39, pl061.irq_level gpio)
  \/ exists k, (k < 32)%nat /\ l = (0%nat, 48 + Z.of_nat k, virtio_level v k).
Proof.
  unfold lines. rewrite !elem_of_app. intros [Hin|[Hin|Hin]].
  - left. apply list_elem_of_In, in_concat in Hin as (ls & Hls & Hl). apply list_elem_of_In in Hls, Hl. apply elem_of_lookup_imap in Hls as (cpu & t & -> & Ht).
    exists cpu, t. split; [done|]. unfold timer.irq_lines in Hl. cbn in Hl. rewrite !elem_of_cons in Hl.
    destruct Hl as [->|[->|Hl]]; [by left|by right|by apply elem_of_nil in Hl].
  - right. rewrite !elem_of_cons, elem_of_nil in Hin. destruct Hin as [->|[->|[->|[]]]]; tauto.
  - do 4 right. apply list_elem_of_fmap in Hin as (k & -> & Hk). apply elem_of_seq in Hk. exists k. split; [lia|]. do 2 f_equal. lia.
Qed.

Lemma timer_line cntpct uart rtc gpio v cpu t l :
  timers v !! cpu = Some t -> l ∈ timer.irq_lines t cntpct -> (cpu, l.1, l.2) ∈ lines cntpct uart rtc gpio v.
Proof.
  intros Ht Hl. unfold lines. apply elem_of_app. left. apply list_elem_of_In, in_concat.
  exists ((fun l => (cpu, l.1, l.2)) <$> timer.irq_lines t cntpct). rewrite <- !list_elem_of_In. split.
  - by apply (elem_of_lookup_imap_2 (fun cpu t => (fun l => (cpu, l.1, l.2)) <$> timer.irq_lines t cntpct)).
  - apply list_elem_of_fmap. by exists l.
Qed.

(** The interrupts the platform drives. *)
Definition driven (n cpu k : nat) : Prop :=
  ((k = 27 \/ k = 30) /\ (cpu < n))%nat \/ k = 33%nat \/ k = 34%nat \/ k = 39%nat \/ (48 <= k < 80)%nat.

Lemma irq_exists n g cpu k : gic_wf n g -> (cpu < n)%nat -> (k < 80)%nat -> is_Some (gic.irq g cpu k).
Proof.
  intros W Hc Hk. unfold gic.irq. destruct (gic.is_banked cpu k) eqn:E.
  - unfold gic.is_banked in E. apply andb_prop in E as [E1 E2]. apply Nat.ltb_lt in E1, E2.
    destruct (gic.banked g !! (cpu - 1)%nat) as [b|] eqn:Hb.
    + pose proof (Forall_lookup_1 _ _ _ _ (wf_banked_ok _ _ W) Hb) as [Hl _]. apply lookup_lt_is_Some_2. lia.
    + apply lookup_ge_None_1 in Hb. rewrite (wf_banked _ _ W) in Hb. lia.
  - apply lookup_lt_is_Some_2. rewrite (wf_irqs _ _ W). unfold gic.NUM_INTIDS, gic.NUM_SPIS. lia.
Qed.

Lemma lines_private cntpct uart rtc gpio v : Forall (fun l => 16 <= l.1.2) (lines cntpct uart rtc gpio v).
Proof.
  apply Forall_forall. intros l Hl. apply elem_of_lines in Hl as [(cpu & t & _ & [->| ->])|[->|[->|[->|(k & _ & ->)]]]]; cbn [fst snd]; lia.
Qed.

(** Every line of the platform has its level in the interrupt controller. *)
Lemma lines_levels n g cntpct uart rtc gpio v cpu intid lvl :
  virt_wf n v -> gic_wf n g -> (cpu, intid, lvl) ∈ lines cntpct uart rtc gpio v ->
  line_level (foldl drive g (lines cntpct uart rtc gpio v)) cpu intid = Some lvl.
Proof.
  intros W Wg Hin. apply level_drives; [apply lines_private|exact Hin| |].
  - apply (irq_exists n); [done|..];
      apply elem_of_lines in Hin as [(c & t & Ht & [[= -> -> ->]|[= -> -> ->]])|[[= -> -> ->]|[[= -> -> ->]|[[= -> -> ->]|(k & Hk & [= -> -> ->])]]]];
      try (apply lookup_lt_Some in Ht; rewrite (vw_timers _ _ W) in Ht); pose proof (wf_cores _ _ Wg); lia.
  - intros l Hl. unfold same_line, same_cell. cbn [fst snd].
    apply elem_of_lines in Hl as [(c & t & Ht & [-> | ->])|[->|[->|[->|(k & Hk & ->)]]]];
    apply elem_of_lines in Hin as [(c' & t' & Ht' & [[= -> -> ->]|[= -> -> ->]])|[[= -> -> ->]|[[= -> -> ->]|[[= -> -> ->]|(k' & Hk' & [= -> -> ->])]]]];
    cbn [fst snd]; intros [He Ho]; try lia; try done.
    + destruct Ho as [->|Ho]; [|lia]. congruence.
    + destruct Ho as [->|Ho]; [|lia]. congruence.
    + by assert (k = k') as -> by lia.
Qed.

Lemma drives_wf n ls g : gic_wf n g -> gic_wf n (foldl drive g ls).
Proof. intros Wg. apply foldl_wf; [|done]. intros g0 l Hg0. by apply set_private_level_wf. Qed.

Lemma drives_other n g cntpct uart rtc gpio v cpu k :
  virt_wf n v -> ~ driven n cpu k -> gic.irq (foldl drive g (lines cntpct uart rtc gpio v)) cpu k = gic.irq g cpu k.
Proof.
  intros W Hn. apply irq_drives_other; [apply lines_private|]. intros l Hl [Hk Hc]. apply Hn. unfold driven.
  apply elem_of_lines in Hl as [(c & t & Ht & [-> | ->])|[->|[->|[->|(j & Hj & ->)]]]]; cbn [fst snd] in *;
    try (apply lookup_lt_Some in Ht; rewrite (vw_timers _ _ W) in Ht); lia.
Qed.

(** C14: [update_irqs] succeeds and brings the level of every line to the
    interrupt controller: the virtual and physical timer of each core on its
    PPIs 27 and 30, the UART on SPI 1, the RTC on SPI 2, the GPIO on SPI 7 and
    the transport of virtio slot k on SPI 16 + k. Every other interrupt, and
    every other device, is as it was. *)
Theorem update_irqs_levels n cntpct v :
  virt_wf n v ->
  exists v' g g' uart rtc gpio,
    update_irqs cntpct v = Some v' /\ virt_wf n v' /\ the_gic v = Some g /\ the_gic v' = Some g'
    /\ the_uart v = Some uart /\ the_rtc v = Some rtc /\ the_gpio v = Some gpio
    /\ (forall cpu t, timers v !! cpu = Some t ->
          line_level g' cpu map.PPI_VTIMER = Some (timer.irq_level (timer.virt t) (timer.cntvct t cntpct))
          /\ line_level g' cpu map.PPI_PTIMER = Some (timer.irq_level (timer.phys t) cntpct))
    /\ line_level g' 0 (map.SPI_BASE + map.UART_SPI) = Some (pl011.irq_level uart)
    /\ line_level g' 0 (map.SPI_BASE + map.RTC_SPI) = Some (pl031.irq_level rtc)
    /\ line_level g' 0 (map.SPI_BASE + map.GPIO_SPI) = Some (pl061.irq_level gpio)
    /\ (forall k, (k < 32)%nat -> line_level g' 0 (map.SPI_BASE + (map.VIRTIO_SPI_BASE + Z.of_nat k)) = Some (virtio_level v k))
    /\ (forall cpu k, ~ driven n cpu k -> gic.irq g' cpu k = gic.irq g cpu k)
    /\ (forall id, id <> gic_id v -> bus.device_of (bus v') id = bus.device_of (bus v) id).
Proof.
  intros W. destruct (update_irqs_drives n cntpct v W) as (uart & rtc & gpio & g & Hu & Hr & Hp & Hg & Wg & E).
  set (ls := lines cntpct uart rtc gpio v) in *.
  assert (bus.device_of (bus v) (gic_id v) = Some (DGic g)) as Hd.
  { unfold the_gic in Hg. by destruct (bus.device_of (bus v) (gic_id v)) as [[]|]; try discriminate; injection Hg as ->. }
  assert (forall cpu intid lvl, (cpu, intid, lvl) ∈ ls -> line_level (foldl drive g ls) cpu intid = Some lvl) as Hlev.
  { intros cpu intid lvl. by apply (lines_levels n). }
  assert (forall l, l ∈ [(0%nat, 32 + 1, pl011.irq_level uart); (0%nat, 32 + 2, pl031.irq_level rtc); (0%nat, 32 + 7, pl061.irq_level gpio)] -> l ∈ ls) as Hspi.
  { intros l Hl. unfold ls, lines. rewrite !elem_of_app. tauto. }
  eexists _, g, (foldl drive g ls), uart, rtc, gpio. split_and!; [exact E| |done| |done|done|done| | | | | | |].
  - eapply set_dev_wf; [done|exact Hd|done|]. intros _ g1 [= <-]. by apply drives_wf.
  - unfold the_gic. change (gic_id (set_dev _ _ v)) with (gic_id v). rewrite device_set, decide_True, Hd by done. reflexivity.
  - intros cpu t Ht. split; apply Hlev.
    + apply (timer_line _ _ _ _ _ _ t (_, _) Ht). apply list_elem_of_here.
    + apply (timer_line _ _ _ _ _ _ t (_, _) Ht). apply list_elem_of_further, list_elem_of_here.
  - apply Hlev, Hspi, list_elem_of_here.
  - apply Hlev, Hspi, list_elem_of_further, list_elem_of_here.
  - apply Hlev, Hspi, list_elem_of_further, list_elem_of_further, list_elem_of_here.
  - intros k Hk. apply Hlev. unfold ls, lines. rewrite !elem_of_app. do 2 right. apply list_elem_of_fmap. exists k. split; [done|].
    apply elem_of_seq. lia.
  - intros cpu k Hn. by apply (drives_other n).
  - intros id Hne. by rewrite device_set, decide_False.
Qed.

(** ** Slots *)

Lemma virtio_at_slot n v slot :
  virt_wf n v -> 0 <= slot < 32 -> exists id t, virtio_ids v !! Z.to_nat slot = Some id
    /\ bus.device_of (bus v) id = Some (DVirtio t) /\ virtio_at slot v = Some t.
Proof.
  intros W Hs. destruct (lookup_lt_is_Some_2 (virtio_ids v) (Z.to_nat slot)) as [id Hid]; [rewrite (vw_slots _ _ W); lia|].
  destruct (vw_virtio _ _ W id) as [t Ht]; [by eapply list_elem_of_lookup_2|]. exists id, t. unfold virtio_at. by rewrite Hid, Ht.
Qed.

Lemma virtio_at_range n v slot t : virt_wf n v -> virtio_at slot v = Some t -> (Z.to_nat slot < 32)%nat.
Proof.
  intros W. unfold virtio_at. destruct (virtio_ids v !! Z.to_nat slot) eqn:E; [|done]. intros _.
  apply lookup_lt_Some in E. by rewrite (vw_slots _ _ W) in E.
Qed.

(** Replacing the transport of a slot: that slot, and nothing else. *)
Lemma set_virtio_spec n v slot t :
  virt_wf n v -> 0 <= slot < 32 ->
  virt_wf n (set_virtio slot t v) /\ virtio_at slot (set_virtio slot t v) = Some t
  /\ forall k, 0 <= k < 32 -> k <> slot -> virtio_at k (set_virtio slot t v) = virtio_at k v.
Proof.
  intros W Hs. destruct (virtio_at_slot n v slot W Hs) as (id & t0 & Hid & Hd & _). unfold set_virtio. rewrite Hid. split_and!.
  - by eapply set_dev_wf.
  - unfold virtio_at. change (virtio_ids (set_dev id (DVirtio t) v)) with (virtio_ids v). by rewrite Hid, device_set, decide_True, Hd.
  - intros k Hk Hne. destruct (virtio_at_slot n v k W Hk) as (id' & t' & Hid' & Hd' & Ht'). rewrite Ht'.
    unfold virtio_at. change (virtio_ids (set_dev id (DVirtio t) v)) with (virtio_ids v). rewrite Hid', device_set, decide_False, Hd'; [done|].
    intros ->. pose proof (vw_ids _ _ W) as Hnd. do 4 apply NoDup_cons_1_2 in Hnd.
    pose proof (NoDup_lookup _ _ _ _ Hnd Hid Hid'). lia.
Qed.

Lemma attach_virtio_wf n slot dev v : virt_wf n v -> virt_wf n (attach_virtio (R:=R) slot dev v).2.
Proof.
  intros W. unfold attach_virtio. destruct (virtio_at slot v) as [t|] eqn:E; [|done]. destruct (mmio.dev t); [done|]. cbn [snd].
  unfold set_virtio. unfold virtio_at in E. destruct (virtio_ids v !! Z.to_nat slot) as [id|]; [|done].
  destruct (bus.device_of (bus v) id) as [[]|] eqn:Hd; try done. by eapply set_dev_wf.
Qed.

Lemma attach_virtio_next_wf n dev v : virt_wf n v -> virt_wf n (attach_virtio_next (R:=R) dev v).2.
Proof.
  intros W. unfold attach_virtio_next. destruct (List.find _ _) as [slot|]; [|done].
  pose proof (attach_virtio_wf n slot dev v W) as Hw. by destruct (attach_virtio slot dev v) as [[] v'].
Qed.

Lemma service_virtio_wf n v (r : R) v' r' : virt_wf n v -> service_virtio v r = Some (v', r') -> virt_wf n v'.
Proof.
  unfold service_virtio. generalize (virtio_ids v). intros ids. revert v r. induction ids as [|id ids IH]; intros v r W; cbn [service_ids].
  { by intros [= <- <-]. }
  unfold service_slot. cbn [fst snd]. destruct (bus.device_of (bus v) id) as [[]|] eqn:Hd; try done.
  destruct (mmio.dev t) as [dv|]; cbn [mbind option_bind]; [|by apply IH].
  destruct (mmio.service t r) as [[t1 r1]|]; cbn [mbind option_bind fst snd]; [|done]. apply IH. by eapply set_dev_wf.
Qed.

(** ** Reachable platforms *)

(** What the engine does with a platform: construction, accesses of the guest,
    the system registers of the timer and the interrupt controller, host
    operations on a device, attachments, service turns, lines. *)
Inductive reachable (n : nat) : Virt D -> Prop :=
| vr_new now_secs v : with_cpus now_secs n = Some v -> reachable n v
| vr_read addr sz v : reachable n v -> reachable n (v <| bus := (bus_read addr sz (bus v)).2 |>)
| vr_write addr sz x v : reachable n v -> reachable n (v <| bus := (bus_write addr sz x (bus v)).2 |>)
| vr_timer f v : reachable n v -> reachable n (v <| timers ::= alter f (cur v) |>)
| vr_gic f v v' : reachable n v -> (forall g, gic_wf n g -> exists g', f g = Some g' /\ gic_wf n g') -> gic_mut f v = Some v' -> reachable n v'
| vr_host id d d' v : reachable n v -> bus.device_of (bus v) id = Some d -> same_kind d d' -> id <> gic_id v -> reachable n (set_dev id d' v)
| vr_cpu cpu v v' : reachable n v -> set_current_cpu cpu v = Some v' -> reachable n v'
| vr_attach slot dev v : reachable n v -> reachable n (attach_virtio (R:=R) slot dev v).2
| vr_attach_next dev v : reachable n v -> reachable n (attach_virtio_next (R:=R) dev v).2
| vr_service v (r : R) v' r' : reachable n v -> service_virtio v r = Some (v', r') -> reachable n v'
| vr_update cntpct v v' : reachable n v -> update_irqs cntpct v = Some v' -> reachable n v'.

Lemma reachable_wf n v : reachable n v -> virt_wf n v.
Proof.
  induction 1 as [now_secs v Hv|addr sz v _ W|addr sz x v _ W|f v _ W|f v v' _ W Hf E|id d d' v _ W Hd Hk Hne|cpu v v' _ W E
    |slot dev v _ W|dev v _ W|v r v' r' _ W E|cntpct v v' _ W E].
  - assert (exists g, gic.with_cpus n = Some g) as [g Hg].
    { unfold with_cpus in Hv. destruct (gic.with_cpus n) as [g|]; [by exists g|done]. }
    rewrite (with_cpus_new _ _ _ Hg) in Hv. injection Hv as <-. by apply new_virt_wf.
  - by apply bus_read_wf.
  - by apply bus_write_wf.
  - destruct W as [H1 H2 H3 H4 H5 H6 H7 H8 H9]. split; try done. unfold update. cbn [timers]. by rewrite length_alter.
  - destruct (gic_mut_wf n f v W Hf) as (g & g' & _ & _ & _ & _ & E' & W'). rewrite E' in E. by injection E as <-.
  - eapply set_dev_wf; [done..|]. by intros ->.
  - destruct (decide (cpu < n)%nat) as [Hlt|Hge].
    + destruct (set_current_cpu_wf n cpu v W Hlt) as (v2 & E2 & W2 & _). rewrite E2 in E. by injection E as <-.
    + unfold set_current_cpu in E. rewrite (vw_timers _ _ W) in E. destruct (Nat.eqb_spec cpu (cur v)); [by injection E as <-|].
      destruct (Nat.ltb_spec cpu n); [lia|done].
  - by apply attach_virtio_wf.
  - by apply attach_virtio_next_wf.
  - by eapply service_virtio_wf.
  - destruct (update_irqs_drives n cntpct v W) as (uart & rtc & gpio & g & _ & _ & _ & Hg & Wg & E'). rewrite E' in E. injection E as <-.
    unfold the_gic in Hg. destruct (bus.device_of (bus v) (gic_id v)) as [[]|] eqn:Hd; try done. injection Hg as ->.
    eapply set_dev_wf; [done|exact Hd|done|]. intros _ g1 [= <-]. by apply drives_wf.
Qed.

(** C13: A platform of 1 to 16 cores can be built (no two regions overlap), and
    in every state it can reach no [unwrap] or [expect] of the platform fails:
    the lines can be updated, the line of every core read, any of its cores
    made current, and each of the 32 slots has its transport. *)
Theorem platform_never_panics n :
  (forall now_secs, (1 <= n <= 16)%nat -> is_Some (with_cpus (D:=D) now_secs n))
  /\ forall v, reachable n v ->
       (forall cntpct, is_Some (update_irqs cntpct v))
       /\ (forall cpu, (cpu < n)%nat -> is_Some (irq_line_of cpu v) /\ is_Some (set_current_cpu cpu v))
       /\ is_Some (the_timer v)
       /\ (forall slot, 0 <= slot < 32 -> is_Some (virtio_at slot v)).
Proof.
  split.
  - intros now_secs Hn. destruct (with_cpus_wf n Hn) as (g & Hg & _). rewrite (with_cpus_new _ _ _ Hg). by eexists.
  - intros v Hv. apply reachable_wf in Hv as W. split_and!.
    + intros cntpct. destruct (update_irqs_drives n cntpct v W) as (? & ? & ? & ? & _ & _ & _ & _ & _ & ->). by eexists.
    + intros cpu Hc. split.
      * unfold irq_line_of. destruct (vw_gic _ _ W) as (g & -> & Wg). cbn [mbind option_bind]. unfold gic.irq_line_of.
        destruct (deliverable_some n g cpu Wg Hc) as [x ->]. by eexists.
      * destruct (set_current_cpu_wf n cpu v W Hc) as (v' & -> & _). by eexists.
    + unfold the_timer. apply lookup_lt_is_Some_2. rewrite (vw_timers _ _ W). apply W.
    + intros slot Hs. destruct (virtio_at_slot n v slot W Hs) as (? & t & _ & _ & ->). by eexists.
Qed.

(** ** Attaching a device *)

Lemma find_down (p : Z -> bool) :
  match List.find p slots_down with
  | Some k => 0 <= k < 32 /\ p k = true /\ forall j, k < j < 32 -> p j = false
  | None => forall j, 0 <= j < 32 -> p j = false
  end.
Proof.
  assert (forall m, (m <= 32)%nat -> match List.find p (rev (seqZ 0 (Z.of_nat m))) with
    | Some k => 0 <= k < Z.of_nat m /\ p k = true /\ forall j, k < j < Z.of_nat m -> p j = false
    | None => forall j, 0 <= j < Z.of_nat m -> p j = false
    end) as Hm; [|exact (Hm 32%nat ltac:(lia))].
  induction m as [|m IH]; intros Hm; [intros j Hj; lia|].
  replace (Z.of_nat (S m)) with (Z.of_nat m + 1) by lia. rewrite seqZ_app, rev_app_distr by lia.
  change (seqZ (0 + Z.of_nat m) 1) with [0 + Z.of_nat m]. cbn [rev app List.find]. rewrite Z.add_0_l.
  destruct (p (Z.of_nat m)) eqn:E; [split_and!; [lia|lia|done|]; intros j Hj; lia|].
  specialize (IH ltac:(lia)). destruct (List.find p _) as [k|].
  - destruct IH as (Hk & Hp & Hall). split_and!; [lia|lia|done|]. intros j Hj. destruct (decide (j = Z.of_nat m)) as [->|]; [done|]. apply Hall. lia.
  - intros j Hj. destruct (decide (j = Z.of_nat m)) as [->|]; [done|]. apply IH. lia.
Qed.

(** C0: [attach_virtio_next] takes the highest free slot: all above it are
    occupied; the device is there afterwards, behind a reset transport, and
    every other slot is as it was. It fails only when no slot is free. *)
Theorem attach_next_highest n v dev :
  virt_wf n v ->
  match attach_virtio_next (R:=R) dev v with
  | (Ok k, v') => 0 <= k < 32 /\ slot_free v k = true /\ (forall j, k < j < 32 -> slot_free v j = false)
      /\ (exists t, virtio_at k v' = Some t /\ mmio.dev t = Some (mmio.vd_reset (R:=R) dev) /\ mmio.status t = 0)
      /\ forall j, 0 <= j < 32 -> j <> k -> virtio_at j v' = virtio_at j v
  | (Err e, v') => e = Full /\ v' = v /\ forall j, 0 <= j < 32 -> slot_free v j = false
  end.
Proof.
  intros W. unfold attach_virtio_next. pose proof (find_down (slot_free v)) as Hf. destruct (List.find _ _) as [k|]; [|done].
  destruct Hf as (Hk & Hfree & Hall). unfold attach_virtio. pose proof Hfree as Hfree'. unfold slot_free in Hfree'.
  destruct (virtio_at k v) as [t|] eqn:Ht; [|done]. destruct (mmio.dev t) eqn:Hd; [done|].
  destruct (set_virtio_spec n v k (mmio.set_device (R:=R) (Some dev) t) W Hk) as (_ & Hat & Hother).
  split_and!; [lia|lia|done|done| |done]. exists (mmio.set_device (R:=R) (Some dev) t). split_and!; [done|reflexivity|reflexivity].
Qed.
End proofs.
End platform.

(** * A concrete platform

    A platform of two cores with a block device, on which the theorems about
    the board apply. *)

Module platrun.
Import virt platform.

Abbreviation disk := (blk.VirtioBlk blk.MemBackend).
#[local] Existing Instances blk.mem_backend blk.blk_device.

Definition gic2 : gic.Gic := default (gic.MkGic [] [] 0 [] 0) (gic.with_cpus 2).
Definition board : Virt disk := new_virt gic2 0 2.

Lemma board_new : with_cpus 0 2 = Some board.
Proof. apply with_cpus_new. reflexivity. Qed.

Lemma board_reachable : reachable (R:=VecRam) 2 board.
Proof. exact (vr_new 2 0 board board_new). Qed.

Lemma board_wf : virt_wf 2 board.
Proof. by apply new_virt_wf. Qed.

Lemma platform_never_panics_witness :
  is_Some (with_cpus (D:=disk) 0 2) /\ is_Some (update_irqs 5 board) /\ is_Some (irq_line_of 1 board).
Proof.
  destruct (platform_never_panics (R:=VecRam) (D:=disk) 2) as [Hnew Hreach]. split; [apply Hnew; lia|].
  destruct (Hreach board board_reachable) as (Hu & Hl & _). split; [apply Hu|apply Hl; lia].
Defined.

(** The virtual timer of the first core has expired. *)
Definition expired : Virt disk := board <| timers ::= alter (fun t => timer.set_cntv_ctl 1 t) 0%nat |>.

Lemma expired_wf : virt_wf 2 expired.
Proof. apply (reachable_wf (R:=VecRam)), (vr_timer (R:=VecRam) 2 (timer.set_cntv_ctl 1) board), board_reachable. Qed.

Lemma update_irqs_levels_witness :
  exists v' g', update_irqs 5 expired = Some v' /\ the_gic v' = Some g'
    /\ line_level g' 0 map.PPI_VTIMER = Some true /\ line_level g' 1 map.PPI_VTIMER = Some false
    /\ line_level g' 0 (map.SPI_BASE + map.UART_SPI) = Some false.
Proof.
  destruct (update_irqs_levels 2 5 expired expired_wf) as (v' & g & g' & uart & rtc & gpio & Hv & _ & _ & Hg & Hu & _ & _ & Ht & Hul & _).
  exists v', g'. split_and!; [exact Hv|exact Hg| | |].
  - destruct (Ht 0%nat (timer.set_cntv_ctl 1 timer.timer_default) eq_refl) as [-> _]. reflexivity.
  - destruct (Ht 1%nat timer.timer_default eq_refl) as [-> _]. reflexivity.
  - rewrite Hul. assert (uart = pl011.uart_new) as -> by (vm_compute in Hu; by injection Hu as <-). reflexivity.
Defined.

(** The first device goes to the last slot. *)
Lemma attach_next_highest_witness :
  (attach_virtio_next (R:=VecRam) (blk.blk_new (blk.mem_new 512) blk.blk_config_default) board).1 = Ok 31
  /\ (forall j, 31 < j < 32 -> slot_free board j = false).
Proof.
  pose proof (attach_next_highest (R:=VecRam) 2 board (blk.blk_new (blk.mem_new 512) blk.blk_config_default) board_wf) as H.
  assert ((attach_virtio_next (R:=VecRam) (blk.blk_new (blk.mem_new 512) blk.blk_config_default) board).1 = Ok 31) as E by (vm_compute; reflexivity).
  split; [exact E|]. destruct (attach_virtio_next _ _) as [r v']. cbn [fst] in E. subst r. apply H.
Defined.
End platrun.
