(* ===== verification/NetWire.v ===== *)
(** * Wire formats (crates/vetro-net/src/wire.rs)

    Ethernet II, ARP, IPv4, ICMP, UDP and TCP as the virtual gateway reads and
    writes them, with the Internet checksum. An IPv4 address is its 32-bit
    value; the outer [option] of a parser is a panic (an index or a slice out of
    range), the inner one its refusal. *)

From Stdlib Require Import ZArith Lia Bool.
From stdpp Require Import base list numbers strings.
From S2P Require Import Prelude SnapWire SnapCodec.
Local Open Scope Z_scope.
Local Open Scope vetro_scope.

Module wire.

Definition ETHERTYPE_IPV4 : Z := 0x0800.
Definition ETHERTYPE_ARP : Z := 0x0806.
Definition ETHERTYPE_IPV6 : Z := 0x86dd.
Definition PROTO_ICMP : Z := 1.
Definition PROTO_TCP : Z := 6.
Definition PROTO_UDP : Z := 17.
Definition ETH_HEADER_LEN : nat := 14.
Definition IPV4_HEADER_LEN : nat := 20.
Definition UDP_HEADER_LEN : nat := 8.
Definition TCP_HEADER_LEN : nat := 20.

(** ** Bytes *)

Definition to_be (n : nat) (v : Z) : list Z := rev (to_le n v).
Definition from_be (l : list Z) : Z := from_le (rev l).

(** [&b[from..to]]. *)
Definition slice (b : list Z) (from to : nat) : option (list Z) :=
  if (from <=? to)%nat && (to <=? length b)%nat then Some (take (to - from) (drop from b)) else None.

(** [&b[from..]]. *)
Definition slice_from (b : list Z) (from : nat) : option (list Z) :=
  if (from <=? length b)%nat then Some (drop from b) else None.

Definition be16 (b : list Z) (at_ : nat) : option Z := x ← b !! at_; y ← b !! (at_ + 1)%nat; Some (from_be [x; y]).
Definition be32 (b : list Z) (at_ : nat) : option Z :=
  x ← b !! at_; y ← b !! (at_ + 1)%nat; z ← b !! (at_ + 2)%nat; t ← b !! (at_ + 3)%nat; Some (from_be [x; y; z; t]).
Definition ip_at (b : list Z) (at_ : nat) : option Z := be32 b at_.

(** The address of an interface: its six bytes. *)
Definition Mac : Type := list Z.
Definition BROADCAST : Mac := replicate 6 0xff.
Definition ZERO : Mac := replicate 6 0.
Definition is_broadcast (m : Mac) : bool := bool_decide (m = BROADCAST).
Definition is_multicast (m : Mac) : option bool := b ← m !! O; Some (negb (Z.land b 1 =? 0)).
Definition mac_at (b : list Z) (at_ : nat) : option Mac := slice b at_ (at_ + 6).

Definition octets (a : Z) : list Z := to_be 4 a.

(** ** The Internet checksum (RFC 1071) *)

Fixpoint sum_words (data : list Z) (acc : Z) : Z :=
  match data with
  | [] => acc
  | [last] => u32 (acc + Z.shiftl last 8)
  | x :: y :: data => sum_words data (u32 (acc + from_be [x; y]))
  end.

(** The loop of [fold]; two turns bring any 32-bit sum under 2^16
    ([fold_turns]). *)
Fixpoint fold_loop (turns : nat) (acc : Z) : Z :=
  match turns with
  | O => acc
  | S turns => if 0xffff <? acc then fold_loop turns (Z.land acc 0xffff + Z.shiftr acc 16) else acc
  end.

Definition fold (acc : Z) : Z := u16 (Z.lnot (u16 (fold_loop 2 acc))).

Definition checksum (data : list Z) : Z := fold (sum_words data 0).

Definition transport_checksum (src dst proto : Z) (segment : list Z) : Z :=
  let acc := sum_words (octets src) 0 in
  let acc := sum_words (octets dst) acc in
  let acc := u32 (acc + proto) in
  let acc := u32 (acc + u32 (Z.of_nat (length segment))) in
  fold (sum_words segment acc).

(** ** Ethernet *)

Record EthHeader := MkEth { eth_dst : Mac; eth_src : Mac; ethertype : Z }.

Definition parse_eth (frame : list Z) : option (option (EthHeader * list Z)) :=
  if (length frame <? ETH_HEADER_LEN)%nat then Some None else
  dst ← mac_at frame 0;
  src ← mac_at frame 6;
  ty ← be16 frame 12;
  payload ← slice_from frame ETH_HEADER_LEN;
  Some (Some (MkEth dst src ty, payload)).

Definition build_eth (dst src : Mac) (ty : Z) (payload : list Z) : list Z := dst ++ src ++ to_be 2 ty ++ payload.

(** ** ARP *)

Definition ARP_REQUEST : Z := 1.
Definition ARP_REPLY : Z := 2.

Record Arp := MkArp { arp_op : Z; sender_mac : Mac; sender_ip : Z; target_mac : Mac; target_ip : Z }.

Definition parse_arp (p : list Z) : option (option Arp) :=
  if (length p <? 28)%nat then Some None else
  htype ← be16 p 0;
  if negb (htype =? 1) then Some None else
  ptype ← be16 p 2;
  if negb (ptype =? ETHERTYPE_IPV4) then Some None else
  hlen ← p !! 4%nat;
  if negb (hlen =? 6) then Some None else
  plen ← p !! 5%nat;
  if negb (plen =? 4) then Some None else
  op ← be16 p 6;
  smac ← mac_at p 8;
  sip ← ip_at p 14;
  tmac ← mac_at p 18;
  tip ← ip_at p 24;
  Some (Some (MkArp op smac sip tmac tip)).

Definition build_arp (a : Arp) : list Z :=
  to_be 2 1 ++ to_be 2 ETHERTYPE_IPV4 ++ [6; 4] ++ to_be 2 (arp_op a) ++ sender_mac a ++ octets (sender_ip a)
  ++ target_mac a ++ octets (target_ip a).

(** ** IPv4 *)

Record Ipv4Header := MkIpv4 {
  ip_src : Z;
  ip_dst : Z;
  ip_proto : Z;
  ip_ttl : Z;
  ip_ident : Z;
  fragment : bool;
  ip_checksum_ok : bool;
}.

Definition parse_ipv4 (p : list Z) : option (option (Ipv4Header * list Z)) :=
  if (length p <? IPV4_HEADER_LEN)%nat then Some None else
  b0 ← p !! O;
  if negb (Z.shiftr b0 4 =? 4) then Some None else
  let ihl := (Z.to_nat (Z.land b0 0x0f) * 4)%nat in
  total ← be16 p 2;
  let total := Z.to_nat total in
  if (ihl <? IPV4_HEADER_LEN)%nat || (total <? ihl)%nat || (length p <? total)%nat then Some None else
  flags_frag ← be16 p 6;
  src ← ip_at p 12;
  dst ← ip_at p 16;
  proto ← p !! 9%nat;
  ttl ← p !! 8%nat;
  ident ← be16 p 4;
  hdr ← slice p 0 ihl;
  payload ← slice p ihl total;
  Some (Some (MkIpv4 src dst proto ttl ident (negb (Z.land flags_frag 0x3fff =? 0)) (checksum hdr =? 0), payload)).

Definition build_ipv4 (src dst proto ident : Z) (payload : list Z) : list Z :=
  let total := Z.of_nat (IPV4_HEADER_LEN + length payload) in
  let p := [0x45; 0] ++ to_be 2 (u16 total) ++ to_be 2 ident ++ to_be 2 0x4000 ++ [64; proto] ++ [0; 0] ++ octets src ++ octets dst in
  overwrite 10 (to_be 2 (checksum p)) p ++ payload.

(** ** ICMP *)

Definition ICMP_ECHO_REPLY : Z := 0.
Definition ICMP_DEST_UNREACHABLE : Z := 3.
Definition ICMP_ECHO_REQUEST : Z := 8.
Definition ICMP_PORT_UNREACHABLE : Z := 3.

Definition build_icmp (ty code : Z) (rest_of_header data : list Z) : list Z :=
  let m := [ty; code; 0; 0] ++ rest_of_header ++ data in
  overwrite 2 (to_be 2 (checksum m)) m.

(** ** UDP *)

Record UdpHeader := MkUdp { udp_src_port : Z; udp_dst_port : Z; udp_checksum_ok : bool }.

Definition parse_udp (src dst : Z) (s : list Z) : option (option (UdpHeader * list Z)) :=
  if (length s <? UDP_HEADER_LEN)%nat then Some None else
  len ← be16 s 4;
  let len := Z.to_nat len in
  if (len <? UDP_HEADER_LEN)%nat || (length s <? len)%nat then Some None else
  s ← slice s 0 len;
  c ← be16 s 6;
  sport ← be16 s 0;
  dport ← be16 s 2;
  payload ← slice_from s UDP_HEADER_LEN;
  Some (Some (MkUdp sport dport ((c =? 0) || (transport_checksum src dst PROTO_UDP s =? 0)), payload)).

Definition build_udp (src sport dst dport : Z) (payload : list Z) : list Z :=
  let len := Z.of_nat (UDP_HEADER_LEN + length payload) in
  let s := to_be 2 sport ++ to_be 2 dport ++ to_be 2 (u16 len) ++ [0; 0] ++ payload in
  let c := transport_checksum src dst PROTO_UDP s in
  overwrite 6 (to_be 2 (if c =? 0 then 0xffff else c)) s.

(** ** TCP *)

Definition TCP_FIN : Z := 0x01.
Definition TCP_SYN : Z := 0x02.
Definition TCP_RST : Z := 0x04.
Definition TCP_PSH : Z := 0x08.
Definition TCP_ACK : Z := 0x10.

Record TcpHeader := MkTcpHeader {
  src_port : Z;
  dst_port : Z;
  h_seq : Z;
  h_ack : Z;
  h_flags : Z;
  h_window : Z;
  h_mss : option Z;
  checksum_ok : bool;
}.

Definition has (h : TcpHeader) (flag : Z) : bool := negb (Z.land (h_flags h) flag =? 0).

(** The loop over the options; a turn consumes at least a byte of [opts]. *)
Fixpoint options (fuel : nat) (opts : list Z) (mss : option Z) : option (option Z) :=
  match opts with
  | [] => Some mss
  | kind :: rest =>
      match fuel with
      | O => None
      | S fuel =>
          if kind =? 0 then Some mss
          else if kind =? 1 then options fuel rest mss
          else match rest with
               | [] => Some mss
               | len :: _ =>
                   let len := Z.to_nat len in
                   if (len <? 2)%nat || (length opts <? len)%nat then Some mss
                   else
                     mss ← (if (kind =? 2) && (len =? 4)%nat then v ← be16 opts 2; Some (Some v) else Some mss);
                     opts ← slice_from opts len;
                     options fuel opts mss
               end
      end
  end.

Definition parse_tcp (src dst : Z) (s : list Z) : option (option (TcpHeader * list Z)) :=
  if (length s <? TCP_HEADER_LEN)%nat then Some None else
  b12 ← s !! 12%nat;
  let off := (Z.to_nat (Z.shiftr b12 4) * 4)%nat in
  if (off <? TCP_HEADER_LEN)%nat || (length s <? off)%nat then Some None else
  opts ← slice s TCP_HEADER_LEN off;
  mss ← options (length opts) opts None;
  sport ← be16 s 0;
  dport ← be16 s 2;
  seq ← be32 s 4;
  ack ← be32 s 8;
  flags ← s !! 13%nat;
  window ← be16 s 14;
  payload ← slice_from s off;
  Some (Some (MkTcpHeader sport dport seq ack flags window mss (transport_checksum src dst PROTO_TCP s =? 0), payload)).

Record TcpOut := MkTcpOut {
  t_src : Z;
  t_src_port : Z;
  t_dst : Z;
  t_dst_port : Z;
  t_seq : Z;
  t_ack : Z;
  t_flags : Z;
  t_window : Z;
  t_mss : option Z;
  t_payload : list Z;
}.

Definition build_tcp (t : TcpOut) : list Z :=
  let opt_len := match t_mss t with Some _ => 4%nat | None => O end in
  let hdr := (TCP_HEADER_LEN + opt_len)%nat in
  let s := to_be 2 (t_src_port t) ++ to_be 2 (t_dst_port t) ++ to_be 4 (t_seq t) ++ to_be 4 (t_ack t)
           ++ [u8 (Z.shiftl (Z.of_nat (hdr / 4)) 4); t_flags t] ++ to_be 2 (t_window t) ++ [0; 0; 0; 0]
           ++ (match t_mss t with Some mss => [2; 4] ++ to_be 2 mss | None => [] end)
           ++ t_payload t in
  let c := transport_checksum (t_src t) (t_dst t) PROTO_TCP s in
  overwrite 16 (to_be 2 c) s.

End wire.

Import wire.

#[local] Arguments from_be : simpl never.
#[local] Arguments to_be : simpl never.
#[local] Arguments checksum : simpl never.
#[local] Arguments transport_checksum : simpl never.

(** ** Big-endian bytes *)

Lemma length_to_be n v : length (to_be n v) = n.
Proof. unfold to_be. by rewrite length_rev, length_to_le. Qed.

Lemma from_to_be n v : from_be (to_be n v) = v mod 2 ^ (8 * Z.of_nat n).
Proof. unfold from_be, to_be. rewrite rev_involutive. apply from_to_le. Qed.

Lemma from_to_be_16 v : is_u 16 v -> from_be (to_be 2 v) = v.
Proof. intros H. rewrite from_to_be. by apply mod_is_u. Qed.

Lemma from_to_be_32 v : is_u 32 v -> from_be (to_be 4 v) = v.
Proof. intros H. rewrite from_to_be. by apply mod_is_u. Qed.

Lemma bytes_ok_to_be n v : bytes_ok (to_be n v).
Proof. unfold to_be, bytes_ok. apply Forall_rev, bytes_ok_to_le. Qed.

Lemma from_be_2 x y : from_be [x; y] = 256 * x + y.
Proof. unfold from_be. cbn. lia. Qed.

(** ** The checksum *)

(** The sum of the 16-bit words, not reduced. *)
Fixpoint wsum (data : list Z) : Z :=
  match data with
  | [] => 0
  | [last] => 256 * last
  | x :: y :: data => 256 * x + y + wsum data
  end.

Lemma pair_ind {A} (P : list A -> Prop) :
  P [] -> (forall x, P [x]) -> (forall x y l, P l -> P (x :: y :: l)) -> forall l, P l.
Proof.
  intros H0 H1 H2. enough (forall l, P l /\ forall x, P (x :: l)) by firstorder.
  induction l as [|x l [IH1 IH2]]; split; auto.
Qed.

Lemma wsum_bound data : bytes_ok data -> 0 <= wsum data <= 32768 * (Z.of_nat (length data) + 1).
Proof.
  induction data as [|x|x y l IH] using pair_ind; intros H; cbn [wsum length].
  - lia.
  - inversion_clear H. unfold is_u in *. lia.
  - inversion_clear H as [|? ? Hx H']. inversion_clear H' as [|? ? Hy Hl]. specialize (IH Hl). unfold is_u in *. lia.
Qed.

Lemma sum_words_wsum data acc :
  bytes_ok data -> 0 <= acc -> acc + wsum data < 2 ^ 32 -> sum_words data acc = acc + wsum data.
Proof.
  revert acc. induction data as [|x|x y l IH] using pair_ind; intros acc H Ha Hs; cbn [wsum sum_words] in *.
  - lia.
  - inversion_clear H. unfold is_u, u32 in *. rewrite Z.shiftl_mul_pow2 by lia. rewrite Z.mod_small; lia.
  - inversion_clear H as [|? ? Hx H']. inversion_clear H' as [|? ? Hy Hl]. pose proof (wsum_bound l Hl).
    rewrite from_be_2. unfold is_u, u32 in *. rewrite Z.mod_small by lia. rewrite IH by (done || lia). lia.
Qed.

Lemma wsum_app a b : Nat.even (length a) = true -> wsum (a ++ b) = wsum a + wsum b.
Proof.
  induction a as [|x|x y l IH] using pair_ind; intros H; cbn [wsum app] in *; [done|done|].
  cbn in H. rewrite IH by done. lia.
Qed.

Lemma fold_turn acc :
  0 <= acc -> Z.land acc 0xffff + Z.shiftr acc 16 = acc - 65535 * (acc / 2 ^ 16).
Proof.
  intros H. change 0xffff with (2 ^ 16 - 1). rewrite land_ones_mod by lia. rewrite Z.shiftr_div_pow2 by lia.
  pose proof (Z.div_mod acc (2 ^ 16)). lia.
Qed.

Lemma fold_turns acc :
  0 <= acc < 2 ^ 32 ->
  0 <= fold_loop 2 acc <= 65535 /\ (65535 | acc - fold_loop 2 acc) /\ (fold_loop 2 acc = 0 <-> acc = 0).
Proof.
  intros H. cbn [fold_loop]. destruct (Z.ltb_spec 0xffff acc) as [H1|H1].
  2: { split_and!; [lia|lia| |lia]. exists 0. lia. }
  rewrite !fold_turn by lia.
  assert (1 <= acc / 2 ^ 16 < 2 ^ 16) as Hq by (split; [apply Z.div_le_lower_bound|apply Z.div_lt_upper_bound]; lia).
  pose proof (Z.div_mod acc (2 ^ 16)) as Hdm. pose proof (Z.mod_pos_bound acc (2 ^ 16)) as Hm.
  set (q := acc / 2 ^ 16) in *. set (acc1 := acc - 65535 * q). assert (acc1 = acc mod 2 ^ 16 + q) as E by lia.
  destruct (Z.ltb_spec 0xffff acc1) as [H2|H2].
  - rewrite fold_turn by lia. assert (acc1 / 2 ^ 16 = 1) as -> by (symmetry; apply (Z.div_unique _ _ _ (acc1 - 2 ^ 16)); lia).
    split_and!; [lia|lia| |lia]. exists (q + 1). lia.
  - split_and!; [lia|lia| |lia]. exists q. lia.
Qed.

Lemma fold_value acc : 0 <= acc < 2 ^ 32 -> fold acc = 65535 - fold_loop 2 acc.
Proof.
  intros H. destruct (fold_turns acc H) as (Hr & _). unfold fold, u16. rewrite (Z.mod_small (fold_loop 2 acc)) by lia.
  unfold Z.lnot. symmetry. apply (Z.mod_unique _ _ (-1)); lia.
Qed.

(** Adding the checksum to the sum gives a sum whose checksum is 0; so does
    adding 0xffff when it is 0. *)
Lemma fold_cancel acc c :
  0 <= acc -> acc + 65535 < 2 ^ 32 -> c = fold acc \/ (fold acc = 0 /\ c = 65535) -> fold (acc + c) = 0.
Proof.
  intros H0 H1 Hc. destruct (fold_turns acc) as (Hr & [k Hk] & Hz); [lia|].
  pose proof (fold_value acc ltac:(lia)) as Hf.
  assert (0 < acc + c <= acc + 65535 /\ (65535 | acc + c)) as [Hb [j Hj]].
  { destruct Hc as [->|[E ->]]; rewrite Hf in *; (split; [lia|]).
    - exists (k + 1). lia.
    - exists (k + 2). lia. }
  destruct (fold_turns (acc + c)) as (Hr' & [k' Hk'] & Hz'); [lia|].
  rewrite fold_value by lia. assert (fold_loop 2 (acc + c) = 65535 * (j - k')) as E by lia.
  assert (j - k' = 1) as Ej; [|lia]. assert (fold_loop 2 (acc + c) <> 0) by (rewrite Hz'; lia). nia.
Qed.

Lemma fold_is_u16 acc : is_u 16 (fold acc).
Proof. apply is_u_u16. Qed.

(** A message [a ++ field ++ b] whose two-byte field sits at an even offset. *)
Lemma field_sum a c b acc :
  Nat.even (length a) = true -> bytes_ok a -> bytes_ok b -> is_u 16 c -> 0 <= acc ->
  acc + 32768 * (Z.of_nat (length a + length b) + 4) < 2 ^ 32 ->
  sum_words (a ++ to_be 2 c ++ b) acc = sum_words (a ++ [0; 0] ++ b) acc + c
  /\ 0 <= sum_words (a ++ [0; 0] ++ b) acc /\ sum_words (a ++ [0; 0] ++ b) acc + 65535 < 2 ^ 32.
Proof.
  intros He Ha Hb Hc Hacc Hs. pose proof (wsum_bound a Ha). pose proof (wsum_bound b Hb).
  assert (wsum (to_be 2 c) = c) as Ec.
  { pose proof (from_to_be_16 c Hc) as E. pose proof (length_to_be 2 c) as El.
    destruct (to_be 2 c) as [|x [|y [|]]]; try discriminate El. rewrite from_be_2 in E. cbn [wsum]. lia. }
  assert (forall w, length w = 2%nat -> wsum (a ++ w ++ b) = wsum a + wsum w + wsum b) as E.
  { intros w Hw. rewrite !wsum_app; [lia|by rewrite Hw|done]. }
  assert (is_u 16 c) as Hc' by done. unfold is_u in Hc'.
  assert (0 <= wsum [0; 0] <= 0) as H00 by (cbn; lia).
  rewrite !sum_words_wsum; rewrite ?E by (by rewrite ?length_to_be); rewrite ?Ec; try lia.
  - apply Forall_app; split; [done|]. apply Forall_app; split; [|done]. repeat constructor; done.
  - apply Forall_app; split; [done|]. apply Forall_app; split; [apply bytes_ok_to_be|done].
Qed.

Definition valid_ip (a : Z) : Prop := is_u 32 a.
Definition valid_mac (m : Mac) : Prop := length m = 6%nat /\ bytes_ok m.

(** The sum of the pseudo-header of TCP and UDP. *)
Definition pseudo (src dst proto len : Z) : Z := wsum (octets src) + wsum (octets dst) + proto + len.

Lemma pseudo_sum src dst proto segment :
  is_u 8 proto -> Z.of_nat (length segment) < 2 ^ 16 ->
  transport_checksum src dst proto segment = fold (sum_words segment (pseudo src dst proto (Z.of_nat (length segment))))
  /\ 0 <= pseudo src dst proto (Z.of_nat (length segment)) < 500000.
Proof.
  intros Hp Hl. pose proof (wsum_bound (octets src) (bytes_ok_to_be 4 _)) as Hs. pose proof (wsum_bound (octets dst) (bytes_ok_to_be 4 _)) as Hd.
  unfold octets in *. rewrite length_to_be in *. unfold is_u in Hp. unfold pseudo, octets. split; [|lia].
  unfold transport_checksum, octets. rewrite (sum_words_wsum (to_be 4 src)) by (apply bytes_ok_to_be || lia).
  rewrite (sum_words_wsum (to_be 4 dst)) by (apply bytes_ok_to_be || lia).
  assert (forall x, 0 <= x < 500000 -> u32 x = x) as M by (intros; apply Z.mod_small; lia).
  rewrite (M (Z.of_nat _)), (M (_ + proto)), M by lia. f_equal; lia || (f_equal; lia).
Qed.

(** The checksum of a segment whose field holds the checksum of the segment
    with a zero field is 0. *)
Lemma transport_field src dst proto a b c :
  is_u 8 proto -> Nat.even (length a) = true -> bytes_ok a -> bytes_ok b -> Z.of_nat (length a + length b + 2) < 2 ^ 16 ->
  let c0 := transport_checksum src dst proto (a ++ [0; 0] ++ b) in
  c = c0 \/ (c0 = 0 /\ c = 0xffff) ->
  transport_checksum src dst proto (a ++ to_be 2 c ++ b) = 0.
Proof.
  intros Hp He Ha Hb Hl c0 Hc.
  assert (forall w, length w = 2%nat -> length (a ++ w ++ b) = (length a + length b + 2)%nat) as El.
  { intros w Hw. rewrite !length_app, Hw. lia. }
  assert (length (a ++ [0; 0] ++ b) = (length a + length b + 2)%nat) as El0 by by apply El.
  assert (length (a ++ to_be 2 c ++ b) = (length a + length b + 2)%nat) as Elc by by apply El, length_to_be.
  destruct (pseudo_sum src dst proto (a ++ [0; 0] ++ b) Hp) as [E0 B]; [by rewrite El0|].
  destruct (pseudo_sum src dst proto (a ++ to_be 2 c ++ b) Hp) as [E1 _]; [by rewrite Elc|].
  assert (is_u 16 c) as Hu by (destruct Hc as [->|[_ ->]]; [apply fold_is_u16|done]).
  rewrite E1, Elc. subst c0. rewrite E0, El0 in Hc. rewrite El0 in B.
  destruct (field_sum a c b (pseudo src dst proto (Z.of_nat (length a + length b + 2)))) as (-> & F0 & F1); try done; try lia.
  by apply fold_cancel.
Qed.

Lemma checksum_field a b :
  Nat.even (length a) = true -> bytes_ok a -> bytes_ok b -> Z.of_nat (length a + length b) < 2 ^ 16 ->
  checksum (a ++ to_be 2 (checksum (a ++ [0; 0] ++ b)) ++ b) = 0.
Proof.
  intros He Ha Hb Hl. unfold checksum at 1. set (c := checksum _).
  destruct (field_sum a c b 0) as (-> & F0 & F1); try done; try lia; [apply fold_is_u16|].
  apply fold_cancel; [done..|by left].
Qed.

(** ** Round trips *)

Lemma to_be_2_bytes v : is_u 16 v -> exists x y, to_be 2 v = [x; y] /\ from_be [x; y] = v /\ is_u 8 x /\ is_u 8 y.
Proof.
  intros Hv. pose proof (from_to_be_16 v Hv) as E. pose proof (length_to_be 2 v) as El. pose proof (bytes_ok_to_be 2 v) as B.
  destruct (to_be 2 v) as [|x [|y [|]]]; try discriminate El. exists x, y. inversion_clear B as [|? ? ? B']. inversion_clear B'. done.
Qed.

Lemma to_be_4_bytes v : is_u 32 v -> exists x y z t, to_be 4 v = [x; y; z; t] /\ from_be [x; y; z; t] = v.
Proof.
  intros Hv. pose proof (from_to_be_32 v Hv) as E. pose proof (length_to_be 4 v) as El.
  destruct (to_be 4 v) as [|x [|y [|z [|t [|]]]]]; try discriminate El. by exists x, y, z, t.
Qed.

(** Replaces the bytes of a field by variables. *)
Ltac spell v H :=
  first [ let x := fresh "x" in let y := fresh "y" in let E := fresh "E" in let F := fresh "F" in
          destruct (to_be_2_bytes v H) as (x & y & E & F & _); rewrite E in *; clear E
        | let x := fresh "x" in let y := fresh "y" in let z := fresh "z" in let t := fresh "t" in let E := fresh "E" in let F := fresh "F" in
          destruct (to_be_4_bytes v H) as (x & y & z & t & E & F); rewrite E in *; clear E ].

(** [bytes_ok] of a concatenation of fields. *)
Ltac bytes_tac :=
  unfold bytes_ok, octets; rewrite ?Forall_app; repeat match goal with |- _ /\ _ => split end;
    first [assumption | apply bytes_ok_to_be | repeat (apply Forall_cons_2; [first [assumption | done]|]); apply Forall_nil_2].

(** Evaluates the comparisons of lengths that [lia] decides. *)
Ltac decide_nat :=
  repeat match goal with
         | |- context [(?x <? ?y)%nat] => first [rewrite (proj2 (Nat.ltb_lt x y)) by lia | rewrite (proj2 (Nat.ltb_ge x y)) by lia]
         | |- context [(?x <=? ?y)%nat] => first [rewrite (proj2 (Nat.leb_le x y)) by lia | rewrite (proj2 (Nat.leb_gt x y)) by lia]
         end; cbn [orb andb negb].

Lemma overwrite_field n a b c : length a = n -> overwrite n (to_be 2 c) (a ++ [0; 0] ++ b) = a ++ to_be 2 c ++ b.
Proof. intros <-. apply overwrite_app. by rewrite length_to_be. Qed.

Lemma eth_roundtrip dst src ty payload :
  valid_mac dst -> valid_mac src -> is_u 16 ty ->
  parse_eth (build_eth dst src ty payload) = Some (Some (MkEth dst src ty, payload)).
Proof.
  intros [Ld _] [Ls _] Ht. unfold build_eth. spell ty Ht.
  do 7 (destruct dst as [|? dst]; try discriminate Ld). do 7 (destruct src as [|? src]; try discriminate Ls).
  unfold parse_eth. cbn. by rewrite F.
Qed.

Lemma arp_roundtrip a :
  is_u 16 (arp_op a) -> valid_mac (sender_mac a) -> valid_mac (target_mac a) -> valid_ip (sender_ip a) -> valid_ip (target_ip a) ->
  parse_arp (build_arp a) = Some (Some a).
Proof.
  destruct a as [op smac sip tmac tip]. cbn. intros Ho [Ls _] [Lt _] Hs Ht. unfold build_arp, octets. cbn [arp_op sender_mac sender_ip target_mac target_ip].
  spell op Ho. spell sip Hs. spell tip Ht.
  do 7 (destruct smac as [|? smac]; try discriminate Ls). do 7 (destruct tmac as [|? tmac]; try discriminate Lt).
  change (to_be 2 1) with [0; 1]. change (to_be 2 ETHERTYPE_IPV4) with [8; 0].
  unfold parse_arp. cbn. change (from_be [0; 1]) with 1. change (from_be [8; 0]) with ETHERTYPE_IPV4. cbn. by rewrite F, F0, F1.
Qed.

Lemma ipv4_roundtrip src dst proto ident payload :
  valid_ip src -> valid_ip dst -> is_u 8 proto -> is_u 16 ident -> Z.of_nat (length payload) + 20 < 2 ^ 16 ->
  parse_ipv4 (build_ipv4 src dst proto ident payload) = Some (Some (MkIpv4 src dst proto 64 ident false true, payload)).
Proof.
  intros Hs Hd Hp Hi Hl. unfold build_ipv4.
  set (total := Z.of_nat (IPV4_HEADER_LEN + length payload)).
  assert (is_u 16 total) as Ht by (subst total; unfold is_u, IPV4_HEADER_LEN; lia).
  replace (u16 total) with total by (symmetry; by apply mod_is_u).
  set (a := [0x45; 0] ++ to_be 2 total ++ to_be 2 ident ++ to_be 2 0x4000 ++ [64; proto]).
  set (b := octets src ++ octets dst).
  assert (bytes_ok a /\ bytes_ok b) as [Ba Bb].
  { split; subst a b; bytes_tac. }
  assert (length a = 10%nat /\ length b = 8%nat) as [La Lb] by (subst a b; by rewrite !length_app, ?length_to_be).
  replace ([0x45; 0] ++ to_be 2 total ++ to_be 2 ident ++ to_be 2 0x4000 ++ [64; proto] ++ [0; 0] ++ b)
    with (a ++ [0; 0] ++ b) by (subst a; by rewrite <- !app_assoc).
  pose proof (checksum_field a b) as Hc. rewrite La, Lb in Hc. specialize (Hc eq_refl Ba Bb eq_refl).
  set (c := checksum (a ++ [0; 0] ++ b)) in *. assert (is_u 16 c) as Hu by apply fold_is_u16.
  rewrite (overwrite_field 10 a b c La).
  assert (length (a ++ to_be 2 c ++ b) = 20%nat) as L20 by by rewrite !length_app, length_to_be, La, Lb.
  clearbody c. subst a b. unfold octets in *.
  spell total Ht. spell ident Hi. spell src Hs. spell dst Hd. spell c Hu. change (to_be 2 0x4000) with [0x40; 0] in *.
  cbn [app] in *. unfold parse_ipv4, slice, IPV4_HEADER_LEN in *.
  set (p := 69 :: _). assert (length p = (20 + length payload)%nat) as Ep by done.
  assert (total = Z.of_nat (length p)) as Et by by rewrite Ep. generalize dependent (length p). intros n Ep Et.
  unfold be16, ip_at, be32. subst p. cbn - [Nat.ltb Nat.leb Nat.sub Z.to_nat Z.of_nat].
  rewrite F, F0, F1, F2. clearbody total. rewrite Et, Nat2Z.id. subst n. change (Z.to_nat (Z.land 69 15) * 4)%nat with 20%nat.
  decide_nat. change (from_be [64; 0]) with 0x4000.
  replace (20 + length payload - 20)%nat with (length payload) by lia.
  change (negb (Z.shiftr 69 4 =? 4)) with false. change (20 - 0)%nat with 20%nat. cbn [firstn skipn mbind option_bind].
  rewrite take_0, Hc, drop_0, firstn_all. done.
Qed.

Lemma udp_roundtrip src sport dst dport payload :
  is_u 16 sport -> is_u 16 dport -> bytes_ok payload -> Z.of_nat (length payload) + 8 < 2 ^ 16 ->
  parse_udp src dst (build_udp src sport dst dport payload) = Some (Some (MkUdp sport dport true, payload)).
Proof.
  intros Hs Hd Hp Hl. unfold build_udp. set (len := Z.of_nat (UDP_HEADER_LEN + length payload)).
  assert (is_u 16 len) as Ht by (subst len; unfold is_u, UDP_HEADER_LEN; lia).
  replace (u16 len) with len by (symmetry; by apply mod_is_u).
  set (a := to_be 2 sport ++ to_be 2 dport ++ to_be 2 len).
  assert (bytes_ok a) as Ba by (subst a; bytes_tac).
  assert (length a = 6%nat) as La by (subst a; by rewrite !length_app, ?length_to_be).
  replace (to_be 2 sport ++ to_be 2 dport ++ to_be 2 len ++ [0; 0] ++ payload) with (a ++ [0; 0] ++ payload)
    by (subst a; by rewrite <- !app_assoc).
  set (c0 := transport_checksum _ _ _ _). set (c := if c0 =? 0 then 65535 else c0).
  assert (transport_checksum src dst PROTO_UDP (a ++ to_be 2 c ++ payload) = 0) as Hc.
  { apply transport_field; rewrite ?La; try done; [lia|]. subst c. destruct (Z.eqb_spec c0 0); auto. }
  assert (is_u 16 c) as Hu by (subst c; destruct (c0 =? 0); [done|apply fold_is_u16]).
  rewrite (overwrite_field 6 a payload c La). clearbody c. subst a.
  spell sport Hs. spell dport Hd. spell len Ht. spell c Hu. cbn [app] in *. unfold parse_udp, slice, UDP_HEADER_LEN in *.
  match goal with |- context [(length ?q <? _)%nat] => set (p := q) in * end. assert (length p = (8 + length payload)%nat) as Ep by done.
  assert (len = Z.of_nat (length p)) as Et by by rewrite Ep. generalize dependent (length p). intros n Ep Et.
  unfold be16. subst p. cbn - [Nat.ltb Nat.leb Nat.sub Z.to_nat Z.of_nat].
  rewrite F1. clearbody len. rewrite Et, Nat2Z.id. subst n. decide_nat. cbn [mbind option_bind].
  replace (8 + length payload - 0)%nat with (8 + length payload)%nat by lia. cbn. rewrite !firstn_all, !drop_0.
  by rewrite F, F0, F2, Hc, orb_true_r.
Qed.

Lemma tcp_roundtrip t :
  is_u 16 (t_src_port t) -> is_u 16 (t_dst_port t) -> is_u 32 (t_seq t) -> is_u 32 (t_ack t) -> is_u 8 (t_flags t) ->
  is_u 16 (t_window t) -> (forall m, t_mss t = Some m -> is_u 16 m) -> bytes_ok (t_payload t) ->
  Z.of_nat (length (t_payload t)) + 24 < 2 ^ 16 ->
  parse_tcp (t_src t) (t_dst t) (build_tcp t)
  = Some (Some (MkTcpHeader (t_src_port t) (t_dst_port t) (t_seq t) (t_ack t) (t_flags t) (t_window t) (t_mss t) true, t_payload t)).
Proof.
  destruct t as [src sport dst dport seq ack flags window mss payload]. cbn.
  intros Hs Hd Hq Hk Hf Hw Hm Hp Hl. unfold build_tcp. cbn [t_src t_src_port t_dst t_dst_port t_seq t_ack t_flags t_window t_mss t_payload].
  set (opts := match mss with Some m => [2; 4] ++ to_be 2 m | None => [] end).
  set (off := u8 _).
  set (a := to_be 2 sport ++ to_be 2 dport ++ to_be 4 seq ++ to_be 4 ack ++ [off; flags] ++ to_be 2 window).
  set (b := [0; 0] ++ opts ++ payload).
  assert (length opts <= 4)%nat as Lo by (subst opts; by destruct mss; cbn; rewrite ?length_to_be; lia).
  assert (is_u 8 off) as Hoff by apply is_u_u8.
  assert (bytes_ok a) as Ba by (subst a; bytes_tac).
  assert (bytes_ok opts) as Bo by (subst opts; destruct mss; bytes_tac).
  assert (bytes_ok b) as Bb by (subst b; bytes_tac).
  assert (length a = 16%nat) as La by (subst a; by rewrite !length_app, ?length_to_be).
  assert (length b = (2 + length opts + length payload)%nat) as Lb by (subst b; rewrite !length_app; cbn; lia).
  match goal with |- parse_tcp _ _ (overwrite 16 _ ?s) = _ => replace s with (a ++ [0; 0] ++ b) by (subst a b; by rewrite <- !app_assoc) end.
  set (c := transport_checksum _ _ _ _).
  assert (transport_checksum src dst PROTO_TCP (a ++ to_be 2 c ++ b) = 0) as Hc.
  { apply transport_field; rewrite ?La; try done; [lia|by left]. }
  assert (is_u 16 c) as Hu by apply fold_is_u16.
  rewrite (overwrite_field 16 a b c La). clearbody c. clear Ba Bb La Lb Hoff. subst a b off.
  spell sport Hs. spell dport Hd. spell seq Hq. spell ack Hk. spell window Hw. spell c Hu.
  unfold parse_tcp, slice, TCP_HEADER_LEN in *. subst opts. clear Bo Lo. destruct mss as [m|].
  - specialize (Hm m eq_refl). spell m Hm. cbn [app] in *.
    match goal with |- context [(length ?q <? _)%nat] => set (p := q) in * end. assert (length p = (24 + length payload)%nat) as Ep by done.
    generalize dependent (length p). intros n Ep.
    unfold be16, be32. subst p. change (u8 (Z.shiftl (Z.of_nat ((20 + 4) / 4)) 4)) with 96 in *. cbn - [Nat.ltb Nat.leb Nat.sub].
    change (Z.to_nat (Z.shiftr 96 4) * 4)%nat with 24%nat. subst n. decide_nat. cbn - [Nat.ltb Nat.leb transport_checksum]. unfold be16. cbn.
    rewrite ?take_0, ?drop_0. by rewrite F, F0, F1, F2, F3, F5, Hc.
  - cbn [app] in *. match goal with |- context [(length ?q <? _)%nat] => set (p := q) in * end. assert (length p = (20 + length payload)%nat) as Ep by done.
    generalize dependent (length p). intros n Ep.
    unfold be16, be32. subst p. change (u8 (Z.shiftl (Z.of_nat ((20 + 0) / 4)) 4)) with 80 in *. cbn - [Nat.ltb Nat.leb Nat.sub].
    change (Z.to_nat (Z.shiftr 80 4) * 4)%nat with 20%nat. subst n. decide_nat. cbn - [Nat.ltb Nat.leb transport_checksum].
    rewrite ?take_0, ?drop_0. cbn. by rewrite F, F0, F1, F2, F3, Hc.
Qed.

(** ** Arbitrary input *)

Lemma bind_some {A B} (m : option A) (k : A -> option B) : is_Some m -> (forall a, m = Some a -> is_Some (k a)) -> is_Some (m ≫= k).
Proof. intros [a ->] H. by apply H. Qed.

Lemma lookup_some (b : list Z) i : (i < length b)%nat -> is_Some (b !! i).
Proof. apply lookup_lt_is_Some_2. Qed.

Lemma be16_some b i : (i + 1 < length b)%nat -> is_Some (be16 b i).
Proof. intros H. unfold be16. repeat (apply bind_some; [apply lookup_some; lia|intros ? _]). by eexists. Qed.

Lemma be32_some b i : (i + 3 < length b)%nat -> is_Some (be32 b i).
Proof. intros H. unfold be32. repeat (apply bind_some; [apply lookup_some; lia|intros ? _]). by eexists. Qed.

Lemma slice_some b i j : (i <= j <= length b)%nat -> is_Some (slice b i j).
Proof. intros H. unfold slice. decide_nat. by eexists. Qed.

Lemma slice_from_some b i : (i <= length b)%nat -> is_Some (slice_from b i).
Proof. intros H. unfold slice_from. decide_nat. by eexists. Qed.

Lemma slice_length b i j s : slice b i j = Some s -> length s = (j - i)%nat.
Proof.
  unfold slice. destruct (Nat.leb_spec i j), (Nat.leb_spec j (length b)); try done. intros [= <-].
  rewrite length_take, length_drop. lia.
Qed.

(** One read of a parser. *)
Ltac read_tac :=
  apply bind_some;
  [first [apply lookup_some | apply be16_some | apply be32_some | apply slice_some | apply slice_from_some]; lia|].

Lemma options_some fuel opts mss : (length opts <= fuel)%nat -> is_Some (options fuel opts mss).
Proof.
  revert opts mss. induction fuel as [|fuel IH]; intros [|kind rest] mss Hl; cbn [options length] in *; try (by eexists); [lia|].
  destruct (kind =? 0); [by eexists|]. destruct (kind =? 1); [apply IH; lia|].
  destruct rest as [|len rest]; [by eexists|]. set (n := Z.to_nat len).
  destruct (Nat.ltb_spec n 2); [by eexists|]. destruct (Nat.ltb_spec (S (length (len :: rest))) n); [by eexists|]. cbn [orb].
  apply bind_some.
  - destruct ((kind =? 2) && (n =? 4)%nat) eqn:E; [|by eexists]. apply andb_true_iff in E as [_ E%Nat.eqb_eq].
    apply bind_some; [apply be16_some; cbn [length] in *; lia|intros; by eexists].
  - intros m _. apply bind_some; [apply slice_from_some; cbn [length] in *; lia|]. intros opts. unfold slice_from.
    destruct (_ <=? _)%nat; [|done]. intros [= <-]. apply IH. rewrite length_drop. cbn [length] in *. lia.
Qed.

(** C40: The parsers never panic on an index: on any input, every index and every
    slice they take is in range and the loop over the TCP options ends. (The
    checksum's sums wrap around, as they do without overflow checks.) *)
Theorem parsers_never_panic (b : list Z) (src dst : Z) :
  is_Some (parse_eth b) /\ is_Some (parse_arp b) /\ is_Some (parse_ipv4 b)
  /\ is_Some (parse_udp src dst b) /\ is_Some (parse_tcp src dst b).
Proof.
  split_and!.
  - unfold parse_eth, ETH_HEADER_LEN. destruct (Nat.ltb_spec (length b) 14); [by eexists|]. do 4 (read_tac; intros ? _). by eexists.
  - unfold parse_arp. destruct (Nat.ltb_spec (length b) 28); [by eexists|].
    do 4 (read_tac; intros ? _; destruct (negb _); [by eexists|]). do 5 (read_tac; intros ? _). by eexists.
  - unfold parse_ipv4, IPV4_HEADER_LEN. destruct (Nat.ltb_spec (length b) 20); [by eexists|]. read_tac. intros b0 _.
    destruct (negb _); [by eexists|]. read_tac. intros total _. cbv zeta.
    destruct (Nat.ltb_spec (Z.to_nat (Z.land b0 15) * 4) 20), (Nat.ltb_spec (Z.to_nat total) (Z.to_nat (Z.land b0 15) * 4)),
      (Nat.ltb_spec (length b) (Z.to_nat total)); cbn [orb]; try by eexists.
    do 8 (read_tac; intros ? _). by eexists.
  - unfold parse_udp, UDP_HEADER_LEN. destruct (Nat.ltb_spec (length b) 8); [by eexists|]. read_tac. intros len _. cbv zeta.
    destruct (Nat.ltb_spec (Z.to_nat len) 8), (Nat.ltb_spec (length b) (Z.to_nat len)); cbn [orb]; try by eexists.
    read_tac. intros s Hs. apply slice_length in Hs. do 4 (read_tac; intros ? _). by eexists.
  - unfold parse_tcp, TCP_HEADER_LEN. destruct (Nat.ltb_spec (length b) 20); [by eexists|]. read_tac. intros b12 _. cbv zeta.
    destruct (Nat.ltb_spec (Z.to_nat (Z.shiftr b12 4) * 4) 20), (Nat.ltb_spec (length b) (Z.to_nat (Z.shiftr b12 4) * 4)); cbn [orb]; try by eexists.
    read_tac. intros opts _. apply bind_some; [by apply options_some|]. intros mss _. do 7 (read_tac; intros ? _). by eexists.
Qed.

(** C39: A TCP segment sent as an Ethernet frame is read back as it was by the
    three parsers, with both checksums correct: every field, the MSS option and
    the payload, of any length that an IPv4 packet can carry with 44 bytes of
    headers. *)
Theorem segment_roundtrip dst_mac src_mac ident t :
  valid_mac dst_mac -> valid_mac src_mac -> is_u 16 ident -> valid_ip (t_src t) -> valid_ip (t_dst t) ->
  is_u 16 (t_src_port t) -> is_u 16 (t_dst_port t) -> is_u 32 (t_seq t) -> is_u 32 (t_ack t) -> is_u 8 (t_flags t) ->
  is_u 16 (t_window t) -> (forall m, t_mss t = Some m -> is_u 16 m) -> bytes_ok (t_payload t) ->
  Z.of_nat (length (t_payload t)) + 44 < 2 ^ 16 ->
  let frame := build_eth dst_mac src_mac ETHERTYPE_IPV4 (build_ipv4 (t_src t) (t_dst t) PROTO_TCP ident (build_tcp t)) in
  exists packet segment,
    parse_eth frame = Some (Some (MkEth dst_mac src_mac ETHERTYPE_IPV4, packet))
    /\ parse_ipv4 packet = Some (Some (MkIpv4 (t_src t) (t_dst t) PROTO_TCP 64 ident false true, segment))
    /\ parse_tcp (t_src t) (t_dst t) segment
       = Some (Some (MkTcpHeader (t_src_port t) (t_dst_port t) (t_seq t) (t_ack t) (t_flags t) (t_window t) (t_mss t) true, t_payload t)).
Proof.
  intros Hdm Hsm Hi Hs Hd Hsp Hdp Hq Hk Hf Hw Hm Hp Hl frame.
  assert (length (build_tcp t) <= 24 + length (t_payload t))%nat as Ht.
  { unfold build_tcp, overwrite. rewrite !length_app, length_take, length_drop, !length_app, !length_to_be.
    destruct (t_mss t).
    all: rewrite ?length_app, ?length_to_be; cbn [length]; lia. }
  eexists _, _. split_and!; [by apply eth_roundtrip|apply ipv4_roundtrip; try done; lia|apply tcp_roundtrip; try done; lia].
Qed.

Lemma segment_roundtrip_witness :
  let t := MkTcpOut 0x0a000202 80 0x0a00020f 40000 0xfffffff0 7 0x12 65535 (Some 1460) [104; 105; 33] in
  exists packet segment,
    parse_eth (build_eth (replicate 6 0x52) (replicate 6 0xff) ETHERTYPE_IPV4 (build_ipv4 (t_src t) (t_dst t) PROTO_TCP 9 (build_tcp t)))
      = Some (Some (MkEth (replicate 6 0x52) (replicate 6 0xff) ETHERTYPE_IPV4, packet))
    /\ parse_ipv4 packet = Some (Some (MkIpv4 0x0a000202 0x0a00020f PROTO_TCP 64 9 false true, segment))
    /\ parse_tcp 0x0a000202 0x0a00020f segment = Some (Some (MkTcpHeader 80 40000 0xfffffff0 7 0x12 65535 (Some 1460) true, [104; 105; 33])).
Proof.
  intros t. apply (segment_roundtrip (replicate 6 0x52) (replicate 6 0xff) 9 t); try done.
  - split; [done|]. repeat constructor; done.
  - split; [done|]. repeat constructor; done.
  - by intros m [= <-].
  - cbn. repeat constructor; done.
Defined.
