(* ===== verification/NetTcp.v ===== *)
(** * TCP of the virtual gateway (crates/vetro-net/src/tcp.rs, upstream.rs, events.rs, lib.rs)

    A connection of the guest terminated on the host side: segments from the
    guest, timers, exchanges with the upstream and transmission. Times are
    microseconds (u64), sequence numbers wrap around at 32 bits. *)

From Stdlib Require Import ZArith Lia Bool.
From stdpp Require Import base list numbers strings.
From S2P Require Import Prelude SnapWire NetWire.
Local Open Scope Z_scope.
Local Open Scope vetro_scope.

(** ** Common types (lib.rs, events.rs, upstream.rs) *)

Module net.

Definition U64_MAX : Z := 2 ^ 64 - 1.

(** [VirtualTime::after]: saturating. *)
Definition after (t us : Z) : Z := Z.min (t + us) U64_MAX.

Record SockAddr := MkSock { sock_ip : Z; sock_port : Z }.
Record Flow := MkFlow { guest : SockAddr; remote : SockAddr }.

#[export] Instance SockAddr_eq : EqDecision SockAddr.
Proof. solve_decision. Defined.
#[export] Instance Flow_eq : EqDecision Flow.
Proof. solve_decision. Defined.

Inductive Direction := ToRemote | ToGuest.
Inductive CloseReason := Normal | GuestReset | RemoteReset | Refused | Timeout | Idle.
Inductive DhcpMessage := Offer | DhcpAck | Nak | Release | Decline.

#[export] Instance CloseReason_eq : EqDecision CloseReason.
Proof. solve_decision. Defined.

Inductive EventKind :=
| Dhcp (message : DhcpMessage) (mac : wire.Mac) (ip : Z) (hostname : option (list Z))
| IcmpEcho (dst : Z) (answered : bool)
| TcpOpen (id : Z) (flow : Flow)
| TcpConnect (id : Z) (flow : Flow)
| TcpEstablished (id : Z)
| TcpData (id : Z) (dir : Direction) (len : Z)
| TcpClosed (id : Z) (reason : CloseReason) (bytes_to_remote bytes_to_guest : Z)
| UdpOpen (id : Z) (flow : Flow)
| UdpData (id : Z) (dir : Direction) (len : Z)
| UdpClosed (id : Z) (reason : CloseReason) (bytes_to_remote bytes_to_guest : Z)
| DnsQuery (id txid : Z) (name : list Z) (qtype : Z)
| DnsAnswer (id txid : Z) (name : list Z) (qtype rcode : Z) (addrs : list Z).

Record NetEvent := MkEvent { ev_at : Z; ev_kind : EventKind }.

Inductive TcpStatus := Pending | Connected | StatusRefused.
Inductive TcpRead := Data (n : nat) | WouldBlock | Eof | ReadReset.

(** Where the guest's connections end up. A read is given a buffer and returns
    it as it leaves it. *)
Class Upstream (U : Type) : Type := {
  tcp_open : Z -> Z -> Flow -> U -> U;
  tcp_status : Z -> Z -> U -> TcpStatus * U;
  tcp_write : Z -> Z -> list Z -> U -> nat * U;
  tcp_read : Z -> Z -> list Z -> U -> TcpRead * list Z * U;
  tcp_shutdown : Z -> Z -> U -> U;
  tcp_close : Z -> Z -> bool -> U -> U;
  udp_send : Z -> Z -> Flow -> list Z -> U -> U;
  udp_recv : Z -> U -> option (Z * list Z) * U;
  udp_close : Z -> Z -> U -> U;
  ping : Z -> Z -> U -> bool * U;
}.

(** A buffer keeps its length: it is a slice. *)
Class UpstreamLaws (U : Type) `{Upstream U} : Prop := {
  tcp_read_length : forall now id buf u, length (tcp_read now id buf u).1.2 = length buf;
}.

End net.

(** ** A connection (tcp.rs) *)

Module tcp.
Import wire net.

Definition RX_CAPACITY : Z := 65535.
Definition TX_CAPACITY : Z := 256 * 1024.
Definition READ_CHUNK : Z := 16 * 1024.
Definition RTO_INITIAL : Z := 1000000.
Definition RTO_MIN : Z := 200000.
Definition RTO_MAX : Z := 60000000.
Definition MAX_RETRIES : Z := 15.
Definition TIME_WAIT_US : Z := 4000000.
Definition DEFAULT_MSS : Z := 536.
Definition U32_MAX : Z := 2 ^ 32 - 1.

Definition seq_lt (a b : Z) : bool := signed 32 (u32 (a - b)) <? 0.
Definition seq_le (a b : Z) : bool := signed 32 (u32 (a - b)) <=? 0.

Inductive State :=
| Connecting | SynSent | SynReceived | Established | CloseWait | LastAck | FinWait1 | FinWait2 | Closing | TimeWait | Closed.

#[export] Instance State_eq : EqDecision State.
Proof. solve_decision. Defined.

Record Segment := MkSegment {
  seg_seq : Z;
  seg_ack : Z;
  seg_flags : Z;
  seg_window : Z;
  seg_mss : option Z;
  seg_payload : list Z;
}.

(** [up], [log] and [out] are borrowed from the stack. *)
Record Ctx (U : Type) := MkCtx { now : Z; up : U; log : list NetEvent; out : list Segment }.
#[global] Arguments MkCtx {U}. #[global] Arguments now {U}. #[global] Arguments up {U}.
#[global] Arguments log {U}. #[global] Arguments out {U}.

#[export] Instance eta_Ctx {U} : Eta (Ctx U) := fun c => MkCtx (now c) (up c) (log c) (out c).

Record TcpConn := MkConn {
  id : Z;
  flow : Flow;
  state : State;
  local_mss : Z;
  mss : Z;
  iss : Z;
  snd_una : Z;
  snd_nxt : Z;
  snd_max : Z;
  snd_wnd : Z;
  snd_wl1 : Z;
  snd_wl2 : Z;
  cwnd : Z;
  ssthresh : Z;
  tx : list Z;
  tx_eof : bool;
  fin_seq : option Z;
  irs : Z;
  rcv_nxt : Z;
  rx : list Z;
  rx_fin : bool;
  shutdown_done : bool;
  adv_edge : Z;
  ack_pending : bool;
  rto : Z;
  rto_base : Z;
  srtt : option Z;
  rttvar : Z;
  rtt_sample : option (Z * Z);
  rtx_deadline : option Z;
  retries : Z;
  dup_acks : Z;
  connect_deadline : Z;
  time_wait_deadline : Z;
  bytes_to_remote : Z;
  bytes_to_guest : Z;
  close_reason : option CloseReason;
}.

#[export] Instance eta_TcpConn : Eta TcpConn := fun c =>
  MkConn (id c) (flow c) (state c) (local_mss c) (mss c) (iss c) (snd_una c) (snd_nxt c) (snd_max c) (snd_wnd c)
    (snd_wl1 c) (snd_wl2 c) (cwnd c) (ssthresh c) (tx c) (tx_eof c) (fin_seq c) (irs c) (rcv_nxt c) (rx c) (rx_fin c)
    (shutdown_done c) (adv_edge c) (ack_pending c) (rto c) (rto_base c) (srtt c) (rttvar c) (rtt_sample c)
    (rtx_deadline c) (retries c) (dup_acks c) (connect_deadline c) (time_wait_deadline c) (bytes_to_remote c)
    (bytes_to_guest c) (close_reason c).

(** The MSS in use: that of the SYN, or the default, between 64 and ours. *)
Definition mss_of (m : option Z) (local : Z) : Z := Z.max (Z.min (default DEFAULT_MSS m) local) 64.

Definition new (id : Z) (flow : Flow) (syn : TcpHeader) (iss local_mss now connect_timeout_us : Z) : TcpConn :=
  let mss := mss_of (h_mss syn) local_mss in
  let rcv_nxt := u32 (h_seq syn + 1) in
  {| id := id; flow := flow; state := Connecting; local_mss := local_mss; mss := mss; iss := iss;
     snd_una := iss; snd_nxt := iss; snd_max := iss; snd_wnd := h_window syn; snd_wl1 := h_seq syn; snd_wl2 := iss;
     cwnd := 10 * mss; ssthresh := U32_MAX; tx := []; tx_eof := false; fin_seq := None;
     irs := h_seq syn; rcv_nxt := rcv_nxt; rx := []; rx_fin := false; shutdown_done := false;
     adv_edge := u32 (rcv_nxt + RX_CAPACITY); ack_pending := false;
     rto := RTO_INITIAL; rto_base := RTO_INITIAL; srtt := None; rttvar := 0; rtt_sample := None; rtx_deadline := None;
     retries := 0; dup_acks := 0; connect_deadline := after now connect_timeout_us; time_wait_deadline := U64_MAX;
     bytes_to_remote := 0; bytes_to_guest := 0; close_reason := None |}.

Definition new_active (id : Z) (flow : Flow) (iss local_mss now connect_timeout_us : Z) : TcpConn :=
  let syn := MkTcpHeader (sock_port (guest flow)) (sock_port (remote flow)) 0 0 TCP_SYN 0 None true in
  let c := new id flow syn iss local_mss now connect_timeout_us in
  c <| state := SynSent |> <| irs := 0 |> <| rcv_nxt := 0 |> <| snd_wl1 := 0 |>.

Definition is_synchronized (c : TcpConn) : bool :=
  match state c with Connecting | SynSent | SynReceived | Closed => false | _ => true end.

Definition is_closed (c : TcpConn) : bool := bool_decide (state c = Closed).

(** A panic (an index out of range, an underflow, a division by zero), or a
    loop that has taken more turns than it is given. *)
Inductive halt := Panicked | OutOfFuel.

Section ops.
Context {U : Type} `{!Upstream U}.

(** The length of [rx.as_slices().0], the first part of the ring buffer: it
    depends on where the buffer starts. *)
Variable first_slice : TcpConn -> nat.

Abbreviation tcping := (prog (TcpConn * Ctx U) halt).

Definition conn {A} (f : TcpConn -> A) : tcping A := gets (fun s => f s.1).
Definition ctx {A} (f : Ctx U -> A) : tcping A := gets (fun s => f s.2).
Definition set_conn (f : TcpConn -> TcpConn) : tcping unit := modify (fun s => (f s.1, s.2)).
Definition set_ctx (f : Ctx U -> Ctx U) : tcping unit := modify (fun s => (s.1, f s.2)).
Definition on_up {A} (f : U -> A * U) : tcping A := fun s => let '(a, u) := f (up s.2) in (Ok a, (s.1, s.2 <| up := u |>)).
Definition push_log (k : EventKind) : tcping unit := set_ctx (fun x => x <| log ::= fun l => l ++ [MkEvent (now x) k] |>).
Definition push_out (s : Segment) : tcping unit := set_ctx (fun x => x <| out ::= fun l => l ++ [s] |>).

Definition rcv_wnd : tcping Z :=
  n ← conn (fun c => Z.of_nat (length (rx c)));
  if RX_CAPACITY <? n then throw Panicked else mret (RX_CAPACITY - n).

Definition emit (seq flags : Z) (payload : list Z) : tcping unit :=
  window ← rcv_wnd;
  set_conn (fun c => c <| adv_edge := u32 (rcv_nxt c + window) |> <| ack_pending := false |>);;
  c ← conn Datatypes.id;
  let m := if test_mask flags TCP_SYN then Some (local_mss c) else None in
  push_out (MkSegment seq (rcv_nxt c) flags (u16 window) m payload).

Definition arm_rtx : tcping unit :=
  t ← ctx now;
  set_conn (fun c => match rtx_deadline c with
                     | None => c <| rtx_deadline := Some (after t (rto c)) |>
                     | Some _ => c
                     end).

Definition in_flight (c : TcpConn) : Z := u32 (snd_nxt c - snd_una c).

Definition send_syn : tcping unit :=
  i ← conn iss;
  emit i TCP_SYN [];;
  t ← ctx now;
  set_conn (fun c =>
    let c := c <| snd_nxt := u32 (iss c + 1) |> in
    let c := c <| snd_max := snd_nxt c |> in
    if retries c =? 0 then c <| rtt_sample := Some (snd_nxt c, t) |> else c);;
  arm_rtx.

Definition start_active : tcping unit :=
  st ← conn state;
  if decide (st = SynSent) then send_syn else mret tt.

Definition send_syn_ack : tcping unit :=
  i ← conn iss;
  emit i (Z.lor TCP_SYN TCP_ACK) [];;
  set_conn (fun c => let c := c <| snd_nxt := u32 (iss c + 1) |> in c <| snd_max := snd_nxt c |>);;
  arm_rtx.

Definition send_rst : tcping unit :=
  seq ← conn snd_max;
  emit seq (Z.lor TCP_RST TCP_ACK) [].

Definition finish (reason : CloseReason) (reset : bool) : tcping unit :=
  st ← conn state;
  if decide (st = Closed) then mret tt else
  set_conn (fun c => c <| state := Closed |> <| close_reason := Some reason |> <| rtx_deadline := None |>);;
  c ← conn Datatypes.id;
  push_log (TcpClosed (id c) reason (bytes_to_remote c) (bytes_to_guest c));;
  set_ctx (fun x => x <| up ::= tcp_close (now x) (id c) reset |>).

Definition abort : tcping unit :=
  st ← conn state;
  if decide (st = Closed) then mret tt else send_rst;; finish RemoteReset true.

Definition enter_time_wait : tcping unit :=
  t ← ctx now;
  set_conn (fun c => c <| state := TimeWait |> <| rtx_deadline := None |> <| time_wait_deadline := after t TIME_WAIT_US |>).

(** [clamp(RTO_MIN, RTO_MAX)]. *)
Definition clamp_rto (x : Z) : Z := Z.min (Z.max x RTO_MIN) RTO_MAX.

Definition rtt_update (r : Z) (c : TcpConn) : TcpConn :=
  let c := match srtt c with
           | None => c <| srtt := Some r |> <| rttvar := r / 2 |>
           | Some s => c <| rttvar := u64 (3 * rttvar c + Z.abs (s - r)) / 4 |> <| srtt := Some (u64 (7 * s + r) / 8) |>
           end in
  let s := default r (srtt c) in
  let c := c <| rto_base := clamp_rto (u64 (s + Z.max (u64 (4 * rttvar c)) 1)) |> in
  c <| rto := rto_base c |>.

(** [saturating_sub]. *)
Definition sat_sub (a b : Z) : Z := Z.max (a - b) 0.
(** [u32::saturating_add]. *)
Definition sat_add32 (a b : Z) : Z := Z.min (a + b) U32_MAX.

Definition input_syn_sent (h : TcpHeader) : tcping unit :=
  c ← conn Datatypes.id;
  let ack_ok := has h TCP_ACK && (h_ack h =? snd_max c) in
  if has h TCP_ACK && negb ack_ok then
    if negb (has h TCP_RST) then push_out (MkSegment (h_ack h) 0 TCP_RST 0 None []) else mret tt
  else if has h TCP_RST then
    if ack_ok then finish Refused true else mret tt
  else if negb (has h TCP_SYN && ack_ok) then mret tt
  else
    t ← ctx now;
    set_conn (fun c =>
      let c := c <| irs := h_seq h |> <| rcv_nxt := u32 (h_seq h + 1) |> <| snd_una := h_ack h |>
                 <| mss := mss_of (h_mss h) (local_mss c) |> in
      let c := c <| cwnd := 10 * mss c |> <| snd_wnd := h_window h |> <| snd_wl1 := h_seq h |> <| snd_wl2 := h_ack h |> in
      let sample := rtt_sample c in
      let c := c <| rtt_sample := None |> in
      let c := match sample with
               | Some (seq, t0) => if seq_le seq (h_ack h) then rtt_update (sat_sub t t0) c else c
               | None => c
               end in
      c <| rto := rto_base c |> <| retries := 0 |> <| rtx_deadline := None |> <| state := Established |>);;
    push_log (TcpEstablished (id c));;
    set_conn (fun c => c <| ack_pending := true |>).

Definition fast_retransmit : tcping unit :=
  set_conn (fun c =>
    let c := c <| ssthresh := Z.max (in_flight c / 2) (2 * mss c) |> in
    c <| cwnd := ssthresh c |> <| rtt_sample := None |>);;
  c ← conn Datatypes.id;
  match tx c with
  | [] => mret tt
  | _ =>
      let n := Z.min (Z.min (mss c) (Z.of_nat (length (tx c)))) (u32 (snd_max c - snd_una c)) in
      if n =? 0 then mret tt else emit (snd_una c) TCP_ACK (take (Z.to_nat n) (tx c))
  end.

(** The acceptability test (RFC 9293 3.10.7.4). *)
Definition in_window (rcv wnd s : Z) : bool := seq_le rcv s && seq_lt s (u32 (rcv + wnd)).

Definition seg_len (h : TcpHeader) (payload : list Z) : Z :=
  u32 (u32 (Z.of_nat (length payload)) + b2z (has h TCP_SYN) + b2z (has h TCP_FIN)).

Definition acceptable (rcv wnd : Z) (h : TcpHeader) (payload : list Z) : bool :=
  let l := seg_len h payload in
  if l =? 0 then
    if wnd =? 0 then h_seq h =? rcv else in_window rcv wnd (h_seq h)
  else if wnd =? 0 then false
  else in_window rcv wnd (h_seq h) || in_window rcv wnd (u32 (h_seq h + (l - 1))).

(** An ACK of new data: what it takes from the transmit buffer, and whether it
    covers our FIN. *)
Definition acked_bytes (a : Z) (c : TcpConn) : nat * bool :=
  let acked := u32 (a - snd_una c) in
  let acked := if snd_una c =? iss c then u32 (acked - 1) else acked in
  let fin := match fin_seq c with Some f => seq_lt f a | None => false end in
  let acked := if fin then u32 (acked - 1) else acked in
  (Nat.min (Z.to_nat acked) (length (tx c)), fin).

Definition ack_new_data (t a : Z) (acked : nat) (c : TcpConn) : TcpConn :=
  let c := c <| tx ::= drop acked |> <| snd_una := a |> in
  let c := if seq_lt (snd_nxt c) a then c <| snd_nxt := a |> else c in
  let c := match rtt_sample c with
           | Some (seq, t0) => if seq_le seq a then rtt_update (sat_sub t t0) c <| rtt_sample := None |> else c
           | None => c
           end in
  c <| dup_acks := 0 |> <| rto := rto_base c |>.

(** Reno: slow start under [ssthresh], then about one MSS per window. *)
Definition grow_cwnd (acked : Z) : tcping unit :=
  c ← conn Datatypes.id;
  if cwnd c <? ssthresh c then set_conn (fun c => c <| cwnd := sat_add32 (cwnd c) (Z.min acked (mss c)) |>)
  else if cwnd c =? 0 then throw Panicked
  else set_conn (fun c => c <| cwnd := sat_add32 (cwnd c) (Z.max (u32 (mss c * mss c) / cwnd c) 1) |>).

(** The processing of the ACK of an acceptable segment; false ends [input]. *)
Definition input_ack (h : TcpHeader) (payload : list Z) : tcping bool :=
  c ← conn Datatypes.id;
  t ← ctx now;
  let a := h_ack h in
  go ← (if decide (state c = SynReceived) then
          if seq_lt (snd_una c) a && seq_le a (snd_max c) then
            set_conn (fun c => c <| state := Established |> <| snd_wnd := h_window h |> <| snd_wl1 := h_seq h |> <| snd_wl2 := a |>);;
            push_log (TcpEstablished (id c));;
            mret true
          else push_out (MkSegment a 0 TCP_RST 0 None []);; mret false
        else mret true);
  if negb go then mret false else
  c ← conn Datatypes.id;
  if seq_lt (snd_max c) a then set_conn (fun c => c <| ack_pending := true |>);; mret false else
  (if seq_le (snd_una c) a then set_conn (fun c => c <| retries := 0 |>) else mret tt);;
  fin_acked ← (if seq_lt (snd_una c) a then
    let '(acked, fin) := acked_bytes a c in
    set_conn (ack_new_data t a acked);;
    grow_cwnd (u32 (Z.of_nat acked));;
    set_conn (fun c => c <| rtx_deadline := if snd_una c =? snd_max c then None else Some (after t (rto c)) |>);;
    mret fin
  else if (a =? snd_una c) && (length payload =? 0)%nat && negb (has h TCP_FIN) && (h_window h =? snd_wnd c)
          && negb (snd_wnd c =? 0) && negb (snd_max c =? snd_una c) then
    set_conn (fun c => c <| dup_acks := u32 (dup_acks c + 1) |>);;
    d ← conn dup_acks;
    (if d =? 3 then fast_retransmit else mret tt);;
    mret false
  else mret false);
  set_conn (fun c =>
    if seq_lt (snd_wl1 c) (h_seq h) || ((snd_wl1 c =? h_seq h) && seq_le (snd_wl2 c) a)
    then c <| snd_wnd := h_window h |> <| snd_wl1 := h_seq h |> <| snd_wl2 := a |> else c);;
  if (fin_acked : bool) then
    st ← conn state;
    match st with
    | FinWait1 => set_conn (fun c => c <| state := FinWait2 |>);; mret true
    | Closing => enter_time_wait;; mret true
    | LastAck => finish Normal false;; mret false
    | _ => mret true
    end
  else mret true.

(** The bytes of a segment not received yet, as many as the window admits;
    whether these are all. *)
Definition take_data (h : TcpHeader) (payload : list Z) : tcping bool :=
  c ← conn Datatypes.id;
  let skip := Nat.min (Z.to_nat (u32 (rcv_nxt c - h_seq h))) (length payload) in
  let data := drop skip payload in
  wnd ← rcv_wnd;
  let n := Nat.min (length data) (Z.to_nat wnd) in
  (if (0 <? n)%nat then
     set_conn (fun c => c <| rx ::= fun l => l ++ take n data |> <| rcv_nxt := u32 (rcv_nxt c + Z.of_nat n) |>
                          <| bytes_to_remote := u64 (bytes_to_remote c + Z.of_nat n) |>);;
     push_log (TcpData (id c) ToRemote (Z.of_nat n))
   else mret tt);;
  mret (n =? length data)%nat.

(** The data of an acceptable segment; whether all of it is taken. *)
Definition input_data (h : TcpHeader) (payload : list Z) : tcping bool :=
  c ← conn Datatypes.id;
  match payload, state c with
  | _ :: _, (Established | FinWait1 | FinWait2) =>
      complete ← (if seq_lt (rcv_nxt c) (h_seq h) then mret false else take_data h payload);
      set_conn (fun c => c <| ack_pending := true |>);;
      mret complete
  | _, _ => mret true
  end.

(** The FIN of an acceptable segment whose data is all taken. *)
Definition input_fin (h : TcpHeader) (payload : list Z) (complete : bool) : tcping unit :=
  c ← conn Datatypes.id;
  if has h TCP_FIN && complete && (u32 (h_seq h + u32 (Z.of_nat (length payload))) =? rcv_nxt c) then
    first ← match state c with
            | Established => set_conn (fun c => c <| state := CloseWait |>);; mret true
            | FinWait1 => set_conn (fun c => c <| state := Closing |>);; mret true
            | FinWait2 => enter_time_wait;; mret true
            | _ => mret false
            end;
    (if (first : bool) then set_conn (fun c => c <| rcv_nxt := u32 (rcv_nxt c + 1) |> <| rx_fin := true |>) else mret tt);;
    set_conn (fun c => c <| ack_pending := true |>)
  else mret tt.

(** An acceptable segment, from the checks of RST, SYN and ACK on. *)
Definition input_accepted (h : TcpHeader) (payload : list Z) : tcping unit :=
  if has h TCP_RST then finish GuestReset true
  else if has h TCP_SYN then set_conn (fun c => c <| ack_pending := true |>)
  else if negb (has h TCP_ACK) then mret tt
  else
    go ← input_ack h payload;
    if (go : bool) then complete ← input_data h payload; input_fin h payload complete else mret tt.

(** The acceptability test and what follows it. *)
Definition input_synchronized (h : TcpHeader) (payload : list Z) : tcping unit :=
  wnd ← rcv_wnd;
  c ← conn Datatypes.id;
  if negb (acceptable (rcv_nxt c) wnd h payload) then
    if negb (has h TCP_RST) then
      t ← ctx now;
      set_conn (fun c =>
        let c := c <| ack_pending := true |> in
        if bool_decide (state c = TimeWait) && has h TCP_FIN then c <| time_wait_deadline := after t TIME_WAIT_US |> else c)
    else mret tt
  else input_accepted h payload.

Definition input (h : TcpHeader) (payload : list Z) : tcping unit :=
  c ← conn Datatypes.id;
  match state c with
  | Closed => mret tt
  | Connecting =>
      if has h TCP_RST && ((h_seq h =? rcv_nxt c) || (h_seq h =? irs c)) then finish GuestReset true else mret tt
  | SynSent => input_syn_sent h
  | SynReceived =>
      if has h TCP_SYN && negb (has h TCP_ACK) && (h_seq h =? irs c) then send_syn_ack else input_synchronized h payload
  | _ => input_synchronized h payload
  end.

Definition end_time_wait : tcping unit :=
  st ← conn state;
  if decide (st = TimeWait) then finish Normal false else mret tt.

(** What an expired retransmission timer does. *)
Definition on_rtx : tcping unit :=
  set_conn (fun c => c <| rtx_deadline := None |>);;
  c ← conn Datatypes.id;
  let unsent := in_flight c <? Z.of_nat (length (tx c)) in
  if (snd_una c =? snd_max c) && negb ((snd_wnd c =? 0) && unsent) then mret tt else
  set_conn (fun c => c <| retries := u32 (retries c + 1) |>);;
  c ← conn Datatypes.id;
  if MAX_RETRIES <? retries c then send_rst;; finish Timeout true else
  set_conn (fun c =>
    let c := c <| rto := Z.min (u64 (rto c * 2)) RTO_MAX |> <| rtt_sample := None |> in
    if snd_una c =? snd_max c then c
    else c <| ssthresh := Z.max (u32 (snd_max c - snd_una c) / 2) (2 * mss c) |> <| cwnd := mss c |>);;
  if decide (state c = SynReceived) then send_syn_ack
  else if decide (state c = SynSent) then send_syn
  else
    set_conn (fun c => c <| snd_nxt := snd_una c |>);;
    c ← conn Datatypes.id;
    (if (snd_wnd c =? 0) && negb (length (tx c) =? 0)%nat then emit (u32 (snd_una c - 1)) TCP_ACK [] else mret tt);;
    arm_rtx.

Definition on_timer : tcping unit :=
  c ← conn Datatypes.id;
  t ← ctx now;
  if decide (state c = Closed) then mret tt
  else if bool_decide (state c = TimeWait) && (time_wait_deadline c <=? t) then finish Normal false
  else match rtx_deadline c with
       | None => mret tt
       | Some deadline => if t <? deadline then mret tt else on_rtx
       end.

(** From the guest to the upstream. A turn gives it the first slice of the
    buffer, and the loop goes on while it takes all of it. *)
Fixpoint drain_rx (fuel : nat) : tcping unit :=
  c ← conn Datatypes.id;
  match rx c, fuel with
  | [], _ => mret tt
  | _, O => throw OutOfFuel
  | _, S fuel =>
      let chunk := take (first_slice c) (rx c) in
      t ← ctx now;
      n ← on_up (tcp_write t (id c) chunk);
      let n := Nat.min n (length chunk) in
      set_conn (fun c => c <| rx ::= drop n |>);;
      if (n <? length chunk)%nat then mret tt else drain_rx fuel
  end.

(** From the upstream to the guest; true ends [process] (the upstream has reset
    the connection). A turn that goes on adds at least a byte. *)
Fixpoint fill_tx (fuel : nat) (buf : list Z) : tcping bool :=
  c ← conn Datatypes.id;
  let len := Z.of_nat (length (tx c)) in
  if TX_CAPACITY <=? len then mret false else
  match fuel with
  | O => throw OutOfFuel
  | S fuel =>
      let room := Z.to_nat (Z.min (TX_CAPACITY - len) READ_CHUNK) in
      t ← ctx now;
      r ← on_up (tcp_read t (id c) (take room buf));
      let buf := r.2 ++ drop room buf in
      match r.1 with
      | Data n =>
          let n := Nat.min n room in
          if (n =? 0)%nat then mret false else
          set_conn (fun c => c <| tx ::= fun l => l ++ take n buf |> <| bytes_to_guest := u64 (bytes_to_guest c + Z.of_nat n) |>);;
          push_log (TcpData (id c) ToGuest (Z.of_nat n));;
          fill_tx fuel buf
      | WouldBlock => mret false
      | Eof => set_conn (fun c => c <| tx_eof := true |>);; mret false
      | ReadReset => send_rst;; finish RemoteReset true;; mret true
      end
  end.

(** One segment of the loop of [transmit]; false when it stops. *)
Definition transmit_one : tcping bool :=
  c ← conn Datatypes.id;
  let offset := Z.to_nat (in_flight c) in
  if (length (tx c) <=? offset)%nat then mret false else
  let usable := sat_sub (Z.min (snd_wnd c) (cwnd c)) (in_flight c) in
  if usable =? 0 then mret false else
  let n := Nat.min (Z.to_nat (Z.min (mss c) usable)) (length (tx c) - offset) in
  let payload := take n (drop offset (tx c)) in
  let flags := if (offset + n =? length (tx c))%nat then Z.lor TCP_ACK TCP_PSH else TCP_ACK in
  let seq := snd_nxt c in
  emit seq flags payload;;
  t ← ctx now;
  let end_ := u32 (seq + Z.of_nat n) in
  set_conn (fun c =>
    let c := match rtt_sample c with
             | None => if seq =? snd_max c then c <| rtt_sample := Some (end_, t) |> else c
             | Some _ => c
             end in
    let c := c <| snd_nxt := end_ |> in
    if seq_lt (snd_max c) end_ then c <| snd_max := end_ |> else c);;
  arm_rtx;;
  mret true.

Fixpoint transmit_loop (fuel : nat) : tcping unit :=
  match fuel with
  | O => throw OutOfFuel
  | S fuel => go ← transmit_one; if (go : bool) then transmit_loop fuel else mret tt
  end.

(** FIN after all the data. *)
Definition transmit_fin : tcping unit :=
  c ← conn Datatypes.id;
  if tx_eof c && (in_flight c =? Z.of_nat (length (tx c))) then
    send ← match fin_seq c with
           | None => match state c with
                     | Established => set_conn (fun c => c <| state := FinWait1 |>);; mret true
                     | CloseWait => set_conn (fun c => c <| state := LastAck |>);; mret true
                     | _ => mret false
                     end
           | Some f => mret (f =? snd_nxt c)
           end;
    if (send : bool) then
      let seq := snd_nxt c in
      set_conn (fun c => c <| fin_seq := Some seq |>);;
      emit seq (Z.lor TCP_FIN TCP_ACK) [];;
      set_conn (fun c =>
        let c := c <| snd_nxt := u32 (seq + 1) |> in
        if seq_lt (snd_max c) (snd_nxt c) then c <| snd_max := snd_nxt c |> else c);;
      arm_rtx
    else mret tt
  else mret tt.

Definition transmits (st : State) : bool :=
  match st with Established | CloseWait | FinWait1 | LastAck | Closing => true | _ => false end.

(** A turn of the loop sends at least a byte of [tx]. *)
Definition transmit : tcping unit :=
  c ← conn Datatypes.id;
  if negb (transmits (state c)) then mret tt else
  transmit_loop (length (tx c) + 1);;
  transmit_fin;;
  c ← conn Datatypes.id;
  if (snd_wnd c =? 0) && (snd_una c =? snd_max c) && (in_flight c <? Z.of_nat (length (tx c))) then arm_rtx else mret tt.

(** The opening of a connection in [process]; true ends it. *)
Definition process_opening : tcping bool :=
  c ← conn Datatypes.id;
  t ← ctx now;
  match state c with
  | Closed => mret true
  | Connecting =>
      st ← on_up (tcp_status t (id c));
      match st with
      | Connected => set_conn (fun c => c <| state := SynReceived |>);; send_syn_ack;; mret false
      | StatusRefused => emit 0 (Z.lor TCP_RST TCP_ACK) [];; finish Refused true;; mret true
      | Pending =>
          (if connect_deadline c <=? t then emit 0 (Z.lor TCP_RST TCP_ACK) [];; finish Timeout true else mret tt);;
          mret true
      end
  | SynSent => (if connect_deadline c <=? t then finish Timeout true else mret tt);; mret true
  | _ => mret false
  end.

(** The guest's data and its FIN to the upstream, and the window update. *)
Definition process_rx : tcping unit :=
  n ← conn (fun c => length (rx c));
  drain_rx n;;
  c ← conn Datatypes.id;
  t ← ctx now;
  (if (length (rx c) =? 0)%nat && rx_fin c && negb (shutdown_done c) then
     set_conn (fun c => c <| shutdown_done := true |>);;
     set_ctx (fun x => x <| up ::= tcp_shutdown t (id c) |>)
   else mret tt);;
  wnd ← rcv_wnd;
  set_conn (fun c =>
    let edge := u32 (rcv_nxt c + wnd) in
    let threshold := Z.min (mss c) (RX_CAPACITY / 2) in
    if negb (rx_fin c) && seq_lt (adv_edge c) edge && (threshold <=? u32 (edge - adv_edge c))
    then c <| ack_pending := true |> else c).

Definition process : tcping unit :=
  stop ← process_opening;
  if (stop : bool) then mret tt else
  process_rx;;
  c ← conn Datatypes.id;
  stop ← match state c with
         | SynReceived | Established | CloseWait =>
             if tx_eof c then mret false else fill_tx (Z.to_nat TX_CAPACITY) (replicate (Z.to_nat READ_CHUNK) 0)
         | _ => mret false
         end;
  if (stop : bool) then mret tt else
  transmit;;
  c ← conn Datatypes.id;
  if ack_pending c then emit (snd_nxt c) TCP_ACK [] else mret tt.

Definition next_deadline (c : TcpConn) : option Z :=
  match state c with
  | Closed => None
  | Connecting => Some (connect_deadline c)
  | SynSent => Some (match rtx_deadline c with Some d => Z.min d (connect_deadline c) | None => connect_deadline c end)
  | TimeWait => Some (time_wait_deadline c)
  | _ => rtx_deadline c
  end.

End ops.
End tcp.
