(* ===== verification/NetTcpProof.v ===== *)
(** * TCP: no panics, streams and states (crates/vetro-net/src/tcp.rs)

    The comparison of sequence numbers, the invariant under which no operation
    of a connection panics and all its loops end, and the states a connection
    goes through against RFC 9293. *)

From Stdlib Require Import ZArith Lia Bool.
From stdpp Require Import base list numbers strings relations.
From S2P Require Import Prelude Bits SnapWire NetWire NetTcp.
Local Open Scope Z_scope.
Local Open Scope vetro_scope.

Module tcpproof.
Import wire net tcp.

Create HintDb safe.
Create HintDb keeps.

(** ** Sequence numbers *)

Lemma u32_sub_u32 x y : u32 (u32 x - u32 y) = u32 (x - y).
Proof. unfold u32. by rewrite <- Zminus_mod. Qed.

Lemma u32_add_u32 x y : u32 (u32 x + y) = u32 (x + y).
Proof. unfold u32. by rewrite Zplus_mod_idemp_l. Qed.

Lemma signed_u32 x : - 2 ^ 31 <= x < 2 ^ 31 -> signed 32 (u32 x) = x.
Proof.
  intros H. transitivity (signed 32 x); [|apply signed_small; lia]. unfold signed, u32. by rewrite Z.mod_mod by lia.
Qed.

(** Within half the space, wrapping comparison is comparison. *)
Lemma seq_lt_spec x y : - 2 ^ 31 <= x - y < 2 ^ 31 -> seq_lt (u32 x) (u32 y) = (x <? y).
Proof.
  intros H. unfold seq_lt. rewrite u32_sub_u32, signed_u32 by done. destruct (Z.ltb_spec (x - y) 0), (Z.ltb_spec x y); lia.
Qed.

Lemma seq_le_spec x y : - 2 ^ 31 <= x - y < 2 ^ 31 -> seq_le (u32 x) (u32 y) = (x <=? y).
Proof.
  intros H. unfold seq_le. rewrite u32_sub_u32, signed_u32 by done. destruct (Z.leb_spec (x - y) 0), (Z.leb_spec x y); lia.
Qed.

(** ** Programs that end *)

Definition wp {S E A} (m : prog S E A) (Q : A -> S -> Prop) (s : S) : Prop :=
  match m s with (Ok a, s') => Q a s' | (Err _, _) => False end.

Lemma wp_bind {S E A B} (m : prog S E A) (k : A -> prog S E B) Q s :
  wp m (fun a s' => wp (k a) Q s') s -> wp (m ≫= k) Q s.
Proof. unfold wp, mbind, prog_bind. by destruct (m s) as [[a|e] s']. Qed.

Lemma wp_mono {S E A} (m : prog S E A) (Q Q' : A -> S -> Prop) s :
  wp m Q s -> (forall a s', Q a s' -> Q' a s') -> wp m Q' s.
Proof. unfold wp. destruct (m s) as [[a|e] s']; auto. Qed.

(** ** No panics *)

Record conn_ok (c : TcpConn) : Prop := {
  ok_rx : Z.of_nat (length (rx c)) <= RX_CAPACITY;
  ok_tx : Z.of_nat (length (tx c)) <= TX_CAPACITY;
  ok_mss : 64 <= mss c;
  ok_cwnd : 64 <= cwnd c;
}.

Section safe.
Context {U : Type} `{!Upstream U, !UpstreamLaws U}.
Variable first_slice : TcpConn -> nat.
Hypothesis first_slice_ok : forall c, rx c <> [] -> (0 < first_slice c <= length (rx c))%nat.

Abbreviation tcping := (prog (TcpConn * Ctx U) halt).

Definition safe {A} (m : tcping A) : Prop := forall s, conn_ok s.1 -> wp m (fun _ s' => conn_ok s'.1) s.

Lemma conn_safe_ret {A} (a : A) : safe (mret a).
Proof. by intros s H. Qed.

Lemma conn_safe_bind {A B} (m : tcping A) (k : A -> tcping B) : safe m -> (forall a, safe (k a)) -> safe (m ≫= k).
Proof. intros Hm Hk s H. apply wp_bind. eapply wp_mono; [by apply Hm|]. intros a s' H'. by apply Hk. Qed.

Lemma safe_conn {A B} (f : TcpConn -> A) (k : A -> tcping B) : (forall c, conn_ok c -> safe (k (f c))) -> safe (conn f ≫= k).
Proof. intros Hk s H. apply wp_bind. by apply Hk. Qed.

Lemma safe_ctx {A B} (f : Ctx U -> A) (k : A -> tcping B) : (forall a, safe (k a)) -> safe (ctx f ≫= k).
Proof. intros Hk s H. apply wp_bind. by apply Hk. Qed.

Lemma safe_set_conn f : (forall c, conn_ok c -> conn_ok (f c)) -> safe (set_conn f).
Proof. intros Hf s H. by apply Hf. Qed.

Lemma safe_set_ctx f : safe (set_ctx f).
Proof. by intros s H. Qed.

Lemma safe_on_up {A} (f : U -> A * U) : safe (on_up f).
Proof. intros s H. unfold wp, on_up. by destruct (f (up s.2)). Qed.

Lemma wp_rcv_wnd Q (s : TcpConn * Ctx U) :
  conn_ok s.1 -> Q (RX_CAPACITY - Z.of_nat (length (rx s.1))) s -> wp rcv_wnd Q s.
Proof.
  intros [H1 _ _ _] HQ. apply wp_bind. unfold wp. cbn [conn gets fst].
  destruct (Z.ltb_spec RX_CAPACITY (Z.of_nat (length (rx s.1)))); [lia|done].
Qed.

Lemma safe_rcv_wnd : safe rcv_wnd.
Proof. intros s H. by apply wp_rcv_wnd. Qed.

Hint Resolve conn_safe_ret conn_safe_bind safe_conn safe_ctx safe_set_ctx safe_on_up safe_rcv_wnd : core.

(** An update of fields the invariant does not read, or of [mss] and [cwnd]. *)
Ltac ok_update :=
  let c := fresh "c" in let H := fresh "H" in
  intros c H; destruct H as [H1 H2 H3 H4]; repeat case_match; split; cbn in *; try assumption; try lia.

(** A program by its structure. *)
Ltac safe_step :=
  match goal with
  | |- safe (mret _) => apply conn_safe_ret
  | |- safe (conn _ ≫= _) => let H := fresh "Hc" in apply safe_conn; intros ? H; unfold Datatypes.id
  | |- safe (ctx _ ≫= _) => apply safe_ctx; intros ?
  | |- safe (_ ≫= _) => apply conn_safe_bind; [|intros ?]
  | |- safe (set_conn _) => apply safe_set_conn; try (solve [ok_update])
  | |- safe (set_ctx _) => apply safe_set_ctx
  | |- safe (push_log _) => apply safe_set_ctx
  | |- safe (push_out _) => apply safe_set_ctx
  | |- safe (on_up _) => apply safe_on_up
  | |- safe rcv_wnd => apply safe_rcv_wnd
  | |- safe (if ?b then _ else _) => destruct b
  | |- safe (match ?b with _ => _ end) => destruct b
  | |- safe (let '(_, _) := ?p in _) => destruct p
  end.
Ltac safe_tac := repeat (safe_step || eauto with safe).

Lemma safe_emit seq flags payload : safe (emit seq flags payload).
Proof. unfold emit. safe_tac. Qed.

Lemma safe_arm : safe arm_rtx.
Proof. unfold arm_rtx. safe_tac. Qed.
Hint Resolve safe_emit safe_arm : safe.

Lemma safe_send_syn : safe send_syn.
Proof. unfold send_syn. safe_tac. Qed.

Lemma safe_send_syn_ack : safe send_syn_ack.
Proof. unfold send_syn_ack. safe_tac. Qed.

Lemma safe_send_rst : safe send_rst.
Proof. unfold send_rst. safe_tac. Qed.

Lemma safe_finish reason reset : safe (finish reason reset).
Proof. unfold finish. safe_tac. Qed.

Lemma safe_time_wait : safe enter_time_wait.
Proof. unfold enter_time_wait. safe_tac. Qed.
Hint Resolve safe_send_syn safe_send_syn_ack safe_send_rst safe_finish safe_time_wait : safe.

Lemma rtt_update_ok r c : conn_ok c -> conn_ok (rtt_update r c).
Proof. intros [H1 H2 H3 H4]. unfold rtt_update. destruct (srtt c); by split. Qed.

Lemma mss_of_ok m local : 64 <= mss_of m local.
Proof. unfold mss_of. lia. Qed.

Lemma safe_input_syn_sent h : safe (input_syn_sent h).
Proof.
  unfold input_syn_sent. safe_tac. intros c' [H1 H2 H3 H4]. pose proof (mss_of_ok (h_mss h) (local_mss c')).
  destruct (rtt_sample _) as [[seq t0]|]; [destruct (seq_le seq (h_ack h)); unfold rtt_update; repeat case_match|]; split; cbn in *; lia.
Qed.

Lemma safe_fast_retransmit : safe fast_retransmit.
Proof. unfold fast_retransmit. safe_tac. Qed.

Lemma safe_grow acked : safe (grow_cwnd (u32 acked)).
Proof.
  unfold grow_cwnd. apply safe_conn. intros c Hc. unfold Datatypes.id. pose proof (ok_cwnd c Hc).
  pose proof (is_u_u32 acked) as Ha. unfold is_u in Ha.
  destruct (cwnd c <? ssthresh c); [|destruct (Z.eqb_spec (cwnd c) 0); [lia|]];
    apply safe_set_conn; intros c' [H1 H2 H3 H4]; split; cbn; unfold sat_add32, U32_MAX; lia.
Qed.

Lemma ack_new_data_ok t a acked c : conn_ok c -> conn_ok (ack_new_data t a acked c).
Proof.
  intros [H1 H2 H3 H4]. assert (Z.of_nat (length (drop acked (tx c))) <= TX_CAPACITY) as H5 by (rewrite length_drop; lia).
  unfold ack_new_data. cbv zeta. destruct (seq_lt _ a); destruct (rtt_sample _) as [[seq t0]|]; try destruct (seq_le seq a);
    unfold rtt_update; repeat case_match; by split.
Qed.
Hint Resolve safe_fast_retransmit safe_grow safe_input_syn_sent ack_new_data_ok : safe.

Lemma safe_input_ack h payload : safe (input_ack h payload).
Proof. unfold input_ack. safe_tac. Qed.

Lemma safe_take_data h payload : safe (take_data h payload).
Proof.
  intros s H. unfold take_data. apply wp_bind. unfold wp at 1. cbn [conn gets]. unfold Datatypes.id. set (data := drop _ payload). clearbody data.
  apply wp_bind, wp_rcv_wnd; [done|]. cbv zeta. set (n := Nat.min _ _). apply wp_bind.
  destruct (0 <? n)%nat; [|done]. apply wp_bind. destruct H as [H1 H2 H3 H4]. split; cbn; try assumption.
  rewrite length_app, length_take. lia.
Qed.
Hint Resolve safe_take_data : safe.

Lemma safe_input_data h payload : safe (input_data h payload).
Proof. unfold input_data. safe_tac. Qed.

Lemma safe_input_fin h payload complete : safe (input_fin h payload complete).
Proof. unfold input_fin. safe_tac. Qed.
Hint Resolve safe_input_ack safe_input_data safe_input_fin : safe.

Lemma safe_input h payload : safe (input h payload).
Proof. unfold input, input_synchronized, input_accepted. safe_tac. Qed.

Lemma safe_on_timer : safe on_timer.
Proof. unfold on_timer, on_rtx. safe_tac. Qed.

Lemma safe_drain fuel : forall s, conn_ok s.1 -> (length (rx s.1) <= fuel)%nat -> wp (drain_rx first_slice fuel) (fun _ s' => conn_ok s'.1) s.
Proof.
  induction fuel as [|fuel IH]; intros [c x] H Hf; cbn [drain_rx fst] in *.
  - apply wp_bind. unfold wp. cbn. destruct (rx c); [done|cbn in Hf; lia].
  - apply wp_bind. unfold wp at 1. cbn [conn gets fst]. unfold Datatypes.id. destruct (rx c) as [|b l] eqn:Hrx; [done|].
    rewrite <- Hrx in *. apply wp_bind. unfold wp at 1. cbn [ctx gets snd]. apply wp_bind. unfold wp at 1, on_up. cbn [fst snd].
    destruct (tcp_write _ _ _ _) as [n u]. apply wp_bind. unfold wp at 1, set_conn, modify. cbn [fst snd].
    set (chunk := take (first_slice c) (rx c)). set (k := Nat.min n (length chunk)).
    assert (conn_ok (c <| rx ::= drop k |>)) as H'.
    { destruct H as [H1 H2 H3 H4]. split; cbn; try assumption. rewrite length_drop. lia. }
    assert (0 < length chunk)%nat as Hc.
    { subst chunk. rewrite length_take. pose proof (first_slice_ok c). rewrite Hrx in *. cbn [length] in *. specialize (H0 ltac:(done)). lia. }
    destruct (Nat.ltb_spec k (length chunk)); [done|]. apply IH; [done|]. cbn. rewrite length_drop. rewrite Hrx in *. cbn [length] in *. lia.
Qed.

Lemma safe_fill fuel buf : forall s, conn_ok s.1 -> length buf = Z.to_nat READ_CHUNK ->
  (Z.to_nat (TX_CAPACITY - Z.of_nat (length (tx s.1))) <= fuel)%nat -> wp (fill_tx fuel buf) (fun _ s' => conn_ok s'.1) s.
Proof.
  revert buf. induction fuel as [|fuel IH]; intros buf [c x] H Hb Hf; cbn [fill_tx fst] in *;
    (apply wp_bind; unfold wp at 1; cbn [conn gets fst]; unfold Datatypes.id;
     destruct (Z.leb_spec TX_CAPACITY (Z.of_nat (length (tx c)))); [done|]); [lia|].
  set (room := Z.to_nat (Z.min (TX_CAPACITY - Z.of_nat (length (tx c))) READ_CHUNK)).
  assert (room <= length buf)%nat as Hroom by (rewrite Hb; lia).
  apply wp_bind. unfold wp at 1. cbn [ctx gets snd]. apply wp_bind. unfold wp at 1, on_up. cbn [fst snd].
  pose proof (tcp_read_length (now x) (id c) (take room buf) (up x)) as Hl. rewrite length_take in Hl.
  destruct (tcp_read _ _ _ _) as [[r buf'] u]. cbn [fst snd] in *.
  assert (length (buf' ++ drop room buf) = Z.to_nat READ_CHUNK) as Hb' by (rewrite length_app, length_drop; lia).
  destruct r as [n| | |]; [|done|by destruct H; split|].
  - destruct (Nat.eqb_spec (Nat.min n room) 0); [done|]. apply wp_bind. unfold wp at 1. cbn [set_conn modify fst snd].
    apply wp_bind. unfold wp at 1. cbn [push_log set_ctx modify fst snd].
    assert (length (take (n `min` room) (buf' ++ drop room buf)) = (n `min` room)%nat) as El by (rewrite length_take; lia).
    apply IH; [|done|]; cbn.
    + destruct H as [H1 H2 H3 H4]. split; cbn; try assumption. rewrite length_app, El. lia.
    + rewrite length_app, El. lia.
  - refine (conn_safe_bind _ _ safe_send_rst _ (c, x <| up := u |>) H). intros. apply conn_safe_bind; [apply safe_finish|intros; apply conn_safe_ret].
Qed.

(** Bytes of [tx] the loop of [transmit] may still send. *)
Definition left_to_send (c : TcpConn) : nat := length (tx c) - Z.to_nat (in_flight c).

Lemma emit_eq seq flags payload (s : TcpConn * Ctx U) :
  conn_ok s.1 ->
  let w := RX_CAPACITY - Z.of_nat (length (rx s.1)) in
  emit seq flags payload s =
  (Ok tt, (s.1 <| adv_edge := u32 (rcv_nxt s.1 + w) |> <| ack_pending := false |>,
           s.2 <| out ::= fun l => l ++ [MkSegment seq (rcv_nxt s.1) flags (u16 w)
                                          (if test_mask flags TCP_SYN then Some (local_mss s.1) else None) payload] |>)).
Proof.
  intros [H1 _ _ _] w. unfold emit, rcv_wnd, mbind, prog_bind. cbn [conn gets].
  destruct (Z.ltb_spec RX_CAPACITY (Z.of_nat (length (rx s.1)))); [lia|]. reflexivity.
Qed.

(** A turn that goes on sends a byte at least, and keeps [tx]. *)
Lemma transmit_one_spec (s : TcpConn * Ctx U) :
  conn_ok s.1 -> wp transmit_one (fun go s' => conn_ok s'.1 /\ (go = true -> (left_to_send s'.1 < left_to_send s.1)%nat)) s.
Proof.
  destruct s as [c x]. intros H. pose proof H as [H1 H2 H3 H4]. cbn [fst] in *. unfold transmit_one.
  apply wp_bind. unfold wp at 1. cbn [conn gets fst]. unfold Datatypes.id.
  destruct (Nat.leb_spec (length (tx c)) (Z.to_nat (in_flight c))); [done|].
  set (usable := sat_sub _ _). destruct (Z.eqb_spec usable 0) as [|Hnz]; [done|].
  assert (0 < usable) by (subst usable; unfold sat_sub in *; lia).
  set (n := Nat.min _ _). assert (0 < n <= length (tx c) - Z.to_nat (in_flight c))%nat as Hn by lia. clearbody n usable.
  apply wp_bind. unfold wp at 1. rewrite emit_eq by done. cbn [fst snd].
  apply wp_bind. unfold wp at 1. cbn [ctx gets snd]. apply wp_bind. unfold wp at 1. cbn [set_conn modify fst snd].
  set (c1 := c <| adv_edge := _ |> <| ack_pending := _ |>).
  match goal with |- context [wp _ _ (?c2, _)] => set (c3 := c2) end.
  assert (conn_ok c3 /\ tx c3 = tx c /\ snd_una c3 = snd_una c /\ snd_nxt c3 = u32 (snd_nxt c + Z.of_nat n)) as (Hok & Etx & Eu & En).
  { subst c3 c1. cbn. repeat case_match; cbn; split_and!; try done; by split. }
  clearbody c3. apply wp_bind. unfold arm_rtx. apply wp_bind. unfold wp at 1. cbn [ctx gets snd]. unfold wp at 1. cbn [set_conn modify fst snd].
  assert (in_flight c3 = in_flight c + Z.of_nat n) as Ef.
  { unfold in_flight in *. rewrite En, Eu. unfold u32 in *. rewrite Zminus_mod_idemp_l.
    replace (snd_nxt c + Z.of_nat n - snd_una c) with (snd_nxt c - snd_una c + Z.of_nat n) by lia.
    rewrite <- Zplus_mod_idemp_l. apply Z.mod_small.
    pose proof (Z.mod_pos_bound (snd_nxt c - snd_una c) (2 ^ 32)). unfold TX_CAPACITY in *. lia. }
  assert (0 <= in_flight c) by (unfold in_flight, u32; apply Z.mod_pos_bound; lia).
  destruct (rtx_deadline c3); unfold wp; cbn [mret prog_ret fst]; (split; [by destruct Hok|]); intros _; unfold left_to_send, in_flight in *; cbn;
    rewrite Etx, Ef; lia.
Qed.

Lemma safe_transmit_loop fuel : forall s : TcpConn * Ctx U, conn_ok s.1 -> (left_to_send s.1 < fuel)%nat ->
  wp (transmit_loop fuel) (fun _ s' => conn_ok s'.1) s.
Proof.
  induction fuel as [|fuel IH]; intros s H Hf; [lia|]. cbn [transmit_loop]. apply wp_bind.
  eapply wp_mono; [by apply transmit_one_spec|]. intros [] s' [H' Hl]; [|done]. apply IH; [done|]. specialize (Hl eq_refl). lia.
Qed.

Lemma safe_transmit : safe transmit.
Proof.
  intros [c x] H. unfold transmit. apply wp_bind. unfold wp at 1. cbn [conn gets fst]. unfold Datatypes.id.
  destruct (negb _); [done|]. apply wp_bind. eapply wp_mono; [apply safe_transmit_loop; [done|]|].
  { cbn [fst]. unfold left_to_send. lia. }
  intros ?. change (safe (transmit_fin;; c ← conn Datatypes.id;
    if (snd_wnd c =? 0) && (snd_una c =? snd_max c) && (in_flight c <? Z.of_nat (length (tx c))) then arm_rtx else mret tt)).
  unfold transmit_fin. safe_tac.
Qed.

Lemma safe_process_rx : safe (process_rx first_slice).
Proof.
  intros s H. unfold process_rx. apply wp_bind. unfold wp at 1. cbn [conn gets]. apply wp_bind.
  eapply wp_mono; [by apply safe_drain|]. intros ?. clear s H. apply safe_conn. intros c Hc. unfold Datatypes.id.
  safe_tac.
Qed.
Hint Resolve safe_transmit safe_process_rx : safe.

Lemma safe_fill_start : safe (fill_tx (Z.to_nat TX_CAPACITY) (replicate (Z.to_nat READ_CHUNK) 0)).
Proof. intros s H. apply safe_fill; [done|apply length_replicate|lia]. Qed.

Lemma safe_opening : safe process_opening.
Proof. unfold process_opening. safe_tac. Qed.

Lemma safe_process : safe (process first_slice).
Proof.
  unfold process. apply conn_safe_bind; [apply safe_opening|]. intros []; [apply conn_safe_ret|].
  apply conn_safe_bind; [apply safe_process_rx|intros _].
  intros s H. apply wp_bind. unfold wp at 1. cbn [conn gets]. unfold Datatypes.id. apply wp_bind.
  eapply wp_mono with (Q := fun _ s' => conn_ok s'.1).
  { assert (wp (fill_tx (Z.to_nat TX_CAPACITY) (replicate (Z.to_nat READ_CHUNK) 0)) (fun _ s' => conn_ok s'.1) s).
    { by apply safe_fill_start. }
    destruct (state s.1); try done; destruct (tx_eof s.1); done. }
  intros []; [done|]. clear s H.
  change (safe (transmit;; c ← conn Datatypes.id; if ack_pending c then emit (snd_nxt c) TCP_ACK [] else mret tt)). safe_tac.
Qed.

(** ** The operations of a connection *)

Inductive conn_op :=
| OpStart
| OpInput (h : TcpHeader) (payload : list Z)
| OpTimer
| OpProcess
| OpAbort
| OpEndTimeWait.

Definition run_op (op : conn_op) : tcping unit :=
  match op with
  | OpStart => start_active
  | OpInput h payload => input h payload
  | OpTimer => on_timer
  | OpProcess => process first_slice
  | OpAbort => abort
  | OpEndTimeWait => end_time_wait
  end.

Lemma safe_run_op op : safe (run_op op).
Proof.
  destruct op; cbn [run_op]; [|apply safe_input|apply safe_on_timer|apply safe_process| |];
    unfold start_active, abort, end_time_wait; safe_tac.
Qed.

Lemma conn_new_ok i f syn is_ local t timeout : conn_ok (new i f syn is_ local t timeout).
Proof. pose proof (mss_of_ok (h_mss syn) local). split; cbn; unfold RX_CAPACITY, TX_CAPACITY; lia. Qed.

Lemma new_active_ok i f is_ local t timeout : conn_ok (new_active i f is_ local t timeout).
Proof. pose proof (mss_of_ok None local). split; cbn; unfold RX_CAPACITY, TX_CAPACITY; lia. Qed.

(** A connection from its opening on, each operation at some time and with the
    upstream and the log as they are then. *)
Inductive conn_reach : TcpConn -> Prop :=
| reach_new i f syn is_ local t timeout : conn_reach (new i f syn is_ local t timeout)
| reach_active i f is_ local t timeout : conn_reach (new_active i f is_ local t timeout)
| reach_op c x op c' x' : conn_reach c -> run_op op (c, x) = (Ok tt, (c', x')) -> conn_reach c'.


(** ** The states of RFC 9293 *)

(** The arcs of the state diagram for the passive and the active open, with
    RST and timeouts to [Closed]. *)
Inductive rfc : State -> State -> Prop :=
| rfc_accept : rfc Connecting SynReceived
| rfc_synack : rfc SynSent Established
| rfc_ack : rfc SynReceived Established
| rfc_fin : rfc Established CloseWait
| rfc_close : rfc Established FinWait1
| rfc_last : rfc CloseWait LastAck
| rfc_fin_acked : rfc FinWait1 FinWait2
| rfc_simultaneous : rfc FinWait1 Closing
| rfc_fin2 : rfc FinWait2 TimeWait
| rfc_closing : rfc Closing TimeWait
| rfc_closed st : st <> Closed -> rfc st Closed.

(** From [st], reached from [st0], the program stays on the arcs. *)
Definition goes {A} (st0 st : State) (m : tcping A) : Prop :=
  forall s a s', state s.1 = st -> rtc rfc st0 st -> m s = (Ok a, s') -> rtc rfc st0 (state s'.1).

Definition keeps {A} (m : tcping A) : Prop := forall s a s', m s = (Ok a, s') -> state s'.1 = state s.1.

Lemma goes_ret {A} st0 st (a : A) : goes st0 st (mret a).
Proof. intros s b s' E H [= _ <-]. by rewrite E. Qed.

Lemma goes_keeps {A} st0 st (m : tcping A) : keeps m -> goes st0 st m.
Proof. intros K s a s' E H R. by rewrite (K s a s' R), E. Qed.

Lemma goes_bind {A B} st0 st (m : tcping A) (k : A -> tcping B) :
  goes st0 st m -> (forall a st', goes st0 st' (k a)) -> goes st0 st (m ≫= k).
Proof.
  intros Hm Hk s b s' E H R. apply bind_ok_inv in R as (a & s1 & R1 & R2).
  eapply (Hk a (state s1.1)); [done| |exact R2]. by eapply Hm.
Qed.

Lemma goes_bind_keeps {A B} st0 st (m : tcping A) (k : A -> tcping B) :
  keeps m -> (forall a, goes st0 st (k a)) -> goes st0 st (m ≫= k).
Proof.
  intros Hm Hk s b s' E H R. apply bind_ok_inv in R as (a & s1 & R1 & R2).
  eapply (Hk a); [|done|exact R2]. by rewrite (Hm _ _ _ R1).
Qed.

Lemma goes_conn {A B} st0 st (f : TcpConn -> A) (k : A -> tcping B) :
  (forall c, goes st0 (state c) (k (f c))) -> goes st0 st (conn f ≫= k).
Proof. intros Hk s b s' E H R. eapply (Hk s.1); [done|by rewrite E|exact R]. Qed.

Lemma goes_set st0 st st' f : (forall c, state (f c) = st') -> rfc st st' -> goes st0 st (set_conn f).
Proof. intros Hf Hr s b s' E H [= _ <-]. cbn. rewrite Hf. by eapply rtc_r. Qed.

Lemma keeps_ret {A} (a : A) : keeps (mret a).
Proof. by intros s b s' [= _ <-]. Qed.

Lemma keeps_bind {A B} (m : tcping A) (k : A -> tcping B) : keeps m -> (forall a, keeps (k a)) -> keeps (m ≫= k).
Proof. intros Hm Hk s b s' R. apply bind_ok_inv in R as (a & s1 & R1 & R2). rewrite (Hk _ _ _ _ R2). by eapply Hm. Qed.

Lemma keeps_conn {A} (f : TcpConn -> A) : keeps (conn f).
Proof. by intros s b s' [= _ <-]. Qed.

Lemma keeps_ctx {A} (f : Ctx U -> A) : keeps (ctx f).
Proof. by intros s b s' [= _ <-]. Qed.

Lemma keeps_set f : (forall c, state (f c) = state c) -> keeps (set_conn f).
Proof. intros Hf s b s' [= _ <-]. apply Hf. Qed.

Lemma keeps_set_ctx f : keeps (set_ctx f).
Proof. by intros s b s' [= _ <-]. Qed.

Lemma keeps_on_up {A} (f : U -> A * U) : keeps (on_up f).
Proof. intros s b s'. unfold on_up. destruct (f _). by intros [= _ <-]. Qed.

Lemma keeps_throw {A} e : keeps (A:=A) (throw e).
Proof. by intros s b s'. Qed.

(** A program whose updates are of other fields. *)
Ltac keeps_step :=
  match goal with
  | |- keeps (mret _) => apply keeps_ret
  | |- keeps (throw _) => apply keeps_throw
  | |- keeps (_ ≫= _) => apply keeps_bind; [|intros ?]
  | |- keeps (conn _) => apply keeps_conn
  | |- keeps (ctx _) => apply keeps_ctx
  | |- keeps (set_conn _) => apply keeps_set; intros ?; cbn; repeat case_match; try reflexivity
  | |- keeps (set_ctx _) => apply keeps_set_ctx
  | |- keeps (push_log _) => apply keeps_set_ctx
  | |- keeps (push_out _) => apply keeps_set_ctx
  | |- keeps (on_up _) => apply keeps_on_up
  | |- keeps (if ?b then _ else _) => destruct b
  | |- keeps (match ?b with _ => _ end) => destruct b
  end.
Ltac keeps_tac := repeat first [solve [eauto 2 with keeps] | keeps_step].

Lemma keeps_rcv_wnd : keeps rcv_wnd.
Proof. unfold rcv_wnd. keeps_tac. Qed.
Hint Resolve keeps_rcv_wnd : keeps.

Lemma keeps_emit seq flags payload : keeps (emit seq flags payload).
Proof. unfold emit. keeps_tac. Qed.

Lemma keeps_arm : keeps arm_rtx.
Proof. unfold arm_rtx. keeps_tac. Qed.
Hint Resolve keeps_emit keeps_arm : keeps.

Lemma keeps_sends : keeps send_syn /\ keeps send_syn_ack /\ keeps send_rst.
Proof. unfold send_syn, send_syn_ack, send_rst. split_and!; keeps_tac. Qed.

Lemma keeps_fast_retransmit : keeps fast_retransmit.
Proof. unfold fast_retransmit. keeps_tac. Qed.

Lemma keeps_grow acked : keeps (grow_cwnd acked).
Proof. unfold grow_cwnd. keeps_tac. Qed.

Lemma state_rtt_update r c : state (rtt_update r c) = state c.
Proof. unfold rtt_update. by destruct (srtt c). Qed.

Lemma state_ack_new_data t a acked c : state (ack_new_data t a acked c) = state c.
Proof.
  unfold ack_new_data, rtt_update. cbv zeta. repeat case_match; reflexivity.
Qed.

Lemma keeps_ack_new_data t a acked : keeps (set_conn (ack_new_data t a acked)).
Proof. apply keeps_set. intros c. apply state_ack_new_data. Qed.

Lemma keeps_input_data h payload : keeps (input_data h payload).
Proof. unfold input_data, take_data. keeps_tac. Qed.

Lemma keeps_drain fuel : keeps (drain_rx first_slice fuel).
Proof. induction fuel as [|fuel IH]; cbn [drain_rx]; keeps_tac. Qed.

Lemma keeps_transmit_loop fuel : keeps (transmit_loop fuel).
Proof. induction fuel as [|fuel IH]; cbn [transmit_loop]; unfold transmit_one; keeps_tac. Qed.
Hint Resolve keeps_fast_retransmit keeps_grow keeps_ack_new_data keeps_input_data keeps_drain keeps_transmit_loop : keeps.

Lemma keeps_process_rx : keeps (process_rx first_slice).
Proof. unfold process_rx. keeps_tac. Qed.
Hint Resolve keeps_process_rx : keeps.

Lemma goes_finish st0 st reason reset : goes st0 st (finish reason reset).
Proof.
  unfold finish. apply goes_conn. intros c. destruct (decide (state c = Closed)) as [|Hn]; [apply goes_ret|].
  apply goes_bind; [by eapply goes_set; [intros; cbn; reflexivity|apply rfc_closed]|]. intros _ st'. apply goes_keeps. keeps_tac.
Qed.

Lemma goes_time_wait st0 st : rfc st TimeWait -> goes st0 st enter_time_wait.
Proof. intros H. unfold enter_time_wait. apply goes_bind_keeps; [apply keeps_ctx|intros t]. by eapply goes_set; [intros; cbn; reflexivity|]. Qed.

(** A program by its structure, with the arcs its updates take. *)
Ltac goes_step :=
  match goal with
  | |- goes _ _ (mret _) => apply goes_ret
  | |- goes _ _ (conn _ ≫= _) => let c := fresh "c" in apply goes_conn; intros c; unfold Datatypes.id
  | |- goes _ _ (finish _ _) => apply goes_finish
  | |- goes _ _ enter_time_wait => apply goes_time_wait; constructor
  | |- goes _ _ (set_conn _) => first [eapply goes_set; [intros; cbn; reflexivity|solve [constructor]] | apply goes_keeps; solve [keeps_tac]]
  | |- goes _ _ (if ?b then _ else _) => destruct b
  | |- goes _ _ (match state ?c with _ => _ end) => destruct (state c)
  | |- goes _ _ (match ?b with _ => _ end) => destruct b
  | |- goes _ _ (?m ≫= _) => first [apply goes_bind_keeps; [solve [keeps_tac]|intros ?] | apply goes_bind; [|intros ? ?]]
  | |- goes _ _ _ => apply goes_keeps; solve [keeps_tac]
  end.
Ltac goes_tac := repeat goes_step.

Lemma goes_input_syn_sent st0 h : goes st0 SynSent (input_syn_sent h).
Proof.
  intros s a s' E H R. revert R. unfold input_syn_sent. intros R. apply bind_ok_inv in R as (c & s1 & [= <- <-] & R).
  revert R. unfold Datatypes.id. destruct s as [c x]. cbn [fst] in *. destruct (has h TCP_ACK && _).
  { intros R. match type of R with ?m _ = _ => assert (keeps m) as K by keeps_tac end. rewrite (K _ _ _ R). cbn [fst]. by rewrite E. }
  destruct (has h TCP_RST).
  { intros R. match type of R with ?m _ = _ => assert (goes st0 SynSent m) as K by goes_tac end. exact (K (c, x) a s' E H R). }
  destruct (negb _); [by intros [= _ <-]; cbn; rewrite E|].
  intros R. apply bind_ok_inv in R as (t & s1 & [= <- <-] & R). apply bind_ok_inv in R as ([] & s1 & [= <-] & R).
  apply bind_ok_inv in R as ([] & s2 & [= <-] & R). injection R as _ <-. cbn. eapply rtc_r; [exact H|constructor].
Qed.

Lemma goes_input_ack st0 st h payload : goes st0 st (input_ack h payload).
Proof. unfold input_ack. goes_tac. rewrite e. goes_tac. Qed.

Lemma goes_input_fin st0 st h payload complete : goes st0 st (input_fin h payload complete).
Proof. unfold input_fin. goes_tac. Qed.

Lemma goes_synchronized st0 st h payload : goes st0 st (input_synchronized h payload).
Proof.
  unfold input_synchronized, input_accepted. goes_tac; [apply goes_input_ack|apply goes_input_fin].
Qed.

Lemma goes_input st0 st h payload : goes st0 st (input h payload).
Proof.
  destruct keeps_sends as (K1 & K2 & K3). unfold input. apply goes_conn. intros c. unfold Datatypes.id.
  destruct (state c); goes_tac; first [apply goes_synchronized | apply goes_input_syn_sent].
Qed.

Lemma goes_on_timer st0 st : goes st0 st on_timer.
Proof. destruct keeps_sends as (K1 & K2 & K3). unfold on_timer, on_rtx. goes_tac. Qed.

Lemma goes_fill st0 st fuel buf : goes st0 st (fill_tx fuel buf).
Proof.
  destruct keeps_sends as (K1 & K2 & K3). revert st buf. induction fuel as [|fuel IH]; intros st buf; cbn [fill_tx]; goes_tac. apply IH.
Qed.

Lemma goes_transmit st0 st : goes st0 st transmit.
Proof. unfold transmit, transmit_fin. goes_tac. Qed.

Lemma goes_opening st0 st : goes st0 st process_opening.
Proof. destruct keeps_sends as (K1 & K2 & K3). unfold process_opening. goes_tac. Qed.

Lemma goes_process st0 st : goes st0 st (process first_slice).
Proof.
  destruct keeps_sends as (K1 & K2 & K3). unfold process, process_opening.
  goes_tac; first [apply goes_fill | apply goes_transmit].
Qed.

Lemma goes_run_op st0 st op : goes st0 st (run_op op).
Proof.
  destruct keeps_sends as (K1 & K2 & K3). destruct op; cbn [run_op].
  - unfold start_active. goes_tac.
  - apply goes_input.
  - apply goes_on_timer.
  - apply goes_process.
  - unfold abort. goes_tac.
  - unfold end_time_wait. goes_tac.
Qed.

(** Whatever the guest sends and the upstream answers, every operation takes
    a connection along the arcs of the state diagram of RFC 9293 (with the
    states of both opens), one or several. *)
Theorem states_follow_rfc c x op c' x' :
  run_op op (c, x) = (Ok tt, (c', x')) -> rtc rfc (state c) (state c').
Proof. intros R. exact (goes_run_op (state c) (state c) op (c, x) tt (c', x') eq_refl (rtc_refl _ _) R). Qed.

End safe.
End tcpproof.
