(* ===== verification/NetTcpStream.v ===== *)
(** * TCP: the streams of a connection (crates/vetro-net/src/tcp.rs)

    Over an upstream that records what it gives and takes, the bytes of the
    guest reach the upstream in order and once. *)

From Stdlib Require Import ZArith Lia Bool.
From stdpp Require Import base list numbers strings relations.
From S2P Require Import Prelude Bits SnapWire NetWire NetTcp NetTcpProof.
Local Open Scope Z_scope.
Local Open Scope vetro_scope.

Module tcpstream.
Import wire net tcp tcpproof.

Create HintDb rxf.

(** ** Recording *)

(** An upstream with all the bytes it has handed over and accepted. *)
Record Recorded (U : Type) := MkRec { inner : U; given : list Z; taken : list Z }.
#[global] Arguments MkRec {U}. #[global] Arguments inner {U}. #[global] Arguments given {U}. #[global] Arguments taken {U}.

#[export] Instance eta_Recorded {U} : Eta (Recorded U) := fun r => MkRec (inner r) (given r) (taken r).

#[export] Instance recorded_up {U} `{!Upstream U} : Upstream (Recorded U) := {|
  tcp_open now id f r := r <| inner ::= tcp_open now id f |>;
  tcp_status now id r := let '(st, u) := tcp_status now id (inner r) in (st, r <| inner := u |>);
  tcp_write now id data r :=
    let '(n, u) := tcp_write now id data (inner r) in (n, r <| inner := u |> <| taken ::= fun l => l ++ take n data |>);
  tcp_read now id buf r :=
    let '(res, buf', u) := tcp_read now id buf (inner r) in
    (res, buf', match res with
                | Data n => r <| inner := u |> <| given ::= fun l => l ++ take n buf' |>
                | _ => r <| inner := u |>
                end);
  tcp_shutdown now id r := r <| inner ::= tcp_shutdown now id |>;
  tcp_close now id reset r := r <| inner ::= tcp_close now id reset |>;
  udp_send now id f data r := r <| inner ::= udp_send now id f data |>;
  udp_recv now r := let '(o, u) := udp_recv now (inner r) in (o, r <| inner := u |>);
  udp_close now id r := r <| inner ::= udp_close now id |>;
  ping now dst r := let '(b, u) := ping now dst (inner r) in (b, r <| inner := u |>);
|}.

#[export] Instance recorded_laws {U} `{!Upstream U, !UpstreamLaws U} : UpstreamLaws (Recorded U).
Proof. split. intros now id buf u. cbn. pose proof (tcp_read_length now id buf (inner u)). by destruct (tcp_read _ _ _ _) as [[[] ?] ?]. Qed.

(** A program by its structure: its updates are of other fields. *)
Ltac frame_step R :=
  match goal with
  | |- frames _ (mret _) => apply frames_ret; apply _
  | |- frames _ (throw _) => apply frames_throw; apply _
  | |- frames _ (conn _ ≫= _) => apply frames_bind; [apply _|apply frames_gets; apply _|intros ?]
  | |- frames _ (_ ≫= _) => apply frames_bind; [apply _| |intros ?]
  | |- frames _ (conn _) => apply frames_gets; apply _
  | |- frames _ (ctx _) => apply frames_gets; apply _
  | |- frames _ (set_conn _) => apply frames_modify; intros [? ?]; cbn; unfold R; cbn; repeat case_match; cbn; split_and?; done
  | |- frames _ (set_ctx _) => apply frames_modify; intros [? ?]; unfold R; cbn; split_and?; done
  | |- frames _ (push_log _) => apply frames_modify; intros [? ?]; unfold R; cbn; split_and?; done
  | |- frames _ (push_out _) => apply frames_modify; intros [? ?]; unfold R; cbn; split_and?; done
  | |- frames _ (if ?b then _ else _) => destruct b
  | |- frames _ (match ?b with _ => _ end) => destruct b
  end.

Section streams.
Context {U : Type} `{!Upstream U, !UpstreamLaws U}.
Variable first_slice : TcpConn -> nat.
Hypothesis first_slice_ok : forall c, rx c <> [] -> (0 < first_slice c <= length (rx c))%nat.

Abbreviation tcping := (prog (TcpConn * Ctx (Recorded U)) halt).
Abbreviation conn_state := (TcpConn * Ctx (Recorded U))%type.

(** ** From the guest *)

(** The bytes received so far: those the upstream has taken, and the buffer. *)
Definition received (s : conn_state) : list Z := taken (up s.2) ++ rx s.1.

(** The states after the guest's FIN, and [Closed]. *)
Definition after_fin (st : State) : Prop := st ∈ [CloseWait; LastAck; Closing; TimeWait; Closed].

(** [G] is all the guest sends. *)
Record recv_ok (G : list Z) (s : conn_state) : Prop := {
  rv_prefix : received s `prefix_of` G;
  rv_syn : state s.1 = SynSent -> received s = [];
  rv_nxt : state s.1 <> SynSent -> state s.1 <> Closed ->
           rcv_nxt s.1 = u32 (irs s.1 + 1 + Z.of_nat (length (received s)) + b2z (rx_fin s.1));
  rv_fin : rx_fin s.1 = true -> received s = G /\ after_fin (state s.1);
  rv_done : shutdown_done s.1 = true -> rx_fin s.1 = true /\ rx s.1 = [];
}.

(** What most operations leave. *)
Definition same_rx (s s' : conn_state) : Prop :=
  rx s'.1 = rx s.1 /\ rcv_nxt s'.1 = rcv_nxt s.1 /\ irs s'.1 = irs s.1 /\ rx_fin s'.1 = rx_fin s.1
  /\ shutdown_done s'.1 = shutdown_done s.1 /\ taken (up s'.2) = taken (up s.2).

#[local] Instance same_rx_preorder : PreOrder same_rx.
Proof.
  split; [intros s; by split_and!|]. intros s1 s2 s3 (A1 & A2 & A3 & A4 & A5 & A6) (B1 & B2 & B3 & B4 & B5 & B6).
  split_and!; congruence.
Qed.

Lemma after_fin_rfc st st' : rtc rfc st st' -> after_fin st -> after_fin st'.
Proof.
  unfold after_fin. induction 1 as [|st1 st2 st3 H _ IH]; [done|]. intros Hi. apply IH. destruct H; set_solver.
Qed.

Lemma syn_sent_rfc st st' : rtc rfc st st' -> st' = SynSent -> st = SynSent.
Proof. intros H ->. apply rtc_inv_r in H as [|(st2 & _ & H)]; [done|by inversion H]. Qed.

Lemma from_syn_sent st st' : rtc rfc st st' -> st' <> SynSent -> st' <> Closed -> st = SynSent -> rtc rfc SynSent st' .
Proof. by intros H _ _ <-. Qed.

(** An operation that leaves the receive side, from a state that is not
    [SynSent] or back to it or to [Closed]. *)
Lemma recv_ok_frame G s s' :
  recv_ok G s -> same_rx s s' -> rtc rfc (state s.1) (state s'.1) ->
  (state s.1 = SynSent -> state s'.1 = SynSent \/ state s'.1 = Closed) -> recv_ok G s'.
Proof.
  intros [H1 H2 H3 H4 H5] (E1 & E2 & E3 & E4 & E5 & E6) Hr Hs.
  assert (received s' = received s) as Er by (unfold received; congruence).
  split; rewrite ?Er, ?E1, ?E2, ?E3, ?E4, ?E5; [done|by intros ?%(syn_sent_rfc _ _ Hr); auto| | |done].
  - intros Hn Hc. apply H3; [intros E; by destruct (Hs E)|]. intros E. apply Hc.
    rewrite E in Hr. apply rtc_inv in Hr as [|(st2 & H & _)]; [done|by inversion H].
  - intros Hf. split; [by apply H4|]. eapply after_fin_rfc; [done|]. by apply H4.
Qed.

Ltac rx_frame := repeat first [solve [eauto 2 with rxf] | frame_step same_rx].

Lemma rx_rcv_wnd : frames same_rx (rcv_wnd (U:=Recorded U)).
Proof. unfold rcv_wnd. rx_frame. Qed.
Hint Resolve rx_rcv_wnd : rxf.

Lemma rx_emit seq flags payload : frames same_rx (emit (U:=Recorded U) seq flags payload).
Proof. unfold emit. rx_frame. Qed.

Lemma rx_arm : frames same_rx (arm_rtx (U:=Recorded U)).
Proof. unfold arm_rtx. rx_frame. Qed.
Hint Resolve rx_emit rx_arm : rxf.

Lemma rx_send_syn : frames same_rx (send_syn (U:=Recorded U)).
Proof. unfold send_syn. rx_frame. Qed.

Lemma rx_send_syn_ack : frames same_rx (send_syn_ack (U:=Recorded U)).
Proof. unfold send_syn_ack. rx_frame. Qed.

Lemma rx_send_rst : frames same_rx (send_rst (U:=Recorded U)).
Proof. unfold send_rst. rx_frame. Qed.

Lemma rx_finish reason reset : frames same_rx (finish (U:=Recorded U) reason reset).
Proof. unfold finish. rx_frame. Qed.

Lemma rx_time_wait : frames same_rx (enter_time_wait (U:=Recorded U)).
Proof. unfold enter_time_wait. rx_frame. Qed.

Lemma rx_fast_retransmit : frames same_rx (fast_retransmit (U:=Recorded U)).
Proof. unfold fast_retransmit. rx_frame. Qed.

Lemma rx_grow acked : frames same_rx (grow_cwnd (U:=Recorded U) acked).
Proof. unfold grow_cwnd. rx_frame. Qed.

Lemma rx_ack_new_data t a acked : frames same_rx (set_conn (U:=Recorded U) (ack_new_data t a acked)).
Proof. apply frames_modify. intros [c x]. unfold same_rx, ack_new_data, rtt_update. cbn. repeat case_match; cbn; by split_and!. Qed.
Hint Resolve rx_send_syn rx_send_syn_ack rx_send_rst rx_finish rx_time_wait rx_fast_retransmit rx_grow rx_ack_new_data : rxf.

Lemma rx_input_ack h payload : frames same_rx (input_ack (U:=Recorded U) h payload).
Proof. unfold input_ack. rx_frame. Qed.

Lemma rx_on_timer : frames same_rx (on_timer (U:=Recorded U)).
Proof. unfold on_timer, on_rtx. rx_frame. Qed.

Lemma rx_status t i : frames same_rx (on_up (U:=Recorded U) (tcp_status t i)).
Proof. intros [c x]. unfold on_up. cbn. destruct (tcp_status _ _ _) as [r u]. by split_and!. Qed.

Lemma rx_read t i buf : frames same_rx (on_up (U:=Recorded U) (tcp_read t i buf)).
Proof. intros [c x]. unfold on_up. cbn. destruct (tcp_read _ _ _ _) as [[[] buf'] u]; by split_and!. Qed.
Hint Resolve rx_input_ack rx_on_timer rx_status rx_read : rxf.

Lemma rx_fill fuel buf : frames same_rx (fill_tx (U:=Recorded U) fuel buf).
Proof. revert buf. induction fuel as [|fuel IH]; intros buf; cbn [fill_tx]; rx_frame. Qed.

Lemma rx_transmit_one : frames same_rx (transmit_one (U:=Recorded U)).
Proof. unfold transmit_one. rx_frame. Qed.
Hint Resolve rx_fill rx_transmit_one : rxf.

Lemma rx_transmit_loop fuel : frames same_rx (transmit_loop (U:=Recorded U) fuel).
Proof. induction fuel as [|fuel IH]; cbn [transmit_loop]; rx_frame. Qed.
Hint Resolve rx_transmit_loop : rxf.

Lemma rx_transmit : frames same_rx (transmit (U:=Recorded U)).
Proof. unfold transmit, transmit_fin. rx_frame. Qed.

Lemma rx_opening : frames same_rx (process_opening (U:=Recorded U)).
Proof. unfold process_opening. rx_frame. Qed.

(** The segment is one of the guest's stream [G], at offset [o] in it, less
    than 2^30 bytes away from what has been received. *)
Record segment_at (G : list Z) (o : Z) (s : conn_state) (h : TcpHeader) (payload : list Z) : Prop := {
  sg_seq : h_seq h = u32 (irs s.1 + 1 + o);
  sg_near : - 2 ^ 30 < o - Z.of_nat (length (received s)) < 2 ^ 30;
  sg_data : payload <> [] -> 0 <= o /\ payload = take (length payload) (drop (Z.to_nat o) G);
  sg_len : Z.of_nat (length payload) < 2 ^ 16;
  sg_fin : has h TCP_FIN = true -> o + Z.of_nat (length payload) = Z.of_nat (length G);
}.

Definition from_guest (G : list Z) (s : conn_state) (op : conn_op) : Prop :=
  match op with OpInput h payload => exists o, segment_at G o s h payload | _ => True end.

Lemma u32_inj x y : - 2 ^ 32 < x - y < 2 ^ 32 -> u32 x = u32 y -> x = y.
Proof.
  unfold u32. intros H E. assert ((x - y) mod 2 ^ 32 = 0) as Hz by (rewrite Zminus_mod, E, Z.sub_diag; done).
  apply Z.mod_divide in Hz as [k Hk]; lia.
Qed.

Lemma segment_at_same G o s s' h payload :
  segment_at G o s h payload -> same_rx s s' -> segment_at G o s' h payload.
Proof.
  intros [H1 H2 H3 H4 H5] (E1 & E2 & E3 & E4 & E5 & E6).
  assert (received s' = received s) as Er by (unfold received; congruence).
  split; rewrite ?Er, ?E3; done.
Qed.

(** The part of a payload from offset [r] of the stream on. *)
Lemma payload_rest (G payload : list Z) (o r : nat) :
  payload = take (length payload) (drop o G) -> (o <= r)%nat ->
  drop (r - o) payload = take (length payload - (r - o)) (drop r G).
Proof.
  intros E Hr. rewrite E at 1. rewrite skipn_firstn_comm, drop_drop.
  by replace (o + (r - o))%nat with r by lia.
Qed.

Lemma prefix_take (R G : list Z) : R `prefix_of` G -> R = take (length R) G.
Proof. intros [k ->]. by rewrite take_app_length. Qed.

(** More of the stream. *)
Lemma prefix_extend (R G : list Z) n m : R `prefix_of` G -> (R ++ take n (take m (drop (length R) G))) `prefix_of` G.
Proof.
  intros [k ->]. rewrite drop_app_length. exists (drop (Nat.min n m) k). rewrite take_take, <- app_assoc. by rewrite take_drop.
Qed.

Lemma recv_take_data G o s h payload complete s' :
  recv_ok G s -> segment_at G o s h payload -> payload <> [] -> rx_fin s.1 = false -> state s.1 <> SynSent -> state s.1 <> Closed ->
  seq_lt (rcv_nxt s.1) (h_seq h) = false -> take_data h payload s = (Ok complete, s') ->
  recv_ok G s' /\ state s'.1 = state s.1 /\ irs s'.1 = irs s.1 /\ rx_fin s'.1 = rx_fin s.1
  /\ 0 <= Z.of_nat (length (received s')) - Z.of_nat (length (received s)) < 2 ^ 16.
Proof.
  destruct s as [c x]. cbn [fst]. intros Hok [S1 S2 S3 S4 S5] Hne Hfin Hsyn Hcl Hlt R. pose proof Hok as [H1 H2 H3 H4 H5]. cbn [fst] in *.
  specialize (H3 Hsyn Hcl). rewrite Hfin in H3. cbn in H3. destruct (S3 Hne) as [Ho Hp]. set (r := length (received (c, x))) in *.
  assert (o <= Z.of_nat r) as Hor.
  { rewrite H3, S1, seq_lt_spec in Hlt by lia. destruct (Z.ltb_spec (irs c + 1 + Z.of_nat r + 0) (irs c + 1 + o)); [done|lia]. }
  assert (u32 (rcv_nxt c - h_seq h) = Z.of_nat r - o) as Eskip.
  { rewrite H3, S1, u32_sub_u32. unfold u32. rewrite Z.mod_small; lia. }
  unfold take_data in R. apply bind_ok_inv in R as (c0 & s1 & [= <- <-] & R). unfold Datatypes.id in R. cbn [fst] in R.
  rewrite Eskip in R. set (k := Z.to_nat (Z.of_nat r - o)) in *.
  assert (drop (k `min` length payload) payload = take (length payload - k) (drop r G)) as Ed.
  { replace k with (r - Z.to_nat o)%nat by lia.
    rewrite <- (payload_rest G payload (Z.to_nat o) r Hp) by lia.
    destruct (decide (r - Z.to_nat o <= length payload)%nat); [by rewrite Nat.min_l by lia|].
    rewrite Nat.min_r by lia. by rewrite !drop_ge by lia. }
  rewrite Ed in R. apply bind_ok_inv in R as (wnd & s1 & R1 & R).
  assert (s1 = (c, x)) as ->.
  { revert R1. unfold rcv_wnd. intros R1. apply bind_ok_inv in R1 as (n & s2 & [= <- <-] & R1). destruct (_ <? _); [done|]. by injection R1. }
  clear R1. cbv zeta in R. set (m := (length payload - k)%nat) in *. set (n := Nat.min (length (take m (drop r G))) (Z.to_nat wnd)) in *.
  assert (length (take n (take m (drop r G))) = n) as En by (rewrite length_take; lia).
  assert (Z.of_nat n < 2 ^ 16) as Hn by (subst n; rewrite length_take; lia).
  apply bind_ok_inv in R as ([] & s1 & R1 & [= _ <-]).
  destruct (Nat.ltb_spec 0 n); [|injection R1 as <-; fold r; split_and!; (done || lia)].
  apply bind_ok_inv in R1 as ([] & s2 & [= <-] & [= <-]).
  match goal with |- recv_ok G ?s' /\ _ => set (s1 := s') end.
  assert (received s1 = received (c, x) ++ take n (take m (drop r G))) as Er by (unfold received; cbn; by rewrite app_assoc).
  split_and!; try done.
  2, 3: rewrite Er, length_app, En; fold r; lia.
  split; [rewrite Er; by apply prefix_extend|by intros ?| |cbn; by rewrite Hfin|].
  - intros _ _. rewrite Er, length_app, En. fold r. cbn. rewrite H3, u32_add_u32, Hfin. cbn. f_equal. lia.
  - intros Hd. destruct (H5 Hd). congruence.
Qed.

Lemma recv_input_data G o s h payload complete s' :
  recv_ok G s -> segment_at G o s h payload -> input_data h payload s = (Ok complete, s') ->
  recv_ok G s' /\ state s'.1 = state s.1 /\ irs s'.1 = irs s.1 /\ rx_fin s'.1 = rx_fin s.1
  /\ 0 <= Z.of_nat (length (received s')) - Z.of_nat (length (received s)) < 2 ^ 16.
Proof.
  destruct s as [c x]. intros Hok Hsg R. unfold input_data in R. apply bind_ok_inv in R as (c0 & s1 & [= <- <-] & R).
  unfold Datatypes.id in R. cbn [fst] in *. destruct payload as [|b payload]; [injection R as _ <-; split_and!; (done || lia)|].
  assert (state c ∉ [Established; FinWait1; FinWait2] \/ exists s1 a, state c ∈ [Established; FinWait1; FinWait2]
    /\ (if seq_lt (rcv_nxt c) (h_seq h) then mret false else take_data h (b :: payload)) (c, x) = (Ok a, s1)
    /\ s' = (s1.1 <| ack_pending := true |>, s1.2)) as [Hn|(s1 & a & Hin & R1 & ->)].
  { destruct (state c); try (left; set_solver); right;
      apply bind_ok_inv in R as (a & s1 & R1 & [= _ <-]); exists s1, a; (split_and!; [set_solver|done|done]). }
  { assert (s' = (c, x)) as -> by (destruct (state c); try set_solver; by injection R). split_and!; (done || lia). }
  clear R. assert (rx_fin c = false) as Hfin.
  { destruct (rx_fin c) eqn:E; [|done]. destruct (rv_fin _ _ Hok E) as [_ Ha]. unfold after_fin in Ha. cbn in Ha. clear -Ha Hin. destruct (state c); set_solver. }
  assert (recv_ok G s1 /\ state s1.1 = state c /\ irs s1.1 = irs c /\ rx_fin s1.1 = rx_fin c
    /\ 0 <= Z.of_nat (length (received s1)) - Z.of_nat (length (received (c, x))) < 2 ^ 16) as (I1 & I2 & I3 & I4 & I5).
  { destruct (seq_lt (rcv_nxt c) (h_seq h)) eqn:Hlt; [injection R1 as _ <-; split_and!; (done || lia)|].
    eapply (recv_take_data G o (c, x)); try done; cbn; intros E; rewrite E in Hin; set_solver. }
  split_and!; [destruct I1; by split|exact I2|exact I3|exact I4|apply I5|apply I5].
Qed.

Lemma recv_input_fin G o s0 s h payload complete s' :
  recv_ok G s -> segment_at G o s0 h payload -> irs s.1 = irs s0.1 ->
  0 <= Z.of_nat (length (received s)) - Z.of_nat (length (received s0)) < 2 ^ 16 ->
  input_fin h payload complete s = (Ok tt, s') -> recv_ok G s'.
Proof.
  destruct s as [c x]. cbn [fst]. intros Hok [S1 S2 S3 S4 S5] Hirs Hr R. unfold input_fin in R.
  apply bind_ok_inv in R as (c0 & s1 & [= <- <-] & R). unfold Datatypes.id in R. cbn [fst] in *.
  destruct (has h TCP_FIN) eqn:Hf; [|by injection R as <-]. destruct complete; [|by injection R as <-]. cbn [andb] in R.
  destruct (Z.eqb_spec (u32 (h_seq h + u32 (Z.of_nat (length payload)))) (rcv_nxt c)) as [E|]; [|by injection R as <-].
  specialize (S5 eq_refl). apply bind_ok_inv in R as (first & s1 & R1 & R).
  assert (first = false /\ s1 = (c, x) \/
          first = true /\ same_rx (c, x) s1 /\ after_fin (state s1.1)
          /\ state c ∈ [Established; FinWait1; FinWait2]) as Hcase.
  { destruct (state c); try (injection R1 as <- <-; by left); right.
    1, 2: injection R1 as <- <-; unfold same_rx, after_fin; split_and!; try done; set_solver.
    apply bind_ok_inv in R1 as ([] & s2 & R2 & [= <- <-]). apply bind_ok_inv in R2 as (t & s3 & [= <- <-] & [= <-]).
    unfold same_rx, after_fin; split_and!; try done; set_solver. }
  destruct Hcase as [[-> ->]|(-> & Hsame & Ha & Hst)].
  { apply bind_ok_inv in R as ([] & s2 & [= <-] & [= <-]). destruct Hok. by split. }
  pose proof Hok as [H1 H2 H3 H4 H5]. cbn [fst] in *.
  assert (state c <> SynSent /\ state c <> Closed) as [Hsyn Hcl] by (split; intros Ec; rewrite Ec in Hst; set_solver).
  specialize (H3 Hsyn Hcl). apply bind_ok_inv in R as ([] & s2 & [= <-] & [= <-]).
  assert (rx_fin c = false) as Hfin.
  { destruct (rx_fin c) eqn:Ex; [|done]. destruct (H4 eq_refl) as [_ Hb]. unfold after_fin in Hb. clear -Hb Hst. destruct (state c); set_solver. }
  rewrite Hfin in H3. cbn [b2z Z.b2z] in H3.
  assert (Z.of_nat (length (received (c, x))) = Z.of_nat (length G)) as El.
  { rewrite S1, u32_add_u32, H3, Hirs in E. unfold u32 in E at 2. rewrite (Z.mod_small (Z.of_nat (length payload))) in E by lia.
    apply u32_inj in E; lia. }
  assert (received (c, x) = G) as Eall.
  { destruct H1 as [k Hk]. rewrite Hk in El. rewrite length_app in El. destruct k; [by rewrite app_nil_r in Hk|cbn in El; lia]. }
  destruct Hsame as (E1 & E2 & E3 & E4 & E5 & E6). cbn [fst snd] in *.
  match goal with |- recv_ok G ?s' => set (s2 := s') end.
  assert (received s2 = G) as Er by (rewrite <- Eall; unfold received; cbn; congruence).
  assert (state s2.1 <> SynSent) as Hn by (cbn; intros Ec; unfold after_fin in Ha; rewrite Ec in Ha; set_solver).
  split; rewrite ?Er; [done|done| |by intros _; split|].
  - intros _ _. cbn. rewrite E2, H3, E3, u32_add_u32, <- El. f_equal. lia.
  - cbn. rewrite E5, E1. intros Hd. destruct (H5 Hd). congruence.
Qed.

(** The part of [input] after the acceptability test. *)
Lemma recv_synchronized G o s h payload s' :
  recv_ok G s -> state s.1 <> SynSent -> state s.1 <> Closed -> segment_at G o s h payload ->
  input_synchronized h payload s = (Ok tt, s') -> recv_ok G s'.
Proof.
  intros Hok Hsyn Hcl Hsg R. unfold input_synchronized in R.
  apply bind_ok_inv in R as (wnd & s1 & R1 & R). pose proof (rx_rcv_wnd s) as F1. rewrite R1 in F1. cbn [snd] in F1.
  pose proof (keeps_rcv_wnd _ _ _ R1) as K1.
  assert (recv_ok G s1) as Hok1 by (eapply recv_ok_frame; [done|done|by rewrite K1|by rewrite K1]).
  apply bind_ok_inv in R as (c & s2 & [= <- <-] & R). unfold Datatypes.id in R.
  destruct (negb (acceptable _ _ _ _)).
  { destruct (negb (has h TCP_RST)); [apply bind_ok_inv in R as (t & s2 & [= <- <-] & [= <-])|by injection R as <-].
    destruct Hok1. destruct (_ && _); by split. }
  unfold input_accepted in R. rewrite <- K1 in Hsyn, Hcl.
  apply (segment_at_same _ _ _ s1) in Hsg; [|done]. clear R1 F1 K1 Hok.
  assert (forall {A} (m : tcping A) a s2, frames same_rx m -> goes (state s1.1) (state s1.1) m -> m s1 = (Ok a, s2) -> recv_ok G s2 /\ same_rx s1 s2) as Hfr.
  { intros A m a s2 F Gm R2. pose proof (F s1) as F2. rewrite R2 in F2. cbn [snd] in F2. split; [|done].
    eapply recv_ok_frame; [exact Hok1|done|by eapply Gm; [done|apply rtc_refl|exact R2]|by intros ?]. }
  destruct (has h TCP_RST).
  { eapply (Hfr _ _ _ _ (rx_finish _ _) (goes_finish _ _ _ _) R). }
  destruct (has h TCP_SYN); [injection R as <-; destruct Hok1; by split|].
  destruct (negb (has h TCP_ACK)); [by injection R as <-|].
  apply bind_ok_inv in R as (go & s2 & R2 & R).
  destruct (Hfr _ _ _ _ (rx_input_ack _ _) (goes_input_ack _ _ _ _) R2) as [Hok2 Hs2].
  destruct go; [|by injection R as <-].
  apply (segment_at_same _ _ _ s2) in Hsg; [|done].
  apply bind_ok_inv in R as (complete & s3 & R3 & R).
  destruct (recv_input_data _ _ _ _ _ _ _ Hok2 Hsg R3) as (Hok3 & Es & Ei & Ef & Hr).
  by eapply (recv_input_fin G o s2 s3).
Qed.

Lemma recv_syn_sent G s h s' :
  recv_ok G s -> state s.1 = SynSent -> input_syn_sent h s = (Ok tt, s') -> recv_ok G s'.
Proof.
  destruct s as [c x]. cbn [fst]. intros Hok Hst R. unfold input_syn_sent in R.
  apply bind_ok_inv in R as (c0 & s1 & [= <- <-] & R). unfold Datatypes.id in R. cbn [fst] in R.
  pose proof Hok as [H1 H2 H3 H4 H5]. cbn [fst] in *. specialize (H2 Hst).
  destruct (has h TCP_ACK && negb _).
  { destruct (negb _); injection R as <-; [|done]. destruct Hok; by split. }
  destruct (has h TCP_RST).
  { destruct (_ && _); [|by injection R as <-]. pose proof (rx_finish Refused true (c, x)) as F. rewrite R in F. cbn [snd] in F.
    pose proof (goes_finish SynSent SynSent Refused true (c, x) tt s' Hst (rtc_refl _ _) R) as Hr.
    eapply recv_ok_frame; [exact Hok|done|by cbn; rewrite Hst|]. intros _. unfold finish in R.
    apply bind_ok_inv in R as (st & s1 & [= <- <-] & R). cbn [fst] in R. rewrite Hst in R. cbn in R. right.
    apply bind_ok_inv in R as ([] & s1 & [= <-] & R). apply bind_ok_inv in R as (c1 & s1 & [= <- <-] & R).
    apply bind_ok_inv in R as ([] & s1 & [= <-] & [= <-]). done. }
  destruct (negb _); [by injection R as <-|].
  apply bind_ok_inv in R as (t & s1 & [= <- <-] & R). apply bind_ok_inv in R as ([] & s1 & [= <-] & R).
  apply bind_ok_inv in R as ([] & s2 & [= <-] & [= <-]). cbn [fst snd].
  assert (rx_fin c = false) as Hfin.
  { destruct (rx_fin c); [|done]. destruct (H4 eq_refl) as [_ Ha]. rewrite Hst in Ha. unfold after_fin in Ha. set_solver. }
  match goal with |- recv_ok G (?d <| ack_pending := true |>, _) =>
    assert (rx d = rx c /\ rx_fin d = rx_fin c /\ shutdown_done d = shutdown_done c /\ state d = Established
            /\ irs d = h_seq h /\ rcv_nxt d = u32 (h_seq h + 1)) as (E1 & E2 & E3 & E4 & E5 & E6);
    [|generalize dependent d; intros c2 E1 E2 E3 E4 E5 E6] end.
  { cbv zeta. destruct (rtt_sample _) as [[seq t0]|]; [destruct (seq_le seq (h_ack h)); unfold rtt_update; cbv zeta; repeat case_match|]; cbn; split_and!; congruence. }
  assert (received (c2 <| ack_pending := true |>, x <| log ::= fun l => l ++ [MkEvent (now x) (TcpEstablished (id c))] |>) = []) as Er.
  { unfold received in *. cbn in *. rewrite E1. exact H2. }
  split; rewrite ?Er; cbn; rewrite ?E1, ?E2, ?E3, ?E4, ?E5, ?E6, ?Hfin; try done.
  - rewrite <- H2. done.
  - intros _ _. cbn. f_equal. lia.
  - intros Hd. destruct (H5 Hd). congruence.
Qed.

Lemma recv_drain fuel s s' :
  drain_rx first_slice fuel s = (Ok tt, s') ->
  received s' = received s /\ state s'.1 = state s.1 /\ rcv_nxt s'.1 = rcv_nxt s.1 /\ irs s'.1 = irs s.1
  /\ rx_fin s'.1 = rx_fin s.1 /\ shutdown_done s'.1 = shutdown_done s.1 /\ (rx s.1 = [] -> rx s'.1 = []).
Proof.
  revert s. induction fuel as [|fuel IH]; intros [c x] R; cbn [drain_rx] in R;
    apply bind_ok_inv in R as (c0 & s1 & [= <- <-] & R); unfold Datatypes.id in R; cbn [fst] in R.
  { destruct (rx c) eqn:E; [by injection R as <-|done]. }
  destruct (rx c) as [|b l] eqn:Erx; [by injection R as <-|]. rewrite <- Erx in *.
  apply bind_ok_inv in R as (t & s1 & [= <- <-] & R). apply bind_ok_inv in R as (n & s1 & R1 & R). cbn [fst snd] in *.
  unfold on_up in R1. cbn in R1. destruct (tcp_write (now x) (id c) _ (inner (up x))) as [n' u]. injection R1 as <- <-.
  apply bind_ok_inv in R as ([] & s1 & [= <-] & R). cbn [fst snd] in R.
  set (chunk := take (first_slice c) (rx c)) in *. set (k := Nat.min n' (length chunk)) in *.
  match type of R with (if _ then _ else _) ?q = _ => set (s2 := q) in * end.
  assert (received s2 = received (c, x)) as Er.
  { unfold received, s2. cbn. rewrite <- app_assoc. f_equal.
    replace (take n' chunk) with (take k (rx c)); [apply take_drop|]. subst chunk k. rewrite take_take, length_take.
    destruct (decide (n' `min` first_slice c <= length (rx c))%nat); [f_equal; lia|]. by rewrite !take_ge by lia. }
  assert (received s' = received s2 /\ state s'.1 = state s2.1 /\ rcv_nxt s'.1 = rcv_nxt s2.1 /\ irs s'.1 = irs s2.1
    /\ rx_fin s'.1 = rx_fin s2.1 /\ shutdown_done s'.1 = shutdown_done s2.1 /\ (rx s2.1 = [] -> rx s'.1 = [])) as (I1 & I2 & I3 & I4 & I5 & I6 & I7).
  { destruct (k <? length chunk)%nat; [by injection R as <-|by apply IH]. }
  rewrite I1, Er. split_and!; try done. cbn. rewrite Erx. done.
Qed.

Lemma recv_process_rx G s s' :
  recv_ok G s -> process_rx first_slice s = (Ok tt, s') -> recv_ok G s' /\ state s'.1 = state s.1.
Proof.
  intros Hok R. unfold process_rx in R. apply bind_ok_inv in R as (n & s1 & [= <- <-] & R).
  apply bind_ok_inv in R as ([] & s1 & R1 & R). apply recv_drain in R1 as (I1 & I2 & I3 & I4 & I5 & I6 & I7).
  assert (recv_ok G s1) as Hok1.
  { destruct Hok as [H1 H2 H3 H4 H5]. split; rewrite ?I1, ?I2, ?I3, ?I4, ?I5, ?I6; try done. intros Hd. destruct (H5 Hd). auto. }
  clear Hok I1 I3 I4 I5 I6 I7. rewrite <- I2. clear I2 s. destruct s1 as [c x].
  apply bind_ok_inv in R as (c0 & s1 & [= <- <-] & R). unfold Datatypes.id in R. cbn [fst] in *.
  apply bind_ok_inv in R as (t & s1 & [= <- <-] & R). apply bind_ok_inv in R as ([] & s1 & R1 & R).
  assert (recv_ok G s1 /\ state s1.1 = state c) as [Hok2 Es].
  { destruct ((length (rx c) =? 0)%nat && rx_fin c && negb (shutdown_done c)) eqn:E; [|by injection R1 as <-].
    apply bind_ok_inv in R1 as ([] & s2 & [= <-] & [= <-]). apply andb_true_iff in E as [[E1 E2]%andb_true_iff _].
    apply Nat.eqb_eq, nil_length_inv in E1. destruct Hok1 as [H1 H2 H3 H4 H5]. split; [|done]. split; try done. }
  apply bind_ok_inv in R as (wnd & s2 & R2 & [= <-]). pose proof (rx_rcv_wnd s1) as F. rewrite R2 in F. cbn [snd] in F.
  pose proof (keeps_rcv_wnd _ _ _ R2) as K. rewrite <- Es, <- K.
  assert (recv_ok G s2) as Hok3 by (eapply recv_ok_frame; [exact Hok2|done|by rewrite K|by rewrite K; auto]).
  cbv zeta. cbn [fst].
  match goal with |- context [if ?b then _ else _] => destruct b end; [|destruct s2; by split].
  split; [|done]. destruct Hok3. by split.
Qed.

Lemma goes_rtc {A} (m : tcping A) s a s' :
  (forall st0 st, goes st0 st m) -> m s = (Ok a, s') -> rtc rfc (state s.1) (state s'.1).
Proof. intros Gm R. exact (Gm _ _ s a s' eq_refl (rtc_refl _ _) R). Qed.

(** No operation goes back to [SynSent]. *)
Lemma goes_not_syn_sent {A} (m : tcping A) s a s' :
  (forall st0 st, goes st0 st m) -> state s.1 <> SynSent -> m s = (Ok a, s') -> state s'.1 <> SynSent.
Proof. intros Gm Hn R E. apply Hn. by eapply syn_sent_rfc; [eapply goes_rtc|]. Qed.

(** An operation that leaves the receive side, from a state other than
    [SynSent]. *)
Lemma recv_frame_op {A} G (m : tcping A) s a s' :
  frames same_rx m -> (forall st0 st, goes st0 st m) -> state s.1 <> SynSent -> recv_ok G s -> m s = (Ok a, s') -> recv_ok G s'.
Proof.
  intros F Gm Hn Hok R. pose proof (F s) as F1. rewrite R in F1.
  eapply recv_ok_frame; [exact Hok|exact F1|by eapply goes_rtc|done].
Qed.

Lemma recv_process G s s' :
  recv_ok G s -> state s.1 <> SynSent -> process first_slice s = (Ok tt, s') -> recv_ok G s'.
Proof.
  intros Hok Hn R. unfold process in R. apply bind_ok_inv in R as (stop & s1 & R1 & R).
  assert (recv_ok G s1 /\ state s1.1 <> SynSent) as [Hok1 Hn1].
  { split; [by eapply (recv_frame_op G); [apply rx_opening|intros; apply goes_opening| | |exact R1]|].
      by eapply goes_not_syn_sent; [intros; apply goes_opening| |exact R1]. }
  destruct stop; [by injection R as <-|].
  apply bind_ok_inv in R as ([] & s2 & R2 & R). destruct (recv_process_rx _ _ _ Hok1 R2) as [Hok2 E2]. rewrite <- E2 in Hn1.
  apply bind_ok_inv in R as (c0 & s3 & [= <- <-] & R). unfold Datatypes.id in R.
  apply bind_ok_inv in R as (stop & s3 & R3 & R).
  assert (recv_ok G s3 /\ state s3.1 <> SynSent) as [Hok3 Hn3].
  { assert (s3 = s2 \/ fill_tx (Z.to_nat TX_CAPACITY) (replicate (Z.to_nat READ_CHUNK) 0) s2 = (Ok stop, s3)) as [->|R3'].
    { destruct (state s2.1); try (left; by injection R3); destruct (tx_eof s2.1); try (left; by injection R3); by right. }
    - done.
    - split; [by eapply (recv_frame_op G); [apply rx_fill|intros; apply goes_fill| | |exact R3']|].
      by eapply goes_not_syn_sent; [intros; apply goes_fill| |exact R3']. }
  destruct stop; [by injection R as <-|]. clear R3.
  apply bind_ok_inv in R as ([] & s4 & R4 & R).
  assert (recv_ok G s4 /\ state s4.1 <> SynSent) as [Hok4 Hn4].
  { split; [by eapply (recv_frame_op G); [apply rx_transmit|intros; apply goes_transmit| | |exact R4]|].
      by eapply goes_not_syn_sent; [intros; apply goes_transmit| |exact R4]. }
  apply bind_ok_inv in R as (c1 & s5 & [= <- <-] & R). unfold Datatypes.id in R.
  destruct (ack_pending s4.1); [|by injection R as <-].
  eapply (recv_frame_op G); [apply rx_emit|intros; apply goes_keeps, keeps_emit| | |exact R]; done.
Qed.

(** A program that leaves the state or closes the connection. *)
Definition closes {A} (m : tcping A) : Prop :=
  forall s a s', m s = (Ok a, s') -> state s'.1 = state s.1 \/ state s'.1 = Closed.

Lemma closes_keeps {A} (m : tcping A) : keeps m -> closes m.
Proof. intros K s a s' R. left. by eapply K. Qed.

Lemma closes_bind {A B} (m : tcping A) (k : A -> tcping B) : closes m -> (forall a, closes (k a)) -> closes (m ≫= k).
Proof.
  intros Hm Hk s b s' R. apply bind_ok_inv in R as (a & s1 & R1 & R2).
  destruct (Hm _ _ _ R1) as [E|E], (Hk _ _ _ _ R2) as [E'|E']; try (by right); [left|right]; congruence.
Qed.

Lemma closes_finish reason reset : closes (finish reason reset).
Proof.
  intros s a s' R. unfold finish in R. apply bind_ok_inv in R as (st & s1 & [= <- <-] & R).
  destruct (decide (state s.1 = Closed)); [injection R as _ <-; by left|]. right.
  apply bind_ok_inv in R as ([] & s1 & [= <-] & R). apply bind_ok_inv in R as (c1 & s1 & [= <- <-] & R).
  by apply bind_ok_inv in R as ([] & s1 & [= <-] & [= _ <-]).
Qed.

Lemma keeps_simple :
  keeps (send_syn (U:=Recorded U)) /\ keeps (send_syn_ack (U:=Recorded U)) /\ keeps (send_rst (U:=Recorded U)).
Proof. apply keeps_sends. Qed.

Ltac closes_step :=
  match goal with
  | |- closes (_ ≫= _) => apply closes_bind; [|intros ?]
  | |- closes (finish _ _) => apply closes_finish
  | |- closes (if ?b then _ else _) => destruct b
  | |- closes (match ?b with _ => _ end) => destruct b
  | |- closes (mret _) => apply closes_keeps, keeps_ret
  | |- closes (conn _) => apply closes_keeps, keeps_conn
  | |- closes (ctx _) => apply closes_keeps, keeps_ctx
  | |- closes (emit _ _ _) => apply closes_keeps, keeps_emit
  | |- closes arm_rtx => apply closes_keeps, keeps_arm
  | |- closes send_syn => apply closes_keeps, keeps_simple
  | |- closes send_syn_ack => apply closes_keeps, keeps_simple
  | |- closes send_rst => apply closes_keeps, keeps_simple
  | |- closes (set_conn _) => apply closes_keeps, keeps_set; intros ?; cbn; repeat case_match; reflexivity
  end.

Lemma closes_on_timer : closes on_timer.
Proof. unfold on_timer, on_rtx. repeat closes_step. Qed.

Lemma closes_abort : closes abort.
Proof. unfold abort. repeat closes_step. Qed.

Lemma closes_start : closes start_active.
Proof. unfold start_active. repeat closes_step. Qed.

Lemma closes_end_time_wait : closes end_time_wait.
Proof. unfold end_time_wait. repeat closes_step. Qed.

Lemma recv_closes {A} G (m : tcping A) s a s' :
  frames same_rx m -> closes m -> (forall st0 st, goes st0 st m) -> recv_ok G s -> m s = (Ok a, s') -> recv_ok G s'.
Proof.
  intros F C Gm Hok R. pose proof (F s) as F1. rewrite R in F1.
  eapply recv_ok_frame; [exact Hok|exact F1|by eapply goes_rtc|]. intros <-. by eapply C.
Qed.

Lemma recv_input G s h payload s' :
  recv_ok G s -> (exists o, segment_at G o s h payload) -> input h payload s = (Ok tt, s') -> recv_ok G s'.
Proof.
  intros Hok [o Hsg] R. unfold input in R. apply bind_ok_inv in R as (c & s1 & [= <- <-] & R). unfold Datatypes.id in R.
  destruct (state s.1) eqn:Es; try (by injection R as <-);
    try (eapply recv_synchronized; [exact Hok|by rewrite Es|by rewrite Es|exact Hsg|exact R]).
  - destruct (has h TCP_RST && _); [|by injection R as <-].
    eapply (recv_closes G); [apply rx_finish|apply closes_finish|intros; apply goes_finish|exact Hok|exact R].
  - by eapply recv_syn_sent.
  - destruct (_ && _); [|eapply recv_synchronized; [exact Hok|by rewrite Es|by rewrite Es|exact Hsg|exact R]].
    eapply (recv_closes G); [apply rx_send_syn_ack|apply closes_keeps, keeps_simple|intros; apply goes_keeps, keeps_simple|exact Hok|exact R].
Qed.

Lemma recv_run_op G s op s' :
  recv_ok G s -> from_guest G s op -> run_op first_slice op s = (Ok tt, s') -> recv_ok G s'.
Proof.
  intros Hok Hg R. destruct op; cbn [run_op from_guest] in *.
  - eapply (recv_closes G); [|apply closes_start|intros; apply (goes_run_op first_slice _ _ OpStart)|exact Hok|exact R]. unfold start_active. rx_frame.
  - by eapply recv_input.
  - eapply (recv_closes G); [apply rx_on_timer|apply closes_on_timer|intros; apply goes_on_timer|exact Hok|exact R].
  - destruct (decide (state s.1 = SynSent)) as [Es|]; [|by eapply recv_process].
    unfold process in R. apply bind_ok_inv in R as (stop & s1 & R1 & R).
    unfold process_opening in R1. apply bind_ok_inv in R1 as (c & s2 & [= <- <-] & R1). apply bind_ok_inv in R1 as (t & s2 & [= <- <-] & R1).
    unfold Datatypes.id in R1. rewrite Es in R1. apply bind_ok_inv in R1 as ([] & s2 & R1 & [= <- <-]). injection R as <-.
    destruct (_ <=? _); [|by injection R1 as <-].
    eapply (recv_closes G); [apply rx_finish|apply closes_finish|intros; apply goes_finish|exact Hok|exact R1].
  - eapply (recv_closes G); [|apply closes_abort|intros; apply (goes_run_op first_slice _ _ OpAbort)|exact Hok|exact R]. unfold abort. rx_frame.
  - eapply (recv_closes G); [|apply closes_end_time_wait|intros; apply (goes_run_op first_slice _ _ OpEndTimeWait)|exact Hok|exact R]. unfold end_time_wait. rx_frame.
Qed.

(** A connection with an upstream that has recorded nothing yet, through
    operations at any times whose segments are of the guest's stream [G]. *)
Inductive stream_reach (G : list Z) : conn_state -> Prop :=
| sr_new i f syn is_ local t timeout u x :
    x = MkCtx t (MkRec u [] []) [] [] -> stream_reach G (new i f syn is_ local t timeout, x)
| sr_active i f is_ local t timeout u x :
    x = MkCtx t (MkRec u [] []) [] [] -> stream_reach G (new_active i f is_ local t timeout, x)
| sr_op s t lg op s' :
    stream_reach G s -> from_guest G s op ->
    run_op first_slice op (s.1, s.2 <| now := t |> <| log := lg |> <| out := [] |>) = (Ok tt, s') -> stream_reach G s'.

Lemma stream_recv G s : stream_reach G s -> recv_ok G s.
Proof.
  induction 1 as [i f syn is_ local t timeout u x ->|i f is_ local t timeout u x ->|s t lg op s' _ IH Hg R].
  - split; try done; unfold received; cbn; [apply prefix_nil|]. intros _ _. unfold u32. f_equal. lia.
  - split; try done; unfold received; cbn. apply prefix_nil.
  - eapply recv_run_op; [| |exact R]; [destruct IH; by split|]. destruct op; try done. destruct Hg as [o []]. exists o. by split.
Qed.


End streams.
End tcpstream.
