(* ===== verification/NetTcpSend.v ===== *)
(** * TCP: the stream to the guest (crates/vetro-net/src/tcp.rs)

    The segments to the guest carry the bytes the upstream has given, each at
    its place in the sequence space, through acknowledgements, timeouts and
    retransmissions; and what happens when 2^32 bytes have been sent. *)

From Stdlib Require Import ZArith Lia Bool.
From stdpp Require Import base list numbers strings relations.
From S2P Require Import Prelude Bits SnapWire NetWire NetTcp NetTcpProof NetTcpStream.
Local Open Scope Z_scope.
Local Open Scope vetro_scope.

Module tcpsend.
Import wire net tcp tcpproof tcpstream.

Create HintDb txf.
Create HintDb issf.

Section sending.
Context {U : Type} `{!Upstream U, !UpstreamLaws U}.
Variable first_slice : TcpConn -> nat.
Hypothesis first_slice_ok : forall c, rx c <> [] -> (0 < first_slice c <= length (rx c))%nat.

Abbreviation tcping := (prog (TcpConn * Ctx (Recorded U)) halt).
Abbreviation conn_state := (TcpConn * Ctx (Recorded U))%type.

(** ** To the guest *)

(** The send side once the SYN is acknowledged: [pre] is acknowledged and [tx]
    is not, [N] numbers from [snd_una] on are sent since the last timeout and
    [M] have been sent at all; [a] is 1 when the FIN is acknowledged too. *)
Definition synced (c : TcpConn) (D : list Z) (a N M : Z) : Prop :=
  (exists pre, D = pre ++ tx c /\ snd_una c = u32 (iss c + 1 + Z.of_nat (length pre) + a))
  /\ snd_nxt c = u32 (snd_una c + N) /\ snd_max c = u32 (snd_una c + M) /\ 0 <= N <= M.

Definition tx_len (c : TcpConn) : Z := Z.of_nat (length (tx c)).

(** The FIN is sent, right after the last byte of [D]. *)
Definition fin_sent (c : TcpConn) (D : list Z) : Prop :=
  fin_seq c = Some (u32 (iss c + 1 + Z.of_nat (length D))) /\ tx_eof c = true.

Definition send_ok (c : TcpConn) (D : list Z) : Prop :=
  match state c with
  | Closed => True
  | Connecting => snd_una c = iss c /\ snd_nxt c = iss c /\ snd_max c = iss c /\ tx c = [] /\ D = [] /\ fin_seq c = None
  | SynSent =>
      snd_una c = iss c /\ snd_nxt c = u32 (iss c + 1) /\ snd_max c = u32 (iss c + 1) /\ tx c = [] /\ D = [] /\ fin_seq c = None
  | SynReceived =>
      snd_una c = iss c /\ snd_nxt c = u32 (iss c + 1) /\ snd_max c = u32 (iss c + 1) /\ tx c = D /\ fin_seq c = None
  | Established | CloseWait => exists N M, synced c D 0 N M /\ M <= tx_len c /\ fin_seq c = None
  | FinWait1 | LastAck | Closing => exists N, synced c D 0 N (tx_len c + 1) /\ fin_sent c D
  | FinWait2 | TimeWait => synced c D 1 0 0 /\ tx c = [] /\ fin_sent c D
  end.

(** A segment to the guest: its payload is in [D] where its number says, and a
    FIN is at the end of [D]. *)
Definition seg_ok (i : Z) (D : list Z) (eof : bool) (g : Segment) : Prop :=
  (seg_payload g <> [] -> exists o : nat, seg_seq g = u32 (i + 1 + Z.of_nat o) /\ seg_payload g `prefix_of` drop o D)
  /\ (test_mask (seg_flags g) TCP_FIN = true -> eof = true /\ seg_seq g = u32 (i + 1 + Z.of_nat (length D))).

(** A segment with neither. *)
Definition quiet (g : Segment) : Prop := seg_payload g = [] /\ test_mask (seg_flags g) TCP_FIN = false.

Lemma quiet_ok i D eof g : quiet g -> seg_ok i D eof g.
Proof. intros [E F]. split; rewrite ?E, ?F; done. Qed.

Record send_inv (s : conn_state) : Prop := {
  si_conn : send_ok s.1 (given (up s.2));
  si_out : Forall (seg_ok (iss s.1) (given (up s.2)) (tx_eof s.1)) (out s.2);
}.

(** What an operation leaves that only sends quiet segments. *)
Definition same_tx (s s' : conn_state) : Prop :=
  tx s'.1 = tx s.1 /\ snd_una s'.1 = snd_una s.1 /\ snd_nxt s'.1 = snd_nxt s.1 /\ snd_max s'.1 = snd_max s.1
  /\ iss s'.1 = iss s.1 /\ fin_seq s'.1 = fin_seq s.1 /\ tx_eof s'.1 = tx_eof s.1 /\ given (up s'.2) = given (up s.2)
  /\ exists l, out s'.2 = out s.2 ++ l /\ Forall quiet l.

#[local] Instance same_tx_preorder : PreOrder same_tx.
Proof.
  split.
  - intros s. unfold same_tx. split_and!; try done. exists []. by rewrite app_nil_r.
  - intros s1 s2 s3 (A1 & A2 & A3 & A4 & A5 & A6 & A7 & A8 & l & A9 & A10) (B1 & B2 & B3 & B4 & B5 & B6 & B7 & B8 & l' & B9 & B10).
    unfold same_tx. split_and!; try congruence. exists (l ++ l'). split; [by rewrite B9, A9, app_assoc|by apply Forall_app].
Qed.

Lemma send_ok_same s s' D :
  same_tx s s' -> state s'.1 = state s.1 -> send_ok s.1 D -> send_ok s'.1 D.
Proof.
  intros (A1 & A2 & A3 & A4 & A5 & A6 & A7 & _) Es H. unfold send_ok, synced, fin_sent, tx_len in *.
  rewrite Es, A1, A2, A3, A4, A5, A6, A7. exact H.
Qed.

Lemma outs_same s s' (D : list Z) :
  same_tx s s' -> Forall (seg_ok (iss s.1) D (tx_eof s.1)) (out s.2) -> Forall (seg_ok (iss s'.1) D (tx_eof s'.1)) (out s'.2).
Proof.
  intros (A1 & A2 & A3 & A4 & A5 & A6 & A7 & _ & l & El & Hl) H. rewrite A5, A7, El. apply Forall_app. split; [done|].
  eapply Forall_impl; [exact Hl|]. intros g. apply quiet_ok.
Qed.

(** The state is as it was, or the connection is closed. *)
Lemma send_inv_frame s s' :
  same_tx s s' -> state s'.1 = state s.1 \/ state s'.1 = Closed -> send_inv s -> send_inv s'.
Proof.
  intros F Hs [H1 H2]. assert (given (up s'.2) = given (up s.2)) as Eg by apply F. split; rewrite Eg; [|by eapply outs_same].
  destruct Hs as [Hs|Hs]; [by eapply send_ok_same|]. unfold send_ok. by rewrite Hs.
Qed.

Ltac same_tx_tac := unfold same_tx; cbn; repeat case_match; cbn; split_and!; try reflexivity; exists []; rewrite ?app_nil_r; by split.

Ltac tx_step :=
  match goal with
  | |- frames _ (mret _) => apply frames_ret; apply _
  | |- frames _ (throw _) => apply frames_throw; apply _
  | |- frames _ (conn _ ≫= _) => apply frames_bind; [apply _|apply frames_gets; apply _|intros ?]
  | |- frames _ (_ ≫= _) => apply frames_bind; [apply _| |intros ?]
  | |- frames _ (conn _) => apply frames_gets; apply _
  | |- frames _ (ctx _) => apply frames_gets; apply _
  | |- frames _ (set_conn _) => apply frames_modify; intros [? ?]; same_tx_tac
  | |- frames _ (set_ctx _) => apply frames_modify; intros [? ?]; same_tx_tac
  | |- frames _ (push_log _) => apply frames_modify; intros [? ?]; same_tx_tac
  | |- frames _ (push_out _) => apply frames_modify; intros [? ?]; unfold same_tx; cbn; split_and!; try reflexivity; eexists; (split; [reflexivity|]); repeat constructor
  | |- frames _ (if ?b then _ else _) => destruct b
  | |- frames _ (match ?b with _ => _ end) => destruct b
  end.
Ltac tx_frame := repeat first [solve [eauto 2 with txf] | tx_step].

Lemma tx_rcv_wnd : frames same_tx (rcv_wnd (U:=Recorded U)).
Proof. unfold rcv_wnd. tx_frame. Qed.
Hint Resolve tx_rcv_wnd : txf.

Lemma tx_emit seq flags : test_mask flags TCP_FIN = false -> frames same_tx (emit (U:=Recorded U) seq flags []).
Proof.
  intros Hf. unfold emit. apply frames_bind; [apply _|apply tx_rcv_wnd|intros w].
  apply frames_bind; [apply _|tx_frame|intros _]. apply frames_bind; [apply _|apply frames_gets; apply _|intros c].
  apply frames_modify. intros [c1 x1]. unfold same_tx. cbn. split_and!; try reflexivity. eexists. split; [reflexivity|]. by repeat constructor.
Qed.
Hint Resolve tx_emit : txf.

Lemma tx_arm : frames same_tx (arm_rtx (U:=Recorded U)).
Proof. unfold arm_rtx. tx_frame. Qed.
Hint Resolve tx_arm : txf.

Lemma tx_send_rst : frames same_tx (send_rst (U:=Recorded U)).
Proof. unfold send_rst. tx_frame. Qed.

Lemma tx_finish reason reset : frames same_tx (finish (U:=Recorded U) reason reset).
Proof. unfold finish. tx_frame. Qed.

Lemma tx_grow acked : frames same_tx (grow_cwnd (U:=Recorded U) acked).
Proof. unfold grow_cwnd. tx_frame. Qed.

Lemma tx_time_wait : frames same_tx (enter_time_wait (U:=Recorded U)).
Proof. unfold enter_time_wait. tx_frame. Qed.

Lemma tx_take_data h payload : frames same_tx (take_data (U:=Recorded U) h payload).
Proof. unfold take_data. tx_frame. Qed.
Hint Resolve tx_send_rst tx_finish tx_grow tx_time_wait tx_take_data : txf.

Lemma tx_input_data h payload : frames same_tx (input_data (U:=Recorded U) h payload).
Proof. unfold input_data. tx_frame. Qed.

Lemma tx_write t i data : frames same_tx (on_up (U:=Recorded U) (tcp_write t i data)).
Proof. intros [c x]. unfold on_up. cbn. destruct (tcp_write _ _ _ _) as [n u]. same_tx_tac. Qed.

Lemma tx_status t i : frames same_tx (on_up (U:=Recorded U) (tcp_status t i)).
Proof. intros [c x]. unfold on_up. cbn. destruct (tcp_status _ _ _) as [n u]. same_tx_tac. Qed.
Hint Resolve tx_input_data tx_write tx_status : txf.

Lemma tx_drain fuel : frames same_tx (drain_rx (U:=Recorded U) first_slice fuel).
Proof. induction fuel as [|fuel IH]; cbn [drain_rx]; tx_frame. Qed.
Hint Resolve tx_drain : txf.

Lemma tx_process_rx : frames same_tx (process_rx (U:=Recorded U) first_slice).
Proof. unfold process_rx. tx_frame. Qed.

(** ** Acknowledgements *)

Lemma u32_u32 x : u32 (u32 x) = u32 x.
Proof. unfold u32. by rewrite Z.mod_mod by lia. Qed.

Lemma u32_add_r x y : u32 (x + u32 y) = u32 (x + y).
Proof. unfold u32. by rewrite Zplus_mod_idemp_r. Qed.

(** A number after [una]. *)
Lemma ack_ahead una a : is_u 32 a -> seq_lt (u32 una) a = true -> exists k, 0 < k <= 2 ^ 31 /\ a = u32 (una + k).
Proof.
  intros Ha H. set (k := u32 (a - una)). pose proof (is_u_u32 (a - una)) as Hk. fold k in Hk. unfold is_u in Hk.
  assert (a = u32 (una + k)) as E.
  { subst k. rewrite u32_add_r. replace (una + (a - una)) with a by lia. symmetry. by apply u32_id. }
  assert (k <= 2 ^ 31) as Hk31.
  { destruct (decide (k <= 2 ^ 31)); [done|]. rewrite E in H.
    replace (u32 (una + k)) with (u32 (una + (k - 2 ^ 32))) in H.
    - rewrite seq_lt_spec in H by lia. destruct (Z.ltb_spec una (una + (k - 2 ^ 32))); [lia|done].
    - unfold u32. symmetry. rewrite <- (Z_mod_plus_full (una + (k - 2 ^ 32)) 1). f_equal. lia. }
  rewrite E, seq_lt_spec in H by lia. exists k. split; [|done]. destruct (Z.ltb_spec una (una + k)); [lia|done].
Qed.

(** An acknowledgement the tests let pass is of some of the [M] numbers sent. *)
Lemma ack_range una M a :
  is_u 32 a -> 0 <= M < 2 ^ 31 -> seq_lt (u32 una) a = true -> seq_lt (u32 (una + M)) a = false ->
  exists k, 0 < k <= M /\ a = u32 (una + k).
Proof.
  intros Ha HM H1 H2. destruct (ack_ahead una a Ha H1) as (k & Hk & ->). exists k. split; [|done].
  rewrite seq_lt_spec in H2 by lia. destruct (Z.ltb_spec (una + M) (una + k)); [done|lia].
Qed.

Lemma ack_one i a : is_u 32 a -> seq_lt (u32 i) a = true -> seq_le a (u32 (i + 1)) = true -> a = u32 (i + 1).
Proof.
  intros Ha H1 H2. destruct (ack_ahead i a Ha H1) as (k & Hk & ->). rewrite seq_le_spec in H2 by lia.
  destruct (Z.leb_spec (i + k) (i + 1)); [f_equal; lia|done].
Qed.

(** [snd_nxt] after an acknowledgement of [k] numbers. *)
Lemma nxt_after una N k :
  0 <= N < 2 ^ 31 -> 0 <= k < 2 ^ 31 ->
  (if seq_lt (u32 (una + N)) (u32 (una + k)) then u32 (una + k) else u32 (una + N)) = u32 (una + k + Z.max (N - k) 0).
Proof. intros HN Hk. rewrite seq_lt_spec by lia. destruct (Z.ltb_spec (una + N) (una + k)); f_equal; lia. Qed.

Lemma ack_new_data_fields t a n c :
  let c' := ack_new_data t a n c in
  tx c' = drop n (tx c) /\ snd_una c' = a /\ snd_nxt c' = (if seq_lt (snd_nxt c) a then a else snd_nxt c) /\ snd_max c' = snd_max c
  /\ iss c' = iss c /\ fin_seq c' = fin_seq c /\ tx_eof c' = tx_eof c /\ state c' = state c.
Proof.
  cbv zeta. unfold ack_new_data, rtt_update. cbv zeta. change (snd_nxt (c <| tx ::= drop n |> <| snd_una := a |>)) with (snd_nxt c).
  destruct (seq_lt (snd_nxt c) a); repeat case_match; cbn; split_and!; reflexivity.
Qed.

Lemma u32_diff x k : 0 <= k < 2 ^ 32 -> u32 (u32 (x + k) - x) = k.
Proof. intros H. unfold u32. rewrite Zminus_mod_idemp_l. replace (x + k - x) with k by lia. by apply Z.mod_small. Qed.

(** What an acknowledgement leaves, before the state follows a FIN that it
    covers. *)
Definition acked_ok (c : TcpConn) (D : list Z) (fin : bool) : Prop :=
  if fin then state c ∈ [FinWait1; LastAck; Closing] /\ synced c D 1 0 0 /\ tx c = [] /\ fin_sent c D
  else send_ok c D.

Definition bounded (D : list Z) : Prop := Z.of_nat (length D) + 2 < 2 ^ 32.

(** [snd_una] is past the SYN. *)
Lemma una_not_iss c D a N M :
  is_u 32 (iss c) -> bounded D -> 0 <= a <= 1 -> synced c D a N M -> (snd_una c =? iss c) = false.
Proof.
  intros Hi Hb Ha [(pre & E & Hu) _]. apply Z.eqb_neq. rewrite Hu. intros Ei. unfold bounded in Hb. subst D. rewrite length_app in Hb.
  rewrite <- (u32_id (iss c)) in Ei at 2 by done. apply u32_inj in Ei; lia.
Qed.

(** The numbers of the data and, when it is sent, of the FIN. *)
Lemma ack_data c D t k N M n fin :
  is_u 32 (iss c) -> bounded D -> conn_ok c -> synced c D 0 N M -> 0 < k <= M ->
  (M <= tx_len c /\ fin_seq c = None /\ state c ∈ [Established; CloseWait]) \/
  (M = tx_len c + 1 /\ fin_sent c D /\ state c ∈ [FinWait1; LastAck; Closing]) ->
  acked_bytes (u32 (snd_una c + k)) c = (n, fin) ->
  acked_ok (ack_new_data t (u32 (snd_una c + k)) n c) D fin.
Proof.
  intros Hi Hb Hok Hs Hk Hcase. unfold acked_bytes. rewrite (una_not_iss c D 0 N M Hi Hb ltac:(lia) Hs).
  destruct Hs as ((pre & ED & Eu) & En & Em & HN). pose proof (ok_tx c Hok) as Hl. unfold tx_len, TX_CAPACITY in *.
  rewrite u32_diff by lia. set (a := u32 (snd_una c + k)).
  destruct (ack_new_data_fields t a n c) as (F1 & F2 & F3 & F4 & F5 & F6 & F7 & F8). set (c' := ack_new_data t a n c) in *.
  assert ((if seq_lt (snd_nxt c) a then a else snd_nxt c) = u32 (a + Z.max (N - k) 0)) as Enxt.
  { subst a. rewrite En, nxt_after by lia. by rewrite u32_add_u32. }
  assert (snd_max c = u32 (a + (M - k))) as Emax by (subst a; rewrite Em, u32_add_u32; f_equal; lia).
  (* the acknowledged bytes *)
  assert (forall m e, (m <= length (tx c))%nat -> n = m -> k = Z.of_nat m + e ->
    synced c' D e (Z.max (N - k) 0) (M - k)) as Hsync.
  { intros m e Hm -> Ekm. unfold synced. rewrite F1, F2, F3, F4, F5, Enxt. split_and!; try done; try lia.
    exists (pre ++ take m (tx c)). split; [by rewrite <- app_assoc, take_drop|]. subst a. rewrite Eu, u32_add_u32, length_app, length_take.
    f_equal. lia. }
  destruct Hcase as [(HM & Hfin & Hst)|(HM & [Hfin Heof] & Hst)]; rewrite Hfin.
  - intros [= En' <-]. unfold acked_ok, send_ok. rewrite F8.
    assert (exists N M, synced c' D 0 N M /\ M <= tx_len c' /\ fin_seq c' = None) as H.
    { eexists _, _. split_and!; [apply (Hsync (Z.to_nat k) 0); lia| |congruence]. unfold tx_len. rewrite F1, length_drop. lia. }
    clear -H Hst. destruct (state c); try done; set_solver.
  - assert (u32 (iss c + 1 + Z.of_nat (length D)) = u32 (snd_una c + Z.of_nat (length (tx c)))) as Ef.
    { rewrite Eu, u32_add_u32. f_equal. subst D. rewrite length_app. lia. }
    rewrite Ef. subst a. rewrite seq_lt_spec by lia.
    assert (fin_sent c' D) as Hfs by (unfold fin_sent; rewrite F5, F6, F7; done).
    destruct (Z.ltb_spec (snd_una c + Z.of_nat (length (tx c))) (snd_una c + k)); intros [= En' <-].
    + assert (k = Z.of_nat (length (tx c)) + 1) as -> by lia.
      assert (u32 (Z.of_nat (length (tx c)) + 1 - 1) = Z.of_nat (length (tx c))) as E1 by (unfold u32; rewrite Z.mod_small; lia).
      rewrite E1 in En'. unfold acked_ok. rewrite F8. split_and!; [done| |by rewrite F1, <- En', drop_ge by lia|done].
      assert (synced c' D 1 (Z.max (N - (Z.of_nat (length (tx c)) + 1)) 0) (M - (Z.of_nat (length (tx c)) + 1))) as Hs by (apply (Hsync (length (tx c)) 1); lia).
      rewrite Z.max_r, HM, Z.sub_diag in Hs by lia. exact Hs.
    + unfold acked_ok, send_ok. rewrite F8.
      assert (exists N, synced c' D 0 N (tx_len c' + 1) /\ fin_sent c' D) as H'.
      { eexists. split; [|done]. replace (tx_len c' + 1) with (M - k) by (unfold tx_len; rewrite F1, length_drop; lia).
        apply (Hsync (Z.to_nat k) 0); lia. }
      clear -H' Hst. destruct (state c); try done; set_solver.
Qed.

(** The synchronized states, with the numbers sent. *)
Definition sent_case (c : TcpConn) (D : list Z) (a M : Z) : Prop :=
  (a = 0 /\ M <= tx_len c /\ fin_seq c = None /\ state c ∈ [Established; CloseWait]) \/
  (a = 0 /\ M = tx_len c + 1 /\ fin_sent c D /\ state c ∈ [FinWait1; LastAck; Closing]) \/
  (a = 1 /\ M = 0 /\ tx c = [] /\ fin_sent c D /\ state c ∈ [FinWait2; TimeWait]).

Lemma send_ok_cases c D :
  state c ∉ [Closed; Connecting; SynSent; SynReceived] -> send_ok c D -> exists a N M, synced c D a N M /\ sent_case c D a M.
Proof.
  unfold send_ok, sent_case. intros Hn H. destruct (state c) eqn:Es; try (exfalso; apply Hn; clear; set_solver).
  1, 2: destruct H as (N & M & H & HM & Hf); exists 0, N, M; split; [done|left; split_and!; (done || set_solver)].
  1, 2, 4: destruct H as (N & H & Hf); exists 0, N, (tx_len c + 1); split; [done|right; left; split_and!; (done || set_solver)].
  all: destruct H as (H & Ht & Hf); exists 1, 0, 0; split; [done|right; right; split_and!; (done || set_solver)].
Qed.

Lemma send_ok_of c D a N M : synced c D a N M -> sent_case c D a M -> send_ok c D.
Proof.
  intros H Hc. unfold send_ok. destruct Hc as [(-> & HM & Hf & Hs)|[(-> & -> & Hf & Hs)|(-> & -> & Ht & Hf & Hs)]].
  - assert (exists N M, synced c D 0 N M /\ M <= tx_len c /\ fin_seq c = None) as H' by eauto. clear -H' Hs. destruct (state c); try done; set_solver.
  - assert (exists N, synced c D 0 N (tx_len c + 1) /\ fin_sent c D) as H' by eauto. clear -H' Hs. destruct (state c); try done; set_solver.
  - assert (N = 0) as -> by (destruct H as (_ & _ & _ & ?); lia). clear -H Ht Hf Hs. destruct (state c); try done; set_solver.
Qed.

(** The fields of the send side, whatever is sent. *)
Definition same_send (s s' : conn_state) : Prop :=
  same_tx (s.1, s.2 <| out := [] |>) (s'.1, s'.2 <| out := [] |>) /\ state s'.1 = state s.1.

Lemma emit_out seq flags payload s s' :
  emit (U:=Recorded U) seq flags payload s = (Ok tt, s') ->
  same_send s s' /\ exists k w m, out s'.2 = out s.2 ++ [MkSegment seq k flags w m payload].
Proof.
  intros R. unfold same_send. rewrite (keeps_emit _ _ _ _ _ _ R). unfold emit in R. apply bind_ok_inv in R as (w & s1 & R1 & R).
  assert (s1 = s) as ->.
  { unfold rcv_wnd in R1. apply bind_ok_inv in R1 as (n & s2 & [= <- <-] & R1). destruct (_ <? _); [done|by injection R1]. }
  apply bind_ok_inv in R as ([] & s2 & [= <-] & R). apply bind_ok_inv in R as (c & s2 & [= <- <-] & [= <-]). split.
  - unfold same_tx. cbn. split_and!; try done. by exists [].
  - by eexists _, _, _.
Qed.

Lemma send_ok_send s s' D : same_send s s' -> send_ok s.1 D -> send_ok s'.1 D.
Proof. intros [F E] H. by apply (send_ok_same _ _ D F). Qed.

(** A segment that is right for the fields as they are. *)
Lemma send_emit seq flags payload s s' :
  send_inv s -> (forall k w m, seg_ok (iss s.1) (given (up s.2)) (tx_eof s.1) (MkSegment seq k flags w m payload)) ->
  emit (U:=Recorded U) seq flags payload s = (Ok tt, s') -> send_inv s' /\ same_send s s'.
Proof.
  intros [H1 H2] Hs R. apply emit_out in R as (Hf & k & w & m & Eo). split; [|done]. pose proof Hf as [F E].
  destruct F as (A1 & A2 & A3 & A4 & A5 & A6 & A7 & A8 & _). cbn in *. split; cbn; rewrite A8.
  - by eapply send_ok_send.
  - rewrite A5, A7, Eo. apply Forall_app. split; [done|]. apply Forall_singleton, Hs.
Qed.

Lemma send_fast_retransmit s s' :
  send_inv s -> state s.1 ∉ [Closed; Connecting; SynSent; SynReceived] ->
  fast_retransmit (U:=Recorded U) s = (Ok tt, s') -> send_inv s' /\ same_send s s'.
Proof.
  intros Hi Hst R. unfold fast_retransmit in R. apply bind_ok_inv in R as ([] & s1 & [= <-] & R).
  match type of R with _ ?q = _ => set (s1 := q) in R end.
  assert (same_tx s s1) as F by (unfold s1; same_tx_tac). assert (state s1.1 = state s.1) as Es by done.
  assert (send_inv s1) as Hi1 by (eapply send_inv_frame; [exact F|by left|done]).
  assert (same_send s s1) as Fs by (split; [unfold s1; same_tx_tac|done]). clearbody s1.
  apply bind_ok_inv in R as (c & s2 & [= <- <-] & R). unfold Datatypes.id in R.
  assert (forall s2, same_send s1 s2 -> same_send s s2) as Htr.
  { intros s2 [F2 E2]. destruct Fs as [F1 _]. split; [by etrans|congruence]. }
  destruct (tx s1.1) as [|b l] eqn:Etx; [injection R as <-; by split|]. rewrite <- Etx in *.
  destruct (_ =? 0); [injection R as <-; by split|].
  eapply send_emit in R as [H ?]; [|done|]; [by auto|]. intros k w m. split; [|done]. intros _. cbn [seg_seq seg_payload].
  rewrite <- Es in Hst. destruct (send_ok_cases _ _ Hst (si_conn _ Hi1)) as (a & N & M & [(pre & ED & Eu) _] & Hc).
  assert (a = 0) as -> by (destruct Hc as [[? _]|[[? _]|(_ & _ & E & _)]]; [done|done|congruence]).
  exists (length pre). rewrite Z.add_0_r in Eu. split; [done|]. rewrite ED, drop_app_length. eexists. symmetry. apply take_drop.
Qed.

(** ** The ACK of a segment *)

(** The parts of [input_ack] after the SYN is acknowledged. *)
Definition ack_new (h : TcpHeader) (payload : list Z) (t : Z) (c : TcpConn) : tcping bool :=
  let a := h_ack h in
  if seq_lt (snd_una c) a then
    let '(acked, fin) := acked_bytes a c in
    set_conn (ack_new_data t a acked);;
    grow_cwnd (u32 (Z.of_nat acked));;
    set_conn (fun c => c <| rtx_deadline := if snd_una c =? snd_max c then None else Some (after t (rto c)) |>);;
    mret fin
  else if (a =? snd_una c) && (length payload =? 0)%nat && negb (has h TCP_FIN) && (h_window h =? snd_wnd c)
          && negb (snd_wnd c =? 0) && negb (snd_max c =? snd_una c) then
    set_conn (fun c => c <| dup_acks := u32 (dup_acks c + 1) |>);;
    d ← conn dup_acks;
    (if d =? 3 then fast_retransmit else mret tt);;
    mret false
  else mret false.

Definition ack_fin (h : TcpHeader) (fin_acked : bool) : tcping bool :=
  set_conn (fun c =>
    if seq_lt (snd_wl1 c) (h_seq h) || ((snd_wl1 c =? h_seq h) && seq_le (snd_wl2 c) (h_ack h))
    then c <| snd_wnd := h_window h |> <| snd_wl1 := h_seq h |> <| snd_wl2 := h_ack h |> else c);;
  if (fin_acked : bool) then
    st ← conn state;
    match st with
    | FinWait1 => set_conn (fun c => c <| state := FinWait2 |>);; mret true
    | Closing => enter_time_wait;; mret true
    | LastAck => finish Normal false;; mret false
    | _ => mret true
    end
  else mret true.

Definition ack_rest (h : TcpHeader) (payload : list Z) (t : Z) : tcping bool :=
  c ← conn Datatypes.id;
  if seq_lt (snd_max c) (h_ack h) then set_conn (fun c => c <| ack_pending := true |>);; mret false else
  (if seq_le (snd_una c) (h_ack h) then set_conn (fun c => c <| retries := 0 |>) else mret tt);;
  fin_acked ← ack_new h payload t c;
  ack_fin h fin_acked.

Lemma input_ack_eq h payload :
  input_ack h payload =
  (c ← conn Datatypes.id;
   t ← ctx now;
   go ← (if decide (state c = SynReceived) then
           if seq_lt (snd_una c) (h_ack h) && seq_le (h_ack h) (snd_max c) then
             set_conn (fun c => c <| state := Established |> <| snd_wnd := h_window h |> <| snd_wl1 := h_seq h |> <| snd_wl2 := h_ack h |>);;
             push_log (TcpEstablished (id c));;
             mret true
           else push_out (MkSegment (h_ack h) 0 TCP_RST 0 None []);; mret false
         else mret true);
   if negb go then mret false else ack_rest h payload t : tcping bool).
Proof. reflexivity. Qed.

Lemma acked_ok_same s s' D fin :
  same_tx s s' -> state s'.1 = state s.1 -> acked_ok s.1 D fin -> acked_ok s'.1 D fin.
Proof.
  intros F Es H. destruct fin; [|by eapply send_ok_same]. destruct F as (A1 & A2 & A3 & A4 & A5 & A6 & A7 & _).
  unfold acked_ok, synced, fin_sent in *. rewrite Es, A1, A2, A3, A4, A5, A6, A7. exact H.
Qed.

(** What [ack_new] leaves. *)
Definition ack_inv (s : conn_state) (fin : bool) : Prop :=
  acked_ok s.1 (given (up s.2)) fin /\ Forall (seg_ok (iss s.1) (given (up s.2)) (tx_eof s.1)) (out s.2).

Lemma ack_inv_frame s s' fin :
  same_tx s s' -> state s'.1 = state s.1 -> ack_inv s fin -> ack_inv s' fin.
Proof.
  intros F Es [H1 H2]. assert (given (up s'.2) = given (up s.2)) as Eg by apply F. split; rewrite Eg; [by eapply acked_ok_same|by eapply outs_same].
Qed.

(** Just after the ACK of the SYN is seen and before it is taken. *)
Definition opening (c : TcpConn) (D : list Z) (a : Z) : Prop :=
  state c = Established /\ snd_una c = iss c /\ snd_nxt c = u32 (iss c + 1) /\ snd_max c = u32 (iss c + 1) /\ tx c = D
  /\ fin_seq c = None /\ a = u32 (iss c + 1).

Lemma ack_syn c D t a n fin :
  is_u 32 (iss c) -> opening c D a -> acked_bytes a c = (n, fin) -> acked_ok (ack_new_data t a n c) D fin.
Proof.
  intros Hi (Es & Eu & En & Em & Et & Ef & ->). unfold acked_bytes. rewrite Eu, Z.eqb_refl, Ef, u32_diff by lia.
  change (u32 (1 - 1)) with 0. rewrite Nat.min_0_l. intros [= <- <-].
  destruct (ack_new_data_fields t (u32 (iss c + 1)) 0 c) as (F1 & F2 & F3 & F4 & F5 & F6 & F7 & F8).
  unfold acked_ok, send_ok. rewrite F8, Es. exists 0, 0. split_and!; [|unfold tx_len; lia|congruence].
  unfold synced. rewrite F1, F2, F3, F4, F5, Em, En, Et, drop_0. rewrite seq_lt_spec by lia.
  destruct (Z.ltb_spec (iss c + 1) (iss c + 1)); [lia|]. rewrite !Z.add_0_r, u32_u32. split_and!; try done; try lia.
  exists []. split; [done|]. cbn. by rewrite !Z.add_0_r.
Qed.

(** Before the new data is taken: the SYN is acknowledged, or is now. *)
Definition ack_ready (s : conn_state) (a : Z) : Prop :=
  (send_ok s.1 (given (up s.2)) /\ state s.1 ∉ [Closed; Connecting; SynSent; SynReceived] \/ opening s.1 (given (up s.2)) a)
  /\ Forall (seg_ok (iss s.1) (given (up s.2)) (tx_eof s.1)) (out s.2).

Lemma tx_len_bound c : conn_ok c -> 0 <= tx_len c < 2 ^ 19.
Proof. intros [_ H _ _]. unfold tx_len, TX_CAPACITY in *. lia. Qed.

(** The new data of an acceptable ACK. *)
Lemma ack_taken s t a n fin :
  is_u 32 (iss s.1) -> bounded (given (up s.2)) -> conn_ok s.1 -> is_u 32 a -> ack_ready s a ->
  seq_lt (snd_max s.1) a = false -> seq_lt (snd_una s.1) a = true -> acked_bytes a s.1 = (n, fin) ->
  acked_ok (ack_new_data t a n s.1) (given (up s.2)) fin.
Proof.
  intros Hi Hb Hok Ha [[[H Hst]|H] _] Hmax Hlt E; [|by eapply ack_syn].
  destruct (send_ok_cases _ _ Hst H) as (e & N & M & Hs & Hc). pose proof (tx_len_bound _ Hok) as Hl.
  pose proof Hs as ((pre & ED & Eu) & En & Em & HN). rewrite Em in Hmax.
  assert (u32 (snd_una s.1) = snd_una s.1) as Euu by (rewrite Eu; apply u32_u32). rewrite <- Euu in Hlt.
  assert (0 <= M < 2 ^ 31) as HM by (destruct Hc as [(_ & HM & _)|[(_ & HM & _)|(_ & HM & _)]]; lia).
  destruct (ack_range _ M a Ha HM Hlt Hmax) as (k & Hk & ->).
  destruct Hc as [(-> & HM1 & Hf & Hs1)|[(-> & HM1 & Hf & Hs1)|(-> & HM1 & _)]]; [| |lia].
  - eapply ack_data; try done. left. done.
  - eapply ack_data; try done. right. done.
Qed.

Lemma send_ack_new h payload t s fin s' :
  is_u 32 (iss s.1) -> bounded (given (up s.2)) -> conn_ok s.1 -> is_u 32 (h_ack h) -> ack_ready s (h_ack h) ->
  seq_lt (snd_max s.1) (h_ack h) = false -> ack_new h payload t s.1 s = (Ok fin, s') -> ack_inv s' fin.
Proof.
  intros Hi Hb Hok Ha Hr Hmax R. unfold ack_new in R. destruct (seq_lt (snd_una s.1) (h_ack h)) eqn:Hlt.
  - destruct (acked_bytes (h_ack h) s.1) as [n fin'] eqn:E. pose proof (ack_taken s t _ n fin' Hi Hb Hok Ha Hr Hmax Hlt E) as Hk.
    destruct (ack_new_data_fields t (h_ack h) n s.1) as (_ & _ & _ & _ & F5 & _ & F7 & _).
    apply bind_ok_inv in R as ([] & s1 & [= <-] & R). match type of R with _ ?q = _ => set (s1 := q) in R end.
    assert (ack_inv s1 fin') as H1 by (split; [exact Hk|unfold s1; cbn [fst snd]; rewrite F5, F7; apply Hr]). clearbody s1.
    apply bind_ok_inv in R as ([] & s2 & R1 & R). pose proof (tx_grow (u32 (Z.of_nat n)) s1) as Fg. rewrite R1 in Fg. cbn [snd] in Fg.
    assert (ack_inv s2 fin') as H2 by (eapply ack_inv_frame; [exact Fg|by eapply keeps_grow|done]).
    apply bind_ok_inv in R as ([] & s3 & [= <-] & [= <- <-]). eapply ack_inv_frame; [|done|exact H2]. same_tx_tac.
  - assert (send_inv s /\ state s.1 ∉ [Closed; Connecting; SynSent; SynReceived]) as [His Hst].
    { destruct Hr as [[[H Hst]|Ho] Hf]; [by split; [split|]|]. exfalso. destruct Ho as (_ & Eu & _ & _ & _ & _ & Ea).
      rewrite Eu, Ea, <- (u32_id (iss s.1) Hi), u32_add_u32, seq_lt_spec in Hlt by lia.
      destruct (Z.ltb_spec (iss s.1) (iss s.1 + 1)); [done|lia]. }
    assert (forall s1, send_inv s1 -> ack_inv s1 false) as Hto by (by intros s1 [? ?]; split).
    match type of R with (if ?b then _ else _) _ = _ => destruct b end; [|injection R as <- <-; by auto].
    apply bind_ok_inv in R as ([] & s1 & [= <-] & R). match type of R with _ ?q = _ => set (s1 := q) in R end.
    assert (send_inv s1) as H1 by (apply (send_inv_frame s); [unfold s1; same_tx_tac|by left|exact His]).
    assert (state s1.1 ∉ [Closed; Connecting; SynSent; SynReceived]) as Hst1 by done. clearbody s1.
    apply bind_ok_inv in R as (d & s2 & [= <- <-] & R). apply bind_ok_inv in R as ([] & s3 & R1 & [= <- <-]).
    destruct (_ =? 3); [|injection R1 as <-; by auto]. apply Hto. by eapply send_fast_retransmit.
Qed.

(** A closed connection. *)
Lemma send_finish reason reset s s' :
  Forall (seg_ok (iss s.1) (given (up s.2)) (tx_eof s.1)) (out s.2) ->
  finish (U:=Recorded U) reason reset s = (Ok tt, s') -> send_inv s'.
Proof.
  intros Ho R. pose proof (tx_finish reason reset s) as F. rewrite R in F. cbn [snd] in F.
  assert (given (up s'.2) = given (up s.2)) as Eg by apply F. split; rewrite Eg; [|by eapply outs_same].
  assert (state s'.1 = Closed) as Es; [|unfold send_ok; by rewrite Es]. unfold finish in R.
  apply bind_ok_inv in R as (st & s1 & [= <- <-] & R). destruct (decide (state s.1 = Closed)); [by injection R as <-|].
  apply bind_ok_inv in R as ([] & s1 & [= <-] & R). apply bind_ok_inv in R as (c1 & s1 & [= <- <-] & R).
  by apply bind_ok_inv in R as ([] & s1 & [= <-] & [= <-]).
Qed.

Lemma send_ack_fin h fin s go s' : ack_inv s fin -> ack_fin h fin s = (Ok go, s') -> send_inv s'.
Proof.
  intros H R. unfold ack_fin in R. apply bind_ok_inv in R as ([] & s1 & [= <-] & R). match type of R with _ ?q = _ => set (s1 := q) in R end.
  assert (ack_inv s1 fin) as H1 by (apply (ack_inv_frame s); [unfold s1; destruct (_ || _); same_tx_tac|unfold s1; by destruct (_ || _)|exact H]). clearbody s1. clear H s.
  destruct fin; [|injection R as _ <-; by destruct H1]. destruct H1 as [(Hst & Hs & Ht & Hf) Ho].
  apply bind_ok_inv in R as (st & s2 & [= <- <-] & R).
  destruct (state s1.1) eqn:Es; try (exfalso; clear -Hst; set_solver).
  - apply bind_ok_inv in R as ([] & s2 & R & [= _ <-]). by eapply send_finish.
  - apply bind_ok_inv in R as ([] & s2 & [= <-] & [= _ <-]). split; [by split_and!|done].
  - apply bind_ok_inv in R as ([] & s2 & R & [= _ <-]). apply bind_ok_inv in R as (t & s3 & [= <- <-] & [= <-]). split; [by split_and!|done].
Qed.

(** An operation that leaves the send side and the state. *)
Lemma send_keeps {A} (m : tcping A) s a s' :
  frames same_tx m -> closes m -> send_inv s -> m s = (Ok a, s') -> send_inv s'.
Proof. intros F C Hi R. pose proof (F s) as F1. rewrite R in F1. eapply send_inv_frame; [exact F1|by eapply C|done]. Qed.

Lemma safe_ok {A} (m : tcping A) s a s' : safe m -> conn_ok s.1 -> m s = (Ok a, s') -> conn_ok s'.1.
Proof. intros Hs Hc R. specialize (Hs s Hc). unfold wp in Hs. by rewrite R in Hs. Qed.

Lemma send_ack_rest h payload t s go s' :
  is_u 32 (iss s.1) -> bounded (given (up s.2)) -> conn_ok s.1 -> is_u 32 (h_ack h) -> ack_ready s (h_ack h) ->
  ack_rest h payload t s = (Ok go, s') -> send_inv s'.
Proof.
  intros Hi Hb Hok Ha Hr R. unfold ack_rest in R. apply bind_ok_inv in R as (c & s1 & [= <- <-] & R). unfold Datatypes.id in R.
  destruct (seq_lt (snd_max s.1) (h_ack h)) eqn:Hmax.
  - apply bind_ok_inv in R as ([] & s1 & [= <-] & [= _ <-]). apply (send_inv_frame s); [same_tx_tac|by left|].
    destruct Hr as [[[H Hst]|Ho] Hf]; [by split|]. exfalso. destruct Ho as (_ & _ & _ & Em & _ & _ & Ea).
    rewrite Em, Ea, seq_lt_spec in Hmax by lia. destruct (Z.ltb_spec (iss s.1 + 1) (iss s.1 + 1)); [lia|done].
  - apply bind_ok_inv in R as ([] & s1 & R1 & R). apply bind_ok_inv in R as (fin & s2 & R2 & R).
    apply (send_ack_fin h fin s2 go); [|exact R]. revert R1. destruct (seq_le (snd_una s.1) (h_ack h)); intros [= <-].
    + assert (ack_new h payload t s.1 = ack_new h payload t (s.1 <| retries := 0 |>)) as En by (unfold ack_new, acked_bytes; reflexivity).
      rewrite En in R2.
      pose proof (send_ack_new h payload t (s.1 <| retries := 0 |>, s.2) fin s2) as H. cbn [fst snd] in H.
      apply H; [exact Hi|exact Hb|destruct Hok; by split|exact Ha| |exact Hmax|exact R2].
      destruct Hr as [Hr Ho]. split; [|exact Ho]. destruct Hr as [[Hr Hs]|Hr]; [left; split; [|exact Hs]|right; exact Hr].
      refine (send_ok_same s _ _ _ eq_refl Hr). same_tx_tac.
    + exact (send_ack_new h payload t s fin s2 Hi Hb Hok Ha Hr Hmax R2).
Qed.

Lemma send_input_ack h payload s go s' :
  is_u 32 (iss s.1) -> bounded (given (up s.2)) -> conn_ok s.1 -> is_u 32 (h_ack h) -> send_inv s ->
  state s.1 ∉ [Closed; Connecting; SynSent] -> input_ack h payload s = (Ok go, s') -> send_inv s'.
Proof.
  intros Hi Hb Hok Ha Hinv Hst R. rewrite input_ack_eq in R. apply bind_ok_inv in R as (c & s1 & [= <- <-] & R). unfold Datatypes.id in R.
  apply bind_ok_inv in R as (t & s1 & [= <- <-] & R). apply bind_ok_inv in R as (b & s1 & R1 & R).
  destruct (decide (state s.1 = SynReceived)) as [Es|Es].
  - destruct (seq_lt (snd_una s.1) (h_ack h) && seq_le (h_ack h) (snd_max s.1)) eqn:E.
    + apply bind_ok_inv in R1 as ([] & s2 & [= <-] & R1). apply bind_ok_inv in R1 as ([] & s3 & [= <-] & [= <- <-]). cbn [negb] in R.
      eapply send_ack_rest in R; [exact R|exact Hi|exact Hb|destruct Hok; by split|exact Ha|]. split; [right|by destruct Hinv]. destruct Hinv as [H _].
      unfold send_ok in H. rewrite Es in H. destruct H as (H1 & H2 & H3 & H4 & H5). unfold opening. cbn. split_and!; try done.
      apply andb_true_iff in E as [E1 E2]. rewrite H1 in E1. rewrite H3 in E2. rewrite <- (u32_id _ Hi) in E1.
      by apply ack_one.
    + apply bind_ok_inv in R1 as ([] & s2 & [= <-] & [= <- <-]). injection R as _ <-. apply (send_inv_frame s); [|by left|done].
      unfold same_tx. cbn. split_and!; try done. eexists. split; [done|]. by repeat constructor.
  - injection R1 as <- <-. eapply send_ack_rest in R; [exact R|exact Hi|exact Hb|exact Hok|exact Ha|]. split; [left|by destruct Hinv]. split; [by destruct Hinv|].
    clear -Hst Es. destruct (state s.1); set_solver.
Qed.

(** The moves on the guest's FIN. *)
Lemma send_ok_fin s s' D :
  same_tx s s' -> (state s.1, state s'.1) ∈ [(Established, CloseWait); (FinWait1, Closing); (FinWait2, TimeWait)] ->
  send_ok s.1 D -> send_ok s'.1 D.
Proof.
  intros (A1 & A2 & A3 & A4 & A5 & A6 & A7 & _) Es H. unfold send_ok, synced, fin_sent, tx_len in *.
  rewrite A1, A2, A3, A4, A5, A6, A7. rewrite !elem_of_cons in Es. destruct Es as [[= E1 E2]|[[= E1 E2]|[[= E1 E2]|Es]]].
  1-3: by rewrite E1 in H; rewrite E2. by apply elem_of_nil in Es.
Qed.

Lemma send_input_fin h payload complete s s' :
  send_inv s -> input_fin (U:=Recorded U) h payload complete s = (Ok tt, s') -> send_inv s'.
Proof.
  intros Hi R. unfold input_fin in R. apply bind_ok_inv in R as (c & s1 & [= <- <-] & R). unfold Datatypes.id in R.
  match type of R with (if ?b then _ else _) _ = _ => destruct b end; [|by injection R as <-].
  apply bind_ok_inv in R as (first & s1 & R1 & R).
  assert (send_inv s1) as Hi1.
  { destruct (state s.1) eqn:Es; try (by injection R1 as _ <-).
    1, 2: injection R1 as _ <-; destruct Hi as [H1 H2]; (split; [|exact H2]);
      (eapply (send_ok_fin s); [same_tx_tac|cbn; rewrite Es; set_solver|exact H1]).
    apply bind_ok_inv in R1 as ([] & s2 & R2 & [= _ <-]). apply bind_ok_inv in R2 as (t & s3 & [= <- <-] & [= <-]).
    destruct Hi as [H1 H2]. split; [|exact H2]. eapply (send_ok_fin s); [same_tx_tac|cbn; rewrite Es; set_solver|exact H1]. }
  clear R1. apply bind_ok_inv in R as ([] & s2 & R2 & [= <-]).
  assert (send_inv s2) as Hi2.
  { destruct first; injection R2 as <-; [|done]. apply (send_inv_frame s1); [same_tx_tac|by left|done]. }
  apply (send_inv_frame s2); [same_tx_tac|by left|done].
Qed.

(** The SYN and its acknowledgement, sent again or not. *)
Lemma send_send_syn_ack s s' :
  state s.1 = SynReceived -> snd_una s.1 = iss s.1 -> tx s.1 = given (up s.2) -> fin_seq s.1 = None ->
  Forall (seg_ok (iss s.1) (given (up s.2)) (tx_eof s.1)) (out s.2) ->
  send_syn_ack (U:=Recorded U) s = (Ok tt, s') -> send_inv s'.
Proof.
  intros Es Eu Et Ef Ho R. unfold send_syn_ack in R. apply bind_ok_inv in R as (i & s1 & [= <- <-] & R).
  apply bind_ok_inv in R as ([] & s1 & R1 & R). pose proof (tx_emit (iss s.1) (Z.lor TCP_SYN TCP_ACK) eq_refl s) as F. rewrite R1 in F. cbn [snd] in F.
  pose proof (keeps_emit _ _ _ _ _ _ R1) as K. pose proof (outs_same _ _ _ F Ho) as Ho1.
  destruct F as (A1 & A2 & A3 & A4 & A5 & A6 & A7 & A8 & _).
  apply bind_ok_inv in R as ([] & s2 & [= <-] & R). match type of R with _ ?q = _ => set (s2 := q) in R end.
  eapply (send_keeps arm_rtx s2); [apply tx_arm|apply closes_keeps, keeps_arm| |exact R].
  split; cbn; rewrite A8; [|exact Ho1]. unfold send_ok. cbn. rewrite K, Es. split_and!; congruence.
Qed.

Lemma send_send_syn s s' :
  state s.1 = SynSent -> snd_una s.1 = iss s.1 -> tx s.1 = [] -> given (up s.2) = [] -> fin_seq s.1 = None ->
  Forall (seg_ok (iss s.1) (given (up s.2)) (tx_eof s.1)) (out s.2) ->
  send_syn (U:=Recorded U) s = (Ok tt, s') -> send_inv s'.
Proof.
  intros Es Eu Et Eg Ef Ho R. unfold send_syn in R. apply bind_ok_inv in R as (i & s1 & [= <- <-] & R).
  apply bind_ok_inv in R as ([] & s1 & R1 & R). pose proof (tx_emit (iss s.1) TCP_SYN eq_refl s) as F. rewrite R1 in F. cbn [snd] in F.
  pose proof (keeps_emit _ _ _ _ _ _ R1) as K. pose proof (outs_same _ _ _ F Ho) as Ho1.
  destruct F as (A1 & A2 & A3 & A4 & A5 & A6 & A7 & A8 & _).
  apply bind_ok_inv in R as (t & s2 & [= <- <-] & R). apply bind_ok_inv in R as ([] & s2 & [= <-] & R).
  match type of R with _ ?q = _ => set (s2 := q) in R end.
  eapply (send_keeps arm_rtx s2); [apply tx_arm|apply closes_keeps, keeps_arm| |exact R].
  unfold s2. cbn. destruct (retries s1.1 =? 0); (split; cbn; rewrite A8; [|exact Ho1]; unfold send_ok; cbn; rewrite K, Es; split_and!; congruence).
Qed.

Lemma send_input_syn_sent h s s' :
  is_u 32 (iss s.1) -> send_inv s -> state s.1 = SynSent -> input_syn_sent (U:=Recorded U) h s = (Ok tt, s') -> send_inv s'.
Proof.
  intros Hi Hinv Es R. unfold input_syn_sent in R. apply bind_ok_inv in R as (c & s1 & [= <- <-] & R). unfold Datatypes.id in R.
  destruct (has h TCP_ACK && negb _).
  { destruct (negb (has h TCP_RST)); injection R as <-; [|done]. apply (send_inv_frame s); [|by left|done].
    unfold same_tx. cbn. split_and!; try done. eexists. split; [done|]. by repeat constructor. }
  destruct (has h TCP_RST).
  { destruct (_ && _); [|by injection R as <-]. eapply send_finish; [|exact R]. by destruct Hinv. }
  destruct (negb (_ && _)) eqn:E; [by injection R as <-|]. apply negb_false_iff, andb_true_iff in E as [_ [_ E]%andb_true_iff]. apply Z.eqb_eq in E.
  apply bind_ok_inv in R as (t & s1 & [= <- <-] & R). apply bind_ok_inv in R as ([] & s1 & [= <-] & R).
  apply bind_ok_inv in R as ([] & s2 & [= <-] & [= <-]).
  destruct Hinv as [H Ho]. unfold send_ok in H. rewrite Es in H. destruct H as (H1 & H2 & H3 & H4 & H5 & H6). cbn [fst snd].
  match goal with |- send_inv (?d <| ack_pending := true |>, _) =>
    assert (tx d = tx s.1 /\ snd_una d = h_ack h /\ snd_nxt d = snd_nxt s.1 /\ snd_max d = snd_max s.1 /\ iss d = iss s.1
            /\ fin_seq d = fin_seq s.1 /\ tx_eof d = tx_eof s.1 /\ state d = Established) as (E1 & E2 & E3 & E4 & E5 & E6 & E7 & E8);
    [|generalize dependent d; intros c2 E1 E2 E3 E4 E5 E6 E7 E8] end.
  { cbv zeta. destruct (rtt_sample _) as [[seq t0]|]; [destruct (seq_le seq (h_ack h)); unfold rtt_update; cbv zeta; repeat case_match|]; cbn; split_and!; reflexivity. }
  split; cbn; [|rewrite E5, E7; exact Ho]. unfold send_ok. cbn. rewrite E8. exists 0, 0.
  unfold synced, tx_len. cbn. rewrite E1, E2, E3, E4, E5, E6, H4, H5, E, H2, H3, !Z.add_0_r, u32_u32. split_and!; try done.
  exists []. split; [done|]. cbn. by rewrite !Z.add_0_r.
Qed.

(** ** Segments and timers *)

(** What the operations assume and keep. *)
Record send_pre (s : conn_state) : Prop := {
  sp_iss : is_u 32 (iss s.1);
  sp_ok : conn_ok s.1;
  sp_bounded : bounded (given (up s.2));
  sp_inv : send_inv s;
}.

Lemma send_synchronized h payload s s' :
  send_pre s -> is_u 32 (h_ack h) -> state s.1 ∉ [Closed; Connecting; SynSent] ->
  input_synchronized (U:=Recorded U) h payload s = (Ok tt, s') -> send_inv s'.
Proof.
  intros [Hi Hok Hb Hinv] Ha Hst R. unfold input_synchronized in R. apply bind_ok_inv in R as (w & s1 & R1 & R).
  assert (s1 = s) as ->.
  { unfold rcv_wnd in R1. apply bind_ok_inv in R1 as (n & s2 & [= <- <-] & R1). destruct (_ <? _); [done|by injection R1]. }
  apply bind_ok_inv in R as (c & s2 & [= <- <-] & R). unfold Datatypes.id in R.
  destruct (negb (acceptable _ _ _ _)).
  { destruct (negb (has h TCP_RST)); [|by injection R as <-]. apply bind_ok_inv in R as (t & s2 & [= <- <-] & [= <-]).
    apply (send_inv_frame s); [|left; cbn; by destruct (_ && _)|done]. cbn. destruct (_ && _); same_tx_tac. }
  unfold input_accepted in R. destruct (has h TCP_RST); [eapply send_finish; [|exact R]; by destruct Hinv|].
  destruct (has h TCP_SYN); [injection R as <-; apply (send_inv_frame s); [same_tx_tac|by left|done]|].
  destruct (negb (has h TCP_ACK)); [by injection R as <-|].
  apply bind_ok_inv in R as (go & s2 & R2 & R). pose proof (send_input_ack _ _ _ _ _ Hi Hb Hok Ha Hinv Hst R2) as H2.
  destruct go; [|by injection R as <-]. apply bind_ok_inv in R as (complete & s3 & R3 & R).
  eapply send_input_fin; [|exact R]. eapply send_keeps; [apply tx_input_data|apply closes_keeps, keeps_input_data|exact H2|exact R3].
Qed.

Lemma send_input h payload s s' :
  send_pre s -> is_u 32 (h_ack h) -> input (U:=Recorded U) h payload s = (Ok tt, s') -> send_inv s'.
Proof.
  intros Hp Ha R. pose proof (sp_inv _ Hp) as Hinv. unfold input in R. apply bind_ok_inv in R as (c & s1 & [= <- <-] & R). unfold Datatypes.id in R.
  assert (state s.1 ∉ [Closed; Connecting; SynSent] -> input_synchronized h payload s = (Ok tt, s') -> send_inv s') as Hsync
    by (intros; by eapply send_synchronized).
  destruct (state s.1) eqn:Es; try (by injection R as <-); try (apply Hsync; [set_solver|exact R]).
  - destruct (has h TCP_RST && _); [|by injection R as <-]. eapply send_finish; [|exact R]. by destruct Hinv.
  - eapply send_input_syn_sent; [apply Hp|done|done|exact R].
  - match type of R with (if ?b then _ else _) _ = _ => destruct b end; [|apply Hsync; [set_solver|exact R]].
    destruct Hinv as [H Ho]. unfold send_ok in H. rewrite Es in H. destruct H as (H1 & H2 & H3 & H4 & H5).
    by eapply send_send_syn_ack.
Qed.

(** [snd_nxt] back to [snd_una], in a state past the SYN or before it. *)
Lemma send_ok_rewind s s' D :
  same_tx (s.1 <| snd_nxt := snd_una s.1 |>, s.2) s' -> state s'.1 = state s.1 -> state s.1 <> SynReceived -> state s.1 <> SynSent ->
  send_ok s.1 D -> send_ok s'.1 D.
Proof.
  intros (A1 & A2 & A3 & A4 & A5 & A6 & A7 & _) Es H1 H2 H. cbn in *. unfold send_ok, synced, fin_sent, tx_len in *.
  rewrite Es, A1, A2, A3, A4, A5, A6, A7.
  assert (forall a N M, synced s.1 D a N M -> snd_una s.1 = u32 (snd_una s.1 + 0)) as Hu.
  { intros a N M [(pre & _ & ->) _]. by rewrite Z.add_0_r, u32_u32. }
  unfold synced in Hu. destruct (state s.1); try done.
  - by destruct H as (? & ? & ? & ?).
  - destruct H as (N & M & (G1 & G2 & G3 & G4) & HM & Hf). exists 0, M. split_and!; try done; [|lia]. by eapply (Hu 0 N M).
  - destruct H as (N & M & (G1 & G2 & G3 & G4) & HM & Hf). exists 0, M. split_and!; try done; [|lia]. by eapply (Hu 0 N M).
  - destruct H as (N & (G1 & G2 & G3 & G4) & Hf). exists 0. split_and!; try done; [|lia|apply Hf|apply Hf]. by eapply (Hu 0 N).
  - destruct H as (N & (G1 & G2 & G3 & G4) & Hf). exists 0. split_and!; try done; [|lia|apply Hf|apply Hf]. by eapply (Hu 0 N).
  - destruct H as ((G1 & G2 & G3 & G4) & Hf). split_and!; try done; [|apply Hf..]. by eapply (Hu 1 0 0).
  - destruct H as (N & (G1 & G2 & G3 & G4) & Hf). exists 0. split_and!; try done; [|lia|apply Hf|apply Hf]. by eapply (Hu 0 N).
  - destruct H as ((G1 & G2 & G3 & G4) & Hf). split_and!; try done; [|apply Hf..]. by eapply (Hu 1 0 0).
Qed.

Lemma send_abort s s' :
  Forall (seg_ok (iss s.1) (given (up s.2)) (tx_eof s.1)) (out s.2) -> forall reason,
  (send_rst;; finish reason true : tcping unit) s = (Ok tt, s') -> send_inv s'.
Proof.
  intros Ho reason R. apply bind_ok_inv in R as ([] & s1 & R1 & R). pose proof (tx_send_rst s) as F. rewrite R1 in F. cbn [snd] in F.
  eapply send_finish; [|exact R]. assert (given (up s1.2) = given (up s.2)) as -> by apply F. by eapply outs_same.
Qed.

Lemma send_on_rtx s s' : send_inv s -> state s.1 <> Closed -> on_rtx (U:=Recorded U) s = (Ok tt, s') -> send_inv s'.
Proof.
  intros Hi Hc R. unfold on_rtx in R. apply bind_ok_inv in R as ([] & s1 & [= <-] & R). match type of R with _ ?q = _ => set (s1 := q) in R end.
  assert (send_inv s1 /\ state s1.1 <> Closed) as [Hi1 Hc1] by (split; [apply (send_inv_frame s); [unfold s1; same_tx_tac|by left|done]|done]).
  clearbody s1. clear s Hi Hc. apply bind_ok_inv in R as (c & s2 & [= <- <-] & R). unfold Datatypes.id in R.
  destruct (_ && negb _); [by injection R as <-|].
  apply bind_ok_inv in R as ([] & s2 & [= <-] & R). match type of R with _ ?q = _ => set (s2 := q) in R end.
  assert (send_inv s2 /\ state s2.1 <> Closed) as [Hi2 Hc2] by (split; [apply (send_inv_frame s1); [unfold s2; same_tx_tac|by left|done]|done]).
  clearbody s2. clear s1 Hi1 Hc1. apply bind_ok_inv in R as (c & s3 & [= <- <-] & R). unfold Datatypes.id in R.
  destruct (MAX_RETRIES <? retries s2.1); [eapply send_abort; [by destruct Hi2|exact R]|].
  apply bind_ok_inv in R as ([] & s3 & [= <-] & R). match type of R with _ ?q = _ => set (s3 := q) in R end.
  assert (same_tx s2 s3 /\ state s3.1 = state s2.1) as [F3 E3].
  { unfold s3. cbv zeta. cbn [fst]. match goal with |- context [if ?b then _ else _] => destruct b end; (split; [same_tx_tac|done]). }
  assert (send_inv s3) as Hi3 by (apply (send_inv_frame s2); [done|by left|done]). clearbody s3.
  destruct (decide (state s2.1 = SynReceived)) as [Es|Es1].
  { destruct Hi3 as [H Ho]. unfold send_ok in H. rewrite E3, Es in H. destruct H as (H1 & H2 & H3 & H4 & H5).
    eapply (send_send_syn_ack s3); [congruence|done..]. }
  destruct (decide (state s2.1 = SynSent)) as [Es|Es2].
  { destruct Hi3 as [H Ho]. unfold send_ok in H. rewrite E3, Es in H. destruct H as (H1 & H2 & H3 & H4 & H5 & H6).
    eapply (send_send_syn s3); [congruence|done..]. }
  apply bind_ok_inv in R as ([] & s4 & [= <-] & R). apply bind_ok_inv in R as (c & s4 & [= <- <-] & R). unfold Datatypes.id in R.
  match type of R with _ ?q = _ => set (s4 := q) in R end.
  assert (send_inv s4) as Hi4.
  { destruct Hi3 as [H Ho]. split; [|exact Ho]. apply (send_ok_rewind s3); [unfold s4; same_tx_tac|done|congruence|congruence|exact H]. }
  clearbody s4. apply bind_ok_inv in R as ([] & s5 & R5 & R).
  eapply (send_keeps arm_rtx s5); [apply tx_arm|apply closes_keeps, keeps_arm| |exact R].
  destruct (_ && _); [|by injection R5 as <-].
  exact (send_keeps _ _ _ _ (tx_emit _ TCP_ACK eq_refl) (closes_keeps _ (keeps_emit _ _ _)) Hi4 R5).
Qed.

Lemma send_on_timer s s' : send_inv s -> on_timer (U:=Recorded U) s = (Ok tt, s') -> send_inv s'.
Proof.
  intros Hi R. unfold on_timer in R. apply bind_ok_inv in R as (c & s1 & [= <- <-] & R). unfold Datatypes.id in R.
  apply bind_ok_inv in R as (t & s1 & [= <- <-] & R). destruct (decide (state s.1 = Closed)); [by injection R as <-|].
  destruct (bool_decide _ && _); [eapply send_finish; [|exact R]; by destruct Hi|].
  destruct (rtx_deadline s.1); [|by injection R as <-]. destruct (_ <? _); [by injection R as <-|]. by eapply send_on_rtx.
Qed.

(** ** The exchange with the upstream and transmission *)

Lemma send_opening s stop s' :
  send_inv s -> process_opening (U:=Recorded U) s = (Ok stop, s') -> send_inv s'.
Proof.
  intros Hi R. unfold process_opening in R. apply bind_ok_inv in R as (c & s1 & [= <- <-] & R). unfold Datatypes.id in R.
  apply bind_ok_inv in R as (t & s1 & [= <- <-] & R).
  assert (forall s s' reason, send_inv s -> (emit 0 (Z.lor TCP_RST TCP_ACK) [];; finish reason true : tcping unit) s = (Ok tt, s') -> send_inv s') as Hrst.
  { intros s0 s0' reason H R0. apply bind_ok_inv in R0 as ([] & s1 & R1 & R0). eapply send_finish; [|exact R0].
    apply (send_keeps _ _ _ _ (tx_emit 0 (Z.lor TCP_RST TCP_ACK) eq_refl) (closes_keeps _ (keeps_emit _ _ _)) H) in R1. by destruct R1. }
  destruct (state s.1) eqn:Es; try (injection R as _ <-; done).
  - apply bind_ok_inv in R as (st & s1 & R1 & R). pose proof (tx_status (now s.2) (id s.1) s) as F. rewrite R1 in F. cbn [snd] in F.
    assert (state s1.1 = state s.1) as E1 by (by eapply keeps_on_up).
    assert (send_inv s1) as Hi1 by (apply (send_inv_frame s); [done|by left|done]). clear R1 F. destruct st.
    + apply bind_ok_inv in R as ([] & s2 & R2 & [= _ <-]). destruct (_ <=? _); [|by injection R2 as <-]. by eapply Hrst.
    + apply bind_ok_inv in R as ([] & s2 & [= <-] & R). apply bind_ok_inv in R as ([] & s3 & R3 & [= _ <-]).
      destruct Hi1 as [H Ho]. unfold send_ok in H. rewrite E1, Es in H. destruct H as (H1 & H2 & H3 & H4 & H5 & H6).
      eapply (send_send_syn_ack (s1.1 <| state := SynReceived |>, s1.2)); [done|done|cbn; congruence|done|exact Ho|exact R3].
    + apply bind_ok_inv in R as ([] & s2 & R2 & R). apply bind_ok_inv in R as ([] & s3 & R3 & [= _ <-]). eapply (Hrst s1); [done|].
      unfold mbind, prog_bind. by rewrite R2.
  - apply bind_ok_inv in R as ([] & s2 & R2 & [= _ <-]). destruct (_ <=? _); [|by injection R2 as <-]. eapply send_finish; [|exact R2]. by destruct Hi.
Qed.

Lemma send_ok_grow c c' D l :
  state c ∈ [SynReceived; Established; CloseWait] -> tx c' = tx c ++ l -> snd_una c' = snd_una c -> snd_nxt c' = snd_nxt c ->
  snd_max c' = snd_max c -> iss c' = iss c -> fin_seq c' = fin_seq c -> state c' = state c -> send_ok c D -> send_ok c' (D ++ l).
Proof.
  intros Hst E1 E2 E3 E4 E5 E6 E7 H. unfold send_ok, synced, tx_len in *. rewrite E7, E1, E2, E3, E4, E5, E6. rewrite !elem_of_cons in Hst.
  destruct Hst as [Hs|[Hs|[Hs|Hs]]]; [| | |by apply elem_of_nil in Hs]; rewrite Hs in *.
  - destruct H as (H1 & H2 & H3 & H4 & H5). split_and!; congruence.
  - destruct H as (N & M & ((pre & ED & Eu) & G) & HM & Hf). exists N, M. rewrite length_app. split_and!; try apply G; try done; [|lia].
    exists pre. by rewrite ED, app_assoc.
  - destruct H as (N & M & ((pre & ED & Eu) & G) & HM & Hf). exists N, M. rewrite length_app. split_and!; try apply G; try done; [|lia].
    exists pre. by rewrite ED, app_assoc.
Qed.

Lemma seg_ok_grow i D l g : seg_ok i D false g -> seg_ok i (D ++ l) false g.
Proof.
  intros [H1 H2]. split; [|by intros [? _]%H2]. intros Hp. destruct (H1 Hp) as (o & E & k & Hk). exists o. split; [done|].
  rewrite drop_app, Hk, <- app_assoc. by eexists.
Qed.

Lemma seg_ok_eof i D eof g : seg_ok i D false g -> seg_ok i D eof g.
Proof. intros [H1 H2]. split; [done|]. by intros [? _]%H2. Qed.

Lemma send_fill fuel buf s stop s' :
  send_inv s -> tx_eof s.1 = false -> state s.1 ∈ [SynReceived; Established; CloseWait] -> length buf = Z.to_nat READ_CHUNK ->
  fill_tx (U:=Recorded U) fuel buf s = (Ok stop, s') -> send_inv s'.
Proof.
  revert buf s. induction fuel as [|fuel IH]; intros buf [c x] Hi He Hst Hb R; cbn [fill_tx] in R;
    apply bind_ok_inv in R as (c0 & s1 & [= <- <-] & R); unfold Datatypes.id in R; cbn [fst] in *;
    (destruct (Z.leb_spec TX_CAPACITY (Z.of_nat (length (tx c)))) as [|Hcap]; [by injection R as _ <-|]); [done|].
  set (room := Z.to_nat (Z.min (TX_CAPACITY - Z.of_nat (length (tx c))) READ_CHUNK)) in *.
  assert (0 < room <= length buf)%nat as Hroom by (rewrite Hb; subst room; unfold READ_CHUNK in *; lia).
  apply bind_ok_inv in R as (t & s1 & [= <- <-] & R). apply bind_ok_inv in R as (r & s1 & R1 & R). cbn [snd] in *.
  unfold on_up in R1. cbn in R1. pose proof (tcp_read_length (now x) (id c) (take room buf) (inner (up x))) as Hl. rewrite length_take in Hl.
  destruct (tcp_read (now x) (id c) (take room buf) (inner (up x))) as [[res buf'] u]. cbn [fst snd] in *. injection R1 as <- <-. cbn [fst snd] in R.
  destruct Hi as [Hs Ho]. cbn [fst snd] in *. rewrite He in Ho.
  destruct res as [n| | |].
  - assert (take (Nat.min n room) (buf' ++ drop room buf) = take n buf') as Et.
    { rewrite take_app_le by lia. destruct (decide (n <= room)%nat); [by rewrite Nat.min_l by lia|]. by rewrite !take_ge by lia. }
    rewrite Et in R. destruct (Nat.eqb_spec (Nat.min n room) 0).
    + injection R as _ <-. assert (n = 0%nat) as -> by lia. rewrite take_0. split; cbn; rewrite app_nil_r, ?He; done.
    + apply bind_ok_inv in R as ([] & s2 & [= <-] & R). apply bind_ok_inv in R as ([] & s3 & [= <-] & R). cbn [fst snd] in R.
      eapply IH in R; [exact R| |done|exact Hst|rewrite length_app, length_drop; lia]. split; cbn.
      * by eapply send_ok_grow.
      * rewrite He. eapply Forall_impl; [exact Ho|]. intros g. apply seg_ok_grow.
  - injection R as _ <-. split; cbn; rewrite ?He; done.
  - apply bind_ok_inv in R as ([] & s2 & [= <-] & [= _ <-]). split; cbn.
    + rewrite <- (app_nil_r (given (up x))). eapply send_ok_grow; [exact Hst|cbn; by rewrite app_nil_r|done..].
    + eapply Forall_impl; [exact Ho|]. intros g. apply seg_ok_eof.
  - apply bind_ok_inv in R as ([] & s2 & R1 & R). apply bind_ok_inv in R as ([] & s3 & R2 & [= _ <-]).
    eapply (send_abort (c, x <| up := (up x) <| inner := u |> |>)); [cbn; by rewrite He|].
    unfold mbind, prog_bind. rewrite R1. exact R2.
Qed.

(** The numbers in flight. *)
Lemma in_flight_synced c D a N M : synced c D a N M -> M < 2 ^ 32 -> in_flight c = N.
Proof. intros (_ & En & _ & HN) HM. unfold in_flight. rewrite En. apply u32_diff. lia. Qed.

(** More numbers sent: [snd_nxt] at [e], and [snd_max] if it is behind. *)
Definition advanced (c : TcpConn) (e : Z) : TcpConn :=
  c <| snd_nxt := e |> <| snd_max := if seq_lt (snd_max c) e then e else snd_max c |>.

Lemma synced_advance s s' D N M N' :
  synced s.1 D 0 N M -> 0 <= N' < 2 ^ 31 -> M < 2 ^ 31 -> same_tx (advanced s.1 (u32 (snd_una s.1 + N')), s.2) s' ->
  synced s'.1 D 0 N' (Z.max M N').
Proof.
  intros ((pre & ED & Eu) & En & Em & HN) HN' HM (A1 & A2 & A3 & A4 & A5 & _). cbn in *. unfold synced. rewrite A1, A2, A3, A4, A5.
  split_and!; [by exists pre|done| |lia|lia]. rewrite Em, seq_lt_spec by lia.
  destruct (Z.ltb_spec (snd_una s.1 + M) (snd_una s.1 + N')); f_equal; lia.
Qed.

Lemma send_transmit_one s go s' :
  send_inv s -> conn_ok s.1 -> transmits (state s.1) = true -> transmit_one (U:=Recorded U) s = (Ok go, s') ->
  send_inv s'.
Proof.
  intros Hi Hok Htr R. unfold transmit_one in R. apply bind_ok_inv in R as (c0 & s1 & [= <- <-] & R). unfold Datatypes.id in R.
  assert (state s.1 ∉ [Closed; Connecting; SynSent; SynReceived]) as Hst by (clear -Htr; destruct (state s.1); set_solver).
  pose proof (tx_len_bound _ Hok) as Hl.
  destruct (send_ok_cases _ _ Hst (si_conn _ Hi)) as (a & N & M & Hs & Hc).
  assert (M < 2 ^ 31) as HM by (destruct Hc as [(_ & HM & _)|[(_ & HM & _)|(_ & HM & _)]]; lia).
  rewrite (in_flight_synced _ _ _ _ _ Hs) in R by lia. pose proof Hs as ((pre & ED & Eu) & En & Em & HN).
  destruct (Nat.leb_spec (length (tx s.1)) (Z.to_nat N)) as [|Hlt]; [by injection R as _ <-|].
  assert (a = 0) as ->.
  { destruct Hc as [[? _]|[[? _]|(_ & _ & Et & _)]]; [done|done|]. rewrite Et in Hlt. cbn in Hlt. lia. }
  set (usable := sat_sub _ _) in R. destruct (usable =? 0); [by injection R as _ <-|].
  set (n := Nat.min _ _) in R. assert (n <= length (tx s.1) - Z.to_nat N)%nat as Hn by lia. clearbody n usable.
  set (fl := if (_ =? _)%nat then _ else _) in R. assert (test_mask fl TCP_FIN = false) as Hfl by (subst fl; by destruct (_ =? _)%nat).
  clearbody fl. apply bind_ok_inv in R as ([] & s1 & R1 & R).
  apply send_emit in R1 as [Hi1 [F1 E1]]; [|done|].
  2: { intros k w m. split; [|cbn; by rewrite Hfl]. intros _. exists (length pre + Z.to_nat N)%nat. cbn [seg_seq seg_payload]. split.
       - rewrite En, Eu, u32_add_u32. f_equal. lia.
       - rewrite ED, <- drop_drop, drop_app_length. eexists. symmetry. apply take_drop. }
  apply bind_ok_inv in R as (t & s2 & [= <- <-] & R). apply bind_ok_inv in R as ([] & s2 & [= <-] & R).
  match type of R with _ ?q = _ => set (s2 := q) in R end.
  apply bind_ok_inv in R as ([] & s3 & R3 & [= _ <-]).
  eapply (send_keeps arm_rtx s2); [apply tx_arm|apply closes_keeps, keeps_arm| |exact R3]. clear R3.
  assert (synced s1.1 (given (up s.2)) 0 N M /\ tx_len s1.1 = tx_len s.1 /\ given (up s1.2) = given (up s.2) /\ fin_seq s1.1 = fin_seq s.1
          /\ iss s1.1 = iss s.1 /\ tx_eof s1.1 = tx_eof s.1 /\ snd_una s1.1 = snd_una s.1) as (Hs1 & El & Eg & Ef & Ei & Ee & Eu1).
  { destruct F1 as (A1 & A2 & A3 & A4 & A5 & A6 & A7 & A8 & _). cbn in *. unfold synced, tx_len. rewrite A1, A2, A3, A4, A5. split_and!; try done; [by exists pre|lia|lia]. }
  assert (u32 (snd_nxt s.1 + Z.of_nat n) = u32 (snd_una s1.1 + (N + Z.of_nat n))) as Een by (rewrite Eu1, En, u32_add_u32; f_equal; lia).
  assert (same_tx (advanced s1.1 (u32 (snd_una s1.1 + (N + Z.of_nat n))), s1.2) s2 /\ state s2.1 = state s1.1) as [F2 E2].
  { unfold s2. rewrite <- Een. generalize (u32 (snd_nxt s.1 + Z.of_nat n)). intros e. unfold advanced. cbn [fst snd].
    destruct (rtt_sample s1.1); [|destruct (snd_nxt s.1 =? snd_max s1.1)]; cbn; destruct (seq_lt (snd_max s1.1) e); (split; [same_tx_tac|done]). }
  clearbody s2. assert (0 <= N + Z.of_nat n < 2 ^ 31) as HNn by (unfold tx_len in *; lia).
  pose proof (synced_advance s1 s2 _ N M (N + Z.of_nat n) Hs1 HNn HM F2) as Hs2.
  pose proof (outs_same _ _ (given (up s1.2)) F2 (si_out _ Hi1)) as Ho2.
  destruct F2 as (A1 & A2 & A3 & A4 & A5 & A6 & A7 & A8 & _). cbn in A1, A2, A3, A4, A5, A6, A7, A8.
  split; rewrite A8; [|done]. rewrite Eg. eapply send_ok_of; [exact Hs2|].
  unfold sent_case, fin_sent, tx_len in *. rewrite E2, E1, A1, A5, A6, A7, Ei, Ef, Ee, El.
  destruct Hc as [(_ & HM1 & Hf & Hst1)|[(_ & HM1 & Hf & Hst1)|(? & _)]]; [left|right; left|lia]; split_and!; try done; try lia; apply Hf.
Qed.

Lemma keeps_transmit_one : keeps (transmit_one (U:=Recorded U)).
Proof.
  unfold transmit_one. apply keeps_bind; [apply keeps_conn|intros c]. unfold Datatypes.id. cbv zeta. destruct (_ <=? _)%nat; [apply keeps_ret|].
  destruct (_ =? 0); [apply keeps_ret|]. apply keeps_bind; [apply keeps_emit|intros _]. apply keeps_bind; [apply keeps_ctx|intros t].
  apply keeps_bind; [apply keeps_set; intros c'; cbn; repeat case_match; reflexivity|intros _].
  apply keeps_bind; [apply keeps_arm|intros _; apply keeps_ret].
Qed.

Lemma send_transmit_loop fuel s s' :
  send_inv s -> conn_ok s.1 -> transmits (state s.1) = true -> transmit_loop (U:=Recorded U) fuel s = (Ok tt, s') ->
  send_inv s' /\ conn_ok s'.1.
Proof.
  revert s. induction fuel as [|fuel IH]; intros s Hi Hok Htr R; [done|]. cbn [transmit_loop] in R. apply bind_ok_inv in R as (go & s1 & R1 & R).
  pose proof (send_transmit_one _ _ _ Hi Hok Htr R1) as Hi1. pose proof (transmit_one_spec s Hok) as W. unfold wp in W. rewrite R1 in W.
  destruct W as [Hok1 _]. destruct go; [|by injection R as <-]. eapply IH in R; [exact R|done|done|]. by rewrite (keeps_transmit_one _ _ _ R1).
Qed.

(** The FIN goes out at the end of the data. *)
Lemma send_fin_out s s' N M :
  synced s.1 (given (up s.2)) 0 N M -> N = tx_len s.1 -> tx_eof s.1 = true -> conn_ok s.1 ->
  Forall (seg_ok (iss s.1) (given (up s.2)) (tx_eof s.1)) (out s.2) -> state s.1 ∈ [FinWait1; LastAck; Closing] -> M <= tx_len s.1 + 1 ->
  (set_conn (fun c => c <| fin_seq := Some (snd_nxt s.1) |>);;
   emit (snd_nxt s.1) (Z.lor TCP_FIN TCP_ACK) [];;
   set_conn (fun c =>
     let c := c <| snd_nxt := u32 (snd_nxt s.1 + 1) |> in
     if seq_lt (snd_max c) (snd_nxt c) then c <| snd_max := snd_nxt c |> else c);;
   arm_rtx : tcping unit) s = (Ok tt, s') -> send_inv s'.
Proof.
  intros Hs EN He Hok Ho Hst HM R. pose proof (tx_len_bound _ Hok) as Hl. pose proof Hs as ((pre & ED & Eu) & En & Em & HN).
  assert (snd_nxt s.1 = u32 (iss s.1 + 1 + Z.of_nat (length (given (up s.2))))) as Eseq.
  { rewrite En, EN, Eu, u32_add_u32, ED, length_app. unfold tx_len. f_equal. lia. }
  apply bind_ok_inv in R as ([] & s1 & [= <-] & R). match type of R with _ ?q = _ => set (s1 := q) in R end.
  apply bind_ok_inv in R as ([] & s2 & R1 & R). apply emit_out in R1 as ([F E2] & k & w & m & Eo).
  apply bind_ok_inv in R as ([] & s3 & [= <-] & R). match type of R with _ ?q = _ => set (s3 := q) in R end.
  eapply (send_keeps arm_rtx s3); [apply tx_arm|apply closes_keeps, keeps_arm| |exact R]. clear R.
  destruct F as (A1 & A2 & A3 & A4 & A5 & A6 & A7 & A8 & _). cbn in A1, A2, A3, A4, A5, A6, A7, A8, E2, Eo.
  assert (synced s2.1 (given (up s.2)) 0 N M) as Hs2.
  { unfold synced. rewrite A1, A2, A3, A4, A5. split_and!; try done; [by exists pre|lia|lia]. }
  assert (u32 (snd_nxt s.1 + 1) = u32 (snd_una s2.1 + (N + 1))) as Een by (rewrite A2, En, u32_add_u32; f_equal; lia).
  assert (same_tx (advanced s2.1 (u32 (snd_una s2.1 + (N + 1))), s2.2) s3 /\ state s3.1 = state s2.1) as [F3 E3].
  { unfold s3. rewrite <- Een. generalize (u32 (snd_nxt s.1 + 1)). intros e. unfold advanced. cbn [fst snd].
    cbn; destruct (seq_lt (snd_max s2.1) e); (split; [same_tx_tac|done]). }
  clearbody s3. pose proof (synced_advance s2 s3 _ N M (N + 1) Hs2 ltac:(lia) ltac:(lia) F3) as Hs3.
  destruct F3 as (B1 & B2 & B3 & B4 & B5 & B6 & B7 & B8 & l & B9 & B10). cbn in B1, B2, B3, B4, B5, B6, B7, B8, B9.
  split; rewrite B8, A8.
  - eapply send_ok_of; [exact Hs3|]. right. left. unfold tx_len, fin_sent in *. rewrite B1, B5, B6, B7, E3, E2, A1, A5, A6, A7. split_and!; try done; [lia|congruence].
  - rewrite B5, B7, A5, A7, B9, Eo. apply Forall_app. split; [apply Forall_app; split; [done|]|].
    + apply Forall_singleton. split; [done|]. intros _. by split.
    + eapply Forall_impl; [exact B10|]. intros g. apply quiet_ok.
Qed.

Lemma send_transmit_fin s s' :
  send_inv s -> conn_ok s.1 -> transmits (state s.1) = true -> transmit_fin (U:=Recorded U) s = (Ok tt, s') -> send_inv s'.
Proof.
  intros Hi Hok Htr R. unfold transmit_fin in R. apply bind_ok_inv in R as (c & s1 & [= <- <-] & R). unfold Datatypes.id in R.
  assert (state s.1 ∉ [Closed; Connecting; SynSent; SynReceived]) as Hst by (clear -Htr; destruct (state s.1); set_solver).
  pose proof (tx_len_bound _ Hok) as Hl. pose proof (si_out _ Hi) as Ho.
  destruct (send_ok_cases _ _ Hst (si_conn _ Hi)) as (a & N & M & Hs & Hc).
  assert (M < 2 ^ 31) as HM by (destruct Hc as [(_ & HM & _)|[(_ & HM & _)|(_ & HM & _)]]; lia).
  rewrite (in_flight_synced _ _ _ _ _ Hs) in R by lia.
  destruct (tx_eof s.1) eqn:He; [|by injection R as <-]. cbn [andb] in R.
  destruct (Z.eqb_spec N (Z.of_nat (length (tx s.1)))) as [EN|]; [|by injection R as <-]. fold (tx_len s.1) in EN.
  apply bind_ok_inv in R as (send & s1 & R1 & R). destruct Hc as [(-> & HM1 & Hf & Hs1)|[(-> & HM1 & [Hf _] & Hs1)|(_ & _ & _ & _ & Hs1)]].
  - rewrite Hf in R1. rewrite !elem_of_cons in Hs1.
    assert (exists st, st ∈ [FinWait1; LastAck; Closing] /\ send = true /\ s1 = (s.1 <| state := st |>, s.2)) as (st & Hst' & -> & ->).
    { destruct Hs1 as [E|[E|E]]; [| |by apply elem_of_nil in E]; rewrite E in R1; injection R1 as <- <-; eexists; (split; [|done]); set_solver. }
    eapply (send_fin_out (s.1 <| state := st |>, s.2) s' N M); [exact Hs|exact EN|exact He|destruct Hok; by split|cbn; by rewrite He|exact Hst'|unfold tx_len in *; cbn; lia|exact R].
  - rewrite Hf in R1. injection R1 as <- <-. destruct (_ =? _); [|by injection R as <-].
    eapply (send_fin_out s s' N M); [exact Hs|exact EN|exact He|exact Hok|by rewrite He|exact Hs1|lia|exact R].
  - exfalso. clear -Hs1 Htr. destruct (state s.1); set_solver.
Qed.

Lemma send_transmit s s' : send_inv s -> conn_ok s.1 -> transmit (U:=Recorded U) s = (Ok tt, s') -> send_inv s'.
Proof.
  intros Hi Hok R. unfold transmit in R. apply bind_ok_inv in R as (c & s1 & [= <- <-] & R). unfold Datatypes.id in R.
  destruct (transmits (state s.1)) eqn:Htr; cbn [negb] in R; [|by injection R as <-].
  apply bind_ok_inv in R as ([] & s1 & R1 & R). destruct (send_transmit_loop _ _ _ Hi Hok Htr R1) as [Hi1 Hok1].
  apply keeps_transmit_loop in R1. rewrite <- R1 in Htr. apply bind_ok_inv in R as ([] & s2 & R2 & R).
  pose proof (send_transmit_fin _ _ Hi1 Hok1 Htr R2) as Hi2. apply bind_ok_inv in R as (c & s3 & [= <- <-] & R).
  destruct (_ && _); [|by injection R as <-]. exact (send_keeps _ _ _ _ tx_arm (closes_keeps _ keeps_arm) Hi2 R).
Qed.

Lemma send_fill_start s stop s' :
  send_inv s -> tx_eof s.1 = false -> state s.1 ∈ [SynReceived; Established; CloseWait] ->
  fill_tx (U:=Recorded U) (Z.to_nat TX_CAPACITY) (replicate (Z.to_nat READ_CHUNK) 0) s = (Ok stop, s') -> send_inv s'.
Proof. intros Hi He Hst. apply send_fill; [exact Hi|exact He|exact Hst|apply length_replicate]. Qed.

Lemma send_process s s' : send_inv s -> conn_ok s.1 -> process (U:=Recorded U) first_slice s = (Ok tt, s') -> send_inv s'.
Proof.
  intros Hi Hok R. unfold process in R. apply bind_ok_inv in R as (stop & s1 & R1 & R).
  pose proof (send_opening _ _ _ Hi R1) as Hi1.
  assert (conn_ok s1.1) as Hok1 by (eapply safe_ok; [apply safe_opening|exact Hok|exact R1]).
  destruct stop; [by injection R as <-|]. apply bind_ok_inv in R as ([] & s2 & R2 & R).
  pose proof (send_keeps _ _ _ _ tx_process_rx (closes_keeps _ (keeps_process_rx _)) Hi1 R2) as Hi2.
  pose proof (safe_ok _ _ _ _ (safe_process_rx first_slice first_slice_ok) Hok1 R2) as Hok2.
  apply bind_ok_inv in R as (c & s3 & [= <- <-] & R). unfold Datatypes.id in R. apply bind_ok_inv in R as (stop & s3 & R3 & R).
  assert (send_inv s3 /\ conn_ok s3.1) as [Hi3 Hok3].
  { assert (s3 = s2 \/ tx_eof s2.1 = false /\ state s2.1 ∈ [SynReceived; Established; CloseWait]
       /\ fill_tx (Z.to_nat TX_CAPACITY) (replicate (Z.to_nat READ_CHUNK) 0) s2 = (Ok stop, s3)) as [->|(He & Hst & R3')]; [|done|].
    { destruct (state s2.1); try (left; by injection R3); destruct (tx_eof s2.1); try (left; by injection R3); right; (split; [reflexivity|split; [clear; set_solver|exact R3]]). }
    split; [by eapply send_fill_start|by eapply safe_ok; [apply safe_fill_start| |exact R3']]. }
  clear R3. destruct stop; [by injection R as <-|]. apply bind_ok_inv in R as ([] & s4 & R4 & R).
  pose proof (send_transmit _ _ Hi3 Hok3 R4) as Hi4. apply bind_ok_inv in R as (c & s5 & [= <- <-] & R). unfold Datatypes.id in R.
  destruct (ack_pending s4.1); [|by injection R as <-].
  exact (send_keeps _ _ _ _ (tx_emit _ TCP_ACK eq_refl) (closes_keeps _ (keeps_emit _ _ _)) Hi4 R).
Qed.

Lemma send_run_op op s s' :
  send_pre s -> match op with OpInput h _ => is_u 32 (h_ack h) | OpStart => False | _ => True end ->
  run_op (U:=Recorded U) first_slice op s = (Ok tt, s') -> send_inv s'.
Proof.
  intros Hp Hop R. pose proof (sp_inv _ Hp) as Hi. destruct op as [|h payload| | | |]; cbn [run_op] in R.
  - done.
  - by eapply send_input.
  - by eapply send_on_timer.
  - eapply send_process; [done|apply Hp|exact R].
  - unfold abort in R. apply bind_ok_inv in R as (st & s1 & [= <- <-] & R). destruct (decide (state s.1 = Closed)); [by injection R as <-|].
    eapply send_abort; [by destruct Hi|exact R].
  - unfold end_time_wait in R. apply bind_ok_inv in R as (st & s1 & [= <- <-] & R).
    destruct (decide (state s.1 = TimeWait)); [|by injection R as <-]. eapply send_finish; [|exact R]. by destruct Hi.
Qed.

(** ** The connection *)

Definition same_iss (s s' : conn_state) : Prop := iss s'.1 = iss s.1.

#[local] Instance same_iss_preorder : PreOrder same_iss.
Proof. split; unfold same_iss; [done|congruence]. Qed.

Lemma iss_on_up {A} (f : Recorded U -> A * Recorded U) : frames same_iss (on_up f).
Proof. intros [c x]. unfold on_up. by destruct (f _). Qed.

Ltac iss_frame := repeat first [solve [eauto 2 with issf] | frame_step same_iss | apply iss_on_up].

Lemma iss_ack t a n : frames same_iss (set_conn (U:=Recorded U) (ack_new_data t a n)).
Proof. apply frames_modify. intros [c x]. apply ack_new_data_fields. Qed.

Lemma iss_emit seq flags payload : frames same_iss (emit (U:=Recorded U) seq flags payload).
Proof.
  unfold emit, rcv_wnd. iss_frame.
Qed.
Hint Resolve iss_ack iss_emit : issf.

Lemma iss_input h payload : frames same_iss (input (U:=Recorded U) h payload).
Proof.
  unfold input, input_syn_sent, input_synchronized, input_accepted, input_ack, input_data, take_data, input_fin, fast_retransmit,
    grow_cwnd, enter_time_wait, finish, send_syn_ack, arm_rtx, rcv_wnd. iss_frame.
  apply frames_modify. intros [c x]. unfold same_iss, rtt_update. cbn. repeat case_match; reflexivity.
Qed.

Lemma iss_on_timer : frames same_iss (on_timer (U:=Recorded U)).
Proof. unfold on_timer, on_rtx, finish, send_syn_ack, send_syn, send_rst, arm_rtx. iss_frame. Qed.

Lemma iss_fill fuel buf : frames same_iss (fill_tx (U:=Recorded U) fuel buf).
Proof. revert buf. induction fuel as [|fuel IH]; intros buf; cbn [fill_tx]; unfold send_rst, finish; iss_frame. Qed.

Lemma iss_drain fuel : frames same_iss (drain_rx (U:=Recorded U) first_slice fuel).
Proof. induction fuel as [|fuel IH]; cbn [drain_rx]; iss_frame. Qed.

Lemma iss_transmit_loop fuel : frames same_iss (transmit_loop (U:=Recorded U) fuel).
Proof. induction fuel as [|fuel IH]; cbn [transmit_loop]; unfold transmit_one, arm_rtx; iss_frame. Qed.
Hint Resolve iss_fill iss_drain iss_transmit_loop : issf.

Lemma iss_process : frames same_iss (process (U:=Recorded U) first_slice).
Proof.
  unfold process, process_opening, process_rx, transmit, transmit_fin, send_syn_ack, finish, arm_rtx, rcv_wnd. iss_frame.
Qed.

Lemma iss_run_op op : frames same_iss (run_op (U:=Recorded U) first_slice op).
Proof.
  destruct op; cbn [run_op]; [|apply iss_input|apply iss_on_timer|apply iss_process| |];
    unfold start_active, abort, end_time_wait, send_syn, send_rst, finish, arm_rtx; iss_frame.
Qed.

(** The segments of the guest, with an acknowledgement of 32 bits. *)
Definition any_input (op : conn_op) : Prop :=
  match op with OpInput h _ => is_u 32 (h_ack h) | OpStart => False | _ => True end.

(** A connection the guest opens or that is opened to it (its SYN is sent at
    once), over an upstream that has given nothing yet, through any operations,
    each after less than 2^32 - 2 bytes from the upstream. *)
Inductive send_reach : conn_state -> Prop :=
| sn_new i f syn is_ local t timeout u :
    is_u 32 is_ -> send_reach (new i f syn is_ local t timeout, MkCtx t (MkRec u [] []) [] [])
| sn_active i f is_ local t timeout u s :
    is_u 32 is_ -> start_active (new_active i f is_ local t timeout, MkCtx t (MkRec u [] []) [] []) = (Ok tt, s) -> send_reach s
| sn_op s t lg op s' :
    send_reach s -> bounded (given (up s.2)) -> any_input op ->
    run_op first_slice op (s.1, s.2 <| now := t |> <| log := lg |> <| out := [] |>) = (Ok tt, s') -> send_reach s'.

(** What holds after any operation. *)
Definition send_post (s : conn_state) : Prop := is_u 32 (iss s.1) /\ conn_ok s.1 /\ send_inv s.

Lemma post_op op s s' : send_pre s -> any_input op -> run_op first_slice op s = (Ok tt, s') -> send_post s'.
Proof.
  intros Hp Hop R. pose proof (iss_run_op op s) as F. rewrite R in F. unfold same_iss in F. cbn [snd] in F. split_and!.
  - rewrite F. apply Hp.
  - eapply safe_ok; [apply (safe_run_op first_slice first_slice_ok op)|apply Hp|exact R].
  - exact (send_run_op op s s' Hp Hop R).
Qed.

Lemma post_start s s' :
  is_u 32 (iss s.1) -> conn_ok s.1 -> state s.1 = SynSent -> snd_una s.1 = iss s.1 -> tx s.1 = [] -> given (up s.2) = [] ->
  fin_seq s.1 = None -> out s.2 = [] -> run_op first_slice OpStart s = (Ok tt, s') -> send_post s'.
Proof.
  intros Hi Hok Es Eu Et Eg Ef Eo R. pose proof (iss_run_op OpStart s) as F. rewrite R in F. unfold same_iss in F. cbn [snd] in F. split_and!.
  - by rewrite F.
  - eapply safe_ok; [apply (safe_run_op first_slice first_slice_ok OpStart)|exact Hok|exact R].
  - cbn [run_op] in R. unfold start_active in R. apply bind_ok_inv in R as (st & s1 & [= <- <-] & R).
    rewrite Es in R. destruct (decide (SynSent = SynSent)) as [_|]; [|done]. eapply send_send_syn; try done. rewrite Eo. constructor.
Qed.

Lemma new_post i f syn is_ local t timeout x :
  is_u 32 is_ -> given (up x) = [] -> out x = [] -> send_post (new i f syn is_ local t timeout, x).
Proof.
  intros Hi Eg Eo. split_and!; [exact Hi|apply conn_new_ok|]. split; cbn [fst snd]; rewrite Eg; [|rewrite Eo; constructor].
  unfold send_ok. cbn [new state]. by split_and!.
Qed.

Lemma pre_of_post s t lg :
  send_post s -> bounded (given (up s.2)) -> send_pre (s.1, s.2 <| now := t |> <| log := lg |> <| out := [] |>).
Proof. intros (Hi & Hok & [H _]) Hb. split; [exact Hi|exact Hok|exact Hb|]. split; [exact H|constructor]. Qed.

Lemma send_reach_post s : send_reach s -> send_post s.
Proof.
  induction 1 as [i f syn is_ local t timeout u Hi|i f is_ local t timeout u s Hi R|s t lg op s' _ IH Hb Hop R].
  - by apply new_post.
  - refine (post_start (new_active i f is_ local t timeout, MkCtx t (MkRec u [] []) [] []) s Hi (new_active_ok _ _ _ _ _ _) _ _ _ _ _ _ R); reflexivity.
  - eapply (post_op op _ s'); [by apply pre_of_post|exact Hop|exact R].
Qed.

(** C37: The bytes of the upstream reach the guest at their place. Through any
    acknowledgements, windows, timeouts, fast retransmissions and resets, and
    as long as each operation starts with less than 2^32 - 2 bytes given, every
    segment with data carries at its sequence number a piece of what the
    upstream has given, the byte at offset [o] of the stream under the number
    [iss + 1 + o]; a FIN comes only after the upstream's end of stream, with the
    number after its last byte. *)
Theorem upstream_bytes_in_place c x :
  send_reach (c, x) ->
  Forall (fun g =>
    (seg_payload g <> [] -> exists o : nat, seg_seq g = u32 (iss c + 1 + Z.of_nat o) /\ seg_payload g `prefix_of` drop o (given (up x)))
    /\ (test_mask (seg_flags g) TCP_FIN = true -> tx_eof c = true /\ seg_seq g = u32 (iss c + 1 + Z.of_nat (length (given (up x)))))) (out x).
Proof. intros H. apply send_reach_post in H as (_ & _ & [_ Ho]). exact Ho. Qed.

End sending.
End tcpsend.
