(* ===== verification/NetRuns.v ===== *)
(** * Runs of a connection (crates/vetro-net/src/tcp.rs)

    An upstream with bytes to give that takes all it is written, and
    connections over it: one the guest opens and one opened to it. And what an
    acknowledgement does once 2^32 - 1 bytes have been sent. *)

From Stdlib Require Import ZArith Lia Bool.
From stdpp Require Import base list numbers strings relations.
From S2P Require Import Prelude Bits SnapWire NetWire NetTcp NetTcpProof NetTcpStream NetTcpSend.
Local Open Scope Z_scope.
Local Open Scope vetro_scope.

Module netrun.
Import wire net tcp tcpproof tcpstream tcpsend.

(** The bytes the remote end has still to give. *)
Record Feed := MkFeed { to_give : list Z }.

#[export] Instance feed_up : Upstream Feed := {|
  tcp_open _ _ _ u := u;
  tcp_status _ _ u := (Connected, u);
  tcp_write _ _ chunk u := (length chunk, u);
  tcp_read _ _ buf u :=
    match to_give u with
    | [] => (WouldBlock, buf, u)
    | l => (Data (length l), take (length buf) l ++ drop (length l) buf, MkFeed (drop (length buf) l))
    end;
  tcp_shutdown _ _ u := u;
  tcp_close _ _ _ u := u;
  udp_send _ _ _ _ u := u;
  udp_recv _ u := (None, u);
  udp_close _ _ u := u;
  ping _ _ u := (false, u);
|}.

#[export] Instance feed_laws : UpstreamLaws Feed.
Proof.
  split. intros t i buf [l]. cbn [tcp_read feed_up to_give]. destruct l as [|b l]; [done|]. cbn [fst snd].
  rewrite length_app, length_take, length_drop. lia.
Qed.

(** A receive buffer that does not wrap around: one slice. *)
Definition one_slice (c : TcpConn) : nat := length (rx c).

Lemma one_slice_ok c : rx c <> [] -> (0 < one_slice c <= length (rx c))%nat.
Proof. unfold one_slice. destruct (rx c); [done|]. cbn [length]. lia. Qed.

(** An operation at time [t], with the segments of this operation only. *)
Definition then_op (t : Z) (op : conn_op) (s : TcpConn * Ctx (Recorded Feed)) : TcpConn * Ctx (Recorded Feed) :=
  (run_op one_slice op (s.1, s.2 <| now := t |> <| log := [] |> <| out := [] |>)).2.

Definition flow1 : Flow := MkFlow (MkSock 0x0A000202 40000) (MkSock 0x01020304 80).

(** The guest connects, the remote end has three bytes for it. *)
Definition passive0 : TcpConn * Ctx (Recorded Feed) :=
  (new 1 flow1 (MkTcpHeader 40000 80 1000 0 TCP_SYN 64000 (Some 1460) true) 5000 1460 0 1000000,
   MkCtx 0 (MkRec (MkFeed [1; 2; 3]) [] []) [] []).

Definition ack_of_syn : conn_op := OpInput (MkTcpHeader 40000 80 1001 5001 TCP_ACK 64000 None true) [].

Definition passive1 := then_op 10 OpProcess passive0.
Definition passive2 := then_op 20 ack_of_syn passive1.
Definition passive3 := then_op 20 OpProcess passive2.

Example passive_sends : map (fun g => (seg_seq g, seg_payload g)) (out passive3.2) = [(5001, [1; 2; 3])].
Proof. vm_compute. reflexivity. Qed.

(** The segment with the data of the remote end. *)
Lemma upstream_bytes_in_place_witness :
  out passive3.2 <> [] /\
  Forall (fun g =>
    (seg_payload g <> [] -> exists o : nat, seg_seq g = u32 (iss passive3.1 + 1 + Z.of_nat o) /\ seg_payload g `prefix_of` drop o (given (up passive3.2)))
    /\ (test_mask (seg_flags g) TCP_FIN = true -> tx_eof passive3.1 = true
        /\ seg_seq g = u32 (iss passive3.1 + 1 + Z.of_nat (length (given (up passive3.2)))))) (out passive3.2).
Proof.
  split; [vm_compute; discriminate|].
  apply (upstream_bytes_in_place one_slice one_slice_ok passive3.1 passive3.2).
  apply (sn_op _ passive2 20 [] OpProcess); [|vm_compute; reflexivity|done|vm_compute; reflexivity].
  apply (sn_op _ passive1 20 [] ack_of_syn); [|vm_compute; reflexivity|done|vm_compute; reflexivity].
  apply (sn_op _ passive0 10 [] OpProcess); [|vm_compute; reflexivity|done|vm_compute; reflexivity].
  apply sn_new. done.
Defined.


(** A connection to a guest that sends two bytes. *)
Definition active0 : TcpConn * Ctx (Recorded Feed) :=
  (new_active 2 flow1 7000 1460 0 1000000, MkCtx 0 (MkRec (MkFeed []) [] []) [] []).

Definition syn_ack : conn_op := OpInput (MkTcpHeader 40000 80 100 7001 (Z.lor TCP_SYN TCP_ACK) 64000 (Some 1460) true) [].
Definition two_bytes : conn_op := OpInput (MkTcpHeader 40000 80 101 7001 TCP_ACK 64000 None true) [7; 8].

Definition active1 := then_op 1 OpStart active0.
Definition active2 := then_op 2 syn_ack active1.
Definition active3 := then_op 3 two_bytes active2.
Definition active4 := then_op 4 OpProcess active3.


(** ** Sequence numbers that come round *)

(** After 2^32 - 1 bytes the oldest number not acknowledged is the initial one
    again. *)
Example numbers_come_round i : is_u 32 i -> u32 (i + 1 + (2 ^ 32 - 1)) = i.
Proof. unfold is_u, u32. intros. replace (i + 1 + (2 ^ 32 - 1)) with (i + 1 * 2 ^ 32) by lia. rewrite Z_mod_plus_full. by apply Z.mod_small. Qed.

(** The test for the SYN is [snd_una = iss]. A connection whose oldest
    number is the initial one again takes an acknowledgement of [n] bytes for
    one of the SYN and [n - 1] bytes: the last byte acknowledged stays at the
    head of the buffer, under the number of the byte after it. *)
Theorem acknowledgement_after_wrap c t n :
  is_u 32 (snd_una c) -> snd_una c = iss c -> fin_seq c = None -> (0 < n <= length (tx c))%nat -> Z.of_nat n < 2 ^ 31 ->
  let a := u32 (snd_una c + Z.of_nat n) in
  let c' := ack_new_data t a (acked_bytes a c).1 c in
  snd_una c' = a /\ tx c' = drop (n - 1) (tx c).
Proof.
  intros Hu Hi Hf Hn Hmax a c'. assert (acked_bytes a c = ((n - 1)%nat, false)) as E.
  { unfold acked_bytes. rewrite Hf, Hi, Z.eqb_refl. f_equal. unfold a, is_u in *. rewrite <- Hi.
    assert (u32 (u32 (snd_una c + Z.of_nat n) - snd_una c) = Z.of_nat n) as ->.
    { unfold u32. rewrite Zminus_mod_idemp_l, Z.mod_small; lia. }
    unfold u32. rewrite Z.mod_small; lia. }
  subst c'. rewrite E. unfold ack_new_data, rtt_update. cbv zeta. cbn [fst]. split; repeat (case_match; cbn); done.
Qed.

End netrun.
